(* ===== verification/_CoqProject ===== *)
-Q . S2P
Prelude.v
RustFloat.v
RustStr.v
Model.v
Tokenizer.v
Parser.v
Evaluator.v
Topo.v
Engine.v
Runner.v
Csv.v
Protocol.v
Frame.v
Tracking.v
TrackerOpen.v
Transaction.v
Transport.v
FailureLog.v
Frames.v
Acquisition.v
CommModel.v
UnitReport.v
CommConfig.v
Points.v
Mailbox.v
Line.v
Stream.v
Poller.v
Maintenance.v
Persist.v
Operations.v
VersionQuery.v
Worker.v
WorkerLive.v
Ingress.v
Namespace.v
OpcSync.v
Topology.v
StationSync.v
Utf8.v
LogFiles.v
ConfigSet.v
Startup.v
ConfigFiles.v
ConfigWrite.v
HttpAck.v
LogPush.v
ConfigForm.v
