(* ===== verification/Prelude.v ===== *)
(** * The RCD acquisition server: a verification development

    The program (src/) polls relay and control devices over serial lines,
    decodes their status frames into named points (KKS names), derives further
    points with user formulas, publishes everything to OPC UA, TCP clients and
    a forwarding process, and carries control commands back to the lines with
    an audit journal.

    ** Parts, files and sources

    - [Prelude] (this file): Rust's [Result] as a monad, machine-width integer
      helpers, the development's tactics, hints and shared list lemmas.
      [RustFloat] and [RustStr]: what the sources use of [f64], [f32], [char]
      and [str].
    - [Model] (src/src/model): values, device status, runtime switches, command
      and version types.
    - The formula language (src/src/calc_engine): [Tokenizer]
      (tokenizer.rs), [Parser] (parser.rs), [Evaluator] (evaluator.rs).  On top
      of it [Topo] (the graph loop of [topological_sort]), [Engine]
      (engine.rs and config.rs: compilation, ordering, one cycle) and [Runner]
      (runner.rs: the variable table that device updates feed).
    - [Csv] (src/src/csv_parser.rs): the point table of a device, its
      validation before saving and its parsing at start-up.  [Protocol]
      (src/src/protocol.rs): response frames and the extraction of the points
      of such a table.
    - [Frame] (src/communicate/src/frame.rs): the compressed, checksummed
      envelope of the link to the forwarding process and its stream decoder.
    - [Tracking] (src/src/command_tracking.rs): admission of commands, bounded
      memory, the SQLite journal and the writer thread.  [TrackerOpen] (the same
      file): [Tracker::open] with the recovery of the journal file, the inventory
      of the commands of earlier processes and the cold lookups, and the tracker
      run together with its file.  [Transaction]
      (src/src/serial/command_transaction.rs, command_audit.rs,
      command_pacing.rs): the execution of one admitted command, which updates
      the tracker with [Tracking.update].
    - [Transport] (src/src/serial/transport.rs and the send path of
      src/src/serial/manager.rs): I/O against deadlines.  [FailureLog]
      (manager.rs): the three log limiters.  [Frames] (manager.rs): how many
      bytes make a frame.  [Acquisition] (manager.rs, parts of worker.rs,
      runtime_cache.rs, broadcast.rs): the state of a [SerialManager] and its
      operations, which use [Transport], [Frames], [Protocol] and [FailureLog].
      [VersionQuery] (version_transaction.rs, manager.rs): station version
      queries.  [Worker] (worker.rs): the thread of a port, which composes
      [Acquisition], [Transaction], [VersionQuery] and the console;
      [WorkerLive]: its termination.
    - The forwarding process (src/communicate/src): [CommModel] (the data of
      config.rs, points.rs and synchronization.rs), [UnitReport]
      (unit_report.rs: the two report layouts and their codecs), [CommConfig]
      (validation of a configuration and the registry of protocol.rs),
      [Points] (points.rs: the store clients read), [Mailbox]
      (synchronization.rs: what may be transmitted), [Line] (serial.rs),
      [Stream] (synchronization.rs: the loop of a synchronization port, on top
      of [Frame], [Points], [Mailbox] and [Line]) and [Poller] (poller.rs:
      the worker of a port, polled or streaming).
    - The operations console (src/src/operations): [Maintenance]
      (maintenance.rs: the fence that stops mutations during a deployment),
      [Persist] (mod.rs: how its state reaches the disk), [Operations]
      (mod.rs: settings, permits, station versions and control receipts),
      [LogFiles] on [Utf8] (files.rs: the log pages), [ConfigSet] (files.rs:
      the validation of a configuration set) and [ConfigFiles] (files.rs: every
      file-system call of reading and writing configuration files), with
      [ConfigWrite] for what these calls amount to.
    - The OPC UA server (src/src/server): [Ingress] (opcua.rs,
      opcua/tracked_commands.rs: how a client's command enters and how its
      status returns, on top of [Tracking], [Operations] and [Maintenance]),
      [Namespace] (opcua.rs, file_scanner.rs, port_config.rs: tables, ports,
      names and nodes), [OpcSync] (opcua.rs, runtime_cache.rs, broadcast.rs: the
      values of the nodes, on top of [Runner] and [Acquisition]), [Topology]
      (topology.rs: manifest and metadata nodes) and [StationSync] (topology.rs,
      operations.rs: the station versions, on top of [Operations]).
    - [Startup] (main.rs, config.rs, calc_engine/config.rs): what the process
      does with its configuration directory; it composes [Csv], [Engine],
      [Namespace] and [Topology] and is compared with [ConfigSet].
    - [HttpAck] and [LogPush] (log_push.rs): the delivery of log records to the
      manager.
    - [ConfigForm] (src/crates/rcd-config-form): the form of a configuration file
      both programs offer, and the edits made with it.

    ** How the code is rendered

    Pure functions are functions.  [Result] is [result], a panic is [None]:
    out-of-range indexing, [unwrap] and [clamp] are not assumed away.  A
    [SerialManager] is the record [Manager] passed through its operations.
    A driver is a record of answers, one for each numbered call, so that a
    theorem over every driver covers every delay, fragmentation and error.
    The tracker and its writer thread are a step relation on the memory and
    the stored tables ([Tracking.step]); the operations of a worker are another
    one ([Acquisition.acq_step]).  The same holds for the point store, the
    maintenance gate with its callers and crashes, and the operations state
    ([Points.store_step], [Maintenance.gate_step], [Operations.ops_step]);
    what another thread may do to the mailboxes between two rounds of a stream
    is a list of operations ([Mailbox.run_ops]).  The adapters of a protocol
    are a type class ([CommConfig.DeviceProtocol]) against which [Stream] and
    [Poller] are proved, with the unit reports as its instance.  A transaction is a program in a state monad
    with panics, with a weakest-precondition calculus in [Transaction].  The worker
    is one more monad, [Worker.W] (out of fuel, unwinding, or a value), with the
    calculus [Worker.wpw]; its environment [WorkerEnv] gives the commands that
    arrive and an arbitrary change of the shared state before each receive, so
    that the theorems hold for every behaviour of the other threads.

    Integers are [Z] with the wrap-around, saturation and checks of the source
    written out; the failure counters of [Manager] ([u32] in the source, and
    reset on every success) are the one exception.  Bytes are [Z] under [is_u8].  Floats
    are the Standard Library's [spec_float].  Text is bytes; case conversion
    and trimming are the ASCII ones.

    Parameters stand for code of other packages: the rows and the
    deserialisation of the csv crate ([csv_rows], [deserialize]), zlib and
    CRC-32 ([zlib_compress], [zlib_decompress], [crc32]), SHA-256 ([sha256]),
    TOML and JSON texts, the canonical path of a device, the file system
    ([FsEnv]), the serial driver and the clock ([Driver], [Env], [Line]).  What is assumed of them is a
    hypothesis of the theorem: inflating what was deflated gives it back,
    a checksum fits [u32], a deserialised record has [u32] fields, the csv crate
    skips one byte-order mark.

    ** What the theorems show

    - Commands.  An identity is admitted at most once, across evictions and
      failures, and one the journal file holds at start-up is not admitted while
      its row is there, nor at all when the inventory of the file was readable
      ([command_admitted_once]); the journal keeps
      every command's latest evidence and its cursor skips none
      ([journal_keeps_evidence], [saved_above_ceiling]); a transaction sends
      within its attempts and deadline, releases its permit once, and notifies
      its end once when it returns and reports its acknowledgement, never when it
      panics ([transaction_trace]); it agrees with its journal entry and audit
      line ([transaction_tracked], [transaction_audited]).
    - Acquisition.  A device shows good values only from a valid frame, and
      none on a closed port if the driver never answers a write on an open port
      with NotConnected ([acquisition_never_stale]); a response that
      arrives in time is published however it is fragmented
      ([fragmented_response_published]); suppression hides nothing
      ([broadcasts_current]); roles change only as configured
      ([failover_guarded]); reception and transmission end
      ([reception_terminates], [transmit_frame_returns]) and put exactly the
      command on the wire within its budget ([transmit_frame_exact],
      [transmit_timeout_bounds]); the failure log counts everything
      ([failure_log_accounts]).
    - Worker.  Every command that arrives is notified, released and answered
      exactly once, except the notification or the receipt that a panic cuts off,
      which are accounted for ([worker_settles_every_command]); a disabled
      port or device gets no command ([disabled_ports_get_no_command]); the loop
      refines the steps of the manager and keeps its invariant
      ([worker_never_stale]); a cancelled worker stops with nothing left
      ([cancelled_worker_stops]); a version query disturbs no polling
      ([version_query_isolated]).
    - Decoding.  The frame parsers accept exactly the protocol's frames
      ([parse_data_packet_iff], [parse_station_version_response_iff]); points
      are the bit fields they describe ([little_endian_bit_field]); a
      validated table is read exactly, with either meaning of its length, and is
      what the server loads
      ([validated_table_reads_every_point], [validated_content_parses],
      [strict_is_lenient_without_warnings]); commands survive their text
      ([command_hex_round_trip]).
    - OPC UA.  A client command is handed to a worker at most once, as the
      client submitted it, and its send node shows the status of the right command ([commands_enter_once],
      [status_of_the_right_command]); the address space holds exactly the planned
      nodes, tables are grouped without loss, the manifest is complete and its
      publication succeeds ([address_space_built], [tables_grouped],
      [manifest_complete], [topology_published]); the nodes follow the cache,
      with the right types, and a full resynchronisation changes nothing in a
      quiet server ([nodes_show_the_cache], [update_task_keeps_types],
      [quiet_server_is_synchronised]); the station versions follow the operations
      state ([station_metadata_follows]).
    - Forwarding.  Only complete and fresh inputs are offered and sent, in
      intervals and never into an unfinished incoming frame
      ([sent_only_fresh_inputs], [sends_fresh_spaced_and_idle],
      [inputs_compare_and_swap]); what clients see as good is the last snapshot
      of a peer that is not silent ([good_points_are_fresh]), in the declared
      type, whole batches at a time ([store_always_typed],
      [publish_all_or_nothing]), and a validated configuration loses no
      report ([validated_report_publishes], [writes_read_back]); a worker
      without a connection shows no good data, no task starves, and a stream
      never hangs ([disconnected_worker_shows_no_good_data],
      [due_task_is_served], [stream_rounds_total]).
    - Console.  After an acknowledged [enter] nothing is admitted until its
      owner leaves a drained gateway, and generations only grow ([fence_blocks_admission],
      [fence_generations]); a port has one operation at a time
      ([one_operation_per_port]); settings change by compare and swap, are
      saved first and survive a restart ([settings_compare_and_swap],
      [settings_survive_restart], [station_save_is_atomic]).
      [stale_receipt_is_current] is a counterexample: a receipt of an
      invalidated control can be taken for the one of a later request.
      The pages of a log are the log, or its matching lines, whatever happens to
      the file in between, and reading ends ([log_pages_reassemble],
      [next_page_continues], [log_reading_ends]).  A validation report is bounded
      ([validation_report_bounded]), and a set without errors, whose tables have
      names the console knows and at most one byte-order mark, is one the process
      starts with ([accepted_set_starts]).  A write replaces one file in one call
      after a complete backup, however others interfere
      ([config_write_commits_once]), and without interference it is a compare and
      swap of one map ([config_write_is_compare_and_swap]).  A form edits exactly
      the values it is asked to and shows no secret ([config_form_edits_exactly]).
    - Log push.  No record is lost silently, each queue is first in first out,
      batches have no gaps, and what waits survives a restart if no save failed
      ([log_push_keeps_records]); the chunked
      answer is decoded exactly ([decode_chunked_iff]).
    - Envelope.  Round trip, independence of fragmentation and a byte-exact
      account of arbitrary input ([encode_decode_round_trip],
      [feed_fragmented_frames], [feed_accounts_for_every_byte],
      [recover_expired_empties]).
    - Formulas.  Lexing and parsing accept exactly the language and are total
      ([parse_text_exact], [parse_total], [tokenize_error_position]); evaluation fails
      only as documented, stays in [i64] and tracks validity exactly
      ([evaluation_fails_as_documented], [evaluate_wf],
      [validity_flag_exact]); an engine orders its rules, drops only cycles,
      never panics, respects types and limits, and a cycle solves its equations
      with sound quality ([new_builds_ordered_engine], [new_acyclic_complete],
      [run_cycle_total_in_range], [run_cycle_consistent],
      [run_cycle_quality_sound]); incremental updates equal a rebuild
      ([updates_equal_rebuild], [rebuild_last_writer_wins]).

    ** Fuel

    The tokenizer runs on the length of the text, the parser on the number of
    tokens, the frame scanners on the length of the buffer, Kahn's loop on the
    number of rules, [write_loop] on the length of the data: each is proved
    never to run out, since every round consumes.  The read and acknowledgement loops take
    the size of their receive buffers, since every round that continues reads
    a byte.  Only the polling of the output queue ([Transport.drain]) depends
    on the clock: its fuel is an argument, and [transmit_frame_returns] shows
    that enough exists for every clock that advances.  The writes, the
    quarantine, the exchange and the waits of the forwarding process have
    clock-bounded loops as well: [stream_rounds_total] gives the fuel of a
    stream, and the theorems about rounds hold for every number of them.
    The worker's [fuel] is that of its sends and [rounds] bounds the emptying
    of the channel at shutdown: [cancelled_worker_stops] shows that a clock
    which passes a transmit deadline within [fuel] calls, and more [rounds] than
    commands arrive, are enough.

    The stages of a caller in [Ingress] are eight, so its calls are straight
    lines; the channel of [OpcSync] holds the 128 messages of the source.  A log
    is read with more pages than it has bytes, the look-back of a page with more
    rounds than bytes before it, the UTF-8 scanners with the length of the text,
    the chunked decoder with more rounds than the body has bytes, and the dropping
    of spooled events with their number; [log_reading_ends], [decode_chunked_iff]
    and the lemmas on [utf8_loop] show that this is enough.

    ** What is not modelled

    Log texts, JSON and OPC UA renderings, socket I/O, thread and channel
    plumbing.  Updates by other threads are not interleaved inside a
    transaction ([Tracking] interleaves them between its steps).  Whole parts
    left out: the TCP server and the dispatch of requests of the console,
    calculation mode and logging level of the console, the set-up of logging, signals and shutdown,
    the OPC UA server and process of communicate, the vendored libraries and the
    tools.  The body of an Events answer of the journal and its paging are left
    out as well. *)

From Stdlib Require Export ZArith Lia Bool List Ascii String.
From stdpp Require Export base gmap strings list option fin_maps.

#[global] Set Default Goal Selector "!".

(** ** Results

    Rust's [Result<A, E>].  The error type comes first so that [result E] is
    a monad; [x ← m; k] is the [?] operator. *)

Inductive result (E A : Type) : Type :=
| Ok (a : A)
| Err (e : E).
Arguments Ok {E A} a.
Arguments Err {E A} e.

#[export] Instance result_ret E : MRet (result E) := fun A a => Ok a.
#[export] Instance result_bind E : MBind (result E) := fun A B f m =>
  match m with Ok a => f a | Err e => Err e end.
#[export] Instance result_fmap E : FMap (result E) := fun A B f m =>
  match m with Ok a => Ok (f a) | Err e => Err e end.

Definition map_err {E F A} (f : E -> F) (m : result E A) : result F A :=
  match m with Ok a => Ok a | Err e => Err (f e) end.

Definition ok_or {E A} (e : E) (o : option A) : result E A :=
  match o with Some a => Ok a | None => Err e end.

Definition is_ok {E A} (m : result E A) : bool :=
  match m with Ok _ => true | Err _ => false end.

#[export] Instance result_eq_dec `{EqDecision E, EqDecision A} : EqDecision (result E A).
Proof. solve_decision. Defined.

(** ** Automation

    [rcd] is the hint database of the development; [inv_result] inverts the
    result monad's bind in the hypotheses. *)

Create HintDb rcd.
#[export] Hint Extern 4 (_ < _)%nat => lia : rcd.
#[export] Hint Extern 4 (_ <= _)%nat => lia : rcd.
#[export] Hint Extern 4 (_ < _)%Z => lia : rcd.
#[export] Hint Extern 4 (_ <= _)%Z => lia : rcd.

Lemma bind_Ok {E A B} (m : result E A) (f : A -> result E B) b :
  m ≫= f = Ok b <-> exists a, m = Ok a /\ f a = Ok b.
Proof. destruct m; naive_solver. Qed.

Lemma bind_Err {E A B} (m : result E A) (f : A -> result E B) e :
  m ≫= f = Err e <-> m = Err e \/ exists a, m = Ok a /\ f a = Err e.
Proof. destruct m; naive_solver. Qed.

Lemma fmap_Ok {E A B} (m : result E A) (f : A -> B) b :
  f <$> m = Ok b <-> exists a, m = Ok a /\ f a = b.
Proof. destruct m; naive_solver. Qed.

Lemma ok_or_Ok {E A} (e : E) (o : option A) a : ok_or e o = Ok a <-> o = Some a.
Proof. destruct o; naive_solver. Qed.

(** Case analysis on every [match] and [if] of a hypothesis or the goal. *)
Ltac case_all :=
  repeat (case_match || case_decide || simplify_eq/=).

Ltac inv_result :=
  repeat match goal with
  | H : _ ≫= _ = Ok _ |- _ => apply bind_Ok in H; destruct H as (? & ? & H)
  | H : _ <$> _ = Ok _ |- _ => apply fmap_Ok in H; destruct H as (? & ? & H)
  | H : ok_or _ _ = Ok _ |- _ => apply ok_or_Ok in H
  | H : Ok _ = Ok _ |- _ => injection H as H
  | H : Ok _ = Err _ |- _ => discriminate H
  | H : Err _ = Ok _ |- _ => discriminate H
  | H : mret _ = Ok _ |- _ => unfold mret, result_ret in H
  end; subst.

(** ** Machine integers

    A [w]-bit unsigned integer is a [Z] in [0 .. 2^w - 1]; every wrapping,
    saturating or checked operation of the source is written out. *)

Open Scope Z_scope.

Definition u8_max : Z := 255.
Definition u16_max : Z := 65535.
Definition u32_max : Z := 4294967295.
Definition u64_max : Z := 18446744073709551615.
Definition i64_min : Z := -9223372036854775808.
Definition i64_max : Z := 9223372036854775807.

Definition is_u8 (z : Z) : Prop := 0 <= z <= u8_max.
Definition is_u16 (z : Z) : Prop := 0 <= z <= u16_max.
Definition is_u32 (z : Z) : Prop := 0 <= z <= u32_max.
Definition is_u64 (z : Z) : Prop := 0 <= z <= u64_max.
Definition is_i64 (z : Z) : Prop := i64_min <= z <= i64_max.

#[export] Hint Unfold is_u8 is_u16 is_u32 is_u64 is_i64 : rcd.

Definition in_i64 (z : Z) : bool := (i64_min <=? z) && (z <=? i64_max).

(** [checked_add] and friends: [None] on overflow. *)
Definition i64_checked (z : Z) : option Z := if in_i64 z then Some z else None.

Definition u8_wrapping_add (a b : Z) : Z := (a + b) mod 256.
Definition u32_saturating_add (a b : Z) : Z := Z.min (a + b) u32_max.
Definition u64_saturating_add (a b : Z) : Z := Z.min (a + b) u64_max.
Definition u64_saturating_sub (a b : Z) : Z := Z.max (a - b) 0.
Definition u64_checked_add (a b : Z) : option Z :=
  if a + b <=? u64_max then Some (a + b) else None.

(** Two's complement: the value of [z] truncated to [i64]. *)
Definition i64_wrap (z : Z) : Z := (z + 2 ^ 63) mod 2 ^ 64 - 2 ^ 63.

Lemma i64_wrap_range z : is_i64 (i64_wrap z).
Proof.
  unfold is_i64, i64_wrap, i64_min, i64_max.
  pose proof (Z.mod_pos_bound (z + 2 ^ 63) (2 ^ 64) ltac:(lia)). lia.
Qed.

Lemma i64_wrap_id z : is_i64 z -> i64_wrap z = z.
Proof.
  unfold is_i64, i64_wrap, i64_min, i64_max. intros.
  rewrite Z.mod_small by lia. lia.
Qed.

Lemma i64_checked_Some z r : i64_checked z = Some r <-> r = z /\ is_i64 z.
Proof.
  unfold i64_checked, in_i64, is_i64. case_match eqn:E; [|split; [done|]].
  - rewrite andb_true_iff, !Z.leb_le in E. naive_solver.
  - intros [_ ?]. rewrite andb_false_iff, !Z.leb_gt in E. lia.
Qed.

Lemma u8_wrapping_add_range a b : is_u8 (u8_wrapping_add a b).
Proof.
  unfold is_u8, u8_wrapping_add, u8_max.
  pose proof (Z.mod_pos_bound (a + b) 256 ltac:(lia)). lia.
Qed.
#[export] Hint Resolve i64_wrap_range u8_wrapping_add_range : rcd.

(** ** Durations and instants, in nanoseconds *)

Definition DURATION_MAX : Z := (2 ^ 64 - 1) * 1000000000 + 999999999.
Definition duration_saturating_add (a b : Z) : Z := Z.min (a + b) DURATION_MAX.
Definition duration_saturating_sub (a b : Z) : Z := Z.max (a - b) 0.
Definition millis (n : Z) : Z := n * 1000000.

(** ** Little- and big-endian byte strings *)

Fixpoint le_value (bs : list Z) : Z :=
  match bs with [] => 0 | b :: bs => b + 256 * le_value bs end.

Fixpoint to_le_bytes (n : nat) (z : Z) : list Z :=
  match n with O => [] | S n => z mod 256 :: to_le_bytes n (z / 256) end.

Fixpoint be_value_acc (acc : Z) (bs : list Z) : Z :=
  match bs with [] => acc | b :: bs => be_value_acc (256 * acc + b) bs end.
Definition be_value (bs : list Z) : Z := be_value_acc 0 bs.

Lemma length_to_le_bytes n z : length (to_le_bytes n z) = n.
Proof. revert z; induction n; intros; simpl; auto. Qed.

Lemma to_le_bytes_u8 n z : Forall is_u8 (to_le_bytes n z).
Proof.
  revert z; induction n; intros z; simpl; constructor; auto.
  unfold is_u8, u8_max. pose proof (Z.mod_pos_bound z 256 ltac:(lia)). lia.
Qed.

Lemma le_value_to_le_bytes n z : 0 <= z < 256 ^ Z.of_nat n -> le_value (to_le_bytes n z) = z.
Proof.
  revert z; induction n as [|n IH]; intros z Hz; simpl.
  - change (256 ^ Z.of_nat 0) with 1 in Hz. lia.
  - rewrite Nat2Z.inj_succ, Z.pow_succ_r in Hz by lia.
    rewrite IH.
    + pose proof (Z.div_mod z 256 ltac:(lia)). lia.
    + split; [apply Z.div_pos; lia|apply Z.div_lt_upper_bound; lia].
Qed.

Lemma le_value_range bs : Forall is_u8 bs -> 0 <= le_value bs < 256 ^ Z.of_nat (length bs).
Proof.
  induction 1 as [|b bs Hb _ IH]; [done|].
  cbn [le_value length]. rewrite Nat2Z.inj_succ, Z.pow_succ_r by lia.
  unfold is_u8, u8_max in Hb. lia.
Qed.

(** ** Lists *)

Definition sum_wrapping (bs : list Z) : Z := foldl u8_wrapping_add 0 bs.

Lemma foldl_wrapping_add acc bs :
  foldl u8_wrapping_add (acc mod 256) bs = (acc + foldr Z.add 0 bs) mod 256.
Proof.
  revert acc; induction bs as [|b bs IH]; intros acc; simpl.
  - by rewrite Z.add_0_r.
  - unfold u8_wrapping_add at 2. rewrite Zplus_mod_idemp_l, IH. f_equal. lia.
Qed.

Lemma sum_wrapping_spec bs : sum_wrapping bs = foldr Z.add 0 bs mod 256.
Proof. unfold sum_wrapping. apply (foldl_wrapping_add 0). Qed.

Lemma foldr_add_app (l k : list Z) : foldr Z.add 0 (l ++ k) = foldr Z.add 0 l + foldr Z.add 0 k.
Proof. induction l; simpl; lia. Qed.

Lemma sum_wrapping_app l k : sum_wrapping (l ++ k) = (sum_wrapping l + sum_wrapping k) mod 256.
Proof. by rewrite !sum_wrapping_spec, foldr_add_app, <- Zplus_mod. Qed.

Lemma sum_wrapping_u8 bs : is_u8 (sum_wrapping bs).
Proof.
  rewrite sum_wrapping_spec. unfold is_u8, u8_max.
  pose proof (Z.mod_pos_bound (foldr Z.add 0 bs) 256 ltac:(lia)). lia.
Qed.
#[export] Hint Resolve length_to_le_bytes to_le_bytes_u8 sum_wrapping_u8 : rcd.

(** A slice [l[a..b]]. *)
Definition slice {A} (a b : nat) (l : list A) : list A := take (b - a) (drop a l).

Lemma length_slice {A} a b (l : list A) :
  (a <= b)%nat -> (b <= length l)%nat -> length (slice a b l) = (b - a)%nat.
Proof. intros. unfold slice. rewrite length_take, length_drop. lia. Qed.

Lemma slice_app_prefix {A} (l1 l2 l3 : list A) :
  slice (length l1) (length l1 + length l2) (l1 ++ l2 ++ l3) = l2.
Proof.
  unfold slice. rewrite drop_app_length.
  replace (length l1 + length l2 - length l1)%nat with (length l2) by lia.
  by rewrite take_app_length.
Qed.

(** A loop over [l] that stops at the first failing step. *)
Fixpoint foldM {A B} (f : B -> A -> option B) (b : B) (l : list A) : option B :=
  match l with [] => Some b | a :: l => b' ← f b a; foldM f b' l end.

Lemma foldM_app {A B} (f : B -> A -> option B) b l k :
  foldM f b (l ++ k) = (b' ← foldM f b l; foldM f b' k).
Proof. revert b; induction l as [|a l IH]; intros b; simpl; [done|]. by destruct (f b a); simpl. Qed.

(** [iter().enumerate()]. *)
Definition enumerate {A} (l : list A) : list (nat * A) := zip (seq 0 (length l)) l.

Lemma elem_of_enumerate {A} (l : list A) i x : (i, x) ∈ enumerate l <-> l !! i = Some x.
Proof.
  unfold enumerate. rewrite list_elem_of_lookup. setoid_rewrite lookup_zip_Some.
  setoid_rewrite lookup_seq. split.
  - intros (k & [Hk _] & Hx). by simplify_eq/=.
  - intros H. exists i. split; [split; [done|]|done]. by apply lookup_lt_Some in H.
Qed.

Lemma NoDup_fmap_eq {A B} (f : A -> B) (l : list A) x y :
  NoDup (f <$> l) -> x ∈ l -> y ∈ l -> f x = f y -> x = y.
Proof.
  induction l as [|a l IH]; simpl; [by intros _ ?%not_elem_of_nil|].
  intros [Ha Hl]%NoDup_cons [->|Hx]%elem_of_cons [->|Hy]%elem_of_cons Hf; auto; destruct Ha.
  - rewrite Hf. by apply list_elem_of_fmap_2.
  - rewrite <- Hf. by apply list_elem_of_fmap_2.
Qed.
