(* ===== verification/RustFloat.v ===== *)
(** * Rust's [f64] and [f32]

    IEEE-754 binary64 and binary32 as the Standard Library's [spec_float]
    (no NaN payload), with the operations of Rust's language and [core]
    library that the sources use: arithmetic, comparisons, [as] casts,
    [fract], [%], [clamp], [max], [abs] and decimal parsing.  Nothing here
    models a file of the repository: it is the meaning of the primitive type. *)

From Stdlib Require Export SpecFloat.
From S2P Require Import Prelude.

Abbreviation f64 := spec_float (only parsing).
Abbreviation f32 := spec_float (only parsing).

Definition f64_add : f64 -> f64 -> f64 := SFadd 53 1024.
Definition f64_sub : f64 -> f64 -> f64 := SFsub 53 1024.
Definition f64_mul : f64 -> f64 -> f64 := SFmul 53 1024.
Definition f64_div : f64 -> f64 -> f64 := SFdiv 53 1024.
Definition f64_neg (x : f64) : f64 := SFopp x.
Definition f64_abs (x : f64) : f64 := SFabs x.

Definition f64_lt (x y : f64) : bool := SFltb x y.
Definition f64_le (x y : f64) : bool := SFleb x y.
Definition f64_gt (x y : f64) : bool := SFltb y x.
Definition f64_ge (x y : f64) : bool := SFleb y x.
Definition f64_eq (x y : f64) : bool := SFeqb x y.
Definition f64_ne (x y : f64) : bool := negb (SFeqb x y).

Definition f64_is_nan (x : f64) : bool :=
  match x with S754_nan => true | _ => false end.
Definition f64_is_infinite (x : f64) : bool :=
  match x with S754_infinity _ => true | _ => false end.
Definition f64_is_finite (x : f64) : bool :=
  match x with S754_zero _ | S754_finite _ _ _ => true | _ => false end.

(** [n as f64] for an integer [n]: round to nearest, ties to even. *)
Definition f64_of_Z (n : Z) : f64 := binary_normalize 53 1024 n 0 false.
Definition f32_of_Z (n : Z) : f32 := binary_normalize 24 128 n 0 false.

Definition f64_zero : f64 := S754_zero false.
Definition f64_one : f64 := f64_of_Z 1.
Definition f64_max_value : f64 := SFmax_float 53 1024.
Definition f32_max_value : f32 := SFmax_float 24 128.

(** [x as f32] and [x as f64]: re-rounding of a finite value. *)
Definition f32_of_f64 (x : f64) : f32 :=
  match x with S754_finite s m e => binary_round 24 128 s m e | _ => x end.
Definition f64_of_f32 (x : f32) : f64 :=
  match x with S754_finite s m e => binary_round 53 1024 s m e | _ => x end.

Definition f32_div : f32 -> f32 -> f32 := SFdiv 24 128.

(** Integer part of a finite float, towards zero. *)
Definition trunc_Z (s : bool) (m : positive) (e : Z) : Z :=
  cond_Zopp s (if 0 <=? e then Z.shiftl (Zpos m) e else Z.shiftr (Zpos m) (- e)).

(** [x as iN]: saturating, truncating, NaN to 0. *)
Definition f64_as_int (lo hi : Z) (x : f64) : Z :=
  match x with
  | S754_nan | S754_zero _ => 0
  | S754_infinity s => if s then lo else hi
  | S754_finite s m e => Z.max lo (Z.min hi (trunc_Z s m e))
  end.
Definition f64_as_i64 : f64 -> Z := f64_as_int i64_min i64_max.
Definition f64_as_u32 : f64 -> Z := f64_as_int 0 u32_max.

Definition f64_trunc (x : f64) : f64 :=
  match x with
  | S754_finite s m e =>
      match trunc_Z s m e with 0 => S754_zero s | z => f64_of_Z z end
  | _ => x
  end.
Definition f64_fract (x : f64) : f64 := f64_sub x (f64_trunc x).

(** [x % y]: the exact remainder with the sign of [x]. *)
Definition f64_rem (x y : f64) : f64 :=
  match x, y with
  | S754_nan, _ | _, S754_nan | S754_infinity _, _ | _, S754_zero _ => S754_nan
  | _, S754_infinity _ | S754_zero _, _ => x
  | S754_finite sx mx ex, S754_finite _ my ey =>
      let e := Z.min ex ey in
      let r := Z.modulo (Z.shiftl (Zpos mx) (ex - e)) (Z.shiftl (Zpos my) (ey - e)) in
      if r =? 0 then S754_zero sx else binary_normalize 53 1024 (cond_Zopp sx r) e false
  end.

(** [x.clamp(lo, hi)] panics ([None]) unless [lo <= hi]. *)
Definition f64_clamp (x lo hi : f64) : option f64 :=
  if f64_le lo hi then
    let x := if f64_lt x lo then lo else x in
    Some (if f64_gt x hi then hi else x)
  else None.

Definition f64_max (x y : f64) : f64 :=
  if f64_is_nan x then y else if f64_lt x y then y else x.

(** [m / 10^k] correctly rounded: the value of a decimal literal with digits
    [m] and [k] digits after the point. *)
Definition f64_of_decimal (m : Z) (k : nat) : f64 :=
  match m with
  | Zpos p => f64_div (S754_finite false p 0) (S754_finite false (Z.to_pos (10 ^ Z.of_nat k)) 0)
  | _ => S754_zero false
  end.

(** ** Order *)

Lemma Pos_compare_cont_antisym p q :
  Pos.compare_cont Eq q p = CompOpp (Pos.compare_cont Eq p q).
Proof. apply (Pos.compare_antisym p q). Qed.

Lemma SFcompare_antisym x y : SFcompare y x = CompOpp <$> SFcompare x y.
Proof.
  destruct x as [s|s| |s m e], y as [s'|s'| |s' m' e'];
    repeat match goal with b : bool |- _ => destruct b end; try done; simpl.
  all: rewrite (Z.compare_antisym e e'); destruct (e ?= e'); simpl; try done.
  all: by rewrite (Pos_compare_cont_antisym m m'), ?CompOpp_involutive.
Qed.

Lemma SFcompare_refl x : f64_is_nan x = false -> SFcompare x x = Some Eq.
Proof.
  destruct x as [s|s| |s m e]; intros H; try done; try by destruct s.
  simpl. rewrite Z.compare_refl, (Pos.compare_refl m : Pos.compare_cont Eq m m = Eq).
  by destruct s.
Qed.

Lemma SFcompare_total x y :
  f64_is_nan x = false -> f64_is_nan y = false -> is_Some (SFcompare x y).
Proof. destruct x, y; try done; simpl; eauto. Qed.

Lemma f64_le_refl x : f64_is_nan x = false -> f64_le x x = true.
Proof. intros H. unfold f64_le, SFleb. by rewrite SFcompare_refl. Qed.

Lemma f64_not_lt_le x y :
  f64_is_nan x = false -> f64_is_nan y = false -> f64_lt x y = false -> f64_le y x = true.
Proof.
  intros Hx Hy. unfold f64_lt, f64_le, SFltb, SFleb. rewrite (SFcompare_antisym x y).
  destruct (SFcompare_total x y Hx Hy) as [c ->]. by destruct c.
Qed.

Lemma f64_le_not_nan x y : f64_le x y = true -> f64_is_nan x = false /\ f64_is_nan y = false.
Proof. destruct x, y; done. Qed.

Lemma f64_finite_not_nan x : f64_is_finite x = true -> f64_is_nan x = false.
Proof. by destruct x. Qed.

(** Clamping a number between ordered bounds lands between them. *)
Lemma f64_clamp_bounds x lo hi r :
  f64_is_nan x = false -> f64_clamp x lo hi = Some r ->
  f64_le lo r = true /\ f64_le r hi = true.
Proof.
  unfold f64_clamp, f64_gt. intros Hx. destruct (f64_le lo hi) eqn:Hle; [|done].
  destruct (f64_le_not_nan _ _ Hle) as [Hlo Hhi]. intros [= <-].
  destruct (f64_lt x lo) eqn:H1; destruct (SFltb hi _) eqn:H2; split;
    auto using f64_le_refl, f64_not_lt_le.
Qed.

Lemma f64_clamp_finite x lo hi r :
  f64_is_finite lo = true -> f64_is_finite hi = true -> f64_is_nan x = false ->
  f64_clamp x lo hi = Some r -> f64_is_finite r = true.
Proof.
  intros Hlo Hhi Hx. unfold f64_clamp, f64_gt. destruct (f64_le lo hi) eqn:Hle; [|done].
  intros [= <-]. destruct (f64_lt x lo) eqn:H1; destruct (SFltb hi _) eqn:H2; auto.
  destruct x as [| [] | |]; try done.
  - unfold f64_lt, SFltb in H1. destruct lo; done.
  - unfold SFltb in H2. destruct hi as [| | |]; done.
Qed.

Lemma f64_clamp_Some x lo hi : f64_le lo hi = true -> is_Some (f64_clamp x lo hi).
Proof. unfold f64_clamp. intros ->. eauto. Qed.

(** A value already between the bounds is returned as it is. *)
Lemma f64_clamp_id x lo hi :
  f64_le lo hi = true -> f64_lt x lo = false -> f64_gt x hi = false ->
  f64_clamp x lo hi = Some x.
Proof. unfold f64_clamp. by intros -> -> ->. Qed.

(** ** Casts *)

Lemma f64_as_int_range lo hi x : lo <= 0 -> 0 <= hi -> lo <= f64_as_int lo hi x <= hi.
Proof. intros. destruct x as [|[]| |]; simpl; lia. Qed.

Lemma f64_as_u32_range x : is_u32 (f64_as_u32 x).
Proof. unfold is_u32, f64_as_u32. apply f64_as_int_range; unfold u32_max; lia. Qed.

Lemma f64_as_i64_range x : is_i64 (f64_as_i64 x).
Proof. unfold is_i64, f64_as_i64. apply f64_as_int_range; unfold i64_min, i64_max; lia. Qed.
#[export] Hint Resolve f64_as_u32_range f64_as_i64_range : rcd.

(** ** Rounding never produces a NaN *)

Lemma shr_1_nonneg r : 0 <= shr_m r -> 0 <= shr_m (shr_1 r).
Proof. destruct r as [[|[]|] rr ss]; simpl; lia. Qed.

Lemma iter_shr_1_nonneg p r : 0 <= shr_m r -> 0 <= shr_m (SpecFloat.iter_pos shr_1 p r).
Proof. revert r; induction p; intros r Hr; simpl; auto using shr_1_nonneg. Qed.

Lemma shr_fexp_nonneg prec emax m e l r e' :
  0 <= m -> shr_fexp prec emax m e l = (r, e') -> 0 <= shr_m r.
Proof.
  intros Hm. unfold shr_fexp, shr. set (r0 := shr_record_of_loc m l).
  assert (0 <= shr_m r0) by (subst r0; destruct l as [|[]]; done).
  destruct (_ - e); intros [= <- <-]; auto using iter_shr_1_nonneg.
Qed.

Lemma round_nearest_even_nonneg m l : 0 <= m -> 0 <= round_nearest_even m l.
Proof. destruct l as [|[]]; simpl; [lia| |lia..]. destruct (Z.even m); lia. Qed.

Lemma binary_round_aux_not_nan prec emax s m e l :
  0 <= m -> f64_is_nan (binary_round_aux prec emax s m e l) = false.
Proof.
  intros Hm. unfold binary_round_aux.
  destruct (shr_fexp prec emax m e l) as [r e'] eqn:H1.
  apply shr_fexp_nonneg in H1; [|done].
  destruct (shr_fexp _ _ (round_nearest_even _ _) _ _) as [r2 e2] eqn:H2.
  apply shr_fexp_nonneg in H2; [|by apply round_nearest_even_nonneg].
  destruct (shr_m r2); [done|by destruct (_ <=? _)|lia].
Qed.

Lemma binary_round_not_nan prec emax s m e : f64_is_nan (binary_round prec emax s m e) = false.
Proof.
  unfold binary_round. destruct (shl_align _ _ _). by apply binary_round_aux_not_nan.
Qed.

Lemma binary_normalize_not_nan prec emax m e s :
  f64_is_nan (binary_normalize prec emax m e s) = false.
Proof. destruct m; simpl; auto using binary_round_not_nan. Qed.

Lemma f64_of_Z_not_nan n : f64_is_nan (f64_of_Z n) = false.
Proof. apply binary_normalize_not_nan. Qed.

Lemma f64_of_f32_is_nan x : f64_is_nan (f64_of_f32 x) = f64_is_nan x.
Proof. destruct x; simpl; auto using binary_round_not_nan. Qed.
#[export] Hint Resolve f64_of_Z_not_nan : rcd.

Example f64_decimal_3_125 : f64_of_decimal 3125 3 = f64_div (f64_of_Z 25) (f64_of_Z 8).
Proof. reflexivity. Qed.
Example f64_rem_7_5 : f64_rem (f64_of_decimal 75 1) (f64_of_Z 2) = f64_of_decimal 15 1.
Proof. reflexivity. Qed.
