(* ===== verification/RustStr.v ===== *)
(** * Rust's [char] and [str]

    Text as [String.string] or a list of bytes, with the functions of [core]
    the sources call on it: character classes, ASCII case, trimming, integer
    and boolean parsing, hexadecimal formatting.  [trim] and [is_control] are
    the ASCII part of the Unicode functions.  Nothing here models a file of
    the repository. *)

From S2P Require Import Prelude.
Open Scope string_scope.
Open Scope Z_scope.
Open Scope list_scope.

(** ** Character classes of [core::char] *)

Definition code (c : ascii) : Z := Z.of_N (N_of_ascii c).

Definition is_ascii_digit (c : ascii) : bool := (48 <=? code c) && (code c <=? 57).
Definition is_ascii_alphabetic (c : ascii) : bool :=
  ((65 <=? code c) && (code c <=? 90)) || ((97 <=? code c) && (code c <=? 122)).
Definition is_ascii_alphanumeric (c : ascii) : bool := is_ascii_alphabetic c || is_ascii_digit c.

(** [chars().take(n).collect()]: whole characters of UTF-8 text; a byte
    [10xxxxxx] continues a character. *)
Definition is_continuation (c : ascii) : bool := (128 <=? code c) && (code c <? 192).
Fixpoint take_chars (n : nat) (s : string) : string :=
  match s with
  | EmptyString => EmptyString
  | String c s =>
      if is_continuation c then String c (take_chars n s)
      else match n with O => EmptyString | S n => String c (take_chars n s) end
  end.

(** [bytes().all(..)] and membership in a byte string. *)
Definition all_bytes (p : ascii -> bool) (s : string) : bool := forallb p (list_ascii_of_string s).
Definition one_of (set : string) (c : ascii) : bool := existsb (Ascii.eqb c) (list_ascii_of_string set).
Definition is_ascii_whitespace (c : ascii) : bool :=
  (code c =? 32) || (code c =? 9) || (code c =? 10) || (code c =? 12) || (code c =? 13).
Definition is_control (c : ascii) : bool := (code c <? 32) || (code c =? 127).
(** [char::is_whitespace] also takes the vertical tab. *)
Definition is_whitespace (c : ascii) : bool := is_ascii_whitespace c || (code c =? 11).

(** ** Case and hexadecimal *)

(** [char::to_ascii_lowercase] on one byte. *)
Definition ascii_lower (c : ascii) : ascii :=
  let n := Z.of_nat (nat_of_ascii c) in
  if (65 <=? n) && (n <=? 90) then ascii_of_nat (Z.to_nat (n + 32)) else c.

Fixpoint to_ascii_lowercase (s : string) : string :=
  match s with
  | EmptyString => EmptyString
  | String c s => String (ascii_lower c) (to_ascii_lowercase s)
  end.

Definition eq_ignore_ascii_case (a b : string) : bool :=
  String.eqb (to_ascii_lowercase a) (to_ascii_lowercase b).
Arguments eq_ignore_ascii_case : simpl never.

(** One upper-case hexadecimal digit, and [format!("{:02X}", b)]. *)
Definition hex_digit (n : Z) : ascii :=
  ascii_of_nat (Z.to_nat (if n <? 10 then 48 + n else 55 + n)).
Definition format_02X (b : Z) : string :=
  String (hex_digit (b / 16)) (String (hex_digit (b mod 16)) EmptyString).
Definition hex (bytes : list Z) : string := foldr (fun b s => format_02X b +:+ s) "" bytes.

(** ** Trimming and searching *)

Abbreviation chars := list_ascii_of_string (only parsing).
Abbreviation text := string_of_list_ascii (only parsing).

Fixpoint drop_while {A} (p : A -> bool) (l : list A) : list A :=
  match l with [] => [] | x :: l' => if p x then drop_while p l' else l end.

Definition trim (s : string) : string :=
  text (rev (drop_while is_whitespace (rev (drop_while is_whitespace (chars s))))).

Lemma string_length_chars s : String.length s = length (list_ascii_of_string s).
Proof. induction s; simpl; auto. Qed.

Definition any_control (s : string) : bool := existsb is_control (chars s).

(** [s.find(c)] followed by the two slices around it. *)
Fixpoint split_at_char (c : ascii) (cs : list ascii) : option (list ascii * list ascii) :=
  match cs with
  | [] => None
  | c' :: cs =>
      if Ascii.eqb c' c then Some ([], cs)
      else '(a, b) ← split_at_char c cs; Some (c' :: a, b)
  end.

(** [s.replace(c, ...)] with an empty replacement. *)
Definition remove_char (c : ascii) (s : string) : string :=
  text (filter (fun c' => c' <> c) (chars s)).

(** ** Parsing numbers *)

Definition digit_value (c : ascii) : Z := code c - 48.
Definition digits_value (ds : list ascii) : Z :=
  foldl (fun acc c => acc * 10 + digit_value c) 0 ds.

(** [str::parse] of an unsigned type with maximum [max]: an optional plus
    sign, at least one digit, no overflow. *)
Definition parse_uint (max : Z) (cs : list ascii) : option Z :=
  let cs := match cs with "+"%char :: (c :: ds) => c :: ds | _ => cs end in
  if forallb is_ascii_digit cs && negb (Nat.eqb (length cs) 0) && (digits_value cs <=? max)
  then Some (digits_value cs)
  else None.

Definition parse_u32 (s : string) : option Z := parse_uint u32_max (chars s).
Definition parse_u8 (s : string) : option Z := parse_uint u8_max (chars s).

Definition parse_bool (s : string) : option bool :=
  if String.eqb s "true" then Some true else if String.eqb s "false" then Some false else None.

Example parse_u8_plus : parse_u8 "+7" = Some 7 /\ parse_u8 "+" = None /\ parse_u8 "256" = None.
Proof. done. Qed.
Example trim_example : trim "  COM3 " = "COM3".
Proof. done. Qed.

Lemma digits_value_nonneg acc cs :
  0 <= acc -> forallb is_ascii_digit cs = true ->
  0 <= foldl (fun acc c => acc * 10 + digit_value c) acc cs.
Proof.
  revert acc. induction cs as [|c cs IH]; intros acc Hacc H; simpl in *; [done|].
  apply andb_true_iff in H as [Hc H]. apply IH; [|done].
  unfold is_ascii_digit in Hc. apply andb_true_iff in Hc as [H1%Z.leb_le _].
  unfold digit_value. lia.
Qed.

Lemma parse_uint_range max cs v : parse_uint max cs = Some v -> 0 <= v <= max.
Proof.
  unfold parse_uint. set (ds := match cs with "+"%char :: c :: ds => c :: ds | _ => cs end).
  destruct (forallb is_ascii_digit ds) eqn:H1; [|done]. destruct (negb _); [|done].
  simpl. destruct (_ <=? max) eqn:H2; [|done]. intros [= <-]. apply Z.leb_le in H2.
  split; [|done]. by apply digits_value_nonneg.
Qed.
