(* ===== verification/Model.v ===== *)
(** * The shared data model (src/src/model)

    Values, device status, runtime port state, command types and the station
    version record, with the operations declared on them. *)

From stdpp Require Import pretty.
From S2P Require Import Prelude RustFloat RustStr.
Open Scope string_scope.
Open Scope Z_scope.
Open Scope list_scope.

(** ** model/value.rs *)

Inductive Value :=
| VUInt (n : Z)
| VBool (b : bool)
| VFloat (f : f32)
| VDouble (f : f64).

Definition to_f64 (v : Value) : f64 :=
  match v with
  | VUInt n => f64_of_Z n
  | VBool b => if b then f64_one else f64_zero
  | VFloat f => f64_of_f32 f
  | VDouble f => f
  end.

(** ** model/device.rs *)

Record DeviceStatus := {
  ds_id : Z;
  ds_device_id : Z;
  ds_com : string;
  ds_com_status : bool;
  ds_device_status : bool;
  ds_value : gmap string Value;
  ds_raw_data : list Z
}.

(** ** model/mod.rs *)

Definition get_sum (data : list Z) : Z := foldl (fun acc b => u8_wrapping_add acc b) 0 data.

(** ** model/command.rs *)

Record SendData := { sd_device_id : Z; sd_command : list Z }.

Definition command_as_string (d : SendData) : string := hex (sd_command d).

Inductive CommandAckStatus := Waiting | Received | Failed.

Definition as_opc_value (s : CommandAckStatus) : string :=
  match s with Received => "1" | Waiting => "2" | Failed => "3" end.

Definition is_terminal (s : CommandAckStatus) : bool :=
  match s with Received | Failed => true | Waiting => false end.

Record CommandAckUpdate := {
  cau_com : string;
  cau_ack_id : option Z;
  cau_status : CommandAckStatus
}.

(** The payload structs of one field are the constructors' arguments. *)
Inductive ModuleType := Unknown | Domestic | LegacyRussian.

#[export] Instance module_type_eq_dec : EqDecision ModuleType.
Proof. solve_decision. Defined.

Inductive CommandType :=
| SendDataCommand (d : SendData)
| PortStatus (device_status : bool)
| DeviceSetting (device_id : Z) (device_status : bool)
| SendDataWithAck (d : SendData)
| DeviceReadSetting (device_id : Z) (read_enabled : bool)
| StationModuleTypeSetting (device_id : Z) (module_type : ModuleType)
| QueryStationVersion (device_id : Z).

(** [Command]; the receipt is its revision (its reply channel belongs to the
    requester), the permit is held or absent. *)
Record Command := {
  cm_com : string;
  cm_command : CommandType;
  cm_ack_id : option Z;
  cm_expires_at : option Z;
  cm_control_receipt : option Z;
  cm_permit : bool
}.

(** ** model/state.rs *)

Record PortRuntimeState := {
  prs_port_number : string;
  prs_status : bool;
  prs_device_status : gmap Z bool
}.

Inductive StateError :=
| PortNotFound (port : string)
| DeviceNotFound (device : Z) (port : string).

(** [iter_mut().find(p)]: the first element satisfying [p] is replaced. *)
Fixpoint update_first {A E} (p : A -> bool) (f : A -> result E A) (e : E) (l : list A)
    : result E (list A) :=
  match l with
  | [] => Err e
  | x :: l =>
      if p x then y ← f x; Ok (y :: l)
      else l' ← update_first p f e l; Ok (x :: l')
  end.

Definition SystemState := list PortRuntimeState.

Definition add_port (s : SystemState) (port : PortRuntimeState) : SystemState := s ++ [port].

Definition set_port_status (s : SystemState) (port_number : string) (status : bool)
    : result StateError SystemState :=
  update_first (fun p => String.eqb (prs_port_number p) port_number)
    (fun p => Ok {| prs_port_number := prs_port_number p; prs_status := status;
                    prs_device_status := prs_device_status p |})
    (PortNotFound port_number) s.

Definition set_device_status (s : SystemState) (port_number : string) (device_id : Z)
    (status : bool) : result StateError SystemState :=
  update_first (fun p => String.eqb (prs_port_number p) port_number)
    (fun p =>
       match prs_device_status p !! device_id with
       | Some _ => Ok {| prs_port_number := prs_port_number p; prs_status := prs_status p;
                         prs_device_status := <[device_id := status]> (prs_device_status p) |}
       | None => Err (DeviceNotFound device_id port_number)
       end)
    (PortNotFound port_number) s.

Definition get_state (s : SystemState) : list PortRuntimeState := s.

(** ** model/station_version.rs *)

Definition module_type_as_str (m : ModuleType) : string :=
  match m with
  | Unknown => "unknown"
  | Domestic => "domestic"
  | LegacyRussian => "legacy_russian"
  end.

Definition module_type_from_str (value : string) : result string ModuleType :=
  if String.eqb value "unknown" then Ok Unknown
  else if String.eqb value "domestic" then Ok Domestic
  else if String.eqb value "legacy_russian" then Ok LegacyRussian
  else Err "module_type must be unknown, domestic, or legacy_russian".

Record StationVersionRecord := {
  configured_module_type : ModuleType;
  detected_module_type : ModuleType;
  type_mismatch : bool;
  communication_module_version : string;
  communication_module_version_raw : option Z;
  plc_version : string;
  plc_version_raw : option Z;
  version_payload : string;
  version_state : string;
  last_version_attempt_at : option string;
  last_version_success_at : option string;
  last_version_error : string;
  consecutive_failures : Z;
  stale : bool
}.

Definition station_version_default : StationVersionRecord := {|
  configured_module_type := Unknown;
  detected_module_type := Unknown;
  type_mismatch := false;
  communication_module_version := "";
  communication_module_version_raw := None;
  plc_version := "";
  plc_version_raw := None;
  version_payload := "";
  version_state := "never_queried";
  last_version_attempt_at := None;
  last_version_success_at := None;
  last_version_error := "";
  consecutive_failures := 0;
  stale := false
|}.

Definition is_some {A} (o : option A) : bool := match o with Some _ => true | None => false end.

Definition has_last_version (r : StationVersionRecord) : bool :=
  is_some (last_version_success_at r)
  || is_some (communication_module_version_raw r)
  || is_some (plc_version_raw r).

Definition reset_for_configured_type (_ : StationVersionRecord) (configured : ModuleType)
    : StationVersionRecord :=
  let d := station_version_default in {|
  configured_module_type := configured;
  detected_module_type := detected_module_type d;
  type_mismatch := type_mismatch d;
  communication_module_version := communication_module_version d;
  communication_module_version_raw := communication_module_version_raw d;
  plc_version := plc_version d;
  plc_version_raw := plc_version_raw d;
  version_payload := version_payload d;
  version_state := match configured with LegacyRussian => "unsupported"
                   | Unknown | Domestic => "never_queried" end;
  last_version_attempt_at := last_version_attempt_at d;
  last_version_success_at := last_version_success_at d;
  last_version_error := last_version_error d;
  consecutive_failures := consecutive_failures d;
  stale := stale d
|}.

(** [format!("V{}.{}", raw >> 8, raw & 0x00FF)]. *)
Definition display_version (raw : Z) : string :=
  "V" +:+ pretty (Z.shiftr raw 8) +:+ "." +:+ pretty (Z.land raw 0x00FF).

Example display_version_104 : display_version 0x0104 = "V1.4".
Proof. reflexivity. Qed.
Example get_sum_wraps : get_sum [0xFF; 0x01; 0x02] = 0x02.
Proof. reflexivity. Qed.
Example command_hex : command_as_string {| sd_device_id := 1; sd_command := [0x0A; 0x1B; 0xFF] |} = "0A1BFF".
Proof. reflexivity. Qed.

(** ** Properties of the runtime state *)

Section SystemStateFacts.
Implicit Types s : SystemState.

(** The status a reader sees for a port: that of the first entry of its name. *)
Definition find_port s (port : string) : option PortRuntimeState :=
  List.find (fun p => String.eqb (prs_port_number p) port) s.

Lemma update_first_find {A E} (p : A -> bool) (f : A -> result E A) e l l' :
  update_first p f e l = Ok l' ->
  exists x y, List.find p l = Some x /\ f x = Ok y /\ (p y = true -> List.find p l' = Some y).
Proof.
  revert l'; induction l as [|x l IH]; simpl; intros l' H; [done|].
  destruct (p x) eqn:Hp; inv_result.
  - eexists x, _. split; [done|]. split; [done|]. simpl. by intros ->.
  - destruct (IH _ ltac:(eassumption)) as (y & z & ? & ? & ?). exists y, z. simpl. by rewrite Hp.
Qed.

(** A rejected update ([Err]) happens exactly when there is no such port. *)
Lemma set_port_status_ok s port b :
  is_ok (set_port_status s port b) = is_some (find_port s port).
Proof.
  unfold set_port_status, find_port. induction s as [|x s IH]; [done|]; simpl.
  destruct (String.eqb _ _); [done|]. by destruct (update_first _ _ _ s).
Qed.

Lemma set_port_status_read s s' port b :
  set_port_status s port b = Ok s' -> prs_status <$> find_port s' port = Some b.
Proof.
  intros H. destruct (update_first_find _ _ _ _ _ H) as (x & y & Hx & [= <-] & Hy).
  apply find_some in Hx as [_ Hx]. unfold find_port. by rewrite Hy.
Qed.
End SystemStateFacts.
