(* ===== verification/Tokenizer.v ===== *)
(** * Expression tokenizer (src/src/calc_engine/tokenizer.rs)

    The input is the expression's UTF-8 text as a list of bytes.  The source
    walks over Unicode scalars; every non-ASCII scalar is rejected by the main
    loop before it is consumed, so the two walks agree, positions included. *)

From S2P Require Import Prelude RustFloat RustStr Model.
Open Scope string_scope.
Open Scope Z_scope.
Open Scope list_scope.

#[export] Instance spec_float_eq_dec : EqDecision spec_float.
Proof. solve_decision. Defined.

Definition is_ident_char (c : ascii) : bool := is_ascii_alphanumeric c || Ascii.eqb c "_".

(** ** Tokens *)

Inductive Token :=
| TInt (n : Z)
| TFloat (f : f64)
| TIdent (name : string)
| TPlus | TMinus | TStar | TSlash | TPercent
| TAmp | TPipe | TCaret | TTilde | TShiftLeft | TShiftRight
| TAnd | TOr | TBang
| TEq | TNotEq | TLt | TGt | TLtEq | TGtEq
| TLParen | TRParen | TComma
| TEof.

#[export] Instance token_eq_dec : EqDecision Token.
Proof. solve_decision. Defined.

Inductive TokenizeError :=
| BadFloat (num_str : string)
| BadInt (num_str : string)
| SingleEqual (pos : nat)
| IllegalChar (pos : nat) (ch : ascii)
| OutOfFuel.

(** ** Number parsing *)

(** [str::parse::<i64>] on a non-empty string of digits. *)
Definition parse_i64 (ds : list ascii) : option Z :=
  if forallb is_ascii_digit ds && negb (Nat.eqb (length ds) 0) then i64_checked (digits_value ds)
  else None.

(** Split at the first dot. *)
Fixpoint split_dot (cs : list ascii) : list ascii * list ascii :=
  match cs with
  | [] => ([], [])
  | c :: cs =>
      if Ascii.eqb c "." then ([], cs)
      else let '(a, b) := split_dot cs in (c :: a, b)
  end.

(** [str::parse::<f64>] on digits with one dot (at least one digit): the
    nearest [f64] to the decimal value. *)
Definition parse_f64 (cs : list ascii) : option f64 :=
  let '(ip, fp) := split_dot cs in
  if forallb is_ascii_digit (ip ++ fp) && negb (Nat.eqb (length (ip ++ fp)) 0)
  then Some (f64_of_decimal (digits_value (ip ++ fp)) (length fp))
  else None.

(** ** Scanning *)

(** The inner loop over digits and at most one dot:
    (consumed, [has_dot], rest). *)
Fixpoint scan_number (has_dot : bool) (cs : list ascii) : list ascii * bool * list ascii :=
  match cs with
  | [] => ([], has_dot, [])
  | c :: cs' =>
      if is_ascii_digit c then
        let '(a, d, r) := scan_number has_dot cs' in (c :: a, d, r)
      else if Ascii.eqb c "." then
        if has_dot then ([], has_dot, cs)
        else let '(a, d, r) := scan_number true cs' in (c :: a, d, r)
      else ([], has_dot, cs)
  end.

Fixpoint scan_ident (cs : list ascii) : list ascii * list ascii :=
  match cs with
  | [] => ([], [])
  | c :: cs' =>
      if is_ident_char c then let '(a, r) := scan_ident cs' in (c :: a, r) else ([], cs)
  end.

Definition str (cs : list ascii) : string := string_of_list_ascii cs.

(** The number branch: an integer, a float, or a KKS identifier that starts
    with digits. *)
Definition lex_number (cs : list ascii) : result TokenizeError (Token * list ascii) :=
  let '(num, has_dot, rest) := scan_number false cs in
  match rest with
  | c :: _ =>
      if is_ascii_alphabetic c || Ascii.eqb c "_" then
        let '(more, rest') := scan_ident rest in Ok (TIdent (str (num ++ more)), rest')
      else if has_dot then f ← ok_or (BadFloat (str num)) (parse_f64 num); Ok (TFloat f, rest)
      else n ← ok_or (BadInt (str num)) (parse_i64 num); Ok (TInt n, rest)
  | [] =>
      if has_dot then f ← ok_or (BadFloat (str num)) (parse_f64 num); Ok (TFloat f, rest)
      else n ← ok_or (BadInt (str num)) (parse_i64 num); Ok (TInt n, rest)
  end.

Definition next_is (c : ascii) (cs : list ascii) : bool :=
  match cs with c' :: _ => Ascii.eqb c c' | [] => false end.

(** The operator table; [cs] is what follows [ch] at position [pos]. *)
Definition lex_operator (pos : nat) (ch : ascii) (cs : list ascii)
    : result TokenizeError (Token * list ascii) :=
  let one t := Ok (t, cs) in
  let two t := Ok (t, tail cs) in
  if Ascii.eqb ch "+" then one TPlus
  else if Ascii.eqb ch "-" then one TMinus
  else if Ascii.eqb ch "*" then one TStar
  else if Ascii.eqb ch "/" then one TSlash
  else if Ascii.eqb ch "%" then one TPercent
  else if Ascii.eqb ch "^" then one TCaret
  else if Ascii.eqb ch "~" then one TTilde
  else if Ascii.eqb ch "(" then one TLParen
  else if Ascii.eqb ch ")" then one TRParen
  else if Ascii.eqb ch "," then one TComma
  else if Ascii.eqb ch "&" then if next_is "&" cs then two TAnd else one TAmp
  else if Ascii.eqb ch "|" then if next_is "|" cs then two TOr else one TPipe
  else if Ascii.eqb ch "!" then if next_is "=" cs then two TNotEq else one TBang
  else if Ascii.eqb ch "=" then if next_is "=" cs then two TEq else Err (SingleEqual pos)
  else if Ascii.eqb ch "<" then
    if next_is "=" cs then two TLtEq else if next_is "<" cs then two TShiftLeft else one TLt
  else if Ascii.eqb ch ">" then
    if next_is "=" cs then two TGtEq else if next_is ">" cs then two TShiftRight else one TGt
  else Err (IllegalChar pos ch).

Definition starts_number (ch : ascii) (cs : list ascii) : bool :=
  is_ascii_digit ch
  || (Ascii.eqb ch "." && match cs with c :: _ => is_ascii_digit c | [] => false end).

(** One iteration of the main loop: [None] for skipped white space. *)
Definition lex_step (pos : nat) (ch : ascii) (cs : list ascii)
    : result TokenizeError (option Token * list ascii) :=
  if is_ascii_whitespace ch then Ok (None, cs)
  else if starts_number ch cs then '(t, r) ← lex_number (ch :: cs); Ok (Some t, r)
  else if is_ascii_alphabetic ch || Ascii.eqb ch "_" then
    let '(a, r) := scan_ident (ch :: cs) in Ok (Some (TIdent (str a)), r)
  else '(t, r) ← lex_operator pos ch cs; Ok (Some t, r).

(** The [while pos < chars.len()] loop; [n] is [chars.len()]. *)
Fixpoint tokenize_loop (fuel n : nat) (cs : list ascii) : result TokenizeError (list Token) :=
  match fuel with
  | O => Err OutOfFuel
  | S fuel =>
      match cs with
      | [] => Ok [TEof]
      | ch :: cs' =>
          '(t, r) ← lex_step (n - length cs) ch cs';
          ts ← tokenize_loop fuel n r;
          Ok (match t with Some t => t :: ts | None => ts end)
      end
  end.

Definition tokenize (input : string) : result TokenizeError (list Token) :=
  let chars := list_ascii_of_string input in
  tokenize_loop (S (length chars)) (length chars) chars.

Example tokenize_arithmetic :
  tokenize "a + b * 3.125" =
  Ok [TIdent "a"; TPlus; TIdent "b"; TStar; TFloat (f64_of_decimal 3125 3); TEof].
Proof. reflexivity. Qed.
Example tokenize_kks_identifier :
  tokenize "9CYE91GH201_SL1 * 1000" = Ok [TIdent "9CYE91GH201_SL1"; TStar; TInt 1000; TEof].
Proof. reflexivity. Qed.
Example tokenize_error_single_equal : tokenize "a = b" = Err (SingleEqual 2).
Proof. reflexivity. Qed.
Example tokenize_error_illegal_char : tokenize "a @ b" = Err (IllegalChar 2 "@").
Proof. reflexivity. Qed.
Example tokenize_bitwise :
  tokenize "a & b | c ^ ~d << 2 >> 1" =
  Ok [TIdent "a"; TAmp; TIdent "b"; TPipe; TIdent "c"; TCaret; TTilde; TIdent "d"; TShiftLeft;
      TInt 2; TShiftRight; TInt 1; TEof].
Proof. reflexivity. Qed.

(** ** The scanners return a suffix of their input *)

Lemma scan_number_app d cs a d' r : scan_number d cs = (a, d', r) -> cs = a ++ r.
Proof.
  revert d a d' r; induction cs as [|c cs IH]; intros d a d' r; simpl; [naive_solver|].
  repeat case_match; intros; simplify_eq/=; f_equal; eauto.
Qed.

Lemma scan_ident_app cs a r : scan_ident cs = (a, r) -> cs = a ++ r.
Proof.
  revert a r; induction cs as [|c cs IH]; intros a r; simpl; [naive_solver|].
  repeat case_match; intros; simplify_eq/=; f_equal; eauto.
Qed.

Lemma starts_number_scan ch cs a d r :
  starts_number ch cs = true -> scan_number false (ch :: cs) = (a, d, r) -> a <> [].
Proof.
  unfold starts_number. simpl. destruct (is_ascii_digit ch) eqn:?; simpl.
  - repeat case_match; naive_solver.
  - rewrite andb_true_iff. intros [-> _]. repeat case_match; naive_solver.
Qed.

(** Digits with at most one dot, as scanned. *)
Lemma scan_number_digits d cs a r :
  scan_number d cs = (a, d, r) -> forallb is_ascii_digit a = true.
Proof.
  revert a r; induction cs as [|c cs IH]; intros a r; simpl; [naive_solver|].
  destruct (is_ascii_digit c) eqn:Hc.
  - destruct (scan_number d cs) as [[a' d'] r'] eqn:E. intros; simplify_eq/=.
    rewrite Hc. eauto.
  - destruct (Ascii.eqb c "."); [|naive_solver]. destruct d; [naive_solver|].
    assert (forall cs a r, scan_number true cs <> (a, false, r)) as Hno.
    { clear. induction cs as [|c cs IH]; intros a r; simpl; [done|].
      repeat case_match; intros ?; simplify_eq; naive_solver. }
    destruct (scan_number true cs) as [[a' d'] r'] eqn:E. intros; simplify_eq/=.
    by apply Hno in E.
Qed.

Lemma scan_number_dotted cs a r :
  scan_number false cs = (a, true, r) ->
  forallb is_ascii_digit (fst (split_dot a) ++ snd (split_dot a)) = true.
Proof.
  revert a r; induction cs as [|c cs IH]; intros a r; simpl; [naive_solver|].
  destruct (is_ascii_digit c) eqn:Hc.
  - destruct (scan_number false cs) as [[a' d'] r'] eqn:E. intros; simplify_eq/=.
    destruct (Ascii.eqb_spec c "."); [by subst|]. specialize (IH _ _ eq_refl).
    destruct (split_dot a'); simpl in *. by rewrite Hc.
  - destruct (Ascii.eqb_spec c "."); [|naive_solver].
    destruct (scan_number true cs) as [[a' d'] r'] eqn:E. intros; simplify_eq/=.
    by apply scan_number_digits in E.
Qed.

Lemma split_dot_length a : a <> [] -> a <> ["."%char] ->
  length (fst (split_dot a) ++ snd (split_dot a)) <> O.
Proof.
  intros H1 H2. rewrite length_app. destruct a as [|c a]; [done|]. simpl.
  destruct (Ascii.eqb_spec c "."); simpl; [destruct a; naive_solver|].
  destruct (split_dot a); simpl; lia.
Qed.

Lemma lex_number_suffix ch cs t r :
  starts_number ch cs = true -> lex_number (ch :: cs) = Ok (t, r) ->
  (exists pre, ch :: cs = pre ++ r /\ pre <> []) /\ t <> TEof.
Proof.
  unfold lex_number. intros Hs.
  destruct (scan_number false (ch :: cs)) as [[a d] rest] eqn:E.
  pose proof (starts_number_scan _ _ _ _ _ Hs E). apply scan_number_app in E. rewrite E.
  intros Hr. repeat case_match; inv_result; simplify_eq; (split; [|done]); eauto.
  match goal with H : scan_ident _ = (?l, _) |- _ =>
    apply scan_ident_app in H; rewrite H; exists (a ++ l) end.
  rewrite app_assoc. split; [done|]. by destruct a.
Qed.

Lemma lex_number_no_bad_float ch cs s :
  starts_number ch cs = true -> lex_number (ch :: cs) <> Err (BadFloat s).
Proof.
  unfold lex_number. intros Hs.
  destruct (scan_number false (ch :: cs)) as [[a d] rest] eqn:E.
  assert (d = true -> is_Some (parse_f64 a)) as Hp.
  { intros ->. unfold parse_f64. pose proof (scan_number_dotted _ _ _ E).
    pose proof (starts_number_scan _ _ _ _ _ Hs E) as Hne.
    assert (a <> ["."%char]) as Hdot.
    { intros ->. revert E Hs. unfold starts_number; simpl.
      destruct (is_ascii_digit ch) eqn:Hd; [by repeat case_match; intros; simplify_eq/=|].
      destruct (Ascii.eqb ch "."); [|done]. destruct cs as [|c cs]; [done|]. simpl.
      destruct (is_ascii_digit c); [|done]. by repeat case_match; intros; simplify_eq/=. }
    pose proof (split_dot_length a Hne Hdot). destruct (split_dot a) as [ip fp]; simpl in *.
    rewrite H. destruct (length (ip ++ fp)); simpl; [done|]. eauto. }
  intros Hr. repeat case_match; simplify_eq;
    try (destruct Hp as [? Hp]; [done|]; rewrite Hp in Hr; done);
    by destruct (parse_i64 a).
Qed.

Lemma lex_operator_suffix pos ch cs t r :
  lex_operator pos ch cs = Ok (t, r) -> (exists pre, ch :: cs = pre ++ r /\ pre <> []) /\ t <> TEof.
Proof.
  assert (exists pre, ch :: cs = pre ++ cs /\ pre <> []) by (by exists [ch]).
  assert (forall c, next_is c cs = true -> exists pre, ch :: cs = pre ++ tail cs /\ pre <> []).
  { intros c. destruct cs as [|c' cs]; [done|]. intros _. by exists [ch; c']. }
  unfold lex_operator.
  repeat case_match; intros; simplify_eq; split; eauto; done.
Qed.

Lemma lex_step_suffix pos ch cs t r :
  lex_step pos ch cs = Ok (t, r) ->
  (exists pre, ch :: cs = pre ++ r /\ pre <> []) /\ t <> Some TEof.
Proof.
  unfold lex_step. destruct (is_ascii_whitespace ch).
  { intros [= <- <-]. split; [|done]. by exists [ch]. }
  destruct (starts_number ch cs) eqn:Hn.
  { intros ([t' r'] & H & [= <- <-])%bind_Ok.
    apply lex_number_suffix in H as [? ?]; [|done]. naive_solver. }
  destruct (is_ascii_alphabetic ch || Ascii.eqb ch "_") eqn:Hc.
  - destruct (scan_ident (ch :: cs)) as [a r'] eqn:E. intros [= <- <-]. split; [|done].
    exists a. split; [by apply scan_ident_app|]. revert E. simpl.
    unfold is_ident_char, is_ascii_alphanumeric.
    replace (_ || _ || _) with true
      by (revert Hc; destruct (is_ascii_alphabetic ch), (is_ascii_digit ch); done).
    case_match; naive_solver.
  - intros ([t' r'] & H & [= <- <-])%bind_Ok.
    apply lex_operator_suffix in H as [? ?]. naive_solver.
Qed.

(** ** The loop as a fuel-free function *)

Lemma lex_step_length pos ch cs t r :
  lex_step pos ch cs = Ok (t, r) -> (length r < length (ch :: cs))%nat.
Proof.
  intros H. apply lex_step_suffix in H as [(pre & -> & Hpre) _].
  rewrite length_app. destruct pre; [done|]. simpl. lia.
Qed.

Lemma tokenize_loop_fuel fuel fuel' n cs :
  (length cs < fuel)%nat -> (length cs < fuel')%nat ->
  tokenize_loop fuel n cs = tokenize_loop fuel' n cs.
Proof.
  revert fuel' cs; induction fuel as [|fuel IH]; intros [|fuel'] cs H1 H2; try lia.
  destruct cs as [|c cs]; [done|]. cbn -[lex_step length].
  destruct (lex_step _ c cs) as [[t r]|e] eqn:E; [|done]. cbn -[lex_step length].
  apply lex_step_length in E. rewrite (IH fuel' r); [done|lia|lia].
Qed.

Lemma tokenize_loop_cons fuel n ch cs :
  tokenize_loop (S fuel) n (ch :: cs) =
  ('(t, r) ← lex_step (n - length (ch :: cs)) ch cs;
   ts ← tokenize_loop fuel n r;
   Ok (match t with Some t => t :: ts | None => ts end)).
Proof. done. Qed.

Definition run (n : nat) (cs : list ascii) : result TokenizeError (list Token) :=
  tokenize_loop (S (length cs)) n cs.

Lemma run_cons n ch cs :
  run n (ch :: cs) =
  ('(t, r) ← lex_step (n - S (length cs)) ch cs;
   ts ← run n r; Ok (match t with Some t => t :: ts | None => ts end)).
Proof.
  unfold run at 1. rewrite tokenize_loop_cons.
  change (length (ch :: cs)) with (S (length cs)).
  destruct (lex_step _ ch cs) as [[t r]|e] eqn:E; [|done]. cbn [mbind result_bind].
  apply lex_step_length in E. unfold run.
  by rewrite (tokenize_loop_fuel _ (S (length r))) by (simpl in *; lia).
Qed.

(** Induction over the tokens still to be read. *)
Lemma run_ind (P : list ascii -> Prop) :
  P [] ->
  (forall ch cs, (forall n t r, lex_step n ch cs = Ok (t, r) -> P r) -> P (ch :: cs)) ->
  forall cs, P cs.
Proof.
  intros H0 H1. cut (forall k cs, (length cs < k)%nat -> P cs); [eauto|].
  induction k as [|k IH]; intros cs Hk; [lia|]. destruct cs as [|ch cs]; [done|].
  apply H1. intros n t r E. apply IH. apply lex_step_length in E. lia.
Qed.

(** What a tokenizer error can be: the fuel never runs out and a float literal
    never fails; an error position points at the offending character. *)
Definition error_at (chars : list ascii) (e : TokenizeError) : Prop :=
  match e with
  | OutOfFuel | BadFloat _ => False
  | BadInt s => i64_max < digits_value (list_ascii_of_string s)
  | SingleEqual pos => chars !! pos = Some "="%char /\ chars !! S pos <> Some "="%char
  | IllegalChar pos ch =>
      chars !! pos = Some ch /\ is_ascii_whitespace ch = false /\ is_ident_char ch = false
  end.

Lemma digits_nonneg ds : forallb is_ascii_digit ds = true -> 0 <= digits_value ds.
Proof. by apply digits_value_nonneg. Qed.

Lemma str_chars cs : list_ascii_of_string (str cs) = cs.
Proof. apply list_ascii_of_string_of_list_ascii. Qed.

Lemma parse_i64_None a :
  forallb is_ascii_digit a = true -> a <> [] -> parse_i64 a = None -> i64_max < digits_value a.
Proof.
  intros Hd Hne. unfold parse_i64. rewrite Hd. destruct a as [|c a]; [done|].
  pose proof (digits_nonneg _ Hd). cbn [length Nat.eqb negb andb].
  unfold i64_checked, in_i64. destruct (_ && _) eqn:Hr; [done|]. intros _.
  revert Hr. rewrite andb_false_iff, !Z.leb_gt. unfold i64_min in *. lia.
Qed.

Lemma lex_number_error ch cs e chars :
  starts_number ch cs = true -> lex_number (ch :: cs) = Err e -> error_at chars e.
Proof.
  intros Hs H. pose proof (lex_number_no_bad_float ch cs) as Hbf. rewrite H in Hbf.
  unfold lex_number in H. destruct (scan_number false (ch :: cs)) as [[a d] rest] eqn:E.
  assert (d = false -> parse_i64 a = None -> i64_max < digits_value a).
  { intros ->. apply parse_i64_None; [by eapply scan_number_digits|].
    by eapply starts_number_scan. }
  destruct e; simpl; try by (repeat case_match; simplify_eq;
    destruct (parse_i64 a), (parse_f64 a); simplify_eq/=).
  - naive_solver.
  - repeat case_match; simplify_eq; try by destruct (parse_f64 a).
    all: destruct (parse_i64 a) eqn:Hp; simplify_eq/=; rewrite str_chars; auto.
Qed.

Lemma lex_operator_error dn ch cs e :
  is_ascii_whitespace ch = false -> is_ident_char ch = false ->
  lex_operator (length dn) ch cs = Err e -> error_at (dn ++ ch :: cs) e.
Proof.
  intros Hw Hi. unfold lex_operator.
  assert ((dn ++ ch :: cs) !! length dn = Some ch) by (by apply list_lookup_middle).
  repeat case_match; intros; simplify_eq; simpl; try done.
  destruct (Ascii.eqb_spec ch "="); [subst|done]. split; [done|].
  rewrite lookup_app_r by lia. replace (S (length dn) - length dn)%nat with 1%nat by lia.
  simpl. destruct cs as [|c cs]; [done|]. simpl. intros [= ->]. done.
Qed.

Lemma lex_step_error dn ch cs e :
  lex_step (length dn) ch cs = Err e -> error_at (dn ++ ch :: cs) e.
Proof.
  unfold lex_step. destruct (is_ascii_whitespace ch) eqn:Hw; [done|].
  destruct (starts_number ch cs) eqn:Hn.
  { rewrite bind_Err. intros [H|([??] & _ & ?)]; [|done]. by eapply lex_number_error. }
  destruct (is_ascii_alphabetic ch || Ascii.eqb ch "_") eqn:Hc.
  { by destruct (scan_ident _). }
  rewrite bind_Err. intros [H|([??] & _ & ?)]; [|done]. apply lex_operator_error; [done| |done].
  unfold starts_number in Hn. unfold is_ident_char, is_ascii_alphanumeric.
  destruct (is_ascii_alphabetic ch), (is_ascii_digit ch), (Ascii.eqb ch "_"); done.
Qed.

(** Every tokenizer error points at its cause: the reported position of a
    lone [=] or of an illegal character is where that character stands in the
    text, a reported number is a run of digits that does not fit [i64], and the
    internal cases (a float that does not parse, exhausted fuel) never occur. *)
Theorem tokenize_error_position s e :
  tokenize s = Err e -> error_at (list_ascii_of_string s) e.
Proof.
  unfold tokenize. fold (run (length (list_ascii_of_string s)) (list_ascii_of_string s)).
  set (chars := list_ascii_of_string s).
  cut (forall cs dn, chars = dn ++ cs -> run (length chars) cs = Err e -> error_at chars e).
  { intros H. by apply (H chars []). }
  intros cs. induction cs as [|ch cs IH] using run_ind; [done|]. intros dn Hd.
  rewrite run_cons.
  replace (length chars - S (length cs))%nat with (length dn)
    by (rewrite Hd, length_app; simpl; lia).
  destruct (lex_step _ ch cs) as [[t r]|e'] eqn:E; simpl.
  - pose proof (lex_step_suffix _ _ _ _ _ E) as [(pre & Hpre & _) _].
    rewrite bind_Err. intros [H|(? & _ & ?)]; [|done].
    apply (IH _ _ _ E (dn ++ pre)); [|done]. by rewrite Hd, Hpre, app_assoc.
  - intros [= <-]. rewrite Hd. by apply lex_step_error.
Qed.

Lemma run_eof n cs ts : run n cs = Ok ts -> exists init, ts = init ++ [TEof] /\ TEof ∉ init.
Proof.
  revert ts. induction cs as [|ch cs IH] using run_ind; intros ts.
  { intros [= <-]. exists []. split; [done|]. apply not_elem_of_nil. }
  rewrite run_cons. intros ([t r] & E & (ts' & Hts & [= <-])%bind_Ok)%bind_Ok.
  destruct (IH _ _ _ E _ Hts) as (init & -> & Hinit).
  apply lex_step_suffix in E as [_ Hne]. destruct t as [t|]; [|eauto].
  exists (t :: init). split; [done|]. apply not_elem_of_cons. naive_solver.
Qed.

Lemma tokenize_ends_with_eof s ts :
  tokenize s = Ok ts -> exists init, ts = init ++ [TEof] /\ TEof ∉ init.
Proof. apply run_eof. Qed.

(** ** The texts of a list of tokens *)

(** The spellings of a token: digits, digits with a dot, a name, a name that
    starts with a number (a KKS code), an operator or punctuation mark. *)
Inductive lexeme :=
| LxInt (ds : list ascii)
| LxFloat (ip fp : list ascii)
| LxIdent (cs : list ascii)
| LxKks (ip : list ascii) (fp : option (list ascii)) (cs : list ascii)
| LxSym (t : Token).

Definition sym_spell (t : Token) : string :=
  match t with
  | TPlus => "+" | TMinus => "-" | TStar => "*" | TSlash => "/" | TPercent => "%"
  | TAmp => "&" | TPipe => "|" | TCaret => "^" | TTilde => "~"
  | TShiftLeft => "<<" | TShiftRight => ">>"
  | TAnd => "&&" | TOr => "||" | TBang => "!"
  | TEq => "==" | TNotEq => "!=" | TLt => "<" | TGt => ">" | TLtEq => "<=" | TGtEq => ">="
  | TLParen => "(" | TRParen => ")" | TComma => ","
  | TInt _ | TFloat _ | TIdent _ | TEof => ""
  end.

(** A number: digits, and perhaps a dot and more digits. *)
Definition number_text (ip : list ascii) (fp : option (list ascii)) : list ascii :=
  match fp with Some fp => ip ++ "."%char :: fp | None => ip end.
Definition number_ok (ip : list ascii) (fp : option (list ascii)) : bool :=
  forallb is_ascii_digit (ip ++ default [] fp) && negb (Nat.eqb (length (ip ++ default [] fp)) 0).

Definition spell (l : lexeme) : list ascii :=
  match l with
  | LxInt ds => ds
  | LxFloat ip fp => number_text ip (Some fp)
  | LxIdent cs => cs
  | LxKks ip fp cs => number_text ip fp ++ cs
  | LxSym t => list_ascii_of_string (sym_spell t)
  end.

Definition token_of (l : lexeme) : Token :=
  match l with
  | LxInt ds => TInt (digits_value ds)
  | LxFloat ip fp => TFloat (f64_of_decimal (digits_value (ip ++ fp)) (length fp))
  | LxIdent cs => TIdent (str cs)
  | LxKks ip fp cs => TIdent (str (number_text ip fp ++ cs))
  | LxSym t => t
  end.

Definition is_ident_start (cs : list ascii) : bool :=
  match cs with c :: _ => is_ascii_alphabetic c || Ascii.eqb c "_" | [] => false end.

Definition lexeme_ok (l : lexeme) : bool :=
  match l with
  | LxInt ds => number_ok ds None && (digits_value ds <=? i64_max)
  | LxFloat ip fp => number_ok ip (Some fp)
  | LxIdent cs => is_ident_start cs && forallb is_ident_char cs
  | LxKks ip fp cs => number_ok ip fp && is_ident_start cs && forallb is_ident_char cs
  | LxSym t => negb (String.eqb (sym_spell t) "")
  end.

(** Whether a lexeme would be read on into the next character. *)
Definition runs_on (l : lexeme) (c : ascii) : bool :=
  match l with
  | LxInt _ => is_ident_char c || Ascii.eqb "." c
  | LxFloat _ _ | LxIdent _ | LxKks _ _ _ => is_ident_char c
  | LxSym TAmp => Ascii.eqb "&" c
  | LxSym TPipe => Ascii.eqb "|" c
  | LxSym TBang => Ascii.eqb "=" c
  | LxSym TLt => Ascii.eqb "=" c || Ascii.eqb "<" c
  | LxSym TGt => Ascii.eqb "=" c || Ascii.eqb ">" c
  | LxSym _ => false
  end.
Definition apart (l : lexeme) (cs : list ascii) : bool :=
  match cs with c :: _ => negb (runs_on l c) | [] => true end.

(** [spelled cs ts]: the text [cs] is a spelling of the tokens [ts], with any
    white space between them, and none where none is needed. *)
Inductive spelled : list ascii -> list Token -> Prop :=
| spelled_end : spelled [] []
| spelled_space c cs ts : is_ascii_whitespace c = true -> spelled cs ts -> spelled (c :: cs) ts
| spelled_lexeme l cs ts :
    lexeme_ok l = true -> apart l cs = true -> spelled cs ts -> spelled (spell l ++ cs) (token_of l :: ts).

(** *** Numbers *)

Lemma digit_not_dot c : is_ascii_digit c = true -> Ascii.eqb c "." = false.
Proof. intros H. destruct (Ascii.eqb_spec c "."); [by subst|done]. Qed.

Definition stops_number (has_dot : bool) (cs : list ascii) : bool :=
  match cs with c :: _ => negb (is_ascii_digit c) && (has_dot || negb (Ascii.eqb c ".")) | [] => true end.

Lemma scan_number_stop d cs : stops_number d cs = true -> scan_number d cs = ([], d, cs).
Proof.
  destruct cs as [|c cs]; [done|]. simpl. rewrite andb_true_iff, negb_true_iff. intros [-> H].
  destruct (Ascii.eqb c "."); [|done]. by destruct d.
Qed.

Lemma scan_number_run d ds cs :
  forallb is_ascii_digit ds = true ->
  scan_number d (ds ++ cs) =
  let '(a, d', r) := scan_number d cs in (ds ++ a, d', r).
Proof.
  induction ds as [|c ds IH]; simpl; [by destruct (scan_number d cs) as [[??]?]|].
  rewrite andb_true_iff. intros [-> ?]. rewrite IH by done.
  by destruct (scan_number d cs) as [[??]?].
Qed.

Lemma number_ok_digits ip fp : number_ok ip fp = true ->
  forallb is_ascii_digit ip = true /\ forallb is_ascii_digit (default [] fp) = true /\ ip ++ default [] fp <> [].
Proof.
  unfold number_ok. rewrite andb_true_iff, forallb_app, andb_true_iff. intros [[? ?] Hn]. split_and!; [done..|].
  intros E. by rewrite E in Hn.
Qed.

Lemma scan_number_text ip fp cs :
  number_ok ip fp = true -> stops_number (is_some fp) cs = true ->
  scan_number false (number_text ip fp ++ cs) = (number_text ip fp, is_some fp, cs).
Proof.
  intros (Hip & Hfp & _)%number_ok_digits Hs. destruct fp as [fp|]; simpl in *.
  - rewrite <- app_assoc, scan_number_run by done. simpl. rewrite scan_number_run by done.
    rewrite scan_number_stop by done. by rewrite app_nil_r.
  - rewrite scan_number_run by done. rewrite scan_number_stop by done. by rewrite app_nil_r.
Qed.

(** What was scanned is a number, and the scan stopped where it had to. *)
Lemma scan_number_shape d cs a d' r :
  scan_number d cs = (a, d', r) ->
  stops_number d' r = true /\ exists ip fp, a = number_text ip fp /\
    forallb is_ascii_digit (ip ++ default [] fp) = true /\ d' = d || is_some fp /\ (d = true -> fp = None).
Proof.
  revert d a d' r. induction cs as [|c cs IH]; intros d a d' r; simpl.
  { intros [= <- <- <-]. split; [done|]. exists [], None. by rewrite orb_false_r. }
  destruct (is_ascii_digit c) eqn:Hc.
  - destruct (scan_number d cs) as [[a' d1] r'] eqn:E. intros [= <- <- <-].
    destruct (IH _ _ _ _ E) as (Hs & ip & fp & -> & Hd & -> & Hf). split; [done|]. exists (c :: ip), fp.
    split_and!; [by destruct fp|by simpl; rewrite Hc|done|done].
  - destruct (Ascii.eqb_spec c ".") as [->|Hdot].
    + destruct d.
      * intros [= <- <- <-]. split; [done|]. by exists [], None.
      * destruct (scan_number true cs) as [[a' d1] r'] eqn:E. intros [= <- <- <-].
        destruct (IH _ _ _ _ E) as (Hs & ip & fp & -> & Hd & -> & Hf). split; [done|]. rewrite (Hf eq_refl) in *.
        exists [], (Some ip). split_and!; [done|by rewrite app_nil_r in Hd|done|done].
    + intros [= <- <- <-]. split; [simpl; rewrite Hc; destruct (Ascii.eqb_spec c "."); [done|by rewrite orb_true_r]|].
      exists [], None. by rewrite orb_false_r.
Qed.

Lemma starts_number_not_dot ch cs d r :
  starts_number ch cs = true -> scan_number false (ch :: cs) <> (["."%char], d, r).
Proof.
  unfold starts_number; simpl. destruct (is_ascii_digit ch) eqn:Hd; [repeat case_match; intros ? ?; by simplify_eq/=|].
  destruct (Ascii.eqb ch "."); [|done]. destruct cs as [|c cs]; [done|]. simpl.
  destruct (is_ascii_digit c); [|done]. repeat case_match; intros ? ?; by simplify_eq/=.
Qed.

Lemma starts_number_shape ch cs a d r :
  starts_number ch cs = true -> scan_number false (ch :: cs) = (a, d, r) ->
  exists ip fp, a = number_text ip fp /\ d = is_some fp /\ number_ok ip fp = true /\ stops_number d r = true.
Proof.
  intros Hs E. destruct (scan_number_shape _ _ _ _ _ E) as (Hstop & ip & fp & -> & Hd & -> & _).
  exists ip, fp. split_and!; [done|done| |done]. unfold number_ok. rewrite Hd. simpl.
  destruct (ip ++ default [] fp) as [|c l] eqn:El; [exfalso|done]. apply app_eq_nil in El as [-> Hfp].
  destruct fp as [fp|]; simpl in Hfp; [subst fp; by eapply starts_number_not_dot|by eapply starts_number_scan].
Qed.

Lemma number_starts ip fp cs : number_ok ip fp = true ->
  exists ch r, number_text ip fp ++ cs = ch :: r /\ is_ascii_whitespace ch = false /\ starts_number ch r = true.
Proof.
  intros (Hip & Hfp & Hne)%number_ok_digits. unfold starts_number.
  assert (Hw : forall c, is_ascii_digit c = true -> is_ascii_whitespace c = false)
    by (intros c; unfold is_ascii_digit, is_ascii_whitespace; lia).
  destruct ip as [|c ip].
  - destruct fp as [[|f fp]|]; [done| |done]. simpl in Hfp. apply andb_true_iff in Hfp as [Hf _].
    exists "."%char, ((f :: fp) ++ cs). split_and!; [done|done|]. simpl. by rewrite Hf.
  - simpl in Hip. apply andb_true_iff in Hip as [Hc _]. exists c, (number_text ip fp ++ cs).
    split_and!; [by destruct fp|by apply Hw|by rewrite Hc].
Qed.

Lemma parse_f64_spell ip fp :
  number_ok ip (Some fp) = true ->
  parse_f64 (number_text ip (Some fp)) = Some (f64_of_decimal (digits_value (ip ++ fp)) (length fp)).
Proof.
  intros Hok. pose proof (number_ok_digits _ _ Hok) as (Hip & _ & _). unfold parse_f64, number_text, number_ok in *.
  simpl in Hok. assert (split_dot (ip ++ "."%char :: fp) = (ip, fp)) as ->.
  { clear Hok. induction ip as [|c ip IH]; simpl in *; [done|].
    apply andb_true_iff in Hip as [Hc ?]. by rewrite digit_not_dot, IH. }
  by rewrite Hok.
Qed.

Lemma parse_i64_spell ds : number_ok ds None = true ->
  parse_i64 ds = if digits_value ds <=? i64_max then Some (digits_value ds) else None.
Proof.
  unfold number_ok, parse_i64. simpl. rewrite app_nil_r. intros Hok. rewrite Hok.
  apply andb_true_iff in Hok as [Hd _]. pose proof (digits_nonneg _ Hd).
  unfold i64_checked, in_i64. rewrite (proj2 (Z.leb_le i64_min (digits_value ds))) by (unfold i64_min; lia). done.
Qed.

(** *** Names *)

Lemma scan_ident_run cs rest :
  forallb is_ident_char cs = true -> match rest with c :: _ => is_ident_char c = false | [] => True end ->
  scan_ident (cs ++ rest) = (cs, rest).
Proof.
  intros H Hr. induction cs as [|c cs IH]; simpl in *.
  - destruct rest as [|k rest]; [done|]. simpl. by rewrite Hr.
  - apply andb_true_iff in H as [-> ?]. by rewrite IH.
Qed.

Lemma scan_ident_shape cs a r : scan_ident cs = (a, r) ->
  cs = a ++ r /\ forallb is_ident_char a = true /\ match r with c :: _ => is_ident_char c = false | [] => True end.
Proof.
  revert a r. induction cs as [|c cs IH]; intros a r; simpl; [by intros [= <- <-]|].
  destruct (is_ident_char c) eqn:Hc.
  - destruct (scan_ident cs) as [a' r'] eqn:E. intros [= <- <-]. destruct (IH _ _ eq_refl) as (-> & Ha & Hr).
    split_and!; [done| |done]. simpl. by rewrite Hc.
  - by intros [= <- <-].
Qed.

Lemma ident_start_char (c : ascii) : is_ascii_alphabetic c || Ascii.eqb c "_" = true ->
  is_ident_char c = true /\ is_ascii_whitespace c = false /\ is_ascii_digit c = false /\ Ascii.eqb c "." = false.
Proof.
  intros H. unfold is_ident_char, is_ascii_alphanumeric, is_ascii_whitespace, is_ascii_digit, is_ascii_alphabetic in *.
  destruct (Ascii.eqb_spec c "_") as [E|]; [by subst|]. destruct (Ascii.eqb_spec c ".") as [E|]; [by subst|]. lia.
Qed.
Lemma ident_char_false (c : ascii) : is_ident_char c = false ->
  is_ascii_digit c = false /\ is_ascii_alphabetic c || Ascii.eqb c "_" = false.
Proof.
  unfold is_ident_char, is_ascii_alphanumeric. destruct (is_ascii_alphabetic c), (is_ascii_digit c), (Ascii.eqb c "_"); done.
Qed.

(** *** One lexeme *)

Lemma lex_number_int ds cs :
  lexeme_ok (LxInt ds) = true -> apart (LxInt ds) cs = true -> lex_number (ds ++ cs) = Ok (TInt (digits_value ds), cs).
Proof.
  simpl lexeme_ok. rewrite andb_true_iff. intros [Hok Hv] Ha. unfold lex_number.
  pose proof (scan_number_text ds None cs Hok) as Hscan. simpl in Hscan. rewrite Hscan.
  -  rewrite parse_i64_spell, Hv by done. destruct cs as [|c cs]; [done|]. cbn [apart runs_on] in Ha.
    apply negb_true_iff, orb_false_iff in Ha as [[_ ->]%ident_char_false _]. done.
  - destruct cs as [|c cs]; [done|]. cbn [apart runs_on stops_number is_some] in *. apply negb_true_iff, orb_false_iff in Ha as [[-> _]%ident_char_false Hdot].
    by rewrite (Ascii.eqb_sym c), Hdot.
Qed.

Lemma lex_number_float ip fp cs :
  lexeme_ok (LxFloat ip fp) = true -> apart (LxFloat ip fp) cs = true ->
  lex_number (number_text ip (Some fp) ++ cs) = Ok (token_of (LxFloat ip fp), cs).
Proof.
  intros Hok Ha. unfold lex_number. rewrite (scan_number_text ip (Some fp) cs Hok).
  - rewrite parse_f64_spell by done. destruct cs as [|c cs]; [done|]. cbn [apart runs_on] in Ha.
    apply negb_true_iff in Ha as [_ ->]%ident_char_false. done.
  - destruct cs as [|c cs]; [done|]. cbn [apart runs_on stops_number is_some] in *. by apply negb_true_iff in Ha as [-> _]%ident_char_false.
Qed.

Lemma lex_number_kks ip fp name cs :
  lexeme_ok (LxKks ip fp name) = true -> apart (LxKks ip fp name) cs = true ->
  lex_number ((number_text ip fp ++ name) ++ cs) = Ok (token_of (LxKks ip fp name), cs).
Proof.
  simpl lexeme_ok. rewrite !andb_true_iff. intros [[Hok Hs] Hi] Ha. unfold lex_number. rewrite <- app_assoc.
  destruct name as [|c name]; [done|]. simpl in Hs. destruct (ident_start_char c Hs) as (Hc & _ & Hd & Hdot).
  rewrite (scan_number_text ip fp ((c :: name) ++ cs) Hok).
  - rewrite <- app_comm_cons. rewrite Hs, app_comm_cons, (scan_ident_run (c :: name) cs Hi); [done|].
    destruct cs; [done|]. by apply negb_true_iff in Ha.
  - simpl. rewrite Hd, Hdot. by destruct fp.
Qed.

Lemma sym_apart t cs :
  apart (LxSym t) cs =
  match t with
  | TAmp => negb (next_is "&" cs) | TPipe => negb (next_is "|" cs) | TBang => negb (next_is "=" cs)
  | TLt => negb (next_is "=" cs || next_is "<" cs) | TGt => negb (next_is "=" cs || next_is ">" cs)
  | _ => true
  end.
Proof. by destruct t, cs. Qed.

Lemma run_lexeme n l cs :
  lexeme_ok l = true -> apart l cs = true -> run n (spell l ++ cs) = (ts ← run n cs; Ok (token_of l :: ts)).
Proof.
  assert (Hnum : forall text t, (exists ch r, text ++ cs = ch :: r /\ is_ascii_whitespace ch = false /\ starts_number ch r = true) ->
    lex_number (text ++ cs) = Ok (t, cs) -> run n (text ++ cs) = (ts ← run n cs; Ok (t :: ts))).
  { intros text t (ch & r & E & Hw & Hs) Hl. rewrite E in *. rewrite run_cons. unfold lex_step. by rewrite Hw, Hs, Hl. }
  intros Hok Ha. destruct l as [ds|ip fp|name|ip fp name|t]; simpl spell.
  - apply Hnum; [|by apply lex_number_int]. simpl in Hok. apply andb_true_iff in Hok as [Hok _]. by apply (number_starts ds None).
  - apply Hnum; [by apply (number_starts ip (Some fp))|by apply lex_number_float].
  - simpl in Hok. apply andb_true_iff in Hok as [Hs Hi]. destruct name as [|c name]; [done|]. simpl in Hs.
    destruct (ident_start_char c Hs) as (_ & Hw & Hd & Hdot). rewrite <- app_comm_cons, run_cons. unfold lex_step, starts_number.
    rewrite Hw, Hd, Hdot, Hs. simpl orb. cbv iota. rewrite app_comm_cons, (scan_ident_run (c :: name) cs Hi); [done|].
    destruct cs; [done|]. by apply negb_true_iff in Ha.
  - apply Hnum; [|by apply lex_number_kks]. simpl in Hok. apply andb_true_iff in Hok as [[Hok _]%andb_true_iff _].
    rewrite <- app_assoc. by apply number_starts.
  - rewrite sym_apart in Ha. destruct t; try done; cbn [sym_spell list_ascii_of_string app]; rewrite run_cons; cbn -[next_is run] in *; try done.
    all: apply negb_true_iff in Ha; try (apply orb_false_iff in Ha as [Ha Ha2]).
    all: unfold lex_step; cbn -[next_is run]; by rewrite Ha, ?Ha2.
Qed.

Lemma lex_number_lexeme ch cs t r :
  starts_number ch cs = true -> lex_number (ch :: cs) = Ok (t, r) ->
  exists l, lexeme_ok l = true /\ ch :: cs = spell l ++ r /\ t = token_of l /\ apart l r = true.
Proof.
  intros Hs. unfold lex_number. destruct (scan_number false (ch :: cs)) as [[a d] rest] eqn:E.
  destruct (starts_number_shape _ _ _ _ _ Hs E) as (ip & fp & -> & -> & Hok & Hstop).
  apply scan_number_app in E. rewrite E.
  assert (Hplain : match rest with c :: _ => is_ascii_alphabetic c || Ascii.eqb c "_" = false | [] => True end ->
    (if is_some fp then f ← ok_or (BadFloat (str (number_text ip fp))) (parse_f64 (number_text ip fp)); Ok (TFloat f, rest)
     else n ← ok_or (BadInt (str (number_text ip fp))) (parse_i64 (number_text ip fp)); Ok (TInt n, rest)) = Ok (t, r) ->
    exists l, lexeme_ok l = true /\ number_text ip fp ++ rest = spell l ++ r /\ t = token_of l /\ apart l r = true).
  { intros Hnext. assert (Hchar : match rest with c :: _ => is_ident_char c = false | [] => True end).
    { destruct rest as [|c rest]; [done|]. cbn [stops_number] in Hstop. apply andb_true_iff in Hstop as [Hd%negb_true_iff _].
      unfold is_ident_char, is_ascii_alphanumeric. rewrite Hd. by destruct (is_ascii_alphabetic c), (Ascii.eqb c "_"). }
    destruct fp as [fp|]; simpl is_some.
    - rewrite parse_f64_spell by done. intros [= <- <-]. exists (LxFloat ip fp). split_and!; [done..|].
      destruct rest; [done|]. cbn [apart runs_on]. by rewrite Hchar.
    - simpl number_text. rewrite parse_i64_spell by done. destruct (digits_value ip <=? i64_max) eqn:Hv; [|done]. intros [= <- <-].
      exists (LxInt ip). split_and!; [by simpl; rewrite Hok, Hv|done|done|]. destruct rest as [|c rest]; [done|].
      cbn [apart runs_on stops_number is_some] in *. rewrite Hchar, (Ascii.eqb_sym "." c).
      apply andb_true_iff in Hstop as [_ Hdot%negb_true_iff]. by rewrite Hdot. }
  destruct rest as [|c rest]; [by apply Hplain|]. destruct (is_ascii_alphabetic c || Ascii.eqb c "_") eqn:Hc; [|by apply Hplain].
  destruct (scan_ident (c :: rest)) as [more rest'] eqn:Ei. intros [= <- <-].
  pose proof (scan_ident_shape _ _ _ Ei) as (Happ & Hall & Hnext). exists (LxKks ip fp more). split_and!.
  - cbn [lexeme_ok]. rewrite Hok, Hall. destruct more as [|m more]; [|injection Happ as -> _; cbn [is_ident_start]; by rewrite Hc]. simpl in Happ. subst rest'.
    destruct (ident_start_char c Hc) as [Hx _]. congruence.
  - cbn [spell]. by rewrite <- app_assoc, <- Happ.
  - done.
  - destruct rest'; [done|]. cbn [apart runs_on]. by rewrite Hnext.
Qed.

Lemma lex_operator_lexeme pos ch cs t r :
  lex_operator pos ch cs = Ok (t, r) ->
  exists l, lexeme_ok l = true /\ ch :: cs = spell l ++ r /\ t = token_of l /\ apart l r = true.
Proof.
  unfold lex_operator. intros H. exists (LxSym t).
  assert (Hsym : forall c, next_is c cs = true -> cs = c :: tail cs).
  { intros c. destruct cs as [|x cs']; [done|]. simpl. intros Hx. f_equal. symmetry. by apply Ascii.eqb_eq. }
  rewrite sym_apart.
  repeat (match type of H with context [Ascii.eqb ch ?a] => destruct (Ascii.eqb_spec ch a) as [->|_] end;
    [repeat (match type of H with context [next_is ?c cs] => destruct (next_is c cs) eqn:? end); try done; injection H as <- <-;
     repeat match goal with E : next_is _ cs = true |- _ => apply Hsym in E; rewrite E at 1 end;
     repeat match goal with E : next_is _ cs = false |- _ => rewrite E end; by split_and!|]).
  done.
Qed.

Lemma lex_step_lexeme pos ch cs t r :
  lex_step pos ch cs = Ok (t, r) ->
  match t with
  | None => is_ascii_whitespace ch = true /\ r = cs
  | Some t => exists l, lexeme_ok l = true /\ ch :: cs = spell l ++ r /\ t = token_of l /\ apart l r = true
  end.
Proof.
  unfold lex_step. destruct (is_ascii_whitespace ch); [by intros [= <- <-]|].
  destruct (starts_number ch cs) eqn:Hn.
  { intros ([t' r'] & H & [= <- <-])%bind_Ok. by apply lex_number_lexeme. }
  destruct (is_ascii_alphabetic ch || Ascii.eqb ch "_") eqn:Hc.
  - destruct (scan_ident (ch :: cs)) as [a r'] eqn:E. intros [= <- <-].
    destruct (scan_ident_shape _ _ _ E) as (Happ & Hall & Hnext). exists (LxIdent a). split_and!; [|done|done|].
    + cbn [lexeme_ok]. rewrite Hall, andb_true_r. destruct a as [|c a]; [|injection Happ as -> _; done]. simpl in Happ. subst r'.
      destruct (ident_start_char ch Hc) as [Hx _]. congruence.
    + destruct r'; [done|]. cbn [apart runs_on]. by rewrite Hnext.
  - intros ([t' r'] & H & [= <- <-])%bind_Ok. by eapply lex_operator_lexeme.
Qed.

(** *** The tokenizer reads exactly the spellings *)

Lemma run_spelled n cs ts : spelled cs ts -> run n cs = Ok (ts ++ [TEof]).
Proof.
  induction 1 as [|c cs ts Hc _ IH|l cs ts Hl Ha _ IH]; [done| |].
  - rewrite run_cons. unfold lex_step. rewrite Hc. simpl. by rewrite IH.
  - rewrite run_lexeme by done. by rewrite IH.
Qed.

Lemma spelled_run n cs ts : run n cs = Ok ts -> exists ts', ts = ts' ++ [TEof] /\ spelled cs ts'.
Proof.
  revert ts. induction cs as [|ch cs IH] using run_ind; intros ts.
  { intros [= <-]. exists []. split; [done|constructor]. }
  rewrite run_cons. intros ([t r] & E & (ts' & Hts & [= <-])%bind_Ok)%bind_Ok.
  destruct (IH _ _ _ E _ Hts) as (init & -> & Hinit). apply lex_step_lexeme in E. destruct t as [t|].
  - destruct E as (l & Hl & -> & -> & Ha). exists (token_of l :: init). split; [done|by constructor].
  - destruct E as [Hw ->]. exists init. split; [done|by constructor].
Qed.

(** The tokenizer accepts exactly the spellings of token lists. *)
Lemma tokenize_iff s ts :
  tokenize s = Ok ts <-> exists ts', ts = ts' ++ [TEof] /\ spelled (list_ascii_of_string s) ts'.
Proof. split; [apply spelled_run|]. intros (ts' & -> & H). by apply run_spelled. Qed.

Lemma spelled_no_eof cs ts : spelled cs ts -> TEof ∉ ts.
Proof.
  induction 1 as [|c cs ts Hc _ IH|l cs ts Hl Ha _ IH]; [apply not_elem_of_nil|done|].
  apply not_elem_of_cons. split; [|done]. destruct l as [| | | |t]; try done. by destruct t.
Qed.

Lemma tokenize_error_position_witness :
  tokenize "a = 1" = Err (SingleEqual 2) /\ error_at (list_ascii_of_string "a = 1") (SingleEqual 2).
Proof.
  split; [vm_compute; reflexivity|].
  apply (tokenize_error_position "a = 1"). vm_compute. reflexivity.
Defined.
