(* ===== verification/Parser.v ===== *)
(** * Pratt expression parser (src/src/calc_engine/parser.rs)

    The parser's state ([tokens], [pos]) is the list of tokens from [pos] on;
    reading past the end gives [TEof], as [peek] and [advance] do. *)

From S2P Require Import Prelude RustFloat RustStr Model Tokenizer.
Open Scope string_scope.
Open Scope Z_scope.
Open Scope list_scope.

(** ** AST *)

Inductive BinOp :=
| BAdd | BSub | BMul | BDiv | BMod
| BBitAnd | BBitOr | BBitXor | BShiftLeft | BShiftRight
| BAnd | BOr
| BEq | BNotEq | BLt | BGt | BLtEq | BGtEq.

Inductive UnaryOp := UNeg | UNot | UBitNot.

Inductive Literal :=
| LInt (n : Z)
| LFloat (f : f64)
| LBool (b : bool).

Inductive Expr :=
| ELiteral (l : Literal)
| EVariable (name : string)
| EBinary (op : BinOp) (l r : Expr)
| EUnary (op : UnaryOp) (operand : Expr)
| EIf (condition then_branch else_branch : Expr).

#[export] Instance binop_eq_dec : EqDecision BinOp.
Proof. solve_decision. Defined.

(** ** Variables of an expression *)

Fixpoint collect_variables (expr : Expr) (out : list string) : list string :=
  match expr with
  | ELiteral _ => out
  | EVariable name => out ++ [name]
  | EBinary _ l r => collect_variables r (collect_variables l out)
  | EUnary _ operand => collect_variables operand out
  | EIf c t e => collect_variables e (collect_variables t (collect_variables c out))
  end.

(** [Vec<String>::sort] (byte-wise order) and [Vec::dedup]. *)
Fixpoint insert_sorted (s : string) (l : list string) : list string :=
  match l with
  | [] => [s]
  | x :: l' => if String.leb s x then s :: l else x :: insert_sorted s l'
  end.
Definition sort_strings (l : list string) : list string := foldr insert_sorted [] l.

Fixpoint dedup (l : list string) : list string :=
  match l with
  | [] => []
  | x :: l' =>
      match dedup l' with
      | [] => [x]
      | y :: r => if String.eqb x y then y :: r else x :: y :: r
      end
  end.

Definition extract_variables (expr : Expr) : list string :=
  dedup (sort_strings (collect_variables expr [])).

(** ** Binding powers *)

Definition infix_bp (op : BinOp) : Z * Z :=
  match op with
  | BOr => (2, 3)
  | BAnd => (4, 5)
  | BBitOr => (6, 7)
  | BBitXor => (8, 9)
  | BBitAnd => (10, 11)
  | BEq | BNotEq => (12, 13)
  | BLt | BGt | BLtEq | BGtEq => (14, 15)
  | BShiftLeft | BShiftRight => (16, 17)
  | BAdd | BSub => (18, 19)
  | BMul | BDiv | BMod => (20, 21)
  end.

Definition prefix_bp (_ : UnaryOp) : Z := 23.

Definition token_to_binop (tok : Token) : option BinOp :=
  match tok with
  | TPlus => Some BAdd
  | TMinus => Some BSub
  | TStar => Some BMul
  | TSlash => Some BDiv
  | TPercent => Some BMod
  | TAmp => Some BBitAnd
  | TPipe => Some BBitOr
  | TCaret => Some BBitXor
  | TShiftLeft => Some BShiftLeft
  | TShiftRight => Some BShiftRight
  | TAnd => Some BAnd
  | TOr => Some BOr
  | TEq => Some BEq
  | TNotEq => Some BNotEq
  | TLt => Some BLt
  | TGt => Some BGt
  | TLtEq => Some BLtEq
  | TGtEq => Some BGtEq
  | _ => None
  end.

(** ** The parser *)

Inductive ParseError :=
| ExtraToken (t : Token)
| MissingRParen
| ExpectedExpr (t : Token)
| IfMissingLParen
| IfMissingComma1
| IfMissingComma2
| IfMissingRParen
| ParserFuel.

Definition peek (ts : list Token) : Token := match ts with t :: _ => t | [] => TEof end.
Definition advance (ts : list Token) : Token * list Token := (peek ts, tail ts).

Definition expect (t : Token) (e : ParseError) (ts : list Token)
    : result ParseError (list Token) :=
  let '(tok, ts) := advance ts in if decide (tok = t) then Ok ts else Err e.

Section Steps.
(** [rec min_bp ts] stands for the recursive call [self.expr_bp(min_bp)]. *)
Variable rec : Z -> list Token -> result ParseError (Expr * list Token).

Definition parse_if_function (ts : list Token) : result ParseError (Expr * list Token) :=
  ts ← expect TLParen IfMissingLParen ts;
  '(condition, ts) ← rec 0 ts;
  ts ← expect TComma IfMissingComma1 ts;
  '(then_branch, ts) ← rec 0 ts;
  ts ← expect TComma IfMissingComma2 ts;
  '(else_branch, ts) ← rec 0 ts;
  ts ← expect TRParen IfMissingRParen ts;
  Ok (EIf condition then_branch else_branch, ts).

Definition parse_unary (op : UnaryOp) (ts : list Token)
    : result ParseError (Expr * list Token) :=
  '(operand, ts) ← rec (prefix_bp op) ts;
  Ok (EUnary op operand, ts).

(** The prefix part of [expr_bp]. *)
Definition parse_prefix (ts : list Token) : result ParseError (Expr * list Token) :=
  let '(tok, ts) := advance ts in
  match tok with
  | TInt n => Ok (ELiteral (LInt n), ts)
  | TFloat n => Ok (ELiteral (LFloat n), ts)
  | TIdent name =>
      if eq_ignore_ascii_case name "true" then Ok (ELiteral (LBool true), ts)
      else if eq_ignore_ascii_case name "false" then Ok (ELiteral (LBool false), ts)
      else if eq_ignore_ascii_case name "if" && bool_decide (peek ts = TLParen)
      then parse_if_function ts
      else Ok (EVariable name, ts)
  | TLParen =>
      '(inner, ts) ← rec 0 ts;
      ts ← expect TRParen MissingRParen ts;
      Ok (inner, ts)
  | TMinus => parse_unary UNeg ts
  | TBang => parse_unary UNot ts
  | TTilde => parse_unary UBitNot ts
  | tok => Err (ExpectedExpr tok)
  end.

(** The infix loop of [expr_bp]. *)
Fixpoint infix_loop (fuel : nat) (min_bp : Z) (lhs : Expr) (ts : list Token)
    : result ParseError (Expr * list Token) :=
  match fuel with
  | O => Err ParserFuel
  | S fuel =>
      match token_to_binop (peek ts) with
      | None => Ok (lhs, ts)
      | Some op =>
          let '(l_bp, r_bp) := infix_bp op in
          if l_bp <? min_bp then Ok (lhs, ts)
          else
            let '(_, ts) := advance ts in
            '(rhs, ts) ← rec r_bp ts;
            infix_loop fuel min_bp (EBinary op lhs rhs) ts
      end
  end.
End Steps.

Fixpoint expr_bp (fuel : nat) (min_bp : Z) (ts : list Token)
    : result ParseError (Expr * list Token) :=
  match fuel with
  | O => Err ParserFuel
  | S fuel =>
      '(lhs, ts) ← parse_prefix (expr_bp fuel) ts;
      infix_loop (expr_bp fuel) fuel min_bp lhs ts
  end.

Definition parse (tokens : list Token) : result ParseError Expr :=
  '(expr, ts) ← expr_bp (S (length tokens)) 0 tokens;
  if decide (peek ts = TEof) then Ok expr else Err (ExtraToken (peek ts)).

(** The composition the engine uses: text to AST. *)
Definition parse_text (s : string) : result (TokenizeError + ParseError) Expr :=
  ts ← map_err inl (tokenize s); map_err inr (parse ts).

Example parse_precedence_mul_over_add :
  parse_text "a + b * c" =
  Ok (EBinary BAdd (EVariable "a") (EBinary BMul (EVariable "b") (EVariable "c"))).
Proof. reflexivity. Qed.
Example parse_left_associativity :
  parse_text "a - b - c" =
  Ok (EBinary BSub (EBinary BSub (EVariable "a") (EVariable "b")) (EVariable "c")).
Proof. reflexivity. Qed.
Example parse_if :
  parse_text "IF(a == 1, b, 4)" =
  Ok (EIf (EBinary BEq (EVariable "a") (ELiteral (LInt 1))) (EVariable "b") (ELiteral (LInt 4))).
Proof. reflexivity. Qed.
Example parse_if_rejects_wrong_arity :
  parse_text "IF(a, b)" = Err (inr IfMissingComma2)
  /\ parse_text "IF(a, b, c, d)" = Err (inr IfMissingRParen).
Proof. split; reflexivity. Qed.
Example parse_unmatched_paren : parse_text "(a + b" = Err (inr MissingRParen).
Proof. reflexivity. Qed.
Example extract_variables_complex :
  extract_variables <$> parse_text "(a + b) * c - a" = Ok ["a"; "b"; "c"].
Proof. reflexivity. Qed.

(** ** Every recursive call is on a shorter token list *)

Definition consuming (rec : Z -> list Token -> result ParseError (Expr * list Token)) : Prop :=
  forall b ts e r, rec b ts = Ok (e, r) -> (length r < length ts)%nat.

Lemma expect_Ok t e ts r : t <> TEof -> expect t e ts = Ok r -> ts = t :: r.
Proof.
  unfold expect, advance. intros Ht. case_decide; [|done]. intros [= <-].
  destruct ts; naive_solver.
Qed.

(** Sequencing after a call that consumes: continuations may be compared on
    shorter lists only. *)
Ltac use_expect :=
  repeat match goal with
  | H : expect _ _ _ = Ok _ |- _ => apply expect_Ok in H; [|done]; subst; simpl in *
  end.

Lemma parse_if_length rec ts e r :
  consuming rec -> parse_if_function rec ts = Ok (e, r) -> (length r < length ts)%nat.
Proof.
  intros Hc H. unfold parse_if_function in H.
  repeat match type of H with
  | _ ≫= _ = Ok _ => apply bind_Ok in H as ([? ?] & ? & H) || apply bind_Ok in H as (? & ? & H)
  end. simplify_eq. use_expect.
  repeat match goal with H : rec _ _ = Ok _ |- _ => apply Hc in H end. simpl in *. lia.
Qed.

Lemma parse_prefix_length rec ts e r :
  consuming rec -> parse_prefix rec ts = Ok (e, r) -> (length r < length ts)%nat.
Proof.
  intros Hc. unfold parse_prefix. destruct ts as [|t ts]; [done|]. simpl.
  assert (forall op, parse_unary rec op ts = Ok (e, r) -> (length r < S (length ts))%nat).
  { intros op. unfold parse_unary. rewrite bind_Ok. intros ([? ?] & H & ?). simplify_eq.
    apply Hc in H. lia. }
  destruct t; try done; intros; simplify_eq; eauto with lia.
  - repeat case_match; simplify_eq; try lia.
    match goal with H : parse_if_function _ _ = _ |- _ => apply parse_if_length in H; [lia|done] end.
  - repeat match goal with H : _ ≫= _ = Ok _ |- _ =>
      apply bind_Ok in H as ([? ?] & ? & H) || apply bind_Ok in H as (? & ? & H) end.
    simplify_eq. use_expect.
    match goal with H : rec _ _ = Ok _ |- _ => apply Hc in H end. simpl in *. lia.
Qed.

Lemma infix_loop_length rec f b lhs ts e r :
  consuming rec -> infix_loop rec f b lhs ts = Ok (e, r) -> (length r <= length ts)%nat.
Proof.
  intros Hc. revert lhs ts. induction f as [|f IH]; intros lhs ts; simpl; [done|].
  destruct (token_to_binop (peek ts)) as [op|]; [|by intros [= <- <-]].
  destruct (infix_bp op) as [l_bp r_bp]. case_match; [by intros [= <- <-]|].
  rewrite bind_Ok. intros ([rhs ts'] & H1 & H2). apply Hc in H1. apply IH in H2.
  destruct ts; simpl in *; lia.
Qed.

Lemma expr_bp_consuming f : consuming (expr_bp f).
Proof.
  induction f as [|f IH]; intros b ts e r; simpl; [done|].
  rewrite bind_Ok. intros ([lhs ts'] & H1 & H2).
  apply parse_prefix_length in H1; [|done]. apply infix_loop_length in H2; [lia|done].
Qed.

(** ** Fuel does not matter once it exceeds the number of tokens *)

Section Ext.
Variables rec rec' : Z -> list Token -> result ParseError (Expr * list Token).
Hypothesis Hc : consuming rec.

Lemma bind_rec_ext {A} b ts (k k' : Expr * list Token -> result ParseError A) :
  rec b ts = rec' b ts ->
  (forall e r, rec b ts = Ok (e, r) -> (length r < length ts)%nat -> k (e, r) = k' (e, r)) ->
  rec b ts ≫= k = rec' b ts ≫= k'.
Proof.
  intros <- Hk. destruct (rec b ts) as [[e r]|] eqn:E; [|done]. simpl. apply Hk; [done|].
  by eapply Hc.
Qed.

Lemma bind_expect_ext {A} t err ts (k k' : list Token -> result ParseError A) :
  t <> TEof -> (forall r, ts = t :: r -> k r = k' r) ->
  expect t err ts ≫= k = expect t err ts ≫= k'.
Proof.
  intros Ht Hk. destruct (expect t err ts) as [r|] eqn:E; [|done]. simpl.
  apply Hk. by eapply expect_Ok.
Qed.

Lemma parse_prefix_ext ts :
  (forall b ts', (length ts' < length ts)%nat -> rec b ts' = rec' b ts') ->
  parse_prefix rec ts = parse_prefix rec' ts.
Proof.
  intros Heq. destruct ts as [|t ts]; [done|].
  unfold parse_prefix, parse_unary. simpl. simpl in Heq.
  destruct t; try done; try (apply bind_rec_ext; [apply Heq; lia|]; intros; done).
  repeat case_match; try done. unfold parse_if_function.
  apply bind_expect_ext; [done|]. intros r1 ->. simpl in Heq.
  apply bind_rec_ext; [apply Heq; lia|]. intros e1 r2 _ Hl1.
  apply bind_expect_ext; [done|]. intros r3 ->. simpl in Hl1.
  apply bind_rec_ext; [apply Heq; lia|]. intros e2 r4 _ Hl2.
  apply bind_expect_ext; [done|]. intros r5 ->. simpl in Hl2.
  apply bind_rec_ext; [apply Heq; lia|]. intros; done.
Qed.

Lemma infix_loop_ext f f' b lhs ts :
  (length ts < f)%nat -> (length ts < f')%nat ->
  (forall b ts', (length ts' < length ts)%nat -> rec b ts' = rec' b ts') ->
  infix_loop rec f b lhs ts = infix_loop rec' f' b lhs ts.
Proof.
  revert f' lhs ts. induction f as [|f IH]; intros [|f'] lhs ts H1 H2 Heq; try lia. simpl.
  destruct (token_to_binop (peek ts)) as [op|] eqn:Hop; [|done].
  destruct (infix_bp op) as [l_bp r_bp]. case_match; [done|].
  destruct ts as [|t ts]; [done|]. simpl in *.
  apply bind_rec_ext; [apply Heq; lia|]. intros e r _ Hl. apply IH; [lia..|].
  intros b' ts' ?. apply Heq. lia.
Qed.
End Ext.

Lemma expr_bp_fuel f f' b ts :
  (length ts < f)%nat -> (length ts < f')%nat -> expr_bp f b ts = expr_bp f' b ts.
Proof.
  revert f' b ts. induction f as [|f IH]; intros [|f'] b ts H1 H2; try lia. simpl.
  rewrite (parse_prefix_ext _ (expr_bp f')); [|apply expr_bp_consuming|intros; apply IH; lia].
  destruct (parse_prefix (expr_bp f') ts) as [[lhs r]|e] eqn:E; [|done]. simpl.
  apply parse_prefix_length in E; [|apply expr_bp_consuming].
  apply infix_loop_ext; [apply expr_bp_consuming|lia..|intros; apply IH; lia].
Qed.

(** The fuel-free parser and its equations. *)
Definition ebp (b : Z) (ts : list Token) := expr_bp (S (length ts)) b ts.
Definition loop (b : Z) (lhs : Expr) (ts : list Token) := infix_loop ebp (S (length ts)) b lhs ts.

Lemma ebp_consuming : consuming ebp.
Proof. intros b ts e r. apply expr_bp_consuming. Qed.

Lemma ebp_unfold b ts : ebp b ts = ('(lhs, r) ← parse_prefix ebp ts; loop b lhs r).
Proof.
  assert (forall ts' b', (length ts' < length ts)%nat -> expr_bp (length ts) b' ts' = ebp b' ts')
    as Heq by (intros; apply expr_bp_fuel; lia).
  unfold ebp at 1. cbn [expr_bp].
  rewrite (parse_prefix_ext _ ebp); [|apply expr_bp_consuming|auto].
  destruct (parse_prefix ebp ts) as [[lhs r]|e] eqn:E; [|done]. cbn [mbind result_bind].
  apply parse_prefix_length in E; [|apply ebp_consuming].
  apply infix_loop_ext; [apply expr_bp_consuming|lia|lia|].
  intros b' ts' Hl. apply Heq. lia.
Qed.

Lemma loop_unfold b lhs ts :
  loop b lhs ts =
  match token_to_binop (peek ts) with
  | None => Ok (lhs, ts)
  | Some op =>
      if (infix_bp op).1 <? b then Ok (lhs, ts)
      else '(rhs, r) ← ebp (infix_bp op).2 (tail ts); loop b (EBinary op lhs rhs) r
  end.
Proof.
  unfold loop at 1. cbn [infix_loop]. destruct (token_to_binop (peek ts)) as [op|] eqn:Hop; [|done].
  destruct (infix_bp op) as [l_bp r_bp]. simpl. case_match; [done|].
  destruct (ebp r_bp (tail ts)) as [[rhs r]|e] eqn:E; [|done]. simpl.
  apply ebp_consuming in E. apply infix_loop_ext; [apply ebp_consuming| |lia|done].
  destruct ts; simpl in *; [done|lia].
Qed.

(** ** Termination: the parser always has an answer *)

Lemma expect_not_fuel t e ts : e <> ParserFuel -> expect t e ts <> Err ParserFuel.
Proof. unfold expect, advance. intros. case_decide; naive_solver. Qed.

Lemma parse_prefix_not_fuel rec ts :
  consuming rec -> (forall b ts', (length ts' < length ts)%nat -> rec b ts' <> Err ParserFuel) ->
  parse_prefix rec ts <> Err ParserFuel.
Proof.
  intros Hc Hrec. destruct ts as [|t ts]; [done|]. unfold parse_prefix, parse_unary. simpl in *.
  assert (forall b, rec b ts <> Err ParserFuel) as Hts by (intros; apply Hrec; lia).
  destruct t; try done;
    try by (rewrite bind_Err; intros [?|([? ?] & _ & ?)]; [by eapply Hts|]).
  - repeat (case_match; try done). unfold parse_if_function.
    rewrite bind_Err. clear dependent name. intros [H|(r1 & ->%expect_Ok & H)]; [by eapply expect_not_fuel in H| |done].
    simpl in Hrec. apply bind_Err in H as [H|([e1 r2] & H1 & H)]; [by eapply Hrec in H; [|lia]|].
    apply Hc in H1. apply bind_Err in H as [H|(r3 & ->%expect_Ok & H)];
      [by eapply expect_not_fuel in H| |done]. simpl in H1.
    apply bind_Err in H as [H|([e2 r4] & H2 & H)]; [by eapply Hrec in H; [|lia]|].
    apply Hc in H2. apply bind_Err in H as [H|(r5 & ->%expect_Ok & H)];
      [by eapply expect_not_fuel in H| |done]. simpl in H2.
    apply bind_Err in H as [H|([e3 r6] & H3 & H)]; [by eapply Hrec in H; [|lia]|].
    apply bind_Err in H as [H|(r7 & _ & H)]; [by eapply expect_not_fuel in H|done].
  - rewrite bind_Err. intros [H|([? ?] & _ & H)]; [naive_solver|].
    apply bind_Err in H as [H|(? & _ & ?)]; [by eapply expect_not_fuel in H|done].
Qed.

Lemma loop_not_fuel b lhs ts :
  (forall b ts', (length ts' < length ts)%nat -> ebp b ts' <> Err ParserFuel) ->
  loop b lhs ts <> Err ParserFuel.
Proof.
  remember (length ts) as k eqn:Hk. revert lhs ts Hk.
  induction (lt_wf k) as [k _ IH]. intros lhs ts -> Hrec. rewrite loop_unfold.
  destruct (token_to_binop (peek ts)) as [op|] eqn:Hop; [|done]. case_match; [done|].
  destruct ts as [|t ts]; [done|]. simpl in *.
  rewrite bind_Err. intros [Hb|([rhs r] & Hr & Hb)]; [by eapply Hrec in Hb; [|lia]|].
  apply ebp_consuming in Hr. eapply (IH (length r)) in Hb; [done|lia|done|].
  intros b' ts' ?. apply Hrec. lia.
Qed.

Lemma ebp_total b ts : ebp b ts <> Err ParserFuel.
Proof.
  remember (length ts) as k eqn:Hk. revert b ts Hk.
  induction (lt_wf k) as [k _ IH]. intros b ts ->. rewrite ebp_unfold, bind_Err.
  assert (forall b ts', (length ts' < length ts)%nat -> ebp b ts' <> Err ParserFuel) as Hrec
    by (intros; by eapply IH).
  intros [H|([lhs r] & H1 & H)].
  - by apply parse_prefix_not_fuel in H; [|apply ebp_consuming|].
  - apply parse_prefix_length in H1; [|apply ebp_consuming].
    apply loop_not_fuel in H; [done|]. intros; apply Hrec; lia.
Qed.

(** The Pratt parser is total: on every token list it returns an expression
    or one of the source's errors; the recursion fuel, the number of tokens,
    is never exhausted. *)
Theorem parse_total ts : parse ts <> Err ParserFuel.
Proof.
  unfold parse. fold (ebp 0 ts). rewrite bind_Err.
  intros [H|([e r] & _ & H)]; [by apply ebp_total in H|]. by case_decide.
Qed.

(** ** The language: the token lists of an expression *)

Definition binop_token (op : BinOp) : Token :=
  match op with
  | BAdd => TPlus | BSub => TMinus | BMul => TStar | BDiv => TSlash | BMod => TPercent
  | BBitAnd => TAmp | BBitOr => TPipe | BBitXor => TCaret
  | BShiftLeft => TShiftLeft | BShiftRight => TShiftRight
  | BAnd => TAnd | BOr => TOr
  | BEq => TEq | BNotEq => TNotEq | BLt => TLt | BGt => TGt | BLtEq => TLtEq | BGtEq => TGtEq
  end.
Definition unary_token (op : UnaryOp) : Token :=
  match op with UNeg => TMinus | UNot => TBang | UBitNot => TTilde end.

(** [spells c e ts]: [ts] writes [e] where an operator must bind at least as
    tightly as [c].  Any part may be put in parentheses; an operator that
    binds weaker than its place must be.  Operators of one level associate to
    the left.  The literals and [IF] may be written in any case. *)
Inductive spells : Z -> Expr -> list Token -> Prop :=
| sp_int c n : spells c (ELiteral (LInt n)) [TInt n]
| sp_float c f : spells c (ELiteral (LFloat f)) [TFloat f]
| sp_bool c (b : bool) name :
    eq_ignore_ascii_case name (if b then "true" else "false") = true -> spells c (ELiteral (LBool b)) [TIdent name]
| sp_variable c name :
    eq_ignore_ascii_case name "true" = false -> eq_ignore_ascii_case name "false" = false ->
    spells c (EVariable name) [TIdent name]
| sp_unary c op x ts : spells 23 x ts -> spells c (EUnary op x) (unary_token op :: ts)
| sp_binary c op l r tl tr :
    c <= (infix_bp op).1 -> spells (infix_bp op).1 l tl -> spells ((infix_bp op).1 + 1) r tr ->
    spells c (EBinary op l r) (tl ++ binop_token op :: tr)
| sp_if c name x y z tx ty tz :
    eq_ignore_ascii_case name "if" = true -> spells 0 x tx -> spells 0 y ty -> spells 0 z tz ->
    spells c (EIf x y z) (TIdent name :: TLParen :: tx ++ TComma :: ty ++ TComma :: tz ++ [TRParen])
| sp_paren c e ts : spells 0 e ts -> spells c e (TLParen :: ts ++ [TRParen]).

(** What follows the expression: no operator that binds at [c] or tighter and
    no opening parenthesis. *)
Definition stops (c : Z) (tail : list Token) : Prop :=
  peek tail <> TLParen /\
  match token_to_binop (peek tail) with Some op => (infix_bp op).1 < c | None => True end.

Lemma stops_mono c c' tl : c <= c' -> stops c tl -> stops c' tl.
Proof. unfold stops. destruct (token_to_binop _); naive_solver lia. Qed.

Lemma loop_stops b lhs tl : stops b tl -> loop b lhs tl = Ok (lhs, tl).
Proof.
  intros [_ H]. rewrite loop_unfold. destruct (token_to_binop (peek tl)); [|done].
  by rewrite (proj2 (Z.ltb_lt _ _) H).
Qed.

Lemma binop_token_inv op : token_to_binop (binop_token op) = Some op.
Proof. by destruct op. Qed.

Lemma infix_bp_bounds op : 0 < (infix_bp op).1 < 23 /\ (infix_bp op).2 = (infix_bp op).1 + 1.
Proof. destruct op; simpl; lia. Qed.

Lemma stops_binop op c tl : (infix_bp op).1 < c -> stops c (binop_token op :: tl).
Proof. intros H. split; [by destruct op|]. simpl. by rewrite binop_token_inv. Qed.

Lemma stops_punct c t tl : t = TRParen \/ t = TComma \/ t = TEof -> stops c (t :: tl).
Proof. intros [->|[->| ->]]; done. Qed.
#[export] Hint Resolve stops_punct stops_binop : rcd.

Lemma stops_23 tl c : stops c tl -> stops 23 tl.
Proof.
  intros [? H]. split; [done|]. destruct (token_to_binop _) as [op|]; [|done].
  pose proof (infix_bp_bounds op). lia.
Qed.

Lemma expect_cons t e ts : expect t e (t :: ts) = Ok ts.
Proof. unfold expect. simpl. by rewrite decide_True. Qed.

(** The words of the language are different in any case. *)
Lemma eq_ignore_trans a b c : eq_ignore_ascii_case a b = true -> eq_ignore_ascii_case a c = eq_ignore_ascii_case b c.
Proof. unfold eq_ignore_ascii_case. by intros ->%String.eqb_eq. Qed.

(** [reads c e ts]: after [ts], in a place of [c], the parser has read [e]. *)
Definition reads (c : Z) (e : Expr) (ts : list Token) : Prop :=
  forall b tl, b <= c -> stops (c + 1) tl -> ebp b (ts ++ tl) = loop b e tl.

Lemma reads_prefix c e ts :
  (forall tl, peek tl <> TLParen -> stops 23 tl -> parse_prefix ebp (ts ++ tl) = Ok (e, tl)) -> reads c e ts.
Proof. intros Hp b tl Hbc Hs. rewrite ebp_unfold, Hp; [done|by destruct Hs|]. by eapply stops_23. Qed.

(** A closed subexpression read at level [c] and then a stop. *)
Lemma reads_closed e c ts tl : reads c e ts -> stops c tl -> ebp c (ts ++ tl) = Ok (e, tl).
Proof. intros He Hs. rewrite He; [by apply loop_stops|lia|]. eapply stops_mono; [|done]. lia. Qed.

Lemma reads_binary c op l r tl tr :
  c <= (infix_bp op).1 -> reads (infix_bp op).1 l tl -> reads ((infix_bp op).1 + 1) r tr ->
  reads c (EBinary op l r) (tl ++ binop_token op :: tr).
Proof.
  intros Hc Hl Hr b rest Hbc Hs. pose proof (infix_bp_bounds op) as [Hb1 Hb2].
  rewrite <- app_assoc. cbn [app]. rewrite Hl; [|lia|apply stops_binop; lia].
  rewrite loop_unfold. cbn [peek tail]. rewrite binop_token_inv. rewrite (proj2 (Z.ltb_ge _ _)) by lia.
  rewrite Hb2, (reads_closed r _ tr); [done|done|]. eapply stops_mono; [|done]. lia.
Qed.

(** One argument of [IF] and the mark after it. *)
Ltac argument H := rewrite <- app_assoc; cbn [app]; erewrite reads_closed by (exact H || auto with rcd);
  cbn [mbind result_bind]; rewrite expect_cons; cbn [mbind result_bind].

Lemma reads_if c name x y z tx ty tz :
  eq_ignore_ascii_case name "if" = true -> reads 0 x tx -> reads 0 y ty -> reads 0 z tz ->
  reads c (EIf x y z) (TIdent name :: TLParen :: tx ++ TComma :: ty ++ TComma :: tz ++ [TRParen]).
Proof.
  intros Hn Hx Hy Hz. apply reads_prefix. intros tl _ _. cbn [app parse_prefix advance peek tail].
  rewrite !(eq_ignore_trans _ _ _ Hn). change (eq_ignore_ascii_case "if" "true") with false.
  change (eq_ignore_ascii_case "if" "false") with false. change (eq_ignore_ascii_case "if" "if") with true.
  rewrite bool_decide_true by done. cbn [andb].
  unfold parse_if_function. rewrite expect_cons. cbn [mbind result_bind].
  argument Hx. argument Hy. argument Hz.
  done.
Qed.

Lemma spells_reads c e ts : spells c e ts -> reads c e ts.
Proof.
  induction 1 as [c n|c f|c b name Hn|c name H1 H2|c op x ts _ IH|c op l r tl tr Hc _ IHl _ IHr
    |c name x y z tx ty tz Hn _ IHx _ IHy _ IHz|c e ts _ IH].
  - by apply reads_prefix.
  - by apply reads_prefix.
  - apply reads_prefix. intros tl _ _. cbn [app parse_prefix advance peek tail].
    destruct b; rewrite !(eq_ignore_trans _ _ _ Hn); done.
  - apply reads_prefix. intros tl Htl _. cbn [app parse_prefix advance peek tail]. rewrite H1, H2.
    rewrite bool_decide_false by done. by rewrite andb_false_r.
  - apply reads_prefix. intros tl _ Hs. pose proof (reads_closed x 23 ts tl IH Hs) as Hx.
    destruct op; cbn [app unary_token parse_prefix advance peek tail]; unfold parse_unary, prefix_bp; by rewrite Hx.
  - by apply reads_binary.
  - by apply reads_if.
  - apply reads_prefix. intros tl _ _. cbn [app parse_prefix advance peek tail].
    rewrite <- app_assoc. cbn [app]. rewrite (reads_closed e 0 ts) by auto with rcd. cbn [mbind result_bind].
    by rewrite expect_cons.
Qed.

(** *** What the parser reads is so spelled *)

Lemma token_binop_inv t op : token_to_binop t = Some op -> t = binop_token op.
Proof. destruct t; try done; by intros [= <-]. Qed.

Definition ends_at (c : Z) (r : list Token) : Prop :=
  match token_to_binop (peek r) with Some op => (infix_bp op).1 < c | None => True end.

(** [rec] spells on token lists shorter than [n]. *)
Definition spelling (rec : Z -> list Token -> result ParseError (Expr * list Token)) (n : nat) : Prop :=
  forall b ts e r, (length ts < n)%nat -> rec b ts = Ok (e, r) ->
    exists ts', ts = ts' ++ r /\ spells b e ts' /\ ends_at b r.

Lemma parse_if_spells n name ts e r :
  spelling ebp n -> (length ts <= n)%nat -> eq_ignore_ascii_case name "if" = true ->
  parse_if_function ebp ts = Ok (e, r) -> exists ts', TIdent name :: ts = ts' ++ r /\ forall c, spells c e ts'.
Proof.
  intros Hrec Hn Hname H. unfold parse_if_function in H.
  apply bind_Ok in H as (t1 & E1 & H). apply expect_Ok in E1; [|done]. subst ts. simpl in Hn.
  apply bind_Ok in H as ([x t2] & E2 & H). apply Hrec in E2 as (tx & -> & Hx & _); [|lia].
  rewrite length_app in Hn.
  apply bind_Ok in H as (t3 & E3 & H). apply expect_Ok in E3; [|done]. subst t2. simpl in Hn.
  apply bind_Ok in H as ([y t4] & E4 & H). apply Hrec in E4 as (ty & -> & Hy & _); [|lia].
  rewrite length_app in Hn.
  apply bind_Ok in H as (t5 & E5 & H). apply expect_Ok in E5; [|done]. subst t4. simpl in Hn.
  apply bind_Ok in H as ([z t6] & E6 & H). apply Hrec in E6 as (tz & -> & Hz & _); [|lia].
  apply bind_Ok in H as (t7 & E7 & H). apply expect_Ok in E7; [|done]. subst t6. injection H as <- <-.
  exists (TIdent name :: TLParen :: tx ++ TComma :: ty ++ TComma :: tz ++ [TRParen]).
  split; [|intros c; by constructor].
  cbn [app]. rewrite <- app_assoc. cbn [app]. rewrite <- app_assoc. cbn [app]. by rewrite <- app_assoc.
Qed.

Lemma parse_prefix_spells ts e r :
  spelling ebp (length ts) -> parse_prefix ebp ts = Ok (e, r) ->
  exists ts', ts = ts' ++ r /\ forall c, spells c e ts'.
Proof.
  intros Hrec. unfold parse_prefix. destruct ts as [|t ts]; [done|]. cbn [advance peek tail]. simpl length in Hrec.
  assert (Hun : forall op, parse_unary ebp op ts = Ok (e, r) -> exists ts', unary_token op :: ts = ts' ++ r /\ forall c, spells c e ts').
  { intros op H. unfold parse_unary in H. apply bind_Ok in H as ([x t1] & E & H). apply Hrec in E as (tx & -> & Hx & _); [|lia].
    injection H as <- <-. exists (unary_token op :: tx). split; [done|]. intros c. by constructor. }
  destruct t as [n|f|name| | | | | | | | | | | | | | | | | | | | | | | | ]; try done.
  - intros [= <- <-]. exists [TInt n]. split; [done|constructor].
  - intros [= <- <-]. exists [TFloat f]. split; [done|constructor].
  - destruct (eq_ignore_ascii_case name "true") eqn:Ht; [intros [= <- <-]; exists [TIdent name]; split; [done|by constructor]|].
    destruct (eq_ignore_ascii_case name "false") eqn:Hf; [intros [= <- <-]; exists [TIdent name]; split; [done|by constructor]|].
    destruct (eq_ignore_ascii_case name "if") eqn:Hi; simpl andb.
    + destruct (bool_decide _); [apply (parse_if_spells (S (length ts))); [done|lia|done]|].
      intros [= <- <-]. exists [TIdent name]. split; [done|by constructor].
    + intros [= <- <-]. exists [TIdent name]. split; [done|by constructor].
  - intros H. by apply (Hun UNeg).
  - intros H. by apply (Hun UBitNot).
  - intros H. by apply (Hun UNot).
  - intros ([x t1] & E & H)%bind_Ok. apply Hrec in E as (tx & -> & Hx & _); [|lia].
    apply bind_Ok in H as (t2 & E2 & H). apply expect_Ok in E2; [|done]. subst t1. injection H as <- <-.
    exists (TLParen :: tx ++ [TRParen]). split; [by rewrite <- app_comm_cons, <- app_assoc|]. intros c. by constructor.
Qed.

Lemma loop_spells n b lhs pre ts e r :
  spelling ebp n -> (length ts <= n)%nat -> spells b lhs pre ->
  (forall op, token_to_binop (peek ts) = Some op -> b <= (infix_bp op).1 -> spells (infix_bp op).1 lhs pre) ->
  loop b lhs ts = Ok (e, r) -> exists more, ts = more ++ r /\ spells b e (pre ++ more) /\ ends_at b r.
Proof.
  intros Hrec. remember (length ts) as k eqn:Hk. revert ts lhs pre Hk. induction (lt_wf k) as [k _ IH].
  intros ts lhs pre -> Hn Hb Hop. rewrite loop_unfold. destruct (token_to_binop (peek ts)) as [op|] eqn:Ht.
  - destruct (Z.ltb_spec (infix_bp op).1 b) as [Hlt|Hge].
    + intros [= <- <-]. exists []. rewrite app_nil_r. split_and!; [done|done|]. unfold ends_at. by rewrite Ht.
    + specialize (Hop op eq_refl Hge). destruct ts as [|t ts]; [done|]. simpl in Ht, Hn. apply token_binop_inv in Ht as ->.
      pose proof (infix_bp_bounds op) as [_ Hr]. cbn [tail]. intros ([rhs r1] & E & H)%bind_Ok.
      apply Hrec in E as (tr & -> & Hrhs & Hend); [|simpl; lia]. rewrite Hr in Hrhs, Hend. rewrite length_app in Hn.
      assert (Hbin : forall c, c <= (infix_bp op).1 -> spells c (EBinary op lhs rhs) (pre ++ binop_token op :: tr))
        by (intros; by constructor).
      apply (IH (length r1)) with (pre := pre ++ binop_token op :: tr) in H as (more & -> & Hs & He);
        [|simpl; rewrite length_app; lia|done|lia|by apply Hbin|].
      * exists (binop_token op :: tr ++ more). split_and!; [by rewrite <- app_comm_cons, <- app_assoc| |done].
        by rewrite <- app_assoc in Hs.
      * intros op2 Hop2 _. apply Hbin. unfold ends_at in Hend. rewrite Hop2 in Hend. lia.
  - intros [= <- <-]. exists []. rewrite app_nil_r. split_and!; [done|done|]. unfold ends_at. by rewrite Ht.
Qed.

Lemma ebp_spells n : spelling ebp n.
Proof.
  induction n as [|n IH]; intros b ts e r Hn; [lia|]. rewrite ebp_unfold. intros ([lhs r1] & E & H)%bind_Ok.
  assert (Hrec : spelling ebp (length ts)) by (intros b' ts' e' r' Hlt; apply IH; lia).
  pose proof (parse_prefix_length _ _ _ _ ebp_consuming E) as Hlen.
  apply parse_prefix_spells in E as (pre & -> & Hpre); [|done].
  apply (loop_spells (length (pre ++ r1)) b lhs pre) in H as (more & -> & Hs & He); [|done|lia|done|by intros].
  exists (pre ++ more). by rewrite <- app_assoc.
Qed.

Lemma spells_no_eof c e ts : spells c e ts -> TEof ∉ ts.
Proof.
  assert (Hb : forall op, TEof <> binop_token op) by (by intros []). assert (Hu : forall op, TEof <> unary_token op) by (by intros []).
  induction 1 as [| | | |? op x ts _ IH|? op l r tl tr _ _ IHl _ IHr|? ? x y z tx ty tz _ _ IHx _ IHy _ IHz|? e ts _ IH];
    rewrite ?elem_of_cons, ?elem_of_app, ?elem_of_cons, ?elem_of_app, ?elem_of_cons, ?elem_of_app, ?list_elem_of_singleton, ?elem_of_nil.
  all: try specialize (Hb op); try specialize (Hu op); intuition congruence.
Qed.

(** The parser accepts exactly the token lists of expressions. *)
Lemma parse_iff ts e : TEof ∉ ts -> parse (ts ++ [TEof]) = Ok e <-> spells 0 e ts.
Proof.
  intros Hno. unfold parse. fold (ebp 0 (ts ++ [TEof])). split.
  - intros ([e' r] & E & H)%bind_Ok. apply (ebp_spells (S (length (ts ++ [TEof])))) in E as (ts' & Happ & Hs & _); [|lia].
    case_decide as Hp; [|done]. injection H as ->. pose proof (spells_no_eof _ _ _ Hs) as Hno'.
    destruct r as [|t r]; simpl in Hp.
    + rewrite app_nil_r in Happ. destruct Hno'. rewrite <- Happ. apply elem_of_app. right. by left.
    + subst t. destruct r as [|x r _] using rev_ind; [by apply app_inj_tail in Happ as [-> _]|].
      rewrite app_comm_cons, app_assoc in Happ. apply app_inj_tail in Happ as [-> _]. destruct Hno.
      apply elem_of_app. right. by left.
  - intros Hs. rewrite (reads_closed e 0 ts [TEof]); [done|by apply spells_reads|auto with rcd].
Qed.

(** C40: The expression language is exactly its grammar. A text is accepted and
    gives the expression [e] if and only if it is a spelling of [e]: tokens
    (numbers, names, KKS codes that start with digits, operators) one after
    the other with any white space, and none where two tokens do not run into
    each other; operators with the precedence of the binding powers and left
    associativity; parentheses wherever they are needed and anywhere else
    around an expression; [IF], [true] and [false] in any case. *)
Theorem parse_text_exact s e :
  parse_text s = Ok e <-> exists ts, spelled (list_ascii_of_string s) ts /\ spells 0 e ts.
Proof.
  unfold parse_text. split.
  - destruct (tokenize s) as [ts|] eqn:Et; [|done]. apply tokenize_iff in Et as (ts' & -> & Hts). simpl.
    destruct (parse (ts' ++ [TEof])) as [e'|] eqn:Ep; [|done]. intros [= ->]. exists ts'. split; [done|].
    apply parse_iff; [by eapply spelled_no_eof|done].
  - intros (ts & Hts & He). rewrite (proj2 (tokenize_iff s (ts ++ [TEof]))) by (by exists ts). simpl.
    by rewrite (proj2 (parse_iff ts e (spelled_no_eof _ _ Hts)) He).
Qed.

(** ** Variable extraction *)

Lemma elem_of_collect x e out :
  x ∈ collect_variables e out <-> x ∈ out \/ x ∈ collect_variables e [].
Proof.
  revert out; induction e as [l|name|op l IHl r IHr|op y IHy|a IHa b IHb c IHc];
    intros out; simpl.
  - set_solver.
  - set_solver.
  - rewrite IHr, IHl, (IHr (collect_variables l [])). tauto.
  - apply IHy.
  - rewrite IHc, IHb, IHa, (IHc (collect_variables b _)), (IHb (collect_variables a [])). tauto.
Qed.

Lemma elem_of_insert_sorted x s l : x ∈ insert_sorted s l <-> x = s \/ x ∈ l.
Proof. induction l as [|y l IH]; simpl; [set_solver|]. case_match; set_solver. Qed.

Lemma elem_of_sort_strings x l : x ∈ sort_strings l <-> x ∈ l.
Proof. induction l as [|y l IH]; simpl; [done|]. rewrite elem_of_insert_sorted, IH. set_solver. Qed.

Lemma insert_sorted_perm s l : insert_sorted s l ≡ₚ s :: l.
Proof.
  induction l as [|x l IH]; simpl; [done|]. destruct (String.leb s x); [done|]. rewrite IH. apply Permutation_swap.
Qed.
Lemma sort_strings_perm l : sort_strings l ≡ₚ l.
Proof. induction l as [|y l IH]; simpl; [done|]. by rewrite insert_sorted_perm, IH. Qed.

Lemma elem_of_dedup x l : x ∈ dedup l <-> x ∈ l.
Proof.
  induction l as [|y l IH]; simpl; [done|]. rewrite (elem_of_cons l), <- IH. clear IH.
  destruct (dedup l) as [|z r]; [set_solver|].
  destruct (String.eqb_spec y z) as [->|]; set_solver.
Qed.

Lemma elem_of_extract_variables x e : x ∈ extract_variables e <-> x ∈ collect_variables e [].
Proof. unfold extract_variables. by rewrite elem_of_dedup, elem_of_sort_strings. Qed.

(** Where a name occurs, by the shape of the expression. *)
Lemma extract_variable_var x name : x ∈ extract_variables (EVariable name) <-> x = name.
Proof. rewrite elem_of_extract_variables. simpl. set_solver. Qed.
Lemma extract_variable_unary x op e :
  x ∈ extract_variables (EUnary op e) <-> x ∈ extract_variables e.
Proof. by rewrite !elem_of_extract_variables. Qed.
Lemma extract_variable_binary x op l r :
  x ∈ extract_variables (EBinary op l r) <-> x ∈ extract_variables l \/ x ∈ extract_variables r.
Proof. rewrite !elem_of_extract_variables. simpl. rewrite elem_of_collect. tauto. Qed.
Lemma extract_variable_if x c t e :
  x ∈ extract_variables (EIf c t e) <->
  x ∈ extract_variables c \/ x ∈ extract_variables t \/ x ∈ extract_variables e.
Proof.
  rewrite !elem_of_extract_variables. simpl.
  rewrite elem_of_collect, (elem_of_collect x t). tauto.
Qed.

(** Spellings without white space, with redundant parentheses, of any case. *)
Example parse_spellings :
  parse_text "(a+10KKS)*2<-b"
  = Ok (EBinary BLt (EBinary BMul (EBinary BAdd (EVariable "a") (EVariable "10KKS")) (ELiteral (LInt 2)))
          (EUnary UNeg (EVariable "b"))) /\
  parse_text " ( ( a ) ) " = Ok (EVariable "a") /\
  parse_text "!!a" = Ok (EUnary UNot (EUnary UNot (EVariable "a"))) /\
  parse_text "iF(TRUE,a,False)" = Ok (EIf (ELiteral (LBool true)) (EVariable "a") (ELiteral (LBool false))).
Proof. vm_compute. done. Qed.
