(* ===== verification/Evaluator.v ===== *)
(** * AST evaluator (src/src/calc_engine/evaluator.rs) *)

From S2P Require Import Prelude RustFloat RustStr Model Tokenizer Parser.
Open Scope string_scope.
Open Scope Z_scope.
Open Scope list_scope.

Definition FLOAT_EQ_EPSILON : f64 := f64_of_decimal 1 9.

Inductive EvalValue :=
| EvInt (n : Z)
| EvBool (b : bool)
| EvFloat (f : f64).

(** The text of a [TypeError], one constructor per message of the source. *)
Inductive TypeMsg :=
| FloatNotFinite (f : f64)
| FloatNotInteger (f : f64)
| FloatOutOfRange (f : f64)
| NegOverflow | AddOverflow | SubOverflow | MulOverflow | RemOverflow
| NegativeShift (shift : Z).

(** [Panic] stands for the [unreachable!] of [eval_binary]. *)
Inductive EvalError :=
| MissingVariable (name : string)
| DivisionByZero
| TypeError (msg : TypeMsg)
| Panic.

(** ** EvalValue *)

Definition from_model_value (value : Value) : EvalValue :=
  match value with
  | VUInt n => EvInt n
  | VBool b => EvBool b
  | VFloat f => EvFloat (f64_of_f32 f)
  | VDouble f => EvFloat f
  end.

Definition as_bool (v : EvalValue) : bool :=
  match v with
  | EvBool b => b
  | EvInt n => negb (n =? 0)
  | EvFloat f => f64_ne f f64_zero
  end.

Definition as_f64 (v : EvalValue) : f64 :=
  match v with
  | EvInt n => f64_of_Z n
  | EvBool b => if b then f64_one else f64_zero
  | EvFloat f => f
  end.

Definition is_invalid_float (v : EvalValue) : bool :=
  match v with EvFloat f => f64_is_nan f || f64_is_infinite f | _ => false end.

Definition is_float (v : EvalValue) : bool := match v with EvFloat _ => true | _ => false end.

Definition as_int_for_integer_op (v : EvalValue) : result EvalError Z :=
  match v with
  | EvInt n => Ok n
  | EvBool b => Ok (if b then 1 else 0)
  | EvFloat f =>
      if negb (f64_is_finite f) then Err (TypeError (FloatNotFinite f))
      else if f64_ne (f64_fract f) f64_zero then Err (TypeError (FloatNotInteger f))
      else if f64_lt f (f64_of_Z i64_min) || f64_gt f (f64_of_Z i64_max)
      then Err (TypeError (FloatOutOfRange f))
      else Ok (f64_as_i64 f)
  end.

(** ** Operations *)

Definition eval_literal (lit : Literal) : EvalValue :=
  match lit with
  | LInt n => EvInt n
  | LFloat f => EvFloat f
  | LBool b => EvBool b
  end.

Definition checked (msg : TypeMsg) (z : Z) : result EvalError EvalValue :=
  ok_or (TypeError msg) (EvInt <$> i64_checked z).

Definition eval_unary (op : UnaryOp) (val : EvalValue) : result EvalError EvalValue :=
  match op with
  | UNeg =>
      match val with
      | EvFloat f => Ok (EvFloat (f64_neg f))
      | _ => n ← as_int_for_integer_op val; checked NegOverflow (- n)
      end
  | UNot => Ok (EvBool (negb (as_bool val)))
  | UBitNot => n ← as_int_for_integer_op val; Ok (EvInt (Z.lnot n))
  end.

Definition int_op (msg : TypeMsg) (fop : f64 -> f64 -> f64) (iop : Z -> Z -> Z)
    (l r : EvalValue) : result EvalError EvalValue :=
  if is_float l || is_float r then Ok (EvFloat (fop (as_f64 l) (as_f64 r)))
  else
    a ← as_int_for_integer_op l;
    b ← as_int_for_integer_op r;
    checked msg (iop a b).

Definition eval_add : EvalValue -> EvalValue -> result EvalError EvalValue :=
  int_op AddOverflow f64_add Z.add.
Definition eval_sub : EvalValue -> EvalValue -> result EvalError EvalValue :=
  int_op SubOverflow f64_sub Z.sub.
Definition eval_mul : EvalValue -> EvalValue -> result EvalError EvalValue :=
  int_op MulOverflow f64_mul Z.mul.

Definition eval_div (l r : EvalValue) : result EvalError EvalValue :=
  if f64_eq (as_f64 r) f64_zero then Err DivisionByZero
  else Ok (EvFloat (f64_div (as_f64 l) (as_f64 r))).

(** [i64::checked_rem]: [None] for a zero divisor and for [MIN % -1]. *)
Definition i64_checked_rem (a b : Z) : option Z :=
  if b =? 0 then None
  else if (a =? i64_min) && (b =? -1) then None
  else Some (Z.rem a b).

Definition eval_mod (l r : EvalValue) : result EvalError EvalValue :=
  if f64_eq (as_f64 r) f64_zero then Err DivisionByZero
  else if is_float l || is_float r then Ok (EvFloat (f64_rem (as_f64 l) (as_f64 r)))
  else
    a ← as_int_for_integer_op l;
    b ← as_int_for_integer_op r;
    ok_or (TypeError RemOverflow) (EvInt <$> i64_checked_rem a b).

(** [(shift as u32).min(63)]: the cast keeps the low 32 bits. *)
Definition checked_shift (shift : Z) : result EvalError Z :=
  if shift <? 0 then Err (TypeError (NegativeShift shift))
  else Ok (Z.min (shift mod 2 ^ 32) 63).

Definition eq_values (l r : EvalValue) : bool :=
  match l, r with
  | EvBool a, EvBool b => Bool.eqb a b
  | EvInt a, EvInt b => a =? b
  | EvFloat a, EvFloat b => f64_le (f64_abs (f64_sub a b)) FLOAT_EQ_EPSILON
  | _, _ => f64_le (f64_abs (f64_sub (as_f64 l) (as_f64 r))) FLOAT_EQ_EPSILON
  end.

Definition bit_op (f : Z -> Z -> Z) (l r : EvalValue) : result EvalError EvalValue :=
  a ← as_int_for_integer_op l;
  b ← as_int_for_integer_op r;
  Ok (EvInt (f a b)).

Definition eval_binary (op : BinOp) (l r : EvalValue) : result EvalError EvalValue :=
  match op with
  | BAdd => eval_add l r
  | BSub => eval_sub l r
  | BMul => eval_mul l r
  | BDiv => eval_div l r
  | BMod => eval_mod l r
  | BBitAnd => bit_op Z.land l r
  | BBitOr => bit_op Z.lor l r
  | BBitXor => bit_op Z.lxor l r
  | BShiftLeft =>
      n ← as_int_for_integer_op r;
      shift ← checked_shift n;
      a ← as_int_for_integer_op l;
      Ok (EvInt (i64_wrap (Z.shiftl a shift)))
  | BShiftRight =>
      n ← as_int_for_integer_op r;
      shift ← checked_shift n;
      a ← as_int_for_integer_op l;
      Ok (EvInt (Z.shiftr a shift))
  | BAnd | BOr => Err Panic
  | BEq => Ok (EvBool (eq_values l r))
  | BNotEq => Ok (EvBool (negb (eq_values l r)))
  | BLt => Ok (EvBool (f64_lt (as_f64 l) (as_f64 r)))
  | BGt => Ok (EvBool (f64_gt (as_f64 l) (as_f64 r)))
  | BLtEq => Ok (EvBool (f64_le (as_f64 l) (as_f64 r)))
  | BGtEq => Ok (EvBool (f64_ge (as_f64 l) (as_f64 r)))
  end.

(** ** Evaluation *)

Fixpoint evaluate (expr : Expr) (variables : gmap string EvalValue) : result EvalError EvalValue :=
  match expr with
  | ELiteral lit => Ok (eval_literal lit)
  | EVariable name => ok_or (MissingVariable name) (variables !! name)
  | EUnary op operand => val ← evaluate operand variables; eval_unary op val
  | EBinary op l r =>
      match op with
      | BAnd =>
          lv ← evaluate l variables;
          if negb (as_bool lv) then Ok (EvBool false)
          else rv ← evaluate r variables; Ok (EvBool (as_bool rv))
      | BOr =>
          lv ← evaluate l variables;
          if as_bool lv then Ok (EvBool true)
          else rv ← evaluate r variables; Ok (EvBool (as_bool rv))
      | _ =>
          lv ← evaluate l variables;
          rv ← evaluate r variables;
          eval_binary op lv rv
      end
  | EIf c t e =>
      cv ← evaluate c variables;
      if as_bool cv then evaluate t variables else evaluate e variables
  end.

Fixpoint evaluate_with_validity (expr : Expr) (variables : gmap string EvalValue)
    (validity : gmap string bool) : result EvalError (EvalValue * bool) :=
  match expr with
  | ELiteral lit => Ok (eval_literal lit, true)
  | EVariable name =>
      ok_or (MissingVariable name)
        ((fun value => (value, default false (validity !! name))) <$> variables !! name)
  | EUnary op operand =>
      '(value, valid) ← evaluate_with_validity operand variables validity;
      v ← eval_unary op value;
      Ok (v, valid)
  | EBinary op l r =>
      match op with
      | BAnd =>
          '(lv, l_valid) ← evaluate_with_validity l variables validity;
          if negb (as_bool lv) then Ok (EvBool false, l_valid)
          else
            '(rv, r_valid) ← evaluate_with_validity r variables validity;
            Ok (EvBool (as_bool rv), l_valid && r_valid)
      | BOr =>
          '(lv, l_valid) ← evaluate_with_validity l variables validity;
          if as_bool lv then Ok (EvBool true, l_valid)
          else
            '(rv, r_valid) ← evaluate_with_validity r variables validity;
            Ok (EvBool (as_bool rv), l_valid && r_valid)
      | _ =>
          '(lv, l_valid) ← evaluate_with_validity l variables validity;
          '(rv, r_valid) ← evaluate_with_validity r variables validity;
          v ← eval_binary op lv rv;
          Ok (v, l_valid && r_valid)
      end
  | EIf c t e =>
      '(cv, c_valid) ← evaluate_with_validity c variables validity;
      '(value, b_valid) ←
        (if as_bool cv then evaluate_with_validity t variables validity
         else evaluate_with_validity e variables validity);
      Ok (value, c_valid && b_valid)
  end.

Definition eval_text (s : string) (vars : gmap string EvalValue) : option (result EvalError EvalValue) :=
  match parse_text s with Ok e => Some (evaluate e vars) | Err _ => None end.

Example eval_div_10_4 : eval_text "10 / 4" ∅ = Some (Ok (EvFloat (f64_of_decimal 25 1))).
Proof. vm_compute. reflexivity. Qed.
Example eval_mod_overflow :
  eval_text "(-9223372036854775807 - 1) % -1" ∅ = Some (Err (TypeError RemOverflow)).
Proof. vm_compute. reflexivity. Qed.
Example eval_if_short_circuit :
  eval_text "IF(ready == 1, sl3, 4)" {[ "ready" := EvInt 0 ]} = Some (Ok (EvInt 4)).
Proof. vm_compute. reflexivity. Qed.
Example eval_float_equality :
  eval_text "0.1 + 0.2 == 0.3" ∅ = Some (Ok (EvBool true)).
Proof. vm_compute. reflexivity. Qed.

(** ** Strict and lazy operators

    [&&] and [||] short-circuit; the other operators evaluate both operands.
    Proofs about a binary node split on these three cases. *)

Definition strict_op (op : BinOp) : Prop := op <> BAnd /\ op <> BOr.

Lemma evaluate_strict op l r vars :
  strict_op op ->
  evaluate (EBinary op l r) vars
  = (lv ← evaluate l vars; rv ← evaluate r vars; eval_binary op lv rv).
Proof. intros []. by destruct op. Qed.

Lemma evaluate_with_validity_strict op l r vars V :
  strict_op op ->
  evaluate_with_validity (EBinary op l r) vars V
  = ('(lv, lb) ← evaluate_with_validity l vars V;
     '(rv, rb) ← evaluate_with_validity r vars V;
     v ← eval_binary op lv rv; Ok (v, lb && rb)).
Proof. intros []. by destruct op. Qed.

Lemma binop_cases op : op = BAnd \/ op = BOr \/ strict_op op.
Proof. unfold strict_op. destruct op; naive_solver. Qed.

(** ** The two evaluators agree *)

(** The value part of [evaluate_with_validity] is [evaluate], errors included:
    tracking validity never changes what is computed. *)
Lemma evaluate_with_validity_value e vars validity :
  fst <$> evaluate_with_validity e vars validity = evaluate e vars.
Proof.
  induction e as [lit|x|op l IHl r IHr|op o IH|c IHc t IHt e IHe].
  - done.
  - simpl. by destruct (vars !! x).
  - destruct (binop_cases op) as [->|[->|Hop]];
      [| |rewrite evaluate_strict, evaluate_with_validity_strict by done]; simpl;
      rewrite <- IHl, <- IHr;
      (destruct (evaluate_with_validity l vars validity) as [[lv lb]|]; [|done]); simpl;
      try destruct (as_bool lv); try done;
      (destruct (evaluate_with_validity r vars validity) as [[rv rb]|]; [|done]); simpl; try done.
    all: by destruct (eval_binary op lv rv).
  - simpl. rewrite <- IH. destruct (evaluate_with_validity o vars validity) as [[v b]|]; [|done].
    simpl. by destruct (eval_unary op v).
  - simpl. rewrite <- IHc, <- IHt, <- IHe.
    destruct (evaluate_with_validity c vars validity) as [[cv cb]|]; [|done]. simpl.
    destruct (as_bool cv);
      [destruct (evaluate_with_validity t vars validity) as [[]|]|destruct (evaluate_with_validity e vars validity) as [[]|]]; done.
Qed.

(** ** Validity *)

(** The variables [V] marks valid. *)
Definition marked_valid (V : gmap string bool) (x : string) : Prop := V !! x = Some true.

(** Two environments an observer of the valid variables cannot tell apart. *)
Definition agree_on (P : string -> Prop) (vars vars' : gmap string EvalValue) : Prop :=
  forall x, P x -> vars !! x = vars' !! x.

Ltac inv_eval :=
  repeat (inv_result || match goal with
  | H : (let '(_, _) := ?p in _) = Ok _ |- _ => destruct p
  | H : (_, _) = (_, _) |- _ => injection H as ? ?; subst
  | H : _ && _ = true |- _ => apply andb_true_iff in H as [? ?]
  end).

(** A result flagged valid is determined by the valid inputs alone. *)
Lemma valid_result_noninterference e vars vars' V v :
  agree_on (marked_valid V) vars vars' ->
  evaluate_with_validity e vars V = Ok (v, true) ->
  evaluate_with_validity e vars' V = Ok (v, true).
Proof.
  intros Hagree. revert v.
  induction e as [lit|x|op l IHl r IHr|op o IH|c IHc t IHt e IHe]; intros v.
  - done.
  - simpl. destruct (vars !! x) as [w|] eqn:Hw; [|done]. simpl. intros [= <- HV].
    rewrite <- Hagree, Hw by (unfold marked_valid; by destruct (V !! x); simpl in HV; subst).
    simpl. by rewrite HV.
  - destruct (binop_cases op) as [->|[->|Hop]];
      [| |rewrite !evaluate_with_validity_strict by done]; simpl; intros H; inv_eval;
      repeat case_match; inv_eval;
      repeat (erewrite IHl by eassumption; simpl);
      repeat match goal with H : ?b = _ |- context [?b] => rewrite H end; simpl;
      repeat (erewrite IHr by eassumption; simpl); try done.
    by match goal with H : eval_binary _ _ _ = _ |- _ => rewrite H end.
  - simpl. intros H. inv_eval. erewrite IH by eassumption. simpl.
    by match goal with H : eval_unary _ _ = _ |- _ => rewrite H end.
  - simpl. intros H. inv_eval. erewrite IHc by eassumption. simpl.
    case_match; [erewrite IHt by eassumption|erewrite IHe by eassumption]; done.
Qed.

(** ** Frame: an expression reads its own variables only *)

(** Membership in the variables of a compound expression. *)
Ltac solve_fv :=
  intros; first
  [ match goal with H : forall x, x ∈ extract_variables _ -> _ |- _ => apply H; clear H end
  | idtac ];
  rewrite ?extract_variable_var, ?extract_variable_unary, ?extract_variable_binary,
    ?extract_variable_if; tauto.

Lemma evaluate_with_validity_frame e vars vars' V V' :
  (forall x, x ∈ extract_variables e -> vars !! x = vars' !! x /\ V !! x = V' !! x) ->
  evaluate_with_validity e vars V = evaluate_with_validity e vars' V'.
Proof.
  induction e as [lit|x|op l IHl r IHr|op o IH|c IHc t IHt e IHe]; intros H.
  - done.
  - simpl. destruct (H x) as [-> ->]; [solve_fv|done].
  - destruct (binop_cases op) as [->|[->|Hop]];
      [| |rewrite !evaluate_with_validity_strict by done]; simpl;
      by rewrite IHl, IHr by solve_fv.
  - simpl. by rewrite IH by solve_fv.
  - simpl. by rewrite IHc, IHt, IHe by solve_fv.
Qed.

Lemma evaluate_frame e vars vars' :
  (forall x, x ∈ extract_variables e -> vars !! x = vars' !! x) ->
  evaluate e vars = evaluate e vars'.
Proof.
  intros H. rewrite <- (evaluate_with_validity_value e vars ∅), <- (evaluate_with_validity_value e vars' ∅).
  f_equal. by apply evaluate_with_validity_frame; auto.
Qed.

(** Valid inputs give a valid result. *)
Lemma all_inputs_valid_true e vars V v b :
  (forall x, x ∈ extract_variables e -> marked_valid V x) ->
  evaluate_with_validity e vars V = Ok (v, b) -> b = true.
Proof.
  revert v b. induction e as [lit|x|op l IHl r IHr|op o IH|c IHc t IHt e IHe]; intros v b HV.
  - by intros [= _ <-].
  - simpl. destruct (vars !! x); [|done]. rewrite (HV x) by solve_fv. by intros [= _ <-].
  - destruct (binop_cases op) as [->|[->|Hop]];
      [| |rewrite evaluate_with_validity_strict by done]; simpl; intros H; inv_eval;
      repeat case_match; inv_eval;
      rewrite ?andb_true_iff; repeat split;
      first [eapply IHl; [solve_fv|eassumption]|eapply IHr; [solve_fv|eassumption]].
  - simpl. intros H; inv_eval. eapply IH; [solve_fv|eassumption].
  - simpl. intros H; inv_eval. rewrite andb_true_iff. split.
    + eapply IHc; [solve_fv|eassumption].
    + case_match; [eapply IHt|eapply IHe]; try eassumption; solve_fv.
Qed.

(** ** Errors *)

Lemma as_int_error v err : as_int_for_integer_op v = Err err -> exists m, err = TypeError m.
Proof. unfold as_int_for_integer_op. intros. case_all; eauto. Qed.

Lemma eval_binary_error op l r err :
  strict_op op -> eval_binary op l r = Err err -> err = DivisionByZero \/ exists m, err = TypeError m.
Proof.
  intros [H1 H2] H. destruct op; try done; simpl in H;
    unfold eval_add, eval_sub, eval_mul, int_op, eval_div, eval_mod, bit_op, checked, ok_or,
      checked_shift in H;
    repeat first [ progress simplify_eq/= | case_match | apply bind_Err in H as [H|(? & ? & H)]
      | match goal with H : as_int_for_integer_op _ = Err _ |- _ =>
          apply as_int_error in H end ]; eauto.
Qed.

Lemma eval_unary_error op v err : eval_unary op v = Err err -> exists m, err = TypeError m.
Proof.
  intros H. destruct op; simpl in H; unfold checked, ok_or in H;
    repeat first [ progress simplify_eq/= | case_match | apply bind_Err in H as [H|(? & ? & H)]
      | match goal with H : as_int_for_integer_op _ = Err _ |- _ =>
          apply as_int_error in H end ]; eauto.
Qed.

(** Every failure is one of the documented ones: a missing variable is a
    variable of the expression with no value, and the [unreachable!] arm of
    [eval_binary] is never reached. *)
Definition eval_error_ok (e : Expr) (vars : gmap string EvalValue) (err : EvalError) : Prop :=
  match err with
  | MissingVariable x => x ∈ extract_variables e /\ vars !! x = None
  | DivisionByZero | TypeError _ => True
  | Panic => False
  end.

Lemma eval_error_ok_sub e e' vars err :
  (forall x, x ∈ extract_variables e -> x ∈ extract_variables e') ->
  eval_error_ok e vars err -> eval_error_ok e' vars err.
Proof. destruct err; simpl; naive_solver. Qed.

Lemma evaluate_errors e vars err : evaluate e vars = Err err -> eval_error_ok e vars err.
Proof.
  induction e as [lit|x|op l IHl r IHr|op o IH|c IHc t IHt e IHe].
  - done.
  - simpl. destruct (vars !! x) eqn:Hx; [done|]. intros [= <-]. split; [solve_fv|done].
  - destruct (binop_cases op) as [->|[->|Hop]]; [| |rewrite evaluate_strict by done]; simpl;
      rewrite bind_Err; (intros [H|(? & ? & H)]; [eapply eval_error_ok_sub, IHl, H; solve_fv|]);
      try case_match; try done;
      rewrite bind_Err in H; (destruct H as [H|(? & ? & H)]; [eapply eval_error_ok_sub, IHr, H; solve_fv|]);
      try done.
    apply eval_binary_error in H as [->|[m ->]]; done.
  - simpl. rewrite bind_Err. intros [H|(? & ? & H)].
    + eapply eval_error_ok_sub, IH, H; solve_fv.
    + by apply eval_unary_error in H as [m ->].
  - simpl. rewrite bind_Err. intros [H|(? & ? & H)]; [eapply eval_error_ok_sub, IHc, H; solve_fv|].
    case_match; [eapply eval_error_ok_sub, IHt, H|eapply eval_error_ok_sub, IHe, H]; solve_fv.
Qed.

(** ** Integers stay within 64 bits *)

Definition value_wf (v : EvalValue) : Prop := match v with EvInt n => is_i64 n | _ => True end.

Definition env_wf (vars : gmap string EvalValue) : Prop := map_Forall (fun _ => value_wf) vars.

Fixpoint expr_wf (e : Expr) : Prop :=
  match e with
  | ELiteral (LInt n) => is_i64 n
  | ELiteral _ | EVariable _ => True
  | EUnary _ o => expr_wf o
  | EBinary _ l r => expr_wf l /\ expr_wf r
  | EIf c t e => expr_wf c /\ expr_wf t /\ expr_wf e
  end.

(** [n] is an [i64] when its bits above the 62nd are the sign. *)
Lemma is_i64_shiftr n : is_i64 n <-> Z.shiftr n 63 = 0 \/ Z.shiftr n 63 = -1.
Proof.
  rewrite Z.shiftr_div_pow2 by lia. unfold is_i64, i64_min, i64_max.
  pose proof (Z.div_mod n (2 ^ 63) ltac:(lia)).
  pose proof (Z.mod_pos_bound n (2 ^ 63) ltac:(lia)). lia.
Qed.

Lemma i64_land a b : is_i64 a -> is_i64 b -> is_i64 (Z.land a b).
Proof. rewrite !is_i64_shiftr, Z.shiftr_land. by intros [->| ->] [->| ->]; auto. Qed.
Lemma i64_lor a b : is_i64 a -> is_i64 b -> is_i64 (Z.lor a b).
Proof. rewrite !is_i64_shiftr, Z.shiftr_lor. by intros [->| ->] [->| ->]; auto. Qed.
Lemma i64_lxor a b : is_i64 a -> is_i64 b -> is_i64 (Z.lxor a b).
Proof. rewrite !is_i64_shiftr, Z.shiftr_lxor. by intros [->| ->] [->| ->]; auto. Qed.
Lemma i64_lnot a : is_i64 a -> is_i64 (Z.lnot a).
Proof. unfold is_i64, Z.lnot, i64_min, i64_max. lia. Qed.
Lemma i64_shiftr a s : 0 <= s -> is_i64 a -> is_i64 (Z.shiftr a s).
Proof.
  intros. rewrite Z.shiftr_div_pow2 by done.
  pose proof (Z.pow_pos_nonneg 2 s ltac:(lia) ltac:(done)). unfold is_i64, i64_min, i64_max in *.
  split; [apply Z.div_le_lower_bound; nia|].
  enough (a / 2 ^ s < 9223372036854775808) by lia. apply Z.div_lt_upper_bound; nia.
Qed.
Lemma i64_rem a b : is_i64 a -> b <> 0 -> is_i64 (Z.rem a b).
Proof.
  unfold is_i64, i64_min, i64_max. intros Ha Hb.
  pose proof (Z.rem_bound_abs a b Hb). pose proof (Z.quot_rem' a b).
  pose proof (Z.rem_sign_mul a b Hb). pose proof (Z.rem_le (Z.abs a) (Z.abs b)).
  destruct (Z.le_gt_cases 0 a).
  - pose proof (Z.rem_nonneg a b Hb ltac:(lia)). 
    enough (Z.rem a b <= a) by lia.
    rewrite <- Z.rem_abs_r by done. rewrite <- (Z.abs_eq a) at 2 by lia.
    rewrite <- (Z.abs_eq a) at 1 by lia. apply Z.rem_le; lia.
  - rewrite <- (Z.opp_involutive a), Z.rem_opp_l by done.
    assert (0 <= Z.rem (- a) b) by (apply Z.rem_nonneg; lia).
    assert (Z.rem (- a) b <= - a) by (rewrite <- Z.rem_abs_r by done; apply Z.rem_le; lia).
    lia.
Qed.
#[export] Hint Resolve i64_land i64_lor i64_lxor i64_lnot i64_shiftr i64_rem : rcd.

Lemma as_int_wf v n : value_wf v -> as_int_for_integer_op v = Ok n -> is_i64 n.
Proof.
  unfold as_int_for_integer_op. intros. case_all; simpl in *; try done; auto with rcd.
Qed.

Lemma checked_wf m z v : checked m z = Ok v -> value_wf v.
Proof.
  unfold checked. intros H. inv_result. apply fmap_Some in H as (n & H & ->).
  by apply i64_checked_Some in H as [-> ?].
Qed.

Lemma eval_unary_wf op v w : value_wf v -> eval_unary op v = Ok w -> value_wf w.
Proof.
  intros Hv H. destruct op; simpl in H; [|by simplify_eq/=|].
  - destruct v; inv_result; eauto using checked_wf; done.
  - inv_result. simpl. eauto using as_int_wf with rcd.
Qed.

Lemma eval_binary_wf op l r w :
  value_wf l -> value_wf r -> eval_binary op l r = Ok w -> value_wf w.
Proof.
  intros Hl Hr H. destruct op; simpl in H;
    unfold eval_add, eval_sub, eval_mul, int_op, eval_div, eval_mod, bit_op, checked_shift in H;
    repeat first [progress inv_result | case_match]; try done;
    try (eapply checked_wf; eassumption); simpl;
    repeat match goal with H : as_int_for_integer_op _ = Ok _ |- _ => apply as_int_wf in H; [|done] end;
    auto with rcd.
  - match goal with H : _ <$> _ = Some _ |- _ => apply fmap_Some in H as (m & Hm & ->) end.
    unfold i64_checked_rem in Hm. case_all.
    apply i64_rem; [done|]. by apply Z.eqb_neq.
  - apply i64_shiftr; [|done].
    pose proof (Z.mod_pos_bound x (2 ^ 32) ltac:(lia)). lia.
Qed.

(** ** Properties of the evaluator *)

(** The two evaluators compute the same thing, and evaluation fails only
    for a documented reason: tracking validity changes no value and no error;
    a missing variable is a variable of the expression without a value, and the
    [unreachable!] arm of the operator dispatch is never reached. *)
Theorem evaluation_fails_as_documented e vars V :
  fst <$> evaluate_with_validity e vars V = evaluate e vars /\
  match evaluate e vars with Ok _ => True | Err err => eval_error_ok e vars err end.
Proof.
  split; [apply evaluate_with_validity_value|].
  destruct (evaluate e vars) eqn:E; [done|]. by apply evaluate_errors.
Qed.

(** The validity flag is exact on the evaluated path: it is set when every
    variable of the expression is valid, and when it is set the value is the
    one any other table gives that agrees on the valid variables, whatever the
    invalid ones hold. *)
Theorem validity_flag_exact e vars V v b :
  evaluate_with_validity e vars V = Ok (v, b) ->
  ((forall x, x ∈ extract_variables e -> marked_valid V x) -> b = true) /\
  (b = true -> forall vars', agree_on (marked_valid V) vars vars' -> evaluate e vars' = Ok v).
Proof.
  intros H. split; [intros HV; by eapply all_inputs_valid_true|].
  intros -> vars' Ha. apply (valid_result_noninterference _ _ _ _ _ Ha) in H.
  by rewrite <- (evaluate_with_validity_value e vars' V), H.
Qed.

Lemma validity_flag_exact_witness :
  let e := EIf (EVariable "ready") (EVariable "x") (ELiteral (LInt 4)) in
  let V := {[ "ready" := true; "x" := false ]} in
  evaluate_with_validity e {[ "ready" := EvBool false; "x" := EvInt 1 ]} V = Ok (EvInt 4, true) /\
  evaluate e {[ "ready" := EvBool false; "x" := EvInt 9 ]} = Ok (EvInt 4).
Proof.
  intros e V.
  assert (H : evaluate_with_validity e {[ "ready" := EvBool false; "x" := EvInt 1 ]} V = Ok (EvInt 4, true))
    by (vm_compute; reflexivity).
  split; [exact H|]. apply (validity_flag_exact _ _ _ _ _ H); [reflexivity|].
  intros x Hx. destruct (decide (x = "ready")) as [->|]; [done|].
  destruct (decide (x = "x")) as [->|]; [discriminate Hx|].
  by rewrite !lookup_insert_ne, !lookup_singleton_ne by done.
Defined.

(** Integer results stay in [i64]: from integer literals and variables in
    range, every operator (checked arithmetic, wrapping left shift, arithmetic
    right shift, bit operations, truncating float conversion) gives a value in
    range. *)
Theorem evaluate_wf e vars v : expr_wf e -> env_wf vars -> evaluate e vars = Ok v -> value_wf v.
Proof.
  intros He Henv. revert v.
  induction e as [[]|x|op l IHl r IHr|op o IH|c IHc t IHt e IHe]; intros v; simpl in He.
  1-3: by intros [= <-].
  - simpl. intros H. inv_result. by apply (Henv x).
  - destruct He as [? ?]. destruct (binop_cases op) as [->|[->|Hop]]; [| |rewrite evaluate_strict by done];
      simpl; intros Hv; inv_result; repeat case_match; inv_result; eauto using eval_binary_wf; done.
  - simpl. intros H. inv_result. eauto using eval_unary_wf.
  - destruct He as (? & ? & ?). simpl. intros Hv. inv_result. case_match; auto.
Qed.

Lemma evaluate_wf_witness : value_wf (EvInt (-9223372036854775808)).
Proof.
  apply (evaluate_wf (EBinary BShiftLeft (ELiteral (LInt 1)) (EVariable "n")) {[ "n" := EvInt 63 ]}).
  - simpl. unfold is_i64, i64_min, i64_max. lia.
  - intros k v H. apply lookup_singleton_Some in H as [_ <-]. simpl. unfold is_i64, i64_min, i64_max. lia.
  - vm_compute. reflexivity.
Defined.

(** The integer shift operators: the shift count is cut to 32 bits before it
    is capped at 63. *)
Lemma shift_count_truncated :
  eval_text "1 << 4294967296" ∅ = Some (Ok (EvInt 1)) /\
  eval_text "1 << 64" ∅ = Some (Ok (EvInt i64_min)).
Proof. vm_compute. done. Qed.
