(* ===== verification/Topo.v ===== *)
(** * Kahn's algorithm of the calculation engine
      (src/src/calc_engine/engine.rs, [topological_sort])

    The graph part of [topological_sort]: adjacency lists, in-degrees and the
    queue loop, on indices.  [None] is a panic (an index out of range or the
    underflow of [in_degree[next] -= 1]) or exhausted fuel; the lemmas show
    that neither happens. *)

From S2P Require Import Prelude.
Open Scope nat_scope.

Definition Graph : Type := list (list nat) * list nat.

Definition empty_graph (n : nat) : Graph := (replicate n [], replicate n 0).

(** [adj[dep_idx].push(i); in_degree[i] += 1]. *)
Definition push_edge (g : Graph) (dep_idx i : nat) : option Graph :=
  let '(adj, in_degree) := g in
  a ← adj !! dep_idx;
  d ← in_degree !! i;
  Some (<[dep_idx := a ++ [i]]> adj, <[i := S d]> in_degree).

(** [in_degree[next] -= 1; if in_degree[next] == 0 { queue.push_back(next) }]. *)
Definition relax (st : list nat * list nat) (next : nat) : option (list nat * list nat) :=
  let '(in_degree, queue) := st in
  d ← in_degree !! next;
  match d with
  | O => None
  | S d => Some (<[next := d]> in_degree, if d =? 0 then queue ++ [next] else queue)
  end.

Fixpoint kahn_loop (fuel : nat) (adj : list (list nat)) (in_degree queue order : list nat)
    : option (list nat * list nat) :=
  match queue with
  | [] => Some (order, in_degree)
  | idx :: queue =>
      match fuel with
      | O => None
      | S fuel =>
          nexts ← adj !! idx;
          '(in_degree, queue) ← foldM relax (in_degree, queue) nexts;
          kahn_loop fuel adj in_degree queue (order ++ [idx])
      end
  end.

(** The initial queue: the indices of in-degree 0, in index order. *)
Definition ready (in_degree : list nat) : list nat :=
  (filter (fun e => e.2 = 0) (enumerate in_degree)).*1.

Definition kahn (g : Graph) : option (list nat * list nat) :=
  let '(adj, in_degree) := g in
  kahn_loop (length in_degree) adj in_degree (ready in_degree) [].

Example kahn_diamond :
  kahn ([[1; 2]; [3]; [3]; []; [4]], [0; 1; 1; 2; 1]) = Some ([0; 1; 2; 3], [0; 0; 0; 0; 1]).
Proof. reflexivity. Qed.

(** ** Counting edges *)

Definition cnt (i : nat) (l : list nat) : nat := length (filter (fun j => j = i) l).

Lemma cnt_cons i j l : cnt i (j :: l) = (if decide (j = i) then 1 else 0) + cnt i l.
Proof. unfold cnt. rewrite filter_cons. by destruct (decide (j = i)). Qed.

Lemma cnt_pos i l : 0 < cnt i l <-> i ∈ l.
Proof.
  induction l as [|j l IH]; [split; [cbv; lia|by intros ?%not_elem_of_nil]|].
  rewrite cnt_cons, elem_of_cons. case_decide; naive_solver lia.
Qed.

Section Edges.
(** [es] lists the edges [(dependency, dependent)] in the order they are pushed. *)
Context (n : nat) (es : list (nat * nat)).

Definition succs (d : nat) : list nat := (filter (fun e => e.1 = d) es).*2.
Definition degree (i : nat) : nat := length (filter (fun e => e.2 = i) es).

(** The unresolved dependencies of [i] once [order] is evaluated. *)
Definition live (order : list nat) (i : nat) : nat :=
  length (filter (fun e => e.2 = i /\ e.1 ∉ order) es).

Lemma live_nil i : live [] i = degree i.
Proof.
  unfold live, degree. f_equal. apply list_filter_iff. intros [d j]. set_solver.
Qed.

Lemma live_snoc order idx i :
  idx ∉ order -> live order i = cnt i (succs idx) + live (order ++ [idx]) i.
Proof.
  intros Hidx. unfold live, cnt, succs. induction es as [|[d j] es' IH]; [done|].
  rewrite !filter_cons. simpl. destruct (decide (d = idx)) as [->|Hd]; simpl.
  - rewrite filter_cons. simpl.
    destruct (decide (j = i)); repeat case_decide; simpl; try lia; set_solver.
  - destruct (decide (j = i)); repeat case_decide; simpl; try lia; set_solver.
Qed.

Lemma live_zero order i : live order i = 0 <-> forall d, (d, i) ∈ es -> d ∈ order.
Proof.
  unfold live. rewrite length_zero_iff_nil. split.
  - intros H d Hd. destruct (decide (d ∈ order)); [done|].
    assert (H' : (d, i) ∈ filter (fun e => e.2 = i /\ e.1 ∉ order) es)
      by (by apply list_elem_of_filter).
    rewrite H in H'. by apply not_elem_of_nil in H'.
  - intros H. destruct (filter _ es) as [|[d j] l] eqn:E; [done|].
    assert (H' : (d, j) ∈ filter (fun e => e.2 = i /\ e.1 ∉ order) es)
      by (rewrite E; constructor).
    apply list_elem_of_filter in H' as [[H1 H2] H3]. simpl in *. subst. by destruct H2; auto.
Qed.
End Edges.

(** ** Building the graph *)

Definition graph_of (n : nat) (es : list (nat * nat)) : Graph :=
  (succs es <$> seq 0 n, degree es <$> seq 0 n).
Arguments push_edge : simpl never.
Arguments graph_of : simpl never.
Arguments kahn : simpl never.

Lemma insert_fmap_seq {A} (f g : nat -> A) n i x :
  i < n -> g i = x -> (forall j, j <> i -> g j = f j) ->
  <[i := x]> (f <$> seq 0 n) = g <$> seq 0 n.
Proof.
  intros Hi <- Hg. apply list_eq. intros j. destruct (decide (j = i)) as [->|Hj].
  - rewrite list_lookup_insert_eq by (rewrite length_fmap, length_seq; done).
    by rewrite list_lookup_fmap, lookup_seq_lt by done.
  - rewrite list_lookup_insert_ne by done. rewrite !list_lookup_fmap.
    destruct (seq 0 n !! j) as [k|] eqn:E; [|done].
    apply lookup_seq in E as [-> _]. simpl. by rewrite Hg.
Qed.

Lemma lookup_fmap_seq {A} (f : nat -> A) n i : i < n -> (f <$> seq 0 n) !! i = Some (f i).
Proof. intros. by rewrite list_lookup_fmap, lookup_seq_lt by done. Qed.

Lemma push_edge_graph n es d i :
  d < n -> i < n -> push_edge (graph_of n es) d i = Some (graph_of n (es ++ [(d, i)])).
Proof.
  intros Hd Hi. unfold push_edge, graph_of. rewrite !lookup_fmap_seq by done. simpl.
  do 2 f_equal; apply insert_fmap_seq; try done; unfold succs, degree.
  - rewrite filter_app, fmap_app, filter_cons. by rewrite decide_True by done.
  - intros j Hj. rewrite filter_app, filter_cons. rewrite decide_False by (simpl; congruence).
    by rewrite app_nil_r.
  - rewrite filter_app, filter_cons, decide_True by done. rewrite length_app. simpl. lia.
  - intros j Hj. rewrite filter_app, filter_cons. rewrite decide_False by (simpl; congruence).
    by rewrite app_nil_r.
Qed.

Lemma empty_graph_of n : empty_graph n = graph_of n [].
Proof.
  unfold empty_graph, graph_of. f_equal; symmetry.
  - apply list_eq. intros i. destruct (decide (i < n)).
    + rewrite lookup_fmap_seq, lookup_replicate_2 by done. done.
    + rewrite !lookup_ge_None_2; rewrite ?length_fmap, ?length_seq, ?length_replicate; lia || done.
  - apply list_eq. intros i. destruct (decide (i < n)).
    + rewrite lookup_fmap_seq, lookup_replicate_2 by done. done.
    + rewrite !lookup_ge_None_2; rewrite ?length_fmap, ?length_seq, ?length_replicate; lia || done.
Qed.

(** ** Relaxing the successors of a node *)

Lemma relax_spec l deg q :
  (forall i, i ∈ l -> exists d, deg !! i = Some d /\ cnt i l <= d) ->
  exists deg' new,
    foldM relax (deg, q) l = Some (deg', q ++ new) /\
    length deg' = length deg /\
    (forall i d, deg !! i = Some d -> deg' !! i = Some (d - cnt i l)) /\
    NoDup new /\
    (forall i, i ∈ new <-> i ∈ l /\ deg !! i = Some (cnt i l)).
Proof.
  revert deg q; induction l as [|a l IH]; intros deg q Hl; simpl.
  - exists deg, []. rewrite app_nil_r. split_and!; try done.
    + intros i d ->. f_equal. unfold cnt. simpl. lia.
    + constructor.
    + intros i. split; [by intros ?%not_elem_of_nil|by intros [?%not_elem_of_nil _]].
  - destruct (Hl a ltac:(constructor)) as (d & Hd & Hle).
    rewrite cnt_cons, decide_True in Hle by done. destruct d as [|d]; [lia|].
    rewrite Hd. simpl. assert (Ha : a < length deg) by (by eapply lookup_lt_Some).
    destruct (IH (<[a := d]> deg) (if d =? 0 then q ++ [a] else q)) as (deg' & new & E & Hlen & Hdeg & Hnd & Hnew).
    { intros i Hi. destruct (decide (i = a)) as [->|Hia].
      - exists d. rewrite list_lookup_insert_eq by done. split; [done|lia].
      - destruct (Hl i ltac:(by constructor)) as (d' & ? & ?). exists d'.
        rewrite list_lookup_insert_ne by done. rewrite cnt_cons in *. split; [done|lia]. }
    exists deg', (if d =? 0 then a :: new else new). split_and!.
    + rewrite E. destruct (d =? 0); [|done]. by rewrite <- app_assoc.
    + rewrite Hlen. apply length_insert.
    + intros i d' Hi. rewrite cnt_cons. destruct (decide (i = a)) as [->|Hia].
      * rewrite decide_True by done. erewrite Hdeg by (by apply list_lookup_insert_eq).
        f_equal. rewrite Hd in Hi. injection Hi as <-. lia.
      * rewrite decide_False by done. apply Hdeg. by rewrite list_lookup_insert_ne.
    + destruct (d =? 0) eqn:Hd0; [|done]. apply Nat.eqb_eq in Hd0. constructor; [|done].
      intros [H _]%Hnew. apply cnt_pos in H. lia.
    + intros i. destruct (decide (i = a)) as [->|Hia].
      * specialize (Hnew a). rewrite list_lookup_insert_eq in Hnew by done.
        rewrite Hd, cnt_cons, decide_True by done. pose proof (cnt_pos a l).
        destruct (Nat.eqb_spec d 0).
        -- split; intros; [split; [constructor|f_equal; lia]|constructor].
        -- rewrite Hnew. split; [intros [? [= ?]]|intros [_ [= ?]]]; (split; [|f_equal; lia]).
           ++ constructor.
           ++ apply cnt_pos. lia.
      * specialize (Hnew i). rewrite list_lookup_insert_ne in Hnew by done.
        rewrite cnt_cons, decide_False by done.
        destruct (d =? 0); rewrite !elem_of_cons; naive_solver.
Qed.

(** ** The loop *)

Section Kahn.
Context (n : nat) (es : list (nat * nat)).
Hypothesis es_range : forall d i, (d, i) ∈ es -> d < n /\ i < n.

(** Dependencies come first: every dependency of [order[k]] is among
    [order[0..k]]. *)
Definition respects (order : list nat) : Prop :=
  forall k i, order !! k = Some i -> forall d, (d, i) ∈ es -> d ∈ take k order.

Record kahn_inv (deg queue order : list nat) : Prop := {
  inv_length : length deg = n;
  inv_degree : forall i, i < n -> deg !! i = Some (live es order i);
  inv_nodup : NoDup (order ++ queue);
  inv_range : forall i, i ∈ order ++ queue -> i < n;
  inv_done : forall i, i < n -> live es order i = 0 -> i ∈ order ++ queue;
  inv_ready : forall i, i ∈ order ++ queue -> live es order i = 0;
  inv_order : respects order
}.

Lemma succs_range d i : i ∈ succs es d -> i < n.
Proof.
  unfold succs. intros ([d' j] & -> & [_ H]%list_elem_of_filter)%list_elem_of_fmap.
  by apply es_range in H as [_ ?].
Qed.

Lemma respects_snoc order idx :
  respects order -> live es order idx = 0 -> respects (order ++ [idx]).
Proof.
  intros Hord Hidx k i Hk d Hd. apply lookup_app_Some in Hk as [Hk|[Hlen Hk]].
  - rewrite take_app_le by (apply lookup_lt_Some in Hk; lia). eauto.
  - destruct (k - length order) eqn:E; [|done]. simpl in Hk. simplify_eq.
    replace k with (length order) by lia. rewrite take_app_length.
    by eapply live_zero in Hidx.
Qed.

Lemma kahn_step deg idx queue order :
  kahn_inv deg (idx :: queue) order ->
  exists deg' queue',
    foldM relax (deg, queue) (succs es idx) = Some (deg', queue') /\
    kahn_inv deg' queue' (order ++ [idx]).
Proof.
  intros [Hlen Hdeg Hnd Hrange Hdone Hready Hord].
  assert (Hidx : idx ∉ order) by (apply NoDup_app in Hnd as (_ & Hnd & _); set_solver).
  pose proof (live_snoc es order idx) as Hlive.
  destruct (relax_spec (succs es idx) deg queue) as (deg' & new & E & Hlen' & Hdeg' & Hnn & Hnew).
  { intros i Hi. exists (live es order i). split; [apply Hdeg; by eapply succs_range|].
    rewrite (Hlive i) by done. lia. }
  assert (Hfresh : forall i, i ∈ new <-> i < n /\ live es order i <> 0 /\ live es (order ++ [idx]) i = 0).
  { intros i. rewrite Hnew. pose proof (cnt_pos i (succs es idx)). pose proof (Hlive i Hidx). split.
    - intros [H1 H2]. pose proof (succs_range _ _ H1) as Hi. rewrite Hdeg in H2 by done.
      injection H2 as H2. apply H in H1. split_and!; [done|lia..].
    - intros (Hi & ? & ?). rewrite Hdeg by done. split; [apply cnt_pos; lia|f_equal; lia]. }
  exists deg', (queue ++ new). split; [done|].
  assert (Hperm : (order ++ [idx]) ++ queue ++ new = (order ++ idx :: queue) ++ new)
    by (by rewrite <- !app_assoc).
  constructor; rewrite ?Hperm.
  - congruence.
  - intros i Hi. erewrite Hdeg' by (by apply Hdeg). f_equal. rewrite (Hlive i) by done. lia.
  - apply NoDup_app. split_and!; [done| |done]. intros i Hi Hi'.
    apply Hfresh in Hi' as (_ & H & _). by apply H, Hready.
  - intros i [Hi|Hi]%elem_of_app; [auto|by apply Hfresh in Hi as [? _]].
  - intros i Hi H0. rewrite elem_of_app. destruct (decide (live es order i = 0)); [auto|].
    right. by apply Hfresh.
  - intros i [Hi|Hi]%elem_of_app; [|by apply Hfresh in Hi as (_ & _ & ?)].
    specialize (Hlive i Hidx). apply Hready in Hi. lia.
  - apply respects_snoc; [done|]. apply Hready. set_solver.
Qed.

Lemma kahn_loop_spec fuel deg queue order :
  kahn_inv deg queue order -> n <= fuel + length order ->
  exists order' deg',
    kahn_loop fuel (succs es <$> seq 0 n) deg queue order = Some (order', deg') /\
    kahn_inv deg' [] order'.
Proof.
  revert deg queue order; induction fuel as [|fuel IH]; intros deg queue order Hinv Hfuel;
    destruct queue as [|idx queue]; simpl; try by eauto.
  - exfalso. pose proof (inv_nodup _ _ _ Hinv) as Hnd.
    apply (NoDup_submseteq _ (seq 0 n)), submseteq_length in Hnd.
    + rewrite length_app, length_seq in Hnd. simpl in Hnd. lia.
    + intros i Hi%(inv_range _ _ _ Hinv). apply elem_of_seq. lia.
  - rewrite lookup_fmap_seq by (apply (inv_range _ _ _ Hinv); set_solver). simpl.
    destruct (kahn_step _ _ _ _ Hinv) as (deg' & queue' & -> & Hinv'). simpl.
    apply IH; [done|]. rewrite length_app. simpl. lia.
Qed.

Lemma elem_of_ready deg i : i ∈ ready deg <-> deg !! i = Some 0.
Proof.
  unfold ready. rewrite list_elem_of_fmap. split.
  - intros ([j d] & -> & [Hd H]%list_elem_of_filter). simpl in *. subst.
    by apply elem_of_enumerate.
  - intros H. exists (i, 0). split; [done|]. apply list_elem_of_filter. split; [done|].
    by apply elem_of_enumerate.
Qed.

Lemma NoDup_ready deg : NoDup (ready deg).
Proof.
  unfold ready, enumerate. eapply sublist_NoDup; [apply (NoDup_seq 0 (length deg))|].
  rewrite <- (fst_zip (seq 0 (length deg)) deg) at 2 by (by rewrite length_seq).
  apply fmap_sublist, sublist_filter.
Qed.

Lemma kahn_inv_init : kahn_inv (degree es <$> seq 0 n) (ready (degree es <$> seq 0 n)) [].
Proof.
  assert (Hr : forall i, i ∈ ready (degree es <$> seq 0 n) <-> i < n /\ live es [] i = 0).
  { intros i. rewrite elem_of_ready, live_nil. destruct (decide (i < n)).
    - rewrite lookup_fmap_seq by done. naive_solver.
    - rewrite lookup_ge_None_2 by (rewrite length_fmap, length_seq; lia). naive_solver. }
  constructor; simpl.
  - by rewrite length_fmap, length_seq.
  - intros i Hi. by rewrite lookup_fmap_seq, live_nil by done.
  - apply NoDup_ready.
  - intros i. rewrite Hr. tauto.
  - intros i. rewrite Hr. tauto.
  - intros i. rewrite Hr. tauto.
  - by intros k i.
Qed.

(** The order of [kahn]: no node twice, dependencies first, and a node is
    left out only if it has a dependency that is left out too. *)
Lemma kahn_spec :
  exists order deg,
    kahn (graph_of n es) = Some (order, deg) /\
    NoDup order /\ (forall i, i ∈ order -> i < n) /\ respects order /\
    (forall i, i < n -> i ∉ order -> exists d, (d, i) ∈ es /\ d ∉ order) /\
    (forall i, i < n -> exists d, deg !! i = Some d /\ (0 < d <-> i ∉ order)).
Proof.
  destruct (kahn_loop_spec n _ _ _ kahn_inv_init ltac:(simpl; lia)) as (order & deg & E & Hinv).
  exists order, deg. split.
  { unfold kahn, graph_of. by rewrite length_fmap, length_seq. }
  destruct Hinv as [Hlen Hdeg Hnd Hrange Hdone Hready Hord].
  rewrite app_nil_r in *. split_and!; try done.
  - intros i Hi Hni. 
    assert (live es order i <> 0) as Hl by naive_solver.
    unfold live in Hl. destruct (filter _ es) as [|[d j] l] eqn:Ef; [done|].
    assert (H : (d, j) ∈ filter (fun e => e.2 = i /\ e.1 ∉ order) es) by (rewrite Ef; constructor).
    apply list_elem_of_filter in H as [[H1 H2] H3]. simpl in *. subst. eauto.
  - intros i Hi. exists (live es order i). split; [auto|]. 
    destruct (live es order i) eqn:El; split; [lia|naive_solver| |lia].
    intros _ Hin%Hready. lia.
Qed.
End Kahn.
