(* ===== verification/Engine.v ===== *)
(** * The calculation engine
      (src/src/calc_engine/config.rs and src/src/calc_engine/engine.rs)

    Rule compilation, the DAG ordering of the compiled rules and one
    evaluation cycle.  [None] stands for a panic: an index out of range, an
    [unwrap] on [None], [f64::clamp] with unordered bounds, or the
    [unreachable!] of the evaluator.  The log lines are not modelled. *)

From S2P Require Import Prelude RustFloat RustStr Model Tokenizer Parser Evaluator Topo.
Open Scope string_scope.
Open Scope Z_scope.
Open Scope list_scope.

(** ** config.rs *)

Record CalcRule := {
  rule_kks_calc : string;
  rule_data_type : string;
  rule_expression : string;
  rule_max_limit : f64;
  rule_min_limit : f64;
  rule_default_value : f64
}.

Inductive CalcDataType := DtUInt | DtBool | DtFloat | DtDouble.

#[export] Instance calc_data_type_eq_dec : EqDecision CalcDataType.
Proof. solve_decision. Defined.

Definition data_type_as_str (t : CalcDataType) : string :=
  match t with DtUInt => "uint" | DtBool => "bool" | DtFloat => "float" | DtDouble => "double" end.

Definition normalize_data_type (s : string) : option CalcDataType :=
  let s := to_ascii_lowercase s in
  if bool_decide (s ∈ ["u32"; "uint32"; "uint"]) then Some DtUInt
  else if bool_decide (s ∈ ["bool"; "boolean"]) then Some DtBool
  else if bool_decide (s ∈ ["f32"; "float"]) then Some DtFloat
  else if bool_decide (s ∈ ["f64"; "double"]) then Some DtDouble
  else None.

Definition default_max : f64 := f64_max_value.
Definition default_min : f64 := f64_neg f64_max_value.

(** ** Compiled rules *)

Record CompiledRule := {
  kks_calc : string;
  data_type : CalcDataType;
  expression : string;
  ast : Expr;
  variables : list string;
  max_limit : f64;
  min_limit : f64;
  default_value : f64
}.

Inductive CompileError :=
| UnknownDataType (s : string)
| NotFinite (min max default : f64)
| LimitsReversed (min max : f64)
| LexError (e : TokenizeError)
| SyntaxError (e : ParseError)
| SelfReference (kks expression : string).

Definition compile_rule (rule : CalcRule) : result CompileError CompiledRule :=
  dt ← ok_or (UnknownDataType (rule_data_type rule)) (normalize_data_type (rule_data_type rule));
  if negb (f64_is_finite (rule_max_limit rule))
     || negb (f64_is_finite (rule_min_limit rule))
     || negb (f64_is_finite (rule_default_value rule))
  then Err (NotFinite (rule_min_limit rule) (rule_max_limit rule) (rule_default_value rule))
  else if f64_gt (rule_min_limit rule) (rule_max_limit rule)
  then Err (LimitsReversed (rule_min_limit rule) (rule_max_limit rule))
  else
    tokens ← map_err LexError (tokenize (rule_expression rule));
    e ← map_err SyntaxError (parse tokens);
    let vars := extract_variables e in
    if bool_decide (rule_kks_calc rule ∈ vars)
    then Err (SelfReference (rule_kks_calc rule) (rule_expression rule))
    else Ok {| kks_calc := rule_kks_calc rule; data_type := dt; expression := rule_expression rule;
               ast := e; variables := vars; max_limit := rule_max_limit rule;
               min_limit := rule_min_limit rule; default_value := rule_default_value rule |}.

(** ** Topological sort *)

(** [collect] into a map: a later rule of the same name wins. *)
Definition name_to_idx (rules : list CompiledRule) : gmap string nat :=
  foldl (fun m '(i, r) => <[kks_calc r := i]> m) ∅ (enumerate rules).

(** The inner loop over the variables of rule [i]. *)
Definition add_rule_edges (idx : gmap string nat) (g : Graph) (ir : nat * CompiledRule)
    : option Graph :=
  foldM (fun g var => match idx !! var with
                      | Some dep_idx => push_edge g dep_idx ir.1
                      | None => Some g
                      end) g (variables ir.2).

Definition build_graph (rules : list CompiledRule) : option Graph :=
  foldM (add_rule_edges (name_to_idx rules)) (empty_graph (length rules)) (enumerate rules).

(** [rules_opt[i].take().unwrap()] for every [i] of the order. *)
Fixpoint take_rules (rules_opt : list (option CompiledRule)) (order : list nat)
    : option (list CompiledRule) :=
  match order with
  | [] => Some []
  | i :: order =>
      match rules_opt !! i with
      | Some (Some r) => rest ← take_rules (<[i := None]> rules_opt) order; Some (r :: rest)
      | _ => None
      end
  end.

Definition topological_sort (rules : list CompiledRule) : option (result string (list CompiledRule)) :=
  g ← build_graph rules;
  '(order, _) ← kahn g;
  sorted ← take_rules (Some <$> rules) order;
  Some (Ok sorted).

(** ** CalcEngine *)

Definition CalcEngine : Type := list CompiledRule.

Definition compile_step (compiled : list CompiledRule) (rule : CalcRule) : list CompiledRule :=
  match compile_rule rule with
  | Ok cr =>
      if existsb (fun existing => String.eqb (kks_calc existing) (kks_calc cr)) compiled
      then compiled
      else compiled ++ [cr]
  | Err _ => compiled
  end.

Definition new (config_rules : list CalcRule) : option (result string CalcEngine) :=
  match config_rules with
  | [] => Some (Ok [])
  | _ =>
      match foldl compile_step [] config_rules with
      | [] => Some (Ok [])
      | compiled => topological_sort compiled
      end
  end.

Definition output_names (e : CalcEngine) : list string := kks_calc <$> e.

Definition required_base_variables (e : CalcEngine) : list string :=
  let outputs : gset string := list_to_set (output_names e) in
  dedup (sort_strings (filter (fun v => v ∉ outputs) (e ≫= variables))).

Definition output_definitions (e : CalcEngine) : list (string * string) :=
  (fun r => (kks_calc r, data_type_as_str (data_type r))) <$> e.

Definition output_dependencies (e : CalcEngine) : list (string * list string) :=
  (fun r => (kks_calc r, variables r)) <$> e.

Definition is_empty (e : CalcEngine) : bool := match e with [] => true | _ => false end.

(** ** One evaluation cycle *)

(** The evaluated value and its validity; an error gives the default value,
    flagged invalid.  [Err Panic] is the evaluator's [unreachable!]. *)
Definition raw_result (rule : CompiledRule) (r : result EvalError (EvalValue * bool))
    : option (EvalValue * bool) :=
  match r with
  | Ok vb => Some vb
  | Err Panic => None
  | Err (MissingVariable _ | DivisionByZero | TypeError _) => Some (EvFloat (default_value rule), false)
  end.

(** The NaN / infinity safety net. *)
Definition safe_value (rule : CompiledRule) (vb : EvalValue * bool) : EvalValue * bool :=
  if is_invalid_float vb.1 then (EvFloat (default_value rule), false) else vb.

(** The conversion to the rule's data type. *)
Definition typed_value (t : CalcDataType) (safe : EvalValue) (clamped : f64) : Value :=
  match t with
  | DtUInt => VUInt (f64_as_u32 (f64_max clamped f64_zero))
  | DtBool =>
      VBool (match safe with
             | EvBool b => if f64_eq clamped (as_f64 safe) then b else f64_ne clamped f64_zero
             | _ => f64_ne clamped f64_zero
             end)
  | DtFloat =>
      let f32_max := f64_of_f32 f32_max_value in
      VFloat (if f64_gt clamped f32_max then f32_max_value
              else if f64_lt clamped (f64_neg f32_max) then f64_neg f32_max_value
              else f32_of_f64 clamped)
  | DtDouble => VDouble clamped
  end.

Definition rule_output (rule : CompiledRule) (vars : gmap string EvalValue)
    (validity : gmap string bool) : option (Value * bool) :=
  raw ← raw_result rule (evaluate_with_validity (ast rule) vars validity);
  let '(safe, valid) := safe_value rule raw in
  clamped ← f64_clamp (as_f64 safe) (min_limit rule) (max_limit rule);
  Some (typed_value (data_type rule) safe clamped, valid).

Record CycleState := {
  cs_variables : gmap string EvalValue;
  cs_validity : gmap string bool;
  cs_results : list (string * Value * bool)
}.

Definition run_rule (st : CycleState) (rule : CompiledRule) : option CycleState :=
  '(typed, valid) ← rule_output rule (cs_variables st) (cs_validity st);
  Some {| cs_variables := <[kks_calc rule := from_model_value typed]> (cs_variables st);
          cs_validity := <[kks_calc rule := valid]> (cs_validity st);
          cs_results := cs_results st ++ [(kks_calc rule, typed, valid)] |}.

Definition run_cycle_with_quality (e : CalcEngine) (base_variables : gmap string EvalValue)
    (base_validity : gmap string bool) : option (list (string * Value * bool)) :=
  cs_results <$>
    foldM run_rule {| cs_variables := base_variables; cs_validity := base_validity;
                      cs_results := [] |} e.

Definition run_cycle (e : CalcEngine) (base_variables : gmap string EvalValue)
    : option (list (string * Value)) :=
  let base_validity := (fun _ => true) <$> base_variables in
  fmap (M := list) fst <$> run_cycle_with_quality e base_variables base_validity.

(** Examples of the module's own tests. *)
Definition make_rule (kks dtype expr : string) (default : f64) : CalcRule :=
  {| rule_kks_calc := kks; rule_data_type := dtype; rule_expression := expr;
     rule_max_limit := default_max; rule_min_limit := default_min; rule_default_value := default |}.

Definition run_rules (rules : list CalcRule) (vars : gmap string EvalValue)
    : option (list (string * Value)) :=
  match new rules with Some (Ok e) => run_cycle e vars | _ => None end.

Example engine_dag_dependency_order :
  run_rules [make_rule "total" "double" "half * 4" f64_zero; make_rule "half" "double" "x / 2" f64_zero]
    {[ "x" := EvInt 10 ]}
  = Some [("half", VDouble (f64_of_Z 5)); ("total", VDouble (f64_of_Z 20))].
Proof. vm_compute. reflexivity. Qed.
Example engine_dag_cycle_skipped :
  run_rules [make_rule "a" "uint" "b + 1" f64_zero; make_rule "b" "uint" "a + 1" f64_zero;
             make_rule "c" "uint" "x + 1" f64_zero] {[ "x" := EvInt 1 ]}
  = Some [("c", VUInt 2)].
Proof. vm_compute. reflexivity. Qed.
Example engine_missing_uses_default :
  run_rules [make_rule "a" "float" "missing + 1" (f64_of_Z 7)] ∅ = Some [("a", VFloat (f32_of_Z 7))].
Proof. vm_compute. reflexivity. Qed.

(** ** Compilation *)

Record compiled_ok (r : CompiledRule) : Prop := {
  ok_variables : variables r = extract_variables (ast r);
  ok_self : kks_calc r ∉ variables r;
  ok_max : f64_is_finite (max_limit r) = true;
  ok_min : f64_is_finite (min_limit r) = true;
  ok_default : f64_is_finite (default_value r) = true;
  ok_limits : f64_le (min_limit r) (max_limit r) = true
}.

Lemma compile_rule_ok rule cr : compile_rule rule = Ok cr -> compiled_ok cr.
Proof.
  unfold compile_rule. intros H. inv_result. repeat case_match; inv_result; [done..|].
  rewrite !orb_false_iff, !negb_false_iff in *. destruct_and?.
  case_bool_decide; inv_result. constructor; simpl; auto.
  apply f64_not_lt_le; auto using f64_finite_not_nan.
Qed.

(** The rules that survive the compilation phase: well formed, in
    configuration order, and no output twice. *)
Record rules_ok (rules : list CompiledRule) : Prop := {
  rules_compiled : Forall compiled_ok rules;
  rules_nodup : NoDup (kks_calc <$> rules)
}.

Lemma compile_step_ok rules rule : rules_ok rules -> rules_ok (compile_step rules rule).
Proof.
  intros [Hc Hn]. unfold compile_step. destruct (compile_rule rule) as [cr|] eqn:E; [|done].
  destruct (existsb _ _) eqn:Ex; [done|]. constructor.
  - apply Forall_app. eauto using compile_rule_ok.
  - rewrite fmap_app. apply NoDup_app. split_and!; [done| |apply NoDup_singleton].
    intros x (r & -> & Hr)%list_elem_of_fmap. simpl. intros Heq%list_elem_of_singleton.
    apply not_true_iff_false in Ex. apply Ex, existsb_exists. exists r.
    by rewrite Heq, String.eqb_refl, <- list_elem_of_In.
Qed.

Lemma compile_all_ok config : rules_ok (foldl compile_step [] config).
Proof.
  assert (rules_ok []) as H by (split; constructor).
  revert H. generalize (@nil CompiledRule). induction config; simpl; auto using compile_step_ok.
Qed.

(** ** The dependency graph of the compiled rules *)

Lemma omap_fmap {A B C} (f : A -> B) (g : B -> option C) (l : list A) : omap g (f <$> l) = omap (g ∘ f) l.
Proof. induction l as [|a l IH]; [done|]. simpl. destruct (g (f a)); [f_equal|]; exact IH. Qed.

Section Sort.
Context (rules : list CompiledRule).
Hypothesis Hok : rules_ok rules.
Let n := length rules.

Lemma name_to_idx_lookup v i :
  name_to_idx rules !! v = Some i <-> exists r, rules !! i = Some r /\ kks_calc r = v.
Proof.
  unfold name_to_idx. 
  assert (Hfold : forall (m : gmap string nat) l, NoDup (kks_calc <$> l.*2) ->
    foldl (fun m '(i, r) => <[kks_calc r := i]> m) m l !! v = Some i <->
    (exists r, (i, r) ∈ l /\ kks_calc r = v) \/ (m !! v = Some i /\ v ∉ kks_calc <$> l.*2)).
  { intros m l. revert m. induction l as [|[j r] l IH]; intros m Hnd; simpl.
    - set_solver.
    - inversion_clear Hnd as [|? ? Hr Hnd']. rewrite IH by done.
      destruct (decide (kks_calc r = v)) as [<-|Hv].
      + rewrite lookup_insert_eq. set_solver.
      + rewrite lookup_insert_ne by done. set_solver. }
  rewrite Hfold.
  - rewrite lookup_empty. setoid_rewrite elem_of_enumerate. naive_solver.
  - unfold enumerate. rewrite snd_zip by (by rewrite length_seq). apply Hok.
Qed.

(** The edges in the order the loops push them. *)
Definition rule_edges (ir : nat * CompiledRule) : list (nat * nat) :=
  (fun d => (d, ir.1)) <$> omap (fun v => name_to_idx rules !! v) (variables ir.2).
Definition edges : list (nat * nat) := enumerate rules ≫= rule_edges.

Lemma elem_of_edges d i :
  (d, i) ∈ edges <->
  exists r rd, rules !! i = Some r /\ rules !! d = Some rd /\ kks_calc rd ∈ variables r.
Proof.
  unfold edges. rewrite list_elem_of_bind. split.
  - intros ([j r] & (d' & ? & (v & Hv & (rd & ? & <-)%name_to_idx_lookup)%list_elem_of_omap)%list_elem_of_fmap
      & Hr%elem_of_enumerate). simpl in *. simplify_eq. eauto.
  - intros (r & rd & Hr & Hd & Hv). exists (i, r). rewrite elem_of_enumerate. split; [|done].
    apply list_elem_of_fmap. exists d. split; [done|]. apply list_elem_of_omap.
    exists (kks_calc rd). rewrite name_to_idx_lookup. eauto.
Qed.

Lemma add_rule_edges_graph es i r :
  (i < n)%nat -> add_rule_edges (name_to_idx rules) (graph_of n es) (i, r)
                 = Some (graph_of n (es ++ rule_edges (i, r))).
Proof.
  intros Hi. unfold add_rule_edges, rule_edges. simpl. revert es.
  induction (variables r) as [|v vs IH]; intros es; simpl; [by rewrite app_nil_r|].
  destruct (name_to_idx rules !! v) as [d|] eqn:Ed; simpl; [|apply IH].
  apply name_to_idx_lookup in Ed as (rd & Hd & _). apply lookup_lt_Some in Hd.
  rewrite push_edge_graph by done. simpl. by rewrite IH, <- app_assoc.
Qed.

Lemma build_graph_spec : build_graph rules = Some (graph_of n edges).
Proof.
  unfold build_graph, edges. rewrite empty_graph_of. fold n.
  enough (H : forall l es, (forall i r, (i, r) ∈ l -> (i < n)%nat) ->
    foldM (add_rule_edges (name_to_idx rules)) (graph_of n es) l
    = Some (graph_of n (es ++ (l ≫= rule_edges)))).
  { apply H. intros i r Hr%elem_of_enumerate. by apply lookup_lt_Some in Hr. }
  induction l as [|[i r] l IH]; intros es Hl; simpl; [by rewrite app_nil_r|].
  rewrite add_rule_edges_graph by (eapply Hl; constructor). simpl.
  rewrite IH by (intros; eapply Hl; by constructor). by rewrite <- app_assoc.
Qed.

Lemma take_rules_spec opts order :
  NoDup order ->
  (forall i, i ∈ order -> exists r, rules !! i = Some r /\ opts !! i = Some (Some r)) ->
  take_rules opts order = Some (omap (fun i => rules !! i) order).
Proof.
  intros Hnd. revert opts. induction Hnd as [|i order Hi _ IH]; intros opts H; simpl; [done|].
  destruct (H i ltac:(constructor)) as (r & -> & ->). simpl.
  rewrite IH; [done|]. intros j Hj. rewrite list_lookup_insert_ne by set_solver.
  apply H. by constructor.
Qed.

Lemma omap_lookup_seq : omap (fun i => rules !! i) (seq 0 n) = rules.
Proof.
  unfold n. clear Hok n. induction rules as [|r l IH]; [done|]. simpl. f_equal.
  rewrite <- fmap_S_seq, omap_fmap. apply IH.
Qed.
End Sort.

Definition deps_first (rules sorted : list CompiledRule) : Prop :=
  forall a r b v, sorted = a ++ r :: b -> v ∈ variables r -> v ∈ kks_calc <$> rules ->
    v ∈ kks_calc <$> a.

Lemma split_lookup {A} (l a b : list A) x : l = a ++ x :: b -> l !! length a = Some x /\ take (length a) l = a.
Proof. intros ->. split; [by rewrite list_lookup_middle|by rewrite take_app_length]. Qed.

Lemma omap_Forall2 {A B} (f : A -> option B) (l : list A) :
  (forall x, x ∈ l -> is_Some (f x)) -> Forall2 (fun x y => f x = Some y) l (omap f l).
Proof.
  induction l as [|x l IH]; intros H; simpl; [constructor|].
  destruct (H x ltac:(constructor)) as [y Hy]. rewrite Hy. constructor; [done|].
  apply IH. intros z Hz. apply H. by constructor.
Qed.

Lemma topological_sort_spec rules :
  rules_ok rules ->
  exists sorted skipped,
    topological_sort rules = Some (Ok sorted) /\
    sorted ++ skipped ≡ₚ rules /\
    deps_first rules sorted /\
    (forall r, r ∈ skipped -> exists r', r' ∈ skipped /\ kks_calc r' ∈ variables r).
Proof.
  intros Hok. set (n := length rules). set (f := fun i => rules !! i).
  destruct (kahn_spec n (edges rules)) as (order & deg & Hk & Hnd & Hrange & Hresp & Hskip & _).
  { intros d i (r & rd & Hr & Hd & _)%elem_of_edges; [|done].
    by apply lookup_lt_Some in Hr, Hd. }
  assert (Hf : forall i, i ∈ order -> exists r, rules !! i = Some r)
    by (intros i Hi; by apply lookup_lt_is_Some, Hrange).
  pose proof (omap_Forall2 f order Hf) as Hall.
  exists (omap f order), (omap f (filter (fun i => i ∉ order) (seq 0 n))).
  assert (Htake : take_rules (Some <$> rules) order = Some (omap f order)).
  { apply take_rules_spec; [done..|]. intros i Hi. destruct (Hf i Hi) as [r Hr].
    exists r. by rewrite list_lookup_fmap, Hr. }
  split_and!.
  - unfold topological_sort. rewrite build_graph_spec by done.
    fold n. cbn [mbind option_bind]. rewrite Hk. cbn [mbind option_bind]. by rewrite Htake.
  - rewrite <- omap_app. transitivity (omap f (seq 0 n)); [|by rewrite (omap_lookup_seq rules : omap f (seq 0 n) = rules)].
    apply omap_Permutation.
    apply NoDup_Permutation.
    + apply NoDup_app. split_and!; [done| |apply NoDup_filter, NoDup_seq]. 
      by intros i Hi [? _]%list_elem_of_filter.
    + apply NoDup_seq.
    + intros i. rewrite elem_of_app, list_elem_of_filter, elem_of_seq.
      destruct (decide (i ∈ order)) as [Hi|Hi]; [pose proof (Hrange i Hi); intuition lia|tauto].
  - intros a r b v Hs Hv (rd & -> & [d Hd]%list_elem_of_lookup)%list_elem_of_fmap.
    apply split_lookup in Hs as [Hr Ha].
    destruct (Forall2_lookup_r _ _ _ _ _ Hall Hr) as (i & Hi & Hir).
    assert (Hd' : d ∈ take (length a) order).
    { apply (Hresp _ _ Hi), elem_of_edges; [done|]. eauto. }
    apply list_elem_of_lookup in Hd' as [k Hk'].
    apply (Forall2_take _ _ _ (length a)) in Hall. rewrite Ha in Hall.
    destruct (Forall2_lookup_l _ _ _ _ _ Hall Hk') as (rd' & Hrd & Hdd).
    unfold f in Hdd. rewrite Hd in Hdd. injection Hdd as <-.
    apply list_elem_of_fmap. eauto using list_elem_of_lookup_2.
  - intros r (i & [Hi Hn]%list_elem_of_filter & Hr)%list_elem_of_omap.
    apply elem_of_seq in Hn.
    destruct (Hskip i ltac:(lia) Hi) as (d & (r' & rd & Hr' & Hd & Hv)%elem_of_edges & Hdn); [|done].
    unfold f in Hr. simplify_eq. exists rd. split; [|done].
    apply list_elem_of_omap. exists d. split; [|done].
    apply list_elem_of_filter. split; [done|]. apply elem_of_seq. apply lookup_lt_Some in Hd. lia.
Qed.

(** What [new] builds: well-formed rules with distinct outputs, each after
    the rules it reads. *)
Record engine_ok (e : CalcEngine) : Prop := {
  engine_rules : rules_ok e;
  engine_deps : deps_first e e
}.

(** The rules [new] leaves out are the cyclic ones: each reads another one
    that is left out. *)
Definition cyclic (skipped : list CompiledRule) : Prop :=
  forall r, r ∈ skipped -> exists r', r' ∈ skipped /\ kks_calc r' ∈ variables r.

Lemma new_spec config :
  exists e skipped,
    new config = Some (Ok e) /\ engine_ok e /\
    e ++ skipped ≡ₚ foldl compile_step [] config /\ cyclic skipped.
Proof.
  assert (Hempty : engine_ok []) by (split; [split; constructor|by intros [|] ? ? ?]).
  unfold new. destruct config as [|c cs]; [exists [], []; split_and!; try done; by intros ? ?%not_elem_of_nil|].
  pose proof (compile_all_ok (c :: cs)) as Hok.
  destruct (foldl compile_step [] (c :: cs)) as [|r rs] eqn:E.
  { exists [], []. split_and!; try done. by intros ? ?%not_elem_of_nil. }
  destruct (topological_sort_spec _ Hok) as (sorted & skipped & Hs & Hp & Hd & Hsk).
  exists sorted, skipped. split_and!; try done.
  destruct Hok as [Hc Hn]. split; [split|].
  - rewrite <- Hp in Hc. by apply Forall_app in Hc as [? _].
  - rewrite <- Hp, fmap_app in Hn. by apply NoDup_app in Hn as [? _].
  - intros a q b v Hs' Hv Hin. eapply Hd; eauto.
    rewrite <- Hp, fmap_app. set_solver.
Qed.

(** No rule is left out of an acyclic configuration: one whose dependencies
    between rules decrease some rank. *)
Lemma cyclic_nil (rank : string -> nat) skipped :
  (forall r r', r ∈ skipped -> r' ∈ skipped -> kks_calc r' ∈ variables r ->
     (rank (kks_calc r') < rank (kks_calc r))%nat) ->
  cyclic skipped -> skipped = [].
Proof.
  intros Hrank Hc. destruct skipped as [|r0 rs]; [done|]. exfalso.
  assert (forall k r, r ∈ r0 :: rs -> (rank (kks_calc r) < k)%nat -> False) as H.
  { induction k as [|k IH]; intros r Hr Hk; [lia|].
    destruct (Hc r Hr) as (r' & Hr' & Hv). specialize (Hrank r r' Hr Hr' Hv).
    apply (IH r'); [done|lia]. }
  eapply (H (S (rank (kks_calc r0)))); [constructor|lia].
Qed.

(** ** One rule *)

(** The type and the bounds of an output. *)
Definition output_in_range (r : CompiledRule) (v : Value) : Prop :=
  match data_type r with
  | DtUInt => exists n, v = VUInt n /\ is_u32 n
  | DtBool => exists b, v = VBool b
  | DtFloat => exists f, v = VFloat f /\ f64_is_nan f = false
  | DtDouble => exists f, v = VDouble f /\ f64_is_finite f = true /\
                  f64_le (min_limit r) f = true /\ f64_le f (max_limit r) = true
  end.

Lemma raw_result_Some r vars V :
  exists vb, raw_result r (evaluate_with_validity (ast r) vars V) = Some vb.
Proof.
  pose proof (evaluate_with_validity_value (ast r) vars V) as Hv.
  destruct (evaluate_with_validity (ast r) vars V) as [vb|err] eqn:E; [by exists vb|].
  symmetry in Hv. apply evaluate_errors in Hv. destruct err; simpl; eauto. done.
Qed.

Lemma safe_value_not_nan r vb :
  compiled_ok r -> f64_is_nan (as_f64 (safe_value r vb).1) = false.
Proof.
  intros Hr. unfold safe_value. destruct (is_invalid_float vb.1) eqn:E; simpl.
  - apply f64_finite_not_nan, Hr.
  - destruct (vb.1) as [n|[]|f]; simpl in *; auto with rcd. by apply orb_false_iff in E as [? _].
Qed.

Lemma typed_value_range r safe x :
  f64_is_finite x = true -> f64_le (min_limit r) x = true -> f64_le x (max_limit r) = true ->
  output_in_range r (typed_value (data_type r) safe x).
Proof.
  intros Hx Hlo Hhi. unfold output_in_range, typed_value. destruct (data_type r); eauto with rcd.
  eexists. split; [done|]. repeat case_match; try done.
  destruct x; try done. apply binary_round_not_nan.
Qed.

Lemma rule_output_range r vars V :
  compiled_ok r -> exists v b, rule_output r vars V = Some (v, b) /\ output_in_range r v.
Proof.
  intros Hr. unfold rule_output. destruct (raw_result_Some r vars V) as [vb ->]. simpl.
  pose proof (safe_value_not_nan r vb Hr) as Hn.
  destruct (safe_value r vb) as [safe valid]. simpl in Hn.
  destruct (f64_clamp_Some (as_f64 safe) _ _ (ok_limits _ Hr)) as [x Hx]. rewrite Hx. simpl.
  eexists _, _. split; [done|].
  destruct (f64_clamp_bounds _ _ _ _ Hn Hx).
  apply typed_value_range; try done.
  eapply (f64_clamp_finite _ (min_limit r) (max_limit r)); [apply Hr|apply Hr|exact Hn|exact Hx].
Qed.

Lemma rule_output_frame r vars vars' V V' :
  compiled_ok r ->
  (forall x, x ∈ variables r -> vars !! x = vars' !! x /\ V !! x = V' !! x) ->
  rule_output r vars V = rule_output r vars' V'.
Proof.
  intros Hr H. unfold rule_output. rewrite (ok_variables _ Hr) in H.
  by rewrite (evaluate_with_validity_frame _ _ _ _ _ H).
Qed.

(** ** The cycle *)

Abbreviation Output := (string * Value * bool)%type (only parsing).

(** The variable and validity tables after the outputs are written back. *)
Definition write_outputs (vars : gmap string EvalValue) (outs : list Output) : gmap string EvalValue :=
  foldl (fun m o => <[o.1.1 := from_model_value o.1.2]> m) vars outs.
Definition write_validity (V : gmap string bool) (outs : list Output) : gmap string bool :=
  foldl (fun m o => <[o.1.1 := o.2]> m) V outs.

Lemma write_outputs_other vars outs x :
  x ∉ (fst ∘ fst) <$> outs -> write_outputs vars outs !! x = vars !! x.
Proof.
  revert vars. induction outs as [|o outs IH]; intros vars Hx; [done|]. simpl in *.
  unfold write_outputs in *. simpl. rewrite IH by set_solver. apply lookup_insert_ne. set_solver.
Qed.
Lemma write_validity_other V outs x :
  x ∉ (fst ∘ fst) <$> outs -> write_validity V outs !! x = V !! x.
Proof.
  revert V. induction outs as [|o outs IH]; intros V Hx; [done|]. simpl in *.
  unfold write_validity in *. simpl. rewrite IH by set_solver. apply lookup_insert_ne. set_solver.
Qed.

(** The cycle as a fold that returns its own outputs. *)
Fixpoint cycle (rules : list CompiledRule) (vars : gmap string EvalValue) (V : gmap string bool)
    : option (list Output) :=
  match rules with
  | [] => Some []
  | r :: rules =>
      '(v, b) ← rule_output r vars V;
      outs ← cycle rules (<[kks_calc r := from_model_value v]> vars) (<[kks_calc r := b]> V);
      Some ((kks_calc r, v, b) :: outs)
  end.

Lemma run_rule_cycle rules st :
  cs_results <$> foldM run_rule st rules
  = app (cs_results st) <$> cycle rules (cs_variables st) (cs_validity st).
Proof.
  revert st. induction rules as [|r rules IH]; intros st; simpl; [by rewrite app_nil_r|].
  destruct (run_rule st r) as [st'|] eqn:E; unfold run_rule in E;
    (destruct (rule_output r (cs_variables st) (cs_validity st)) as [[v b]|]; [|try done]);
    simplify_eq/=.
  rewrite IH. simpl. destruct (cycle _ _ _); simpl; [|done]. by rewrite <- app_assoc.
Qed.

Lemma run_cycle_with_quality_cycle e vars V : run_cycle_with_quality e vars V = cycle e vars V.
Proof.
  unfold run_cycle_with_quality. rewrite run_rule_cycle.
  cbn [cs_variables cs_validity cs_results]. by destruct (cycle e vars V).
Qed.

Lemma cycle_Some rules vars V :
  Forall compiled_ok rules ->
  exists outs, cycle rules vars V = Some outs /\
    Forall2 (fun r o => o.1.1 = kks_calc r /\ output_in_range r o.1.2) rules outs.
Proof.
  intros Hok. revert vars V. induction Hok as [|r rules Hr _ IH]; intros vars V; simpl.
  { exists []. split; [done|constructor]. }
  destruct (rule_output_range r vars V Hr) as (v & b & -> & Hv). simpl.
  destruct (IH (<[kks_calc r := from_model_value v]> vars) (<[kks_calc r := b]> V)) as (outs & -> & Houts).
  simpl. eauto.
Qed.

(** No rule reads its own output or one computed later. *)
Definition later_free (rules : list CompiledRule) : Prop :=
  forall a r b v, rules = a ++ r :: b -> v ∈ variables r -> v ∉ kks_calc <$> (r :: b).

Lemma engine_later_free e : engine_ok e -> later_free e.
Proof.
  intros [[_ Hn] Hd] a r b v He Hv Hin.
  assert (Ha : v ∈ kks_calc <$> a) by (eapply Hd; [done..|]; rewrite He, fmap_app; set_solver).
  rewrite He, fmap_app in Hn. apply NoDup_app in Hn as (_ & Hn & _). by apply (Hn v).
Qed.

Lemma cycle_names rules vars V outs :
  cycle rules vars V = Some outs -> (fst ∘ fst) <$> outs = kks_calc <$> rules.
Proof.
  revert vars V outs. induction rules as [|r rules IH]; intros vars V outs H; simpl in H; [by simplify_eq|].
  destruct (rule_output r vars V) as [[v b]|]; [|done]. simpl in H.
  destruct (cycle rules _ _) as [outs'|] eqn:E; [|done]. simplify_eq/=. f_equal. by eapply IH.
Qed.

(** Each output is what its rule computes from the tables at the end of the
    cycle: the outputs solve the equations of the rules. *)
Lemma cycle_consistent rules vars V outs :
  Forall compiled_ok rules -> later_free rules -> cycle rules vars V = Some outs ->
  Forall2 (fun r o => rule_output r (write_outputs vars outs) (write_validity V outs)
                      = Some (o.1.2, o.2)) rules outs.
Proof.
  intros Hok. revert vars V outs.
  induction Hok as [|r rules Hr _ IH]; intros vars V outs Hlf H; [simpl in H; by simplify_eq|].
  pose proof (cycle_names _ _ _ _ H) as Hnames. simpl in H.
  destruct (rule_output r vars V) as [[v b]|] eqn:Er; [|done]. simpl in H.
  destruct (cycle rules _ _) as [outs'|] eqn:E; [|done]. injection H as <-. constructor.
  - cbn [fst snd]. rewrite <- Er. symmetry. apply rule_output_frame; [done|]. intros x Hx.
    assert (Hx' : x ∉ (fst ∘ fst) <$> (kks_calc r, v, b) :: outs').
    { rewrite Hnames. by eapply (Hlf [] r rules). }
    by rewrite write_outputs_other, write_validity_other.
  - apply (IH _ _ _) in E; [done|]. intros a q c w -> Hw. by eapply (Hlf (r :: a)).
Qed.

(** ** Validity of the outputs *)

Lemma rule_output_valid r vars vars' V v :
  agree_on (marked_valid V) vars vars' ->
  rule_output r vars V = Some (v, true) -> rule_output r vars' V = Some (v, true).
Proof.
  intros Hagree. unfold rule_output.
  destruct (evaluate_with_validity (ast r) vars V) as [[w []]|err] eqn:E; simpl.
  - apply (valid_result_noninterference _ _ _ _ _ Hagree) in E. by rewrite E.
  - unfold safe_value. simpl. destruct (is_invalid_float w); simpl; by destruct (f64_clamp _ _ _).
  - destruct err; simpl; try done; unfold safe_value; simpl;
      destruct (f64_is_nan _ || _); simpl; by destruct (f64_clamp _ _ _).
Qed.

Lemma agree_on_sym P vars vars' : agree_on P vars vars' -> agree_on P vars' vars.
Proof. unfold agree_on. intros H x Hx. symmetry. auto. Qed.

(** Same names and flags, and the same values where the flag is set. *)
Definition same_valid (o o' : Output) : Prop :=
  o.1.1 = o'.1.1 /\ o.2 = o'.2 /\ (o.2 = true -> o.1.2 = o'.1.2).

Lemma rule_output_flags r vars vars' V v b v' b' :
  agree_on (marked_valid V) vars vars' ->
  rule_output r vars V = Some (v, b) -> rule_output r vars' V = Some (v', b') ->
  b = b' /\ (b = true -> v = v').
Proof.
  intros Ha H H'. destruct b.
  - rewrite (rule_output_valid _ _ _ _ _ Ha H) in H'. by simplify_eq.
  - destruct b'; [|done].
    rewrite (rule_output_valid _ _ _ _ _ (agree_on_sym _ _ _ Ha) H') in H. by simplify_eq.
Qed.

Lemma agree_on_insert V vars vars' k w w' b :
  agree_on (marked_valid V) vars vars' -> (b = true -> w = w') ->
  agree_on (marked_valid (<[k := b]> V)) (<[k := w]> vars) (<[k := w']> vars').
Proof.
  intros Ha Hw x. unfold marked_valid. destruct (decide (x = k)) as [->|Hx].
  - rewrite !lookup_insert_eq. intros [= ->]. by rewrite Hw.
  - rewrite !lookup_insert_ne by done. apply Ha.
Qed.

Lemma cycle_noninterference rules vars vars' V outs outs' :
  agree_on (marked_valid V) vars vars' ->
  cycle rules vars V = Some outs -> cycle rules vars' V = Some outs' ->
  Forall2 same_valid outs outs'.
Proof.
  revert vars vars' V outs outs'.
  induction rules as [|r rules IH]; intros vars vars' V outs outs' Ha H H'; simpl in *; [by simplify_eq|].
  destruct (rule_output r vars V) as [[v b]|] eqn:Er; [|done].
  destruct (rule_output r vars' V) as [[v' b']|] eqn:Er'; [|done]. simpl in *.
  destruct (rule_output_flags _ _ _ _ _ _ _ _ Ha Er Er') as [<- Hv].
  destruct (cycle rules (<[_:=from_model_value v]> vars) _) as [o|] eqn:E; [|done].
  destruct (cycle rules (<[_:=from_model_value v']> vars') _) as [o'|] eqn:E'; [|done].
  simplify_eq/=. constructor; [done|]. eapply IH; [|done..].
  apply agree_on_insert; [done|]. intros Hb. by rewrite Hv.
Qed.

(** ** Properties of the engine *)

Lemma new_engine_ok config e : new config = Some (Ok e) -> engine_ok e.
Proof. destruct (new_spec config) as (e' & ? & H & ? & _). rewrite H. by intros [= ->]. Qed.

(** [CalcEngine::new] never panics and always returns [Ok].  The engine
    holds compiled rules only (finite ordered limits, finite default, no
    self-reference), no output name twice, and every rule stands after the
    rules whose outputs it reads.  Together with the skipped rules it is a
    permutation of the rules that compiled, and each skipped rule reads
    another skipped rule: only cycles and what depends on them are dropped. *)
Theorem new_builds_ordered_engine config :
  exists e skipped,
    new config = Some (Ok e) /\ engine_ok e /\
    e ++ skipped ≡ₚ foldl compile_step [] config /\ cyclic skipped.
Proof. apply new_spec. Qed.

(** A configuration whose rule dependencies are acyclic (they decrease
    some rank) loses no compiled rule to the topological sort. *)
Theorem new_acyclic_complete config (rank : string -> nat) :
  (forall r r', r ∈ foldl compile_step [] config -> r' ∈ foldl compile_step [] config ->
     kks_calc r' ∈ variables r -> (rank (kks_calc r') < rank (kks_calc r))%nat) ->
  exists e, new config = Some (Ok e) /\ e ≡ₚ foldl compile_step [] config.
Proof.
  intros Hrank. destruct (new_spec config) as (e & skipped & Hnew & _ & Hp & Hc).
  exists e. split; [done|]. rewrite (cyclic_nil rank skipped), app_nil_r in Hp; [done| |done].
  intros r r' Hr Hr'. apply Hrank; rewrite <- Hp, elem_of_app; auto.
Qed.

(** A cycle of a built engine never panics (in particular [f64::clamp]
    is always called with ordered limits): it gives one result per rule, in
    order, and each value has the rule's type and range: a [u32], a number,
    or a finite [f64] between the rule's limits. *)
Theorem run_cycle_total_in_range config e vars V :
  new config = Some (Ok e) ->
  exists outs, run_cycle_with_quality e vars V = Some outs /\
    Forall2 (fun r o => o.1.1 = kks_calc r /\ output_in_range r o.1.2) e outs.
Proof.
  intros H%new_engine_ok. rewrite run_cycle_with_quality_cycle.
  apply cycle_Some, rules_compiled, H.
Qed.

(** C20: The results of a cycle solve the configured equations: every output
    is what its rule computes from the base values overwritten by all the
    outputs of the same cycle, so no rule sees a value of an earlier cycle or
    one that a later rule changes. *)
Theorem run_cycle_consistent config e vars V outs :
  new config = Some (Ok e) -> run_cycle_with_quality e vars V = Some outs ->
  Forall2 (fun r o => rule_output r (write_outputs vars outs) (write_validity V outs)
                      = Some (o.1.2, o.2)) e outs.
Proof.
  intros H%new_engine_ok. rewrite run_cycle_with_quality_cycle.
  apply cycle_consistent; [apply H|by apply engine_later_free].
Qed.

(** Quality is sound across a whole cycle: when two sets of base values
    differ only on variables that are not marked valid, the two cycles give
    the same flags, and the same value wherever the flag says valid. *)
Theorem run_cycle_quality_sound e vars vars' V outs outs' :
  agree_on (marked_valid V) vars vars' ->
  run_cycle_with_quality e vars V = Some outs ->
  run_cycle_with_quality e vars' V = Some outs' ->
  Forall2 same_valid outs outs'.
Proof. rewrite !run_cycle_with_quality_cycle. apply cycle_noninterference. Qed.

(** ** Witnesses *)

Definition demo_config : list CalcRule :=
  [make_rule "total" "double" "half * 4 + y" f64_zero; make_rule "half" "f64" "x / 2" f64_zero;
   make_rule "flag" "bool" "y > 3" f64_zero].
Definition demo_engine : CalcEngine :=
  match new demo_config with Some (Ok e) => e | _ => [] end.
Definition demo_vars (y : Z) : gmap string EvalValue := {[ "x" := EvInt 10; "y" := EvInt y ]}.
Definition demo_validity : gmap string bool := {[ "x" := true; "y" := false ]}.
Definition demo_outs (y : Z) : list Output :=
  [("half", VDouble (f64_of_Z 5), true); ("flag", VBool (3 <? y), false);
   ("total", VDouble (f64_of_Z (20 + y)), false)].

Lemma new_acyclic_complete_witness :
  exists e, new demo_config = Some (Ok e) /\ e ≡ₚ foldl compile_step [] demo_config.
Proof.
  apply (new_acyclic_complete demo_config (fun k => if String.eqb k "total" then 1 else 0)%nat).
  intros r r' Hr Hr'. vm_compute in Hr, Hr'.
  repeat (apply elem_of_cons in Hr as [->|Hr]); try by apply not_elem_of_nil in Hr.
  all: repeat (apply elem_of_cons in Hr' as [->|Hr']); try by apply not_elem_of_nil in Hr'.
  all: cbn -[elem_of]; intros Hv; try lia; exfalso;
    repeat (apply elem_of_cons in Hv as [Hv|Hv]); try discriminate Hv; by apply not_elem_of_nil in Hv.
Defined.

Lemma run_cycle_total_in_range_witness :
  new demo_config = Some (Ok demo_engine) /\
  exists outs, run_cycle_with_quality demo_engine (demo_vars 8) demo_validity = Some outs /\
    Forall2 (fun r o => o.1.1 = kks_calc r /\ output_in_range r o.1.2) demo_engine outs.
Proof.
  split; [vm_compute; reflexivity|].
  apply (run_cycle_total_in_range demo_config). vm_compute. reflexivity.
Defined.

Lemma run_cycle_consistent_witness :
  Forall2 (fun r o => rule_output r (write_outputs (demo_vars 8) (demo_outs 8))
                        (write_validity demo_validity (demo_outs 8)) = Some (o.1.2, o.2))
    demo_engine (demo_outs 8).
Proof. apply (run_cycle_consistent demo_config); vm_compute; reflexivity. Defined.

Lemma run_cycle_quality_sound_witness : Forall2 same_valid (demo_outs 8) (demo_outs 2).
Proof.
  apply (run_cycle_quality_sound demo_engine (demo_vars 8) (demo_vars 2) demo_validity).
  - intros x Hx. unfold demo_vars. destruct (decide (x = "x")) as [->|]; [done|].
    destruct (decide (x = "y")) as [->|]; [discriminate Hx|].
    by rewrite !lookup_insert_ne, !lookup_singleton_ne by done.
  - vm_compute. reflexivity.
  - vm_compute. reflexivity.
Defined.
