(* ===== verification/Runner.v ===== *)
(** * The calculation runner (src/src/calc_engine/runner.rs)

    The accumulated variable table fed by device updates, and the engine run
    on it.  [None] in a result is a panic of the engine, which the properties
    exclude for engines built by [new]. *)

From S2P Require Import Prelude RustFloat RustStr Model Evaluator Topo Engine.
Open Scope string_scope.
Open Scope Z_scope.
Open Scope list_scope.

Record CalcRunner := {
  engine : CalcEngine;
  global_vars : gmap string EvalValue;
  valid_vars : gmap string bool
}.

Definition runner_new (e : CalcEngine) : CalcRunner :=
  {| engine := e; global_vars := ∅; valid_vars := ∅ |}.

(** [for (kks, val) in &status.value]: the iteration order of the map is
    unspecified and immaterial ([merge_values_lookup], [merge_validity_lookup]). *)
Definition merge_status (r : CalcRunner) (status : DeviceStatus) : CalcRunner :=
  let valid := ds_com_status status && ds_device_status status in
  {| engine := engine r;
     global_vars := map_fold (fun kks val m => <[kks := from_model_value val]> m) (global_vars r)
                      (ds_value status);
     valid_vars := map_fold (fun kks _ m => <[kks := valid]> m) (valid_vars r) (ds_value status) |}.

Definition run_with_quality (r : CalcRunner) : option (list (string * Value * bool)) :=
  run_cycle_with_quality (engine r) (global_vars r) (valid_vars r).

Definition rebuild_from_statuses_with_quality (r : CalcRunner) (statuses : list DeviceStatus)
    : CalcRunner * option (list (string * Value * bool)) :=
  let r := runner_new (engine r) in
  if is_empty (engine r) then (r, Some [])
  else
    let r := foldl merge_status r statuses in
    (r, run_with_quality r).

Definition drop_quality (outs : option (list (string * Value * bool))) : option (list (string * Value)) :=
  fmap (M := list) fst <$> outs.

Definition rebuild_from_statuses (r : CalcRunner) (statuses : list DeviceStatus)
    : CalcRunner * option (list (string * Value)) :=
  let '(r, outs) := rebuild_from_statuses_with_quality r statuses in (r, drop_quality outs).

Definition on_update_with_quality (r : CalcRunner) (status : DeviceStatus)
    : CalcRunner * option (list (string * Value * bool)) :=
  if is_empty (engine r) then (r, Some [])
  else
    let r := merge_status r status in
    (r, run_with_quality r).

Definition on_update (r : CalcRunner) (status : DeviceStatus)
    : CalcRunner * option (list (string * Value)) :=
  let '(r, outs) := on_update_with_quality r status in (r, drop_quality outs).

(** ** The accumulated table *)

Lemma merge_values_lookup (m : gmap string EvalValue) (vs : gmap string Value) k :
  map_fold (fun kks val m => <[kks := from_model_value val]> m) m vs !! k
  = match vs !! k with Some v => Some (from_model_value v) | None => m !! k end.
Proof.
  revert k. induction vs as [|i x vs Hi Hfold IH] using map_first_key_ind; intros k.
  - by rewrite map_fold_empty, lookup_empty.
  - rewrite map_fold_insert_first_key by done. rewrite !lookup_insert. case_decide; [done|]. apply IH.
Qed.

Lemma merge_validity_lookup (m : gmap string bool) (vs : gmap string Value) b k :
  map_fold (fun kks _ m => <[kks := b]> m) m vs !! k
  = match vs !! k with Some _ => Some b | None => m !! k end.
Proof.
  revert k. induction vs as [|i x vs Hi Hfold IH] using map_first_key_ind; intros k.
  - by rewrite map_fold_empty, lookup_empty.
  - rewrite map_fold_insert_first_key by done. rewrite !lookup_insert. case_decide; [done|]. apply IH.
Qed.

Lemma engine_fold_merge r ss : engine (foldl merge_status r ss) = engine r.
Proof. revert r. induction ss as [|s ss IH]; intros r; simpl; [done|]. by rewrite IH. Qed.

(** The last status that carries the key [k]. *)
Definition latest (k : string) (ss : list DeviceStatus) : option (Value * bool) :=
  foldl (fun acc s => match ds_value s !! k with
                      | Some v => Some (v, ds_com_status s && ds_device_status s)
                      | None => acc
                      end) None ss.

Lemma fold_merge_lookup r ss k acc :
  global_vars r !! k = from_model_value ∘ fst <$> acc ->
  valid_vars r !! k = snd <$> acc ->
  let acc' := foldl (fun acc s => match ds_value s !! k with
                      | Some v => Some (v, ds_com_status s && ds_device_status s)
                      | None => acc
                      end) acc ss in
  global_vars (foldl merge_status r ss) !! k = from_model_value ∘ fst <$> acc' /\
  valid_vars (foldl merge_status r ss) !! k = snd <$> acc'.
Proof.
  revert r acc. induction ss as [|s ss IH]; intros r acc Hg Hv; [done|].
  apply IH; cbn [merge_status global_vars valid_vars];
    rewrite ?merge_values_lookup, ?merge_validity_lookup; by destruct (ds_value s !! k).
Qed.

(** The runner's state and last results after a sequence of updates. *)
Definition on_updates (r : CalcRunner) (ss : list DeviceStatus)
    : CalcRunner * option (list (string * Value * bool)) :=
  foldl (fun st s => on_update_with_quality (st.1) s) (r, run_with_quality r) ss.

Lemma on_updates_fold r ss :
  is_empty (engine r) = false ->
  on_updates r ss = (foldl merge_status r ss, run_with_quality (foldl merge_status r ss)).
Proof.
  intros He. unfold on_updates. induction ss as [|s ss IH] using rev_ind; [done|].
  rewrite !foldl_app. cbn [foldl]. rewrite IH. unfold on_update_with_quality. cbn [fst].
  by rewrite engine_fold_merge, He.
Qed.

(** Feeding the statuses one by one to a new runner, and rebuilding from
    the whole list (whatever the runner held before), give the same state and
    the same results; with an empty engine neither accumulates anything. *)
Theorem updates_equal_rebuild r ss :
  on_updates (runner_new (engine r)) ss = rebuild_from_statuses_with_quality r ss.
Proof.
  unfold rebuild_from_statuses_with_quality. destruct (is_empty (engine r)) eqn:He; simpl; rewrite He.
  - unfold on_updates. induction ss as [|s ss IH] using rev_ind.
    + unfold run_with_quality. by destruct (engine r).
    + rewrite foldl_app, IH. unfold on_update_with_quality. simpl. by rewrite He.
  - by rewrite on_updates_fold.
Qed.

(** After a rebuild of a non-empty engine every variable has the value of
    the last status that carries it, converted to the evaluator's type, and
    is valid exactly when that status had both its port and its device up. *)
Theorem rebuild_last_writer_wins r ss k :
  is_empty (engine r) = false ->
  let r' := (rebuild_from_statuses_with_quality r ss).1 in
  global_vars r' !! k = from_model_value ∘ fst <$> latest k ss /\
  valid_vars r' !! k = snd <$> latest k ss.
Proof.
  intros He. unfold rebuild_from_statuses_with_quality. simpl. rewrite He. simpl.
  by apply fold_merge_lookup.
Qed.

Lemma rebuild_last_writer_wins_witness :
  let status b n := {| ds_id := 1; ds_device_id := 1; ds_com := "COM1"; ds_com_status := true;
                       ds_device_status := b; ds_value := {[ "x" := VUInt n ]}; ds_raw_data := [] |} in
  is_empty demo_engine = false /\
  let r' := (rebuild_from_statuses_with_quality (runner_new demo_engine) [status true 1; status false 2]).1 in
  global_vars r' !! "x" = Some (EvInt 2) /\ valid_vars r' !! "x" = Some false.
Proof.
  intros status. split; [reflexivity|].
  apply (rebuild_last_writer_wins (runner_new demo_engine) [status true 1; status false 2] "x").
  reflexivity.
Defined.
