(* ===== verification/Csv.v ===== *)
(** * Device point tables (src/src/csv_parser.rs)

    The typed point table of one device, its strict validation and the
    start-up parser.  The [csv] crate is a parameter: [csv_rows] gives the
    rows of a text (a row is a list of fields or an error) and [deserialize]
    reads a row as a [Record] by position; the module's own [BitIndex] text
    format is modelled. *)

From S2P Require Import Prelude RustStr.
Open Scope string_scope.
Open Scope Z_scope.
Open Scope list_scope.

(** ** Data *)

Inductive BitIndex :=
| Single (bit : Z)
| Range (start_bit end_bit : Z).

(** [BitIndex::from_str]: ["5"] or ["0.7"]. *)
Definition bit_index_from_str (s : string) : option BitIndex :=
  match split_at_char "."%char (chars s) with
  | Some (a, b) =>
      start_bit ← parse_uint u32_max a;
      end_bit ← parse_uint u32_max b;
      Some (Range start_bit end_bit)
  | None => Single <$> parse_uint u32_max (chars s)
  end.

Record Record_ := {
  rec_kks : string;
  rec_type : string;
  rec_f_type : string;
  rec_byte_index : Z;
  rec_bit_index : BitIndex;
  rec_def : Z;
  rec_max : Z;
  rec_min : Z;
  rec_byte_order : Z
}.

Record Config := {
  com : string;
  baud_rate : Z;
  is_special : bool;
  com_index : Z;
  device_id : Z;
  data_len : Z;
  kks_prefix : string
}.

(** ** Bounds of a point *)

Inductive BoundsError :=
| ByteIndexZero
| ByteIndexOutOfRange (byte_index len : Z)
| BitOutOfByte (bit : Z)
| RangeReversed (start_bit end_bit : Z)
| RangeTooWide (start_bit end_bit num_bits : Z)
| RangeOutOfData (start_bit end_bit last_byte len : Z).

Definition record_bounds_error (record : Record_) (len : Z) : option BoundsError :=
  if rec_byte_index record =? 0 then Some ByteIndexZero
  else
    let byte_index := rec_byte_index record - 1 in
    if len <=? byte_index then Some (ByteIndexOutOfRange (rec_byte_index record) len)
    else
      match rec_bit_index record with
      | Single bit => if 8 <=? bit then Some (BitOutOfByte bit) else None
      | Range start_bit end_bit =>
          if end_bit <? start_bit then Some (RangeReversed start_bit end_bit)
          else
            let num_bits := end_bit - start_bit + 1 in
            if 32 <? num_bits then Some (RangeTooWide start_bit end_bit num_bits)
            else
              let end_byte := byte_index + end_bit / 8 in
              if len <=? end_byte
              then Some (RangeOutOfData start_bit end_bit (end_byte + 1) len)
              else None
      end.

(** ** Errors and header fields *)

Inductive CsvParseError :=
| Io (message : string)
| CsvError (message : string)
| MissingHeader (field : string) (row : nat)
| BadHeaderValue (field value : string).

Definition parse_required {T} (parse : string -> option T) (headers : list string) (idx : nat)
    (field : string) : result CsvParseError T :=
  raw ← ok_or (MissingHeader field (S idx))
          (s ← headers !! idx; let s := trim s in if String.eqb s "" then None else Some s);
  ok_or (BadHeaderValue field raw) (parse raw).

(** Old point tables spell the labels differently ([BaudRate], [Pre]). *)
Definition csv_label_matches (actual expected : string) : bool :=
  let actual := to_ascii_lowercase (remove_char "_"%char (trim actual)) in
  let expected := to_ascii_lowercase (remove_char "_"%char expected) in
  String.eqb actual expected || (String.eqb expected "kksprefix" && String.eqb actual "pre").

Definition fields : list string :=
  ["com"; "baud_rate"; "is_special"; "com_index"; "device_id"; "data_len"; "kks_prefix"].

(** [RECORD_CSV_HEADER.split(',')]. *)
Definition expected_columns : list string :=
  ["kks"; "type_"; "f_type"; "byte_index"; "bit_index"; "def"; "max"; "min"; "lh"].

Inductive ValidateError :=
| MissingRow (row : nat) (field : string)
| RowError (row : option nat) (message : string)
| WrongLabel (row : nat) (field : string)
| BadCom
| BadPrefix
| HeaderError (e : CsvParseError)
| BaudRateZero
| MissingColumns
| WrongColumns
| EmptyKks (row : nat)
| DuplicateKks (row : nat) (kks : string)
| UnknownType (row : nat) (kks : string)
| BadByteOrder (row : nat) (kks : string)
| OutOfBounds (row : nat) (kks : string) (reason : BoundsError).

(** A row of the [csv] crate. *)
Abbreviation Row := (result string (list string)) (only parsing).

Example label_old_spelling :
  csv_label_matches " BaudRate" "baud_rate" = true /\ csv_label_matches "PRE" "kks_prefix" = true.
Proof. done. Qed.
Example bit_index_range : bit_index_from_str "0.15" = Some (Range 0 15).
Proof. done. Qed.
Example bit_index_bad : bit_index_from_str "0.1.2" = None.
Proof. done. Qed.

(** ** Strict validation *)

(** [content.trim_start_matches('\u{feff}')]. *)
Fixpoint strip_bom (s : string) : string :=
  match s with
  | String a (String b (String c s' as s2) as s1) =>
      if (code a =? 0xEF) && (code b =? 0xBB) && (code c =? 0xBF) then strip_bom s' else s
  | _ => s
  end.

(** The seven configuration rows: their second column, and the rows left. *)
Fixpoint read_headers (index : nat) (fs : list string) (rows : list Row)
    : result ValidateError (list string * list Row) :=
  match fs with
  | [] => Ok ([], rows)
  | field :: fs =>
      match rows with
      | [] => Err (MissingRow (S index) field)
      | row :: rows =>
          row ← map_err (RowError None) row;
          if negb (match row !! 0%nat with
                   | Some actual => csv_label_matches actual field
                   | None => false
                   end)
          then Err (WrongLabel (S index) field)
          else
            '(headers, rows) ← read_headers (S index) fs rows;
            Ok (default "" (row !! 1%nat) :: headers, rows)
      end
  end.

(** [headers[i]] on the seven headers just read. *)
Definition header (headers : list string) (i : nat) : string := default "" (headers !! i).

Definition validate_config (headers : list string) : result ValidateError Config :=
  let com_name := trim (header headers 0) in
  if String.eqb com_name "" || any_control com_name then Err BadCom
  else if any_control (header headers 6) then Err BadPrefix
  else
    special ← (if eq_ignore_ascii_case (trim (header headers 2)) "false" then Ok false
               else map_err HeaderError (parse_required parse_bool headers 2 "is_special"));
    baud ← map_err HeaderError (parse_required parse_u32 headers 1 "baud_rate");
    index ← map_err HeaderError (parse_required parse_u8 headers 3 "com_index");
    device ← map_err HeaderError (parse_required parse_u8 headers 4 "device_id");
    len ← map_err HeaderError (parse_required parse_u8 headers 5 "data_len");
    if baud =? 0 then Err BaudRateZero
    else Ok {| com := com_name; baud_rate := baud; is_special := special; com_index := index;
               device_id := device; data_len := len; kks_prefix := header headers 6 |}.

Definition columns_match (columns : list string) : bool :=
  Nat.eqb (length columns) (length expected_columns)
  && forallb (fun '(actual, expected) => csv_label_matches actual expected)
       (zip columns expected_columns).

Definition with_prefix (config : Config) (record : Record_) : Record_ := {|
  rec_kks := kks_prefix config +:+ rec_kks record;
  rec_type := rec_type record; rec_f_type := rec_f_type record;
  rec_byte_index := rec_byte_index record; rec_bit_index := rec_bit_index record;
  rec_def := rec_def record; rec_max := rec_max record; rec_min := rec_min record;
  rec_byte_order := rec_byte_order record |}.

Definition known_type (t : string) : bool :=
  String.eqb t "uint" || String.eqb t "bool" || String.eqb t "float".

Section Reader.
(** The [csv] crate: the rows of a text, and a row read by position. *)
Context (csv_rows : string -> list (result string (list string))).
Context (deserialize : list string -> result string Record_).

(** One point row after the structural checks: the record, or an error. *)
Definition validate_point (config : Config) (names : gset string) (row_number : nat)
    (row : Row) : result ValidateError Record_ :=
  row ← map_err (RowError (Some row_number)) row;
  record ← map_err (RowError (Some row_number)) (deserialize row);
  if String.eqb (trim (rec_kks record)) "" || any_control (rec_kks record)
  then Err (EmptyKks row_number)
  else
    let record := with_prefix config record in
    if bool_decide (rec_kks record ∈ names) then Err (DuplicateKks row_number (rec_kks record))
    else if negb (known_type (rec_type record)) then Err (UnknownType row_number (rec_kks record))
    else if 1 <? rec_byte_order record then Err (BadByteOrder row_number (rec_kks record))
    else Ok record.

(** The loop over the point rows.  [lenient] says whether a [warning]
    callback is given; the first component lists the warnings reported, also
    when a later row fails. *)
Fixpoint validate_points (lenient : bool) (config : Config) (names : gset string)
    (offset : nat) (rows : list Row)
    : list ValidateError * result ValidateError (list Record_) :=
  match rows with
  | [] => ([], Ok [])
  | row :: rows =>
      let row_number := (offset + 9)%nat in
      match validate_point config names row_number row with
      | Err e => ([], Err e)
      | Ok record =>
          let names := {[ rec_kks record ]} ∪ names in
          let max_status_bytes := data_len config + 1 in
          match record_bounds_error record max_status_bytes with
          | Some reason =>
              let message := OutOfBounds row_number (rec_kks record) reason in
              if lenient then
                let '(ws, r) := validate_points lenient config names (S offset) rows in
                (message :: ws, cons record <$> r)
              else ([], Err message)
          | None =>
              let '(ws, r) := validate_points lenient config names (S offset) rows in
              (ws, cons record <$> r)
          end
      end
  end.

(** The header part: the configuration and the point rows. *)
Definition validate_head (rows : list Row) : result ValidateError (Config * list Row) :=
  '(headers, rows) ← read_headers 0 fields rows;
  config ← validate_config headers;
  match rows with
  | [] => Err MissingColumns
  | columns :: rows =>
      columns ← map_err (RowError None) columns;
      if negb (columns_match columns) then Err WrongColumns else Ok (config, rows)
  end.

Definition validate_csv_content_inner (content : string) (lenient : bool)
    : list ValidateError * result ValidateError (Config * list Record_) :=
  match validate_head (csv_rows (strip_bom content)) with
  | Err e => ([], Err e)
  | Ok (config, rows) =>
      let '(ws, r) := validate_points lenient config ∅ 0 rows in
      (ws, (fun records => (config, records)) <$> r)
  end.

Definition validate_csv_content (content : string) : result ValidateError (Config * list Record_) :=
  (validate_csv_content_inner content false).2.

Definition validate_csv_content_with_point_warnings (content : string)
    : list ValidateError * result ValidateError (Config * list Record_) :=
  validate_csv_content_inner content true.

(** ** The start-up parser *)

(** Seven attempts to read a row; a missing row adds no header. *)
Fixpoint read_header_values (n : nat) (rows : list Row)
    : result CsvParseError (list string * list Row) :=
  match n, rows with
  | O, _ => Ok ([], rows)
  | S _, [] => Ok ([], [])
  | S n, row :: rows =>
      row ← map_err CsvError row;
      '(headers, rows) ← read_header_values n rows;
      Ok (default "" (row !! 1%nat) :: headers, rows)
  end.

Definition parse_config (headers : list string) : result CsvParseError Config :=
  com_name ← ok_or (MissingHeader "com" 1)
               (s ← headers !! 0%nat; let s := trim s in if String.eqb s "" then None else Some s);
  baud ← parse_required parse_u32 headers 1 "baud_rate";
  let special := default false (s ← headers !! 2%nat; parse_bool (trim s)) in
  index ← parse_required parse_u8 headers 3 "com_index";
  device ← parse_required parse_u8 headers 4 "device_id";
  len ← parse_required parse_u8 headers 5 "data_len";
  Ok {| com := com_name; baud_rate := baud; is_special := special; com_index := index;
        device_id := device; data_len := len; kks_prefix := default "" (headers !! 6%nat) |}.

Fixpoint parse_points (config : Config) (rows : list Row) : result CsvParseError (list Record_) :=
  match rows with
  | [] => Ok []
  | row :: rows =>
      row ← map_err CsvError row;
      record ← map_err CsvError (deserialize row);
      records ← parse_points config rows;
      Ok (with_prefix config record :: records)
  end.

(** [file] is the outcome of opening and reading the path; out-of-bounds
    points are only logged. *)
Definition parse_csv (file : result string string) : result CsvParseError (Config * list Record_) :=
  content ← map_err Io file;
  '(headers, rows) ← read_header_values 7 (csv_rows content);
  config ← parse_config headers;
  records ← parse_points config (tail rows);
  Ok (config, records).
End Reader.

(** ** Facts about validated tables *)

(** The ranges of the [u32] fields of a record. *)
Record record_wf (r : Record_) : Prop := {
  wf_byte_index : is_u32 (rec_byte_index r);
  wf_byte_order : is_u32 (rec_byte_order r);
  wf_bits : match rec_bit_index r with
            | Single bit => is_u32 bit
            | Range s e => is_u32 s /\ is_u32 e
            end
}.

(** A point that can be read from a status of [len] bytes. *)
Record point_ok (len : Z) (r : Record_) : Prop := {
  point_type : known_type (rec_type r) = true;
  point_order : rec_byte_order r <= 1;
  point_bounds : record_bounds_error r len = None
}.

Section ReaderFacts.
Context (csv_rows : string -> list (result string (list string))).
Context (deserialize : list string -> result string Record_).

Lemma validate_point_Ok config names n row r :
  validate_point deserialize config names n row = Ok r ->
  rec_kks r ∉ names /\ known_type (rec_type r) = true /\ rec_byte_order r <= 1 /\
  exists fs r0, row = Ok fs /\ deserialize fs = Ok r0 /\ r = with_prefix config r0.
Proof.
  unfold validate_point. intros H. inv_result. simpl in H.
  repeat match goal with
  | H : map_err _ ?m = Ok _ |- _ => destruct m eqn:?; simpl in H; inv_result
  | H : (if ?b then _ else _) = Ok _ |- _ => destruct b eqn:?; [discriminate H|]
  end.
  inv_result. rewrite negb_false_iff, Z.ltb_ge, bool_decide_eq_false in *. split_and!; eauto.
Qed.

Lemma validate_points_Ok config names n rows rs :
  (validate_points deserialize false config names n rows).2 = Ok rs ->
  NoDup (rec_kks <$> rs) /\ (forall r, r ∈ rs -> rec_kks r ∉ names) /\
  Forall (point_ok (data_len config + 1)) rs /\
  (forall r, r ∈ rs -> exists fs r0, deserialize fs = Ok r0 /\ r = with_prefix config r0).
Proof.
  revert names n rs. induction rows as [|row rows IH]; intros names n rs H; simpl in H.
  { inv_result. split_and!; try by constructor. all: by intros ? ?%not_elem_of_nil. }
  destruct (validate_point deserialize config names (n + 9) row) as [r|e] eqn:Ep; [|done].
  destruct (record_bounds_error r _) eqn:Eb; [done|].
  destruct (validate_points deserialize false config _ (S n) rows) as [ws res] eqn:E. simpl in H. inv_result.
  destruct (IH ({[rec_kks r]} ∪ names) (S n) x) as (Hn & Hf & Hp & Hd); [by rewrite E|].
  apply validate_point_Ok in Ep as (Hnot & Ht & Ho & fs & r0 & -> & Hr0 & Hr).
  split_and!.
  - simpl. constructor; [|done]. intros (q & Hq & Hin)%list_elem_of_fmap.
    apply Hf in Hin. rewrite <- Hq in Hin. set_solver.
  - intros q [->|Hq]%elem_of_cons; [done|]. apply Hf in Hq. set_solver.
  - constructor; [by constructor|done].
  - intros q [->|Hq]%elem_of_cons; eauto.
Qed.

(** Where strict validation succeeds, the two modes do the same. *)
Lemma validate_points_modes config names n rows rs :
  (validate_points deserialize false config names n rows).2 = Ok rs <->
  validate_points deserialize true config names n rows = ([], Ok rs).
Proof.
  revert names n rs. induction rows as [|row rows IH]; intros names n rs; simpl; [naive_solver|].
  destruct (validate_point deserialize config names (n + 9) row) as [r|e]; [|naive_solver].
  destruct (record_bounds_error r _).
  { simpl. split; [done|]. by destruct (validate_points deserialize true config _ (S n) rows). }
  specialize (IH ({[rec_kks r]} ∪ names) (S n)).
  destruct (validate_points deserialize false config _ (S n) rows) as [ws res].
  destruct (validate_points deserialize true config _ (S n) rows) as [ws' res']. simpl in *.
  rewrite fmap_Ok. split.
  - intros (rs' & H%IH & <-). by injection H as -> ->.
  - intros [= -> H]. apply fmap_Ok in H as (rs' & -> & <-). exists rs'. naive_solver.
Qed.

Lemma validate_csv_content_Ok content config rs :
  validate_csv_content csv_rows deserialize content = Ok (config, rs) ->
  exists rows, validate_head (csv_rows (strip_bom content)) = Ok (config, rows) /\
    (validate_points deserialize false config ∅ 0 rows).2 = Ok rs.
Proof.
  unfold validate_csv_content, validate_csv_content_inner.
  destruct (validate_head _) as [[c rows]|e]; [|done].
  destruct (validate_points deserialize false c ∅ 0 rows) as [ws r] eqn:E. simpl. intros H.
  inv_result. injection H as -> ->. exists rows. by rewrite E.
Qed.

(** ** The start-up parser reads what strict validation accepts *)

Lemma read_headers_values index fs rows hs rest :
  read_headers index fs rows = Ok (hs, rest) ->
  read_header_values (length fs) rows = Ok (hs, rest) /\ length hs = length fs.
Proof.
  revert index rows hs. induction fs as [|f fs IH]; intros index rows hs H; simpl in H.
  { by simplify_eq. }
  destruct rows as [|row rows]; [done|]. simpl. destruct row as [row|e]; simpl in *; [|done].
  case_match; [done|]. inv_result. destruct x as [hs' rest']. inv_result.
  simplify_eq. destruct (IH _ _ _ ltac:(eassumption)) as [-> ?]. simpl. auto.
Qed.

Lemma parse_required_Ok {T} (p : string -> option T) hs i f x :
  map_err HeaderError (parse_required p hs i f) = Ok x -> parse_required p hs i f = Ok x.
Proof. destruct (parse_required p hs i f); [by intros [= ->]|done]. Qed.

Lemma eq_ignore_case_false s : eq_ignore_ascii_case s "false" = true -> parse_bool s <> Some true.
Proof.
  unfold eq_ignore_ascii_case, parse_bool. intros H. case_match eqn:E; [|by case_match].
  apply String.eqb_eq in E. by subst.
Qed.

Lemma special_same hs s b :
  hs !! 2%nat = Some s ->
  (if eq_ignore_ascii_case (trim s) "false" then Ok false
   else map_err HeaderError (parse_required parse_bool hs 2 "is_special")) = Ok b ->
  default false (s ← hs !! 2%nat; parse_bool (trim s)) = b.
Proof.
  intros Hs. rewrite Hs. simpl. case_match eqn:E; intros H; inv_result.
  - apply eq_ignore_case_false in E. destruct (parse_bool (trim s)) as [[]|]; done.
  - apply parse_required_Ok in H. unfold parse_required in H. inv_result.
    rewrite Hs in *. simpl in *. case_match; [done|]. simplify_eq. by rewrite H.
Qed.

Lemma validate_config_parse hs config :
  length hs = 7%nat -> validate_config hs = Ok config ->
  parse_config hs = Ok config /\ baud_rate config <> 0.
Proof.
  intros Hlen H. do 8 (destruct hs as [|? hs]; try done). clear Hlen.
  unfold validate_config, header in H. simpl in H.
  destruct (String.eqb (trim _) "" || _) eqn:Hcom; [done|]. apply orb_false_iff in Hcom as [Hcom _].
  case_match; [done|]. apply bind_Ok in H as (special & Hs & H).
  apply (special_same [s; s0; s1; s2; s3; s4; s5] s1 _ eq_refl) in Hs. inv_result. case_match; [done|].
  repeat match goal with H : map_err HeaderError (parse_required _ _ _ _) = Ok _ |- _ =>
    apply parse_required_Ok in H end.
  unfold parse_config.
  repeat match goal with H : parse_required _ _ _ _ = Ok _ |- _ => rewrite H; clear H end.
  simpl in *. rewrite Hcom. simpl. inv_result. split; [done|]. simpl. by apply Z.eqb_neq.
Qed.

Lemma validate_points_parse lenient config names n rows rs :
  (validate_points deserialize lenient config names n rows).2 = Ok rs ->
  parse_points deserialize config rows = Ok rs.
Proof.
  revert names n rs. induction rows as [|row rows IH]; intros names n rs H; simpl in H; [by inv_result|].
  destruct (validate_point deserialize config names (n + 9) row) as [r|e] eqn:Ep; [|done].
  destruct (validate_points deserialize lenient config _ (S n) rows) as [ws res] eqn:E.
  assert (Hr : exists rs', res = Ok rs' /\ rs = r :: rs').
  { destruct (record_bounds_error r _), lenient; simpl in H; inv_result; eauto. }
  destruct Hr as (rs' & -> & ->).
  apply validate_point_Ok in Ep as (_ & _ & _ & fs & r0 & -> & Hr & ->). simpl. rewrite Hr. simpl.
  by rewrite (IH ({[rec_kks (with_prefix config r0)]} ∪ names) (S n) rs') by (by rewrite E).
Qed.

Lemma parse_required_u8 hs i f v :
  map_err HeaderError (parse_required parse_u8 hs i f) = Ok v -> is_u8 v.
Proof.
  intros H%parse_required_Ok. unfold parse_required in H. inv_result. by eapply parse_uint_range.
Qed.

Lemma validate_head_data_len rows config rest :
  validate_head rows = Ok (config, rest) -> is_u8 (data_len config).
Proof.
  unfold validate_head. intros H. apply bind_Ok in H as ([hs rows'] & _ & H).
  apply bind_Ok in H as (c & Hc & H).
  assert (c = config) as ->.
  { destruct rows'; [done|]. inv_result. by case_match; simplify_eq. }
  unfold validate_config in Hc. do 2 (case_match; [done|]). inv_result.
  case_match; [done|]. inv_result. by eapply parse_required_u8.
Qed.

Lemma validate_head_parse rows config rest :
  validate_head rows = Ok (config, rest) ->
  exists hs row, read_header_values 7 rows = Ok (hs, row :: rest) /\ parse_config hs = Ok config.
Proof.
  unfold validate_head. intros H. apply bind_Ok in H as ([hs rows'] & Hh & H).
  apply bind_Ok in H as (c & Hc & H). apply read_headers_values in Hh as [Hh Hlen].
  apply validate_config_parse in Hc as [Hc _]; [|done].
  destruct rows' as [|row rows']; [done|]. inv_result. case_match; [done|]. simplify_eq. eauto.
Qed.

(** Strict validation and the lenient mode differ only in what they do
    with out-of-bounds points: strict validation accepts a text exactly when
    the lenient mode accepts it with no warning, and with the same result. *)
Theorem strict_is_lenient_without_warnings content x :
  validate_csv_content csv_rows deserialize content = Ok x <->
  validate_csv_content_with_point_warnings csv_rows deserialize content = ([], Ok x).
Proof.
  unfold validate_csv_content, validate_csv_content_with_point_warnings, validate_csv_content_inner.
  destruct (validate_head _) as [[c rows]|e]; [|naive_solver].
  pose proof (validate_points_modes c ∅ 0 rows) as Hm.
  destruct (validate_points deserialize false c ∅ 0 rows) as [ws r].
  destruct (validate_points deserialize true c ∅ 0 rows) as [ws' r']. simpl in *. rewrite fmap_Ok. split.
  - intros (rs & H%Hm & <-). by injection H as -> ->.
  - intros [= -> H]. apply fmap_Ok in H as (rs & -> & <-). exists rs. naive_solver.
Qed.

(** A text that strict validation accepts (without a byte-order mark) is
    read by the start-up parser to the same configuration and records, so
    what was checked before saving is what the server runs with. *)
Theorem validated_content_parses content config rs :
  strip_bom content = content ->
  validate_csv_content csv_rows deserialize content = Ok (config, rs) ->
  parse_csv csv_rows deserialize (Ok content) = Ok (config, rs).
Proof.
  intros Hbom (rows & Hh & Hp)%validate_csv_content_Ok. rewrite Hbom in Hh.
  apply validate_head_parse in Hh as (hs & row & Hr & Hc).
  unfold parse_csv. cbn [map_err mbind result_bind]. rewrite Hr. cbn [mbind result_bind].
  rewrite Hc. cbn [mbind result_bind tail].
  by rewrite (validate_points_parse _ _ _ _ _ _ Hp).
Qed.
End ReaderFacts.

(** ** A concrete table

    The [csv] crate's positional reading of a row, for the witnesses. *)
Definition deserialize_by_position (row : list string) : result string Record_ :=
  match row with
  | [kks; ty; f; bi; bits; d; mx; mn; lh] =>
      ok_or "invalid digit found in string"
        (bi ← parse_u32 bi; bits ← bit_index_from_str bits; d ← parse_u32 d; mx ← parse_u32 mx;
         mn ← parse_u32 mn; lh ← parse_u32 lh;
         Some {| rec_kks := kks; rec_type := ty; rec_f_type := f; rec_byte_index := bi;
                 rec_bit_index := bits; rec_def := d; rec_max := mx; rec_min := mn;
                 rec_byte_order := lh |})
  | _ => Err "invalid length"
  end.

Lemma deserialize_by_position_wf row r : deserialize_by_position row = Ok r -> record_wf r.
Proof.
  unfold deserialize_by_position. do 10 (destruct row as [|? row]; try done). intros H.
  apply ok_or_Ok in H. repeat (apply bind_Some in H as (? & ? & H)). simplify_eq.
  constructor; simpl; try by eapply parse_uint_range.
  match goal with H : bit_index_from_str _ = Some _ |- _ => revert H end.
  unfold bit_index_from_str. case_match.
  - case_match. intros Hb. repeat (apply bind_Some in Hb as (? & ? & Hb)). simplify_eq.
    split; by eapply parse_uint_range.
  - intros (? & ? & ->)%fmap_Some. by eapply parse_uint_range.
Qed.

Definition pad (a b : string) : Row := Ok [a; b; ""; ""; ""; ""; ""; ""; ""].
Definition demo_rows (_ : string) : list Row :=
  [pad "COM" "COM3"; pad "BaudRate" "9600"; pad "is_special" "FALSE"; pad "com_index" "1";
   pad "device_id" "25"; pad "data_len" "3"; pad "Pre" "U1_"; Ok expected_columns;
   Ok ["temp"; "uint"; ""; "2"; "4.19"; "0"; "0"; "0"; "0"];
   Ok ["run"; "bool"; ""; "1"; "3"; "0"; "0"; "0"; "1"]].
Definition demo_table_config : Config :=
  {| com := "COM3"; baud_rate := 9600; is_special := false; com_index := 1; device_id := 25;
     data_len := 3; kks_prefix := "U1_" |}.
Definition demo_point : Record_ :=
  {| rec_kks := "U1_temp"; rec_type := "uint"; rec_f_type := ""; rec_byte_index := 2;
     rec_bit_index := Range 4 19; rec_def := 0; rec_max := 0; rec_min := 0; rec_byte_order := 0 |}.
Definition demo_records : list Record_ :=
  [demo_point;
   {| rec_kks := "U1_run"; rec_type := "bool"; rec_f_type := ""; rec_byte_index := 1;
      rec_bit_index := Single 3; rec_def := 0; rec_max := 0; rec_min := 0; rec_byte_order := 1 |}].

Lemma validated_content_parses_witness :
  validate_csv_content demo_rows deserialize_by_position "" = Ok (demo_table_config, demo_records) /\
  parse_csv demo_rows deserialize_by_position (Ok "") = Ok (demo_table_config, demo_records).
Proof.
  split; [vm_compute; reflexivity|].
  apply (validated_content_parses demo_rows deserialize_by_position "" demo_table_config demo_records);
    vm_compute; reflexivity.
Defined.
