(* ===== verification/Protocol.v ===== *)
(** * The serial protocol's pure functions (src/src/protocol.rs)

    Checksums, response frames, station versions and the extraction of point
    values from status bytes. *)

From S2P Require Import Prelude RustFloat RustStr Model Csv.
Open Scope string_scope.
Open Scope Z_scope.
Open Scope list_scope.

(** ** Constants *)

Definition READ_STATUS : Z := 0x08.
Definition READ_SUBCMD : Z := 0x02.
Definition STATUS_PAGE : Z := 0x30.
Definition STATUS_OFFSET : Z := 0x10.
Definition VERSION_PAGE : Z := 0x50.
Definition VERSION_OFFSET : Z := 0x10.
Definition VERSION_LENGTH : Z := 0x04.

Definition DEVICE_TIMEOUT_SKIP : Z := 3.
Definition DEVICE_SKIP_ROUNDS : Z := 10.
Definition PORT_FAILOVER_TIMEOUT : Z := 20.
Definition PARSE_FAIL_FAILOVER : Z := 100.
Definition SAME_DATA_BROADCAST : Z := 10.

(** ** Frames *)

Record DataPacket := {
  dp_addr : Z;
  dp_cmd : Z;
  dp_len : Z;
  dp_status : list Z;
  dp_crc : Z
}.

Inductive StationVersionResponse :=
| RespDomestic (payload : list Z) (communication_module_version plc_version : Z)
| RespLegacyRussian (payload : list Z).

(** [data[..data.len() - 1]] and [data[data.len() - 1]]. *)
Definition verify_checksum (data : list Z) : bool :=
  match last data with
  | None => false
  | Some crc => foldl (fun acc x => u8_wrapping_add acc x) 0 (take (length data - 1) data) =? crc
  end.

Definition build_station_version_query (device_address : Z) : list Z :=
  let frame := [device_address; READ_STATUS; READ_SUBCMD; VERSION_PAGE; VERSION_OFFSET;
                VERSION_LENGTH; 0] in
  <[6%nat := foldl (fun sum byte => u8_wrapping_add sum byte) 0 (take 6 frame)]> frame.

Inductive VersionError := VersionLength | VersionHeader | VersionChecksum.

(** Indexing past the end cannot happen once the length is 9. *)
Definition parse_station_version_response (frame : list Z)
    : result VersionError StationVersionResponse :=
  if negb (Nat.eqb (length frame) 9) then Err VersionLength
  else if negb (bool_decide (take 3 frame = [0x00; 0x00; 0x04])) then Err VersionHeader
  else if negb (verify_checksum frame) then Err VersionChecksum
  else
    let payload := slice 4 8 frame in
    if bool_decide (payload = [0xFF; 0xFF; 0xFF; 0xFF]) then Ok (RespLegacyRussian payload)
    else Ok (RespDomestic payload (be_value (take 2 payload)) (be_value (drop 2 payload))).

Inductive PacketError := PacketTooShort | PacketLength | PacketChecksum.

(** [[Addr][CMD][Len][Status...][CRC]]. *)
Definition parse_data_packet (data : list Z) : result PacketError DataPacket :=
  match data with
  | addr :: cmd :: len :: rest =>
      if (length data <? 4)%nat then Err PacketTooShort
      else if negb (len + 2 =? Z.of_nat (length data - 3)) then Err PacketLength
      else if negb (verify_checksum data) then Err PacketChecksum
      else Ok {| dp_addr := addr; dp_cmd := cmd; dp_len := len;
                 dp_status := take (length rest - 1) rest; dp_crc := default 0 (last data) |}
  | _ => Err PacketTooShort
  end.

(** ** Point values *)

(** [(i, byte)] over [data.iter().enumerate().take(end_byte + 1).skip(start_byte)]. *)
Definition field_bytes (data : list Z) (start_byte end_byte : nat) : list (nat * Z) :=
  drop start_byte (take (S end_byte) (enumerate data)).

Definition u64_shl (a n : Z) : Z := Z.shiftl a n mod 2 ^ 64.

Definition combine_bytes (byte_order : Z) (start_byte : nat) (bs : list (nat * Z)) : Z :=
  foldl (fun combined '(i, byte) =>
           if byte_order =? 1 then Z.lor (u64_shl combined 8) byte
           else Z.lor combined (u64_shl byte (8 * Z.of_nat (i - start_byte)))) 0 bs.

(** The raw bits of a point; [None] is the source's [continue]. *)
Definition raw_value (data : list Z) (record : Record_) : option Z :=
  if rec_byte_index record =? 0 then None
  else
    let byte_index := Z.to_nat (rec_byte_index record - 1) in
    byte ← data !! byte_index;
    match rec_bit_index record with
    | Single bit => if 8 <=? bit then None else Some (Z.land (Z.shiftr byte bit) 1)
    | Range start_bit end_bit =>
        let total_bits := (Z.of_nat (length data) * 8) mod 2 ^ 32 in
        if (end_bit <? start_bit) || (total_bits <=? end_bit) then None
        else
          let start_byte := (byte_index + Z.to_nat (start_bit / 8))%nat in
          let end_byte := (byte_index + Z.to_nat (end_bit / 8))%nat in
          if (length data <=? end_byte)%nat then None
          else
            let num_bits := end_bit - start_bit + 1 in
            if 32 <? num_bits then None
            else
              let combined :=
                combine_bytes (rec_byte_order record) start_byte
                  (field_bytes data start_byte end_byte) in
              let bit_offset := start_bit mod 8 in
              let mask := if num_bits =? 32 then u32_max else u64_shl 1 num_bits - 1 in
              Some (Z.land (Z.shiftr combined bit_offset) mask mod 2 ^ 32)
    end.

Definition typed_point (type_ : string) (raw : Z) : option Value :=
  if String.eqb type_ "uint" then Some (VUInt raw)
  else if String.eqb type_ "bool" then Some (VBool (negb (raw =? 0)))
  else if String.eqb type_ "float" then Some (VFloat (f32_div (f32_of_Z raw) (f32_of_Z 100)))
  else None.

Definition record_value (data : list Z) (record : Record_) : option Value :=
  raw ← raw_value data record; typed_point (rec_type record) raw.

Definition parse_status (data : list Z) (records : list Record_) : gmap string Value :=
  foldl (fun results record =>
           match record_value data record with
           | Some value => <[rec_kks record := value]> results
           | None => results
           end) ∅ records.

(** ** Byte streams *)

(** [buffer.windows(2).position(|w| w == [0, 0])]. *)
Fixpoint find_double_zero (buffer : list Z) : option nat :=
  match buffer with
  | a :: (b :: _) as rest => if (a =? 0) && (b =? 0) then Some O else S <$> find_double_zero rest
  | _ => None
  end.

(** The value of a hexadecimal digit ([char::to_digit(16)]). *)
Definition hex_value (c : ascii) : option Z :=
  if is_ascii_digit c then Some (code c - 48)
  else if (65 <=? code c) && (code c <=? 70) then Some (code c - 55)
  else if (97 <=? code c) && (code c <=? 102) then Some (code c - 87)
  else None.

(** [u8::from_str_radix] on two characters: a plus sign is accepted before
    at least one digit. *)
Definition u8_from_hex2 (a b : ascii) : option Z :=
  if Ascii.eqb a "+" then hex_value b
  else x ← hex_value a; y ← hex_value b; Some (x * 16 + y).

Inductive HexError := NonAscii | OddLength | BadDigit.

Definition is_ascii (s : string) : bool := forallb (fun c => code c <? 128) (chars s).

Fixpoint hex_pairs (cs : list ascii) : result HexError (list Z) :=
  match cs with
  | a :: b :: cs => x ← ok_or BadDigit (u8_from_hex2 a b); xs ← hex_pairs cs; Ok (x :: xs)
  | _ => Ok []
  end.

Definition hex_str_to_bytes (hex_str : string) : result HexError (list Z) :=
  if negb (is_ascii hex_str) then Err NonAscii
  else if negb (Nat.eqb (String.length hex_str mod 2) 0) then Err OddLength
  else hex_pairs (chars hex_str).

Example hex_plus_accepted : hex_str_to_bytes "+F0a" = Ok [15; 10].
Proof. reflexivity. Qed.
Example version_query : build_station_version_query 0x19 = [0x19; 0x08; 0x02; 0x50; 0x10; 0x04; 0x87].
Proof. reflexivity. Qed.
Example status_big_endian :
  raw_value [0; 0x12; 0x34] {| rec_kks := "a"; rec_type := "uint"; rec_f_type := ""; rec_byte_index := 2;
    rec_bit_index := Range 0 15; rec_def := 0; rec_max := 0; rec_min := 0; rec_byte_order := 1 |}
  = Some 0x1234.
Proof. reflexivity. Qed.

(** ** Checksums and frames *)

Lemma verify_checksum_snoc l c : verify_checksum (l ++ [c]) = (sum_wrapping l =? c).
Proof.
  unfold verify_checksum. rewrite last_snoc, length_app. simpl length.
  replace (length l + 1 - 1)%nat with (length l) by lia. by rewrite take_app_length.
Qed.

Lemma list_snoc {A} (l : list A) : l <> [] -> exists l' x, l = l' ++ [x].
Proof. intros H. destruct (exists_last H) as (l' & x & ->). eauto. Qed.

(** The frame of a status. *)
Definition packet_body (addr cmd : Z) (status : list Z) : list Z :=
  addr :: cmd :: (Z.of_nat (length status) - 1) :: status.
Definition encode_packet (addr cmd : Z) (status : list Z) : list Z :=
  packet_body addr cmd status ++ [sum_wrapping (packet_body addr cmd status)].

Definition packet_of (addr cmd : Z) (status : list Z) : DataPacket :=
  {| dp_addr := addr; dp_cmd := cmd; dp_len := Z.of_nat (length status) - 1; dp_status := status;
     dp_crc := sum_wrapping (packet_body addr cmd status) |}.

Lemma parse_encode_packet addr cmd status :
  parse_data_packet (encode_packet addr cmd status) = Ok (packet_of addr cmd status).
Proof.
  unfold encode_packet.
  set (body := packet_body addr cmd status). set (c := sum_wrapping body).
  assert (Hv : verify_checksum (body ++ [c]) = true) by (rewrite verify_checksum_snoc; apply Z.eqb_refl).
  assert (Hlast : last (body ++ [c]) = Some c) by apply last_snoc.
  assert (Hlen : length (body ++ [c]) = (4 + length status)%nat).
  { rewrite length_app. unfold body, packet_body. simpl. lia. }
  unfold parse_data_packet. change (body ++ [c]) with (addr :: cmd :: (Z.of_nat (length status) - 1) :: (status ++ [c])) in *.
  cbn iota beta. rewrite Hv, Hlast, Hlen. rewrite length_app. simpl length.
  replace (length status + 1 - 1)%nat with (length status) by lia.
  rewrite take_app_length.
  assert (H1 : (4 + length status <? 4)%nat = false) by (apply Nat.ltb_ge; lia). rewrite H1.
  assert (H2 : (Z.of_nat (length status) - 1 + 2 =? Z.of_nat (4 + length status - 3)) = true)
    by (apply Z.eqb_eq; lia).
  by rewrite H2.
Qed.

Lemma parse_data_packet_inv data p :
  Forall is_u8 data -> parse_data_packet data = Ok p ->
  exists addr cmd status, status <> [] /\ data = encode_packet addr cmd status /\ p = packet_of addr cmd status.
Proof.
  intros Hu8. unfold parse_data_packet. destruct data as [|addr [|cmd [|len rest]]]; try done.
  destruct (_ <? 4)%nat eqn:H4; [done|]. apply Nat.ltb_ge in H4. simpl length in *.
  destruct (list_snoc rest) as (status & crc & ->); [by destruct rest; simpl in H4; [lia|]|].
  rewrite length_app in *. simpl length in *.
  destruct (len + 2 =? _) eqn:Hl; [|done]. apply Z.eqb_eq in Hl. simpl negb. cbn iota.
  change (addr :: cmd :: len :: status ++ [crc]) with ((addr :: cmd :: len :: status) ++ [crc]).
  rewrite verify_checksum_snoc, last_snoc. destruct (_ =? crc) eqn:Hc; [|done].
  apply Z.eqb_eq in Hc. simpl. intros [= <-].
  replace (length status + 1 - 1)%nat with (length status) by lia. rewrite take_app_length.
  assert (len = Z.of_nat (length status) - 1) as -> by lia.
  exists addr, cmd, status. split; [|split].
  - intros ->. do 3 (apply Forall_cons in Hu8 as [? Hu8]). unfold is_u8 in *. simpl in *. lia.
  - unfold encode_packet, packet_body. by rewrite Hc.
  - unfold packet_of, packet_body. by rewrite Hc.
Qed.

(** The response parser accepts exactly the frames of the protocol: on
    bytes, it succeeds if and only if the frame is address, command, length
    (the number of status bytes minus one), at least one status byte and the
    wrapping byte sum of all of these; it then returns those parts. *)
Theorem parse_data_packet_iff data p :
  Forall is_u8 data ->
  parse_data_packet data = Ok p <->
  exists addr cmd status,
    status <> [] /\ data = encode_packet addr cmd status /\ p = packet_of addr cmd status.
Proof.
  intros Hu8. split; [by apply parse_data_packet_inv|].
  intros (addr & cmd & status & _ & -> & ->). apply parse_encode_packet.
Qed.

Lemma parse_data_packet_iff_witness :
  let data := [0x00; 0x00; 0x01; 0x12; 0x34; 0x47] in
  Forall is_u8 data /\
  (parse_data_packet data = Ok (packet_of 0 0 [0x12; 0x34]) <->
   exists addr cmd status,
     status <> [] /\ data = encode_packet addr cmd status /\ packet_of 0 0 [0x12; 0x34] = packet_of addr cmd status).
Proof.
  intros data. assert (H : Forall is_u8 data) by (repeat constructor; by compute).
  split; [done|]. by apply (parse_data_packet_iff data).
Defined.

(** ** Station versions *)

(** What the four payload bytes mean. *)
Definition classify_version (a b c d : Z) : StationVersionResponse :=
  if bool_decide ([a; b; c; d] = [0xFF; 0xFF; 0xFF; 0xFF]) then RespLegacyRussian [a; b; c; d]
  else RespDomestic [a; b; c; d] (256 * a + b) (256 * c + d).

Definition version_frame (v a b c d : Z) : list Z :=
  let body := [0x00; 0x00; 0x04; v; a; b; c; d] in body ++ [sum_wrapping body].

(** A station version response is accepted exactly when it is the nine
    bytes [00 00 04 v a b c d] and their wrapping sum, for any [v]; it is
    reported as a legacy module exactly for the payload [FF FF FF FF], and
    otherwise as the two big-endian versions. *)
Theorem parse_station_version_response_iff frame resp :
  parse_station_version_response frame = Ok resp <->
  exists v a b c d, frame = version_frame v a b c d /\ resp = classify_version a b c d.
Proof.
  split.
  - unfold parse_station_version_response. destruct (Nat.eqb_spec (length frame) 9) as [Hlen|]; [|done].
    do 10 (destruct frame as [|? frame]; try done). clear Hlen. simpl negb. cbn iota.
    case_bool_decide as Hh; [|done]. simpl in Hh. injection Hh as -> -> ->. simpl negb. cbn iota.
    change [0; 0; 4; z2; z3; z4; z5; z6; z7] with ([0; 0; 4; z2; z3; z4; z5; z6] ++ [z7]).
    rewrite verify_checksum_snoc. destruct (_ =? z7) eqn:Hc; [|done]. apply Z.eqb_eq in Hc. subst z7.
    unfold version_frame, classify_version. simpl.
    case_bool_decide as H1; intros [= <-]; exists z2, z3, z4, z5, z6; (split; [done|]).
    + by rewrite bool_decide_true.
    + by rewrite bool_decide_false.
  - intros (v & a & b & c & d & -> & ->). unfold version_frame, parse_station_version_response.
    rewrite verify_checksum_snoc, Z.eqb_refl. simpl. unfold classify_version.
    repeat case_bool_decide; done.
Qed.

(** The query sent to a station carries a correct checksum. *)
Lemma version_query_checksum addr :
  verify_checksum (build_station_version_query addr) = true /\
  length (build_station_version_query addr) = 7%nat.
Proof.
  split; [|done]. unfold build_station_version_query. simpl.
  change (verify_checksum ([addr; READ_STATUS; READ_SUBCMD; VERSION_PAGE; VERSION_OFFSET; VERSION_LENGTH]
    ++ [sum_wrapping [addr; READ_STATUS; READ_SUBCMD; VERSION_PAGE; VERSION_OFFSET; VERSION_LENGTH]]) = true).
  rewrite verify_checksum_snoc. apply Z.eqb_refl.
Qed.

(** ** Bit fields *)

Lemma lor_shiftl_add a b n : 0 <= n -> 0 <= a < 2 ^ n -> Z.lor a (Z.shiftl b n) = a + b * 2 ^ n.
Proof.
  intros Hn Ha. rewrite <- Z.shiftl_mul_pow2 by done. symmetry. apply Z.add_nocarry_lor.
  apply Z.bits_inj'. intros i Hi. rewrite Z.land_spec, Z.bits_0, Z.shiftl_spec by done.
  destruct (Z.lt_ge_cases i n).
  - rewrite (Z.testbit_neg_r b) by lia. apply andb_false_r.
  - rewrite (proj1 (Z.bounded_iff_bits_nonneg' n a ltac:(lia) ltac:(lia))) by lia. done.
Qed.

Lemma pow256 k : 256 ^ Z.of_nat k = 2 ^ (8 * Z.of_nat k).
Proof. rewrite Z.pow_mul_r by lia. done. Qed.

(** The little-endian loop from position [j] of the field. *)
Lemma combine_little sb j bs acc :
  Forall is_u8 bs -> (j + length bs <= 8)%nat -> 0 <= acc < 256 ^ Z.of_nat j ->
  foldl (fun combined '(i, byte) => Z.lor combined (u64_shl byte (8 * Z.of_nat (i - sb)))) acc
    (zip (seq (sb + j) (length bs)) bs) = acc + 256 ^ Z.of_nat j * le_value bs.
Proof.
  intros Hbs. revert j acc. induction Hbs as [|b bs Hb _ IH]; intros j acc Hj Hacc; simpl; [lia|].
  replace (sb + j - sb)%nat with j by lia. simpl in Hj. unfold is_u8, u8_max in Hb.
  assert (Hpow : 256 ^ Z.of_nat (S j) = 256 * 256 ^ Z.of_nat j)
    by (rewrite Nat2Z.inj_succ, Z.pow_succ_r by lia; done).
  assert (Hle : 256 ^ Z.of_nat (S j) <= 2 ^ 64).
  { change (2 ^ 64) with (256 ^ 8). apply Z.pow_le_mono_r; lia. }
  unfold u64_shl. rewrite Z.mod_small.
  - rewrite lor_shiftl_add, <- pow256 by (rewrite <- ?pow256; lia).
    replace (S (sb + j)) with (sb + S j)%nat by lia. rewrite IH; [|lia|nia]. rewrite Hpow. ring.
  - rewrite Z.shiftl_mul_pow2, <- pow256 by lia. nia.
Qed.

Lemma be_value_acc_app acc l b : be_value_acc acc (l ++ [b]) = 256 * be_value_acc acc l + b.
Proof. revert acc. induction l; intros; simpl; auto. Qed.

Lemma be_value_range l : Forall is_u8 l -> 0 <= be_value l < 256 ^ Z.of_nat (length l).
Proof.
  unfold be_value. induction l as [|b l IH] using rev_ind; intros H; [done|].
  apply Forall_app in H as [Hl Hb]. rewrite be_value_acc_app, length_app. simpl length.
  rewrite Nat2Z.inj_add, Z.pow_add_r by lia. apply Forall_cons in Hb as [Hb _].
  specialize (IH Hl). unfold is_u8, u8_max in Hb. lia.
Qed.

(** The big-endian loop. *)
Lemma combine_big (bs : list Z) k :
  Forall is_u8 bs -> (length bs <= 8)%nat ->
  foldl (fun combined '(_, byte) => Z.lor (u64_shl combined 8) byte) 0 (zip (seq k (length bs)) bs)
  = be_value bs.
Proof.
  revert k. induction bs as [|b bs IH] using rev_ind; intros k H Hlen; [done|].
  rewrite length_app in *. simpl length in *. apply Forall_app in H as [Hl Hb].
  apply Forall_cons in Hb as [Hb _].
  rewrite seq_app, zip_with_app by (by rewrite length_seq). rewrite foldl_app, IH by (done || lia).
  simpl. unfold be_value. rewrite be_value_acc_app. fold (be_value bs).
  pose proof (be_value_range bs Hl) as Hr.
  assert (256 ^ Z.of_nat (length bs) <= 2 ^ 56).
  { change (2 ^ 56) with (256 ^ 7). apply Z.pow_le_mono_r; lia. }
  unfold u64_shl. rewrite Z.mod_small by (rewrite Z.shiftl_mul_pow2 by lia; lia).
  rewrite Z.lor_comm, lor_shiftl_add by (unfold is_u8, u8_max in Hb; lia). lia.
Qed.

Lemma field_bytes_zip data sb eb :
  (sb <= eb)%nat -> (eb < length data)%nat ->
  field_bytes data sb eb = zip (seq (sb + 0) (length (slice sb (S eb) data))) (slice sb (S eb) data).
Proof.
  intros H1 H2. unfold field_bytes, enumerate. rewrite length_slice by lia. unfold slice.
  rewrite Nat.add_0_r, zip_with_take, zip_with_drop, take_seq, drop_seq, skipn_firstn_comm.
  do 2 f_equal; lia.
Qed.

Lemma Forall_slice {A} (P : A -> Prop) a b l : Forall P l -> Forall P (slice a b l).
Proof. intros. by apply Forall_take, Forall_drop. Qed.

(** The integer a field's bytes stand for. *)
Definition field_value (byte_order : Z) (bs : list Z) : Z :=
  if byte_order =? 1 then be_value bs else le_value bs.

Lemma combine_field order data sb eb :
  Forall is_u8 data -> (sb <= eb)%nat -> (eb < length data)%nat -> (eb < sb + 8)%nat ->
  combine_bytes order sb (field_bytes data sb eb) = field_value order (slice sb (S eb) data).
Proof.
  intros Hd H1 H2 H3. rewrite field_bytes_zip by done. unfold combine_bytes, field_value.
  assert (length (slice sb (S eb) data) <= 8)%nat by (rewrite length_slice by lia; lia).
  pose proof (Forall_slice _ sb (S eb) _ Hd). destruct (order =? 1).
  - by apply combine_big.
  - rewrite (combine_little sb 0); [simpl; lia|done|lia|simpl; lia].
Qed.

Lemma land_mask x n :
  0 < n <= 32 -> Z.land x (if n =? 32 then u32_max else u64_shl 1 n - 1) mod 2 ^ 32 = x mod 2 ^ n.
Proof.
  intros Hn. assert (Hm : (if n =? 32 then u32_max else u64_shl 1 n - 1) = Z.ones n).
  { destruct (Z.eqb_spec n 32) as [->|]; [done|]. unfold u64_shl, Z.ones. rewrite Z.mod_small; [lia|].
    rewrite Z.shiftl_1_l. split; [lia|]. apply Z.pow_lt_mono_r; lia. }
  rewrite Hm, Z.land_ones by lia. apply Z.mod_small.
  pose proof (Z.mod_pos_bound x (2 ^ n) ltac:(lia)).
  pose proof (Z.pow_le_mono_r 2 n 32 ltac:(lia) ltac:(lia)). lia.
Qed.

(** The range of bytes of a validated bit range. *)
Lemma range_bytes s e : 0 <= s -> s <= e -> e - s + 1 <= 32 -> e / 8 <= s / 8 + 4.
Proof. intros. Z.to_euclidean_division_equations. lia. Qed.

Definition status_len_ok (data : list Z) : Prop := Z.of_nat (length data) * 8 < 2 ^ 32.

(** A point inside the status is read as the bits of its field. *)
Lemma raw_value_range data r s e :
  Forall is_u8 data -> status_len_ok data -> record_wf r ->
  rec_bit_index r = Range s e -> record_bounds_error r (Z.of_nat (length data)) = None ->
  let bi := Z.to_nat (rec_byte_index r - 1) in
  let sb := (bi + Z.to_nat (s / 8))%nat in
  let eb := (bi + Z.to_nat (e / 8))%nat in
  (sb <= eb < length data)%nat /\ s <= e /\ e - s + 1 <= 32 /\
  raw_value data r
  = Some ((field_value (rec_byte_order r) (slice sb (S eb) data) / 2 ^ (s mod 8)) mod 2 ^ (e - s + 1)).
Proof.
  intros Hd Hlen [Hbi _ Hbits] Hr. unfold record_bounds_error, raw_value. rewrite Hr in *.
  destruct Hbits as [Hs He]. unfold is_u32, status_len_ok in *.
  destruct (rec_byte_index r =? 0) eqn:E0; [done|]. apply Z.eqb_neq in E0.
  destruct (_ <=? rec_byte_index r - 1) eqn:E1; [done|]. apply Z.leb_gt in E1.
  destruct (e <? s) eqn:E2; [done|]. apply Z.ltb_ge in E2.
  destruct (32 <? e - s + 1) eqn:E3; [done|]. apply Z.ltb_ge in E3.
  destruct (_ <=? _ + e / 8) eqn:E4; [done|]. apply Z.leb_gt in E4. intros _.
  set (bi := Z.to_nat (rec_byte_index r - 1)) in *. set (sb := (bi + Z.to_nat (s / 8))%nat).
  set (eb := (bi + Z.to_nat (e / 8))%nat).
  pose proof (range_bytes s e ltac:(lia) E2 E3) as Hrange.
  pose proof (Z.div_le_mono s e 8 ltac:(lia) E2).
  pose proof (Z.div_pos s 8 ltac:(lia) ltac:(lia)).
  assert (Hse : (sb <= eb < length data)%nat) by lia. split_and!; try lia.
  destruct (lookup_lt_is_Some_2 data bi ltac:(lia)) as [b Hb]. rewrite Hb. simpl mbind.
  rewrite (Z.mod_small _ (2 ^ 32)) by lia. 
  replace (Z.of_nat (length data) * 8 <=? e) with false.
  - destruct (Nat.leb_spec (length data) eb); [lia|]. simpl.
    rewrite combine_field by (done || lia). rewrite land_mask by lia.
    by rewrite Z.shiftr_div_pow2 by (apply Z.mod_pos_bound; lia).
  - symmetry. apply Z.leb_gt. clear - E4 E1 E0 Hbi Hs. Z.to_euclidean_division_equations. lia.
Qed.

Lemma le_value_app l k : le_value (l ++ k) = le_value l + 256 ^ Z.of_nat (length l) * le_value k.
Proof.
  induction l as [|b l IH]; [simpl length; simpl; lia|]. simpl app. cbn [le_value length].
  rewrite IH, Nat2Z.inj_succ, Z.pow_succ_r by lia. ring.
Qed.

(** Dropping low bytes and cutting high ones does not change the bits in
    between. *)
Lemma bits_between lo mid hi a m s n :
  0 <= lo < 2 ^ a -> 0 <= a -> 0 <= s -> 0 <= n -> s + n <= m ->
  ((lo + 2 ^ a * (mid + 2 ^ m * hi)) / 2 ^ (a + s)) mod 2 ^ n = (mid / 2 ^ s) mod 2 ^ n.
Proof.
  intros Hlo Ha Hs Hn Hm. rewrite Z.pow_add_r, <- Z.div_div by lia.
  rewrite (Z.mul_comm (2 ^ a)), Z.div_add, (Z.div_small lo), Z.add_0_l by lia.
  replace (2 ^ m) with (2 ^ (m - n - s) * 2 ^ n * 2 ^ s)
    by (rewrite <- !Z.pow_add_r by lia; f_equal; lia).
  replace (mid + 2 ^ (m - n - s) * 2 ^ n * 2 ^ s * hi)
    with (mid + (2 ^ (m - n - s) * hi) * 2 ^ n * 2 ^ s) by ring.
  rewrite Z.div_add by lia. by rewrite Z.mod_add by lia.
Qed.

Lemma slice_split {A} (l : list A) b a m :
  (b + a + m <= length l)%nat ->
  drop b l = slice b (b + a) l ++ slice (b + a) (b + a + m) l ++ drop (b + a + m) l.
Proof.
  intros H. unfold slice. replace (b + a - b)%nat with a by lia.
  replace (b + a + m - (b + a))%nat with m by lia.
  rewrite <- (take_drop a (drop b l)) at 1. f_equal. rewrite drop_drop.
  rewrite <- (take_drop m (drop (b + a) l)) at 1. by rewrite drop_drop.
Qed.

(** A little-endian point inside the status is the bit field
    [start..=end] of the little-endian integer that starts at its byte: the
    extraction over the bytes it spans loses and adds no bit. *)
Theorem little_endian_bit_field data r s e :
  Forall is_u8 data -> status_len_ok data -> record_wf r ->
  rec_bit_index r = Range s e -> rec_byte_order r <> 1 ->
  record_bounds_error r (Z.of_nat (length data)) = None ->
  raw_value data r
  = Some ((le_value (drop (Z.to_nat (rec_byte_index r - 1)) data) / 2 ^ s) mod 2 ^ (e - s + 1)).
Proof.
  intros Hd Hlen Hwf Hr Ho Hb.
  destruct (raw_value_range data r s e Hd Hlen Hwf Hr Hb) as (Hse & Hs & He & ->).
  destruct Hwf as [_ _ Hwf]. rewrite Hr in Hwf. destruct Hwf as [Hs0 He0]. unfold is_u32 in *.
  set (bi := Z.to_nat (rec_byte_index r - 1)) in *. set (a := Z.to_nat (s / 8)) in *.
  set (eb := (bi + Z.to_nat (e / 8))%nat) in *. set (m := (S eb - (bi + a))%nat).
  rewrite (slice_split data bi a m) by lia. rewrite !le_value_app.
  unfold field_value. rewrite (proj2 (Z.eqb_neq _ _) Ho).
  replace (bi + a + m)%nat with (S eb) by lia. rewrite !length_slice by lia.
  rewrite !pow256. replace (2 ^ s) with (2 ^ (8 * Z.of_nat (bi + a - bi) + s mod 8)).
  - assert (Hm : Z.of_nat (S eb - (bi + a)) = e / 8 - s / 8 + 1).
    { pose proof (Z.div_pos s 8). pose proof (Z.div_le_mono s e 8). lia. }
    rewrite Hm. pose proof (Z.mod_pos_bound s 8 ltac:(lia)).
    rewrite bits_between; [done| |lia|lia|lia|].
    + pose proof (le_value_range (slice bi (bi + a) data) (Forall_slice _ _ _ _ Hd)) as Hv.
      rewrite length_slice in Hv by lia. by rewrite <- pow256.
    + clear. Z.to_euclidean_division_equations. lia.
  - f_equal. replace (bi + a - bi)%nat with a by lia. unfold a. 
    pose proof (Z.div_mod s 8 ltac:(lia)). pose proof (Z.div_pos s 8 ltac:(lia) ltac:(lia)). lia.
Qed.

(** The value of a point inside the status exists. *)
Lemma record_value_Some data r :
  Forall is_u8 data -> status_len_ok data -> record_wf r ->
  point_ok (Z.of_nat (length data)) r -> is_Some (record_value data r).
Proof.
  intros Hd Hlen Hwf [Ht _ Hb]. unfold record_value.
  assert (Hraw : is_Some (raw_value data r)).
  { destruct (rec_bit_index r) as [bit|s e] eqn:Er.
    - unfold record_bounds_error in Hb. unfold raw_value. rewrite Er in *.
      destruct (_ =? 0) eqn:E0; [done|]. destruct (_ <=? _) eqn:E1; [done|].
      apply Z.eqb_neq in E0. apply Z.leb_gt in E1. destruct Hwf as [Hbi _ _]. unfold is_u32 in Hbi.
      destruct (lookup_lt_is_Some_2 data (Z.to_nat (rec_byte_index r - 1)) ltac:(lia)) as [b ->].
      simpl. destruct (8 <=? bit); [done|]. eauto.
    - destruct (raw_value_range data r s e) as (_ & _ & _ & ->); eauto. }
  destruct Hraw as [raw ->]. simpl. unfold known_type in Ht. unfold typed_point.
  destruct (String.eqb _ "uint"); [eauto|]. destruct (String.eqb _ "bool"); [eauto|].
  destruct (String.eqb _ "float"); [eauto|done].
Qed.

(** The number of the last byte a point needs, from 1. *)
Definition last_byte (r : Record_) : Z :=
  match rec_bit_index r with Single _ => rec_byte_index r | Range _ e => rec_byte_index r + e / 8 end.

(** A point that fits some status fits exactly those that have its last byte. *)
Lemma bounds_last_byte r len len' :
  record_wf r -> record_bounds_error r len = None -> record_bounds_error r len' = None <-> last_byte r <= len'.
Proof.
  intros [Hbi _ Hbits]. unfold record_bounds_error, last_byte, is_u32 in *.
  destruct (_ =? 0); [done|]. destruct (Z.leb_spec len (rec_byte_index r - 1)); [done|].
  destruct (rec_bit_index r) as [bit|s e].
  - destruct (8 <=? bit); [done|]. intros _. destruct (Z.leb_spec len' (rec_byte_index r - 1)); split; (done || lia).
  - destruct (e <? s); [done|]. cbv zeta. destruct (32 <? _); [done|]. intros _.
    pose proof (Z.div_pos e 8 ltac:(lia) ltac:(lia)).
    destruct (Z.leb_spec len' (rec_byte_index r - 1)); [split; (done || lia)|].
    destruct (Z.leb_spec len' (rec_byte_index r - 1 + e / 8)); split; (done || lia).
Qed.

(** A value is read only from a status that has the last byte. *)
Lemma record_value_last_byte data r :
  record_wf r -> is_Some (record_value data r) -> last_byte r <= Z.of_nat (length data).
Proof.
  intros [Hbi _ Hbits] [v Hv]. unfold record_value, raw_value, last_byte, is_u32 in *.
  destruct (Z.eqb_spec (rec_byte_index r) 0); [done|].
  destruct (data !! Z.to_nat (rec_byte_index r - 1)) as [b|] eqn:Hb; [|done]. apply lookup_lt_Some in Hb. simpl in Hv.
  destruct (rec_bit_index r) as [bit|s e]; [lia|]. destruct (_ || _); [done|].
  destruct (Nat.leb_spec (length data) (Z.to_nat (rec_byte_index r - 1) + Z.to_nat (e / 8))); [done|].
  pose proof (Z.div_pos e 8 ltac:(lia) ltac:(lia)). lia.
Qed.

Lemma record_value_fits data r len :
  Forall is_u8 data -> status_len_ok data -> record_wf r -> point_ok len r ->
  is_Some (record_value data r) <-> last_byte r <= Z.of_nat (length data).
Proof.
  intros Hd Hlen Hwf [Ht Ho Hb]. split; [by apply record_value_last_byte|]. intros Hl.
  apply record_value_Some; [done..|]. split; [done..|]. by eapply bounds_last_byte.
Qed.

Lemma parse_status_lookup data records k :
  NoDup (rec_kks <$> records) ->
  parse_status data records !! k
  = (r ← List.find (fun r => String.eqb (rec_kks r) k) records; record_value data r).
Proof.
  intros Hnd. unfold parse_status.
  enough (H : forall (m : gmap string Value), (forall r, r ∈ records -> m !! rec_kks r = None) ->
    foldl (fun results record => match record_value data record with
             | Some value => <[rec_kks record := value]> results | None => results end) m records !! k
    = match List.find (fun r => String.eqb (rec_kks r) k) records with
      | Some r => record_value data r | None => m !! k end).
  { rewrite H by (intros; apply lookup_empty). by destruct (List.find _ _). }
  induction records as [|r rs IH]; intros m Hm; simpl; [done|].
  inversion_clear Hnd as [|? ? Hr Hnd'].
  assert (Hlook : forall v q, q ∈ rs -> (<[rec_kks r := v]> m) !! rec_kks q = None).
  { intros v q Hq. rewrite lookup_insert_ne; [apply Hm; by constructor|].
    intros Heq. apply Hr. rewrite Heq. by apply list_elem_of_fmap_2. }
  destruct (String.eqb_spec (rec_kks r) k) as [<-|Hk].
  - assert (Hf : List.find (fun q => String.eqb (rec_kks q) (rec_kks r)) rs = None).
    { destruct (List.find _ rs) as [q|] eqn:Ef; [|done].
      apply find_some in Ef as [Hq Heq%String.eqb_eq]. destruct Hr. rewrite <- Heq.
      by apply list_elem_of_fmap_2, list_elem_of_In. }
    destruct (record_value data r) as [v|]; rewrite IH, Hf; auto.
    + by rewrite lookup_insert_eq.
    + apply Hm. constructor.
    + intros. apply Hm. by constructor.
  - destruct (record_value data r) as [v|]; rewrite IH; auto.
    + destruct (List.find _ rs); [done|]. by rewrite lookup_insert_ne.
    + intros. apply Hm. by constructor.
Qed.

(** ** Validated tables *)

Section Validated.
Context (csv_rows : string -> list (result string (list string))).
Context (deserialize : list string -> result string Record_).
(** The numeric columns of a row are read as [u32]. *)
Hypothesis deserialize_u32 : forall row r, deserialize row = Ok r -> record_wf r.

Lemma validated_points content config rs :
  validate_csv_content csv_rows deserialize content = Ok (config, rs) ->
  NoDup (rec_kks <$> rs) /\ Forall (point_ok (data_len config + 1)) rs /\ Forall record_wf rs /\
  is_u8 (data_len config).
Proof.
  intros (rows & Hh & H)%validate_csv_content_Ok. apply validate_head_data_len in Hh.
  apply validate_points_Ok in H as (Hn & _ & Hp & Hd). split_and!; try apply Hh; try done.
  apply Forall_forall. intros r Hr. destruct (Hd r Hr) as (fs & r0 & H0 & ->).
  apply deserialize_u32 in H0 as [? ? ?]. by constructor.
Qed.

(** C36: A table that passes strict validation is read exactly, whichever of
    the two meanings [data_len] has. From a status of any number of bytes (a
    frame holds at most 256), [parse_status] gives exactly the configured
    names whose last byte is in the status, each with the value its own record
    describes. No point of the table needs more than [data_len + 1] bytes, so
    a status of that length ([data_len] is the length of the frame) loses no
    point; a status of [data_len] bytes ([data_len] counts the status) loses
    exactly the points that reach the byte after it. *)
Theorem validated_table_reads_every_point content config rs data :
  validate_csv_content csv_rows deserialize content = Ok (config, rs) ->
  Forall is_u8 data -> Z.of_nat (length data) <= 256 ->
  dom (parse_status data rs) = list_to_set (rec_kks <$> filter (fun r => last_byte r <= Z.of_nat (length data)) rs) /\
  (forall r, r ∈ rs -> last_byte r <= data_len config + 1 /\ parse_status data rs !! rec_kks r = record_value data r) /\
  (Z.of_nat (length data) = data_len config + 1 -> dom (parse_status data rs) = list_to_set (rec_kks <$> rs)) /\
  (Z.of_nat (length data) = data_len config -> forall r, r ∈ rs ->
     parse_status data rs !! rec_kks r = None <-> last_byte r = data_len config + 1).
Proof.
  intros (Hn & Hp & Hw & Hmax)%validated_points Hd Hlen.
  assert (Hok : status_len_ok data) by (unfold status_len_ok; lia).
  rewrite Forall_forall in Hp, Hw.
  assert (Hin : forall r, r ∈ rs -> parse_status data rs !! rec_kks r = record_value data r).
  { intros r Hr. rewrite parse_status_lookup by done.
    destruct (List.find _ rs) as [q|] eqn:Ef.
    - apply find_some in Ef as [Hq%list_elem_of_In Heq%String.eqb_eq]. simpl.
      by rewrite (NoDup_fmap_eq _ rs q r Hn Hq Hr Heq).
    - apply find_none with (x := r) in Ef; [|by apply list_elem_of_In].
      by rewrite String.eqb_refl in Ef. }
  assert (Hfit : forall r, r ∈ rs -> is_Some (record_value data r) <-> last_byte r <= Z.of_nat (length data)).
  { intros r Hr. eapply record_value_fits; eauto. }
  assert (Hall : forall r, r ∈ rs -> last_byte r <= data_len config + 1).
  { intros r Hr. apply (bounds_last_byte r (data_len config + 1)); [by apply Hw| |]; by apply Hp. }
  assert (Hdom : dom (parse_status data rs)
    = list_to_set (rec_kks <$> filter (fun r => last_byte r <= Z.of_nat (length data)) rs)).
  { apply set_eq. intros k. rewrite elem_of_dom, elem_of_list_to_set, list_elem_of_fmap.
    setoid_rewrite list_elem_of_filter. split.
    - rewrite parse_status_lookup by done. intros [v Hv]. destruct (List.find _ rs) as [q|] eqn:Ef; [|done].
      apply find_some in Ef as [Hq%list_elem_of_In Heq%String.eqb_eq]. simpl in Hv.
      exists q. split_and!; [done|apply Hfit; eauto|done].
    - intros (r & -> & Hl & Hr). rewrite Hin by done. by apply Hfit. }
  split_and!; [done|auto| |].
  - intros Hl. rewrite Hdom. apply set_eq. intros k. rewrite !elem_of_list_to_set, !list_elem_of_fmap.
    setoid_rewrite list_elem_of_filter. rewrite Hl. naive_solver.
  - intros Hl r Hr. rewrite Hin, eq_None_not_Some, Hfit by done. pose proof (Hall r Hr). lia.
Qed.
End Validated.

(** ** Hexadecimal text *)

Lemma hex_digit_spec n :
  0 <= n < 16 -> hex_value (hex_digit n) = Some n /\ Ascii.eqb (hex_digit n) "+" = false /\
                 (code (hex_digit n) <? 128) = true.
Proof.
  intros H. assert (Hn : n ∈ [0; 1; 2; 3; 4; 5; 6; 7; 8; 9; 10; 11; 12; 13; 14; 15])
    by (rewrite !elem_of_cons; lia).
  revert Hn. generalize n. apply Forall_forall. repeat constructor.
Qed.

Lemma byte_digits b : is_u8 b -> 0 <= b / 16 < 16 /\ 0 <= b mod 16 < 16 /\ b / 16 * 16 + b mod 16 = b.
Proof. unfold is_u8, u8_max. intros. Z.to_euclidean_division_equations. lia. Qed.

Lemma hex_cons b bs :
  hex (b :: bs) = String (hex_digit (b / 16)) (String (hex_digit (b mod 16)) (hex bs)).
Proof. done. Qed.

Lemma hex_pairs_hex bs : Forall is_u8 bs -> hex_pairs (chars (hex bs)) = Ok bs.
Proof.
  induction 1 as [|b bs Hb _ IH]; [done|]. apply byte_digits in Hb as (H1 & H2 & H3).
  destruct (hex_digit_spec _ H1) as (E1 & P1 & _). destruct (hex_digit_spec _ H2) as (E2 & _ & _).
  rewrite hex_cons. cbn [list_ascii_of_string hex_pairs]. unfold u8_from_hex2.
  rewrite P1, E1, E2, IH. simpl. by rewrite H3.
Qed.

Lemma hex_ascii bs :
  Forall is_u8 bs -> is_ascii (hex bs) = true /\ (String.length (hex bs) mod 2 = 0)%nat.
Proof.
  unfold is_ascii. induction 1 as [|b bs Hb _ [IH1 IH2]]; [done|].
  apply byte_digits in Hb as (H1 & H2 & _).
  destruct (hex_digit_spec _ H1) as (_ & _ & P1). destruct (hex_digit_spec _ H2) as (_ & _ & P2).
  rewrite hex_cons. cbn [list_ascii_of_string forallb String.length]. rewrite P1, P2, IH1.
  split; [done|]. replace (S (S (String.length (hex bs)))) with (String.length (hex bs) + 1 * 2)%nat by lia.
  by rewrite Nat.Div0.mod_add.
Qed.

(** The command text shown to an operator reads back as the command:
    [hex_str_to_bytes] inverts [SendData::command_as_string] on every byte
    sequence. *)
Theorem command_hex_round_trip d :
  Forall is_u8 (sd_command d) -> hex_str_to_bytes (command_as_string d) = Ok (sd_command d).
Proof.
  intros H. unfold hex_str_to_bytes, command_as_string.
  destruct (hex_ascii _ H) as [-> ->]. simpl. by apply hex_pairs_hex.
Qed.

Lemma command_hex_round_trip_witness :
  hex_str_to_bytes "0A1BFF" = Ok [0x0A; 0x1B; 0xFF].
Proof.
  apply (command_hex_round_trip {| sd_device_id := 1; sd_command := [0x0A; 0x1B; 0xFF] |}).
  repeat constructor; by compute.
Defined.

(** [find_double_zero] is the first position of two zero bytes. *)
Lemma find_double_zero_Some buffer i :
  find_double_zero buffer = Some i ->
  buffer !! i = Some 0 /\ buffer !! S i = Some 0 /\
  forall j, (j < i)%nat -> ~ (buffer !! j = Some 0 /\ buffer !! S j = Some 0).
Proof.
  revert i. induction buffer as [|a [|b rest] IH]; intros i H; simpl in H; try done.
  destruct ((a =? 0) && (b =? 0)) eqn:E.
  - apply andb_true_iff in E as [->%Z.eqb_eq ->%Z.eqb_eq]. injection H as <-.
    split_and!; try done. lia.
  - apply fmap_Some in H as (k & Hk & ->). destruct (IH k Hk) as (H1 & H2 & H3).
    split_and!; try done. intros [|j] Hj; [|by apply H3; lia].
    intros [[= ->] [= ->]]. done.
Qed.

Lemma little_endian_bit_field_witness :
  raw_value [0x08; 0x50; 0x34; 0x02] demo_point
  = Some ((le_value (drop 1 [0x08; 0x50; 0x34; 0x02]) / 2 ^ 4) mod 2 ^ 16).
Proof.
  refine (little_endian_bit_field [0x08; 0x50; 0x34; 0x02] demo_point 4 19 _ _ _ eq_refl _ eq_refl).
  - repeat constructor; by compute.
  - reflexivity.
  - repeat constructor; by compute.
  - done.
Defined.

(** The same table on its two lengths: [data_len] is 3, and the four bytes
    give both points; three of them lose the one that reaches byte 4. *)
Lemma validated_table_reads_every_point_witness :
  dom (parse_status [0x08; 0x50; 0x34; 0x02] demo_records) = list_to_set (rec_kks <$> demo_records) /\
  (forall r, r ∈ demo_records ->
     parse_status [0x08; 0x50; 0x34] demo_records !! rec_kks r = None <-> last_byte r = 4).
Proof.
  pose proof (validated_table_reads_every_point demo_rows deserialize_by_position
                deserialize_by_position_wf "" demo_table_config demo_records) as H.
  split.
  - destruct (H [0x08; 0x50; 0x34; 0x02]) as (_ & _ & H4 & _);
      [vm_compute; reflexivity|repeat constructor; by compute|simpl; lia|]. by apply H4.
  - destruct (H [0x08; 0x50; 0x34]) as (_ & _ & _ & H3);
      [vm_compute; reflexivity|repeat constructor; by compute|simpl; lia|]. by apply H3.
Defined.
