(* ===== verification/Frame.v ===== *)
(** * The communicate wire envelope (src/communicate/src/frame.rs)

    Three little-endian [u16] lengths, the stored payload and a CRC-32.  The
    [flate2] and [crc32fast] crates are parameters: [zlib_compress] is the
    level-2 encoder run to its end, [zlib_decompress input capacity] one call
    of the inflater with [Finish] (whether it reached the end of the stream,
    the input it consumed and the bytes it wrote), [crc32] the checksum. *)

From S2P Require Import Prelude.
Open Scope Z_scope.
Open Scope list_scope.

Record Limits := { limit_frame : nat; limit_payload : nat }.

Inductive FrameError :=
| FrLength
| FrChecksum
| FrCompression (e : String.string)
| FrDecompression (e : String.string)
| FrPayloadLength
| FrBufferLimit.

Record Inflated := { stream_end : bool; total_in : nat; inflated : list Z }.

Record FeedResult := {
  payloads : list (list Z);
  rejected_frames : Z;
  discarded_bytes : Z
}.

Definition no_result : FeedResult := {| payloads := []; rejected_frames := 0; discarded_bytes := 0 |}.

Definition add_payload (r : FeedResult) (p : list Z) : FeedResult :=
  {| payloads := payloads r ++ [p]; rejected_frames := rejected_frames r;
     discarded_bytes := discarded_bytes r |}.
Definition add_rejected (r : FeedResult) : FeedResult :=
  {| payloads := payloads r; rejected_frames := rejected_frames r + 1;
     discarded_bytes := discarded_bytes r |}.
Definition add_discarded (r : FeedResult) (n : nat) : FeedResult :=
  {| payloads := payloads r; rejected_frames := rejected_frames r;
     discarded_bytes := discarded_bytes r + Z.of_nat n |}.

Record FrameDecoder := { fd_limits : Limits; fd_buffer : list Z }.

Definition limits_valid (limits : Limits) : bool :=
  (10 <=? limit_frame limits)%nat && (Z.of_nat (limit_frame limits) <=? u16_max)
  && (1 <=? limit_payload limits)%nat && (Z.of_nat (limit_payload limits) <=? u16_max).

Definition validate (limits : Limits) : result FrameError () :=
  if limits_valid limits then Ok () else Err FrLength.

(** [u16::from_le_bytes([bytes[offset], bytes[offset + 1]])]; every caller has
    checked that the bytes are there. *)
Definition u16_at (bytes : list Z) (offset : nat) : nat :=
  Z.to_nat (le_value (slice offset (offset + 2) bytes)).

Definition valid_header (bytes : list Z) (limits : Limits) : bool :=
  let total := u16_at bytes 0 in
  let plain := u16_at bytes 2 in
  let compressed := u16_at bytes 4 in
  (10 <=? total)%nat && (total <=? limit_frame limits)%nat
  && (plain <=? limit_payload limits)%nat && (compressed + 10 =? total)%nat.

Section Envelope.
Context (zlib_compress : list Z -> result String.string (list Z)).
Context (zlib_decompress : list Z -> nat -> result String.string Inflated).
Context (crc32 : list Z -> Z).

(** The bytes stored for a payload: compressed only when that is shorter. *)
Definition stored (payload compressed : list Z) : list Z :=
  if (length payload <=? length compressed)%nat then payload else compressed.

Definition encode (payload : list Z) (limits : Limits) : result FrameError (list Z) :=
  _ ← validate limits;
  if (limit_payload limits <? length payload)%nat then Err FrLength
  else
    compressed ← map_err FrCompression (zlib_compress payload);
    let compressed := stored payload compressed in
    let total := (length compressed + 10)%nat in
    if (limit_frame limits <? total)%nat then Err FrLength
    else
      let frame := to_le_bytes 2 (Z.of_nat total) ++ to_le_bytes 2 (Z.of_nat (length payload))
                   ++ to_le_bytes 2 (Z.of_nat (length compressed)) ++ compressed in
      Ok (frame ++ to_le_bytes 4 (crc32 frame)).

Definition decode (frame : list Z) (limits : Limits) : result FrameError (list Z) :=
  _ ← validate limits;
  if (length frame <? 10)%nat || negb (valid_header frame limits)
     || negb (u16_at frame 0 =? length frame)%nat
  then Err FrLength
  else
    let end_ := (length frame - 4)%nat in
    let expected := le_value (drop end_ frame) in
    if negb (crc32 (take end_ frame) =? expected) then Err FrChecksum
    else
      let declared := u16_at frame 2 in
      if (declared =? end_ - 6)%nat then Ok (slice 6 end_ frame)
      else
        out ← map_err FrDecompression (zlib_decompress (slice 6 end_ frame) (declared + 1)%nat);
        if negb (stream_end out) || negb (length (inflated out) =? declared)%nat
           || negb (total_in out =? end_ - 6)%nat
        then Err FrPayloadLength
        else Ok (take declared (inflated out)).

(** ** The stream decoder *)

Definition decoder_new (limits : Limits) : result FrameError FrameDecoder :=
  _ ← validate limits; Ok {| fd_limits := limits; fd_buffer := [] |}.

Definition reset (d : FrameDecoder) : FrameDecoder :=
  {| fd_limits := fd_limits d; fd_buffer := [] |}.

Definition has_partial_frame (d : FrameDecoder) : bool :=
  match fd_buffer d with [] => false | _ => true end.

(** The loop of [feed]: [tail] is [buffer[start..]].  The fuel counts the
    iterations; each one advances [start], so the length of the buffer is
    enough ([feed_loop_fuel]). *)
Fixpoint feed_loop (fuel : nat) (limits : Limits) (tail : list Z) (r : FeedResult)
    : option (FeedResult * list Z) :=
  if (length tail <? 6)%nat then Some (r, tail)
  else
    match fuel with
    | O => None
    | S fuel =>
        if negb (valid_header tail limits)
        then feed_loop fuel limits (drop 1 tail) (add_discarded r 1)
        else
          let total := u16_at tail 0 in
          if (length tail <? total)%nat then Some (r, tail)
          else
            match decode (take total tail) limits with
            | Ok payload => feed_loop fuel limits (drop total tail) (add_payload r payload)
            | Err _ =>
                feed_loop fuel limits (drop 1 tail) (add_discarded (add_rejected r) 1)
            end
    end.

(** [None] is exhausted fuel. *)
Definition feed (d : FrameDecoder) (chunk : list Z)
    : option (FrameDecoder * result FrameError FeedResult) :=
  if (limit_frame (fd_limits d) <? length chunk)%nat
     || (limit_frame (fd_limits d) * 2 <? length (fd_buffer d) + length chunk)%nat
  then Some (reset d, Err FrBufferLimit)
  else
    let buffer := fd_buffer d ++ chunk in
    '(r, rest) ← feed_loop (length buffer) (fd_limits d) buffer no_result;
    Some ({| fd_limits := fd_limits d; fd_buffer := rest |}, Ok r).

Fixpoint recover_loop (fuel : nat) (limits : Limits) (tail : list Z) (r : FeedResult)
    : option (FeedResult * list Z) :=
  if (length tail <? 10)%nat then Some (r, tail)
  else
    match fuel with
    | O => None
    | S fuel =>
        let total := u16_at tail 0 in
        if valid_header tail limits && (total <=? length tail)%nat then
          match decode (take total tail) limits with
          | Ok payload => recover_loop fuel limits (drop total tail) (add_payload r payload)
          | Err _ =>
              recover_loop fuel limits (drop 1 tail) (add_discarded (add_rejected r) 1)
          end
        else recover_loop fuel limits (drop 1 tail) (add_discarded r 1)
    end.

Definition recover_expired (d : FrameDecoder) : option (FrameDecoder * FeedResult) :=
  '(r, rest) ← recover_loop (length (fd_buffer d)) (fd_limits d) (fd_buffer d) no_result;
  Some (reset d, add_discarded r (length rest)).
End Envelope.

(** ** Headers *)

Lemma slice_app_l {A} a b (l k : list A) : (b <= length l)%nat -> slice a b (l ++ k) = slice a b l.
Proof.
  intros H. unfold slice. destruct (Nat.le_gt_cases b a).
  - replace (b - a)%nat with O by lia. done.
  - rewrite drop_app_le, take_app_le by (rewrite ?length_drop; lia). done.
Qed.

Lemma u16_at_app l k off : (off + 2 <= length l)%nat -> u16_at (l ++ k) off = u16_at l off.
Proof. intros. unfold u16_at. by rewrite slice_app_l. Qed.

Lemma valid_header_app l k limits :
  (6 <= length l)%nat -> valid_header (l ++ k) limits = valid_header l limits.
Proof. intros. unfold valid_header. by rewrite !u16_at_app by lia. Qed.

Lemma valid_header_total bytes limits :
  valid_header bytes limits = true -> (10 <= u16_at bytes 0 <= limit_frame limits)%nat.
Proof.
  unfold valid_header. rewrite !andb_true_iff. intros [[[H1%Nat.leb_le H2%Nat.leb_le] _] _]. lia.
Qed.

Lemma u16_at_bytes l k n off :
  off = length l -> Z.of_nat n <= u16_max -> u16_at (l ++ to_le_bytes 2 (Z.of_nat n) ++ k) off = n.
Proof.
  intros -> Hn. unfold u16_at.
  replace 2%nat with (length (to_le_bytes 2 (Z.of_nat n))) at 1 by done.
  rewrite slice_app_prefix, le_value_to_le_bytes; [lia|].
  unfold u16_max in Hn. change (256 ^ Z.of_nat 2) with 65536. lia.
Qed.

Lemma limits_valid_spec limits :
  limits_valid limits = true ->
  (10 <= limit_frame limits)%nat /\ Z.of_nat (limit_frame limits) <= u16_max /\
  Z.of_nat (limit_payload limits) <= u16_max.
Proof.
  unfold limits_valid. rewrite !andb_true_iff, !Nat.leb_le, !Z.leb_le. tauto.
Qed.

Section EnvelopeFacts.
Context (zlib_compress : list Z -> result String.string (list Z)).
Context (zlib_decompress : list Z -> nat -> result String.string Inflated).
Context (crc32 : list Z -> Z).

(** A CRC-32 is a [u32]; inflating a whole deflated stream into a buffer
    with room to spare ends the stream, consumes it all and restores it. *)
Hypothesis crc32_u32 : forall l, is_u32 (crc32 l).
Hypothesis inflate_deflate : forall p c capacity,
  zlib_compress p = Ok c -> (length p < capacity)%nat ->
  zlib_decompress c capacity = Ok {| stream_end := true; total_in := length c; inflated := p |}.

Let encode := encode zlib_compress crc32.
Let decode := decode zlib_decompress crc32.

(** The parts of an encoded frame. *)
Lemma encode_Ok p limits frame :
  encode p limits = Ok frame ->
  exists c body, limits_valid limits = true /\ (length p <= limit_payload limits)%nat /\
    zlib_compress p = Ok c /\ (length (stored p c) + 10 <= limit_frame limits)%nat /\
    body = to_le_bytes 2 (Z.of_nat (length (stored p c) + 10)) ++ to_le_bytes 2 (Z.of_nat (length p))
           ++ to_le_bytes 2 (Z.of_nat (length (stored p c))) ++ stored p c /\
    frame = body ++ to_le_bytes 4 (crc32 body).
Proof.
  unfold encode, Frame.encode, validate. destruct (limits_valid limits) eqn:Hl; [|done]. simpl mbind.
  destruct (_ <? length p)%nat eqn:Hp; [done|]. apply Nat.ltb_ge in Hp.
  destruct (zlib_compress p) as [c|] eqn:Hc; [|done]. simpl mbind.
  destruct (_ <? _ + 10)%nat eqn:Hf; [done|]. apply Nat.ltb_ge in Hf. intros [= <-].
  eexists c, _. split_and!; eauto.
Qed.

(** Decoding a frame with these parts. *)
Lemma decode_parts limits plain st body :
  limits_valid limits = true -> (plain <= limit_payload limits)%nat ->
  (length st + 10 <= limit_frame limits)%nat ->
  body = to_le_bytes 2 (Z.of_nat (length st + 10)) ++ to_le_bytes 2 (Z.of_nat plain)
         ++ to_le_bytes 2 (Z.of_nat (length st)) ++ st ->
  let frame := body ++ to_le_bytes 4 (crc32 body) in
  length frame = (length st + 10)%nat /\ valid_header frame limits = true /\
  u16_at frame 0 = length frame /\
  decode frame limits =
    if (plain =? length st)%nat then Ok st
    else
      out ← map_err FrDecompression (zlib_decompress st (plain + 1)%nat);
      if negb (stream_end out) || negb (length (inflated out) =? plain)%nat
         || negb (total_in out =? length st)%nat
      then Err FrPayloadLength
      else Ok (take plain (inflated out)).
Proof.
  intros Hl Hp Hf Hbody frame. pose proof (limits_valid_spec _ Hl) as (H10 & Hfm & Hpm).
  assert (Hblen : length body = (6 + length st)%nat)
    by (rewrite Hbody, !length_app, !length_to_le_bytes; lia).
  assert (Hlen : length frame = (length st + 10)%nat)
    by (unfold frame; rewrite length_app, length_to_le_bytes; lia).
  assert (H0 : u16_at frame 0 = (length st + 10)%nat).
  { unfold frame. rewrite Hbody, <- !app_assoc. apply (u16_at_bytes []); [done|lia]. }
  assert (H2 : u16_at frame 2 = plain).
  { unfold frame. rewrite Hbody, <- !app_assoc. apply u16_at_bytes; [done|lia]. }
  assert (H4 : u16_at frame 4 = length st).
  { unfold frame. rewrite Hbody, <- !app_assoc. rewrite (app_assoc (to_le_bytes 2 _) (to_le_bytes 2 _)).
    apply u16_at_bytes; [done|lia]. }
  assert (Hv : valid_header frame limits = true).
  { unfold valid_header. rewrite H0, H2, H4, !andb_true_iff, !Nat.leb_le, Nat.eqb_eq. lia. }
  split_and!; [done|done|lia|].
  unfold decode, Frame.decode, validate. rewrite Hl, Hv, H0, H2, Hlen, Nat.eqb_refl. simpl mbind.
  destruct (Nat.ltb_spec (length st + 10) 10); [lia|]. simpl orb. cbn iota.
  replace (length st + 10 - 4)%nat with (length body) by lia.
  unfold frame. rewrite take_app_length, drop_app_length, le_value_to_le_bytes, Z.eqb_refl.
  - simpl negb. cbn iota. replace (length body - 6)%nat with (length st) by lia.
    replace (slice 6 (length body) _) with st; [done|]. symmetry.
    rewrite slice_app_l by done. rewrite Hbody at 2. rewrite !app_assoc. rewrite Hblen.
    set (h := (to_le_bytes 2 _ ++ to_le_bytes 2 _) ++ to_le_bytes 2 _).
    replace (6 + length st)%nat with (length h + length st)%nat by done.
    change 6%nat with (length h) at 1.
    pose proof (slice_app_prefix h st []) as Hs. by rewrite app_nil_r in Hs.
  - pose proof (crc32_u32 body) as Hu. unfold is_u32, u32_max in Hu.
    change (256 ^ Z.of_nat 4) with 4294967296. lia.
Qed.

Lemma decode_encode p limits frame :
  encode p limits = Ok frame ->
  decode frame limits = Ok p /\ valid_header frame limits = true /\
  u16_at frame 0 = length frame /\ (10 <= length frame <= limit_frame limits)%nat.
Proof.
  intros (c & body & Hl & Hp & Hc & Hf & Hb & ->)%encode_Ok.
  destruct (decode_parts limits (length p) (stored p c) body Hl Hp Hf Hb) as (Hlen & Hv & H0 & Hd).
  rewrite Hd, Hlen. split_and!; try done; [|lia..]. unfold stored.
  destruct (Nat.leb_spec (length p) (length c)); [by rewrite Nat.eqb_refl|].
  destruct (Nat.eqb_spec (length p) (length c)); [lia|].
  rewrite (inflate_deflate p c) by (done || lia). simpl. rewrite !Nat.eqb_refl. simpl.
  by rewrite firstn_all.
Qed.

(** ** The scan of a buffer *)

Let feed_loop := feed_loop zlib_decompress crc32.

(** One step of the loop on a long enough tail: discard a byte, wait for
    more, publish a frame or reject it. *)
Lemma feed_loop_step fuel limits tail r :
  (6 <= length tail)%nat ->
  feed_loop (S fuel) limits tail r =
    if negb (valid_header tail limits)
    then feed_loop fuel limits (drop 1 tail) (add_discarded r 1)
    else if (length tail <? u16_at tail 0)%nat then Some (r, tail)
    else match decode (take (u16_at tail 0) tail) limits with
         | Ok p => feed_loop fuel limits (drop (u16_at tail 0) tail) (add_payload r p)
         | Err _ => feed_loop fuel limits (drop 1 tail) (add_discarded (add_rejected r) 1)
         end.
Proof.
  intros H. unfold feed_loop. cbn [Frame.feed_loop].
  by destruct (Nat.ltb_spec (length tail) 6); [lia|].
Qed.

Lemma feed_loop_short fuel limits tail r :
  (length tail < 6)%nat -> feed_loop fuel limits tail r = Some (r, tail).
Proof.
  intros H. unfold feed_loop. destruct fuel; cbn [Frame.feed_loop];
    by destruct (Nat.ltb_spec (length tail) 6); [|lia].
Qed.

(** The length of the tail is enough fuel, and more changes nothing. *)
Lemma feed_loop_fuel fuel fuel' limits tail r :
  (length tail <= fuel)%nat -> (length tail <= fuel')%nat ->
  feed_loop fuel limits tail r = feed_loop fuel' limits tail r.
Proof.
  revert fuel' tail r. induction fuel as [|fuel IH]; intros fuel' tail r Hf Hf'.
  { rewrite !feed_loop_short by lia. done. }
  destruct (Nat.lt_ge_cases (length tail) 6) as [H6|H6]; [by rewrite !feed_loop_short|].
  destruct fuel' as [|fuel']; [lia|]. rewrite !feed_loop_step by lia.
  destruct (valid_header tail limits) eqn:Hv; simpl negb; cbn iota.
  - apply valid_header_total in Hv. case_match; [done|].
    case_match; apply IH; rewrite length_drop; lia.
  - apply IH; rewrite length_drop; lia.
Qed.

(** The whole scan of a buffer. *)
Definition scan (limits : Limits) (tail : list Z) (r : FeedResult) : option (FeedResult * list Z) :=
  feed_loop (length tail) limits tail r.

Lemma scan_short limits tail r : (length tail < 6)%nat -> scan limits tail r = Some (r, tail).
Proof. apply feed_loop_short. Qed.

Lemma scan_step limits tail r :
  (6 <= length tail)%nat ->
  scan limits tail r =
    if negb (valid_header tail limits) then scan limits (drop 1 tail) (add_discarded r 1)
    else if (length tail <? u16_at tail 0)%nat then Some (r, tail)
    else match decode (take (u16_at tail 0) tail) limits with
         | Ok p => scan limits (drop (u16_at tail 0) tail) (add_payload r p)
         | Err _ => scan limits (drop 1 tail) (add_discarded (add_rejected r) 1)
         end.
Proof.
  intros H. unfold scan at 1. destruct (length tail) as [|n] eqn:Hn; [lia|].
  rewrite feed_loop_step, <- Hn by lia. unfold scan.
  destruct (valid_header tail limits) eqn:Hv; simpl negb; cbn iota.
  - apply valid_header_total in Hv. case_match; [done|].
    case_match; apply feed_loop_fuel; rewrite ?length_drop; lia.
  - apply feed_loop_fuel; rewrite ?length_drop; lia.
Qed.

(** Induction on a tail, by what is left after one step. *)
Lemma tail_ind (P : list Z -> Prop) :
  (forall tail,
     (forall n, (0 < n <= length tail)%nat -> P (drop n tail)) -> P tail) ->
  forall tail, P tail.
Proof.
  intros H tail. remember (length tail) as n eqn:Hn. revert tail Hn.
  induction n as [n IH] using lt_wf_ind. intros tail ->. apply H. intros m Hm.
  eapply IH; [|reflexivity]. rewrite length_drop. lia.
Qed.

(** What a scan did with the bytes it consumed. *)
Inductive Segment :=
| Discarded (b : Z)
| Accepted (frame payload : list Z).

Definition seg_bytes (s : Segment) : list Z :=
  match s with Discarded b => [b] | Accepted f _ => f end.
Definition seg_payload (s : Segment) : option (list Z) :=
  match s with Discarded _ => None | Accepted _ p => Some p end.
Definition seg_discarded (s : Segment) : Z := match s with Discarded _ => 1 | Accepted _ _ => 0 end.

Definition segs_result (r : FeedResult) (rejected : Z) (segs : list Segment) : FeedResult :=
  {| payloads := payloads r ++ omap seg_payload segs;
     rejected_frames := rejected_frames r + rejected;
     discarded_bytes := discarded_bytes r + foldr Z.add 0 (seg_discarded <$> segs) |}.

(** [segs] accounts for [tail] up to [rest], which is shorter than [bound]. *)
Record scan_log (limits : Limits) (bound : nat) (tail rest : list Z) (rejected : Z)
    (segs : list Segment) : Prop := {
  log_bytes : tail = concat (seg_bytes <$> segs) ++ rest;
  log_decoded : forall f p, Accepted f p ∈ segs -> decode f limits = Ok p;
  log_rejected : 0 <= rejected <= foldr Z.add 0 (seg_discarded <$> segs);
  log_rest : (length rest < bound)%nat
}.

(** The outcome of a loop that starts with [r] and accounts for [tail]. *)
Definition accounted (limits : Limits) (bound : nat) (r : FeedResult) (tail : list Z)
    (out : option (FeedResult * list Z)) : Prop :=
  exists rest rej segs,
    out = Some (segs_result r rej segs, rest) /\ scan_log limits bound tail rest rej segs.

Lemma accounted_stop limits bound r tail :
  (length tail < bound)%nat -> accounted limits bound r tail (Some (r, tail)).
Proof.
  intros Hlen. exists tail, 0, []. split.
  - unfold segs_result. simpl. rewrite app_nil_r, !Z.add_0_r. by destruct r.
  - constructor; simpl; try done. by intros f p ?%not_elem_of_nil.
Qed.

(** One byte discarded, after [n] rejected frames. *)
Lemma accounted_discard n limits bound r b tail out :
  0 <= n <= 1 ->
  accounted limits bound {| payloads := payloads r; rejected_frames := rejected_frames r + n;
                            discarded_bytes := discarded_bytes r + 1 |} tail out ->
  accounted limits bound r (b :: tail) out.
Proof.
  intros Hn (rest & rej & segs & -> & [H1 H2 H3 H4]). exists rest, (n + rej), (Discarded b :: segs). split.
  - unfold segs_result. simpl. by rewrite <- !Z.add_assoc.
  - constructor; try done.
    + by rewrite H1.
    + intros f p [?|?]%elem_of_cons; [done|auto].
    + rewrite fmap_cons. cbn [foldr seg_discarded]. lia.
Qed.

Lemma accounted_discard_only limits bound r b tail out :
  accounted limits bound (add_discarded r 1) tail out -> accounted limits bound r (b :: tail) out.
Proof. intros H. apply (accounted_discard 0); [lia|]. by rewrite Z.add_0_r. Qed.

Lemma accounted_accept n limits bound r tail p out :
  decode (take n tail) limits = Ok p ->
  accounted limits bound (add_payload r p) (drop n tail) out -> accounted limits bound r tail out.
Proof.
  intros Hd (rest & rej & segs & -> & [H1 H2 H3 H4]).
  exists rest, rej, (Accepted (take n tail) p :: segs). split.
  - unfold segs_result. simpl. by rewrite <- app_assoc.
  - constructor; [|intros f q [[= -> ->]|?]%elem_of_cons; auto|done|done].
    rewrite fmap_cons. cbn [concat seg_bytes]. by rewrite <- app_assoc, <- H1, take_drop.
Qed.

Lemma scan_spec limits tail r :
  accounted limits (Nat.max 6 (limit_frame limits)) r tail (scan limits tail r).
Proof.
  revert r. induction tail as [tail IH] using tail_ind. intros r.
  destruct (Nat.lt_ge_cases (length tail) 6) as [H6|H6].
  { rewrite scan_short by done. apply accounted_stop. lia. }
  rewrite scan_step by done. destruct tail as [|b tail]; [simpl in H6; lia|].
  assert (Hdrop : forall r, accounted limits (Nat.max 6 (limit_frame limits)) r tail
                             (scan limits (drop 1 (b :: tail)) r)) by (intros; apply (IH 1%nat); simpl; lia).
  destruct (valid_header (b :: tail) limits) eqn:Hv; simpl negb; cbn iota;
    [|by apply accounted_discard_only].
  apply valid_header_total in Hv. destruct (Nat.ltb_spec (length (b :: tail)) (u16_at (b :: tail) 0)).
  { apply accounted_stop. lia. }
  destruct (decode _ limits) as [p|e] eqn:Hd.
  - apply (accounted_accept _ _ _ _ _ _ _ Hd), IH. lia.
  - apply (accounted_discard 1); [lia|]. apply Hdrop.
Qed.

(** Scanning in two pieces is scanning the whole. *)
Lemma scan_app limits a b r :
  scan limits (a ++ b) r = ('(r', rest) ← scan limits a r; scan limits (rest ++ b) r').
Proof.
  revert r. induction a as [a IH] using tail_ind. intros r.
  destruct (Nat.lt_ge_cases (length a) 6) as [H6|H6]; [by rewrite (scan_short _ a)|].
  rewrite (scan_step _ a) by done.
  destruct (valid_header a limits) eqn:Hv; simpl negb; cbn iota.
  - pose proof (valid_header_total _ _ Hv) as Ht.
    destruct (Nat.ltb_spec (length a) (u16_at a 0)); [done|].
    rewrite scan_step by (rewrite length_app; lia).
    rewrite valid_header_app, Hv, u16_at_app by lia. simpl negb. cbn iota.
    destruct (Nat.ltb_spec (length (a ++ b)) (u16_at a 0)) as [Hl|_]; [rewrite length_app in Hl; lia|].
    rewrite take_app_le, !drop_app_le by lia. 
    destruct (decode _ limits); apply IH; lia.
  - rewrite scan_step by (rewrite length_app; lia). rewrite valid_header_app, Hv by lia. simpl negb. cbn iota.
    rewrite drop_app_le by lia. apply IH. lia.
Qed.

(** ** Feeding a stream in chunks *)

Let feed := feed zlib_decompress crc32.

Definition merge (r r' : FeedResult) : FeedResult :=
  {| payloads := payloads r ++ payloads r';
     rejected_frames := rejected_frames r + rejected_frames r';
     discarded_bytes := discarded_bytes r + discarded_bytes r' |}.

Lemma merge_assoc r1 r2 r3 : merge r1 (merge r2 r3) = merge (merge r1 r2) r3.
Proof. unfold merge. simpl. by rewrite app_assoc, !Z.add_assoc. Qed.
Lemma merge_no_result r : merge r no_result = r.
Proof. unfold merge. simpl. rewrite app_nil_r, !Z.add_0_r. by destruct r. Qed.

Lemma scan_merge limits tail r0 r :
  scan limits tail (merge r0 r) = (fun x => (merge r0 x.1, x.2)) <$> scan limits tail r.
Proof.
  revert r. induction tail as [tail IH] using tail_ind. intros r.
  assert (Hd : forall r n, add_discarded (merge r0 r) n = merge r0 (add_discarded r n))
    by (intros; unfold merge, add_discarded; simpl; by rewrite Z.add_assoc).
  assert (Hp : forall r p, add_payload (merge r0 r) p = merge r0 (add_payload r p))
    by (intros; unfold merge, add_payload; simpl; by rewrite app_assoc).
  assert (Hj : forall r, add_rejected (merge r0 r) = merge r0 (add_rejected r))
    by (intros; unfold merge, add_rejected; simpl; by rewrite Z.add_assoc).
  destruct (Nat.lt_ge_cases (length tail) 6) as [H6|H6]; [by rewrite !scan_short|].
  rewrite (scan_step _ _ (merge r0 r)), (scan_step _ _ r) by done.
  destruct (valid_header tail limits) eqn:Hv; simpl negb; cbn iota.
  - apply valid_header_total in Hv. destruct (Nat.ltb_spec (length tail) (u16_at tail 0)); [done|].
    destruct (decode _ limits); rewrite ?Hj, ?Hd, ?Hp; apply IH; lia.
  - rewrite Hd. apply IH. lia.
Qed.

(** A decoder between two calls: its buffer is shorter than a frame. *)
Record decoder_ok (d : FrameDecoder) : Prop := {
  decoder_limits : limits_valid (fd_limits d) = true;
  decoder_bound : (length (fd_buffer d) < limit_frame (fd_limits d))%nat;
  decoder_stuck : scan (fd_limits d) (fd_buffer d) no_result = Some (no_result, fd_buffer d)
}.

(** What a scan leaves is left by the next one too. *)
Lemma scan_rest limits tail r r' rest r2 :
  scan limits tail r = Some (r', rest) -> scan limits rest r2 = Some (r2, rest).
Proof.
  revert r. induction tail as [tail IH] using tail_ind. intros r.
  destruct (Nat.lt_ge_cases (length tail) 6) as [H6|H6].
  { rewrite scan_short by done. intros [= _ <-]. by apply scan_short. }
  rewrite (scan_step _ tail r) by done.
  destruct (valid_header tail limits) eqn:Hv; simpl negb; cbn iota; [|apply IH; lia].
  pose proof (valid_header_total _ _ Hv).
  destruct (length tail <? u16_at tail 0)%nat eqn:Hl.
  - intros [= _ <-]. rewrite scan_step, Hv by done. simpl negb. cbn iota. by rewrite Hl.
  - apply Nat.ltb_ge in Hl. destruct (decode _ limits); apply IH; lia.
Qed.

Lemma feed_spec d chunk :
  decoder_ok d -> (length chunk <= limit_frame (fd_limits d))%nat ->
  exists r rest, scan (fd_limits d) (fd_buffer d ++ chunk) no_result = Some (r, rest) /\
    feed d chunk = Some ({| fd_limits := fd_limits d; fd_buffer := rest |}, Ok r) /\
    decoder_ok {| fd_limits := fd_limits d; fd_buffer := rest |} /\
    exists rej segs, r = segs_result no_result rej segs /\
      scan_log (fd_limits d) (limit_frame (fd_limits d)) (fd_buffer d ++ chunk) rest rej segs.
Proof.
  intros [Hl Hb _] Hc. pose proof (limits_valid_spec _ Hl) as (H10 & _).
  destruct (scan_spec (fd_limits d) (fd_buffer d ++ chunk) no_result) as (rest & rej & segs & Hs & Hlog).
  replace (Nat.max 6 (limit_frame (fd_limits d))) with (limit_frame (fd_limits d)) in Hlog by lia.
  exists (segs_result no_result rej segs), rest. split; [done|]. split; [|split].
  - unfold feed, Frame.feed. destruct (Nat.ltb_spec (limit_frame (fd_limits d)) (length chunk)); [lia|].
    destruct (Nat.ltb_spec (limit_frame (fd_limits d) * 2) (length (fd_buffer d) + length chunk)); [lia|].
    simpl orb. cbn iota. unfold scan, feed_loop in Hs. by rewrite Hs.
  - constructor; [done| |by eapply scan_rest].
    by apply (log_rest _ _ _ _ _ _ Hlog).
  - eauto.
Qed.

Fixpoint feed_all (d : FrameDecoder) (chunks : list (list Z))
    : option (FrameDecoder * list (result FrameError FeedResult)) :=
  match chunks with
  | [] => Some (d, [])
  | chunk :: chunks =>
      '(d, r) ← feed d chunk;
      '(d, rs) ← feed_all d chunks;
      Some (d, r :: rs)
  end.

Definition merge_all (rs : list FeedResult) : FeedResult := foldr merge no_result rs.

Lemma feed_all_scan d chunks :
  decoder_ok d -> Forall (fun c => (length c <= limit_frame (fd_limits d))%nat) chunks ->
  exists rest rs,
    feed_all d chunks = Some ({| fd_limits := fd_limits d; fd_buffer := rest |}, Ok <$> rs) /\
    scan (fd_limits d) (fd_buffer d ++ concat chunks) no_result = Some (merge_all rs, rest).
Proof.
  intros Hd Hc. revert d Hd Hc. induction chunks as [|c chunks IH]; intros d Hd Hc.
  - exists (fd_buffer d), []. simpl. rewrite app_nil_r. split; [by destruct d|apply Hd].
  - apply Forall_cons in Hc as [Hc Hcs].
    destruct (feed_spec d c Hd Hc) as (r & rest & Hs & Hf & Hd' & _).
    destruct (IH _ Hd' Hcs) as (rest' & rs & Hf' & Hs'). simpl fd_limits in *. simpl fd_buffer in *.
    exists rest', (r :: rs). split.
    + cbn [feed_all]. rewrite Hf. cbn [mbind option_bind]. by rewrite Hf'.
    + cbn [concat]. rewrite app_assoc, scan_app, Hs. cbn [mbind option_bind].
      rewrite <- (merge_no_result r) at 1. by rewrite scan_merge, Hs'.
Qed.

Lemma scan_frame limits p frame tail r :
  encode p limits = Ok frame -> scan limits (frame ++ tail) r = scan limits tail (add_payload r p).
Proof.
  intros He. apply decode_encode in He as (Hd & Hv & H0 & Hlen).
  rewrite scan_step by (rewrite length_app; lia).
  rewrite valid_header_app, Hv, u16_at_app, H0 by lia. simpl negb. cbn iota.
  destruct (Nat.ltb_spec (length (frame ++ tail)) (length frame)) as [Hl|_]; [rewrite length_app in Hl; lia|].
  by rewrite take_app_length, drop_app_length, Hd.
Qed.

Lemma scan_frames limits ps frames r :
  Forall2 (fun p f => encode p limits = Ok f) ps frames ->
  scan limits (concat frames) r
  = Some ({| payloads := payloads r ++ ps; rejected_frames := rejected_frames r;
             discarded_bytes := discarded_bytes r |}, []).
Proof.
  intros H. revert r. induction H as [|p f ps frames He _ IH]; intros r.
  - rewrite app_nil_r. rewrite scan_short by (simpl; lia). by destruct r.
  - cbn [concat]. rewrite (scan_frame _ _ _ _ _ He), IH. simpl. by rewrite <- app_assoc.
Qed.

Lemma decoder_new_ok limits d : decoder_new limits = Ok d -> decoder_ok d /\ fd_buffer d = [] /\ fd_limits d = limits.
Proof.
  unfold decoder_new, validate. destruct (limits_valid limits) eqn:Hl; [|done]. simpl. intros [= <-].
  pose proof (limits_valid_spec _ Hl). split; [|done]. constructor; simpl; [done|lia|].
  apply scan_short; simpl; lia.
Qed.

(** What [encode] produces [decode] reads back, whether the payload is
    stored raw or compressed; the frame respects the configured limit and
    its first field is its own length. *)
Theorem encode_decode_round_trip p limits frame :
  encode p limits = Ok frame ->
  decode frame limits = Ok p /\ u16_at frame 0 = length frame /\
  (10 <= length frame <= limit_frame limits)%nat.
Proof. intros (? & _ & ? & ?)%decode_encode. done. Qed.

(** C37: Fragmentation does not matter: a stream of encoded frames, cut into
    any chunks of at most one frame limit each, comes out of the decoder as
    exactly the payloads in order, with nothing rejected, nothing discarded
    and an empty buffer at the end; no call fails. *)
Theorem feed_fragmented_frames limits d ps frames chunks :
  decoder_new limits = Ok d ->
  Forall2 (fun p f => encode p limits = Ok f) ps frames ->
  concat chunks = concat frames ->
  Forall (fun c => (length c <= limit_frame limits)%nat) chunks ->
  exists d' rs, feed_all d chunks = Some (d', Ok <$> rs) /\ fd_buffer d' = [] /\
    merge_all rs = {| payloads := ps; rejected_frames := 0; discarded_bytes := 0 |}.
Proof.
  intros (Hd & Hb & <-)%decoder_new_ok Hps Hc Hlen.
  destruct (feed_all_scan d chunks Hd Hlen) as (rest & rs & Hf & Hs).
  rewrite Hb, Hc, (scan_frames _ _ _ _ Hps) in Hs. simpl in Hs. injection Hs as Hr Hrest. rewrite <- Hrest in Hf. eauto 10.
Qed.

(** On any input, [feed] accounts for every byte: buffer and chunk
    together are the concatenation of single discarded bytes and of frames
    that decode (the payloads returned, in order), followed by the new
    buffer, which is shorter than one frame.  So a decoder fed chunks within
    the frame limit never overflows its buffer. *)
Theorem feed_accounts_for_every_byte d chunk :
  decoder_ok d -> (length chunk <= limit_frame (fd_limits d))%nat ->
  exists d' rej segs,
    feed d chunk = Some (d', Ok (segs_result no_result rej segs)) /\
    decoder_ok d' /\
    scan_log (fd_limits d) (limit_frame (fd_limits d)) (fd_buffer d ++ chunk) (fd_buffer d') rej segs.
Proof.
  intros Hd Hc. destruct (feed_spec d chunk Hd Hc) as (r & rest & _ & Hf & Hd' & rej & segs & -> & Hlog).
  eauto 10.
Qed.

(** ** Recovery after a deadline *)

Let recover_loop := recover_loop zlib_decompress crc32.

Lemma recover_loop_spec fuel limits tail r :
  (length tail <= fuel)%nat -> accounted limits 10 r tail (recover_loop fuel limits tail r).
Proof.
  revert tail r. induction fuel as [|fuel IH]; intros tail r Hf; unfold recover_loop; cbn [Frame.recover_loop].
  all: destruct (Nat.ltb_spec (length tail) 10) as [H10|H10]; [by apply accounted_stop|].
  { lia. }
  destruct tail as [|b tail]; [simpl in H10; lia|]. simpl length in Hf.
  change (drop 1 (b :: tail)) with tail.
  destruct (valid_header (b :: tail) limits) eqn:Hv; cbn [andb];
    [|apply accounted_discard_only, IH; simpl; lia].
  apply valid_header_total in Hv.
  destruct (Nat.leb (u16_at (b :: tail) 0) _); [|apply accounted_discard_only, IH; simpl; lia].
  destruct (Frame.decode _ _ _ limits) as [p|e] eqn:Hd.
  - eapply accounted_accept; [exact Hd|]. apply IH. rewrite length_drop. simpl length. lia.
  - apply (accounted_discard 1); [lia|]. apply IH. simpl. lia.
Qed.

(** Recovery after an expired deadline ends, empties the buffer and
    accounts for every byte of it: each one is counted as discarded or
    belongs to a frame that decodes, whose payload is returned. *)
Theorem recover_expired_empties d :
  exists rej segs,
    recover_expired zlib_decompress crc32 d = Some (reset d, segs_result no_result rej segs) /\
    fd_buffer d = concat (seg_bytes <$> segs) /\
    (forall f p, Accepted f p ∈ segs -> decode f (fd_limits d) = Ok p).
Proof.
  unfold recover_expired.
  destruct (recover_loop_spec (length (fd_buffer d)) (fd_limits d) (fd_buffer d) no_result ltac:(lia))
    as (rest & rej & segs & E & [Hb Hd _ _]).
  unfold recover_loop in E. rewrite E. exists rej, (segs ++ (Discarded <$> rest)).
  split_and!.
  - cbn [mbind option_bind]. do 2 f_equal. unfold add_discarded, segs_result. simpl. f_equal.
    + rewrite omap_app. rewrite <- (app_nil_r (omap _ segs)) at 1. f_equal. clear.
      induction rest as [|x rest IH]; [done|exact IH].
    + rewrite fmap_app, foldr_add_app.
      enough (H : foldr Z.add 0 (seg_discarded <$> (Discarded <$> rest)) = Z.of_nat (length rest)) by lia.
      clear. induction rest as [|x rest IH]; [done|].
      rewrite !fmap_cons. cbn [foldr seg_discarded length]. rewrite IH. lia.
  - rewrite fmap_app, concat_app, Hb at 1. f_equal. clear. induction rest as [|x rest IH]; [done|].
    rewrite !fmap_cons. cbn [concat seg_bytes]. by rewrite <- IH.
  - intros f p [?|H]%elem_of_app; [auto|]. by apply list_elem_of_fmap in H as (x & ? & _).
Qed.
End EnvelopeFacts.

(** ** A concrete codec

    A run-length code for all-zero payloads and a byte sum: enough to run both
    branches of the envelope in the witnesses. *)

Definition toy_compress (p : list Z) : result String.string (list Z) :=
  if forallb (Z.eqb 0) p then Ok [1; Z.of_nat (length p)] else Ok (0 :: p).
Definition toy_decompress (c : list Z) (_ : nat) : result String.string Inflated :=
  match c with
  | 0 :: p => Ok {| stream_end := true; total_in := length c; inflated := p |}
  | [1; n] => Ok {| stream_end := true; total_in := 2; inflated := replicate (Z.to_nat n) 0 |}
  | _ => Err "corrupt deflate stream"%string
  end.
Definition toy_crc (l : list Z) : Z := foldr Z.add 0 l mod 2 ^ 32.

Lemma toy_crc_u32 l : is_u32 (toy_crc l).
Proof.
  unfold is_u32, toy_crc, u32_max. pose proof (Z.mod_pos_bound (foldr Z.add 0 l) (2 ^ 32)). lia.
Qed.

Lemma forallb_zero_replicate p : forallb (Z.eqb 0) p = true -> p = replicate (length p) 0.
Proof.
  induction p as [|x p IH]; [done|]. cbn [forallb length replicate].
  intros [<-%Z.eqb_eq H]%andb_true_iff. by rewrite <- IH.
Qed.

Lemma toy_inflate_deflate p c capacity :
  toy_compress p = Ok c -> (length p < capacity)%nat ->
  toy_decompress c capacity = Ok {| stream_end := true; total_in := length c; inflated := p |}.
Proof.
  unfold toy_compress. intros H _. destruct (forallb (Z.eqb 0) p) eqn:E; injection H as <-; [|done].
  simpl. by rewrite Nat2Z.id, <- forallb_zero_replicate.
Qed.

Definition toy_limits : Limits := {| limit_frame := 20; limit_payload := 100 |}.
Definition toy_frame (p : list Z) : list Z :=
  match encode toy_compress toy_crc p toy_limits with Ok f => f | Err _ => [] end.
Definition toy_decoder : FrameDecoder := {| fd_limits := toy_limits; fd_buffer := [] |}.

Lemma encode_decode_round_trip_witness :
  encode toy_compress toy_crc (replicate 40 0) toy_limits = Ok (toy_frame (replicate 40 0)) /\
  decode toy_decompress toy_crc (toy_frame (replicate 40 0)) toy_limits = Ok (replicate 40 0).
Proof.
  assert (H : encode toy_compress toy_crc (replicate 40 0) toy_limits = Ok (toy_frame (replicate 40 0)))
    by (vm_compute; reflexivity).
  split; [exact H|].
  apply (encode_decode_round_trip toy_compress toy_decompress toy_crc toy_crc_u32 toy_inflate_deflate _ _ _ H).
Defined.

Lemma feed_fragmented_frames_witness :
  let frames := [toy_frame [7; 8]; toy_frame (replicate 40 0)] in
  let chunks := [take 5 (concat frames); drop 5 (concat frames)] in
  exists d' rs, feed_all toy_decompress toy_crc toy_decoder chunks = Some (d', Ok <$> rs) /\
    fd_buffer d' = [] /\
    merge_all rs = {| payloads := [[7; 8]; replicate 40 0]; rejected_frames := 0; discarded_bytes := 0 |}.
Proof.
  intros frames chunks.
  apply (feed_fragmented_frames toy_compress toy_decompress toy_crc toy_crc_u32 toy_inflate_deflate
           toy_limits toy_decoder [[7; 8]; replicate 40 0] frames).
  - reflexivity.
  - repeat constructor; vm_compute; reflexivity.
  - vm_compute. reflexivity.
  - repeat constructor; apply Nat.leb_le; vm_compute; reflexivity.
Defined.

Lemma feed_accounts_for_every_byte_witness :
  exists d' rej segs,
    feed toy_decompress toy_crc toy_decoder [1; 2; 3; 4; 5; 6; 7]
    = Some (d', Ok (segs_result no_result rej segs)) /\
    decoder_ok toy_decompress toy_crc d' /\
    scan_log toy_decompress toy_crc toy_limits 20 [1; 2; 3; 4; 5; 6; 7] (fd_buffer d') rej segs.
Proof.
  apply (feed_accounts_for_every_byte toy_decompress toy_crc toy_decoder [1; 2; 3; 4; 5; 6; 7]).
  - constructor; [reflexivity|simpl; lia|reflexivity].
  - simpl. lia.
Defined.
