(* ===== verification/Tracking.v ===== *)
(** * The command journal (src/src/command_tracking.rs)

    The tracker's bounded memory (admission, updates, eviction), the SQLite
    journal it is written to, and the writer thread.  SHA-256 is a parameter.
    The tables are the state of the SQL statements of the source; a statement
    may fail at any time, which the steps below leave open.  Clock readings are
    arguments; the revision counter is a [Z] (the source's [u64] would have to
    count 2^64 changes to differ).  JSON rendering, thread creation and the bounded channels (a
    full channel or a timeout is an [Err] of the lookup) are not modelled. *)

From stdpp Require Import pretty.
From S2P Require Import Prelude RustFloat RustStr Model Parser Csv Protocol.
Open Scope string_scope.
Open Scope Z_scope.
Open Scope list_scope.

Definition CACHE_LIMIT : nat := Z.to_nat 10000.
Definition KEEP_COUNT : nat := Z.to_nat 100000.

(** ** Data *)

Record Attempt := {
  at_attempt : Z;
  at_sent : bool;
  at_result : string;
  at_at : string
}.

Record Snapshot := {
  schema_version : Z;
  manager_instance_id : string;
  command_id : string;
  gateway_instance_id : string;
  boot_id : string;
  port_id : string;
  ack_id : string;
  request_hash : string;
  request_preview : string;
  device_id : string;
  accepted : bool;
  status_code : Z;
  phase : string;
  attempt_count : Z;
  sent_count : Z;
  attempts : list Attempt;
  error : string;
  revision : Z;
  started_at : string;
  updated_at : string;
  audit_incomplete : bool
}.

(** The fields the journal itself rewrites. *)
Definition set_journal (v : Snapshot) (ph er : string) (ats : list Attempt) (rev : Z) (upd : string)
    (incomplete : bool) : Snapshot := {|
  schema_version := schema_version v;
  manager_instance_id := manager_instance_id v;
  command_id := command_id v;
  gateway_instance_id := gateway_instance_id v;
  boot_id := boot_id v;
  port_id := port_id v;
  ack_id := ack_id v;
  request_hash := request_hash v;
  request_preview := request_preview v;
  device_id := device_id v;
  accepted := accepted v;
  status_code := status_code v;
  phase := ph;
  attempt_count := attempt_count v;
  sent_count := sent_count v;
  attempts := ats;
  error := er;
  revision := rev;
  started_at := started_at v;
  updated_at := upd;
  audit_incomplete := incomplete
|}.

Definition mark_incomplete (v : Snapshot) : Snapshot :=
  set_journal v (phase v) (error v) (attempts v) (revision v) (updated_at v) true.

Definition terminal (v : Snapshot) : bool :=
  bool_decide (phase v ∈ ["AckReceived"; "Failed"; "Expired"; "Unknown"; "SentUnconfirmed"]).

Definition NUL : string := String (ascii_of_nat 0) EmptyString.
Definition key (manager command : string) : string := manager +:+ NUL +:+ command.
Definition snapshot_key (v : Snapshot) : string := key (manager_instance_id v) (command_id v).

(** [State]: what the state mutex protects. *)
Record State := {
  entries : gmap string Snapshot;
  ack : gmap (string * Z) string;
  dirty : gmap string Snapshot;
  st_revision : Z;
  persisted : gmap string Z;
  st_error : string;
  gap : bool;
  seen : list Z
}.

(** [Inner]: fixed for the life of the process. *)
Record Inner := {
  gateway : string;
  boot : string;
  historical_ids : gset (list Z);
  history_known : bool
}.

Definition initial_state (rev : Z) (err : string) : State := {|
  entries := ∅; ack := ∅; dirty := ∅; st_revision := rev; persisted := ∅; st_error := err;
  gap := false; seen := replicate (Z.to_nat (128 * 1024)) 0 |}.

Definition set_entries (s : State) (e : gmap string Snapshot) (d : gmap string Snapshot) (rev : Z) : State :=
  {| entries := e; ack := ack s; dirty := d; st_revision := rev; persisted := persisted s;
     st_error := st_error s; gap := gap s; seen := seen s |}.

(** ** The tombstone filter *)

(** [seen[i / 8] & (1 << (i % 8)) != 0]. *)
Definition seen_bit (l : list Z) (i : nat) : bool :=
  match l !! (i / 8)%nat with Some b => Z.testbit b (Z.of_nat (i mod 8)) | None => false end.

(** [seen[i / 8] |= 1 << (i % 8)]. *)
Definition set_seen_bit (l : list Z) (i : nat) : list Z :=
  alter (fun b => Z.lor b (Z.shiftl 1 (Z.of_nat (i mod 8)))) (i / 8)%nat l.

(** [digest.chunks_exact(4)]. *)
Fixpoint chunks4 (l : list Z) : list (list Z) :=
  match l with a :: b :: c :: d :: l => [a; b; c; d] :: chunks4 l | _ => [] end.

Definition filter_indexes (digest : list Z) (seen_len : nat) : list nat :=
  (fun b => Z.to_nat (le_value b mod (Z.of_nat seen_len * 8))) <$> take 4 (chunks4 digest).

(** ** Request text *)

Definition ascii_upper (c : ascii) : ascii :=
  if (97 <=? code c) && (code c <=? 122) then ascii_of_nat (Z.to_nat (code c - 32)) else c.

(** [to_uppercase] on ASCII characters.  Every caller of [begin] has parsed the
    payload as hexadecimal text before, which is ASCII. *)
Definition normalize_payload (payload : string) : string :=
  text (ascii_upper <$> filter (fun c => is_ascii_whitespace c = false) (chars payload)).

Definition hex_digit_lower (n : Z) : ascii :=
  ascii_of_nat (Z.to_nat (if n <? 10 then 48 + n else 87 + n)).
(** [format!("{:x}", digest)]. *)
Definition hex_lower (bytes : list Z) : string :=
  text (bytes ≫= fun b => [hex_digit_lower (b / 16); hex_digit_lower (b mod 16)]).

Definition valid_identity_part (v : string) : bool :=
  negb (String.eqb v "") && (String.length v <=? 256)%nat
  && negb (existsb (fun c => code c =? 0) (chars v)).

(** [normalized.get(..2).and_then(|s| u8::from_str_radix(s, 16).ok())]. *)
Definition payload_device_id (normalized : string) : string :=
  match chars normalized with
  | a :: b :: _ => match u8_from_hex2 a b with Some n => pretty n | None => "" end
  | _ => ""
  end.

(** ** Admission *)

Inductive BeginError :=
| InvalidIdentity
| PayloadTooLarge
| ContentMismatch
| HistoryUnavailable
| HistoricalEvidence
| EvidenceEvicted
| TooManyActive.

Definition degrade (s : State) (e : string) : State :=
  {| entries := entries s; ack := ack s; dirty := dirty s; st_revision := st_revision s;
     persisted := persisted s; st_error := e; gap := gap s; seen := seen s |}.

(** [entries.iter().filter(terminal).min_by_key(revision)]. *)
Definition oldest_terminal (es : gmap string Snapshot) : option string :=
  fst <$> foldl (fun best kv =>
             if terminal kv.2 then
               match best with
               | Some b => if revision kv.2 <? revision b.2 then Some kv else best
               | None => Some kv
               end
             else best) None (map_to_list es).

Definition evict (s : State) (old : string) : State :=
  {| entries := delete old (entries s);
     ack := filter (fun e => e.2 <> old) (ack s);
     dirty := delete old (dirty s);
     st_revision := st_revision s;
     persisted := delete old (persisted s);
     st_error := st_error s;
     gap := is_some (dirty s !! old) || gap s;
     seen := seen s |}.

(** Room for one more entry: evict the oldest terminal one at the limit. *)
Definition make_room (s : State) : result BeginError State :=
  if (CACHE_LIMIT <=? size (entries s))%nat then
    match oldest_terminal (entries s) with
    | Some old => Ok (evict s old)
    | None => Err TooManyActive
    end
  else Ok s.

Section Journal.
Context (sha256 : string -> list Z).

Definition command_identity_digest (manager command : string) : list Z := sha256 (key manager command).

(** [Tracker::get]: memory first, then the journal ([lookup]). *)
Definition get (s : State) (lookup : result string (option Snapshot)) (manager command : string)
    : result string (option Snapshot) :=
  match entries s !! key manager command with
  | Some v =>
      Ok (Some (set_journal v (phase v) (error v) (attempts v) (revision v) (updated_at v)
                  (audit_incomplete v || negb (String.eqb (st_error s) ""))))
  | None => lookup
  end.

Definition request_hash_of (port normalized : string) : string :=
  hex_lower (sha256 (port +:+ NUL +:+ normalized)).

(** The snapshot of a new command. *)
Definition new_snapshot (i : Inner) (s : State) (manager command port : string) (ack_no : Z)
    (normalized timestamp : string) : Snapshot := {|
  schema_version := 1;
  manager_instance_id := manager;
  command_id := command;
  gateway_instance_id := gateway i;
  boot_id := boot i;
  port_id := port;
  ack_id := pretty ack_no;
  request_hash := request_hash_of port normalized;
  request_preview := take_chars 512 normalized;
  device_id := payload_device_id normalized;
  accepted := false;
  status_code := 0;
  phase := "Accepted";
  attempt_count := 0;
  sent_count := 0;
  attempts := [];
  error := "";
  revision := st_revision s;
  started_at := timestamp;
  updated_at := timestamp;
  audit_incomplete := negb (String.eqb (st_error s) "")
|}.

(** The reservation under the state lock, once the identity is known to be
    in neither the memory, the journal nor the start-up inventory. *)
Definition reserve (i : Inner) (s : State) (manager command port : string) (ack_no : Z)
    (normalized timestamp : string) : result BeginError (State * Snapshot) :=
  let indexes := filter_indexes (command_identity_digest manager command) (length (seen s)) in
  if forallb (seen_bit (seen s)) indexes then Err EvidenceEvicted
  else
    s ← make_room s;
    let s := {| entries := entries s; ack := ack s; dirty := dirty s;
                st_revision := st_revision s + 1; persisted := persisted s;
                st_error := st_error s; gap := gap s;
                seen := foldl set_seen_bit (seen s) indexes |} in
    let value := new_snapshot i s manager command port ack_no normalized timestamp in
    let k := snapshot_key value in
    Ok ({| entries := <[k := value]> (entries s); ack := <[(port, ack_no) := k]> (ack s);
           dirty := <[k := value]> (dirty s); st_revision := st_revision s;
           persisted := persisted s; st_error := st_error s; gap := gap s; seen := seen s |}, value).

(** [Tracker::begin] up to the release of the state lock.  The admission
    mutex excludes another [begin] between the lookup and the reservation. *)
Definition begin_admit (i : Inner) (s : State) (lookup : result string (option Snapshot))
    (manager command port : string) (ack_no : Z) (payload timestamp : string)
    : State * result BeginError (Snapshot * bool) :=
  if negb (forallb valid_identity_part [manager; command; port]) then (s, Err InvalidIdentity)
  else
    let normalized := normalize_payload payload in
    if 65536 <? Z.of_nat (String.length normalized) then (s, Err PayloadTooLarge)
    else
      let continue s :=
        if bool_decide (command_identity_digest manager command ∈ historical_ids i)
        then (s, Err HistoricalEvidence)
        else
          match reserve i s manager command port ack_no normalized timestamp with
          | Err e => (s, Err e)
          | Ok (s', value) => (s', Ok (value, true))
          end in
      match get s lookup manager command with
      | Ok (Some existing) =>
          if String.eqb (request_hash existing) (request_hash_of port normalized)
          then (s, Ok (existing, false))
          else (s, Err ContentMismatch)
      | Ok None => continue s
      | Err e =>
          let s := degrade s e in
          if history_known i then continue s else (s, Err HistoryUnavailable)
      end.

(** ** Updates *)

(** Keep the last 256 attempts. *)
Definition trim_attempts (v : Snapshot) : Snapshot :=
  if (256 <? length (attempts v))%nat
  then set_journal v (phase v) (error v) (drop (length (attempts v) - 256) (attempts v))
         (revision v) (updated_at v) true
  else v.

Definition update (s : State) (port : string) (ack_no : option Z) (change : Snapshot -> Snapshot)
    (now : string) : State :=
  match ack_no with
  | None => s
  | Some a =>
      match ack s !! (port, a) with
      | None => s
      | Some k =>
          let rev := st_revision s + 1 in
          match entries s !! k with
          | None => set_entries s (entries s) (dirty s) rev
          | Some v =>
              let v := change v in
              let v := trim_attempts (set_journal v (phase v) (error v) (attempts v) rev now
                                        (audit_incomplete v)) in
              set_entries s (<[k := v]> (entries s)) (<[k := v]> (dirty s)) rev
          end
      end
  end.

(** The end of [begin]: the reservation was persisted in time, or the
    journal is degraded and the entry marked. *)
Definition begin_confirm (s : State) (k port : string) (ack_no : Z) (value : Snapshot) (now : string) : State :=
  if match persisted s !! k with Some r => revision value <=? r | None => false end then s
  else update (degrade s "command acceptance not durably confirmed within 100 ms") port (Some ack_no)
         mark_incomplete now.

Definition is_terminal_ack (s : State) (port : string) (ack_no : Z) : bool :=
  match ack s !! (port, ack_no) ≫= fun k => entries s !! k with
  | Some v => terminal v
  | None => false
  end.

Definition validate_identity (i : Inner) (gw bt : string) : bool :=
  String.eqb gw (gateway i) && String.eqb bt (boot i).
End Journal.

(** ** The journal tables *)

(** The [commands] and [events] tables, [journal_meta.head] and
    [journal_integrity.history_gap].  A row's columns [revision], [finished],
    [updated] and [data] are the snapshot's own. *)
Record Db := {
  db_commands : gmap string Snapshot;
  db_events : gmap Z Snapshot;
  db_head : Z;
  db_gap : bool
}.

(** [save]: upsert guarded by the revision, event insert-or-ignore, head. *)
Definition save (db : Db) (v : Snapshot) : Db :=
  let k := snapshot_key v in
  {| db_commands :=
       match db_commands db !! k with
       | Some old => if revision old <? revision v then <[k := v]> (db_commands db) else db_commands db
       | None => <[k := v]> (db_commands db)
       end;
     db_events :=
       match db_events db !! revision v with
       | Some _ => db_events db
       | None => <[revision v := v]> (db_events db)
       end;
     db_head := Z.max (db_head db) (revision v);
     db_gap := db_gap db |}.

(** The rows [finished=1] beyond the first [keep] by descending revision. *)
Definition insert_by_revision (v : Snapshot) (l : list Snapshot) : list Snapshot :=
  (fix go l := match l with
               | [] => [v]
               | w :: l' => if revision w <? revision v then v :: l else w :: go l'
               end) l.
Definition beyond (keep : nat) (rows : gmap string Snapshot) : list string :=
  snapshot_key <$>
    drop keep (foldr insert_by_revision [] (filter (fun v => terminal v = true) (map_to_list rows).*2)).

Definition prune_journal (db : Db) (cutoff : string) (keep : nat) : Db :=
  let old := beyond keep (db_commands db) in
  let commands :=
    filter (fun kv => ~ (terminal kv.2 = true /\ (String.ltb (updated_at kv.2) cutoff = true \/ kv.1 ∈ old)))
      (db_commands db) in
  {| db_commands := commands;
     db_events := filter (fun rv => is_Some (commands !! snapshot_key rv.2)) (db_events db);
     db_head := db_head db;
     db_gap := db_gap db |}.

(** [open_database]'s revision and its marking of the unfinished commands of
    earlier processes. *)
Definition db_revision (db : Db) : Z :=
  Z.max (db_head db) (foldr (fun e acc => Z.max e.1 acc) 0 (map_to_list (db_events db))).

Definition mark_unknown (now : string) (rev : Z) (v : Snapshot) : Snapshot :=
  set_journal v "Unknown" "lower restarted before durable completion; never replayed" (attempts v)
    rev now true.

Definition recover_row (bt now : string) (st : Db * Z) (v : Snapshot) : Db * Z :=
  if String.eqb (boot_id v) bt then st
  else let rev := st.2 + 1 in (save st.1 (mark_unknown now rev v), rev).

Definition unfinished (db : Db) : list Snapshot :=
  filter (fun v => terminal v = false) (map_to_list (db_commands db)).*2.

Definition open_database (bt now : string) (db : Db) : Db * Z :=
  foldl (recover_row bt now) (db, db_revision db) (unfinished db).

(** ** The writer thread *)

(** Rebase the buffered snapshots above a journal that became accessible. *)
Definition rebase_key (s : State) (k : string) : State :=
  let rev := st_revision s + 1 in
  match entries s !! k with
  | Some v =>
      let v := set_journal v (phase v) (error v) (attempts v) rev (updated_at v) true in
      set_entries s (<[k := v]> (entries s)) (<[k := v]> (dirty s)) rev
  | None => set_entries s (entries s) (dirty s) rev
  end.

(** [dirty.keys()] in [BTreeMap] order. *)
Definition dirty_keys (s : State) : list string := sort_strings (map_to_list (dirty s)).*1.

Definition rebase (s : State) (rev : Z) : State :=
  let s := set_entries s (entries s) (dirty s) (Z.max (st_revision s) rev) in
  foldl rebase_key s (dirty_keys s).

(** [dirty.values().take(256)]. *)
Definition collect_batch (s : State) : list Snapshot :=
  take 256 (omap (fun k => dirty s !! k) (dirty_keys s)).

Definition save_succeeded (s : State) (v : Snapshot) : State :=
  let k := snapshot_key v in
  let d := match dirty s !! k with
           | Some x => if revision x =? revision v then delete k (dirty s) else dirty s
           | None => dirty s
           end in
  {| entries := entries s; ack := ack s; dirty := d; st_revision := st_revision s;
     persisted := <[k := revision v]> (persisted s);
     st_error := if decide (d = ∅) then "" else st_error s;
     gap := gap s; seen := seen s |}.

Definition mark_key (s : State) (k : string) : State :=
  match entries s !! k with
  | Some v =>
      set_entries s (<[k := mark_incomplete v]> (entries s)) (<[k := mark_incomplete v]> (dirty s))
        (st_revision s)
  | None => s
  end.

Definition save_failed (s : State) (e : string) : State := foldl mark_key (degrade s e) (dirty_keys s).

Definition set_gap (s : State) (g : bool) : State :=
  {| entries := entries s; ack := ack s; dirty := dirty s; st_revision := st_revision s;
     persisted := persisted s; st_error := st_error s; gap := g; seen := seen s |}.
Definition db_set_gap (db : Db) (g : bool) : Db :=
  {| db_commands := db_commands db; db_events := db_events db; db_head := db_head db; db_gap := g |}.

(** The cursor an [Events] request may advance to: just below the oldest
    unsaved snapshot, or the current revision. *)
Definition events_ceiling (s : State) : Z :=
  match (fun kv => u64_saturating_sub (revision kv.2) 1) <$> map_to_list (dirty s) with
  | [] => st_revision s
  | r :: rs => foldr Z.min r rs
  end.

(** ** The running tracker *)

(** The memory, the journal once it is open, and the batch the writer thread
    is saving. *)
Record World := { w_state : State; w_db : option Db; w_batch : list Snapshot }.

(** A journal file of this program: rows under their own keys, no revision
    above the head. *)
Record db_wf (db : Db) : Prop := {
  wf_commands : forall k v, db_commands db !! k = Some v -> snapshot_key v = k /\ revision v <= db_head db;
  wf_events : forall r v, db_events db !! r = Some v -> r <= db_head db;
  wf_head : 0 <= db_head db
}.

(** A change closure of a caller keeps the identity of the command. *)
Definition keeps_identity (change : Snapshot -> Snapshot) : Prop :=
  forall v, manager_instance_id (change v) = manager_instance_id v /\ command_id (change v) = command_id v.

Inductive Label := Admit (k : string) | Saved (rev : Z) | Internal.

Section Steps.
Context (sha256 : string -> list Z) (i : Inner).

Definition with_state (w : World) (s : State) : World :=
  {| w_state := s; w_db := w_db w; w_batch := w_batch w |}.

Definition begin_label (r : result BeginError (Snapshot * bool)) : Label :=
  match r with Ok (v, true) => Admit (snapshot_key v) | _ => Internal end.

(** One atomic step of a caller or of the writer thread. *)
Inductive step : World -> Label -> World -> Prop :=
| step_begin w lookup manager command port ack_no payload now s r :
    begin_admit sha256 i (w_state w) lookup manager command port ack_no payload now = (s, r) ->
    step w (begin_label r) (with_state w s)
| step_confirm w k port ack_no value now :
    step w Internal (with_state w (begin_confirm (w_state w) k port ack_no value now))
| step_update w port ack_no change now :
    keeps_identity change ->
    step w Internal (with_state w (update (w_state w) port ack_no change now))
| step_degrade w e : step w Internal (with_state w (degrade (w_state w) e))
| step_open w db db' rev now :
    w_db w = None -> w_batch w = [] -> db_wf db -> open_database (boot i) now db = (db', rev) ->
    step w Internal {| w_state := rebase (w_state w) rev; w_db := Some db'; w_batch := [] |}
| step_gap_store w db :
    w_db w = Some db -> gap (w_state w) = true ->
    step w Internal {| w_state := w_state w; w_db := Some (db_set_gap db true); w_batch := w_batch w |}
| step_gap_load w db :
    w_db w = Some db -> gap (w_state w) = false -> db_gap db = true ->
    step w Internal (with_state w (set_gap (w_state w) true))
| step_collect w db :
    w_db w = Some db -> w_batch w = [] ->
    step w Internal {| w_state := w_state w; w_db := Some db; w_batch := collect_batch (w_state w) |}
| step_save_ok w db v batch :
    w_db w = Some db -> w_batch w = v :: batch ->
    step w (Saved (revision v))
      {| w_state := save_succeeded (w_state w) v; w_db := Some (save db v); w_batch := batch |}
| step_save_err w e :
    w_batch w <> [] ->
    step w Internal {| w_state := save_failed (w_state w) e; w_db := w_db w; w_batch := [] |}
| step_prune w db cutoff :
    w_db w = Some db -> w_batch w = [] ->
    step w Internal {| w_state := w_state w; w_db := Some (prune_journal db cutoff KEEP_COUNT); w_batch := [] |}.

Inductive steps : World -> list Label -> World -> Prop :=
| steps_nil w : steps w [] w
| steps_cons w1 l w2 ls w3 : step w1 l w2 -> steps w2 ls w3 -> steps w1 (l :: ls) w3.

Definition admitted (ls : list Label) : list string :=
  omap (fun l => match l with Admit k => Some k | _ => None end) ls.
Definition saved (ls : list Label) : list Z :=
  omap (fun l => match l with Saved r => Some r | _ => None end) ls.
End Steps.

(** ** The tombstone filter remembers every admission *)

Lemma length_set_seen_bit l i : length (set_seen_bit l i) = length l.
Proof. apply length_alter. Qed.

Lemma set_seen_bit_mono l i j : seen_bit l j = true -> seen_bit (set_seen_bit l i) j = true.
Proof.
  unfold seen_bit, set_seen_bit. destruct (decide (i / 8 = j / 8)%nat) as [E|E].
  - rewrite E, list_lookup_alter_eq. destruct (l !! (j / 8)%nat) as [b|]; [|done]. simpl.
    rewrite Z.lor_spec. by intros ->.
  - by rewrite list_lookup_alter_ne.
Qed.

Lemma set_seen_bit_same l i : (i / 8 < length l)%nat -> seen_bit (set_seen_bit l i) i = true.
Proof.
  intros H. unfold seen_bit, set_seen_bit. rewrite list_lookup_alter_eq.
  destruct (lookup_lt_is_Some_2 _ _ H) as [b ->]. simpl.
  rewrite Z.lor_spec, Z.shiftl_spec, Z.sub_diag by lia. apply orb_true_r.
Qed.

Lemma set_seen_bits l is_ i :
  (forall j, j ∈ is_ -> (j / 8 < length l)%nat) ->
  length (foldl set_seen_bit l is_) = length l /\
  (seen_bit l i = true -> seen_bit (foldl set_seen_bit l is_) i = true) /\
  (i ∈ is_ -> seen_bit (foldl set_seen_bit l is_) i = true).
Proof.
  revert l. induction is_ as [|j is_ IH]; intros l Hr; simpl; [by split_and!; [| |intros ?%not_elem_of_nil]|].
  destruct (IH (set_seen_bit l j)) as (H1 & H2 & H3).
  { intros k Hk. rewrite length_set_seen_bit. apply Hr. by constructor. }
  rewrite length_set_seen_bit in H1. split_and!; [done|auto using set_seen_bit_mono|].
  intros [->|Hi]%elem_of_cons; [|auto]. apply H2, set_seen_bit_same, Hr. constructor.
Qed.

Lemma filter_indexes_range digest n i :
  (0 < n)%nat -> i ∈ filter_indexes digest n -> (i / 8 < n)%nat.
Proof.
  intros Hn (b & -> & _)%list_elem_of_fmap.
  apply Nat.Div0.div_lt_upper_bound.
  pose proof (Z.mod_pos_bound (le_value b) (Z.of_nat n * 8) ltac:(lia)). lia.
Qed.

Section Once.
Context (sha256 : string -> list Z) (i : Inner).

(** All the filter bits of [k] are set. *)
Definition tombstoned (l : list Z) (k : string) : bool :=
  forallb (seen_bit l) (filter_indexes (sha256 k) (length l)).

(** [s'] keeps what [s] remembers. *)
Definition remembers (s s' : State) : Prop :=
  length (seen s') = length (seen s) /\
  forall j, seen_bit (seen s) j = true -> seen_bit (seen s') j = true.

Lemma remembers_same s s' : seen s' = seen s -> remembers s s'.
Proof. by intros E; split; rewrite E. Qed.

Lemma remembers_trans s1 s2 s3 : remembers s1 s2 -> remembers s2 s3 -> remembers s1 s3.
Proof. intros [H1 H2] [H3 H4]. split; [congruence|auto]. Qed.

Lemma remembers_tombstoned s s' k :
  remembers s s' -> tombstoned (seen s) k = true -> tombstoned (seen s') k = true.
Proof.
  intros [Hl Hb]. unfold tombstoned. rewrite Hl, !forallb_forall. auto.
Qed.

Lemma update_seen s port a change now : seen (update s port a change now) = seen s.
Proof. unfold update. by repeat case_match. Qed.

Lemma fold_seen {A} (f : State -> A -> State) s l :
  (forall s a, seen (f s a) = seen s) -> seen (foldl f s l) = seen s.
Proof. intros H. revert s. induction l as [|a l IH]; intros s; simpl; [done|]. by rewrite IH. Qed.

Lemma rebase_key_seen s k : seen (rebase_key s k) = seen s.
Proof. unfold rebase_key. by case_match. Qed.
Lemma mark_key_seen s k : seen (mark_key s k) = seen s.
Proof. unfold mark_key. by case_match. Qed.

Lemma make_room_seen s s' : make_room s = Ok s' -> seen s' = seen s.
Proof. unfold make_room. intros H. repeat case_match; by simplify_eq. Qed.

Lemma reserve_seen s manager command port a nrm ts s' v :
  (0 < length (seen s))%nat ->
  reserve sha256 i s manager command port a nrm ts = Ok (s', v) ->
  snapshot_key v = key manager command /\
  tombstoned (seen s) (key manager command) = false /\ remembers s s' /\
  tombstoned (seen s') (key manager command) = true.
Proof.
  intros Hlen. unfold reserve, command_identity_digest.
  set (idx := filter_indexes (sha256 (key manager command)) (length (seen s))).
  destruct (forallb (seen_bit (seen s)) idx) eqn:Hb; [done|].
  intros (s1 & Hroom & H)%bind_Ok. apply make_room_seen in Hroom. injection H as <- <-. simpl.
  assert (Hr : forall j, j ∈ idx -> (j / 8 < length (seen s))%nat)
    by (intros j; by apply filter_indexes_range).
  destruct (set_seen_bits (seen s) idx 0%nat Hr) as (Hl & _ & _).
  rewrite Hroom. split_and!; [done|done| |].
  - split; simpl; [done|]. intros j. by apply set_seen_bits.
  - unfold tombstoned. simpl. rewrite Hl. fold idx. apply forallb_forall. intros j Hj.
    by apply set_seen_bits, list_elem_of_In.
Qed.

(** Equal up to the recorded error. *)
Definition same_but_error (s s' : State) : Prop := s' = s \/ exists e, s' = degrade s e.

(** The outcomes of [begin]: nothing reserved, or a reservation of an
    identity that is neither in memory nor in the inventory. *)
Lemma begin_admit_inv s lookup manager command port a payload now s' r :
  begin_admit sha256 i s lookup manager command port a payload now = (s', r) ->
  (same_but_error s s' /\ begin_label r = Internal) \/
  exists s0 v, same_but_error s s0 /\ r = Ok (v, true) /\
    reserve sha256 i s0 manager command port a (normalize_payload payload) now = Ok (s', v) /\
    entries s !! key manager command = None /\
    command_identity_digest sha256 manager command ∉ historical_ids i.
Proof.
  unfold begin_admit. destruct (negb _); [intros [= <- <-]; left; by split; [left|]|].
  destruct (Z.ltb _ _); [intros [= <- <-]; left; by split; [left|]|].
  unfold get. destruct (entries s !! key manager command) as [v0|] eqn:Ev.
  { destruct (String.eqb _ _); intros [= <- <-]; left; by split; [left|]. }
  assert (Hc : forall s0, same_but_error s s0 ->
    (if bool_decide (command_identity_digest sha256 manager command ∈ historical_ids i)
     then (s0, Err HistoricalEvidence)
     else match reserve sha256 i s0 manager command port a (normalize_payload payload) now with
          | Err e => (s0, Err e) | Ok (s', value) => (s', Ok (value, true)) end) = (s', r) ->
    (same_but_error s s' /\ begin_label r = Internal) \/
    exists s0 v, same_but_error s s0 /\ r = Ok (v, true) /\
      reserve sha256 i s0 manager command port a (normalize_payload payload) now = Ok (s', v) /\
      @None Snapshot = None /\ command_identity_digest sha256 manager command ∉ historical_ids i).
  { intros s0 Hs0. case_bool_decide; [by intros [= <- <-]; left|].
    destruct (reserve _ _ _ _ _ _ _ _ _) as [[s1 v]|e] eqn:Er; intros [= <- <-]; [right|by left].
    by exists s0, v. }
  destruct lookup as [[v|]|e].
  - destruct (String.eqb _ _); intros [= <- <-]; left; by split; [left|].
  - apply Hc. by left.
  - destruct (history_known i); [apply Hc; right; eauto|]. intros [= <- <-]. left. split; [right; eauto|done].
Qed.

Lemma same_but_error_seen s s' : same_but_error s s' -> seen s' = seen s.
Proof. by intros [->|[e ->]]. Qed.

(** A step keeps the filter; an admission was not remembered before and is
    remembered after. *)
Lemma step_remembers w l w' :
  (0 < length (seen (w_state w)))%nat -> step sha256 i w l w' ->
  remembers (w_state w) (w_state w') /\
  forall k, l = Admit k -> tombstoned (seen (w_state w)) k = false /\ tombstoned (seen (w_state w')) k = true.
Proof.
  intros Hlen Hstep. destruct Hstep as [w lookup manager command port a payload now s r H| | | | | | | | | |];
    simpl; try (split; [|done]); try by apply remembers_same.
  - apply begin_admit_inv in H as [[Hs ->]|(s0 & v & Hs & -> & Hr & _)].
    + split; [by apply remembers_same, same_but_error_seen|done].
    + apply same_but_error_seen in Hs. apply reserve_seen in Hr as (Hk & Ht & Hr & Ht'); [|by rewrite Hs].
      rewrite Hs in Ht. split.
      * eapply remembers_trans; [|exact Hr]. by apply remembers_same.
      * simpl. intros k [= <-]. by rewrite Hk.
  - apply remembers_same. unfold begin_confirm. case_match; [done|]. by rewrite update_seen.
  - apply remembers_same, update_seen.
  - apply remembers_same. unfold rebase. rewrite fold_seen; [done|apply rebase_key_seen].
  - apply remembers_same. unfold save_failed. rewrite fold_seen; [done|apply mark_key_seen].
Qed.

Lemma steps_admitted w ls w' (known : list string) :
  (0 < length (seen (w_state w)))%nat -> steps sha256 i w ls w' ->
  (forall k, k ∈ known -> tombstoned (seen (w_state w)) k = true) ->
  NoDup (admitted ls) /\ forall k, k ∈ admitted ls -> k ∉ known.
Proof.
  intros Hlen Hsteps. revert known. induction Hsteps as [|w1 l w2 ls w3 Hs _ IH]; intros known Hk.
  { split; [constructor|by intros k ?%not_elem_of_nil]. }
  destruct (step_remembers _ _ _ Hlen Hs) as [Hrem Hadm].
  assert (Hlen2 : (0 < length (seen (w_state w2)))%nat) by (destruct Hrem as [-> _]; done).
  assert (Hk2 : forall k, k ∈ known -> tombstoned (seen (w_state w2)) k = true)
    by (intros k ?; eapply remembers_tombstoned; eauto).
  destruct l as [k| |]; simpl; try by apply IH.
  destruct (Hadm k eq_refl) as [Hnot Htomb].
  destruct (IH Hlen2 (k :: known)) as [Hnd Hnew].
  { intros k' [->|?]%elem_of_cons; auto. }
  split.
  - constructor; [|done]. intros Hin. apply Hnew in Hin. set_solver.
  - intros k' [->|Hin]%elem_of_cons; [|apply Hnew in Hin; set_solver].
    intros Hin%Hk. congruence.
Qed.
End Once.

(** ** Invariants of the memory *)

Record mem_ok (s : State) : Prop := {
  mem_key : forall k v, entries s !! k = Some v -> snapshot_key v = k /\ 1 <= revision v <= st_revision s;
  mem_dirty : forall k v, dirty s !! k = Some v -> entries s !! k = Some v;
  mem_nonneg : 0 <= st_revision s;
  mem_bound : (size (entries s) <= CACHE_LIMIT)%nat
}.

(** One entry and its dirty copy written under a fresh or unchanged revision. *)
Lemma mem_ok_write s k v rev :
  mem_ok s -> is_Some (entries s !! k) -> snapshot_key v = k -> 1 <= revision v <= rev -> st_revision s <= rev ->
  mem_ok (set_entries s (<[k := v]> (entries s)) (<[k := v]> (dirty s)) rev).
Proof.
  intros [Hk Hd Hz Hb] [v0 Hv0] Hkey Hrev Hle. constructor; simpl; [| |lia|].
  - intros k' v' [[-> <-]|[? H]]%lookup_insert_Some; [done|]. apply Hk in H. split; [apply H|lia].
  - intros k' v' [[-> <-]|[? H]]%lookup_insert_Some; [by rewrite lookup_insert_eq|].
    rewrite lookup_insert_ne by done. auto.
  - by rewrite map_size_insert_Some by eauto.
Qed.

Lemma mem_ok_revision s rev : mem_ok s -> st_revision s <= rev -> mem_ok (set_entries s (entries s) (dirty s) rev).
Proof.
  intros [Hk Hd Hz Hb] Hle. constructor; simpl; auto; [|lia]. intros k v H. apply Hk in H. split; [apply H|lia].
Qed.

(** States that differ in none of the fields the invariant mentions. *)
Lemma mem_ok_same s s' :
  mem_ok s -> entries s' = entries s -> dirty s' = dirty s -> st_revision s' = st_revision s -> mem_ok s'.
Proof. intros [Hk Hd Hz Hb] He Hd' Hr. constructor; rewrite ?He, ?Hd', ?Hr; auto. Qed.

Lemma mem_ok_degrade s e : mem_ok s -> mem_ok (degrade s e).
Proof. intros H. by apply (mem_ok_same s). Qed.

Lemma oldest_terminal_in es k : oldest_terminal es = Some k -> exists v, es !! k = Some v /\ terminal v = true.
Proof.
  unfold oldest_terminal. intros (kv & H & ->)%fmap_Some.
  enough (Hin : forall l best, (forall b, best = Some b -> b ∈ map_to_list es /\ terminal b.2 = true) ->
    (forall b, b ∈ l -> b ∈ map_to_list es) ->
    forall b, foldl (fun best kv => if terminal kv.2 then
               match best with
               | Some b => if revision kv.2 <? revision b.2 then Some kv else best
               | None => Some kv
               end else best) best l = Some b -> b ∈ map_to_list es /\ terminal b.2 = true).
  { apply Hin in H as [H Ht]; [|done..]. destruct kv as [k v]. apply elem_of_map_to_list in H. eauto. }
  induction l as [|x l IH]; intros best Hbest Hl b Hb; simpl in Hb; [auto|].
  apply (IH _) in Hb; [done| |by intros; apply Hl; constructor].
  intros c. destruct (terminal x.2) eqn:Ht; [|auto].
  assert (x ∈ map_to_list es) by (apply Hl; constructor).
  destruct best as [b0|]; [|by intros [= <-]]. destruct (_ <? _); [by intros [= <-]|auto].
Qed.

Lemma make_room_ok s s' :
  mem_ok s -> make_room s = Ok s' ->
  mem_ok s' /\ (S (size (entries s')) <= CACHE_LIMIT)%nat /\ st_revision s' = st_revision s /\
  (forall k v, entries s' !! k = Some v -> entries s !! k = Some v /\ dirty s' !! k = dirty s !! k) /\
  (forall k, dirty s' !! k = dirty s !! k \/ entries s' !! k = None).
Proof.
  intros [Hk Hd Hz Hb]. unfold make_room. destruct (Nat.leb_spec CACHE_LIMIT (size (entries s))) as [Hfull|Hroom].
  - destruct (oldest_terminal (entries s)) as [old|] eqn:Ho; [|done]. intros [= <-].
    apply oldest_terminal_in in Ho as (v & Hv & _). simpl.
    assert (Hsz : size (delete old (entries s)) = Nat.pred (size (entries s)))
      by (by rewrite map_size_delete_Some by eauto).
    assert (Hpos : (0 < size (entries s))%nat) by (unfold CACHE_LIMIT in Hfull; lia).
    split_and!; [constructor; simpl| |done| |].
    + intros k w [? H]%lookup_delete_Some. auto.
    + intros k w [? H]%lookup_delete_Some. rewrite lookup_delete_ne by done. auto.
    + done.
    + lia.
    + lia.
    + intros k w [? H]%lookup_delete_Some. by rewrite lookup_delete_ne.
    + intros k. destruct (decide (k = old)) as [->|]; [right; apply lookup_delete_eq|left; by rewrite lookup_delete_ne].
  - intros [= <-]. split_and!; [done|lia|done|auto|auto].
Qed.

(** ** Invariants of the journal *)

Lemma save_wf db v : db_wf db -> db_wf (save db v).
Proof.
  intros [Hc He Hh]. constructor; simpl; [| |lia].
  - intros k w H. assert (Hcase : (k = snapshot_key v /\ w = v) \/ db_commands db !! k = Some w).
    { revert H. repeat case_match; rewrite ?lookup_insert_Some; naive_solver. }
    destruct Hcase as [[-> ->]|H']; [split; [done|lia]|]. apply Hc in H' as [? ?]. split; [done|lia].
  - intros r w H. assert (Hcase : r = revision v \/ db_events db !! r = Some w).
    { revert H. case_match; rewrite ?lookup_insert_Some; naive_solver. }
    destruct Hcase as [->|H']; [lia|]. apply He in H'. lia.
Qed.

Lemma prune_wf db cutoff keep : db_wf db -> db_wf (prune_journal db cutoff keep).
Proof.
  intros [Hc He Hh]. constructor; simpl; [| |done].
  - intros k v [H _]%map_lookup_filter_Some. auto.
  - intros r v [H _]%map_lookup_filter_Some. eauto.
Qed.

Lemma db_revision_head db : db_wf db -> db_revision db = db_head db.
Proof.
  intros [_ He H0]. unfold db_revision. apply Z.max_l.
  assert (H : forall l, (forall e, e ∈ l -> e.1 <= db_head db) ->
     foldr (fun (e : Z * Snapshot) acc => Z.max e.1 acc) 0 l <= db_head db).
  { induction l as [|e l IH]; intros Hl; simpl; [done|].
    assert (e.1 <= db_head db) by (apply Hl; constructor).
    assert (foldr (fun (e : Z * Snapshot) acc => Z.max e.1 acc) 0 l <= db_head db)
      by (apply IH; intros; apply Hl; by constructor). lia. }
  apply H. intros [r v] Hin%elem_of_map_to_list. eauto.
Qed.

(** Opening a journal leaves it well formed, at the returned revision, and
    only adds to it. *)
Lemma open_database_wf bt now db db' rev :
  db_wf db -> open_database bt now db = (db', rev) -> db_wf db' /\ db_head db' <= rev.
Proof.
  intros Hwf. unfold open_database. rewrite db_revision_head by done.
  assert (Hfold : forall l d r, db_wf d -> db_head d <= r ->
    foldl (recover_row bt now) (d, r) l = (db', rev) -> db_wf db' /\ db_head db' <= rev).
  { induction l as [|v l IH]; intros d r Hd Hr; simpl; [by intros [= <- <-]|].
    unfold recover_row at 2. destruct (String.eqb _ _); [by apply IH|].
    apply IH; [by apply save_wf|]. simpl. lia. }
  apply Hfold; [done|lia].
Qed.

(** Where the evidence of an entry is: still dirty, stored as it is, or
    finished and pruned. *)
Definition evidence_kept (s : State) (db : Db) : Prop :=
  forall k v, entries s !! k = Some v -> dirty s !! k = None ->
    db_commands db !! k = Some v \/ (terminal v = true /\ db_commands db !! k = None).

(** The row of a dirty entry is older than the entry. *)
Definition rows_behind (s : State) (db : Db) : Prop :=
  forall k v row, dirty s !! k = Some v -> db_commands db !! k = Some row -> revision row < revision v.

(** The writer's batch: distinct keys; an entry of the batch is still dirty,
    with the same snapshot or a newer one; its row is older. *)
Record batch_ok (s : State) (db : Db) (batch : list Snapshot) : Prop := {
  batch_nodup : NoDup (snapshot_key <$> batch);
  batch_rev : forall v, v ∈ batch -> revision v <= st_revision s;
  batch_entry : forall v e, v ∈ batch -> entries s !! snapshot_key v = Some e ->
    dirty s !! snapshot_key v = Some e /\ (e = v \/ revision v < revision e);
  batch_row : forall v row, v ∈ batch -> db_commands db !! snapshot_key v = Some row ->
    revision row < revision v
}.

Lemma batch_ok_nil s db : batch_ok s db [].
Proof. constructor; [apply NoDup_nil_2|..]; intros; exfalso; by eapply not_elem_of_nil. Qed.

Definition journal_ok (w : World) : Prop :=
  match w_db w with
  | None => w_batch w = [] /\
            forall k v, entries (w_state w) !! k = Some v -> dirty (w_state w) !! k = Some v
  | Some db => db_wf db /\ db_head db <= st_revision (w_state w) /\
               evidence_kept (w_state w) db /\ rows_behind (w_state w) db /\
               batch_ok (w_state w) db (w_batch w)
  end.

Record world_ok (w : World) : Prop := {
  world_mem : mem_ok (w_state w);
  world_journal : journal_ok w
}.

(** A state change that leaves the journal alone: every entry is as it was
    with its dirty copy, or dirty under a revision above all earlier ones. *)
Definition memory_move (s s' : State) : Prop :=
  st_revision s <= st_revision s' /\
  forall k v, entries s' !! k = Some v ->
    (entries s !! k = Some v /\ dirty s' !! k = dirty s !! k) \/
    (dirty s' !! k = Some v /\ st_revision s < revision v).

Lemma memory_move_journal w s' :
  mem_ok (w_state w) -> mem_ok s' -> memory_move (w_state w) s' -> journal_ok w -> journal_ok (with_state w s').
Proof.
  intros Hm Hm' [Hrev Hmove] Hj. unfold journal_ok in *. simpl.
  destruct (w_db w) as [db|].
  - destruct Hj as (Hwf & Hhead & Hkept & Hbehind & [Hnd Hbrev Hbe Hbr]). split_and!; [done|lia| | |constructor].
    + intros k v Hv Hd. destruct (Hmove k v Hv) as [[He Heq]|[Heq _]]; [|congruence].
      apply Hkept; congruence.
    + intros k v row Hd Hrow. pose proof (mem_dirty _ Hm' _ _ Hd) as He.
      destruct (Hmove k v He) as [[He0 Heq]|[_ Hlt]].
      * eapply Hbehind; [|done]. congruence.
      * destruct (wf_commands _ Hwf _ _ Hrow). lia.
    + done.
    + intros v Hv. apply Hbrev in Hv. lia.
    + intros v e Hv He. destruct (Hmove _ _ He) as [[He0 Heq]|[Heq Hlt]].
      * rewrite Heq. auto.
      * split; [done|]. right. apply Hbrev in Hv. lia.
    + auto.
  - destruct Hj as [Hb Hall]. split; [done|]. intros k v Hv.
    destruct (Hmove k v Hv) as [[He Heq]|[Heq _]]; [rewrite Heq; auto|done].
Qed.

(** ** Every operation keeps the invariants *)

Lemma reserve_ok sha256 i s manager command port a nrm ts s' v :
  mem_ok s -> reserve sha256 i s manager command port a nrm ts = Ok (s', v) ->
  mem_ok s' /\ memory_move s s'.
Proof.
  intros Hm. unfold reserve. destruct (forallb _ _); [done|].
  intros (s1 & Hroom & H)%bind_Ok. destruct (make_room_ok _ _ Hm Hroom) as (Hm1 & Hsz & Hrev & Hold & _).
  simpl in H. set (value := new_snapshot _ _ _ _ _ _ _ _ _) in H. set (k := snapshot_key value) in H.
  assert (Hvrev : revision value = st_revision s1 + 1) by done.
  assert (Hkv : snapshot_key value = k) by done. clearbody k.
  injection H as <- <-. destruct Hm1 as [Hk Hd Hz Hb]. split; [constructor|split]; simpl.
  - intros k' v' [[-> <-]|[? H]]%lookup_insert_Some; [split; [done|lia]|]. apply Hk in H. split; [apply H|lia].
  - intros k' v' [[-> <-]|[? H]]%lookup_insert_Some; [by rewrite lookup_insert_eq|].
    rewrite lookup_insert_ne by done. auto.
  - lia.
  - rewrite map_size_insert. case_match; simpl; lia.
  - lia.
  - intros k' v' [[-> <-]|[? H]]%lookup_insert_Some.
    + right. rewrite lookup_insert_eq. split; [done|lia].
    + left. rewrite lookup_insert_ne by done. by apply Hold.
Qed.

Lemma trim_attempts_fields v :
  snapshot_key (trim_attempts v) = snapshot_key v /\ revision (trim_attempts v) = revision v.
Proof. unfold trim_attempts. by case_match. Qed.

Lemma memory_move_refl s : memory_move s s.
Proof. split; [lia|auto]. Qed.

Lemma memory_move_write s k v rev :
  st_revision s < revision v -> st_revision s <= rev ->
  memory_move s (set_entries s (<[k := v]> (entries s)) (<[k := v]> (dirty s)) rev).
Proof.
  intros Hv Hr. split; [done|]. simpl. intros k' v' [[-> <-]|[? H]]%lookup_insert_Some; simpl.
  - right. by rewrite lookup_insert_eq.
  - left. by rewrite lookup_insert_ne.
Qed.

Lemma update_ok s port a change now :
  mem_ok s -> keeps_identity change ->
  mem_ok (update s port a change now) /\ memory_move s (update s port a change now).
Proof.
  intros Hm Hch. unfold update. destruct a as [a|]; [|by auto using memory_move_refl].
  destruct (ack s !! (port, a)) as [k|]; [|by auto using memory_move_refl].
  destruct (entries s !! k) as [v|] eqn:Hv.
  - set (v' := trim_attempts _). destruct (mem_key _ Hm _ _ Hv) as [Hk _].
    pose proof (mem_nonneg _ Hm).
    assert (Hk' : snapshot_key v' = k /\ revision v' = st_revision s + 1).
    { unfold v'. rewrite !(proj1 (trim_attempts_fields _)), !(proj2 (trim_attempts_fields _)). simpl.
      split; [|done]. unfold snapshot_key in *. simpl. destruct (Hch v) as [-> ->]. done. }
    destruct Hk' as [Hk1 Hk2].
    split; [apply mem_ok_write; eauto; lia|apply memory_move_write; lia].
  - split; [apply mem_ok_revision; [done|lia]|]. split; simpl; [lia|auto].
Qed.

Lemma begin_confirm_ok s k port a value now :
  mem_ok s ->
  mem_ok (begin_confirm s k port a value now) /\ memory_move s (begin_confirm s k port a value now).
Proof.
  intros Hm. unfold begin_confirm. case_match; [by auto using memory_move_refl|].
  destruct (update_ok (degrade s "command acceptance not durably confirmed within 100 ms") port (Some a)
              mark_incomplete now) as [H1 H2]; [by apply mem_ok_degrade|done|auto].
Qed.

(** *** Rebasing onto a journal *)

Lemma elem_of_dirty_keys s k : k ∈ dirty_keys s <-> is_Some (dirty s !! k).
Proof.
  unfold dirty_keys. rewrite elem_of_sort_strings, list_elem_of_fmap. split.
  - intros ([k' v] & -> & H%elem_of_map_to_list). eauto.
  - intros [v Hv]. exists (k, v). by rewrite elem_of_map_to_list.
Qed.

(** All entries dirty, and above [floor] except those still pending. *)
Definition rebasing (floor : Z) (pending : list string) (s : State) : Prop :=
  mem_ok s /\ floor <= st_revision s /\
  (forall k v, entries s !! k = Some v -> dirty s !! k = Some v) /\
  (forall k v, entries s !! k = Some v -> k ∈ pending \/ floor < revision v).

Lemma rebase_key_ok floor k pending s : rebasing floor (k :: pending) s -> rebasing floor pending (rebase_key s k).
Proof.
  intros (Hm & Hf & Hall & Hp). unfold rebase_key. destruct (entries s !! k) as [v|] eqn:Hv.
  - destruct (mem_key _ Hm _ _ Hv) as [Hk _]. pose proof (mem_nonneg _ Hm) as Hz. split_and!; simpl.
    + apply mem_ok_write; eauto; simpl; lia.
    + lia.
    + intros k' v' [[-> <-]|[? H]]%lookup_insert_Some; [by rewrite lookup_insert_eq|].
      rewrite lookup_insert_ne by done. auto.
    + intros k' v' [[-> <-]|[? H]]%lookup_insert_Some; simpl; [right; lia|].
      destruct (Hp k' v' H) as [?|?]; [set_solver|auto].
  - split_and!; simpl; [apply mem_ok_revision; [done|lia]|lia|done|].
    intros k' v' H. destruct (Hp k' v' H) as [[->|?]%elem_of_cons|?]; [congruence|auto|auto].
Qed.

Lemma rebase_ok s rev :
  mem_ok s -> (forall k v, entries s !! k = Some v -> dirty s !! k = Some v) ->
  rebasing (Z.max (st_revision s) rev) [] (rebase s rev).
Proof.
  intros Hm Hall. unfold rebase. set (s0 := set_entries _ _ _ _).
  assert (H0 : rebasing (Z.max (st_revision s) rev) (dirty_keys s0) s0).
  { split_and!; simpl; [apply mem_ok_revision; [done|lia]|lia|done|].
    intros k v Hv. left. apply elem_of_dirty_keys. simpl. eauto. }
  revert H0. generalize (dirty_keys s0). clearbody s0. intros l. revert s0.
  induction l as [|k l IH]; intros s0 H0; simpl; [done|]. by apply IH, rebase_key_ok.
Qed.

(** *** A failed save *)

(** Dirty entries may be rewritten under their own revision. *)
Definition mark_move (s s' : State) : Prop :=
  st_revision s' = st_revision s /\
  forall k v, entries s' !! k = Some v ->
    (entries s !! k = Some v /\ dirty s' !! k = dirty s !! k) \/
    (exists v0, dirty s !! k = Some v0 /\ dirty s' !! k = Some v /\ revision v = revision v0).

Lemma mark_key_ok s0 s k :
  mem_ok s0 -> mem_ok s -> mark_move s0 s -> is_Some (dirty s0 !! k) -> mem_ok (mark_key s k) /\ mark_move s0 (mark_key s k).
Proof.
  intros Hm0 Hm [Hr Hmv] [d Hd]. unfold mark_key. destruct (entries s !! k) as [v|] eqn:Hv; [|done].
  destruct (mem_key _ Hm _ _ Hv). split; [apply mem_ok_write; eauto; lia|].
  split; simpl; [done|]. intros k' v' [[-> <-]|[? H']]%lookup_insert_Some.
  - right. exists d. rewrite lookup_insert_eq. split_and!; [done..|]. simpl.
    destruct (Hmv _ _ Hv) as [[He _]|(v0 & Hv0 & _ & ?)]; [|congruence].
    pose proof (mem_dirty _ Hm0 _ _ Hd). congruence.
  - rewrite lookup_insert_ne by done. auto.
Qed.

Lemma save_failed_ok s e : mem_ok s -> mem_ok (save_failed s e) /\ mark_move s (save_failed s e).
Proof.
  intros Hm. unfold save_failed.
  assert (H : forall l s1, (forall k, k ∈ l -> is_Some (dirty s !! k)) -> mem_ok s1 -> mark_move s s1 ->
    mem_ok (foldl mark_key s1 l) /\ mark_move s (foldl mark_key s1 l)).
  { induction l as [|k l IH]; intros s1 Hl Hm1 Hmv; simpl; [done|].
    destruct (mark_key_ok s s1 k) as [? ?]; [done..|apply Hl; constructor|].
    apply IH; [intros; apply Hl; by constructor|done..]. }
  apply H; [|by apply mem_ok_degrade|by split; [|left]].
  intros k Hk. by apply elem_of_dirty_keys in Hk.
Qed.

Lemma mark_move_journal s s' db :
  mem_ok s' -> mark_move s s' ->
  evidence_kept s db -> rows_behind s db -> evidence_kept s' db /\ rows_behind s' db.
Proof.
  intros Hm' [_ Hmv] Hk Hb. split.
  - intros k v Hv Hd. destruct (Hmv _ _ Hv) as [[? Heq]|(v0 & _ & ? & _)]; [|congruence].
    apply Hk; congruence.
  - intros k v row Hd Hrow. destruct (Hmv k v (mem_dirty _ Hm' _ _ Hd)) as [[_ Heq]|(v0 & Hv0 & _ & Hrev)].
    + eapply Hb; [|done]. congruence.
    + rewrite Hrev. by eapply Hb.
Qed.

(** *** Collecting and saving a batch *)

Lemma collect_batch_in s v : mem_ok s -> v ∈ collect_batch s -> dirty s !! snapshot_key v = Some v.
Proof.
  intros Hm Hv. unfold collect_batch in Hv. apply elem_of_take in Hv as (n & Hn & _).
  apply list_elem_of_lookup_2, list_elem_of_omap in Hn as (k & _ & Hk).
  destruct (mem_key _ Hm _ _ (mem_dirty _ Hm _ _ Hk)) as [-> _]. done.
Qed.

Lemma NoDup_dirty_keys s : NoDup (dirty_keys s).
Proof. unfold dirty_keys. rewrite sort_strings_perm. apply NoDup_fst_map_to_list. Qed.

Lemma NoDup_omap_keys (m : gmap string Snapshot) ks :
  (forall k v, m !! k = Some v -> snapshot_key v = k) -> NoDup ks ->
  NoDup (snapshot_key <$> omap (fun k => m !! k) ks).
Proof.
  intros Hm. induction 1 as [|k ks Hk _ IH]; simpl; [constructor|].
  destruct (m !! k) as [v|] eqn:Hv; [|done]. simpl. constructor; [|done].
  rewrite (Hm _ _ Hv). intros (w & Hw & (k' & Hk' & Hw')%list_elem_of_omap)%list_elem_of_fmap.
  apply Hm in Hw'. congruence.
Qed.

Lemma collect_batch_ok s db : mem_ok s -> rows_behind s db -> batch_ok s db (collect_batch s).
Proof.
  intros Hm Hb. constructor.
  - unfold collect_batch. rewrite fmap_take. eapply sublist_NoDup; [|apply sublist_take].
    apply NoDup_omap_keys; [|apply NoDup_dirty_keys].
    intros k v Hv. by apply (mem_key _ Hm), (mem_dirty _ Hm).
  - intros v Hv%collect_batch_in; [|done]. by apply (mem_key _ Hm _ _ (mem_dirty _ Hm _ _ Hv)).
  - intros v e Hv%collect_batch_in He; [|done]. rewrite Hv. pose proof (mem_dirty _ Hm _ _ Hv).
    split; [congruence|left; congruence].
  - intros v row Hv%collect_batch_in Hrow; [|done]. by eapply Hb.
Qed.

(** The row of the saved snapshot, and the other rows. *)
Lemma save_commands db v k :
  (forall row, db_commands db !! snapshot_key v = Some row -> revision row < revision v) ->
  db_commands (save db v) !! k = if decide (k = snapshot_key v) then Some v else db_commands db !! k.
Proof.
  intros Hrow. simpl. case_match eqn:E.
  - rewrite (proj2 (Z.ltb_lt _ _) (Hrow _ eq_refl)). rewrite lookup_insert. repeat case_decide; congruence.
  - rewrite lookup_insert. repeat case_decide; congruence.
Qed.

Lemma save_succeeded_ok s db v batch :
  mem_ok s -> journal_ok {| w_state := s; w_db := Some db; w_batch := v :: batch |} ->
  mem_ok (save_succeeded s v) /\
  journal_ok {| w_state := save_succeeded s v; w_db := Some (save db v); w_batch := batch |}.
Proof.
  intros Hm (Hwf & Hhead & Hkept & Hbehind & [Hnd Hbrev Hbe Hbr]). simpl in *.
  assert (Hv : v ∈ v :: batch) by constructor.
  pose proof (save_commands db v) as Hsc. pose proof (fun row => Hbr v row Hv) as Hrow.
  set (kv := snapshot_key v) in *.
  assert (Hdirty : forall k, dirty (save_succeeded s v) !! k = dirty s !! k \/
            (k = kv /\ dirty s !! k = Some v /\ dirty (save_succeeded s v) !! k = None)).
  { intros k. simpl. fold kv. destruct (dirty s !! kv) as [x|] eqn:Hx; [|auto].
    destruct (Z.eqb_spec (revision x) (revision v)); [|auto].
    destruct (decide (k = kv)) as [->|]; [|left; by rewrite lookup_delete_ne].
    right. rewrite lookup_delete_eq. split_and!; [done| |done].
    destruct (Hbe v x Hv (mem_dirty _ Hm _ _ Hx)) as [_ [->|?]]; [done|lia]. }
  assert (Hds : forall k d, dirty (save_succeeded s v) !! k = Some d -> dirty s !! k = Some d).
  { intros k d Hd. destruct (Hdirty k) as [<-|(_ & _ & ?)]; congruence. }
  split.
  { constructor; [apply Hm| |apply Hm|apply Hm]. intros k d Hd. by apply (mem_dirty _ Hm), Hds. }
  split_and!; [by apply save_wf|simpl; specialize (Hbrev v Hv); lia| | |].
  - intros k e He Hd. cbn [w_state] in *. change (entries s !! k = Some e) in He.
    rewrite Hsc by done. case_decide as Hk.
    + subst k. left. destruct (Hbe v e Hv He) as [Hde _]. fold kv in Hde.
      destruct (Hdirty kv) as [Heq|(_ & Hdv & _)]; [congruence|]. congruence.
    + destruct (Hdirty k) as [Heq|(? & _)]; [|done]. apply Hkept; [done|congruence].
  - intros k d row Hd. rewrite Hsc by done. case_decide as Hk; [|by eapply Hbehind; eauto].
    intros [= <-]. subst k.
    destruct (Hbe v d Hv (mem_dirty _ Hm _ _ (Hds _ _ Hd))) as [_ [->|?]]; [|done].
    exfalso. simpl in Hd. fold kv in Hd. rewrite (Hds _ _ Hd), Z.eqb_refl, lookup_delete_eq in Hd. done.
  - apply NoDup_cons in Hnd as [Hnew Hnd]. constructor; [done| | |].
    + intros u Hu. apply Hbrev. by constructor.
    + intros u e Hu He. cbn [w_state] in *. change (entries s !! snapshot_key u = Some e) in He.
      assert (Hne : snapshot_key u <> kv) by (intros E; apply Hnew; fold kv; rewrite <- E; by apply list_elem_of_fmap_2).
      destruct (Hdirty (snapshot_key u)) as [->|(? & _)]; [|done]. apply Hbe; [by constructor|done].
    + intros u row Hu. rewrite Hsc by done. case_decide as E; [|by apply Hbr; constructor].
      destruct Hnew. fold kv. rewrite <- E. by apply list_elem_of_fmap_2.
Qed.

Lemma prune_kept s db cutoff keep :
  evidence_kept s db -> rows_behind s db ->
  evidence_kept s (prune_journal db cutoff keep) /\ rows_behind s (prune_journal db cutoff keep).
Proof.
  intros Hk Hb. split.
  - intros k v Hv Hd. destruct (Hk k v Hv Hd) as [Hrow|[Ht Hn]].
    + destruct (db_commands (prune_journal db cutoff keep) !! k) as [w|] eqn:E.
      * left. simpl in E. apply map_lookup_filter_Some in E as [E _]. congruence.
      * right. split; [|done]. simpl in E. apply map_lookup_filter_None in E as [E|E]; [congruence|].
        specialize (E v Hrow). simpl in E. destruct (terminal v); [done|]. exfalso. apply E. by intros [? _].
    + right. split; [done|]. simpl. apply map_lookup_filter_None. by left.
  - intros k v row Hd Hrow. simpl in Hrow. apply map_lookup_filter_Some in Hrow as [Hrow _]. by eapply Hb.
Qed.

(** ** The running tracker keeps its invariants *)

Section Invariant.
Context (sha256 : string -> list Z) (i : Inner).

Lemma same_but_error_ok s s' : same_but_error s s' -> mem_ok s -> mem_ok s' /\ memory_move s s'.
Proof.
  intros [->|[e ->]] Hm; (split; [by try apply mem_ok_degrade|exact (memory_move_refl s)]).
Qed.

Lemma memory_move_trans s1 s2 s3 :
  same_but_error s1 s2 -> memory_move s2 s3 -> memory_move s1 s3.
Proof. by intros [->|[e ->]]. Qed.

(** A caller's operation. *)
Lemma memory_step w s' :
  world_ok w -> mem_ok s' /\ memory_move (w_state w) s' -> world_ok (with_state w s').
Proof. intros [Hm Hj] [Hm' Hmv]. constructor; [done|]. by apply memory_move_journal. Qed.

Lemma step_ok w l w' : world_ok w -> step sha256 i w l w' -> world_ok w'.
Proof.
  intros Hw Hstep. pose proof (world_mem _ Hw) as Hm. pose proof (world_journal _ Hw) as Hj.
  destruct Hstep as [w lookup manager command port a payload now s r H| | | |w db db' rev now Hdb Hb Hwf Ho
    |w db Hdb Hg|w db Hdb Hg Hg'|w db Hdb Hb|w db v batch Hdb Hb|w e Hb|w db cutoff Hdb Hb].
  - apply memory_step; [done|].
    apply begin_admit_inv in H as [[Hs _]|(s0 & v & Hs & _ & Hr & _)]; [by apply same_but_error_ok|].
    destruct (same_but_error_ok _ _ Hs Hm) as [Hm0 _]. apply reserve_ok in Hr as [? ?]; [|done].
    split; [done|]. by eapply memory_move_trans.
  - apply memory_step; [done|]. by apply begin_confirm_ok.
  - apply memory_step; [done|]. by apply update_ok.
  - apply memory_step; [done|]. apply same_but_error_ok; [right; eauto|done].
  - unfold journal_ok in Hj. rewrite Hdb in Hj. destruct Hj as [_ Hall].
    apply open_database_wf in Ho as [Hwf' Hhead]; [|done].
    destruct (rebase_ok (w_state w) rev Hm Hall) as (Hm' & Hf & Hall' & Hp).
    constructor; [done|]. split_and!; simpl; [done|lia| | |].
    + intros k v Hv Hd. apply Hall' in Hv. congruence.
    + intros k v row Hd Hrow. destruct (Hp k v (mem_dirty _ Hm' _ _ Hd)) as [?%not_elem_of_nil|?]; [done|].
      apply Hwf' in Hrow. lia.
    + apply batch_ok_nil.
  - unfold journal_ok in Hj. rewrite Hdb in Hj. constructor; [done|].
    destruct Hj as ([? ? ?] & ? & ? & ? & [? ? ? ?]). split_and!; try done; by constructor.
  - apply memory_step; [done|]. split; [by apply (mem_ok_same (w_state w))|exact (memory_move_refl (w_state w))].
  - unfold journal_ok in Hj. rewrite Hdb in Hj. destruct Hj as (? & ? & ? & ? & _).
    constructor; [done|]. split_and!; try done. by apply collect_batch_ok.
  - destruct w as [s odb b]. simpl in *. subst. destruct (save_succeeded_ok s db v batch Hm Hj). by constructor.
  - destruct (save_failed_ok (w_state w) e Hm) as [Hm' Hmv]. constructor; [done|].
    unfold journal_ok in *. simpl. destruct (w_db w) as [db|].
    + destruct Hj as (? & ? & Hk & Hbh & _). destruct (mark_move_journal _ _ db Hm' Hmv Hk Hbh).
      split_and!; try done; [destruct Hmv as [-> _]; done|].
      apply batch_ok_nil.
    + by destruct Hj as [? _].
  - unfold journal_ok in Hj. rewrite Hdb in Hj. destruct Hj as (Hwf & ? & Hk & Hbh & _).
    constructor; [done|]. destruct (prune_kept _ _ cutoff KEEP_COUNT Hk Hbh).
    split_and!; try done; [by apply prune_wf|].
    apply batch_ok_nil.
Qed.

Lemma steps_ok w ls w' : world_ok w -> steps sha256 i w ls w' -> world_ok w'.
Proof. intros Hw H. induction H; eauto using step_ok. Qed.

(** The process just started: empty memory, the journal opened or not. *)
Record startup (w : World) : Prop := {
  start_state : exists rev e, w_state w = initial_state rev e /\ 0 <= rev /\
    match w_db w with Some db => db_wf db /\ db_head db <= rev | None => True end;
  start_batch : w_batch w = []
}.

Lemma startup_ok w : startup w -> world_ok w.
Proof.
  intros [(rev & e & Hs & Hrev & Hdb) Hb]. constructor; [|unfold journal_ok]; rewrite ?Hs.
  - constructor; simpl; [done|done|done|]. rewrite map_size_empty. lia.
  - destruct (w_db w) as [db|]; [|done]. destruct Hdb. split_and!; try done. rewrite Hb.
    apply batch_ok_nil.
Qed.
End Invariant.

(** ** Event cursors *)

Section Cursor.
Context (sha256 : string -> list Z) (i : Inner).

(** Everything the writer can still save lies above [c]. *)
Record above (c : Z) (w : World) : Prop := {
  above_dirty : forall k v, dirty (w_state w) !! k = Some v -> c < revision v;
  above_batch : forall v, v ∈ w_batch w -> c < revision v;
  above_now : c <= st_revision (w_state w)
}.

(** Whatever is dirty after a memory operation was dirty before under the
    same revision, or is newer than the whole past. *)
Lemma memory_move_above c w s' :
  mem_ok s' -> memory_move (w_state w) s' -> above c w -> above c (with_state w s').
Proof.
  intros Hm' [Hrev Hmv] [Hd Hb Hn]. constructor; simpl; [|done|lia].
  intros k v Hv. destruct (Hmv k v (mem_dirty _ Hm' _ _ Hv)) as [[_ Heq]|[_ ?]]; [|lia].
  apply (Hd k). congruence.
Qed.

Lemma step_above c w l w' :
  world_ok w -> world_ok w' -> above c w -> step sha256 i w l w' ->
  above c w' /\ forall r, l = Saved r -> c < r.
Proof.
  intros Hw Hw' Ha Hstep. pose proof (world_mem _ Hw) as Hm. pose proof (world_mem _ Hw') as Hm'.
  pose proof (world_journal _ Hw) as Hj. pose proof Ha as [Hd Hb Hn].
  destruct Hstep as [w lookup manager command port a payload now s r H| | | |w db db' rev now Hdb Hbn Hwf Ho
    |w db Hdb Hg|w db Hdb Hg Hg'|w db Hdb Hbn|w db v batch Hdb Hbn|w e Hbn|w db cutoff Hdb Hbn].
  - split; [|by destruct r as [[v []]|]]. apply memory_move_above; [done| |done].
    apply begin_admit_inv in H as [[Hs _]|(s0 & v & Hs & _ & Hr & _)]; [by apply same_but_error_ok|].
    destruct (same_but_error_ok _ _ Hs Hm) as [Hm0 _]. apply reserve_ok in Hr as [? ?]; [|done].
    by eapply memory_move_trans.
  - split; [|done]. apply memory_move_above; [done| |done]. by apply begin_confirm_ok.
  - split; [|done]. apply memory_move_above; [done| |done]. by apply update_ok.
  - split; [|done]. by constructor.
  - split; [|done]. unfold journal_ok in Hj. rewrite Hdb in Hj. destruct Hj as [_ Hall].
    destruct (rebase_ok (w_state w) rev Hm Hall) as (_ & Hf & _ & Hp).
    constructor; simpl; [|by intros ? ?%not_elem_of_nil|lia]. intros k v Hv.
    destruct (Hp k v (mem_dirty _ Hm' _ _ Hv)) as [?%not_elem_of_nil|?]; [done|lia].
  - split; [|done]. by constructor.
  - split; [|done]. by constructor.
  - split; [|done]. constructor; simpl; [done| |done]. intros v Hv%collect_batch_in; eauto.
  - assert (c < revision v) by (apply Hb; rewrite Hbn; constructor).
    split; [|by intros r [= <-]]. constructor; simpl; [|intros u Hu; apply Hb; rewrite Hbn; by constructor|done].
    intros k d. repeat case_match; [intros [_ ?]%lookup_delete_Some; eauto|eauto|eauto].
  - split; [|done]. destruct (save_failed_ok (w_state w) e Hm) as [_ [Hr Hmv]].
    constructor; simpl; [|by intros ? ?%not_elem_of_nil|lia].
    intros k v Hv. destruct (Hmv k v (mem_dirty _ Hm' _ _ Hv)) as [[_ Heq]|(v0 & Hv0 & _ & ->)]; [|eauto].
    apply (Hd k). congruence.
  - split; [|done]. constructor; simpl; [done|by intros ? ?%not_elem_of_nil|done].
Qed.

Lemma events_ceiling_above w : mem_ok (w_state w) -> w_batch w = [] -> above (events_ceiling (w_state w)) w.
Proof.
  intros Hm Hb. unfold events_ceiling. set (f := fun kv : string * Snapshot => u64_saturating_sub (revision kv.2) 1).
  assert (Hmin : forall r rs x, x ∈ r :: rs -> foldr Z.min r rs <= x).
  { intros r rs. induction rs as [|y rs IH]; intros x Hx; simpl.
    - apply list_elem_of_singleton in Hx. lia.
    - apply elem_of_cons in Hx as [->|[->|Hx]%elem_of_cons]; [|lia|].
      + specialize (IH r ltac:(constructor)). lia.
      + specialize (IH x ltac:(by constructor)). lia. }
  assert (Hx : forall k v, dirty (w_state w) !! k = Some v -> f (k, v) ∈ f <$> map_to_list (dirty (w_state w))).
  { intros k v Hv. apply list_elem_of_fmap_2. by apply elem_of_map_to_list. }
  assert (Hf : forall k v, dirty (w_state w) !! k = Some v -> f (k, v) < revision v /\ f (k, v) <= st_revision (w_state w)).
  { intros k v Hv. apply (mem_dirty _ Hm), (mem_key _ Hm) in Hv as [_ Hv].
    unfold f, u64_saturating_sub. simpl. lia. }
  destruct (f <$> map_to_list (dirty (w_state w))) as [|r rs] eqn:E.
  - constructor; [|rewrite Hb; by intros ? ?%not_elem_of_nil|done].
    intros k v Hv. apply Hx in Hv. by apply not_elem_of_nil in Hv.
  - assert (Hr : r ∈ f <$> map_to_list (dirty (w_state w))) by (rewrite E; constructor).
    apply list_elem_of_fmap in Hr as ([k0 v0] & -> & Hk0%elem_of_map_to_list).
    constructor; [|rewrite Hb; by intros ? ?%not_elem_of_nil|].
    + intros k v Hv. specialize (Hmin _ _ _ (Hx _ _ Hv)). destruct (Hf _ _ Hv). lia.
    + specialize (Hmin _ rs _ (Hx _ _ Hk0)). destruct (Hf _ _ Hk0). lia.
Qed.
End Cursor.

(** ** Properties *)

Section Properties.
Context (sha256 : string -> list Z) (i : Inner).

Lemma steps_historical w ls w' k :
  steps sha256 i w ls w' -> k ∈ admitted ls -> sha256 k ∉ historical_ids i.
Proof.
  induction 1 as [|w1 l w2 ls w3 Hs _ IH]; [by intros ?%not_elem_of_nil|].
  destruct l as [k'| |]; simpl; [|done..]. intros [->|Hin]%elem_of_cons; [|auto].
  inversion Hs as [w0 lookup manager command port a payload now s r H Hw Hl Hw'| | | | | | | | | |]; subst.
  apply begin_admit_inv in H as [[_ Hi]|(s0 & v & _ & -> & Hr & _ & Hh)]; [congruence|].
  injection Hl as <-. assert (Hk : snapshot_key v = key manager command).
  { revert Hr. unfold reserve. destruct (forallb _ _); [done|].
    intros (s1 & _ & H)%bind_Ok. by injection H as _ <-. }
  by rewrite Hk.
Qed.

(** C5: The journal loses no evidence.  After any steps from start-up the
    memory is bounded and its dirty snapshots are its current ones; once the
    journal is open, the current snapshot of every command that is not dirty
    is the stored one (or was pruned after it finished), and no stored row is
    as new as a dirty snapshot. *)
Theorem journal_keeps_evidence w ls w' :
  startup w -> steps sha256 i w ls w' -> mem_ok (w_state w') /\ journal_ok w'.
Proof.
  intros Hw Hs. apply startup_ok in Hw. apply steps_ok in Hs; [|done]. by destruct Hs.
Qed.

(** An event cursor never skips evidence: between two batches, every
    revision the writer saves later is above the ceiling an [Events] answer
    may advance its cursor to. *)
Theorem saved_above_ceiling w ls w' :
  world_ok w -> w_batch w = [] -> steps sha256 i w ls w' ->
  forall r, r ∈ saved ls -> events_ceiling (w_state w) < r.
Proof.
  intros Hw Hb Hs. pose proof (events_ceiling_above w (world_mem _ Hw) Hb) as Ha.
  revert Ha. generalize (events_ceiling (w_state w)) as c. clear Hb. intros c.
  induction Hs as [|w1 l w2 ls w3 Hs _ IH]; intros Ha r; [by intros ?%not_elem_of_nil|].
  pose proof (step_ok _ _ _ _ _ Hw Hs) as Hw2.
  destruct (step_above _ _ c _ _ _ Hw Hw2 Ha Hs) as [Ha2 Hl].
  destruct l as [| r'|]; simpl; try by apply IH. intros [->|?]%elem_of_cons; [by apply Hl|by apply IH].
Qed.
End Properties.

(** ** Witnesses *)

Definition toy_sha (s : string) : list Z :=
  concat (replicate 8 [Z.of_nat (String.length s) mod 256; 3; 1; 0]).
Definition toy_inner : Inner :=
  {| gateway := "gateway-1"; boot := "boot-1"; historical_ids := ∅; history_known := true |}.
Definition toy_db : Db := {| db_commands := ∅; db_events := ∅; db_head := 4; db_gap := false |}.
Definition toy_state : State :=
  {| entries := ∅; ack := ∅; dirty := ∅; st_revision := 4; persisted := ∅; st_error := "";
     gap := false; seen := replicate 8 0 |}.
Definition toy_world (s : State) : World := {| w_state := s; w_db := Some toy_db; w_batch := [] |}.
Definition toy_begin (s : State) (lookup : result string (option Snapshot))
    : State * result BeginError (Snapshot * bool) :=
  begin_admit toy_sha toy_inner s lookup "manager" "cmd-1" "COM3" 7 "19 08" "t0".

Lemma toy_db_wf : db_wf toy_db.
Proof. constructor; simpl; [done|done|lia]. Qed.

Lemma toy_steps_begin (s : State) :
  step toy_sha toy_inner (toy_world s) (begin_label (toy_begin s (Ok None)).2)
    (toy_world (toy_begin s (Ok None)).1).
Proof.
  apply (step_begin toy_sha toy_inner (toy_world s) (Ok None) "manager" "cmd-1" "COM3" 7 "19 08" "t0").
  apply surjective_pairing.
Qed.

Lemma journal_keeps_evidence_witness :
  let w := toy_world (initial_state 4 "") in
  startup w /\
  exists ls w', steps toy_sha toy_inner w ls w' /\ mem_ok (w_state w') /\ journal_ok w'.
Proof.
  intros w. assert (Hw : startup w).
  { constructor; [|done]. exists 4, "". split; [done|]. split; [lia|]. split; [apply toy_db_wf|simpl; lia]. }
  assert (Hs := toy_steps_begin (initial_state 4 "")).
  assert (Hss : steps toy_sha toy_inner w [_] _) by (eapply steps_cons; [exact Hs|constructor]).
  split; [exact Hw|]. eexists _, _. split; [exact Hss|].
  apply (journal_keeps_evidence toy_sha toy_inner _ _ _ Hw Hss).
Defined.

Lemma saved_above_ceiling_witness :
  exists w ls w', steps toy_sha toy_inner w ls w' /\ events_ceiling (w_state w) = 4 /\ saved ls = [5] /\
    forall r, r ∈ saved ls -> events_ceiling (w_state w) < r.
Proof.
  set (s1 := (toy_begin toy_state (Ok None)).1). set (w := toy_world s1).
  assert (H0 : world_ok (toy_world toy_state)).
  { constructor; [constructor; simpl; [done|done|lia|rewrite map_size_empty; lia]|].
    split_and!; [apply toy_db_wf|simpl; lia|done|done|apply batch_ok_nil]. }
  assert (Hw : world_ok w) by (eapply step_ok; [exact H0|apply toy_steps_begin]).
  assert (Hc : exists v, collect_batch s1 = [v] /\ revision v = 5) by (eexists; vm_compute; done).
  destruct Hc as (v & Hc & Hv).
  assert (Hs : exists w', steps toy_sha toy_inner w [Internal; Saved (revision v)] w').
  { eexists. eapply steps_cons; [by eapply (step_collect _ _ w)|].
    eapply steps_cons; [|constructor]. eapply step_save_ok; [done|exact Hc]. }
  destruct Hs as [w' Hs]. exists w, [Internal; Saved (revision v)], w'.
  split; [exact Hs|]. split; [vm_compute; reflexivity|]. split; [by simpl; rewrite Hv|].
  apply (saved_above_ceiling toy_sha toy_inner w _ w' Hw ltac:(reflexivity) Hs).
Defined.
