(* ===== verification/TrackerOpen.v ===== *)
(** * The start of the command journal (src/src/command_tracking.rs)

    [Tracker::open]: the journal file is opened and recovered, the identity of
    the gateway settled, and the inventory of the commands of earlier processes
    read from it.  The running tracker is that of [Tracking], here together
    with the file its lookups read.  Every call of SQLite may fail; what a
    failing call leaves on disk is in the definitions.  Nothing but this
    process writes the file while it runs. *)

From stdpp Require Import pretty.
From S2P Require Import Prelude RustStr Tracking.
Open Scope string_scope.
Open Scope Z_scope.
Open Scope list_scope.

(** ** The journal file *)

(** The file as SQLite stores it: [user_version], the row of [identity] and
    the tables.  A file nothing was written to has version 0 and no identity. *)
Record JournalFile := { jf_version : Z; jf_identity : option string; jf_db : Db }.

Definition empty_db : Db := {| db_commands := ∅; db_events := ∅; db_head := 0; db_gap := false |}.
Definition new_file : JournalFile := {| jf_version := 0; jf_identity := None; jf_db := empty_db |}.

Definition set_identity (version : Z) (gw : string) (j : JournalFile) : JournalFile :=
  {| jf_version := version; jf_identity := Some gw; jf_db := jf_db j |}.
Definition set_db (db : Db) (j : JournalFile) : JournalFile :=
  {| jf_version := jf_version j; jf_identity := jf_identity j; jf_db := db |}.

(** The calls of a reader that fail: asking for the file, opening it (with the
    busy timeout and the transaction), reading the version, the identity, the
    query, and each row. *)
Record ReadFaults := {
  rf_exists : option string;
  rf_open : option string;
  rf_version : option string;
  rf_identity : option string;
  rf_query : option string;
  rf_row : nat -> option string
}.

Definition unless {A} (fault : option string) (r : result string A) : result string A :=
  match fault with Some e => Err e | None => r end.

(** A read-only connection does not create the file. *)
Definition open_read_only (f : ReadFaults) (file : option JournalFile) : result string JournalFile :=
  unless (rf_open f) (ok_or "unable to open database file" file).

Definition read_identity (f : ReadFaults) (j : JournalFile) : result string string :=
  unless (rf_identity f) (ok_or "no identity" (jf_identity j)).

Definition read_gateway_identity (f : ReadFaults) (file : option JournalFile) : option string :=
  match (j ← open_read_only f file; read_identity f j) with Ok gw => Some gw | Err _ => None end.

(** [SELECT manager,id FROM commands]. *)
Definition command_rows (db : Db) : list (string * string) :=
  (fun v => (manager_instance_id v, command_id v)) <$> (map_to_list (db_commands db)).*2.

Section Inventory.
Context (sha256 : string -> list Z).

Fixpoint collect_ids (fault : nat -> option string) (n : nat) (rows : list (string * string)) (ids : gset (list Z))
    : result string (gset (list Z)) :=
  match rows with
  | [] => unless (fault n) (Ok ids)
  | (manager, command) :: rows =>
      unless (fault n)
        (if (KEEP_COUNT + CACHE_LIMIT <=? size ids)%nat then Err "historical identity inventory exceeds bounded limit"
         else collect_ids fault (S n) rows (ids ∪ {[command_identity_digest sha256 manager command]}))
  end.

Definition historical_command_ids (f : ReadFaults) (file : option JournalFile) (gw : string)
    : result string (gset (list Z)) :=
  unless (rf_exists f)
    (match file with
     | None => Ok ∅
     | Some _ =>
         j ← open_read_only f file;
         actual ← read_identity f j;
         if String.eqb actual gw
         then unless (rf_query f) (collect_ids (rf_row f) 0 (command_rows (jf_db j)) ∅)
         else Err "historical journal identity mismatch"
     end).
End Inventory.

(** A cold lookup; [rf_row] is the decoding of the row. *)
Definition lookup_journal (f : ReadFaults) (file : option JournalFile) (gw manager command : string)
    : result string (option Snapshot) :=
  j ← open_read_only f file;
  version ← unless (rf_version f) (Ok (jf_version j));
  if negb (version =? 1) then Err ("unsupported command journal schema " +:+ pretty version)
  else
    actual ← read_identity f j;
    if negb (String.eqb actual gw) then Err "command journal instance mismatch; operator recovery required"
    else
      unless (rf_query f)
        match db_commands (jf_db j) !! key manager command with
        | None => Ok None
        | Some v => unless (rf_row f 0%nat) (Ok (Some v))
        end.

(** ** Opening for writing *)

(** The calls of [open_database] that fail: before anything is written (the
    connection may have created an empty file), while the tables and the
    identity are written, at [user_version], while the rows are read, and the
    [n]-th save of the recovery. *)
Record OpenFaults := {
  of_open : option string;
  of_created : bool;
  of_setup : option string;
  of_version : option string;
  of_rows : option string;
  of_save : option (nat * string)
}.

(** [open_database]: the file it leaves, and the identity and revision. *)
Definition open_journal (f : OpenFaults) (file : option JournalFile) (bt now : string) (expected : option string)
    (fresh : string) : option JournalFile * result string (string * Z) :=
  let j := default new_file file in
  match of_open f with
  | Some e => (if of_created f then Some j else file, Err e)
  | None =>
      if 1 <? jf_version j
      then (Some j, Err ("unsupported command journal schema " +:+ pretty (jf_version j) +:+ "; control remains enabled"))
      else if match expected, jf_identity j with Some x, Some actual => negb (String.eqb x actual) | _, _ => false end
      then (Some j, Err "command journal instance mismatch; evidence remains in degraded memory; operator recovery required")
      else
        match of_setup f with
        | Some e => (Some j, Err e)
        | None =>
            let gw := default (default ("gateway-" +:+ fresh) expected) (jf_identity j) in
            match of_version f, of_rows f with
            | Some e, _ => (Some (set_identity (jf_version j) gw j), Err e)
            | None, Some e => (Some (set_identity 1 gw j), Err e)
            | None, None =>
                let j := set_identity 1 gw j in
                let rows := unfinished (jf_db j) in
                let recover n := foldl (recover_row bt now) (jf_db j, db_revision (jf_db j)) (take n rows) in
                match of_save f with
                | Some (n, e) =>
                    if (n <? length rows)%nat then (Some (set_db (recover n).1 j), Err e)
                    else (Some (set_db (recover (length rows)).1 j), Ok (gw, (recover (length rows)).2))
                | None => (Some (set_db (recover (length rows)).1 j), Ok (gw, (recover (length rows)).2))
                end
            end
        end
  end.

(** ** [Tracker::open] *)

Record StartEnv := {
  se_boot : string;
  se_fresh : string;
  se_now : string;
  se_open : OpenFaults;
  se_identity : ReadFaults;
  se_history : ReadFaults
}.

Definition tracker_open (sha256 : string -> list Z) (e : StartEnv) (file : option JournalFile)
    : Inner * World * option JournalFile :=
  let (file, opened) := open_journal (se_open e) file (se_boot e) (se_now e) None (se_fresh e) in
  let '(gw, rev, db, err) :=
    match opened with
    | Ok (gw, rev) => (gw, rev, jf_db <$> file, "")
    | Err er => (default ("volatile-" +:+ se_boot e) (read_gateway_identity (se_identity e) file), 0, None, er)
    end in
  let history := historical_command_ids sha256 (se_history e) file gw in
  ({| gateway := gw; boot := se_boot e;
      historical_ids := match history with Ok ids => ids | Err _ => ∅ end;
      history_known := is_ok history |},
   {| w_state := initial_state rev err; w_db := db; w_batch := [] |},
   file).

(** ** The tracker with its file *)

(** What the writer's connection wrote is in the file. *)
Definition stored (w : World) (file : option JournalFile) : option JournalFile :=
  match w_db w with Some db => set_db db <$> file | None => file end.

Section Disk.
Context (sha256 : string -> list Z) (i : Inner).

(** A lookup reads the file, or finds the reader busy or late. *)
Inductive disk_step : World * option JournalFile -> Label -> World * option JournalFile -> Prop :=
| disk_begin w file lookup manager command port ack_no payload now s r :
    (exists f, lookup = lookup_journal f file (gateway i) manager command) \/ (exists e, lookup = Err e) ->
    begin_admit sha256 i (w_state w) lookup manager command port ack_no payload now = (s, r) ->
    disk_step (w, file) (begin_label r) (with_state w s, file)
| disk_open_failed w file f now fresh file' e :
    w_db w = None -> open_journal f file (boot i) now (Some (gateway i)) fresh = (file', Err e) ->
    disk_step (w, file) Internal (with_state w (degrade (w_state w) e), file')
| disk_opened w file f now fresh file' gw rev :
    w_db w = None -> w_batch w = [] ->
    open_journal f file (boot i) now (Some (gateway i)) fresh = (file', Ok (gw, rev)) ->
    disk_step (w, file) Internal
      ({| w_state := rebase (w_state w) rev; w_db := jf_db <$> file'; w_batch := [] |}, file')
| disk_other w l w' file :
    Tracking.step sha256 i w l w' -> (forall k, l <> Admit k) -> (w_db w = None -> w_db w' = None) ->
    disk_step (w, file) l (w', stored w' file).

Inductive disk_steps : World * option JournalFile -> list Label -> World * option JournalFile -> Prop :=
| disk_nil c : disk_steps c [] c
| disk_cons c1 l c2 ls c3 : disk_step c1 l c2 -> disk_steps c2 ls c3 -> disk_steps c1 (l :: ls) c3.

(** In the course of [ls] the retention deleted the row of [k], which had
    finished. *)
Definition retired (k : string) (c : World * option JournalFile) (ls : list Label) : Prop :=
  exists ls1 ls2 c1 db cutoff v,
    ls = ls1 ++ Internal :: ls2 /\ disk_steps c ls1 c1 /\ w_db c1.1 = Some db /\
    db_commands db !! k = Some v /\ terminal v = true /\
    db_commands (prune_journal db cutoff KEEP_COUNT) !! k = None /\
    exists c2 c3, disk_step c1 Internal c2 /\ w_db c2.1 = Some (prune_journal db cutoff KEEP_COUNT) /\
      disk_steps c2 ls2 c3.
End Disk.

(** ** The inventory *)

Definition file_wf (file : option JournalFile) : Prop := forall j, file = Some j -> db_wf (jf_db j).

(** The file has a row of the command. *)
Definition has_row (file : option JournalFile) (k : string) : Prop :=
  exists j, file = Some j /\ is_Some (db_commands (jf_db j) !! k).

Lemma unless_Ok {A} fault (r : result string A) a : unless fault r = Ok a -> r = Ok a.
Proof. by destruct fault. Qed.

Lemma collect_ids_Ok sha256 fault n rows ids ids' :
  collect_ids sha256 fault n rows ids = Ok ids' ->
  ids ⊆ ids' /\ forall m c, (m, c) ∈ rows -> command_identity_digest sha256 m c ∈ ids'.
Proof.
  revert n ids. induction rows as [|[m c] rows IH]; intros n ids H; cbn [collect_ids] in H; apply unless_Ok in H.
  - injection H as <-. split; [done|]. by intros m c ?%not_elem_of_nil.
  - destruct (_ <=? _)%nat; [done|]. apply IH in H as [Hsub Hin]. split; [set_solver|].
    intros m' c' [[= -> ->]|?]%elem_of_cons; [set_solver|auto].
Qed.

Lemma command_rows_key db k : db_wf db -> is_Some (db_commands db !! k) -> exists m c, (m, c) ∈ command_rows db /\ k = key m c.
Proof.
  intros Hwf [v Hv]. exists (manager_instance_id v), (command_id v). split; [|by destruct (wf_commands _ Hwf _ _ Hv) as [<- _]].
  apply list_elem_of_fmap. exists v. split; [done|]. apply list_elem_of_fmap. exists (k, v). by rewrite elem_of_map_to_list.
Qed.

(** A readable inventory has every command of the file. *)
Lemma inventory_complete sha256 f file gw ids k :
  file_wf file -> historical_command_ids sha256 f file gw = Ok ids -> has_row file k -> sha256 k ∈ ids.
Proof.
  intros Hwf H (j & -> & Hk). unfold historical_command_ids in H. apply unless_Ok in H.
  apply bind_Ok in H as (j' & Hj & H). unfold open_read_only in Hj. apply unless_Ok, ok_or_Ok in Hj as [= <-].
  apply bind_Ok in H as (actual & _ & H). destruct (String.eqb _ _); [|done]. apply unless_Ok in H.
  apply collect_ids_Ok in H as [_ H]. destruct (command_rows_key _ _ (Hwf _ eq_refl) Hk) as (m & c & Hin & ->).
  by apply H.
Qed.

Lemma lookup_none f file gw manager command :
  lookup_journal f file gw manager command = Ok None -> ~ has_row file (key manager command).
Proof.
  intros H (j & -> & [v Hv]). unfold lookup_journal in H. apply bind_Ok in H as (j' & Hj & H).
  unfold open_read_only in Hj. apply unless_Ok, ok_or_Ok in Hj as [= <-]. apply bind_Ok in H as (version & _ & H).
  destruct (negb _); [done|]. apply bind_Ok in H as (actual & _ & H). destruct (negb _); [done|].
  apply unless_Ok in H. rewrite Hv in H. by apply unless_Ok in H.
Qed.

(** ** Opening keeps the commands *)

Lemma save_has_row db v k : is_Some (db_commands db !! k) -> is_Some (db_commands (save db v) !! k).
Proof.
  intros Hk. cbn. repeat case_match; try done; (destruct (decide (k = snapshot_key v)) as [->|];
    [by rewrite lookup_insert_eq|by rewrite lookup_insert_ne]).
Qed.

Lemma recover_keeps bt now l db rev :
  db_wf db -> let db' := (foldl (recover_row bt now) (db, rev) l).1 in
  db_wf db' /\ forall k, is_Some (db_commands db !! k) -> is_Some (db_commands db' !! k).
Proof.
  cbv zeta. revert db rev. induction l as [|v l IH]; intros db rev Hwf; cbn [foldl]; [done|].
  unfold recover_row at 2 4. destruct (String.eqb _ _); [by apply IH|]. cbn [fst snd].
  destruct (IH (save db (mark_unknown now (rev + 1) v)) (rev + 1)) as [Hw Hk]; [by apply save_wf|].
  split; [done|]. intros k ?. by apply Hk, save_has_row.
Qed.

Lemma new_file_wf : db_wf (jf_db new_file).
Proof. by constructor; cbn. Qed.

Lemma open_journal_spec f file bt now expected fresh file' r :
  file_wf file -> open_journal f file bt now expected fresh = (file', r) ->
  file_wf file' /\ (forall k, has_row file k -> has_row file' k) /\
  forall gw rev, r = Ok (gw, rev) ->
    exists j db, file' = Some j /\ db_wf db /\ open_database bt now db = (jf_db j, rev).
Proof.
  intros Hwf. set (j := default new_file file).
  assert (Hj : db_wf (jf_db j)) by (unfold j; destruct file as [j0|]; [by apply Hwf|apply new_file_wf]).
  assert (Hrow : forall k, has_row file k -> is_Some (db_commands (jf_db j) !! k)) by (intros k (j0 & -> & ?); done).
  assert (Hsome : forall j', db_wf (jf_db j') -> (forall k, is_Some (db_commands (jf_db j) !! k) -> is_Some (db_commands (jf_db j') !! k)) ->
    file_wf (Some j') /\ forall k, has_row file k -> has_row (Some j') k).
  { intros j' Hw Hk. split; [by intros j0 [= <-]|]. intros k ?%Hrow%Hk. by exists j'. }
  assert (Herr : forall j' e, db_wf (jf_db j') -> (forall k, is_Some (db_commands (jf_db j) !! k) -> is_Some (db_commands (jf_db j') !! k)) ->
    (Some j', Err e) = (file', r) -> file_wf file' /\ (forall k, has_row file k -> has_row file' k) /\
    forall gw rev, r = Ok (gw, rev) -> exists j db, file' = Some j /\ db_wf db /\ open_database bt now db = (jf_db j, rev)).
  { intros j' e Hw Hk [= <- <-]. destruct (Hsome j' Hw Hk). by split_and!. }
  unfold open_journal. fold j. destruct (of_open f) as [e|].
  { destruct (of_created f); [by apply Herr|]. intros [= <- <-]. by split_and!. }
  destruct (1 <? _); [by apply Herr|]. destruct (match expected with Some _ => _ | None => _ end); [by apply Herr|].
  destruct (of_setup f); [by apply Herr|]. destruct (of_version f); [by apply Herr|]. destruct (of_rows f); [by apply Herr|].
  cbv zeta. set (gw := default _ _). cbn [jf_db set_identity].
  assert (Hok : (Some (set_db (foldl (recover_row bt now) (jf_db j, db_revision (jf_db j)) (take (length (unfinished (jf_db j))) (unfinished (jf_db j)))).1
                   (set_identity 1 gw j)),
                 Ok (gw, (foldl (recover_row bt now) (jf_db j, db_revision (jf_db j)) (take (length (unfinished (jf_db j))) (unfinished (jf_db j)))).2)) = (file', r) ->
    file_wf file' /\ (forall k, has_row file k -> has_row file' k) /\
    forall gw rev, r = Ok (gw, rev) -> exists j db, file' = Some j /\ db_wf db /\ open_database bt now db = (jf_db j, rev)).
  { rewrite firstn_all. intros [= <- <-]. destruct (recover_keeps bt now (unfinished (jf_db j)) (jf_db j) (db_revision (jf_db j)) Hj) as [Hw Hk].
    destruct (Hsome (set_db (foldl (recover_row bt now) (jf_db j, db_revision (jf_db j)) (unfinished (jf_db j))).1 (set_identity 1 gw j))) as [? ?]; [done..|].
    split_and!; [done|done|]. intros gw' rev [= <- <-]. exists (set_db (foldl (recover_row bt now) (jf_db j, db_revision (jf_db j)) (unfinished (jf_db j))).1 (set_identity 1 gw j)), (jf_db j). split_and!; [done|done|].
    unfold open_database. cbn [jf_db set_db]. apply surjective_pairing. }
  destruct (of_save f) as [[n e]|]; [|done]. destruct (_ <? _)%nat; [|done].
  destruct (recover_keeps bt now (take n (unfinished (jf_db j))) (jf_db j) (db_revision (jf_db j)) Hj). by apply Herr.
Qed.

(** ** The start *)

Lemma open_database_nonneg bt now db db' rev : db_wf db -> open_database bt now db = (db', rev) -> 0 <= rev.
Proof. intros Hwf H. destruct (open_database_wf _ _ _ _ _ Hwf H) as [[_ _ ?] ?]. lia. Qed.

Lemma tracker_open_spec sha256 e file i w file' :
  file_wf file -> tracker_open sha256 e file = (i, w, file') ->
  Tracking.startup w /\ file_wf file' /\ (forall k, has_row file k -> has_row file' k) /\
  (forall db, w_db w = Some db -> exists j, file' = Some j /\ jf_db j = db) /\
  (exists rev er, w_state w = initial_state rev er) /\
  (history_known i = true -> forall k, has_row file k -> sha256 k ∈ historical_ids i).
Proof.
  intros Hwf. unfold tracker_open. destruct (open_journal _ _ _ _ _ _) as [file1 opened] eqn:E.
  destruct (open_journal_spec _ _ _ _ _ _ _ _ Hwf E) as (Hwf1 & Hrow & Hok).
  assert (Hinv : forall gw, is_ok (historical_command_ids sha256 (se_history e) file1 gw) = true -> forall k, has_row file k ->
    sha256 k ∈ (match historical_command_ids sha256 (se_history e) file1 gw with Ok ids => ids | Err _ => ∅ end)).
  { intros gw Hk k Hin. destruct (historical_command_ids _ _ _ _) as [ids|] eqn:Eh; [|done].
    eapply inventory_complete; [exact Hwf1|exact Eh|by apply Hrow]. }
  destruct opened as [[gw rev]|er]; intros [= <- <- <-]; cbn [w_db w_state w_batch history_known historical_ids].
  - destruct (Hok _ _ eq_refl) as (j & db & -> & Hdb & Ho). destruct (open_database_wf _ _ _ _ _ Hdb Ho) as [Hw Hh].
    pose proof (open_database_nonneg _ _ _ _ _ Hdb Ho).
    split_and!; [constructor; [by exists rev, ""|done]|done|done| |by eauto|by apply Hinv].
    cbn. intros db' [= <-]. by exists j.
  - split_and!; [constructor; [by exists 0, er|done]|done|done|done|by eauto|by apply Hinv].
Qed.

(** ** The tracker with its file *)

#[export] Instance label_eq_dec : EqDecision Label.
Proof. solve_decision. Defined.

Section DiskProofs.
Context (sha256 : string -> list Z) (i : Inner).

Notation disk_step := (disk_step sha256 i).
Notation disk_steps := (disk_steps sha256 i).

(** The file is a journal, and it is what the connection shows. *)
Record disk_ok (c : World * option JournalFile) : Prop := {
  disk_world : world_ok c.1;
  disk_file : file_wf c.2;
  disk_same : forall db, w_db c.1 = Some db -> exists j, c.2 = Some j /\ jf_db j = db
}.

Lemma world_ok_db w db : world_ok w -> w_db w = Some db -> db_wf db.
Proof. intros [_ Hj] Hdb. unfold journal_ok in Hj. rewrite Hdb in Hj. by destruct Hj. Qed.

(** Each step is one of the tracker. *)
Lemma disk_step_tracker c l c' : disk_ok c -> disk_step c l c' -> disk_ok c' /\ Tracking.step sha256 i c.1 l c'.1.
Proof.
  intros [Hw Hf Hs] Hstep.
  enough (H : Tracking.step sha256 i c.1 l c'.1 /\ file_wf c'.2 /\
    forall db, w_db c'.1 = Some db -> exists j, c'.2 = Some j /\ jf_db j = db).
  { destruct H as (Ht & ? & ?). split; [|done]. constructor; [by eapply step_ok|done..]. }
  destruct Hstep as [w file lookup m c port a payload now s r _ H|w file f now fresh file' e Hn Ho
    |w file f now fresh file' gw rev Hn Hb Ho|w l w' file H Hl Hopen]; cbn [fst snd] in *.
  - split_and!; [by eapply step_begin|done|done].
  - destruct (open_journal_spec _ _ _ _ _ _ _ _ Hf Ho) as (? & _). split_and!; [apply step_degrade|done|].
    cbn. by rewrite Hn.
  - destruct (open_journal_spec _ _ _ _ _ _ _ _ Hf Ho) as (? & _ & Hok). destruct (Hok _ _ eq_refl) as (j & db & -> & Hdb & Hod).
    split_and!; [by eapply step_open|done|]. cbn. intros db' [= <-]. by exists j.
  - pose proof (step_ok _ _ _ _ _ Hw H) as Hw'. split; [done|]. unfold stored. destruct (w_db w') as [db'|] eqn:E; [|done].
    destruct (w_db w) as [db|] eqn:Ew; [|by specialize (Hopen eq_refl)]. destruct (Hs db eq_refl) as (j & -> & Hj).
    cbn. split; [intros j' [= <-]; by eapply world_ok_db|]. intros db0 [= <-]. by eexists.
Qed.

Lemma disk_steps_tracker c ls c' : disk_ok c -> disk_steps c ls c' -> Tracking.steps sha256 i c.1 ls c'.1.
Proof.
  intros Hok H. induction H as [|c1 l c2 ls c3 Hs _ IH]; [constructor|].
  destruct (disk_step_tracker _ _ _ Hok Hs). econstructor; eauto.
Qed.

(** Only the retention takes a row out of the file. *)
Lemma disk_step_row c l c' k :
  disk_ok c -> disk_step c l c' -> has_row c.2 k ->
  has_row c'.2 k \/
  exists db cutoff v, l = Internal /\ w_db c.1 = Some db /\ db_commands db !! k = Some v /\ terminal v = true /\
    db_commands (prune_journal db cutoff KEEP_COUNT) !! k = None /\ w_db c'.1 = Some (prune_journal db cutoff KEEP_COUNT).
Proof.
  intros [Hw Hf Hs] Hstep Hk.
  destruct Hstep as [w file lookup m c port a payload now s r _ H|w file f now fresh file' e Hn Ho
    |w file f now fresh file' gw rev Hn Hb Ho|w l w' file H Hl Hopen]; cbn [fst snd] in *; [by left| | |].
  1,2: left; destruct (open_journal_spec _ _ _ _ _ _ _ _ Hf Ho) as (_ & Hr & _); by apply Hr.
  unfold stored. destruct (w_db w') as [db'|] eqn:E; [|by left].
  destruct (w_db w) as [db|] eqn:Ew; [|by specialize (Hopen eq_refl)]. destruct (Hs db eq_refl) as (j & -> & Hj).
  destruct Hk as (j' & [= <-] & Hk). rewrite Hj in Hk.
  assert (Hkeep : forall d, is_Some (db_commands d !! k) -> has_row (set_db d <$> Some j) k) by (intros d ?; by exists (set_db d j)).
  destruct H; cbn in E, Ew; simplify_eq; try (left; by apply Hkeep).
  - left. by apply Hkeep, save_has_row.
  - set (db := jf_db j) in *. destruct Hk as [v Hv]. destruct (db_commands (prune_journal db cutoff KEEP_COUNT) !! k) as [v'|] eqn:Hp; [left; apply Hkeep; eauto|].
    right. exists db, cutoff, v. split_and!; try done. unfold prune_journal in Hp. cbn [db_commands] in Hp.
    apply map_lookup_filter_None in Hp as [Hp|Hp]; [by rewrite Hv in Hp|].
    specialize (Hp _ Hv). destruct (terminal v) eqn:Ht; [done|]. exfalso. apply Hp. cbn [fst snd]. rewrite Ht. by intros [? _].
Qed.

(** A command with a row is admitted only when the lookup failed and the
    inventory, readable, does not have it. *)
Lemma disk_step_admit c k c' :
  disk_step c (Admit k) c' -> has_row c.2 k -> history_known i = true /\ sha256 k ∉ historical_ids i.
Proof.
  intros Hstep Hk. inversion Hstep as [w file lookup m cmd port a payload now s r Hl H Hc Hlab Hc'| | |w l w' file H Hl]; subst; [|by destruct (Hl k)].
  assert (Hadm : begin_label r = Admit k) by done. destruct r as [[v [|]]|]; try done. injection Hadm as <-.
  assert (Hkey : snapshot_key v = key m cmd /\ command_identity_digest sha256 m cmd ∉ historical_ids i).
  { pose proof H as H0. apply begin_admit_inv in H0 as [[_ ?]|(s0 & v' & _ & [= <-] & Hr & _ & Hn)]; [done|]. split; [|done].
    revert Hr. unfold reserve. destruct (forallb _ _); [done|]. intros (s1 & _ & Hx)%bind_Ok. by injection Hx as _ <-. }
  destruct Hkey as [Hkey Hnot]. rewrite Hkey in Hk |- *. split; [|done].
  destruct (history_known i) eqn:Eh; [done|]. exfalso. unfold begin_admit in H. destruct (negb _); [done|].
  destruct (Z.ltb _ _); [done|]. unfold get in H. destruct (entries (w_state w) !! key m cmd); [by destruct (String.eqb _ _)|].
  destruct lookup as [[v0|]|e]; [by destruct (String.eqb _ _)| |by rewrite Eh in H].
  destruct Hl as [[f Hf]|[e ?]]; [|done]. by eapply (lookup_none f file); [symmetry; exact Hf|].
Qed.

Lemma retired_later k c1 l c2 ls : disk_step c1 l c2 -> retired sha256 i k c2 ls -> retired sha256 i k c1 (l :: ls).
Proof.
  intros Hs (ls1 & ls2 & c & db & cutoff & v & -> & Hd & H). exists (l :: ls1), ls2, c, db, cutoff, v.
  split; [done|]. split; [by econstructor|done].
Qed.

Lemma admitted_row c ls c' k :
  disk_ok c -> disk_steps c ls c' -> has_row c.2 k -> k ∈ admitted ls ->
  (history_known i = true /\ sha256 k ∉ historical_ids i) \/ retired sha256 i k c ls.
Proof.
  intros Hok H Hk. revert Hok Hk. induction H as [|c1 l c2 ls c3 Hs Hss IH]; intros Hok Hk Hin; [by apply not_elem_of_nil in Hin|].
  destruct (decide (l = Admit k)) as [->|Hne]; [left; by eapply disk_step_admit|].
  assert (Hin' : k ∈ admitted ls).
  { destruct l as [k'| |]; [|exact Hin..]. apply elem_of_cons in Hin as [->|?]; done. }
  destruct (disk_step_row _ _ _ k Hok Hs Hk) as [Hk'|(db & cutoff & v & -> & H1 & H2 & H3 & H4 & H5)].
  - destruct (IH (proj1 (disk_step_tracker _ _ _ Hok Hs)) Hk' Hin') as [?|?]; [by left|right; by eapply retired_later].
  - right. exists [], ls, c1, db, cutoff, v. split_and!; try done; [constructor|]. by exists c2, c3.
Qed.
End DiskProofs.

(** ** The property *)

(** C1: Exactly-once admission.  The tracker starts on a journal file (or on
    none), any call failing; then callers and the writer thread do whatever
    they do (repeated requests, failed lookups, cache evictions, a journal that
    is unavailable, opened late or pruned).  No command identity is newly
    admitted twice.  An identity with a row in the file at start-up is not
    admitted at all when the inventory of the file could be read; when it could
    not, it is admitted only after the retention deleted its finished row. *)
Theorem command_admitted_once sha256 e file i w file1 ls w' file' :
  file_wf file -> tracker_open sha256 e file = (i, w, file1) ->
  disk_steps sha256 i (w, file1) ls (w', file') ->
  NoDup (admitted ls) /\
  forall k, k ∈ admitted ls -> has_row file k ->
    history_known i = false /\ retired sha256 i k (w, file1) ls.
Proof.
  intros Hwf Ho Hs. destruct (tracker_open_spec _ _ _ _ _ _ Hwf Ho) as (Hst & Hwf1 & Hrow & Hdb & (rev & er & Hini) & Hinv).
  assert (Hok : disk_ok (w, file1)) by (constructor; [by apply startup_ok|done|done]).
  pose proof (disk_steps_tracker _ _ _ _ _ Hok Hs) as Hss. split.
  - apply (steps_admitted sha256 i w ls w' []); [|done|by intros k ?%not_elem_of_nil].
    rewrite Hini. cbn [seen initial_state]. rewrite length_replicate. lia.
  - intros k Hin Hk. pose proof (steps_historical _ _ _ _ _ _ Hss Hin) as Hnot.
    destruct (history_known i) eqn:Eh; [by destruct Hnot; apply Hinv|]. split; [done|].
    destruct (admitted_row _ _ _ _ _ k Hok Hs (Hrow _ Hk) Hin) as [[? _]|?]; [congruence|done].
Qed.

(** ** Witness *)

(** An earlier process left one finished and one unfinished command.  Both are
    refused now, also when the reader fails; a new command is admitted once. *)
Definition old_snapshot (command ph : string) (rev : Z) : Snapshot :=
  set_journal (new_snapshot toy_sha {| gateway := "gateway-1"; boot := "boot-0"; historical_ids := ∅; history_known := true |}
                 toy_state "manager" command "COM3" 1 "1908" "t") ph "" [] rev "t" false.
Definition old_file : JournalFile :=
  {| jf_version := 1; jf_identity := Some "gateway-1";
     jf_db := save (save empty_db (old_snapshot "old" "AckReceived" 1)) (old_snapshot "other" "Sent" 2) |}.

Definition no_read_faults : ReadFaults :=
  {| rf_exists := None; rf_open := None; rf_version := None; rf_identity := None; rf_query := None; rf_row := fun _ => None |}.
Definition no_open_faults : OpenFaults :=
  {| of_open := None; of_created := false; of_setup := None; of_version := None; of_rows := None; of_save := None |}.
Definition toy_start : StartEnv :=
  {| se_boot := "boot-1"; se_fresh := "1"; se_now := "t1"; se_open := no_open_faults;
     se_identity := no_read_faults; se_history := no_read_faults |}.

Definition started : Inner * World * option JournalFile := tracker_open toy_sha toy_start (Some old_file).
Definition submit (command : string) (lookup : result string (option Snapshot)) (w : World)
    : State * result BeginError (Snapshot * bool) :=
  begin_admit toy_sha started.1.1 (w_state w) lookup "manager" command "COM3" 7 "19 08" "t2".

Lemma old_file_wf : file_wf (Some old_file).
Proof. intros j [= <-]. by apply save_wf, save_wf, new_file_wf. Qed.

Lemma submit_step command w file e :
  disk_step toy_sha started.1.1 (w, file) (begin_label (submit command (Err e) w).2) (with_state w (submit command (Err e) w).1, file).
Proof. eapply disk_begin; [right; by eexists|]. apply surjective_pairing. Qed.

Lemma command_admitted_once_witness :
  exists ls c, disk_steps toy_sha started.1.1 (started.1.2, started.2) ls c /\
    history_known started.1.1 = true /\ length ls = 3%nat /\ admitted ls = [key "manager" "a new one"] /\
    has_row (Some old_file) (key "manager" "old") /\ has_row (Some old_file) (key "manager" "other") /\ NoDup (admitted ls) /\
    ~ (key "manager" "old" ∈ admitted ls).
Proof.
  set (w0 := started.1.2). set (w1 := with_state w0 (submit "old" (Err "busy") w0).1).
  set (w2 := with_state w1 (submit "a new one" (Err "busy") w1).1).
  assert (Hs : exists c, disk_steps toy_sha started.1.1 (w0, started.2)
    [begin_label (submit "old" (Err "busy") w0).2; begin_label (submit "a new one" (Err "busy") w1).2;
     begin_label (submit "other" (Err "busy") w2).2] c).
  { eexists. do 3 (eapply disk_cons; [apply submit_step|]). constructor. }
  destruct Hs as [c Hs]. eexists _, c. split; [exact Hs|].
  assert (Hrow : has_row (Some old_file) (key "manager" "old")) by (eexists; split; [done|vm_compute; eauto]).
  split; [vm_compute; reflexivity|]. split; [reflexivity|]. split; [vm_compute; reflexivity|]. split; [exact Hrow|].
  split; [eexists; split; [done|vm_compute; eauto]|].
  destruct c as [w' file'].
  destruct (command_admitted_once toy_sha toy_start (Some old_file) started.1.1 w0 started.2 _ w' file' old_file_wf
    ltac:(reflexivity) Hs) as [Hnd Hold].
  split; [exact Hnd|]. intros Hin. destruct (Hold _ Hin Hrow) as [Hk _]. vm_compute in Hk. discriminate Hk.
Defined.
