(* ===== verification/Transaction.v ===== *)
(** * Control transactions (src/src/serial/command_transaction.rs, command_audit.rs, command_pacing.rs)

    The owning worker's execution of one queued command: deadline checks,
    bounded retries, acknowledgement waits, the tracker updates around them,
    the admission permit and the status notifications.  The port and the
    clock answer through an environment; a [None] answer is a panic that
    unwinds the transaction, whose guards then run.  Other threads' updates of
    the same journal entry are not interleaved; log lines are not modelled. *)

From S2P Require Import Prelude RustFloat RustStr Model Parser Csv Protocol Tracking.
From stdpp Require Import pretty.
Open Scope string_scope.
Open Scope Z_scope.
Open Scope list_scope.

(** ** Data *)

(** [QueuedCommand]; the permit is held or absent. *)
Record QueuedCommand := {
  qc_data : SendData;
  qc_report_ack : bool;
  qc_ack_id : option Z;
  qc_expires_at : option Z;
  qc_permit : bool
}.

Record AttemptFailure := { af_attempt : Z; af_reason : string }.

Record CommandAudit := {
  au_port_id : string;
  au_device_id : string;
  au_ack_id : option string;
  au_request : string;
  au_request_bytes : nat;
  au_request_truncated : bool;
  au_max_attempts : Z;
  au_attempt_count : Z;
  au_sent_count : Z;
  au_result : string;
  au_last_error : string;
  au_failure_count : Z;
  au_failures : list AttemptFailure
}.

Definition new_audit (port : string) (command : SendData) (ack : option Z) (max_attempts : Z) : CommandAudit := {|
  au_port_id := port;
  au_device_id := pretty (sd_device_id command);
  au_ack_id := pretty <$> ack;
  au_request := hex (take 256 (sd_command command));
  au_request_bytes := length (sd_command command);
  au_request_truncated := (256 <? length (sd_command command))%nat;
  au_max_attempts := max_attempts;
  au_attempt_count := 0;
  au_sent_count := 0;
  au_result := "interrupted";
  au_last_error := "";
  au_failure_count := 0;
  au_failures := []
|}.

(** The fields a transaction rewrites. *)
Definition set_audit (a : CommandAudit) (attempt sent : Z) (res err : string) (fc : Z)
    (fs : list AttemptFailure) : CommandAudit := {|
  au_port_id := au_port_id a;
  au_device_id := au_device_id a;
  au_ack_id := au_ack_id a;
  au_request := au_request a;
  au_request_bytes := au_request_bytes a;
  au_request_truncated := au_request_truncated a;
  au_max_attempts := au_max_attempts a;
  au_attempt_count := attempt;
  au_sent_count := sent;
  au_result := res;
  au_last_error := err;
  au_failure_count := fc;
  au_failures := fs
|}.

Definition audit_attempt (n : Z) (a : CommandAudit) : CommandAudit :=
  set_audit a n (au_sent_count a) (au_result a) (au_last_error a) (au_failure_count a) (au_failures a).
Definition audit_sent (a : CommandAudit) : CommandAudit :=
  set_audit a (au_attempt_count a) (au_sent_count a + 1) (au_result a) (au_last_error a)
    (au_failure_count a) (au_failures a).
Definition audit_result (res : string) (a : CommandAudit) : CommandAudit :=
  set_audit a (au_attempt_count a) (au_sent_count a) res (au_last_error a) (au_failure_count a) (au_failures a).
Definition audit_received (a : CommandAudit) : CommandAudit :=
  set_audit a (au_attempt_count a) (au_sent_count a) "received" "" (au_failure_count a) (au_failures a).

(** [CommandAudit::failure]: a saturating count and the last eight reasons. *)
Definition failure (reason : string) (a : CommandAudit) : CommandAudit :=
  set_audit a (au_attempt_count a) (au_sent_count a) (au_result a) reason
    (Z.min (au_failure_count a + 1) (2 ^ 32 - 1))
    ((if (length (au_failures a) =? 8)%nat then tail (au_failures a) else au_failures a)
       ++ [{| af_attempt := au_attempt_count a; af_reason := reason |}]).

(** The level of the summary line written when the audit is dropped. *)
Definition audit_highlighted (a : CommandAudit) : bool :=
  (1 <? au_sent_count a) || negb (String.eqb (au_result a) "received").

(** ** The transaction monad *)

Inductive Event :=
| Sent (d : SendData) (ok : bool)
| Released
| Notified (u : CommandAckUpdate).

(** What a transaction acts on: the tracker of the operations handle (if
    there is one), the permit, the port's and the channel's history, and the
    audit lines. *)
Record Tx := {
  tx_tracker : option State;
  tx_permit : bool;
  tx_events : list Event;
  tx_audits : list CommandAudit
}.

(** [None] is an unwinding panic. *)
Definition M (A : Type) : Type := Tx -> Tx * option A.

#[export] Instance M_ret : MRet M := fun A a t => (t, Some a).
#[export] Instance M_bind : MBind M := fun A B f m t =>
  match m t with (t', Some a) => f a t' | (t', None) => (t', None) end.

Definition modify (f : Tx -> Tx) : M unit := fun t => (f t, Some tt).

(** [m] with a destructor that runs whether it returns or unwinds. *)
Definition finally {A} (m : M A) (drop : M unit) : M A := fun t =>
  let '(t', r) := m t in ((drop t').1, r).

Definition emit (e : Event) (t : Tx) : Tx :=
  {| tx_tracker := tx_tracker t; tx_permit := tx_permit t; tx_events := tx_events t ++ [e];
     tx_audits := tx_audits t |}.

(** [drop(permit.take())]. *)
Definition release_permit (t : Tx) : Tx :=
  {| tx_tracker := tx_tracker t; tx_permit := false;
     tx_events := tx_events t ++ (if tx_permit t then [Released] else []);
     tx_audits := tx_audits t |}.
Definition drop_permit : M unit := modify release_permit.

Definition drop_audit (a : CommandAudit) (t : Tx) : Tx :=
  {| tx_tracker := tx_tracker t; tx_permit := tx_permit t; tx_events := tx_events t;
     tx_audits := tx_audits t ++ [a] |}.

(** A panic inside [m] unwinds through [execute_command_with_ack]: its audit,
    then its permit are dropped. *)
Definition unwinding {A} (a : CommandAudit) (m : M A) : M A := fun t =>
  match m t with
  | (t', None) => ((drop_permit (drop_audit a t')).1, None)
  | r => r
  end.

(** ** The environment *)

(** Answers per attempt: the clock before it, [send_command] and
    [receive_command_ack_result]; [env_stamp] is the wall clock text. *)
Record Env := {
  env_port : string;
  env_port_name : string;
  env_now : Z -> Z;
  env_send : Z -> option bool;
  env_ack : Z -> option (result string unit);
  env_stamp : Z -> string
}.

Definition expired (e : Env) (expires_at : option Z) (n : Z) : bool :=
  match expires_at with Some deadline => deadline <=? env_now e n | None => false end.

(** ** Snapshot changes *)

Definition set_execution (v : Snapshot) (ph er : string) (ac sc : Z) (ats : list Attempt) (inc : bool) : Snapshot := {|
  schema_version := schema_version v;
  manager_instance_id := manager_instance_id v;
  command_id := command_id v;
  gateway_instance_id := gateway_instance_id v;
  boot_id := boot_id v;
  port_id := port_id v;
  ack_id := ack_id v;
  request_hash := request_hash v;
  request_preview := request_preview v;
  device_id := device_id v;
  accepted := accepted v;
  status_code := status_code v;
  phase := ph;
  attempt_count := ac;
  sent_count := sc;
  attempts := ats;
  error := er;
  revision := revision v;
  started_at := started_at v;
  updated_at := updated_at v;
  audit_incomplete := inc
|}.

(** [if let Some(a) = v.attempts.last_mut() { ... }]. *)
Fixpoint last_mut (f : Attempt -> Attempt) (l : list Attempt) : list Attempt :=
  match l with [] => [] | [a] => [f a] | a :: l => a :: last_mut f l end.

Definition set_result (sent : bool) (res : string) (a : Attempt) : Attempt :=
  {| at_attempt := at_attempt a; at_sent := sent; at_result := res; at_at := at_at a |}.

Definition change_expired (reason : string) (v : Snapshot) : Snapshot :=
  set_execution v "Expired" reason (attempt_count v) (sent_count v) (attempts v) (audit_incomplete v).

Definition change_executing (n : Z) (stamp : string) (v : Snapshot) : Snapshot :=
  set_execution v "Executing" (error v) n (sent_count v)
    (attempts v ++ [{| at_attempt := n; at_sent := false; at_result := "Sending"; at_at := stamp |}])
    (audit_incomplete v).

Definition change_error (reason : string) (v : Snapshot) : Snapshot :=
  set_execution v (phase v) reason (attempt_count v) (sent_count v) (attempts v) (audit_incomplete v).

Definition change_sent (v : Snapshot) : Snapshot :=
  set_execution v (phase v) (error v) (attempt_count v) (sent_count v + 1)
    (last_mut (set_result true "WaitingForAck") (attempts v)) (audit_incomplete v).

Definition change_ack_failed (reason : string) (v : Snapshot) : Snapshot :=
  set_execution v (phase v) reason (attempt_count v) (sent_count v)
    (last_mut (fun a => set_result (at_sent a) reason a) (attempts v)) (audit_incomplete v).

(** The result of a command that reports no acknowledgement. *)
Definition change_unconfirmed (sent : bool) (v : Snapshot) : Snapshot :=
  let word := if sent then "SentUnconfirmed" else "write_failed" in
  set_execution v (if sent then "SentUnconfirmed" else "Failed")
    (if sent then error v else "write_failed") (attempt_count v) (if sent then 1 else 0)
    (last_mut (set_result sent word) (attempts v)) (audit_incomplete v).

(** The change of [send_ack_status]. *)
Definition change_status (status : CommandAckStatus) (v : Snapshot) : Snapshot :=
  match status with
  | Waiting => v
  | Received =>
      set_execution v "AckReceived" "" (attempt_count v) (sent_count v)
        (last_mut (fun a => set_result (at_sent a) "AckReceived" a) (attempts v)) (audit_incomplete v)
  | Failed =>
      if terminal v then v
      else
        set_execution v "Failed"
          (if String.eqb (error v) "" then "serial command rejected or write failed" else error v)
          (attempt_count v) (sent_count v)
          (last_mut (fun a => if String.eqb (at_result a) "Sending"
                              then set_result (at_sent a) "write_failed" a else a) (attempts v))
          (audit_incomplete v)
  end.

(** The change of [ExecutionGuard::drop]. *)
Definition change_interrupted (v : Snapshot) : Snapshot :=
  if terminal v then v
  else set_execution v "Unknown" "serial transaction interrupted; device outcome unknown"
         (attempt_count v) (sent_count v) (attempts v) true.

(** ** Execution *)

Section Execution.
Context (e : Env).

(** [command_tracker().update(port, ack_id, change)], when there is a tracker;
    the update stamps the entry with the wall clock. *)
Definition update_tracker (ack : option Z) (change : Snapshot -> Snapshot) (t : Tx) : Tx :=
  {| tx_tracker := (fun s => update s (env_port e) ack change (env_stamp e (st_revision s))) <$> tx_tracker t;
     tx_permit := tx_permit t; tx_events := tx_events t; tx_audits := tx_audits t |}.
Definition track (ack : option Z) (change : Snapshot -> Snapshot) : M unit := modify (update_tracker ack change).

Definition send_ack_status (ack : option Z) (status : CommandAckStatus) : M unit :=
  _ ← track ack (change_status status);
  modify (emit (Notified {| cau_com := env_port e; cau_ack_id := ack; cau_status := status |})).

(** The port's answer to [send_command] on attempt [n]. *)
Definition send_command (d : SendData) (n : Z) : M bool := fun t =>
  match env_send e n with
  | Some ok => (emit (Sent d ok) t, Some ok)
  | None => (t, None)
  end.

Definition receive_command_ack_result (n : Z) : M (result string unit) := fun t => (t, env_ack e n).

(** The [for] loop from attempt [n], [remaining] attempts to go; the audit is
    dropped where the function returns or unwinds. *)
Fixpoint attempts_loop (command : SendData) (ack expires_at : option Z) (remaining : nat) (n : Z)
    (audit : CommandAudit) : M bool :=
  match remaining with
  | O =>
      _ ← drop_permit;
      _ ← send_ack_status ack Failed;
      _ ← modify (drop_audit (audit_result "failed" audit));
      mret false
  | S remaining =>
      if expired e expires_at n then
        _ ← drop_permit;
        _ ← track ack (change_expired "deadline_expired");
        _ ← send_ack_status ack Failed;
        _ ← modify (drop_audit (failure "deadline_expired" (audit_result "expired" audit)));
        mret false
      else
        let audit := audit_attempt n audit in
        _ ← track ack (change_executing n (env_stamp e n));
        sent ← unwinding audit (send_command command n);
        if negb sent then
          _ ← drop_permit;
          _ ← track ack (change_error "write_failed");
          _ ← send_ack_status ack Failed;
          _ ← modify (drop_audit (failure "write_failed" (audit_result "failed" audit)));
          mret false
        else
          let audit := audit_sent audit in
          _ ← track ack change_sent;
          _ ← send_ack_status ack Waiting;
          r ← unwinding audit (receive_command_ack_result n);
          match r with
          | Ok _ =>
              _ ← drop_permit;
              _ ← send_ack_status ack Received;
              _ ← modify (drop_audit (audit_received audit));
              mret true
          | Err reason =>
              _ ← track ack (change_ack_failed reason);
              attempts_loop command ack expires_at remaining (n + 1) (failure reason audit)
          end
  end.

Definition execute_command_with_ack (command : SendData) (ack expires_at : option Z) (retry_count : Z) : M bool :=
  let attempts := Z.max retry_count 1 in
  attempts_loop command ack expires_at (Z.to_nat attempts) 1
    (new_audit (env_port_name e) command ack attempts).

(** The [ExecutionGuard] is dropped before the permit on every way out. *)
Definition execute_queued_command (c : QueuedCommand) (retry_count : Z) : M bool :=
  finally (finally
    (if expired e (qc_expires_at c) 0 then
       _ ← drop_permit;
       _ ← track (qc_ack_id c) (change_expired "deadline_expired_before_send");
       _ ← (if qc_report_ack c then send_ack_status (qc_ack_id c) Failed else mret tt);
       mret false
     else if negb (qc_report_ack c) then
       _ ← track (qc_ack_id c) (change_executing 1 (env_stamp e 1));
       sent ← send_command (qc_data c) 1;
       _ ← drop_permit;
       _ ← track (qc_ack_id c) (change_unconfirmed sent);
       mret sent
     else execute_command_with_ack (qc_data c) (qc_ack_id c) (qc_expires_at c) retry_count)
    (track (qc_ack_id c) change_interrupted))
    drop_permit.

(** A transaction starts with the command's permit and an empty history. *)
Definition start (s : option State) (c : QueuedCommand) : Tx :=
  {| tx_tracker := s; tx_permit := qc_permit c; tx_events := []; tx_audits := [] |}.

Definition run (s : option State) (c : QueuedCommand) (retry_count : Z) : Tx * option bool :=
  execute_queued_command c retry_count (start s c).
End Execution.

(** ** Pacing *)

(** [CommandPacing]; durations and instants in nanoseconds. *)
Record CommandPacing := { interval : Z; ready_at : option Z }.

Definition ready (p : CommandPacing) (now : Z) : bool :=
  match ready_at p with Some deadline => deadline <=? now | None => true end.

Definition completed (p : CommandPacing) (now : Z) : CommandPacing :=
  {| interval := interval p; ready_at := if interval p =? 0 then None else Some (now + interval p) |}.

Lemma ready_after_completed p finished now :
  0 <= interval p -> finished <= now -> ready (completed p finished) now = true <-> finished + interval p <= now.
Proof.
  intros Hi Hn. unfold ready, completed. simpl. destruct (Z.eqb_spec (interval p) 0); [split; [lia|done]|].
  apply Z.leb_le.
Qed.

(** ** A program logic for transactions

    [wp m Q t]: [m] started in [t] ends in a state and with an outcome that
    satisfy [Q]. *)

Definition wp {A} (m : M A) (Q : Tx -> option A -> Prop) (t : Tx) : Prop := Q (m t).1 (m t).2.

Lemma wp_bind {A B} (m : M A) (f : A -> M B) Q t :
  wp m (fun t r => match r with Some a => wp (f a) Q t | None => Q t None end) t -> wp (m ≫= f) Q t.
Proof. unfold wp, mbind, M_bind. destruct (m t) as [t' [a|]]; done. Qed.

Lemma wp_ret {A} (a : A) (Q : Tx -> option A -> Prop) t : Q t (Some a) -> wp (mret a) Q t.
Proof. done. Qed.

Lemma wp_modify f (Q : Tx -> option unit -> Prop) t : Q (f t) (Some tt) -> wp (modify f) Q t.
Proof. done. Qed.

Lemma wp_mono {A} (m : M A) (P Q : Tx -> option A -> Prop) t :
  wp m P t -> (forall t' r, P t' r -> Q t' r) -> wp m Q t.
Proof. unfold wp. eauto. Qed.

Lemma wp_finally {A} (m : M A) f (Q : Tx -> option A -> Prop) t :
  wp m (fun t r => Q (f t) r) t -> wp (finally m (modify f)) Q t.
Proof. unfold wp, finally. by destruct (m t). Qed.

Lemma wp_elim {A} (m : M A) (Q : Tx -> option A -> Prop) t : wp m Q t -> let (t', r) := m t in Q t' r.
Proof. unfold wp. by destruct (m t). Qed.

Section Logic.
Context (e : Env).

Lemma wp_send d n (Q : Tx -> option bool -> Prop) t :
  (forall ok, env_send e n = Some ok -> Q (emit (Sent d ok) t) (Some ok)) ->
  (env_send e n = None -> Q t None) -> wp (send_command e d n) Q t.
Proof. unfold wp, send_command. destruct (env_send e n); simpl; eauto. Qed.

Lemma wp_unwinding {A} a (m : M A) (Q : Tx -> option A -> Prop) t :
  wp m (fun t r => match r with
                   | Some v => Q t (Some v)
                   | None => Q (drop_permit (drop_audit a t)).1 None
                   end) t ->
  wp (unwinding a m) Q t.
Proof. unfold wp, unwinding. by destruct (m t) as [t' [v|]]. Qed.

Lemma wp_receive n (Q : Tx -> option (result string unit) -> Prop) t :
  (forall r, env_ack e n = r -> Q t r) -> wp (receive_command_ack_result e n) Q t.
Proof. unfold wp. simpl. eauto. Qed.

Lemma wp_notify ack status (Q : Tx -> option unit -> Prop) t :
  wp (track e ack (change_status status)) (fun t _ =>
    Q (emit (Notified {| cau_com := env_port e; cau_ack_id := ack; cau_status := status |}) t) (Some tt)) t ->
  wp (send_ack_status e ack status) Q t.
Proof. done. Qed.
End Logic.

(** One step of symbolic execution. *)
Ltac wp_step :=
  match goal with
  | |- wp (mret _) _ _ => apply wp_ret
  | |- wp (_ ≫= _) _ _ => apply wp_bind
  | |- wp (modify _) _ _ => apply wp_modify
  | |- wp drop_permit _ _ => apply wp_modify
  | |- wp (track _ _ _) _ _ => apply wp_modify
  | |- wp (send_ack_status _ _ _) _ _ => apply wp_notify
  | |- wp (unwinding _ _) _ _ => apply wp_unwinding
  | |- wp (send_command _ _ _) _ _ => let ok := fresh "ok" in apply wp_send; [intros ok ?|intros ?]
  | |- wp (receive_command_ack_result _ _) _ _ => let r := fresh "r" in apply wp_receive; intros r ?
  | |- wp (if ?b then _ else _) _ _ => destruct b eqn:?
  | |- wp (match ?r with Ok _ => _ | Err _ => _ end) _ _ => destruct r eqn:?
  end; cbv beta iota.

(** ** One attempt *)

Section Attempt.
Context (e : Env) (d : SendData) (aid : option Z) (deadline : option Z).

Definition note (status : CommandAckStatus) : Event :=
  Notified {| cau_com := env_port e; cau_ack_id := aid; cau_status := status |}.

(** The states along the loop. *)
Definition notify (status : CommandAckStatus) (t : Tx) : Tx :=
  emit (note status) (update_tracker e aid (change_status status) t).
Definition sending (n : Z) (t : Tx) : Tx := update_tracker e aid (change_executing n (env_stamp e n)) t.
Definition waiting (n : Z) (t : Tx) : Tx :=
  notify Waiting (update_tracker e aid change_sent (emit (Sent d true) (sending n t))).

(** The loop's verification rule: the exhausted budget, and the ways one
    attempt ends or goes on. *)
Lemma wp_exhausted n audit (Q : Tx -> option bool -> Prop) t :
  Q (drop_audit (audit_result "failed" audit) (notify Failed (release_permit t))) (Some false) ->
  wp (attempts_loop e d aid deadline 0 n audit) Q t.
Proof. done. Qed.

Lemma wp_attempt budget n audit (Q : Tx -> option bool -> Prop) t :
  let audit1 := audit_attempt n audit in
  let audit2 := audit_sent audit1 in
  (expired e deadline n = true ->
   Q (drop_audit (failure "deadline_expired" (audit_result "expired" audit))
        (notify Failed (update_tracker e aid (change_expired "deadline_expired") (release_permit t)))) (Some false)) ->
  (expired e deadline n = false -> env_send e n = None ->
   Q (release_permit (drop_audit audit1 (sending n t))) None) ->
  (expired e deadline n = false -> env_send e n = Some false ->
   Q (drop_audit (failure "write_failed" (audit_result "failed" audit1))
        (notify Failed (update_tracker e aid (change_error "write_failed")
           (release_permit (emit (Sent d false) (sending n t)))))) (Some false)) ->
  (expired e deadline n = false -> env_send e n = Some true -> env_ack e n = None ->
   Q (release_permit (drop_audit audit2 (waiting n t))) None) ->
  (expired e deadline n = false -> env_send e n = Some true -> env_ack e n = Some (Ok tt) ->
   Q (drop_audit (audit_received audit2) (notify Received (release_permit (waiting n t)))) (Some true)) ->
  (forall reason, expired e deadline n = false -> env_send e n = Some true -> env_ack e n = Some (Err reason) ->
   wp (attempts_loop e d aid deadline budget (n + 1) (failure reason audit2)) Q
     (update_tracker e aid (change_ack_failed reason) (waiting n t))) ->
  wp (attempts_loop e d aid deadline (S budget) n audit) Q t.
Proof.
  intros audit1 audit2 Hx Hsp Hsf Hap Ha Hn. cbn [attempts_loop]. wp_step; [repeat wp_step; by apply Hx|].
  do 5 wp_step; [|by apply Hsp]. destruct ok; wp_step; try done; [|repeat wp_step; by apply Hsf].
  do 8 wp_step. destruct r as [[[]|reason]|]; [repeat wp_step; by apply Ha|repeat wp_step; by apply Hn|by apply Hap].
Qed.
End Attempt.

(** ** The trace of a transaction *)

Section Trace.
Context (e : Env) (d : SendData) (aid : option Z) (deadline : option Z).

Definition waits (k : nat) : list Event := concat (replicate k [Sent d true; note e aid Waiting]).
Definition release (held : bool) : list Event := if held then [Released] else [].

(** The shape of the events of [budget] attempts from attempt [n] on: [k]
    complete sends, each announced as waiting and all but the last one
    unanswered, then one of three ends.  The permit goes back after the last
    send and before the terminal notification; a panic of the send or of the
    wait gives it back without a notification. *)
Definition traced (budget : nat) (n : Z) (held : bool) (events : list Event) (r : option bool) : Prop :=
  exists (k : nat) (rest : list Event), (k <= budget)%nat /\ events = waits k ++ rest /\
    (forall j : nat, (j < k)%nat ->
       expired e deadline (n + Z.of_nat j) = false /\ env_send e (n + Z.of_nat j) = Some true) /\
    (forall j : nat, (S j < k)%nat -> exists reason, env_ack e (n + Z.of_nat j) = Some (Err reason)) /\
    match r with
    | Some true =>
        (0 < k)%nat /\ env_ack e (n + Z.of_nat k - 1) = Some (Ok tt) /\ rest = release held ++ [note e aid Received]
    | Some false =>
        (k = budget \/ expired e deadline (n + Z.of_nat k) = true) /\ rest = release held ++ [note e aid Failed] \/
        rest = [Sent d false] ++ release held ++ [note e aid Failed] /\ expired e deadline (n + Z.of_nat k) = false
    | None =>
        rest = release held /\
        ((k < budget)%nat /\ expired e deadline (n + Z.of_nat k) = false /\ env_send e (n + Z.of_nat k) = None \/
         (0 < k)%nat /\ env_ack e (n + Z.of_nat k - 1) = None)
    end.

(** The terminal notifications among the events. *)
Definition endings (events : list Event) : list CommandAckUpdate :=
  omap (fun ev => match ev with Notified u => if is_terminal (cau_status u) then Some u else None | _ => None end) events.

(** One more unanswered attempt in front. *)
Lemma traced_cons budget n held events r reason :
  expired e deadline n = false -> env_send e n = Some true -> env_ack e n = Some (Err reason) ->
  traced budget (n + 1) held events r ->
  traced (S budget) n held ([Sent d true; note e aid Waiting] ++ events) r.
Proof.
  intros Hx Hs Ha (k & rest & Hk & -> & Hsent & Hack & Hr). exists (S k), rest.
  assert (Hn : forall j : nat, n + Z.of_nat (S j) = n + 1 + Z.of_nat j) by lia.
  split_and!; [lia|done| | |].
  - intros [|j] Hj; [by rewrite Z.add_0_r|]. rewrite Hn. apply Hsent. lia.
  - intros [|j] Hj; [rewrite Z.add_0_r; eauto|]. rewrite Hn. apply Hack. lia.
  - destruct r as [[]|]; [|rewrite Hn|rewrite Hn].
    + destruct Hr as (? & <- & ->). split_and!; [lia|f_equal; lia|done].
    + destruct Hr as [[[->|?] ->]|[-> ?]]; naive_solver.
    + destruct Hr as (-> & [(? & ? & ?)|[? <-]]); (split; [done|]); [left; split_and!; [lia|done|done]|].
      right. split; [lia|f_equal; lia].
Qed.

Lemma traced_stop budget n held rest r :
  match r with
  | Some true => False
  | Some false =>
      (budget = 0%nat \/ expired e deadline n = true) /\ rest = release held ++ [note e aid Failed] \/
      rest = [Sent d false] ++ release held ++ [note e aid Failed] /\ expired e deadline n = false
  | None => rest = release held /\ (0 < budget)%nat /\ expired e deadline n = false /\ env_send e n = None
  end -> traced budget n held rest r.
Proof.
  intros H. exists 0%nat, rest. split_and!; [lia|done|lia|lia|]. rewrite Z.add_0_r.
  destruct r as [[]|]; [done| |destruct H; auto]. destruct H as [[[->|?] ->]|[-> ?]]; eauto.
Qed.

Lemma traced_last budget n held rest r :
  expired e deadline n = false -> env_send e n = Some true ->
  match r with
  | Some true => env_ack e n = Some (Ok tt) /\ rest = release held ++ [note e aid Received]
  | Some false => False
  | None => rest = release held /\ env_ack e n = None
  end -> traced (S budget) n held ([Sent d true; note e aid Waiting] ++ rest) r.
Proof.
  intros Hx Hs H. exists 1%nat, rest. split_and!; [lia|done| |lia|].
  - intros [|j] Hj; [by rewrite Z.add_0_r|lia].
  - destruct r as [[]|]; [|done|].
    + destruct H as [<- ->]. split_and!; [lia|f_equal; lia|done].
    + destruct H as [-> <-]. split; [done|]. right. split; [lia|f_equal; lia].
Qed.

Lemma endings_app l1 l2 : endings (l1 ++ l2) = endings l1 ++ endings l2.
Proof. apply omap_app. Qed.

Lemma endings_waits k : endings (waits k) = [].
Proof.
  induction k as [|k IH]; [done|]. change (waits (S k)) with ([Sent d true; note e aid Waiting] ++ waits k).
  by rewrite endings_app, IH.
Qed.

Lemma endings_release held : endings (release held) = [].
Proof. by destruct held. Qed.

Lemma traced_endings budget n held events r :
  traced budget n held events r ->
  endings events = match r with
                   | Some ok => [{| cau_com := env_port e; cau_ack_id := aid; cau_status := if ok then Received else Failed |}]
                   | None => []
                   end.
Proof.
  intros (k & rest & _ & -> & _ & _ & Hr). rewrite endings_app, endings_waits.
  destruct r as [[]|]; [destruct Hr as (_ & _ & ->)|destruct Hr as [[_ ->]|[-> _]]|destruct Hr as [-> _]];
    rewrite ?endings_app, ?endings_release; reflexivity.
Qed.

Lemma attempts_loop_traced budget n audit t :
  wp (attempts_loop e d aid deadline budget n audit)
    (fun t' r => exists events, tx_events t' = tx_events t ++ events /\ tx_permit t' = false /\
                                traced budget n (tx_permit t) events r) t.
Proof.
  revert n audit t. induction budget as [|budget IH]; intros n audit t.
  - apply wp_exhausted. eexists. simpl. rewrite <- app_assoc. split_and!; [done..|].
    apply traced_stop. naive_solver.
  - apply wp_attempt; [| | | | |]; intros; [| | | | |eapply wp_mono; [apply IH|]].
    all: try (eexists; simpl; rewrite <- ?app_assoc; split_and!; [done|done|]).
    + apply traced_stop. eauto.
    + apply traced_stop. split_and!; [done|lia|done|done].
    + apply traced_stop. eauto.
    + by apply (traced_last budget n _ (release (tx_permit t))).
    + by apply (traced_last budget n _ (release (tx_permit t) ++ [note e aid Received])).
    + intros t' r (events & Hev & Hp & Htr). simpl in Hev. rewrite <- !app_assoc in Hev.
      eexists. split_and!; [exact Hev|done|]. by eapply traced_cons.
Qed.
End Trace.

(** ** The journal entry of a transaction *)

Section Entry.
Context (e : Env) (d : SendData) (a : Z) (deadline : option Z).

(** The entry the transaction's updates reach. *)
Definition entry (t : Tx) : option Snapshot :=
  s ← tx_tracker t; k ← ack s !! (env_port e, a); entries s !! k.

(** What an update's bookkeeping (revision, time, attempt trimming) keeps. *)
Record same_outcome (v w : Snapshot) : Prop := {
  so_phase : phase w = phase v;
  so_sent : sent_count w = sent_count v;
  so_incomplete : audit_incomplete v = true -> audit_incomplete w = true
}.

Lemma entry_update t change v :
  entry t = Some v ->
  exists w, entry (update_tracker e (Some a) change t) = Some w /\ same_outcome (change v) w.
Proof.
  unfold entry, update_tracker, update. simpl. destruct (tx_tracker t) as [s|]; [|done]. simpl.
  destruct (ack s !! (env_port e, a)) as [k|] eqn:Hk; [|done]. simpl. intros Hv. rewrite Hv. simpl.
  rewrite Hk. simpl. rewrite lookup_insert_eq. eexists. split; [done|].
  unfold trim_attempts. case_match; by constructor.
Qed.

(** Complete sends of a history. *)
Definition is_complete (ev : Event) : bool := match ev with Sent _ true => true | _ => false end.
Definition complete_sends (l : list Event) : Z := Z.of_nat (length (filter (fun ev => is_complete ev = true) l)).

Lemma complete_sends_app l l' : complete_sends (l ++ l') = complete_sends l + complete_sends l'.
Proof. unfold complete_sends. rewrite filter_app, length_app. lia. Qed.

(** The entry is in phase [ph] and counts exactly the complete sends. *)
Definition tracked (t : Tx) (ph : string) : Prop :=
  exists v, entry t = Some v /\ sent_count v = complete_sends (tx_events t) /\ phase v = ph.

Lemma tracked_update t change ph ph' :
  tracked t ph ->
  (forall v, phase v = ph -> phase (change v) = ph' /\ sent_count (change v) = sent_count v) ->
  tracked (update_tracker e (Some a) change t) ph'.
Proof.
  intros (v & Hv & Hs & Hp) Hc. destruct (entry_update t change v Hv) as (w & Hw & [Hwp Hws _]).
  destruct (Hc v Hp). exists w. split; [done|]. simpl. split; congruence.
Qed.

Lemma tracked_emit t ev ph : is_complete ev = false -> tracked t ph -> tracked (emit ev t) ph.
Proof.
  intros He (v & Hv & Hs & Hp). exists v. split_and!; [done| |done]. simpl.
  rewrite complete_sends_app, Hs. unfold complete_sends at 3. rewrite filter_cons_False by (by rewrite He).
  cbn. lia.
Qed.

Lemma tracked_sent t ph :
  tracked t ph -> tracked (update_tracker e (Some a) change_sent (emit (Sent d true) t)) ph.
Proof.
  intros (v & Hv & Hs & Hp).
  destruct (entry_update (emit (Sent d true) t) change_sent v Hv) as (w & Hw & [Hwp Hws _]).
  exists w. split; [done|]. simpl in *. rewrite complete_sends_app, Hws, Hwp, Hs. done.
Qed.

Lemma tracked_release t ph : tracked t ph -> tracked (release_permit t) ph.
Proof.
  intros (v & Hv & Hs & Hp). exists v. split_and!; [done| |done]. simpl. rewrite complete_sends_app.
  rewrite Hs. destruct (tx_permit t); [change (complete_sends [Released]) with 0|change (complete_sends []) with 0]; lia.
Qed.

Lemma tracked_audit t au ph : tracked t ph -> tracked (drop_audit au t) ph.
Proof. done. Qed.

Definition live (ph : string) : Prop := ph = "Accepted" \/ ph = "Executing".

Lemma live_not_terminal v : live (phase v) -> terminal v = false.
Proof. unfold terminal. by intros [-> | ->]. Qed.

Lemma tracked_failed t ph :
  live ph -> tracked t ph -> tracked (notify e (Some a) Failed t) "Failed".
Proof.
  intros Hl Ht. apply tracked_emit; [done|]. eapply tracked_update; [exact Ht|].
  intros v Hp. unfold change_status. rewrite live_not_terminal by (by rewrite Hp). done.
Qed.

Lemma tracked_waiting t n ph : tracked t ph -> tracked (waiting e d (Some a) n t) "Executing".
Proof.
  intros Ht. apply tracked_emit; [done|].
  eapply (tracked_update _ (change_status Waiting)); [|intros v Hv; split; [exact Hv|done]].
  apply tracked_sent. by eapply tracked_update.
Qed.

Lemma tracked_received t ph : tracked t ph -> tracked (notify e (Some a) Received t) "AckReceived".
Proof. intros Ht. apply tracked_emit; [done|]. by eapply tracked_update. Qed.

(** An expiry is not overwritten by the failure notification. *)
Lemma tracked_expired t ph reason :
  tracked t ph -> tracked (notify e (Some a) Failed (update_tracker e (Some a) (change_expired reason) t)) "Expired".
Proof.
  intros Ht. apply tracked_emit; [done|]. eapply (tracked_update _ _ "Expired"); [by eapply tracked_update|].
  intros v Hp. unfold change_status, terminal. by rewrite Hp.
Qed.

(** The entry's phase where the loop returns or unwinds. *)
Definition loop_phase (ph : string) (r : option bool) : Prop :=
  match r with
  | Some true => ph = "AckReceived"
  | Some false => ph = "Failed" \/ ph = "Expired" /\ exists n, expired e deadline n = true
  | None => ph = "Executing"
  end.

Lemma attempts_loop_tracked budget n audit t ph :
  live ph -> tracked t ph ->
  wp (attempts_loop e d (Some a) deadline budget n audit)
    (fun t' r => exists ph', tracked t' ph' /\ loop_phase ph' r) t.
Proof.
  revert n audit t ph. induction budget as [|budget IH]; intros n audit t ph Hl Ht.
  - apply wp_exhausted. exists "Failed". split; [|by left].
    eapply tracked_failed; [exact Hl|]. by apply tracked_release.
  - apply wp_attempt; intros.
    + exists "Expired". split; [|right; eauto]. eapply tracked_expired. by apply tracked_release.
    + exists "Executing". split; [|done]. apply tracked_release. by eapply tracked_update.
    + exists "Failed". split; [|by left]. apply (tracked_failed _ "Executing"); [by right|].
      eapply (tracked_update _ _ "Executing"); [|done]. apply tracked_release, tracked_emit; [done|].
      by eapply tracked_update.
    + exists "Executing". split; [|done]. apply tracked_release. by eapply tracked_waiting.
    + exists "AckReceived". split; [|done]. eapply tracked_received. apply tracked_release.
      by eapply tracked_waiting.
    + apply (IH _ _ _ "Executing"); [by right|]. eapply (tracked_update _ _ "Executing"); [|done].
      by eapply tracked_waiting.
Qed.
End Entry.

(** ** The audit of a transaction *)

Section Audit.
Context (e : Env) (d : SendData) (aid : option Z) (deadline : option Z).

Lemma failures_bounded reason au : (length (au_failures au) <= 8)%nat -> (length (au_failures (failure reason au)) <= 8)%nat.
Proof.
  intros H. simpl. rewrite length_app. simpl. destruct (Nat.eqb_spec (length (au_failures au)) 8) as [E|E]; [|lia].
  destruct (au_failures au); simpl in *; lia.
Qed.

(** The audit line against the history and the outcome. *)
Record audited (au : CommandAudit) (l : list Event) (r : option bool) : Prop := {
  audited_sent : au_sent_count au = complete_sends l;
  audited_failures : (length (au_failures au) <= 8)%nat;
  audited_result : au_result au = "received" <-> r = Some true
}.

Lemma complete_sends_release (b : bool) l : complete_sends (l ++ if b then [Released] else []) = complete_sends l.
Proof.
  rewrite complete_sends_app. destruct b; [change (complete_sends [Released]) with 0|change (complete_sends []) with 0]; lia.
Qed.

Lemma complete_sends_snoc l ev : complete_sends (l ++ [ev]) = complete_sends l + if is_complete ev then 1 else 0.
Proof.
  rewrite complete_sends_app. f_equal. unfold complete_sends. cbn [filter list_filter].
  destruct (is_complete ev); reflexivity.
Qed.

Lemma attempts_loop_audited budget n au t :
  au_sent_count au = complete_sends (tx_events t) -> (length (au_failures au) <= 8)%nat ->
  au_result au = "interrupted" -> tx_audits t = [] ->
  wp (attempts_loop e d aid deadline budget n au)
    (fun t' r => exists au', tx_audits t' = [au'] /\ audited au' (tx_events t') r) t.
Proof.
  revert n au t. induction budget as [|budget IH]; intros n au t Hs Hf Hr Ha.
  - apply wp_exhausted. eexists. simpl. rewrite Ha. split; [done|].
    constructor; simpl; [by rewrite complete_sends_snoc, complete_sends_release, Hs, Z.add_0_r|done|done].
  - apply wp_attempt; intros; [| | | | |apply IH].
    all: try (eexists; simpl; rewrite Ha; split; [done|]; constructor).
    all: cbn [tx_events au_sent_count]; rewrite ?complete_sends_snoc, ?complete_sends_release,
      ?complete_sends_snoc, ?complete_sends_release; simpl; try lia; try done.
    all: try (by apply (failures_bounded _ au)). all: try (by apply (failures_bounded _ (audit_attempt n au))).
    all: try (rewrite !complete_sends_snoc; simpl; lia).
    all: try (split; [by rewrite Hr|done]).
Qed.
End Audit.

(** ** Properties *)

Section Properties.
Context (e : Env).

(** The guard and the permit's scope around a transaction body. *)
Lemma wp_queued c retry (Q : Tx -> option bool -> Prop) t :
  let guard t := release_permit (update_tracker e (qc_ack_id c) change_interrupted t) in
  (expired e (qc_expires_at c) 0 = true ->
   let t1 := update_tracker e (qc_ack_id c) (change_expired "deadline_expired_before_send") (release_permit t) in
   Q (guard (if qc_report_ack c then notify e (qc_ack_id c) Failed t1 else t1)) (Some false)) ->
  (expired e (qc_expires_at c) 0 = false -> qc_report_ack c = false ->
   let t1 := sending e (qc_ack_id c) 1 t in
   match env_send e 1 with
   | Some ok =>
       Q (guard (update_tracker e (qc_ack_id c) (change_unconfirmed ok)
                   (release_permit (emit (Sent (qc_data c) ok) t1)))) (Some ok)
   | None => Q (guard t1) None
   end) ->
  (expired e (qc_expires_at c) 0 = false -> qc_report_ack c = true ->
   wp (execute_command_with_ack e (qc_data c) (qc_ack_id c) (qc_expires_at c) retry)
     (fun t r => Q (guard t) r) t) ->
  wp (execute_queued_command e c retry) Q t.
Proof.
  intros guard Hx Hn Ha. unfold execute_queued_command. apply wp_finally, wp_finally. wp_step.
  - do 4 wp_step. destruct (qc_report_ack c) eqn:E; repeat wp_step; by apply Hx.
  - destruct (qc_report_ack c) eqn:E; cbn [negb]; [by apply Ha|].
    specialize (Hn eq_refl eq_refl). cbv zeta in Hn. do 4 wp_step; rewrite H in Hn; [|exact Hn].
    repeat wp_step. exact Hn.
Qed.

(** C2: The wire and notification protocol of a queued command.  A command
    whose deadline passed in the queue is never sent.  Otherwise a command that
    reports its acknowledgement makes at most max(retry count, 1) attempts, none
    after the deadline and each but the last one unanswered; every complete send
    is announced as waiting; the admission permit is given back exactly once,
    after the last send.  When the transaction returns there is exactly one
    terminal notification, after the release, and it is Received exactly when
    the result is true.  When a send or a wait panics, the permit is given back
    and there is no terminal notification.  A command that does not report its
    acknowledgement is sent once and never notified; its result is that of the
    send. *)
Theorem transaction_trace s c retry :
  let (t', r) := run e s c retry in
  tx_permit t' = false /\
  endings (tx_events t') =
    match r with
    | Some ok =>
        if qc_report_ack c
        then [{| cau_com := env_port e; cau_ack_id := qc_ack_id c; cau_status := if ok then Received else Failed |}] else []
    | None => []
    end /\
  if expired e (qc_expires_at c) 0 then
    r = Some false /\
    tx_events t' = release (qc_permit c) ++ (if qc_report_ack c then [note e (qc_ack_id c) Failed] else [])
  else if qc_report_ack c then
    traced e (qc_data c) (qc_ack_id c) (qc_expires_at c) (Z.to_nat (Z.max retry 1)) 1 (qc_permit c) (tx_events t') r
  else
    r = env_send e 1 /\
    tx_events t' = match r with Some ok => [Sent (qc_data c) ok] | None => [] end ++ release (qc_permit c).
Proof.
  unfold run. refine (wp_elim _ (fun t' r => _) _ _).
  apply wp_queued; intros Hx; rewrite Hx.
  - destruct (qc_report_ack c); simpl; destruct (qc_permit c); by rewrite ?app_nil_r.
  - intros Hr. rewrite Hr. destruct (env_send e 1) as [[]|]; simpl; destruct (qc_permit c); by rewrite ?app_nil_r.
  - intros Hr. rewrite Hr. unfold execute_command_with_ack. cbv zeta.
    generalize (Z.to_nat (Z.max retry 1)) as budget. intros budget. eapply wp_mono; [apply attempts_loop_traced|].
    intros t' r (events & Hev & Hp & Htr). split; [done|]. simpl in *. rewrite Hp, app_nil_r, Hev.
    split; [by eapply traced_endings|done].
Qed.
Lemma guard_keeps a t ph :
  bool_decide (ph ∈ ["AckReceived"; "Failed"; "Expired"; "Unknown"; "SentUnconfirmed"]) = true -> tracked e a t ph ->
  exists v, entry e a (release_permit (update_tracker e (Some a) change_interrupted t)) = Some v /\
    terminal v = true /\ phase v = ph /\
    sent_count v = complete_sends (tx_events (release_permit (update_tracker e (Some a) change_interrupted t))).
Proof.
  intros Hin Ht. assert (Hterm : forall v, phase v = ph -> terminal v = true) by (by intros v <-).
  assert (H : tracked e a (release_permit (update_tracker e (Some a) change_interrupted t)) ph).
  { apply tracked_release. eapply tracked_update; [exact Ht|]. intros v Hv. unfold change_interrupted. by rewrite Hterm. }
  destruct H as (v & ? & ? & ?). exists v. split_and!; auto.
Qed.

Lemma guard_unknown a t :
  tracked e a t "Executing" ->
  exists v, entry e a (release_permit (update_tracker e (Some a) change_interrupted t)) = Some v /\
    terminal v = true /\ phase v = "Unknown" /\ audit_incomplete v = true /\
    sent_count v = complete_sends (tx_events (release_permit (update_tracker e (Some a) change_interrupted t))).
Proof.
  intros (v & Hv & Hs & Hp). destruct (entry_update e a t change_interrupted v Hv) as (w & Hw & [Hwp Hws Hwi]).
  assert (Hc : change_interrupted v = set_execution v "Unknown"
            "serial transaction interrupted; device outcome unknown" (attempt_count v) (sent_count v) (attempts v) true).
  { unfold change_interrupted. rewrite live_not_terminal; [done|by right]. }
  rewrite Hc in *. exists w. split_and!; [done|unfold terminal; by rewrite Hwp|done|by apply Hwi|].
  simpl. by rewrite complete_sends_release, Hws.
Qed.

Lemma tracked_unconfirmed a d ok t ph :
  tx_events t = [] -> tracked e a t ph ->
  tracked e a (update_tracker e (Some a) (change_unconfirmed ok) (release_permit (emit (Sent d ok) t)))
    (if ok then "SentUnconfirmed" else "Failed").
Proof.
  intros He (v & Hv & _ & _).
  destruct (entry_update e a (release_permit (emit (Sent d ok) t)) (change_unconfirmed ok) v Hv) as (w & Hw & [Hwp Hws _]).
  exists w. split; [done|]. simpl in *. rewrite complete_sends_release, He. simpl. by destruct ok.
Qed.

(** C4: The journal tells the outcome.  For an admitted command the entry
    ends in a terminal phase that is AckReceived (or SentUnconfirmed where no
    acknowledgement is asked for) exactly when the transaction returns true,
    is Expired only if the deadline had passed, is Unknown and marked
    incomplete after a panic, and counts exactly the complete sends. *)
Theorem transaction_tracked s c a retry v :
  qc_ack_id c = Some a -> entry e a (start (Some s) c) = Some v ->
  phase v = "Accepted" -> sent_count v = 0 ->
  let (t', r) := run e (Some s) c retry in
  exists v', entry e a t' = Some v' /\ terminal v' = true /\ sent_count v' = complete_sends (tx_events t') /\
    match r with
    | Some true => phase v' = if qc_report_ack c then "AckReceived" else "SentUnconfirmed"
    | Some false => phase v' = "Failed" \/ phase v' = "Expired" /\ exists n, expired e (qc_expires_at c) n = true
    | None => phase v' = "Unknown" /\ audit_incomplete v' = true
    end.
Proof.
  intros Ha Hv Hp Hs. assert (Ht : tracked e a (start (Some s) c) "Accepted") by (by exists v).
  unfold run. refine (wp_elim _ (fun t' r => _) _ _). apply wp_queued; rewrite Ha.
  - intros Hx. edestruct (guard_keeps a) as (v' & ? & ? & ? & ?); [| |exists v'; split_and!; eauto]; [reflexivity|].
    destruct (qc_report_ack c); [by eapply tracked_expired, tracked_release|].
    eapply tracked_update; [by apply tracked_release|done].
  - intros Hx Hr. rewrite Hr. assert (H1 : tracked e a (sending e (Some a) 1 (start (Some s) c)) "Executing").
    { by eapply tracked_update. }
    destruct (env_send e 1) as [ok|]; [|destruct (guard_unknown a _ H1) as (v' & ?); exists v'; naive_solver].
    apply (tracked_unconfirmed a (qc_data c) ok) in H1; [|done].
    destruct (guard_keeps a _ (if ok then "SentUnconfirmed" else "Failed") ltac:(by destruct ok) H1)
      as (v' & ? & ? & ? & ?).
    exists v'. split_and!; [done..|]. destruct ok; auto.
  - intros Hx Hr. rewrite Hr. unfold execute_command_with_ack. cbv zeta.
    generalize (Z.to_nat (Z.max retry 1)) as budget. intros budget.
    eapply wp_mono; [apply (attempts_loop_tracked e _ a _ budget _ _ _ "Accepted"); [by left|exact Ht]|]. intros t' r (ph & Hph & Hr').
    destruct r as [ok|]; [|simpl in Hr'; subst; destruct (guard_unknown a _ Hph) as (v' & ?); exists v'; naive_solver].
    destruct (guard_keeps a t' ph) as (v' & ? & ? & ? & ?); [|done|].
    { destruct ok; simpl in Hr'; [by subst|]. by destruct Hr' as [->|[-> _]]. }
    exists v'. split_and!; [done..|]. destruct ok; simpl in *; naive_solver.
Qed.

(** Exactly one bounded audit summary per acknowledged transaction,
    returned or unwound: it counts the complete sends, keeps at most eight
    failure reasons, and reads received exactly when the transaction returned
    true. *)
Theorem transaction_audited s c retry :
  qc_report_ack c = true -> expired e (qc_expires_at c) 0 = false ->
  let (t', r) := run e s c retry in
  exists au, tx_audits t' = [au] /\ audited au (tx_events t') r.
Proof.
  intros Hr Hx. unfold run. refine (wp_elim _ (fun t' r => _) _ _). apply wp_queued; [congruence|congruence|].
  intros _ _. unfold execute_command_with_ack. cbv zeta. generalize (Z.to_nat (Z.max retry 1)) as budget. intros budget.
  eapply wp_mono; [apply attempts_loop_audited; [done|simpl; lia|done|done]|].
  intros t' r (au & Ha & [H1 H2 H3]). exists au. split; [done|]. constructor; [|done|done].
  simpl. by rewrite complete_sends_release.
Qed.
End Properties.

(** ** Witnesses *)

(** An admitted command on a port that loses the first acknowledgement. *)
Definition toy_env : Env :=
  {| env_port := "COM3"; env_port_name := "/dev/ttyS3"; env_now := fun n => 100 * n;
     env_send := fun _ => Some true;
     env_ack := fun n => Some (if n =? 1 then Err "ack_timeout" else Ok tt);
     env_stamp := fun _ => "t1" |}.
Definition toy_command : QueuedCommand :=
  {| qc_data := {| sd_device_id := 25; sd_command := [0x19; 0x08] |}; qc_report_ack := true;
     qc_ack_id := Some 7; qc_expires_at := Some 1000; qc_permit := true |}.
Definition toy_admitted : State := (toy_begin toy_state (Ok None)).1.

Example toy_trace :
  tx_events (run toy_env (Some toy_admitted) toy_command 3).1 =
    waits toy_env (qc_data toy_command) (Some 7) 2 ++ [Released; note toy_env (Some 7) Received].
Proof. vm_compute. reflexivity. Qed.

Lemma transaction_tracked_witness :
  exists v v' t', run toy_env (Some toy_admitted) toy_command 3 = (t', Some true) /\
    entry toy_env 7 (start (Some toy_admitted) toy_command) = Some v /\ phase v = "Accepted" /\
    entry toy_env 7 t' = Some v' /\ phase v' = "AckReceived" /\ sent_count v' = 2.
Proof.
  destruct (entry toy_env 7 (start (Some toy_admitted) toy_command)) as [v|] eqn:Hv; [|exfalso; by vm_compute in Hv].
  assert (Hp : phase v = "Accepted" /\ sent_count v = 0).
  { assert (H : (fun v => (phase v, sent_count v)) <$> Some v = Some ("Accepted", 0)).
    { rewrite <- Hv. vm_compute. reflexivity. }
    by injection H. }
  pose proof (transaction_tracked toy_env toy_admitted toy_command 7 3 v eq_refl Hv (proj1 Hp) (proj2 Hp)) as H.
  assert (Hr : (run toy_env (Some toy_admitted) toy_command 3).2 = Some true) by (vm_compute; reflexivity).
  assert (Hc : complete_sends (tx_events (run toy_env (Some toy_admitted) toy_command 3).1) = 2)
    by (vm_compute; reflexivity).
  destruct (run toy_env (Some toy_admitted) toy_command 3) as [t' r]. simpl in Hr, Hc. subst r.
  destruct H as (v' & Hv' & _ & Hs & Hph). exists v, v', t'. rewrite Hc in Hs. tauto.
Defined.

Lemma transaction_audited_witness :
  exists t' au, run toy_env None toy_command 3 = (t', Some true) /\ tx_audits t' = [au] /\
    audited au (tx_events t') (Some true).
Proof.
  pose proof (transaction_audited toy_env None toy_command 3 eq_refl eq_refl) as H.
  assert (Hr : (run toy_env None toy_command 3).2 = Some true) by (vm_compute; reflexivity).
  destruct (run toy_env None toy_command 3) as [t' r]. simpl in Hr. subst r.
  destruct H as (au & H). exists t', au. tauto.
Defined.
