(* ===== verification/Transport.v ===== *)
(** * Bounded serial transport (src/src/serial/transport.rs and the send path of manager.rs)

    Reads and writes against one deadline, the wire-time budgets and the
    transmission of a command frame.  The port and the clock are an
    environment that answers the [i]-th driver call; a function threads the
    number of calls made so far.  Durations and instants are nanoseconds. *)

From S2P Require Import Prelude RustFloat RustStr Model.
Open Scope Z_scope.
Open Scope list_scope.

(** ** Budgets *)

Definition u128_saturating_mul (a b : Z) : Z := Z.min (a * b) (2 ^ 128 - 1).
Definition div_ceil (a b : Z) : Z := (a + b - 1) / b.

Definition MIN_TRANSMIT_IO_SLACK : Z := millis 50.
Definition MAX_TRANSMIT_TIMEOUT : Z := millis 5000.

Definition wire_duration (byte_count baud_rate : Z) : Z :=
  if (byte_count =? 0) || (baud_rate =? 0) then 0
  else
    let bit_count := u128_saturating_mul byte_count 12 in
    Z.min (div_ceil (u128_saturating_mul bit_count 1000000000) baud_rate) (2 ^ 64 - 1).

Definition transmit_wire_budget (byte_count baud_rate : Z) : Z :=
  duration_saturating_add (wire_duration byte_count baud_rate) (wire_duration (Z.min byte_count 16) baud_rate).

Definition minimum_transmit_timeout (byte_count baud_rate : Z) : Z :=
  duration_saturating_add (transmit_wire_budget byte_count baud_rate) MIN_TRANSMIT_IO_SLACK.

Definition transmit_timeout (byte_count baud_rate configured : Z) : Z :=
  let wire_budget := transmit_wire_budget byte_count baud_rate in
  let remaining_budget := duration_saturating_sub MAX_TRANSMIT_TIMEOUT wire_budget in
  let io_slack := Z.min (Z.max configured MIN_TRANSMIT_IO_SLACK) remaining_budget in
  duration_saturating_add wire_budget io_slack.

(** ** Driver calls *)

Inductive ErrorKind := TimedOut | WriteZero | NotConnected | Other.

Inductive Parity := Mark | Space.

(** The answers of one driver call that may take time: the clock when it
    starts, [set_timeout], the transfer, the restoring [set_timeout], and the
    clock when it is over. *)
Record Call (A : Type) := {
  call_now : Z;
  call_set_timeout : bool;
  call_transfer : result ErrorKind A;
  call_restore : bool;
  call_after : Z
}.
Arguments call_now {A}.
Arguments call_set_timeout {A}.
Arguments call_transfer {A}.
Arguments call_restore {A}.
Arguments call_after {A}.

(** The environment: the answer to the [i]-th driver call, by its kind. *)
Record Driver := {
  drv_read : nat -> Call (list Z);
  drv_write : nat -> Call nat;
  drv_set_parity : nat -> bool;
  drv_clock : nat -> Z;
  drv_bytes_to_write : nat -> option Z;
  drv_bytes_to_read : nat -> option Z;
  drv_open : nat -> result String.string unit
}.

Section Transport.
Context (drv : Driver).

(** One transfer within the deadline. *)
Definition before_deadline {A} (c : Call A) (deadline : Z) : result ErrorKind A :=
  if deadline <=? call_now c then Err TimedOut
  else if negb (call_set_timeout c) then Err Other
  else if negb (call_restore c) then Err Other
  else call_transfer c.

Definition read_before_deadline (i : nat) (deadline : Z) : result ErrorKind (list Z) :=
  before_deadline (drv_read drv i) deadline.

(** Bytes the port takes in the [i]-th write, whatever the call reports. *)
Definition accepted_bytes (i : nat) (deadline : Z) (data : list Z) : list Z :=
  let c := drv_write drv i in
  if (deadline <=? call_now c) || negb (call_set_timeout c) then []
  else match call_transfer c with Ok n => take n data | Err _ => [] end.

(** [write_all_before_deadline]: the next call number, the bytes put on the
    wire and the result.  Every round writes at least one byte, so [fuel]
    is the length of the data. *)
Fixpoint write_loop (fuel i : nat) (data : list Z) (deadline : Z) : nat * list Z * result ErrorKind unit :=
  match data with
  | [] => (i, [], Ok tt)
  | _ :: _ =>
      match fuel with
      | O => (i, [], Err Other)
      | S fuel =>
          let wire := accepted_bytes i deadline data in
          match before_deadline (drv_write drv i) deadline with
          | Err e => (S i, wire, Err e)
          | Ok O => (S i, wire, Err WriteZero)
          | Ok (S n) =>
              let '(i', wire', r) := write_loop fuel (S i) (drop (S n) data) deadline in
              (i', wire ++ wire', r)
          end
      end
  end.

Definition write_all_before_deadline (i : nat) (data : list Z) (deadline : Z) : nat * list Z * result ErrorKind unit :=
  write_loop (length data) i data deadline.

(** The polling of [wait_for_output_settle]; [None] is a queue that neither
    drains nor meets the deadline within [fuel] polls. *)
Fixpoint drain (fuel i : nat) (deadline : Z) : option (nat * result ErrorKind unit) :=
  match fuel with
  | O => None
  | S fuel =>
      if match drv_bytes_to_write drv i with Some queued => 0 <? queued | None => false end then
        if deadline <=? drv_clock drv i then Some (S i, Err TimedOut)
        else drain fuel (S i) deadline
      else Some (S i, Ok tt)
  end.

Definition wait_for_output_settle (fuel i : nat) (byte_count baud_rate settle_guard deadline : Z)
    : option (nat * result ErrorKind unit) :=
  '(i, r) ← drain fuel i deadline;
  match r with
  | Err e => Some (i, Err e)
  | Ok _ =>
      let settle := duration_saturating_add (wire_duration byte_count baud_rate) settle_guard in
      let remaining := duration_saturating_sub deadline (drv_clock drv i) in
      Some (S i, if remaining <? settle then Err TimedOut else Ok tt)
  end.

(** ** The transmission of a frame *)

(** The line settings of [SerialConfig] the send path uses. *)
Record LineConfig := {
  lc_baud_rate : Z;
  lc_read_timeout : Z;
  lc_parity_switch_delay : Z;
  lc_transmit_settle_guard : Z
}.

(** A byte on the wire with the parity that was selected for it. *)
Definition on_wire (parity : option Parity) (data : list Z) : list (option Parity * Z) := (fun b => (parity, b)) <$> data.

(** [SerialManager::write_segment].  The delay between the parity switch and
    the write only passes time. *)
Definition write_segment (fuel i : nat) (opened : bool) (cfg : LineConfig) (parity : option Parity)
    (data : list Z) (wait_for_settle : bool)
    : option (nat * list (option Parity * Z) * result ErrorKind unit) :=
  let timeout := transmit_timeout (Z.of_nat (length data)) (lc_baud_rate cfg) (lc_read_timeout cfg) in
  let deadline := drv_clock drv i + timeout in
  if negb opened then Some (S i, [], Err NotConnected)
  else if match parity with Some _ => negb (drv_set_parity drv (S i)) | None => false end
  then Some (S (S i), [], Err Other)
  else
    let '(i, wire, r) := write_all_before_deadline (S (S i)) data deadline in
    match r with
    | Err e => Some (i, on_wire parity wire, Err e)
    | Ok _ =>
        if wait_for_settle then
          '(i, r) ← wait_for_output_settle fuel i (Z.of_nat (length data)) (lc_baud_rate cfg)
                      (lc_transmit_settle_guard cfg) deadline;
          Some (i, on_wire parity wire, r)
        else Some (i, on_wire parity wire, Ok tt)
    end.

(** The outcome of the writes of [send_command]. *)
Inductive Transmission :=
| Refused
| SendFailed (e : ErrorKind)
| Transmitted.

(** [SerialManager::send_command] up to its error handling: validation, then
    one segment on a special port, or the address under Mark parity and the
    payload under Space parity. *)
Definition transmit_frame (fuel i : nat) (opened special : bool) (cfg : LineConfig) (command : list Z)
    : option (nat * list (option Parity * Z) * Transmission) :=
  match command with
  | [] => Some (i, [], Refused)
  | addr :: payload =>
      if MAX_TRANSMIT_TIMEOUT <? minimum_transmit_timeout (Z.of_nat (length command)) (lc_baud_rate cfg)
      then Some (i, [], Refused)
      else if special then
        '(i, wire, r) ← write_segment fuel i opened cfg None command false;
        Some (i, wire, match r with Err e => SendFailed e | Ok _ => Transmitted end)
      else
        '(i, wire, r) ← write_segment fuel i opened cfg (Some Mark) [addr] true;
        match r with
        | Err e => Some (i, wire, SendFailed e)
        | Ok _ =>
            '(i, wire', r) ← write_segment fuel i opened cfg (Some Space) payload true;
            Some (i, wire ++ wire', match r with Err e => SendFailed e | Ok _ => Transmitted end)
        end
  end.
End Transport.

(** ** Properties of the writes *)

(** What the wire shows of a complete frame. *)
Definition frame_on_wire (special : bool) (command : list Z) : list (option Parity * Z) :=
  if special then on_wire None command
  else match command with
       | [] => []
       | addr :: payload => on_wire (Some Mark) [addr] ++ on_wire (Some Space) payload
       end.

Section Writes.
Context (drv : Driver).

Lemma accepted_prefix i deadline data : accepted_bytes drv i deadline data `prefix_of` data.
Proof.
  unfold accepted_bytes. case_match; [apply prefix_nil|]. case_match; [|apply prefix_nil].
  exists (drop a data). by rewrite take_drop.
Qed.

Lemma accepted_ok i deadline data n :
  before_deadline (drv_write drv i) deadline = Ok n -> accepted_bytes drv i deadline data = take n data.
Proof. unfold before_deadline, accepted_bytes. repeat case_match; simplify_eq/=; congruence. Qed.

(** The loop never runs out of fuel, puts a prefix on the wire and the whole
    data when it succeeds. *)
Lemma write_loop_spec fuel i data deadline :
  (length data <= fuel)%nat ->
  match write_loop drv fuel i data deadline with
  | (_, wire, Ok _) => wire = data
  | (_, wire, Err _) => wire `prefix_of` data
  end.
Proof.
  revert i data. induction fuel as [|fuel IH]; intros i [|b data] Hlen; simpl; [done|simpl in Hlen; lia|done|].
  pose proof (accepted_prefix i deadline (b :: data)) as Hp.
  destruct (before_deadline (drv_write drv i) deadline) as [[|n]|e] eqn:E; [done| |done].
  rewrite (accepted_ok _ _ _ _ E). specialize (IH (S i) (drop n data)). rewrite length_drop in IH. simpl in *.
  destruct (write_loop drv fuel (S i) (drop n data) deadline) as [[i' wire'] [u|e]].
  - rewrite IH by lia. by rewrite take_drop.
  - destruct IH as [k Hk]; [lia|]. exists k. rewrite <- (take_drop n data) at 1. rewrite Hk. simpl. by rewrite app_assoc.
Qed.

Lemma on_wire_prefix parity l l' : l `prefix_of` l' -> on_wire parity l `prefix_of` on_wire parity l'.
Proof. intros [k ->]. exists (on_wire parity k). unfold on_wire. by rewrite fmap_app. Qed.

Lemma write_segment_spec fuel i opened cfg parity data wait i' wire r :
  write_segment drv fuel i opened cfg parity data wait = Some (i', wire, r) ->
  match r with Ok _ => wire = on_wire parity data | Err _ => wire `prefix_of` on_wire parity data end.
Proof.
  unfold write_segment. destruct opened; simpl; [|intros; simplify_eq/=; apply prefix_nil].
  case_match; [intros; simplify_eq/=; apply prefix_nil|]. unfold write_all_before_deadline.
  match goal with |- context [write_loop drv _ ?j _ ?dl] => pose proof (write_loop_spec (length data) j data dl ltac:(lia)) as Hw;
    destruct (write_loop drv (length data) j data dl) as [[i1 w] [u|e]] end.
  - subst w. destruct wait; [|intros; by simplify_eq/=].
    destruct (wait_for_output_settle _ _ _ _ _ _ _) as [[i2 r2]|]; simpl; intros; simplify_eq/=.
    destruct r; [done|]. by apply on_wire_prefix.
  - intros; simplify_eq/=. by apply on_wire_prefix.
Qed.

(** A transmission that succeeds put exactly the command on the wire, the
    address byte under Mark parity and the payload under Space parity (no
    parity change on a special port); one that fails put a prefix of that on
    the wire; one that is refused put nothing. *)
Theorem transmit_frame_exact fuel i opened special cfg command i' wire t :
  transmit_frame drv fuel i opened special cfg command = Some (i', wire, t) ->
  match t with
  | Transmitted => wire = frame_on_wire special command /\ command <> []
  | SendFailed _ => wire `prefix_of` frame_on_wire special command
  | Refused => wire = []
  end.
Proof.
  unfold transmit_frame, frame_on_wire. destruct command as [|addr payload]; [intros; by simplify_eq/=|].
  case_match; [intros; by simplify_eq/=|]. destruct special.
  - destruct (write_segment _ _ _ _ _ None _ false) as [[[i1 w1] r1]|] eqn:E1; simpl; intros; simplify_eq/=.
    apply write_segment_spec in E1. by destruct r1.
  - destruct (write_segment _ _ _ _ _ (Some Mark) _ true) as [[[i1 w1] r1]|] eqn:E1; [|done]. simpl.
    apply write_segment_spec in E1. destruct r1 as [u|e].
    + subst w1. destruct (write_segment _ _ _ _ _ (Some Space) _ true) as [[[i2 w2] r2]|] eqn:E2; simpl; intros; simplify_eq/=.
      apply write_segment_spec in E2. destruct r2; [by subst|]. by apply prefix_cons.
    + intros; simplify_eq/=. etrans; [exact E1|]. by exists (on_wire (Some Space) payload).
Qed.

(** Where no write of an open port reports NotConnected, only a closed port
    does. *)
Lemma write_loop_connected fuel i data deadline i' wire e :
  (forall j, call_transfer (drv_write drv j) <> Err NotConnected) ->
  write_loop drv fuel i data deadline = (i', wire, Err e) -> e <> NotConnected.
Proof.
  intros Hd. revert i data i' wire. induction fuel as [|fuel IH]; intros i [|b data] i' wire; simpl; try (intros; by simplify_eq/=).
  assert (Hb : before_deadline (drv_write drv i) deadline <> Err NotConnected).
  { unfold before_deadline. repeat case_match; first [done|apply Hd]. }
  destruct (before_deadline (drv_write drv i) deadline) as [[|n]|e'] eqn:E; try (intros; simplify_eq/=; congruence).
  destruct (write_loop drv fuel (S i) (drop n data) deadline) as [[i1 w1] r1] eqn:E1. intros; simplify_eq/=. by eapply IH.
Qed.

Lemma drain_error fuel i deadline i' e : drain drv fuel i deadline = Some (i', Err e) -> e = TimedOut.
Proof.
  revert i. induction fuel as [|fuel IH]; intros i; simpl; [done|].
  destruct (match drv_bytes_to_write drv i with Some q => 0 <? q | None => false end); [|done].
  destruct (deadline <=? drv_clock drv i); [congruence|apply IH].
Qed.

Lemma write_segment_connected fuel i cfg parity data wait i' wire e :
  (forall j, call_transfer (drv_write drv j) <> Err NotConnected) ->
  write_segment drv fuel i true cfg parity data wait = Some (i', wire, Err e) -> e <> NotConnected.
Proof.
  intros Hd. unfold write_segment, write_all_before_deadline. simpl. case_match; [intros; by simplify_eq/=|].
  match goal with |- context [write_loop drv ?f ?j data ?dl] => destruct (write_loop drv f j data dl) as [[i1 w] [u|e1]] eqn:Ew end.
  - destruct wait; [|done]. unfold wait_for_output_settle. destruct (drain _ _ _ _) as [[i2 [u2|e2]]|] eqn:Edr; simpl; [| |done].
    + destruct (_ <? _); intros [=]; congruence.
    + intros [= _ _ <-]. apply drain_error in Edr. by rewrite Edr.
  - intros; simplify_eq/=. by eapply write_loop_connected.
Qed.

Lemma transmit_connected fuel i special cfg command i' wire e :
  (forall j, call_transfer (drv_write drv j) <> Err NotConnected) ->
  transmit_frame drv fuel i true special cfg command = Some (i', wire, SendFailed e) -> e <> NotConnected.
Proof.
  intros Hd. unfold transmit_frame. destruct command as [|addr payload]; [done|]. case_match; [done|]. destruct special.
  - destruct (write_segment _ _ _ _ _ None _ false) as [[[i1 w1] [u1|e1]]|] eqn:E1; simpl; try done.
    intros; simplify_eq/=. by eapply write_segment_connected.
  - destruct (write_segment _ _ _ _ _ (Some Mark) _ true) as [[[i1 w1] [u1|e1]]|] eqn:E1; simpl; try done.
    + destruct (write_segment _ _ _ _ _ (Some Space) _ true) as [[[i2 w2] [u2|e2]]|] eqn:E2; simpl; try done.
      intros; simplify_eq/=. by eapply write_segment_connected.
    + intros; simplify_eq/=. by eapply write_segment_connected.
Qed.

(** Polling the output queue ends once the deadline passes. *)
Lemma drain_total i k deadline :
  deadline <= drv_clock drv (i + k) -> forall fuel, (k < fuel)%nat -> is_Some (drain drv fuel i deadline).
Proof.
  revert i. induction k as [|k IH]; intros i Hd [|fuel] Hf; try lia; simpl; (case_match; [|by eexists]).
  - rewrite Nat.add_0_r in Hd. rewrite (proj2 (Z.leb_le _ _)) by lia. by eexists.
  - destruct (deadline <=? drv_clock drv i); [by eexists|]. apply IH; [|lia].
    by replace (S i + k)%nat with (i + S k)%nat by lia.
Qed.

(** More polls do not change a result. *)
Lemma drain_more fuel fuel' i deadline r :
  (fuel <= fuel')%nat -> drain drv fuel i deadline = Some r -> drain drv fuel' i deadline = Some r.
Proof.
  revert fuel' i. induction fuel as [|fuel IH]; intros [|fuel'] i Hf; simpl; try done; [lia|].
  repeat case_match; try done. apply IH. lia.
Qed.

Lemma write_segment_more fuel fuel' i opened cfg parity data wait r :
  (fuel <= fuel')%nat -> write_segment drv fuel i opened cfg parity data wait = Some r ->
  write_segment drv fuel' i opened cfg parity data wait = Some r.
Proof.
  intros Hf. unfold write_segment, wait_for_output_settle. repeat case_match; try done.
  all: destruct (drain drv fuel _ _) as [q|] eqn:E; [|done].
  all: by rewrite (drain_more _ _ _ _ _ Hf E).
Qed.

(** A clock that passes every instant. *)
Definition clock_advances : Prop := forall i T, exists k, T <= drv_clock drv (i + k).

Lemma write_segment_returns i opened cfg parity data wait :
  clock_advances ->
  exists fuel, forall fuel', (fuel <= fuel')%nat ->
    is_Some (write_segment drv fuel' i opened cfg parity data wait).
Proof.
  intros Hclock. unfold write_segment, wait_for_output_settle. cbv zeta.
  destruct (negb opened); [by exists O; intros; eexists|].
  destruct (match parity with Some _ => _ | None => _ end); [by exists O; intros; eexists|].
  destruct (write_all_before_deadline _ _ _ _) as [[i' wire] [u|e]]; [|by exists O; intros; eexists].
  destruct wait; [|by exists O; intros; eexists].
  set (deadline := drv_clock drv i + _). destruct (Hclock i' deadline) as [k Hk].
  exists (S k). intros fuel' Hf. destruct (drain_total i' k deadline Hk fuel') as [[j r] E]; [lia|].
  rewrite E. simpl. by destruct r; eexists.
Qed.
(** A transmission ends: when the clock passes every instant, enough polls
    of the output queue make [send_command]'s writes return, and more polls do
    not change that; whatever the port answers. *)
Theorem transmit_frame_returns i opened special cfg command :
  clock_advances ->
  exists fuel, forall fuel', (fuel <= fuel')%nat ->
    is_Some (transmit_frame drv fuel' i opened special cfg command).
Proof.
  intros Hclock. destruct command as [|addr payload]; [by exists O; intros; eexists|].
  unfold transmit_frame. case_match; [by exists O; intros; eexists|]. destruct special.
  - destruct (write_segment_returns i opened cfg None (addr :: payload) false Hclock) as [fuel H1].
    exists fuel. intros fuel' Hf. destruct (H1 fuel' Hf) as [[[j w] r] E]. rewrite E. by eexists.
  - destruct (write_segment_returns i opened cfg (Some Mark) [addr] true Hclock) as [fuel1 H1].
    destruct (H1 fuel1) as [[[j w] r] E1]; [lia|].
    destruct (write_segment_returns j opened cfg (Some Space) payload true Hclock) as [fuel2 H2].
    exists (Nat.max fuel1 fuel2). intros fuel' Hf.
    rewrite (write_segment_more fuel1 fuel' _ _ _ _ _ _ _ ltac:(lia) E1). simpl.
    destruct r; [|by eexists]. destruct (H2 fuel') as [[[j' w'] r'] E2]; [lia|].
    rewrite E2. by eexists.
Qed.
End Writes.

(** ** Properties of the budgets *)

Lemma wire_duration_nonneg n baud : 0 <= n -> 0 <= baud -> 0 <= wire_duration n baud.
Proof.
  intros Hn Hb. unfold wire_duration, u128_saturating_mul, div_ceil.
  destruct (Z.eqb_spec n 0), (Z.eqb_spec baud 0); simpl; try lia.
  apply Z.min_glb; [|done]. apply Z.div_pos; [|lia].
  assert (0 <= Z.min (n * 12) (2 ^ 128 - 1)) by (apply Z.min_glb; [lia|done]).
  assert (0 <= Z.min (Z.min (n * 12) (2 ^ 128 - 1) * 1000000000) (2 ^ 128 - 1)) by (apply Z.min_glb; [lia|done]). lia.
Qed.

(** A frame takes at least its bits at the line rate. *)
Lemma wire_duration_covers n baud :
  0 < baud -> 0 <= n < 2 ^ 64 -> wire_duration n baud < 2 ^ 64 - 1 ->
  n * 12 * 1000000000 <= wire_duration n baud * baud.
Proof.
  intros Hb Hn. unfold wire_duration, u128_saturating_mul, div_ceil.
  destruct (Z.eqb_spec n 0) as [->|]; [simpl; lia|]. destruct (Z.eqb_spec baud 0); [lia|]. cbn [orb].
  rewrite (Z.min_l (n * 12)) by lia. rewrite (Z.min_l (n * 12 * 1000000000)) by lia.
  set (x := n * 12 * 1000000000) in *. intros H. rewrite Z.min_l by lia.
  pose proof (Z.div_mod (x + baud - 1) baud). pose proof (Z.mod_pos_bound (x + baud - 1) baud). nia.
Qed.

Section Budget.
Context (n baud configured : Z) (Hn : 0 <= n) (Hb : 0 <= baud).

Lemma transmit_wire_budget_nonneg : 0 <= transmit_wire_budget n baud.
Proof.
  unfold transmit_wire_budget, duration_saturating_add.
  assert (0 <= wire_duration n baud) by (apply wire_duration_nonneg; lia).
  assert (0 <= wire_duration (Z.min n 16) baud) by (apply wire_duration_nonneg; lia).
  unfold DURATION_MAX. lia.
Qed.

(** The transmit deadline of every frame [send_command] lets through
    (its minimum timeout is within the 5 second limit) covers the frame's bits
    at the line rate (12 bits a byte) and the minimum slack, and stays within
    the limit, whatever read timeout is configured. *)
Theorem transmit_timeout_bounds :
  0 < baud -> n < 2 ^ 64 -> minimum_transmit_timeout n baud <= MAX_TRANSMIT_TIMEOUT ->
  minimum_transmit_timeout n baud <= transmit_timeout n baud configured <= MAX_TRANSMIT_TIMEOUT /\
  n * 12 * 1000000000 <= (transmit_timeout n baud configured - MIN_TRANSMIT_IO_SLACK) * baud.
Proof.
  intros Hpos Hlt. pose proof transmit_wire_budget_nonneg as Hw.
  pose proof (wire_duration_covers n baud Hpos (conj Hn Hlt)) as Hc.
  assert (Hle : wire_duration n baud <= transmit_wire_budget n baud \/ DURATION_MAX <= transmit_wire_budget n baud).
  { assert (0 <= wire_duration (Z.min n 16) baud) by (apply wire_duration_nonneg; lia).
    unfold transmit_wire_budget, duration_saturating_add. lia. }
  revert Hw Hc Hle. generalize (wire_duration n baud) as d.
  unfold minimum_transmit_timeout, transmit_timeout, duration_saturating_add, duration_saturating_sub.
  generalize (transmit_wire_budget n baud) as w. intros w d Hw Hc Hle.
  unfold DURATION_MAX, MAX_TRANSMIT_TIMEOUT, MIN_TRANSMIT_IO_SLACK, millis in *. intros Hmin.
  split; [lia|]. specialize (Hc ltac:(lia)). nia.
Qed.
End Budget.

(** A 200-byte frame at 9600 baud under a long read timeout. *)
Lemma transmit_timeout_bounds_witness :
  minimum_transmit_timeout 200 9600 = 320000000 /\
  transmit_timeout 200 9600 (millis 60000) <= MAX_TRANSMIT_TIMEOUT.
Proof.
  split; [vm_compute; reflexivity|].
  apply (transmit_timeout_bounds 200 9600 (millis 60000)); [lia|lia|lia|lia|vm_compute; discriminate].
Defined.

(** A driver that takes four bytes a call and drains at once. *)
Definition toy_driver : Driver :=
  {| drv_read := fun _ => {| call_now := 0; call_set_timeout := true; call_transfer := Err TimedOut;
                             call_restore := true; call_after := 0 |};
     drv_write := fun _ => {| call_now := 0; call_set_timeout := true; call_transfer := Ok 4%nat;
                              call_restore := true; call_after := 0 |};
     drv_set_parity := fun _ => true; drv_clock := fun _ => 0; drv_bytes_to_write := fun _ => Some 0;
     drv_bytes_to_read := fun _ => Some 0; drv_open := fun _ => Ok tt |}.
Definition toy_line : LineConfig :=
  {| lc_baud_rate := 9600; lc_read_timeout := millis 50; lc_parity_switch_delay := 0;
     lc_transmit_settle_guard := millis 2 |}.

Lemma transmit_frame_exact_witness :
  exists i wire, transmit_frame toy_driver 3 0 true false toy_line [25; 8; 0; 1; 2; 36] = Some (i, wire, Transmitted) /\
    wire = frame_on_wire false [25; 8; 0; 1; 2; 36].
Proof.
  destruct (transmit_frame toy_driver 3 0 true false toy_line [25; 8; 0; 1; 2; 36]) as [[[i wire] t]|] eqn:E;
    [|exfalso; by vm_compute in E].
  assert (Ht : t = Transmitted).
  { assert (H : snd <$> Some (i, wire, t) = Some Transmitted) by (rewrite <- E; vm_compute; reflexivity).
    by injection H. }
  subst t. pose proof (transmit_frame_exact _ _ _ _ _ _ _ _ _ _ E) as [H _]. by exists i, wire.
Defined.

(** A port whose output queue never drains. *)
Definition stuck_driver : Driver :=
  {| drv_read := drv_read toy_driver; drv_write := drv_write toy_driver;
     drv_set_parity := fun _ => true; drv_clock := fun i => Z.of_nat i * millis 10;
     drv_bytes_to_write := fun _ => Some 7; drv_bytes_to_read := fun _ => Some 0;
     drv_open := fun _ => Ok tt |}.

Lemma transmit_frame_returns_witness :
  exists fuel, is_Some (transmit_frame stuck_driver fuel 0 true false toy_line [25; 8; 0; 1; 2; 36]).
Proof.
  destruct (transmit_frame_returns stuck_driver 0 true false toy_line [25; 8; 0; 1; 2; 36]) as [fuel H].
  { intros i T. exists (Z.to_nat T). unfold stuck_driver, drv_clock, millis. lia. }
  exists fuel. by apply H.
Defined.
