(* ===== verification/FailureLog.v ===== *)
(** * Rate-limited failure logs (src/src/serial/manager.rs)

    The three log states of a serial port: device failures, successful query
    retries and reconnection failures.  Each decides whether an event is
    logged at once, summarised or suppressed.  Instants are nanoseconds;
    counters are saturating 32-bit. *)

From Stdlib Require Import Sorted.
From S2P Require Import Prelude RustFloat RustStr Model Transport.
Open Scope string_scope.
Open Scope Z_scope.
Open Scope list_scope.

Definition FAILURE_LOG_SUMMARY_INTERVAL : Z := millis 60000.
Definition u32_saturating_add (a b : Z) : Z := Z.min (a + b) (2 ^ 32 - 1).

Inductive DeviceFailureKind := ReadTimeout | BadFrame.

#[export] Instance device_failure_kind_eq_dec : EqDecision DeviceFailureKind.
Proof. solve_decision. Defined.

(** [now.saturating_duration_since(t)], zero when there is no [t]. *)
Definition since (t : option Z) (now : Z) : Z := match t with Some t => Z.max (now - t) 0 | None => 0 end.

(** [t.is_some_and(|last| now - last >= INTERVAL)]. *)
Definition interval_over (t : option Z) (now : Z) : bool :=
  match t with Some t => FAILURE_LOG_SUMMARY_INTERVAL <=? Z.max (now - t) 0 | None => false end.

Inductive LogAction (S : Type) :=
| Immediate (stats : S)
| Summary (stats : S)
| Suppressed.
Arguments Immediate {S} stats.
Arguments Summary {S} stats.
Arguments Suppressed {S}.

(** ** Device failures *)

Record FailureEpisodeStats := {
  fs_duration : Z;
  fs_timeouts : Z;
  fs_bad_frames : Z;
  fs_suppressed : Z
}.

Definition total_failures (s : FailureEpisodeStats) : Z := u32_saturating_add (fs_timeouts s) (fs_bad_frames s).

Record DeviceFailureLogState := {
  started_at : option Z;
  last_log_at : option Z;
  timeouts : Z;
  bad_frames : Z;
  suppressed_since_summary : Z;
  timeout_logged : bool;
  bad_frame_logged : bool
}.

Definition failure_log_default : DeviceFailureLogState :=
  {| started_at := None; last_log_at := None; timeouts := 0; bad_frames := 0;
     suppressed_since_summary := 0; timeout_logged := false; bad_frame_logged := false |}.

Definition failure_stats (s : DeviceFailureLogState) (now : Z) : FailureEpisodeStats :=
  {| fs_duration := since (started_at s) now; fs_timeouts := timeouts s; fs_bad_frames := bad_frames s;
     fs_suppressed := suppressed_since_summary s |}.

Definition set_last_log (s : DeviceFailureLogState) (now : Z) (suppressed : Z) : DeviceFailureLogState :=
  {| started_at := started_at s; last_log_at := Some now; timeouts := timeouts s; bad_frames := bad_frames s;
     suppressed_since_summary := suppressed; timeout_logged := timeout_logged s;
     bad_frame_logged := bad_frame_logged s |}.

Definition record_failure (s : DeviceFailureLogState) (kind : DeviceFailureKind) (now : Z)
    : DeviceFailureLogState * LogAction FailureEpisodeStats :=
  let fresh := negb (is_some (started_at s)) in
  let first_of_kind := match kind with ReadTimeout => negb (timeout_logged s) | BadFrame => negb (bad_frame_logged s) end in
  let s :=
    {| started_at := if fresh then Some now else started_at s;
       last_log_at := if fresh then Some now else last_log_at s;
       timeouts := match kind with ReadTimeout => u32_saturating_add (timeouts s) 1 | BadFrame => timeouts s end;
       bad_frames := match kind with ReadTimeout => bad_frames s | BadFrame => u32_saturating_add (bad_frames s) 1 end;
       suppressed_since_summary := suppressed_since_summary s;
       timeout_logged := match kind with ReadTimeout => true | BadFrame => timeout_logged s end;
       bad_frame_logged := match kind with ReadTimeout => bad_frame_logged s | BadFrame => true end |} in
  if first_of_kind then
    let s := set_last_log s now (suppressed_since_summary s) in (s, Immediate (failure_stats s now))
  else if interval_over (last_log_at s) now then
    (set_last_log s now 0, Summary (failure_stats s now))
  else
    ({| started_at := started_at s; last_log_at := last_log_at s; timeouts := timeouts s;
        bad_frames := bad_frames s;
        suppressed_since_summary := u32_saturating_add (suppressed_since_summary s) 1;
        timeout_logged := timeout_logged s; bad_frame_logged := bad_frame_logged s |}, Suppressed).

Definition recover (s : DeviceFailureLogState) (now : Z) : DeviceFailureLogState * option FailureEpisodeStats :=
  match started_at s with
  | None => (s, None)
  | Some _ => (failure_log_default, Some (failure_stats s now))
  end.

(** ** Successful query retries *)

Record QueryRetryEpisodeStats := {
  qs_duration : Z;
  qs_retries_succeeded : Z;
  qs_first_timeouts : Z;
  qs_first_bad_frames : Z;
  qs_suppressed : Z
}.

Record QueryRetryLogState := {
  q_started_at : option Z;
  q_last_log_at : option Z;
  q_last_retry_at : option Z;
  q_retries_succeeded : Z;
  q_first_timeouts : Z;
  q_first_bad_frames : Z;
  q_suppressed_since_summary : Z;
  q_timeout_logged : bool;
  q_bad_frame_logged : bool
}.

Definition query_retry_log_default : QueryRetryLogState :=
  {| q_started_at := None; q_last_log_at := None; q_last_retry_at := None; q_retries_succeeded := 0;
     q_first_timeouts := 0; q_first_bad_frames := 0; q_suppressed_since_summary := 0;
     q_timeout_logged := false; q_bad_frame_logged := false |}.

Definition query_retry_stats (s : QueryRetryLogState) (now : Z) : QueryRetryEpisodeStats :=
  {| qs_duration := since (q_started_at s) now; qs_retries_succeeded := q_retries_succeeded s;
     qs_first_timeouts := q_first_timeouts s; qs_first_bad_frames := q_first_bad_frames s;
     qs_suppressed := q_suppressed_since_summary s |}.

Definition set_q_last_log (s : QueryRetryLogState) (last : option Z) (suppressed : Z) : QueryRetryLogState :=
  {| q_started_at := q_started_at s; q_last_log_at := last; q_last_retry_at := q_last_retry_at s;
     q_retries_succeeded := q_retries_succeeded s; q_first_timeouts := q_first_timeouts s;
     q_first_bad_frames := q_first_bad_frames s; q_suppressed_since_summary := suppressed;
     q_timeout_logged := q_timeout_logged s; q_bad_frame_logged := q_bad_frame_logged s |}.

Definition record_retry_success (s : QueryRetryLogState) (first_failure : DeviceFailureKind) (now : Z)
    : QueryRetryLogState * LogAction QueryRetryEpisodeStats :=
  let s := if interval_over (q_last_retry_at s) now then query_retry_log_default else s in
  let fresh := negb (is_some (q_started_at s)) in
  let first_of_kind :=
    match first_failure with ReadTimeout => negb (q_timeout_logged s) | BadFrame => negb (q_bad_frame_logged s) end in
  let s :=
    {| q_started_at := if fresh then Some now else q_started_at s;
       q_last_log_at := if fresh then Some now else q_last_log_at s;
       q_last_retry_at := Some now;
       q_retries_succeeded := u32_saturating_add (q_retries_succeeded s) 1;
       q_first_timeouts := match first_failure with ReadTimeout => u32_saturating_add (q_first_timeouts s) 1
                                                  | BadFrame => q_first_timeouts s end;
       q_first_bad_frames := match first_failure with ReadTimeout => q_first_bad_frames s
                                                    | BadFrame => u32_saturating_add (q_first_bad_frames s) 1 end;
       q_suppressed_since_summary := q_suppressed_since_summary s;
       q_timeout_logged := match first_failure with ReadTimeout => true | BadFrame => q_timeout_logged s end;
       q_bad_frame_logged := match first_failure with ReadTimeout => q_bad_frame_logged s | BadFrame => true end |} in
  if first_of_kind then
    let s := set_q_last_log s (Some now) (q_suppressed_since_summary s) in (s, Immediate (query_retry_stats s now))
  else if interval_over (q_last_log_at s) now then
    (set_q_last_log s (Some now) 0, Summary (query_retry_stats s now))
  else
    (set_q_last_log s (q_last_log_at s) (u32_saturating_add (q_suppressed_since_summary s) 1), Suppressed).

(** ** Reconnection failures *)

Record ReconnectEpisodeStats := {
  rs_duration : Z;
  rs_attempts : Z;
  rs_suppressed : Z;
  rs_last_error : string
}.

Record ReconnectFailureLogState := {
  r_started_at : option Z;
  r_last_log_at : option Z;
  r_attempts : Z;
  r_suppressed_since_summary : Z;
  r_last_error : string
}.

Definition reconnect_log_default : ReconnectFailureLogState :=
  {| r_started_at := None; r_last_log_at := None; r_attempts := 0; r_suppressed_since_summary := 0;
     r_last_error := "" |}.

Definition reconnect_stats (s : ReconnectFailureLogState) (now : Z) : ReconnectEpisodeStats :=
  {| rs_duration := since (r_started_at s) now; rs_attempts := r_attempts s;
     rs_suppressed := r_suppressed_since_summary s; rs_last_error := r_last_error s |}.

Definition set_r_last_log (s : ReconnectFailureLogState) (last : option Z) (suppressed : Z) : ReconnectFailureLogState :=
  {| r_started_at := r_started_at s; r_last_log_at := last; r_attempts := r_attempts s;
     r_suppressed_since_summary := suppressed; r_last_error := r_last_error s |}.

Definition record_reconnect_failure (s : ReconnectFailureLogState) (error : string) (now : Z)
    : ReconnectFailureLogState * LogAction ReconnectEpisodeStats :=
  let first_failure := negb (is_some (r_started_at s)) in
  let error_changed := negb first_failure && negb (String.eqb (r_last_error s) error) in
  let s :=
    {| r_started_at := if first_failure then Some now else r_started_at s;
       r_last_log_at := if first_failure then Some now else r_last_log_at s;
       r_attempts := u32_saturating_add (r_attempts s) 1;
       r_suppressed_since_summary := r_suppressed_since_summary s;
       r_last_error := error |} in
  if first_failure || error_changed then
    let s := set_r_last_log s (Some now) (r_suppressed_since_summary s) in (s, Immediate (reconnect_stats s now))
  else if interval_over (r_last_log_at s) now then
    (set_r_last_log s (Some now) 0, Summary (reconnect_stats s now))
  else
    (set_r_last_log s (r_last_log_at s) (u32_saturating_add (r_suppressed_since_summary s) 1), Suppressed).

Definition recover_reconnect (s : ReconnectFailureLogState) (now : Z)
    : ReconnectFailureLogState * option ReconnectEpisodeStats :=
  match r_started_at s with
  | None => (s, None)
  | Some _ => (reconnect_log_default, Some (reconnect_stats s now))
  end.

(** ** One failure episode *)

(** The log of a sequence of failures: the time and the action of each. *)
Definition log_step (acc : DeviceFailureLogState * list (Z * LogAction FailureEpisodeStats))
    (ev : DeviceFailureKind * Z) : DeviceFailureLogState * list (Z * LogAction FailureEpisodeStats) :=
  let '(s, a) := record_failure acc.1 ev.1 ev.2 in (s, acc.2 ++ [(ev.2, a)]).
Definition episode (evs : list (DeviceFailureKind * Z)) := foldl log_step (failure_log_default, []) evs.

Definition count_kind (k : DeviceFailureKind) (evs : list (DeviceFailureKind * Z)) : Z :=
  Z.of_nat (length (filter (fun ev => ev.1 = k) evs)).
Definition is_immediate (l : Z * LogAction FailureEpisodeStats) : bool :=
  match l.2 with Immediate _ => true | _ => false end.
Definition is_suppressed (l : Z * LogAction FailureEpisodeStats) : bool :=
  match l.2 with Suppressed => true | _ => false end.
Definition count_log (p : Z * LogAction FailureEpisodeStats -> bool) (log : list (Z * LogAction FailureEpisodeStats)) : Z :=
  Z.of_nat (length (filter (fun l => p l = true) log)).
(** Failures the summaries report as suppressed. *)
Definition summarised (log : list (Z * LogAction FailureEpisodeStats)) : Z :=
  foldr (fun l acc => match l.2 with Summary st => fs_suppressed st + acc | _ => acc end) 0 log.

Lemma count_kind_snoc k evs ev :
  count_kind k (evs ++ [ev]) = count_kind k evs + if decide (ev.1 = k) then 1 else 0.
Proof. unfold count_kind. rewrite filter_app, length_app, filter_cons. case_decide; simpl; lia. Qed.
Lemma count_log_snoc p log l : count_log p (log ++ [l]) = count_log p log + if p l then 1 else 0.
Proof.
  unfold count_log. rewrite filter_app, length_app, filter_cons.
  destruct (p l); case_decide; simpl; try done; lia.
Qed.
Lemma summarised_snoc log l :
  summarised (log ++ [l]) = summarised log + match l.2 with Summary st => fs_suppressed st | _ => 0 end.
Proof. unfold summarised. induction log as [|x log IH]; simpl; [by destruct l.2; simpl; lia|]. rewrite IH. destruct x.2; lia. Qed.
Lemma count_kind_bounds evs : 0 <= count_kind ReadTimeout evs /\ 0 <= count_kind BadFrame evs /\
  count_kind ReadTimeout evs + count_kind BadFrame evs = Z.of_nat (length evs).
Proof.
  induction evs as [|ev evs IH] using rev_ind; [done|]. rewrite !count_kind_snoc, length_app. simpl.
  destruct ev as [[] t]; simpl; repeat case_decide; try done; lia.
Qed.

Definition flag (b : bool) : Z := if b then 1 else 0.

(** The state of the log state after the failures [evs], whose times do not
    go back, and the lines [log]. *)
Record accounts (evs : list (DeviceFailureKind * Z)) (s : DeviceFailureLogState)
    (log : list (Z * LogAction FailureEpisodeStats)) : Prop := {
  acc_timeouts : timeouts s = count_kind ReadTimeout evs;
  acc_bad_frames : bad_frames s = count_kind BadFrame evs;
  acc_suppressed : count_log is_suppressed log = summarised log + suppressed_since_summary s;
  acc_pending : 0 <= suppressed_since_summary s <= Z.of_nat (length evs);
  acc_immediate : count_log is_immediate log = flag (timeout_logged s) + flag (bad_frame_logged s);
  acc_flags : timeout_logged s = bool_decide (0 < timeouts s) /\ bad_frame_logged s = bool_decide (0 < bad_frames s);
  acc_started : is_some (started_at s) = false -> evs = [];
  acc_length : length log = length evs;
  acc_last : forall l, l ∈ log -> is_suppressed l = false -> exists t, last_log_at s = Some t /\ l.1 <= t;
  acc_last_time : forall t, last_log_at s = Some t -> exists ev, ev ∈ evs /\ ev.2 = t;
  acc_spaced : forall pre t st post, log = pre ++ (t, Summary st) :: post ->
    forall l, l ∈ pre -> is_suppressed l = false -> l.1 + FAILURE_LOG_SUMMARY_INTERVAL <= t
}.

Lemma snoc_split {A} (l : list A) x pre y post :
  l ++ [x] = pre ++ y :: post ->
  (post = [] /\ pre = l /\ x = y) \/ exists post', post = post' ++ [x] /\ l = pre ++ y :: post'.
Proof.
  destruct post as [|z post _] using rev_ind; intros H.
  - apply app_inj_tail in H as [-> ->]. auto.
  - right. rewrite app_comm_cons, app_assoc in H. apply app_inj_tail in H as [-> ->]. eauto.
Qed.

Section Step.
Context (evs : list (DeviceFailureKind * Z)) (s : DeviceFailureLogState)
        (log : list (Z * LogAction FailureEpisodeStats)) (kind : DeviceFailureKind) (now : Z).
Context (Hacc : accounts evs s log) (Hlen : Z.of_nat (length evs) + 1 < 2 ^ 32)
        (Hnow : forall ev, ev ∈ evs -> ev.2 <= now).

Lemma last_before_now t : last_log_at s = Some t -> t <= now.
Proof. intros (ev & Hev & <-)%(acc_last_time _ _ _ Hacc). by apply Hnow. Qed.

Lemma spaced_snoc a :
  (forall st, a = Summary st -> forall l, l ∈ log -> is_suppressed l = false -> l.1 + FAILURE_LOG_SUMMARY_INTERVAL <= now) ->
  forall pre t st post, log ++ [(now, a)] = pre ++ (t, Summary st) :: post ->
  forall l, l ∈ pre -> is_suppressed l = false -> l.1 + FAILURE_LOG_SUMMARY_INTERVAL <= t.
Proof.
  intros Ha pre t st post [(-> & -> & [= -> ->])|(post' & -> & Hl)]%snoc_split l.
  - by apply (Ha st).
  - by eapply (acc_spaced _ _ _ Hacc).
Qed.

(** Every line so far is old enough where a summary is due. *)
Lemma interval_over_spaced l :
  interval_over (last_log_at s) now = true -> l ∈ log -> is_suppressed l = false ->
  l.1 + FAILURE_LOG_SUMMARY_INTERVAL <= now.
Proof.
  intros Ho Hl Hs. destruct (acc_last _ _ _ Hacc l Hl Hs) as (t & Ht & Hlt). rewrite Ht in Ho. simpl in Ho.
  apply Z.leb_le in Ho. unfold FAILURE_LOG_SUMMARY_INTERVAL, millis in *. lia.
Qed.

Lemma fresh_flags :
  is_some (started_at s) = false -> evs = [] /\ log = [] /\ timeout_logged s = false /\ bad_frame_logged s = false.
Proof.
  intros Hf. pose proof (acc_started _ _ _ Hacc Hf) as ->. pose proof (acc_length _ _ _ Hacc) as Hl.
  destruct log; [|done]. pose proof (acc_immediate _ _ _ Hacc) as Hi. unfold count_log in Hi. simpl in Hi.
  destruct (timeout_logged s), (bad_frame_logged s); simpl in Hi; try lia; done.
Qed.

Lemma last_line_snoc s' a :
  (last_log_at s' = Some now \/ last_log_at s' = last_log_at s /\ a = Suppressed) ->
  forall l, l ∈ log ++ [(now, a)] -> is_suppressed l = false -> exists t, last_log_at s' = Some t /\ l.1 <= t.
Proof.
  intros Hs' l [Hl| ->%list_elem_of_singleton]%elem_of_app Hs.
  - destruct (acc_last _ _ _ Hacc l Hl Hs) as (t & Ht & Hlt). pose proof (last_before_now t Ht).
    destruct Hs' as [->|[-> _]]; [|eauto]. exists now. split; [done|lia].
  - destruct Hs' as [->|[_ ->]]; [|done]. by exists now.
Qed.

Lemma last_time_snoc s' :
  (last_log_at s' = Some now \/ last_log_at s' = last_log_at s) ->
  forall t, last_log_at s' = Some t -> exists ev, ev ∈ evs ++ [(kind, now)] /\ ev.2 = t.
Proof.
  intros [->| ->] t.
  - intros [= <-]. exists (kind, now). split; [|done]. apply elem_of_app. right. by apply list_elem_of_singleton.
  - intros (ev & ? & ?)%(acc_last_time _ _ _ Hacc). exists ev. split; [|done]. apply elem_of_app. by left.
Qed.

Lemma saturating_small a : 0 <= a <= Z.of_nat (length evs) -> u32_saturating_add a 1 = a + 1.
Proof. unfold u32_saturating_add. lia. Qed.

(** What one recorded failure changes is enough to keep the account. *)
Lemma accounts_snoc s' a :
  timeouts s' = timeouts s + (if decide (kind = ReadTimeout) then 1 else 0) ->
  bad_frames s' = bad_frames s + (if decide (kind = BadFrame) then 1 else 0) ->
  flag (timeout_logged s') + flag (bad_frame_logged s') =
    flag (timeout_logged s) + flag (bad_frame_logged s) + flag (is_immediate (now, a)) ->
  timeout_logged s' = (if decide (kind = ReadTimeout) then true else timeout_logged s) ->
  bad_frame_logged s' = (if decide (kind = BadFrame) then true else bad_frame_logged s) ->
  is_some (started_at s') = true ->
  (last_log_at s' = Some now \/ last_log_at s' = last_log_at s /\ a = Suppressed) ->
  match a with
  | Immediate _ => suppressed_since_summary s' = suppressed_since_summary s
  | Summary st => suppressed_since_summary s' = 0 /\ fs_suppressed st = suppressed_since_summary s /\
                  interval_over (last_log_at s) now = true
  | Suppressed => suppressed_since_summary s' = suppressed_since_summary s + 1
  end ->
  accounts (evs ++ [(kind, now)]) s' (log ++ [(now, a)]).
Proof.
  intros Ht Hb Hf Hft Hfb Hst Hl Ha. pose proof Hacc as [Hct Hcb ? ? ? [Hf1 Hf2] ? ? ? ? ?].
  pose proof (count_kind_bounds evs) as (? & ? & _).
  constructor; rewrite ?count_kind_snoc, ?count_log_snoc, ?summarised_snoc, ?length_app; simpl.
  - congruence.
  - congruence.
  - destruct a; simpl in *; lia.
  - destruct a; lia.
  - unfold flag in Hf at 5. simpl in *. destruct (is_immediate (now, a)); lia.
  - rewrite Hft, Hfb, Ht, Hb. split; [destruct (decide (kind = ReadTimeout))|destruct (decide (kind = BadFrame))];
      first [symmetry; apply bool_decide_eq_true; lia|rewrite ?Hf1, ?Hf2; apply bool_decide_ext; lia].
  - congruence.
  - lia.
  - by apply last_line_snoc.
  - apply last_time_snoc. destruct Hl as [?|[? _]]; auto.
  - apply spaced_snoc. intros st -> l Hl1 Hl2. apply interval_over_spaced; [|done|done]. apply Ha.
Qed.

Lemma accounts_step :
  accounts (evs ++ [(kind, now)]) (record_failure s kind now).1 (log ++ [(now, (record_failure s kind now).2)]).
Proof.
  pose proof (count_kind_bounds evs) as (Ht0 & Hb0 & Hsum).
  assert (Ht : u32_saturating_add (timeouts s) 1 = timeouts s + 1).
  { rewrite (acc_timeouts _ _ _ Hacc). apply saturating_small. lia. }
  assert (Hb : u32_saturating_add (bad_frames s) 1 = bad_frames s + 1).
  { rewrite (acc_bad_frames _ _ _ Hacc). apply saturating_small. lia. }
  pose proof (saturating_small _ (acc_pending _ _ _ Hacc)) as Hs. pose proof fresh_flags as Hfresh.
  apply accounts_snoc; unfold record_failure; destruct (started_at s) as [st|] eqn:Hst; simpl.
  all: try destruct (Hfresh ltac:(done)) as (_ & _ & -> & ->).
  all: destruct kind; try destruct (timeout_logged s) eqn:H1; try destruct (bad_frame_logged s) eqn:H2; simpl.
  all: try destruct (interval_over (last_log_at s) now) eqn:Ho; simpl; rewrite ?H1, ?H2; simpl; auto with lia.
Qed.
End Step.

Lemma sorted_snoc (evs : list (DeviceFailureKind * Z)) kind now :
  StronglySorted (fun a b => a.2 <= b.2) (evs ++ [(kind, now)]) ->
  StronglySorted (fun a b => a.2 <= b.2) evs /\ forall ev, ev ∈ evs -> ev.2 <= now.
Proof.
  induction evs as [|e evs IH]; intros H; [split; [constructor|by intros ? ?%not_elem_of_nil]|].
  inversion H as [|? ? Hs Hf]; subst. destruct (IH Hs) as [IH1 IH2]. rewrite Forall_app, Forall_singleton in Hf.
  split; [constructor; tauto|]. intros ev [->|?]%elem_of_cons; [apply Hf|auto].
Qed.

(** The failure log of a device loses nothing and stays quiet.  Over any
    episode (fewer than 2^32 failures, times not going back) its counters are
    the failures of each kind; each kind is reported at once the first time
    and only then; every suppressed failure is in exactly one summary or still
    pending; and a summary comes at least 60 seconds after every earlier
    line. *)
Theorem failure_log_accounts evs :
  Z.of_nat (length evs) < 2 ^ 32 -> StronglySorted (fun a b => a.2 <= b.2) evs ->
  let (s, log) := episode evs in
  timeouts s = count_kind ReadTimeout evs /\ bad_frames s = count_kind BadFrame evs /\
  count_log is_immediate log = flag (bool_decide (0 < timeouts s)) + flag (bool_decide (0 < bad_frames s)) /\
  count_log is_suppressed log = summarised log + suppressed_since_summary s /\
  forall pre t st post, log = pre ++ (t, Summary st) :: post ->
    forall l, l ∈ pre -> is_suppressed l = false -> l.1 + FAILURE_LOG_SUMMARY_INTERVAL <= t.
Proof.
  intros Hlen Hsort. assert (H : accounts evs (episode evs).1 (episode evs).2).
  { revert Hlen Hsort. induction evs as [|[kind now] evs IH] using rev_ind; intros Hlen Hsort.
    - constructor; try done; [by intros l ?%not_elem_of_nil|intros pre t st post H; by destruct pre].
    - apply sorted_snoc in Hsort as [Hsort Hnow]. rewrite length_app in Hlen. simpl in Hlen.
      specialize (IH ltac:(lia) Hsort). unfold episode in *. rewrite foldl_app. simpl.
      destruct (foldl log_step (failure_log_default, []) evs) as [s log]. unfold log_step. simpl in *.
      pose proof (accounts_step evs s log kind now IH ltac:(lia) Hnow) as Hstep.
      by destruct (record_failure s kind now). }
  destruct (episode evs) as [s log]. simpl in H. destruct H as [H1 H2 H3 _ H4 [H5 H6] _ _ _ _ H7].
  rewrite <- H5, <- H6. auto.
Qed.

(** Five failures over two minutes: two first reports, one summary. *)
Definition toy_failures : list (DeviceFailureKind * Z) :=
  [(ReadTimeout, 0); (ReadTimeout, millis 1000); (BadFrame, millis 2000); (ReadTimeout, millis 3000);
   (ReadTimeout, millis 70000)].

Lemma failure_log_accounts_witness :
  count_log is_immediate (episode toy_failures).2 = 2 /\
  count_log is_suppressed (episode toy_failures).2 =
    summarised (episode toy_failures).2 + suppressed_since_summary (episode toy_failures).1 /\
  summarised (episode toy_failures).2 = 2.
Proof.
  pose proof (failure_log_accounts toy_failures ltac:(simpl; lia)
                ltac:(repeat constructor; unfold millis; simpl; lia)) as H.
  assert (H2 : summarised (episode toy_failures).2 = 2) by (vm_compute; reflexivity).
  assert (H1 : count_log is_immediate (episode toy_failures).2 = 2) by (vm_compute; reflexivity).
  destruct (episode toy_failures) as [s log]. destruct H as (_ & _ & _ & Hs & _). auto.
Defined.
