(* ===== verification/Frames.v ===== *)
(** * Response framing on a serial port (src/src/serial/manager.rs)

    How many bytes of the receive buffer make a frame: the declared length,
    the configured length and the forwarded-frame prefix a standby gateway
    sees. *)

From S2P Require Import Prelude RustFloat RustStr Model Parser Csv Protocol Transport.
Open Scope Z_scope.
Open Scope list_scope.

Inductive RunLocation := Primary | Secondary.

#[export] Instance run_location_eq_dec : EqDecision RunLocation.
Proof. solve_decision. Defined.

(** csv_parser.rs: one device of a port. *)
Record DeviceConfig := { dc_config : Config; dc_records : list Record_ }.

Definition COMMAND_ACK_BYTES : list Z := [0x00; 0x50; 0x50].
Definition FORWARD_HEADER_LEN : nat := 7.
Definition FORWARD_SEPARATOR_LEN : nat := 2.
Definition FORWARD_PREFIX_LEN : nat := FORWARD_HEADER_LEN + FORWARD_SEPARATOR_LEN.
Definition RESPONSE_FRAME_OVERHEAD : nat := 5.
Definition RESPONSE_FRAME_OVERHEAD_WITH_STATUS_LEN : nat := 4.
Definition RESPONSE_COMPLETION_GUARD : Z := millis 5.

(** [data.windows(3).any(|w| w == COMMAND_ACK_BYTES)]. *)
Fixpoint contains_command_ack (data : list Z) : bool :=
  match data with
  | [] => false
  | _ :: rest => bool_decide (take 3 data = COMMAND_ACK_BYTES) || contains_command_ack rest
  end.

Definition byte_at (buf : list Z) (i : nat) : nat := Z.to_nat (default 0 (buf !! i)).

Definition configured_len (d : DeviceConfig) : nat := Z.to_nat (data_len (dc_config d)).

(** The budget for the rest of a frame once its first byte is there. *)
Definition response_completion_budget (devices : list DeviceConfig) (device_index : nat) (baud_rate : Z) : Z :=
  let maximum_frame_len :=
    match devices !! device_index with
    | Some device => (configured_len device + RESPONSE_FRAME_OVERHEAD + FORWARD_PREFIX_LEN)%nat
    | None => (RESPONSE_FRAME_OVERHEAD + FORWARD_PREFIX_LEN)%nat
    end in
  duration_saturating_add (wire_duration (Z.of_nat maximum_frame_len) baud_rate) RESPONSE_COMPLETION_GUARD.

Definition validated_forward_data_start (buf : list Z) : option nat :=
  if (length buf <? FORWARD_PREFIX_LEN)%nat
     || negb (bool_decide (slice FORWARD_HEADER_LEN FORWARD_PREFIX_LEN buf = [0; 0]))
     || negb (verify_checksum (take FORWARD_HEADER_LEN buf))
  then None
  else Some FORWARD_PREFIX_LEN.

Definition accepts_forwarded (current_run run_on : RunLocation) : bool :=
  bool_decide (current_run = Secondary) || bool_decide (run_on = Secondary).

Definition configured_protocol_frame_len (buf : list Z) (data_start configured_data_len : nat) : nat :=
  let overhead :=
    match buf !! (data_start + 2)%nat with
    | Some declared_len =>
        if (Z.to_nat declared_len + 1 =? configured_data_len)%nat
        then RESPONSE_FRAME_OVERHEAD_WITH_STATUS_LEN else RESPONSE_FRAME_OVERHEAD
    | None => RESPONSE_FRAME_OVERHEAD
    end in
  (configured_data_len + overhead)%nat.

Definition expected_frame_len (buf : list Z) (current_run run_on : RunLocation) : nat :=
  let total := length buf in
  let direct := (byte_at buf 2 + 5)%nat in
  if accepts_forwarded current_run run_on then
    match validated_forward_data_start buf with
    | Some data_start =>
        if (data_start + 3 <=? total)%nat then (data_start + byte_at buf (data_start + 2) + 5)%nat
        else (total + 1)%nat
    | None => if (total <? FORWARD_PREFIX_LEN)%nat then FORWARD_PREFIX_LEN else direct
    end
  else direct.

Definition complete_frame_len (buf : list Z) (current_run run_on : RunLocation) (configured_minimum : option nat)
    : option nat :=
  if (length buf <? 3)%nat then None
  else
    let expected :=
      match configured_minimum with
      | Some minimum => Nat.max (expected_frame_len buf current_run run_on) minimum
      | None => expected_frame_len buf current_run run_on
      end in
    if (expected <=? length buf)%nat then Some expected else None.

Definition configured_response_frame_len (buf : list Z) (devices : list DeviceConfig) (current_index : nat)
    (current_run run_on : RunLocation) : option nat :=
  let polled :=
    if bool_decide (current_run = Primary) then
      (fun device => configured_protocol_frame_len buf 0 (configured_len device)) <$> devices !! current_index
    else None in
  if accepts_forwarded current_run run_on then
    match validated_forward_data_start buf with
    | None => polled
    | Some data_start =>
        id ← head buf;
        device ← snd <$> list_find (fun device => device_id (dc_config device) = id) devices;
        Some (data_start + configured_protocol_frame_len buf data_start (configured_len device))%nat
    end
  else polled.

Definition is_complete_short_direct_candidate (buf : list Z) (current_run run_on : RunLocation) : bool :=
  if negb (bool_decide (current_run = Primary)) || negb (bool_decide (run_on = Secondary)) || (length buf <? 3)%nat
  then false
  else
    let expected := (byte_at buf 2 + 5)%nat in
    (expected <? FORWARD_PREFIX_LEN)%nat && (length buf =? expected)%nat && verify_checksum (take expected buf).

(** ** The length of a whole response *)

(** Both meanings of the configured length are in use: the declared length,
    or the number of status bytes. *)
Definition length_agrees (d : DeviceConfig) (status : list Z) : Prop :=
  configured_len d = length status \/ S (configured_len d) = length status.

Section Direct.
Context (devices : list DeviceConfig) (d : DeviceConfig) (index : nat) (Hd : devices !! index = Some d).
Context (addr cmd : Z) (status : list Z) (Hs : status <> []) (Hlen : length_agrees d status).

Lemma encode_packet_length : length (encode_packet addr cmd status) = (length status + 4)%nat.
Proof. unfold encode_packet, packet_body. rewrite length_app. simpl. lia. Qed.

(** The length the buffer asks for while a direct response arrives. *)
Definition primary_frame_len (buf : list Z) : option nat :=
  complete_frame_len buf Primary Primary (configured_response_frame_len buf devices index Primary Primary).

Lemma declared_length buf :
  (3 <= length buf)%nat -> buf `prefix_of` encode_packet addr cmd status \/ encode_packet addr cmd status `prefix_of` buf ->
  buf !! 2%nat = Some (Z.of_nat (length status) - 1).
Proof.
  intros H3 [[k Hk]|[k ->]].
  - assert (H : encode_packet addr cmd status !! 2%nat = Some (Z.of_nat (length status) - 1)) by done.
    rewrite Hk, lookup_app_l in H by lia. exact H.
  - done.
Qed.

(** A direct response is recognised exactly when it is complete, and at its
    own length, whatever follows it. *)
Lemma primary_frame_len_spec buf :
  buf `prefix_of` encode_packet addr cmd status \/ encode_packet addr cmd status `prefix_of` buf ->
  primary_frame_len buf =
    if (length status + 4 <=? length buf)%nat then Some (length status + 4)%nat else None.
Proof.
  intros Hp. unfold primary_frame_len, complete_frame_len, configured_response_frame_len, accepts_forwarded.
  simpl. rewrite Hd. simpl. assert (Hpos : (0 < length status)%nat) by (destruct status; [done|simpl; lia]).
  destruct (Nat.ltb_spec (length buf) 3).
  { destruct (Nat.leb_spec (length status + 4) (length buf)); [lia|done]. }
  pose proof (declared_length buf ltac:(lia) Hp) as H2.
  unfold expected_frame_len, accepts_forwarded, configured_protocol_frame_len, byte_at. simpl. rewrite H2. simpl.
  replace (Z.to_nat (Z.of_nat (length status) - 1)) with (length status - 1)%nat by lia.
  unfold RESPONSE_FRAME_OVERHEAD, RESPONSE_FRAME_OVERHEAD_WITH_STATUS_LEN.
  assert (Hm : Nat.max (length status - 1 + 5)
    (configured_len d + (if (length status - 1 + 1 =? configured_len d)%nat then 4 else 5))%nat = (length status + 4)%nat).
  { destruct (Nat.eqb_spec (length status - 1 + 1) (configured_len d)); destruct Hlen; lia. }
  rewrite Hm. done.
Qed.
End Direct.
