(* ===== verification/Acquisition.v ===== *)
(** * Acquisition on one serial port (src/src/serial/manager.rs, runtime_cache.rs)

    The state of a [SerialManager] and its operations: publication of device
    states, reconnection, sending, reception with the single query retry, the
    primary/standby role and the acknowledgement read.  The driver is the
    environment of [Transport]; broadcasting appends to a list; log lines and
    the operations console are not modelled.  [None] from a function that
    takes [fuel] is an output queue that never drains (see [drain_total]). *)

From S2P Require Import Prelude RustFloat RustStr Model Parser Csv Protocol Transport FailureLog Frames.
Open Scope string_scope.
Open Scope Z_scope.
Open Scope list_scope.

(** ** Devices *)

Record DeviceRuntimeState := {
  timeout_count : Z;
  current_round : Z;
  parse_fail_count : Z;
  last_data : list Z;
  last_com_status : option bool;
  last_device_status : option bool;
  same_count : Z;
  is_enabled : bool;
  read_enabled : bool;
  last_data_at : option Z;
  failure_log : DeviceFailureLogState;
  query_retry_log : QueryRetryLogState
}.

Definition device_runtime_new : DeviceRuntimeState :=
  {| timeout_count := 0; current_round := 0; parse_fail_count := 0; last_data := [];
     last_com_status := None; last_device_status := None; same_count := 0; is_enabled := true;
     read_enabled := true; last_data_at := None; failure_log := failure_log_default;
     query_retry_log := query_retry_log_default |}.

Definition set_broadcast (s : DeviceRuntimeState) (data : list Z) (com dev : option bool) (same : Z) : DeviceRuntimeState :=
  {| timeout_count := timeout_count s; current_round := current_round s; parse_fail_count := parse_fail_count s;
     last_data := data; last_com_status := com; last_device_status := dev; same_count := same;
     is_enabled := is_enabled s; read_enabled := read_enabled s; last_data_at := last_data_at s;
     failure_log := failure_log s; query_retry_log := query_retry_log s |}.

Definition set_counters (s : DeviceRuntimeState) (timeouts rounds parse_fails : Z) : DeviceRuntimeState :=
  {| timeout_count := timeouts; current_round := rounds; parse_fail_count := parse_fails;
     last_data := last_data s; last_com_status := last_com_status s; last_device_status := last_device_status s;
     same_count := same_count s; is_enabled := is_enabled s; read_enabled := read_enabled s;
     last_data_at := last_data_at s; failure_log := failure_log s; query_retry_log := query_retry_log s |}.

Definition set_logs (s : DeviceRuntimeState) (at_ : option Z) (f : DeviceFailureLogState) (q : QueryRetryLogState)
    : DeviceRuntimeState :=
  {| timeout_count := timeout_count s; current_round := current_round s; parse_fail_count := parse_fail_count s;
     last_data := last_data s; last_com_status := last_com_status s; last_device_status := last_device_status s;
     same_count := same_count s; is_enabled := is_enabled s; read_enabled := read_enabled s;
     last_data_at := at_; failure_log := f; query_retry_log := q |}.

Definition set_enabled (s : DeviceRuntimeState) (enabled reading : bool) : DeviceRuntimeState :=
  {| timeout_count := timeout_count s; current_round := current_round s; parse_fail_count := parse_fail_count s;
     last_data := last_data s; last_com_status := last_com_status s; last_device_status := last_device_status s;
     same_count := same_count s; is_enabled := enabled; read_enabled := reading; last_data_at := last_data_at s;
     failure_log := failure_log s; query_retry_log := query_retry_log s |}.

Definition should_broadcast (s : DeviceRuntimeState) (data : list Z) (com_status device_status : bool)
    : DeviceRuntimeState * bool :=
  let status_changed :=
    negb (bool_decide (last_com_status s = Some com_status))
    || negb (bool_decide (last_device_status s = Some device_status)) in
  if bool_decide (data = last_data s) && negb status_changed then
    let same := same_count s + 1 in
    if SAME_DATA_BROADCAST <=? same
    then (set_broadcast s (last_data s) (last_com_status s) (last_device_status s) 0, true)
    else (set_broadcast s (last_data s) (last_com_status s) (last_device_status s) same, false)
  else (set_broadcast s data (Some com_status) (Some device_status) 0, true).

(** ** The manager *)

(** What the configuration fixes. *)
Record Setup := {
  su_port_number : string;
  su_special : bool;
  su_line : LineConfig;
  su_devices : list DeviceConfig;
  su_run_on : RunLocation;
  su_read_buf : nat
}.

Record Manager := {
  m_port : bool;
  m_status : bool;
  m_states : list DeviceRuntimeState;
  m_index : nat;
  m_run : RunLocation;
  m_time_out_count : Z;
  m_parse_fail_count : Z;
  m_rx_pending : list Z;
  m_last_reconnect : Z;
  m_offline_published : bool;
  m_reconnect_log : ReconnectFailureLogState;
  m_unattributed_log : DeviceFailureLogState;
  m_cache : gmap (string * Z) DeviceStatus;
  m_broadcasts : list DeviceStatus;
  m_wire : list (option Parity * Z);
  m_calls : nat
}.

Definition set_states (m : Manager) (states : list DeviceRuntimeState) : Manager :=
  {| m_port := m_port m; m_status := m_status m; m_states := states; m_index := m_index m; m_run := m_run m;
     m_time_out_count := m_time_out_count m; m_parse_fail_count := m_parse_fail_count m;
     m_rx_pending := m_rx_pending m; m_last_reconnect := m_last_reconnect m;
     m_offline_published := m_offline_published m; m_reconnect_log := m_reconnect_log m;
     m_unattributed_log := m_unattributed_log m; m_cache := m_cache m; m_broadcasts := m_broadcasts m;
     m_wire := m_wire m; m_calls := m_calls m |}.

Definition set_published (m : Manager) (cache : gmap (string * Z) DeviceStatus) (bs : list DeviceStatus) : Manager :=
  {| m_port := m_port m; m_status := m_status m; m_states := m_states m; m_index := m_index m; m_run := m_run m;
     m_time_out_count := m_time_out_count m; m_parse_fail_count := m_parse_fail_count m;
     m_rx_pending := m_rx_pending m; m_last_reconnect := m_last_reconnect m;
     m_offline_published := m_offline_published m; m_reconnect_log := m_reconnect_log m;
     m_unattributed_log := m_unattributed_log m; m_cache := cache; m_broadcasts := bs;
     m_wire := m_wire m; m_calls := m_calls m |}.

(** The connection: open or not, enabled or not, the receive buffer and
    whether the outage was published. *)
Definition set_link (m : Manager) (port status : bool) (rx : list Z) (published : bool) : Manager :=
  {| m_port := port; m_status := status; m_states := m_states m; m_index := m_index m; m_run := m_run m;
     m_time_out_count := m_time_out_count m; m_parse_fail_count := m_parse_fail_count m;
     m_rx_pending := rx; m_last_reconnect := m_last_reconnect m;
     m_offline_published := published; m_reconnect_log := m_reconnect_log m;
     m_unattributed_log := m_unattributed_log m; m_cache := m_cache m; m_broadcasts := m_broadcasts m;
     m_wire := m_wire m; m_calls := m_calls m |}.

Definition set_role (m : Manager) (index : nat) (run : RunLocation) (timeouts parse_fails : Z) : Manager :=
  {| m_port := m_port m; m_status := m_status m; m_states := m_states m; m_index := index; m_run := run;
     m_time_out_count := timeouts; m_parse_fail_count := parse_fails;
     m_rx_pending := m_rx_pending m; m_last_reconnect := m_last_reconnect m;
     m_offline_published := m_offline_published m; m_reconnect_log := m_reconnect_log m;
     m_unattributed_log := m_unattributed_log m; m_cache := m_cache m; m_broadcasts := m_broadcasts m;
     m_wire := m_wire m; m_calls := m_calls m |}.

Definition set_reconnect (m : Manager) (last : Z) (log : ReconnectFailureLogState)
    (unattributed : DeviceFailureLogState) : Manager :=
  {| m_port := m_port m; m_status := m_status m; m_states := m_states m; m_index := m_index m; m_run := m_run m;
     m_time_out_count := m_time_out_count m; m_parse_fail_count := m_parse_fail_count m;
     m_rx_pending := m_rx_pending m; m_last_reconnect := last;
     m_offline_published := m_offline_published m; m_reconnect_log := log;
     m_unattributed_log := unattributed; m_cache := m_cache m; m_broadcasts := m_broadcasts m;
     m_wire := m_wire m; m_calls := m_calls m |}.

(** [n] more driver calls, which put [wire] on the line. *)
Definition used (m : Manager) (calls : nat) (wire : list (option Parity * Z)) : Manager :=
  {| m_port := m_port m; m_status := m_status m; m_states := m_states m; m_index := m_index m; m_run := m_run m;
     m_time_out_count := m_time_out_count m; m_parse_fail_count := m_parse_fail_count m;
     m_rx_pending := m_rx_pending m; m_last_reconnect := m_last_reconnect m;
     m_offline_published := m_offline_published m; m_reconnect_log := m_reconnect_log m;
     m_unattributed_log := m_unattributed_log m; m_cache := m_cache m; m_broadcasts := m_broadcasts m;
     m_wire := m_wire m ++ wire; m_calls := calls |}.

Definition rx_clear (m : Manager) : Manager := set_link m (m_port m) (m_status m) [] (m_offline_published m).
Definition set_rx (m : Manager) (rx : list Z) : Manager := set_link m (m_port m) (m_status m) rx (m_offline_published m).
Definition close_port (m : Manager) : Manager := set_link m false (m_status m) (m_rx_pending m) (m_offline_published m).

Definition alter_state (f : DeviceRuntimeState -> DeviceRuntimeState) (index : nat) (m : Manager) : Manager :=
  set_states m (alter f index (m_states m)).

Definition RECONNECT_COOLDOWN : Z := millis 2000.

Section Manager.
Context (su : Setup) (drv : Driver).

(** [LatestStatusCache::update] and [Broadcaster::broadcast]. *)
Definition cache_update (m : Manager) (s : DeviceStatus) : Manager :=
  set_published m (<[(ds_com s, ds_device_id s) := s]> (m_cache m)) (m_broadcasts m).
Definition broadcast (m : Manager) (s : DeviceStatus) : Manager :=
  set_published m (m_cache m) (m_broadcasts m ++ [s]).

(** Cache, then broadcast when the device's rule says so. *)
Definition publish (m : Manager) (index : nat) (key_data : list Z) (s : DeviceStatus) : Manager :=
  let m := cache_update m s in
  match m_states m !! index with
  | None => m
  | Some st =>
      let '(st, yes) := should_broadcast st key_data (ds_com_status s) (ds_device_status s) in
      let m := set_states m (<[index := st]> (m_states m)) in
      if yes then broadcast m s else m
  end.

Definition zero_status (dev : DeviceConfig) (com_status device_status : bool) : DeviceStatus :=
  let zero_data := replicate (configured_len dev) 0 in
  {| ds_id := com_index (dc_config dev); ds_device_id := device_id (dc_config dev); ds_com := su_port_number su;
     ds_com_status := com_status; ds_device_status := device_status;
     ds_value := parse_status zero_data (dc_records dev); ds_raw_data := zero_data |}.

Definition send_zero_status_for_index (m : Manager) (index : nat) (com_status device_status : bool) : Manager :=
  match su_devices su !! index with
  | None => m
  | Some dev => publish m index (replicate (configured_len dev) 0) (zero_status dev com_status device_status)
  end.

Definition send_zero_status (m : Manager) (com_status device_status : bool) : Manager :=
  send_zero_status_for_index m (m_index m) com_status device_status.

Definition publish_all_offline (m : Manager) : Manager :=
  foldl (fun m index => send_zero_status_for_index m index false false) m (seq 0 (length (su_devices su))).

Definition publish_port_offline_once (m : Manager) : Manager :=
  if m_offline_published m then m
  else publish_all_offline (set_link m (m_port m) (m_status m) (m_rx_pending m) true).

Definition publish_port_disabled (m : Manager) : Manager := publish_all_offline m.

(** The clock is read for the cooldown and the failure log; opening is one
    driver call. *)
Definition reconnect (m : Manager) : Manager :=
  if negb (m_status m) then rx_clear (close_port m)
  else
    let m := publish_port_offline_once m in
    let now := drv_clock drv (m_calls m) in
    if now - m_last_reconnect m <? RECONNECT_COOLDOWN then used m (S (m_calls m)) []
    else
      let m := set_reconnect m now (m_reconnect_log m) (m_unattributed_log m) in
      match drv_open drv (m_calls m) with
      | Ok _ =>
          let m := set_reconnect m now (recover_reconnect (m_reconnect_log m) now).1 (m_unattributed_log m) in
          used (set_link m true (m_status m) (m_rx_pending m) false) (S (m_calls m)) []
      | Err e =>
          let m := set_reconnect m now (record_reconnect_failure (m_reconnect_log m) e now).1 (m_unattributed_log m) in
          used (close_port m) (S (m_calls m)) []
      end.

Definition set_port_enabled (m : Manager) (enabled : bool) : Manager * result string unit :=
  let m := set_link m (m_port m) enabled (m_rx_pending m) (m_offline_published m) in
  if negb enabled then (publish_port_disabled (rx_clear (close_port m)), Ok tt)
  else
    let m :=
      if m_port m then m
      else
        reconnect (set_reconnect m (drv_clock drv (m_calls m) - RECONNECT_COOLDOWN) (m_reconnect_log m)
                     (m_unattributed_log m)) in
    (m, if m_port m then Ok tt else Err "opening the serial device failed").

Definition position (id : Z) : option nat :=
  fst <$> list_find (fun device => device_id (dc_config device) = id) (su_devices su).

Definition set_device_read_enabled (m : Manager) (id : Z) (enabled : bool) : Manager * result string unit :=
  match position id with
  | None => (m, Err "unknown device")
  | Some index =>
      let m := alter_state (fun s => set_enabled s (is_enabled s) enabled) index m in
      let m := send_zero_status_for_index m index (m_port m) false in
      (if enabled then alter_state (fun s => set_counters s 0 0 (parse_fail_count s)) index m else m, Ok tt)
  end.

Definition publish_device_disabled (m : Manager) (index : nat) : Manager :=
  match su_devices su !! index with
  | None => m
  | Some _ => send_zero_status_for_index m index (m_port m) false
  end.

(** The serial side of [CommandType::DeviceSetting] for one matching index. *)
Definition set_device_enabled (m : Manager) (index : nat) (enabled : bool) : Manager :=
  let previous := match m_states m !! index with Some s => is_enabled s | None => enabled end in
  let m := alter_state (fun s => set_enabled s enabled (read_enabled s)) index m in
  if negb (Bool.eqb previous enabled) && negb enabled then publish_device_disabled m index else m.

Definition prepare_worker_restart (m : Manager) : Manager :=
  publish_port_offline_once (rx_clear (close_port m)).

(** [SerialManager::new]: a disabled port is not even opened. *)
Definition new_manager (enabled : bool) (current_run : RunLocation) : Manager :=
  let opened := if enabled then Some (drv_open drv 0) else None in
  let m := {| m_port := match opened with Some (Ok _) => true | _ => false end;
              m_status := enabled; m_states := (fun _ => device_runtime_new) <$> su_devices su; m_index := 0;
              m_run := current_run; m_time_out_count := 0; m_parse_fail_count := 0; m_rx_pending := [];
              m_last_reconnect := drv_clock drv 0; m_offline_published := false;
              m_reconnect_log :=
                match opened with
                | Some (Err e) => (record_reconnect_failure reconnect_log_default e (drv_clock drv 0)).1
                | _ => reconnect_log_default
                end;
              m_unattributed_log := failure_log_default; m_cache := ∅; m_broadcasts := []; m_wire := [];
              m_calls := 1 |} in
  match opened with
  | Some (Err _) => publish_port_offline_once m
  | Some (Ok _) => m
  | None => publish_port_disabled m
  end.

Definition prepare_automatic_query (m : Manager) : Manager := rx_clear m.

(** ** Sending *)

Definition handle_send_transport_error (m : Manager) (e : ErrorKind) : Manager :=
  match e with
  | NotConnected => reconnect m
  | _ => reconnect (rx_clear (close_port m))
  end.

Definition send_command (fuel : nat) (m : Manager) (command : list Z) : option (Manager * bool) :=
  '(calls, wire, t) ← transmit_frame drv fuel (m_calls m) (m_port m) (su_special su) (su_line su) command;
  let m := used m calls wire in
  Some match t with
       | Transmitted => (m, true)
       | Refused => (m, false)
       | SendFailed e => (handle_send_transport_error m e, false)
       end.

(** ** Roles and failures *)

Definition switch_role (m : Manager) (new_role : RunLocation) : Manager :=
  let m := set_role m (m_index m) new_role 0 0 in
  set_states m ((fun s => set_counters s 0 (current_round s) 0) <$> m_states m).

Inductive QueryFailure :=
| QueryTimeout
| QueryBadFrame (reason : PacketError) (frame : list Z).

Definition handle_device_failure (m : Manager) (kind : DeviceFailureKind) (now : Z) (com_status : bool) : Manager :=
  let m := alter_state (fun s => set_counters s (timeout_count s + 1) (current_round s) (parse_fail_count s)) (m_index m) m in
  let m := set_role m (m_index m) (m_run m) (m_time_out_count m + 1) (m_parse_fail_count m) in
  let m := alter_state (fun s => set_logs s (last_data_at s) (record_failure (failure_log s) kind now).1 (query_retry_log s))
             (m_index m) m in
  let m := send_zero_status m com_status false in
  if (PORT_FAILOVER_TIMEOUT <? m_time_out_count m) && bool_decide (m_run m = Secondary)
     && bool_decide (su_run_on su = Secondary)
  then switch_role m Primary else m.

Definition handle_invalid_frame_with_context (m : Manager) (now : Z) (com_status : bool) : Manager :=
  let m := alter_state (fun s => set_counters s (timeout_count s) (current_round s) (parse_fail_count s + 1)) (m_index m) m in
  let m := set_role m (m_index m) (m_run m) (m_time_out_count m) (m_parse_fail_count m + 1) in
  let m := handle_device_failure m BadFrame now com_status in
  if (PARSE_FAIL_FAILOVER <? m_parse_fail_count m) && bool_decide (m_run m = Primary)
     && bool_decide (su_run_on su = Secondary)
  then switch_role m Secondary else m.

Definition commit_query_failure_with_com_status (m : Manager) (f : QueryFailure) (com_status : bool) : Manager :=
  let now := drv_clock drv (m_calls m) in
  match f with
  | QueryTimeout => handle_device_failure m ReadTimeout now com_status
  | QueryBadFrame _ _ => handle_invalid_frame_with_context m now com_status
  end.

Definition commit_query_failure (m : Manager) (f : QueryFailure) : Manager :=
  commit_query_failure_with_com_status m f true.

Definition handle_unattributed_frame (m : Manager) : Manager :=
  let m := set_role m (m_index m) (m_run m) (m_time_out_count m + 1) (m_parse_fail_count m + 1) in
  let m := set_reconnect m (m_last_reconnect m) (m_reconnect_log m)
             (record_failure (m_unattributed_log m) BadFrame (drv_clock drv (m_calls m))).1 in
  if (PORT_FAILOVER_TIMEOUT <? m_time_out_count m) && bool_decide (m_run m = Secondary)
     && bool_decide (su_run_on su = Secondary)
  then switch_role m Primary else m.

(** ** Reception *)

Definition extract_frame (m : Manager) (raw_frame : list Z) : Manager * list Z * bool :=
  let forwarded :=
    if accepts_forwarded (m_run m) (su_run_on su) then
      data_start ← validated_forward_data_start raw_frame;
      device_index ← position (default 0 (head raw_frame));
      Some (data_start, device_index)
    else None in
  let m :=
    if bool_decide (m_run m = Primary) && bool_decide (su_run_on su = Secondary) && is_some forwarded
    then switch_role m Secondary else m in
  match m_run m with
  | Secondary =>
      match forwarded with
      | Some (data_start, device_index) =>
          let m := set_role m device_index (m_run m) (m_time_out_count m) (m_parse_fail_count m) in
          let data := drop data_start raw_frame in
          let effective_len :=
            if (4 <=? length data)%nat then Nat.min (byte_at data 2 + 5) (length data) else length data in
          (m, take effective_len data, true)
      | None => (m, raw_frame, false)
      end
  | Primary => (m, raw_frame, true)
  end.

Definition good_status (dev : DeviceConfig) (packet : DataPacket) (frame : list Z) : DeviceStatus :=
  {| ds_id := com_index (dc_config dev); ds_device_id := device_id (dc_config dev); ds_com := su_port_number su;
     ds_com_status := true; ds_device_status := true;
     ds_value := parse_status (dp_status packet) (dc_records dev); ds_raw_data := frame |}.

(** Indexing the device lists panics out of range; the invariant [acq_ok]
    shows that it is in range. *)
Definition handle_valid_packet (m : Manager) (packet : DataPacket) (frame : list Z) : Manager :=
  match m_states m !! m_index m, su_devices su !! m_index m with
  | Some st, Some dev =>
      if negb (m_status m) || negb (is_enabled st) || negb (read_enabled st)
      then send_zero_status_for_index m (m_index m) (m_status m && m_port m) false
      else
        let now := drv_clock drv (m_calls m) in
        let m := alter_state (fun s => set_logs s (last_data_at s) (recover (failure_log s) now).1 (query_retry_log s))
                   (m_index m) m in
        let m := set_reconnect m (m_last_reconnect m) (m_reconnect_log m) (recover (m_unattributed_log m) now).1 in
        let m := alter_state (fun s => set_counters s 0 (current_round s) 0) (m_index m) m in
        let m := set_role m (m_index m) (m_run m) 0 0 in
        let m := alter_state (fun s => set_logs s (Some now) (failure_log s) (query_retry_log s)) (m_index m) m in
        publish m (m_index m) (dp_status packet) (good_status dev packet frame)
  | _, _ => m
  end.

(** How the read loop of [receive_data_attempt] ends. *)
Inductive ReadEnd :=
| RawFrame (raw : list Z)
| NothingRead
| ReadFailed.

Definition configured_minimum (m : Manager) : option nat :=
  configured_response_frame_len (m_rx_pending m) (su_devices su) (m_index m) (m_run m) (su_run_on su).

(** The loop.  Every round that goes on adds at least one byte to a buffer
    that is cut off at the size of the read buffer, so [fuel] one more than
    that size is enough ([read_loop_total]). *)
Fixpoint read_loop (fuel : nat) (m : Manager) (deadline : Z) (extended : bool) (budget : Z) : option (Manager * ReadEnd) :=
  match fuel with
  | O => None
  | S fuel =>
      match complete_frame_len (m_rx_pending m) (m_run m) (su_run_on su) (configured_minimum m) with
      | Some frame_len =>
          Some (set_rx m (drop frame_len (m_rx_pending m)), RawFrame (take frame_len (m_rx_pending m)))
      | None =>
          let candidate := is_complete_short_direct_candidate (m_rx_pending m) (m_run m) (su_run_on su) in
          let quiet := candidate && bool_decide (drv_bytes_to_read drv (m_calls m) = Some 0) in
          let m := if candidate then used m (S (m_calls m)) [] else m in
          if quiet then
            let frame_len := (byte_at (m_rx_pending m) 2 + 5)%nat in
            Some (set_rx m (drop frame_len (m_rx_pending m)), RawFrame (take frame_len (m_rx_pending m)))
          else if (su_read_buf su <=? length (m_rx_pending m))%nat then
            Some (rx_clear m, RawFrame (m_rx_pending m))
          else
            let call := drv_read drv (m_calls m) in
            let r := read_before_deadline drv (m_calls m) deadline in
            let m := used m (S (m_calls m)) [] in
            let no_more :=
              match m_rx_pending m with
              | [] => Some (m, NothingRead)
              | _ :: _ => Some (rx_clear m, RawFrame (m_rx_pending m))
              end in
            match r with
            | Ok [] => no_more
            | Ok chunk =>
                let m := set_rx m (m_rx_pending m ++ chunk) in
                let deadline := if extended then deadline else Z.max deadline (call_after call + budget) in
                read_loop fuel m deadline true budget
            | Err TimedOut => no_more
            | Err _ => Some (reconnect (rx_clear (close_port m)), ReadFailed)
            end
      end
  end.

Inductive ReceiveDataOutcome :=
| Success
| Retryable (f : QueryFailure)
| TransportHandled
| UnattributedHandled.

(** What happens to a raw frame: the payload is extracted and attributed, a
    primary drops the bytes behind it, and the packet is parsed. *)
Definition accept_raw_frame (m : Manager) (raw : list Z) : Manager * ReceiveDataOutcome :=
  let '(m, frame, attributed) := extract_frame m raw in
  let m := match m_run m with Primary => rx_clear m | Secondary => m end in
  if negb attributed then (handle_unattributed_frame m, UnattributedHandled)
  else
    match parse_data_packet frame with
    | Ok packet => (handle_valid_packet m packet frame, Success)
    | Err reason => (m, Retryable (QueryBadFrame reason frame))
    end.

Definition receive_data_attempt (m : Manager) : option (Manager * ReceiveDataOutcome) :=
  if negb (m_port m) then Some (reconnect m, TransportHandled)
  else
    let budget := response_completion_budget (su_devices su) (m_index m) (lc_baud_rate (su_line su)) in
    let now := drv_clock drv (m_calls m) in
    let deadline := now + lc_read_timeout (su_line su) in
    let pending := match m_rx_pending m with [] => false | _ :: _ => true end in
    let deadline := if pending then Z.max deadline (now + budget) else deadline in
    '(m, ending) ← read_loop (S (su_read_buf su)) (used m (S (m_calls m)) []) deadline pending budget;
    match ending with
    | NothingRead => Some (m, Retryable QueryTimeout)
    | ReadFailed => Some (m, TransportHandled)
    | RawFrame [] => Some (m, Retryable QueryTimeout)
    | RawFrame raw => Some (accept_raw_frame m raw)
    end.

Definition receive_data (m : Manager) : option Manager :=
  '(m, outcome) ← receive_data_attempt m;
  Some match outcome with Retryable f => commit_query_failure m f | _ => m end.

(** The retry is logged when the role and the polled device are unchanged. *)
Definition log_query_retry_success (m : Manager) (query_index : nat) (first : QueryFailure) (now : Z) : Manager :=
  let kind := match first with QueryTimeout => ReadTimeout | QueryBadFrame _ _ => BadFrame end in
  alter_state (fun s => set_logs s (last_data_at s) (failure_log s) (record_retry_success (query_retry_log s) kind now).1)
    query_index m.

Definition receive_query_with_retry (fuel : nat) (m : Manager) (query : list Z) (retry_count : Z) : option Manager :=
  let query_index := m_index m in
  match su_devices su !! query_index with
  | None => Some m
  | Some _ =>
      '(m, outcome) ← receive_data_attempt m;
      match outcome with
      | Success | TransportHandled | UnattributedHandled => Some m
      | Retryable first_failure =>
          if retry_count =? 0 then Some (commit_query_failure m first_failure)
          else if negb (bool_decide (m_run m = Primary)) || negb (m_index m =? query_index)%nat
          then Some (commit_query_failure m first_failure)
          else
            '(m, sent) ← send_command fuel (rx_clear m) query;
            if negb sent then Some (commit_query_failure_with_com_status m first_failure (m_port m))
            else
              '(m, outcome) ← receive_data_attempt m;
              Some match outcome with
                   | Success =>
                       if bool_decide (m_run m = Primary) && (m_index m =? query_index)%nat
                       then log_query_retry_success m query_index first_failure (drv_clock drv (m_calls m))
                       else m
                   | Retryable final_failure => commit_query_failure m final_failure
                   | TransportHandled | UnattributedHandled => m
                   end
      end
  end.

(** ** Acknowledgements *)

(** The read loop of [receive_command_ack_result]: [Ok true] is an
    acknowledgement among the bytes read. *)
Fixpoint ack_loop (fuel : nat) (calls : nat) (deadline : Z) (received : list Z)
    : option (nat * list Z * result ErrorKind bool) :=
  match fuel with
  | O => None
  | S fuel =>
      match read_before_deadline drv calls deadline with
      | Ok [] => Some (S calls, received, Ok false)
      | Ok chunk =>
          let received := received ++ chunk in
          if contains_command_ack received then Some (S calls, received, Ok true)
          else if (su_read_buf su <=? length received)%nat then Some (S calls, received, Ok false)
          else ack_loop fuel (S calls) deadline received
      | Err TimedOut => Some (S calls, received, Ok false)
      | Err e => Some (S calls, received, Err e)
      end
  end.

Definition receive_command_ack_result (m : Manager) : option (Manager * result string unit) :=
  if negb (m_port m) then Some (reconnect m, Err "port_not_open")
  else
    let deadline := drv_clock drv (m_calls m) + lc_read_timeout (su_line su) in
    '(calls, received, r) ← ack_loop (S (su_read_buf su)) (S (m_calls m)) deadline [];
    let m := used m calls [] in
    Some match r with
         | Ok true => (m, Ok tt)
         | Ok false => (m, Err match received with [] => "ack_timeout" | _ => "ack_mismatch" end)
         | Err _ => (reconnect (rx_clear (close_port m)), Err "ack_io_error")
         end.
End Manager.

(** ** The worker's operations on the manager *)

Section Steps.
Context (su : Setup) (drv : Driver).

(** The worker's turn to the next device. *)
Definition next_index (m : Manager) : Manager :=
  set_role m ((m_index m + 1) mod length (su_devices su)) (m_run m) (m_time_out_count m) (m_parse_fail_count m).

(** One operation of the worker that owns the port, in any order. *)
Inductive acq_step : Manager -> Manager -> Prop :=
| step_poll fuel m query m1 :
    send_command su drv fuel (prepare_automatic_query m) query = Some (m1, false) -> acq_step m m1
| step_query fuel m query retry m1 m2 :
    send_command su drv fuel (prepare_automatic_query m) query = Some (m1, true) ->
    receive_query_with_retry su drv fuel m1 query retry = Some m2 -> acq_step m m2
| step_listen m m' : receive_data su drv m = Some m' -> acq_step m m'
| step_command fuel m command m' b : send_command su drv fuel m command = Some (m', b) -> acq_step m m'
| step_ack m m' r : receive_command_ack_result su drv m = Some (m', r) -> acq_step m m'
| step_port m enabled : acq_step m (set_port_enabled su drv m enabled).1
| step_device_read m id enabled : acq_step m (set_device_read_enabled su m id enabled).1
| step_device m i enabled : acq_step m (set_device_enabled su m i enabled)
| step_restart m : acq_step m (reconnect su drv (prepare_worker_restart su m))
| step_next m : acq_step m (next_index m).

Inductive reachable (enabled : bool) (run : RunLocation) : Manager -> Prop :=
| reach_new : reachable enabled run (new_manager su drv enabled run)
| reach_step m m' : reachable enabled run m -> acq_step m m' -> reachable enabled run m'.
End Steps.

(** ** The acquisition invariant *)

Section Invariant.
Context (su : Setup) (drv : Driver).

Notation devices := (su_devices su).

(** A device the cache shows as offline. *)
Definition offline (m : Manager) (dev : DeviceConfig) : Prop :=
  exists s, m_cache m !! (su_port_number su, device_id (dc_config dev)) = Some s /\
    ds_com_status s = false /\ ds_device_status s = false.
Definition all_offline (m : Manager) : Prop := forall dev, dev ∈ devices -> offline m dev.

(** A cached value that came from a frame with a valid length and checksum. *)
Definition genuine (s : DeviceStatus) : Prop :=
  exists dev packet, dev ∈ devices /\ parse_data_packet (ds_raw_data s) = Ok packet /\
    s = good_status su dev packet (ds_raw_data s).

(** Whatever the link state: the device lists match, the index is in range,
    and a device is shown in order only with a genuine value. *)
Record base_ok (m : Manager) : Prop := {
  ok_states : length (m_states m) = length devices;
  ok_index : (m_index m < length devices)%nat;
  ok_good : forall key s, m_cache m !! key = Some s -> ds_device_status s = true -> genuine s
}.

(** No write of an open port reports NotConnected, which the worker takes for a
    port that is not open. *)
Definition connected_writes : Prop := forall i, call_transfer (drv_write drv i) <> Err NotConnected.

(** Between operations: an open port is enabled; with connected writes its
    outage flag is clear, and a closed one shows every device offline. *)
Record acq_ok (m : Manager) : Prop := {
  ok_base : base_ok m;
  ok_open : m_port m = true -> m_status m = true /\ (connected_writes -> m_offline_published m = false);
  ok_closed : connected_writes -> m_port m = false -> all_offline m
}.

(** Equal on everything the invariant reads. *)
Record same_view (m m' : Manager) : Prop := {
  sv_port : m_port m' = m_port m;
  sv_status : m_status m' = m_status m;
  sv_published : m_offline_published m' = m_offline_published m;
  sv_cache : m_cache m' = m_cache m;
  sv_states : length (m_states m') = length (m_states m);
  sv_index : m_index m' = m_index m
}.

#[export] Instance same_view_preorder : PreOrder same_view.
Proof.
  split; [by constructor|]. intros a b c [] []. constructor; congruence.
Qed.

Lemma base_ok_same m m' : same_view m m' -> base_ok m -> base_ok m'.
Proof. intros [? ? ? Hc Hs Hi] [? ? ?]. constructor; [congruence|by rewrite Hi|by rewrite Hc]. Qed.

Lemma all_offline_same m m' : same_view m m' -> all_offline m -> all_offline m'.
Proof. intros [? ? ? Hc ? ?] H dev Hd. unfold offline. rewrite Hc. by apply H. Qed.

Lemma acq_ok_same m m' : same_view m m' -> acq_ok m -> acq_ok m'.
Proof.
  intros Hv [Hb Ho Hc]. pose proof Hv as [Hp Hs Hf _ _ _]. constructor; [by eapply base_ok_same| |].
  - rewrite Hp, Hs, Hf. done.
  - rewrite Hp. intros ? ?. eapply all_offline_same; eauto.
Qed.

Lemma same_alter f i m : same_view m (alter_state f i m).
Proof. constructor; try done. simpl. by rewrite length_alter. Qed.
Lemma same_used m c w : same_view m (used m c w).
Proof. by constructor. Qed.
Lemma same_role m run t p : same_view m (set_role m (m_index m) run t p).
Proof. by constructor. Qed.
Lemma same_reconnect m l r u : same_view m (set_reconnect m l r u).
Proof. by constructor. Qed.
Lemma same_rx m rx : same_view m (set_rx m rx).
Proof. by constructor. Qed.
Lemma same_rx_clear m : same_view m (rx_clear m).
Proof. by constructor. Qed.
Lemma same_switch m role : same_view m (switch_role m role).
Proof. constructor; try done. simpl. by rewrite length_fmap. Qed.

(** ** Publication *)

(** Only the cache entry of the status and the device's broadcast record
    change. *)
Lemma publish_view m i key_data s :
  same_view m (set_published (publish m i key_data s) (m_cache m) (m_broadcasts m)) /\
  m_cache (publish m i key_data s) = <[(ds_com s, ds_device_id s) := s]> (m_cache m).
Proof.
  unfold publish. cbn [cache_update m_states set_published]. destruct (m_states m !! i); [|done].
  destruct (should_broadcast _ _ _ _) as [st []]; split; try done; constructor; try done; simpl; by rewrite length_insert.
Qed.

Lemma publish_fields m i key_data s :
  m_port (publish m i key_data s) = m_port m /\ m_status (publish m i key_data s) = m_status m /\
  m_offline_published (publish m i key_data s) = m_offline_published m /\
  length (m_states (publish m i key_data s)) = length (m_states m) /\
  m_index (publish m i key_data s) = m_index m.
Proof. destruct (publish_view m i key_data s) as [[? ? ? ? ? ?] _]. by split_and!. Qed.

Lemma publish_base m i key_data s :
  (ds_device_status s = true -> genuine s) -> base_ok m -> base_ok (publish m i key_data s).
Proof.
  intros Hg [Hs Hi Hc]. destruct (publish_fields m i key_data s) as (_ & _ & _ & Hl & Hx).
  destruct (publish_view m i key_data s) as [_ Hm]. constructor; [congruence|by rewrite Hx|].
  rewrite Hm. intros key s' [[_ <-]|[_ ?]]%lookup_insert_Some; eauto.
Qed.

Lemma zero_key dev com dst :
  (ds_com (zero_status su dev com dst), ds_device_id (zero_status su dev com dst)) =
  (su_port_number su, device_id (dc_config dev)).
Proof. done. Qed.

(** Publishing an offline zero keeps every device offline that was. *)
Lemma offline_publish m i dev key_data dev' :
  offline m dev' -> offline (publish m i key_data (zero_status su dev false false)) dev'.
Proof.
  intros Ho. unfold offline. destruct (publish_view m i key_data (zero_status su dev false false)) as [_ ->].
  rewrite zero_key. destruct (decide (device_id (dc_config dev) = device_id (dc_config dev'))) as [->|Hne].
  - rewrite lookup_insert_eq. by eexists.
  - rewrite lookup_insert_ne by congruence. exact Ho.
Qed.

Lemma publish_offline m i dev key_data : offline (publish m i key_data (zero_status su dev false false)) dev.
Proof.
  unfold offline. destruct (publish_view m i key_data (zero_status su dev false false)) as [_ ->].
  rewrite zero_key, lookup_insert_eq. by eexists.
Qed.

Lemma send_zero_ok m i com : (m_port m = false -> com = false) -> acq_ok m ->
  acq_ok (send_zero_status_for_index su m i com false) /\
  m_port (send_zero_status_for_index su m i com false) = m_port m /\
  m_index (send_zero_status_for_index su m i com false) = m_index m.
Proof.
  intros Hcom [Hb Ho Hc]. unfold send_zero_status_for_index. destruct (devices !! i) as [dev|] eqn:E; [|done].
  set (s := zero_status su dev com false).
  destruct (publish_fields m i (replicate (configured_len dev) 0) s) as (Hp & Hst & Hf & _ & Hx).
  split_and!; [constructor|done|done].
  - by apply publish_base.
  - by rewrite Hp, Hst, Hf.
  - rewrite Hp. intros T Hport. subst s. rewrite (Hcom Hport). intros dev' Hd. apply offline_publish. by apply Hc.
Qed.

(** Fields that publication leaves alone. *)
Record same_link (m m' : Manager) : Prop := {
  sl_port : m_port m' = m_port m;
  sl_status : m_status m' = m_status m;
  sl_published : m_offline_published m' = m_offline_published m
}.

Lemma send_zero_base m i :
  base_ok m -> base_ok (send_zero_status_for_index su m i false false) /\
  same_link m (send_zero_status_for_index su m i false false) /\
  (forall dev, offline m dev -> offline (send_zero_status_for_index su m i false false) dev) /\
  (forall dev, devices !! i = Some dev -> offline (send_zero_status_for_index su m i false false) dev).
Proof.
  intros Hb. unfold send_zero_status_for_index. destruct (devices !! i) as [dev|] eqn:E.
  - destruct (publish_fields m i (replicate (configured_len dev) 0) (zero_status su dev false false)) as (? & ? & ? & _ & _).
    split_and!; [by apply publish_base|by constructor| |].
    + intros dev'. apply offline_publish.
    + intros dev' Heq. injection Heq as <-. apply publish_offline.
  - split_and!; [done|by constructor|done|done].
Qed.

Lemma publish_all_offline_spec m :
  base_ok m -> base_ok (publish_all_offline su m) /\ same_link m (publish_all_offline su m) /\
  all_offline (publish_all_offline su m).
Proof.
  intros Hb. unfold publish_all_offline.
  enough (H : forall l m, base_ok m ->
    let m' := foldl (fun m i => send_zero_status_for_index su m i false false) m l in
    base_ok m' /\ same_link m m' /\ (forall dev, offline m dev -> offline m' dev) /\
    (forall i dev, i ∈ l -> devices !! i = Some dev -> offline m' dev)).
  { destruct (H (seq 0 (length devices)) m Hb) as (H1 & H2 & _ & H4). split_and!; [done|done|].
    intros dev [i Hi]%list_elem_of_lookup. apply (H4 i); [|done]. apply elem_of_seq.
    apply lookup_lt_Some in Hi. lia. }
  clear. intros l. induction l as [|i l IH]; intros m Hb; simpl; [split_and!; [done|done|done|by intros ? ? ?%not_elem_of_nil]|].
  destruct (send_zero_base m i Hb) as (Hb1 & [? ? ?] & Hk & Hi).
  destruct (IH _ Hb1) as (Hb2 & [? ? ?] & Hk2 & Hl). split_and!; [done|constructor; congruence|auto|].
  intros j dev [->|Hj]%elem_of_cons Hd; [by apply Hk2, Hi|eauto].
Qed.

Lemma publish_once_spec m :
  base_ok m ->
  base_ok (publish_port_offline_once su m) /\
  ((m_offline_published m = true -> all_offline m) -> all_offline (publish_port_offline_once su m)) /\
  m_port (publish_port_offline_once su m) = m_port m /\ m_status (publish_port_offline_once su m) = m_status m.
Proof.
  intros Hb. unfold publish_port_offline_once. destruct (m_offline_published m) eqn:E; [by split_and!; auto|].
  set (m1 := set_link m (m_port m) (m_status m) (m_rx_pending m) true).
  assert (Hb1 : base_ok m1) by (destruct Hb; by constructor).
  destruct (publish_all_offline_spec m1 Hb1) as (? & [? ? ?] & ?). by split_and!.
Qed.

(** ** Reconnection *)

Lemma reconnect_ok m :
  base_ok m -> (connected_writes -> m_port m = false) ->
  (connected_writes -> m_offline_published m = true -> all_offline m) ->
  (connected_writes -> m_status m = false -> all_offline m) -> acq_ok (reconnect su drv m).
Proof.
  intros Hb Hp Hpub Hst. unfold reconnect. destruct (m_status m) eqn:Es; simpl.
  2: { constructor; [by destruct Hb|done|]. intros T _ dev Hd. exact (Hst T eq_refl dev Hd). }
  destruct (publish_once_spec m Hb) as (Hb1 & Hoff & Hp1 & Hs1).
  assert (Hoff1 : connected_writes -> all_offline (publish_port_offline_once su m)) by auto. clear Hoff. rewrite Es in Hs1.
  assert (Hp2 : connected_writes -> m_port (publish_port_offline_once su m) = false) by (intros T; rewrite Hp1; auto).
  clear Hp1. generalize dependent (publish_port_offline_once su m). intros m1 Hb1 Hs1 Hoff Hp1.
  case_match.
  - apply (acq_ok_same m1); [apply same_used|]. constructor; [done| |by auto]. intros Ho. split; [done|].
    intros T. specialize (Hp1 T). congruence.
  - case_match; (eapply acq_ok_same; [apply same_used|]).
    + constructor; [by destruct Hb1| |done]. simpl. done.
    + constructor; [by destruct Hb1|done|]. intros T _ dev Hd. exact (Hoff T dev Hd).
Qed.

(** Losing the port: close, drop the buffer, reconnect. *)
Lemma lost_port_ok m : acq_ok m -> acq_ok (reconnect su drv (rx_clear (close_port m))).
Proof.
  intros [Hb Ho Hc]. assert (Hoff : connected_writes -> m_offline_published m = true \/ m_status m = false -> all_offline m).
  { intros T H. destruct (m_port m) eqn:E; [|by apply Hc]. destruct (Ho eq_refl) as [? Hf]. specialize (Hf T). destruct H; congruence. }
  apply reconnect_ok; simpl; [by destruct Hb|done| |]; intros T ? dev Hd; apply (Hoff T); auto.
Qed.

Lemma reconnect_closed_ok m : acq_ok m -> m_port m = false -> acq_ok (reconnect su drv m).
Proof. intros [Hb Ho Hc] Hp. apply reconnect_ok; auto. Qed.

(** ** The operations *)

Lemma send_command_ok fuel m command m' b :
  acq_ok m -> send_command su drv fuel m command = Some (m', b) ->
  acq_ok m' /\ (b = true -> m_port m' = m_port m /\ m_index m' = m_index m).
Proof.
  intros Hm. unfold send_command. destruct (transmit_frame _ _ _ _ _ _ _) as [[[calls wire] t]|] eqn:E; [|done].
  simpl. assert (Hu : acq_ok (used m calls wire)) by (eapply acq_ok_same; [apply same_used|done]).
  destruct t as [|er|]; intros [= <- <-]; [done| |done]. split; [|done].
  destruct er; try by apply lost_port_ok.
  destruct (m_port m) eqn:Hp; [|by apply reconnect_closed_ok].
  assert (Hn : connected_writes -> False) by (intros T; by apply transmit_connected in E).
  destruct Hu as [Hb _ _]. apply reconnect_ok; [done|intros T; by destruct (Hn T)..].
Qed.

Lemma handle_device_failure_ok m kind now com :
  (m_port m = false -> com = false) -> acq_ok m -> acq_ok (handle_device_failure su m kind now com).
Proof.
  intros Hcom Hm. unfold handle_device_failure. cbv zeta.
  match goal with |- context [send_zero_status su ?x com false] => set (m1 := x) end.
  assert (Hv : same_view m m1).
  { unfold m1. etrans; [apply same_alter|]. etrans; [apply same_role|]. apply same_alter. }
  assert (H1 : acq_ok (send_zero_status su m1 com false)).
  { apply send_zero_ok; [|by eapply acq_ok_same]. by rewrite (sv_port _ _ Hv). }
  case_match; [|done]. eapply acq_ok_same; [apply same_switch|done].
Qed.

Lemma commit_failure_ok m f com :
  (m_port m = false -> com = false) -> acq_ok m -> acq_ok (commit_query_failure_with_com_status su drv m f com).
Proof.
  intros Hcom Hm. destruct f as [|reason frame]; simpl; [by apply handle_device_failure_ok|].
  unfold handle_invalid_frame_with_context. cbv zeta.
  match goal with |- context [handle_device_failure su ?x _ _ com] => set (m1 := x) end.
  assert (Hv : same_view m m1) by (unfold m1; etrans; [apply same_alter|apply same_role]).
  assert (H1 : acq_ok (handle_device_failure su m1 BadFrame (drv_clock drv (m_calls m)) com)).
  { apply handle_device_failure_ok; [|by eapply acq_ok_same]. by rewrite (sv_port _ _ Hv). }
  case_match; [|done]. eapply acq_ok_same; [apply same_switch|done].
Qed.

Lemma handle_unattributed_ok m : acq_ok m -> acq_ok (handle_unattributed_frame su drv m).
Proof.
  intros Hm. unfold handle_unattributed_frame.
  cbv zeta.
  assert (Hv : forall t p l, acq_ok (set_reconnect (set_role m (m_index m) (m_run m) t p) (m_last_reconnect m) (m_reconnect_log m) l)).
  { intros t q l. eapply acq_ok_same; [|exact Hm]. etrans; [apply same_role|apply same_reconnect]. }
  case_match; [eapply acq_ok_same; [apply same_switch|]|]; apply Hv.
Qed.

Lemma position_in_range id i : position su id = Some i -> (i < length devices)%nat.
Proof.
  unfold position. destruct (list_find _ _) as [[j dev]|] eqn:E; [|done]. intros [= <-].
  apply list_find_Some in E as (Hl & _). by apply lookup_lt_Some in Hl.
Qed.

(** A forwarded frame names a configured device. *)
Lemma forwarded_in_range m raw ds i :
  (if accepts_forwarded (m_run m) (su_run_on su) then
     data_start ← validated_forward_data_start raw;
     device_index ← position su (default 0 (head raw));
     Some (data_start, device_index)
   else None) = Some (ds, i) -> (i < length devices)%nat.
Proof.
  destruct (accepts_forwarded _ _); [|done]. destruct (validated_forward_data_start raw); [|done]. simpl.
  destruct (position su _) as [j|] eqn:E; [|done]. simpl. intros [= _ <-]. by eapply position_in_range.
Qed.

Lemma acq_ok_index m i run t p : (i < length devices)%nat -> acq_ok m -> acq_ok (set_role m i run t p).
Proof. intros Hi [[? ? ?] ? ?]. by constructor; [constructor| |]. Qed.

Lemma extract_frame_ok m raw m' frame att :
  acq_ok m -> extract_frame su m raw = (m', frame, att) -> acq_ok m' /\ m_port m' = m_port m.
Proof.
  intros Hm. unfold extract_frame. pose proof (forwarded_in_range m raw) as Hf. revert Hf.
  match goal with |- context [is_some ?f] => generalize f as fwd; intros fwd Hf end.
  match goal with |- context [m_run (if ?b then _ else _)] => destruct b end.
  - assert (Hs : acq_ok (switch_role m Secondary)) by (eapply acq_ok_same; [apply same_switch|done]).
    simpl. destruct fwd as [[ds i]|]; intros [= <- _ _]; [|done]. split; [|done]. by apply acq_ok_index; [eapply Hf|].
  - destruct (m_run m); [by intros [= <- _ _]|]. destruct fwd as [[ds i]|]; intros [= <- _ _]; [|done].
    split; [|done]. by apply acq_ok_index; [eapply Hf|].
Qed.

Lemma handle_valid_packet_ok m packet frame :
  parse_data_packet frame = Ok packet -> m_port m = true -> acq_ok m ->
  acq_ok (handle_valid_packet su drv m packet frame).
Proof.
  intros Hparse Hp Hm. unfold handle_valid_packet.
  destruct (m_states m !! m_index m) as [st|]; [|done]. destruct (devices !! m_index m) as [dev|] eqn:Hd; [|done].
  destruct (_ || _) eqn:Hdis; [apply send_zero_ok; [rewrite Hp; congruence|done]|]. cbv zeta.
  match goal with |- acq_ok (publish ?x ?i _ _) => set (m1 := x) end.
  assert (Hv : same_view m m1).
  { unfold m1. etrans; [apply same_alter|]. etrans; [apply same_reconnect|]. etrans; [apply same_alter|].
    etrans; [apply same_role|]. apply same_alter. }
  pose proof (acq_ok_same _ _ Hv Hm) as [Hb Ho _]. set (s := good_status su dev packet frame).
  destruct (publish_fields m1 (m_index m1) (dp_status packet) s) as (Hpp & Hps & Hpf & _ & _).
  constructor.
  - apply publish_base; [|done]. intros _. exists dev, packet. split_and!; [|done|done].
    by eapply list_elem_of_lookup_2.
  - by rewrite Hpp, Hps, Hpf.
  - rewrite Hpp, (sv_port _ _ Hv), Hp. done.
Qed.

Lemma read_loop_ok fuel m deadline ext budget m' ending :
  acq_ok m -> m_port m = true -> read_loop su drv fuel m deadline ext budget = Some (m', ending) ->
  acq_ok m' /\ (ending <> ReadFailed -> m_port m' = true).
Proof.
  revert m deadline ext. induction fuel as [|fuel IH]; intros m deadline ext Hm Hp; [done|]. cbn [read_loop].
  destruct (complete_frame_len _ _ _ _) as [n|].
  { intros [= <- <-]. split; [|done]. eapply acq_ok_same; [apply same_rx|done]. }
  set (candidate := is_complete_short_direct_candidate _ _ _).
  set (m1 := if candidate then used m (S (m_calls m)) [] else m).
  assert (H1 : acq_ok m1 /\ m_port m1 = true).
  { unfold m1. destruct candidate; [|done]. split; [|done]. eapply acq_ok_same; [apply same_used|done]. }
  destruct H1 as [Hm1 Hp1]. clearbody m1.
  assert (Hrx : forall rx, acq_ok (set_rx m1 rx)) by (intros rx; eapply acq_ok_same; [apply same_rx|done]).
  destruct (candidate && _); [intros [= <- <-]; split; [apply Hrx|done]|].
  destruct (_ <=? _)%nat; [intros [= <- <-]; split; [apply (Hrx [])|done]|].
  set (m2 := used m1 (S (m_calls m1)) []).
  assert (Hm2 : acq_ok m2) by (eapply acq_ok_same; [apply same_used|done]).
  assert (Hp2 : m_port m2 = true) by done. clearbody m2.
  destruct (read_before_deadline _ _ _) as [[|b chunk]|er].
  - destruct (m_rx_pending m2); intros [= <- <-]; split; try done. eapply acq_ok_same; [apply same_rx_clear|done].
  - apply IH; [|done]. eapply acq_ok_same; [apply same_rx|done].
  - destruct er; try (intros [= <- <-]; split; [by apply lost_port_ok|done]).
    destruct (m_rx_pending m2); intros [= <- <-]; split; try done. eapply acq_ok_same; [apply same_rx_clear|done].
Qed.

Lemma receive_attempt_ok m m' outcome :
  acq_ok m -> receive_data_attempt su drv m = Some (m', outcome) ->
  acq_ok m' /\ (forall f, outcome = Retryable f -> m_port m' = true).
Proof.
  intros Hm. unfold receive_data_attempt. destruct (m_port m) eqn:Hp; cbn [negb].
  2: { intros [= <- <-]. split; [by apply reconnect_closed_ok|done]. }
  assert (Hu : acq_ok (used m (S (m_calls m)) [])) by (eapply acq_ok_same; [apply same_used|done]).
  destruct (read_loop _ _ _ _ _ _ _) as [[m1 ending]|] eqn:E; [|done].
  destruct (read_loop_ok _ _ _ _ _ _ _ Hu Hp E) as [Hm1 Hp1]. clear E. cbn [mbind option_bind].
  destruct ending as [[|b raw]| |]; try (intros [= <- <-]; split; [done|intros; by auto]).
  unfold accept_raw_frame. destruct (extract_frame su m1 (b :: raw)) as [[m2 frame] att] eqn:E.
  destruct (extract_frame_ok _ _ _ _ _ Hm1 E) as [Hm2 Hp2]. rewrite (Hp1 ltac:(done)) in Hp2. clear E.
  set (m3 := match m_run m2 with Primary => rx_clear m2 | Secondary => m2 end).
  assert (H3 : acq_ok m3 /\ m_port m3 = true).
  { unfold m3. destruct (m_run m2); [|done]. split; [|done]. eapply acq_ok_same; [apply same_rx_clear|done]. }
  destruct H3 as [Hm3 Hp3]. clearbody m3.
  destruct att; cbn [negb]; [|intros [= <- <-]; split; [by apply handle_unattributed_ok|done]].
  destruct (parse_data_packet frame) as [packet|reason] eqn:Epk; intros [= <- <-]; [|done].
  split; [by apply handle_valid_packet_ok|done].
Qed.

Lemma receive_data_ok m m' : acq_ok m -> receive_data su drv m = Some m' -> acq_ok m'.
Proof.
  intros Hm. unfold receive_data. destruct (receive_data_attempt su drv m) as [[m1 o]|] eqn:E; [|done].
  destruct (receive_attempt_ok _ _ _ Hm E) as [Hm1 Hp]. simpl. intros [= <-]. destruct o as [|f| |]; try done.
  apply commit_failure_ok; [|done]. rewrite (Hp f eq_refl). done.
Qed.

Lemma receive_query_ok fuel m query retry m' :
  acq_ok m -> receive_query_with_retry su drv fuel m query retry = Some m' -> acq_ok m'.
Proof.
  intros Hm. unfold receive_query_with_retry. destruct (devices !! m_index m); [|by intros [= <-]].
  destruct (receive_data_attempt su drv m) as [[m1 o]|] eqn:E1; [|done]. cbn [mbind option_bind].
  destruct (receive_attempt_ok _ _ _ Hm E1) as [Hm1 Hp1].
  destruct o as [|f| |]; try (by intros [= <-]). specialize (Hp1 f eq_refl).
  assert (Hc : acq_ok (commit_query_failure su drv m1 f)) by (apply commit_failure_ok; [rewrite Hp1; done|done]).
  destruct (retry =? 0); [by intros [= <-]|]. destruct (_ || _); [by intros [= <-]|].
  destruct (send_command su drv fuel (rx_clear m1) query) as [[m2 sent]|] eqn:E2; [|done]. cbn [mbind option_bind].
  apply send_command_ok in E2 as [Hm2 _]; [|eapply acq_ok_same; [apply same_rx_clear|done]].
  destruct sent; cbn [negb]; [|intros [= <-]; by apply commit_failure_ok].
  destruct (receive_data_attempt su drv m2) as [[m3 o]|] eqn:E3; [|done]. cbn [mbind option_bind].
  destruct (receive_attempt_ok _ _ _ Hm2 E3) as [Hm3 Hp3].
  intros [= <-]. destruct o as [|f3| |]; try done.
  - case_match; [|done]. eapply acq_ok_same; [apply same_alter|done].
  - apply commit_failure_ok; [|done]. rewrite (Hp3 f3 eq_refl). done.
Qed.

Lemma ack_ok m m' r : acq_ok m -> receive_command_ack_result su drv m = Some (m', r) -> acq_ok m'.
Proof.
  intros Hm. unfold receive_command_ack_result. destruct (m_port m) eqn:Hp; cbn [negb].
  2: { intros [= <- _]. by apply reconnect_closed_ok. }
  destruct (ack_loop _ _ _ _ _ _) as [[[calls received] rr]|]; [|done]. cbn [mbind option_bind].
  assert (Hu : acq_ok (used m calls [])) by (eapply acq_ok_same; [apply same_used|done]).
  destruct rr as [[]|]; intros [= <- _]; try done. by apply lost_port_ok.
Qed.

Lemma set_port_enabled_ok m enabled : acq_ok m -> acq_ok (set_port_enabled su drv m enabled).1.
Proof.
  intros [Hb Ho Hc]. unfold set_port_enabled. destruct enabled; cbn [negb fst].
  - set (m1 := set_link m (m_port m) true (m_rx_pending m) (m_offline_published m)).
    destruct (m_port m) eqn:Hp; simpl.
    + constructor; [by destruct Hb|intros _; by destruct (Ho eq_refl)|done].
    + apply reconnect_ok; simpl; [by destruct Hb|done|intros T _ dev Hd; by apply Hc|done].
  - match goal with |- acq_ok (publish_port_disabled su ?x) => set (m1 := x) end.
    assert (Hb1 : base_ok m1) by (by destruct Hb).
    destruct (publish_all_offline_spec m1 Hb1) as (Hb2 & [Hp2 _ _] & Hoff).
    unfold publish_port_disabled. constructor; [done|rewrite Hp2; done|done].
Qed.

Lemma set_device_read_ok m id enabled : acq_ok m -> acq_ok (set_device_read_enabled su m id enabled).1.
Proof.
  intros Hm. unfold set_device_read_enabled. destruct (position su id) as [i|]; [|done]. cbv zeta. cbn [fst].
  set (m1 := alter_state (fun s => set_enabled s (is_enabled s) enabled) i m).
  assert (Hm1 : acq_ok m1) by (eapply acq_ok_same; [apply same_alter|done]).
  assert (H2 : acq_ok (send_zero_status_for_index su m1 i (m_port m1) false)) by (by apply send_zero_ok).
  destruct enabled; [|done]. eapply acq_ok_same; [apply same_alter|done].
Qed.

Lemma set_device_enabled_ok m i enabled : acq_ok m -> acq_ok (set_device_enabled su m i enabled).
Proof.
  intros Hm. unfold set_device_enabled. cbv zeta.
  set (m1 := alter_state (fun s => set_enabled s enabled (read_enabled s)) i m).
  assert (Hm1 : acq_ok m1) by (eapply acq_ok_same; [apply same_alter|done]).
  case_match; [|done]. unfold publish_device_disabled. destruct (devices !! i); [|done]. by apply send_zero_ok.
Qed.

Lemma worker_restart_ok m :
  acq_ok m -> acq_ok (prepare_worker_restart su m) /\ m_port (prepare_worker_restart su m) = false.
Proof.
  intros [Hb Ho Hc]. unfold prepare_worker_restart.
  assert (Hb1 : base_ok (rx_clear (close_port m))) by (by destruct Hb).
  destruct (publish_once_spec (rx_clear (close_port m)) Hb1) as (? & Hoff & Hp & _).
  split; [constructor; [done|rewrite Hp; done|]|done]. intros T _. apply Hoff. simpl. intros Hf dev Hd.
  destruct (m_port m) eqn:E; [|by apply Hc]. destruct (Ho eq_refl) as [_ Hx]. specialize (Hx T). congruence.
Qed.

Lemma new_manager_ok enabled run : devices <> [] -> acq_ok (new_manager su drv enabled run).
Proof.
  intros Hne. assert (Hpos : (0 < length devices)%nat) by (destruct devices; [done|simpl; lia]).
  unfold new_manager. cbv zeta. destruct enabled; [destruct (drv_open drv 0) as [u|err]|].
  - constructor; [constructor; simpl; [by rewrite length_fmap|done|done]|done|done].
  - match goal with |- acq_ok (publish_port_offline_once su ?x) => set (m := x) end.
    assert (Hb : base_ok m) by (constructor; simpl; [by rewrite length_fmap|done|done]).
    destruct (publish_once_spec m Hb) as (? & Hoff & Hp & _). constructor; [done|rewrite Hp; done|]. intros _ _. by apply Hoff.
  - match goal with |- acq_ok (publish_port_disabled su ?x) => set (m := x) end.
    assert (Hb : base_ok m) by (constructor; simpl; [by rewrite length_fmap|done|done]).
    destruct (publish_all_offline_spec m Hb) as (? & [Hp _ _] & ?). unfold publish_port_disabled.
    constructor; [done|rewrite Hp; done|done].
Qed.

Lemma acq_step_ok m m' : devices <> [] -> acq_ok m -> acq_step su drv m m' -> acq_ok m'.
Proof.
  intros Hne Hm Hs. assert (Hclear : forall m, acq_ok m -> acq_ok (prepare_automatic_query m)).
  { intros m0 H0. eapply acq_ok_same; [apply same_rx_clear|done]. }
  destruct Hs as [fuel m query m1 H|fuel m query retry m1 m2 H H2|m m1 H|fuel m command m1 b H|m m1 r H| | | |m|m].
  - by apply send_command_ok in H as [? _]; [|apply Hclear].
  - apply send_command_ok in H as [? _]; [|by apply Hclear]. by eapply receive_query_ok.
  - by eapply receive_data_ok.
  - by apply send_command_ok in H as [? _].
  - by eapply ack_ok.
  - by apply set_port_enabled_ok.
  - by apply set_device_read_ok.
  - by apply set_device_enabled_ok.
  - destruct (worker_restart_ok m Hm). by apply reconnect_closed_ok.
  - apply acq_ok_index; [|done]. apply Nat.mod_upper_bound. by destruct devices.
Qed.

(** C3: No stale good values.  Whatever the worker does from start-up on
    (polling, listening, commands, port and device switches, a worker
    restart) and whatever its driver answers, the polled index is in range; an
    open port is an enabled one; and the cache shows a device in order only with
    the values of a frame whose length and checksum are valid.  If the driver
    never answers a write on an open port with NotConnected, a closed port shows
    every configured device offline. *)
Theorem acquisition_never_stale enabled run m :
  devices <> [] -> reachable su drv enabled run m ->
  ((m_index m < length devices)%nat /\ length (m_states m) = length devices) /\
  (m_port m = true -> m_status m = true) /\
  (forall key s, m_cache m !! key = Some s -> ds_device_status s = true -> genuine s) /\
  (connected_writes -> m_port m = false -> all_offline m).
Proof.
  intros Hne Hr. assert (Hm : acq_ok m) by (induction Hr; [by apply new_manager_ok|by eapply acq_step_ok]).
  destruct Hm as [[Hs Hi Hg] Ho Hc]. split_and!; try done. intros Hp. by apply Ho.
Qed.
End Invariant.

(** ** Termination of the reads *)

Section Termination.
Context (su : Setup) (drv : Driver).

Lemma read_loop_total fuel m deadline ext budget :
  (su_read_buf su - length (m_rx_pending m) < fuel)%nat -> is_Some (read_loop su drv fuel m deadline ext budget).
Proof.
  revert m deadline ext. induction fuel as [|fuel IH]; intros m deadline ext Hf; [lia|]. cbn [read_loop].
  destruct (complete_frame_len _ _ _ _); [by eexists|].
  set (candidate := is_complete_short_direct_candidate _ _ _).
  set (m1 := if candidate then used m (S (m_calls m)) [] else m).
  assert (Hrx : m_rx_pending m1 = m_rx_pending m) by (unfold m1; by destruct candidate).
  clearbody m1. destruct (candidate && _); [by eexists|].
  destruct (Nat.leb_spec (su_read_buf su) (length (m_rx_pending m1))) as [|Hlt]; [by eexists|].
  set (m2 := used m1 (S (m_calls m1)) []). assert (Hrx2 : m_rx_pending m2 = m_rx_pending m1) by done. clearbody m2.
  destruct (read_before_deadline _ _ _) as [[|b chunk]|er].
  - destruct (m_rx_pending m2); by eexists.
  - apply IH. simpl. rewrite length_app. simpl. rewrite Hrx2, Hrx in *. lia.
  - destruct er; try by eexists. destruct (m_rx_pending m2); by eexists.
Qed.

Lemma ack_loop_total fuel calls deadline received :
  (su_read_buf su - length received < fuel)%nat -> is_Some (ack_loop su drv fuel calls deadline received).
Proof.
  revert calls received. induction fuel as [|fuel IH]; intros calls received Hf; [lia|]. cbn [ack_loop].
  destruct (read_before_deadline _ _ _) as [[|b chunk]|er]; [by eexists| |destruct er; by eexists].
  destruct (contains_command_ack _); [by eexists|].
  destruct (Nat.leb_spec (su_read_buf su) (length (received ++ b :: chunk))) as [|Hlt]; [by eexists|].
  apply IH. rewrite length_app in *. simpl in *. lia.
Qed.

Lemma receive_attempt_total m : is_Some (receive_data_attempt su drv m).
Proof.
  unfold receive_data_attempt. destruct (m_port m); cbn [negb]; [|by eexists].
  match goal with |- context [read_loop su drv ?f ?m ?d ?e ?b] =>
    destruct (read_loop_total f m d e b ltac:(lia)) as [[m1 ending] E] end.
  rewrite E. simpl. destruct ending as [[|b raw]| |]; by eexists.
Qed.

(** Reception always ends: whatever bytes, delays and errors the driver
    answers with, one receive attempt and one acknowledgement wait return. *)
Theorem reception_terminates m :
  is_Some (receive_data su drv m) /\ is_Some (receive_command_ack_result su drv m).
Proof.
  split.
  - unfold receive_data. destruct (receive_attempt_total m) as [[m1 o] ->]. by eexists.
  - unfold receive_command_ack_result. destruct (m_port m); cbn [negb]; [|by eexists].
    match goal with |- context [ack_loop su drv ?f ?c ?d ?r] =>
      destruct (ack_loop_total f c d r ltac:(simpl; lia)) as [[[c' rec] r'] E] end.
    rewrite E. simpl. destruct r' as [[]|]; by eexists.
Qed.
End Termination.

(** ** A complete response is accepted however it is fragmented *)

Section Fragments.
Context (su : Setup) (drv : Driver) (d : DeviceConfig).
Context (addr cmd : Z) (status : list Z).

Notation frame := (encode_packet addr cmd status).

(** The driver delivers [chunks] from call [i] on, each before its deadline:
    the first chunk before [deadline], which the first byte extends. *)
Definition delivers (i : nat) (deadline : Z) (extended : bool) (budget : Z) (chunks : list (list Z)) : Prop :=
  forall k chunk, chunks !! k = Some chunk ->
    chunk <> [] /\ call_set_timeout (drv_read drv (i + k)) = true /\
    call_restore (drv_read drv (i + k)) = true /\ call_transfer (drv_read drv (i + k)) = Ok chunk /\
    call_now (drv_read drv (i + k)) <
      (if decide (k = 0%nat) then deadline
       else if extended then deadline else Z.max deadline (call_after (drv_read drv i) + budget)).

(** [chunks] complete the frame, the last one possibly with bytes behind it. *)
Inductive completes (tail : list Z) : list Z -> list (list Z) -> Prop :=
| completes_last received chunk :
    (length received < length frame)%nat -> received ++ chunk = frame ++ tail ->
    completes tail received [chunk]
| completes_more received chunk chunks :
    (length received < length frame)%nat -> completes tail (received ++ chunk) chunks ->
    completes tail received (chunk :: chunks).

Lemma completes_prefix tail received chunks :
  completes tail received chunks -> (length received < length frame)%nat /\ received `prefix_of` frame.
Proof.
  induction 1 as [received chunk Hl He|received chunk chunks Hl Hc [_ [k Hk]]]; (split; [done|]).
  - destruct (prefix_weak_total received frame (frame ++ tail)) as [?|[k ->]]; [by exists chunk|by exists tail|done|].
    rewrite length_app in Hl. lia.
  - rewrite Hk, <- app_assoc. by eexists.
Qed.

Lemma delivers_tail i deadline ext budget chunk chunks :
  delivers i deadline ext budget (chunk :: chunks) ->
  delivers (S i) (if ext then deadline else Z.max deadline (call_after (drv_read drv i) + budget)) true budget chunks.
Proof.
  intros H k c Hk. destruct (H (S k) c Hk) as (? & Hs & Hr & Ht & Hn).
  replace (i + S k)%nat with (S i + k)%nat in * by lia. split_and!; try done.
  rewrite decide_False in Hn by lia. by destruct (decide (k = 0%nat)).
Qed.

Lemma read_on_time i deadline ext budget chunk chunks :
  delivers i deadline ext budget (chunk :: chunks) ->
  chunk <> [] /\ read_before_deadline drv i deadline = Ok chunk.
Proof.
  intros H. destruct (H 0%nat chunk eq_refl) as (Hc & Hs & Hr & Ht & Hn). rewrite Nat.add_0_r in *. simpl in Hn.
  split; [done|]. unfold read_before_deadline, before_deadline. rewrite Hs, Hr. simpl.
  rewrite (proj2 (Z.leb_gt _ _)) by lia. done.
Qed.

Lemma used_used m c c' : used (used m c []) c' [] = used m c' [].
Proof. unfold used. simpl. by rewrite app_nil_r. Qed.

Context (Hrun : su_run_on su = Primary) (Hs : status <> []).
Context (Hbuf : (length frame <= su_read_buf su)%nat).

(** While the frame is incomplete the loop reads on. *)
Lemma read_round fuel m deadline ext budget chunk chunks :
  m_run m = Primary -> su_devices su !! m_index m = Some d -> length_agrees d status ->
  (length (m_rx_pending m) < length frame)%nat -> m_rx_pending m `prefix_of` frame ->
  delivers (m_calls m) deadline ext budget (chunk :: chunks) ->
  read_loop su drv (S fuel) m deadline ext budget =
    read_loop su drv fuel (set_rx (used m (S (m_calls m)) []) (m_rx_pending m ++ chunk))
      (if ext then deadline else Z.max deadline (call_after (drv_read drv (m_calls m)) + budget)) true budget.
Proof.
  intros Hm Hd Hlen Hl Hp Hdel. destruct (read_on_time _ _ _ _ _ _ Hdel) as [Hne Hread].
  rewrite (encode_packet_length addr cmd) in Hl. cbn [read_loop]. unfold configured_minimum. rewrite Hrun, Hm.
  pose proof (primary_frame_len_spec _ d _ Hd addr cmd status Hs Hlen (m_rx_pending m) (or_introl Hp)) as Hf.
  unfold primary_frame_len in Hf. rewrite Hf, (proj2 (Nat.leb_gt _ _)) by lia.
  unfold is_complete_short_direct_candidate. cbn [bool_decide decide_rel negb orb andb]. simpl.
  rewrite (encode_packet_length addr cmd) in Hbuf. rewrite (proj2 (Nat.leb_gt _ _)) by lia.
  rewrite Hread. by destruct chunk.
Qed.

Lemma read_done fuel m deadline ext budget tail :
  m_run m = Primary -> su_devices su !! m_index m = Some d -> length_agrees d status ->
  m_rx_pending m = frame ++ tail ->
  read_loop su drv (S fuel) m deadline ext budget = Some (set_rx m tail, RawFrame frame).
Proof.
  intros Hm Hd Hlen Hrx. cbn [read_loop]. unfold configured_minimum. rewrite Hrun, Hm.
  pose proof (primary_frame_len_spec _ d _ Hd addr cmd status Hs Hlen (m_rx_pending m)) as Hf.
  unfold primary_frame_len in Hf. rewrite Hf by (right; rewrite Hrx; by exists tail).
  rewrite Hrx, length_app, <- (encode_packet_length addr cmd), (proj2 (Nat.leb_le _ _)) by lia.
  by rewrite drop_app_length, take_app_length.
Qed.

Lemma read_loop_collects tail received chunks :
  completes tail received chunks -> forall fuel m deadline ext budget,
  m_run m = Primary -> su_devices su !! m_index m = Some d -> length_agrees d status ->
  m_rx_pending m = received -> delivers (m_calls m) deadline ext budget chunks ->
  (length chunks < fuel)%nat ->
  read_loop su drv fuel m deadline ext budget =
    Some (set_rx (used m (m_calls m + length chunks) []) tail, RawFrame frame).
Proof.
  induction 1 as [received chunk Hl He|received chunk chunks Hl Hc IH];
    intros [|fuel] m deadline ext budget Hm Hd Hlen <- Hdel Hf; simpl in Hf; try lia.
  - erewrite read_round; [|done..| |exact Hdel].
    2: { apply (completes_prefix tail _ [chunk]). by constructor. }
    destruct fuel as [|fuel]; [lia|]. rewrite (read_done _ _ _ _ _ tail); [|done..].
    simpl. by rewrite Nat.add_1_r.
  - erewrite read_round; [|done..| |exact Hdel].
    2: { apply (completes_prefix tail _ (chunk :: chunks)). by constructor. }
    apply delivers_tail in Hdel. rewrite IH; [|done..|exact Hdel|lia].
    f_equal. f_equal. unfold set_rx, set_link, used. simpl. by rewrite app_nil_r, Nat.add_succ_r.
Qed.

Lemma delivers_nonempty i deadline ext budget chunks : delivers i deadline ext budget chunks -> Forall (fun c => c <> []) chunks.
Proof. intros H. apply Forall_lookup. intros k c Hk. by apply (H k c). Qed.

Lemma completes_count tail received chunks :
  completes tail received chunks -> Forall (fun c => c <> []) chunks ->
  (length received + length chunks <= length frame)%nat.
Proof.
  induction 1 as [received chunk Hl He|received chunk chunks Hl Hc IH]; intros Hf; cbn [length]; [lia|].
  apply Forall_cons in Hf as [Hne Hf]. specialize (IH Hf). rewrite length_app in IH.
  destruct chunk; [done|]. cbn [length] in *. lia.
Qed.

Lemma extract_frame_primary m raw : m_run m = Primary -> extract_frame su m raw = (m, raw, true).
Proof. intros Hm. unfold extract_frame, accepts_forwarded. rewrite Hrun, Hm. simpl. rewrite Hm. done. Qed.

Lemma handle_valid_published m packet raw st :
  su_devices su !! m_index m = Some d -> m_states m !! m_index m = Some st ->
  m_status m = true -> is_enabled st = true -> read_enabled st = true ->
  let m' := handle_valid_packet su drv m packet raw in
  m_cache m' !! (su_port_number su, device_id (dc_config d)) = Some (good_status su d packet raw) /\
  m_rx_pending m' = m_rx_pending m /\ m_time_out_count m' = 0 /\ m_parse_fail_count m' = 0.
Proof.
  intros Hd Hst Hstat Hen Hre. unfold handle_valid_packet. rewrite Hst, Hd, Hstat, Hen, Hre. cbn [negb orb]. cbv zeta.
  match goal with |- context [publish ?x _ _ _] => set (m1 := x) end.
  assert (H1 : m_rx_pending m1 = m_rx_pending m /\ m_time_out_count m1 = 0 /\ m_parse_fail_count m1 = 0) by done.
  clearbody m1. destruct H1 as (<- & H2 & H3). unfold publish. cbn [cache_update m_states set_published].
  destruct (m_states m1 !! _) as [st1|].
  - destruct (should_broadcast _ _ _ _) as [st2 []]; simpl; rewrite lookup_insert_eq; by split_and!.
  - simpl. rewrite lookup_insert_eq. by split_and!.
Qed.

(** C35: A response that arrives in time is accepted and published, however
    the line fragments it: on a primary gateway whose polled device is enabled
    and configured with the frame's length (in either of its two meanings),
    any sequence of non-empty reads before the start and completion deadlines
    that makes up the frame (the last one possibly with stray bytes behind it)
    leads to success, to exactly the decoded values in the cache, to an empty
    receive buffer and to cleared failure counters. *)
Theorem fragmented_response_published m st chunks tail :
  m_run m = Primary -> m_port m = true -> m_status m = true -> m_rx_pending m = [] ->
  su_devices su !! m_index m = Some d -> m_states m !! m_index m = Some st ->
  is_enabled st = true -> read_enabled st = true -> length_agrees d status ->
  completes tail [] chunks ->
  delivers (S (m_calls m)) (drv_clock drv (m_calls m) + lc_read_timeout (su_line su)) false
    (response_completion_budget (su_devices su) (m_index m) (lc_baud_rate (su_line su))) chunks ->
  exists m', receive_data_attempt su drv m = Some (m', Success) /\
    m_cache m' !! (su_port_number su, device_id (dc_config d)) =
      Some (good_status su d (packet_of addr cmd status) frame) /\
    m_rx_pending m' = [] /\ m_time_out_count m' = 0 /\ m_parse_fail_count m' = 0.
Proof.
  intros Hm Hp Hstat Hrx Hd Hst Hen Hre Hlen Hc Hdel.
  pose proof (completes_count _ _ _ Hc (delivers_nonempty _ _ _ _ _ Hdel)) as Hcount.
  change (length (@nil Z)) with 0%nat in Hcount.
  unfold receive_data_attempt. rewrite Hp, Hrx. cbn [negb].
  rewrite (read_loop_collects tail [] chunks Hc); [|done..|lia]. cbn [mbind option_bind].
  match goal with |- context [accept_raw_frame su drv ?x _] => set (m1 := x) end.
  assert (Hf : exists b raw, frame = b :: raw) by (eexists _, _; reflexivity). destruct Hf as (b & raw & Hf). rewrite Hf.
  unfold accept_raw_frame. rewrite (extract_frame_primary m1) by exact Hm. cbn [negb].
  rewrite <- Hf, parse_encode_packet. eexists. split; [done|].
  replace (m_run m1) with Primary by (symmetry; exact Hm).
  by apply (handle_valid_published (rx_clear m1) _ _ st).
Qed.
End Fragments.

(** ** Suppression of repeated broadcasts *)

Section Broadcasts.

(** What one publication offers: the compared data and the two status bits. *)
Definition Offer := (list Z * bool * bool)%type.

Definition offer_step (acc : DeviceRuntimeState * list (Offer * bool)) (o : Offer)
    : DeviceRuntimeState * list (Offer * bool) :=
  let '(st, yes) := should_broadcast acc.1 o.1.1 o.1.2 o.2 in (st, acc.2 ++ [(o, yes)]).
(** The decisions for a sequence of offers to a device. *)
Definition offers (st : DeviceRuntimeState) (os : list Offer) : DeviceRuntimeState * list (Offer * bool) :=
  foldl offer_step (st, []) os.

(** What a subscriber sees: the last offer that was broadcast. *)
Definition subscriber_view (decisions : list (Offer * bool)) : option Offer :=
  fst <$> last (filter (fun od => od.2 = true) decisions).

(** Offers since the last broadcast. *)
Fixpoint quiet_tail (rev_decisions : list (Offer * bool)) : nat :=
  match rev_decisions with (_, false) :: l => S (quiet_tail l) | _ => 0%nat end.

Lemma offers_snoc st os o :
  offers st (os ++ [o]) = offer_step (offers st os) o.
Proof. unfold offers. by rewrite foldl_app. Qed.

(** The device's record against the decisions so far. *)
Record suppression_ok (st : DeviceRuntimeState) (os : list Offer) (ds : list (Offer * bool)) : Prop := {
  sup_offers : fst <$> ds = os;
  sup_view : subscriber_view ds = last os;
  sup_record : forall o, last os = Some o ->
    last_data st = o.1.1 /\ last_com_status st = Some o.1.2 /\ last_device_status st = Some o.2;
  sup_fresh : os = [] -> last_com_status st = None;
  sup_quiet : Z.of_nat (quiet_tail (reverse ds)) = same_count st;
  sup_bound : 0 <= same_count st < SAME_DATA_BROADCAST
}.

Lemma view_snoc ds o (yes : bool) :
  subscriber_view (ds ++ [(o, yes)]) = if yes then Some o else subscriber_view ds.
Proof.
  unfold subscriber_view. rewrite filter_app, filter_cons. destruct yes.
  - by rewrite decide_True, filter_nil, last_snoc.
  - by rewrite decide_False, filter_nil, app_nil_r.
Qed.

Lemma suppression_step st os ds o :
  suppression_ok st os ds ->
  suppression_ok (offer_step (st, ds) o).1 (os ++ [o]) (offer_step (st, ds) o).2.
Proof.
  intros [Ho Hv Hr Hf Hq Hb]. destruct o as [[data com] dev]. unfold offer_step, should_broadcast. cbn [fst snd].
  destruct (bool_decide (data = last_data st) && _) eqn:Hsame.
  - assert (Hlast : last os = Some (data, com, dev)).
    { rewrite andb_true_iff, negb_true_iff, orb_false_iff, !negb_false_iff, !bool_decide_eq_true in Hsame.
      destruct Hsame as (Hd & Hc & Hdv). destruct (last os) as [[[d0 c0] v0]|] eqn:El.
      - destruct (Hr _ eq_refl) as (Hr1 & Hr2 & Hr3). cbn [fst snd] in *. rewrite Hr1 in Hd. rewrite Hr2 in Hc.
        rewrite Hr3 in Hdv. by simplify_eq.
      - apply last_None in El. rewrite Hf in Hc by done. done. }
    destruct (Hr _ Hlast) as (H1 & H2 & H3).
    destruct (Z.leb_spec SAME_DATA_BROADCAST (same_count st + 1)); constructor; simpl;
      rewrite ?fmap_app, ?view_snoc, ?last_snoc, ?reverse_snoc; simpl; try congruence;
      try (by intros o [= <-]); try (by intros []%app_nil); unfold SAME_DATA_BROADCAST in *; first [lia|by rewrite Hv].
  - constructor; simpl; rewrite ?fmap_app, ?view_snoc, ?last_snoc, ?reverse_snoc; simpl; try congruence;
      try (by intros o [= <-]); try (by intros []%app_nil); unfold SAME_DATA_BROADCAST in *; lia.
Qed.

(** Suppressing repeated data hides nothing.  After any sequence of
    publications to a device, the last broadcast is the last publication (same
    data and status bits), so a subscriber's view is current; and fewer than
    ten publications pass without a broadcast. *)
Theorem broadcasts_current os :
  let ds := (offers device_runtime_new os).2 in
  fst <$> ds = os /\ subscriber_view ds = last os /\
  (Z.of_nat (quiet_tail (reverse ds)) < SAME_DATA_BROADCAST).
Proof.
  assert (H : suppression_ok (offers device_runtime_new os).1 os (offers device_runtime_new os).2).
  { induction os as [|o os IH] using rev_ind; [by constructor|].
    rewrite offers_snoc. destruct (offers device_runtime_new os) as [st ds]. by apply suppression_step. }
  cbv zeta. destruct (offers device_runtime_new os) as [st ds]. destruct H as [? ? ? ? Hq ?].
  cbn [snd] in *. split_and!; [done|done|]. rewrite Hq. tauto.
Qed.
End Broadcasts.

(** ** Failover *)

Section Failover.
Context (su : Setup) (drv : Driver).

(** The role and the consecutive port failures are untouched. *)
Record same_duty (m m' : Manager) : Prop := {
  sd_run : m_run m' = m_run m;
  sd_count : m_time_out_count m' = m_time_out_count m
}.

#[local] Instance same_duty_preorder : PreOrder same_duty.
Proof. split; [by constructor|]. intros a b c [] []. constructor; congruence. Qed.

Lemma duty_publish m i k s : same_duty m (publish m i k s).
Proof.
  unfold publish. cbn [cache_update m_states set_published]. destruct (m_states m !! i); [|done].
  by destruct (should_broadcast _ _ _ _) as [st []].
Qed.

Lemma duty_send_zero m i com dev : same_duty m (send_zero_status_for_index su m i com dev).
Proof. unfold send_zero_status_for_index. destruct (su_devices su !! i); [apply duty_publish|done]. Qed.

Lemma duty_publish_all m : same_duty m (publish_all_offline su m).
Proof.
  unfold publish_all_offline. generalize (seq 0 (length (su_devices su))). intros l. revert m.
  induction l as [|i l IH]; intros m; simpl; [done|]. etrans; [apply duty_send_zero|apply IH].
Qed.

Lemma duty_publish_once m : same_duty m (publish_port_offline_once su m).
Proof.
  unfold publish_port_offline_once. destruct (m_offline_published m); [done|].
  etrans; [|apply duty_publish_all]. by constructor.
Qed.

Lemma duty_reconnect m : same_duty m (reconnect su drv m).
Proof.
  unfold reconnect. destruct (m_status m); simpl; [|by constructor].
  etrans; [apply duty_publish_once|]. generalize (publish_port_offline_once su m). intros m1.
  case_match; [by constructor|]. case_match; by constructor.
Qed.

Lemma duty_lost m : same_duty m (reconnect su drv (rx_clear (close_port m))).
Proof. etrans; [|apply duty_reconnect]. by constructor. Qed.

Lemma duty_send_command fuel m command m' b :
  send_command su drv fuel m command = Some (m', b) -> same_duty m m'.
Proof.
  unfold send_command. destruct (transmit_frame _ _ _ _ _ _ _) as [[[calls wire] t]|]; [|done]. simpl.
  assert (Hu : same_duty m (used m calls wire)) by (by constructor).
  destruct t as [|er|]; intros [= <- <-]; [done| |done]. etrans; [exact Hu|].
  destruct er; try apply duty_lost; apply duty_reconnect.
Qed.

Lemma duty_read_loop fuel m deadline ext budget m' ending :
  read_loop su drv fuel m deadline ext budget = Some (m', ending) -> same_duty m m'.
Proof.
  revert m deadline ext. induction fuel as [|fuel IH]; intros m deadline ext; [done|]. cbn [read_loop].
  destruct (complete_frame_len _ _ _ _) as [n|]; [intros [= <- <-]; by constructor|].
  set (candidate := is_complete_short_direct_candidate _ _ _).
  set (m1 := if candidate then used m (S (m_calls m)) [] else m).
  assert (H1 : same_duty m m1) by (unfold m1; destruct candidate; by constructor). clearbody m1.
  destruct (candidate && _); [intros [= <- <-]; etrans; [exact H1|by constructor]|].
  destruct (_ <=? _)%nat; [intros [= <- <-]; etrans; [exact H1|by constructor]|].
  set (m2 := used m1 (S (m_calls m1)) []).
  assert (H2 : same_duty m m2) by (etrans; [exact H1|by constructor]). clearbody m2.
  destruct (read_before_deadline _ _ _) as [[|b chunk]|er].
  - destruct (m_rx_pending m2); intros [= <- <-]; [done|]. etrans; [exact H2|by constructor].
  - intros H. etrans; [exact H2|]. etrans; [|by eapply IH]. by constructor.
  - destruct er; try (intros [= <- <-]; etrans; [exact H2|apply duty_lost]).
    destruct (m_rx_pending m2); intros [= <- <-]; [done|]. etrans; [exact H2|by constructor].
Qed.

(** What one step may do to the role: nothing on a gateway configured as
    primary; a standby takes over only at the failure threshold. *)
Definition duty_ok (m m' : Manager) : Prop :=
  (su_run_on su = Primary -> m_run m' = m_run m) /\
  (m_run m = Secondary -> m_run m' = Primary ->
   su_run_on su = Secondary /\ PORT_FAILOVER_TIMEOUT <= m_time_out_count m).

Lemma duty_ok_same m m' : same_duty m m' -> duty_ok m m'.
Proof. intros [Hr _]. split; [done|]. congruence. Qed.

Lemma duty_ok_after m m1 m2 : same_duty m m1 -> duty_ok m1 m2 -> duty_ok m m2.
Proof. intros [Hr Hc] [H1 H2]. rewrite Hr, Hc in *. by split. Qed.

(** A step that begins with a failed count of one more than the state's. *)
Lemma duty_failure m m1 :
  m_run m1 = m_run m -> m_time_out_count m1 <= m_time_out_count m + 1 ->
  duty_ok m (if (PORT_FAILOVER_TIMEOUT <? m_time_out_count m1) && bool_decide (m_run m1 = Secondary)
               && bool_decide (su_run_on su = Secondary)
             then switch_role m1 Primary else m1).
Proof.
  intros Hr Hc. destruct (_ && _) eqn:E; [|split; [done|congruence]].
  rewrite !andb_true_iff, !bool_decide_eq_true, Z.ltb_lt in E. destruct E as [[Hlt _] Hon].
  unfold duty_ok, PORT_FAILOVER_TIMEOUT in *. split; [congruence|]. intros _ _. split; [done|lia].
Qed.

Lemma duty_device_failure m kind now com : duty_ok m (handle_device_failure su m kind now com).
Proof.
  unfold handle_device_failure. cbv zeta.
  match goal with |- context [send_zero_status su ?x com false] => set (m1 := x) end.
  destruct (duty_send_zero m1 (m_index m1) com false) as [Hr Hc]. apply duty_failure; unfold send_zero_status.
  - by rewrite Hr.
  - rewrite Hc. simpl. lia.
Qed.

Lemma duty_commit m f com : duty_ok m (commit_query_failure_with_com_status su drv m f com).
Proof.
  destruct f as [|reason frame]; simpl; [apply duty_device_failure|].
  unfold handle_invalid_frame_with_context. cbv zeta.
  match goal with |- context [handle_device_failure su ?x ?k ?n com] => set (m1 := x);
    pose proof (duty_device_failure m1 k n com) as H end.
  assert (H1 : same_duty m m1) by (by constructor). apply (duty_ok_after _ _ _ H1) in H.
  case_match eqn:E; [|done]. rewrite !andb_true_iff, !bool_decide_eq_true in E. destruct E as [_ Hon].
  split; [congruence|done].
Qed.

Lemma duty_ok_trans m m1 m2 :
  duty_ok m m1 -> (m_run m = Secondary -> same_duty m m1) -> duty_ok m1 m2 -> duty_ok m m2.
Proof.
  intros [H1 _] Hs H2. destruct (m_run m) eqn:E; [|by eapply duty_ok_after; [apply Hs|]].
  split; [|congruence]. intros Hp. destruct H2 as [H2 _]. rewrite H2 by done. rewrite H1 by done. congruence.
Qed.

Lemma duty_extract m raw m' frame att :
  extract_frame su m raw = (m', frame, att) -> duty_ok m m' /\ (m_run m = Secondary -> same_duty m m').
Proof.
  unfold extract_frame. match goal with |- context [is_some ?f] => generalize f as fwd; intros fwd end.
  destruct (bool_decide (m_run m = Primary) && bool_decide (su_run_on su = Secondary) && is_some fwd) eqn:E.
  - rewrite !andb_true_iff, !bool_decide_eq_true in E. destruct E as [[Hr Hon] _]. simpl.
    assert (H : m_run m' = Secondary -> duty_ok m m' /\ (m_run m = Secondary -> same_duty m m'))
      by (intros H; split; [split; congruence|congruence]).
    destruct fwd as [[ds i]|]; intros [= <- _ _]; by apply H.
  - clear E. assert (H : same_duty m m' -> duty_ok m m' /\ (m_run m = Secondary -> same_duty m m')).
    { intros H. split; [by apply duty_ok_same|done]. }
    destruct (m_run m) eqn:Er; [intros [= <- _ _]; by apply H|].
    destruct fwd as [[ds i]|]; intros [= <- _ _]; apply H; by constructor.
Qed.

Lemma duty_valid m packet frame : m_run (handle_valid_packet su drv m packet frame) = m_run m.
Proof.
  unfold handle_valid_packet. destruct (m_states m !! _); [|done]. destruct (su_devices su !! _); [|done].
  destruct (_ || _); [by destruct (duty_send_zero m (m_index m) (m_status m && m_port m) false)|]. cbv zeta.
  match goal with |- m_run (publish ?x ?i ?k ?s) = _ => destruct (duty_publish x i k s) as [-> _] end. done.
Qed.

Lemma duty_unattributed m : duty_ok m (handle_unattributed_frame su drv m).
Proof. unfold handle_unattributed_frame. cbv zeta. apply duty_failure; [done|simpl; lia]. Qed.

Lemma duty_attempt m m' o :
  receive_data_attempt su drv m = Some (m', o) -> duty_ok m m' /\
  (forall f, o = Retryable f -> m_run m = Secondary -> same_duty m m').
Proof.
  unfold receive_data_attempt. destruct (m_port m); cbn [negb].
  2: { intros [= <- <-]. split; [|done]. apply duty_ok_same, duty_reconnect. }
  destruct (read_loop _ _ _ _ _ _ _) as [[m1 ending]|] eqn:E; [|done]. cbn [mbind option_bind].
  assert (H1 : same_duty m m1) by (etrans; [|by eapply duty_read_loop]; by constructor). clear E.
  destruct ending as [[|b raw]| |]; try (intros [= <- <-]; split; [by apply duty_ok_same|done]).
  unfold accept_raw_frame. destruct (extract_frame su m1 (b :: raw)) as [[m2 frame] att] eqn:E. apply duty_extract in E as [Hd Hs].
  set (m3 := match m_run m2 with Primary => rx_clear m2 | Secondary => m2 end).
  assert (H3 : same_duty m2 m3) by (unfold m3; destruct (m_run m2); by constructor). clearbody m3.
  assert (H13 : duty_ok m m3).
  { apply (duty_ok_after _ m1); [done|]. eapply duty_ok_trans; [exact Hd|exact Hs|by apply duty_ok_same]. }
  assert (Hs3 : m_run m = Secondary -> same_duty m m3).
  { intros Hr. etrans; [exact H1|]. etrans; [|exact H3]. apply Hs. by rewrite (sd_run _ _ H1). }
  destruct att; cbn [negb].
  - destruct (parse_data_packet frame) as [packet|reason]; intros [= <- <-]; [|done].
    split; [|done]. destruct H13 as [Ha Hb]. split; [|intros Hr]; rewrite duty_valid; [done|by apply Hb].
  - intros [= <- <-]. split; [|done]. eapply duty_ok_trans; [exact H13|exact Hs3|apply duty_unattributed].
Qed.

Lemma duty_receive m m' : receive_data su drv m = Some m' -> duty_ok m m'.
Proof.
  unfold receive_data. destruct (receive_data_attempt su drv m) as [[m1 o]|] eqn:E; [|done]. simpl.
  apply duty_attempt in E as [Hd Hs]. intros [= <-]. destruct o as [|f| |]; try done.
  eapply duty_ok_trans; [exact Hd|by eapply Hs|apply duty_commit].
Qed.

Lemma duty_query fuel m query retry m' :
  receive_query_with_retry su drv fuel m query retry = Some m' -> duty_ok m m'.
Proof.
  unfold receive_query_with_retry. destruct (su_devices su !! m_index m); [|intros [= <-]; by apply duty_ok_same].
  destruct (receive_data_attempt su drv m) as [[m1 o]|] eqn:E; [|done]. apply duty_attempt in E as [Hd Hs].
  cbn [mbind option_bind]. destruct o as [|f| |]; try (by intros [= <-]). specialize (Hs f eq_refl).
  assert (Hc : duty_ok m (commit_query_failure su drv m1 f)) by (eapply duty_ok_trans; [exact Hd|exact Hs|apply duty_commit]).
  destruct (retry =? 0); [by intros [= <-]|]. destruct (_ || _) eqn:Ep; [by intros [= <-]|].
  rewrite orb_false_iff, !negb_false_iff, bool_decide_eq_true in Ep. destruct Ep as [Hp1 _].
  assert (Hp : m_run m = Primary) by (destruct (m_run m) eqn:E0; [done|]; destruct (Hs eq_refl); congruence).
  destruct (send_command su drv fuel (rx_clear m1) query) as [[m2 sent]|] eqn:E2; [|done]. cbn [mbind option_bind].
  apply duty_send_command in E2. assert (Hd2 : duty_ok m m2).
  { eapply duty_ok_trans; [exact Hd|exact Hs|]. apply duty_ok_same. etrans; [|exact E2]. by constructor. }
  assert (Hx : forall m', duty_ok m2 m' -> duty_ok m m') by (intros m0 H0; eapply duty_ok_trans; [exact Hd2|intros; congruence|exact H0]).
  destruct sent; cbn [negb]; [|intros [= <-]; apply Hx, duty_commit].
  destruct (receive_data_attempt su drv m2) as [[m3 o]|] eqn:E3; [|done]. apply duty_attempt in E3 as [Hd3 _].
  assert (Hy : forall m', duty_ok m3 m' -> duty_ok m m') by (intros m0 H0; eapply duty_ok_trans; [by apply Hx|intros; congruence|exact H0]).
  cbn [mbind option_bind]. intros [= <-]. destruct o as [|f3| |]; [|apply Hy, duty_commit|by apply Hx|by apply Hx].
  case_match; [|by apply Hx]. apply Hy. by apply duty_ok_same.
Qed.

(** Failover is guarded.  No operation of the worker changes the role of a
    gateway configured as primary; one configured as standby takes over only
    when the port has already failed twenty times in a row. *)
Theorem failover_guarded m m' :
  acq_step su drv m m' ->
  (su_run_on su = Primary -> m_run m' = m_run m) /\
  (m_run m = Secondary -> m_run m' = Primary ->
   su_run_on su = Secondary /\ PORT_FAILOVER_TIMEOUT <= m_time_out_count m).
Proof.
  intros Hs. change (duty_ok m m').
  destruct Hs as [fuel m query m1 H|fuel m query retry m1 m2 H H2|m m1 H|fuel m command m1 b H|m m1 r H| | | |m|m].
  - apply duty_ok_same. apply duty_send_command in H. etrans; [|exact H]. by constructor.
  - apply duty_send_command in H. eapply duty_ok_after; [|by eapply duty_query]. etrans; [|exact H]. by constructor.
  - by apply duty_receive.
  - by apply duty_ok_same, (duty_send_command fuel _ command _ b).
  - apply duty_ok_same. revert H. unfold receive_command_ack_result. destruct (m_port m); cbn [negb].
    + destruct (ack_loop _ _ _ _ _ _) as [[[calls received] rr]|]; [|done]. cbn [mbind option_bind].
      destruct rr as [[]|]; intros [= <- _]; try (by constructor). etrans; [|apply duty_lost]. by constructor.
    + intros [= <- _]. apply duty_reconnect.
  - apply duty_ok_same. unfold set_port_enabled. destruct enabled; cbn [negb fst].
    + simpl. destruct (m_port m); [by constructor|]. etrans; [|apply duty_reconnect]. by constructor.
    + unfold publish_port_disabled. etrans; [|apply duty_publish_all]. by constructor.
  - apply duty_ok_same. unfold set_device_read_enabled. destruct (position su id) as [i|]; [|done]. cbn [fst].
    set (m1 := alter_state _ i m). destruct enabled; [|etrans; [|apply duty_send_zero]; by constructor].
    pose proof (duty_send_zero m1 i (m_port m1) false) as [Hr Hc]. by constructor.
  - apply duty_ok_same. unfold set_device_enabled. cbv zeta. case_match; [|by constructor].
    unfold publish_device_disabled. destruct (su_devices su !! i); [|by constructor].
    etrans; [|apply duty_send_zero]. by constructor.
  - apply duty_ok_same. etrans; [|apply duty_reconnect]. unfold prepare_worker_restart.
    etrans; [|apply duty_publish_once]. by constructor.
  - apply duty_ok_same. by constructor.
Qed.
End Failover.

(** ** Witnesses *)

(** A device with one status byte; its response arrives in two reads, the
    second with a stray byte behind it. *)
Definition toy_device : DeviceConfig :=
  {| dc_config := {| com := "COM3"; baud_rate := 9600; is_special := true; com_index := 1; device_id := 25;
                     data_len := 2; kks_prefix := "" |};
     dc_records := [] |}.
Definition toy_setup (run_on : RunLocation) : Setup :=
  {| su_port_number := "COM3"; su_special := true; su_line := toy_line; su_devices := [toy_device];
     su_run_on := run_on; su_read_buf := 16 |}.
Definition toy_chunks : list (list Z) := [[25; 8; 1]; [7; 9; 50; 99]].
Definition toy_reader : Driver :=
  {| drv_read := fun i =>
       {| call_now := Z.of_nat i; call_set_timeout := true;
          call_transfer := match toy_chunks !! (i - 2)%nat with Some c => Ok c | None => Err TimedOut end;
          call_restore := true; call_after := Z.of_nat i |};
     drv_write := drv_write toy_driver; drv_set_parity := drv_set_parity toy_driver; drv_clock := Z.of_nat;
     drv_bytes_to_write := drv_bytes_to_write toy_driver; drv_bytes_to_read := drv_bytes_to_read toy_driver;
     drv_open := drv_open toy_driver |}.

Lemma toy_writes i : call_transfer (drv_write toy_reader i) <> Err NotConnected.
Proof. done. Qed.

Lemma acquisition_never_stale_witness :
  let m := (set_port_enabled (toy_setup Primary) toy_reader (new_manager (toy_setup Primary) toy_reader true Primary) false).1 in
  reachable (toy_setup Primary) toy_reader true Primary m /\ m_port m = false /\ all_offline (toy_setup Primary) m.
Proof.
  intros m. assert (Hr : reachable (toy_setup Primary) toy_reader true Primary m).
  { eapply reach_step; [apply reach_new|apply step_port]. }
  split; [exact Hr|]. split; [reflexivity|].
  apply (acquisition_never_stale (toy_setup Primary) toy_reader true Primary m); [done|exact Hr|exact toy_writes|reflexivity].
Defined.

Lemma fragmented_response_published_witness :
  exists m', receive_data_attempt (toy_setup Primary) toy_reader (new_manager (toy_setup Primary) toy_reader true Primary) =
      Some (m', Success) /\
    m_cache m' !! ("COM3", 25) =
      Some (good_status (toy_setup Primary) toy_device (packet_of 25 8 [7; 9]) [25; 8; 1; 7; 9; 50]).
Proof.
  assert (Hc : completes 25 8 [7; 9] [99] [] toy_chunks).
  { apply completes_more; [vm_compute; lia|]. apply completes_last; [vm_compute; lia|reflexivity]. }
  destruct (fragmented_response_published (toy_setup Primary) toy_reader toy_device 25 8 [7; 9]
              eq_refl ltac:(done) ltac:(vm_compute; lia)
              (new_manager (toy_setup Primary) toy_reader true Primary) device_runtime_new toy_chunks [99])
    as (m' & H1 & H2 & _); try reflexivity; [by left|exact Hc| |by exists m'].
  intros k chunk Hk. destruct k as [|[|k]]; [| |done]; injection Hk as <-; split_and!; try done; vm_compute; lia.
Defined.

(** Twenty-one empty reads in a row on a standby. *)
Definition toy_standby : Manager :=
  set_role (new_manager (toy_setup Secondary) toy_driver true Secondary) 0 Secondary 20 0.

Lemma failover_guarded_witness :
  exists m', acq_step (toy_setup Secondary) toy_driver toy_standby m' /\ m_run m' = Primary /\
    PORT_FAILOVER_TIMEOUT <= m_time_out_count toy_standby.
Proof.
  destruct (receive_data (toy_setup Secondary) toy_driver toy_standby) as [m'|] eqn:E; [|exfalso; by vm_compute in E].
  assert (Hs : acq_step (toy_setup Secondary) toy_driver toy_standby m') by (by apply step_listen).
  assert (Hr : m_run m' = Primary).
  { assert (H : m_run <$> Some m' = Some Primary) by (rewrite <- E; vm_compute; reflexivity). by injection H. }
  exists m'. split; [exact Hs|]. split; [exact Hr|].
  by apply (failover_guarded (toy_setup Secondary) toy_driver toy_standby m' Hs).
Defined.
