(* ===== verification/CommModel.v ===== *)
(** * Data of the forwarding process (src/communicate/src/config.rs, points.rs, synchronization.rs)

    The configuration records, the point values with their qualities, and the
    text helpers they share.  Paths and addresses are text; counts that index
    memory are [nat], the other numbers [Z].  Instants are nanoseconds, wall
    clock times are the numbers the clock returns. *)

From stdpp Require Export pretty.
From S2P Require Import Prelude RustFloat RustStr.
Open Scope string_scope.
Open Scope Z_scope.
Open Scope list_scope.

(** ** Point values (points.rs) *)

Inductive DataType := DBoolean | DUInt32 | DFloat | DDouble | DString.

#[export] Instance data_type_eq_dec : EqDecision DataType.
Proof. solve_decision. Defined.

Inductive PValue :=
| PBoolean (b : bool)
| PUInt32 (n : Z)
| PFloat (f : f64)
| PDouble (f : f64)
| PString (s : string).

#[export] Instance pvalue_eq_dec : EqDecision PValue.
Proof.
  intros a b. unfold Decision. decide equality; try apply Z.eq_dec; try apply String.string_dec; try apply bool_dec.
  all: repeat (decide equality).
Defined.

Definition zero (t : DataType) : PValue :=
  match t with
  | DBoolean => PBoolean false
  | DUInt32 => PUInt32 0
  | DFloat => PFloat f64_zero
  | DDouble => PDouble f64_zero
  | DString => PString ""
  end.

Definition value_type (v : PValue) : DataType :=
  match v with
  | PBoolean _ => DBoolean
  | PUInt32 _ => DUInt32
  | PFloat _ => DFloat
  | PDouble _ => DDouble
  | PString _ => DString
  end.

Definition value_valid (v : PValue) : bool :=
  match v with
  | PFloat f | PDouble f => f64_is_finite f
  | PString s => (String.length s <=? 16 * 1024)%nat
  | _ => true
  end.

Inductive Quality := Good | Waiting | NoCommunication | Configuration | OutOfService.

#[export] Instance quality_eq_dec : EqDecision Quality.
Proof. solve_decision. Defined.

Record Sample := {
  s_value : PValue;
  s_quality : Quality;
  s_source_timestamp : option Z;
  s_error : string
}.

Record PointUpdate := {
  u_name : string;
  u_value : PValue;
  u_quality : Quality;
  u_error : string
}.

#[export] Instance sample_eq_dec : EqDecision Sample.
Proof. solve_decision. Defined.
#[export] Instance point_update_eq_dec : EqDecision PointUpdate.
Proof. solve_decision. Defined.

(** [value.chars().take(1024).collect()]. *)
Definition short_error (s : string) : string := take_chars 1024 s.

(** ** Configuration (config.rs, synchronization.rs) *)

Record Settings := {
  transmit_enabled : bool;
  transmit_protocol : string;
  send_interval_ms : Z;
  initial_delay_ms : Z;
  idle_gap_ms : Z;
  receive_timeout_ms : Z;
  input_refresh_interval_ms : Z;
  snapshot_max_age_ms : Z
}.

Record TaskConfig := {
  t_id : string;
  t_enabled : bool;
  t_protocol : string;
  t_interval_ms : Z
}.

Inductive LineParity := ParityNone | ParityEven | ParityOdd.

Record PortConfig := {
  p_id : string;
  p_device : string;
  p_enabled : bool;
  p_baud_rate : Z;
  p_data_bits : Z;
  p_parity : LineParity;
  p_stop_bits : Z;
  p_first_byte_timeout_ms : Z;
  p_frame_timeout_ms : Z;
  p_write_timeout_ms : Z;
  p_late_frame_guard_ms : Z;
  p_reconnect_min_ms : Z;
  p_reconnect_max_ms : Z;
  p_max_frame_bytes : nat;
  p_max_payload_bytes : nat;
  p_tasks : list TaskConfig;
  p_synchronization : option Settings
}.

Record PointDefinition := {
  d_name : string;
  d_task_id : string;
  d_data_type : DataType;
  d_description : string
}.

Record OpcConfig := {
  o_bind_ip : string;
  o_advertised_host : string;
  o_port : Z;
  o_allow_anonymous_none : bool;
  o_allow_anonymous_secure : bool;
  o_trust_client_certificates : bool
}.

Record CommConfig := {
  c_schema_version : Z;
  c_instance_id : string;
  c_points_file : string;
  c_opc : OpcConfig;
  c_ports : list PortConfig
}.

(** ** Lemmas *)

Lemma zero_type t : value_type (zero t) = t.
Proof. by destruct t. Qed.

Lemma zero_valid t : value_valid (zero t) = true.
Proof. by destruct t. Qed.
#[export] Hint Rewrite zero_type zero_valid : rcd.

Example short_error_keeps : short_error "serial closed" = "serial closed".
Proof. done. Qed.
