(* ===== verification/UnitReport.v ===== *)
(** * Unit-to-unit snapshots (src/communicate/src/unit_report.rs, protocol.rs)

    The two fixed payload layouts, the decoding of a received snapshot into
    point updates, the writing of transmit inputs into an outgoing payload,
    and the check of a point table against the layouts.  Errors are the
    messages of the source. *)

From S2P Require Import Prelude RustFloat RustStr Model Csv Protocol CommModel.
Open Scope string_scope.
Open Scope Z_scope.
Open Scope list_scope.

(** ** Layouts *)

Definition UNIT1_BUILDINGS : list string := [
  "11UBE"; "11UBF"; "11UBN"; "11UBR"; "11UBS"; "11UBT"; "11UBU"; "11UBZ"; "11UCB"; "11UJA";
  "11UJE"; "11UJG"; "11UJZ"; "11UKA"; "11UKC"; "11UKD"; "11UKT"; "11UMA"; "11UMZ"; "11UQA";
  "11UQB"; "11USG"; "11USP"; "11USZ"; "11UYZ"; "12UBE"; "12UBF"; "12UBT"; "12UBZ"; "13UBF";
  "13UBZ"; "14UBZ"; "1JME34"; "1JMF10"; "1JMF34"].
Definition UNIT9_BUILDINGS : list string := [
  "91UBH"; "91UGM"; "91UGQ"; "91UKT"; "91UKZ"; "91UYA"; "91UZD"; "11UGS"; "12UGS"; "13UGS";
  "91UYZ"].

Inductive Layout := Unit1To9 | Unit9To1.

#[export] Instance layout_eq_dec : EqDecision Layout.
Proof. solve_decision. Defined.

Inductive Kind := Unsigned | Hex | Fire.

#[export] Instance kind_eq_dec : EqDecision Kind.
Proof. solve_decision. Defined.

Record Field := {
  f_name : string;
  f_offset : nat;
  f_len : nat;
  f_kind : Kind
}.

Definition new_field (name : string) (offset len : nat) (kind : Kind) : Field :=
  {| f_name := name; f_offset := offset; f_len := len; f_kind := kind |}.

Definition from_protocol (name : string) : option Layout :=
  if String.eqb name "unit1-to9-v1" then Some Unit1To9
  else if String.eqb name "unit9-to1-v1" then Some Unit9To1
  else None.

Definition payload_len (l : Layout) : nat :=
  match l with Unit1To9 => 1156 | Unit9To1 => 105 end.

Definition block (l : Layout) : Z :=
  match l with Unit1To9 => 1 | Unit9To1 => 9 end.

Definition fields (l : Layout) : list Field :=
  let header := new_field "Header.nBlock.z" 0 2 Unsigned in
  let '(rest, buildings, offset) :=
    match l with
    | Unit1To9 =>
        ([new_field "Header.detectorTemp3" 2 1 Unsigned;
          new_field "Header.detectorTemp6" 3 1 Unsigned;
          new_field "AKONs.1CYE18GH204.HW" 4 969 Hex;
          new_field "PumpStationCtrl" 973 8 Hex], UNIT1_BUILDINGS, 981%nat)
    | Unit9To1 =>
        ([new_field "AES.SGC85.State" 2 5 Hex;
          new_field "AES.GMM1" 7 35 Hex;
          new_field "PumpStationCtrl[0]" 42 8 Hex], UNIT9_BUILDINGS, 50%nat)
    end in
  header :: rest ++
    ((fun '(i, building) =>
        new_field ("Buildings." +:+ building +:+ ".Fire") (offset + i * 5) 5 Fire) <$> enumerate buildings).

Definition transmit_fields (l : Layout) : list Field :=
  filter (fun f => f_name f <> "Header.nBlock.z") (fields l).

(** ** Fire states *)

Definition FIRE_DESCRIPTION : string :=
  "UInt32：0=未知（仅接收）；1=正常；2=红色报警；3=红色报警闪；4=黄色报警；5=黄色报警闪；6=故障报警；7=故障报警闪；8=闭锁。故障细因不能由现有报文区分。发送只接受1..8。".

Definition FIRE_STATES : list (Z * string * list Z) := [
  (1, "正常", [0x0a; 0x85; 0; 6; 0]);
  (2, "红色报警", [1; 0x88; 0; 7; 0]);
  (3, "红色报警闪", [1; 0xc8; 0; 7; 0]);
  (4, "黄色报警", [5; 0x86; 0; 0x0c; 0]);
  (5, "黄色报警闪", [5; 0xa6; 0; 0x0c; 0]);
  (6, "故障报警（细分原因未定义）", [6; 0x82; 0; 0x12; 0]);
  (7, "故障报警闪（细分原因未定义）", [6; 0xc2; 0; 0x12; 0]);
  (8, "闭锁", [9; 0x85; 0; 4; 0])].

Definition fire_code (bytes : list Z) : Z :=
  match list_find (fun s => s.2 = bytes) FIRE_STATES with Some (_, s) => s.1.1 | None => 0 end.

Definition fire_bytes (c : Z) : option (list Z) :=
  '(_, s) ← list_find (fun s => s.1.1 = c) FIRE_STATES; Some s.2.

Definition fire_state (bytes : list Z) : string :=
  match list_find (fun s => s.2 = bytes) FIRE_STATES with Some (_, s) => s.1.2 | None => "未定义状态" end.

(** ** Point definitions *)

Definition description (f : Field) (direction : string) : string :=
  let meaning :=
    match f_kind f with
    | Fire => FIRE_DESCRIPTION
    | Hex => "String：原始字节的定长十六进制字符串，不加空格"
    | Unsigned => "UInt32：协议原始整数；机组身份由通信方向固定"
    end in
  direction +:+ " DATA." +:+ f_name f +:+ "；载荷偏移 " +:+ pretty (f_offset f) +:+ "，长度 "
  +:+ pretty (f_len f) +:+ "；" +:+ meaning.

Definition data_name (f : Field) : string := "DATA." +:+ f_name f.

Definition field_definition (task direction : string) (f : Field) : PointDefinition :=
  {| d_name := data_name f; d_task_id := task;
     d_data_type := match f_kind f with Unsigned | Fire => DUInt32 | Hex => DString end;
     d_description := description f direction |}.

Definition definitions (l : Layout) (task_id : string) : list PointDefinition :=
  field_definition task_id "接收" <$> fields l.
Definition transmit_definitions (l : Layout) (port : string) : list PointDefinition :=
  field_definition port "发送" <$> transmit_fields l.

(** ** Payloads *)

Definition validate_payload (l : Layout) (payload : list Z) : result string () :=
  if negb (length payload =? payload_len l)%nat
  then Err ("expected " +:+ pretty (payload_len l) +:+ " payload bytes, got " +:+ pretty (length payload))
  else if negb (le_value (take 2 payload) =? block l) then Err "unexpected unit block identity"
  else Ok ().

Definition empty_transmit_payload (l : Layout) : list Z :=
  to_le_bytes 2 (block l) ++ replicate (payload_len l - 2) 0.

Definition bytes_of (f : Field) (payload : list Z) : list Z :=
  slice (f_offset f) (f_offset f + f_len f) payload.

(** [payload[offset..offset + len].copy_from_slice(bytes)]; the lengths agree
    and the range is inside the payload ([input_bytes_length], [fields_tile]). *)
Definition splice (f : Field) (bytes payload : list Z) : list Z :=
  take (f_offset f) payload ++ bytes ++ drop (f_offset f + f_len f) payload.

(** The bytes of an input. *)
Definition input_bytes (f : Field) (value : PValue) : result string (list Z) :=
  match f_kind f, value with
  | Unsigned, PUInt32 v =>
      if v <=? 255 then Ok [v] else Err "input type, range or exact field length mismatch"
  | Fire, PUInt32 v =>
      ok_or "Fire 状态必须为 1..8；0 是接收未知状态，不能发送" (fire_bytes v)
  | Hex, PString v =>
      if (String.length v =? f_len f * 2)%nat && is_ascii v
      then map_err (fun _ => "invalid hexadecimal field") (hex_pairs (list_ascii_of_string v))
      else Err "input type, range or exact field length mismatch"
  | _, _ => Err "input type, range or exact field length mismatch"
  end.

Definition write_transmit_field (l : Layout) (name : string) (value : PValue) (payload : list Z)
    : result string (list Z) :=
  _ ← validate_payload l payload;
  '(_, field) ← ok_or "unknown transmit input"
                  (list_find (fun f => name = data_name f) (transmit_fields l));
  bytes ← input_bytes field value;
  Ok (splice field bytes payload).

Definition value_of (f : Field) (bytes : list Z) : PValue :=
  match f_kind f with
  | Unsigned => PUInt32 (if (length bytes =? 2)%nat then le_value bytes else default 0 (head bytes))
  | Hex => PString (hex bytes)
  | Fire => PUInt32 (fire_code bytes)
  end.

Definition field_update (payload : list Z) (f : Field) : PointUpdate :=
  {| u_name := data_name f; u_value := value_of f (bytes_of f payload);
     u_quality := Good; u_error := "" |}.

Definition decode_report (l : Layout) (payload : list Z) : result string (list PointUpdate) :=
  _ ← validate_payload l payload;
  Ok (field_update payload <$> fields l).

(** ** The protocol adapter ([ReportProtocol], [DeviceProtocol]) *)

Inductive Response :=
| Ignore
| Matched (points : list PointUpdate).

Definition report_response (l : Layout) (payload : list Z) : result string Response :=
  if (length payload <? 2)%nat then Err "missing unit identity"
  else if negb (le_value (take 2 payload) =? block l) then Ok Ignore
  else Matched <$> decode_report l payload.

(** ** The point table ([validate_points]) *)

Definition task_points (task : TaskConfig) (points : list PointDefinition) : list PointDefinition :=
  filter (fun p => d_task_id p = t_id task) points.

Definition same_point (a e : PointDefinition) : bool :=
  String.eqb (d_name a) (d_name e) && bool_decide (d_data_type a = d_data_type e).

Definition validate_task_points (points : list PointDefinition) (task : TaskConfig) : result string () :=
  match from_protocol (t_protocol task) with
  | None => Ok ()
  | Some l =>
      let expected := definitions l (t_id task) in
      let actual := task_points task points in
      if negb (length expected =? length actual)%nat
         || existsb (fun e => negb (existsb (fun a => same_point a e) actual)) expected
      then Err ("task " +:+ t_id task +:+ ": point map must match documented layout "
                +:+ t_protocol task +:+ " (" +:+ pretty (length expected) +:+ " points)")
      else Ok ()
  end.

(** [names.insert(name)] for every name, failing on the first repetition. *)
Fixpoint insert_names (e : string) (new : list string) (names : gset string) : result string (gset string) :=
  match new with
  | [] => Ok names
  | n :: new => if bool_decide (n ∈ names) then Err e else insert_names e new ({[n]} ∪ names)
  end.

Definition SYNC_NODES : list string :=
  ["TransmitSnapshot"; "TransmitStatus"; "InputRefreshIntervalMs"; "InputTimeoutMs"].

Fixpoint validate_all {A} (check : A -> result string ()) (l : list A) : result string () :=
  match l with [] => Ok () | x :: l => _ ← check x; validate_all check l end.

Fixpoint validate_port_points (points : list PointDefinition) (ports : list PortConfig) (names : gset string)
    : result string () :=
  match ports with
  | [] => Ok ()
  | port :: ports =>
      _ ← validate_all (validate_task_points points) (p_tasks port);
      names ← match s ← p_synchronization port; from_protocol (transmit_protocol s) with
              | Some l =>
                  names ← insert_names "原始变量名重复；不同方向/端口不得覆盖同一OPC节点"
                            (d_name <$> transmit_definitions l (p_id port)) names;
                  insert_names "同步辅助节点重复；请将不同同步端口部署为独立实例" SYNC_NODES names
              | None => Ok names
              end;
      validate_port_points points ports names
  end.

Definition validate_points (config : CommConfig) (points : list PointDefinition) : result string () :=
  validate_port_points points (c_ports config) (list_to_set (d_name <$> points)).

Example fire_examples : fire_code [1; 0x88; 0; 7; 0] = 2 /\ fire_code [0; 0; 0; 0; 0] = 0 /\ fire_bytes 0 = None.
Proof. done. Qed.

Example report_lengths : length (fields Unit1To9) = 40%nat /\ length (fields Unit9To1) = 15%nat.
Proof. done. Qed.

(** ** The layouts tile the payload *)

Fixpoint tiles (off : nat) (fs : list Field) (end_ : nat) : bool :=
  match fs with
  | [] => (off =? end_)%nat
  | f :: fs => (f_offset f =? off)%nat && tiles (off + f_len f) fs end_
  end.

Lemma fields_tile l : tiles 0 (fields l) (payload_len l) = true.
Proof. destruct l; vm_compute; reflexivity. Qed.

Lemma field_names l : NoDup (data_name <$> fields l).
Proof. apply (bool_decide_unpack _). destruct l; vm_compute; exact I. Qed.

(** The shape of the transmit inputs: one-byte numbers and five-byte states. *)
Definition input_shape (f : Field) : bool :=
  match f_kind f with
  | Unsigned => (f_len f =? 1)%nat
  | Fire => (f_len f =? 5)%nat
  | Hex => (1 <=? f_len f)%nat
  end && (2 <=? f_offset f)%nat.

Lemma transmit_shapes l : forallb input_shape (transmit_fields l) = true.
Proof. destruct l; vm_compute; reflexivity. Qed.

Lemma elem_of_transmit l f : f ∈ transmit_fields l -> f ∈ fields l /\ input_shape f = true.
Proof.
  intros H. split; [by apply list_elem_of_filter in H as [_ H]|].
  pose proof (transmit_shapes l) as Hs. rewrite forallb_forall in Hs.
  apply Hs, list_elem_of_In. done.
Qed.

Lemma tiles_bounds off fs e f :
  tiles off fs e = true -> f ∈ fs -> (off <= f_offset f /\ f_offset f + f_len f <= e)%nat.
Proof.
  assert (Hend : forall fs off, tiles off fs e = true -> (off <= e)%nat).
  { clear. induction fs as [|g fs IH]; intros off; simpl; [by intros ->%Nat.eqb_eq|].
    intros [_ H%IH]%andb_true_iff. lia. }
  revert off. induction fs as [|g fs IH]; intros off; simpl; [by intros _ ?%elem_of_nil|].
  intros [Ho%Nat.eqb_eq Ht]%andb_true_iff [->|Hf]%elem_of_cons.
  - apply Hend in Ht. lia.
  - apply (IH _ Ht) in Hf. lia.
Qed.

Lemma tiles_disjoint off fs e f g :
  tiles off fs e = true -> f ∈ fs -> g ∈ fs ->
  f = g \/ (f_offset f + f_len f <= f_offset g)%nat \/ (f_offset g + f_len g <= f_offset f)%nat.
Proof.
  revert off. induction fs as [|h fs IH]; intros off; simpl; [by intros _ ?%elem_of_nil|].
  intros [Ho%Nat.eqb_eq Ht]%andb_true_iff [->|Hf]%elem_of_cons [->|Hg]%elem_of_cons; [by left| | |by eapply IH].
  - destruct (tiles_bounds _ _ _ _ Ht Hg). lia.
  - destruct (tiles_bounds _ _ _ _ Ht Hf). lia.
Qed.

Lemma field_disjoint l f g :
  f ∈ fields l -> g ∈ fields l ->
  f = g \/ (f_offset f + f_len f <= f_offset g)%nat \/ (f_offset g + f_len g <= f_offset f)%nat.
Proof. eapply tiles_disjoint, fields_tile. Qed.

Lemma field_range l f : f ∈ fields l -> (f_offset f + f_len f <= payload_len l)%nat.
Proof. intros H. by destruct (tiles_bounds _ _ _ _ (fields_tile l) H). Qed.

(** ** Writing one input *)

Lemma hex_pairs_length n cs bs :
  (length cs = 2 * n)%nat -> hex_pairs cs = Ok bs -> length bs = n.
Proof.
  revert cs bs. induction n as [|n IH]; intros cs bs.
  - destruct cs; [|done]. by intros _ [= <-].
  - intros Hl. destruct cs as [|a [|b cs]]; simpl in Hl; [lia..|]. cbn [hex_pairs]. intros H. inv_result. simpl. f_equal.
    eapply IH; [|done]. lia.
Qed.

Lemma fire_bytes_spec c bs : fire_bytes c = Some bs -> length bs = 5%nat /\ fire_code bs = c.
Proof.
  unfold fire_bytes. destruct (list_find _ _) as [[i s]|] eqn:E; [|done]. simpl. intros [= <-].
  apply list_find_Some in E as (Hs & <- & _). apply list_elem_of_lookup_2 in Hs. clear i.
  revert s Hs. apply Forall_forall. by repeat constructor.
Qed.

Lemma hex_length bs : String.length (hex bs) = (2 * length bs)%nat.
Proof. induction bs as [|b bs IH]; [done|]. rewrite hex_cons. cbn [String.length length]. rewrite IH. lia. Qed.

(** What a written value reads back as: text is normalised to upper case. *)
Definition canonical (v : PValue) : PValue :=
  match v with
  | PString s => match hex_pairs (list_ascii_of_string s) with Ok bs => PString (hex bs) | Err _ => v end
  | _ => v
  end.

Lemma input_bytes_spec f v bs :
  input_shape f = true -> input_bytes f v = Ok bs ->
  length bs = f_len f /\ value_of f bs = canonical v.
Proof.
  unfold input_shape, input_bytes, value_of. rewrite andb_true_iff. intros [Hs _].
  destruct (f_kind f), v as [| n | | |s]; try done; intros H.
  - destruct (n <=? 255); [|done]. injection H as <-. by apply Nat.eqb_eq in Hs as ->.
  - destruct (_ && _) eqn:Hl; [|done]. apply andb_true_iff in Hl as [Hl%Nat.eqb_eq _].
    simpl. destruct (hex_pairs _) as [bs'|] eqn:E; [|done]. injection H as ->. split; [|done].
    eapply hex_pairs_length, E. rewrite <- string_length_chars. lia.
  - inv_result. apply fire_bytes_spec in H as [-> ->]. by apply Nat.eqb_eq in Hs as ->.
Qed.

Lemma bytes_of_splice f bs p :
  length bs = f_len f -> (f_offset f + f_len f <= length p)%nat -> bytes_of f (splice f bs p) = bs.
Proof.
  intros Hb Hp. unfold bytes_of, splice.
  pose proof (slice_app_prefix (take (f_offset f) p) bs (drop (f_offset f + f_len f) p)) as H.
  by rewrite length_take_le, Hb in H by lia.
Qed.

Lemma length_splice f bs p :
  length bs = f_len f -> (f_offset f + f_len f <= length p)%nat -> length (splice f bs p) = length p.
Proof. intros Hb Hp. unfold splice. rewrite !length_app, length_take, length_drop. lia. Qed.

Lemma lookup_splice_other f bs p i :
  length bs = f_len f -> (f_offset f + f_len f <= length p)%nat ->
  (i < f_offset f \/ f_offset f + f_len f <= i)%nat -> splice f bs p !! i = p !! i.
Proof.
  intros Hb Hp Hi. unfold splice. destruct (decide (i < f_offset f)%nat).
  - rewrite lookup_app_l by (rewrite length_take; lia). apply lookup_take_lt. lia.
  - rewrite lookup_app_r, length_take by (rewrite length_take; lia).
    rewrite lookup_app_r by lia. rewrite lookup_drop. f_equal. lia.
Qed.

Lemma slice_ext {A} a b (p q : list A) :
  (forall i, (a <= i < b)%nat -> p !! i = q !! i) -> slice a b p = slice a b q.
Proof.
  intros H. unfold slice. apply list_eq. intros i. destruct (decide (i < b - a)%nat).
  - rewrite !lookup_take_lt by done. rewrite !lookup_drop. apply H. lia.
  - by rewrite !lookup_take_ge by lia.
Qed.

Lemma validate_payload_Ok l p :
  validate_payload l p = Ok () <-> length p = payload_len l /\ le_value (take 2 p) = block l.
Proof.
  unfold validate_payload. destruct (Nat.eqb_spec (length p) (payload_len l)); simpl; [|naive_solver].
  destruct (Z.eqb_spec (le_value (take 2 p)) (block l)); naive_solver.
Qed.

Lemma validate_empty l : validate_payload l (empty_transmit_payload l) = Ok ().
Proof. destruct l; vm_compute; reflexivity. Qed.

(** One successful write: the payload stays valid, the input's bytes are those
    of the value and the other fields keep theirs. *)
Lemma write_field_spec l name v p p' :
  write_transmit_field l name v p = Ok p' ->
  validate_payload l p = Ok () /\ validate_payload l p' = Ok () /\
  exists f, f ∈ transmit_fields l /\ name = data_name f /\
    value_of f (bytes_of f p') = canonical v /\
    forall g, g ∈ fields l -> g <> f -> bytes_of g p' = bytes_of g p.
Proof.
  unfold write_transmit_field. intros H. apply bind_Ok in H as ([] & Hp & H).
  apply bind_Ok in H as ([i f] & Hf & H). apply ok_or_Ok, list_find_Some in Hf as (Hf & -> & _).
  apply list_elem_of_lookup_2 in Hf. apply bind_Ok in H as (x & Hx & [= <-]).
  destruct (elem_of_transmit _ _ Hf) as [Hfl Hs]. destruct (input_bytes_spec _ _ _ Hs Hx) as [Hb Hv].
  pose proof (field_range _ _ Hfl) as Hr. split; [done|].
  apply validate_payload_Ok in Hp as [Hl Hh].
  assert (Hother : forall g, g ∈ fields l -> g <> f -> bytes_of g (splice f x p) = bytes_of g p).
  { intros g Hg Hne. apply slice_ext. intros j Hj. apply lookup_splice_other; [done|lia|].
    destruct (field_disjoint l f g Hfl Hg) as [->|[?|?]]; [done|lia|lia]. }
  split.
  - apply validate_payload_Ok. rewrite length_splice by (done || lia). split; [done|].
    rewrite <- Hh. f_equal. apply (slice_ext 0 2). intros j Hj. apply lookup_splice_other; [done|lia|].
    unfold input_shape in Hs. apply andb_true_iff in Hs as [_ Hs%Nat.leb_le]. lia.
  - exists f. split_and!; [done|done| |done]. by rewrite bytes_of_splice by (done || lia).
Qed.

Lemma data_name_inj l f g : f ∈ fields l -> g ∈ fields l -> data_name f = data_name g -> f = g.
Proof. apply NoDup_fmap_eq, field_names. Qed.

(** ** Any sequence of writes *)

Fixpoint write_fields (l : Layout) (ws : list (string * PValue)) (payload : list Z) : result string (list Z) :=
  match ws with
  | [] => Ok payload
  | (name, v) :: ws => payload ← write_transmit_field l name v payload; write_fields l ws payload
  end.

(** The last value written under a name. *)
Definition last_write (ws : list (string * PValue)) (name : string) : option PValue :=
  last (snd <$> filter (fun w => w.1 = name) ws).

Lemma last_write_cons n v ws name :
  last_write ((n, v) :: ws) name =
    match last_write ws name with Some w => Some w | None => if decide (n = name) then Some v else None end.
Proof.
  unfold last_write. rewrite filter_cons. cbn [fst]. destruct (decide (n = name)).
  - rewrite fmap_cons, last_cons. by destruct (last _).
  - by destruct (last _).
Qed.

(** What is written is what the peer reads. After any sequence of accepted
    input writes on a valid payload, the payload is a valid snapshot and the
    receiver decodes every field to the last value written to it (text as
    upper-case hexadecimal), and every field that was not written, the unit
    identity included, to what it held before. *)
Theorem writes_read_back l ws p p' :
  validate_payload l p = Ok () -> write_fields l ws p = Ok p' ->
  decode_report l p' = Ok ((fun f =>
    {| u_name := data_name f;
       u_value := match last_write ws (data_name f) with
                  | Some v => canonical v
                  | None => value_of f (bytes_of f p)
                  end;
       u_quality := Good; u_error := "" |}) <$> fields l).
Proof.
  intros Hp Hw. unfold decode_report.
  assert (H : validate_payload l p' = Ok () /\ forall f, f ∈ fields l ->
    value_of f (bytes_of f p') =
      match last_write ws (data_name f) with Some v => canonical v | None => value_of f (bytes_of f p) end).
  { revert p Hp Hw. induction ws as [|[n v] ws IH]; intros p Hp Hw; simpl in Hw; [by simplify_eq|].
    apply bind_Ok in Hw as (x & H & Hw). apply write_field_spec in H as (_ & Hx & f & Hf & -> & Hv & Ho).
    destruct (IH _ Hx Hw) as [Hp' Hd]. split; [done|]. intros g Hg. rewrite (Hd g Hg), last_write_cons.
    destruct (elem_of_transmit _ _ Hf) as [Hfl _].
    destruct (last_write ws (data_name g)); [done|]. case_decide as He.
    - apply (data_name_inj l) in He as ->; done.
    - rewrite Ho by (done || congruence). done. }
  destruct H as [-> Hd]. simpl. f_equal. apply list_fmap_ext. intros i f Hf.
  unfold field_update. rewrite Hd; [done|]. by eapply list_elem_of_lookup_2.
Qed.

Definition toy_writes : list (string * PValue) :=
  [("DATA.Buildings.91UBH.Fire", PUInt32 2); ("DATA.AES.SGC85.State", PString "00112233aA");
   ("DATA.Buildings.91UBH.Fire", PUInt32 4)].

Lemma writes_read_back_witness :
  exists p' us, write_fields Unit9To1 toy_writes (empty_transmit_payload Unit9To1) = Ok p' /\
    decode_report Unit9To1 p' = Ok us /\
    {| u_name := "DATA.Buildings.91UBH.Fire"; u_value := PUInt32 4; u_quality := Good; u_error := "" |} ∈ us /\
    {| u_name := "DATA.AES.SGC85.State"; u_value := PString "00112233AA"; u_quality := Good; u_error := "" |} ∈ us.
Proof.
  destruct (write_fields Unit9To1 toy_writes (empty_transmit_payload Unit9To1)) as [p'|] eqn:E;
    [|exfalso; vm_compute in E; discriminate].
  pose proof (writes_read_back Unit9To1 toy_writes _ p' (validate_empty Unit9To1) E) as H.
  eexists p', _. split; [done|]. split; [exact H|].
  split; apply (bool_decide_unpack _); vm_compute; exact I.
Defined.
