(* ===== verification/CommConfig.v ===== *)
(** * Configuration of the forwarding process
      (src/communicate/src/config.rs, protocol.rs, [validate_port] of synchronization.rs)

    Validation of the configuration and the point table, and the preparation
    of the protocol adapters.  The [toml] and [csv] crates and the file system
    are parameters: [toml] reads the configuration, [csv_headers] and
    [csv_points] the point table, [canonicalize] resolves a device path. *)

From S2P Require Import Prelude RustFloat RustStr Frame CommModel UnitReport.
Open Scope string_scope.
Open Scope Z_scope.
Open Scope list_scope.

Definition in_range (lo hi v : Z) : bool := (lo <=? v) && (v <=? hi).

(** ** Synchronization settings of a port *)

Definition known_reports (port : PortConfig) : nat :=
  length (filter (fun t => is_Some (from_protocol (t_protocol t))) (p_tasks port)).

Definition receive_layout (port : PortConfig) : option Layout :=
  t ← head (p_tasks port); from_protocol (t_protocol t).

Definition validate_port (port : PortConfig) : result string () :=
  let reject s := Err ("port " +:+ p_id port +:+ ": " +:+ s) in
  let known := known_reports port in
  if (0 <? known)%nat && (negb (known =? 1)%nat || negb (length (p_tasks port) =? 1)%nat
                          || negb (bool_decide (is_Some (p_synchronization port))))
  then reject "unit reports need one task and explicit synchronization settings"
  else
    match p_synchronization port with
    | None => Ok ()
    | Some settings =>
        if bool_decide (is_Some (split_at_char "." (list_ascii_of_string (p_id port))))
        then reject "synchronization port id must not contain '.'"
        else
          match receive_layout port, from_protocol (transmit_protocol settings) with
          | Some receive, Some transmit =>
              if negb (known =? 1)%nat || bool_decide (receive = transmit)
              then reject "synchronization requires opposite supported receive/transmit layouts"
              else if negb (in_range 100 3600000 (send_interval_ms settings))
                   || (send_interval_ms settings <=? initial_delay_ms settings)
                   || negb (in_range 1 60000 (idle_gap_ms settings))
                   || (send_interval_ms settings <=? idle_gap_ms settings)
                   || negb (in_range 100 3600000 (receive_timeout_ms settings))
                   || (receive_timeout_ms settings <? p_frame_timeout_ms port)
                   || negb (in_range 100 3600000 (snapshot_max_age_ms settings))
                   || negb (in_range 100 3600000 (input_refresh_interval_ms settings))
                   || (snapshot_max_age_ms settings <=? input_refresh_interval_ms settings)
                   || (p_max_payload_bytes port <? Nat.max (payload_len receive) (payload_len transmit))%nat
              then reject "invalid synchronization deadlines or payload capacity"
              else if (p_max_frame_bytes port <? payload_len transmit + 10)%nat
                   || (p_max_frame_bytes port <? payload_len receive + 10)%nat
              then reject "frame capacity must fit the full uncompressed snapshot"
              else Ok ()
          | _, _ => reject "synchronization requires opposite supported receive/transmit layouts"
          end
    end.

(** ** Identifiers *)

Definition valid_id (value : string) : bool :=
  negb (String.eqb value "") && (String.length value <=? 128)%nat
  && all_bytes (fun c => is_ascii_alphanumeric c || one_of "-_." c) value.

Definition valid_point_name (value : string) : bool :=
  negb (String.eqb value "") && (String.length value <=? 128)%nat
  && all_bytes (fun c => is_ascii_alphanumeric c || one_of "-_.[]" c) value.

(** ** Validation *)

Definition MAX_POINTS : Z := 25000.

(** [parse::<IpAddr>().is_ok_and(|ip| ip.is_unspecified())] on text without a
    colon: an IPv4 address in its only spelling. *)
Definition is_unspecified_ip (host : string) : bool := String.eqb host "0.0.0.0".

Definition validate_opc (opc : OpcConfig) : result string () :=
  if (o_port opc =? 0) || (negb (o_allow_anonymous_none opc) && negb (o_allow_anonymous_secure opc))
  then Err "OPC needs a nonzero port and at least one enabled endpoint"
  else if String.eqb (o_advertised_host opc) "" || (253 <? String.length (o_advertised_host opc))%nat
       || negb (all_bytes (fun c => is_ascii_alphanumeric c || one_of ".-" c) (o_advertised_host opc))
       || is_unspecified_ip (o_advertised_host opc)
  then Err "advertised_host must be a hostname or non-unspecified IPv4 address, not a URL"
  else Ok ().

Definition is_absolute (path : string) : bool :=
  match path with String "/" _ => true | _ => false end.

Fixpoint validate_tasks (ts : list TaskConfig) (tasks : gset string) : result string (gset string) :=
  match ts with
  | [] => Ok tasks
  | task :: ts =>
      if negb (valid_id (t_id task)) || bool_decide (t_id task ∈ tasks) || negb (valid_id (t_protocol task))
         || negb (in_range 10 3600000 (t_interval_ms task))
      then Err "task ids must be globally unique; interval must be 10..3600000 ms"
      else validate_tasks ts ({[t_id task]} ∪ tasks)
  end.

(** The line, timeout and size checks of one port. *)
Definition validate_line (port : PortConfig) : result string () :=
  if negb (in_range 300 4000000 (p_baud_rate port)) || negb (in_range 5 8 (p_data_bits port))
     || negb (in_range 1 2 (p_stop_bits port))
  then Err "invalid baud rate, data bits or stop bits"
  else if existsb (fun v => negb (in_range 1 60000 v))
            [p_first_byte_timeout_ms port; p_frame_timeout_ms port; p_write_timeout_ms port;
             p_late_frame_guard_ms port]
       || (p_frame_timeout_ms port <? p_first_byte_timeout_ms port)
       || (p_reconnect_min_ms port <? 100) || (60000 <? p_reconnect_max_ms port)
       || (p_reconnect_max_ms port <? p_reconnect_min_ms port)
  then Err "invalid timeout or reconnect limits"
  else if negb (in_range 18 u16_max (Z.of_nat (p_max_frame_bytes port)))
       || negb (in_range 1 u16_max (Z.of_nat (p_max_payload_bytes port)))
       || (256 <? length (p_tasks port))%nat
  then Err "invalid frame/payload/task limits"
  else Ok ().

Definition starts_with (prefix s : string) : bool := String.prefix prefix s.
Definition ends_with (suffix s : string) : bool :=
  let n := (String.length s - String.length suffix)%nat in
  (String.length suffix <=? String.length s)%nat && String.eqb (substring n (String.length suffix) s) suffix.

Fixpoint validate_names (points : list PointDefinition) (tasks names : gset string) : result string () :=
  match points with
  | [] => Ok ()
  | point :: points =>
      if negb (valid_point_name (d_name point)) || bool_decide (d_name point ∈ ["Devices"; "Methods"])
         || starts_with "RcdSync." (d_name point) || ends_with "_Send" (d_name point)
         || ends_with "_SendCommand" (d_name point) || bool_decide (d_name point ∈ names)
         || negb (bool_decide (d_task_id point ∈ tasks))
         || (1024 <? String.length (d_description point))%nat || any_control (d_description point)
      then Err "invalid/duplicate/reserved variable name, missing task or invalid description"
      else validate_names points tasks ({[d_name point]} ∪ names)
  end.

Section Validation.
Context (canonicalize : string -> option string).

Fixpoint validate_ports (ps : list PortConfig) (ports devices tasks : gset string)
    : result string (gset string) :=
  match ps with
  | [] => Ok tasks
  | port :: ps =>
      if negb (valid_id (p_id port)) || bool_decide (p_id port ∈ ports) || negb (is_absolute (p_device port))
      then Err "port id must be unique; device must be an absolute path"
      else
        let physical := default (p_device port) (canonicalize (p_device port)) in
        if bool_decide (physical ∈ devices)
        then Err "one physical serial device may only be configured once"
        else
          _ ← validate_line port;
          tasks ← validate_tasks (p_tasks port) tasks;
          _ ← validate_port port;
          validate_ports ps ({[p_id port]} ∪ ports) ({[physical]} ∪ devices) tasks
  end.

Definition validate_config (config : CommConfig) (points : list PointDefinition) : result string () :=
  if negb (c_schema_version config =? 1) || negb (valid_id (c_instance_id config))
     || String.eqb (c_points_file config) ""
  then Err "schema_version must be 1 and instance_id/points_file must be valid"
  else
    _ ← validate_opc (c_opc config);
    if (32 <? length (c_ports config))%nat || (MAX_POINTS <? Z.of_nat (length points))
    then Err "maximum 32 ports and 25000 points"
    else
      tasks ← validate_ports (c_ports config) ∅ ∅ ∅;
      validate_names points tasks ∅.

Context (toml : string -> result string CommConfig).
Context (csv_headers : string -> result string (list string)).
Context (csv_points : string -> list (result string PointDefinition)).

Definition MAX_CONFIG_BYTES : Z := 1024 * 1024.
Definition MAX_POINTS_BYTES : Z := 8 * 1024 * 1024.

Record LoadedConfig := {
  lc_config : CommConfig;
  lc_points : list PointDefinition;
  lc_config_text : string;
  lc_points_text : string
}.

Fixpoint read_points (rows : list (result string PointDefinition)) (points : list PointDefinition)
    : result string (list PointDefinition) :=
  match rows with
  | [] => Ok points
  | row :: rows =>
      if Z.of_nat (length points) =? MAX_POINTS then Err "too many points"
      else p ← row; read_points rows (points ++ [p])
  end.

Definition parse_comm (text points_text : string) : result string LoadedConfig :=
  if (MAX_CONFIG_BYTES <? Z.of_nat (String.length text))
     || (MAX_POINTS_BYTES <? Z.of_nat (String.length points_text))
  then Err "TOML 最大 1 MiB，点表最大 8 MiB"
  else
    config ← toml text;
    headers ← csv_headers points_text;
    if negb (bool_decide (headers = ["name"; "task_id"; "data_type"; "description"]))
       && negb (bool_decide (headers = ["kks"; "task_id"; "data_type"; "description"]))
    then Err "point CSV header must be name,task_id,data_type,description"
    else
      points ← read_points (csv_points points_text) [];
      _ ← validate_config config points;
      _ ← validate_points config points;
      Ok {| lc_config := config; lc_points := points; lc_config_text := text; lc_points_text := points_text |}.
End Validation.

(** ** Protocol adapters (protocol.rs) *)

(** The trait [DeviceProtocol]; [&mut self] is a state that is passed on. *)
Class DeviceProtocol (P : Type) := {
  unsolicited : P -> bool;
  request : P -> TaskConfig -> P * result string (list Z);
  response : P -> TaskConfig -> list Z -> P * result string Response
}.

(** [ReportProtocol(layout)]. *)
#[export] Instance report_protocol : DeviceProtocol Layout := {
  unsolicited := fun _ => true;
  request := fun l _ => (l, Err "unit synchronization has no query request");
  response := fun l _ payload => (l, report_response l payload)
}.

Record PollTask (P : Type) := { pt_config : TaskConfig; pt_protocol : P }.
Arguments pt_config {P}.
Arguments pt_protocol {P}.
Arguments Build_PollTask {P}.

Section Registry.
Context {P : Type} `{DeviceProtocol P}.

Definition Registry := gmap string (TaskConfig -> result string P).

Definition register (registry : Registry) (name : string) (factory : TaskConfig -> result string P)
    : result string Registry :=
  if negb (valid_id name) || String.eqb name "pending" || bool_decide (is_Some (registry !! name))
  then Err "invalid or duplicate protocol name"
  else Ok (<[name := factory]> registry).

Fixpoint prepare_tasks (registry : Registry) (port_enabled : bool) (ts : list TaskConfig)
    : result string (list (PollTask P)) :=
  match ts with
  | [] => Ok []
  | task :: ts =>
      if negb (String.eqb (t_protocol task) "pending")
         && negb (bool_decide (is_Some (registry !! t_protocol task)))
      then Err ("task " +:+ t_id task +:+ ": unsupported protocol " +:+ t_protocol task)
      else if port_enabled && t_enabled task then
        factory ← ok_or ("task " +:+ t_id task +:+ ": request and decoder pending; acquisition cannot be enabled")
                    (registry !! t_protocol task);
        protocol ← map_err (fun e => "device protocol: " +:+ e) (factory task);
        tasks ← prepare_tasks registry port_enabled ts;
        Ok ({| pt_config := task; pt_protocol := protocol |} :: tasks)
      else prepare_tasks registry port_enabled ts
  end.

Fixpoint prepare (registry : Registry) (ports : list PortConfig) : result string (list (list (PollTask P))) :=
  match ports with
  | [] => Ok []
  | port :: ports =>
      tasks ← prepare_tasks registry (p_enabled port) (p_tasks port);
      if existsb (fun t => unsolicited (pt_protocol t)) tasks && negb (length tasks =? 1)%nat
      then Err "unit synchronization requires one receive layout per physical port"
      else rest ← prepare registry ports; Ok (tasks :: rest)
  end.
End Registry.

Definition production_registry : @Registry Layout :=
  <["unit9-to1-v1" := fun _ => Ok Unit9To1]> (<["unit1-to9-v1" := fun _ => Ok Unit1To9]> ∅).

Definition validate_adapters (config : CommConfig) : result string () :=
  _ ← prepare production_registry (c_ports config); Ok ().

(** ** What validation guarantees *)

Lemma in_range_spec lo hi v : in_range lo hi v = true <-> lo <= v <= hi.
Proof. unfold in_range. by rewrite andb_true_iff, !Z.leb_le. Qed.

(** Turns a passed check [if b then Err _ else k] into its conjuncts. *)
Ltac passed H :=
  match type of H with
  | (if ?b then Err _ else _) = Ok _ => destruct b eqn:?; [discriminate H|]
  end;
  repeat match goal with
  | E : _ || _ = false |- _ => apply orb_false_iff in E; destruct E
  | E : negb _ = false |- _ => apply negb_false_iff in E
  | E : in_range _ _ _ = true |- _ => apply in_range_spec in E
  | E : (_ <? _) = false |- _ => apply Z.ltb_ge in E
  | E : (_ <=? _) = false |- _ => apply Z.leb_gt in E
  | E : (_ <? _)%nat = false |- _ => apply Nat.ltb_ge in E
  | E : (_ =? _)%nat = true |- _ => apply Nat.eqb_eq in E
  | E : bool_decide _ = false |- _ => apply bool_decide_eq_false in E
  | E : bool_decide _ = true |- _ => apply bool_decide_eq_true in E
  end.

Definition port_limits (port : PortConfig) : Limits :=
  {| limit_frame := p_max_frame_bytes port; limit_payload := p_max_payload_bytes port |}.

Lemma validate_line_limits port :
  validate_line port = Ok () ->
  limits_valid (port_limits port) = true /\ 1 <= p_frame_timeout_ms port <= 60000 /\
  1 <= p_write_timeout_ms port <= 60000 /\ 100 <= p_reconnect_min_ms port <= p_reconnect_max_ms port.
Proof.
  unfold validate_line. intros H. do 3 passed H. simpl existsb in *.
  repeat match goal with
  | E : negb _ || _ = false |- _ => apply orb_false_iff in E as [E%negb_false_iff ?]
  end.
  repeat match goal with E : in_range _ _ _ = true |- _ => apply in_range_spec in E end.
  split; [|lia]. unfold limits_valid, port_limits; cbn [limit_frame limit_payload]. rewrite !andb_true_iff, !Nat.leb_le, !Z.leb_le. lia.
Qed.

(** The synchronization of a validated port. *)
Record sync_ok (port : PortConfig) (settings : Settings) (task : TaskConfig) (receive transmit : Layout) : Prop := {
  so_task : p_tasks port = [task];
  so_receive : from_protocol (t_protocol task) = Some receive;
  so_transmit : from_protocol (transmit_protocol settings) = Some transmit;
  so_opposite : receive <> transmit;
  so_payload : (payload_len receive <= p_max_payload_bytes port /\ payload_len transmit <= p_max_payload_bytes port)%nat;
  so_frame : (payload_len receive + 10 <= p_max_frame_bytes port /\ payload_len transmit + 10 <= p_max_frame_bytes port)%nat;
  so_interval : initial_delay_ms settings < send_interval_ms settings /\ idle_gap_ms settings < send_interval_ms settings;
  so_receive_timeout : p_frame_timeout_ms port <= receive_timeout_ms settings;
  so_max_age : 100 <= input_refresh_interval_ms settings < snapshot_max_age_ms settings
}.

Lemma validate_port_sync port settings :
  validate_port port = Ok () -> p_synchronization port = Some settings ->
  exists task receive transmit, sync_ok port settings task receive transmit.
Proof.
  unfold validate_port. intros H Hs. rewrite Hs in H.
  destruct ((0 <? known_reports port)%nat && _) eqn:Hk; [done|].
  destruct (bool_decide (is_Some (split_at_char _ _))); [done|].
  destruct (receive_layout port) as [receive|] eqn:Hr; [|done].
  destruct (from_protocol (transmit_protocol settings)) as [transmit|] eqn:Ht; [|done].
  do 3 passed H. rewrite H0 in Hk. simpl in Hk. apply orb_false_iff in Hk as [Hk _].
  apply negb_false_iff, Nat.eqb_eq in Hk. unfold receive_layout in Hr.
  destruct (p_tasks port) as [|task [|? ?]] eqn:Htasks; [done| |done]. simpl in Hr.
  exists task, receive, transmit. split; [done|done|done|done|lia|lia|lia|lia|lia].
Qed.

Lemma validate_tasks_spec ts seen seen' :
  validate_tasks ts seen = Ok seen' ->
  seen' = list_to_set (t_id <$> ts) ∪ seen /\ NoDup (t_id <$> ts) /\ forall t, t ∈ ts -> t_id t ∉ seen.
Proof.
  revert seen. induction ts as [|t ts IH]; intros seen; cbn [validate_tasks].
  { intros [= <-]. split_and!; [set_solver|constructor|by intros ? ?%elem_of_nil]. }
  intros H. passed H. apply IH in H as (-> & Hn & Hd).
  split; [rewrite fmap_cons, list_to_set_cons; set_solver|]. split.
  - rewrite fmap_cons. apply NoDup_cons. split; [|done].
    intros (t' & He & Hin)%list_elem_of_fmap. apply Hd in Hin. set_solver.
  - intros t' [->|Hin]%elem_of_cons; [done|]. apply Hd in Hin. set_solver.
Qed.

Lemma validate_ports_spec canon ps ports devices seen seen' :
  validate_ports canon ps ports devices seen = Ok seen' ->
  Forall (fun p => validate_line p = Ok () /\ validate_port p = Ok ()) ps /\
  NoDup (p_id <$> ps) /\ (forall p, p ∈ ps -> p_id p ∉ ports) /\
  NoDup (t_id <$> ps ≫= p_tasks) /\ (forall t, t ∈ ps ≫= p_tasks -> t_id t ∉ seen).
Proof.
  revert ports devices seen. induction ps as [|p ps IH]; intros ports devices seen; cbn [validate_ports].
  { intros _. split_and!; [done|constructor|by intros ? ?%elem_of_nil|constructor|by intros ? ?%elem_of_nil]. }
  intros H. passed H. destruct (bool_decide _); [done|].
  apply bind_Ok in H as ([] & Hline & H). apply bind_Ok in H as (seen1 & Htasks & H).
  apply bind_Ok in H as ([] & Hport & H). apply IH in H as (Hf & Hn & Hd & Hnt & Hdt).
  apply validate_tasks_spec in Htasks as (-> & Hn1 & Hd1).
  split; [by constructor|]. rewrite fmap_cons, bind_cons, fmap_app, NoDup_cons, NoDup_app. split_and!.
  - intros (q & He & Hq)%list_elem_of_fmap. apply Hd in Hq. set_solver.
  - done.
  - intros q [->|Hq]%elem_of_cons; [done|]. apply Hd in Hq. set_solver.
  - done.
  - intros x (t & -> & Ht)%list_elem_of_fmap (t' & He & Ht')%list_elem_of_fmap. apply Hdt in Ht'.
    rewrite <- He in Ht'. apply Ht', elem_of_union_l, elem_of_list_to_set. by apply list_elem_of_fmap_2.
  - done.
  - intros t [Ht|Ht]%elem_of_app; [by apply Hd1|]. apply Hdt in Ht. set_solver.
Qed.

Lemma validate_names_spec ps tasks names :
  validate_names ps tasks names = Ok () ->
  NoDup (d_name <$> ps) /\ forall p, p ∈ ps -> d_name p ∉ names /\ d_task_id p ∈ tasks.
Proof.
  revert names. induction ps as [|p ps IH]; intros names; cbn [validate_names].
  { intros _. split; [constructor|by intros ? ?%elem_of_nil]. }
  intros H. passed H. apply IH in H as [Hn Hd]. split.
  - rewrite fmap_cons. apply NoDup_cons. split; [|done].
    intros (q & He & Hq)%list_elem_of_fmap. apply Hd in Hq. set_solver.
  - intros q [->|Hq]%elem_of_cons; [done|]. apply Hd in Hq. set_solver.
Qed.

Lemma validate_config_spec canon config points :
  validate_config canon config points = Ok () ->
  NoDup (d_name <$> points) /\
  Forall (fun p => validate_line p = Ok () /\ validate_port p = Ok ()) (c_ports config) /\
  NoDup (p_id <$> c_ports config) /\ NoDup (t_id <$> c_ports config ≫= p_tasks).
Proof.
  unfold validate_config. intros H. destruct (negb (_ =? 1) || _ || _); [done|].
  apply bind_Ok in H as ([] & _ & H). destruct (_ || _); [done|].
  apply bind_Ok in H as (tasks & (? & ? & _ & ? & _)%validate_ports_spec & [? _]%validate_names_spec). done.
Qed.

Lemma validate_all_spec {A} (check : A -> result string ()) l :
  validate_all check l = Ok () <-> Forall (fun x => check x = Ok ()) l.
Proof.
  induction l as [|x l IH]; [done|]. cbn [validate_all]. rewrite Forall_cons, <- IH.
  destruct (check x) as [[]|]; naive_solver.
Qed.

Lemma validate_points_spec config points port task l :
  validate_points config points = Ok () -> port ∈ c_ports config -> task ∈ p_tasks port ->
  from_protocol (t_protocol task) = Some l ->
  length (definitions l (t_id task)) = length (task_points task points) /\
  forall e, e ∈ definitions l (t_id task) -> exists a, a ∈ task_points task points /\
    d_name a = d_name e /\ d_data_type a = d_data_type e.
Proof.
  unfold validate_points. generalize (list_to_set (C := gset string) (d_name <$> points)). intros names H Hp Ht Hl.
  assert (Hc : validate_task_points points task = Ok ()).
  { revert names H. induction (c_ports config) as [|q ps IH]; intros names H; [by apply elem_of_nil in Hp|].
    cbn [validate_port_points] in H. apply bind_Ok in H as ([] & Hall%validate_all_spec & H).
    apply bind_Ok in H as (names' & _ & H). apply elem_of_cons in Hp as [->|Hp]; [|by eapply IH].
    rewrite Forall_forall in Hall. by apply Hall. }
  unfold validate_task_points in Hc. rewrite Hl in Hc. destruct (_ || _) eqn:E; [done|].
  apply orb_false_iff in E as [E1%negb_false_iff%Nat.eqb_eq E2]. split; [done|]. intros e He.
  destruct (existsb (fun a => same_point a e) (task_points task points)) eqn:Ea.
  - apply existsb_exists in Ea as (a & Ha%list_elem_of_In & Hs). exists a. unfold same_point in Hs.
    apply andb_true_iff in Hs as [?%String.eqb_eq ?%bool_decide_eq_true]. done.
  - exfalso. apply Bool.not_true_iff_false in E2. apply E2, existsb_exists. exists e.
    split; [by apply list_elem_of_In|]. by rewrite Ea.
Qed.

(** ** An example configuration: one port that receives unit 9 and sends unit 1 *)

Definition toy_settings : Settings :=
  {| transmit_enabled := true; transmit_protocol := "unit1-to9-v1"; send_interval_ms := 1000;
     initial_delay_ms := 200; idle_gap_ms := 20; receive_timeout_ms := 5000;
     input_refresh_interval_ms := 5000; snapshot_max_age_ms := 15000 |}.
Definition toy_task : TaskConfig :=
  {| t_id := "peer"; t_enabled := true; t_protocol := "unit9-to1-v1"; t_interval_ms := 1000 |}.
Definition toy_port : PortConfig :=
  {| p_id := "link"; p_device := "/dev/ttyS0"; p_enabled := true; p_baud_rate := 115200; p_data_bits := 8;
     p_parity := ParityNone; p_stop_bits := 1; p_first_byte_timeout_ms := 200; p_frame_timeout_ms := 500;
     p_write_timeout_ms := 500; p_late_frame_guard_ms := 50; p_reconnect_min_ms := 500;
     p_reconnect_max_ms := 8000; p_max_frame_bytes := 2048; p_max_payload_bytes := 2048;
     p_tasks := [toy_task]; p_synchronization := Some toy_settings |}.
Definition toy_config : CommConfig :=
  {| c_schema_version := 1; c_instance_id := "rcd-comm"; c_points_file := "points.csv";
     c_opc := {| o_bind_ip := "0.0.0.0"; o_advertised_host := "gateway"; o_port := 4840;
                 o_allow_anonymous_none := true; o_allow_anonymous_secure := false;
                 o_trust_client_certificates := false |};
     c_ports := [toy_port] |}.
Definition toy_points : list PointDefinition := definitions Unit9To1 "peer".

Lemma toy_valid :
  validate_config (fun _ => None) toy_config toy_points = Ok () /\ validate_points toy_config toy_points = Ok ().
Proof. split; vm_compute; reflexivity. Qed.

Example toy_prepares : exists tasks, prepare production_registry (c_ports toy_config) = Ok [tasks] /\ length tasks = 1%nat.
Proof. eexists. split; [vm_compute; reflexivity|done]. Qed.
