(* ===== verification/Points.v ===== *)
(** * The point store of the forwarding process (src/communicate/src/points.rs)

    The published samples and the port counters, with the operations of
    [PointStore] that change them.  The lock is held for the whole of every
    operation and no operation panics while holding it, so a store is a value
    that each operation replaces and [StoreError::Poisoned] does not occur.
    Wall clock readings are arguments. *)

From S2P Require Import Prelude RustFloat RustStr Frame CommModel UnitReport CommConfig.
Open Scope string_scope.
Open Scope Z_scope.
Open Scope list_scope.

Record PortSnapshot := {
  ps_state : string;
  ps_last_error : string;
  ps_last_attempt_at : option Z;
  ps_last_success_at : option Z;
  ps_attempts : Z;
  ps_successes : Z;
  ps_failures : Z;
  ps_reconnects : Z;
  ps_rejected_frames : Z;
  ps_discarded_bytes : Z;
  ps_partial_timeouts : Z
}.

Definition port_snapshot_new (state : string) : PortSnapshot :=
  {| ps_state := state; ps_last_error := ""; ps_last_attempt_at := None; ps_last_success_at := None;
     ps_attempts := 0; ps_successes := 0; ps_failures := 0; ps_reconnects := 0; ps_rejected_frames := 0;
     ps_discarded_bytes := 0; ps_partial_timeouts := 0 |}.

Inductive StoreError :=
| Unknown (what : string)
| InvalidBatch (what : string).

Definition store_error_text (e : StoreError) : string :=
  match e with
  | Unknown s => "unknown task or port: " +:+ s
  | InvalidBatch s => "response does not match the configured task point set or type: " +:+ s
  end.

Record PointStore := {
  st_definitions : gmap string PointDefinition;
  st_tasks : gmap string (list string);
  st_task_ports : gmap string string;
  st_samples : gmap string Sample;
  st_ports : gmap string PortSnapshot
}.

Definition set_state (st : PointStore) (samples : gmap string Sample) (ports : gmap string PortSnapshot)
    : PointStore :=
  {| st_definitions := st_definitions st; st_tasks := st_tasks st; st_task_ports := st_task_ports st;
     st_samples := samples; st_ports := ports |}.

(** ** Construction *)

(** The maps the loop over the ports fills: the task lists, the ports of the
    tasks, the initial qualities and the port snapshots. *)
Record Tables := {
  tb_tasks : gmap string (list string);
  tb_task_ports : gmap string string;
  tb_initial : gmap string Quality;
  tb_ports : gmap string PortSnapshot
}.

Definition initial_quality (port : PortConfig) (task : TaskConfig) : Quality :=
  if negb (p_enabled port) || negb (t_enabled task) then OutOfService
  else if String.eqb (t_protocol task) "pending" then Configuration
  else Waiting.

Definition add_task (port : PortConfig) (tb : Tables) (task : TaskConfig) : Tables :=
  {| tb_tasks := <[t_id task := []]> (tb_tasks tb);
     tb_task_ports := <[t_id task := p_id port]> (tb_task_ports tb);
     tb_initial := <[t_id task := initial_quality port task]> (tb_initial tb);
     tb_ports := tb_ports tb |}.

Definition add_comm_port (tb : Tables) (port : PortConfig) : Tables :=
  let active := p_enabled port && existsb t_enabled (p_tasks port) in
  let tb := {| tb_tasks := tb_tasks tb; tb_task_ports := tb_task_ports tb; tb_initial := tb_initial tb;
               tb_ports := <[p_id port := port_snapshot_new (if active then "Waiting" else "Disabled")]>
                             (tb_ports tb) |} in
  foldl (add_task port) tb (p_tasks port).

Definition tables (config : CommConfig) : Tables :=
  foldl add_comm_port {| tb_tasks := ∅; tb_task_ports := ∅; tb_initial := ∅; tb_ports := ∅ |} (c_ports config).

Definition initial_sample (initial : gmap string Quality) (point : PointDefinition) : Sample :=
  let quality := default Configuration (initial !! d_task_id point) in
  {| s_value := zero (d_data_type point); s_quality := quality; s_source_timestamp := None;
     s_error := if bool_decide (quality = OutOfService) then "acquisition disabled" else "" |}.

Definition add_point (initial : gmap string Quality)
    (acc : gmap string (list string) * gmap string Sample) (point : PointDefinition) :=
  let '(tasks, samples) := acc in
  (alter (fun names => names ++ [d_name point]) (d_task_id point) tasks,
   <[d_name point := initial_sample initial point]> samples).

Definition store_new (config : CommConfig) (points : list PointDefinition) : PointStore :=
  let tb := tables config in
  let '(tasks, samples) := foldl (add_point (tb_initial tb)) (tb_tasks tb, ∅) points in
  {| st_definitions := foldl (fun m d => <[d_name d := d]> m) ∅ points;
     st_tasks := tasks; st_task_ports := tb_task_ports tb; st_samples := samples; st_ports := tb_ports tb |}.

(** ** Reading *)

Definition sample (st : PointStore) (name : string) : result StoreError Sample :=
  ok_or (Unknown name) (st_samples st !! name).
Definition port (st : PointStore) (id : string) : result StoreError PortSnapshot :=
  ok_or (Unknown id) (st_ports st !! id).

(** ** Port counters *)

(** [state.ports.get_mut(id).ok_or_else(...)] and a change of the snapshot. *)
Definition update_port (st : PointStore) (id : string) (f : PortSnapshot -> PortSnapshot)
    : PointStore * result StoreError () :=
  match st_ports st !! id with
  | None => (st, Err (Unknown id))
  | Some p => (set_state st (st_samples st) (<[id := f p]> (st_ports st)), Ok ())
  end.

Definition port_state (st : PointStore) (id status error : string) (reconnected : bool)
    : PointStore * result StoreError () :=
  update_port st id (fun p =>
    {| ps_state := status; ps_last_error := short_error error; ps_last_attempt_at := ps_last_attempt_at p;
       ps_last_success_at := ps_last_success_at p; ps_attempts := ps_attempts p; ps_successes := ps_successes p;
       ps_failures := ps_failures p;
       ps_reconnects := if reconnected then u32_saturating_add (ps_reconnects p) 1 else ps_reconnects p;
       ps_rejected_frames := ps_rejected_frames p; ps_discarded_bytes := ps_discarded_bytes p;
       ps_partial_timeouts := ps_partial_timeouts p |}).

Definition attempt (st : PointStore) (task : string) (now : Z) : PointStore * result StoreError () :=
  match st_task_ports st !! task with
  | None => (st, Err (Unknown task))
  | Some id =>
      update_port st id (fun p =>
        {| ps_state := ps_state p; ps_last_error := ps_last_error p; ps_last_attempt_at := Some now;
           ps_last_success_at := ps_last_success_at p; ps_attempts := u32_saturating_add (ps_attempts p) 1;
           ps_successes := ps_successes p; ps_failures := ps_failures p; ps_reconnects := ps_reconnects p;
           ps_rejected_frames := ps_rejected_frames p; ps_discarded_bytes := ps_discarded_bytes p;
           ps_partial_timeouts := ps_partial_timeouts p |})
  end.

Definition record_frame_errors (st : PointStore) (id : string) (rejected discarded : Z) (expired : bool)
    : PointStore * result StoreError () :=
  update_port st id (fun p =>
    {| ps_state := ps_state p; ps_last_error := ps_last_error p; ps_last_attempt_at := ps_last_attempt_at p;
       ps_last_success_at := ps_last_success_at p; ps_attempts := ps_attempts p; ps_successes := ps_successes p;
       ps_failures := ps_failures p; ps_reconnects := ps_reconnects p;
       ps_rejected_frames := u32_saturating_add (ps_rejected_frames p) (Z.min rejected u32_max);
       ps_discarded_bytes := u32_saturating_add (ps_discarded_bytes p) (Z.min discarded u32_max);
       ps_partial_timeouts := u32_saturating_add (ps_partial_timeouts p) (if expired then 1 else 0) |}).

(** [if let Some(port) = task_ports.get(task).and_then(|id| ports.get_mut(id))]. *)
Definition alter_task_port (st : PointStore) (task : string) (f : PortSnapshot -> PortSnapshot)
    : gmap string PortSnapshot :=
  match st_task_ports st !! task with Some id => alter f id (st_ports st) | None => st_ports st end.

Definition port_success (now : Z) (p : PortSnapshot) : PortSnapshot :=
  {| ps_state := ps_state p; ps_last_error := ps_last_error p; ps_last_attempt_at := ps_last_attempt_at p;
     ps_last_success_at := Some now; ps_attempts := ps_attempts p;
     ps_successes := u32_saturating_add (ps_successes p) 1; ps_failures := ps_failures p;
     ps_reconnects := ps_reconnects p; ps_rejected_frames := ps_rejected_frames p;
     ps_discarded_bytes := ps_discarded_bytes p; ps_partial_timeouts := ps_partial_timeouts p |}.

Definition port_failure (error : string) (p : PortSnapshot) : PortSnapshot :=
  {| ps_state := ps_state p; ps_last_error := short_error error; ps_last_attempt_at := ps_last_attempt_at p;
     ps_last_success_at := ps_last_success_at p; ps_attempts := ps_attempts p; ps_successes := ps_successes p;
     ps_failures := u32_saturating_add (ps_failures p) 1; ps_reconnects := ps_reconnects p;
     ps_rejected_frames := ps_rejected_frames p; ps_discarded_bytes := ps_discarded_bytes p;
     ps_partial_timeouts := ps_partial_timeouts p |}.

(** ** Publication *)

(** The validation loop of [publish], with the names seen so far. *)
Fixpoint check_batch (defs : gmap string PointDefinition) (task : string) (updates : list PointUpdate)
    (seen : gset string) : result StoreError () :=
  match updates with
  | [] => Ok ()
  | u :: updates =>
      d ← ok_or (InvalidBatch (u_name u)) (defs !! u_name u);
      if negb (String.eqb (d_task_id d) task) || negb (bool_decide (d_data_type d = value_type (u_value u)))
         || negb (value_valid (u_value u)) || bool_decide (u_name u ∈ seen)
      then Err (InvalidBatch (u_name u))
      else check_batch defs task updates ({[u_name u]} ∪ seen)
  end.

Definition published (source_time : Z) (u : PointUpdate) : Sample :=
  {| s_value := if bool_decide (u_quality u = Good) then u_value u else zero (value_type (u_value u));
     s_quality := u_quality u; s_source_timestamp := Some source_time; s_error := short_error (u_error u) |}.

Definition publish_points (st : PointStore) (task : string) (updates : list PointUpdate) (source_time now : Z)
    : PointStore * result StoreError () :=
  match st_tasks st !! task with
  | None => (st, Err (Unknown task))
  | Some names =>
      if negb (length names =? length updates)%nat then (st, Err (InvalidBatch task))
      else
        match check_batch (st_definitions st) task updates ∅ with
        | Err e => (st, Err e)
        | Ok _ =>
            (set_state st (foldl (fun m u => <[u_name u := published source_time u]> m) (st_samples st) updates)
               (alter_task_port st task (port_success now)), Ok ())
        end
  end.

Definition failed (quality : Quality) (error : string) (s : Sample) : Sample :=
  {| s_value := zero (value_type (s_value s)); s_quality := quality;
     s_source_timestamp := s_source_timestamp s; s_error := short_error error |}.

Definition fail_points (st : PointStore) (task : string) (quality : Quality) (error : string)
    : PointStore * result StoreError () :=
  if bool_decide (quality = Good) then (st, Err (InvalidBatch "failure cannot be Good"))
  else
    match st_tasks st !! task with
    | None => (st, Err (Unknown task))
    | Some names =>
        (set_state st (foldl (fun m name => alter (failed quality error) name m) (st_samples st) names)
           (alter_task_port st task (port_failure error)), Ok ())
    end.

(** ** Maps built by insertion *)

Lemma foldl_insert_lookup {A B} (k : A -> string) (g : A -> B) (l : list A) (m : gmap string B) n :
  foldl (fun m x => <[k x := g x]> m) m l !! n =
    match last (filter (fun x => k x = n) l) with Some x => Some (g x) | None => m !! n end.
Proof.
  revert m. induction l as [|x l IH]; intros m; [done|]. cbn [foldl]. rewrite IH, filter_cons.
  case_decide as Hk.
  - rewrite last_cons. destruct (last _); [done|]. by rewrite Hk, lookup_insert_eq.
  - destruct (last _); [done|]. by rewrite lookup_insert_ne.
Qed.

Lemma last_filter_unique {A} (k : A -> string) (l : list A) x :
  NoDup (k <$> l) -> x ∈ l -> last (filter (fun y => k y = k x) l) = Some x.
Proof.
  intros Hn Hx. destruct (last _) as [y|] eqn:E.
  - apply last_Some_elem_of, list_elem_of_filter in E as [He Hy].
    f_equal. by eapply NoDup_fmap_eq.
  - apply last_None in E. assert (H : x ∈ filter (fun y => k y = k x) l) by (by apply list_elem_of_filter).
    rewrite E in H. by apply elem_of_nil in H.
Qed.

Lemma last_filter_Some {A} (k : A -> string) (l : list A) n x :
  last (filter (fun y => k y = n) l) = Some x -> x ∈ l /\ k x = n.
Proof. intros H. apply last_Some_elem_of, list_elem_of_filter in H as [? ?]. done. Qed.

(** ** Invariants *)

(** The tables that construction fixes: a definition is under its own name
    and the list of a task holds exactly its points, once each. *)
Record store_wf (st : PointStore) : Prop := {
  sw_names : forall n d, st_definitions st !! n = Some d -> d_name d = n;
  sw_nodup : forall t names, st_tasks st !! t = Some names -> NoDup names;
  sw_tasks : forall t names, st_tasks st !! t = Some names ->
    forall n, n ∈ names <-> exists d, st_definitions st !! n = Some d /\ d_task_id d = t
}.

(** Every configured point has a sample of its type; a sample that is not
    good holds the zero of that type. *)
Definition sample_typed (d : PointDefinition) (s : Sample) : Prop :=
  value_type (s_value s) = d_data_type d /\ value_valid (s_value s) = true /\
  (s_quality s <> Good -> s_value s = zero (d_data_type d)).

Definition store_typed (st : PointStore) : Prop := forall n,
  match st_definitions st !! n, st_samples st !! n with
  | Some d, Some s => sample_typed d s
  | None, None => True
  | _, _ => False
  end.

(** One operation of a client of the store. *)
Inductive store_step : PointStore -> PointStore -> Prop :=
| step_port_state st id status error reconnected :
    store_step st (port_state st id status error reconnected).1
| step_attempt st task now : store_step st (attempt st task now).1
| step_frame_errors st id rejected discarded expired :
    store_step st (record_frame_errors st id rejected discarded expired).1
| step_publish st task updates source_time now :
    store_step st (publish_points st task updates source_time now).1
| step_fail st task quality error : store_step st (fail_points st task quality error).1.

(** The operations leave the tables alone; [same_tables] is what they share. *)
Definition same_tables (st st' : PointStore) : Prop :=
  st_definitions st' = st_definitions st /\ st_tasks st' = st_tasks st /\ st_task_ports st' = st_task_ports st.

#[export] Instance same_tables_preorder : PreOrder same_tables.
Proof. split; [by intros|]. intros a b c (?&?&?) (?&?&?). split_and!; congruence. Qed.

Lemma update_port_same st id f :
  same_tables st (update_port st id f).1 /\ st_samples (update_port st id f).1 = st_samples st.
Proof. unfold update_port. by case_match. Qed.

Lemma attempt_same st task now :
  same_tables st (attempt st task now).1 /\ st_samples (attempt st task now).1 = st_samples st.
Proof. unfold attempt. case_match; [apply update_port_same|done]. Qed.

Lemma publish_same st task us t now : same_tables st (publish_points st task us t now).1.
Proof. unfold publish_points. by repeat case_match. Qed.

Lemma fail_same st task q e : same_tables st (fail_points st task q e).1.
Proof. unfold fail_points. by repeat case_match. Qed.

Lemma store_step_same st st' : store_step st st' -> same_tables st st'.
Proof.
  destruct 1; [apply update_port_same|apply attempt_same|apply update_port_same|apply publish_same|apply fail_same].
Qed.

Lemma same_tables_wf st st' : same_tables st st' -> store_wf st -> store_wf st'.
Proof. intros (H1 & H2 & _) [? ? ?]. split; rewrite ?H1, ?H2; naive_solver. Qed.

(** ** The batch check *)

Definition update_ok (st : PointStore) (task : string) (u : PointUpdate) : Prop :=
  exists d, st_definitions st !! u_name u = Some d /\ d_task_id d = task /\
            value_type (u_value u) = d_data_type d /\ value_valid (u_value u) = true.

Lemma check_batch_spec st task us seen :
  check_batch (st_definitions st) task us seen = Ok () <->
  Forall (update_ok st task) us /\ NoDup (u_name <$> us) /\ forall u, u ∈ us -> u_name u ∉ seen.
Proof.
  revert seen. induction us as [|u us IH]; intros seen; cbn [check_batch].
  { split; [intros _|done]. split_and!; [done|constructor|by intros ? ?%elem_of_nil]. }
  rewrite Forall_cons, fmap_cons, NoDup_cons.
  destruct (st_definitions st !! u_name u) as [d|] eqn:Hd; simpl.
  2:{ split; [done|]. intros [[(d & ? & _) _] _]. congruence. }
  destruct (String.eqb_spec (d_task_id d) task) as [Ht|Ht]; simpl.
  2:{ split; [done|]. intros [[(d' & ? & ? & _) _] _]. congruence. }
  destruct (bool_decide_reflect (d_data_type d = value_type (u_value u))) as [Hv|Hv]; simpl.
  2:{ split; [done|]. intros [[(d' & ? & _ & ? & _) _] _]. congruence. }
  destruct (value_valid (u_value u)) eqn:Hok; simpl.
  2:{ split; [done|]. intros [[(d' & ? & _ & _ & ?) _] _]. congruence. }
  destruct (bool_decide_reflect (u_name u ∈ seen)) as [Hs|Hs].
  { split; [done|]. intros (_ & _ & H). by destruct (H u (list_elem_of_here _ _)). }
  rewrite IH. split.
  - intros (Hf & Hn & Hd'). split_and!; [by exists d|done| |done|].
    + intros (v & Hv' & Hin)%list_elem_of_fmap. apply Hd' in Hin. set_solver.
    + intros v [->|Hin]%elem_of_cons; [done|]. apply Hd' in Hin. set_solver.
  - intros ([_ Hf] & [Hn1 Hn] & Hd'). split_and!; [done|done|]. intros v Hin Hv'.
    apply elem_of_union in Hv' as [Hv'%elem_of_singleton|Hv'].
    + apply Hn1. rewrite <- Hv'. by apply list_elem_of_fmap_2.
    + by apply (Hd' v); [apply list_elem_of_further|].
Qed.

(** A batch is complete: the points of the task, each once, with values of
    their types. *)
Definition complete_batch (st : PointStore) (task : string) (us : list PointUpdate) : Prop :=
  exists names, st_tasks st !! task = Some names /\ u_name <$> us ≡ₚ names /\ Forall (update_ok st task) us.

Lemma publish_checks st task us names :
  store_wf st -> st_tasks st !! task = Some names ->
  (length names = length us /\ check_batch (st_definitions st) task us ∅ = Ok ()) <-> complete_batch st task us.
Proof.
  intros Hwf Ht. rewrite check_batch_spec. split.
  - intros (Hl & Hf & Hn & _). exists names. split_and!; [done| |done].
    apply submseteq_length_Permutation; [|by rewrite length_fmap, Hl].
    apply NoDup_submseteq; [done|]. intros n (u & -> & Hu)%list_elem_of_fmap.
    rewrite Forall_forall in Hf. destruct (Hf u Hu) as (d & Hd & Htask & _).
    apply (sw_tasks _ Hwf _ _ Ht). by exists d.
  - intros (names' & Ht' & Hp & Hf). simplify_eq. split_and!; [|done| |set_solver].
    + by rewrite <- (Permutation_length Hp), length_fmap.
    + rewrite Hp. by eapply sw_nodup.
Qed.

(** ** Construction *)

Lemma add_tasks_tasks port ts tb :
  (forall t names, tb_tasks tb !! t = Some names -> names = []) ->
  forall t names, tb_tasks (foldl (add_task port) tb ts) !! t = Some names -> names = [].
Proof.
  revert tb. induction ts as [|task ts IH]; intros tb H; [done|]. apply IH. simpl.
  intros t names. rewrite lookup_insert_Some. naive_solver.
Qed.

Lemma tables_tasks config t names : tb_tasks (tables config) !! t = Some names -> names = [].
Proof.
  unfold tables. set (tb := {| tb_tasks := ∅ |}).
  assert (Hb : forall t names, tb_tasks tb !! t = Some names -> names = []) by done.
  revert Hb. generalize tb. induction (c_ports config) as [|p ps IH]; intros tb' Hb; [apply Hb|].
  apply IH. unfold add_comm_port. by apply add_tasks_tasks.
Qed.

Lemma add_points_tasks initial ps tasks samples t :
  (foldl (add_point initial) (tasks, samples) ps).1 !! t =
    (fun names => names ++ (d_name <$> filter (fun d => d_task_id d = t) ps)) <$> tasks !! t.
Proof.
  revert tasks samples. induction ps as [|d ps IH]; intros tasks samples; simpl.
  { destruct (tasks !! t); simpl; [by rewrite app_nil_r|done]. }
  rewrite IH, filter_cons. case_decide as Hd.
  - subst t. rewrite lookup_alter_eq. destruct (tasks !! _); simpl; [|done]. by rewrite <- app_assoc.
  - by rewrite lookup_alter_ne.
Qed.

Lemma add_points_samples initial ps tasks samples :
  (foldl (add_point initial) (tasks, samples) ps).2 =
    foldl (fun m d => <[d_name d := initial_sample initial d]> m) samples ps.
Proof. revert tasks samples. induction ps; intros; simpl; auto. Qed.

Lemma store_new_fields config points :
  st_definitions (store_new config points) = foldl (fun m d => <[d_name d := d]> m) ∅ points /\
  st_samples (store_new config points) =
    foldl (fun m d => <[d_name d := initial_sample (tb_initial (tables config)) d]> m) ∅ points /\
  forall t, st_tasks (store_new config points) !! t =
    (fun names => names ++ (d_name <$> filter (fun d => d_task_id d = t) points)) <$> tb_tasks (tables config) !! t.
Proof.
  unfold store_new. pose proof (add_points_samples (tb_initial (tables config)) points (tb_tasks (tables config)) ∅).
  pose proof (add_points_tasks (tb_initial (tables config)) points (tb_tasks (tables config)) ∅).
  by destruct (foldl (add_point _) _ _).
Qed.

Lemma store_new_definition config points n d :
  NoDup (d_name <$> points) ->
  st_definitions (store_new config points) !! n = Some d <-> d ∈ points /\ d_name d = n.
Proof.
  intros Hn. destruct (store_new_fields config points) as (-> & _). rewrite foldl_insert_lookup. split.
  - destruct (last _) as [x|] eqn:E; [|done]. intros [= <-]. by eapply (last_filter_Some d_name).
  - intros [Hd <-]. by rewrite (last_filter_unique d_name).
Qed.

Lemma store_new_task config points t names :
  st_tasks (store_new config points) !! t = Some names ->
  names = d_name <$> filter (fun d => d_task_id d = t) points.
Proof.
  destruct (store_new_fields config points) as (_ & _ & ->).
  intros (l & ->%tables_tasks & ->)%fmap_Some. done.
Qed.

Lemma store_new_wf config points : NoDup (d_name <$> points) -> store_wf (store_new config points).
Proof.
  intros Hn. split.
  - by intros n d [_ ?]%store_new_definition.
  - intros t names ->%store_new_task. eapply sublist_NoDup; [done|]. apply fmap_sublist, sublist_filter.
  - intros t names ->%store_new_task n. rewrite list_elem_of_fmap. setoid_rewrite list_elem_of_filter.
    setoid_rewrite store_new_definition; [|done]. naive_solver.
Qed.

Lemma store_new_typed config points : store_typed (store_new config points).
Proof.
  intros n. destruct (store_new_fields config points) as (-> & -> & _).
  rewrite !foldl_insert_lookup. destruct (last _) as [d|]; [|done].
  split_and!; simpl; [apply zero_type|apply zero_valid|done].
Qed.

(** ** Preservation *)

Lemma published_typed st task u d t :
  update_ok st task u -> st_definitions st !! u_name u = Some d -> sample_typed d (published t u).
Proof.
  intros (d' & Hd & _ & Ht & Hv) Hd'. simplify_eq. unfold sample_typed, published; simpl.
  case_bool_decide; [done|]. rewrite Ht. split_and!; [apply zero_type|apply zero_valid|done].
Qed.

Lemma failed_typed d q e s : sample_typed d s -> sample_typed d (failed q e s).
Proof.
  intros (Ht & _ & _). unfold sample_typed; simpl. rewrite Ht. split_and!; [apply zero_type|apply zero_valid|done].
Qed.

Lemma fail_all_lookup q e names (m : gmap string Sample) n :
  NoDup names ->
  foldl (fun m name => alter (failed q e) name m) m names !! n =
    if decide (n ∈ names) then failed q e <$> m !! n else m !! n.
Proof.
  revert m. induction names as [|k names IH]; intros m; cbn [foldl].
  { intros _. case_decide as H; [by apply elem_of_nil in H|done]. }
  intros [Hk Hn]%NoDup_cons. rewrite IH by done. destruct (decide (n = k)) as [->|Hne].
  - rewrite lookup_alter_eq. rewrite decide_False by done. by rewrite decide_True by apply list_elem_of_here.
  - rewrite lookup_alter_ne by done. repeat case_decide; try done; set_solver.
Qed.

Lemma fail_typed_fold q e names (m : gmap string Sample) n :
  foldl (fun m name => alter (failed q e) name m) m names !! n = m !! n \/
  exists s s', m !! n = Some s /\ foldl (fun m name => alter (failed q e) name m) m names !! n = Some s' /\
    forall d, sample_typed d s -> sample_typed d s'.
Proof.
  revert m. induction names as [|k names IH]; intros m; simpl; [by left|].
  destruct (IH (alter (failed q e) k m)) as [->|(s & s' & Hs & -> & Ht)];
    (destruct (decide (n = k)) as [->|Hne]; [|rewrite lookup_alter_ne in * by done; eauto 10]).
  - rewrite lookup_alter_eq. destruct (m !! k) as [s|]; simpl; [|by left].
    right. exists s, (failed q e s). eauto using failed_typed.
  - rewrite lookup_alter_eq in Hs. apply fmap_Some in Hs as (s0 & Hs0 & ->).
    right. exists s0, s'. eauto using failed_typed.
Qed.

Lemma store_step_typed st st' : store_step st st' -> store_typed st -> store_typed st'.
Proof.
  intros Hs Ht. pose proof (store_step_same _ _ Hs) as (Hd & _). intros n. rewrite Hd.
  destruct Hs as [st id status e rc|st task now|st id r d x|st task us t now|st task q e].
  - unfold port_state. rewrite (proj2 (update_port_same _ _ _)). apply Ht.
  - rewrite (proj2 (attempt_same _ _ _)). apply Ht.
  - unfold record_frame_errors. rewrite (proj2 (update_port_same _ _ _)). apply Ht.
  - unfold publish_points. destruct (st_tasks st !! task); [|apply Ht]. destruct (negb _); [apply Ht|].
    destruct (check_batch _ _ _ _) as [[]|] eqn:Hc; [|apply Ht].
    apply check_batch_spec in Hc as (Hf & Hnd & _). simpl. rewrite (foldl_insert_lookup u_name).
    destruct (last _) as [u|] eqn:E; [|apply Ht]. apply (last_filter_Some u_name) in E as [Hu <-].
    rewrite Forall_forall in Hf. destruct (Hf u Hu) as (d & Hd' & ?).
    rewrite Hd'. eapply published_typed; [by apply Hf|done].
  - unfold fail_points. destruct (bool_decide _); [apply Ht|]. destruct (st_tasks st !! task) as [names|]; [|apply Ht]. simpl.
    specialize (Ht n).
    destruct (fail_typed_fold q e names (st_samples st) n) as [->|(s & s' & Hs & -> & Hp)]; [done|].
    rewrite Hs in Ht. destruct (st_definitions st !! n); [|done]. by apply Hp.
Qed.

(** ** Properties *)

(** The published samples are always well typed. Whatever operations run on
    a new store, every configured point has a sample of its configured type
    with a finite or bounded value, no other name has one, and a sample whose
    quality is not good holds the zero of its type, never a stale value. *)
Theorem store_always_typed config points st :
  rtc store_step (store_new config points) st ->
  st_definitions st = st_definitions (store_new config points) /\ store_typed st.
Proof.
  intros H. assert (Hi : forall a b, rtc store_step a b -> store_typed a -> same_tables a b /\ store_typed b).
  { induction 1 as [|a b c Hab _ IH]; [done|]. intros Ha.
    destruct (IH (store_step_typed _ _ Hab Ha)) as [Hs Ht]. split; [|done].
    etrans; [by apply store_step_same|done]. }
  destruct (Hi _ _ H (store_new_typed _ _)) as [(? & _) ?]. done.
Qed.

(** C39: Publication is all or nothing. A batch is accepted exactly when it
    names every point of the task once, with a valid value of the point's
    type; then exactly those samples become the batch's, and any other batch
    leaves the whole store as it was. *)
Theorem publish_all_or_nothing st task us t now :
  store_wf st ->
  let (st', r) := publish_points st task us t now in
  match r with
  | Ok _ =>
      complete_batch st task us /\
      (forall u, u ∈ us -> st_samples st' !! u_name u = Some (published t u)) /\
      (forall n, n ∉ u_name <$> us -> st_samples st' !! n = st_samples st !! n)
  | Err _ => st' = st /\ ~ complete_batch st task us
  end.
Proof.
  intros Hwf. unfold publish_points. destruct (st_tasks st !! task) as [names|] eqn:Ht.
  2:{ split; [done|]. intros (? & ? & _). congruence. }
  pose proof (publish_checks st task us names Hwf Ht) as Hiff.
  destruct (Nat.eqb_spec (length names) (length us)) as [Hl|Hl]; simpl negb; cbv iota.
  2:{ split; [done|]. intros Hc. apply Hiff in Hc as [? _]. done. }
  destruct (check_batch _ _ _ _) as [[]|e] eqn:Hc.
  2:{ split; [done|]. intros H. apply Hiff in H as [_ ?]. congruence. }
  split; [by apply Hiff|]. apply check_batch_spec in Hc as (_ & Hn & _). simpl.
  split.
  - intros u Hu. by rewrite (foldl_insert_lookup u_name), (last_filter_unique u_name).
  - intros n Hin. rewrite (foldl_insert_lookup u_name). destruct (last _) as [u|] eqn:E; [|done].
    apply (last_filter_Some u_name) in E as [Hu <-]. destruct Hin. by apply list_elem_of_fmap_2.
Qed.

(** ** Reports and the store *)

Lemma add_tasks_found port ts tb t :
  is_Some (tb_tasks tb !! t) \/ t ∈ (t_id <$> ts) -> is_Some (tb_tasks (foldl (add_task port) tb ts) !! t).
Proof.
  revert tb. induction ts as [|task ts IH]; intros tb [H|H]; simpl; [done|by apply elem_of_nil in H| |].
  - apply IH. left. simpl. destruct (decide (t_id task = t)) as [->|]; [rewrite lookup_insert_eq|by rewrite lookup_insert_ne].
    done.
  - apply IH. apply elem_of_cons in H as [->|H]; [left; simpl; by rewrite lookup_insert_eq|by right].
Qed.

Lemma tables_found config port task :
  port ∈ c_ports config -> task ∈ p_tasks port -> is_Some (tb_tasks (tables config) !! t_id task).
Proof.
  intros Hp Ht. unfold tables. set (tb := {| tb_tasks := ∅ |}).
  assert (H : is_Some (tb_tasks tb !! t_id task) \/ port ∈ c_ports config) by auto. revert H. clear Hp.
  generalize tb. induction (c_ports config) as [|p ps IH]; intros tb' [H|H]; simpl; [done|by apply elem_of_nil in H| |].
  - apply IH. left. unfold add_comm_port. apply add_tasks_found. by left.
  - apply IH. apply elem_of_cons in H as [->|H]; [left|by right].
    unfold add_comm_port. apply add_tasks_found. right. by apply list_elem_of_fmap_2.
Qed.

Lemma value_of_typed l f p :
  f ∈ fields l -> value_type (value_of f (bytes_of f p)) = d_data_type (field_definition "" "" f) /\
                  value_valid (value_of f (bytes_of f p)) = true.
Proof.
  intros Hf. unfold value_of, field_definition; simpl d_data_type. destruct (f_kind f); [done| |done].
  split; [done|]. cbn [value_valid]. apply Nat.leb_le. rewrite hex_length.
  unfold bytes_of, slice. rewrite length_take.
  pose proof (field_range l f Hf). assert (payload_len l <= 1156)%nat by (by destruct l; cbn; lia). lia.
Qed.

Lemma report_batch canon config points port task l payload us :
  validate_config canon config points = Ok () -> validate_points config points = Ok () ->
  port ∈ c_ports config -> task ∈ p_tasks port -> from_protocol (t_protocol task) = Some l ->
  decode_report l payload = Ok us -> complete_batch (store_new config points) (t_id task) us.
Proof.
  intros Hc Hv Hp Ht Hl Hd. apply validate_config_spec in Hc as (Hn & _).
  destruct (validate_points_spec _ _ _ _ _ Hv Hp Ht Hl) as [Hlen Hex].
  unfold decode_report in Hd. apply bind_Ok in Hd as ([] & _ & [= <-]).
  destruct (tables_found _ _ _ Hp Ht) as [l0 Hl0].
  exists (d_name <$> task_points task points). split; [|split].
  - destruct (store_new_fields config points) as (_ & _ & ->). rewrite Hl0.
    by rewrite (tables_tasks _ _ _ Hl0).
  - rewrite <- list_fmap_compose. change (u_name ∘ field_update payload) with data_name.
    apply submseteq_length_Permutation.
    + apply NoDup_submseteq; [apply field_names|]. intros n (f & -> & Hf)%list_elem_of_fmap.
      destruct (Hex (field_definition (t_id task) "接收" f)) as (a & Ha & He & _).
      { by apply list_elem_of_fmap_2. }
      change (data_name f) with (d_name (field_definition (t_id task) "接收" f)). rewrite <- He.
      by apply list_elem_of_fmap_2.
    + rewrite !length_fmap, <- Hlen. unfold definitions. by rewrite length_fmap.
  - apply Forall_forall. intros u (f & -> & Hf)%list_elem_of_fmap.
    destruct (Hex (field_definition (t_id task) "接收" f)) as (a & Ha & He & Hty).
    { by apply list_elem_of_fmap_2. }
    apply list_elem_of_filter in Ha as [Htask Ha]. exists a. destruct (value_of_typed l f payload Hf) as [Hvt Hvv].
    split_and!; [by apply store_new_definition|done| |done]. by rewrite Hty.
Qed.

(** A valid snapshot is never refused. With a configuration and a point
    table that passed start-up validation, in every later state of the store,
    whatever snapshot of its layout a report task decodes is published
    completely and with good quality. *)
Theorem validated_report_publishes canon config points port task l payload us st t now :
  validate_config canon config points = Ok () -> validate_points config points = Ok () ->
  port ∈ c_ports config -> task ∈ p_tasks port -> from_protocol (t_protocol task) = Some l ->
  report_response l payload = Ok (Matched us) -> rtc store_step (store_new config points) st ->
  (publish_points st (t_id task) us t now).2 = Ok () /\
  forall f, f ∈ fields l ->
    st_samples (publish_points st (t_id task) us t now).1 !! data_name f =
      Some {| s_value := value_of f (bytes_of f payload); s_quality := Good;
              s_source_timestamp := Some t; s_error := "" |}.
Proof.
  intros Hc Hv Hp Ht Hl Hr Hst.
  assert (Hs : same_tables (store_new config points) st).
  { revert Hst. generalize (store_new config points). induction 1 as [|a b c Hab _ IH]; [done|].
    etrans; [by apply store_step_same|done]. }
  assert (Hd : decode_report l payload = Ok us).
  { unfold report_response in Hr. destruct (_ <? _)%nat; [done|]. destruct (negb _); [done|].
    apply fmap_Ok in Hr as (x & Hx & [= <-]). done. }
  pose proof (report_batch _ _ _ _ _ _ _ _ Hc Hv Hp Ht Hl Hd) as (names & Hnames & Hperm & Hall).
  assert (Hb : complete_batch st (t_id task) us).
  { exists names. destruct Hs as (Hsd & Hstk & _). unfold update_ok. rewrite Hstk, Hsd. done. }
  pose proof (publish_checks st (t_id task) us names
    (same_tables_wf _ _ Hs (store_new_wf _ _ (proj1 (validate_config_spec _ _ _ Hc))))) as Hiff.
  destruct (proj2 (Hiff ltac:(destruct Hs as (_ & -> & _); done)) Hb) as [Hlen Hck].
  unfold publish_points. destruct Hs as (_ & Hstk & _). rewrite Hstk, Hnames, (proj2 (Nat.eqb_eq _ _) Hlen), Hck.
  split; [done|]. intros f Hf. apply check_batch_spec in Hck as (_ & Hnd & _). simpl.
  unfold decode_report in Hd. apply bind_Ok in Hd as ([] & _ & [= <-]).
  assert (Hu : field_update payload f ∈ field_update payload <$> fields l) by (by apply list_elem_of_fmap_2).
  change (data_name f) with (u_name (field_update payload f)). rewrite (foldl_insert_lookup u_name).
  rewrite (last_filter_unique u_name _ (field_update payload f) Hnd Hu). done.
Qed.

(** ** Examples *)

Definition toy_store : PointStore := store_new toy_config toy_points.
Definition toy_report : list Z := empty_transmit_payload Unit9To1.
Definition toy_updates : list PointUpdate := field_update toy_report <$> fields Unit9To1.

Lemma toy_store_wf : store_wf toy_store.
Proof. apply store_new_wf, (validate_config_spec (fun _ => None) toy_config), toy_valid. Qed.

Lemma store_always_typed_witness :
  exists st, rtc store_step toy_store st /\ store_typed st /\
    s_quality <$> st_samples st !! "DATA.Buildings.91UBH.Fire" = Some Good.
Proof.
  exists (publish_points toy_store "peer" toy_updates 7 8).1.
  assert (H : rtc store_step toy_store (publish_points toy_store "peer" toy_updates 7 8).1)
    by apply rtc_once, step_publish.
  split; [exact H|]. split; [apply (store_always_typed _ _ _ H)|]. vm_compute. reflexivity.
Defined.

Lemma publish_all_or_nothing_witness :
  complete_batch toy_store "peer" toy_updates /\
  (publish_points toy_store "peer" (tail toy_updates) 7 8).1 = toy_store.
Proof.
  pose proof (publish_all_or_nothing toy_store "peer" toy_updates 7 8 toy_store_wf) as H1.
  pose proof (publish_all_or_nothing toy_store "peer" (tail toy_updates) 7 8 toy_store_wf) as H2.
  assert (E1 : (publish_points toy_store "peer" toy_updates 7 8).2 = Ok ()) by (vm_compute; reflexivity).
  assert (E2 : exists e, (publish_points toy_store "peer" (tail toy_updates) 7 8).2 = Err e)
    by (eexists; vm_compute; reflexivity). destruct E2 as [e E2].
  destruct (publish_points toy_store "peer" toy_updates 7 8) as [s1 r1].
  destruct (publish_points toy_store "peer" (tail toy_updates) 7 8) as [s2 r2].
  simpl in E1, E2. subst. split; [apply H1|apply H2].
Defined.

Lemma validated_report_publishes_witness :
  (publish_points toy_store "peer" toy_updates 7 8).2 = Ok () /\
  st_samples (publish_points toy_store "peer" toy_updates 7 8).1 !! "DATA.Header.nBlock.z" =
    Some {| s_value := PUInt32 9; s_quality := Good; s_source_timestamp := Some 7; s_error := "" |}.
Proof.
  destruct (validated_report_publishes (fun _ => None) toy_config toy_points toy_port toy_task Unit9To1 toy_report
              toy_updates toy_store 7 8) as [H1 H2].
  - apply toy_valid.
  - apply toy_valid.
  - apply list_elem_of_here.
  - apply list_elem_of_here.
  - reflexivity.
  - vm_compute. reflexivity.
  - apply rtc_refl.
  - split; [exact H1|]. apply (H2 (new_field "Header.nBlock.z" 0 2 Unsigned)). apply list_elem_of_here.
Defined.
