(* ===== verification/Mailbox.v ===== *)
(** * The transmit mailboxes (src/communicate/src/synchronization.rs, [Mailboxes])

    The data a client supplies for transmission: a whole snapshot replaced by
    compare-and-swap, or single fields that each expire.  The lock is held for
    the whole of every operation.  The [serde_json] crate is a parameter: it
    gives the members of a request in the order of the text; the check for
    repeated members is the source's own.  Clock readings are arguments. *)

From S2P Require Import Prelude RustFloat RustStr Model Csv Protocol CommModel UnitReport CommConfig.
Open Scope string_scope.
Open Scope Z_scope.
Open Scope list_scope.

Record SyncSnapshot := { sn_bytes : list Z; sn_supplied : Z }.

(** A field's value with the instant and the wall clock time of its write. *)
Record FieldInput := { fi_value : PValue; fi_at : Z; fi_utc : Z }.

Record Slot := {
  sl_settings : Settings;
  sl_enabled : bool;
  sl_revision : Z;
  sl_snapshot : option SyncSnapshot;
  sl_sent : Z;
  sl_error : string;
  sl_fields : gmap string FieldInput;
  sl_field_payload : list Z;
  sl_atomic_mode : bool
}.

Abbreviation Mailboxes := (gmap string Slot) (only parsing).

Definition set_input (s : Slot) (revision : Z) (snapshot : option SyncSnapshot)
    (fs : gmap string FieldInput) (payload : list Z) (atomic : bool) : Slot :=
  {| sl_settings := sl_settings s; sl_enabled := sl_enabled s; sl_revision := revision;
     sl_snapshot := snapshot; sl_sent := sl_sent s; sl_error := sl_error s; sl_fields := fs;
     sl_field_payload := payload; sl_atomic_mode := atomic |}.

Definition new_slot (port : PortConfig) (settings : Settings) : Slot :=
  {| sl_settings := settings; sl_enabled := p_enabled port && existsb t_enabled (p_tasks port);
     sl_revision := 0; sl_snapshot := None; sl_sent := 0; sl_error := ""; sl_fields := ∅;
     sl_field_payload := []; sl_atomic_mode := false |}.

Definition mailboxes_new (config : CommConfig) : Mailboxes :=
  foldl (fun m p => match p_synchronization p with
                    | Some settings => <[p_id p := new_slot p settings]> m
                    | None => m
                    end) ∅ (c_ports config).

Definition transmitting (s : Slot) : bool := sl_enabled s && transmit_enabled (sl_settings s).
Definition slot_layout (s : Slot) : option Layout := from_protocol (transmit_protocol (sl_settings s)).

(** ** Whole snapshots *)

Definition submit_slot (s : Slot) (revision : Z) (payload : list Z) (now : Z) : result string Slot :=
  if negb (transmitting s) then Err "transmission disabled"
  else if negb (revision =? sl_revision s) then Err "snapshot revision conflict"
  else
    l ← ok_or "unsupported layout" (slot_layout s);
    _ ← map_err (fun e => "device protocol: " +:+ e) (validate_payload l payload);
    next ← ok_or "snapshot revision exhausted" (u64_checked_add (sl_revision s) 1);
    Ok (set_input s next (Some {| sn_bytes := payload; sn_supplied := now |}) ∅ (sl_field_payload s) true).

Definition submit (m : Mailboxes) (port : string) (revision : Z) (payload : list Z) (now : Z)
    : Mailboxes * result string Z :=
  match m !! port with
  | None => (m, Err "unknown synchronization port")
  | Some s =>
      match submit_slot s revision payload now with
      | Err e => (m, Err e)
      | Ok s' => (<[port := s']> m, Ok (sl_revision s'))
      end
  end.

(** The hexadecimal text of [submit_json]. *)
Definition payload_of_hex (text : string) : result string (list Z) :=
  let cs := filter (fun c => is_ascii_whitespace c = false) (list_ascii_of_string text) in
  if negb (length cs mod 2 =? 0)%nat || negb (forallb (fun c => code c <? 128) cs)
  then Err "invalid hexadecimal payload"
  else map_err (fun _ => "invalid hexadecimal payload") (hex_pairs cs).

(** ** Single fields *)

Inductive Json :=
| JUnsigned (n : Z)
| JText (s : string)
| JOther.

(** The visitor of [unique_fields]. *)
Fixpoint unique_fields (members : list (string * Json)) (acc : gmap string Json)
    : result string (gmap string Json) :=
  match members with
  | [] => Ok acc
  | (k, v) :: members =>
      if bool_decide (is_Some (acc !! k)) then Err "duplicate input field"
      else unique_fields members (<[k := v]> acc)
  end.

Definition json_value (t : DataType) (raw : Json) : result string PValue :=
  match t with
  | DUInt32 =>
      match raw with
      | JUnsigned n => if n <=? u32_max then Ok (PUInt32 n) else Err "input must be UInt32"
      | _ => Err "input must be UInt32"
      end
  | DString => match raw with JText s => Ok (PString s) | _ => Err "input must be String" end
  | _ => Err "unsupported input type"
  end.

(** The loop over the definitions: a private payload and field set. *)
Fixpoint collect_fields (l : Layout) (fs : gmap string Json) (now utc : Z) (defs : list PointDefinition)
    (payload : list Z) (acc : gmap string FieldInput) : result string (list Z * gmap string FieldInput) :=
  match defs with
  | [] => Ok (payload, acc)
  | d :: defs =>
      raw ← ok_or "missing snapshot input" (fs !! d_name d);
      value ← json_value (d_data_type d) raw;
      payload ← map_err (fun e => "device protocol: " +:+ e) (write_transmit_field l (d_name d) value payload);
      collect_fields l fs now utc defs payload
        (<[d_name d := {| fi_value := value; fi_at := now; fi_utc := utc |}]> acc)
  end.

Definition submit_fields_slot (port : string) (s : Slot) (revision : Z) (fs : gmap string Json) (now utc : Z)
    : result string Slot :=
  if negb (transmitting s) then Err "transmission disabled"
  else if negb (revision =? sl_revision s) then Err "snapshot revision conflict"
  else
    l ← ok_or "unsupported layout" (slot_layout s);
    let defs := transmit_definitions l port in
    if negb (size fs =? length defs)%nat then Err "snapshot requires every input exactly once"
    else
      '(payload, inputs) ← collect_fields l fs now utc defs (empty_transmit_payload l) ∅;
      next ← ok_or "snapshot revision exhausted" (u64_checked_add (sl_revision s) 1);
      Ok (set_input s next None inputs payload true).

Section Requests.
Context (json_snapshot : string -> result string (Z * string)).
Context (json_fields : string -> result string (Z * list (string * Json))).

(** The reply is rendered as JSON from this result. *)
Definition submit_json (m : Mailboxes) (port input : string) (now : Z) : Mailboxes * result string Z :=
  if (8192 <? String.length input)%nat then (m, Err "snapshot request too large")
  else
    match json_snapshot input with
    | Err e => (m, Err e)
    | Ok (revision, text) =>
        match payload_of_hex text with
        | Err e => (m, Err e)
        | Ok payload => submit m port revision payload now
        end
    end.

Definition submit_fields_json (m : Mailboxes) (port input : string) (now utc : Z) : Mailboxes * result string Z :=
  if 64 * 1024 <? Z.of_nat (String.length input) then (m, Err "snapshot request too large")
  else
    match ('(revision, members) ← json_fields input; fs ← unique_fields members ∅; Ok (revision, fs)) with
    | Err e => (m, Err e)
    | Ok (revision, fs) =>
        match m !! port with
        | None => (m, Err "unknown port")
        | Some s =>
            match submit_fields_slot port s revision fs now utc with
            | Err e => (m, Err e)
            | Ok s' => (<[port := s']> m, Ok (sl_revision s'))
            end
        end
    end.
End Requests.

(** [write_field] creates the payload before the value is checked, so a
    refused write may leave an empty payload behind. *)
Definition write_field_slot (s : Slot) (name : string) (value : PValue) (now utc : Z) : Slot * result string () :=
  if negb (transmitting s) then (s, Err "transmission disabled")
  else if sl_atomic_mode s then (s, Err "atomic snapshot active; submit a complete snapshot")
  else
    match slot_layout s with
    | None => (s, Err "unsupported layout")
    | Some l =>
        let payload := match sl_field_payload s with [] => empty_transmit_payload l | p => p end in
        let s := set_input s (sl_revision s) (sl_snapshot s) (sl_fields s) payload (sl_atomic_mode s) in
        match u64_checked_add (sl_revision s) 1 with
        | None => (s, Err "snapshot revision exhausted")
        | Some next =>
            match write_transmit_field l name value payload with
            | Err e => (s, Err ("device protocol: " +:+ e))
            | Ok payload =>
                (set_input s next None
                   (<[name := {| fi_value := value; fi_at := now; fi_utc := utc |}]> (sl_fields s))
                   payload (sl_atomic_mode s), Ok ())
            end
        end
    end.

Definition write_field (m : Mailboxes) (port name : string) (value : PValue) (now utc : Z)
    : Mailboxes * result string () :=
  match m !! port with
  | None => (m, Err "unknown port")
  | Some s => let '(s', r) := write_field_slot s name value now utc in (<[port := s']> m, r)
  end.

(** ** Reading *)

Definition max_age (s : Slot) : Z := millis (snapshot_max_age_ms (sl_settings s)).

Definition field_sample (m : Mailboxes) (port name : string) (t : DataType) (now : Z) : result string Sample :=
  s ← ok_or "unknown port" (m !! port);
  let input := sl_fields s !! name in
  let quality :=
    if negb (transmitting s) then OutOfService
    else match input with
         | None => Waiting
         | Some i => if max_age s <=? duration_saturating_sub now (fi_at i) then NoCommunication else Good
         end in
  Ok {| s_value := match input with Some i => fi_value i | None => zero t end; s_quality := quality;
        s_source_timestamp := fi_utc <$> input; s_error := "" |}.

Definition stale (s : Slot) (now : Z) (i : FieldInput) : bool :=
  max_age s <=? duration_saturating_sub now (fi_at i).

Definition current_slot (port : string) (s : Slot) (now : Z) : option (list Z) :=
  if negb (transmitting s) then None
  else if negb (bool_decide (sl_fields s = ∅)) then
    l ← slot_layout s;
    if negb (size (sl_fields s) =? length (transmit_definitions l port))%nat
       || existsb (stale s now) (map_to_list (sl_fields s)).*2
    then None
    else Some (sl_field_payload s)
  else
    sn ← sl_snapshot s;
    if duration_saturating_sub now (sn_supplied sn) <? max_age s then Some (sn_bytes sn) else None.

Definition current (m : Mailboxes) (port : string) (now : Z) : option (list Z) :=
  s ← m !! port; current_slot port s now.

(** The numbers [status] renders as JSON. *)
Record Status := {
  su_revision : Z;
  su_atomic : bool;
  su_fresh : bool;
  su_age_ms : option Z;
  su_required : nat;
  su_received : nat;
  su_stale : nat;
  su_complete_writes : Z;
  su_last_error : string
}.

Definition status (m : Mailboxes) (port : string) (now : Z) : result string Status :=
  s ← ok_or "unknown synchronization port" (m !! port);
  let age := (fun sn => duration_saturating_sub now (sn_supplied sn) / 1000000) <$> sl_snapshot s in
  let required := match slot_layout s with Some l => length (transmit_definitions l port) | None => O end in
  let stale_count := length (filter (fun i => stale s now i = true) (map_to_list (sl_fields s)).*2) in
  let fresh :=
    if bool_decide (sl_fields s = ∅)
    then match age with Some a => a <? snapshot_max_age_ms (sl_settings s) | None => false end
    else (size (sl_fields s) =? required)%nat && (stale_count =? 0)%nat in
  Ok {| su_revision := sl_revision s; su_atomic := sl_atomic_mode s; su_fresh := fresh; su_age_ms := age;
        su_required := required; su_received := size (sl_fields s); su_stale := stale_count;
        su_complete_writes := sl_sent s; su_last_error := sl_error s |}.

(** [result]: the outcome of one transmission, with the error's text. *)
Definition transmit_result (m : Mailboxes) (port : string) (r : result string ()) : Mailboxes :=
  alter (fun s =>
    {| sl_settings := sl_settings s; sl_enabled := sl_enabled s; sl_revision := sl_revision s;
       sl_snapshot := sl_snapshot s;
       sl_sent := match r with Ok _ => u64_saturating_add (sl_sent s) 1 | Err _ => sl_sent s end;
       sl_error := match r with Ok _ => "" | Err e => e end;
       sl_fields := sl_fields s; sl_field_payload := sl_field_payload s; sl_atomic_mode := sl_atomic_mode s |})
    port m.

(** ** Histories

    The operations of the clients and of the transmitter, and the inputs they
    supplied: a log entry for every accepted snapshot and field. *)

Inductive Input :=
| InSnapshot (payload : list Z)
| InField (name : string) (value : PValue).

Record Entry := { en_port : string; en_at : Z; en_input : Input }.

Inductive Op :=
| OpSubmit (port : string) (revision : Z) (payload : list Z) (now : Z)
| OpFields (port : string) (revision : Z) (fs : gmap string Json) (now utc : Z)
| OpWrite (port name : string) (value : PValue) (now utc : Z)
| OpResult (port : string) (r : result string ()).

Definition field_entries (port : string) (fs : gmap string FieldInput) : list Entry :=
  (fun '(n, i) => {| en_port := port; en_at := fi_at i; en_input := InField n (fi_value i) |}) <$> map_to_list fs.

(** One operation, the inputs it supplied and whether it was accepted. *)
Definition run_op (m : Mailboxes) (op : Op) : Mailboxes * list Entry * bool :=
  match op with
  | OpSubmit port revision payload now =>
      let '(m', r) := submit m port revision payload now in
      (m', if is_ok r then [{| en_port := port; en_at := now; en_input := InSnapshot payload |}] else [], is_ok r)
  | OpFields port revision fs now utc =>
      match m !! port with
      | None => (m, [], false)
      | Some s =>
          match submit_fields_slot port s revision fs now utc with
          | Err _ => (m, [], false)
          | Ok s' => (<[port := s']> m, field_entries port (sl_fields s'), true)
          end
      end
  | OpWrite port name value now utc =>
      let '(m', r) := write_field m port name value now utc in
      (m', if is_ok r then [{| en_port := port; en_at := now; en_input := InField name value |}] else [], is_ok r)
  | OpResult port r => (transmit_result m port r, [], true)
  end.

Fixpoint run_ops (m : Mailboxes) (log : list Entry) (ops : list Op) : Mailboxes * list Entry :=
  match ops with
  | [] => (m, log)
  | op :: ops => let '(m', es, _) := run_op m op in run_ops m' (log ++ es) ops
  end.

(** The last value a field was given, and the last snapshot of a port. *)
Definition field_entry (port name : string) (e : Entry) : option (PValue * Z) :=
  if decide (en_port e = port) then
    match en_input e with
    | InField n v => if decide (n = name) then Some (v, en_at e) else None
    | InSnapshot _ => None
    end
  else None.
Definition last_field (log : list Entry) (port name : string) : option (PValue * Z) :=
  last (omap (field_entry port name) log).

Definition snapshot_entry (port : string) (e : Entry) : option (list Z * Z) :=
  if decide (en_port e = port) then
    match en_input e with InSnapshot p => Some (p, en_at e) | InField _ _ => None end
  else None.
Definition last_snapshot (log : list Entry) (port : string) : option (list Z * Z) :=
  last (omap (snapshot_entry port) log).

(** ** The invariant of a slot *)

Record slot_ok (log : list Entry) (port : string) (s : Slot) : Prop := {
  ok_snapshot : forall sn, sl_snapshot s = Some sn ->
    (exists l, slot_layout s = Some l /\ validate_payload l (sn_bytes sn) = Ok ()) /\
    last_snapshot log port = Some (sn_bytes sn, sn_supplied sn);
  ok_payload : sl_field_payload s = [] \/
    exists l, slot_layout s = Some l /\ validate_payload l (sl_field_payload s) = Ok ();
  ok_fields : forall n i, sl_fields s !! n = Some i ->
    last_field log port n = Some (fi_value i, fi_at i) /\
    exists l f, slot_layout s = Some l /\ validate_payload l (sl_field_payload s) = Ok () /\
      f ∈ transmit_fields l /\ n = data_name f /\
      value_of f (bytes_of f (sl_field_payload s)) = canonical (fi_value i)
}.

Definition mailboxes_ok (log : list Entry) (m : Mailboxes) : Prop :=
  forall port s, m !! port = Some s -> slot_ok log port s.

Lemma last_app_nil {A} (l k : list A) : k = [] -> last (l ++ k) = last l.
Proof. intros ->. by rewrite app_nil_r. Qed.

Lemma last_field_other log es port name :
  Forall (fun e => field_entry port name e = None) es -> last_field (log ++ es) port name = last_field log port name.
Proof.
  intros H. unfold last_field. rewrite omap_app. apply last_app_nil.
  induction H as [|e es He _ IH]; [done|]. simpl. by rewrite He.
Qed.

Lemma last_snapshot_other log es port :
  Forall (fun e => snapshot_entry port e = None) es -> last_snapshot (log ++ es) port = last_snapshot log port.
Proof.
  intros H. unfold last_snapshot. rewrite omap_app. apply last_app_nil.
  induction H as [|e es He _ IH]; [done|]. simpl. by rewrite He.
Qed.

(** Entries of another port do not matter. *)
Lemma slot_ok_other log es port s :
  Forall (fun e => en_port e <> port) es -> slot_ok log port s -> slot_ok (log ++ es) port s.
Proof.
  intros Hes [H1 H2 H3]. split; [|done|].
  - intros sn Hsn. rewrite last_snapshot_other; [by apply H1|].
    eapply Forall_impl; [exact Hes|]. intros e He. unfold snapshot_entry. by rewrite decide_False.
  - intros n i Hi. rewrite last_field_other; [by apply H3|].
    eapply Forall_impl; [exact Hes|]. intros e He. unfold field_entry. by rewrite decide_False.
Qed.

Lemma mailboxes_ok_insert log es port s m :
  mailboxes_ok log m -> Forall (fun e => en_port e = port) es -> slot_ok (log ++ es) port s ->
  mailboxes_ok (log ++ es) (<[port := s]> m).
Proof.
  intros Hm Hes Hs q s' [[-> <-]|[Hne Hq]]%lookup_insert_Some; [done|].
  apply slot_ok_other; [|by apply Hm]. eapply Forall_impl; [exact Hes|]. intros e ->. congruence.
Qed.

Lemma submit_slot_Ok s revision payload now s' :
  submit_slot s revision payload now = Ok s' ->
  exists l, slot_layout s = Some l /\ validate_payload l payload = Ok () /\ revision = sl_revision s /\
    transmitting s = true /\ sl_revision s < u64_max /\
    s' = set_input s (sl_revision s + 1) (Some {| sn_bytes := payload; sn_supplied := now |}) ∅ (sl_field_payload s) true.
Proof.
  unfold submit_slot. destruct (transmitting s) eqn:Ht; [|done].
  destruct (Z.eqb_spec revision (sl_revision s)); [|done]. simpl negb. cbv iota. intros H.
  apply bind_Ok in H as (l & Hl%ok_or_Ok & H). apply bind_Ok in H as ([] & Hp & H).
  apply bind_Ok in H as (next & Hn%ok_or_Ok & [= <-]). unfold u64_checked_add in Hn.
  destruct (Z.leb_spec (sl_revision s + 1) u64_max); [|done]. injection Hn as <-.
  exists l. split_and!; try done; [|lia]. by destruct (validate_payload l payload) as [[]|].
Qed.

Lemma submit_slot_ok log port s revision payload now s' :
  slot_ok log port s -> submit_slot s revision payload now = Ok s' ->
  slot_ok (log ++ [{| en_port := port; en_at := now; en_input := InSnapshot payload |}]) port s'.
Proof.
  intros Hs (l & Hl & Hp & _ & _ & _ & ->)%submit_slot_Ok. split; simpl.
  - intros sn [= <-]. split; [by exists l|]. unfold last_snapshot. rewrite omap_app. simpl.
    unfold snapshot_entry; simpl. rewrite decide_True by done. apply last_snoc.
  - apply (ok_payload _ _ _ Hs).
  - intros n i Hi. by rewrite lookup_empty in Hi.
Qed.

(** ** Fields and their payload *)

Definition inputs_match (l : Layout) (payload : list Z) (fs : gmap string FieldInput) : Prop :=
  forall n i, fs !! n = Some i -> exists f, f ∈ transmit_fields l /\ n = data_name f /\
    value_of f (bytes_of f payload) = canonical (fi_value i).

Lemma inputs_match_write l name v payload payload' fs at_ utc :
  inputs_match l payload fs -> write_transmit_field l name v payload = Ok payload' ->
  inputs_match l payload' (<[name := {| fi_value := v; fi_at := at_; fi_utc := utc |}]> fs) /\
  validate_payload l payload' = Ok ().
Proof.
  intros Hm Hw. apply write_field_spec in Hw as (_ & Hp & f & Hf & -> & Hv & Ho). split; [|done].
  intros n i [[<- <-]|[Hne Hi]]%lookup_insert_Some; [by exists f|].
  destruct (Hm n i Hi) as (g & Hg & -> & Hgv). exists g. split_and!; [done|done|].
  rewrite Ho; [done| |congruence]. by apply elem_of_transmit in Hg as [? _].
Qed.

Lemma collect_fields_ok l fs now utc defs payload acc payload' acc' :
  validate_payload l payload = Ok () -> inputs_match l payload acc ->
  collect_fields l fs now utc defs payload acc = Ok (payload', acc') ->
  validate_payload l payload' = Ok () /\ inputs_match l payload' acc'.
Proof.
  revert payload acc. induction defs as [|d defs IH]; intros payload acc Hp Hm; cbn [collect_fields].
  { by intros [= <- <-]. }
  intros H. apply bind_Ok in H as (raw & _ & H). apply bind_Ok in H as (v & _ & H).
  apply bind_Ok in H as (p & Hw & H).
  destruct (write_transmit_field _ _ _ _) as [p0|] eqn:E; [|done]. injection Hw as ->.
  destruct (inputs_match_write _ _ _ _ _ _ now utc Hm E). by eapply IH.
Qed.

Lemma submit_fields_Ok port s revision fs now utc s' :
  submit_fields_slot port s revision fs now utc = Ok s' ->
  exists l payload inputs, slot_layout s = Some l /\ revision = sl_revision s /\ transmitting s = true /\
    validate_payload l payload = Ok () /\ inputs_match l payload inputs /\ sl_revision s < u64_max /\
    s' = set_input s (sl_revision s + 1) None inputs payload true.
Proof.
  unfold submit_fields_slot. destruct (transmitting s) eqn:Ht; [|done].
  destruct (Z.eqb_spec revision (sl_revision s)); [|done]. simpl negb. cbv iota. intros H.
  apply bind_Ok in H as (l & Hl%ok_or_Ok & H). destruct (negb _); [done|].
  apply bind_Ok in H as ([payload inputs] & Hc & H).
  apply collect_fields_ok in Hc as [Hv Hi]; [|apply validate_empty|by intros n i Hn; rewrite lookup_empty in Hn].
  apply bind_Ok in H as (next & Hn%ok_or_Ok & [= <-]). unfold u64_checked_add in Hn.
  destruct (Z.leb_spec (sl_revision s + 1) u64_max); [|done]. injection Hn as <-.
  exists l, payload, inputs. split_and!; try done. lia.
Qed.

Lemma last_all {A} (k l : list A) a b : b ∈ l -> (forall x, x ∈ l -> x = a) -> last (k ++ l) = Some a.
Proof.
  intros Hb Ha. rewrite last_app. destruct (last l) as [x|] eqn:E.
  - f_equal. by apply Ha, last_Some_elem_of.
  - apply last_None in E as ->. by apply elem_of_nil in Hb.
Qed.

Lemma last_field_entries log port fs n i :
  fs !! n = Some i -> last_field (log ++ field_entries port fs) port n = Some (fi_value i, fi_at i).
Proof.
  intros Hi. unfold last_field. rewrite omap_app. eapply last_all.
  - apply list_elem_of_omap. exists {| en_port := port; en_at := fi_at i; en_input := InField n (fi_value i) |}.
    split; [apply list_elem_of_fmap; exists (n, i); split; [done|by apply elem_of_map_to_list]|].
    unfold field_entry; simpl. by rewrite !decide_True.
  - intros x (e & ([n' i'] & -> & Hin%elem_of_map_to_list)%list_elem_of_fmap & Hx)%list_elem_of_omap.
    unfold field_entry in Hx; simpl in Hx. rewrite decide_True in Hx by done. case_decide; [|done]. by simplify_eq.
Qed.

Lemma submit_fields_ok log port s revision fs now utc s' :
  slot_ok log port s -> submit_fields_slot port s revision fs now utc = Ok s' ->
  slot_ok (log ++ field_entries port (sl_fields s')) port s'.
Proof.
  intros Hs (l & payload & inputs & Hl & _ & _ & Hp & Hm & _ & ->)%submit_fields_Ok. split; simpl.
  - done.
  - right. by exists l.
  - intros n i Hi. split; [by apply last_field_entries|].
    destruct (Hm n i Hi) as (f & Hf & Hn & Hv). by exists l, f.
Qed.

(** The slot before a field is written: its payload is there. *)
Lemma slot_ok_payload log port s l :
  slot_ok log port s -> slot_layout s = Some l ->
  let payload := match sl_field_payload s with [] => empty_transmit_payload l | p => p end in
  validate_payload l payload = Ok () /\ inputs_match l payload (sl_fields s).
Proof.
  intros Hs Hl. destruct (sl_field_payload s) as [|b p] eqn:Ep; cbv zeta.
  - split; [apply validate_empty|]. intros n i Hi.
    destruct (ok_fields _ _ _ Hs n i Hi) as (_ & l' & f & Hl' & Hp & _).
    rewrite Ep in Hp. apply validate_payload_Ok in Hp as [Hp _]. by destruct l'.
  - split.
    + destruct (ok_payload _ _ _ Hs) as [H|(l' & Hl' & Hp)]; [congruence|]. rewrite Ep in Hp. congruence.
    + intros n i Hi. destruct (ok_fields _ _ _ Hs n i Hi) as (_ & l' & f & Hl' & _ & Hf & Hn & Hv).
      rewrite Ep in Hv. simplify_eq. by exists f.
Qed.

Lemma write_field_slot_ok log port s name v now utc s' r :
  slot_ok log port s -> write_field_slot s name v now utc = (s', r) ->
  slot_ok (log ++ if is_ok r then [{| en_port := port; en_at := now; en_input := InField name v |}] else [])
    port s'.
Proof.
  intros Hs. unfold write_field_slot.
  destruct (negb (transmitting s)); [by intros [= <- <-]; simpl; rewrite app_nil_r|].
  destruct (sl_atomic_mode s); [by intros [= <- <-]; simpl; rewrite app_nil_r|].
  destruct (slot_layout s) as [l|] eqn:Hl; [|by intros [= <- <-]; simpl; rewrite app_nil_r].
  destruct (slot_ok_payload _ _ _ _ Hs Hl) as [Hp Hm]. cbv zeta.
  set (payload := match sl_field_payload s with [] => _ | _ => _ end) in *.
  assert (Hs1 : slot_ok log port (set_input s (sl_revision s) (sl_snapshot s) (sl_fields s) payload false)).
  { split; simpl; [apply (ok_snapshot _ _ _ Hs)|right; by exists l|]. intros n i Hi.
    split; [apply (ok_fields _ _ _ Hs n i Hi)|].
    destruct (Hm n i Hi) as (f & Hf & -> & Hv). by exists l, f. }
  destruct (u64_checked_add _ _) as [next|]; [|by intros [= <- <-]; simpl; rewrite app_nil_r].
  destruct (write_transmit_field l name v payload) as [payload'|] eqn:Hw; [|by intros [= <- <-]; simpl; rewrite app_nil_r].
  intros [= <- <-]. simpl is_ok. cbv iota.
  destruct (inputs_match_write _ _ _ _ _ _ now utc Hm Hw) as [Hm' Hp']. split; simpl.
  - done.
  - right. by exists l.
  - intros n i Hi. split; [|destruct (Hm' n i Hi) as (f & Hf & Hn & Hv); by exists l, f].
    apply lookup_insert_Some in Hi as [[<- <-]|[Hne Hi]].
    + unfold last_field. rewrite omap_app. eapply last_all; [apply list_elem_of_omap; eexists; split; [apply list_elem_of_here|]|].
      * unfold field_entry; simpl. by rewrite !decide_True.
      * unfold field_entry; simpl. rewrite !decide_True by done. by intros x ->%list_elem_of_singleton.
    + rewrite last_field_other; [apply (ok_fields _ _ _ Hs n i Hi)|]. constructor; [|done].
      unfold field_entry; simpl. rewrite decide_True by done. by rewrite decide_False.
Qed.

(** ** Every history keeps the invariant *)

Lemma run_op_ok log m op m' es b :
  mailboxes_ok log m -> run_op m op = (m', es, b) -> mailboxes_ok (log ++ es) m'.
Proof.
  intros Hm. destruct op as [port revision payload now|port revision fs now utc|port name v now utc|port r]; simpl.
  - unfold submit. destruct (m !! port) as [s|] eqn:Hs; [|intros [= <- <- _]; by rewrite app_nil_r].
    destruct (submit_slot s revision payload now) as [s'|] eqn:E; [|intros [= <- <- _]; by rewrite app_nil_r].
    intros [= <- <- _]. apply mailboxes_ok_insert; [done|by constructor|]. eapply submit_slot_ok; [by apply Hm|done].
  - destruct (m !! port) as [s|] eqn:Hs; [|intros [= <- <- _]; by rewrite app_nil_r].
    destruct (submit_fields_slot _ _ _ _ _ _) as [s'|] eqn:E; [|intros [= <- <- _]; by rewrite app_nil_r].
    intros [= <- <- _]. apply mailboxes_ok_insert; [done| |eapply submit_fields_ok; [by apply Hm|done]].
    apply Forall_forall. by intros e ([n i] & -> & _)%list_elem_of_fmap.
  - unfold write_field. destruct (m !! port) as [s|] eqn:Hs; [|intros [= <- <- _]; by rewrite app_nil_r].
    destruct (write_field_slot s name v now utc) as [s' r] eqn:E. intros [= <- <- _].
    apply mailboxes_ok_insert; [done|by destruct (is_ok r); constructor|].
    eapply write_field_slot_ok; [by apply Hm|done].
  - intros [= <- <- _]. rewrite app_nil_r. intros q s. unfold transmit_result.
    rewrite lookup_alter_Some. intros [(-> & s0 & Hs0 & ->)|[_ Hq]]; [|by apply Hm].
    by destruct (Hm _ _ Hs0) as [H1 H2 H3].
Qed.

Lemma mailboxes_new_ok config : mailboxes_ok [] (mailboxes_new config).
Proof.
  unfold mailboxes_new. assert (H : mailboxes_ok [] ∅) by (intros q s Hq; by rewrite lookup_empty in Hq).
  revert H. generalize (∅ : Mailboxes). induction (c_ports config) as [|p ps IH]; intros m Hm; [done|].
  simpl. apply IH. destruct (p_synchronization p) as [settings|]; [|done].
  intros q s [[_ <-]|[_ Hq]]%lookup_insert_Some; [|by apply Hm].
  split; simpl; [done|by left|]. intros n i Hi. by rewrite lookup_empty in Hi.
Qed.

Lemma run_ops_ok m log ops m' log' :
  mailboxes_ok log m -> run_ops m log ops = (m', log') -> mailboxes_ok log' m'.
Proof.
  revert m log. induction ops as [|op ops IH]; intros m log Hm; simpl; [by intros [= <- <-]|].
  destruct (run_op m op) as [[m1 es] b] eqn:E. by eapply IH, run_op_ok.
Qed.

Lemma run_ops_app m log ops ops' :
  run_ops m log (ops ++ ops') = let '(m', log') := run_ops m log ops in run_ops m' log' ops'.
Proof.
  revert m log. induction ops as [|op ops IH]; intros m log; simpl; [done|].
  destruct (run_op m op) as [[m1 es] b]. apply IH.
Qed.

(** The log only records. *)
Lemma run_ops_log m log log' ops : (run_ops m log ops).1 = (run_ops m log' ops).1.
Proof.
  revert m log log'. induction ops as [|op ops IH]; intros m log log'; simpl; [done|].
  destruct (run_op m op) as [[m1 es] b]. apply IH.
Qed.

Lemma transmit_names l : NoDup (data_name <$> transmit_fields l).
Proof. eapply sublist_NoDup; [apply field_names|]. apply fmap_sublist, sublist_filter. Qed.

(** As many fields as inputs means every input. *)
Lemma fields_complete log port s l :
  slot_ok log port s -> slot_layout s = Some l ->
  size (sl_fields s) = length (transmit_definitions l port) ->
  forall f, f ∈ transmit_fields l -> is_Some (sl_fields s !! data_name f).
Proof.
  intros Hs Hl Hsize f Hf. apply elem_of_dom.
  assert (Heq : dom (sl_fields s) = list_to_set (data_name <$> transmit_fields l)).
  { apply set_subseteq_size_eq.
    - intros n [i Hi]%elem_of_dom. destruct (ok_fields _ _ _ Hs n i Hi) as (_ & l' & g & Hl' & _ & Hg & -> & _).
      simplify_eq. apply elem_of_list_to_set. by apply list_elem_of_fmap_2.
    - rewrite size_dom, Hsize, size_list_to_set by apply transmit_names.
      unfold transmit_definitions. by rewrite !length_fmap. }
  rewrite Heq. apply elem_of_list_to_set. by apply list_elem_of_fmap_2.
Qed.

(** A payload that may go on the wire at [now]: a valid snapshot of the layout
    of an enabled port, and either the last snapshot submitted, younger than
    the maximum age, or one whose inputs decode to the last value supplied for
    each field, each younger than the maximum age. *)
Definition fresh_payload (log : list Entry) (m : Mailboxes) (port : string) (now : Z) (payload : list Z) : Prop :=
  exists s l, m !! port = Some s /\ transmitting s = true /\ slot_layout s = Some l /\
    validate_payload l payload = Ok () /\
    ((exists t, last_snapshot log port = Some (payload, t) /\ duration_saturating_sub now t < max_age s) \/
     forall f, f ∈ transmit_fields l -> exists v t, last_field log port (data_name f) = Some (v, t) /\
       duration_saturating_sub now t < max_age s /\ value_of f (bytes_of f payload) = canonical v).

Lemma current_fresh log m port now payload :
  mailboxes_ok log m -> current m port now = Some payload -> fresh_payload log m port now payload.
Proof.
  intros Hrun Hc. unfold current in Hc.
  destruct (m !! port) as [s|] eqn:Hs; [|done]. simpl in Hc. pose proof (Hrun _ _ Hs) as Hok.
  unfold current_slot in Hc. destruct (transmitting s) eqn:Ht; [|done]. simpl negb in Hc. cbv iota in Hc.
  destruct (bool_decide_reflect (sl_fields s = ∅)) as [He|He]; simpl negb in Hc; cbv iota in Hc.
  - destruct (sl_snapshot s) as [sn|] eqn:Hsn; [|done]. simpl in Hc.
    destruct (Z.ltb_spec (duration_saturating_sub now (sn_supplied sn)) (max_age s)); [|done]. injection Hc as <-.
    destruct (ok_snapshot _ _ _ Hok _ Hsn) as [(l & Hl & Hp) Hlast].
    exists s, l. split_and!; [done..|]. left. by exists (sn_supplied sn).
  - destruct (slot_layout s) as [l|] eqn:Hl; [|done]. simpl in Hc.
    destruct (_ || _) eqn:Hb; [done|]. injection Hc as <-.
    apply orb_false_iff in Hb as [Hsize%negb_false_iff%Nat.eqb_eq Hstale].
    apply map_choose in He as (n0 & i0 & Hi0).
    destruct (ok_fields _ _ _ Hok _ _ Hi0) as (_ & l' & _ & Hl' & Hp & _). simplify_eq.
    exists s, l. split_and!; [done..|]. right. intros f Hf.
    destruct (fields_complete _ _ _ _ Hok Hl Hsize f Hf) as [i Hi].
    destruct (ok_fields _ _ _ Hok _ _ Hi) as (Hlast & l' & g & Hl' & _ & Hg & Hn & Hv).
    rewrite Hl in Hl'. injection Hl' as <-. apply (data_name_inj l) in Hn as ->; [|by apply elem_of_transmit..].
    exists (fi_value i), (fi_at i). split_and!; [done| |done].
    apply Z.nle_gt. intros Hold%Z.leb_le. apply Bool.not_true_iff_false in Hstale. apply Hstale, existsb_exists.
    exists i. split; [|done]. apply list_elem_of_In, list_elem_of_fmap. exists (data_name g, i).
    split; [done|by apply elem_of_map_to_list].
Qed.

(** C13: Only fresh, complete, explicitly supplied data is sent. After any history
    of submissions, field writes and transmissions, a payload offered for
    sending is a valid snapshot of the port's layout on an enabled port, and
    either it is the last snapshot submitted, younger than the maximum age,
    or every one of its inputs decodes to the last value supplied for that
    field, each younger than the maximum age. *)
Theorem sent_only_fresh_inputs config ops m log port now payload :
  run_ops (mailboxes_new config) [] ops = (m, log) -> current m port now = Some payload ->
  exists s l, m !! port = Some s /\ transmitting s = true /\ slot_layout s = Some l /\
    validate_payload l payload = Ok () /\
    ((exists t, last_snapshot log port = Some (payload, t) /\ duration_saturating_sub now t < max_age s) \/
     forall f, f ∈ transmit_fields l -> exists v t, last_field log port (data_name f) = Some (v, t) /\
       duration_saturating_sub now t < max_age s /\ value_of f (bytes_of f payload) = canonical v).
Proof.
  intros Hrun%(run_ops_ok _ _ _ _ _ (mailboxes_new_ok config)) Hc. by apply current_fresh.
Qed.

(** A refused field write changes at most an unused payload. *)
Lemma write_field_refused log port s name v now utc s' e :
  slot_ok log port s -> write_field_slot s name v now utc = (s', Err e) ->
  sl_revision s' = sl_revision s /\ forall q t, current_slot q s' t = current_slot q s t.
Proof.
  intros Hs. unfold write_field_slot.
  destruct (negb (transmitting s)); [by intros [= <- _]|]. destruct (sl_atomic_mode s); [by intros [= <- _]|].
  destruct (slot_layout s) as [l|] eqn:Hl; [|by intros [= <- _]]. cbv zeta.
  assert (Hsame : forall q t, current_slot q (set_input s (sl_revision s) (sl_snapshot s) (sl_fields s)
    match sl_field_payload s with [] => empty_transmit_payload l | p => p end false) t = current_slot q s t).
  { intros q t. unfold current_slot; simpl. destruct (negb _); [done|].
    destruct (bool_decide_reflect (sl_fields s = ∅)) as [|Hne]; [done|]. simpl.
    replace (match sl_field_payload s with [] => _ | _ => _ end) with (sl_field_payload s); [done|].
    apply map_choose in Hne as (n & i & Hi). destruct (ok_fields _ _ _ Hs n i Hi) as (_ & l' & _ & _ & Hp & _).
    apply validate_payload_Ok in Hp as [Hp _]. destruct (sl_field_payload s); [|done]. by destruct l'. }
  destruct (u64_checked_add _ _); [|by intros [= <- _]].
  destruct (write_transmit_field _ _ _ _); [done|]. by intros [= <- _].
Qed.

(** A refused input changes nothing that can be sent, and an accepted one
    moves the revision by one. In every reachable state, an operation that is
    not accepted leaves every port's offered payload and revision as they
    were and supplies nothing; a snapshot or a whole field set is accepted
    only under the port's current revision. *)
Theorem inputs_compare_and_swap config ops m log op m' es b :
  run_ops (mailboxes_new config) [] ops = (m, log) -> run_op m op = (m', es, b) ->
  match op with
  | OpResult _ _ => True
  | OpSubmit port revision _ _ | OpFields port revision _ _ _ =>
      b = true -> sl_revision <$> m !! port = Some revision /\ sl_revision <$> m' !! port = Some (revision + 1)
  | OpWrite port _ _ _ _ =>
      b = true -> sl_revision <$> m' !! port = Z.succ ∘ sl_revision <$> m !! port
  end /\
  (b = false -> es = [] /\ forall q,
     sl_revision <$> m' !! q = sl_revision <$> m !! q /\ forall t, current m' q t = current m q t).
Proof.
  intros Hok%(run_ops_ok _ _ _ _ _ (mailboxes_new_ok config)).
  destruct op as [port revision payload now|port revision fs now utc|port name v now utc|port r]; simpl.
  - unfold submit. destruct (m !! port) as [s|] eqn:Hs; [|by intros [= <- <- <-]].
    destruct (submit_slot _ _ _ _) as [s'|] eqn:E; [|by intros [= <- <- <-]].
    apply submit_slot_Ok in E as (l & _ & _ & -> & _ & _ & ->). intros [= <- <- <-]. split; [|done].
    intros _. by rewrite lookup_insert_eq.
  - destruct (m !! port) as [s|] eqn:Hs; [|by intros [= <- <- <-]].
    destruct (submit_fields_slot _ _ _ _ _ _) as [s'|] eqn:E; [|by intros [= <- <- <-]].
    apply submit_fields_Ok in E as (l & p & i & _ & -> & _ & _ & _ & _ & ->). intros [= <- <- <-]. split; [|done].
    intros _. by rewrite lookup_insert_eq.
  - unfold write_field. destruct (m !! port) as [s|] eqn:Hs; [|by intros [= <- <- <-]].
    destruct (write_field_slot s name v now utc) as [s' [u|e]] eqn:E; intros [= <- <- <-]; (split; [intros ?|intros ?]); try done.
    + rewrite lookup_insert_eq. simpl. f_equal. unfold write_field_slot in E. repeat case_match; simplify_eq/=; try done.
      all: unfold u64_checked_add in *; case_match; by simplify_eq.
    + split; [done|]. intros q. destruct (write_field_refused _ _ _ _ _ _ _ _ _ (Hok _ _ Hs) E) as [Hr Hc].
      unfold current. destruct (decide (port = q)) as [<-|Hne]; [|by rewrite lookup_insert_ne].
      rewrite lookup_insert_eq, Hs. simpl. by rewrite Hr.
  - by intros [= <- <- <-].
Qed.

(** ** Examples *)

(** A snapshot, then a write that the atomic mode refuses. *)
Definition toy_ops : list Op :=
  [OpSubmit "link" 0 (empty_transmit_payload Unit1To9) (millis 100);
   OpWrite "link" "DATA.PumpStationCtrl" (PString "0011223344556677") (millis 200) 0].

Lemma sent_only_fresh_inputs_witness :
  exists s l m log, run_ops (mailboxes_new toy_config) [] toy_ops = (m, log) /\
    current m "link" (millis 14000) = Some (empty_transmit_payload Unit1To9) /\
    m !! "link" = Some s /\ slot_layout s = Some l /\ validate_payload l (empty_transmit_payload Unit1To9) = Ok ().
Proof.
  destruct (run_ops (mailboxes_new toy_config) [] toy_ops) as [m log] eqn:E.
  assert (Hc : current m "link" (millis 14000) = Some (empty_transmit_payload Unit1To9)).
  { replace m with (run_ops (mailboxes_new toy_config) [] toy_ops).1 by (by rewrite E). vm_compute. reflexivity. }
  destruct (sent_only_fresh_inputs toy_config toy_ops m log "link" (millis 14000) _ E Hc)
    as (s & l & Hs & _ & Hl & Hp & _).
  exists s, l, m, log. split_and!; [reflexivity|exact Hc|exact Hs|exact Hl|exact Hp].
Defined.

Lemma inputs_compare_and_swap_witness :
  exists m log, run_ops (mailboxes_new toy_config) [] toy_ops = (m, log) /\
    (run_op m (OpSubmit "link" 0 (empty_transmit_payload Unit1To9) 0)).2 = false /\
    forall t, current (run_op m (OpSubmit "link" 0 (empty_transmit_payload Unit1To9) 0)).1.1 "link" t
              = current m "link" t.
Proof.
  destruct (run_ops (mailboxes_new toy_config) [] toy_ops) as [m log] eqn:E.
  exists m, log. split; [reflexivity|].
  destruct (run_op m (OpSubmit "link" 0 (empty_transmit_payload Unit1To9) 0)) as [[m' es] b] eqn:Eo.
  assert (Hb : b = false).
  { replace b with (run_op m (OpSubmit "link" 0 (empty_transmit_payload Unit1To9) 0)).2 by (by rewrite Eo).
    replace m with (run_ops (mailboxes_new toy_config) [] toy_ops).1 by (by rewrite E). vm_compute. reflexivity. }
  destruct (inputs_compare_and_swap _ _ _ _ _ _ _ _ E Eo) as [_ H].
  split; [exact Hb|]. intros t. apply (H Hb).
Defined.
