(* ===== verification/Line.v ===== *)
(** * The serial line of the forwarding process (src/communicate/src/serial.rs)

    Writing one frame and discarding late input.  The transport, the clock,
    the cancellation token and the clients that run beside the owner of the
    line are an environment that answers the [i]-th question; a function
    threads the number of questions asked so far.  Opening the device is not
    modelled. *)

From S2P Require Import Prelude RustFloat RustStr CommModel Mailbox.
Open Scope string_scope.
Open Scope Z_scope.
Open Scope list_scope.

Inductive IoKind := IoTimedOut | IoWouldBlock | IoInterrupted | IoWriteZero | IoUnexpectedEof | IoOther.

#[export] Instance io_kind_eq_dec : EqDecision IoKind.
Proof. solve_decision. Defined.

Record IoError := { io_kind : IoKind; io_text : string }.

(** [matches!(e.kind(), TimedOut | WouldBlock | Interrupted)]. *)
Definition transient (e : IoError) : bool :=
  bool_decide (io_kind e ∈ [IoTimedOut; IoWouldBlock; IoInterrupted]).

Record Line := {
  ln_read : nat -> result IoError (list Z);
  ln_write : nat -> result IoError nat;
  ln_clear : nat -> result IoError ();
  ln_now : nat -> Z;
  ln_utc : nat -> Z;
  ln_cancelled : nat -> bool;
  ln_clients : nat -> list Op
}.

Inductive WriteError :=
| WrCancelled (written : nat)
| WrTimeout (written : nat)
| WrIo (written : nat) (source : IoError).

Definition write_error_text (e : WriteError) : string :=
  match e with
  | WrCancelled n => "serial write cancelled after " +:+ pretty n +:+ " bytes"
  | WrTimeout n => "serial write timed out after " +:+ pretty n +:+ " bytes; delivery may be partial"
  | WrIo n s => "serial write failed after " +:+ pretty n +:+ " bytes: " +:+ io_text s
  end.

Section Line.
Context (ln : Line).

(** [write_once]: [data] is [bytes[written..]].  The result is the next
    question, the bytes the transport took and the outcome; [None] is a loop
    that neither ends nor meets its deadline within [fuel] rounds. *)
Fixpoint write_rounds (fuel i : nat) (data : list Z) (written : nat) (deadline : Z)
    : option (nat * list Z * result WriteError ()) :=
  match data with
  | [] => Some (i, [], Ok ())
  | _ :: _ =>
      match fuel with
      | O => None
      | S fuel =>
          if ln_cancelled ln i then Some (S i, [], Err (WrCancelled written))
          else if duration_saturating_sub deadline (ln_now ln (S i)) =? 0
          then Some (S (S i), [], Err (WrTimeout written))
          else
            let next := (i + 4)%nat in
            match ln_write ln (i + 2)%nat with
            | Ok O => Some (next, [], Err (WrIo written {| io_kind := IoWriteZero; io_text := "zero-length serial write" |}))
            | Ok n =>
                if (n <=? length data)%nat then
                  '(j, wire, r) ← write_rounds fuel next (drop n data) (written + n) deadline;
                  Some (j, take n data ++ wire, r)
                else Some (next, [], Err (WrIo written {| io_kind := IoOther; io_text := "invalid transport write count" |}))
            | Err e =>
                if transient e then write_rounds fuel next data written deadline
                else Some (next, [], Err (WrIo written e))
            end
      end
  end.

Definition write_once (fuel i : nat) (bytes : list Z) (deadline : Z)
    : option (nat * list Z * result WriteError ()) :=
  write_rounds fuel i bytes 0 deadline.

(** [quarantine]: the bytes read are dropped. *)
Fixpoint drain_rounds (fuel i : nat) (end_ : Z) : option (nat * result IoError ()) :=
  match fuel with
  | O => None
  | S fuel =>
      if negb (ln_cancelled ln i) && (ln_now ln (S i) <? end_) then
        let next := (i + 3)%nat in
        match ln_read ln (i + 2)%nat with
        | Ok [] => Some (next, Err {| io_kind := IoUnexpectedEof; io_text := "serial closed during quarantine" |})
        | Ok _ => drain_rounds fuel next end_
        | Err e => if transient e then drain_rounds fuel next end_ else Some (next, Err e)
        end
      else Some (i + 2, ln_clear ln (i + 2)%nat)%nat
  end.

Definition quarantine (fuel i : nat) (duration : Z) : option (nat * result IoError ()) :=
  match ln_clear ln i with
  | Err e => Some (S i, Err e)
  | Ok _ => drain_rounds fuel (i + 2) (ln_now ln (S i) + duration)
  end.

(** ** Properties *)

(** The bytes on the line are a prefix of the data, all of it on success; the
    error counts exactly the bytes taken. *)
Definition written_of (e : WriteError) : nat :=
  match e with WrCancelled n | WrTimeout n | WrIo n _ => n end.

Lemma write_rounds_spec fuel i data written deadline j wire r :
  write_rounds fuel i data written deadline = Some (j, wire, r) ->
  wire `prefix_of` data /\
  match r with Ok _ => wire = data | Err e => written_of e = (written + length wire)%nat end.
Proof.
  revert i data written wire. induction fuel as [|fuel IH]; intros i data written wire; destruct data as [|b data];
    cbn [write_rounds]; try (by intros [= <- <- <-]); try done.
  destruct (ln_cancelled ln i); [intros [= <- <- <-]; split; [apply prefix_nil|simpl; lia]|].
  destruct (_ =? 0); [intros [= <- <- <-]; split; [apply prefix_nil|simpl; lia]|].
  destruct (ln_write ln (i + 2)) as [[|n]|e].
  - intros [= <- <- <-]. split; [apply prefix_nil|simpl; lia].
  - destruct (Nat.leb_spec (S n) (length (b :: data))) as [Hn|Hn].
    + destruct (write_rounds fuel _ _ _ _) as [[[j' wire'] r']|] eqn:E; [|done]. cbn [mbind option_bind].
      intros [= <- <- <-]. apply IH in E as [Hp Hr].
      simpl in Hp, Hr, Hn.
      split; [destruct Hp as [k Hk]; exists k; simpl; by rewrite <- app_assoc, <- Hk, take_drop|].
      destruct r' as [u|e]; [by rewrite Hr, take_drop|].
      rewrite Hr. simpl. rewrite length_app, length_take_le by lia. lia.
    + intros [= <- <- <-]. split; [apply prefix_nil|simpl; lia].
  - destruct (transient e); [apply IH|]. intros [= <- <- <-]. split; [apply prefix_nil|simpl; lia].
Qed.

(** Every round either takes a byte or finds the clock further on. *)
Lemma write_rounds_total deadline i k :
  (forall j, (i + 4 * k <= j)%nat -> deadline <= ln_now ln j) ->
  forall fuel data written, (k < fuel)%nat -> is_Some (write_rounds fuel i data written deadline).
Proof.
  revert i. induction k as [|k IH]; intros i Hc [|fuel] [|b data] written Hf; try lia; cbn [write_rounds];
    try (by eexists).
  - destruct (ln_cancelled ln i); [by eexists|]. unfold duration_saturating_sub.
    rewrite (proj2 (Z.eqb_eq _ _)); [by eexists|]. specialize (Hc (S i) ltac:(lia)). lia.
  - destruct (ln_cancelled ln i); [by eexists|]. destruct (_ =? 0); [by eexists|].
    assert (Hn : forall data written, is_Some (write_rounds fuel (i + 4) data written deadline)).
    { intros. apply IH; [|lia]. intros j Hj. apply Hc. lia. }
    destruct (ln_write ln (i + 2)) as [[|n]|e]; [by eexists| |].
    + destruct (_ <=? _)%nat; [|by eexists].
      destruct (Hn (drop (S n) (b :: data)) (written + S n)%nat) as [[[j w] r] ->]. by eexists.
    + destruct (transient e); [apply Hn|by eexists].
Qed.
End Line.
