(* ===== verification/Stream.v ===== *)
(** * Bidirectional synchronization ([Schedule] and [run_stream] of
      src/communicate/src/synchronization.rs)

    One owner of the line reads, decodes and publishes the peer's snapshots
    and sends its own when the line is idle.  Clients change the mailboxes
    between two rounds ([ln_clients]).  The trace records what was published
    and sent; log lines are not modelled. *)

From stdpp Require Import sorting.
From S2P Require Import Prelude RustFloat RustStr Frame CommModel UnitReport CommConfig Points Mailbox Line.
Open Scope string_scope.
Open Scope Z_scope.
Open Scope list_scope.

(** ** The send schedule *)

Record Schedule := {
  sc_due : Z;
  sc_last_rx : Z;
  sc_partial_since : option Z;
  sc_period : Z;
  sc_gap : Z;
  sc_frame_timeout : Z
}.

Definition schedule_new (settings : Settings) (frame_timeout now : Z) : Schedule :=
  {| sc_due := now + millis (initial_delay_ms settings); sc_last_rx := now; sc_partial_since := None;
     sc_period := millis (send_interval_ms settings); sc_gap := millis (idle_gap_ms settings);
     sc_frame_timeout := frame_timeout |}.

Definition set_schedule (sc : Schedule) (due last_rx : Z) (partial : option Z) : Schedule :=
  {| sc_due := due; sc_last_rx := last_rx; sc_partial_since := partial; sc_period := sc_period sc;
     sc_gap := sc_gap sc; sc_frame_timeout := sc_frame_timeout sc |}.

Definition received (sc : Schedule) (now : Z) (partial : bool) : Schedule :=
  set_schedule sc (sc_due sc) now
    (if partial then match sc_partial_since sc with Some t => Some t | None => Some now end else None).

Definition partial_expired (sc : Schedule) (now : Z) : bool :=
  match sc_partial_since sc with
  | Some t => sc_frame_timeout sc <=? duration_saturating_sub now t
  | None => false
  end.

Definition discard_partial (sc : Schedule) : Schedule := set_schedule sc (sc_due sc) (sc_last_rx sc) None.

Definition may_send (sc : Schedule) (now : Z) : bool :=
  (sc_due sc <=? now) && negb (bool_decide (is_Some (sc_partial_since sc)))
  && (sc_gap sc <=? duration_saturating_sub now (sc_last_rx sc)).

Definition sent_or_skipped (sc : Schedule) (now : Z) : Schedule :=
  set_schedule sc (now + sc_period sc) (sc_last_rx sc) (sc_partial_since sc).

(** ** The state of a stream *)

Inductive StreamEvent :=
| ClientsRan (i : nat) (ops : list Op)
| Published (at_ : Z) (payload : list Z) (points : list PointUpdate)
| Transmitted (at_ : Z) (payload frame wire : list Z) (r : result string ()).

Record Stream (P : Type) := {
  sm_i : nat;
  sm_decoder : FrameDecoder;
  sm_schedule : Schedule;
  sm_last_valid : Z;
  sm_timed_out : bool;
  sm_received_valid : bool;
  sm_protocol : P;
  sm_store : PointStore;
  sm_mail : gmap string Slot;
  sm_trace : list StreamEvent
}.
Arguments sm_i {P}.
Arguments sm_decoder {P}.
Arguments sm_schedule {P}.
Arguments sm_last_valid {P}.
Arguments sm_timed_out {P}.
Arguments sm_received_valid {P}.
Arguments sm_protocol {P}.
Arguments sm_store {P}.
Arguments sm_mail {P}.
Arguments sm_trace {P}.

(** How a part of a round ends: on to the next part, out of [run_stream] with
    its result, or a loop that its fuel does not cover. *)
Inductive Flow (P : Type) :=
| Next (s : Stream P)
| Done (s : Stream P) (r : result StoreError bool)
| Stuck.
Arguments Next {P}.
Arguments Done {P}.
Arguments Stuck {P}.

Definition andThen {P} (f : Flow P) (k : Stream P -> Flow P) : Flow P :=
  match f with Next s => k s | Done s r => Done s r | Stuck => Stuck end.
Declare Scope flow_scope.
Notation "s ↩ f ; k" := (andThen f (fun s => k))
  (at level 20, f at level 100, k at level 200, right associativity) : flow_scope.
Open Scope flow_scope.

Section Stream.
Context (zlib_compress : list Z -> result string (list Z)).
Context (zlib_decompress : list Z -> nat -> result string Inflated).
Context (crc32 : list Z -> Z).
Context {P : Type} `{DeviceProtocol P}.
Context (frame_error_text : FrameError -> string).
Context (receive_debug : result IoError (list Z) -> string).
Context (ln : Line) (port : PortConfig) (settings : Settings) (task : TaskConfig).

Notation Stream := (Stream P).
Notation Flow := (Flow P).

Definition buffer_len : nat := Nat.min (p_max_frame_bytes port) 1024.

Definition advance (s : Stream) (n : nat) : Stream :=
  {| sm_i := sm_i s + n; sm_decoder := sm_decoder s; sm_schedule := sm_schedule s; sm_last_valid := sm_last_valid s;
     sm_timed_out := sm_timed_out s; sm_received_valid := sm_received_valid s; sm_protocol := sm_protocol s;
     sm_store := sm_store s; sm_mail := sm_mail s; sm_trace := sm_trace s |}.

Definition set_line (s : Stream) (d : FrameDecoder) (sc : Schedule) : Stream :=
  {| sm_i := sm_i s; sm_decoder := d; sm_schedule := sc; sm_last_valid := sm_last_valid s;
     sm_timed_out := sm_timed_out s; sm_received_valid := sm_received_valid s; sm_protocol := sm_protocol s;
     sm_store := sm_store s; sm_mail := sm_mail s; sm_trace := sm_trace s |}.

Definition set_peer (s : Stream) (last_valid : Z) (timed_out received_valid : bool) (e : list StreamEvent) : Stream :=
  {| sm_i := sm_i s; sm_decoder := sm_decoder s; sm_schedule := sm_schedule s; sm_last_valid := last_valid;
     sm_timed_out := timed_out; sm_received_valid := received_valid; sm_protocol := sm_protocol s;
     sm_store := sm_store s; sm_mail := sm_mail s; sm_trace := sm_trace s ++ e |}.

Definition set_protocol (s : Stream) (p : P) : Stream :=
  {| sm_i := sm_i s; sm_decoder := sm_decoder s; sm_schedule := sm_schedule s; sm_last_valid := sm_last_valid s;
     sm_timed_out := sm_timed_out s; sm_received_valid := sm_received_valid s; sm_protocol := p;
     sm_store := sm_store s; sm_mail := sm_mail s; sm_trace := sm_trace s |}.

Definition set_store (s : Stream) (st : PointStore) : Stream :=
  {| sm_i := sm_i s; sm_decoder := sm_decoder s; sm_schedule := sm_schedule s; sm_last_valid := sm_last_valid s;
     sm_timed_out := sm_timed_out s; sm_received_valid := sm_received_valid s; sm_protocol := sm_protocol s;
     sm_store := st; sm_mail := sm_mail s; sm_trace := sm_trace s |}.

Definition set_mail (s : Stream) (m : gmap string Slot) : Stream :=
  {| sm_i := sm_i s; sm_decoder := sm_decoder s; sm_schedule := sm_schedule s; sm_last_valid := sm_last_valid s;
     sm_timed_out := sm_timed_out s; sm_received_valid := sm_received_valid s; sm_protocol := sm_protocol s;
     sm_store := sm_store s; sm_mail := m; sm_trace := sm_trace s |}.

(** An operation of the store under [?]. *)
Definition on_store (s : Stream) (f : PointStore -> PointStore * result StoreError ()) : Flow :=
  let '(st, r) := f (sm_store s) in
  match r with Ok _ => Next (set_store s st) | Err e => Done (set_store s st) (Err e) end.

Definition failure_quality (s : Stream) : Quality := if sm_timed_out s then NoCommunication else Configuration.

Definition fail_task (s : Stream) (q : Quality) (e : string) : Flow :=
  on_store s (fun st => fail_points st (t_id task) q e).

Definition report_frame_errors (s : Stream) (frames : FeedResult) (expired : bool) : Flow :=
  if (rejected_frames frames =? 0) && (discarded_bytes frames =? 0) && negb expired then Next s
  else on_store s (fun st =>
         record_frame_errors st (p_id port) (rejected_frames frames) (discarded_bytes frames) expired).

(** The body of both [for payload in ...] loops. *)
Definition handle_payload (now : Z) (s : Stream) (payload : list Z) : Flow :=
  let '(p, r) := response (sm_protocol s) task payload in
  let s := set_protocol s p in
  match r with
  | Ok (Matched points) =>
      s ↩ on_store s (fun st => attempt st (t_id task) (ln_utc ln (sm_i s)));
      let '(st, r) := publish_points (sm_store s) (t_id task) points
                        (ln_utc ln (sm_i s + 1)%nat) (ln_utc ln (sm_i s + 2)%nat) in
      let s := set_store (advance s 3) st in
      match r with
      | Ok _ => Next (set_peer s now false true [Published now payload points])
      | Err e => fail_task s (failure_quality s) (store_error_text e)
      end
  | Ok Ignore => Next s
  | Err e => fail_task s (failure_quality s) ("device protocol: " +:+ e)
  end.

Fixpoint handle_payloads (now : Z) (s : Stream) (ps : list (list Z)) : Flow :=
  match ps with
  | [] => Next s
  | p :: ps => s ↩ handle_payload now s p; handle_payloads now s ps
  end.

(** ** The parts of a round *)

Definition received_chunk (s : Stream) (chunk : list Z) : Flow :=
  let now := ln_now ln (sm_i s) in
  let s := advance s 1 in
  match feed zlib_decompress crc32 (sm_decoder s) chunk with
  | None => Stuck
  | Some (d, Ok frames) =>
      s ↩ report_frame_errors (set_line s d (sm_schedule s)) frames false;
      let sc := match payloads frames with [] => sm_schedule s | _ => discard_partial (sm_schedule s) end in
      handle_payloads now (set_line s d (received sc now (has_partial_frame d))) (payloads frames)
  | Some (d, Err e) =>
      let s := set_line s d (received (sm_schedule s) now false) in
      fail_task s (failure_quality s) (frame_error_text e)
  end.

Definition read_part (s : Stream) : Flow :=
  let r := ln_read ln (sm_i s) in
  let s := advance s 1 in
  match r with
  | Ok chunk =>
      if negb (length chunk =? 0)%nat && (length chunk <=? buffer_len)%nat then received_chunk s chunk
      else s ↩ on_store s (fun st => port_state st (p_id port) "Disconnected" ("serial receive: " +:+ receive_debug r) false);
           Done s (Ok (sm_received_valid s))
  | Err e =>
      if transient e then Next s
      else s ↩ on_store s (fun st => port_state st (p_id port) "Disconnected" ("serial receive: " +:+ receive_debug r) false);
           Done s (Ok (sm_received_valid s))
  end.

Definition expire_part (now : Z) (s : Stream) : Flow :=
  if partial_expired (sm_schedule s) now then
    match recover_expired zlib_decompress crc32 (sm_decoder s) with
    | None => Stuck
    | Some (d, recovered) =>
        s ↩ report_frame_errors (set_line s d (sm_schedule s)) recovered true;
        s ↩ handle_payloads now s (payloads recovered);
        Next (set_line s (sm_decoder s) (discard_partial (sm_schedule s)))
    end
  else Next s.

Definition timeout_part (now : Z) (s : Stream) : Flow :=
  if negb (sm_timed_out s)
     && (millis (receive_timeout_ms settings) <=? duration_saturating_sub now (sm_last_valid s))
  then s ↩ fail_task s NoCommunication "peer snapshot timeout";
       Next (set_peer s (sm_last_valid s) true (sm_received_valid s) [])
  else Next s.

Definition send_part (fuel : nat) (now : Z) (s : Stream) : Flow :=
  if may_send (sm_schedule s) now then
    s ↩ match current (sm_mail s) (p_id port) now with
        | None => Next s
        | Some payload =>
            match encode zlib_compress crc32 payload (port_limits port) with
            | Err e => Done s (Err (InvalidBatch (frame_error_text e)))
            | Ok frame =>
                match write_once ln fuel (sm_i s) frame (now + millis (p_write_timeout_ms port)) with
                | None => Stuck
                | Some (j, wire, r) =>
                    let outcome := map_err write_error_text r in
                    let s := set_mail (advance s (j - sm_i s)) (transmit_result (sm_mail s) (p_id port) outcome) in
                    let s := set_peer s (sm_last_valid s) (sm_timed_out s) (sm_received_valid s)
                               [Transmitted now payload frame wire outcome] in
                    match r with
                    | Ok _ => Next s
                    | Err e =>
                        s ↩ on_store s (fun st => port_state st (p_id port) "Disconnected" (write_error_text e) false);
                        Done s (Ok (sm_received_valid s))
                    end
                end
            end
        end;
    Next (set_line (advance s 1) (sm_decoder s) (sent_or_skipped (sm_schedule s) (ln_now ln (sm_i s))))
  else Next s.

(** One iteration of [while !cancel.is_cancelled()]. *)
Definition stream_round (fuel : nat) (s : Stream) : Flow :=
  if ln_cancelled ln (sm_i s) then Done s (Ok (sm_received_valid s))
  else
    let ops := ln_clients ln (S (sm_i s)) in
    let s := set_peer (set_mail (advance s 2) (run_ops (sm_mail s) [] ops).1)
               (sm_last_valid s) (sm_timed_out s) (sm_received_valid s) [ClientsRan (S (sm_i s)) ops] in
    s ↩ read_part s;
    let now := ln_now ln (sm_i s) in
    s ↩ expire_part now (advance s 1);
    s ↩ timeout_part now s;
    send_part fuel now s.

Fixpoint run_rounds (rounds fuel : nat) (s : Stream) : Flow :=
  match rounds with
  | O => Next s
  | S rounds => s ↩ stream_round fuel s; run_rounds rounds fuel s
  end.

(** The state [run_stream] starts its loop with; the two [expect]s are the
    validated settings and limits ([validate_line_limits]). *)
Definition stream_start (i : nat) (protocol : P) (st : PointStore) (m : gmap string Slot) : option Stream :=
  match decoder_new (port_limits port) with
  | Err _ => None
  | Ok d =>
      Some {| sm_i := i + 2; sm_decoder := d;
              sm_schedule := schedule_new settings (millis (p_frame_timeout_ms port)) (ln_now ln i);
              sm_last_valid := ln_now ln (S i); sm_timed_out := false; sm_received_valid := false;
              sm_protocol := protocol; sm_store := st; sm_mail := m; sm_trace := [] |}
  end.
End Stream.

(** ** Reasoning about flows *)

(** [Q] holds where the flow goes on and [R] where it leaves [run_stream]. *)
Definition flow {P} (Q R : Stream P -> Prop) (f : Flow P) : Prop :=
  match f with Next s => Q s | Done s _ => R s | Stuck => True end.

Lemma flow_then {P} (Q Q' R : Stream P -> Prop) f k :
  flow Q R f -> (forall s, Q s -> flow Q' R (k s)) -> flow Q' R (andThen f k).
Proof. destruct f; simpl; auto. Qed.

Lemma flow_mono {P} (Q Q' R R' : Stream P -> Prop) f :
  flow Q R f -> (forall s, Q s -> Q' s) -> (forall s, R s -> R' s) -> flow Q' R' f.
Proof. destruct f; simpl; auto. Qed.

(** ** Peer data *)

Section Peer.
Context (zlib_compress : list Z -> result string (list Z)).
Context (zlib_decompress : list Z -> nat -> result string Inflated).
Context (crc32 : list Z -> Z).
Context {P : Type} `{DeviceProtocol P}.
Context (frame_error_text : FrameError -> string).
Context (receive_debug : result IoError (list Z) -> string).
Context (ln : Line) (port : PortConfig) (settings : Settings) (task : TaskConfig).

Notation round := (stream_round zlib_compress zlib_decompress crc32 frame_error_text receive_debug ln port settings task).
Notation rounds := (run_rounds zlib_compress zlib_decompress crc32 frame_error_text receive_debug ln port settings task).

Definition published_event (e : StreamEvent) : option (Z * list Z * list PointUpdate) :=
  match e with Published t p us => Some (t, p, us) | _ => None end.
Definition last_published (tr : list StreamEvent) : option (Z * list Z * list PointUpdate) :=
  last (omap published_event tr).

(** The good samples of the task are those of the last snapshot published. *)
Definition good_from (s : Stream P) (n : string) (smp : Sample) : Prop :=
  sm_timed_out s = false /\ exists payload us u,
    last_published (sm_trace s) = Some (sm_last_valid s, payload, us) /\
    u ∈ us /\ u_name u = n /\ s_value smp = u_value u.

Record peer_ok (i0 : nat) (s : Stream P) : Prop := {
  po_i : (i0 <= sm_i s)%nat;
  po_wf : store_wf (sm_store s);
  po_good : forall names n smp, st_tasks (sm_store s) !! t_id task = Some names -> n ∈ names ->
    st_samples (sm_store s) !! n = Some smp -> s_quality smp = Good -> good_from s n smp
}.

(** What [peer_ok] looks at. *)
Definition same_peer (s s' : Stream P) : Prop :=
  (sm_i s <= sm_i s')%nat /\ sm_store s' = sm_store s /\ sm_timed_out s' = sm_timed_out s /\ sm_last_valid s' = sm_last_valid s /\
  last_published (sm_trace s') = last_published (sm_trace s).

Lemma peer_ok_same i0 s s' : same_peer s s' -> peer_ok i0 s -> peer_ok i0 s'.
Proof.
  intros (H0 & H1 & H2 & H3 & H4) [Hi Hwf Hg]. split; [lia|by rewrite H1|]. rewrite H1. intros names n smp Ht Hn Hs Hq.
  unfold good_from. rewrite H2, H3, H4. by eapply Hg.
Qed.

(** A store operation that leaves the samples alone. *)
Lemma peer_ok_store i0 s f :
  (forall st, same_tables st (f st).1 /\ st_samples (f st).1 = st_samples st) ->
  peer_ok i0 s -> flow (peer_ok i0) (peer_ok i0) (on_store s f).
Proof.
  intros Hf [Hi Hwf Hg]. unfold on_store. destruct (Hf (sm_store s)) as [Ht Hs].
  destruct (f (sm_store s)) as [st r]; simpl in *.
  assert (Hp : peer_ok i0 (set_store s st)).
  { split; simpl; [done|by eapply same_tables_wf|]. destruct Ht as (_ & -> & _). rewrite Hs. exact Hg. }
  by destruct r.
Qed.

(** The samples of the task after a failure. *)
Lemma fail_points_not_good st q e names n smp :
  store_wf st -> st_tasks st !! t_id task = Some names -> n ∈ names -> q <> Good ->
  st_samples (fail_points st (t_id task) q e).1 !! n = Some smp -> s_quality smp <> Good.
Proof.
  intros Hwf Ht Hn Hq. unfold fail_points. rewrite bool_decide_false by done. rewrite Ht. simpl.
  rewrite fail_all_lookup by (by eapply sw_nodup). rewrite decide_True by done.
  intros (x & _ & ->)%fmap_Some. done.
Qed.

Lemma fail_task_ok i0 s q e :
  q <> Good -> (i0 <= sm_i s)%nat -> store_wf (sm_store s) -> flow (peer_ok i0) (peer_ok i0) (fail_task task s q e).
Proof.
  intros Hq Hi Hwf. unfold fail_task, on_store. pose proof (fail_same (sm_store s) (t_id task) q e) as Hs.
  pose proof (fail_points_not_good (sm_store s) q e) as Hn.
  destruct (fail_points (sm_store s) (t_id task) q e) as [st r] eqn:E; simpl in *.
  assert (Hp : peer_ok i0 (set_store s st)).
  { split; simpl; [done|by eapply same_tables_wf|]. destruct Hs as (_ & -> & _). intros names n smp Ht Hin Hsm Hg.
    by destruct (Hn names n smp Hwf Ht Hin Hq Hsm). }
  by destruct r.
Qed.

Lemma failure_quality_bad (s : Stream P) : failure_quality s <> Good.
Proof. unfold failure_quality. by case_match. Qed.

Lemma update_port_keeps st id f :
  same_tables st (update_port st id f).1 /\ st_samples (update_port st id f).1 = st_samples st.
Proof. apply update_port_same. Qed.

Lemma report_frame_errors_ok i0 s frames expired :
  peer_ok i0 s -> flow (peer_ok i0) (peer_ok i0) (report_frame_errors port s frames expired).
Proof.
  intros Hs. unfold report_frame_errors. case_match; [done|].
  apply peer_ok_store; [|done]. intros st. apply update_port_same.
Qed.

Lemma publish_peer_ok i0 s points t1 t2 now payload st r :
  peer_ok i0 s -> publish_points (sm_store s) (t_id task) points t1 t2 = (st, r) ->
  match r with
  | Ok _ => peer_ok i0 (set_peer (set_store (advance s 3) st) now false true [Published now payload points])
  | Err _ => store_wf st
  end.
Proof.
  intros [Hi Hwf Hg] E. pose proof (publish_same (sm_store s) (t_id task) points t1 t2) as Hs.
  rewrite E in Hs; simpl in Hs. pose proof (same_tables_wf _ _ Hs Hwf) as Hwf'. destruct r as [u|e]; [|done].
  unfold publish_points in E. destruct (st_tasks (sm_store s) !! t_id task) as [names|] eqn:Ht; [|done].
  destruct (negb _) eqn:Hl; [done|]. apply negb_false_iff, Nat.eqb_eq in Hl.
  destruct (check_batch _ _ _ _) as [[]|] eqn:Hc; [|done]. injection E as <- _.
  destruct (proj1 (publish_checks _ _ points names Hwf Ht)) as (names' & Ht' & Hperm & _); [done|].
  rewrite Ht in Ht'. injection Ht' as <-.
  apply check_batch_spec in Hc as (_ & Hnd & _). split; simpl; [lia|done|].
  intros names' n smp Ht' Hn Hsm Hq. simpl in Ht'. rewrite Ht in Ht'. injection Ht' as <-.
  rewrite <- Hperm in Hn. apply list_elem_of_fmap in Hn as (v & -> & Hv).
  rewrite (foldl_insert_lookup u_name), (last_filter_unique u_name) in Hsm by done. injection Hsm as <-.
  split; [done|]. exists payload, points, v. split_and!; [|done|done|].
  - simpl. unfold last_published. rewrite omap_app. by rewrite last_app.
  - simpl in *. by rewrite (bool_decide_true _ Hq).
Qed.

Lemma handle_payload_ok i0 now s payload :
  peer_ok i0 s -> flow (peer_ok i0) (peer_ok i0) (handle_payload ln task now s payload).
Proof.
  intros Hs. unfold handle_payload. destruct (response (sm_protocol s) task payload) as [p [[|points]|e]].
  - simpl. apply (peer_ok_same _ s); [|done]; split_and!; simpl; (done || lia).
  - cbv zeta. eapply flow_then with (Q := peer_ok i0).
    { apply peer_ok_store; [intros st; apply attempt_same|]. apply (peer_ok_same _ s); [|done]; split_and!; simpl; (done || lia). }
    intros s1 Hs1. destruct (publish_points _ _ _ _ _) as [st r] eqn:E.
    pose proof (publish_peer_ok i0 s1 points _ _ now payload st r Hs1 E) as Hp. destruct r as [u|e]; [done|].
    apply fail_task_ok; [apply failure_quality_bad|simpl; pose proof (po_i _ _ Hs1); lia|done].
  - apply fail_task_ok; [apply failure_quality_bad|apply (po_i _ _ Hs)|apply (po_wf _ _ Hs)].
Qed.

Lemma handle_payloads_ok i0 now s ps :
  peer_ok i0 s -> flow (peer_ok i0) (peer_ok i0) (handle_payloads ln task now s ps).
Proof.
  revert s. induction ps as [|p ps IH]; intros s Hs; [done|]. cbn [handle_payloads].
  eapply flow_then; [by apply handle_payload_ok|]. intros s1 Hs1. by apply IH.
Qed.

Ltac same_peer := split_and!; simpl; (done || lia).

Lemma received_chunk_ok i0 s chunk :
  peer_ok i0 s ->
  flow (peer_ok i0) (peer_ok i0) (received_chunk zlib_decompress crc32 frame_error_text ln port task s chunk).
Proof.
  intros Hs. unfold received_chunk. cbv zeta.
  destruct (feed _ _ _ _) as [[d [frames|e]]|]; [|by apply fail_task_ok; simpl;
    [apply failure_quality_bad|pose proof (po_i _ _ Hs); lia|apply (po_wf _ _ Hs)]|done].
  eapply flow_then; [apply report_frame_errors_ok; apply (peer_ok_same _ s); [same_peer|done]|].
  intros s1 Hs1. apply handle_payloads_ok. apply (peer_ok_same _ s1); [same_peer|done].
Qed.

Lemma disconnect_ok i0 s text :
  peer_ok i0 s ->
  flow (fun _ => False) (peer_ok i0)
    (s ↩ on_store s (fun st => port_state st (p_id port) "Disconnected" text false);
     Done s (Ok (sm_received_valid s))).
Proof.
  intros Hs. eapply flow_then with (Q := peer_ok i0); [apply peer_ok_store; [intros st; apply update_port_same|done]|]. by intros.
Qed.

Lemma read_part_ok i0 s :
  peer_ok i0 s ->
  flow (peer_ok i0) (peer_ok i0)
    (read_part zlib_decompress crc32 frame_error_text receive_debug ln port task s).
Proof.
  intros Hs. assert (Ha : peer_ok i0 (advance s 1)) by (apply (peer_ok_same _ s); [same_peer|done]).
  unfold read_part. cbv zeta. destruct (ln_read ln (sm_i s)) as [chunk|e].
  - destruct (_ && _); [by apply received_chunk_ok|]. eapply flow_mono; [by apply disconnect_ok|done..].
  - destruct (transient e); [done|]. eapply flow_mono; [by apply disconnect_ok|done..].
Qed.

Lemma expire_part_ok i0 now s :
  peer_ok i0 s ->
  flow (peer_ok i0) (peer_ok i0) (expire_part zlib_decompress crc32 ln port task now s).
Proof.
  intros Hs. unfold expire_part. destruct (partial_expired _ _); [|done].
  destruct (recover_expired _ _ _) as [[d recovered]|]; [|done].
  eapply flow_then; [apply report_frame_errors_ok; apply (peer_ok_same _ s); [same_peer|done]|].
  intros s1 Hs1. eapply flow_then; [by apply handle_payloads_ok|].
  intros s2 Hs2. apply (peer_ok_same _ s2); [same_peer|done].
Qed.

(** The peer data are younger than the receive timeout at [now]. *)
Definition fresh_at (now : Z) (s : Stream P) : Prop :=
  sm_timed_out s = false -> duration_saturating_sub now (sm_last_valid s) < millis (receive_timeout_ms settings).

Lemma timeout_part_ok i0 now s :
  peer_ok i0 s ->
  flow (fun s' => peer_ok i0 s' /\ fresh_at now s') (peer_ok i0) (timeout_part settings task now s).
Proof.
  intros Hs. unfold timeout_part. destruct (negb _ && _) eqn:E.
  - unfold fail_task, on_store.
    pose proof (fail_task_ok i0 s NoCommunication "peer snapshot timeout" ltac:(done) (po_i _ _ Hs) (po_wf _ _ Hs)) as Hf.
    unfold fail_task, on_store in Hf. pose proof (fail_points_not_good (sm_store s) NoCommunication "peer snapshot timeout") as Hn.
    pose proof (fail_same (sm_store s) (t_id task) NoCommunication "peer snapshot timeout") as Hsm.
    destruct (fail_points _ _ _ _) as [st [u|e]]; simpl in *; [|done]. split; [|by unfold fresh_at].
    destruct Hf as [Hi Hwf Hg]. split; [done|done|]. simpl in *. intros names n smp Ht Hin Hsl Hq.
    destruct Hsm as (_ & Hts & _). rewrite Hts in Ht.
    by destruct (Hn names n smp (po_wf _ _ Hs) Ht Hin ltac:(done) Hsl).
  - split; [done|]. intros Ht. rewrite Ht in E. simpl in E. by apply Z.leb_gt in E.
Qed.

Lemma send_part_ok i0 fuel now s :
  peer_ok i0 s -> fresh_at now s ->
  flow (fun s' => peer_ok i0 s' /\ fresh_at now s' /\ (sm_i s <= sm_i s')%nat) (peer_ok i0)
    (send_part zlib_compress crc32 frame_error_text ln port fuel now s).
Proof.
  intros Hs Hf. unfold send_part. destruct (may_send _ _); [|done].
  eapply flow_then with (Q := fun s' => peer_ok i0 s' /\ fresh_at now s' /\ (sm_i s <= sm_i s')%nat).
  2: { intros s1 (H1 & H2 & H3). simpl. split_and!; [|done|lia]. apply (peer_ok_same _ s1); [same_peer|done]. }
  destruct (current _ _ _) as [payload|]; [|done].
  destruct (encode _ _ _ _) as [frame|e]; [|done].
  destruct (write_once _ _ _ _ _) as [[[j wire] r]|]; [|done]. cbv zeta.
  assert (Hp : peer_ok i0 (set_peer (set_mail (advance s (j - sm_i s))
      (transmit_result (sm_mail s) (p_id port) (map_err write_error_text r)))
      (sm_last_valid s) (sm_timed_out s) (sm_received_valid s) [Transmitted now payload frame wire (map_err write_error_text r)])).
  { apply (peer_ok_same _ s); [|done]. split_and!; simpl; try (done || lia).
    unfold last_published. rewrite omap_app. simpl. by rewrite app_nil_r. }
  destruct r as [u|e]; [split_and!; [done|done|simpl; lia]|].
  eapply flow_mono; [by apply disconnect_ok|done..].
Qed.

(** A whole round. *)
Lemma stream_round_ok i0 fuel s :
  peer_ok i0 s ->
  flow (fun s' => peer_ok (sm_i s) s' /\ exists j, (sm_i s < j < sm_i s')%nat /\ fresh_at (ln_now ln j) s')
    (peer_ok (sm_i s)) (round fuel s).
Proof.
  intros [Hi Hwf Hg]. assert (Hs : peer_ok (sm_i s) s) by (by split). clear Hi Hwf Hg i0.
  unfold stream_round. destruct (ln_cancelled ln (sm_i s)); [done|]. cbv zeta.
  set (s0 := set_peer (set_mail (advance s 2) _) _ _ _ _).
  assert (H0 : peer_ok (sm_i s + 2) s0).
  { apply (peer_ok_same _ (advance s 2)); [|by destruct Hs; split; simpl; [lia|..]]. split_and!; simpl; try (done || lia).
    unfold last_published. rewrite omap_app. simpl. by rewrite app_nil_r. }
  clearbody s0. clear Hs.
  eapply flow_mono with (Q := fun s' => peer_ok (sm_i s + 2) s' /\
    exists j, (sm_i s < j < sm_i s')%nat /\ fresh_at (ln_now ln j) s') (R := peer_ok (sm_i s + 2));
    [|intros s' [[] Hj]; (split; [split|]; (lia || done))|intros s' []; split; (lia || done)].
  eapply flow_then; [by apply read_part_ok|]. intros s1 H1.
  eapply flow_then with (Q := peer_ok (S (sm_i s1))).
  { eapply flow_mono; [apply (expire_part_ok (S (sm_i s1)))|done|];
      [destruct H1; split; simpl; (lia || done)|]. intros s' []. split; [destruct H1; lia|done..]. }
  intros s2 H2. eapply flow_then with (Q := fun s' => peer_ok (S (sm_i s1)) s' /\ fresh_at (ln_now ln (sm_i s1)) s').
  { eapply flow_mono; [by apply timeout_part_ok|done|]. intros s' []. split; [destruct H1; lia|done..]. }
  intros s3 [H3 Hf]. eapply flow_mono; [by apply send_part_ok| |].
  - intros s' (H4 & Hf' & Hi). destruct H1, H3, H4. split; [split; (lia || done)|]. exists (sm_i s1). split; [lia|done].
  - intros s' []. split; [destruct H1; lia|done..].
Qed.

Lemma run_rounds_ok k fuel s :
  peer_ok (sm_i s) s -> flow (fun s' => peer_ok (sm_i s') s') (fun s' => peer_ok (sm_i s) s') (rounds k fuel s).
Proof.
  revert s. induction k as [|k IH]; intros s Hs; [done|]. cbn [run_rounds].
  eapply flow_then with (Q := fun s' => peer_ok (sm_i s') s' /\ (sm_i s <= sm_i s')%nat).
  - eapply flow_mono; [by apply (stream_round_ok (sm_i s))| |done]. intros s' [[] (j & Hj & _)].
    split; [by split|lia].
  - intros s' [Hs' Hi]. eapply flow_mono; [by apply IH|done|]. intros s'' []. split; [lia|done..].
Qed.

(** C14: what the clients of the forwarding process see as good data is fresh.
    Take a stream that starts on a consistent store without good samples of
    its task (as after start-up or a reconnect), any number of rounds against
    any line, peer, clock and clients, and one round more that completes.
    Every sample of the task that is then [Good] holds the value of a field
    of the last snapshot that was accepted from the peer, and that snapshot
    was younger than [receive_timeout_ms] at a clock reading of this very
    round: old values are never shown as good. *)
Theorem good_points_are_fresh k fuel i p st m s0 s s' names n smp :
  store_wf st ->
  (forall names n smp, st_tasks st !! t_id task = Some names -> n ∈ names -> st_samples st !! n = Some smp ->
    s_quality smp <> Good) ->
  stream_start ln port settings i p st m = Some s0 ->
  rounds k fuel s0 = Next s -> round fuel s = Next s' ->
  st_tasks (sm_store s') !! t_id task = Some names -> n ∈ names ->
  st_samples (sm_store s') !! n = Some smp -> s_quality smp = Good ->
  exists at_ payload us u j,
    last_published (sm_trace s') = Some (at_, payload, us) /\ u ∈ us /\ u_name u = n /\ s_value smp = u_value u /\
    (sm_i s < j < sm_i s')%nat /\ duration_saturating_sub (ln_now ln j) at_ < millis (receive_timeout_ms settings).
Proof.
  intros Hwf Hb Hst Hk Hr Ht Hn Hs Hq. unfold stream_start in Hst.
  destruct (decoder_new _) as [d|] eqn:Hd; [|done].
  assert (Hs0 : peer_ok (sm_i s0) s0).
  { injection Hst as <-. split; simpl; [lia|done|]. intros names' n' smp' ? ? ? ?. exfalso. by eapply Hb. }
  clear Hst. pose proof (run_rounds_ok k fuel s0 Hs0) as Hp. rewrite Hk in Hp. simpl in Hp.
  pose proof (stream_round_ok _ fuel s Hp) as Hp'. rewrite Hr in Hp'. destruct Hp' as [[_ _ Hg] (j & Hj & Hf)].
  destruct (Hg names n smp Ht Hn Hs Hq) as [Hto (payload & us & u & Hl & Hu & Hname & Hv)].
  exists (sm_last_valid s'), payload, us, u, j. split_and!; try done; [lia..|]. by apply Hf.
Qed.
End Peer.

(** ** Transmissions *)

Definition transmitted_at (e : StreamEvent) : option Z :=
  match e with Transmitted t _ _ _ _ => Some t | _ => None end.
Definition send_times (tr : list StreamEvent) : list Z := omap transmitted_at tr.

(** The decoder holds an unfinished frame exactly while the schedule knows
    of one. *)
Definition line_ok {P} (s : Stream P) : Prop :=
  is_Some (sc_partial_since (sm_schedule s)) <-> fd_buffer (sm_decoder s) <> [].

Section Send.
Context (zlib_compress : list Z -> result string (list Z)).
Context (zlib_decompress : list Z -> nat -> result string Inflated).
Context (crc32 : list Z -> Z).
Context {P : Type} `{DeviceProtocol P}.
Context (frame_error_text : FrameError -> string).
Context (receive_debug : result IoError (list Z) -> string).
Context (ln : Line) (config : CommConfig) (port : PortConfig) (settings : Settings) (task : TaskConfig).
(** What was done to the mailboxes before the stream started. *)
Context (before : list Op).
Hypothesis now_mono : forall i j, (i <= j)%nat -> ln_now ln i <= ln_now ln j.
Hypothesis interval_u64 : 0 <= send_interval_ms settings.

Notation round := (stream_round zlib_compress zlib_decompress crc32 frame_error_text receive_debug ln port settings task).
Notation rounds := (run_rounds zlib_compress zlib_decompress crc32 frame_error_text receive_debug ln port settings task).

(** What a trace says was done to the mailboxes: the operations of the
    clients and the outcomes of the transmissions, in their order. *)
Definition mail_ops (e : StreamEvent) : list Op :=
  match e with
  | ClientsRan _ ops => ops
  | Published _ _ _ => []
  | Transmitted _ _ _ _ r => [OpResult (p_id port) r]
  end.
Definition mail_at (tr : list StreamEvent) : gmap string Slot * list Entry :=
  run_ops (mailboxes_new config) [] (before ++ (tr ≫= mail_ops)).

(** An event after [tr].  What is sent is the frame of the payload that is
    fresh in the mailboxes as [tr] left them, whole unless the write failed. *)
Definition event_ok (tr : list StreamEvent) (e : StreamEvent) : Prop :=
  match e with
  | ClientsRan i ops => ops = ln_clients ln i
  | Published _ _ _ => True
  | Transmitted t payload frame wire r =>
      encode zlib_compress crc32 payload (port_limits port) = Ok frame /\
      wire `prefix_of` frame /\ (is_ok r = true -> wire = frame) /\
      fresh_payload (mail_at tr).2 (mail_at tr).1 (p_id port) t payload
  end.
Definition trace_ok (tr : list StreamEvent) : Prop :=
  forall pre e post, tr = pre ++ e :: post -> event_ok pre e.

Lemma trace_ok_snoc tr e : trace_ok tr -> event_ok tr e -> trace_ok (tr ++ [e]).
Proof.
  intros Ht He pre x post. destruct post as [|y post _] using rev_ind; intros E.
  - by apply app_inj_tail in E as [-> ->].
  - rewrite app_comm_cons, app_assoc in E. apply app_inj_tail in E as [-> _]. by eapply Ht.
Qed.

Lemma mail_at_snoc tr e : mail_at (tr ++ [e]) = run_ops (mail_at tr).1 (mail_at tr).2 (mail_ops e).
Proof.
  unfold mail_at. rewrite bind_app, app_assoc, run_ops_app. simpl. rewrite app_nil_r.
  by destruct (run_ops _ _ _).
Qed.

Definition is_published (e : StreamEvent) : Prop := match e with Published _ _ _ => True | _ => False end.

(** [published_only tr tr']: [tr'] adds only published snapshots to [tr]. *)
Definition published_only (tr tr' : list StreamEvent) : Prop :=
  exists es, tr' = tr ++ es /\ Forall is_published es.

Lemma published_only_keeps tr tr' :
  published_only tr tr' ->
  send_times tr' = send_times tr /\ mail_at tr' = mail_at tr /\ (trace_ok tr -> trace_ok tr').
Proof.
  intros (es & -> & Hes). induction es as [|e es IH] using rev_ind; [by rewrite app_nil_r|].
  apply Forall_app in Hes as [Hes He]. rewrite Forall_singleton in He. destruct (IH Hes) as (Hs & Hm & Ht). rewrite app_assoc.
  destruct e as [|t p us|]; [done| |done]. split_and!.
  - unfold send_times in *. by rewrite omap_app, app_nil_r.
  - rewrite mail_at_snoc. simpl. by rewrite Hm, <- surjective_pairing.
  - intros H0. by apply trace_ok_snoc; [apply Ht|].
Qed.

(** The parts that handle input leave the outgoing side alone; [aside] also
    leaves the line alone. *)
Definition aside (s s' : Stream P) : Prop :=
  sm_mail s' = sm_mail s /\ published_only (sm_trace s) (sm_trace s') /\ (sm_i s <= sm_i s')%nat /\
  sm_decoder s' = sm_decoder s /\ sm_schedule s' = sm_schedule s.

Definition incoming (s s' : Stream P) : Prop :=
  sm_mail s' = sm_mail s /\ published_only (sm_trace s) (sm_trace s') /\ (sm_i s <= sm_i s')%nat /\
  sc_due (sm_schedule s') = sc_due (sm_schedule s) /\ sc_period (sm_schedule s') = sc_period (sm_schedule s) /\
  (line_ok s -> line_ok s').

Lemma published_only_trans tr1 tr2 tr3 : published_only tr1 tr2 -> published_only tr2 tr3 -> published_only tr1 tr3.
Proof.
  intros (e1 & -> & H1) (e2 & -> & H2). exists (e1 ++ e2). rewrite app_assoc. split; [done|]. by apply Forall_app.
Qed.

Lemma published_only_refl tr : published_only tr tr.
Proof. exists []. by rewrite app_nil_r. Qed.

Lemma aside_trans s1 s2 s3 : aside s1 s2 -> aside s2 s3 -> aside s1 s3.
Proof.
  intros (? & ? & ? & ? & ?) (? & ? & ? & ? & ?).
  split_and!; [congruence|by eapply published_only_trans|lia|congruence|congruence].
Qed.

Lemma aside_incoming s s' : aside s s' -> incoming s s'.
Proof.
  intros (? & ? & ? & Hd & Hs). unfold incoming, line_ok. rewrite Hd, Hs. by split_and!.
Qed.

Lemma incoming_trans s1 s2 s3 : incoming s1 s2 -> incoming s2 s3 -> incoming s1 s3.
Proof.
  intros (? & ? & ? & ? & ? & ?) (? & ? & ? & ? & ? & ?).
  split_and!; [congruence|by eapply published_only_trans|lia|congruence|congruence|auto].
Qed.

Abbreviation Aside s := (flow (aside s) (aside s)).
Abbreviation Incoming s :=
  (flow (incoming s) (fun s' => sm_mail s' = sm_mail s /\ published_only (sm_trace s) (sm_trace s'))).

Lemma aside_then s f k : Aside s f -> (forall s', Aside s' (k s')) -> Aside s (andThen f k).
Proof.
  intros Hf Hk. eapply flow_then; [done|]. intros s' Hs'.
  eapply flow_mono; [apply Hk|intros ? ?; by eapply aside_trans..].
Qed.

Lemma incoming_then s f k : Incoming s f -> (forall s', Incoming s' (k s')) -> Incoming s (andThen f k).
Proof.
  intros Hf Hk. eapply flow_then; [done|]. intros s' Hs'. eapply flow_mono; [apply Hk| |].
  - intros ? ?. by eapply incoming_trans.
  - intros s2 [Hm Hp]. destruct Hs' as (Hm' & Hp' & _). split; [congruence|by eapply published_only_trans].
Qed.

Lemma flow_aside_incoming s f : Aside s f -> Incoming s f.
Proof. intros Hf. eapply flow_mono; [done|by intros; apply aside_incoming|]. by intros s' (? & ? & _). Qed.

Lemma flow_aside_from s s0 f : aside s s0 -> Aside s0 f -> Aside s f.
Proof. intros H0 Hf. eapply flow_mono; [done|intros ? ?; by eapply aside_trans..]. Qed.

Ltac aside := split_and!; simpl; (done || lia || apply published_only_refl).

Lemma on_store_aside s f : Aside s (on_store s f).
Proof. unfold on_store. destruct (f (sm_store s)) as [st []]; simpl; aside. Qed.

Lemma report_frame_errors_aside s frames expired : Aside s (report_frame_errors port s frames expired).
Proof. unfold report_frame_errors. case_match; [simpl; aside|apply on_store_aside]. Qed.

Lemma handle_payload_aside now s payload : Aside s (handle_payload ln task now s payload).
Proof.
  unfold handle_payload. destruct (response _ _ _) as [p [[|points]|e]].
  - simpl; aside.
  - apply aside_then; [eapply flow_aside_from; [|apply on_store_aside]; aside|]. intros s1.
    destruct (publish_points _ _ _ _ _) as [st [u|e]].
    + simpl. split_and!; simpl; try (done || lia). eexists. split; [done|]. by constructor.
    + eapply flow_aside_from; [|apply on_store_aside]; aside.
  - eapply flow_aside_from; [|apply on_store_aside]; aside.
Qed.

Lemma handle_payloads_aside now s ps : Aside s (handle_payloads ln task now s ps).
Proof.
  revert s. induction ps as [|p ps IH]; intros s; [simpl; aside|]. cbn [handle_payloads].
  apply aside_then; [apply handle_payload_aside|done].
Qed.

Lemma received_line sc now (d : FrameDecoder) :
  is_Some (sc_partial_since (received sc now (has_partial_frame d))) <-> fd_buffer d <> [].
Proof.
  unfold received, has_partial_frame. simpl. destruct (fd_buffer d) as [|b l]; split; intros Hx; try done.
  by destruct (sc_partial_since sc).
Qed.

Lemma received_chunk_incoming s chunk :
  Incoming s (received_chunk zlib_decompress crc32 frame_error_text ln port task s chunk).
Proof.
  unfold received_chunk. cbv zeta. destruct (feed _ _ _ _) as [[d [frames|e]]|] eqn:E; [| |done].
  - eapply flow_then with (Q := aside (set_line (advance s 1) d (sm_schedule s)));
      [|intros s1 (Hm & Ht & Hi & Hd & Hs)].
    { eapply flow_mono; [apply report_frame_errors_aside|done|]. by intros s1 (? & ? & _). }
    simpl in *. eapply flow_mono; [apply handle_payloads_aside| |].
    + intros s2 (Hm' & Ht' & Hi' & Hd' & Hs'). simpl in *. unfold incoming, line_ok. rewrite Hm', Hd', Hs'.
      split_and!; [done|by eapply published_only_trans|lia|..|intros _; apply received_line]; simpl; by case_match; simpl; rewrite Hs.
    + intros s2 (Hm' & Ht' & _). split; [simpl in *; congruence|by eapply published_only_trans].
  - eapply flow_mono; [apply on_store_aside| |by intros s1 (? & ? & _)].
    intros s1 (Hm & Ht & Hi & Hd & Hs). simpl in *. unfold incoming, line_ok. rewrite Hd, Hs. simpl.
    split_and!; try (done || lia). intros _. unfold feed in E. case_match.
    + injection E as <- _. simpl. split; [by intros []|done].
    + by destruct (feed_loop _ _ _ _) as [[]|].
Qed.

Lemma disconnect_aside s text :
  flow (fun _ => False) (aside s)
    (s ↩ on_store s (fun st => port_state st (p_id port) "Disconnected" text false);
     Done s (Ok (sm_received_valid s))).
Proof. eapply flow_then with (Q := aside s); [apply on_store_aside|]. by intros. Qed.

Lemma read_part_incoming s :
  Incoming s (read_part zlib_decompress crc32 frame_error_text receive_debug ln port task s).
Proof.
  assert (Hd : forall text, Incoming s (s ↩ on_store (advance s 1) (fun st => port_state st (p_id port) "Disconnected" text false);
     Done s (Ok (sm_received_valid s)))).
  { intros text. eapply flow_mono; [apply disconnect_aside|done|]. by intros s1 (? & ? & _). }
  unfold read_part. cbv zeta. destruct (ln_read ln (sm_i s)) as [chunk|e].
  - destruct (_ && _); [|apply Hd]. eapply flow_mono; [apply received_chunk_incoming| |done].
    intros s1. apply incoming_trans, aside_incoming. aside.
  - destruct (transient e); [apply aside_incoming; aside|apply Hd].
Qed.

Lemma expire_part_incoming now s : Incoming s (expire_part zlib_decompress crc32 ln port task now s).
Proof.
  unfold expire_part. destruct (partial_expired _ _); [|apply aside_incoming; aside].
  destruct (recover_expired _ _ _) as [[d recovered]|] eqn:E; [|done].
  assert (Hd : fd_buffer d = []).
  { unfold recover_expired in E. destruct (recover_loop _ _ _ _ _ _) as [[]|]; [|done]. by injection E as <- _. }
  eapply flow_then with (Q := aside (set_line s d (sm_schedule s))); [|intros s1 H1].
  { eapply flow_mono; [apply report_frame_errors_aside|done|]. by intros s1 (? & ? & _). }
  eapply flow_then with (Q := aside (set_line s d (sm_schedule s))); [|intros s2 H2].
  { eapply flow_mono; [apply handle_payloads_aside|intros s2; by apply aside_trans|].
    intros s2 (Hm & Ht & _). destruct H1 as (Hm' & Ht' & _).
    split; [simpl in *; congruence|by eapply published_only_trans]. }
  destruct H2 as (Hm & Ht & Hi & Hd2 & Hs). simpl in *. unfold incoming, line_ok. simpl. rewrite Hd2, Hs, Hd.
  split_and!; (done || lia).
Qed.

Lemma timeout_part_aside now s : Aside s (timeout_part settings task now s).
Proof.
  unfold timeout_part. destruct (_ && _); [|simpl; aside].
  apply aside_then; [apply on_store_aside|]. intros s1. split_and!; simpl; rewrite ?app_nil_r; (done || lia || apply published_only_refl).
Qed.

(** The outgoing side of a stream. *)
Definition spaced (period : Z) (ts : list Z) : Prop := StronglySorted (fun a b => a + period <= b) ts.

Record send_ok (s : Stream P) : Prop := {
  so_mail : sm_mail s = (mail_at (sm_trace s)).1;
  so_line : line_ok s;
  so_period : sc_period (sm_schedule s) = millis (send_interval_ms settings);
  so_sent : trace_ok (sm_trace s);
  so_due : Forall (fun t => t + millis (send_interval_ms settings) <= sc_due (sm_schedule s)) (send_times (sm_trace s));
  so_spaced : spaced (millis (send_interval_ms settings)) (send_times (sm_trace s))
}.

Definition sent_ok (s : Stream P) : Prop :=
  trace_ok (sm_trace s) /\ sm_mail s = (mail_at (sm_trace s)).1 /\
  spaced (millis (send_interval_ms settings)) (send_times (sm_trace s)).

Lemma send_ok_incoming s s' : incoming s s' -> send_ok s -> send_ok s'.
Proof.
  intros (Hm & (Ht & Hmail & Hf)%published_only_keeps & Hi & Hd & Hp & Hl) [].
  split; [by rewrite Hm, Hmail|auto|congruence|auto|..].
  - by rewrite Ht, Hd.
  - by rewrite Ht.
Qed.

Lemma sent_ok_published s s' :
  sm_mail s' = sm_mail s -> published_only (sm_trace s) (sm_trace s') -> sent_ok s -> sent_ok s'.
Proof.
  intros Hm (Ht & Hmail & Hf)%published_only_keeps (? & ? & ?).
  split_and!; [auto|by rewrite Hm, Hmail|by rewrite Ht].
Qed.

Lemma send_ok_sent s : send_ok s -> sent_ok s.
Proof. by intros []. Qed.

Lemma current_reachable_fresh tr now payload :
  current (mail_at tr).1 (p_id port) now = Some payload ->
  fresh_payload (mail_at tr).2 (mail_at tr).1 (p_id port) now payload.
Proof.
  apply current_fresh. eapply run_ops_ok; [apply (mailboxes_new_ok config)|apply surjective_pairing].
Qed.

(** A transmission at [now], once the schedule allows it. *)
Lemma sent_ok_transmit s now payload frame wire r (s' : Stream P) :
  send_ok s -> sc_due (sm_schedule s) <= now ->
  event_ok (sm_trace s) (Transmitted now payload frame wire r) ->
  sm_trace s' = sm_trace s ++ [Transmitted now payload frame wire r] ->
  sm_mail s' = transmit_result (sm_mail s) (p_id port) r -> sent_ok s'.
Proof.
  intros [Hm _ _ Hs Hd Hsp] Hn Ht Htr Hm'. unfold sent_ok. rewrite Htr, mail_at_snoc. split_and!.
  - by apply trace_ok_snoc.
  - by rewrite Hm', Hm.
  - unfold spaced, send_times in *. rewrite omap_app. simpl. rewrite StronglySorted_app.
    split_and!; [|done|by repeat constructor]. intros t x Hin ->%list_elem_of_singleton.
    rewrite Forall_forall in Hd. specialize (Hd _ Hin). simpl in Hd. lia.
Qed.

Lemma send_part_sends fuel now s :
  send_ok s -> (forall j, (sm_i s <= j)%nat -> now <= ln_now ln j) ->
  flow (fun s' => send_ok s' /\ (sm_i s <= sm_i s')%nat /\ (fd_buffer (sm_decoder s') = [] \/ sm_trace s' = sm_trace s))
    (fun s' => sent_ok s' /\ (fd_buffer (sm_decoder s') = [] \/ sm_trace s' = sm_trace s))
    (send_part zlib_compress crc32 frame_error_text ln port fuel now s).
Proof.
  intros Hs Hnow. unfold send_part. destruct (may_send _ _) eqn:Hmay; [|simpl; by auto].
  apply andb_true_iff in Hmay as [[Hdue Hpart]%andb_true_iff _]. apply Z.leb_le in Hdue.
  assert (Hbuf : fd_buffer (sm_decoder s) = []).
  { apply negb_true_iff, bool_decide_eq_false in Hpart. destruct (fd_buffer (sm_decoder s)) eqn:Hb; [done|].
    destruct Hpart. apply (so_line _ Hs). by rewrite Hb. }
  (* what the transmission leaves for the schedule to record *)
  set (mid := fun s' : Stream P => sent_ok s' /\
    (sm_i s <= sm_i s')%nat /\ sm_decoder s' = sm_decoder s /\ sm_schedule s' = sm_schedule s /\
    Forall (fun t => t <= now) (send_times (sm_trace s'))).
  assert (Hold : Forall (fun t => t <= now) (send_times (sm_trace s))).
  { eapply Forall_impl; [apply (so_due _ Hs)|]. intros t Ht. cbv beta in Ht. unfold millis in Ht. lia. }
  eapply flow_then with (Q := mid).
  - destruct (current _ _ _) as [payload|] eqn:Hc; [|split_and!; [by apply send_ok_sent|done..]].
    destruct (encode _ _ _ _) as [frame|e] eqn:He; [|simpl; split; [by apply send_ok_sent|by auto]].
    destruct (write_once _ _ _ _ _) as [[[j wire] r]|] eqn:Hw; [|done]. cbv zeta.
    apply write_rounds_spec in Hw as [Hpre Hr].
    assert (Ht : event_ok (sm_trace s) (Transmitted now payload frame wire (map_err write_error_text r))).
    { split_and!; [done|done|by destruct r|]. apply current_reachable_fresh. by rewrite <- (so_mail _ Hs). }
    set (s1 := set_peer _ _ _ _ _).
    assert (Hs1 : sent_ok s1) by (by eapply sent_ok_transmit).
    destruct r as [u|e].
    + simpl. split_and!; [done|simpl; lia|done|done|].
      unfold send_times. simpl. rewrite omap_app. apply Forall_app. split; [done|]. by repeat constructor.
    + eapply flow_mono; [apply disconnect_aside|done|]. intros s2 (Hm & Hp & _ & Hd & _). split.
      * by eapply sent_ok_published.
      * left. by rewrite Hd.
  - intros s1 ((Hs1 & Hm & Hsp) & Hi & Hd & Hsc & Hle). simpl. split_and!; [|lia|left; by rewrite Hd].
    split; simpl; [done| |by rewrite Hsc; apply (so_period _ Hs)|done| |done].
    + unfold line_ok. simpl. rewrite Hd, Hsc. apply (so_line _ Hs).
    + eapply Forall_impl; [exact Hle|]. intros t Hle'. cbv beta. rewrite Hsc, (so_period _ Hs).
      specialize (Hnow (sm_i s1) Hi). cbv beta in Hle'. lia.
Qed.

(** Events a stream added since [tr], with the decoder it ends with. *)
Definition idle_sends (tr : list StreamEvent) (s : Stream P) : Prop :=
  send_times (sm_trace s) <> send_times tr -> fd_buffer (sm_decoder s) = [].

Lemma stream_round_sends fuel s :
  send_ok s ->
  flow (fun s' => send_ok s' /\ idle_sends (sm_trace s) s') (fun s' => sent_ok s' /\ idle_sends (sm_trace s) s')
    (round fuel s).
Proof.
  intros Hs. unfold stream_round. destruct (ln_cancelled ln (sm_i s)); [split; [by apply send_ok_sent|by intros []]|].
  cbv zeta. set (s0 := set_peer (set_mail (advance s 2) _) _ _ _ _).
  assert (H0 : send_ok s0 /\ send_times (sm_trace s0) = send_times (sm_trace s)).
  { assert (Ht : send_times (sm_trace s0) = send_times (sm_trace s)).
    { unfold send_times, s0. simpl. by rewrite omap_app, app_nil_r. }
    split; [|done]. destruct Hs as [Hm ? ? ? ? ?]. split; [|done|done|by apply trace_ok_snoc|by rewrite Ht|by rewrite Ht].
    simpl. rewrite mail_at_snoc, Hm. apply run_ops_log. }
  clearbody s0. set (mid := fun s' : Stream P => send_ok s' /\ send_times (sm_trace s') = send_times (sm_trace s)).
  assert (Hin : forall s1 f, mid s1 -> Incoming s1 f ->
    flow (fun s' => mid s' /\ (sm_i s1 <= sm_i s')%nat) (fun s' => sent_ok s' /\ idle_sends (sm_trace s) s') f).
  { intros s1 f [H1 Ht1] Hf. eapply flow_mono; [exact Hf| |].
    - intros s' Hi. split; [split; [by apply (send_ok_incoming s1)|]|apply Hi].
      destruct Hi as (_ & [Ht _]%published_only_keeps & _). congruence.
    - intros s' [Hm Hp]. split; [apply (sent_ok_published s1); [done|done|by apply send_ok_sent]|].
      intros Hne. destruct Hne. apply published_only_keeps in Hp as [Hp _]. congruence. }
  eapply flow_then; [apply Hin; [exact H0|apply read_part_incoming]|]. intros s1 [H1 Hi1].
  eapply flow_then with (Q := fun s' => mid s' /\ (S (sm_i s1) <= sm_i s')%nat).
  { eapply flow_mono; [apply (Hin (advance s1 1)); [|apply expire_part_incoming]| |done].
    - destruct H1 as [[] Ht]. split; [by split|done].
    - intros s' [Hm Hi]. split; [done|simpl in Hi; lia]. }
  intros s2 [H2 Hi2]. eapply flow_then; [apply Hin; [exact H2|]; apply flow_aside_incoming, timeout_part_aside|].
  intros s3 [[H3 Ht3] Hi3]. eapply flow_mono; [apply send_part_sends; [exact H3|]| |].
  - intros j Hj. apply now_mono. lia.
  - intros s' (Hs' & _ & Hb). split; [done|]. intros Hne. destruct Hb as [|Htr]; [done|]. destruct Hne. congruence.
  - intros s' (Hs' & Hb). split; [done|]. intros Hne. destruct Hb as [|Htr]; [done|]. destruct Hne. congruence.
Qed.

Lemma run_rounds_sends k fuel s : send_ok s -> flow send_ok sent_ok (rounds k fuel s).
Proof.
  revert s. induction k as [|k IH]; intros s Hs; [done|]. cbn [run_rounds].
  eapply flow_then with (Q := send_ok); [|apply IH].
  eapply flow_mono; [by apply stream_round_sends|by intros s' []..].
Qed.

(** C22: the sending discipline of a synchronization port. Start a stream on
    mailboxes with any history, run any number of rounds against any line
    whose clock does not go back, and one more. Whether the last round goes on
    or leaves the loop: the mailboxes are what the operations of the clients
    and the outcomes of the transmissions in the trace made of them; every
    transmission of the whole run put on the wire a prefix of the encoded
    frame of a complete and valid snapshot, the whole of it when it was
    reported successful, and that snapshot was fresh at the time of the
    sending in the mailboxes as they then were: the last one submitted, or the
    last value supplied for each field, younger than the maximum age; two
    transmissions are at least [send_interval_ms] apart; and the last round
    transmitted only if no unfinished incoming frame was pending. *)
Theorem sends_fresh_spaced_and_idle k fuel i p st s0 s :
  stream_start ln port settings i p st (run_ops (mailboxes_new config) [] before).1 = Some s0 ->
  rounds k fuel s0 = Next s ->
  flow (fun s' => sent_ok s' /\ idle_sends (sm_trace s) s') (fun s' => sent_ok s' /\ idle_sends (sm_trace s) s')
    (round fuel s).
Proof.
  intros Hst Hk. unfold stream_start in Hst. destruct (decoder_new _) as [d|] eqn:Hd; [|done].
  assert (Hb : fd_buffer d = []).
  { unfold decoder_new in Hd. apply bind_Ok in Hd as (u & _ & Hd). by injection Hd as <-. }
  assert (Hs0 : send_ok s0).
  { injection Hst as <-. split; simpl; [| |done|by intros [] ? ? ?|done|constructor].
    - unfold mail_at. simpl. by rewrite app_nil_r.
    - unfold line_ok. simpl. rewrite Hb. split; [by intros []|done]. }
  pose proof (run_rounds_sends k fuel s0 Hs0) as Hs. rewrite Hk in Hs.
  eapply flow_mono; [by apply stream_round_sends| |done]. intros s' [Hs' Hi]. split; [by apply send_ok_sent|done].
Qed.
End Send.

(** ** The store of a stream *)

(** A stream changes the store only by the operations of the store. *)
Section StoreInv.
Context (zlib_compress : list Z -> result string (list Z)).
Context (zlib_decompress : list Z -> nat -> result string Inflated).
Context (crc32 : list Z -> Z).
Context {P : Type} `{DeviceProtocol P}.
Context (frame_error_text : FrameError -> string).
Context (receive_debug : result IoError (list Z) -> string).
Context (ln : Line) (port : PortConfig) (settings : Settings) (task : TaskConfig).
Context (I : PointStore -> Prop) (I_step : forall st st', store_step st st' -> I st -> I st').

Abbreviation holds := (flow (fun s : Stream P => I (sm_store s)) (fun s => I (sm_store s))).

Lemma holds_then f k :
  holds f -> (forall s, I (sm_store s) -> holds (k s)) -> holds (andThen f k).
Proof. apply flow_then. Qed.

Lemma on_store_holds s f : (forall st, store_step st (f st).1) -> I (sm_store s) -> holds (on_store s f).
Proof.
  intros Hf Hs. unfold on_store. specialize (Hf (sm_store s)).
  destruct (f (sm_store s)) as [st []]; simpl in *; by eapply I_step.
Qed.
Local Hint Constructors store_step : core.

Lemma handle_payloads_holds now s ps : I (sm_store s) -> holds (handle_payloads ln task now s ps).
Proof.
  revert s. induction ps as [|p ps IH]; intros s Hs; [done|]. cbn [handle_payloads].
  apply holds_then; [|apply IH]. unfold handle_payload. destruct (response _ _ _) as [q [[|points]|e]]; [done| |].
  - apply holds_then; [by apply on_store_holds|]. intros s1 H1.
    pose proof (step_publish (sm_store s1) (t_id task) points (ln_utc ln (sm_i s1 + 1)) (ln_utc ln (sm_i s1 + 2))) as Hp.
    destruct (publish_points _ _ _ _ _) as [st [u|e]]; [by eapply I_step|].
    apply on_store_holds; [by intros; apply step_fail|]. by eapply I_step.
  - by apply on_store_holds.
Qed.

Lemma report_frame_errors_holds s frames expired :
  I (sm_store s) -> holds (report_frame_errors port s frames expired).
Proof. intros Hs. unfold report_frame_errors. case_match; [done|by apply on_store_holds]. Qed.

Lemma disconnect_holds s text :
  I (sm_store s) ->
  holds (s ↩ on_store s (fun st => port_state st (p_id port) "Disconnected" text false);
         Done s (Ok (sm_received_valid s))).
Proof. intros Hs. apply holds_then; [by apply on_store_holds|done]. Qed.

Lemma read_part_holds s :
  I (sm_store s) -> holds (read_part zlib_decompress crc32 frame_error_text receive_debug ln port task s).
Proof.
  intros Hs. unfold read_part. cbv zeta. destruct (ln_read ln (sm_i s)) as [chunk|e].
  - destruct (_ && _); [|by apply disconnect_holds]. unfold received_chunk.
    destruct (feed _ _ _ _) as [[d [frames|e]]|]; [|by apply on_store_holds|done].
    apply holds_then; [by apply report_frame_errors_holds|]. intros s1 H1. by apply handle_payloads_holds.
  - destruct (transient e); [done|by apply disconnect_holds].
Qed.

Lemma run_rounds_holds k fuel s :
  I (sm_store s) ->
  holds (run_rounds zlib_compress zlib_decompress crc32 frame_error_text receive_debug ln port settings task k fuel s).
Proof.
  revert s. induction k as [|k IH]; intros s Hs; [done|]. cbn [run_rounds]. apply holds_then; [|apply IH].
  unfold stream_round. destruct (ln_cancelled ln (sm_i s)); [done|].
  apply holds_then; [by apply read_part_holds|]. intros s1 H1.
  apply holds_then; [|intros s2 H2; apply holds_then; [|intros s3 H3]].
  - unfold expire_part. destruct (partial_expired _ _); [|done].
    destruct (recover_expired _ _ _) as [[d recovered]|]; [|done].
    apply holds_then; [by apply report_frame_errors_holds|]. intros s2 H2.
    apply holds_then; [by apply handle_payloads_holds|done].
  - unfold timeout_part. destruct (_ && _); [|done]. apply holds_then; [by apply on_store_holds|done].
  - unfold send_part. destruct (may_send _ _); [|done]. apply holds_then; [|done].
    destruct (current _ _ _) as [payload|]; [|done]. destruct (encode _ _ _ _) as [frame|e]; [|done].
    destruct (write_once _ _ _ _ _) as [[[j wire] [u|e]]|]; [done| |done]. by apply disconnect_holds.
Qed.
End StoreInv.

(** ** Termination of a round *)

Section Total.
Context (zlib_compress : list Z -> result string (list Z)).
Context (zlib_decompress : list Z -> nat -> result string Inflated).
Context (crc32 : list Z -> Z).
Context {P : Type} `{DeviceProtocol P}.
Context (frame_error_text : FrameError -> string).
Context (receive_debug : result IoError (list Z) -> string).
Context (ln : Line) (port : PortConfig) (settings : Settings) (task : TaskConfig) (pace : nat).

(** The clock moves past a write deadline within [pace] attempts. *)
Hypothesis clock_moves : forall i j, (i + 4 * pace <= j)%nat ->
  ln_now ln i + millis (p_write_timeout_ms port) <= ln_now ln j.

Notation round := (stream_round zlib_compress zlib_decompress crc32 frame_error_text receive_debug ln port settings task).
Notation rounds := (run_rounds zlib_compress zlib_decompress crc32 frame_error_text receive_debug ln port settings task).

Definition ready (i : nat) (s : Stream P) : Prop :=
  decoder_ok zlib_decompress crc32 (sm_decoder s) /\ fd_limits (sm_decoder s) = port_limits port /\ (i <= sm_i s)%nat.

(** [f] is not stuck and goes on only in a state of [Q]. *)
Definition lives (Q : Stream P -> Prop) (f : Flow P) : Prop :=
  match f with Next s => Q s | Done _ _ => True | Stuck => False end.

Lemma lives_then Q Q' f k : lives Q f -> (forall s, Q s -> lives Q' (k s)) -> lives Q' (andThen f k).
Proof. destruct f; simpl; auto. Qed.

Lemma on_store_lives i s f : ready i s -> lives (ready i) (on_store s f).
Proof. intros Hs. unfold on_store. by destruct (f (sm_store s)) as [st []]. Qed.

Lemma report_frame_errors_lives i s frames expired :
  ready i s -> lives (ready i) (report_frame_errors port s frames expired).
Proof. intros Hs. unfold report_frame_errors. case_match; [done|by apply on_store_lives]. Qed.

Lemma ready_line i n s s' :
  ready i s -> sm_decoder s' = sm_decoder s -> sm_i s' = (sm_i s + n)%nat -> ready i s'.
Proof. intros (H1 & H2 & H3) Hd Hi. split_and!; [by rewrite Hd|by rewrite Hd|lia]. Qed.

Lemma handle_payloads_lives i now s ps : ready i s -> lives (ready i) (handle_payloads ln task now s ps).
Proof.
  revert s. induction ps as [|p ps IH]; intros s Hs; [done|]. cbn [handle_payloads].
  eapply lives_then; [|apply IH]. unfold handle_payload. destruct (response _ _ _) as [q [[|points]|e]]; [done| |].
  - eapply lives_then; [by apply on_store_lives|]. intros s1 H1.
    assert (H2 : ready i (advance s1 3)) by (by eapply (ready_line i 3)).
    destruct (publish_points _ _ _ _ _) as [st [u|e]]; [done|]. by apply on_store_lives.
  - by apply on_store_lives.
Qed.

Lemma received_chunk_lives i s chunk :
  ready i s -> (length chunk <= buffer_len port)%nat ->
  lives (ready i) (received_chunk zlib_decompress crc32 frame_error_text ln port task s chunk).
Proof.
  intros (Hd & Hl & Hi) Hlen. unfold received_chunk. cbv zeta. simpl sm_decoder.
  destruct (feed_spec zlib_decompress crc32 _ chunk Hd) as (r & rest & _ & -> & Hd' & _).
  { rewrite Hl. unfold buffer_len in Hlen. simpl. lia. }
  eapply lives_then with (Q := ready i).
  { apply report_frame_errors_lives. split_and!; simpl; [done|done|lia]. }
  intros s1 (_ & _ & H1). apply handle_payloads_lives. by split_and!.
Qed.

Lemma read_part_lives i s :
  ready i s -> lives (ready i) (read_part zlib_decompress crc32 frame_error_text receive_debug ln port task s).
Proof.
  intros Hs. assert (Ha : ready i (advance s 1)) by (by eapply (ready_line i 1)).
  unfold read_part. cbv zeta. destruct (ln_read ln (sm_i s)) as [chunk|e].
  - destruct (_ && _) eqn:E; [|by eapply lives_then; [by apply on_store_lives|]].
    apply andb_true_iff in E as [_ E%Nat.leb_le]. by apply received_chunk_lives.
  - destruct (transient e); [done|]. by eapply lives_then; [by apply on_store_lives|].
Qed.

Lemma reset_decoder_ok d : decoder_ok zlib_decompress crc32 d -> decoder_ok zlib_decompress crc32 (reset d).
Proof.
  intros [Hl Hb Hs]. split; simpl; [done|lia|]. apply scan_short. simpl. lia.
Qed.

Lemma expire_part_lives i now s :
  ready i s -> lives (ready i) (expire_part zlib_decompress crc32 ln port task now s).
Proof.
  intros Hs. unfold expire_part. destruct (partial_expired _ _); [|done].
  destruct (recover_expired_empties zlib_decompress crc32 (sm_decoder s)) as (rej & segs & -> & _).
  assert (Hr : ready i (set_line s (reset (sm_decoder s)) (sm_schedule s))).
  { destruct Hs as (? & ? & ?). split_and!; [by apply reset_decoder_ok|done|done]. }
  eapply lives_then; [by apply report_frame_errors_lives|]. intros s1 H1.
  eapply lives_then; [by apply handle_payloads_lives|]. by intros s2 H2.
Qed.

Lemma timeout_part_lives i now s : ready i s -> lives (ready i) (timeout_part settings task now s).
Proof.
  intros Hs. unfold timeout_part. destruct (_ && _); [|done].
  eapply lives_then; [by apply on_store_lives|]. by intros s1 H1.
Qed.

Lemma send_part_lives fuel i s :
  (pace < fuel)%nat -> ready (S i) s ->
  lives (ready i) (send_part zlib_compress crc32 frame_error_text ln port fuel (ln_now ln i) s).
Proof.
  intros Hf (Hd & Hl & Hi). assert (Hs : ready i s) by (split_and!; [done|done|lia]).
  unfold send_part. destruct (may_send _ _); [|done].
  eapply lives_then with (Q := ready i).
  2: { intros s1 H1. simpl. by eapply (ready_line i 1). }
  destruct (current _ _ _) as [payload|]; [|done]. destruct (encode _ _ _ _) as [frame|e]; [|done].
  destruct (write_rounds_total ln (ln_now ln i + millis (p_write_timeout_ms port)) (sm_i s) pace) with
    (fuel := fuel) (data := frame) (written := 0%nat) as [[[j wire] r] Hw].
  { intros j Hj. apply clock_moves. lia. }
  { done. }
  unfold write_once. rewrite Hw. cbv zeta. set (s1 := set_peer _ _ _ _ _).
  assert (H1 : ready i s1) by (by eapply (ready_line i (j - sm_i s))).
  destruct r as [u|e]; [done|]. by eapply lives_then; [by apply on_store_lives|].
Qed.

Lemma stream_round_lives fuel s :
  (pace < fuel)%nat -> ready 0 s -> lives (ready 0) (round fuel s).
Proof.
  intros Hf Hs. unfold stream_round. destruct (ln_cancelled ln (sm_i s)); [done|]. cbv zeta.
  eapply lives_then; [apply read_part_lives; by eapply (ready_line 0 2)|]. intros s1 H1.
  eapply lives_then with (Q := ready (S (sm_i s1))).
  { apply expire_part_lives. destruct H1 as (? & ? & ?). split_and!; [done|done|simpl; lia]. }
  intros s2 H2. eapply lives_then; [by apply timeout_part_lives|]. intros s3 H3.
  pose proof (send_part_lives fuel (sm_i s1) s3 Hf H3) as Hl.
  destruct (send_part _ _ _ _ _ _ _ _); simpl in *; [|done|done]. destruct Hl as (? & ? & ?). split_and!; [done|done|lia].
Qed.

(** a synchronization stream never hangs and its decoder never overflows.
    For a port whose frame limits are valid and a clock that passes a write
    deadline within [pace] attempts, every number of rounds runs to its end
    with [pace + 1] write attempts of fuel: each round goes on or leaves the
    loop with a result, and the decoder is left consistent. *)
Theorem stream_rounds_total k fuel i p st m s0 :
  (pace < fuel)%nat -> stream_start ln port settings i p st m = Some s0 ->
  match rounds k fuel s0 with
  | Next s => decoder_ok zlib_decompress crc32 (sm_decoder s) /\ fd_limits (sm_decoder s) = port_limits port
  | Done _ _ => True
  | Stuck => False
  end.
Proof.
  intros Hf Hst. unfold stream_start in Hst. destruct (decoder_new _) as [d|] eqn:Hd; [|done].
  apply decoder_new_ok with (zlib_decompress := zlib_decompress) (crc32 := crc32) in Hd as (Hd & _ & Hl).
  assert (Hs : ready 0 s0) by (injection Hst as <-; split_and!; [done|done|simpl; lia]). clear Hst.
  assert (Hr : lives (ready 0) (rounds k fuel s0)).
  { revert s0 Hs. induction k as [|k IH]; intros s0 Hs; [done|]. cbn [run_rounds].
    eapply lives_then; [by apply stream_round_lives|]. apply IH. }
  unfold lives, ready in Hr. destruct (rounds k fuel s0) as [s|s r|]; [|done|done]. by destruct Hr as (? & ? & _).
Qed.
End Total.

(** ** Examples *)

(** The peer's report arrives at the first read; the clients submit a snapshot
    before it; the clock advances 100 ms per question. *)
Definition toy_encoded (payload : list Z) : list Z :=
  match encode toy_compress toy_crc payload (port_limits toy_port) with Ok f => f | Err _ => [] end.

Definition toy_line : Line :=
  {| ln_read := fun i => if (i =? 4)%nat then Ok (toy_encoded toy_report) else Err {| io_kind := IoTimedOut; io_text := "timed out" |};
     ln_write := fun _ => Ok (length (toy_encoded (empty_transmit_payload Unit1To9))); ln_clear := fun _ => Ok (); ln_now := fun i => millis (100 * Z.of_nat i);
     ln_utc := fun i => Z.of_nat i; ln_cancelled := fun _ => false;
     ln_clients := fun i => if (i =? 3)%nat then toy_ops else [] |}.

Definition toy_start : Stream Layout :=
  match stream_start toy_line toy_port toy_settings 0 Unit9To1 toy_store (mailboxes_new toy_config) with
  | Some s => s
  | None => {| sm_i := 0; sm_decoder := toy_decoder; sm_schedule := schedule_new toy_settings 0 0; sm_last_valid := 0;
               sm_timed_out := false; sm_received_valid := false; sm_protocol := Unit9To1; sm_store := toy_store;
               sm_mail := ∅; sm_trace := [] |}
  end.

Notation toy_rounds := (run_rounds toy_compress toy_decompress toy_crc (fun _ => "frame") (fun _ => "receive")
                          toy_line toy_port toy_settings toy_task).
Notation toy_round := (stream_round toy_compress toy_decompress toy_crc (fun _ => "frame") (fun _ => "receive")
                         toy_line toy_port toy_settings toy_task).

(** What a round shows: the sends, the time of the snapshot and a point. *)
Definition observed (f : Flow Layout) : option (list Z * option Z * bool * option Sample) :=
  match f with
  | Next s =>
      Some (send_times (sm_trace s), (fun e => e.1.1) <$> last_published (sm_trace s),
            from_option (fun names => bool_decide ("DATA.Header.nBlock.z" ∈ names)) false
              (st_tasks (sm_store s) !! "peer"),
            st_samples (sm_store s) !! "DATA.Header.nBlock.z")
  | _ => None
  end.

Definition toy_sample : Sample :=
  {| s_value := PUInt32 9; s_quality := Good; s_source_timestamp := Some 7; s_error := "" |}.

Lemma toy_first_round :
  observed (toy_round 3 toy_start) = Some ([millis 900], Some (millis 500), true, Some toy_sample).
Proof. vm_compute. reflexivity. Qed.

Definition no_good (m : gmap string Sample) : bool :=
  forallb (fun kv => negb (bool_decide (s_quality kv.2 = Good))) (map_to_list m).

Lemma no_good_lookup m n smp : no_good m = true -> m !! n = Some smp -> s_quality smp <> Good.
Proof.
  unfold no_good. rewrite forallb_forall. intros Hall Hs%elem_of_map_to_list%list_elem_of_In Hq.
  apply Hall in Hs. simpl in Hs. by rewrite (bool_decide_true _ Hq) in Hs.
Qed.

Lemma toy_store_no_good names n smp :
  st_tasks toy_store !! "peer" = Some names -> n ∈ names -> st_samples toy_store !! n = Some smp -> s_quality smp <> Good.
Proof. intros _ _. apply no_good_lookup. vm_compute. reflexivity. Qed.

Lemma toy_clock_moves i j : (i + 4 * 2 <= j)%nat ->
  ln_now toy_line i + millis (p_write_timeout_ms toy_port) <= ln_now toy_line j.
Proof. simpl. unfold millis. lia. Qed.

Lemma good_points_are_fresh_witness :
  exists s' smp at_, toy_round 3 toy_start = Next s' /\ st_samples (sm_store s') !! "DATA.Header.nBlock.z" = Some smp /\
    s_quality smp = Good /\ (exists payload us, last_published (sm_trace s') = Some (at_, payload, us)) /\
    exists j, (sm_i toy_start < j)%nat /\ duration_saturating_sub (ln_now toy_line j) at_ < millis 5000.
Proof.
  pose proof toy_first_round as Ho. destruct (toy_round 3 toy_start) as [s'| |] eqn:E; [|discriminate Ho..].
  simpl in Ho. destruct (st_tasks (sm_store s') !! "peer") as [names|] eqn:Ht; [|by injection Ho].
  injection Ho as _ _ Hn Hs. apply bool_decide_eq_true in Hn.
  destruct (good_points_are_fresh toy_compress toy_decompress toy_crc (fun _ => "frame") (fun _ => "receive")
              toy_line toy_port toy_settings toy_task 0 3 0 Unit9To1 toy_store (mailboxes_new toy_config)
              toy_start toy_start s' names "DATA.Header.nBlock.z" toy_sample toy_store_wf toy_store_no_good)
    as (at_ & payload & us & u & j & Hl & _ & _ & _ & Hj & Hf);
    [vm_compute; reflexivity|reflexivity|exact E|exact Ht|exact Hn|exact Hs|reflexivity|].
  exists s', toy_sample, at_. split_and!; [reflexivity|exact Hs|reflexivity|by exists payload, us|].
  exists j. split; [lia|exact Hf].
Defined.

Lemma sends_fresh_spaced_and_idle_witness :
  exists s', toy_round 3 toy_start = Next s' /\ send_times (sm_trace s') = [millis 900] /\
    trace_ok toy_compress toy_crc toy_line toy_config toy_port [] (sm_trace s') /\ fd_buffer (sm_decoder s') = [].
Proof.
  pose proof toy_first_round as Ho.
  pose proof (sends_fresh_spaced_and_idle toy_compress toy_decompress toy_crc (fun _ => "frame") (fun _ => "receive")
    toy_line toy_config toy_port toy_settings toy_task []) as H.
  specialize (H (fun i j Hij => ltac:(simpl; unfold millis; lia)) ltac:(simpl; lia)
    0%nat 3%nat 0%nat Unit9To1 toy_store toy_start toy_start).
  specialize (H ltac:(vm_compute; reflexivity) eq_refl).
  destruct (toy_round 3 toy_start) as [s'| |] eqn:E; [|discriminate Ho..]. simpl in Ho, H.
  injection Ho as Hs _ _ _. destruct H as [[Hf _] Hi]. exists s'. split_and!; [reflexivity|exact Hs|exact Hf|].
  apply Hi. rewrite Hs. discriminate.
Defined.

Lemma stream_rounds_total_witness :
  (2 < 3)%nat /\ toy_rounds 5 3 toy_start <> Stuck.
Proof.
  split; [lia|]. pose proof (stream_rounds_total toy_compress toy_decompress toy_crc (fun _ => "frame")
    (fun _ => "receive") toy_line toy_port toy_settings toy_task 2 toy_clock_moves 5 3 0 Unit9To1 toy_store
    (mailboxes_new toy_config) toy_start ltac:(lia) ltac:(vm_compute; reflexivity)) as H.
  intros E. rewrite E in H. exact H.
Defined.
