(* ===== verification/Poller.v ===== *)
(** * Polling and reconnection (src/communicate/src/poller.rs)

    The request/response exchange, the round-robin schedule and the worker
    that owns a port: it opens the device, runs the stream or the polls, and
    reconnects with a growing delay.  The line, the clock and the token are
    the environment of Line.v; [connect] answers whether the [i]-th question
    opens the device. *)

From S2P Require Import Prelude RustFloat RustStr Frame CommModel UnitReport CommConfig Points Mailbox Line Stream.
Open Scope string_scope.
Open Scope Z_scope.
Open Scope list_scope.

(** ** The schedule of a polled port ([Schedule] of poller.rs) *)

Record PollSchedule := { pd_due : list Z; pd_cursor : nat }.

Definition poll_schedule_new (count : nat) (now : Z) : PollSchedule :=
  {| pd_due := replicate count now; pd_cursor := 0 |}.

(** The loop over the offsets that are left. *)
Fixpoint next_from (s : PollSchedule) (now : Z) (offset remaining : nat) : option nat :=
  match remaining with
  | O => None
  | S remaining =>
      let index := ((pd_cursor s + offset) mod length (pd_due s))%nat in
      match pd_due s !! index with
      | Some due => if due <=? now then Some index else next_from s now (S offset) remaining
      | None => None
      end
  end.

Definition poll_next (s : PollSchedule) (now : Z) : PollSchedule * option nat :=
  match next_from s now 0 (length (pd_due s)) with
  | Some index => ({| pd_due := pd_due s; pd_cursor := ((index + 1) mod length (pd_due s))%nat |}, Some index)
  | None => (s, None)
  end.

Definition completed (s : PollSchedule) (index : nat) (now interval : Z) : PollSchedule :=
  {| pd_due := <[index := now + interval]> (pd_due s); pd_cursor := pd_cursor s |}.

(** ** No task starves *)

Record schedule_wf (s : PollSchedule) : Prop := {
  sw_cursor : (pd_cursor s < length (pd_due s))%nat
}.

(** A call of the schedule: the clock at [next], and the clock and interval
    at [completed]. *)
Record Call := { cl_now : Z; cl_done : Z; cl_interval : Z }.

(** The tasks served by a sequence of calls. *)
Fixpoint served (s : PollSchedule) (calls : list Call) : list nat :=
  match calls with
  | [] => []
  | c :: calls =>
      match poll_next s (cl_now c) with
      | (s, Some index) => index :: served (completed s index (cl_done c) (cl_interval c)) calls
      | (s, None) => served s calls
      end
  end.

(** How far the cursor is from [i]. *)
Definition ahead (s : PollSchedule) (i : nat) : nat :=
  if (pd_cursor s <=? i)%nat then i - pd_cursor s else i + length (pd_due s) - pd_cursor s.

Lemma next_from_finds s now i d offset remaining :
  (pd_cursor s < length (pd_due s))%nat -> pd_due s !! i = Some d -> d <= now ->
  (offset <= ahead s i < offset + remaining)%nat ->
  exists o, (offset <= o <= ahead s i)%nat /\
    next_from s now offset remaining = Some ((pd_cursor s + o) mod length (pd_due s))%nat.
Proof.
  intros Hc Hi Hd. pose proof (lookup_lt_Some _ _ _ Hi) as Hlt. revert offset.
  induction remaining as [|remaining IH]; intros offset Ho; [lia|]. cbn [next_from].
  set (index := ((pd_cursor s + offset) mod length (pd_due s))%nat).
  assert (Hidx : (index < length (pd_due s))%nat) by (apply Nat.mod_upper_bound; lia).
  destruct (lookup_lt_is_Some_2 _ _ Hidx) as [due Hdue]. rewrite Hdue.
  destruct (Z.leb_spec due now) as [Hle|Hgt]; [exists offset; split; [lia|done]|].
  assert (Hne : ahead s i <> offset).
  { intros He. enough (index = i) by (simplify_eq; lia). unfold index, ahead in *.
    destruct (Nat.leb_spec (pd_cursor s) i).
    - rewrite Nat.mod_small by lia. lia.
    - replace (pd_cursor s + offset)%nat with (i + 1 * length (pd_due s))%nat by lia.
      rewrite Nat.Div0.mod_add, Nat.mod_small by lia. done. }
  destruct (IH (S offset)) as (o & Ho' & E); [lia|]. exists o. split; [lia|done].
Qed.

(** While [i] is due, [next] serves it or moves the cursor closer to it. *)
Lemma poll_next_progress s now i d :
  schedule_wf s -> pd_due s !! i = Some d -> d <= now ->
  exists s' j, poll_next s now = (s', Some j) /\ (j < length (pd_due s))%nat /\ pd_due s' = pd_due s /\ schedule_wf s' /\
    (j = i \/ (ahead s' i < ahead s i)%nat).
Proof.
  intros [Hc] Hi Hd. pose proof (lookup_lt_Some _ _ _ Hi) as Hlt.
  destruct (next_from_finds s now i d 0 (length (pd_due s)) Hc Hi Hd) as (o & Ho & E).
  { unfold ahead. destruct (Nat.leb_spec (pd_cursor s) i); lia. }
  unfold poll_next. rewrite E. set (n := length (pd_due s)) in *. set (j := ((pd_cursor s + o) mod n)%nat).
  assert (Hj : (j < n)%nat) by (apply Nat.mod_upper_bound; lia).
  eexists _, j. split; [done|]. split; [done|]. split; [done|]. split.
  { split. simpl. apply Nat.mod_upper_bound. lia. }
  destruct (decide (j = i)) as [|Hne]; [by left|right]. unfold ahead in *. simpl. fold n.
  assert (Hjc : j = (pd_cursor s + o)%nat \/ (j + n = pd_cursor s + o /\ n <= pd_cursor s + o)%nat).
  { unfold j. destruct (Nat.lt_ge_cases (pd_cursor s + o) n); [left; by apply Nat.mod_small|right].
    replace (pd_cursor s + o)%nat with (pd_cursor s + o - n + 1 * n)%nat by lia.
    rewrite Nat.Div0.mod_add, Nat.mod_small; [lia|]. fold n in Ho. destruct (pd_cursor s <=? i)%nat; lia. }
  assert (Hj1 : ((j + 1) mod n = j + 1 \/ (j + 1 = n /\ (j + 1) mod n = 0))%nat).
  { destruct (Nat.lt_ge_cases (j + 1) n); [left; by apply Nat.mod_small|right].
    replace (j + 1)%nat with n by lia. rewrite Nat.Div0.mod_same. lia. }
  fold n in Ho. destruct (Nat.leb_spec (pd_cursor s) i); destruct (Nat.leb_spec ((j + 1) mod n) i); lia.
Qed.

(** no task starves. In any sequence of calls of a schedule, whatever is
    served and rescheduled in between, a task that stays due is served
    within as many calls as the port has tasks. *)
Theorem due_task_is_served s i d calls :
  schedule_wf s -> pd_due s !! i = Some d -> Forall (fun c => d <= cl_now c) calls ->
  (length (pd_due s) <= length calls)%nat -> i ∈ served s calls.
Proof.
  intros Hwf Hi Hdue Hlen.
  assert (Hm : (ahead s i < length calls)%nat).
  { pose proof (lookup_lt_Some _ _ _ Hi). destruct Hwf. unfold ahead. destruct (Nat.leb_spec (pd_cursor s) i); lia. }
  clear Hlen. revert s Hwf Hi Hm. induction Hdue as [|c calls Hc Hdue IH]; intros s Hwf Hi Hm; [simpl in Hm; lia|].
  cbn [served]. destruct (poll_next_progress s (cl_now c) i d Hwf Hi Hc) as (s' & j & -> & Hj & Hd & [Hwf'] & Hp).
  destruct (decide (j = i)) as [->|Hne]; [left|right]. destruct Hp as [|Hp]; [done|].
  apply IH; unfold completed, ahead; simpl.
  - split. simpl. rewrite length_insert. done.
  - rewrite list_lookup_insert_ne by done. by rewrite Hd.
  - rewrite length_insert. unfold ahead in Hp, Hm. simpl in Hm. lia.
Qed.

Lemma due_task_is_served_witness :
  exists s, pd_due s !! 2%nat = Some 5 /\
    2%nat ∈ served s (replicate 3 {| cl_now := 7; cl_done := 7; cl_interval := 0 |}).
Proof.
  exists {| pd_due := [0; 0; 5]; pd_cursor := 0 |}. split; [reflexivity|].
  apply (due_task_is_served _ 2 5); [by constructor; simpl; lia|reflexivity|by repeat constructor|simpl; lia].
Defined.

(** ** One exchange *)

Inductive ExchangeError :=
| ExCancelled
| ExTimeout (rejected ignored : Z)
| ExWrite (e : WriteError)
| ExRead (e : IoError)
| ExProtocol (e : string)
| ExFrame (e : FrameError).

Section Exchange.
Context (zlib_compress : list Z -> result string (list Z)).
Context (zlib_decompress : list Z -> nat -> result string Inflated).
Context (crc32 : list Z -> Z).
Context {P : Type} `{DeviceProtocol P}.
Context (frame_error_text : FrameError -> string).
Context (ln : Line) (port : PortConfig).

Definition exchange_error_text (e : ExchangeError) : string :=
  match e with
  | ExCancelled => "request cancelled"
  | ExTimeout rejected ignored =>
      "response timed out (" +:+ pretty rejected +:+ " rejected frames, " +:+ pretty ignored +:+ " unmatched replies)"
  | ExWrite e => write_error_text e
  | ExRead e => "serial read: " +:+ io_text e
  | ExProtocol e => "device protocol: " +:+ e
  | ExFrame e => frame_error_text e
  end.

(** The replies of one chunk: the first match wins, the others are counted. *)
Fixpoint answers (p : P) (task : TaskConfig) (ignored : Z) (ps : list (list Z))
    : P * result ExchangeError (Z + list PointUpdate) :=
  match ps with
  | [] => (p, Ok (inl ignored))
  | payload :: ps =>
      let '(p, r) := response p task payload in
      match r with
      | Err e => (p, Err (ExProtocol e))
      | Ok Ignore => answers p task (u64_saturating_add ignored 1) ps
      | Ok (Matched points) => (p, Ok (inr points))
      end
  end.

Record Exchange := {
  x_i : nat;
  x_protocol : P;
  x_wire : list Z;
  x_result : result ExchangeError (list PointUpdate)
}.

(** The read loop; [None] is a loop that [fuel] does not cover. *)
Fixpoint exchange_rounds (fuel i : nat) (task : TaskConfig) (first_deadline frame_deadline : Z) (received : bool)
    (rejected ignored : Z) (d : FrameDecoder) (p : P) (wire : list Z) : option Exchange :=
  let stop i p r := Some {| x_i := i; x_protocol := p; x_wire := wire; x_result := r |} in
  match fuel with
  | O => None
  | S fuel =>
      if ln_cancelled ln i then stop (S i) p (Err ExCancelled)
      else
        let deadline := if received then frame_deadline else first_deadline in
        if deadline <=? ln_now ln (S i) then stop (i + 2)%nat p (Err (ExTimeout rejected ignored))
        else
          let next := (i + 4)%nat in
          match ln_read ln (i + 3)%nat with
          | Ok [] => stop next p (Err (ExRead {| io_kind := IoUnexpectedEof; io_text := "serial closed" |}))
          | Ok chunk =>
              if (length chunk <=? buffer_len port)%nat then
                match feed zlib_decompress crc32 d chunk with
                | None => None
                | Some (d, Err e) => stop next p (Err (ExFrame e))
                | Some (d, Ok frames) =>
                    let rejected := u64_saturating_add rejected (rejected_frames frames) in
                    let '(p, r) := answers p task ignored (payloads frames) in
                    match r with
                    | Err e => stop next p (Err e)
                    | Ok (inr points) => stop next p (Ok points)
                    | Ok (inl ignored) =>
                        exchange_rounds fuel next task first_deadline frame_deadline true rejected ignored d p wire
                    end
                end
              else stop next p (Err (ExRead {| io_kind := IoOther; io_text := "invalid transport read count" |}))
          | Err e =>
              if transient e then
                exchange_rounds fuel next task first_deadline frame_deadline received rejected ignored d p wire
              else stop next p (Err (ExRead e))
          end
  end.

Definition exchange (fuel i : nat) (task : TaskConfig) (p : P) : option Exchange :=
  let stop i p wire e := Some {| x_i := i; x_protocol := p; x_wire := wire; x_result := Err e |} in
  if ln_cancelled ln i then stop (S i) p [] ExCancelled
  else
    let '(p, r) := request p task in
    match r with
    | Err e => stop (S i) p [] (ExProtocol e)
    | Ok [] => stop (S i) p [] (ExProtocol "empty request is not allowed")
    | Ok payload =>
        match encode zlib_compress crc32 payload (port_limits port) with
        | Err e => stop (S i) p [] (ExFrame e)
        | Ok frame =>
            match decoder_new (port_limits port) with
            | Err e => stop (S i) p [] (ExFrame e)
            | Ok d =>
                match ln_clear ln (S i) with
                | Err e => stop (i + 2)%nat p [] (ExRead e)
                | Ok _ =>
                    match write_once ln fuel (i + 3) frame (ln_now ln (i + 2)%nat + millis (p_write_timeout_ms port)) with
                    | None => None
                    | Some (j, wire, Err e) => stop j p wire (ExWrite e)
                    | Some (j, wire, Ok _) =>
                        let started := ln_now ln j in
                        exchange_rounds fuel (S j) task (started + millis (p_first_byte_timeout_ms port))
                          (started + millis (p_frame_timeout_ms port)) false 0 0 d p wire
                    end
                end
            end
        end
    end.
End Exchange.
Arguments Exchange P : clear implicits.
Arguments x_i {P}.
Arguments x_protocol {P}.
Arguments x_wire {P}.
Arguments x_result {P}.

(** ** The worker of a port *)

Record Worker (P : Type) := {
  w_i : nat;
  w_tasks : list (PollTask P);
  w_store : PointStore;
  w_mail : gmap string Slot;
  w_backoff : Z;
  w_opened : bool;
  w_waits : list (Z * PointStore)
}.
Arguments w_i {P}.
Arguments w_tasks {P}.
Arguments w_store {P}.
Arguments w_mail {P}.
Arguments w_backoff {P}.
Arguments w_opened {P}.
Arguments w_waits {P}.

(** How a part of the worker ends: it goes on, the worker returns, or a loop
    outruns its fuel. *)
Inductive Step (P A : Type) :=
| Goes (w : Worker P) (a : A)
| Returns (w : Worker P) (r : result StoreError ())
| Loops.
Arguments Goes {P A}.
Arguments Returns {P A}.
Arguments Loops {P A}.

Definition and_then {P A B} (f : Step P A) (k : Worker P -> A -> Step P B) : Step P B :=
  match f with Goes w a => k w a | Returns w r => Returns w r | Loops => Loops end.
Declare Scope step_scope.
Notation "⟪ w , a ⟫ ↤ f ; k" := (and_then f (fun w a => k))
  (at level 20, w name, a name, f at level 100, k at level 200, right associativity) : step_scope.
Open Scope step_scope.

Section Worker.
Context (zlib_compress : list Z -> result string (list Z)).
Context (zlib_decompress : list Z -> nat -> result string Inflated).
Context (crc32 : list Z -> Z).
Context {P : Type} `{DeviceProtocol P}.
Context (frame_error_text : FrameError -> string).
Context (receive_debug : result IoError (list Z) -> string).
Context (ln : Line) (connect : nat -> result IoError ()) (port : PortConfig).

Notation Worker := (Worker P).

Definition w_set (w : Worker) (i : nat) (st : PointStore) : Worker :=
  {| w_i := i; w_tasks := w_tasks w; w_store := st; w_mail := w_mail w; w_backoff := w_backoff w;
     w_opened := w_opened w; w_waits := w_waits w |}.
Definition w_advance (w : Worker) (n : nat) : Worker := w_set w (w_i w + n) (w_store w).
Definition w_task (w : Worker) (index : nat) (p : P) (m : gmap string Slot) : Worker :=
  {| w_i := w_i w;
     w_tasks := alter (fun t => {| pt_config := pt_config t; pt_protocol := p |}) index (w_tasks w);
     w_store := w_store w; w_mail := m; w_backoff := w_backoff w; w_opened := w_opened w; w_waits := w_waits w |}.
Definition w_set_backoff (w : Worker) (backoff : Z) : Worker :=
  {| w_i := w_i w; w_tasks := w_tasks w; w_store := w_store w; w_mail := w_mail w; w_backoff := backoff;
     w_opened := w_opened w; w_waits := w_waits w |}.

(** A store operation under [?]. *)
Definition try_store (w : Worker) (f : PointStore -> PointStore * result StoreError ()) : Step P () :=
  let '(st, r) := f (w_store w) in
  match r with Ok _ => Goes (w_set w (w_i w) st) () | Err e => Returns (w_set w (w_i w) st) (Err e) end.

Fixpoint fail_tasks_in (st : PointStore) (tasks : list (PollTask P)) (q : Quality) (message : string)
    : PointStore * result StoreError () :=
  match tasks with
  | [] => (st, Ok ())
  | t :: tasks =>
      match fail_points st (t_id (pt_config t)) q message with
      | (st, Ok _) => fail_tasks_in st tasks q message
      | (st, Err e) => (st, Err e)
      end
  end.
Definition fail_tasks (w : Worker) (q : Quality) (message : string) : Step P () :=
  try_store w (fun st => fail_tasks_in st (w_tasks w) q message).

Fixpoint wait_rounds (fuel i : nat) (end_ : Z) : option nat :=
  match fuel with
  | O => None
  | S fuel =>
      if negb (ln_cancelled ln i) && (ln_now ln (S i) <? end_) then wait_rounds fuel (i + 3) end_
      else Some (i + 2)%nat
  end.
Definition wait (fuel : nat) (w : Worker) (duration : Z) : Step P () :=
  match wait_rounds fuel (S (w_i w)) (ln_now ln (w_i w) + duration) with
  | None => Loops
  | Some j => Goes (w_set w j (w_store w)) ()
  end.

(** Waiting before the next attempt to open the device; [w_waits] records it. *)
Definition back_off (fuel : nat) (w : Worker) : Step P () :=
  let w := {| w_i := w_i w; w_tasks := w_tasks w; w_store := w_store w; w_mail := w_mail w; w_backoff := w_backoff w;
              w_opened := w_opened w; w_waits := w_waits w ++ [(w_backoff w, w_store w)] |} in
  ⟪w, u⟫ ↤ wait fuel w (millis (w_backoff w));
  Goes (w_set_backoff w (Z.min (Z.min (w_backoff w * 2) u64_max) (p_reconnect_max_ms port))) ().

(** One poll: [Some reopen] after a completed attempt, [None] when cancelled. *)
Definition poll_one (fuel : nat) (w : Worker) (index : nat) : Step P (option bool) :=
  match w_tasks w !! index with
  | None => Loops
  | Some t =>
      let id := t_id (pt_config t) in
      ⟪w, u⟫ ↤ try_store w (fun st => attempt st id (ln_utc ln (w_i w)));
      match exchange zlib_compress zlib_decompress crc32 ln port fuel (S (w_i w)) (pt_config t) (pt_protocol t) with
      | None => Loops
      | Some x =>
          let w := w_set (w_task w index (x_protocol x) (w_mail w)) (x_i x) (w_store w) in
          match x_result x with
          | Ok points =>
              let '(st, r) := publish_points (w_store w) id points (ln_utc ln (w_i w)) (ln_utc ln (S (w_i w))) in
              let w := w_set w (w_i w + 2) st in
              match r with
              | Ok _ => Goes (w_set_backoff w (p_reconnect_min_ms port)) (Some false)
              | Err e =>
                  ⟪w, u⟫ ↤ try_store w (fun st => fail_points st id Configuration (store_error_text e));
                  Goes w (Some false)
              end
          | Err ExCancelled => Goes w None
          | Err e =>
              let quality := match e with ExProtocol _ | ExFrame _ => Configuration | _ => NoCommunication end in
              ⟪w, u⟫ ↤ try_store w (fun st => fail_points st id quality (exchange_error_text frame_error_text e));
              if match e with ExWrite _ | ExRead _ => true | _ => false end then Goes w (Some true)
              else
                match quarantine ln fuel (w_i w) (millis (p_late_frame_guard_ms port)) with
                | None => Loops
                | Some (j, r) => Goes (w_set w j (w_store w)) (Some (negb (is_ok r)))
                end
          end
      end
  end.

(** The polling loop of one connection; it ends when the token is cancelled
    or the device has to be opened again. *)
Fixpoint poll_loop (rounds fuel : nat) (w : Worker) (s : PollSchedule) : Step P () :=
  match rounds with
  | O => Loops
  | S rounds =>
      if ln_cancelled ln (w_i w) then Goes (w_advance w 1) ()
      else
        let '(s, found) := poll_next s (ln_now ln (S (w_i w))) in
        let w := w_advance w 2 in
        match found with
        | None => ⟪w, u⟫ ↤ wait fuel w (millis 10); poll_loop rounds fuel w s
        | Some index =>
            ⟪w, served⟫ ↤ poll_one fuel w index;
            match served with
            | None => Goes w ()
            | Some reopen =>
                let interval := from_option (fun t => t_interval_ms (pt_config t)) 0 (w_tasks w !! index) in
                let s := completed s index (ln_now ln (w_i w)) (millis interval) in
                let w := w_advance w 1 in
                if reopen : bool then Goes w () else poll_loop rounds fuel w s
            end
        end
  end.

(** [run_stream] on the first task: its result with the state it leaves. *)
Definition run_stream (rounds fuel : nat) (w : Worker) (t : PollTask P) (settings : Settings) : Step P bool :=
  match stream_start ln port settings (w_i w) (pt_protocol t) (w_store w) (w_mail w) with
  | None => Loops
  | Some s =>
      match run_rounds zlib_compress zlib_decompress crc32 frame_error_text receive_debug ln port settings
              (pt_config t) rounds fuel s with
      | Done s r =>
          let w := w_set (w_task w 0 (sm_protocol s) (sm_mail s)) (sm_i s) (sm_store s) in
          match r with Ok received => Goes w received | Err e => Returns w (Err e) end
      | _ => Loops
      end
  end.

(** The work of one connection, up to the point where the handle is dropped:
    the message for the tasks. *)
Definition connected (rounds fuel : nat) (w : Worker) : Step P () :=
  match w_tasks w, p_synchronization port with
  | t :: _, sync =>
      if unsolicited (pt_protocol t) then
        match sync with
        | None => Loops
        | Some settings =>
            ⟪w, received⟫ ↤ run_stream rounds fuel w t settings;
            if ln_cancelled ln (w_i w) then Goes (w_advance w 1) ()
            else
              let w := w_advance w 1 in
              let w := if received : bool then w_set_backoff w (p_reconnect_min_ms port) else w in
              match Points.port (w_store w) (p_id port) with
              | Err e => Returns w (Err e)
              | Ok snapshot =>
                  let error := if String.eqb (ps_last_error snapshot) "" then "serial connection lost"
                               else ps_last_error snapshot in
                  ⟪w, u⟫ ↤ fail_tasks w NoCommunication error;
                  ⟪w, u⟫ ↤ try_store w (fun st => port_state st (p_id port) "Reconnecting" error false);
                  back_off fuel w
              end
        end
      else
        ⟪w, u⟫ ↤ poll_loop rounds fuel (w_advance w 1) (poll_schedule_new (length (w_tasks w)) (ln_now ln (w_i w)));
        if ln_cancelled ln (w_i w) then Goes (w_advance w 1) ()
        else
          ⟪w, u⟫ ↤ fail_tasks (w_advance w 1) NoCommunication "serial connection lost";
          ⟪w, u⟫ ↤ try_store w (fun st => port_state st (p_id port) "Reconnecting" "serial connection lost" false);
          back_off fuel w
  | [], _ => Loops
  end.

(** One iteration of the outer loop: [true] when the token was cancelled. *)
Definition worker_round (rounds fuel : nat) (w : Worker) : Step P bool :=
  if ln_cancelled ln (w_i w) then Goes (w_advance w 1) true
  else
    let opened := connect (S (w_i w)) in
    let w := w_advance w 2 in
    match opened with
    | Err e =>
        ⟪w, u⟫ ↤ try_store w (fun st => port_state st (p_id port) "OpenFailed" (io_text e) false);
        ⟪w, u⟫ ↤ fail_tasks w NoCommunication (io_text e);
        ⟪w, u⟫ ↤ back_off fuel w;
        Goes w false
    | Ok _ =>
        ⟪w, u⟫ ↤ try_store w (fun st => port_state st (p_id port) "Open" "" (w_opened w));
        let w := {| w_i := w_i w; w_tasks := w_tasks w; w_store := w_store w; w_mail := w_mail w;
                    w_backoff := w_backoff w; w_opened := true; w_waits := w_waits w |} in
        ⟪w, u⟫ ↤ connected rounds fuel w;
        Goes w false
    end.

Fixpoint worker_rounds (outer rounds fuel : nat) (w : Worker) : Step P () :=
  match outer with
  | O => Loops
  | S outer =>
      ⟪w, stop⟫ ↤ worker_round rounds fuel w;
      if stop : bool then Goes w () else worker_rounds outer rounds fuel w
  end.

(** [run_worker_with_wait]. *)
Definition run_worker (outer rounds fuel i : nat) (tasks : list (PollTask P)) (st : PointStore)
    (m : gmap string Slot) : Step P () :=
  let w := {| w_i := i; w_tasks := tasks; w_store := st; w_mail := m; w_backoff := p_reconnect_min_ms port;
              w_opened := false; w_waits := [] |} in
  if negb (p_enabled port) || bool_decide (tasks = []) then Returns w (Ok ())
  else
    ⟪w, u⟫ ↤ worker_rounds outer rounds fuel w;
    ⟪w, u⟫ ↤ fail_tasks w OutOfService "acquisition stopped";
    let '(st, r) := port_state (w_store w) (p_id port) "Stopped" "" false in
    Returns (w_set w (w_i w) st) r.
End Worker.

(** ** Disconnected ports *)

Section WorkerFacts.
Context (zlib_compress : list Z -> result string (list Z)).
Context (zlib_decompress : list Z -> nat -> result string Inflated).
Context (crc32 : list Z -> Z).
Context {P : Type} `{DeviceProtocol P}.
Context (frame_error_text : FrameError -> string).
Context (receive_debug : result IoError (list Z) -> string).
Context (ln : Line) (connect : nat -> result IoError ()) (port : PortConfig).
Context (st0 : PointStore) (ids : list string).
Hypothesis st0_wf : store_wf st0.
Hypothesis backoff_limits : 0 <= p_reconnect_min_ms port <= p_reconnect_max_ms port.
Hypothesis backoff_u64 : p_reconnect_max_ms port <= u64_max.

(** Every sample of the tasks of the port satisfies [Q]. *)
Definition task_samples (Q : Sample -> Prop) (ts : list string) (st : PointStore) : Prop :=
  forall id names n smp, id ∈ ts -> st_tasks st !! id = Some names -> n ∈ names ->
    st_samples st !! n = Some smp -> Q smp.

Definition task_ids (tasks : list (PollTask P)) : list string := (fun t => t_id (pt_config t)) <$> tasks.

Lemma fail_points_lookup st id q e names n smp :
  store_wf st -> q <> Good -> st_tasks st !! id = Some names ->
  st_samples (fail_points st id q e).1 !! n = Some smp ->
  (n ∈ names -> s_quality smp = q) /\ (n ∉ names -> st_samples st !! n = Some smp).
Proof.
  intros Hwf Hq Ht. unfold fail_points. rewrite bool_decide_false by done. rewrite Ht. simpl.
  rewrite fail_all_lookup by (by eapply sw_nodup). intros Hs. split; intros Hn.
  - rewrite decide_True in Hs by done. by apply fmap_Some in Hs as (x & _ & ->).
  - by rewrite decide_False in Hs.
Qed.

Lemma fail_tasks_in_spec q message tasks done st st' :
  store_wf st -> q <> Good -> task_samples (fun s => s_quality s = q) done st ->
  fail_tasks_in st tasks q message = (st', Ok ()) ->
  same_tables st st' /\ task_samples (fun s => s_quality s = q) (done ++ task_ids tasks) st'.
Proof.
  revert st done. induction tasks as [|t tasks IH]; intros st done Hwf Hq Hd; simpl.
  { intros [= <-]. rewrite app_nil_r. split; [by repeat split|done]. }
  pose proof (fail_same st (t_id (pt_config t)) q message) as Hsame.
  pose proof (fail_points_lookup st (t_id (pt_config t)) q message) as Hl.
  destruct (fail_points st _ q message) as [st1 [[]|e]] eqn:E; [|done]. simpl in *. intros Hr.
  assert (Ht : exists names, st_tasks st !! t_id (pt_config t) = Some names).
  { unfold fail_points in E. rewrite bool_decide_false in E by done.
    destruct (st_tasks st !! t_id (pt_config t)) as [names|]; [by exists names|done]. }
  destruct Ht as [tn Ht]. destruct (IH st1 (done ++ [t_id (pt_config t)])) as [Hs2 Hr2].
  - by eapply same_tables_wf.
  - done.
  - intros id names n smp Hid Hn Hin Hs. destruct Hsame as (_ & Hts & _). rewrite Hts in Hn.
    destruct (Hl tn n smp Hwf Hq Ht Hs) as [H1 H2]. destruct (decide (n ∈ tn)) as [Hyes|Hni]; [auto|].
    apply elem_of_app in Hid as [Hid| ->%list_elem_of_singleton].
    + by eapply Hd; [..|apply H2].
    + simplify_eq.
  - done.
  - split; [|by rewrite <- app_assoc in Hr2].
    by transitivity st1.
Qed.

Definition wait_ok (wt : Z * PointStore) : Prop :=
  p_reconnect_min_ms port <= wt.1 <= p_reconnect_max_ms port /\
  task_samples (fun s => s_quality s <> Good) ids wt.2.

Record worker_ok (w : Worker P) : Prop := {
  wo_same : same_tables st0 (w_store w);
  wo_ids : task_ids (w_tasks w) = ids;
  wo_backoff : p_reconnect_min_ms port <= w_backoff w <= p_reconnect_max_ms port;
  wo_waits : Forall wait_ok (w_waits w)
}.

(** [Q] where the step goes on; the worker returns from a step only with an
    error, and its waits are fine. *)
Definition step_ok {A} (Q : Worker P -> Prop) (f : Step P A) : Prop :=
  match f with Goes w _ => Q w | Returns w r => Forall wait_ok (w_waits w) /\ r <> Ok () | Loops => True end.

Lemma step_then {A B} (Q Q' : Worker P -> Prop) (f : Step P A) (k : Worker P -> A -> Step P B) :
  step_ok Q f -> (forall w a, Q w -> step_ok Q' (k w a)) -> step_ok Q' (and_then f k).
Proof. destruct f; simpl; auto. Qed.

Lemma worker_ok_set w i st : worker_ok w -> same_tables (w_store w) st -> worker_ok (w_set w i st).
Proof. intros [? ? ? ?] Hs. split; [by transitivity (w_store w)|done..]. Qed.

Lemma try_store_ok w f :
  (forall st, same_tables st (f st).1) -> worker_ok w -> step_ok worker_ok (try_store w f).
Proof.
  intros Hf Hw. unfold try_store. specialize (Hf (w_store w)).
  destruct (f (w_store w)) as [st []]; simpl in *; [by apply worker_ok_set|split; [apply Hw|done]].
Qed.

Lemma worker_ok_task w index p m : worker_ok w -> worker_ok (w_task w index p m).
Proof.
  intros [? Hids ? ?]. split; try done. simpl. rewrite <- Hids. unfold task_ids.
  apply list_eq. intros j. rewrite !list_lookup_fmap, list_lookup_alter.
  case_decide; [subst|done]. by destruct (w_tasks w !! j).
Qed.

Lemma worker_ok_reset w : worker_ok w -> worker_ok (w_set_backoff w (p_reconnect_min_ms port)).
Proof. intros [? ? ? ?]. split; try done. simpl. lia. Qed.

Lemma wait_step fuel w d : worker_ok w -> step_ok worker_ok (wait ln fuel w d).
Proof. intros Hw. unfold wait. case_match; [|done]. by apply worker_ok_set. Qed.

Lemma back_off_ok fuel w :
  worker_ok w -> task_samples (fun s => s_quality s <> Good) ids (w_store w) ->
  step_ok worker_ok (back_off ln port fuel w).
Proof.
  intros [? ? Hb ?] Hg. unfold back_off. eapply step_then with (Q := worker_ok).
  - apply wait_step. split; try done. simpl. apply Forall_app. split; [done|]. by constructor.
  - intros w1 _ [? ? ? ?]. split; try done. simpl. lia.
Qed.

(** A failed port shows no good data. *)
Lemma fail_tasks_ok w q message :
  q <> Good -> worker_ok w ->
  step_ok (fun w' => worker_ok w' /\ task_samples (fun s => s_quality s = q) ids (w_store w')) (fail_tasks w q message).
Proof.
  intros Hq Hw. unfold fail_tasks, try_store.
  destruct (fail_tasks_in _ _ _ _) as [st [[]|e]] eqn:E; simpl; [|split; [apply Hw|done]].
  destruct (fail_tasks_in_spec q message (w_tasks w) [] (w_store w) st) as [Hs Ht]; try done.
  { eapply same_tables_wf; [apply (wo_same _ Hw)|done]. }
  { intros id ? ? ? Hid. by apply elem_of_nil in Hid. }
  split; [by apply worker_ok_set|]. by rewrite (wo_ids _ Hw) in Ht.
Qed.

Lemma task_samples_bad q ts st : q <> Good ->
  task_samples (fun s => s_quality s = q) ts st -> task_samples (fun s => s_quality s <> Good) ts st.
Proof. intros Hq Hs id names n smp ? ? ? ? ?. destruct Hq. transitivity (s_quality smp); [|done]. symmetry. by eapply Hs. Qed.

(** Failing the tasks, telling the port and waiting. *)
Lemma lost_ok fuel w message text :
  worker_ok w ->
  step_ok worker_ok (⟪w, u⟫ ↤ fail_tasks w NoCommunication message;
                     ⟪w, u⟫ ↤ try_store w (fun st => port_state st (p_id port) "Reconnecting" text false);
                     back_off ln port fuel w).
Proof.
  intros Hw. eapply step_then; [by apply fail_tasks_ok|]. intros w1 _ [H1 Hb].
  eapply step_then with (Q := fun w => worker_ok w /\ task_samples (fun s => s_quality s <> Good) ids (w_store w)).
  - unfold try_store, port_state. pose proof (update_port_same (w_store w1) (p_id port)) as Hu.
    match goal with |- context [update_port _ _ ?f] => specialize (Hu f) end.
    destruct (update_port _ _ _) as [st []]; simpl in *; [|split; [apply H1|done]]. destruct Hu as [Hs Hm].
    split; [by apply worker_ok_set|]. simpl. unfold task_samples. destruct Hs as (_ & -> & _). rewrite Hm.
    exact (task_samples_bad NoCommunication _ _ ltac:(done) Hb).
  - intros w2 _ [H2 Hg]. by apply back_off_ok.
Qed.

Lemma poll_one_ok fuel w index :
  worker_ok w -> step_ok worker_ok (poll_one zlib_compress zlib_decompress crc32 frame_error_text ln port fuel w index).
Proof.
  intros Hw. unfold poll_one. destruct (w_tasks w !! index) as [t|]; [|done].
  assert (Hfail : forall w id q text, worker_ok w -> step_ok worker_ok (try_store w (fun st => fail_points st id q text))).
  { intros w1 id q text H1. apply try_store_ok; [|done]. intros st. apply fail_same. }
  eapply step_then; [apply try_store_ok; [intros st; apply attempt_same|done]|]. intros w1 _ H1.
  destruct (exchange _ _ _ _ _ _ _ _ _) as [x|]; [|done]. cbv zeta.
  assert (H2 : worker_ok (w_set (w_task w1 index (x_protocol x) (w_mail w1)) (x_i x) (w_store w1))).
  { apply worker_ok_set; [by apply worker_ok_task|done]. }
  destruct (x_result x) as [points|e].
  - set (w2 := w_set _ _ _) in *. clearbody w2.
    pose proof (publish_same (w_store w2) (t_id (pt_config t)) points (ln_utc ln (w_i w2)) (ln_utc ln (S (w_i w2)))) as Hs.
    destruct (publish_points _ _ _ _ _) as [st [u|e]]; simpl in Hs.
    + simpl. by apply worker_ok_reset, worker_ok_set.
    + eapply step_then; [apply Hfail; by apply worker_ok_set|]. by intros w3 _ H3.
  - destruct e; try done; (eapply step_then; [by apply Hfail|]; intros w3 _ H3); try done;
      (destruct (quarantine _ _ _ _) as [[j r]|]; [|done]); by apply worker_ok_set.
Qed.

Lemma poll_loop_ok rounds fuel w s :
  worker_ok w ->
  step_ok worker_ok (poll_loop zlib_compress zlib_decompress crc32 frame_error_text ln port rounds fuel w s).
Proof.
  revert w s. induction rounds as [|rounds IH]; intros w s Hw; [done|]. cbn [poll_loop].
  destruct (ln_cancelled ln (w_i w)); [by apply worker_ok_set|].
  destruct (poll_next _ _) as [s1 [index|]]; cbv zeta.
  - eapply step_then; [apply poll_one_ok; by apply worker_ok_set|]. intros w1 [reopen|] H1; [|done].
    assert (H2 : worker_ok (w_advance w1 1)) by (by apply worker_ok_set). destruct reopen; [done|by apply IH].
  - eapply step_then; [apply wait_step; by apply worker_ok_set|]. intros w1 _ H1. by apply IH.
Qed.

Lemma run_stream_ok rounds fuel w t settings :
  worker_ok w ->
  step_ok worker_ok (run_stream zlib_compress zlib_decompress crc32 frame_error_text receive_debug ln port
                       rounds fuel w t settings).
Proof.
  intros Hw. unfold run_stream, stream_start. destruct (decoder_new _) as [d|]; [|done].
  match goal with |- context [run_rounds _ _ _ _ _ _ _ _ _ _ _ ?s] => set (s0 := s) end.
  pose proof (run_rounds_holds zlib_compress zlib_decompress crc32 frame_error_text receive_debug ln port settings
    (pt_config t) (same_tables st0)) as Hh.
  specialize (Hh ltac:(intros st st' Hst Hs; transitivity st; [done|by apply store_step_same]) rounds fuel s0 (wo_same _ Hw)).
  destruct (run_rounds _ _ _ _ _ _ _ _ _ _ _ _) as [s|s [received|e]|]; [done| |split; [apply Hw|done]|done].
  simpl in Hh. simpl. destruct (worker_ok_task w 0 (sm_protocol s) (sm_mail s) Hw). by split.
Qed.

Lemma connected_ok rounds fuel w :
  worker_ok w ->
  step_ok worker_ok (connected zlib_compress zlib_decompress crc32 frame_error_text receive_debug ln port rounds fuel w).
Proof.
  intros Hw. unfold connected. destruct (w_tasks w) as [|t ts] eqn:Ets; [done|].
  destruct (unsolicited _).
  - destruct (p_synchronization port) as [settings|]; [|done].
    eapply step_then; [by apply run_stream_ok|]. intros w1 received H1.
    destruct (ln_cancelled ln (w_i w1)); [by apply worker_ok_set|].
    assert (H2 : worker_ok (w_advance w1 1)) by (by apply worker_ok_set).
    set (w2 := if received then _ else _).
    assert (H3 : worker_ok w2) by (unfold w2; destruct received; [by apply worker_ok_reset|done]).
    destruct (Points.port _ _) as [snapshot|e]; [by apply lost_ok|split; [apply H3|done]].
  - eapply step_then; [apply poll_loop_ok; by apply worker_ok_set|]. intros w1 _ H1.
    destruct (ln_cancelled ln (w_i w1)); [by apply worker_ok_set|]. apply lost_ok. by apply worker_ok_set.
Qed.

Lemma worker_rounds_ok outer rounds fuel w :
  worker_ok w ->
  step_ok worker_ok (worker_rounds zlib_compress zlib_decompress crc32 frame_error_text receive_debug ln connect port
                       outer rounds fuel w).
Proof.
  revert w. induction outer as [|outer IH]; intros w Hw; [done|]. cbn [worker_rounds].
  eapply step_then with (Q := worker_ok); [|by intros w1 [] H1; [|apply IH]].
  unfold worker_round. destruct (ln_cancelled ln (w_i w)); [by apply worker_ok_set|]. cbv zeta.
  assert (H0 : worker_ok (w_advance w 2)) by (by apply worker_ok_set).
  destruct (connect _) as [u|e].
  - eapply step_then; [apply try_store_ok; [intros st; apply update_port_same|done]|]. intros w1 _ [? ? ? ?].
    eapply step_then; [by apply connected_ok; split|]. by intros w2 _ H2.
  - eapply step_then; [apply try_store_ok; [intros st; apply update_port_same|done]|]. intros w1 _ H1.
    eapply step_then; [by apply fail_tasks_ok|]. intros w2 _ [H2 Hb].
    eapply step_then; [apply back_off_ok; [done|by eapply (task_samples_bad NoCommunication)]|]. by intros w3 _ H3.
Qed.
End WorkerFacts.

Section WorkerTheorems.
Context (zlib_compress : list Z -> result string (list Z)).
Context (zlib_decompress : list Z -> nat -> result string Inflated).
Context (crc32 : list Z -> Z).
Context {P : Type} `{DeviceProtocol P}.
Context (frame_error_text : FrameError -> string).
Context (receive_debug : result IoError (list Z) -> string).
Context (ln : Line) (connect : nat -> result IoError ()) (port : PortConfig).

Notation worker := (run_worker zlib_compress zlib_decompress crc32 frame_error_text receive_debug ln connect port).

(** a worker that is disconnected shows no good data. Take the worker of
    a port with validated reconnect limits on a consistent store, polled or
    streaming, against any device, line, clock and token. Each time it waits
    before opening the device again, the delay is within the configured
    limits and no sample of its tasks is [Good]. When it stops without a store
    error, every sample of its tasks is [OutOfService] and the port is shown
    as "Stopped". *)
Theorem disconnected_worker_shows_no_good_data outer rounds fuel i tasks st m w r :
  store_wf st -> 0 <= p_reconnect_min_ms port <= p_reconnect_max_ms port -> p_reconnect_max_ms port <= u64_max ->
  p_enabled port = true -> tasks <> [] ->
  worker outer rounds fuel i tasks st m = Returns w r ->
  Forall (wait_ok port (task_ids tasks)) (w_waits w) /\
  (r = Ok () ->
    task_samples (fun s => s_quality s = OutOfService) (task_ids tasks) (w_store w) /\
    exists p, st_ports (w_store w) !! p_id port = Some p /\ ps_state p = "Stopped").
Proof.
  intros Hwf Hmin Hmax Hen Ht. unfold run_worker. rewrite Hen, bool_decide_false by done. simpl negb. cbn [orb].
  match goal with |- and_then (worker_rounds _ _ _ _ _ _ _ _ _ _ _ ?w) _ = _ -> _ => set (w0 := w) end.
  assert (H0 : worker_ok port st (task_ids tasks) w0) by (split; [done|done|simpl; lia|constructor]).
  pose proof (worker_rounds_ok zlib_compress zlib_decompress crc32 frame_error_text receive_debug ln connect port
    st (task_ids tasks) Hwf Hmin Hmax outer rounds fuel w0 H0) as Hr.
  destruct (worker_rounds _ _ _ _ _ _ _ _ _ _ _ _) as [w1 []|w1 r1|]; simpl in Hr; [| |done]; simpl.
  2: { intros [= <- <-]. by destruct Hr. }
  pose proof (fail_tasks_ok port st (task_ids tasks) Hwf w1 OutOfService "acquisition stopped" ltac:(done) Hr) as Hf.
  destruct (fail_tasks _ _ _) as [w2 []|w2 r2|]; simpl in Hf; [| |done]; simpl.
  2: { intros [= <- <-]. by destruct Hf. }
  destruct Hf as [H2 Hq]. unfold port_state, update_port.
  destruct (st_ports (w_store w2) !! p_id port) as [snap|]; intros [= <- <-]; simpl.
  - split; [apply H2|]. intros _. split; [exact Hq|]. eexists. split; [apply lookup_insert_eq|done].
  - split; [apply H2|done].
Qed.
End WorkerTheorems.

(** ** Examples *)

(** Two attempts to open fail, the third connection delivers a report and
    breaks, and the later ones break at once until the token is cancelled: the
    delay doubles, and starts again after the report. *)
Definition broken : IoError := {| io_kind := IoOther; io_text := "broken pipe" |}.
Definition toy_device : Line :=
  {| ln_read := fun i => if (i <=? 34)%nat then Ok (toy_encoded toy_report) else Err broken;
     ln_write := fun _ => Err broken; ln_clear := fun _ => Ok (); ln_now := fun i => millis (100 * Z.of_nat i);
     ln_utc := fun i => Z.of_nat i; ln_cancelled := fun i => (150 <=? i)%nat; ln_clients := fun _ => [] |}.
Definition toy_connect (i : nat) : result IoError () := if (i <=? 20)%nat then Err broken else Ok ().
Definition toy_run :=
  run_worker toy_compress toy_decompress toy_crc (fun _ => "frame") (fun _ => "receive") toy_device toy_connect
    toy_port 20 20 60 0 [{| pt_config := toy_task; pt_protocol := Unit9To1 |}] toy_store (mailboxes_new toy_config).

Lemma toy_run_waits :
  match toy_run with
  | Returns w r => Some (r, fst <$> w_waits w, ps_successes <$> st_ports (w_store w) !! "link")
  | _ => None
  end = Some (Ok (), [500; 1000; 500; 1000; 2000; 4000], Some 1).
Proof. vm_compute. reflexivity. Qed.

Lemma disconnected_worker_shows_no_good_data_witness :
  exists w, toy_run = Returns w (Ok ()) /\ (fst <$> w_waits w) = [500; 1000; 500; 1000; 2000; 4000] /\
    Forall (wait_ok toy_port ["peer"]) (w_waits w) /\
    exists p, st_ports (w_store w) !! "link" = Some p /\ ps_state p = "Stopped".
Proof.
  pose proof toy_run_waits as Ho. destruct toy_run as [w0|w r|] eqn:E; [discriminate Ho| |discriminate Ho].
  injection Ho as -> Hw _. exists w.
  destruct (disconnected_worker_shows_no_good_data toy_compress toy_decompress toy_crc (fun _ => "frame")
    (fun _ => "receive") toy_device toy_connect toy_port 20 20 60 0
    [{| pt_config := toy_task; pt_protocol := Unit9To1 |}] toy_store (mailboxes_new toy_config) w (Ok ())
    toy_store_wf ltac:(simpl; lia) ltac:(vm_compute; discriminate) eq_refl ltac:(discriminate) E) as [H1 H2].
  split_and!; [reflexivity|exact Hw|exact H1|apply (H2 eq_refl)].
Defined.
