(* ===== verification/Maintenance.v ===== *)
(** * The maintenance fence (src/src/operations/maintenance.rs)

    The persistent gate in front of every mutation of the gateway.  Its
    functions are split where they release the state lock: [enter] and
    [leave] change the state, write the record to the database without the
    state lock (but with the transition lock), and take the state lock again.
    The database is a model of the single row; a write or a load may fail. *)

From S2P Require Import Prelude RustStr.
Open Scope string_scope.
Open Scope Z_scope.
Open Scope list_scope.

(** ** Errors of the operations interface ([OperationError] of mod.rs) *)

Record OperationError := { oe_code : string; oe_message : string; oe_revision : option string }.
Definition op_error (code message : string) : OperationError :=
  {| oe_code := code; oe_message := message; oe_revision := None |}.
Definition with_revision (e : OperationError) (revision : string) : OperationError :=
  {| oe_code := oe_code e; oe_message := oe_message e; oe_revision := Some revision |}.

(** ** Data *)

(** [Record]. *)
Record Fence := {
  fn_schema_version : Z;
  fn_gateway : string;
  fn_token : Z;
  fn_deployment : string;
  fn_active : bool
}.
#[export] Instance fence_eq_dec : EqDecision Fence.
Proof. solve_decision. Defined.

(** [State]; [usize] is 64 bits. *)
Record GateState := {
  gt_record : Fence;
  gt_pending : Z;
  gt_durable : bool;
  gt_error : string
}.

(** The database: no file, a file without a usable row, or the row. *)
Inductive Disk := NoFile | NoRow | Row (r : Fence).

Definition initial_fence (gateway : string) : Fence :=
  {| fn_schema_version := 1; fn_gateway := gateway; fn_token := 0; fn_deployment := ""; fn_active := false |}.

Definition set_active (r : Fence) (active : bool) : Fence :=
  {| fn_schema_version := fn_schema_version r; fn_gateway := fn_gateway r; fn_token := fn_token r;
     fn_deployment := fn_deployment r; fn_active := active |}.

Definition owned (r : Fence) (deployment : string) (token : Z) : bool :=
  String.eqb (fn_deployment r) deployment && (fn_token r =? token).

(** ** Operations *)

Definition validate_owner (deployment : string) (token : Z) : result OperationError () :=
  if (token =? 0) || String.eqb deployment "" || (128 <? String.length deployment)%nat
     || negb (all_bytes (fun c => is_ascii_alphanumeric c || one_of "-_." c) deployment)
  then Err (op_error "invalid_request" "invalid deployment_id or fencing_token")
  else Ok ().

(** [Gate::admit]; the admission is a unit of [gt_pending]. *)
Definition admit_mutation (g : GateState) : GateState * result OperationError () :=
  if fn_active (gt_record g) || negb (gt_durable g)
  then (g, Err (op_error "busy" "gateway maintenance blocks new mutations"))
  else
    match u64_checked_add (gt_pending g) 1 with
    | None => (g, Err (op_error "busy" "admission counter exhausted"))
    | Some n => ({| gt_record := gt_record g; gt_pending := n; gt_durable := gt_durable g; gt_error := gt_error g |}, Ok ())
    end.

(** [Drop for Admission]. *)
Definition drop_admission (g : GateState) : GateState :=
  {| gt_record := gt_record g; gt_pending := gt_pending g - 1; gt_durable := gt_durable g; gt_error := gt_error g |}.

(** The two fields of [snapshot] that are not copies of the state. *)
Definition admission_blocked (g : GateState) : bool := fn_active (gt_record g) || negb (gt_durable g).
Definition drained (g : GateState) (pending_ports : Z) : bool :=
  fn_active (gt_record g) && gt_durable g && (gt_pending g =? 0) && (pending_ports =? 0).

(** [enter] up to [self.persist(next)]: an answer, or a record to write. *)
Definition enter_begin (g : GateState) (deployment : string) (token : Z)
    : GateState * result OperationError (option Fence) :=
  match validate_owner deployment token with
  | Err e => (g, Err e)
  | Ok _ =>
      let r := gt_record g in
      if negb (gt_durable g) && negb (fn_active r)
      then (g, Err (op_error "persistence_failed" "unknown maintenance state; reconcile storage before restarting"))
      else if fn_active r && negb (owned r deployment token)
      then (g, Err (op_error "conflict" "another maintenance fence owns this gateway"))
      else if fn_active r && gt_durable g then (g, Ok None)
      else if negb (fn_active r) && negb (bool_decide (u64_checked_add (fn_token r) 1 = Some token))
      then (g, Err (op_error "conflict" "fencing token must be the next generation"))
      else
        let next := {| fn_schema_version := fn_schema_version r; fn_gateway := fn_gateway r; fn_token := token;
                       fn_deployment := deployment; fn_active := true |} in
        ({| gt_record := next; gt_pending := gt_pending g; gt_durable := false; gt_error := gt_error g |}, Ok (Some next))
  end.

(** [leave] up to [self.persist(next)]. *)
Definition leave_begin (g : GateState) (deployment : string) (token pending_ports : Z)
    : result OperationError (option Fence) :=
  match validate_owner deployment token with
  | Err e => Err e
  | Ok _ =>
      let r := gt_record g in
      if negb (owned r deployment token) then Err (op_error "conflict" "maintenance fence owner changed")
      else if negb (gt_durable g) then Err (op_error "persistence_failed" "maintenance state is not durable")
      else if negb (fn_active r) then Ok None
      else if negb (gt_pending g =? 0) || negb (pending_ports =? 0)
      then Err (op_error "busy" "accepted operations have not drained")
      else Ok (Some (set_active r false))
  end.

(** [persist] once [save] has answered. *)
Definition persist_end (g : GateState) (next : Fence) (saved : result string ()) : GateState * result OperationError () :=
  match saved with
  | Ok _ => ({| gt_record := next; gt_pending := gt_pending g; gt_durable := true; gt_error := "" |}, Ok ())
  | Err e => ({| gt_record := gt_record g; gt_pending := gt_pending g; gt_durable := false; gt_error := e |},
              Err (op_error "persistence_failed" e))
  end.

(** [load]: [io] is the error of the database, if it has one. *)
Definition fence_valid (initial r : Fence) : bool :=
  (fn_schema_version r =? 1) && String.eqb (fn_gateway r) (fn_gateway initial)
  && negb ((fn_token r =? 0) && (fn_active r || negb (String.eqb (fn_deployment r) "")))
  && negb (negb (fn_token r =? 0) && negb (is_ok (validate_owner (fn_deployment r) (fn_token r)))).

Definition load (d : Disk) (initial : Fence) (io : option string) : Disk * result string Fence :=
  match io with
  | Some e => (match d with NoFile => NoRow | _ => d end, Err e)
  | None =>
      match d with
      | NoFile => (Row initial, Ok initial)
      | NoRow => (d, Err "no such table: maintenance_state")
      | Row r => (d, if fence_valid initial r then Ok r
                     else Err "invalid maintenance identity/schema/fencing generation")
      end
  end.

(** [Gate::open]. *)
Definition open_gate (d : Disk) (gateway : string) (io : option string) : Disk * GateState :=
  let initial := initial_fence gateway in
  let '(d, loaded) := load d initial io in
  (d, match loaded with
      | Ok r => {| gt_record := r; gt_pending := 0; gt_durable := true; gt_error := "" |}
      | Err e => {| gt_record := initial; gt_pending := 0; gt_durable := false; gt_error := e |}
      end).

(** [save]: the row is replaced or, on an error, perhaps not. *)
Definition save_row (d : Disk) (r : Fence) : Disk := match d with Row _ => Row r | _ => d end.

(** ** Histories

    The transition lock is held by at most one [enter] or [leave], between its
    two critical sections; a crash forgets the memory and opens the gate
    again. *)

Inductive Transition :=
| Entering (deployment : string) (token : Z) (next : Fence)
| Leaving (deployment : string) (token : Z) (next : Fence).
Definition transition_next (t : Transition) : Fence :=
  match t with Entering _ _ n | Leaving _ _ n => n end.

Record GateWorld := { gw_gate : GateState; gw_disk : Disk; gw_transition : option Transition }.

Inductive GateLabel :=
| MutationAdmitted
| MutationEnded
| EnterOk (deployment : string) (token : Z)
| LeaveBegun (deployment : string) (token pending_ports : Z)
| LeaveOk (deployment : string) (token : Z)
| Restarted
| Quiet.

#[export] Instance gate_label_eq_dec : EqDecision GateLabel.
Proof. solve_decision. Defined.

Definition with_gate (w : GateWorld) (g : GateState) : GateWorld :=
  {| gw_gate := g; gw_disk := gw_disk w; gw_transition := gw_transition w |}.

Section Steps.
Context (gateway : string).

Inductive gate_step : GateWorld -> GateLabel -> GateWorld -> Prop :=
| gate_admit w g r : admit_mutation (gw_gate w) = (g, r) ->
    gate_step w (if is_ok r then MutationAdmitted else Quiet) (with_gate w g)
| gate_drop w : 0 < gt_pending (gw_gate w) -> gate_step w MutationEnded (with_gate w (drop_admission (gw_gate w)))
| gate_enter_refused w d t g e : gw_transition w = None -> enter_begin (gw_gate w) d t = (g, Err e) ->
    gate_step w Quiet (with_gate w g)
| gate_enter_again w d t g : gw_transition w = None -> enter_begin (gw_gate w) d t = (g, Ok None) ->
    gate_step w (EnterOk d t) (with_gate w g)
| gate_enter_begin w d t g n : gw_transition w = None -> enter_begin (gw_gate w) d t = (g, Ok (Some n)) ->
    gate_step w Quiet {| gw_gate := g; gw_disk := gw_disk w; gw_transition := Some (Entering d t n) |}
| gate_leave_answer w d t ports : gw_transition w = None ->
    leave_begin (gw_gate w) d t ports = Ok None -> gate_step w (LeaveOk d t) w
| gate_leave_begin w d t ports n : gw_transition w = None ->
    leave_begin (gw_gate w) d t ports = Ok (Some n) ->
    gate_step w (LeaveBegun d t ports) {| gw_gate := gw_gate w; gw_disk := gw_disk w; gw_transition := Some (Leaving d t n) |}
| gate_commit w t : gw_transition w = Some t ->
    gate_step w Quiet {| gw_gate := gw_gate w; gw_disk := save_row (gw_disk w) (transition_next t);
                         gw_transition := Some t |}
| gate_persisted w t g : gw_transition w = Some t -> gw_disk w = Row (transition_next t) ->
    persist_end (gw_gate w) (transition_next t) (Ok ()) = (g, Ok ()) ->
    gate_step w (match t with Entering d k _ => EnterOk d k | Leaving d k _ => LeaveOk d k end)
      {| gw_gate := g; gw_disk := gw_disk w; gw_transition := None |}
| gate_not_persisted w t e g r : gw_transition w = Some t ->
    persist_end (gw_gate w) (transition_next t) (Err e) = (g, r) ->
    gate_step w Quiet {| gw_gate := g; gw_disk := gw_disk w; gw_transition := None |}
| gate_crash w io d g : open_gate (gw_disk w) gateway io = (d, g) ->
    gate_step w Restarted {| gw_gate := g; gw_disk := d; gw_transition := None |}.

Inductive gate_run : GateWorld -> list GateLabel -> GateWorld -> Prop :=
| gate_done w : gate_run w [] w
| gate_more w l w' ls w'' : gate_step w l w' -> gate_run w' ls w'' -> gate_run w (l :: ls) w''.
End Steps.

(** The mutations that were admitted since the last start and have not ended. *)
Definition outstanding (ls : list GateLabel) : Z :=
  foldl (fun n l => match l with MutationAdmitted => n + 1 | MutationEnded => n - 1 | Restarted => 0 | _ => n end) 0 ls.

(** ** What the functions do *)

Lemma owned_spec r d t : owned r d t = true <-> fn_deployment r = d /\ fn_token r = t.
Proof. unfold owned. by rewrite andb_true_iff, String.eqb_eq, Z.eqb_eq. Qed.

Definition fence_of (r : Fence) (d : string) (t : Z) : Fence :=
  {| fn_schema_version := fn_schema_version r; fn_gateway := fn_gateway r; fn_token := t; fn_deployment := d;
     fn_active := true |}.

Lemma enter_begin_spec g d t g' r :
  enter_begin g d t = (g', r) ->
  match r with
  | Err _ => g' = g
  | Ok None => g' = g /\ fn_active (gt_record g) = true /\ gt_durable g = true /\ owned (gt_record g) d t = true
  | Ok (Some n) =>
      n = fence_of (gt_record g) d t /\ gt_record g' = n /\ gt_durable g' = false /\ gt_pending g' = gt_pending g /\
      ((fn_active (gt_record g) = true /\ gt_durable g = false /\ owned (gt_record g) d t = true) \/
       (fn_active (gt_record g) = false /\ gt_durable g = true /\ t = fn_token (gt_record g) + 1))
  end.
Proof.
  unfold enter_begin. destruct (validate_owner d t) as [[]|]; [|by intros [= <- <-]].
  destruct (fn_active (gt_record g)) eqn:Ha, (gt_durable g) eqn:Hd; simpl.
  - destruct (owned (gt_record g) d t) eqn:Ho; simpl; by intros [= <- <-].
  - destruct (owned (gt_record g) d t) eqn:Ho; simpl; intros [= <- <-]; simpl; [|done]. split_and!; auto.
  - case_bool_decide as Hb; simpl; intros [= <- <-]; simpl; [|done]. split_and!; try done. right. split_and!; try done.
    unfold u64_checked_add in Hb. destruct (_ <=? _) in Hb; [|done]. by injection Hb as <-.
  - by intros [= <- <-].
Qed.

Lemma leave_begin_spec g d t ports r :
  leave_begin g d t ports = Ok r ->
  gt_durable g = true /\ owned (gt_record g) d t = true /\
  match r with
  | None => fn_active (gt_record g) = false
  | Some n => fn_active (gt_record g) = true /\ n = set_active (gt_record g) false /\ gt_pending g = 0 /\ ports = 0
  end.
Proof.
  unfold leave_begin. destruct (validate_owner d t) as [[]|]; [|done].
  destruct (owned (gt_record g) d t) eqn:Ho; simpl; [|done]. destruct (gt_durable g) eqn:Hd; simpl; [|done].
  destruct (fn_active (gt_record g)) eqn:Ha; simpl; [|by intros [= <-]].
  destruct (Z.eqb_spec (gt_pending g) 0); simpl; [|done]. destruct (Z.eqb_spec ports 0); simpl; [|done].
  by intros [= <-].
Qed.

Lemma admit_mutation_spec g g' r :
  admit_mutation g = (g', r) ->
  gt_record g' = gt_record g /\ gt_durable g' = gt_durable g /\ (is_ok r = true -> admission_blocked g = false).
Proof.
  unfold admit_mutation, admission_blocked. destruct (_ || _); [by intros [= <- <-]|].
  destruct (u64_checked_add _ _); by intros [= <- <-].
Qed.

Lemma admit_mutation_pending g g' r :
  admit_mutation g = (g', r) -> gt_pending g' = if is_ok r then gt_pending g + 1 else gt_pending g.
Proof.
  unfold admit_mutation. destruct (_ || _); [by intros [= <- <-]|]. unfold u64_checked_add.
  destruct (_ <=? _); by intros [= <- <-].
Qed.

(** ** The invariant *)

(** A row that can follow [r]: the same fence or the next generation. *)
Definition extends (r n : Fence) : Prop :=
  fn_token n = fn_token r + 1 \/ (fn_token n = fn_token r /\ fn_deployment n = fn_deployment r).

Definition transition_ok (g : GateState) (d : Disk) (t : Transition) : Prop :=
  match t with
  | Entering dep tok n => gt_durable g = false /\ gt_record g = n /\ fn_active n = true /\ owned n dep tok = true /\
      exists r, d = Row r /\ extends r n
  | Leaving dep tok n => gt_durable g = true /\ fn_active (gt_record g) = true /\ owned (gt_record g) dep tok = true /\
      n = set_active (gt_record g) false /\ (d = Row (gt_record g) \/ d = Row n)
  end.

Record gate_ok (w : GateWorld) : Prop := {
  go_durable : gt_durable (gw_gate w) = true -> gw_transition w = None -> gw_disk w = Row (gt_record (gw_gate w));
  go_active : fn_active (gt_record (gw_gate w)) = true ->
    exists r, gw_disk w = Row r /\ extends r (gt_record (gw_gate w));
  go_transition : forall t, gw_transition w = Some t -> transition_ok (gw_gate w) (gw_disk w) t
}.

Lemma extends_refl r : extends r r.
Proof. by right. Qed.

Lemma extends_active r : extends r (set_active r false) /\ extends (set_active r false) r.
Proof. by split; right. Qed.
#[export] Hint Resolve extends_refl : rcd.

Lemma load_spec d initial io d' r :
  load d initial io = (d', r) ->
  (exists f, r = Ok f /\ d' = Row f /\ (d = NoFile \/ d = Row f)) \/ (exists e, r = Err e /\ (d' = d \/ (d = NoFile /\ d' = NoRow))).
Proof.
  unfold load. destruct io as [e|]; [intros [= <- <-]; right; destruct d; eauto|].
  destruct d as [| |r0]; [intros [= <- <-]; left; eauto 6|intros [= <- <-]; right; eauto|].
  destruct (fence_valid initial r0); intros [= <- <-]; [left|right]; eauto.
Qed.

Lemma open_gate_ok d gateway io d' g :
  open_gate d gateway io = (d', g) -> gate_ok {| gw_gate := g; gw_disk := d'; gw_transition := None |}.
Proof.
  unfold open_gate. destruct (load d (initial_fence gateway) io) as [d1 r] eqn:E. intros [= <- <-].
  apply load_spec in E as [(f & -> & -> & _)|(e & -> & _)]; split; simpl; try done.
  intros _. exists f. split; [done|by right].
Qed.

Lemma gate_step_ok gateway w l w' : gate_step gateway w l w' -> gate_ok w -> gate_ok w'.
Proof.
  intros Hs [Hd Ha Ht]. destruct Hs as
    [w g r E|w Hp|w d t g e Htr E|w d t g Htr E|w d t g n Htr E|w d t ports Htr E|w d t ports n Htr E|w t Htr
    |w t g Htr Hdisk E|w t e g r Htr E|w io d g E].
  - apply admit_mutation_spec in E as (Hr & Hdu & _). destruct w as [gw dw tw]; simpl in *.
    split; simpl; rewrite ?Hr, ?Hdu; [done|done|]. intros t Et. specialize (Ht t Et). destruct t; simpl in *;
      by rewrite ?Hr, ?Hdu.
  - by split.
  - apply enter_begin_spec in E as ->. by split.
  - apply enter_begin_spec in E as (-> & _). by split.
  - apply enter_begin_spec in E as (-> & Hr & Hdu & _ & Hc).
    assert (He : exists r, gw_disk w = Row r /\ extends r (fence_of (gt_record (gw_gate w)) d t)).
    { destruct Hc as [(Hac & _ & (Hdep & Htok)%owned_spec)|(Hac & Hdu' & ->)].
      - destruct (Ha Hac) as (r & Hrow & He). exists r. split; [done|]. unfold extends in *. simpl. by rewrite <- Hdep, <- Htok.
      - exists (gt_record (gw_gate w)). split; [by apply Hd|by left]. }
    split; simpl; [congruence|by rewrite Hr|]. intros t' [= <-]. simpl. split_and!; try done. by apply owned_spec.
  - by split.
  - apply leave_begin_spec in E as (Hdu & Ho & Hac & -> & _). split; simpl; [done|done|].
    intros t' [= <-]. simpl. split_and!; try done. left. by apply Hd.
  - specialize (Ht t Htr). destruct t as [dep tok n|dep tok n]; simpl in *.
    + destruct Ht as (Hdu & Hr & Hac & Ho & r & Hrow & He). rewrite Hrow. simpl.
      split; simpl; [congruence|intros _; exists n; split; [done|rewrite Hr; by right]|].
      intros t' [= <-]. simpl. split_and!; try done. exists n. split; [done|by right].
    + destruct Ht as (Hdu & Hac & Ho & -> & Hrow).
      assert (Hrow' : save_row (gw_disk w) (set_active (gt_record (gw_gate w)) false) = Row (set_active (gt_record (gw_gate w)) false))
        by (by destruct Hrow as [-> | ->]).
      rewrite Hrow'. split; simpl; [done|intros _; eexists; split; [done|by right]|].
      intros t' [= <-]. simpl. split_and!; try done. by right.
  - injection E as <-. split; simpl; [done| |done]. intros _. eexists. split; [done|by right].
  - injection E as <- <-. split; simpl; [done|done|done].
  - by eapply open_gate_ok.
Qed.

(** ** Fenced gateways *)

(** The fence of [d] and [t] is acknowledged and not being released. *)
Record fenced (d : string) (t : Z) (w : GateWorld) : Prop := {
  fe_row : exists r, gw_disk w = Row r /\ fn_active r = true /\ owned r d t = true;
  fe_gate : (fn_active (gt_record (gw_gate w)) = true /\ owned (gt_record (gw_gate w)) d t = true) \/
            (fn_active (gt_record (gw_gate w)) = false /\ gt_durable (gw_gate w) = false);
  fe_transition : forall tr, gw_transition w = Some tr -> exists n, tr = Entering d t n /\ fn_active n = true /\ owned n d t = true
}.

Lemma fenced_blocked d t w : fenced d t w -> admission_blocked (gw_gate w) = true.
Proof. unfold admission_blocked. intros [_ [[-> _]|[-> ->]] _]; done. Qed.

Lemma fenced_step gateway d t w l w' :
  gate_step gateway w l w' -> fenced d t w -> l <> MutationAdmitted /\ ((exists ports, l = LeaveBegun d t ports) \/ fenced d t w').
Proof.
  intros Hs Hf. pose proof (fenced_blocked _ _ _ Hf) as Hb. destruct Hf as [(r0 & Hrow & Hra & Hro) Hg Ht].
  destruct Hs as
    [w g r E|w Hp|w d' t' g e Htr E|w d' t' g Htr E|w d' t' g n Htr E|w d' t' ports Htr E|w d' t' ports n Htr E|w tr Htr
    |w tr g Htr Hdisk E|w tr e g r Htr E|w io dk g E].
  - apply admit_mutation_spec in E as (Hr & Hdu & Hok). split.
    + destruct (is_ok r); [|done]. specialize (Hok eq_refl). congruence.
    + right. split; simpl; rewrite ?Hr, ?Hdu; eauto.
  - split; [done|right]. split; eauto.
  - apply enter_begin_spec in E as ->. split; [done|right]. split; eauto.
  - apply enter_begin_spec in E as (-> & _). split; [done|right]. split; eauto.
  - apply enter_begin_spec in E as (-> & Hr & Hdu & _ & Hc). split; [done|right].
    destruct Hc as [(Hac & _ & Ho)|(Hac & Hdu' & _)]; [|destruct Hg as [[? _]|[_ ?]]; congruence].
    destruct Hg as [[_ Ho']|[? _]]; [|congruence].
    apply owned_spec in Ho as [<- <-], Ho' as [<- <-].
    split; simpl; [eauto|left; rewrite Hr; split; [done|by apply owned_spec]|].
    intros tr [= <-]. eexists. split_and!; [done|done|by apply owned_spec].
  - split; [done|right]. split; eauto.
  - apply leave_begin_spec in E as (Hdu & Ho & Hac & _). destruct Hg as [[_ Ho']|[? _]]; [|congruence].
    apply owned_spec in Ho as [<- <-], Ho' as [<- <-]. split; [done|left; by exists ports].
  - split; [done|right]. destruct (Ht tr Htr) as (n & -> & Hna & Hno). split; simpl; [|done|].
    + rewrite Hrow. simpl. by exists n.
    + intros tr' [= <-]. by exists n.
  - destruct (Ht tr Htr) as (n & -> & Hna & Hno). split; [done|right]. injection E as <-.
    split; simpl; [by exists n|by left|done].
  - destruct (Ht tr Htr) as (n & -> & Hna & Hno). split; [done|right]. injection E as <- <-.
    split; simpl; [by exists r0| |done]. destruct Hg as [?|[? _]]; [by left|by right].
  - split; [done|right]. unfold open_gate in E. destruct (load _ _ _) as [d1 r] eqn:El. injection E as <- <-.
    apply load_spec in El as [(f & -> & -> & [Hx|Hx])|(e & -> & [->|[Hx _]])]; rewrite Hrow in *; simplify_eq.
    + split; simpl; [by exists f|by left|done].
    + split; simpl; [by exists r0|by right|done].
Qed.

Lemma fenced_run gateway d t w ls w' :
  gate_run gateway w ls w' -> fenced d t w ->
  (exists ports, LeaveBegun d t ports ∈ ls) \/ MutationAdmitted ∉ ls /\ fenced d t w'.
Proof.
  induction 1 as [w|w l w1 ls w2 Hs Hr IH]; intros Hf; [right; split; [apply not_elem_of_nil|done]|].
  destruct (fenced_step _ _ _ _ _ _ Hs Hf) as [Hl [[ports ->]|Hf1]]; [left; exists ports; apply list_elem_of_here|].
  destruct (IH Hf1) as [[ports Hp]|[? ?]]; [left; exists ports; by apply list_elem_of_further|].
  right. split; [|done]. rewrite not_elem_of_cons. split; [congruence|done].
Qed.

Lemma gate_run_ok gateway w ls w' : gate_run gateway w ls w' -> gate_ok w -> gate_ok w'.
Proof. induction 1; [done|]. intros. by eapply IHgate_run, gate_step_ok. Qed.

Lemma gate_run_app gateway w ls ls' w' :
  gate_run gateway w (ls ++ ls') w' -> exists w1, gate_run gateway w ls w1 /\ gate_run gateway w1 ls' w'.
Proof.
  revert w. induction ls as [|l ls IH]; intros w Hr; [by exists w; split; [constructor|]|].
  inversion Hr; subst. destruct (IH w'0) as (w1 & ? & ?); [done|]. exists w1. split; [by econstructor|done].
Qed.

(** An acknowledged [enter] leaves the gateway fenced. *)
Lemma enter_fences gateway w d t w' :
  gate_step gateway w (EnterOk d t) w' -> gate_ok w -> fenced d t w'.
Proof.
  intros Hs [Hd Ha Ht]. remember (EnterOk d t) as l eqn:El. destruct Hs as
    [w g r E| | |w d' t' g Htr E| | | |
    |w tr g Htr Hdisk E| | ]; try done; [by destruct (is_ok r)| |].
  - injection El as -> ->. apply enter_begin_spec in E as (-> & Hac & Hdu & Ho).
    split; simpl; [exists (gt_record (gw_gate w)); by rewrite Hd|by left|congruence].
  - destruct tr as [d' t' n|]; [|done]. injection El as -> ->. injection E as <-. simpl in Hdisk.
    destruct (Ht _ Htr) as (_ & _ & Hac & Ho & _). split; simpl; [by exists n|by left|done].
Qed.

(** ** Generations *)

Definition opened (gateway : string) (w : GateWorld) : Prop :=
  exists d io d' g, open_gate d gateway io = (d', g) /\ w = {| gw_gate := g; gw_disk := d'; gw_transition := None |}.

Lemma opened_ok gateway w : opened gateway w -> gate_ok w.
Proof. intros (d & io & d' & g & E & ->). by eapply open_gate_ok. Qed.

(** The fence of [d] and [t] was written: the row is it or a later one. *)
Definition past (d : string) (t : Z) (w : GateWorld) : Prop :=
  exists r, gw_disk w = Row r /\ (t < fn_token r \/ (t = fn_token r /\ d = fn_deployment r)).

(** Generation [t] was released. *)
Definition released (t : Z) (w : GateWorld) : Prop :=
  (exists r, gw_disk w = Row r /\ (t < fn_token r \/ (t = fn_token r /\ fn_active r = false))) /\
  (t < fn_token (gt_record (gw_gate w)) \/ fn_active (gt_record (gw_gate w)) = false) /\
  forall tr, gw_transition w = Some tr -> t < fn_token (transition_next tr).

(** The row changes only by a commit. *)
Lemma gate_step_row gateway w l w' r :
  gate_step gateway w l w' -> gw_disk w = Row r ->
  gw_disk w' = Row r \/ exists t, gw_transition w = Some t /\ gw_disk w' = Row (transition_next t).
Proof.
  intros Hs Hr. destruct Hs as [| | | | | | |w t Htr| | |w io d g E]; simpl; try (by left).
  - right. exists t. by rewrite Hr.
  - left. unfold open_gate in E. destruct (load _ _ _) as [d1 res] eqn:El. injection E as <- _. rewrite Hr in El.
    by apply load_spec in El as [(f & _ & -> & [Hx|Hx])|(e & _ & [->|[Hx _]])].
Qed.

Lemma past_step gateway d t w l w' : gate_step gateway w l w' -> gate_ok w -> past d t w -> past d t w'.
Proof.
  intros Hs Hok (r & Hr & Ht). destruct (gate_step_row _ _ _ _ _ Hs Hr) as [Hr'|(tr & Htr & Hr')]; [by exists r|].
  exists (transition_next tr). split; [done|]. pose proof (go_transition _ Hok _ Htr) as Hto.
  assert (He : extends r (transition_next tr)).
  { destruct tr as [dep tok n|dep tok n]; simpl in *.
    - destruct Hto as (_ & _ & _ & _ & r' & Hr'' & He). congruence.
    - destruct Hto as (_ & _ & _ & -> & [Hx|Hx]); rewrite Hx in Hr; injection Hr as <-; by right. }
  destruct He as [Hn|[Hn Hdep]]; rewrite Hn; [lia|]. destruct Ht as [?|[-> ->]]; [lia|]. right. by split.
Qed.

Lemma released_step gateway t w l w' :
  gate_step gateway w l w' -> gate_ok w -> released t w -> released t w' /\ forall d, l <> EnterOk d t.
Proof.
  intros Hs Hok Hrel. pose proof Hrel as ((r & Hr & Ht) & Hg & Htr0).
  assert (Hrow : exists r', gw_disk w' = Row r' /\ (t < fn_token r' \/ (t = fn_token r' /\ fn_active r' = false))).
  { destruct (gate_step_row _ _ _ _ _ Hs Hr) as [Hr'|(tr & Htr & Hr')]; [by exists r|].
    exists (transition_next tr). split; [done|]. left. by apply Htr0. }
  destruct Hs as
    [w g r' E|w Hp|w d' t' g e Htr E|w d' t' g Htr E|w d' t' g n Htr E|w d' t' ports Htr E|w d' t' ports n Htr E|w tr Htr
    |w tr g Htr Hdisk E|w tr e g r' Htr E|w io dk g E]; simpl in Hrow.
  - apply admit_mutation_spec in E as (Hr' & _ & _). split; [split_and!; simpl; rewrite ?Hr'; done|].
    intros d. by destruct (is_ok r').
  - done.
  - apply enter_begin_spec in E as ->. done.
  - apply enter_begin_spec in E as (-> & Hac & _ & (Hdep & Htok)%owned_spec). split; [done|].
    intros d [= -> ->]. destruct Hg; [lia|congruence].
  - apply enter_begin_spec in E as (-> & Hr' & _ & _ & Hc).
    assert (Hlt : t < t').
    { destruct Hc as [(Hac & _ & (_ & <-)%owned_spec)|(Hac & Hdu & ->)]; [destruct Hg; [done|congruence]|].
      rewrite (go_durable _ Hok Hdu Htr) in Hr. injection Hr as <-. lia. }
    split; [|done]. split_and!; simpl; [done|left; by rewrite Hr'|by intros tr [= <-]].
  - done.
  - apply leave_begin_spec in E as (_ & _ & Hac & -> & _). split; [|done]. split_and!; simpl; [done|done|].
    intros tr [= <-]. simpl. destruct Hg; [done|congruence].
  - split; [|done]. split_and!; simpl; [done|done|]. intros tr' [= <-]. by apply Htr0.
  - injection E as <-. pose proof (Htr0 _ Htr) as Hlt. split; [split_and!; simpl; [done|by left|done]|].
    intros d. destruct tr as [d' t' n|]; [|done]. intros [= -> ->].
    destruct (go_transition _ Hok _ Htr) as (_ & _ & _ & (_ & <-)%owned_spec & _). simpl in Hlt. lia.
  - injection E as <- <-. split; [|done]. split_and!; simpl; [done|done|done].
  - split; [|done]. unfold open_gate in E. destruct (load _ _ _) as [d1 res] eqn:El. injection E as <- <-.
    split_and!; simpl; [done| |done]. rewrite Hr in El.
    apply load_spec in El as [(f & -> & _ & [Hx|Hx])|(e & -> & _)]; simpl; [done| |by right].
    injection Hx as <-. destruct Ht as [?|[_ ?]]; [by left|by right].
Qed.

Lemma leave_releases gateway w d t w' :
  gate_step gateway w (LeaveOk d t) w' -> gate_ok w -> released t w'.
Proof.
  intros Hs Hok. remember (LeaveOk d t) as l eqn:El. destruct Hs as
    [w g r E| | | | |w d' t' ports Htr E| | |w tr g Htr Hdisk E| | ]; try done; [by destruct (is_ok r)| |].
  - injection El as -> ->. apply leave_begin_spec in E as (Hdu & (_ & <-)%owned_spec & Hac).
    split_and!; [|by right|congruence]. exists (gt_record (gw_gate w)). split; [by apply go_durable|by right].
  - destruct tr as [|d' t' n]; [done|]. injection El as -> ->. injection E as <-. simpl in Hdisk.
    destruct (go_transition _ Hok _ Htr) as (_ & _ & (_ & <-)%owned_spec & -> & _).
    split_and!; simpl; [|by right|done]. rewrite Hdisk. eexists. split; [done|by right].
Qed.

(** The counter of the gate counts what the history says. *)
Lemma gate_step_pending gateway w l w' ls :
  gate_step gateway w l w' -> gt_pending (gw_gate w) = outstanding ls -> gt_pending (gw_gate w') = outstanding (ls ++ [l]).
Proof.
  intros Hs Hp. unfold outstanding in *. rewrite foldl_app. cbn [foldl]. rewrite <- Hp. destruct Hs as
    [w g r E|w Hp'|w d t g e Htr E|w d t g Htr E|w d t g n Htr E|w d t ports Htr E|w d t ports n Htr E|w t Htr
    |w t g Htr Hdisk E|w t e g r Htr E|w io d g E]; simpl; try done.
  - rewrite (admit_mutation_pending _ _ _ E). by destruct (is_ok r).
  - by apply enter_begin_spec in E as ->.
  - by apply enter_begin_spec in E as (-> & _).
  - by apply enter_begin_spec in E as (_ & _ & _ & -> & _).
  - injection E as <-. by destruct t.
  - by injection E as <- _.
  - unfold open_gate in E. destruct (load _ _ _) as [d1 res]. injection E as _ <-. by destruct res.
Qed.

Lemma gate_run_pending gateway w ls w' ls0 :
  gate_run gateway w ls w' -> gt_pending (gw_gate w) = outstanding ls0 -> gt_pending (gw_gate w') = outstanding (ls0 ++ ls).
Proof.
  intros Hr. revert ls0. induction Hr as [w|w l w1 ls w2 Hs Hr IH]; intros ls0 Hp; [by rewrite app_nil_r|].
  rewrite cons_middle, app_assoc. apply IH. by eapply gate_step_pending.
Qed.

Lemma opened_pending gateway w : opened gateway w -> gt_pending (gw_gate w) = outstanding [].
Proof.
  intros (d & io & d' & g & E & ->). unfold open_gate in E. destruct (load _ _ _) as [d1 res].
  injection E as _ <-. by destruct res.
Qed.

(** A [leave] begins its release only when the gateway is drained. *)
Lemma leave_begun_drained gateway w d t ports w' :
  gate_step gateway w (LeaveBegun d t ports) w' ->
  gt_pending (gw_gate w) = 0 /\ ports = 0 /\ gt_durable (gw_gate w) = true /\ owned (gt_record (gw_gate w)) d t = true.
Proof.
  intros Hs. remember (LeaveBegun d t ports) as l eqn:El. destruct Hs as
    [w g r E| | | | | |w d' t' ports' n Htr E| |w tr g Htr Hdisk E| | ]; try done; [by destruct (is_ok r)| |by destruct tr].
  injection El as -> -> ->. by apply leave_begin_spec in E as (? & ? & _ & _ & ? & ?).
Qed.

(** C21: the maintenance fence holds. Open the gate on any database, then let
    admissions, releases of admissions, [enter]s, [leave]s, failing or
    committing writes and crashes with restarts interleave in any order. If a
    mutation is admitted after an acknowledged [enter] of a deployment and
    token, then in between a [leave] of the same deployment and token began
    its release, and it found the gateway drained: every mutation admitted by
    that process before it had ended, and the call was told that no port has
    pending work. *)
Theorem fence_blocks_admission gateway w ls1 d t ls2 ls3 w' :
  opened gateway w -> gate_run gateway w (ls1 ++ EnterOk d t :: ls2 ++ MutationAdmitted :: ls3) w' ->
  exists la ports lb, ls2 = la ++ LeaveBegun d t ports :: lb /\ ports = 0 /\ outstanding (ls1 ++ EnterOk d t :: la) = 0.
Proof.
  intros Ho Hrun. pose proof (opened_pending _ _ Ho) as Hp0. apply opened_ok in Ho.
  apply gate_run_app in Hrun as (w1 & H1 & H2). pose proof (gate_run_ok _ _ _ _ H1 Ho) as Hok1.
  inversion H2 as [|? ? w2 ? ? Hs Hr]; subst. apply gate_run_app in Hr as (w3 & H3 & H4).
  destruct (fenced_run _ _ _ _ _ _ H3 (enter_fences _ _ _ _ _ Hs Hok1)) as [[ports Hin]|[_ Hf]].
  - apply list_elem_of_split in Hin as (la & lb & ->). exists la, ports, lb.
    apply gate_run_app in H3 as (wa & Ha & Hb). inversion Hb as [|? ? wb ? ? Hsb _]; subst.
    destruct (leave_begun_drained _ _ _ _ _ _ Hsb) as (Hp & -> & _). split_and!; [done|done|].
    rewrite <- Hp. symmetry. pose proof (gate_run_pending _ _ _ _ _ H1 Hp0) as Hp1.
    rewrite cons_middle, app_assoc. eapply gate_run_pending; [exact Ha|]. by eapply gate_step_pending.
  - inversion H4 as [|? ? w4 ? ? Hs4 _]; subst. by destruct (fenced_step _ _ _ _ _ _ Hs4 Hf) as [? _].
Qed.

(** fencing generations have one owner. In any such history the tokens of
    acknowledged [enter]s never decrease, two acknowledged [enter]s with the
    same token are of the same deployment, and a generation whose [leave] was
    acknowledged is never entered again. *)
Theorem fence_generations gateway w ls1 d t ls2 d' t' ls3 w' :
  opened gateway w -> gate_run gateway w (ls1 ++ EnterOk d t :: ls2 ++ EnterOk d' t' :: ls3) w' ->
  t <= t' /\ (t = t' -> d = d' /\ forall d'', LeaveOk d'' t ∉ ls2).
Proof.
  intros Ho (w1 & H1 & H2)%gate_run_app. apply opened_ok in Ho. pose proof (gate_run_ok _ _ _ _ H1 Ho) as Hok1.
  inversion H2 as [|? ? w2 ? ? Hs Hr]; subst. pose proof (gate_step_ok _ _ _ _ Hs Hok1) as Hok2.
  apply gate_run_app in Hr as (w3 & H3 & H4). inversion H4 as [|? ? w4 ? ? Hs4 _]; subst.
  pose proof (gate_run_ok _ _ _ _ H3 Hok2) as Hok3.
  destruct (fe_row _ _ _ (enter_fences _ _ _ _ _ Hs Hok1)) as (r & Hr & _ & [<- <-]%owned_spec).
  destruct (fe_row _ _ _ (enter_fences _ _ _ _ _ Hs4 Hok3)) as (r' & Hr' & _ & [Hd' Ht']%owned_spec).
  assert (Hp : past (fn_deployment r) (fn_token r) w4).
  { eapply past_step; [done|done|]. assert (Hp2 : past (fn_deployment r) (fn_token r) w2) by (exists r; split; [done|by right]).
    clear -H3 Hp2 Hok2. induction H3 as [|? ? ? ? ? Hst ? IH]; [done|].
    apply IH; [by eapply gate_step_ok|by eapply past_step]. }
  destruct Hp as (r2 & Hr2 & Hle). rewrite Hr2 in Hr'. injection Hr' as ->. rewrite Hd', Ht' in Hle. split; [lia|].
  intros Heq. split; [destruct Hle as [?|[_ ?]]; [lia|done]|]. intros d'' Hin.
  apply list_elem_of_split in Hin as (la & lb & ->). apply gate_run_app in H3 as (wa & Ha & Hb).
  inversion Hb as [|? ? wb ? ? Hsb Hrb]; subst.
  pose proof (gate_run_ok _ _ _ _ Ha Hok2) as Hoka.
  pose proof (leave_releases _ _ _ _ _ Hsb Hoka) as Hrel. pose proof (gate_step_ok _ _ _ _ Hsb Hoka) as Hokb.
  assert (Hrel3 : released (fn_token r) w3).
  { clear -Hrb Hrel Hokb. induction Hrb as [|? ? ? ? ? Hst ? IH]; [done|].
    apply IH; [by eapply released_step|by eapply gate_step_ok]. }
  destruct (released_step _ _ _ _ _ Hs4 Hok3 Hrel3) as [_ Hne]. by eapply Hne; rewrite Heq.
Qed.

(** ** Examples *)

Definition toy_gate : GateWorld :=
  let '(d, g) := open_gate NoFile "gateway-a" None in {| gw_gate := g; gw_disk := d; gw_transition := None |}.

Lemma toy_gate_opened : opened "gateway-a" toy_gate.
Proof. exists NoFile, None. eexists _, _. split; reflexivity. Qed.

Ltac gate_go := repeat first
  [ apply gate_done
  | eapply gate_more; [first
      [ eapply gate_enter_begin with (d := "job") (t := 1); reflexivity
      | eapply gate_enter_again with (d := "job") (t := 1); reflexivity
      | eapply gate_leave_begin with (d := "job") (t := 1) (ports := 0); reflexivity
      | eapply (gate_persisted _ _ (Entering "job" 1 _)); reflexivity
      | eapply (gate_persisted _ _ (Leaving "job" 1 _)); reflexivity
      | eapply gate_commit; reflexivity
      | eapply gate_drop; reflexivity
      | eapply (gate_admit _ _ _ (Ok ())); reflexivity ]|] ].

Definition toy_history : list GateLabel :=
  [MutationAdmitted; MutationEnded; Quiet; Quiet; EnterOk "job" 1; LeaveBegun "job" 1 0; Quiet; LeaveOk "job" 1;
   MutationAdmitted].
Definition toy_reentry : list GateLabel := [Quiet; Quiet; EnterOk "job" 1; EnterOk "job" 1].

Lemma toy_history_runs : exists w, gate_run "gateway-a" toy_gate toy_history w.
Proof. eexists. unfold toy_history. gate_go. Qed.

Lemma toy_reentry_runs : exists w, gate_run "gateway-a" toy_gate toy_reentry w.
Proof. eexists. unfold toy_reentry. gate_go. Qed.

Lemma fence_blocks_admission_witness :
  exists w, gate_run "gateway-a" toy_gate toy_history w /\
    exists la ports lb, [LeaveBegun "job" 1 0; Quiet; LeaveOk "job" 1] = la ++ LeaveBegun "job" 1 ports :: lb /\ ports = 0.
Proof.
  destruct toy_history_runs as [w Hw]. exists w. split; [exact Hw|].
  destruct (fence_blocks_admission "gateway-a" toy_gate [MutationAdmitted; MutationEnded; Quiet; Quiet] "job" 1
    [LeaveBegun "job" 1 0; Quiet; LeaveOk "job" 1] [] w toy_gate_opened Hw) as (la & ports & lb & E & Hp & _).
  exists la, ports, lb. by split.
Defined.

Lemma fence_generations_witness :
  exists w, gate_run "gateway-a" toy_gate toy_reentry w /\ forall d, LeaveOk d 1 ∉ [].
Proof.
  destruct toy_reentry_runs as [w Hw]. exists w. split; [exact Hw|].
  apply (fence_generations "gateway-a" toy_gate [Quiet; Quiet] "job" 1 [] "job" 1 [] w toy_gate_opened Hw).
  reflexivity.
Defined.
