(* ===== verification/Persist.v ===== *)
(** * Saving the state of the operations console (src/src/operations/mod.rs)

    [persist_state], [persist_station_state] with its backup, and the two
    readers, as programs over the three files each of them touches.  The
    environment decides which file operation fails and where the process
    dies; a file that is being written has unknown content until it is
    complete.  That the paths are regular files, and the size limits, are the
    caller's case of an error. *)

From S2P Require Import Prelude.
Open Scope string_scope.
Open Scope list_scope.

Section Files.
Context {C : Type}.

(** The file, its backup and the temporary file. *)
Record Fs := { fs_path : option C; fs_backup : option C; fs_temp : option C }.

Inductive FileName := PathFile | BackupFile | TempFile.

Definition fs_get (fs : Fs) (f : FileName) : option C :=
  match f with PathFile => fs_path fs | BackupFile => fs_backup fs | TempFile => fs_temp fs end.
Definition fs_set (fs : Fs) (f : FileName) (c : option C) : Fs :=
  match f with
  | PathFile => {| fs_path := c; fs_backup := fs_backup fs; fs_temp := fs_temp fs |}
  | BackupFile => {| fs_path := fs_path fs; fs_backup := c; fs_temp := fs_temp fs |}
  | TempFile => {| fs_path := fs_path fs; fs_backup := fs_backup fs; fs_temp := c |}
  end.

(** [fails n] is the error of the [n]-th operation; the process dies before
    operation [dies]. *)
Record FsEnv := { fails : nat -> bool; dies : option nat }.

(** A program: the files and the number of operations so far, and its result,
    or [None] when the process died. *)
Definition FsM (A : Type) : Type := FsEnv -> Fs * nat -> Fs * nat * option A.
#[export] Instance FsM_ret : MRet FsM := fun A a env s => (s, Some a).
#[export] Instance FsM_bind : MBind FsM := fun A B k m env s =>
  match m env s with (s', Some a) => k a env s' | (s', None) => (s', None) end.

Definition look {A} (f : Fs -> A) : FsM A := fun env s => (s, Some (f s.1)).

Definition file_op (f : Fs -> option Fs) : FsM (result string ()) := fun env '(fs, n) =>
  if bool_decide (dies env = Some n) then (fs, n, None)
  else if fails env n then (fs, S n, Some (Err "I/O error"))
  else match f fs with
       | Some fs' => (fs', S n, Some (Ok ()))
       | None => (fs, S n, Some (Err "no such file, or it exists"))
       end.

Definition exists_file (f : FileName) : FsM bool := look (fun fs => match fs_get fs f with Some _ => true | None => false end).
Definition rename (from to : FileName) : FsM (result string ()) :=
  file_op (fun fs => c ← fs_get fs from; Some (fs_set (fs_set fs to (Some c)) from None)).
Definition remove_file (f : FileName) : FsM (result string ()) :=
  file_op (fun fs => _ ← fs_get fs f; Some (fs_set fs f None)).
(** [OpenOptions::create_new]: the new file has no content to rely on. *)
Definition create_new (f : FileName) (unknown : C) : FsM (result string ()) :=
  file_op (fun fs => match fs_get fs f with Some _ => None | None => Some (fs_set fs f (Some unknown)) end).
(** [write_all] and [sync_all]. *)
Definition write_synced (f : FileName) (c : C) : FsM (result string ()) :=
  file_op (fun fs => _ ← fs_get fs f; Some (fs_set fs f (Some c))).

(** [?] in a program. *)
Definition or_return {A} (m : FsM (result string ())) (k : FsM (result string A)) : FsM (result string A) :=
  r ← m; match r with Ok _ => k | Err e => mret (Err e) end.

(** [replace_file_with_backup]. *)
Definition replace_file_with_backup : FsM (result string ()) :=
  backup ← exists_file BackupFile;
  path ← exists_file PathFile;
  or_return (if negb backup then mret (Ok ())
             else if path : bool then remove_file BackupFile else rename BackupFile PathFile)
    (had_previous ← exists_file PathFile;
     or_return (if had_previous : bool then rename PathFile BackupFile else mret (Ok ()))
       (r ← rename TempFile PathFile;
        match r with
        | Ok _ =>
            if had_previous : bool then _ ← remove_file BackupFile; mret (Ok ()) else mret (Ok ())
        | Err e =>
            path ← exists_file PathFile;
            backup ← exists_file BackupFile;
            if (had_previous : bool) && negb path && backup then _ ← rename BackupFile PathFile; mret (Err e)
            else mret (Err e)
        end)).

(** The common part of both writers; [replace] puts the temporary file in
    place. *)
Definition persist (new unknown : C) (replace : FsM (result string ())) : FsM (result string ()) :=
  or_return (create_new TempFile unknown)
    (r ← or_return (write_synced TempFile new) replace;
     match r with
     | Ok _ => mret r
     | Err _ => _ ← remove_file TempFile; mret r
     end).

Definition persist_station_state (new unknown : C) : FsM (result string ()) :=
  persist new unknown replace_file_with_backup.
Definition persist_state (new unknown : C) : FsM (result string ()) :=
  persist new unknown (rename TempFile PathFile).

(** [read_station_state] and [read_state]: [None] is the default state. *)
Definition read_station_state : FsM (result string (option C)) :=
  path ← exists_file PathFile;
  backup ← exists_file BackupFile;
  or_return (if negb path && backup then rename BackupFile PathFile
             else if path && backup then remove_file BackupFile else mret (Ok ()))
    (look (fun fs => Ok (fs_path fs))).
Definition read_state : FsM (result string (option C)) := look (fun fs => Ok (fs_path fs)).

(** ** What a restart reads *)

(** The saved station state: the file, or the backup of an interrupted
    replacement. *)
Definition saved_state (fs : Fs) : option C :=
  match fs_path fs with Some c => Some c | None => fs_backup fs end.

(** [m] run to its end, or to the crash, from [s] satisfies [Q]. *)
Definition ends {A} (env : FsEnv) (m : FsM A) (Q : Fs -> option A -> Prop) (s : Fs * nat) : Prop :=
  Q (m env s).1.1 (m env s).2.

Lemma ends_mono {A} env (m : FsM A) (Q Q' : Fs -> option A -> Prop) s :
  (forall fs r, Q fs r -> Q' fs r) -> ends env m Q s -> ends env m Q' s.
Proof. unfold ends. auto. Qed.

Lemma ends_bind {A B} env (m : FsM A) (k : A -> FsM B) Q s :
  ends env m (fun fs r => match r with Some a => forall n, ends env (k a) Q (fs, n) | None => Q fs None end) s ->
  ends env (m ≫= k) Q s.
Proof.
  unfold ends, mbind, FsM_bind. destruct (m env s) as [[fs n] [a|]]; simpl; [|done]. intros Hk. apply Hk.
Qed.

Lemma ends_or_return {A} env m (k : FsM (result string A)) Q s :
  ends env m (fun fs r => match r with
                          | Some (Ok _) => forall n, ends env k Q (fs, n)
                          | Some (Err e) => Q fs (Some (Err e))
                          | None => Q fs None
                          end) s ->
  ends env (or_return m k) Q s.
Proof.
  intros Hm. unfold or_return. apply ends_bind. revert Hm. unfold ends.
  destruct (m env s) as [[fs n] [[[]|e]|]]; simpl; [done|done|done].
Qed.

Lemma ends_op env f (Q : Fs -> option (result string ()) -> Prop) fs n :
  Q fs None -> (forall e, Q fs (Some (Err e))) ->
  (forall fs', f fs = Some fs' -> Q fs' (Some (Ok ()))) -> ends env (file_op f) Q (fs, n).
Proof.
  intros H1 H2 H3. unfold ends, file_op. case_bool_decide; [done|]. destruct (fails env n); [apply H2|].
  destruct (f fs) as [fs'|] eqn:E; [by apply H3|apply H2].
Qed.

Lemma ends_look {A} env (f : Fs -> A) (Q : Fs -> option A -> Prop) fs n : Q fs (Some (f fs)) -> ends env (look f) Q (fs, n).
Proof. done. Qed.
Lemma ends_ret {A} env (a : A) (Q : Fs -> option A -> Prop) fs n : Q fs (Some a) -> ends env (mret a) Q (fs, n).
Proof. done. Qed.

(** Symbolic execution over known files. *)
Ltac fs_step := match goal with
  | |- ends _ (or_return _ _) _ _ => apply ends_or_return
  | |- ends _ (mbind _ _) _ _ => apply ends_bind
  | |- ends _ (file_op _) _ _ => apply ends_op; [|intros ?|intros ? Hop; cbn in Hop; simplify_eq]
  | |- ends _ (mret _) _ _ => apply ends_ret
  | |- ends _ (look _) _ _ => apply ends_look
  end.
Ltac fs_run := repeat (cbn [fs_get fs_set fs_path fs_backup fs_temp negb andb]; cbv beta iota; first [fs_step | progress intros]).

(** How a save ends: nothing changed, or the new state is saved. *)
Definition save_ends (saved : Fs -> option C) (fs : Fs) (new : C) (fs' : Fs) (r : option (result string ())) : Prop :=
  match r with
  | Some (Ok _) => saved fs' = Some new
  | Some (Err _) => saved fs' = saved fs
  | None => saved fs' = saved fs \/ saved fs' = Some new
  end.

Lemma replace_ends env fs n new :
  fs_temp fs = Some new ->
  ends env replace_file_with_backup (fun fs' r => save_ends saved_state fs new fs' r) (fs, n).
Proof.
  destruct fs as [[p|] [b|] t]; simpl; intros ->; unfold replace_file_with_backup, exists_file, remove_file, rename.
  all: fs_run; try (left; done); try (right; done); done.
Qed.

Lemma persist_ends env fs n new unknown replace (saved : Fs -> option C) :
  (forall fs c, saved (fs_set fs TempFile c) = saved fs) ->
  (forall fs n, fs_temp fs = Some new -> ends env replace (fun fs' r => save_ends saved fs new fs' r) (fs, n)) ->
  ends env (persist new unknown replace) (fun fs' r => save_ends saved fs new fs' r) (fs, n).
Proof.
  intros Htmp Hrep. unfold persist, create_new, write_synced, remove_file.
  assert (Hclean : forall fs1 e n1, saved fs1 = saved fs ->
    ends env (_ ← remove_file TempFile; mret (Err e)) (fun fs' r => save_ends saved fs new fs' r) (fs1, n1)).
  { intros fs1 e n1 Hs. unfold remove_file. fs_run; try (left; done); try done.
    all: destruct (fs_temp fs1) as [c|]; simpl in *; try done; simplify_eq; simpl. by rewrite Htmp. }
  apply ends_or_return, ends_op; [by left|done|]. intros fs1 H1.
  assert (Hs1 : saved fs1 = saved fs) by (simpl in H1; destruct (fs_temp fs); [done|]; injection H1 as <-; apply Htmp).
  intros n1. apply ends_bind, ends_or_return, ends_op; [by left|intros e n2; by apply Hclean|].
  intros fs2 H2 n2. cbn [fs_get] in H2. destruct (fs_temp fs1); [|done]. injection H2 as <-.
  eapply ends_mono; [|by apply Hrep]. intros fs3 [[[]|e]|] H3; unfold save_ends in H3.
  - done.
  - intros n3. apply Hclean. rewrite H3, <- Hs1. exact (Htmp fs1 (Some new)).
  - unfold save_ends. rewrite <- Hs1, <- (Htmp fs1 (Some new)). exact H3.
Qed.

(** C24: saving the station versions is atomic. Whatever the temporary and
    backup files hold, whichever file operations fail and wherever the
    process dies, a restart reads either the state from before or the new
    one, complete; the new one if the save reported success, the old one if it
    reported an error; and reading, which repairs the files, keeps it so. *)
Theorem station_save_is_atomic env env' fs new unknown :
  ends env (persist_station_state new unknown)
    (fun fs' r => save_ends saved_state fs new fs' r /\
       ends env' read_station_state
         (fun fs'' q => saved_state fs'' = saved_state fs' /\ forall c, q = Some (Ok c) -> c = saved_state fs')
         (fs', 0%nat)) (fs, 0%nat).
Proof.
  eapply ends_mono; [|apply (persist_ends env fs 0 new unknown _ saved_state); [done|intros; by apply replace_ends]].
  intros fs' r Hs. split; [done|]. clear Hs. unfold read_station_state, exists_file, rename, remove_file.
  destruct fs' as [[p|] [b|] t]; fs_run; (split; [done|]); intros c Hc; by simplify_eq.
Qed.

(** The other file is replaced by one rename. *)
Lemma save_is_atomic env fs new unknown :
  ends env (persist_state new unknown) (fun fs' r => save_ends fs_path fs new fs' r) (fs, 0%nat).
Proof.
  apply (persist_ends env fs 0 new unknown _ fs_path); [done|]. intros fs1 n1 Ht. unfold rename. apply ends_op; [by left|done|].
  intros fs2 H2. simpl in H2. rewrite Ht in H2. by injection H2 as <-.
Qed.
End Files.
