(* ===== verification/Operations.v ===== *)
(** * The operations console (src/src/operations/mod.rs)

    The state behind the console's requests: saved acquisition settings and
    station versions, the snapshot of every port, the pending control of each
    port and the commands it has admitted.  Requests, the workers' reports and
    the release of permits each run under the state lock, so each is one
    function.  A revision is kept as the number whose canonical decimal text
    the files hold ([revision_of_text]).  Writing a file answers with an error
    or saves the state (Persist.v); the text of error values of the
    file system is the environment's. *)

From stdpp Require Import pretty.
From S2P Require Import Prelude RustFloat RustStr Model Parser Csv Protocol Frames Maintenance.
Open Scope string_scope.
Open Scope Z_scope.
Open Scope list_scope.

(** ** Data *)

Record DeviceSnapshot := {
  dv_device_id : string;
  dv_name : string;
  dv_read_enabled : bool;
  dv_applied_read_enabled : bool;
  dv_communication_ok : bool;
  dv_last_data_at : option string;
  dv_station_version : StationVersionRecord
}.

Record PortSnapshot := {
  pt_port_id : string;
  pt_port_name : string;
  pt_enabled : bool;
  pt_applied_enabled : bool;
  pt_open : bool;
  pt_devices : list DeviceSnapshot;
  pt_pending_commands : Z;
  pt_control_pending : bool;
  pt_last_control_error : option string
}.

Record StoredPort := { so_enabled : bool; so_device_read_enabled : gmap string bool }.
Record StoredState := { so_revision : Z; so_ports : gmap string StoredPort }.
Record StoredStationEntry := { se_fingerprint : string; se_record : StationVersionRecord }.
Record StoredStationState := { ss_revision : Z; ss_ports : gmap string (gmap string StoredStationEntry) }.

#[export] Instance station_version_eq_dec : EqDecision StationVersionRecord.
Proof. solve_decision. Defined.
#[export] Instance station_entry_eq_dec : EqDecision StoredStationEntry.
Proof. solve_decision. Defined.

(** [State]. *)
Record OpsState := {
  os_saved : StoredState;
  os_station_saved : StoredStationState;
  os_ports : gmap string PortSnapshot;
  os_pending : gmap string Z
}.

(** The revision a file is accepted with: canonical decimal text of a
    positive number. *)
Definition revision_of_text (t : string) : option Z :=
  match parse_uint u64_max (chars t) with
  | Some n => if (0 <? n) && String.eqb (pretty n) t then Some n else None
  | None => None
  end.

(** ** Field updates *)

Definition set_saved (s : OpsState) (saved : StoredState) : OpsState :=
  {| os_saved := saved; os_station_saved := os_station_saved s; os_ports := os_ports s; os_pending := os_pending s |}.
Definition set_station_saved (s : OpsState) (saved : StoredStationState) : OpsState :=
  {| os_saved := os_saved s; os_station_saved := saved; os_ports := os_ports s; os_pending := os_pending s |}.
Definition set_ports (s : OpsState) (ports : gmap string PortSnapshot) (pending : gmap string Z) : OpsState :=
  {| os_saved := os_saved s; os_station_saved := os_station_saved s; os_ports := ports; os_pending := pending |}.

Definition set_pending_commands (n : Z) (p : PortSnapshot) : PortSnapshot :=
  {| pt_port_id := pt_port_id p; pt_port_name := pt_port_name p; pt_enabled := pt_enabled p; pt_applied_enabled := pt_applied_enabled p;
     pt_open := pt_open p; pt_devices := pt_devices p; pt_pending_commands := n;
     pt_control_pending := pt_control_pending p; pt_last_control_error := pt_last_control_error p |}.
Definition set_control_state (pending : bool) (error : option string) (p : PortSnapshot) : PortSnapshot :=
  {| pt_port_id := pt_port_id p; pt_port_name := pt_port_name p; pt_enabled := pt_enabled p; pt_applied_enabled := pt_applied_enabled p;
     pt_open := pt_open p; pt_devices := pt_devices p; pt_pending_commands := pt_pending_commands p;
     pt_control_pending := pending; pt_last_control_error := error |}.
Definition set_enabled_flag (enabled : bool) (p : PortSnapshot) : PortSnapshot :=
  {| pt_port_id := pt_port_id p; pt_port_name := pt_port_name p; pt_enabled := enabled; pt_applied_enabled := pt_applied_enabled p;
     pt_open := pt_open p; pt_devices := pt_devices p; pt_pending_commands := pt_pending_commands p;
     pt_control_pending := pt_control_pending p; pt_last_control_error := pt_last_control_error p |}.
Definition set_runtime (applied open : bool) (devices : list DeviceSnapshot) (p : PortSnapshot) : PortSnapshot :=
  {| pt_port_id := pt_port_id p; pt_port_name := pt_port_name p; pt_enabled := pt_enabled p; pt_applied_enabled := applied;
     pt_open := open; pt_devices := devices; pt_pending_commands := pt_pending_commands p;
     pt_control_pending := pt_control_pending p; pt_last_control_error := pt_last_control_error p |}.
Definition set_devices (devices : list DeviceSnapshot) (p : PortSnapshot) : PortSnapshot :=
  set_runtime (pt_applied_enabled p) (pt_open p) devices p.

Definition set_read_enabled (enabled : bool) (d : DeviceSnapshot) : DeviceSnapshot :=
  {| dv_device_id := dv_device_id d; dv_name := dv_name d; dv_read_enabled := enabled;
     dv_applied_read_enabled := dv_applied_read_enabled d; dv_communication_ok := dv_communication_ok d;
     dv_last_data_at := dv_last_data_at d; dv_station_version := dv_station_version d |}.
Definition set_station (r : StationVersionRecord) (d : DeviceSnapshot) : DeviceSnapshot :=
  {| dv_device_id := dv_device_id d; dv_name := dv_name d; dv_read_enabled := dv_read_enabled d;
     dv_applied_read_enabled := dv_applied_read_enabled d; dv_communication_ok := dv_communication_ok d;
     dv_last_data_at := dv_last_data_at d; dv_station_version := r |}.

Definition set_version_state (r : StationVersionRecord) (state : string) (attempt success : option string)
    (error : string) (failures : Z) (st : bool) : StationVersionRecord :=
  {| configured_module_type := configured_module_type r; detected_module_type := detected_module_type r;
     type_mismatch := type_mismatch r; communication_module_version := communication_module_version r;
     communication_module_version_raw := communication_module_version_raw r; plc_version := plc_version r;
     plc_version_raw := plc_version_raw r; version_payload := version_payload r; version_state := state;
     last_version_attempt_at := attempt; last_version_success_at := success; last_version_error := error;
     consecutive_failures := failures; stale := st |}.

(** [devices.iter_mut().find(|d| d.device_id == id)] with an assignment. *)
Fixpoint update_device (id : string) (f : DeviceSnapshot -> DeviceSnapshot) (ds : list DeviceSnapshot)
    : list DeviceSnapshot :=
  match ds with
  | [] => []
  | d :: ds => if String.eqb (dv_device_id d) id then f d :: ds else d :: update_device id f ds
  end.
Definition find_device (id : string) (ds : list DeviceSnapshot) : option DeviceSnapshot :=
  List.find (fun d => String.eqb (dv_device_id d) id) ds.

Definition alter_port (s : OpsState) (port : string) (f : PortSnapshot -> PortSnapshot) : OpsState :=
  set_ports s (alter f port (os_ports s)) (os_pending s).

(** ** Start-up ([new_with_directories], [station_topology_fingerprint]) *)

Section Startup.
Context (sha256_hex : list (list Z) -> string).

Definition bytes_of_text (t : string) : list Z := (fun c => Z.of_nat (nat_of_ascii c)) <$> list_ascii_of_string t.

(** The pieces are hashed one after the other. *)
Definition station_topology_fingerprint (port : string) (device : DeviceConfig) : string :=
  sha256_hex
    ([bytes_of_text port; [0]; [device_id (dc_config device)]; bytes_of_text (kks_prefix (dc_config device))]
     ++ concat ((fun kks => [[0]; bytes_of_text kks]) <$> sort_strings (rec_kks <$> dc_records device))).

(** One configured device: the saved settings, the saved station entry and
    its snapshot. *)
Definition reconcile_entry (fingerprint : string) (e : StoredStationEntry) : StoredStationEntry :=
  let e :=
    if String.eqb (se_fingerprint e) fingerprint then e
    else {| se_fingerprint := fingerprint;
            se_record := reset_for_configured_type (se_record e) (configured_module_type (se_record e)) |} in
  let r := se_record e in
  if String.eqb (version_state r) "querying" then
    {| se_fingerprint := se_fingerprint e;
       se_record := set_version_state r "failed" (last_version_attempt_at r) (last_version_success_at r)
                      "previous version query was interrupted by process shutdown"
                      (Z.min (consecutive_failures r + 1) u32_max) (has_last_version r) |}
  else e.

Record Startup := {
  up_reads : gmap string bool;
  up_stations : gmap string StoredStationEntry;
  up_devices : gmap string DeviceSnapshot
}.

Definition startup_device (port : string) (u : Startup) (device : DeviceConfig) : result string Startup :=
  let id := pretty (device_id (dc_config device)) in
  let fingerprint := station_topology_fingerprint port device in
  let enabled := default true (up_reads u !! id) in
  let entry := reconcile_entry fingerprint
                 (default {| se_fingerprint := fingerprint; se_record := station_version_default |} (up_stations u !! id)) in
  if bool_decide (is_Some (up_devices u !! id)) then Err "duplicate operations device"
  else Ok {| up_reads := <[id := enabled]> (up_reads u);
             up_stations := <[id := entry]> (up_stations u);
             up_devices := <[id := {| dv_device_id := id; dv_name := "设备 " +:+ id; dv_read_enabled := enabled;
                                      dv_applied_read_enabled := false; dv_communication_ok := false;
                                      dv_last_data_at := None; dv_station_version := se_record entry |}]> (up_devices u) |}.

Fixpoint startup_devices (port : string) (u : Startup) (devices : list DeviceConfig) : result string Startup :=
  match devices with
  | [] => Ok u
  | d :: ds => u ← startup_device port u d; startup_devices port u ds
  end.

(** [devices.into_values()]: in the order of the ids. *)
Definition in_key_order (m : gmap string DeviceSnapshot) : list DeviceSnapshot :=
  omap (fun k => m !! k) (sort_strings (map_to_list m).*1).

Definition startup_port (s : OpsState) (port : string) (devices : list DeviceConfig) : result string OpsState :=
  if bool_decide (is_Some (os_ports s !! port)) then Err "duplicate operations port"
  else
    let desired := default {| so_enabled := true; so_device_read_enabled := ∅ |} (so_ports (os_saved s) !! port) in
    u ← startup_devices port
          {| up_reads := so_device_read_enabled desired;
             up_stations := default ∅ (ss_ports (os_station_saved s) !! port); up_devices := ∅ |} devices;
    let saved := {| so_revision := so_revision (os_saved s);
                    so_ports := <[port := {| so_enabled := so_enabled desired; so_device_read_enabled := up_reads u |}]>
                                  (so_ports (os_saved s)) |} in
    let station := {| ss_revision := ss_revision (os_station_saved s);
                      ss_ports := match devices with
                                  | [] => ss_ports (os_station_saved s)
                                  | _ => <[port := up_stations u]> (ss_ports (os_station_saved s))
                                  end |} in
    Ok {| os_saved := saved; os_station_saved := station;
          os_ports := <[port := {| pt_port_id := port; pt_port_name := port; pt_enabled := so_enabled desired;
                                   pt_applied_enabled := false; pt_open := false;
                                   pt_devices := in_key_order (up_devices u); pt_pending_commands := 0;
                                   pt_control_pending := false; pt_last_control_error := None |}]> (os_ports s);
          os_pending := ∅ |}.

Fixpoint startup_ports (s : OpsState) (ports : list (string * list DeviceConfig)) : result string OpsState :=
  match ports with
  | [] => Ok s
  | (port, devices) :: ports => s ← startup_port s port devices; startup_ports s ports
  end.

(** [retain]: only configured ports with devices, and their configured
    devices. *)
Definition retain_stations (ports : list (string * list DeviceConfig))
    (stations : gmap string (gmap string StoredStationEntry)) : gmap string (gmap string StoredStationEntry) :=
  map_imap (fun port entries =>
    match List.find (fun p => String.eqb p.1 port) ports with
    | Some (_, d :: ds) =>
        let configured := (fun d => pretty (device_id (dc_config d))) <$> d :: ds in
        Some (filter (fun e : string * StoredStationEntry => e.1 ∈ configured) entries)
    | _ => None
    end) stations.

(** The state after start-up; the station file is written when it changed. *)
Definition startup (saved : StoredState) (station : StoredStationState) (ports : list (string * list DeviceConfig))
    (persisted : StoredStationState -> result string ()) : result string OpsState :=
  s ← startup_ports {| os_saved := saved; os_station_saved := station; os_ports := ∅; os_pending := ∅ |} ports;
  let next := retain_stations ports (ss_ports (os_station_saved s)) in
  if bool_decide (next = ss_ports station) then
    Ok (set_station_saved s {| ss_revision := ss_revision station; ss_ports := next |})
  else
    match u64_checked_add (ss_revision station) 1 with
    | None => Err "station revision exhausted"
    | Some revision =>
        let next := {| ss_revision := revision; ss_ports := next |} in
        _ ← persisted next; Ok (set_station_saved s next)
    end.
End Startup.

(** ** Reading the settings *)

Definition initial_port_enabled (s : OpsState) (port : string) : bool :=
  match os_ports s !! port with Some p => pt_enabled p | None => false end.

Definition port_device (s : OpsState) (port : string) (id : Z) : option DeviceSnapshot :=
  p ← os_ports s !! port; find_device (pretty id) (pt_devices p).

Definition initial_device_read_enabled (s : OpsState) (port : string) (id : Z) : bool :=
  match port_device s port id with Some d => dv_read_enabled d | None => false end.

Definition initial_module_type (s : OpsState) (port : string) (id : Z) : ModuleType :=
  match port_device s port id with Some d => configured_module_type (dv_station_version d) | None => Unknown end.

(** A domestic station that answered as a legacy one. *)
Definition found_legacy (r : StationVersionRecord) : bool :=
  bool_decide (detected_module_type r = LegacyRussian) && type_mismatch r.

Definition startup_version_query_devices (s : OpsState) (port : string) : list Z :=
  match os_ports s !! port with
  | None => []
  | Some p =>
      omap (fun d =>
        if bool_decide (configured_module_type (dv_station_version d) = Domestic)
           && negb (found_legacy (dv_station_version d))
        then parse_u8 (dv_device_id d) else None) (pt_devices p)
  end.

(** [pending_port_operations]. *)
Definition pending_port_operations (s : OpsState) : Z :=
  Z.of_nat (length (filter (fun kp : string * PortSnapshot =>
    pt_control_pending kp.2 || negb (pt_pending_commands kp.2 =? 0) = true) (map_to_list (os_ports s)))).

(** ** Commands *)

(** [admit_command], once the maintenance gate has admitted it. *)
Definition admit_on_port (s : OpsState) (shutdown : bool) (port : string) : OpsState * result OperationError () :=
  if shutdown then (s, Err (with_revision (op_error "operation_failed" "gateway is shutting down")
                              (pretty (so_revision (os_saved s)))))
  else
    match os_ports s !! port with
    | None => (s, Err (op_error "not_found" "unknown port"))
    | Some p =>
        if pt_control_pending p || (0 <? pt_pending_commands p)
        then (s, Err (op_error "busy" "port control is still pending"))
        else if negb (pt_enabled p) || negb (pt_applied_enabled p)
        then (s, Err (op_error "operation_failed" "port is disabled or not yet applied"))
        else (set_ports s (<[port := set_pending_commands (pt_pending_commands p + 1) p]> (os_ports s)) (os_pending s), Ok ())
    end.

(** An error drops the admission again. *)
Definition admit_command (g : GateState) (s : OpsState) (shutdown : bool) (port : string)
    : GateState * OpsState * result OperationError () :=
  match admit_mutation g with
  | (g, Err e) => (g, s, Err e)
  | (g, Ok _) =>
      let '(s, r) := admit_on_port s shutdown port in
      (match r with Ok _ => g | Err _ => drop_admission g end, s, r)
  end.

(** [Drop for PermitInner], then its admission. *)
Definition drop_command_permit (g : GateState) (s : OpsState) (port : string) : GateState * OpsState :=
  (drop_admission g,
   alter_port s port (fun p => set_pending_commands (Z.max (pt_pending_commands p - 1) 0) p)).

(** ** Requests *)

Inductive Arg := AText (s : string) | ABool (b : bool) | AOther.
Abbreviation Request := (gmap string Arg) (only parsing).

Definition string_arg (request : Request) (k : string) : result OperationError string :=
  match request !! k with
  | Some (AText t) => if String.eqb t "" then Err (op_error "invalid_request" (k +:+ " must be a non-empty String")) else Ok t
  | _ => Err (op_error "invalid_request" (k +:+ " must be a non-empty String"))
  end.

Definition busy (p : PortSnapshot) : bool := pt_control_pending p || negb (pt_pending_commands p =? 0).

(** What a request's lock section leaves: an error, nothing to do, or a
    command in the worker's channel and the revision to wait for.  [sent] is
    whether the channel was still open. *)
Inductive Begun :=
| Unchanged
| Queued (c : Command) (revision : Z).

Section Control.
Context (shutdown : bool) (persisted : StoredState -> result string ()) (sent : bool).

(** The end of every request that queues a control. *)
Definition queue_control (s : OpsState) (port : string) (c : CommandType) (revision : Z)
    (closed_error : string) (closed : OperationError) : OpsState * result OperationError Begun :=
  let command := {| cm_com := port; cm_command := c; cm_ack_id := None; cm_expires_at := None;
                    cm_control_receipt := Some revision; cm_permit := false |} in
  let s := set_ports s (alter (set_control_state true None) port (os_ports s)) (<[port := revision]> (os_pending s)) in
  if sent then (s, Ok (Queued command revision))
  else (set_ports s (alter (set_control_state false (Some closed_error)) port (os_ports s)) (delete port (os_pending s)),
        Err (with_revision closed (pretty revision))).

Definition change_stored (device_id : option string) (enabled : bool) (stored : StoredPort) : StoredPort :=
  match device_id with
  | Some id => {| so_enabled := so_enabled stored;
                  so_device_read_enabled := <[id := enabled]> (so_device_read_enabled stored) |}
  | None => {| so_enabled := enabled; so_device_read_enabled := so_device_read_enabled stored |}
  end.

(** [set_control] up to the wait for the worker. *)
Definition set_control (s : OpsState) (senders : gset string) (request : Request) (device : bool)
    : OpsState * result OperationError Begun :=
  match
    (port ← string_arg request "port_id";
     device_id ← (if device then Some <$> string_arg request "device_id" else Ok None);
     enabled ← (match request !! "enabled" with
                | Some (ABool b) => Ok b
                | _ => Err (op_error "invalid_request" "enabled must be Boolean")
                end);
     expected ← string_arg request "expected_revision";
     Ok (port, device_id, enabled, expected))
  with
  | Err e => (s, Err e)
  | Ok (port, device_id, enabled, expected) =>
      let current := pretty (so_revision (os_saved s)) in
      if negb (bool_decide (port ∈ senders)) then (s, Err (op_error "operation_failed" "serial worker is unavailable"))
      else if shutdown then (s, Err (with_revision (op_error "operation_failed" "gateway is shutting down") current))
      else if negb (String.eqb expected current)
      then (s, Err (with_revision (op_error "conflict" "operations revision changed") current))
      else
        match os_ports s !! port with
        | None => (s, Err (op_error "not_found" "unknown port"))
        | Some p =>
            if busy p
            then (s, Err (with_revision (op_error "busy" "port has a pending command or control operation") current))
            else
              match
                (command ← (match device_id with
                            | None => Ok (PortStatus enabled)
                            | Some id =>
                                match find_device id (pt_devices p) with
                                | None => Err (op_error "not_found" "unknown device")
                                | Some _ =>
                                    n ← ok_or (op_error "invalid_request" "invalid device ID") (parse_u8 id);
                                    Ok (DeviceReadSetting n enabled)
                                end
                            end);
                 revision ← ok_or (op_error "operation_failed" "revision exhausted") (u64_checked_add (so_revision (os_saved s)) 1);
                 let next := {| so_revision := revision;
                                so_ports := alter (change_stored device_id enabled) port (so_ports (os_saved s)) |} in
                 _ ← map_err (fun e => op_error "persistence_failed" ("could not save acquisition settings: " +:+ e))
                       (persisted next);
                 Ok (command, next))
              with
              | Err e => (s, Err e)
              | Ok (command, next) =>
                  let s := set_saved s next in
                  let s := alter_port s port (fun p => match device_id with
                    | Some id => set_devices (update_device id (set_read_enabled enabled) (pt_devices p)) p
                    | None => set_enabled_flag enabled p
                    end) in
                  queue_control s port command (so_revision next)
                    "worker channel closed; desired setting is saved but not applied"
                    (op_error "operation_failed"
                       "desired setting saved, worker unavailable; refresh status before further action")
              end
        end
  end.
End Control.

(** The answer once the worker has replied or the wait is over. *)
Inductive Reply := Replied (outcome : result string ()) | WaitTimeout | WaitDisconnected.

Definition control_answer (disconnected : string) (revision : Z) (r : Reply) : result OperationError string :=
  match r with
  | Replied (Ok _) => Ok "Applied"
  | Replied (Err message) => Err (with_revision (op_error "operation_failed" message) (pretty revision))
  | WaitTimeout => Ok "Pending"
  | WaitDisconnected => Err (with_revision (op_error "operation_failed" disconnected) (pretty revision))
  end.

(** ** Station versions *)

Definition validate_station_request (s : OpsState) (expected expected_station port device : string) (query : bool)
    : result OperationError () :=
  let station := pretty (ss_revision (os_station_saved s)) in
  if negb (String.eqb expected (pretty (so_revision (os_saved s))))
  then Err (with_revision (op_error "conflict" "operations revision changed") (pretty (so_revision (os_saved s))))
  else if negb (String.eqb expected_station station)
  then Err (with_revision (op_error "conflict" "station version revision changed") station)
  else
    p ← ok_or (op_error "not_found" "unknown port") (os_ports s !! port);
    if busy p
    then Err (with_revision (op_error "busy" "port has a pending command or control operation") station)
    else
      d ← ok_or (op_error "not_found" "unknown device") (find_device device (pt_devices p));
      if negb query then Ok ()
      else if negb (bool_decide (configured_module_type (dv_station_version d) = Domestic))
      then Err (with_revision (op_error "conflict" "version query is allowed only for a station configured as domestic") station)
      else if negb (pt_enabled p) || negb (pt_applied_enabled p)
      then Err (op_error "conflict" "port acquisition is disabled or not yet applied")
      else if negb (pt_open p) then Err (op_error "operation_failed" "serial port is offline")
      else if negb (dv_read_enabled d) || negb (dv_applied_read_enabled d)
      then Err (op_error "conflict" "device acquisition is disabled or not yet applied")
      else Ok ().

Definition increment_revision (current : Z) : result OperationError Z :=
  ok_or (op_error "operation_failed" "revision exhausted") (u64_checked_add current 1).

Definition station_entry (s : OpsState) (port device : string) : option StoredStationEntry :=
  ss_ports (os_station_saved s) !! port ≫= fun m => m !! device.

(** The station file with a new record for one station. *)
Definition with_station (st : StoredStationState) (revision : Z) (port device : string) (r : StationVersionRecord)
    : StoredStationState :=
  {| ss_revision := revision;
     ss_ports := alter (alter (fun e => {| se_fingerprint := se_fingerprint e; se_record := r |}) device) port (ss_ports st) |}.

(** The saved station and its snapshot. *)
Definition save_station (s : OpsState) (revision : Z) (port device : string) (r : StationVersionRecord) : OpsState :=
  let s := set_station_saved s (with_station (os_station_saved s) revision port device r) in
  alter_port s port (fun p => set_devices (update_device device (set_station r) (pt_devices p)) p).

Definition mark_station_query_pending (s : OpsState) (port device now : string)
    (persisted : StoredStationState -> result string ()) : OpsState * result OperationError Z :=
  match
    (revision ← increment_revision (ss_revision (os_station_saved s));
     e ← ok_or (op_error "not_found" "unknown station") (station_entry s port device);
     let r := se_record e in
     let r := set_version_state r "querying" (Some now) (last_version_success_at r) "" (consecutive_failures r) (stale r) in
     _ ← map_err (fun e => op_error "persistence_failed" ("could not save station query state: " +:+ e))
           (persisted (with_station (os_station_saved s) revision port device r));
     Ok (revision, r))
  with
  | Err e => (s, Err e)
  | Ok (revision, r) => (save_station s revision port device r, Ok revision)
  end.

Definition hex_payload (payload : list Z) : string := hex payload.

Definition apply_station_query_result (r : StationVersionRecord) (result : result string StationVersionResponse)
    (now : string) : StationVersionRecord :=
  match result with
  | Ok (RespDomestic payload communication plc) =>
      let mismatch := negb (bool_decide (configured_module_type r = Domestic)) in
      {| configured_module_type := configured_module_type r; detected_module_type := Domestic;
         type_mismatch := mismatch; communication_module_version := display_version communication;
         communication_module_version_raw := Some communication; plc_version := display_version plc;
         plc_version_raw := Some plc; version_payload := hex_payload payload;
         version_state := if mismatch then "type_mismatch" else "success";
         last_version_attempt_at := last_version_attempt_at r; last_version_success_at := Some now;
         last_version_error := ""; consecutive_failures := 0; stale := false |}
  | Ok (RespLegacyRussian payload) =>
      let mismatch := negb (bool_decide (configured_module_type r = LegacyRussian)) in
      {| configured_module_type := configured_module_type r; detected_module_type := LegacyRussian;
         type_mismatch := mismatch; communication_module_version := "";
         communication_module_version_raw := None; plc_version := ""; plc_version_raw := None;
         version_payload := hex_payload payload;
         version_state := if mismatch then "type_mismatch" else "unsupported";
         last_version_attempt_at := last_version_attempt_at r; last_version_success_at := Some now;
         last_version_error := if mismatch then "configured domestic station returned the legacy all-FF marker" else "";
         consecutive_failures := 0; stale := false |}
  | Err message =>
      set_version_state r "failed" (last_version_attempt_at r) (last_version_success_at r) message
        (Z.min (consecutive_failures r + 1) u32_max) (has_last_version r)
  end.

Definition report_station_query_result (s : OpsState) (port : string) (id : Z)
    (result : result string StationVersionResponse) (now : string)
    (persisted : StoredStationState -> Prelude.result string ()) : OpsState * Prelude.result string () :=
  let device := pretty id in
  match
    (revision ← map_err (fun e => oe_code e +:+ ": " +:+ oe_message e) (increment_revision (ss_revision (os_station_saved s)));
     e ← ok_or "station disappeared while query was running" (station_entry s port device);
     let r := apply_station_query_result (se_record e) result now in
     _ ← map_err (fun e => "could not persist station version result: " +:+ e)
           (persisted (with_station (os_station_saved s) revision port device r));
     Ok (revision, r))
  with
  | Err e => (s, Err e)
  | Ok (revision, r) => (save_station s revision port device r, Ok ())
  end.

(** [fail_inflight_station_queries]: all of a port's running queries at once. *)
Definition inflight (e : StoredStationEntry) : bool := String.eqb (version_state (se_record e)) "querying".
Definition interrupted (message now : string) (e : StoredStationEntry) : StoredStationEntry :=
  if inflight e then {| se_fingerprint := se_fingerprint e;
                        se_record := apply_station_query_result (se_record e) (Err message) now |}
  else e.

Definition fail_inflight_station_queries (s : OpsState) (port message now : string)
    (persisted : StoredStationState -> result string ()) : OpsState :=
  match ss_ports (os_station_saved s) !! port with
  | None => s
  | Some stations =>
      if bool_decide (map_Forall (fun _ e => inflight e = false) stations) then s
      else
        match u64_checked_add (ss_revision (os_station_saved s)) 1 with
        | None => s
        | Some revision =>
            let next := {| ss_revision := revision;
                           ss_ports := <[port := interrupted message now <$> stations]> (ss_ports (os_station_saved s)) |} in
            match persisted next with
            | Err _ => s
            | Ok _ =>
                alter_port (set_station_saved s next) port (fun p => set_devices
                  ((fun d => match stations !! dv_device_id d with
                             | Some e => if inflight e then set_station (se_record (interrupted message now e)) d else d
                             | None => d
                             end) <$> pt_devices p) p)
            end
        end
  end.

Section StationRequests.
Context (shutdown : bool) (persisted : StoredStationState -> result string ()) (sent : bool) (senders : gset string).

Definition station_args (request : Request) : result OperationError (string * string * Z) :=
  port ← string_arg request "port_id";
  device ← string_arg request "device_id";
  id ← ok_or (op_error "invalid_request" "invalid device ID") (parse_u8 device);
  Ok (port, device, id).

(** The checks both requests make under the lock. *)
Definition station_checks (s : OpsState) (request : Request) (port device : string) (query : bool)
    : result OperationError () :=
  expected ← string_arg request "expected_revision";
  expected_station ← string_arg request "expected_station_revision";
  if negb (bool_decide (port ∈ senders)) then Err (op_error "operation_failed" "serial worker is unavailable")
  else if shutdown
  then Err (with_revision (op_error "operation_failed" "gateway is shutting down") (pretty (ss_revision (os_station_saved s))))
  else validate_station_request s expected expected_station port device query.

Definition set_device_module_type (s : OpsState) (request : Request) : OpsState * result OperationError Begun :=
  match
    ('(port, device, id) ← station_args request;
     text ← string_arg request "module_type";
     module_type ← map_err (op_error "invalid_request") (module_type_from_str text);
     _ ← station_checks s request port device false;
     Ok (port, device, id, module_type))
  with
  | Err e => (s, Err e)
  | Ok (port, device, id, module_type) =>
      let current := match os_ports s !! port ≫= fun p => find_device device (pt_devices p) with
                     | Some d => configured_module_type (dv_station_version d)
                     | None => Unknown
                     end in
      if bool_decide (current = module_type) then (s, Ok Unchanged)
      else
        let r := reset_for_configured_type station_version_default module_type in
        match
          (revision ← increment_revision (ss_revision (os_station_saved s));
           _ ← map_err (fun e => op_error "persistence_failed" ("could not save station version settings: " +:+ e))
                 (persisted (with_station (os_station_saved s) revision port device r));
           Ok revision)
        with
        | Err e => (s, Err e)
        | Ok revision =>
            let s := save_station s revision port device r in
            queue_control sent s port (StationModuleTypeSetting id module_type) revision
              "worker channel closed; module type is saved and will apply on restart"
              (op_error "operation_failed" "module type saved, but serial worker is unavailable")
        end
  end.

(** [now] is when the attempt is recorded; a closed channel reports the query
    as failed ([reported] is how that is saved). *)
Definition query_device_version (s : OpsState) (request : Request) (now : string)
    (reported : StoredStationState -> result string ())
    : OpsState * result OperationError Begun :=
  match
    ('(port, device, id) ← station_args request;
     _ ← station_checks s request port device true;
     Ok (port, device, id))
  with
  | Err e => (s, Err e)
  | Ok (port, device, id) =>
      match mark_station_query_pending s port device now persisted with
      | (s, Err e) => (s, Err e)
      | (s, Ok revision) =>
          let '(s, r) := queue_control sent s port (QueryStationVersion id) revision "serial worker channel closed"
                           (op_error "operation_failed" "serial worker is unavailable") in
          if sent then (s, r)
          else ((report_station_query_result s port id (Err "serial worker is unavailable") now reported).1, r)
      end
  end.
End StationRequests.

(** [begin_automatic_station_query], once the gate has admitted it. *)
Definition begin_automatic_station_query (s : OpsState) (shutdown : bool) (port : string) (id : Z) (now : string)
    (persisted : StoredStationState -> result string ()) : OpsState * result OperationError bool :=
  if shutdown then (s, Ok false)
  else
    match os_ports s !! port ≫= fun p => d ← find_device (pretty id) (pt_devices p); Some (p, d) with
    | None => (s, Ok false)
    | Some (p, d) =>
        let r := dv_station_version d in
        if negb (pt_enabled p) || negb (pt_applied_enabled p) || negb (pt_open p) || negb (dv_read_enabled d)
           || negb (dv_applied_read_enabled d) || negb (bool_decide (configured_module_type r = Domestic))
           || String.eqb (version_state r) "querying" || found_legacy r
        then (s, Ok false)
        else
          let '(s, q) := mark_station_query_pending s port (pretty id) now persisted in (s, (fun _ => true) <$> q)
    end.

(** ** Reports of the worker *)

Record DeviceReport := { dr_id : Z; dr_read_enabled : bool; dr_communication_ok : bool; dr_last_data_at : option string }.

Definition report_device (stations : gmap string StoredStationEntry) (ds : list DeviceSnapshot) (r : DeviceReport)
    : list DeviceSnapshot :=
  update_device (pretty (dr_id r)) (fun d =>
    let '(saved_stale, has_version) :=
      match stations !! dv_device_id d with
      | Some e => (stale (se_record e), has_last_version (se_record e))
      | None => (false, false)
      end in
    let v := dv_station_version d in
    {| dv_device_id := dv_device_id d; dv_name := dv_name d; dv_read_enabled := dv_read_enabled d;
       dv_applied_read_enabled := dr_read_enabled r; dv_communication_ok := dr_communication_ok r;
       dv_last_data_at := dr_last_data_at r;
       dv_station_version := set_version_state v (version_state v) (last_version_attempt_at v) (last_version_success_at v)
         (last_version_error v) (consecutive_failures v)
         (saved_stale || (negb (dr_communication_ok r) && has_version)) |}) ds.

Definition report_runtime (s : OpsState) (port : string) (enabled open : bool) (devices : list DeviceReport) : OpsState :=
  let stations := default ∅ (ss_ports (os_station_saved s) !! port) in
  alter_port s port (fun p => set_runtime enabled open (foldl (report_device stations) (pt_devices p) devices) p).

Definition complete_control (s : OpsState) (port : string) (revision : Z) (outcome : result string ()) : OpsState :=
  if bool_decide (os_pending s !! port = Some revision) then
    set_ports s (alter (set_control_state false (match outcome with Ok _ => None | Err e => Some e end)) port (os_ports s))
      (delete port (os_pending s))
  else s.

Definition control_is_current (s : OpsState) (port : string) (revision : Z) : bool :=
  bool_decide (os_pending s !! port = Some revision).

Definition fail_pending_controls (s : OpsState) (port message : string) : OpsState :=
  set_ports s (alter (set_control_state false (Some message)) port (os_ports s)) (delete port (os_pending s)).

Definition worker_stopped (s : OpsState) (port : string) : OpsState :=
  set_ports s
    (alter (fun p =>
       set_control_state false (Some "serial worker stopped")
         (set_runtime false false
            ((fun d =>
                let v := dv_station_version d in
                {| dv_device_id := dv_device_id d; dv_name := dv_name d; dv_read_enabled := dv_read_enabled d;
                   dv_applied_read_enabled := false; dv_communication_ok := false;
                   dv_last_data_at := dv_last_data_at d;
                   dv_station_version := set_version_state v (version_state v) (last_version_attempt_at v)
                     (last_version_success_at v) (last_version_error v) (consecutive_failures v)
                     (stale v || has_last_version v) |}) <$> pt_devices p) p)) port (os_ports s))
    (delete port (os_pending s)).

(** ** Histories

    Requests, permits and worker reports in any order; the outcome of every
    write, the channel and the gate are arbitrary.  [ow_permits] are the
    ports of the permits that are held. *)

Record OpsWorld := { ow_state : OpsState; ow_permits : list string }.

Inductive ops_step : OpsWorld -> OpsWorld -> Prop :=
| ops_admit w g sh port g' s : admit_command g (ow_state w) sh port = (g', s, Ok ()) ->
    ops_step w {| ow_state := s; ow_permits := port :: ow_permits w |}
| ops_release w g port permits : ow_permits w ≡ₚ port :: permits ->
    ops_step w {| ow_state := (drop_command_permit g (ow_state w) port).2; ow_permits := permits |}
| ops_control w sh per sent senders request device s r :
    set_control sh per sent (ow_state w) senders request device = (s, r) ->
    ops_step w {| ow_state := s; ow_permits := ow_permits w |}
| ops_module w sh per sent senders request s r :
    set_device_module_type sh per sent senders (ow_state w) request = (s, r) ->
    ops_step w {| ow_state := s; ow_permits := ow_permits w |}
| ops_query w sh per sent senders request now rep s r :
    query_device_version sh per sent senders (ow_state w) request now rep = (s, r) ->
    ops_step w {| ow_state := s; ow_permits := ow_permits w |}
| ops_automatic w sh port id now per s r :
    begin_automatic_station_query (ow_state w) sh port id now per = (s, r) ->
    ops_step w {| ow_state := s; ow_permits := ow_permits w |}
| ops_result w port id result now per s r :
    report_station_query_result (ow_state w) port id result now per = (s, r) ->
    ops_step w {| ow_state := s; ow_permits := ow_permits w |}
| ops_interrupted w port message now per :
    ops_step w {| ow_state := fail_inflight_station_queries (ow_state w) port message now per; ow_permits := ow_permits w |}
| ops_runtime w port enabled open devices :
    ops_step w {| ow_state := report_runtime (ow_state w) port enabled open devices; ow_permits := ow_permits w |}
| ops_complete w port revision outcome :
    ops_step w {| ow_state := complete_control (ow_state w) port revision outcome; ow_permits := ow_permits w |}
| ops_fail_pending w port message :
    ops_step w {| ow_state := fail_pending_controls (ow_state w) port message; ow_permits := ow_permits w |}
| ops_stopped w port :
    ops_step w {| ow_state := worker_stopped (ow_state w) port; ow_permits := ow_permits w |}.

(** ** One operation at a time per port *)

Definition port_view (p : PortSnapshot) : Z * bool := (pt_pending_commands p, pt_control_pending p).
Definition views (s : OpsState) : gmap string (Z * bool) := port_view <$> os_ports s.

Definition held (port : string) (permits : list string) : Z := Z.of_nat (length (filter (fun q => q = port) permits)).

Record exclusive (v : gmap string (Z * bool)) (pending : gmap string Z) (permits : list string) : Prop := {
  ex_ports : forall port n (c : bool), v !! port = Some (n, c) ->
    n = held port permits /\ n + (if c then 1 else 0) <= 1 /\ c = bool_decide (is_Some (pending !! port));
  ex_pending : forall port, is_Some (pending !! port) -> is_Some (v !! port);
  ex_permits : forall port, port ∈ permits -> is_Some (v !! port)
}.
Definition ops_ok (w : OpsWorld) : Prop := exclusive (views (ow_state w)) (os_pending (ow_state w)) (ow_permits w).

(** Changes that neither queue nor end a control nor touch the permits. *)
Definition quiet (s s' : OpsState) : Prop := views s' = views s /\ os_pending s' = os_pending s.

#[export] Instance quiet_preorder : PreOrder quiet.
Proof. split; [by intros|]. intros a b c [? ?] [? ?]. split; congruence. Qed.

Lemma views_alter s port f :
  (forall p, port_view (f p) = port_view p) -> port_view <$> alter f port (os_ports s) = views s.
Proof.
  intros Hf. apply map_eq. intros i. unfold views. rewrite !lookup_fmap, lookup_alter.
  case_decide; [|done]. subst. by destruct (os_ports s !! i); simpl; [rewrite Hf|].
Qed.

Lemma quiet_alter_port s port f : (forall p, port_view (f p) = port_view p) -> quiet s (alter_port s port f).
Proof. intros Hf. split; [|done]. by apply views_alter. Qed.

Lemma quiet_save_station s revision port device r : quiet s (save_station s revision port device r).
Proof. unfold save_station. etransitivity; [|by apply quiet_alter_port]. done. Qed.

Lemma quiet_ok w s : quiet (ow_state w) s -> ops_ok w -> ops_ok {| ow_state := s; ow_permits := ow_permits w |}.
Proof. intros [Hv Hp] Hok. unfold ops_ok. simpl. by rewrite Hv, Hp. Qed.

Lemma quiet_mark s port device now per s' r :
  mark_station_query_pending s port device now per = (s', r) -> quiet s s'.
Proof.
  unfold mark_station_query_pending. destruct (_ ≫= _) as [[revision rec]|e]; intros [= <- <-]; [|done].
  apply quiet_save_station.
Qed.

Lemma quiet_result s port id res now per s' r :
  report_station_query_result s port id res now per = (s', r) -> quiet s s'.
Proof.
  unfold report_station_query_result. destruct (_ ≫= _) as [[revision rec]|e]; intros [= <- <-]; [|done].
  apply quiet_save_station.
Qed.

Lemma quiet_interrupted s port message now per : quiet s (fail_inflight_station_queries s port message now per).
Proof.
  unfold fail_inflight_station_queries. repeat case_match; try done.
  etransitivity; [|by apply quiet_alter_port]. done.
Qed.

(** Controls and permits, on the views. *)
Definition set_flag (c : bool) (v : Z * bool) : Z * bool := (v.1, c).

Lemma views_control (m : gmap string PortSnapshot) port c error :
  port_view <$> alter (set_control_state c error) port m = alter (set_flag c) port (port_view <$> m).
Proof.
  apply map_eq. intros i. rewrite !lookup_fmap, !lookup_alter, !lookup_fmap.
  repeat case_decide; subst; try done. by destruct (m !! i).
Qed.

Lemma alter_is_Some {A} (f : A -> A) (m : gmap string A) i j : is_Some (alter f i m !! j) <-> is_Some (m !! j).
Proof. rewrite lookup_alter. case_decide; [subst; apply fmap_is_Some|done]. Qed.

Lemma exclusive_queue v pending permits port revision :
  v !! port = Some (0, false) -> exclusive v pending permits ->
  exclusive (alter (set_flag true) port v) (<[port := revision]> pending) permits.
Proof.
  intros Hv [H1 H2 H3]. split.
  - intros q n c. rewrite lookup_alter. case_decide as Hq; [subst|].
    + rewrite Hv. intros [= <- <-]. rewrite lookup_insert_eq. destruct (H1 _ _ _ Hv) as (? & _ & _). by split_and!.
    + rewrite lookup_insert_ne by done. apply H1.
  - intros q. rewrite alter_is_Some. destruct (decide (port = q)) as [<-|]; [by rewrite Hv|].
    rewrite lookup_insert_ne by done. apply H2.
  - intros q. rewrite alter_is_Some. apply H3.
Qed.

Lemma exclusive_end v pending permits port :
  exclusive v pending permits -> exclusive (alter (set_flag false) port v) (delete port pending) permits.
Proof.
  intros [H1 H2 H3]. split.
  - intros q n c. rewrite lookup_alter. case_decide as Hq; [subst|].
    + intros ([m b] & Hv & [= -> ->])%fmap_Some. rewrite lookup_delete_eq. destruct (H1 _ _ _ Hv) as (-> & Hle & _).
      split_and!; [done|destruct b; simpl; lia|done].
    + rewrite lookup_delete_ne by done. apply H1.
  - intros q. rewrite alter_is_Some. destruct (decide (port = q)) as [<-|]; [by rewrite lookup_delete_eq; intros []|].
    rewrite lookup_delete_ne by done. apply H2.
  - intros q. rewrite alter_is_Some. apply H3.
Qed.

Lemma queue_control_ok sent s0 s port c revision text err s' r permits p :
  ops_ok {| ow_state := s0; ow_permits := permits |} -> quiet s0 s ->
  os_ports s0 !! port = Some p -> busy p = false ->
  queue_control sent s port c revision text err = (s', r) -> ops_ok {| ow_state := s'; ow_permits := permits |}.
Proof.
  intros Hok [Hqv Hqp] Hp Hb E. unfold ops_ok in *. simpl in *. rewrite <- Hqv, <- Hqp in Hok.
  assert (Hv : views s !! port = Some (0, false)).
  { rewrite Hqv. unfold views. rewrite lookup_fmap, Hp. simpl. unfold port_view, busy in *.
    apply orb_false_iff in Hb as [-> H0%negb_false_iff%Z.eqb_eq]. by rewrite H0. }
  pose proof (exclusive_queue _ _ _ _ revision Hv Hok) as Hq. unfold queue_control in E.
  destruct sent; injection E as <- <-; unfold views; simpl; rewrite !views_control; [done|].
  replace (delete port (os_pending s)) with (delete port (<[port := revision]> (os_pending s)))
    by apply delete_insert_eq.
  by apply exclusive_end.
Qed.

(** What [set_control] does when it does anything: an idle port, the current
    revision, the next one written. *)
Definition show_setting (device_id : option string) (enabled : bool) (p : PortSnapshot) : PortSnapshot :=
  match device_id with
  | Some id => set_devices (update_device id (set_read_enabled enabled) (pt_devices p)) p
  | None => set_enabled_flag enabled p
  end.

Lemma set_control_cases sh per sent s senders request device s' r :
  set_control sh per sent s senders request device = (s', r) ->
  (s' = s /\ exists e, r = Err e) \/
  exists port p id enabled next c text err,
    os_ports s !! port = Some p /\ busy p = false /\ sh = false /\
    string_arg request "expected_revision" = Ok (pretty (so_revision (os_saved s))) /\
    (forall i, id = Some i -> is_Some (find_device i (pt_devices p))) /\
    next = {| so_revision := so_revision (os_saved s) + 1;
              so_ports := alter (change_stored id enabled) port (so_ports (os_saved s)) |} /\
    so_revision next <= u64_max /\ per next = Ok () /\
    queue_control sent (alter_port (set_saved s next) port (show_setting id enabled)) port c (so_revision next) text err = (s', r).
Proof.
  unfold set_control. intros H.
  match type of H with match ?x with _ => _ end = _ => destruct x as [[[[port id] enabled] expected]|e] eqn:Ea end;
    [|injection H as <- <-; left; eauto].
  apply bind_Ok in Ea as (port' & Hport & Ea). apply bind_Ok in Ea as (id' & Hid & Ea).
  apply bind_Ok in Ea as (en & Hen & Ea). apply bind_Ok in Ea as (ex & Hex & Ea). injection Ea as -> -> -> ->.
  destruct (negb _); [injection H as <- <-; left; eauto|]. destruct sh; [injection H as <- <-; left; eauto|].
  destruct (String.eqb_spec expected (pretty (so_revision (os_saved s)))) as [->|]; [|injection H as <- <-; left; eauto].
  cbn [negb] in H.
  destruct (os_ports s !! port) as [p|] eqn:Hp; [|injection H as <- <-; left; eauto].
  destruct (busy p) eqn:Hb; [injection H as <- <-; left; eauto|].
  match type of H with match ?x with _ => _ end = _ => destruct x as [[c next]|e] eqn:Ec end;
    [|injection H as <- <-; left; eauto].
  apply bind_Ok in Ec as (c' & Hc & Ec). apply bind_Ok in Ec as (rev & Hrev%ok_or_Ok & Ec).
  apply bind_Ok in Ec as ([] & Hper & Ec). injection Ec as -> <-.
  unfold u64_checked_add in Hrev. destruct (Z.leb_spec (so_revision (os_saved s) + 1) u64_max); [|done].
  injection Hrev as <-. right. eexists port, p, id, enabled, _, c, _, _. split_and!; [done|done|done|done| |done|done| |exact H].
  - intros i ->. destruct (find_device i (pt_devices p)); [by eexists|done].
  - destruct (per _) as [[]|]; [done|]. done.
Qed.

Lemma station_checks_idle sh senders s request port device query :
  station_checks sh senders s request port device query = Ok () ->
  exists p, os_ports s !! port = Some p /\ busy p = false /\ is_Some (find_device device (pt_devices p)) /\
    string_arg request "expected_station_revision" = Ok (pretty (ss_revision (os_station_saved s))).
Proof.
  unfold station_checks. intros H. apply bind_Ok in H as (ex & Hex & H). apply bind_Ok in H as (exs & Hexs & H).
  destruct (negb _); [done|]. destruct sh; [done|]. unfold validate_station_request in H.
  destruct (negb _); [done|]. destruct (String.eqb_spec exs (pretty (ss_revision (os_station_saved s)))) as [->|]; [|done].
  cbn [negb] in H. apply bind_Ok in H as (p & Hp%ok_or_Ok & H). destruct (busy p) eqn:Hb; [done|].
  apply bind_Ok in H as (d & Hd%ok_or_Ok & H). exists p. rewrite Hd. by split_and!.
Qed.

Lemma module_type_cases sh per sent senders s request s' r :
  set_device_module_type sh per sent senders s request = (s', r) ->
  s' = s \/ exists port p device module_type c text err,
    os_ports s !! port = Some p /\ busy p = false /\
    string_arg request "expected_station_revision" = Ok (pretty (ss_revision (os_station_saved s))) /\
    let rec := reset_for_configured_type station_version_default module_type in
    let revision := ss_revision (os_station_saved s) + 1 in
    revision <= u64_max /\ per (with_station (os_station_saved s) revision port device rec) = Ok () /\
    queue_control sent (save_station s revision port device rec) port c revision text err = (s', r).
Proof.
  unfold set_device_module_type. intros H.
  match type of H with match ?x with _ => _ end = _ => destruct x as [[[[port device] id] mt]|e] eqn:Ea end;
    [|injection H as <- <-; by left].
  apply bind_Ok in Ea as ([[port' device'] id'] & _ & Ea). apply bind_Ok in Ea as (text & _ & Ea).
  apply bind_Ok in Ea as (mt' & _ & Ea). apply bind_Ok in Ea as ([] & Hck & Ea). injection Ea as -> -> -> ->.
  apply station_checks_idle in Hck as (p & Hp & Hb & _ & Hex).
  case_bool_decide; [injection H as <- <-; by left|].
  match type of H with match ?x with _ => _ end = _ => destruct x as [rev|e] eqn:Ec end;
    [|injection H as <- <-; by left].
  apply bind_Ok in Ec as (rev' & Hrev%ok_or_Ok & Ec). apply bind_Ok in Ec as ([] & Hper & Ec). injection Ec as ->.
  unfold u64_checked_add in Hrev. destruct (Z.leb_spec (ss_revision (os_station_saved s) + 1) u64_max); [|done].
  injection Hrev as <-. right. eexists port, p, device, mt, _, _, _. split_and!; [done|done|done|done| |exact H].
  by destruct (per _) as [[]|].
Qed.

Lemma show_setting_view id enabled p : port_view (show_setting id enabled p) = port_view p.
Proof. by destruct id. Qed.

Lemma control_quiet s next port id enabled :
  quiet s (alter_port (set_saved s next) port (show_setting id enabled)).
Proof. etransitivity; [|apply quiet_alter_port; apply show_setting_view]. done. Qed.

Lemma queries_ok sh per sent senders s request now rep s' r permits :
  ops_ok {| ow_state := s; ow_permits := permits |} ->
  query_device_version sh per sent senders s request now rep = (s', r) ->
  ops_ok {| ow_state := s'; ow_permits := permits |}.
Proof.
  intros Hok. unfold query_device_version. intros H.
  match type of H with match ?x with _ => _ end = _ => destruct x as [[[port device] id]|e] eqn:Ea end;
    [|by injection H as <- <-].
  apply bind_Ok in Ea as ([[port' device'] id'] & _ & Ea). apply bind_Ok in Ea as ([] & Hck & Ea). injection Ea as -> -> ->.
  apply station_checks_idle in Hck as (p & Hp & Hb & _).
  destruct (mark_station_query_pending s port device now per) as [s1 [rev|e]] eqn:Em; apply quiet_mark in Em.
  2: { injection H as <- <-. by apply (quiet_ok {| ow_state := s; ow_permits := permits |}). }
  destruct (queue_control sent s1 port _ rev _ _) as [s2 r2] eqn:Eq.
  pose proof (queue_control_ok _ _ _ _ _ _ _ _ _ _ _ _ Hok Em Hp Hb Eq) as Hok2.
  destruct sent; [by injection H as <- <-|]. injection H as <- <-.
  destruct (report_station_query_result s2 port id _ now rep) as [s3 r3] eqn:Er. apply quiet_result in Er.
  by apply (quiet_ok {| ow_state := s2; ow_permits := permits |}).
Qed.

Lemma held_cons port q permits : held port (q :: permits) = held port permits + (if decide (q = port) then 1 else 0).
Proof. unfold held. rewrite filter_cons. case_decide; simpl length; lia. Qed.

Lemma views_permit (m : gmap string PortSnapshot) port (f : Z -> Z) :
  port_view <$> alter (fun p => set_pending_commands (f (pt_pending_commands p)) p) port m =
  alter (fun v => (f v.1, v.2)) port (port_view <$> m).
Proof.
  apply map_eq. intros i. rewrite !lookup_fmap, !lookup_alter, !lookup_fmap.
  repeat case_decide; subst; try done. by destruct (m !! i).
Qed.

Lemma exclusive_admit v pending permits port :
  v !! port = Some (0, false) -> exclusive v pending permits ->
  exclusive (<[port := (1, false)]> v) pending (port :: permits).
Proof.
  intros Hv [H1 H2 H3]. destruct (H1 _ _ _ Hv) as (Hh & _ & Hc). split.
  - intros q n c. rewrite held_cons. destruct (decide (port = q)) as [<-|Hne].
    + rewrite lookup_insert_eq. intros [= <- <-]. split_and!; [lia|lia|done].
    + rewrite lookup_insert_ne by done. intros Hq. rewrite Z.add_0_r. by apply H1.
  - intros q Hq. apply H2 in Hq. rewrite lookup_insert. by case_decide.
  - intros q. rewrite lookup_insert. case_decide; [done|]. intros [->|Hq]%elem_of_cons; [done|by apply H3].
Qed.

Lemma exclusive_release v pending permits permits' port :
  permits ≡ₚ port :: permits' -> exclusive v pending permits ->
  exclusive (alter (fun x => (Z.max (x.1 - 1) 0, x.2)) port v) pending permits'.
Proof.
  intros Hp [H1 H2 H3].
  assert (Hh : forall q, held q permits = held q permits' + (if decide (port = q) then 1 else 0)).
  { intros q. rewrite <- held_cons. unfold held. by rewrite Hp. }
  split.
  - intros q n c. rewrite lookup_alter. case_decide as Hq; [subst|].
    + intros ([m b] & Hv & [= -> ->])%fmap_Some. destruct (H1 _ _ _ Hv) as (Hm & Hle & Hc).
      specialize (Hh q). rewrite decide_True in Hh by done. unfold held in *. simpl.
      split_and!; [lia|destruct b; lia|done].
    + intros Hv. destruct (H1 _ _ _ Hv) as (Hm & ? & ?). specialize (Hh q). rewrite decide_False in Hh by done.
      split_and!; [lia|done|done].
  - intros q Hq. rewrite alter_is_Some. by apply H2.
  - intros q Hq. rewrite alter_is_Some. apply H3. rewrite Hp. by right.
Qed.

Lemma ops_step_ok w w' : ops_step w w' -> ops_ok w -> ops_ok w'.
Proof.
  intros Hs Hok. destruct Hs as
    [w g sh port g' s E|w g port permits Hp|w sh per sent senders request device s r E|w sh per sent senders request s r E
    |w sh per sent senders request now rep s r E|w sh port id now per s r E|w port id res now per s r E
    |w port message now per|w port enabled open devices|w port revision outcome|w port message|w port].
  - unfold admit_command in E. destruct (admit_mutation g) as [g1 [[]|e]]; [|done].
    unfold admit_on_port in E. destruct sh; [done|]. destruct (os_ports (ow_state w) !! port) as [p|] eqn:Hp; [|done].
    destruct (_ || _) eqn:Hb in E; [done|]. destruct (_ || _) in E; [done|]. injection E as _ <-.
    apply orb_false_iff in Hb as [Hc Hn%Z.ltb_ge]. unfold ops_ok, views in *. simpl. rewrite fmap_insert.
    assert (Hv : (port_view <$> os_ports (ow_state w)) !! port = Some (pt_pending_commands p, false)).
    { rewrite lookup_fmap, Hp. simpl. unfold port_view. by rewrite Hc. }
    destruct (ex_ports _ _ _ Hok _ _ _ Hv) as (Hh & _ & _).
    assert (H0 : pt_pending_commands p = 0) by (unfold held in Hh; lia).
    unfold port_view at 1. simpl. rewrite H0, Hc in *. by apply exclusive_admit.
  - unfold ops_ok, views in *. simpl. rewrite (views_permit _ _ (fun n => Z.max (n - 1) 0)).
    by eapply exclusive_release.
  - apply set_control_cases in E as [[-> _]|(p & q & id & en & next & c & t & er & Hp & Hb & _ & _ & _ & _ & _ & _ & E)].
    + by destruct w.
    + eapply queue_control_ok; [|apply control_quiet|done|done|exact E]. by destruct w.
  - apply module_type_cases in E as [->|(p & q & dv & mt & c & t & er & Hp & Hb & _ & _ & _ & E)]; [by destruct w|].
    eapply queue_control_ok; [|apply quiet_save_station|done|done|exact E]. by destruct w.
  - eapply queries_ok; [|exact E]. by destruct w.
  - apply quiet_ok; [|done]. unfold begin_automatic_station_query in E. destruct sh; [by injection E as <- <-|].
    destruct (_ ≫= _) as [[p d]|]; [|by injection E as <- <-]. destruct (_ || _); [by injection E as <- <-|].
    destruct (mark_station_query_pending _ _ _ _ _) as [s1 q] eqn:Em. injection E as <- <-. by eapply quiet_mark.
  - apply quiet_ok; [|done]. by eapply quiet_result.
  - apply quiet_ok; [|done]. apply quiet_interrupted.
  - apply quiet_ok; [|done]. by apply quiet_alter_port.
  - unfold complete_control. case_bool_decide; [|by destruct w].
    unfold ops_ok, views in *. simpl. rewrite views_control. by apply exclusive_end.
  - unfold ops_ok, views in *. simpl. rewrite views_control. by apply exclusive_end.
  - unfold ops_ok, views in *. simpl.
    match goal with |- exclusive (port_view <$> alter ?f port ?m) _ _ =>
      replace (port_view <$> alter f port m) with (alter (set_flag false) port (port_view <$> m)) end.
    + by apply exclusive_end.
    + apply map_eq. intros i. rewrite !lookup_fmap, !lookup_alter, !lookup_fmap.
      repeat case_decide; subst; try done. by destruct (os_ports (ow_state w) !! i).
Qed.

(** ** Start-up *)

(** A fresh port: nothing runs, and what is shown is what is saved. *)
Definition shown (s : OpsState) : Prop := forall port p, os_ports s !! port = Some p ->
  NoDup (dv_device_id <$> pt_devices p) /\
  exists st, so_ports (os_saved s) !! port = Some st /\ pt_enabled p = so_enabled st /\
    forall d, d ∈ pt_devices p -> so_device_read_enabled st !! dv_device_id d = Some (dv_read_enabled d).

Record fresh (s : OpsState) : Prop := {
  fr_views : forall port v, views s !! port = Some v -> v = (0, false);
  fr_pending : os_pending s = ∅;
  fr_shown : shown s
}.

Lemma startup_devices_ok sha port u ds u' :
  (forall id d, up_devices u !! id = Some d -> dv_device_id d = id /\ up_reads u !! id = Some (dv_read_enabled d)) ->
  startup_devices sha port u ds = Ok u' ->
  forall id d, up_devices u' !! id = Some d -> dv_device_id d = id /\ up_reads u' !! id = Some (dv_read_enabled d).
Proof.
  revert u. induction ds as [|d ds IH]; intros u Hu H; cbn [startup_devices] in H; [by injection H as <-|].
  apply bind_Ok in H as (u1 & H1 & H). eapply IH; [|exact H]. unfold startup_device in H1.
  case_bool_decide as Hd; [done|]. injection H1 as <-. simpl. intros id d' [[<- <-]|[Hne Hd']]%lookup_insert_Some.
  - simpl. by rewrite lookup_insert_eq.
  - rewrite lookup_insert_ne by done. by apply Hu.
Qed.

Lemma in_key_order_elem m d : d ∈ in_key_order m -> exists id, m !! id = Some d.
Proof. unfold in_key_order. intros (k & _ & Hk)%list_elem_of_omap. by exists k. Qed.

Lemma in_key_order_nodup m :
  (forall id d, m !! id = Some d -> dv_device_id d = id) -> NoDup (dv_device_id <$> in_key_order m).
Proof.
  intros Hm. unfold in_key_order.
  assert (Hn : NoDup (sort_strings (map_to_list m).*1)).
  { rewrite sort_strings_perm. apply NoDup_fst_map_to_list. }
  revert Hn. induction (sort_strings _) as [|k ks IH]; intros Hn; [constructor|].
  apply NoDup_cons in Hn as [Hk Hn]. simpl. destruct (m !! k) as [d|] eqn:Ed; simpl; [|by apply IH].
  constructor; [|by apply IH]. rewrite (Hm _ _ Ed). intros (d' & Heq & (k' & Hk' & Hd')%list_elem_of_omap)%list_elem_of_fmap.
  apply Hm in Hd' as Hid. congruence.
Qed.

Lemma startup_port_fresh sha s port ds s' : fresh s -> startup_port sha s port ds = Ok s' -> fresh s'.
Proof.
  intros [Hv Hp Hs] H. unfold startup_port in H. case_bool_decide as Hnew; [done|].
  apply bind_Ok in H as (u & Hu & [= <-]). split; simpl.
  - unfold views in *. simpl. rewrite fmap_insert. intros q v [[_ <-]|[_ Hq]]%lookup_insert_Some; [done|by eapply Hv].
  - done.
  - intros q p. simpl. intros [[<- <-]|[Hne Hq]]%lookup_insert_Some; simpl.
    + assert (Hall : forall id d, up_devices u !! id = Some d -> dv_device_id d = id /\ up_reads u !! id = Some (dv_read_enabled d)).
      { eapply startup_devices_ok; [|exact Hu]. intros id d Hd. simpl in Hd. by rewrite lookup_empty in Hd. }
      split; [apply in_key_order_nodup; intros id d Hd; by apply Hall|].
      eexists. rewrite lookup_insert_eq. split_and!; [done|done|]. simpl.
      intros d (id & Hd)%in_key_order_elem. destruct (Hall _ _ Hd) as [<- ?]. done.
    + rewrite lookup_insert_ne by done. by apply Hs.
Qed.

Lemma startup_ports_fresh sha s ports s' : fresh s -> startup_ports sha s ports = Ok s' -> fresh s'.
Proof.
  revert s. induction ports as [|[port ds] ports IH]; intros s Hs H; cbn [startup_ports] in H; [by injection H as <-|].
  apply bind_Ok in H as (s2 & H2 & H). eapply IH; [|exact H]. by eapply startup_port_fresh.
Qed.

Lemma fresh_empty saved station : fresh {| os_saved := saved; os_station_saved := station; os_ports := ∅; os_pending := ∅ |}.
Proof.
  split; simpl; [|done|].
  - intros ? ?. unfold views. simpl. by rewrite fmap_empty, lookup_empty.
  - intros ? ?. simpl. by rewrite lookup_empty.
Qed.

Lemma startup_fresh sha saved station ports per s : startup sha saved station ports per = Ok s -> fresh s.
Proof.
  intros H. unfold startup in H. apply bind_Ok in H as (s1 & H1 & H).
  apply startup_ports_fresh in H1 as Hf; [|apply fresh_empty].
  assert (Hset : forall st, fresh (set_station_saved s1 st)) by (intros st; by destruct Hf).
  case_bool_decide; [injection H as <-; apply Hset|]. destruct (u64_checked_add _ _); [|done].
  apply bind_Ok in H as (u & _ & [= <-]). apply Hset.
Qed.

Lemma fresh_ok s : fresh s -> ops_ok {| ow_state := s; ow_permits := [] |}.
Proof.
  intros [Hv Hp _]. split; simpl.
  - intros port n c Hport. apply Hv in Hport as [= -> ->]. rewrite Hp, lookup_empty. by split_and!.
  - rewrite Hp. intros port [x Hx]. by rewrite lookup_empty in Hx.
  - intros port Hin. by apply elem_of_nil in Hin.
Qed.

(** C19: one operation at a time on a physical port. Start the operations
    state from any saved settings and configuration, and let requests, command
    admissions, releases of permits, worker reports, restarts of the worker
    and failing writes follow in any order. Then on every port at most one
    command permit is held, its count is the one shown, no permit is held
    while a control is pending, and a control is pending exactly when a
    revision is waited for. *)
Theorem one_operation_per_port sha saved station ports per s0 w port p :
  startup sha saved station ports per = Ok s0 -> rtc ops_step {| ow_state := s0; ow_permits := [] |} w ->
  os_ports (ow_state w) !! port = Some p ->
  pt_pending_commands p = held port (ow_permits w) /\ held port (ow_permits w) <= 1 /\
  (pt_control_pending p = true -> held port (ow_permits w) = 0) /\
  (pt_control_pending p = true <-> is_Some (os_pending (ow_state w) !! port)).
Proof.
  intros Hs%startup_fresh%fresh_ok Hr Hp.
  assert (Hok : ops_ok w) by (clear Hp; induction Hr; [done|]; by eapply IHHr, ops_step_ok).
  destruct (ex_ports _ _ _ Hok port (pt_pending_commands p) (pt_control_pending p)) as (-> & Hle & Hc).
  { unfold views. by rewrite lookup_fmap, Hp. }
  split_and!; [done|destruct (pt_control_pending p); lia| |].
  - intros Ht. rewrite Ht in Hle. unfold held in *. lia.
  - rewrite Hc. by rewrite bool_decide_eq_true.
Qed.

(** ** What is shown is what is saved *)

(** Changes of the snapshots that keep the settings shown. *)
Definition settings (p : PortSnapshot) : string * bool * list (string * bool) :=
  (pt_port_id p, pt_enabled p, (fun d => (dv_device_id d, dv_read_enabled d)) <$> pt_devices p).

Definition same_settings (s s' : OpsState) : Prop :=
  settings <$> os_ports s' = settings <$> os_ports s /\ os_saved s' = os_saved s.

#[export] Instance same_settings_preorder : PreOrder same_settings.
Proof. split; [by intros|]. intros a b c [? ?] [? ?]. split; congruence. Qed.

Lemma shown_settings s : shown s <-> forall port n e ds, (settings <$> os_ports s) !! port = Some (n, e, ds) ->
  NoDup ds.*1 /\ exists st, so_ports (os_saved s) !! port = Some st /\ e = so_enabled st /\
    forall i b, (i, b) ∈ ds -> so_device_read_enabled st !! i = Some b.
Proof.
  unfold shown. split.
  - intros H port n e ds. rewrite lookup_fmap. intros (p & Hp & Hs)%fmap_Some. unfold settings in Hs. injection Hs as -> -> ->.
    destruct (H _ _ Hp) as (Hn & st & Hst & He & Hd). rewrite <- list_fmap_compose. split; [exact Hn|].
    exists st. split_and!; [done|done|]. intros i b (d & Heq & Hin)%list_elem_of_fmap. simplify_eq. by apply Hd.
  - intros H port p Hp. destruct (H port (pt_port_id p) (pt_enabled p) ((fun d => (dv_device_id d, dv_read_enabled d)) <$> pt_devices p))
      as (Hn & st & Hst & He & Hd). { by rewrite lookup_fmap, Hp. }
    rewrite <- list_fmap_compose in Hn. split; [exact Hn|]. exists st. split_and!; [done|done|].
    intros d Hin. apply Hd. apply list_elem_of_fmap. by exists d.
Qed.

Lemma same_settings_shown s s' : same_settings s s' -> shown s -> shown s'.
Proof. rewrite !shown_settings. by intros [-> ->]. Qed.

Lemma same_settings_alter s port f :
  (forall p, settings (f p) = settings p) -> same_settings s (alter_port s port f).
Proof.
  intros Hf. split; [|done]. apply map_eq. intros i. simpl. rewrite !lookup_fmap, lookup_alter.
  case_decide; [subst|done]. destruct (os_ports s !! i); simpl; [by rewrite Hf|done].
Qed.

Lemma same_settings_ports s ports pending :
  settings <$> ports = settings <$> os_ports s -> same_settings s (set_ports s ports pending).
Proof. by split. Qed.

Lemma settings_alter (m : gmap string PortSnapshot) port f :
  (forall p, settings (f p) = settings p) -> settings <$> alter f port m = settings <$> m.
Proof.
  intros Hf. apply map_eq. intros i. rewrite !lookup_fmap, lookup_alter.
  case_decide; [subst|done]. destruct (m !! i); simpl; [by rewrite Hf|done].
Qed.

Lemma update_device_settings id f ds :
  (forall d, dv_device_id (f d) = dv_device_id d /\ dv_read_enabled (f d) = dv_read_enabled d) ->
  (fun d => (dv_device_id d, dv_read_enabled d)) <$> update_device id f ds =
  (fun d => (dv_device_id d, dv_read_enabled d)) <$> ds.
Proof.
  intros Hf. induction ds as [|d ds IH]; [done|]. cbn [update_device]. destruct (String.eqb _ _); [|by rewrite !fmap_cons, IH].
  rewrite !fmap_cons. by destruct (Hf d) as [-> ->].
Qed.

Lemma same_settings_station s revision port device r : same_settings s (save_station s revision port device r).
Proof.
  unfold save_station. etransitivity; [|apply same_settings_alter].
  - done.
  - intros p. unfold settings. simpl. by rewrite update_device_settings.
Qed.

Lemma queue_control_settings sent s port c revision text err s' r :
  queue_control sent s port c revision text err = (s', r) -> same_settings s s'.
Proof.
  unfold queue_control. destruct sent; intros [= <- <-]; split; try done; simpl; by rewrite !settings_alter.
Qed.

Lemma mark_settings s port device now per s' r :
  mark_station_query_pending s port device now per = (s', r) -> same_settings s s'.
Proof.
  unfold mark_station_query_pending. destruct (_ ≫= _) as [[revision rec]|e]; intros [= <- <-]; [|done].
  apply same_settings_station.
Qed.

Lemma result_settings s port id res now per s' r :
  report_station_query_result s port id res now per = (s', r) -> same_settings s s'.
Proof.
  unfold report_station_query_result. destruct (_ ≫= _) as [[revision rec]|e]; intros [= <- <-]; [|done].
  apply same_settings_station.
Qed.

Lemma update_read_settings id enabled ds i b :
  NoDup (dv_device_id <$> ds) ->
  (i, b) ∈ (fun d => (dv_device_id d, dv_read_enabled d)) <$> update_device id (set_read_enabled enabled) ds ->
  (i = id /\ b = enabled) \/ (i <> id /\ (i, b) ∈ (fun d => (dv_device_id d, dv_read_enabled d)) <$> ds).
Proof.
  induction ds as [|d ds IH]; intros Hn Hin; [by apply elem_of_nil in Hin|]. cbn [update_device] in Hin.
  rewrite fmap_cons in Hn. apply NoDup_cons in Hn as [Hd Hn]. rewrite fmap_cons.
  destruct (String.eqb_spec (dv_device_id d) id) as [<-|Hne].
  - rewrite fmap_cons in Hin. simpl in Hin. apply elem_of_cons in Hin as [[= -> ->]|Hin]; [by left|right].
    split; [|by right]. intros ->. apply Hd. apply list_elem_of_fmap in Hin as (d' & Heq & Hin). injection Heq as -> _.
    apply list_elem_of_fmap. by exists d'.
  - rewrite fmap_cons in Hin. apply elem_of_cons in Hin as [[= -> ->]|Hin]; [right; split; [done|left]|].
    destruct (IH Hn Hin) as [?|[? ?]]; [by left|right; split; [done|by right]].
Qed.

Lemma update_device_ids id f ds :
  (forall d, dv_device_id (f d) = dv_device_id d) -> dv_device_id <$> update_device id f ds = dv_device_id <$> ds.
Proof.
  intros Hf. induction ds as [|d ds IH]; [done|]. cbn [update_device].
  destruct (String.eqb _ _); rewrite !fmap_cons; [by rewrite Hf|by rewrite IH].
Qed.

(** A setting is saved and shown together. *)
Lemma control_shown s port p id enabled next :
  shown s -> os_ports s !! port = Some p ->
  so_ports next = alter (change_stored id enabled) port (so_ports (os_saved s)) ->
  shown (alter_port (set_saved s next) port (show_setting id enabled)).
Proof.
  intros Hs Hp Hnext q p' Hq. simpl in Hq. rewrite lookup_alter in Hq. simpl. rewrite Hnext, lookup_alter.
  case_decide as Heq; [subst q|by apply Hs]. rewrite Hp in Hq. injection Hq as <-.
  destruct (Hs _ _ Hp) as (Hn & st & Hst & He & Hd). rewrite Hst. destruct id as [i|]; simpl.
  - split; [by rewrite update_device_ids|]. eexists. split_and!; [done|done|]. simpl. intros d Hin.
    destruct (update_read_settings i enabled (pt_devices p) (dv_device_id d) (dv_read_enabled d)) as [[-> ->]|[Hne Hin']].
    + done.
    + apply list_elem_of_fmap. by exists d.
    + by rewrite lookup_insert_eq.
    + rewrite lookup_insert_ne by done. apply list_elem_of_fmap in Hin' as (d' & Heq & Hin'). injection Heq as -> ->. by apply Hd.
  - split; [done|]. eexists. by split_and!.
Qed.

(** A step keeps what is shown and saved, up to one setting that changes. *)
Lemma ops_step_settings w w' : ops_step w w' ->
  same_settings (ow_state w) (ow_state w') \/
  exists port p id enabled next, os_ports (ow_state w) !! port = Some p /\
    so_ports next = alter (change_stored id enabled) port (so_ports (os_saved (ow_state w))) /\
    same_settings (alter_port (set_saved (ow_state w) next) port (show_setting id enabled)) (ow_state w').
Proof.
  intros Hst. destruct Hst as
    [w g sh port g' s E|w g port permits Hp|w sh per sent senders request device s r E|w sh per sent senders request s r E
    |w sh per sent senders request now rep s r E|w sh port id now per s r E|w port id res now per s r E
    |w port message now per|w port enabled open devices|w port revision outcome|w port message|w port]; simpl in *.
  3: { apply set_control_cases in E as [[-> _]|(pt & q & id & en & next & c & t & er & Hp & _ & _ & _ & _ & Hn & _ & _ & E)]; [by left|right].
       exists pt, q, id, en, next. split_and!; [done|by subst next|by eapply queue_control_settings]. }
  all: left.
  - unfold admit_command in E. destruct (admit_mutation g) as [g1 [[]|e]]; [|done].
    unfold admit_on_port in E. destruct sh; [done|]. destruct (os_ports (ow_state w) !! port) as [p|] eqn:Hp; [|done].
    repeat (destruct (_ || _) in E; [done|]). injection E as _ <-.
    apply same_settings_ports. rewrite fmap_insert. apply insert_id. by rewrite lookup_fmap, Hp.
  - by apply same_settings_alter.
  - apply module_type_cases in E as [->|(pt & q & dv & mt & c & t & er & _ & _ & _ & _ & _ & E)]; [done|].
    etransitivity; [apply same_settings_station|by eapply queue_control_settings].
  - unfold query_device_version in E.
    match type of E with match ?x with _ => _ end = _ => destruct x as [[[port device] id]|e] end; [|by injection E as <- <-].
    destruct (mark_station_query_pending _ _ _ _ _) as [s1 [rev|e]] eqn:Em; apply mark_settings in Em;
      [|by injection E as <- <-].
    destruct (queue_control _ _ _ _ _ _ _) as [s2 r2] eqn:Eq. apply queue_control_settings in Eq.
    destruct sent; injection E as <- <-; [by transitivity s1|].
    destruct (report_station_query_result s2 port id _ now rep) as [s3 r3] eqn:Er. apply result_settings in Er.
    transitivity s1; [done|]. by transitivity s2.
  - unfold begin_automatic_station_query in E.
    destruct sh; [by injection E as <- <-|]. destruct (_ ≫= _) as [[p d]|]; [|by injection E as <- <-].
    destruct (_ || _); [by injection E as <- <-|].
    destruct (mark_station_query_pending _ _ _ _ _) as [s1 q] eqn:Em. injection E as <- <-. by eapply mark_settings.
  - by eapply result_settings.
  - unfold fail_inflight_station_queries. repeat case_match; try done.
    etransitivity; [|apply same_settings_alter].
    + done.
    + intros p. unfold settings. simpl. rewrite <- list_fmap_compose. f_equal. apply list_fmap_ext. intros i d _. simpl.
      by repeat case_match.
  - apply same_settings_alter. intros p. unfold settings. simpl. f_equal.
    revert p. intros p. generalize (pt_devices p). induction devices as [|d ds IH]; intros l; [done|]. cbn [foldl].
    rewrite IH. unfold report_device. apply update_device_settings. intros d'. by repeat case_match.
  - unfold complete_control. case_bool_decide; [|done]. apply same_settings_ports. by rewrite settings_alter.
  - apply same_settings_ports. by rewrite settings_alter.
  - apply same_settings_ports. rewrite settings_alter; [done|].
    intros p. unfold settings. simpl. rewrite <- list_fmap_compose. done.
Qed.

Lemma ops_step_shown w w' : ops_step w w' -> shown (ow_state w) -> shown (ow_state w').
Proof.
  intros [Hs|(port & p & id & en & next & Hp & Hn & Hs)]%ops_step_settings Hw; (eapply same_settings_shown; [exact Hs|]); [done|].
  by eapply control_shown.
Qed.

(** Ports and devices stay the same. *)
Definition identity (p : PortSnapshot) : string * list string := (pt_port_id p, dv_device_id <$> pt_devices p).
Definition identities (s : OpsState) : gmap string (string * list string) := identity <$> os_ports s.

Lemma same_settings_identities s s' : same_settings s s' -> identities s' = identities s.
Proof.
  intros [Hs _].
  assert (H : forall m : gmap string PortSnapshot, identity <$> m = (fun v => (v.1.1, v.2.*1)) <$> (settings <$> m)).
  { intros m. rewrite <- map_fmap_compose. apply map_fmap_ext. intros k p _. unfold identity, settings. cbn.
    by rewrite <- list_fmap_compose. }
  unfold identities. by rewrite !H, Hs.
Qed.

Lemma ops_step_identities w w' : ops_step w w' -> identities (ow_state w') = identities (ow_state w).
Proof.
  intros [Hs|(port & p & id & en & next & Hp & Hn & Hs)]%ops_step_settings; apply same_settings_identities in Hs; [done|]. rewrite Hs.
  unfold identities. apply map_eq. intros i. simpl. rewrite !lookup_fmap, lookup_alter. case_decide; [subst|done].
  destruct (os_ports (ow_state w) !! i) as [q|]; [|done]. simpl. f_equal. unfold identity. destruct id; [|done]. simpl. by rewrite update_device_ids.
Qed.

(** ** Settings *)

Lemma queue_control_saved sent s port c revision text err s' r :
  queue_control sent s port c revision text err = (s', r) ->
  os_saved s' = os_saved s /\ os_station_saved s' = os_station_saved s /\
  (if sent then exists c, r = Ok (Queued c revision) else exists e, r = Err e /\ oe_revision e = Some (pretty revision)).
Proof. unfold queue_control. destruct sent; intros [= <- <-]; split_and!; try done; eexists; done. Qed.

(** acquisition settings change by compare and swap, and never before they
    are on disk. A request to enable or disable a port or the reading of a
    device either is refused and changes nothing at all, or named the current
    revision, found the port idle, and had the next state — this one setting
    and the next revision — accepted by the file system before the state in
    memory became it; the answer carries the new revision even when the
    worker's channel is closed. *)
Theorem settings_compare_and_swap sh per sent s senders request device s' r :
  set_control sh per sent s senders request device = (s', r) ->
  (s' = s /\ exists e, r = Err e) \/
  (string_arg request "expected_revision" = Ok (pretty (so_revision (os_saved s))) /\
   so_revision (os_saved s') = so_revision (os_saved s) + 1 /\ so_revision (os_saved s') <= u64_max /\
   per (os_saved s') = Ok () /\
   (exists port id enabled p, os_ports s !! port = Some p /\ busy p = false /\
      so_ports (os_saved s') = alter (change_stored id enabled) port (so_ports (os_saved s))) /\
   if sent then exists c, r = Ok (Queued c (so_revision (os_saved s')))
   else exists e, r = Err e /\ oe_revision e = Some (pretty (so_revision (os_saved s')))).
Proof.
  intros [H|(port & p & id & en & next & c & t & er & Hp & Hb & _ & Hex & _ & Hn & Hmax & Hper & E)]%set_control_cases;
    [by left|right]. apply queue_control_saved in E as (Hsv & _ & Hr). simpl in Hsv. rewrite Hsv.
  split_and!; [done|by subst|done|done| |by destruct sent]. exists port, id, en, p. by subst.
Qed.

(** Start-up keeps the saved settings of every port. *)
Definition keeps (st st' : StoredPort) : Prop :=
  so_enabled st' = so_enabled st /\ forall i b, so_device_read_enabled st !! i = Some b -> so_device_read_enabled st' !! i = Some b.

Lemma startup_devices_keep sha port u ds u' :
  startup_devices sha port u ds = Ok u' -> forall i b, up_reads u !! i = Some b -> up_reads u' !! i = Some b.
Proof.
  revert u. induction ds as [|d ds IH]; intros u H i b Hi; cbn [startup_devices] in H; [by injection H as <-|].
  apply bind_Ok in H as (u1 & H1 & H). eapply IH; [exact H|]. unfold startup_device in H1.
  case_bool_decide; [done|]. injection H1 as <-. simpl.
  destruct (decide (pretty (device_id (dc_config d)) = i)) as [<-|]; [by rewrite lookup_insert_eq, Hi|].
  by rewrite lookup_insert_ne.
Qed.

Lemma startup_ports_keep sha s ports s' port st :
  startup_ports sha s ports = Ok s' -> so_ports (os_saved s) !! port = Some st ->
  exists st', so_ports (os_saved s') !! port = Some st' /\ keeps st st'.
Proof.
  revert s st. induction ports as [|[q ds] ports IH]; intros s st H Hst; cbn [startup_ports] in H.
  { injection H as <-. exists st. by split. }
  apply bind_Ok in H as (s1 & H1 & H). unfold startup_port in H1. case_bool_decide; [done|].
  apply bind_Ok in H1 as (u & Hu & [= <-]). pose proof (startup_devices_keep _ _ _ _ _ Hu) as Hk. simpl in Hk.
  destruct (decide (q = port)) as [->|Hne].
  - rewrite Hst in Hk. simpl in Hk. edestruct IH as (st' & Hst' & He & Hr); [exact H|simpl; by rewrite lookup_insert_eq|].
    exists st'. split; [done|]. simpl in *. rewrite Hst in He. split; [done|]. intros i b Hi. by apply Hr, Hk.
  - eapply IH; [exact H|]. simpl. by rewrite lookup_insert_ne.
Qed.

Lemma startup_saved sha saved station ports per s :
  startup sha saved station ports per = Ok s ->
  exists s1, startup_ports sha {| os_saved := saved; os_station_saved := station; os_ports := ∅; os_pending := ∅ |} ports = Ok s1 /\
    os_saved s = os_saved s1.
Proof.
  unfold startup. intros H. apply bind_Ok in H as (s1 & H1 & H). exists s1. split; [done|].
  case_bool_decide; [by injection H as <-|]. destruct (u64_checked_add _ _); [|done].
  by apply bind_Ok in H as (u & _ & [= <-]).
Qed.

(** C23: the acquisition settings survive a restart. After any history, start
    the operations state again from the settings it saved, with any
    configuration: a port that was shown before is shown with the same switch,
    and each of its devices with the same read switch. *)
Theorem settings_survive_restart sha saved station ports per s0 w station' ports' per' s' port p p' :
  startup sha saved station ports per = Ok s0 -> rtc ops_step {| ow_state := s0; ow_permits := [] |} w ->
  startup sha (os_saved (ow_state w)) station' ports' per' = Ok s' ->
  os_ports (ow_state w) !! port = Some p -> os_ports s' !! port = Some p' ->
  pt_enabled p' = pt_enabled p /\
  forall d d', d ∈ pt_devices p -> d' ∈ pt_devices p' -> dv_device_id d' = dv_device_id d ->
    dv_read_enabled d' = dv_read_enabled d.
Proof.
  intros Hs0 Hr Hs' Hp Hp'.
  assert (Hw : shown (ow_state w)).
  { apply startup_fresh, fr_shown in Hs0. change s0 with (ow_state {| ow_state := s0; ow_permits := [] |}) in Hs0.
    clear -Hs0 Hr. induction Hr; [done|]. by eapply IHHr, ops_step_shown. }
  destruct (Hw _ _ Hp) as (_ & st & Hst & He & Hd).
  destruct (fr_shown _ (startup_fresh _ _ _ _ _ _ Hs') _ _ Hp') as (_ & st' & Hst' & He' & Hd').
  destruct (startup_saved _ _ _ _ _ _ Hs') as (s1 & H1 & Hsv).
  destruct (startup_ports_keep _ _ _ _ port st H1 Hst) as (st1 & Hst1 & Hen & Hk).
  rewrite Hsv in Hst'. rewrite Hst1 in Hst'. injection Hst' as <-. split; [congruence|].
  intros d d' Hin Hin' Hid. apply Hd, Hk in Hin. apply Hd' in Hin'. congruence.
Qed.

(** ** Examples *)

Definition toy_station : DeviceConfig :=
  {| dc_config := {| com := "COM3"; baud_rate := 9600; is_special := true; com_index := 1; device_id := 25;
                     data_len := 2; kks_prefix := "" |};
     dc_records := [] |}.
Definition toy_sha256 (pieces : list (list Z)) : string := hex (concat pieces).
Definition toy_ports : list (string * list DeviceConfig) := [("COM3", [toy_station])].
Definition saved_1 : StoredState := {| so_revision := 1; so_ports := ∅ |}.
Definition station_1 : StoredStationState := {| ss_revision := 1; ss_ports := ∅ |}.

Definition unwrap (r : result string OpsState) : OpsState :=
  match r with
  | Ok s => s
  | Err _ => {| os_saved := saved_1; os_station_saved := station_1; os_ports := ∅; os_pending := ∅ |}
  end.
Definition toy_ops : OpsState := unwrap (startup toy_sha256 saved_1 station_1 toy_ports (fun _ => Ok ())).

Definition toy_request (enabled : bool) (revision : string) : gmap string Arg :=
  list_to_map [("port_id", AText "COM3"); ("enabled", ABool enabled); ("expected_revision", AText revision)].
Definition toy_read_request (enabled : bool) (revision : string) : gmap string Arg :=
  list_to_map [("port_id", AText "COM3"); ("device_id", AText "25"); ("enabled", ABool enabled);
               ("expected_revision", AText revision)].
Definition toy_control (s : OpsState) (device : bool) (request : gmap string Arg) : OpsState * result OperationError Begun :=
  set_control false (fun _ => Ok ()) true s {["COM3"]} request device.

(** The reading of the device is stopped. *)
Definition toy_stopped : OpsState := (toy_control toy_ops true (toy_read_request false "1")).1.

Lemma toy_ops_started : startup toy_sha256 saved_1 station_1 toy_ports (fun _ => Ok ()) = Ok toy_ops.
Proof. vm_compute. reflexivity. Qed.

Lemma toy_stopped_reached : rtc ops_step {| ow_state := toy_ops; ow_permits := [] |} {| ow_state := toy_stopped; ow_permits := [] |}.
Proof. apply rtc_once. eapply (ops_control {| ow_state := toy_ops; ow_permits := [] |}). apply surjective_pairing. Qed.

(** The switches of the only port: its own, its device's, whether a control
    is pending and the revision waited for. *)
Definition toy_view (s : OpsState) : option (string * bool * list (string * bool) * bool * option Z) :=
  p ← os_ports s !! "COM3";
  Some (settings p, pt_control_pending p, os_pending s !! "COM3").

Lemma toy_stopped_view : toy_view toy_stopped = Some ("COM3", true, [("25", false)], true, Some 2).
Proof. vm_compute. reflexivity. Qed.

Lemma one_operation_per_port_witness :
  exists p, os_ports toy_stopped !! "COM3" = Some p /\ pt_control_pending p = true /\ held "COM3" [] = 0.
Proof.
  pose proof toy_stopped_view as Hv. unfold toy_view in Hv.
  destruct (os_ports toy_stopped !! "COM3") as [p|] eqn:Hp; [|discriminate Hv].
  assert (Hc : pt_control_pending p = true)
    by exact (f_equal (fun v => match v with Some (_, c, _) => c | None => false end) Hv).
  exists p. split_and!; [reflexivity|exact Hc|].
  apply (one_operation_per_port _ _ _ _ _ _ _ _ _ toy_ops_started toy_stopped_reached Hp). exact Hc.
Defined.

Lemma settings_compare_and_swap_witness :
  exists e, toy_control toy_ops true (toy_read_request false "7") = (toy_ops, Err e) /\
    so_revision (os_saved toy_stopped) = 2.
Proof.
  destruct (settings_compare_and_swap false (fun _ => Ok ()) true toy_ops {["COM3"]} (toy_read_request false "7") true
              _ _ (surjective_pairing _)) as [[H1 [e H2]]|[H _]]; [|exfalso; vm_compute in H; discriminate H].
  exists e. split; [|vm_compute; reflexivity].
  unfold toy_control. rewrite (surjective_pairing (set_control _ _ _ _ _ _ _)).
  apply pair_equal_spec. split; [exact H1|exact H2].
Defined.

Lemma settings_survive_restart_witness :
  exists s' p p', startup toy_sha256 (os_saved toy_stopped) station_1 toy_ports (fun _ => Ok ()) = Ok s' /\
    os_ports toy_stopped !! "COM3" = Some p /\ os_ports s' !! "COM3" = Some p' /\ pt_enabled p' = pt_enabled p.
Proof.
  set (s' := unwrap (startup toy_sha256 (os_saved toy_stopped) station_1 toy_ports (fun _ => Ok ()))).
  assert (Hs : startup toy_sha256 (os_saved toy_stopped) station_1 toy_ports (fun _ => Ok ()) = Ok s')
    by (vm_compute; reflexivity).
  assert (Hp : exists p, os_ports toy_stopped !! "COM3" = Some p) by (eexists; vm_compute; reflexivity).
  assert (Hp' : exists p, os_ports s' !! "COM3" = Some p) by (eexists; vm_compute; reflexivity).
  destruct Hp as [p Hp], Hp' as [p' Hp']. exists s', p, p'. split_and!; [exact Hs|exact Hp|exact Hp'|].
  apply (settings_survive_restart _ _ _ _ _ _ _ _ _ _ _ _ _ _ toy_ops_started toy_stopped_reached Hs Hp Hp').
Defined.

(** ** Receipts of two counters

    A control waits for a revision of the settings or of the station file.
    Both counters are compared with the same pending number. *)

Definition toy_module_request (s : OpsState) : gmap string Arg :=
  list_to_map [("port_id", AText "COM3"); ("device_id", AText "25"); ("module_type", AText "domestic");
               ("expected_revision", AText (pretty (so_revision (os_saved s))));
               ("expected_station_revision", AText (pretty (ss_revision (os_station_saved s))))].

(** An applied control, then one whose worker restarts before reading it. *)
Definition toy_applied : OpsState := complete_control toy_stopped "COM3" 2 (Ok ()).
Definition toy_lost : OpsState :=
  fail_pending_controls (toy_control toy_applied false (toy_request false "2")).1 "COM3"
    "serial worker panicked before confirmation".
Definition toy_retyped : OpsState :=
  (set_device_module_type false (fun _ => Ok ()) true {["COM3"]} toy_lost (toy_module_request toy_lost)).1.

(** The receipt of an invalidated control is accepted again when a later
    station request happens to wait for the same number: the worker then
    applies the control that was reported as failed, and its confirmation ends
    the wait of the other one. *)
Theorem stale_receipt_is_current :
  control_is_current toy_lost "COM3" 3 = false /\ control_is_current toy_retyped "COM3" 3 = true /\
  toy_view toy_retyped = Some ("COM3", false, [("25", false)], true, Some 3) /\
  toy_view (complete_control toy_retyped "COM3" 3 (Ok ())) = Some ("COM3", false, [("25", false)], false, None).
Proof. split_and!; vm_compute; reflexivity. Qed.
