(* ===== verification/VersionQuery.v ===== *)
(** * Station version queries (src/src/serial/version_transaction.rs and manager.rs)

    The queue of the queries a worker still has to make, the reception of one
    version response and the whole query on a [Manager].  The transaction has
    its own receive buffer and deadlines; the theorems show that it reads
    exactly the protocol's frame and leaves ordinary acquisition alone. *)

From S2P Require Import Prelude RustFloat RustStr Model Parser Csv Protocol Transport FailureLog Frames Acquisition.
From stdpp Require Import pretty.
Open Scope string_scope.
Open Scope Z_scope.
Open Scope list_scope.

(** ** The queue *)

(** [VersionQueries]. *)
Definition schedule (queue : list Z) (device : Z) : list Z :=
  if bool_decide (device ∈ queue) then queue else queue ++ [device].
Definition cancel (queue : list Z) (device : Z) : list Z := filter (fun id => id <> device) queue.
Definition next (queue : list Z) : option (Z * list Z) :=
  match queue with [] => None | device :: queue => Some (device, queue) end.

(** ** One response *)

Definition RESPONSE_LEN : nat := 9.
Definition COMPLETION_GUARD : Z := millis 5.

Definition version_error_text (e : VersionError) : string :=
  match e with
  | VersionLength => "版本响应长度必须为 9 字节"
  | VersionHeader => "版本响应帧头不匹配"
  | VersionChecksum => "版本响应校验和不匹配"
  end.

(** The driver's own text of a transport error is left out. *)
Inductive VersionReadError :=
| Rejected (message : string)
| TransportError (e : ErrorKind).

Section Query.
Context (su : Setup) (drv : Driver).

(** The clearing of the input is one driver call whose failure is only
    logged. *)
Definition quarantine (calls : nat) : nat := S calls.

(** The read loop.  A round that goes on reads a byte or more, so ten rounds
    are enough ([version_loop_total]). *)
Fixpoint version_loop (fuel calls : nat) (deadline : Z) (extended : bool) (received : list Z)
    : option (nat * list Z * result ErrorKind unit) :=
  match fuel with
  | O => None
  | S fuel =>
      if (RESPONSE_LEN <=? length received)%nat then Some (calls, received, Ok tt)
      else
        match read_before_deadline drv calls deadline with
        | Ok [] => Some (S calls, received, Err TimedOut)
        | Ok chunk =>
            let deadline :=
              if extended then deadline
              else call_after (drv_read drv calls)
                   + duration_saturating_add (wire_duration (Z.of_nat RESPONSE_LEN) (lc_baud_rate (su_line su)))
                       COMPLETION_GUARD in
            version_loop fuel (S calls) deadline true (received ++ chunk)
        | Err e => Some (S calls, received, Err e)
        end
  end.

(** [version_transaction::receive]. *)
Definition receive (calls : nat) : option (nat * result VersionReadError StationVersionResponse) :=
  let first_byte_timeout := lc_read_timeout (su_line su) in
  '(calls, received, r) ← version_loop (S (S RESPONSE_LEN)) (S calls) (drv_clock drv calls + first_byte_timeout) false [];
  Some match r with
       | Ok _ =>
           let answer :=
             if negb (length received =? RESPONSE_LEN)%nat
             then Err ("station version response length must be exactly 9 bytes, got " +:+ pretty (Z.of_nat (length received)))
             else map_err version_error_text (parse_station_version_response received) in
           (match answer with Ok _ => calls | Err _ => quarantine calls end, map_err Rejected answer)
       | Err TimedOut =>
           (quarantine calls,
            Err (Rejected ("station version query timed out after " +:+ pretty (first_byte_timeout / millis 1) +:+ " ms")))
       | Err e => (calls, Err (TransportError e))
       end.

(** ** The query on the manager *)

Definition quarantine_late_station_version_response (m : Manager) : Manager :=
  let m := rx_clear m in
  if m_port m then used m (quarantine (m_calls m)) [] else m.

(** [perform_station_version_query].  Indexing the device states is in range
    while the device lists have one length, and a successful send leaves the
    port open ([send_command_open]), so that neither can panic. *)
Definition perform_station_version_query (fuel : nat) (m : Manager) (id : Z)
    : option (Manager * result string StationVersionResponse) :=
  match position su id with
  | None => Some (m, Err "unknown device")
  | Some index =>
      let disabled :=
        match m_states m !! index with
        | Some st => negb (m_status m) || negb (is_enabled st) || negb (read_enabled st)
        | None => true
        end in
      if disabled then Some (m, Err "port or device acquisition is disabled")
      else if negb (bool_decide (m_run m = Primary))
      then Some (m, Err "standby gateway must not actively query station version")
      else
        let m := if m_port m then m else reconnect su drv m in
        if negb (m_port m) then Some (m, Err "serial port is not open")
        else
          '(m, sent) ← send_command su drv fuel (prepare_automatic_query m) (build_station_version_query id);
          if negb sent then
            Some (if m_port m then quarantine_late_station_version_response m else m,
                  Err "could not send station version query")
          else
            '(calls, r) ← receive (m_calls m);
            let m := rx_clear (used m calls []) in
            Some match r with
                 | Ok value => (m, Ok value)
                 | Err (Rejected message) => (m, Err message)
                 | Err (TransportError _) =>
                     let m := reconnect su drv (close_port m) in
                     (if m_port m then quarantine_late_station_version_response m else m,
                      Err "station version read failed")
                 end
  end.
End Query.

(** ** The queue as a duplicate-free FIFO *)

Lemma schedule_nodup q d : NoDup q -> NoDup (schedule q d).
Proof.
  intros H. unfold schedule. case_bool_decide; [done|]. apply NoDup_app. split_and!; [done| |apply NoDup_singleton].
  intros x Hx ->%list_elem_of_singleton. done.
Qed.
Lemma cancel_nodup q d : NoDup q -> NoDup (cancel q d).
Proof. apply NoDup_filter. Qed.
Lemma elem_of_schedule q d x : x ∈ schedule q d <-> x ∈ q \/ x = d.
Proof. unfold schedule. case_bool_decide; set_solver. Qed.
Lemma elem_of_cancel q d x : x ∈ cancel q d <-> x ∈ q /\ x <> d.
Proof. unfold cancel. rewrite list_elem_of_filter. tauto. Qed.

(** ** Reception *)

Section Reception.
Context (su : Setup) (drv : Driver).

Lemma version_loop_total fuel calls deadline ext received :
  (S RESPONSE_LEN - length received < fuel)%nat -> is_Some (version_loop su drv fuel calls deadline ext received).
Proof.
  revert calls deadline ext received. induction fuel as [|fuel IH]; intros calls deadline ext received Hf; [lia|].
  cbn [version_loop]. destruct (Nat.leb_spec RESPONSE_LEN (length received)); [by eexists|].
  destruct (read_before_deadline _ _ _) as [[|b chunk]|er]; [by eexists| |by eexists].
  apply IH. rewrite length_app. simpl. lia.
Qed.

Lemma receive_total calls : is_Some (receive su drv calls).
Proof.
  unfold receive. destruct (version_loop_total (S (S RESPONSE_LEN)) (S calls)
    (drv_clock drv calls + lc_read_timeout (su_line su)) false []) as [[[c rec] r] Hl]; [simpl; lia|].
  rewrite Hl. cbn. by eexists.
Qed.

(** The bytes the line delivers before the deadlines of the loop. *)
Fixpoint arrives (calls : nat) (deadline : Z) (extended : bool) (chunks : list (list Z)) : Prop :=
  match chunks with
  | [] => True
  | chunk :: chunks =>
      chunk <> [] /\ read_before_deadline drv calls deadline = Ok chunk /\
      arrives (S calls)
        (if extended then deadline
         else call_after (drv_read drv calls)
              + duration_saturating_add (wire_duration (Z.of_nat RESPONSE_LEN) (lc_baud_rate (su_line su))) COMPLETION_GUARD)
        true chunks
  end.

Lemma version_loop_collects fuel calls deadline ext chunks received :
  arrives calls deadline ext chunks -> (length chunks < fuel)%nat ->
  (forall k, (k < length chunks)%nat -> (length (received ++ concat (take k chunks)) < RESPONSE_LEN)%nat) ->
  (RESPONSE_LEN <= length (received ++ concat chunks))%nat ->
  version_loop su drv fuel calls deadline ext received =
    Some ((calls + length chunks)%nat, received ++ concat chunks, Ok tt).
Proof.
  revert calls deadline ext received chunks. induction fuel as [|fuel IH]; intros calls deadline ext received chunks Ha Hf Hk Hl; [lia|].
  cbn [version_loop]. destruct chunks as [|chunk chunks].
  - rewrite app_nil_r in *. apply Nat.leb_le in Hl. rewrite Hl. by rewrite Nat.add_0_r.
  - destruct Ha as (Hne & Hr & Ha). specialize (Hk 0%nat ltac:(simpl; lia)) as H0. simpl in H0. rewrite app_nil_r in H0.
    apply Nat.leb_gt in H0. rewrite H0, Hr. destruct chunk as [|b chunk]; [done|].
    rewrite (IH _ _ _ _ chunks); [| done |simpl in Hf; lia| |].
    + rewrite <- app_assoc. do 3 f_equal. simpl. lia.
    + intros k Hk'. specialize (Hk (S k) ltac:(simpl; lia)). cbn [take concat] in Hk. by rewrite <- app_assoc.
    + cbn [concat] in Hl. by rewrite <- app_assoc.
Qed.
End Reception.

(** ** Isolation from ordinary acquisition *)

(** What polling depends on: the turn, the role, the failure counters, and of
    each device its counters, switches and time of last data. *)
Definition device_polling (s : DeviceRuntimeState) : Z * Z * Z * bool * bool * option Z :=
  (timeout_count s, current_round s, parse_fail_count s, is_enabled s, read_enabled s, last_data_at s).
Definition polling (m : Manager) :=
  (m_index m, m_run m, m_time_out_count m, m_parse_fail_count m, m_status m, device_polling <$> m_states m).

Section Isolation.
Context (su : Setup) (drv : Driver).

Lemma fmap_insert_same {A B} (f : A -> B) (l : list A) i x y :
  l !! i = Some x -> f y = f x -> f <$> <[i := y]> l = f <$> l.
Proof.
  intros Hi Hf. rewrite list_fmap_insert, Hf. apply list_insert_id. rewrite list_lookup_fmap, Hi. done.
Qed.

Lemma polling_publish m i key s : polling (publish m i key s) = polling m.
Proof.
  unfold publish. cbn [cache_update set_published m_states]. destruct (m_states m !! i) as [st|] eqn:Hi; [|done].
  destruct (should_broadcast st key _ _) as [st' yes] eqn:Hb.
  assert (Hst : device_polling st' = device_polling st).
  { unfold should_broadcast in Hb. repeat case_match; by injection Hb as <- _. }
  assert (H : polling (set_states (cache_update m s) (<[i := st']> (m_states m))) = polling m).
  { unfold polling. cbn. by rewrite (fmap_insert_same device_polling _ _ st). }
  by destruct yes.
Qed.

Lemma polling_send_zero m i com dev : polling (send_zero_status_for_index su m i com dev) = polling m.
Proof. unfold send_zero_status_for_index. case_match; [apply polling_publish|done]. Qed.

Lemma polling_all_offline m : polling (publish_all_offline su m) = polling m.
Proof.
  unfold publish_all_offline. generalize (seq 0 (length (su_devices su))) as l. intros l. revert m.
  induction l as [|i l IH]; intros m; [done|]. cbn [foldl]. by rewrite IH, polling_send_zero.
Qed.

Lemma polling_reconnect m : polling (reconnect su drv m) = polling m.
Proof.
  unfold reconnect. destruct (negb (m_status m)); [done|].
  assert (H : polling (publish_port_offline_once su m) = polling m).
  { unfold publish_port_offline_once. destruct (m_offline_published m); [done|]. by rewrite polling_all_offline. }
  rewrite <- H. cbv zeta. case_match; [done|]. by case_match.
Qed.

Lemma polling_send_command fuel m command m' b :
  send_command su drv fuel m command = Some (m', b) -> polling m' = polling m.
Proof.
  unfold send_command. destruct (transmit_frame _ _ _ _ _ _ _) as [[[calls wire] t]|]; [|done].
  intros H. injection H as H. destruct t as [|e|]; injection H as <- _; [done| |done].
  unfold handle_send_transport_error. destruct e; by rewrite polling_reconnect.
Qed.

(** A send that succeeds leaves the port and the published values alone. *)
Lemma send_command_open fuel m command m' :
  send_command su drv fuel m command = Some (m', true) ->
  m_port m' = m_port m /\ m_cache m' = m_cache m /\ m_broadcasts m' = m_broadcasts m.
Proof.
  unfold send_command. destruct (transmit_frame _ _ _ _ _ _ _) as [[[calls wire] t]|]; [|done].
  intros H. injection H as H. destruct t; by simplify_eq.
Qed.

Lemma polling_quarantine m : polling (if m_port m then quarantine_late_station_version_response m else m) = polling m.
Proof. destruct (m_port m) eqn:Hp; [|done]. unfold quarantine_late_station_version_response. cbn. by rewrite Hp. Qed.

(** The wire of a reconnect and of a quarantine. *)
Lemma wire_publish m i key s : m_wire (publish m i key s) = m_wire m.
Proof. unfold publish. repeat case_match; done. Qed.
Lemma wire_reconnect m : m_wire (reconnect su drv m) = m_wire m.
Proof.
  unfold reconnect. destruct (negb (m_status m)); [done|].
  assert (H : m_wire (publish_port_offline_once su m) = m_wire m).
  { unfold publish_port_offline_once. destruct (m_offline_published m); [done|].
    unfold publish_all_offline. generalize (seq 0 (length (su_devices su))) as l. intros l.
    change (m_wire m) with (m_wire (set_link m (m_port m) (m_status m) (m_rx_pending m) true)).
    generalize (set_link m (m_port m) (m_status m) (m_rx_pending m) true) as m0.
    induction l as [|i l IH]; intros m0; [done|]. cbn [foldl]. rewrite IH. unfold send_zero_status_for_index.
    case_match; [apply wire_publish|done]. }
  rewrite <- H. cbv zeta. repeat case_match; cbn; by rewrite app_nil_r.
Qed.

(** a version query is isolated. Whatever the line does, it leaves the polling
    turn, the role, every failure counter, switch and time of last data as
    they were; when it succeeds on an open port nothing is published; and it
    puts bytes on the wire only as primary, for a configured device whose
    port, device and acquisition are enabled. *)
Theorem version_query_isolated fuel m id m' r :
  perform_station_version_query su drv fuel m id = Some (m', r) ->
  polling m' = polling m /\
  (forall resp, r = Ok resp -> m_port m = true -> m_cache m' = m_cache m /\ m_broadcasts m' = m_broadcasts m) /\
  (m_wire m' <> m_wire m -> m_run m = Primary /\ m_status m = true /\
     exists index st, position su id = Some index /\ m_states m !! index = Some st /\
       is_enabled st = true /\ read_enabled st = true).
Proof.
  unfold perform_station_version_query. intros H.
  destruct (position su id) as [index|] eqn:Hpos; [|by injection H as <- <-].
  destruct (m_states m !! index) as [st|] eqn:Hst; [|by injection H as <- <-].
  destruct (negb (m_status m) || _ || _) eqn:Hdis; [by injection H as <- <-|].
  apply orb_false_iff in Hdis as [[Hs%negb_false_iff He%negb_false_iff]%orb_false_iff Hr%negb_false_iff].
  case_bool_decide as Hrun; cbn [negb] in H; [|by injection H as <- <-].
  set (m1 := if m_port m then m else reconnect su drv m) in H.
  assert (Hp1 : polling m1 = polling m) by (unfold m1; destruct (m_port m); [done|apply polling_reconnect]).
  assert (Ho1 : m_port m = true -> m1 = m) by (unfold m1; by intros ->).
  destruct (m_port m1) eqn:Hport; cbn [negb] in H.
  2: { injection H as <- <-. split_and!; [done|done|eauto 10]. }
  destruct (send_command su drv fuel _ _) as [[m2 sent]|] eqn:Hsend; [|done]. cbn [mbind option_bind] in H.
  pose proof (polling_send_command _ _ _ _ _ Hsend) as Hp2.
  change (polling (prepare_automatic_query m1)) with (polling m1) in Hp2. rewrite Hp1 in Hp2.
  assert (Hok : m_run m = Primary /\ m_status m = true /\ exists index0 st0, Some index = Some index0 /\
    m_states m !! index0 = Some st0 /\ is_enabled st0 = true /\ read_enabled st0 = true) by eauto 10.
  destruct sent; cbn [negb] in H.
  2: { injection H as <- <-. split_and!; [by rewrite polling_quarantine, Hp2|done|by intros _]. }
  destruct (receive su drv (m_calls m2)) as [[calls q]|] eqn:Hrec; [|done]. cbn [mbind option_bind] in H. injection H as H.
  assert (Hp3 : polling (rx_clear (used m2 calls [])) = polling m) by (rewrite <- Hp2; done).
  destruct q as [value|[message|er]]; injection H as <- <-; split_and!; try done.
  - intros resp _ Hm. destruct (send_command_open _ _ _ _ Hsend) as (_ & Hc & Hb). rewrite (Ho1 Hm) in *. done.
  - rewrite polling_quarantine, polling_reconnect. exact Hp3.
Qed.
End Isolation.

(** ** The acquisition invariant *)

Section Invariant.
Context (su : Setup) (drv : Driver).

Lemma quarantine_ok m :
  acq_ok su drv m -> acq_ok su drv (if m_port m then quarantine_late_station_version_response m else m).
Proof.
  intros Hm. destruct (m_port m); [|done]. unfold quarantine_late_station_version_response.
  assert (acq_ok su drv (rx_clear m)) by (eapply acq_ok_same; [apply same_rx_clear|done]).
  case_match; [|done]. eapply acq_ok_same; [apply same_used|done].
Qed.

Lemma version_query_ok fuel m id m' r :
  acq_ok su drv m -> perform_station_version_query su drv fuel m id = Some (m', r) -> acq_ok su drv m'.
Proof.
  intros Hm. unfold perform_station_version_query. intros H.
  destruct (position su id) as [index|]; [|by injection H as <- <-]. cbv zeta in H.
  case_match; [by injection H as <- <-|]. case_match; [by injection H as <- <-|].
  set (m1 := if m_port m then m else reconnect su drv m) in H.
  assert (Hm1 : acq_ok su drv m1).
  { unfold m1. destruct (m_port m) eqn:Hp; [done|]. by apply reconnect_closed_ok. }
  clearbody m1. case_match; [by injection H as <- <-|].
  destruct (send_command su drv fuel _ _) as [[m2 sent]|] eqn:Hsend; [|done]. cbn [mbind option_bind] in H.
  apply send_command_ok in Hsend as [Hm2 _]; [|by eapply acq_ok_same; [apply same_rx_clear|]].
  destruct sent; cbn [negb] in H; [|injection H as <- _; by apply quarantine_ok].
  destruct (receive su drv (m_calls m2)) as [[calls q]|]; [|done]. cbn [mbind option_bind] in H. injection H as H.
  assert (H3 : acq_ok su drv (used m2 calls [])) by (eapply acq_ok_same; [apply same_used|done]).
  destruct q as [value|[message|er]]; injection H as <- _.
  - eapply acq_ok_same; [apply same_rx_clear|done].
  - eapply acq_ok_same; [apply same_rx_clear|done].
  - apply quarantine_ok. apply (lost_port_ok su drv _ H3).
Qed.
End Invariant.

(** ** Witness *)

(** A station that answers in two reads. *)
Definition toy_answer : list (list Z) := [[0; 0; 4; 7]; [1; 4; 2; 10; 28]].
Definition toy_station_driver : Driver :=
  {| drv_read := fun i =>
       {| call_now := Z.of_nat i; call_set_timeout := true;
          call_transfer := match toy_answer !! (i - 6)%nat with Some c => Ok c | None => Err TimedOut end;
          call_restore := true; call_after := Z.of_nat i |};
     drv_write := drv_write toy_reader; drv_set_parity := drv_set_parity toy_reader; drv_clock := Z.of_nat;
     drv_bytes_to_write := drv_bytes_to_write toy_reader; drv_bytes_to_read := drv_bytes_to_read toy_reader;
     drv_open := drv_open toy_reader |}.

Lemma version_query_isolated_witness :
  let m := new_manager (toy_setup Primary) toy_station_driver true Primary in
  exists m', perform_station_version_query (toy_setup Primary) toy_station_driver 10 m 25 =
      Some (m', Ok (RespDomestic [1; 4; 2; 10] 260 522)) /\
    polling m' = polling m /\ m_cache m' = m_cache m /\ m_wire m' <> m_wire m.
Proof.
  intros m. destruct (perform_station_version_query (toy_setup Primary) toy_station_driver 10 m 25) as [[m' r]|] eqn:H;
    [|by vm_compute in H].
  assert (Hv : ((fun x => (x.2, m_wire x.1)) <$> Some (m', r)) =
               ((fun x => (x.2, m_wire x.1)) <$> perform_station_version_query (toy_setup Primary) toy_station_driver 10 m 25))
    by (by rewrite H).
  vm_compute in Hv. injection Hv as -> Hwire.
  destruct (version_query_isolated (toy_setup Primary) toy_station_driver 10 m 25 m' _ H) as (Hp & Hc & _).
  exists m'. split_and!; [done|done|by apply (Hc _ eq_refl)|].
  cbv delta [m_wire] beta. rewrite Hwire. by vm_compute.
Defined.
