(* ===== verification/Worker.v ===== *)
(** * The worker of a serial port (src/src/serial/worker.rs)

    [spawn_serial_worker] and everything it does in a round: the commands of
    the ingress channel, the queue of control commands with its pacing, one
    polling or listening cycle, the version queries, the reports to the
    operations console, shutdown and the restart after a panic.  It composes
    [Acquisition] (the manager), [Transaction] (the execution of a queued
    command), [VersionQuery], [Operations], [Maintenance] and [Tracking].

    Between two receives from the channel the other threads may send
    commands and change what the worker shares with them in any way.  The
    driver calls of transactions, polling cycles, version queries and of the
    opening of a port may panic: [we_panics] is a panic at the start of a call
    of a transaction, [we_unwinds] one at the end of an operation on the port,
    after its effects.  A panic while the supervisor itself reopens the port,
    which ends the thread, is left out, as are log lines and sleeping. *)

From S2P Require Import Prelude RustFloat RustStr Model Parser Csv Protocol Tracking Transaction Transport FailureLog Frames Acquisition Maintenance Operations VersionQuery.
From stdpp Require Import pretty.
Open Scope string_scope.
Open Scope Z_scope.
Open Scope list_scope.

(** ** State *)

(** What the worker does that others see: the events of transactions and
    rejections, the answers to control receipts; the arrival of a command in
    the channel, a transaction cut off by a panic and a command dropped by one
    are recorded too. *)
Inductive WorkerEvent :=
| Arrived (c : Command)
| Executed (e : Event)
| Replied (revision : Z) (outcome : result string ())
| Interrupted (c : QueuedCommand)
| Dropped (c : Command).

Record Worker := {
  wk_m : Manager;
  wk_queue : list QueuedCommand;
  wk_pacing : CommandPacing;
  wk_versions : list Z;
  wk_channel : list Command;
  wk_recvs : nat;
  wk_passes : nat;
  wk_gate : GateState;
  wk_ops : OpsState;
  wk_tracker : State;
  wk_system : SystemState;
  wk_events : list WorkerEvent
}.

Definition set_manager (m : Manager) (w : Worker) : Worker :=
  {| wk_m := m; wk_queue := wk_queue w; wk_pacing := wk_pacing w; wk_versions := wk_versions w;
     wk_channel := wk_channel w; wk_recvs := wk_recvs w; wk_passes := wk_passes w; wk_gate := wk_gate w;
     wk_ops := wk_ops w; wk_tracker := wk_tracker w; wk_system := wk_system w; wk_events := wk_events w |}.
Definition set_queue (queue : list QueuedCommand) (pacing : CommandPacing) (versions : list Z) (w : Worker) : Worker :=
  {| wk_m := wk_m w; wk_queue := queue; wk_pacing := pacing; wk_versions := versions;
     wk_channel := wk_channel w; wk_recvs := wk_recvs w; wk_passes := wk_passes w; wk_gate := wk_gate w;
     wk_ops := wk_ops w; wk_tracker := wk_tracker w; wk_system := wk_system w; wk_events := wk_events w |}.
Definition set_shared (g : GateState) (o : OpsState) (s : State) (w : Worker) : Worker :=
  {| wk_m := wk_m w; wk_queue := wk_queue w; wk_pacing := wk_pacing w; wk_versions := wk_versions w;
     wk_channel := wk_channel w; wk_recvs := wk_recvs w; wk_passes := wk_passes w; wk_gate := g;
     wk_ops := o; wk_tracker := s; wk_system := wk_system w; wk_events := wk_events w |}.
Definition set_channel (channel : list Command) (recvs passes : nat) (w : Worker) : Worker :=
  {| wk_m := wk_m w; wk_queue := wk_queue w; wk_pacing := wk_pacing w; wk_versions := wk_versions w;
     wk_channel := channel; wk_recvs := recvs; wk_passes := passes; wk_gate := wk_gate w;
     wk_ops := wk_ops w; wk_tracker := wk_tracker w; wk_system := wk_system w; wk_events := wk_events w |}.
Definition set_system (s : SystemState) (w : Worker) : Worker :=
  {| wk_m := wk_m w; wk_queue := wk_queue w; wk_pacing := wk_pacing w; wk_versions := wk_versions w;
     wk_channel := wk_channel w; wk_recvs := wk_recvs w; wk_passes := wk_passes w; wk_gate := wk_gate w;
     wk_ops := wk_ops w; wk_tracker := wk_tracker w; wk_system := s; wk_events := wk_events w |}.
Definition log_events (es : list WorkerEvent) (w : Worker) : Worker :=
  {| wk_m := wk_m w; wk_queue := wk_queue w; wk_pacing := wk_pacing w; wk_versions := wk_versions w;
     wk_channel := wk_channel w; wk_recvs := wk_recvs w; wk_passes := wk_passes w; wk_gate := wk_gate w;
     wk_ops := wk_ops w; wk_tracker := wk_tracker w; wk_system := wk_system w; wk_events := wk_events w ++ es |}.

Definition set_commands (queue : list QueuedCommand) (w : Worker) : Worker :=
  set_queue queue (wk_pacing w) (wk_versions w) w.
Definition set_pacing (p : CommandPacing) (w : Worker) : Worker := set_queue (wk_queue w) p (wk_versions w) w.
Definition set_versions (v : list Z) (w : Worker) : Worker := set_queue (wk_queue w) (wk_pacing w) v w.
Definition set_ops (o : OpsState) (w : Worker) : Worker := set_shared (wk_gate w) o (wk_tracker w) w.

(** A piece of the worker: [None] is a call that never returns, an inner
    [None] a panic that unwinds to the supervisor. *)
Definition W (A : Type) : Type := Worker -> option (Worker * option A).
#[export] Instance W_ret : MRet W := fun A a w => Some (w, Some a).
#[export] Instance W_bind : MBind W := fun A B k m w =>
  match m w with Some (w', Some a) => k a w' | Some (w', None) => Some (w', None) | None => None end.

Definition change (f : Worker -> Worker) : W unit := fun w => Some (f w, Some tt).
Definition asks {A} (f : Worker -> A) : W A := fun w => Some (w, Some (f w)).
Definition when (b : bool) (m : W unit) : W unit := if b then m else mret tt.
(** An operation of the manager. *)
Definition on_manager {A} (f : Manager -> option (Manager * A)) : W A := fun w =>
  '(m, a) ← f (wk_m w); Some (set_manager m w, Some a).
(** [m] with what is dropped when it unwinds. *)
Definition on_unwind {A} (cleanup : W unit) (m : W A) : W A := fun w =>
  match m w with
  | Some (w', None) => '(w', _) ← cleanup w'; Some (w', None)
  | r => r
  end.

(** ** Environment *)

Record WorkerEnv := {
  we_arrivals : nat -> list Command;
  we_others : nat -> GateState * OpsState * State -> GateState * OpsState * State;
  we_cancelled : nat -> bool;
  we_panics : nat -> bool;
  we_unwinds : nat -> bool;
  we_persisted : nat -> StoredStationState -> result string ();
  we_stamp : Z -> string
}.

Definition MAX_COMMANDS_PER_CYCLE : nat := 1024.

Inductive CycleResult := Idle | QuerySent (query : SendData) | PassiveReceive | CommandHandled.

Section Worker.
Context (su : Setup) (drv : Driver) (env : WorkerEnv).
Context (port_name : string) (command_retry_count query_retry_count : Z) (fuel : nat).

Notation port := (su_port_number su).

(** [Instant::now]. *)
Definition clock : W Z := fun w =>
  let m := wk_m w in Some (set_manager (used m (S (m_calls m)) []) w, Some (drv_clock drv (m_calls m))).

(** An operation on the port, whose driver calls may panic. *)
Definition on_port {A} (f : Manager -> option (Manager * A)) : W A := fun w =>
  '(m, a) ← f (wk_m w); Some (set_manager m w, if we_unwinds env (m_calls m) then None else Some a).

(** ** Transactions and rejections *)

(** The environment of a transaction; only an executed command asks for the
    answers of the port. *)
Definition base_env : Env :=
  {| env_port := port; env_port_name := port_name; env_now := fun _ => 0; env_send := fun _ => None;
     env_ack := fun _ => None; env_stamp := we_stamp env |}.

(** Each release gives the permit back to the console. *)
Fixpoint give_back (es : list Event) (g : GateState) (o : OpsState) : GateState * OpsState :=
  match es with
  | [] => (g, o)
  | Released :: es => let '(g, o) := drop_command_permit g o port in give_back es g o
  | _ :: es => give_back es g o
  end.

Definition absorb (w : Worker) (t : Tx) : Worker :=
  let '(g, o) := give_back (tx_events t) (wk_gate w) (wk_ops w) in
  log_events (Executed <$> tx_events t) (set_shared g o (default (wk_tracker w) (tx_tracker t)) w).

(** [m] with the tracker of the worker and a permit to give back. *)
Definition in_tx (permit : bool) (m : M unit) : W unit := fun w =>
  let '(t, r) := m {| tx_tracker := Some (wk_tracker w); tx_permit := permit; tx_events := []; tx_audits := [] |} in
  Some (absorb w t, r).

Definition change_rejected (reason : string) (v : Snapshot) : Snapshot :=
  set_execution v "Failed" reason (attempt_count v) (sent_count v) (attempts v) (audit_incomplete v).
Definition change_unsent (v : Snapshot) : Snapshot :=
  if terminal v then v else change_rejected "worker_shutdown_before_send" v.

(** The end of a command that is not executed. *)
Definition reject (permit : bool) (ack : option Z) (report_ack : bool) (f : Snapshot -> Snapshot) : W unit :=
  in_tx permit (_ ← drop_permit; _ ← track base_env ack f;
                if report_ack then send_ack_status base_env ack Failed else mret tt).

Definition configured_device_disabled (m : Manager) (id : Z) : bool :=
  match position su id with
  | Some index => match m_states m !! index with Some st => negb (is_enabled st) | None => false end
  | None => false
  end.

Definition enqueue_or_reject_command (data : SendData) (report_ack : bool) (ack_id expires_at : option Z)
    (permit : bool) : W unit :=
  m ← asks wk_m;
  let reject_reason :=
    if negb (m_status m) then Some "port_disabled"
    else if configured_device_disabled m (sd_device_id data) then Some "device_disabled" else None in
  match reject_reason with
  | Some reason => reject permit ack_id report_ack (change_rejected reason)
  | None =>
      change (fun w => set_commands (wk_queue w ++ [{| qc_data := data; qc_report_ack := report_ack; qc_ack_id := ack_id;
                                                       qc_expires_at := expires_at; qc_permit := permit |}]) w)
  end.

Fixpoint reject_all (rejected : list QueuedCommand) (reason : string) : W unit :=
  match rejected with
  | [] => mret tt
  | c :: rejected =>
      _ ← reject (qc_permit c) (qc_ack_id c) (qc_report_ack c) (change_rejected reason);
      reject_all rejected reason
  end.

Definition targets (target : option Z) (c : QueuedCommand) : bool :=
  match target with None => true | Some id => sd_device_id (qc_data c) =? id end.

Definition reject_queued_commands (target : option Z) (reason : string) : W unit :=
  queue ← asks wk_queue;
  _ ← change (set_commands (filter (fun c => targets target c = false) queue));
  reject_all (filter (fun c => targets target c = true) queue) reason.

(** ** The ingress channel *)

(** [rx.try_recv], after what the other threads did meanwhile. *)
Definition try_recv : W (option Command) := fun w =>
  let i := wk_recvs w in
  let '(g, o, s) := we_others env i (wk_gate w, wk_ops w, wk_tracker w) in
  let w := log_events (Arrived <$> we_arrivals env i) (set_shared g o s w) in
  match wk_channel w ++ we_arrivals env i with
  | [] => Some (set_channel [] (S i) (wk_passes w) w, Some None)
  | c :: channel => Some (set_channel channel (S i) (wk_passes w) w, Some (Some c))
  end.

Definition drop_held (permit : bool) : W unit := in_tx permit drop_permit.

Definition answer (revision : Z) (outcome : result string ()) : W unit := change (log_events [Replied revision outcome]).
Definition complete (revision : Z) (outcome : result string ()) : W unit :=
  _ ← change (fun w => set_ops (complete_control (wk_ops w) port revision outcome) w);
  answer revision outcome.

Definition is_data (c : CommandType) : bool :=
  match c with SendDataCommand _ | SendDataWithAck _ => true | _ => false end.
Definition wants_ack (c : CommandType) : bool := match c with SendDataWithAck _ => true | _ => false end.

(** One command of [reject_incoming_commands]. *)
Definition reject_incoming (c : Command) : W unit :=
  _ ← (if is_data (cm_command c) then reject (cm_permit c) (cm_ack_id c) (wants_ack (cm_command c)) change_unsent
       else drop_held (cm_permit c));
  match cm_control_receipt c with
  | Some revision => complete revision (Err "serial worker shut down before applying control")
  | None => mret tt
  end.

(** The loop ends when the channel is empty; [rounds] bounds how long the
    others keep it filled. *)
Fixpoint reject_incoming_commands (rounds : nat) : W unit :=
  match rounds with
  | O => fun _ => None
  | S rounds =>
      c ← try_recv;
      match c with
      | None => mret tt
      | Some c => _ ← reject_incoming c; reject_incoming_commands rounds
      end
  end.

(** [refresh_operations_state]. *)
Definition device_report (m : Manager) (ds : DeviceConfig * DeviceRuntimeState) : DeviceReport :=
  let (device, runtime) := ds in
  {| dr_id := Csv.device_id (dc_config device); dr_read_enabled := read_enabled runtime;
     dr_communication_ok :=
       m_status m && m_port m && is_enabled runtime && read_enabled runtime
       && bool_decide (last_com_status runtime = Some true) && bool_decide (last_device_status runtime = Some true);
     dr_last_data_at := we_stamp env <$> last_data_at runtime |}.
Definition refresh_operations_state : W unit := change (fun w =>
  let m := wk_m w in
  set_ops (report_runtime (wk_ops w) port (m_status m) (m_port m)
             (device_report m <$> zip (su_devices su) (m_states m))) w).

Definition schedule_station_version_query (id : Z) : W unit :=
  change (fun w => set_versions (schedule (wk_versions w) id) w).
Definition schedule_configured_domestic_version_queries : W unit := change (fun w =>
  set_versions (foldl schedule (wk_versions w) (startup_version_query_devices (wk_ops w) port)) w).

(** [initial_module_type(..) == Domestic]. *)
Definition domestic (w : Worker) (id : Z) : bool := bool_decide (initial_module_type (wk_ops w) port id = Domestic).

(** The end of a version query: its result is reported. *)
Definition report_query (id : Z) (result : result string StationVersionResponse) : W (Prelude.result string ()) := fun w =>
  let calls := m_calls (wk_m w) in
  let '(o, r) := report_station_query_result (wk_ops w) port id result (we_stamp env (drv_clock drv calls))
                   (we_persisted env calls) in
  Some (set_ops o w, Some r).
Definition query_and_report (id : Z) : W (result string ()) :=
  result ← on_port (fun m => perform_station_version_query su drv fuel m id);
  report_query id result.

(** ** Control commands *)

Definition apply_port_status (status : bool) : W (result string ()) :=
  previous ← asks (fun w => m_status (wk_m w));
  outcome ← (if status then on_port else on_manager) (fun m => Some (set_port_enabled su drv m status));
  _ ← when (negb (Bool.eqb previous status))
        (if status then schedule_configured_domestic_version_queries
         else reject_queued_commands None "port_disabled");
  _ ← change (fun w => match set_port_status (wk_system w) port status with Ok s => set_system s w | Err _ => w end);
  mret outcome.

Definition matching_indexes (id : Z) : list nat :=
  filter (fun i => (fun d => Csv.device_id (dc_config d)) <$> su_devices su !! i = Some id)
    (seq 0 (length (su_devices su))).

(** Enabling schedules a version query, disabling publishes the device. *)
Definition apply_device_index (id : Z) (status : bool) (index : nat) : W unit :=
  previous ← asks (fun w => match m_states (wk_m w) !! index with Some st => is_enabled st | None => status end);
  _ ← on_manager (fun m => Some (set_device_enabled su m index status, tt));
  w ← asks (fun w => w);
  when (negb (Bool.eqb previous status) && status && domestic w id) (schedule_station_version_query id).

Fixpoint apply_device_indexes (id : Z) (status : bool) (indexes : list nat) : W unit :=
  match indexes with
  | [] => mret tt
  | index :: indexes => _ ← apply_device_index id status index; apply_device_indexes id status indexes
  end.

Definition apply_device_setting (id : Z) (status : bool) : W unit :=
  _ ← apply_device_indexes id status (matching_indexes id);
  _ ← when (negb status) (reject_queued_commands (Some id) "device_disabled");
  change (fun w => match set_device_status (wk_system w) port id status with Ok s => set_system s w | Err _ => w end).

Definition apply_device_read (id : Z) (enabled : bool) : W (result string ()) :=
  outcome ← on_manager (fun m => Some (set_device_read_enabled su m id enabled));
  w ← asks (fun w => w);
  _ ← when (enabled && domestic w id) (schedule_station_version_query id);
  mret outcome.

(** The body of [process_incoming_commands] for a command whose receipt, if
    any, is current: the outcome of a control. *)
Definition apply_command (c : Command) : W (result string ()) :=
  match cm_command c with
  | SendDataCommand data =>
      _ ← enqueue_or_reject_command data false (cm_ack_id c) (cm_expires_at c) (cm_permit c); mret (Ok ())
  | SendDataWithAck data =>
      _ ← enqueue_or_reject_command data true (cm_ack_id c) (cm_expires_at c) (cm_permit c); mret (Ok ())
  | PortStatus status => apply_port_status status
  | DeviceSetting id status => _ ← apply_device_setting id status; mret (Ok ())
  | DeviceReadSetting id enabled => apply_device_read id enabled
  | StationModuleTypeSetting id module_type =>
      _ ← (if bool_decide (module_type = Domestic) then schedule_station_version_query id
           else change (fun w => set_versions (VersionQuery.cancel (wk_versions w) id) w));
      mret (Ok ())
  | QueryStationVersion id => query_and_report id
  end.

(** A permit that no queue took is dropped at the end of the iteration; when
    the iteration unwinds, with the rest of the command. *)
Definition drop_command (c : Command) : W unit :=
  _ ← when (negb (is_data (cm_command c))) (drop_held (cm_permit c));
  change (log_events [Dropped c]).
Definition process_command (c : Command) : W unit :=
  w ← asks (fun w => w);
  match cm_control_receipt c with
  | Some revision =>
      if negb (control_is_current (wk_ops w) port revision) then
        _ ← answer revision (Err "control request was superseded or invalidated; refresh status");
        drop_held (cm_permit c)
      else
        outcome ← on_unwind (drop_command c) (apply_command c);
        _ ← refresh_operations_state;
        _ ← complete revision outcome;
        when (negb (is_data (cm_command c))) (drop_held (cm_permit c))
  | None =>
      _ ← on_unwind (drop_command c) (apply_command c);
      when (negb (is_data (cm_command c))) (drop_held (cm_permit c))
  end.

Fixpoint process_commands (budget : nat) : W unit :=
  match budget with
  | O => mret tt
  | S budget =>
      c ← try_recv;
      match c with
      | None => mret tt
      | Some c => _ ← process_command c; process_commands budget
      end
  end.
Definition process_incoming_commands : W unit := process_commands MAX_COMMANDS_PER_CYCLE.

(** ** The execution of a queued command *)

(** One attempt of a transaction on the port: the clock before it, the
    answers of [send_command] and [receive_command_ack_result]. *)
Record Turn := { tu_now : Z; tu_sent : option bool; tu_ack : option (result string unit) }.

Definition past (expires_at : option Z) (now : Z) : bool :=
  match expires_at with Some deadline => deadline <=? now | None => false end.

(** The attempts a transaction makes on the manager: a further one only after
    a complete send that was not acknowledged. *)
Fixpoint port_turns (budget : nat) (report_ack : bool) (expires_at : option Z) (data : list Z) (m : Manager)
    : option (list Turn * Manager) :=
  match budget with
  | O => Some ([], m)
  | S budget =>
      let now := drv_clock drv (m_calls m) in
      let m := used m (S (m_calls m)) [] in
      if report_ack && past expires_at now || we_panics env (m_calls m)
      then Some ([{| tu_now := now; tu_sent := None; tu_ack := None |}], m)
      else
        '(m, sent) ← Acquisition.send_command su drv fuel m data;
        if we_unwinds env (m_calls m) then Some ([{| tu_now := now; tu_sent := None; tu_ack := None |}], m)
        else if negb sent || negb report_ack || we_panics env (m_calls m)
        then Some ([{| tu_now := now; tu_sent := Some sent; tu_ack := None |}], m)
        else
          '(m, r) ← Acquisition.receive_command_ack_result su drv m;
          if we_unwinds env (m_calls m) then Some ([{| tu_now := now; tu_sent := Some true; tu_ack := None |}], m)
          else
          let turn := {| tu_now := now; tu_sent := Some true; tu_ack := Some r |} in
          match r with
          | Ok _ => Some ([turn], m)
          | Err _ => '(turns, m) ← port_turns budget report_ack expires_at data m; Some (turn :: turns, m)
          end
  end.

Definition turn_env (now : Z) (turns : list Turn) : Env :=
  let turn (n : Z) := turns !! Z.to_nat (n - 1) in
  {| env_port := port; env_port_name := port_name;
     env_now := fun n => if n =? 0 then now else match turn n with Some t => tu_now t | None => now end;
     env_send := fun n => turn n ≫= tu_sent; env_ack := fun n => turn n ≫= tu_ack; env_stamp := we_stamp env |}.

(** [execute_queued_command] on the manager. *)
Definition execute_at (c : QueuedCommand) (now : Z) : W unit := fun w =>
  '(turns, m) ← (if past (qc_expires_at c) now then Some ([], wk_m w)
                 else port_turns (if qc_report_ack c then Z.to_nat (Z.max command_retry_count 1) else 1%nat)
                        (qc_report_ack c) (qc_expires_at c) (sd_command (qc_data c)) (wk_m w));
  let '(t, r) := Transaction.run (turn_env now turns) (Some (wk_tracker w)) c command_retry_count in
  let w := absorb (set_manager m w) t in
  Some match r with
       | Some _ => (w, Some tt)
       | None => (log_events [Interrupted c] w, None)
       end.
Definition execute_queued (c : QueuedCommand) : W unit := now ← clock; execute_at c now.

Definition execute_next_ready_command : W (option bool) :=
  now ← clock;
  w ← asks (fun w => w);
  match wk_queue w with
  | [] => mret None
  | head :: queue =>
      let expired := past (qc_expires_at head) now in
      if negb expired && negb (ready (wk_pacing w) now) then mret None
      else
        _ ← change (set_commands queue);
        later ← clock;
        _ ← execute_queued head;
        _ ← (if past (qc_expires_at head) later then mret tt
             else finished ← clock; change (fun w => set_pacing (completed (wk_pacing w) finished) w));
        mret (Some (qc_report_ack head))
  end.

(** ** Cycles *)

Definition panic {A} : W A := fun w => Some (w, None).

Definition status_query (dev : DeviceConfig) : SendData :=
  let id := Csv.device_id (dc_config dev) in
  let frame := [id; READ_STATUS; READ_SUBCMD; STATUS_PAGE; STATUS_OFFSET; data_len (dc_config dev)] in
  {| sd_device_id := id; sd_command := frame ++ [get_sum frame] |}.

(** A device with too many timeouts is left out for some rounds: [None] when
    its turn is skipped. *)
Definition skip_round (st : DeviceRuntimeState) : option DeviceRuntimeState :=
  if DEVICE_TIMEOUT_SKIP <? timeout_count st then
    if DEVICE_SKIP_ROUNDS <? current_round st then Some (set_counters st (timeout_count st) 0 (parse_fail_count st))
    else None
  else Some st.

Definition run_primary_cycle : W CycleResult :=
  handled ← execute_next_ready_command;
  match handled with
  | Some _ => mret CommandHandled
  | None =>
      w ← asks (fun w => w);
      let m := wk_m w in
      let idx := m_index m in
      match su_devices su with
      | [] => mret Idle
      | _ :: _ =>
          match su_devices su !! idx, m_states m !! idx with
          | Some dev, Some st =>
              match skip_round st with
              | None =>
                  _ ← on_manager (fun m => Some (alter_state (fun s =>
                        set_counters s (timeout_count s) (current_round s + 1) (parse_fail_count s)) idx m, tt));
                  mret Idle
              | Some st =>
                  _ ← on_manager (fun m => Some (alter_state (fun s =>
                        set_counters s (timeout_count s) (current_round st) (parse_fail_count s)) idx m, tt));
                  if negb (is_enabled st) || negb (read_enabled st) then mret Idle
                  else
                    let query := status_query dev in
                    sent ← on_port (fun m =>
                             Acquisition.send_command su drv fuel (prepare_automatic_query m) (sd_command query));
                    mret (if sent : bool then QuerySent query else Idle)
              end
          | _, _ => panic
          end
      end
  end.

Definition run_secondary_cycle : W CycleResult :=
  handled ← execute_next_ready_command;
  mret (if bool_decide (handled = Some true) then CommandHandled else PassiveReceive).

(** ** Automatic version queries *)

(** The admission of the maintenance gate is held during the query. *)
Definition drop_query_admission : W unit :=
  change (fun w => set_shared (drop_admission (wk_gate w)) (wk_ops w) (wk_tracker w) w).
Definition execute_one_scheduled_station_version_query : W unit :=
  w ← asks (fun w => w);
  match next (wk_versions w) with
  | None => mret tt
  | Some (id, versions) =>
      _ ← change (set_versions versions);
      match admit_mutation (wk_gate w) with
      | (_, Err e) => when (String.eqb (oe_code e) "busy") (schedule_station_version_query id)
      | (g, Ok _) =>
          let calls := m_calls (wk_m w) in
          let '(o, r) := begin_automatic_station_query (wk_ops w) (we_cancelled env (wk_passes w)) port id
                           (we_stamp env (drv_clock drv calls)) (we_persisted env calls) in
          match r with
          | Ok true =>
              _ ← change (set_shared g o (wk_tracker w));
              _ ← on_unwind drop_query_admission (query_and_report id);
              drop_query_admission
          | Ok false => change (set_shared (drop_admission g) o (wk_tracker w))
          | Err e =>
              _ ← change (set_shared (drop_admission g) o (wk_tracker w));
              when (String.eqb (oe_code e) "busy") (schedule_station_version_query id)
          end
      end
  end.

(** ** Rounds *)

(** The reception after a cycle and the step to the next device. *)
Definition finish_cycle (cycle : CycleResult) : W unit :=
  _ ← match cycle with
      | QuerySent query => on_port (fun m =>
          m ← receive_query_with_retry su drv fuel m (sd_command query) query_retry_count; Some (m, tt))
      | PassiveReceive => on_port (fun m => m ← receive_data su drv m; Some (m, tt))
      | Idle | CommandHandled => mret tt
      end;
  w ← asks (fun w => w);
  match cycle with
  | CommandHandled => mret tt
  | _ =>
      when (bool_decide (m_run (wk_m w) = Primary))
        (_ ← on_manager (fun m => Some (next_index su m, tt));
         w ← asks (fun w => w);
         when (match cycle with QuerySent _ | Idle => true | _ => false end && (m_index (wk_m w) =? 0)%nat)
           execute_one_scheduled_station_version_query)
  end.

(** One round of [run_worker_loop]; [false] when the worker is to stop. *)
Definition worker_pass (rounds : nat) : W bool :=
  w ← asks (fun w => w);
  _ ← change (fun w => set_channel (wk_channel w) (wk_recvs w) (S (wk_passes w)) w);
  if we_cancelled env (wk_passes w) then
    _ ← reject_queued_commands None "worker_shutdown";
    _ ← reject_incoming_commands rounds;
    mret false
  else
    _ ← process_incoming_commands;
    _ ← refresh_operations_state;
    w ← asks (fun w => w);
    if negb (m_status (wk_m w)) then mret true
    else
      match su_devices su with
      | [] => mret true
      | _ :: _ =>
          cycle ← match m_run (wk_m w) with Primary => run_primary_cycle | Secondary => run_secondary_cycle end;
          _ ← finish_cycle cycle;
          _ ← refresh_operations_state;
          mret true
      end.

Definition fail_inflight (message : string) : W unit := change (fun w =>
  let calls := m_calls (wk_m w) in
  set_ops (fail_inflight_station_queries (wk_ops w) port message (we_stamp env (drv_clock drv calls))
             (we_persisted env calls)) w).

(** What the supervisor does after a panic; [false] when it stops. *)
Definition recover_panic (rounds : nat) : W bool :=
  now ← clock;
  _ ← change (fun w => set_pacing (completed (wk_pacing w) now) w);
  _ ← on_manager (fun m => Some (prepare_worker_restart su m, tt));
  _ ← change (fun w => set_ops (fail_pending_controls (wk_ops w) port "serial worker panicked before confirmation") w);
  _ ← fail_inflight "station version query interrupted by serial worker panic";
  _ ← reject_queued_commands None "worker_panic";
  w ← asks (fun w => w);
  if we_cancelled env (wk_passes w) then
    _ ← reject_incoming_commands rounds; mret false
  else
    _ ← on_manager (fun m => Some (reconnect su drv m, tt));
    _ ← schedule_configured_domestic_version_queries;
    _ ← refresh_operations_state;
    mret true.

(** [catch_unwind] around a round. *)
Definition supervised (rounds : nat) : W bool := fun w =>
  match worker_pass rounds w with
  | Some (w, None) => recover_panic rounds w
  | r => r
  end.

(** The end of the thread. *)
Definition stop_worker : W unit :=
  _ ← on_manager (fun m => Some (close_port m, tt));
  _ ← fail_inflight "station version query interrupted by serial worker shutdown";
  change (fun w => set_ops (worker_stopped (wk_ops w) port) w).

(** [passes] rounds, or fewer if the worker stops. *)
Fixpoint run_worker (passes rounds : nat) : W bool :=
  match passes with
  | O => mret true
  | S passes =>
      go ← supervised rounds;
      if go : bool then run_worker passes rounds else _ ← stop_worker; mret false
  end.

(** [spawn_serial_worker] up to its loop. *)
Fixpoint apply_initial_reads (o : OpsState) (devices : list DeviceConfig) (m : Manager) : Manager :=
  match devices with
  | [] => m
  | device :: devices =>
      let id := Csv.device_id (dc_config device) in
      apply_initial_reads o devices
        (if initial_device_read_enabled o port_name id then m else (set_device_read_enabled su m id false).1)
  end.

Definition start_worker (current_run : RunLocation) (command_interval : Z) (g : GateState) (o : OpsState) (s : State)
    (system : SystemState) : option (Worker * option unit) :=
  let m := apply_initial_reads o (su_devices su) (new_manager su drv (initial_port_enabled o port_name) current_run) in
  (_ ← schedule_configured_domestic_version_queries; refresh_operations_state)
    {| wk_m := m; wk_queue := []; wk_pacing := {| interval := command_interval; ready_at := None |};
       wk_versions := []; wk_channel := []; wk_recvs := 0; wk_passes := 0; wk_gate := g; wk_ops := o;
       wk_tracker := s; wk_system := system; wk_events := [] |}.
End Worker.

(** ** A program logic

    [wpw m Q P w]: [m] started in [w] returns with [Q] or unwinds with [P], if
    it returns at all. *)

Definition wpw {A} (m : W A) (Q : A -> Worker -> Prop) (P : Worker -> Prop) (w : Worker) : Prop :=
  match m w with Some (w', Some a) => Q a w' | Some (w', None) => P w' | None => True end.

Section Logic.
Context {A B : Type}.
Implicit Types (m : W A) (Q : A -> Worker -> Prop) (P : Worker -> Prop) (w : Worker).

Lemma wpw_bind m (k : A -> W B) R P w : wpw m (fun a w' => wpw (k a) R P w') P w -> wpw (m ≫= k) R P w.
Proof. unfold wpw, mbind, W_bind. destruct (m w) as [[w' [a|]]|]; done. Qed.

Lemma wpw_ret (a : A) Q P w : Q a w -> wpw (mret a) Q P w.
Proof. done. Qed.

Lemma wpw_asks (f : Worker -> A) Q P w : Q (f w) w -> wpw (asks f) Q P w.
Proof. done. Qed.

Lemma wpw_manager (f : Manager -> option (Manager * A)) Q P w :
  (forall x a, f (wk_m w) = Some (x, a) -> Q a (set_manager x w)) -> wpw (on_manager f) Q P w.
Proof. unfold wpw, on_manager. intros H. destruct (f (wk_m w)) as [[m a]|]; [by apply H|done]. Qed.

Lemma wpw_unwind cleanup m Q P w :
  wpw m Q (fun w' => match cleanup w' with Some (w'', _) => P w'' | None => True end) w -> wpw (on_unwind cleanup m) Q P w.
Proof. unfold wpw, on_unwind. destruct (m w) as [[w' [a|]]|]; [done| |done]. cbn. by destruct (cleanup w') as [[w'' r]|]. Qed.

Lemma wpw_mono m Q Q' P P' w :
  wpw m Q P w -> (forall a w', Q a w' -> Q' a w') -> (forall w', P w' -> P' w') -> wpw m Q' P' w.
Proof. unfold wpw. destruct (m w) as [[w' [a|]]|]; auto. Qed.
End Logic.

Lemma wpw_change f (Q : unit -> Worker -> Prop) P w : Q tt (f w) -> wpw (change f) Q P w.
Proof. done. Qed.

Lemma wpw_when (b : bool) m (Q : unit -> Worker -> Prop) P w :
  (b = true -> wpw m Q P w) -> (b = false -> Q tt w) -> wpw (when b m) Q P w.
Proof. intros H1 H0. destruct b; [by apply H1|by apply H0]. Qed.

(** One step of symbolic execution. *)
Ltac wpw_step :=
  match goal with
  | |- wpw (mret _) _ _ _ => apply wpw_ret
  | |- wpw (_ ≫= _) _ _ _ => apply wpw_bind
  | |- wpw (change _) _ _ _ => apply wpw_change
  | |- wpw (asks _) _ _ _ => apply wpw_asks
  | |- wpw (answer _ _) _ _ _ => apply wpw_change
  | |- wpw (clock _) _ _ _ => apply wpw_change
  | |- wpw (refresh_operations_state _ _) _ _ _ => apply wpw_change
  | |- wpw (schedule_station_version_query _) _ _ _ => apply wpw_change
  | |- wpw (schedule_configured_domestic_version_queries _) _ _ _ => apply wpw_change
  | |- wpw drop_query_admission _ _ _ => apply wpw_change
  end; cbv beta.

(** ** Debts

    What a command is owed: a terminal notification, the release of its
    permit, an answer to its receipt. *)

Inductive Debt := Ack (ack : option Z) | Permit | Receipt (revision : Z).

Definition ack_debt (report_ack : bool) (ack : option Z) : list Debt := if report_ack then [Ack ack] else [].
Definition permit_debt (permit : bool) : list Debt := if permit then [Permit] else [].
Definition receipt_debt (receipt : option Z) : list Debt := match receipt with Some r => [Receipt r] | None => [] end.

Definition owes (c : Command) : list Debt :=
  ack_debt (wants_ack (cm_command c)) (cm_ack_id c) ++ permit_debt (cm_permit c) ++ receipt_debt (cm_control_receipt c).
Definition owes_queued (c : QueuedCommand) : list Debt :=
  ack_debt (qc_report_ack c) (qc_ack_id c) ++ permit_debt (qc_permit c).

(** What was given. *)
Definition settles (e : WorkerEvent) : list Debt :=
  match e with
  | Executed Released => [Permit]
  | Executed (Notified u) => if is_terminal (cau_status u) then [Ack (cau_ack_id u)] else []
  | Replied revision _ => [Receipt revision]
  | _ => []
  end.
(** What a panic cut off: the notification of the command in execution, the
    answer to the control in hand. *)
Definition cut_off (e : WorkerEvent) : list Debt :=
  match e with
  | Interrupted c => ack_debt (qc_report_ack c) (qc_ack_id c)
  | Dropped c => receipt_debt (cm_control_receipt c)
  | _ => []
  end.
Definition clears (e : WorkerEvent) : list Debt := settles e ++ cut_off e.
Definition incurs (e : WorkerEvent) : list Debt := match e with Arrived c => owes c | _ => [] end.

Lemma cut_off_permit es : Permit ∉ es ≫= cut_off.
Proof.
  intros (e & Hin & _)%list_elem_of_bind. destruct e as [| | |c|c]; cbn in Hin; try by apply not_elem_of_nil in Hin.
  - unfold ack_debt in Hin. destruct (qc_report_ack c); [apply list_elem_of_singleton in Hin|apply not_elem_of_nil in Hin]; done.
  - destruct (cm_control_receipt c); cbn in Hin; [apply list_elem_of_singleton in Hin|apply not_elem_of_nil in Hin]; done.
Qed.

Lemma clears_split es : es ≫= clears ≡ₚ (es ≫= settles) ++ (es ≫= cut_off).
Proof. induction es as [|e es IH]; [done|]. cbn [mbind list_bind]. rewrite IH. unfold clears. solve_Permutation. Qed.

(** The books: what is settled, cut off, queued, in the channel and in hand is
    what arrived. *)
Definition owed (hand : list Debt) (w : Worker) : Prop :=
  (wk_events w ≫= clears) ++ (wk_queue w ≫= owes_queued) ++ (wk_channel w ≫= owes) ++ hand
    ≡ₚ wk_events w ≫= incurs.

(** No requester attaches a receipt to a command that waits for a
    notification. *)
Definition command_ok (c : Command) : Prop := wants_ack (cm_command c) = true -> cm_control_receipt c = None.

(** What is settled by events that do not arrive. *)
Lemma owed_log es hand w : es ≫= incurs = [] -> owed ((es ≫= clears) ++ hand) w -> owed hand (log_events es w).
Proof.
  unfold owed, log_events. cbn [wk_events wk_queue wk_channel]. intros Hi H. rewrite !bind_app, Hi, app_nil_r, <- H. solve_Permutation.
Qed.

(** ** The switches of a port

    Only the control commands change them. *)

Definition flags (m : Manager) : bool * list bool := (m_status m, is_enabled <$> m_states m).

Lemma flags_polling m m' : polling m' = polling m -> flags m' = flags m.
Proof.
  unfold polling, flags. intros H. pose proof (f_equal (fun x => x.1.2) H) as Hs. pose proof (f_equal snd H) as Hd.
  simpl in Hs, Hd. rewrite Hs. f_equal.
  apply (f_equal (fmap (fun x : Z * Z * Z * bool * bool * option Z => x.1.1.2))) in Hd. by rewrite <- !list_fmap_compose in Hd.
Qed.

Lemma flags_alter f i m : (forall s, is_enabled (f s) = is_enabled s) -> flags (alter_state f i m) = flags m.
Proof.
  intros Hf. unfold flags, alter_state. cbn [set_states m_status m_states]. f_equal.
  apply list_eq. intros j. rewrite !list_lookup_fmap. destruct (decide (i = j)) as [<-|Hne].
  - rewrite list_lookup_alter_eq. destruct (m_states m !! i); [|done]. simpl. by rewrite Hf.
  - by rewrite list_lookup_alter_ne.
Qed.

Lemma flags_role m i run t p : flags (set_role m i run t p) = flags m.
Proof. done. Qed.

Lemma flags_log m l r u : flags (set_reconnect m l r u) = flags m.
Proof. done. Qed.

Section Flags.
Context (su : Setup) (drv : Driver).

Lemma flags_switch m role : flags (switch_role m role) = flags m.
Proof. unfold flags, switch_role. cbn. by rewrite <- list_fmap_compose. Qed.

Lemma flags_send_zero m i com dev : flags (send_zero_status_for_index su m i com dev) = flags m.
Proof. apply flags_polling, polling_send_zero. Qed.

Lemma flags_device_failure m kind now com : flags (handle_device_failure su m kind now com) = flags m.
Proof.
  unfold handle_device_failure, send_zero_status. cbv zeta. case_match; rewrite ?flags_switch, flags_send_zero.
  all: by rewrite flags_alter, flags_role, flags_alter.
Qed.

Lemma flags_commit m f com : flags (commit_query_failure_with_com_status su drv m f com) = flags m.
Proof.
  unfold commit_query_failure_with_com_status. destruct f; [apply flags_device_failure|].
  unfold handle_invalid_frame_with_context. cbv zeta. case_match; rewrite ?flags_switch, flags_device_failure.
  all: by rewrite flags_role, flags_alter.
Qed.

Lemma flags_unattributed m : flags (handle_unattributed_frame su drv m) = flags m.
Proof. unfold handle_unattributed_frame. cbv zeta. case_match; by rewrite ?flags_switch. Qed.

Lemma flags_extract m raw : flags (extract_frame su m raw).1.1 = flags m.
Proof.
  unfold extract_frame. cbv zeta.
  set (m1 := if _ : bool then switch_role m Secondary else m).
  assert (H : flags m1 = flags m) by (unfold m1; case_match; [apply flags_switch|done]).
  rewrite <- H. clearbody m1. destruct (m_run m1); [done|]. repeat case_match; done.
Qed.

Lemma flags_valid_packet m packet frame : flags (handle_valid_packet su drv m packet frame) = flags m.
Proof.
  unfold handle_valid_packet. destruct (m_states m !! m_index m) as [st|]; [|done].
  destruct (su_devices su !! m_index m) as [dev|]; [|done]. case_match; [apply flags_send_zero|]. cbv zeta.
  rewrite (flags_polling _ _ (polling_publish _ _ _ _)). rewrite flags_alter by done.
  by rewrite flags_role, flags_alter, flags_log, flags_alter.
Qed.

Lemma flags_accept m raw : flags (accept_raw_frame su drv m raw).1 = flags m.
Proof.
  unfold accept_raw_frame. pose proof (flags_extract m raw) as He.
  destruct (extract_frame su m raw) as [[m1 frame] att]. simpl in He.
  set (m2 := match m_run m1 with Primary => rx_clear m1 | Secondary => m1 end).
  assert (H2 : flags m2 = flags m1) by (unfold m2; by case_match).
  case_match; [simpl; rewrite flags_unattributed; congruence|].
  case_match; simpl; [rewrite flags_valid_packet|]; congruence.
Qed.

Lemma flags_reconnect m : flags (reconnect su drv m) = flags m.
Proof. apply flags_polling, polling_reconnect. Qed.

Lemma flags_read_loop fuel m deadline ext budget m' ending :
  read_loop su drv fuel m deadline ext budget = Some (m', ending) -> flags m' = flags m.
Proof.
  revert m deadline ext. induction fuel as [|fuel IH]; intros m deadline ext; [done|]. cbn [read_loop].
  case_match; [by intros [= <- <-]|]. cbv zeta.
  set (m1 := if is_complete_short_direct_candidate _ _ _ then used m (S (m_calls m)) [] else m).
  assert (H1 : flags m1 = flags m) by (unfold m1; by case_match).
  rewrite <- H1. clearbody m1. case_match; [by intros [= <- <-]|]. case_match; [by intros [= <- <-]|].
  destruct (read_before_deadline _ _ _) as [[|b chunk]|er].
  - case_match; by intros [= <- <-].
  - intros Hl%IH. by rewrite Hl.
  - destruct er; [case_match; by intros [= <- <-]|..]; intros [= <- <-]; by rewrite flags_reconnect.
Qed.

Lemma flags_attempt m m' o : receive_data_attempt su drv m = Some (m', o) -> flags m' = flags m.
Proof.
  unfold receive_data_attempt. case_match; [intros [= <- <-]; apply flags_reconnect|]. cbv zeta.
  destruct (read_loop _ _ _ _ _ _ _) as [[m1 ending]|] eqn:Hl; [|done]. cbn [mbind option_bind].
  apply flags_read_loop in Hl. change (flags (used m (S (m_calls m)) [])) with (flags m) in Hl. rewrite <- Hl.
  destruct ending as [[|b raw]| |]; intros He; injection He; try (by intros _ <-).
  intros H'. pose proof (flags_accept m1 (b :: raw)) as Ha. by rewrite H' in Ha.
Qed.

Lemma flags_receive m m' : receive_data su drv m = Some m' -> flags m' = flags m.
Proof.
  unfold receive_data. destruct (receive_data_attempt su drv m) as [[m1 o]|] eqn:Ha; [|done]. cbn [mbind option_bind].
  apply flags_attempt in Ha. intros [= <-]. case_match; [done| |done|done]. unfold commit_query_failure. by rewrite flags_commit.
Qed.

Lemma flags_send fuel m d m' b : Acquisition.send_command su drv fuel m d = Some (m', b) -> flags m' = flags m.
Proof. intros H. eapply flags_polling, polling_send_command, H. Qed.

Lemma flags_query fuel m query retry m' :
  receive_query_with_retry su drv fuel m query retry = Some m' -> flags m' = flags m.
Proof.
  unfold receive_query_with_retry. case_match; [|by intros [= <-]].
  destruct (receive_data_attempt su drv m) as [[m1 o]|] eqn:Ha; [|done]. cbn [mbind option_bind].
  apply flags_attempt in Ha. rewrite <- Ha. destruct o; try (by intros [= <-]).
  case_match; [intros [= <-]; apply flags_commit|]. case_match; [intros [= <-]; apply flags_commit|].
  destruct (Acquisition.send_command _ _ _ _ _) as [[m2 sent]|] eqn:Hs; [|done]. cbn [mbind option_bind].
  apply flags_send in Hs. change (flags (rx_clear m1)) with (flags m1) in Hs. rewrite <- Hs.
  case_match; [intros [= <-]; apply flags_commit|].
  destruct (receive_data_attempt su drv m2) as [[m3 o]|] eqn:Ha2; [|done]. cbn [mbind option_bind].
  apply flags_attempt in Ha2. rewrite <- Ha2. intros [= <-]. case_match; try done; [|apply flags_commit].
  case_match; [|done]. unfold log_query_retry_success. by rewrite flags_alter.
Qed.

Lemma flags_ack m m' r : Acquisition.receive_command_ack_result su drv m = Some (m', r) -> flags m' = flags m.
Proof.
  unfold Acquisition.receive_command_ack_result. case_match; [intros [= <- <-]; apply flags_reconnect|]. cbv zeta.
  destruct (ack_loop _ _ _ _ _ _) as [[[calls received] q]|]; [|done]. cbn [mbind option_bind].
  intros Hq. injection Hq. destruct q as [[]|]; intros [= <- _]; [done|done|]. by rewrite flags_reconnect.
Qed.
End Flags.

(** ** The events of a transaction *)

Section Events.
Context (e : Env).

Definition sends_only (d : SendData) (ev : Event) : Prop := match ev with Sent d' _ => d' = d | _ => True end.

Lemma waits_settle d ack k : (Executed <$> waits e d ack k) ≫= clears = [].
Proof. unfold waits. induction k as [|k IH]; [done|]. simpl. exact IH. Qed.
Lemma waits_send d ack k : Forall (sends_only d) (waits e d ack k).
Proof. unfold waits. induction k as [|k IH]; [constructor|]. simpl. by repeat constructor. Qed.
Lemma release_settles held : (Executed <$> release held) ≫= clears = permit_debt held.
Proof. by destruct held. Qed.
Lemma release_sends d held : Forall (sends_only d) (release held).
Proof. destruct held; by repeat constructor. Qed.

(** What an executed command is owed is settled when its transaction ends,
    but for the notification of a transaction that unwinds; only the command
    itself is sent. *)
Definition settled_by (c : QueuedCommand) (events : list Event) (r : option bool) : Prop :=
  (Executed <$> events) ≫= clears ≡ₚ
    permit_debt (qc_permit c) ++ (if r then ack_debt (qc_report_ack c) (qc_ack_id c) else []) /\
  Forall (sends_only (qc_data c)) events.

Lemma traced_settles c budget n events r :
  qc_report_ack c = true ->
  traced e (qc_data c) (qc_ack_id c) (qc_expires_at c) budget n (qc_permit c) events r -> settled_by c events r.
Proof.
  intros Hr (k & rest & _ & -> & _ & _ & Hrest). unfold settled_by. rewrite fmap_app, bind_app, waits_settle, Hr.
  assert (H : (Executed <$> rest) ≫= clears ≡ₚ permit_debt (qc_permit c) ++ (if r then [Ack (qc_ack_id c)] else []) /\
              Forall (sends_only (qc_data c)) rest).
  { destruct r as [[]|]; [destruct Hrest as (_ & _ & ->)|destruct Hrest as [[_ ->]|[-> _]]|destruct Hrest as [-> _]].
    all: rewrite ?fmap_app, ?bind_app, ?release_settles; split; [cbn; rewrite ?app_nil_r; done|].
    all: repeat first [apply Forall_app; split|apply release_sends|constructor|done]. }
  destruct H as [H1 H2]. split; [exact H1|]. apply Forall_app. split; [apply waits_send|done].
Qed.

Lemma run_settles s c retry :
  let (t, r) := Transaction.run e s c retry in settled_by c (tx_events t) r.
Proof.
  unfold Transaction.run. refine (wp_elim _ (fun t r => settled_by c (tx_events t) r) _ _). apply wp_queued; intros Hx.
  - unfold settled_by. destruct (qc_report_ack c); simpl; rewrite ?app_nil_r, ?fmap_app, ?bind_app.
    + split; [rewrite <- release_settles; by destruct (qc_permit c)|].
      apply Forall_app. split; [apply (release_sends _ (qc_permit c))|by repeat constructor].
    + split; [by rewrite <- release_settles|]. apply (release_sends _ (qc_permit c)).
  - intros Hr. unfold settled_by. rewrite Hr. destruct (env_send e 1) as [ok|]; simpl.
    + destruct (qc_permit c); simpl; split; try done; by repeat constructor.
    + destruct (qc_permit c); simpl; split; try done; by repeat constructor.
  - intros Hr. unfold execute_command_with_ack. cbv zeta. generalize (Z.to_nat (Z.max retry 1)) as budget. intros budget.
    eapply wp_mono; [apply attempts_loop_traced|]. intros t r (events & Hev & Hp & Htr). simpl in *.
    rewrite Hev, Hp, app_nil_r. by eapply traced_settles.
Qed.
End Events.

(** ** What a piece of the worker does *)

Section Steps.
Context (su : Setup) (drv : Driver).

(** Everything the worker does to its manager. *)
Inductive port_step : Manager -> Manager -> Prop :=
| ps_clock m calls : port_step m (used m calls [])
| ps_send fuel m d m' b : Acquisition.send_command su drv fuel m d = Some (m', b) -> port_step m m'
| ps_prepare m : port_step m (prepare_automatic_query m)
| ps_ack m m' r : Acquisition.receive_command_ack_result su drv m = Some (m', r) -> port_step m m'
| ps_round m i f : (forall s, exists r, f s = set_counters s (timeout_count s) r (parse_fail_count s)) ->
    port_step m (alter_state f i m)
| ps_query fuel m query retry m' : receive_query_with_retry su drv fuel m query retry = Some m' -> port_step m m'
| ps_listen m m' : receive_data su drv m = Some m' -> port_step m m'
| ps_next m : port_step m (next_index su m)
| ps_version fuel m id m' r : perform_station_version_query su drv fuel m id = Some (m', r) -> port_step m m'
| ps_port m enabled : port_step m (set_port_enabled su drv m enabled).1
| ps_read m id enabled : port_step m (set_device_read_enabled su m id enabled).1
| ps_device m i enabled : port_step m (set_device_enabled su m i enabled)
| ps_restart m : port_step m (prepare_worker_restart su m)
| ps_reconnect m : m_port m = false -> port_step m (reconnect su drv m).

Definition send_in (S : list QueuedCommand) (ev : WorkerEvent) : Prop :=
  match ev with Executed (Sent d _) => exists c, c ∈ S /\ qc_data c = d | _ => True end.

(** From [w] to [w']: steps of the manager; sends only of commands of [S];
    the books, with [hand] before and [hand'] after in hand. *)
Record act (S : list QueuedCommand) (hand hand' : list Debt) (w w' : Worker) : Prop := {
  act_steps : rtc port_step (wk_m w) (wk_m w');
  act_sends : exists new, wk_events w' = wk_events w ++ new /\ Forall (send_in S) new;
  act_owed : forall k, owed (hand ++ k) w -> owed (hand' ++ k) w';
  act_channel : Forall command_ok (wk_channel w) -> Forall command_ok (wk_channel w')
}.

Lemma act_trans S h h1 h2 w w1 w2 : act S h h1 w w1 -> act S h1 h2 w1 w2 -> act S h h2 w w2.
Proof.
  intros [Hs (n & He & Hn) Ho Hc] [Hs' (n' & He' & Hn') Ho' Hc']. constructor; [by etrans| |auto|auto].
  exists (n ++ n'). rewrite He', He, app_assoc. split; [done|by apply Forall_app].
Qed.

(** The switches stay and commands only leave the queue. *)
Definition calm (w w' : Worker) : Prop := flags (wk_m w') = flags (wk_m w) /\ sublist (wk_queue w') (wk_queue w).

Lemma calm_trans w w1 w2 : calm w w1 -> calm w1 w2 -> calm w w2.
Proof. intros [? ?] [? ?]. split; [congruence|by etrans]. Qed.

Definition quiet S hand hand' w w' : Prop := act S hand hand' w w' /\ calm w w'.

Lemma quiet_trans S h h1 h2 w w1 w2 : quiet S h h1 w w1 -> quiet S h1 h2 w1 w2 -> quiet S h h2 w w2.
Proof. intros [? ?] [? ?]. split; [by eapply act_trans|by eapply calm_trans]. Qed.

(** A queue that the switches allow. *)
Definition queue_ok (w : Worker) : Prop :=
  (m_status (wk_m w) = false -> wk_queue w = []) /\
  Forall (fun c => configured_device_disabled su (wk_m w) (sd_device_id (qc_data c)) = false) (wk_queue w).

Lemma disabled_flags m m' id : flags m' = flags m -> configured_device_disabled su m' id = configured_device_disabled su m id.
Proof.
  intros Hf%(f_equal snd). unfold configured_device_disabled. destruct (position su id) as [i|]; [|done]. cbn in Hf.
  apply (f_equal (fun l => l !! i)) in Hf. rewrite !list_lookup_fmap in Hf.
  destruct (m_states m' !! i), (m_states m !! i); simpl in Hf; congruence.
Qed.

Lemma calm_queue_ok w w' : calm w w' -> queue_ok w -> queue_ok w'.
Proof.
  intros [Hf Hs] [H0 Hq]. split.
  - intros Hst. pose proof (f_equal fst Hf) as Hf'. cbn in Hf'. rewrite H0 in Hs by congruence. by apply sublist_nil_r in Hs.
  - apply Forall_forall. intros c Hc. rewrite (disabled_flags _ _ _ Hf).
    rewrite Forall_forall in Hq. apply Hq. by eapply elem_of_sublist.
Qed.

Definition lawful hand hand' w w' : Prop := act [] hand hand' w w' /\ (queue_ok w -> queue_ok w').

Lemma lawful_trans h h1 h2 w w1 w2 : lawful h h1 w w1 -> lawful h1 h2 w1 w2 -> lawful h h2 w w2.
Proof. intros [? ?] [? ?]. split; [by eapply act_trans|auto]. Qed.

Lemma quiet_lawful h h' w w' : quiet [] h h' w w' -> lawful h h' w w'.
Proof. intros [? ?]. split; [done|by apply calm_queue_ok]. Qed.

(** Equal but for what is shared with the other threads. *)
Record same_port (w w' : Worker) : Prop := {
  sp_m : wk_m w' = wk_m w;
  sp_queue : wk_queue w' = wk_queue w;
  sp_channel : wk_channel w' = wk_channel w
}.

Lemma quiet_same S h h' es w w' :
  same_port w w' -> wk_events w' = wk_events w ++ es -> Forall (send_in S) es -> es ≫= incurs = [] ->
  h ≡ₚ (es ≫= clears) ++ h' -> quiet S h h' w w'.
Proof.
  intros [Hm Hq Hc] He Hs Hi Hh. split; [constructor|split; [by rewrite Hm|by rewrite Hq]].
  - by rewrite Hm.
  - by exists es.
  - intros k. unfold owed. rewrite Hq, Hc, He, !bind_app, Hi, app_nil_r, Hh. intros <-. solve_Permutation.
  - by rewrite Hc.
Qed.

Lemma quiet_refl S h w w' : same_port w w' -> wk_events w' = wk_events w -> quiet S h h w w'.
Proof. intros Hs He. apply (quiet_same S h h []); [done|by rewrite app_nil_r|constructor|done|done]. Qed.

Lemma quiet_manager S h m w : rtc port_step (wk_m w) m -> flags m = flags (wk_m w) -> quiet S h h w (set_manager m w).
Proof. intros Hr Hf. split; [constructor; [done|exists []; by rewrite app_nil_r|done|done]|by split]. Qed.

Lemma act_frame S h h' k w w' : act S h h' w w' -> act S (h ++ k) (h' ++ k) w w'.
Proof. intros [? ? Ho ?]. constructor; [done|done| |done]. intros k'. rewrite <- !app_assoc. apply Ho. Qed.
End Steps.

Lemma quiet_frame su drv S h h' k w w' : quiet su drv S h h' w w' -> quiet su drv S (h ++ k) (h' ++ k) w w'.
Proof. intros [? ?]. split; [by apply act_frame|done]. Qed.

Lemma filter_split (f : QueuedCommand -> bool) (l : list QueuedCommand) :
  l ≡ₚ filter (fun c => f c = false) l ++ filter (fun c => f c = true) l.
Proof.
  induction l as [|c l IH]; [done|]. rewrite !filter_cons. destruct (f c); cbn; rewrite IH at 1; [|done].
  apply Permutation_middle.
Qed.

Section Operations.
Context (su : Setup) (drv : Driver) (env : WorkerEnv).
Context (port_name : string) (command_retry_count query_retry_count : Z) (fuel : nat).

Notation quiet := (quiet su drv).
Notation lawful := (lawful su drv).
Notation act := (act su drv).
Notation safe m Q := (wpw m Q (fun _ => False)).
Notation either m Q w := (wpw m (fun _ => Q) Q w).

(** *** Rejections *)

Lemma absorb_same w t : same_port w (absorb su w t) /\ wk_events (absorb su w t) = wk_events w ++ (Executed <$> tx_events t).
Proof. unfold absorb. destruct (give_back _ _ _ _). done. Qed.

Lemma executed_incurs (es : list Event) : (Executed <$> es) ≫= incurs = [].
Proof. by induction es. Qed.

Lemma absorb_quiet S h h' w t :
  Forall (send_in S) (Executed <$> tx_events t) -> h ≡ₚ ((Executed <$> tx_events t) ≫= clears) ++ h' ->
  quiet S h h' w (absorb su w t).
Proof.
  intros Hs Hh. destruct (absorb_same w t) as [Hp He]. by eapply quiet_same; [| |exact Hs|apply executed_incurs|].
Qed.

(** A program that emits [es] and clears [h]. *)
Lemma in_tx_spec S permit (m : M unit) es h w :
  wp m (fun t r => r = Some tt /\ tx_events t = es)
    {| tx_tracker := Some (wk_tracker w); tx_permit := permit; tx_events := []; tx_audits := [] |} ->
  Forall (send_in S) (Executed <$> es) -> h ≡ₚ (Executed <$> es) ≫= clears ->
  safe (in_tx su permit m) (fun _ w' => quiet S h [] w w' /\ same_port w w') w.
Proof.
  unfold wp, wpw, in_tx. destruct (m _) as [t r]. cbn. intros [-> <-] Hs Hh.
  split; [|apply absorb_same]. apply absorb_quiet; [done|by rewrite app_nil_r].
Qed.

Lemma reject_spec S permit ack report_ack f w :
  safe (reject su env port_name permit ack report_ack f)
    (fun _ w' => quiet S (ack_debt report_ack ack ++ permit_debt permit) [] w w' /\ same_port w w') w.
Proof.
  eapply (in_tx_spec S permit _ (release permit ++ if report_ack then [note (base_env su env port_name) ack Failed] else [])).
  - destruct report_ack; repeat wp_step; [done|]. split; [done|]. symmetry. apply app_nil_r.
  - destruct permit, report_ack; by repeat constructor.
  - destruct permit, report_ack; try done. apply Permutation_swap.
Qed.

Lemma drop_held_spec S permit w :
  safe (drop_held su permit) (fun _ w' => quiet S (permit_debt permit) [] w w' /\ same_port w w') w.
Proof. apply (in_tx_spec S permit _ (release permit)); [done| |]; by destruct permit; repeat constructor. Qed.

Lemma same_port_trans w w1 w2 : same_port w w1 -> same_port w1 w2 -> same_port w w2.
Proof. intros [] []. constructor; congruence. Qed.

Lemma reject_all_spec S cs reason w :
  safe (reject_all su env port_name cs reason)
    (fun _ w' => quiet S (cs ≫= owes_queued) [] w w' /\ same_port w w') w.
Proof.
  revert w. induction cs as [|c cs IH]; intros w; [split; [by apply quiet_refl|done]|].
  cbn [reject_all]. apply wpw_bind. eapply wpw_mono; [apply (reject_spec S)| |done].
  intros [] w1 [Hq Hs]. cbv beta. eapply wpw_mono; [apply IH| |done]. intros [] w2 [Hq2 Hs2].
  split; [|by eapply same_port_trans]. apply (quiet_frame _ _ _ _ _ (cs ≫= owes_queued)) in Hq.
  eapply quiet_trans; [exact Hq|exact Hq2].
Qed.

Lemma reject_queued_spec S target reason w :
  safe (reject_queued_commands su env port_name target reason)
    (fun _ w' => quiet S [] [] w w' /\ wk_m w' = wk_m w /\
       wk_queue w' = filter (fun c => targets target c = false) (wk_queue w)) w.
Proof.
  unfold reject_queued_commands. do 2 wpw_step. wpw_step. wpw_step. 
  eapply wpw_mono; [apply (reject_all_spec S)| |done]. intros [] w1 [Hq [Hm Hqu _]]. split_and!; [|done|done].
  eapply quiet_trans; [|exact Hq]. split; [constructor|split; [done|apply sublist_filter]].
  - done.
  - exists []. by rewrite app_nil_r.
  - intros k. unfold owed. cbn [set_commands set_queue wk_events wk_queue wk_channel].
    rewrite (filter_split (targets target) (wk_queue w)) at 1. rewrite bind_app. intros <-. solve_Permutation.
  - done.
Qed.

(** *** Books in another order *)

Lemma act_perm S h h' k w w' : h ≡ₚ k -> act S h h' w w' -> act S k h' w w'.
Proof. intros Hp [? ? Ho ?]. constructor; [done|done| |done]. intros j. unfold owed. rewrite <- Hp. apply Ho. Qed.
Lemma lawful_perm h h' k w w' : h ≡ₚ k -> lawful h h' w w' -> lawful k h' w w'.
Proof. intros Hp [? ?]. split; [by eapply act_perm|done]. Qed.
Lemma lawful_frame h h' k w w' : lawful h h' w w' -> lawful (h ++ k) (h' ++ k) w w'.
Proof. intros [? ?]. split; [by apply act_frame|done]. Qed.
Lemma lawful_refl h w w' : same_port w w' -> wk_events w' = wk_events w -> lawful h h w w'.
Proof. intros ? ?. by apply quiet_lawful, quiet_refl. Qed.

(** *** Enqueueing *)

Lemma enqueue_spec data report_ack ack_id expires_at permit w :
  safe (enqueue_or_reject_command su env port_name data report_ack ack_id expires_at permit)
    (fun _ w' => lawful (ack_debt report_ack ack_id ++ permit_debt permit) [] w w') w.
Proof.
  unfold enqueue_or_reject_command. do 2 wpw_step. destruct (negb (m_status (wk_m w))) eqn:Hst.
  { eapply wpw_mono; [apply (reject_spec [])| |done]. intros _ w' [? _]. by apply quiet_lawful. }
  destruct (configured_device_disabled _ _ _) eqn:Hd.
  { eapply wpw_mono; [apply (reject_spec [])| |done]. intros _ w' [? _]. by apply quiet_lawful. }
  wpw_step. apply negb_false_iff in Hst. split; [constructor|].
  - done.
  - exists []. by rewrite app_nil_r.
  - intros k. unfold owed. cbn [set_commands set_queue wk_events wk_queue wk_channel]. rewrite bind_app. cbn [mbind list_bind].
    rewrite app_nil_r. unfold owes_queued at 2. cbn [qc_report_ack qc_ack_id qc_permit]. intros <-. solve_Permutation.
  - done.
  - intros [_ Hq]. split; cbn [set_commands set_queue wk_m wk_queue]; [congruence|].
    apply Forall_app. split; [done|]. by apply Forall_singleton.
Qed.

(** *** The channel *)

Context (Harrivals : forall i, Forall command_ok (we_arrivals env i)).

Lemma arrived_owed (cs : list Command) : (Arrived <$> cs) ≫= clears = [] /\ (Arrived <$> cs) ≫= incurs = cs ≫= owes.
Proof. induction cs as [|c cs [IH1 IH2]]; [done|]. cbn. split; [exact IH1|by f_equal]. Qed.

Lemma arrived_sends S (cs : list Command) : Forall (send_in S) (Arrived <$> cs).
Proof. induction cs; by constructor. Qed.

Lemma try_recv_spec S w :
  Forall command_ok (wk_channel w) ->
  safe (try_recv env) (fun c w' =>
    match c with
    | None => quiet S [] [] w w' /\ wk_channel w' = [] /\ wk_queue w' = wk_queue w
    | Some c => quiet S [] (owes c) w w' /\ command_ok c
    end /\ Forall command_ok (wk_channel w') /\ wk_m w' = wk_m w) w.
Proof.
  intros Hok. unfold try_recv, wpw. destruct (we_others _ _ _) as [[g o] s].
  destruct (arrived_owed (we_arrivals env (wk_recvs w))) as [Hset Hinc].
  pose proof (proj2 (Forall_app _ _ _) (conj Hok (Harrivals (wk_recvs w)))) as Hall. cbn [log_events set_shared wk_channel].
  assert (Hbooks : forall k, owed k w ->
    ((wk_events w ++ (Arrived <$> we_arrivals env (wk_recvs w))) ≫= clears) ++ (wk_queue w ≫= owes_queued) ++
      ((wk_channel w ++ we_arrivals env (wk_recvs w)) ≫= owes) ++ k ≡ₚ
    (wk_events w ++ (Arrived <$> we_arrivals env (wk_recvs w))) ≫= incurs).
  { intros k. unfold owed. rewrite !bind_app, Hset, Hinc. intros <-. solve_Permutation. }
  destruct (wk_channel w ++ we_arrivals env (wk_recvs w)) as [|c channel] eqn:Hch.
  - split; [|by split]. split; [|by split]. split; [constructor|by split].
    + done.
    + eexists. split; [done|apply arrived_sends].
    + exact Hbooks.
    + constructor.
  - apply Forall_cons in Hall as [Hc Hrest]. split; [|by split]. split; [|done]. split; [constructor|by split].
    + done.
    + eexists. split; [done|apply arrived_sends].
    + intros k Hk. specialize (Hbooks k Hk). unfold owed. cbn [set_channel log_events set_shared wk_events wk_queue wk_channel].
      rewrite <- Hbooks. cbn [mbind list_bind]. solve_Permutation.
    + done.
Qed.

Lemma complete_spec S revision outcome w :
  safe (complete su revision outcome) (fun _ w' => quiet S [Receipt revision] [] w w') w.
Proof.
  unfold complete. do 2 wpw_step. wpw_step. eapply (quiet_same _ _ S _ _ [Replied revision outcome]); try done. by repeat constructor.
Qed.

Lemma reject_incoming_spec S c w :
  safe (reject_incoming su env port_name c) (fun _ w' => quiet S (owes c) [] w w') w.
Proof.
  unfold reject_incoming, owes. apply wpw_bind.
  assert (H : safe (if is_data (cm_command c)
                    then reject su env port_name (cm_permit c) (cm_ack_id c) (wants_ack (cm_command c)) change_unsent
                    else drop_held su (cm_permit c))
                (fun _ w' => quiet S (ack_debt (wants_ack (cm_command c)) (cm_ack_id c) ++ permit_debt (cm_permit c)) [] w w') w).
  { destruct (cm_command c); cbn [is_data wants_ack ack_debt app].
    all: eapply wpw_mono; [first [apply (reject_spec S)|apply (drop_held_spec S)]|by intros _ w' [? _]|done]. }
  eapply wpw_mono; [exact H| |done]. intros [] w1 H1. cbv beta.
  apply (quiet_frame _ _ _ _ _ (receipt_debt (cm_control_receipt c))) in H1. rewrite <- app_assoc in H1.
  destruct (cm_control_receipt c) as [revision|]; [|by wpw_step].
  eapply wpw_mono; [apply (complete_spec S)| |done]. intros [] w2 H2. by eapply quiet_trans.
Qed.

Lemma reject_incoming_commands_spec S rounds w :
  Forall command_ok (wk_channel w) ->
  safe (reject_incoming_commands su env port_name rounds)
    (fun _ w' => quiet S [] [] w w' /\ wk_channel w' = [] /\ (wk_queue w = [] -> wk_queue w' = [])) w.
Proof.
  revert w. induction rounds as [|rounds IH]; intros w Hok; [done|]. cbn [reject_incoming_commands].
  apply wpw_bind. eapply wpw_mono; [by apply (try_recv_spec S)| |done].
  intros [c|] w1 (H1 & Hok1 & Hm1); cbv beta; [|wpw_step; destruct H1 as (? & ? & ?); split_and!; [done|done|congruence]].
  destruct H1 as [H1 Hc]. apply wpw_bind. eapply wpw_mono; [apply (reject_incoming_spec S)| |done].
  intros [] w2 H2. cbv beta. pose proof (quiet_trans _ _ _ _ _ _ _ _ _ H1 H2) as H12.
  eapply wpw_mono; [apply IH; by apply (act_channel _ _ _ _ _ _ _ (proj1 H12))| |done].
  intros [] w3 (H3 & Hch & Hq). split_and!; [by eapply quiet_trans|done|]. intros Hq0. apply Hq.
  destruct H12 as [_ [_ Hs]]. rewrite Hq0 in Hs. by apply sublist_nil_r in Hs.
Qed.

(** *** Control commands *)

Lemma quiet_step S h m w : port_step su drv (wk_m w) m -> flags m = flags (wk_m w) -> quiet S h h w (set_manager m w).
Proof. intros. apply quiet_manager; [by apply rtc_once|done]. Qed.

Lemma act_step S h m w : port_step su drv (wk_m w) m -> act S h h w (set_manager m w).
Proof. intros. constructor; [by apply rtc_once|exists []; by rewrite app_nil_r|done|done]. Qed.

Lemma act_refl S h w w' : same_port w w' -> wk_events w' = wk_events w -> act S h h w w'.
Proof. intros ? ?. by apply quiet_refl. Qed.

Lemma queue_ok_same w w' : same_port w w' -> queue_ok su w -> queue_ok su w'.
Proof. intros [Hm Hq _]. unfold queue_ok. by rewrite Hm, Hq. Qed.

Lemma flags_port m enabled : flags (set_port_enabled su drv m enabled).1 = (enabled, (flags m).2).
Proof.
  unfold set_port_enabled. destruct enabled; cbn [negb].
  - cbn [fst]. case_match; [done|]. rewrite flags_reconnect. done.
  - cbn [fst]. unfold publish_port_disabled. rewrite (flags_polling _ _ (polling_all_offline _ _)). done.
Qed.

Lemma wpw_port {A} (f : Manager -> option (Manager * A)) Q P w :
  (forall x a, f (wk_m w) = Some (x, a) -> Q a (set_manager x w) /\ P (set_manager x w)) -> wpw (on_port env f) Q P w.
Proof.
  unfold wpw, on_port. intros H. destruct (f (wk_m w)) as [[m a]|]; [|done]. destruct (H m a eq_refl). cbn.
  by destruct (we_unwinds _ _).
Qed.

Lemma wpw_port_status {A} (status : bool) (f : Manager -> option (Manager * A)) Q P w :
  (forall x a, f (wk_m w) = Some (x, a) -> Q a (set_manager x w) /\ (status = true -> P (set_manager x w))) ->
  wpw ((if status then on_port env else on_manager) f) Q P w.
Proof. intros H. destruct status; [apply wpw_port|apply wpw_manager]; intros x a Hf; destruct (H x a Hf); auto. Qed.

Lemma port_status_spec status w :
  either (apply_port_status su drv env port_name status) (lawful [] [] w) w.
Proof.
  unfold apply_port_status. do 2 wpw_step. apply wpw_bind, wpw_port_status. intros m outcome [= Hm]. cbv beta.
  pose proof (flags_port (wk_m w) status) as Hf. rewrite Hm in Hf. cbn [fst] in Hf.
  assert (Hst : m_status m = status) by (by apply (f_equal fst) in Hf).
  assert (Hact : act [] [] [] w (set_manager m w)).
  { apply act_step. pose proof (ps_port su drv (wk_m w) status) as Hp. by rewrite Hm in Hp. }
  assert (Hok : queue_ok su w -> status = true \/ m_status (wk_m w) = false -> queue_ok su (set_manager m w)).
  { intros [H0 Hq] Hc. split; cbn [set_manager wk_m wk_queue].
    - intros Hs. apply H0. destruct Hc; congruence.
    - eapply Forall_impl; [exact Hq|]. intros c. cbn. unfold configured_device_disabled.
      destruct (position su _) as [i|]; [|done]. apply (f_equal snd), (f_equal (fun l => l !! i)) in Hf. cbn in Hf.
      rewrite !list_lookup_fmap in Hf. destruct (m_states m !! i), (m_states (wk_m w) !! i); simpl in Hf; congruence. }
  split; [|intros ->; split; [done|auto]]. apply wpw_bind, wpw_when.
  - intros Hne. destruct status.
    + wpw_step. wpw_step. wpw_step. wpw_step.
      split; [|intros H; eapply queue_ok_same; [|apply Hok; [exact H|by left]]; by case_match].
      eapply act_trans; [exact Hact|]. apply act_refl; by case_match.
    + eapply wpw_mono; [apply (reject_queued_spec [])| |done]. intros [] w1 ([Ha Hc] & Hm1 & Hq1). cbv beta. do 3 wpw_step.
      assert (Hq0 : wk_queue w1 = []).
      { rewrite Hq1. cbn. induction (wk_queue w); [done|]. by rewrite filter_cons. }
      split; [eapply act_trans; [exact Hact|eapply act_trans; [exact Ha|apply act_refl; by case_match]]|].
      intros _. apply (queue_ok_same w1); [by case_match|]. split; [done|]. rewrite Hq0. constructor.
  - intros Heq%negb_false_iff%eqb_prop. do 3 wpw_step.
    split; [eapply act_trans; [exact Hact|apply act_refl; by case_match]|]. intros H.
    apply (queue_ok_same (set_manager m w)); [by case_match|]. apply Hok; [done|]. destruct status; auto.
Qed.

(** The switches after [set_device_enabled]. *)
Lemma device_flags m i enabled :
  m_status (set_device_enabled su m i enabled) = m_status m /\
  forall j, is_enabled <$> m_states (set_device_enabled su m i enabled) !! j =
    if decide (j = i) then (fun _ => enabled) <$> m_states m !! j else is_enabled <$> m_states m !! j.
Proof.
  unfold set_device_enabled. cbv zeta. set (m1 := alter_state _ i m).
  assert (H : m_status m1 = m_status m /\ forall j, is_enabled <$> m_states m1 !! j =
    if decide (j = i) then (fun _ => enabled) <$> m_states m !! j else is_enabled <$> m_states m !! j).
  { split; [done|]. intros j. unfold m1, alter_state. cbn [set_states m_states]. rewrite list_lookup_alter.
    destruct (decide (i = j)) as [<-|Hne]; [rewrite decide_True by done; by destruct (m_states m !! i)|by rewrite decide_False]. }
  clearbody m1. case_match; [|done]. unfold publish_device_disabled. destruct (su_devices su !! i); [|done].
  assert (Hf : flags (send_zero_status_for_index su m1 i (m_port m1) false) = flags m1) by apply flags_send_zero.
  destruct H as [Hs Hj]. split; [by rewrite (f_equal fst Hf : m_status _ = m_status _)|].
  intros j. rewrite <- Hj. pose proof (f_equal (fun x => x.2 !! j) Hf) as Hl. cbn in Hl. by rewrite !list_lookup_fmap in Hl.
Qed.

Lemma device_indexes_spec id status idxs w :
  safe (apply_device_indexes su id status idxs) (fun _ w' =>
    act [] [] [] w w' /\ wk_queue w' = wk_queue w /\ m_status (wk_m w') = m_status (wk_m w) /\
    forall j, is_enabled <$> m_states (wk_m w') !! j =
      if decide (j ∈ idxs) then (fun _ => status) <$> m_states (wk_m w) !! j else is_enabled <$> m_states (wk_m w) !! j) w.
Proof.
  revert w. induction idxs as [|i idxs IH]; intros w; [split_and!; [by apply act_refl|done|done|done]|].
  cbn [apply_device_indexes]. apply wpw_bind. unfold apply_device_index. do 2 wpw_step.
  apply wpw_bind, wpw_manager. intros m [] [= <-]. cbv beta. do 2 wpw_step.
  set (w1 := set_manager _ w). destruct (device_flags (wk_m w) i status) as [Hst Hj].
  assert (Hnext : forall w2, same_port w1 w2 -> wk_events w2 = wk_events w1 ->
    safe (apply_device_indexes su id status idxs) (fun _ w' =>
    act [] [] [] w w' /\ wk_queue w' = wk_queue w /\ m_status (wk_m w') = m_status (wk_m w) /\
    forall j, is_enabled <$> m_states (wk_m w') !! j =
      if decide (j ∈ i :: idxs) then (fun _ => status) <$> m_states (wk_m w) !! j else is_enabled <$> m_states (wk_m w) !! j) w2).
  { intros w2 [Hm Hq Hc] He. eapply wpw_mono; [apply IH| |done]. intros [] w3 (Ha & Hq3 & Hst3 & Hj3).
    rewrite Hm in Hst3, Hj3. split_and!; [|by rewrite Hq3, Hq|by rewrite Hst3|].
    - eapply act_trans; [apply (act_step [] [] (wk_m w1)), ps_device|]. eapply act_trans; [by apply act_refl|done].
    - intros j. rewrite Hj3. cbn [w1 set_manager wk_m]. destruct (decide (j ∈ i :: idxs)) as [Hin|Hin].
      + specialize (Hj j). destruct (decide (j ∈ idxs)) as [Hin'|Hin'].
        * by destruct (decide (j = i)), (m_states (set_device_enabled su (wk_m w) i status) !! j), (m_states (wk_m w) !! j).
        * apply elem_of_cons in Hin as [->|?]; [|done]. by rewrite decide_True in Hj.
      + apply not_elem_of_cons in Hin as [Hne Hni]. rewrite decide_False by done. by rewrite Hj, decide_False. }
  apply wpw_when; intros _; [wpw_step|]; apply Hnext; done.
Qed.

Lemma position_device id i : position su id = Some i -> i ∈ matching_indexes su id.
Proof.
  unfold position, matching_indexes. intros Hp. apply fmap_Some in Hp as ([j d] & Hl & ->).
  apply list_find_Some in Hl as (Hd & Hid & _). apply list_elem_of_filter. simpl. split; [by rewrite Hd, <- Hid|].
  apply elem_of_seq. apply lookup_lt_Some in Hd. lia.
Qed.

Lemma position_other id id' i : position su id = Some i -> i ∈ matching_indexes su id' -> id = id'.
Proof.
  unfold position, matching_indexes. intros Hp Hi. apply fmap_Some in Hp as ([j d] & Hl & ->).
  apply list_find_Some in Hl as (Hd & Hid & _). apply list_elem_of_filter in Hi as [Hi _]. simpl in Hi. rewrite Hd in Hi.
  by injection Hi as <-.
Qed.

Lemma device_setting_spec id status w :
  safe (apply_device_setting su env port_name id status) (fun _ w' => lawful [] [] w w') w.
Proof.
  unfold apply_device_setting. apply wpw_bind. eapply wpw_mono; [apply device_indexes_spec| |done].
  intros [] w1 (Ha & Hq & Hst & Hj). cbv beta.
  assert (Hdis : forall x, configured_device_disabled su (wk_m w1) x = true ->
    configured_device_disabled su (wk_m w) x = true \/ status = false /\ x = id).
  { intros x. unfold configured_device_disabled. destruct (position su x) as [i|] eqn:Hp; [|done]. specialize (Hj i).
    destruct (decide (i ∈ matching_indexes su id)) as [Hin|Hin].
    - destruct (m_states (wk_m w1) !! i), (m_states (wk_m w) !! i); simpl in Hj; try done. injection Hj as ->.
      destruct status; [done|]. intros _. right. by split; [|eapply position_other].
    - destruct (m_states (wk_m w1) !! i), (m_states (wk_m w) !! i); simpl in Hj; try done. injection Hj as ->. by left. }
  assert (Hok : forall cs, queue_ok su w -> Forall (fun c => c ∈ wk_queue w /\ (status = false -> sd_device_id (qc_data c) <> id)) cs ->
    (wk_queue w = [] -> cs = []) ->
    (m_status (wk_m w1) = false -> cs = []) /\
    Forall (fun c => configured_device_disabled su (wk_m w1) (sd_device_id (qc_data c)) = false) cs).
  { intros cs [H0 Hqq] Hcs Hnil. split; [intros Hs; apply Hnil, H0; congruence|].
    eapply Forall_impl; [exact Hcs|]. intros c [Hin Hne]. apply not_true_iff_false. intros Ht%Hdis.
    rewrite Forall_forall in Hqq. rewrite (Hqq c Hin) in Ht. destruct Ht as [|[? ?]]; [done|]. by apply Hne. }
  apply wpw_bind, wpw_when.
  - intros ->%negb_true_iff. eapply wpw_mono; [apply (reject_queued_spec [])| |done].
    intros [] w2 ([Ha2 _] & Hm2 & Hq2). cbv beta. wpw_step.
    split; [eapply act_trans; [exact Ha|eapply act_trans; [exact Ha2|apply act_refl; by case_match]]|].
    intros Hw. apply (queue_ok_same w2); [by case_match|]. unfold queue_ok. rewrite Hm2, Hq2, Hq. apply Hok; [done| |by intros ->].
    apply Forall_forall. intros c [Ht Hin]%list_elem_of_filter. split; [done|]. intros _. unfold targets in Ht. by apply Z.eqb_neq in Ht.
  - intros ->%negb_false_iff. wpw_step. split; [eapply act_trans; [exact Ha|apply act_refl; by case_match]|].
    intros Hw. apply (queue_ok_same w1); [by case_match|]. unfold queue_ok. rewrite Hq. apply Hok; [done| |done].
    by apply Forall_forall.
Qed.

Lemma flags_read m id enabled : flags (set_device_read_enabled su m id enabled).1 = flags m.
Proof.
  unfold set_device_read_enabled. destruct (position su id) as [i|]; [|done]. cbn [fst].
  destruct enabled; rewrite ?flags_alter by done; rewrite flags_send_zero; by rewrite flags_alter.
Qed.

Lemma flags_version m id m' r : perform_station_version_query su drv fuel m id = Some (m', r) -> flags m' = flags m.
Proof. intros H. eapply flags_polling, version_query_isolated, H. Qed.

Lemma query_and_report_spec S id w :
  either (query_and_report su drv env fuel id) (quiet S [] [] w) w.
Proof.
  unfold query_and_report. apply wpw_bind, wpw_port. intros m result Hq.
  assert (H : quiet S [] [] w (set_manager m w)) by (apply (quiet_step S [] m); [by eapply ps_version|by eapply flags_version]).
  split; [|done]. unfold report_query, wpw. destruct (report_station_query_result _ _ _ _ _ _) as [o r].
  eapply quiet_trans; [exact H|]. by apply quiet_refl.
Qed.

Lemma device_read_spec id enabled w :
  safe (apply_device_read su id enabled) (fun _ w' => lawful [] [] w w') w.
Proof.
  unfold apply_device_read. apply wpw_bind, wpw_manager. intros m outcome [= Hm]. cbv beta. do 2 wpw_step.
  assert (Hq : quiet [] [] [] w (set_manager m w)).
  { apply quiet_step; [pose proof (ps_read su drv (wk_m w) id enabled) as Hp; by rewrite Hm in Hp|].
    pose proof (flags_read (wk_m w) id enabled) as Hf. by rewrite Hm in Hf. }
  apply wpw_bind, wpw_when; intros _; [wpw_step|]; wpw_step; apply quiet_lawful; [|done].
  eapply quiet_trans; [exact Hq|by apply quiet_refl].
Qed.

(** What the body of the loop takes from the hand. *)
Definition taken (c : Command) : list Debt :=
  if is_data (cm_command c) then ack_debt (wants_ack (cm_command c)) (cm_ack_id c) ++ permit_debt (cm_permit c) else [].

Lemma apply_command_spec c w :
  either (apply_command su drv env port_name fuel c) (lawful (taken c) [] w) w.
Proof.
  unfold apply_command, taken. destruct (cm_command c); cbn [is_data wants_ack].
  - apply wpw_bind. eapply wpw_mono; [apply enqueue_spec|by intros|done].
  - apply port_status_spec.
  - apply wpw_bind. eapply wpw_mono; [apply device_setting_spec|by intros|done].
  - apply wpw_bind. eapply wpw_mono; [apply enqueue_spec|by intros|done].
  - eapply wpw_mono; [apply device_read_spec|done|done].
  - apply wpw_bind. case_match; wpw_step; wpw_step; by apply lawful_refl.
  - eapply wpw_mono; [apply (query_and_report_spec [])| |]; intros; by apply quiet_lawful.
Qed.

(** The rest of an iteration: the permit of a command that no queue took. *)
Lemma leftover_spec c w :
  safe (when (negb (is_data (cm_command c))) (drop_held su (cm_permit c)))
    (fun _ w' => lawful (if is_data (cm_command c) then [] else permit_debt (cm_permit c)) [] w w') w.
Proof.
  apply wpw_when.
  - intros ->%negb_true_iff. eapply wpw_mono; [apply (drop_held_spec [])| |done]. intros [] w' [Hq _]. by apply quiet_lawful.
  - intros ->%negb_false_iff. by apply lawful_refl.
Qed.

Lemma owes_split c :
  owes c ≡ₚ taken c ++ receipt_debt (cm_control_receipt c) ++ (if is_data (cm_command c) then [] else permit_debt (cm_permit c)).
Proof.
  unfold owes, taken. destruct (cm_command c); cbn [is_data wants_ack ack_debt]; rewrite ?app_nil_l, ?app_nil_r, ?app_assoc; try done.
  all: apply Permutation_app_comm.
Qed.

(** A command dropped while it is applied. *)
Lemma drop_command_spec c w w1 :
  lawful (taken c) [] w w1 ->
  match drop_command su c w1 with Some (w', _) => lawful (owes c) [] w w' | None => True end.
Proof.
  intros H1. pose proof (owes_split c) as Hsplit. symmetry in Hsplit.
  assert (H : safe (drop_command su c) (fun _ w' => lawful (owes c) [] w w') w1).
  { unfold drop_command. apply wpw_bind. eapply wpw_mono; [apply leftover_spec| |done]. intros [] w2 H2. cbv beta. wpw_step.
    eapply lawful_perm; [exact Hsplit|]. eapply lawful_trans; [apply lawful_frame; exact H1|].
    apply (lawful_frame _ _ (receipt_debt (cm_control_receipt c))) in H2.
    eapply lawful_trans; [eapply lawful_perm; [|exact H2]; solve_Permutation|]. apply quiet_lawful.
    eapply (quiet_same _ _ _ _ _ [Dropped c]); [done|done|by repeat constructor|done|]. cbn. by rewrite !app_nil_r. }
  unfold wpw in H. destruct (drop_command su c w1) as [[w' [[]|]]|]; done.
Qed.

Lemma process_command_spec c w :
  command_ok c -> either (process_command su drv env port_name fuel c) (lawful (owes c) [] w) w.
Proof.
  intros Hok. unfold process_command. do 2 wpw_step. pose proof (owes_split c) as Hsplit. symmetry in Hsplit.
  destruct (cm_control_receipt c) as [revision|] eqn:Hrec.
  - destruct (negb (control_is_current _ _ _)).
    + do 2 wpw_step. eapply wpw_mono; [apply (drop_held_spec [])| |done]. intros [] w1 [Hq _]. cbv beta.
      assert (Ho : owes c ≡ₚ [Receipt revision] ++ permit_debt (cm_permit c)).
      { unfold owes. rewrite Hrec. destruct (wants_ack (cm_command c)) eqn:Hw; [by rewrite Hok in Hrec|].
        cbn [ack_debt app]. apply Permutation_app_comm. }
      eapply lawful_perm; [symmetry; exact Ho|]. apply quiet_lawful. eapply quiet_trans; [|exact Hq].
      eapply (quiet_same _ _ _ _ _ [Replied revision _]); try done. by repeat constructor.
    + apply wpw_bind, wpw_unwind. eapply wpw_mono; [apply apply_command_spec| |by apply drop_command_spec].
    intros outcome w1 H1. cbv beta.
      do 2 wpw_step. apply wpw_bind. eapply wpw_mono; [apply (complete_spec [])| |done]. intros [] w2 H2. cbv beta.
      eapply wpw_mono; [apply leftover_spec| |done]. intros [] w3 H3. cbv beta. eapply lawful_perm; [exact Hsplit|].
      eapply lawful_trans; [apply lawful_frame; exact H1|]. eapply lawful_trans; [|exact H3].
      eapply lawful_trans; [|apply (lawful_frame [Receipt revision] []), quiet_lawful; exact H2]. by apply lawful_refl.
  - apply wpw_bind, wpw_unwind. eapply wpw_mono; [apply apply_command_spec| |by apply drop_command_spec].
    intros outcome w1 H1. cbv beta.
    eapply wpw_mono; [apply leftover_spec| |done]. intros [] w3 H3. cbv beta. eapply lawful_perm; [exact Hsplit|].
    eapply lawful_trans; [apply lawful_frame; exact H1|exact H3].
Qed.

Lemma process_commands_spec budget w :
  Forall command_ok (wk_channel w) ->
  either (process_commands su drv env port_name fuel budget) (lawful [] [] w) w.
Proof.
  revert w. induction budget as [|budget IH]; intros w Hok; [by apply lawful_refl|]. cbn [process_commands].
  apply wpw_bind. eapply wpw_mono; [by apply (try_recv_spec [])| |done].
  intros [c|] w1 (H1 & Hok1 & _); cbv beta; [|wpw_step; destruct H1; by apply quiet_lawful].
  destruct H1 as [H1 Hc]. assert (H12 : forall w2, lawful (owes c) [] w1 w2 -> lawful [] [] w w2)
    by (intros w2 H2; eapply lawful_trans; [by apply quiet_lawful|done]).
  apply wpw_bind. eapply wpw_mono; [by apply process_command_spec| |done]. intros [] w2 H2%H12. cbv beta.
  eapply wpw_mono; [apply IH; by apply (act_channel _ _ _ _ _ _ _ (proj1 H2))| |]; intros; by eapply lawful_trans.
Qed.

(** *** Executing a command *)

Lemma port_turns_spec budget report_ack expires_at data m ts m' :
  port_turns su drv env fuel budget report_ack expires_at data m = Some (ts, m') ->
  rtc (port_step su drv) m m' /\ flags m' = flags m.
Proof.
  revert m ts. induction budget as [|budget IH]; intros m ts; [by intros [= <- <-]|]. cbn [port_turns].
  set (m1 := used m (S (m_calls m)) []). assert (H1 : rtc (port_step su drv) m m1) by apply rtc_once, ps_clock.
  change (flags m) with (flags m1). clearbody m1. case_match; [by intros [= <- <-]|].
  destruct (Acquisition.send_command _ _ _ _ _) as [[m2 sent]|] eqn:Hs; [|done]. cbn [mbind option_bind].
  assert (H2 : rtc (port_step su drv) m m2) by (eapply rtc_r; [exact H1|by eapply ps_send]).
  rewrite <- (flags_send _ _ _ _ _ _ _ Hs). destruct (we_unwinds _ _); [by intros [= <- <-]|].
  destruct (_ || _ || _); [by intros [= <- <-]|].
  destruct (Acquisition.receive_command_ack_result _ _ _) as [[m3 r]|] eqn:Ha; [|done]. cbn [mbind option_bind].
  assert (H3 : rtc (port_step su drv) m m3) by (eapply rtc_r; [exact H2|by eapply ps_ack]).
  rewrite <- (flags_ack _ _ _ _ _ Ha). destruct (we_unwinds _ _); [by intros [= <- <-]|]. destruct r; [by intros [= <- <-]|].
  destruct (port_turns _ _ _ _ _ _ _ _ m3) as [[ts' m4]|] eqn:Ht; [|done]. intros [= <- <-].
  destruct (IH _ _ Ht) as [Hr Hf]. split; [by etrans|done].
Qed.

Lemma sends_in S c events : c ∈ S -> Forall (sends_only (qc_data c)) events -> Forall (send_in S) (Executed <$> events).
Proof.
  intros Hc Hs. apply Forall_fmap. eapply Forall_impl; [exact Hs|]. intros [d ok| |u]; cbn; [|done|done].
  intros ->. by exists c.
Qed.

Lemma execute_at_spec S c now w :
  c ∈ S -> either (execute_at su drv env port_name command_retry_count fuel c now) (quiet S (owes_queued c) [] w) w.
Proof.
  intros Hc. unfold execute_at, wpw.
  destruct (if past (qc_expires_at c) now then _ else _) as [[ts m]|] eqn:Hturns; [|done]. cbn [mbind option_bind].
  assert (Hm : rtc (port_step su drv) (wk_m w) m /\ flags m = flags (wk_m w)).
  { case_match; [by injection Hturns as <- <-|by eapply port_turns_spec]. }
  pose proof (run_settles (turn_env su env port_name now ts) (Some (wk_tracker w)) c command_retry_count) as Hrun.
  destruct (Transaction.run _ _ _ _) as [t r]. destruct Hrun as [Hset Hsend].
  assert (Hm1 : quiet S (owes_queued c) (owes_queued c) w (set_manager m w)) by (destruct Hm; by apply quiet_manager).
  destruct r as [ok|].
  - eapply quiet_trans; [exact Hm1|]. apply absorb_quiet; [by eapply sends_in|]. rewrite Hset, app_nil_r. apply Permutation_app_comm.
  - eapply quiet_trans; [exact Hm1|]. rewrite app_nil_r in Hset.
    eapply (quiet_trans _ _ _ _ (ack_debt (qc_report_ack c) (qc_ack_id c))).
    + apply absorb_quiet; [by eapply sends_in|]. rewrite Hset. apply Permutation_app_comm.
    + eapply (quiet_same _ _ _ _ _ [Interrupted c]); [done|done|by repeat constructor|done|]. cbn. by rewrite !app_nil_r.
Qed.

Lemma clock_spec S (Q : Z -> Worker -> Prop) P w :
  (forall now w', quiet S [] [] w w' -> wk_queue w' = wk_queue w -> Q now w') -> wpw (clock drv) Q P w.
Proof. intros H. unfold wpw, clock. apply H; [|done]. apply quiet_step; [apply ps_clock|done]. Qed.

(** A piece after a quiet one. *)
Lemma either_after {A} S h h1 h2 (m : W A) w w1 :
  quiet S h h1 w w1 -> either m (quiet S h1 h2 w1) w1 -> either m (quiet S h h2 w) w1.
Proof. intros H1 H. eapply wpw_mono; [exact H| |]; intros; by eapply quiet_trans. Qed.

Lemma execute_next_spec S w :
  (forall c, c ∈ wk_queue w -> c ∈ S) ->
  either (execute_next_ready_command su drv env port_name command_retry_count fuel) (quiet S [] [] w) w.
Proof.
  intros HS. unfold execute_next_ready_command. apply wpw_bind, (clock_spec S). intros now w1 H1 Hq1. cbv beta. do 2 wpw_step.
  rewrite Hq1. destruct (wk_queue w) as [|head queue] eqn:Hqueue; [by wpw_step|]. case_match; [by wpw_step|].
  do 2 wpw_step. assert (Hpop : quiet S [] (owes_queued head) w (set_commands queue w1)).
  { eapply quiet_trans; [exact H1|]. split; [constructor|split; [done|]].
    - done.
    - exists []. by rewrite app_nil_r.
    - intros k. unfold owed. cbn [set_commands set_queue wk_events wk_queue wk_channel]. rewrite Hq1. cbn [mbind list_bind].
      intros <-. solve_Permutation.
    - done.
    - cbn. rewrite Hq1. by constructor. }
  apply wpw_bind, (clock_spec S). intros later w2 H2 Hq2. cbv beta. unfold execute_queued. do 2 apply wpw_bind. apply (clock_spec S).
  intros at_ w3 H3 Hq3. cbv beta.
  assert (H03 : quiet S [] (owes_queued head) w w3).
  { eapply quiet_trans; [exact Hpop|]. apply (quiet_frame _ _ _ [] [] (owes_queued head)).
    by eapply quiet_trans. }
  eapply wpw_mono; [eapply either_after; [exact H03|apply execute_at_spec; apply HS; constructor]| |done].
  intros [] w4 H4. cbv beta. apply wpw_bind. case_match.
  - do 2 wpw_step. done.
  - apply wpw_bind, (clock_spec S). intros finished w5 H5 _. cbv beta. wpw_step. wpw_step.
    eapply quiet_trans; [exact H4|]. eapply quiet_trans; [exact H5|]. by apply quiet_refl.
Qed.

(** *** Cycles *)

Lemma either_bind {A B} S (m : W A) (k : A -> W B) w :
  either m (quiet S [] [] w) w ->
  (forall a w1, quiet S [] [] w w1 -> either (k a) (quiet S [] [] w1) w1) ->
  either (m ≫= k) (quiet S [] [] w) w.
Proof.
  intros Hm Hk. apply wpw_bind. eapply wpw_mono; [exact Hm| |done]. intros a w1 H1. cbv beta.
  eapply either_after; [exact H1|by apply Hk].
Qed.

Lemma either_manager {A} S (f : Manager -> option (Manager * A)) w :
  (forall m a, f (wk_m w) = Some (m, a) -> rtc (port_step su drv) (wk_m w) m /\ flags m = flags (wk_m w)) ->
  either (on_manager f) (quiet S [] [] w) w.
Proof. intros H. apply wpw_manager. intros m a Hf. destruct (H m a Hf). by apply quiet_manager. Qed.

Lemma either_port {A} S (f : Manager -> option (Manager * A)) w :
  (forall m a, f (wk_m w) = Some (m, a) -> rtc (port_step su drv) (wk_m w) m /\ flags m = flags (wk_m w)) ->
  either (on_port env f) (quiet S [] [] w) w.
Proof.
  intros H. apply wpw_port. intros m a Hf. destruct (H m a Hf) as [Hr Hfl].
  split; by apply quiet_manager.
Qed.

Lemma either_safe {A} S (m : W A) w : safe m (fun _ => quiet S [] [] w) w -> either m (quiet S [] [] w) w.
Proof. intros H. eapply wpw_mono; [exact H|done|done]. Qed.

Lemma primary_spec S w :
  (forall c, c ∈ wk_queue w -> c ∈ S) ->
  either (run_primary_cycle su drv env port_name command_retry_count fuel) (quiet S [] [] w) w.
Proof.
  intros HS. unfold run_primary_cycle. apply either_bind; [by apply execute_next_spec|].
  intros [b|] w1 _; [wpw_step; by apply quiet_refl|]. do 2 wpw_step.
  destruct (su_devices su) as [|dev0 devs]; [wpw_step; by apply quiet_refl|].
  destruct ((dev0 :: devs) !! m_index (wk_m w1)) as [dev|]; [|by apply quiet_refl].
  destruct (m_states (wk_m w1) !! m_index (wk_m w1)) as [st|]; [|by apply quiet_refl].
  destruct (skip_round st) as [st'|]; apply either_bind.
  - apply either_manager. intros m a [= <- _]. split; [|by apply flags_alter].
    apply rtc_once, ps_round. intros s. by eexists.
  - intros [] w2 _. case_match; [wpw_step; by apply quiet_refl|]. apply either_bind.
    + apply either_port. intros m sent Hs. split; [|exact (flags_send _ _ _ _ _ _ _ Hs)].
      eapply rtc_l; [apply ps_prepare|]. apply rtc_once. by eapply ps_send.
    + intros sent w3 _. wpw_step. by apply quiet_refl.
  - apply either_manager. intros m a [= <- _]. split; [|by apply flags_alter].
    apply rtc_once, ps_round. intros s. by eexists.
  - intros [] w2 _. wpw_step. by apply quiet_refl.
Qed.

Lemma secondary_spec S w :
  (forall c, c ∈ wk_queue w -> c ∈ S) ->
  either (run_secondary_cycle su drv env port_name command_retry_count fuel) (quiet S [] [] w) w.
Proof.
  intros HS. unfold run_secondary_cycle. apply either_bind; [by apply execute_next_spec|].
  intros handled w1 _. wpw_step. by apply quiet_refl.
Qed.

Lemma scheduled_query_spec S w :
  either (execute_one_scheduled_station_version_query su drv env fuel) (quiet S [] [] w) w.
Proof.
  unfold execute_one_scheduled_station_version_query. do 2 wpw_step.
  destruct (next (wk_versions w)) as [[id versions]|]; [|wpw_step; by apply quiet_refl]. do 2 wpw_step.
  assert (H0 : quiet S [] [] w (set_versions versions w)) by (by apply quiet_refl).
  destruct (admit_mutation (wk_gate w)) as [g [[]|e]].
  2: { apply wpw_when; intros _; [wpw_step|done]. eapply quiet_trans; [exact H0|by apply quiet_refl]. }
  destruct (begin_automatic_station_query _ _ _ _ _ _) as [o [[]|e]].
  - do 2 wpw_step. eapply either_after; [eapply quiet_trans; [exact H0|by apply quiet_refl]|].
    apply either_bind; [|intros r w1 _; wpw_step; by apply quiet_refl].
    apply wpw_unwind. eapply wpw_mono; [apply (query_and_report_spec S)|done|]. intros w1 H1. cbn.
    eapply quiet_trans; [exact H1|by apply quiet_refl].
  - wpw_step. eapply quiet_trans; [exact H0|by apply quiet_refl].
  - do 2 wpw_step. apply wpw_when; intros _; [wpw_step|]; (eapply quiet_trans; [exact H0|by apply quiet_refl]).
Qed.

Lemma finish_cycle_spec S cycle w :
  either (finish_cycle su drv env query_retry_count fuel cycle) (quiet S [] [] w) w.
Proof.
  unfold finish_cycle. apply either_bind.
  - destruct cycle as [|query| |]; [wpw_step; by apply quiet_refl|apply either_port|apply either_port|wpw_step; by apply quiet_refl].
    + intros m a Hr. destruct (receive_query_with_retry _ _ _ _ _ _) as [m1|] eqn:Hq; [|done]. injection Hr as <- _.
      split; [by eapply rtc_once, ps_query|by eapply flags_query].
    + intros m a Hr. destruct (receive_data _ _ _) as [m1|] eqn:Hq; [|done]. injection Hr as <- _.
      split; [by eapply rtc_once, ps_listen|by eapply flags_receive].
  - intros [] w1 _. do 2 wpw_step.
    assert (Hnext : forall b, either (when (bool_decide (m_run (wk_m w1) = Primary))
      (_ ← on_manager (fun m => Some (next_index su m, tt));
       w ← asks (fun w => w);
       when (b && (m_index (wk_m w) =? 0)%nat) (execute_one_scheduled_station_version_query su drv env fuel)))
      (quiet S [] [] w1) w1).
    { intros b. apply wpw_when; intros _; [|by apply quiet_refl]. apply either_bind.
      - apply either_manager. intros m a [= <- _]. split; [apply rtc_once, ps_next|done].
      - intros [] w2 _. do 2 wpw_step. apply wpw_when; intros _; [apply scheduled_query_spec|by apply quiet_refl]. }
    destruct cycle; [apply Hnext..|wpw_step; by apply quiet_refl].
Qed.

(** *** Rounds *)

(** A command may be sent: its port and device are enabled. *)
Definition send_allowed (m : Manager) (ev : WorkerEvent) : Prop :=
  match ev with
  | Executed (Sent d _) => m_status m = true /\ configured_device_disabled su m (sd_device_id d) = false
  | _ => True
  end.

Definition worker_ok (w : Worker) : Prop := owed [] w /\ Forall command_ok (wk_channel w) /\ queue_ok su w.

(** From one good state of the worker to another, sending only what the
    switches at the end allow. *)
Definition passed (w w' : Worker) : Prop :=
  rtc (port_step su drv) (wk_m w) (wk_m w') /\ worker_ok w' /\
  exists new, wk_events w' = wk_events w ++ new /\ Forall (send_allowed (wk_m w')) new.

Lemma lawful_ok w w' : lawful [] [] w w' -> worker_ok w -> worker_ok w'.
Proof. intros [[_ _ Ho Hc] Hq] (Hw & Hch & Hqw). split_and!; [by apply (Ho [])|auto|auto]. Qed.

Lemma act_nil_sends h h' w w' : act [] h h' w w' ->
  forall m, exists new, wk_events w' = wk_events w ++ new /\ Forall (send_allowed m) new.
Proof.
  intros [_ (new & He & Hs) _ _] m. exists new. split; [done|]. eapply Forall_impl; [exact Hs|].
  intros [c|[d ok| |u]|revision outcome|c|c]; cbn; try done. intros (c & Hc & _). by apply not_elem_of_nil in Hc.
Qed.

Lemma lawful_passed w w' : worker_ok w -> lawful [] [] w w' -> passed w w'.
Proof.
  intros Hw Hl. split_and!; [apply Hl|by eapply lawful_ok|]. eapply act_nil_sends, Hl.
Qed.

Lemma cycle_passed w w1 w2 :
  worker_ok w -> lawful [] [] w w1 -> m_status (wk_m w1) = true -> quiet (wk_queue w1) [] [] w1 w2 -> passed w w2.
Proof.
  intros Hw Hl Hst [Ha Hc]. pose proof (lawful_ok _ _ Hl Hw) as (Ho1 & Hch1 & Hq1). split_and!.
  - etrans; [apply Hl|apply Ha].
  - split_and!; [apply (act_owed _ _ _ _ _ _ _ Ha []), Ho1|by apply Ha|by eapply calm_queue_ok].
  - destruct (act_nil_sends _ _ _ _ (proj1 Hl) (wk_m w2)) as (n1 & He1 & Hn1).
    destruct (act_sends _ _ _ _ _ _ _ Ha) as (n2 & He2 & Hn2). exists (n1 ++ n2).
    rewrite He2, He1, app_assoc. split; [done|]. apply Forall_app. split; [done|]. eapply Forall_impl; [exact Hn2|].
    intros [c|[d ok| |u]|revision outcome|c|c]; cbn; try done. intros (c & Hin & <-). destruct Hc as [Hf _]. split.
    + by rewrite (f_equal fst Hf : m_status _ = m_status _).
    + rewrite (disabled_flags su _ _ _ Hf). destruct Hq1 as [_ Hq1]. rewrite Forall_forall in Hq1. by apply Hq1.
Qed.

Lemma filter_none (f : QueuedCommand -> bool) l : (forall c, f c = true) -> filter (fun c => f c = false) l = [].
Proof. intros Hf. induction l as [|c l IH]; [done|]. rewrite filter_cons, Hf. exact IH. Qed.

Lemma shutdown_spec reason rounds w :
  Forall command_ok (wk_channel w) ->
  safe (_ ← reject_queued_commands su env port_name None reason;
        _ ← reject_incoming_commands su env port_name rounds; mret false)
    (fun go w' => quiet [] [] [] w w' /\ go = false /\ wk_queue w' = [] /\ wk_channel w' = []) w.
Proof.
  intros Hok. apply wpw_bind. eapply wpw_mono; [apply (reject_queued_spec [])| |done]. intros [] w1 (H1 & _ & Hq1). cbv beta.
  apply wpw_bind. eapply wpw_mono; [apply (reject_incoming_commands_spec [])| |done].
  { by apply (act_channel _ _ _ _ _ _ _ (proj1 H1)). }
  intros [] w2 (H2 & Hch & Hq2). cbv beta. wpw_step. split_and!; [by eapply quiet_trans|done| |done].
  apply Hq2. rewrite Hq1. by apply filter_none.
Qed.

Definition stops (go : bool) (w : Worker) : Prop := go = false -> wk_queue w = [] /\ wk_channel w = [].

Lemma pass_spec rounds w :
  worker_ok w ->
  wpw (worker_pass su drv env port_name command_retry_count query_retry_count fuel rounds)
    (fun go w' => passed w w' /\ stops go w') (passed w) w.
Proof.
  intros Hw. unfold worker_pass. do 4 wpw_step. set (w0 := set_channel _ _ _ w).
  assert (H0 : lawful [] [] w w0) by (by apply lawful_refl). pose proof (lawful_ok _ _ H0 Hw) as Hw0.
  case_match.
  { eapply wpw_mono; [apply shutdown_spec; apply Hw0| |done]. intros go w1 (H1 & _ & Hq & Hc).
    split; [|done]. eapply lawful_passed; [done|]. eapply lawful_trans; [exact H0|by apply quiet_lawful]. }
  apply wpw_bind. eapply wpw_mono; [apply process_commands_spec; apply Hw0| |].
  2: { intros w1 H1. eapply lawful_passed; [done|]. by eapply lawful_trans. }
  intros [] w1 H1. cbv beta.
  do 4 wpw_step. set (w2 := set_ops _ w1).
  assert (H2 : lawful [] [] w w2).
  { eapply lawful_trans; [exact H0|]. eapply lawful_trans; [exact H1|by apply lawful_refl]. }
  destruct (m_status (wk_m w2)) eqn:Hst; cbn [negb]; [|wpw_step; split; [by apply lawful_passed|done]].
  destruct (su_devices su) as [|dev devs]; [wpw_step; split; [by apply lawful_passed|done]|].
  clearbody w2. set (S := wk_queue w2).
  eapply wpw_mono with (Q := fun go w' => quiet S [] [] w2 w' /\ go = true) (P := quiet S [] [] w2).
  2: { intros go w' [Hq ->]. split; [by eapply cycle_passed|done]. }
  2: { intros w' Hq. by eapply cycle_passed. }
  apply wpw_bind. eapply wpw_mono; [instantiate (1 := quiet S [] [] w2); instantiate (1 := fun _ => quiet S [] [] w2)| |done].
  { destruct (m_run (wk_m w2)); [by apply primary_spec|by apply secondary_spec]. }
  intros cycle w3 H3. cbv beta. apply wpw_bind.
  eapply wpw_mono; [eapply either_after; [exact H3|apply finish_cycle_spec]| |done]. intros [] w4 H4. cbv beta.
  do 3 wpw_step. split; [|done]. eapply quiet_trans; [exact H4|by apply quiet_refl].
Qed.

Lemma passed_quiet w w1 w2 : passed w w1 -> quiet [] [] [] w1 w2 -> passed w w2.
Proof.
  intros (Hr & Hok & new & He & Hn) Hq. pose proof (quiet_lawful _ _ _ _ _ _ Hq) as Hl. destruct Hq as [Ha [Hf _]]. split_and!.
  - etrans; [exact Hr|apply Ha].
  - by eapply lawful_ok.
  - destruct (act_nil_sends _ _ _ _ Ha (wk_m w2)) as (new' & He' & Hn'). exists (new ++ new').
    rewrite He', He, app_assoc. split; [done|]. apply Forall_app. split; [|done]. eapply Forall_impl; [exact Hn|].
    intros [c|[d ok| |u]|revision outcome|c|c]; cbn; try done.
    by rewrite (disabled_flags su _ _ _ Hf), (f_equal fst Hf : m_status _ = m_status _).
Qed.

Lemma recover_spec rounds w :
  Forall command_ok (wk_channel w) ->
  safe (recover_panic su drv env port_name rounds) (fun go w' => quiet [] [] [] w w' /\ stops go w') w.
Proof.
  intros Hok. unfold recover_panic. apply wpw_bind, (clock_spec []). intros now w1 H1 _. cbv beta. do 2 wpw_step.
  apply wpw_bind, wpw_manager. intros m [] [= <-]. cbv beta. do 2 wpw_step. unfold fail_inflight. do 2 wpw_step.
  set (m := prepare_worker_restart su _).
  match goal with |- wpw _ _ _ ?w' => set (w2 := w') end.
  assert (H2 : quiet [] [] [] w w2).
  { eapply quiet_trans; [exact H1|]. eapply quiet_trans; [apply (quiet_step [] [] m)|by apply quiet_refl].
    - apply ps_restart.
    - unfold m, prepare_worker_restart, publish_port_offline_once. case_match; [done|].
      by rewrite (flags_polling _ _ (polling_all_offline _ _)). }
  assert (Hp : m_port (wk_m w2) = false).
  { cbn. unfold m, prepare_worker_restart, publish_port_offline_once. case_match; [done|].
    assert (Hall : forall l m0, m_port (foldl (fun m i => send_zero_status_for_index su m i false false) m0 l) = m_port m0).
    { induction l as [|i l IH]; intros m0; [done|]. cbn [foldl]. rewrite IH. unfold send_zero_status_for_index.
      case_match; [|done]. unfold publish. repeat case_match; done. }
    unfold publish_all_offline. by rewrite Hall. }
  clearbody w2 m. apply wpw_bind. eapply wpw_mono; [apply (reject_queued_spec [])| |done]. intros [] w3 (H3 & Hm3 & Hq3). cbv beta.
  rewrite (filter_none (targets None)) in Hq3 by done. pose proof (quiet_trans _ _ _ _ _ _ _ _ _ H2 H3) as H03. do 2 wpw_step.
  case_match.
  - apply wpw_bind. eapply wpw_mono; [apply (reject_incoming_commands_spec [])| |done].
    { by apply (act_channel _ _ _ _ _ _ _ (proj1 H03)). }
    intros [] w4 (H4 & Hch & Hq4). cbv beta. wpw_step. split; [by eapply quiet_trans|]. intros _. auto.
  - apply wpw_bind, wpw_manager. intros m' [] [= <-]. cbv beta. do 5 wpw_step. split; [|done].
    eapply quiet_trans; [exact H03|]. eapply quiet_trans; [apply (quiet_step [] [] (reconnect su drv (wk_m w3)))|by apply quiet_refl].
    + apply ps_reconnect. by rewrite Hm3.
    + apply flags_reconnect.
Qed.

Lemma supervised_spec rounds w :
  worker_ok w ->
  safe (supervised su drv env port_name command_retry_count query_retry_count fuel rounds)
    (fun go w' => passed w w' /\ stops go w') w.
Proof.
  intros Hw. pose proof (pass_spec rounds w Hw) as Hp. unfold wpw, supervised in *.
  destruct (worker_pass _ _ _ _ _ _ _ _ w) as [[w1 [go|]]|]; [done| |done].
  pose proof (recover_spec rounds w1 (proj1 (proj2 (proj1 (proj2 Hp))))) as Hr. unfold wpw in Hr.
  destruct (recover_panic _ _ _ _ _ w1) as [[w2 [go|]]|]; [|done|done].
  destruct Hr as [Hq Hs]. split; [by eapply passed_quiet|done].
Qed.

(** A worker that stopped has nothing left. *)
Definition run_ok (w : Worker) (go : bool) (w' : Worker) : Prop :=
  worker_ok w' /\ stops go w' /\
  exists m, rtc (port_step su drv) (wk_m w) m /\ wk_m w' = if go then m else close_port m.

Lemma run_worker_spec passes rounds w :
  worker_ok w ->
  safe (run_worker su drv env port_name command_retry_count query_retry_count fuel passes rounds) (run_ok w) w.
Proof.
  revert w. induction passes as [|passes IH]; intros w Hw; [split_and!; [done|done|by eexists]|]. cbn [run_worker].
  apply wpw_bind. eapply wpw_mono; [by apply supervised_spec| |done]. intros [] w1 [(Hr & Hok & _) Hs]; cbv beta.
  - eapply wpw_mono; [by apply IH| |done]. intros go w2 (? & ? & m & Hr2 & Hm). split_and!; [done|done|].
    exists m. split; [by etrans|done].
  - destruct (Hs eq_refl) as [Hq Hc]. apply wpw_bind. unfold stop_worker. apply wpw_bind, wpw_manager.
    intros m [] [= <-]. cbv beta. unfold fail_inflight. do 4 wpw_step. destruct Hok as (Ho & Hch & _).
    split_and!; [|done|by exists (wk_m w1)]. split_and!; [exact Ho|exact Hch|]. split; [done|]. cbn. rewrite Hq. constructor.
Qed.
End Operations.

(** ** The acquisition invariant of a worker *)

Section Acquisition.
Context (su : Setup) (drv : Driver).
Context (Hdevices : su_devices su <> []).

Lemma port_step_ok m m' : port_step su drv m m' -> acq_ok su drv m -> acq_ok su drv m'.
Proof.
  intros Hs Hm. destruct Hs as [m calls|fuel m d m' b H|m|m m' r H|m i f Hf|fuel m query retry m' H|m m' H|m|fuel m id m' r H
                               |m enabled|m id enabled|m i enabled|m|m Hp].
  - eapply acq_ok_same; [apply same_used|done].
  - by eapply send_command_ok in H as [? _].
  - eapply acq_ok_same; [apply same_rx_clear|done].
  - by eapply ack_ok.
  - eapply acq_ok_same; [apply same_alter|done].
  - by eapply receive_query_ok.
  - by eapply receive_data_ok.
  - by eapply (acq_step_ok su drv); [| |apply step_next].
  - by eapply version_query_ok.
  - by apply set_port_enabled_ok.
  - by apply set_device_read_ok.
  - by apply set_device_enabled_ok.
  - by apply worker_restart_ok.
  - by apply reconnect_closed_ok.
Qed.

Lemma initial_reads_ok port_name o devices m : acq_ok su drv m -> acq_ok su drv (apply_initial_reads su port_name o devices m).
Proof.
  revert m. induction devices as [|d devices IH]; intros m Hm; [done|]. cbn [apply_initial_reads]. apply IH.
  case_match; [done|by apply set_device_read_ok].
Qed.
End Acquisition.

(** ** Properties *)

Section Properties.
Context (su : Setup) (drv : Driver) (env : WorkerEnv).
Context (port_name : string) (command_retry_count query_retry_count : Z) (fuel : nat).
Context (Harrivals : forall i, Forall command_ok (we_arrivals env i)).

Notation started run interval g o s system := (start_worker su drv env port_name run interval g o s system).
Notation runs passes rounds := (run_worker su drv env port_name command_retry_count query_retry_count fuel passes rounds).
Notation pass := (worker_pass su drv env port_name command_retry_count query_retry_count fuel).

Lemma start_ok run interval g o s system w u :
  started run interval g o s system = Some (w, u) ->
  worker_ok su w /\ wk_m w = apply_initial_reads su port_name o (su_devices su)
                               (new_manager su drv (initial_port_enabled o port_name) run).
Proof.
  unfold start_worker. intros H. injection H as <- _. split; [|done]. split_and!; [exact (Permutation_refl _)|constructor|]. split; [done|constructor].
Qed.

(** Every run of a worker from its start. *)
Lemma started_runs run interval g o s system w0 u passes rounds w r :
  started run interval g o s system = Some (w0, u) -> runs passes rounds w0 = Some (w, r) ->
  exists go, r = Some go /\ run_ok su drv w0 go w.
Proof.
  intros [Hw _]%start_ok Hr.
  pose proof (run_worker_spec su drv env port_name command_retry_count query_retry_count fuel Harrivals passes rounds w0 Hw) as H.
  unfold wpw in H. rewrite Hr in H. destruct r as [go|]; [by exists go|done].
Qed.

(** C6: no command is forgotten and none is answered twice. Start a worker and
    let it run, against any port, any panics of the driver in transactions,
    polling cycles, version queries and port openings, and anything the other
    threads send and do. No panic leaves the supervisor, and at every round the
    terminal notifications, releases of permits and answers to receipts that
    were given, what the commands in the queue and in the channel are still
    owed, and what panics cut off are together exactly, each as often, what the
    commands that arrived are owed. A panic cuts off the notification of the
    command in execution or the answer to the control in hand, nothing else and
    never a permit. When the worker has stopped, nothing is owed any more but
    what was cut off. *)
Theorem worker_settles_every_command run interval g o s system w0 u passes rounds w r :
  started run interval g o s system = Some (w0, u) -> runs passes rounds w0 = Some (w, r) ->
  exists go, r = Some go /\
    (wk_events w ≫= settles) ++ (wk_queue w ≫= owes_queued) ++ (wk_channel w ≫= owes) ++ (wk_events w ≫= cut_off)
      ≡ₚ wk_events w ≫= incurs /\
    Permit ∉ wk_events w ≫= cut_off /\
    (go = false -> (wk_events w ≫= settles) ++ (wk_events w ≫= cut_off) ≡ₚ wk_events w ≫= incurs).
Proof.
  intros Hs Hr. destruct (started_runs _ _ _ _ _ _ _ _ _ _ _ _ Hs Hr) as (go & -> & (Ho & _ & _) & Hstop & _).
  unfold owed in Ho. rewrite app_nil_r, clears_split in Ho. exists go. split_and!; [done| |apply cut_off_permit|].
  - rewrite <- Ho. solve_Permutation.
  - intros Hg. destruct (Hstop Hg) as [Hq Hc]. rewrite Hq, Hc in Ho. by rewrite !app_nil_r in Ho.
Qed.

(** C25: a disabled port or device gets no command. In every round of a worker,
    and also when the round unwinds, a control command is put on the wire only
    if the port is enabled and the configured device of the command is not
    disabled, by the switches as they are at the end of that round. *)
Theorem disabled_ports_get_no_command run interval g o s system w0 u passes rounds w rounds' w' r :
  started run interval g o s system = Some (w0, u) -> runs passes rounds w0 = Some (w, Some true) ->
  pass rounds' w = Some (w', r) ->
  exists new, wk_events w' = wk_events w ++ new /\
    forall d ok, Executed (Sent d ok) ∈ new ->
      m_status (wk_m w') = true /\ configured_device_disabled su (wk_m w') (sd_device_id d) = false.
Proof.
  intros Hs Hr Hp. destruct (started_runs _ _ _ _ _ _ _ _ _ _ _ _ Hs Hr) as (go & _ & Hw & _).
  pose proof (pass_spec su drv env port_name command_retry_count query_retry_count fuel Harrivals rounds' w Hw) as H.
  unfold wpw in H. rewrite Hp in H.
  assert (Hpass : passed su drv w w') by (destruct r; [by destruct H|done]). destruct Hpass as (_ & _ & new & He & Hn).
  exists new. split; [done|]. intros d ok Hin. rewrite Forall_forall in Hn. exact (Hn _ Hin).
Qed.

(** C26: the worker keeps the promise of the acquisition. Whatever arrives in its
    channel, whatever the driver answers and whatever panics, a worker only
    takes steps of the manager ([port_step]) until it stops, and then closes the
    port. In every state between rounds and after the stop the polled index is
    in range, an open port is an enabled one, and a device is shown in order
    only with the values of a valid frame. While the worker runs, and if the
    driver never answers a write on an open port with NotConnected, a closed
    port shows every configured device offline. *)
Theorem worker_never_stale run interval g o s system w0 u passes rounds w r :
  su_devices su <> [] ->
  started run interval g o s system = Some (w0, u) -> runs passes rounds w0 = Some (w, r) ->
  exists go m, r = Some go /\ rtc (port_step su drv) (wk_m w0) m /\ wk_m w = (if go then m else close_port m) /\
  (m_index (wk_m w) < length (su_devices su))%nat /\
  (m_port (wk_m w) = true -> m_status (wk_m w) = true) /\
  (forall key st, m_cache (wk_m w) !! key = Some st -> ds_device_status st = true -> genuine su st) /\
  (connected_writes drv -> go = true -> m_port (wk_m w) = false -> all_offline su (wk_m w)).
Proof.
  intros Hne Hs Hr. destruct (started_runs _ _ _ _ _ _ _ _ _ _ _ _ Hs Hr) as (go & -> & _ & _ & m & Hsteps & Hm).
  apply start_ok in Hs as [_ Hm0].
  assert (H0 : acq_ok su drv (wk_m w0)) by (rewrite Hm0; by apply initial_reads_ok, new_manager_ok).
  assert (H : acq_ok su drv m).
  { clear Hm Hm0 Hr. induction Hsteps as [|a b c Hab _ IH]; [done|]. apply IH. by eapply port_step_ok. }
  destruct H as [[Hi1 Hi Hg] Ho Hc]. exists go, m. rewrite Hm. destruct go; split_and!; try done.
  - intros Hp. by apply Ho.
  - intros T _. by apply Hc.
Qed.
End Properties.

(** ** Witnesses *)

(** A port with one device. A command that waits for an acknowledgement and a
    superseded control arrive first; then the port is disabled while another
    command is on its way; then the worker is shut down with a control still in
    the channel. *)
Definition toy_send (ack : Z) : Command :=
  {| cm_com := "COM3"; cm_command := SendDataWithAck {| sd_device_id := 25; sd_command := [25; 8] |};
     cm_ack_id := Some ack; cm_expires_at := None; cm_control_receipt := None; cm_permit := true |}.
Definition toy_setting (c : CommandType) (receipt : option Z) : Command :=
  {| cm_com := "COM3"; cm_command := c; cm_ack_id := None; cm_expires_at := None; cm_control_receipt := receipt;
     cm_permit := false |}.
Definition toy_arrivals (i : nat) : list Command :=
  match i with
  | O => [toy_send 7; toy_setting (PortStatus true) (Some 9)]
  | 3%nat => [toy_setting (PortStatus false) None; toy_send 8]
  | 6%nat => [toy_setting (DeviceReadSetting 25 false) (Some 10)]
  | _ => []
  end.
Definition toy_worker_env : WorkerEnv :=
  {| we_arrivals := toy_arrivals; we_others := fun _ shared => shared; we_cancelled := fun n => (2 <=? n)%nat;
     we_panics := fun _ => false; we_unwinds := fun _ => false; we_persisted := fun _ _ => Ok (); we_stamp := fun _ => "t" |}.

Lemma toy_arrivals_ok i : Forall command_ok (we_arrivals toy_worker_env i).
Proof. cbn. do 7 (destruct i as [|i]; [by repeat constructor|]). constructor. Qed.

Definition toy_start :=
  start_worker (toy_setup Primary) toy_reader toy_worker_env "COM3" Primary 0 (gw_gate toy_gate) toy_ops toy_state [].
Definition toy_run (passes : nat) : option (Worker * option bool) :=
  '(w, _) ← toy_start;
  run_worker (toy_setup Primary) toy_reader toy_worker_env "COM3" 3 1 10 passes 10 w.
Definition toy_settled (r : option (Worker * option bool)) : option (list Debt * list Debt * list bool * option bool) :=
  '(w, go) ← r;
  Some (wk_events w ≫= settles, wk_events w ≫= cut_off,
        omap (fun ev => match ev with Executed (Sent _ ok) => Some ok | _ => None end) (wk_events w), go).

Example toy_run_settles :
  toy_settled (toy_run 5) = Some ([Receipt 9; Permit; Ack (Some 7); Permit; Ack (Some 8); Receipt 10], [], [true; true; true], Some false).
Proof. vm_compute. reflexivity. Qed.

(** The same with a driver that panics in the first wait for an
    acknowledgement: the permit is given back and the notification is lost. *)
Definition panicking_env : WorkerEnv :=
  {| we_arrivals := toy_arrivals; we_others := fun _ shared => shared; we_cancelled := fun n => (2 <=? n)%nat;
     we_panics := fun n => (n =? 8)%nat; we_unwinds := fun _ => false; we_persisted := fun _ _ => Ok (); we_stamp := fun _ => "t" |}.
Example panicking_run_settles :
  toy_settled ('(w, _) ← toy_start; run_worker (toy_setup Primary) toy_reader panicking_env "COM3" 3 1 10 5 10 w) =
  Some ([Receipt 9; Permit; Permit; Ack (Some 8); Receipt 10], [Ack (Some 7)], [true], Some false).
Proof. vm_compute. reflexivity. Qed.

Lemma toy_run_inv passes :
  is_Some (toy_run passes) ->
  exists w0 u w r, toy_start = Some (w0, u) /\
    run_worker (toy_setup Primary) toy_reader toy_worker_env "COM3" 3 1 10 passes 10 w0 = Some (w, r) /\
    toy_run passes = Some (w, r).
Proof.
  unfold toy_run. destruct toy_start as [[w0 u]|]; [|by intros []]. cbn [mbind option_bind].
  destruct (run_worker _ _ _ _ _ _ _ _ _ w0) as [[w r]|] eqn:Hr; [|by intros []]. intros _. by exists w0, u, w, r.
Qed.

Lemma worker_settles_every_command_witness :
  exists w, toy_run 5 = Some (w, Some false) /\
    [Receipt 9; Permit; Ack (Some 7); Permit; Ack (Some 8); Receipt 10] ≡ₚ wk_events w ≫= incurs.
Proof.
  pose proof toy_run_settles as Hs.
  destruct (toy_run_inv 5) as (w0 & u & w & r & H0 & Hr & Ht); [by destruct (toy_run 5); [eexists|]|].
  rewrite Ht in Hs. injection Hs as Hset Hcut _ Hgo. exists w. split; [by rewrite Ht, Hgo|]. rewrite <- Hset.
  destruct (worker_settles_every_command (toy_setup Primary) toy_reader toy_worker_env "COM3" 3 1 10 toy_arrivals_ok
              Primary 0 (gw_gate toy_gate) toy_ops toy_state [] w0 u 5 10 w r H0 Hr) as (go & Hg & _ & _ & Hstop).
  rewrite Hcut, app_nil_r in Hstop. apply Hstop. congruence.
Defined.

Lemma disabled_ports_get_no_command_witness :
  exists w0 u w' r new, toy_start = Some (w0, u) /\
    worker_pass (toy_setup Primary) toy_reader toy_worker_env "COM3" 3 1 10 10 w0 = Some (w', r) /\
    wk_events w' = wk_events w0 ++ new /\
    forall d ok, Executed (Sent d ok) ∈ new ->
      m_status (wk_m w') = true /\ configured_device_disabled (toy_setup Primary) (wk_m w') (sd_device_id d) = false.
Proof.
  assert (Hp : match '(w, _) ← toy_start; worker_pass (toy_setup Primary) toy_reader toy_worker_env "COM3" 3 1 10 10 w with
               | Some _ => true | None => false end = true) by (vm_compute; reflexivity).
  destruct toy_start as [[w0 u]|] eqn:H0; [|discriminate Hp]. cbn [mbind option_bind] in Hp.
  destruct (worker_pass _ _ _ _ _ _ _ _ w0) as [[w' r]|] eqn:Hw; [|discriminate Hp].
  destruct (disabled_ports_get_no_command (toy_setup Primary) toy_reader toy_worker_env "COM3" 3 1 10 toy_arrivals_ok
              Primary 0 (gw_gate toy_gate) toy_ops toy_state [] w0 u 0 10 w0 10 w' r H0 eq_refl Hw) as (new & He & Hn).
  by exists w0, u, w', r, new.
Defined.

Lemma worker_never_stale_witness :
  exists w0 u w, toy_start = Some (w0, u) /\ toy_run 2 = Some (w, Some true) /\ m_port (wk_m w) = false /\
    all_offline (toy_setup Primary) (wk_m w).
Proof.
  assert (Hv : (fun x => (m_port (wk_m x.1), x.2)) <$> toy_run 2 = Some (false, Some true)) by (vm_compute; reflexivity).
  destruct (toy_run_inv 2) as (w0 & u & w & r & H0 & Hr & Ht); [by destruct (toy_run 2); [eexists|]|].
  rewrite Ht in Hv. injection Hv as Hp ->. exists w0, u, w. split_and!; [done|done|done|].
  destruct (worker_never_stale (toy_setup Primary) toy_reader toy_worker_env "COM3" 3 1 10 toy_arrivals_ok
           Primary 0 (gw_gate toy_gate) toy_ops toy_state [] w0 u 2 10 w (Some true) ltac:(done) H0 Hr)
    as (go & m & [= <-] & _ & _ & _ & _ & _ & Hoff).
  by apply Hoff; [exact toy_writes|..].
Defined.
