(* ===== verification/WorkerLive.v ===== *)
(** * The worker of a serial port comes to its end (src/src/serial/worker.rs)

    [Worker] shows what a run of the worker does as far as it runs.  Here every
    round is shown to return, and a cancelled worker to stop with everything
    settled.  The bounds are those of the code: a send polls the output queue
    until its deadline, a shutdown empties the channel until the senders are
    silent. *)

From S2P Require Import Prelude RustFloat RustStr Model Parser Csv Protocol Tracking Transaction Transport FailureLog Frames Acquisition Maintenance Operations VersionQuery Worker.
Open Scope string_scope.
Open Scope Z_scope.
Open Scope list_scope.

(** ** Sends return *)

Section Sends.
Context (su : Setup) (drv : Driver) (pace fuel : nat).

(** The clock passes the longest transmit deadline within [pace] calls. *)
Definition paced : Prop :=
  forall i j, (i <= j)%nat -> drv_clock drv i + MAX_TRANSMIT_TIMEOUT <= drv_clock drv (j + pace).

Context (Hpaced : paced) (Hfuel : (pace < fuel)%nat) (Hbaud : 0 <= lc_baud_rate (su_line su)).

Lemma write_loop_later n i data deadline : (i <= (write_loop drv n i data deadline).1.1)%nat.
Proof.
  revert i data. induction n as [|n IH]; intros i [|b data]; cbn [write_loop]; [done..|].
  destruct (before_deadline _ _) as [[|k]|e]; cbn; [lia| |lia].
  specialize (IH (S i) (drop k data)). cbn [drop].
  destruct (write_loop drv n (S i) (drop k data) deadline) as [[i' wire] r]. cbn in *. lia.
Qed.

Lemma wire_duration_mono n n' baud : 0 <= n <= n' -> 0 <= baud -> wire_duration n baud <= wire_duration n' baud.
Proof.
  intros Hn Hb. pose proof (wire_duration_nonneg n' baud ltac:(lia) Hb) as H0. revert H0.
  unfold wire_duration, u128_saturating_mul, div_ceil.
  destruct (Z.eqb_spec n 0), (Z.eqb_spec n' 0), (Z.eqb_spec baud 0); cbn [orb]; try lia. intros _.
  apply Z.min_le_compat_r, Z.div_le_mono; lia.
Qed.

Lemma minimum_timeout_mono n n' baud :
  0 <= n <= n' -> 0 <= baud -> minimum_transmit_timeout n baud <= minimum_transmit_timeout n' baud.
Proof.
  intros Hn Hb. unfold minimum_transmit_timeout, transmit_wire_budget, duration_saturating_add.
  pose proof (wire_duration_mono n n' baud Hn Hb).
  pose proof (wire_duration_mono (Z.min n 16) (Z.min n' 16) baud ltac:(lia) Hb). lia.
Qed.

Lemma segment_budget n baud configured :
  minimum_transmit_timeout n baud <= MAX_TRANSMIT_TIMEOUT -> transmit_timeout n baud configured <= MAX_TRANSMIT_TIMEOUT.
Proof.
  unfold minimum_transmit_timeout, transmit_timeout, duration_saturating_add, duration_saturating_sub.
  generalize (transmit_wire_budget n baud) as b. unfold DURATION_MAX, MAX_TRANSMIT_TIMEOUT, MIN_TRANSMIT_IO_SLACK, millis. lia.
Qed.

Lemma write_segment_paced i opened cfg parity data wait :
  minimum_transmit_timeout (Z.of_nat (length data)) (lc_baud_rate cfg) <= MAX_TRANSMIT_TIMEOUT ->
  is_Some (write_segment drv fuel i opened cfg parity data wait).
Proof.
  intros Hb%(segment_budget _ _ (lc_read_timeout cfg)). unfold write_segment, wait_for_output_settle. cbv zeta.
  destruct (negb opened); [by eexists|].
  destruct (match parity with Some _ => _ | None => _ end); [by eexists|].
  unfold write_all_before_deadline.
  pose proof (write_loop_later (length data) (S (S i)) data
    (drv_clock drv i + transmit_timeout (Z.of_nat (length data)) (lc_baud_rate cfg) (lc_read_timeout cfg))) as Hl.
  destruct (write_loop _ _ _ _ _) as [[i' wire] [u|e]]; [|by eexists]. cbn in Hl. destruct wait; [|by eexists].
  set (deadline := drv_clock drv i + _) in *.
  destruct (drain_total drv i' pace deadline) with (fuel := fuel) as [[j r] E].
  - pose proof (Hpaced i i' ltac:(lia)). subst deadline. lia.
  - exact Hfuel.
  - rewrite E. cbn. by destruct r; eexists.
Qed.

Lemma transmit_paced i opened special command :
  is_Some (transmit_frame drv fuel i opened special (su_line su) command).
Proof.
  unfold transmit_frame. destruct command as [|addr payload]; [by eexists|].
  destruct (Z.ltb_spec MAX_TRANSMIT_TIMEOUT
    (minimum_transmit_timeout (Z.of_nat (length (addr :: payload))) (lc_baud_rate (su_line su)))) as [|Hb]; [by eexists|].
  assert (Hshort : forall data : list Z, (length data <= length (addr :: payload))%nat ->
    minimum_transmit_timeout (Z.of_nat (length data)) (lc_baud_rate (su_line su)) <= MAX_TRANSMIT_TIMEOUT).
  { intros data Hd. etrans; [apply minimum_timeout_mono|exact Hb]; lia. }
  destruct special.
  - destruct (write_segment_paced i opened (su_line su) None (addr :: payload) false (Hshort (addr :: payload) ltac:(lia))) as [[[j w] r] ->].
    by eexists.
  - destruct (write_segment_paced i opened (su_line su) (Some Mark) [addr] true (Hshort [addr] ltac:(cbn; lia))) as [[[j w] [u|e]] ->];
      [|by eexists]. cbn [mbind option_bind].
    destruct (write_segment_paced j opened (su_line su) (Some Space) payload true (Hshort payload ltac:(cbn; lia))) as [[[j' w'] r] ->].
    by eexists.
Qed.

Lemma send_returns m command : is_Some (Acquisition.send_command su drv fuel m command).
Proof.
  unfold Acquisition.send_command.
  match goal with |- context [transmit_frame drv fuel ?i ?o ?sp _ ?c] =>
    destruct (transmit_paced i o sp c) as [[[j w] t] ->] end.
  destruct t; by eexists.
Qed.
End Sends.

(** ** Programs that return *)

Section Returns.
Context (su : Setup) (drv : Driver) (env : WorkerEnv) (last : nat).

(** The commands in the channel and those still to come. *)
Definition to_come (i : nat) : nat := length (seq i (last - i) ≫= we_arrivals env).
Definition pending (w : Worker) : nat := (length (wk_channel w) + to_come (wk_recvs w))%nat.

(** [m] returns or unwinds, in the same round, and adds nothing to what is
    pending. *)
Definition returns {A} (m : W A) : Prop := forall w, exists w' r,
  m w = Some (w', r) /\ wk_passes w' = wk_passes w /\ (pending w' <= pending w)%nat.

Lemma returns_ret {A} (a : A) : returns (mret a).
Proof. intros w. by exists w, (Some a). Qed.

Lemma returns_bind {A B} (m : W A) (k : A -> W B) : returns m -> (forall a, returns (k a)) -> returns (m ≫= k).
Proof.
  intros Hm Hk w. destruct (Hm w) as (w1 & [a|] & E & Hp & Hl); unfold mbind, W_bind; rewrite E.
  - destruct (Hk a w1) as (w2 & r & E2 & Hp2 & Hl2). exists w2, r. split_and!; [done|congruence|lia].
  - by exists w1, None.
Qed.

Lemma returns_asks {A} (f : Worker -> A) : returns (asks f).
Proof. intros w. by exists w, (Some (f w)). Qed.

Lemma returns_change f :
  (forall w, wk_passes (f w) = wk_passes w /\ wk_channel (f w) = wk_channel w /\ wk_recvs (f w) = wk_recvs w) ->
  returns (change f).
Proof. intros H w. destruct (H w) as (Hp & Hc & Hr). exists (f w), (Some tt). unfold pending. by rewrite Hc, Hr. Qed.

Lemma returns_manager {A} (f : Manager -> option (Manager * A)) : (forall m, is_Some (f m)) -> returns (on_manager f).
Proof. intros H w. destruct (H (wk_m w)) as [[m a] E]. exists (set_manager m w), (Some a). unfold on_manager. by rewrite E. Qed.

Lemma returns_port {A} (f : Manager -> option (Manager * A)) : (forall m, is_Some (f m)) -> returns (on_port env f).
Proof. intros H w. destruct (H (wk_m w)) as [[m a] E]. eexists (set_manager m w), _. unfold on_port. by rewrite E. Qed.

Lemma returns_unwind {A} cleanup (m : W A) : returns cleanup -> returns m -> returns (on_unwind cleanup m).
Proof.
  intros Hc Hm w. unfold on_unwind. destruct (Hm w) as (w1 & [a|] & -> & Hp & Hl); [by exists w1, (Some a)|].
  destruct (Hc w1) as (w2 & r & -> & Hp2 & Hl2). exists w2, None. split_and!; [done|congruence|lia].
Qed.

Lemma returns_when (b : bool) m : returns m -> returns (when b m).
Proof. destruct b; [done|]. intros _. apply returns_ret. Qed.

Lemma returns_clock : returns (clock drv).
Proof. intros w. by eexists _, _. Qed.

Lemma returns_in_tx permit m : returns (in_tx su permit m).
Proof.
  intros w. unfold in_tx. destruct (m _) as [t r]. exists (absorb su w t), r. unfold absorb.
  by destruct (give_back _ _ _ _).
Qed.
End Returns.

Create HintDb returns.

#[local] Ltac returns_step :=
  match goal with
  | |- returns _ _ (mret _) => apply returns_ret
  | |- returns _ _ (_ ≫= _) => apply returns_bind; [|intros ?]
  | |- returns _ _ (asks _) => apply returns_asks
  | |- returns _ _ (change _) => apply returns_change; intros ?; repeat case_match; split_and!; reflexivity
  | |- returns _ _ (clock _) => apply returns_clock
  | |- returns _ _ (in_tx _ _ _) => apply returns_in_tx
  | |- returns _ _ (when _ _) => apply returns_when
  | |- returns _ _ (on_unwind _ _) => apply returns_unwind
  | |- returns _ _ ((if ?b then _ else _) _) => destruct b
  | |- returns _ _ (match ?x with _ => _ end) => destruct x
  | |- returns _ _ (let _ := _ in _) => cbv zeta
  | _ => solve [auto with returns]
  end.

#[local] Ltac returns_tac := repeat returns_step.

Section Operations.
Context (su : Setup) (drv : Driver) (env : WorkerEnv) (pace : nat).
Context (port_name : string) (command_retry_count query_retry_count : Z) (fuel last : nat).
Context (Hpaced : paced drv pace) (Hfuel : (pace < fuel)%nat) (Hbaud : 0 <= lc_baud_rate (su_line su)).
Context (Hsilent : forall i, (last <= i)%nat -> we_arrivals env i = []).

Notation returns := (returns env last).
Notation send_returns := (send_returns su drv pace fuel Hpaced Hfuel Hbaud).

Lemma to_come_step i : (length (we_arrivals env i) + to_come env last (S i))%nat = to_come env last i.
Proof.
  unfold to_come. destruct (decide (last <= i)%nat) as [Hl|Hl].
  - rewrite (Hsilent i Hl). by replace (last - S i)%nat with O by lia; replace (last - i)%nat with O by lia.
  - replace (last - i)%nat with (S (last - S i)) by lia. cbn [seq mbind list_bind]. by rewrite length_app.
Qed.

(** A receive takes a command out of what is pending. *)
Lemma try_recv_takes w : exists w' c, try_recv env w = Some (w', Some c) /\ wk_passes w' = wk_passes w /\
  (pending env last w' + (if c is Some _ then 1 else 0) <= pending env last w)%nat.
Proof.
  unfold try_recv. destruct (we_others env _ _) as [[g o] s]. cbv zeta. unfold pending.
  rewrite <- (to_come_step (wk_recvs w)). cbn [wk_channel log_events set_shared].
  assert (Hlen := length_app (wk_channel w) (we_arrivals env (wk_recvs w))).
  destruct (wk_channel w ++ we_arrivals env (wk_recvs w)) as [|c channel]; eexists _, _; (split; [reflexivity|]);
    cbn in *; (split; [done|lia]).
Qed.

Lemma try_recv_returns : returns (try_recv env).
Proof.
  intros w. destruct (try_recv_takes w) as (w' & c & H & Hp & Hl). exists w', (Some c). split_and!; [done|done|lia].
Qed.

Lemma reject_all_returns l reason : returns (reject_all su env port_name l reason).
Proof. induction l as [|c l IH]; cbn [reject_all]; unfold reject; returns_tac. Qed.
#[local] Hint Resolve try_recv_returns reject_all_returns : returns.

Lemma reject_queued_returns target reason : returns (reject_queued_commands su env port_name target reason).
Proof. unfold reject_queued_commands. returns_tac. Qed.
#[local] Hint Resolve reject_queued_returns : returns.

Lemma enqueue_returns data report_ack ack_id expires_at permit :
  returns (enqueue_or_reject_command su env port_name data report_ack ack_id expires_at permit).
Proof. unfold enqueue_or_reject_command, reject. returns_tac. Qed.


Lemma query_returns m id : is_Some (perform_station_version_query su drv fuel m id).
Proof.
  unfold perform_station_version_query. destruct (position su id); [|by eexists]. cbv zeta.
  destruct (match m_states m !! _ with Some _ => _ | None => _ end); [by eexists|].
  destruct (negb (bool_decide _)); [by eexists|]. destruct (negb (m_port _)); [by eexists|].
  match goal with |- context [Acquisition.send_command su drv fuel ?m ?c] => destruct (send_returns m c) as [[m1 sent] ->] end.
  cbn [mbind option_bind]. destruct sent; [|by eexists]. cbn [negb].
  destruct (receive_total su drv (m_calls m1)) as [[calls r] ->]. by eexists.
Qed.

Lemma query_and_report_returns id : returns (query_and_report su drv env fuel id).
Proof.
  unfold query_and_report. apply returns_bind; [apply returns_port; intros m; apply query_returns|]. intros r w.
  unfold report_query. destruct (report_station_query_result _ _ _ _ _ _) as [o r']. by eexists _, _.
Qed.
#[local] Hint Resolve enqueue_returns query_and_report_returns : returns.

Lemma device_indexes_returns id status indexes : returns (apply_device_indexes su id status indexes).
Proof.
  induction indexes as [|index indexes IH]; cbn [apply_device_indexes];
    unfold apply_device_index, schedule_station_version_query; returns_tac.
  apply returns_manager. by eexists.
Qed.
#[local] Hint Resolve device_indexes_returns : returns.

Lemma apply_command_returns c : returns (apply_command su drv env port_name fuel c).
Proof.
  unfold apply_command, apply_port_status, apply_device_setting, apply_device_read, schedule_station_version_query,
    schedule_configured_domestic_version_queries.
  returns_tac; first [apply returns_manager|apply returns_port]; by eexists.
Qed.
#[local] Hint Resolve apply_command_returns : returns.

Lemma process_commands_returns budget : returns (process_commands su drv env port_name fuel budget).
Proof.
  induction budget as [|budget IH]; cbn [process_commands]; [apply returns_ret|].
  unfold process_command, drop_command, refresh_operations_state, complete, answer, drop_held. returns_tac.
Qed.
#[local] Hint Resolve process_commands_returns : returns.

Lemma port_turns_returns budget report_ack expires_at data m :
  is_Some (port_turns su drv env fuel budget report_ack expires_at data m).
Proof.
  revert m. induction budget as [|budget IH]; intros m; cbn [port_turns]; [by eexists|]. cbv zeta.
  destruct (_ || _); [by eexists|]. destruct (send_returns (used m (S (m_calls m)) []) data) as [[m1 sent] ->].
  cbn [mbind option_bind]. destruct (we_unwinds _ _); [by eexists|]. destruct (_ || _); [by eexists|].
  destruct (proj2 (reception_terminates su drv m1)) as [[m2 r] ->]. cbn [mbind option_bind].
  destruct (we_unwinds _ _); [by eexists|]. destruct r; [by eexists|].
  destruct (IH m2) as [[turns m3] ->]. by eexists.
Qed.

Lemma execute_queued_returns c : returns (execute_queued su drv env port_name command_retry_count fuel c).
Proof.
  unfold execute_queued. returns_tac. intros w. unfold execute_at.
  match goal with |- context [if ?b then Some ?x else ?y] => assert (H : is_Some (if b then Some x else y)) end.
  { case_match; [by eexists|apply port_turns_returns]. }
  destruct H as [[turns m] ->]. cbn [mbind option_bind]. destruct (Transaction.run _ _ _ _) as [t r]. unfold absorb.
  destruct (give_back _ _ _ _) as [g o]. destruct r; by eexists _, _.
Qed.
#[local] Hint Resolve execute_queued_returns : returns.

Lemma next_ready_returns : returns (execute_next_ready_command su drv env port_name command_retry_count fuel).
Proof. unfold execute_next_ready_command. returns_tac. Qed.
#[local] Hint Resolve next_ready_returns : returns.

Lemma primary_returns : returns (run_primary_cycle su drv env port_name command_retry_count fuel).
Proof.
  unfold run_primary_cycle. returns_tac.
  all: first [first [apply returns_manager|apply returns_port]; intros m; first [apply send_returns|by eexists] | intros w; by exists w, None].
Qed.

Lemma secondary_returns : returns (run_secondary_cycle su drv env port_name command_retry_count fuel).
Proof. unfold run_secondary_cycle. returns_tac. Qed.

Lemma scheduled_returns : returns (execute_one_scheduled_station_version_query su drv env fuel).
Proof.
  unfold execute_one_scheduled_station_version_query, drop_query_admission, schedule_station_version_query. returns_tac.
Qed.
#[local] Hint Resolve primary_returns secondary_returns scheduled_returns : returns.

Lemma query_retry_returns m query retry : is_Some (receive_query_with_retry su drv fuel m query retry).
Proof.
  unfold receive_query_with_retry. destruct (su_devices su !! m_index m); [|by eexists].
  destruct (receive_attempt_total su drv m) as [[m1 o] ->]. cbn [mbind option_bind]. destruct o as [|f| |]; try by eexists.
  destruct (retry =? 0); [by eexists|]. destruct (_ || _); [by eexists|].
  destruct (send_returns (rx_clear m1) query) as [[m2 sent] ->]. cbn [mbind option_bind]. destruct sent; [|by eexists].
  cbn [negb]. destruct (receive_attempt_total su drv m2) as [[m3 o] ->]. by eexists.
Qed.

Lemma finish_cycle_returns cycle : returns (finish_cycle su drv env query_retry_count fuel cycle).
Proof.
  unfold finish_cycle. returns_tac. all: first [apply returns_manager|apply returns_port]; intros m; try by eexists.
  - destruct (query_retry_returns m (sd_command query) query_retry_count) as [m1 ->]. by eexists.
  - destruct (proj1 (reception_terminates su drv m)) as [m1 ->]. by eexists.
Qed.
#[local] Hint Resolve finish_cycle_returns : returns.

(** The shutdown empties the channel. *)
Lemma reject_incoming_returns rounds w :
  (pending env last w < rounds)%nat -> exists w' r,
    reject_incoming_commands su env port_name rounds w = Some (w', r) /\ wk_passes w' = wk_passes w /\
    (pending env last w' <= pending env last w)%nat.
Proof.
  revert w. induction rounds as [|rounds IH]; intros w Hr; [lia|]. cbn [reject_incoming_commands].
  destruct (try_recv_takes w) as (w1 & c & H & Hp1 & Hl). unfold mbind at 1, W_bind at 1. rewrite H.
  destruct c as [c|]; [|exists w1, (Some tt); split_and!; [done|done|lia]].
  assert (Hc : returns (reject_incoming su env port_name c)).
  { unfold reject_incoming, reject, drop_held, complete, answer. returns_tac. }
  destruct (Hc w1) as (w2 & r & H2 & Hp2 & Hl2). unfold mbind, W_bind. rewrite H2. destruct r as [u|].
  - destruct (IH w2 ltac:(lia)) as (w3 & r & H3 & Hp3 & Hl3). exists w3, r. split_and!; [done|congruence|lia].
  - exists w2, None. split_and!; [done|congruence|lia].
Qed.

(** A program that returns where less than [rounds] commands are pending. *)
Definition returns_at {A} (rounds : nat) (m : W A) : Prop := forall w, (pending env last w < rounds)%nat -> exists w' r,
  m w = Some (w', r) /\ wk_passes w' = wk_passes w /\ (pending env last w' <= pending env last w)%nat.

Lemma returns_at_bind {A B} rounds (m : W A) (k : A -> W B) :
  returns_at rounds m -> (forall a, returns_at rounds (k a)) -> returns_at rounds (m ≫= k).
Proof.
  intros Hm Hk w Hr. destruct (Hm w Hr) as (w1 & [a|] & E & Hp & Hl); unfold mbind, W_bind; rewrite E.
  - destruct (Hk a w1 ltac:(lia)) as (w2 & r & E2 & Hp2 & Hl2). exists w2, r. split_and!; [done|congruence|lia].
  - by exists w1, None.
Qed.

Lemma returns_at_of {A} rounds (m : W A) : returns m -> returns_at rounds m.
Proof. intros H w _. apply H. Qed.

Lemma shutdown_returns reason rounds :
  returns_at rounds (_ ← reject_queued_commands su env port_name None reason;
                     _ ← reject_incoming_commands su env port_name rounds; mret false).
Proof.
  apply returns_at_bind; [apply returns_at_of; auto with returns|]. intros _.
  apply returns_at_bind; [exact (reject_incoming_returns rounds)|]. intros _. apply returns_at_of, returns_ret.
Qed.

Lemma recover_returns rounds : returns_at rounds (recover_panic su drv env port_name rounds).
Proof.
  unfold recover_panic, fail_inflight. do 6 (apply returns_at_bind; [apply returns_at_of; returns_tac; apply returns_manager; by eexists|]; intros ?).
  apply returns_at_bind; [apply returns_at_of, returns_asks|]. intros w. case_match.
  - apply returns_at_bind; [exact (reject_incoming_returns rounds)|]. intros _. apply returns_at_of, returns_ret.
  - apply returns_at_of. unfold schedule_configured_domestic_version_queries, refresh_operations_state.
    returns_tac. apply returns_manager. by eexists.
Qed.

Notation round := (supervised su drv env port_name command_retry_count query_retry_count fuel).

Lemma cancelled_pass rounds w :
  we_cancelled env (wk_passes w) = true ->
  worker_pass su drv env port_name command_retry_count query_retry_count fuel rounds w =
  (_ ← reject_queued_commands su env port_name None "worker_shutdown";
   _ ← reject_incoming_commands su env port_name rounds; mret false)
    (set_channel (wk_channel w) (wk_recvs w) (S (wk_passes w)) w).
Proof.
  intros Hc. unfold worker_pass, mbind at 1, W_bind at 1, asks at 1, mbind at 1, W_bind at 1, change at 1.
  cbv beta iota. by rewrite Hc.
Qed.

(** A round returns and counts itself. *)
Lemma supervised_returns rounds w :
  (pending env last w < rounds)%nat -> exists w' r,
    round rounds w = Some (w', r) /\ wk_passes w' = S (wk_passes w) /\ (pending env last w' <= pending env last w)%nat.
Proof.
  intros Hr. unfold supervised.
  assert (H : exists w' r, worker_pass su drv env port_name command_retry_count query_retry_count fuel rounds w = Some (w', r) /\
    wk_passes w' = S (wk_passes w) /\ (pending env last w' <= pending env last w)%nat).
  { unfold worker_pass, mbind at 1, W_bind at 1, asks at 1, mbind at 1, W_bind at 1, change at 1. cbv beta iota.
    set (w0 := set_channel _ _ _ w). change (S (wk_passes w)) with (wk_passes w0).
    change (pending env last w) with (pending env last w0) in *.
    destruct (we_cancelled env (wk_passes w)); [by apply shutdown_returns|].
    revert w0 Hr. intros w0 Hr. revert w0 Hr. apply returns_at_of.
    unfold process_incoming_commands, refresh_operations_state. returns_tac. }
  destruct H as (w1 & [go|] & E & Hp & Hl); rewrite E; [by exists w1, (Some go)|].
  destruct (recover_returns rounds w1 ltac:(lia)) as (w2 & r & E2 & Hp2 & Hl2). exists w2, r.
  split_and!; [done|congruence|lia].
Qed.

Context (Harrivals : forall i, Forall command_ok (we_arrivals env i)).

(** The round after the cancellation is the last one. *)
Lemma cancelled_round rounds w :
  worker_ok su w -> (pending env last w < rounds)%nat -> we_cancelled env (wk_passes w) = true ->
  exists w', round rounds w = Some (w', Some false).
Proof.
  intros Hw Hr Hc. unfold supervised. rewrite (cancelled_pass rounds w Hc). set (w0 := set_channel _ _ _ w).
  destruct (shutdown_returns "worker_shutdown" rounds w0 Hr) as (w' & r & E & _). rewrite E.
  pose proof (shutdown_spec su drv env port_name Harrivals "worker_shutdown" rounds w0 (proj1 (proj2 Hw))) as Hs.
  unfold wpw in Hs. rewrite E in Hs. destruct r as [go|]; [|done]. destruct Hs as (_ & -> & _). by exists w'.
Qed.

Lemma run_stops n rounds w :
  worker_ok su w -> (pending env last w < rounds)%nat -> (wk_passes w <= n)%nat -> we_cancelled env n = true ->
  exists w', run_worker su drv env port_name command_retry_count query_retry_count fuel (S n - wk_passes w) rounds w =
    Some (w', Some false).
Proof.
  intros Hw Hr Hn Hc. remember (n - wk_passes w)%nat as d eqn:Hd. revert w Hw Hr Hn Hd.
  induction d as [|d IH]; intros w Hw Hr Hn Hd.
  all: assert (Hstop : forall w1, round rounds w = Some (w1, Some false) -> exists w',
    run_worker su drv env port_name command_retry_count query_retry_count fuel (S n - wk_passes w) rounds w =
    Some (w', Some false)).
  1, 3: intros w1 H1; replace (S n - wk_passes w)%nat with (S (n - wk_passes w)) by lia; cbn [run_worker];
    unfold mbind at 1, W_bind at 1; rewrite H1; by eexists.
  - replace n with (wk_passes w) in Hc by lia. destruct (cancelled_round rounds w Hw Hr Hc) as [w1 H1]. by eapply Hstop.
  - destruct (supervised_returns rounds w Hr) as (w1 & r & H1 & Hp1 & Hl1).
    pose proof (supervised_spec su drv env port_name command_retry_count query_retry_count fuel Harrivals rounds w Hw) as Hs.
    unfold wpw in Hs. rewrite H1 in Hs. destruct r as [[|]|]; [|by eapply Hstop|done].
    destruct Hs as [(_ & Hw1 & _) _].
    destruct (IH w1 Hw1 ltac:(lia) ltac:(lia) ltac:(lia)) as [w2 H2]. exists w2.
    replace (S n - wk_passes w)%nat with (S (S n - wk_passes w1)) by lia. cbn [run_worker].
    unfold mbind at 1, W_bind at 1. by rewrite H1.
Qed.

(** C12: a cancelled worker stops and leaves nothing undone. Let the clock pass a
    transmit deadline within [pace] driver calls, let the token be cancelled in
    round [n] and let the senders fall silent at some time. Then, whatever the
    port, the driver's panics and the other threads do, no round hangs, the
    worker has stopped after at most [n + 1] rounds, nothing waits in its queue or
    channel, and what was notified, released and answered, with what panics cut
    off, is exactly what the commands that arrived were owed. *)
Theorem cancelled_worker_stops run interval g o s system w0 u n rounds :
  start_worker su drv env port_name run interval g o s system = Some (w0, u) ->
  we_cancelled env n = true -> (to_come env last 0 < rounds)%nat ->
  exists w, run_worker su drv env port_name command_retry_count query_retry_count fuel (S n) rounds w0 = Some (w, Some false) /\
    wk_queue w = [] /\ wk_channel w = [] /\ (wk_events w ≫= settles) ++ (wk_events w ≫= cut_off) ≡ₚ wk_events w ≫= incurs.
Proof.
  intros Hs Hc Hr. destruct (start_ok _ _ _ _ _ _ _ _ _ _ _ _ Hs) as [Hw _].
  assert (H0 : wk_passes w0 = O /\ pending env last w0 = to_come env last 0).
  { unfold start_worker in Hs. injection Hs as <- _. split; done. }
  destruct H0 as [Hp Hpend]. destruct (run_stops n rounds w0 Hw ltac:(lia) ltac:(lia) Hc) as [w H].
  rewrite Hp in H. replace (S n - 0)%nat with (S n) in H by lia. exists w. split; [done|].
  destruct (started_runs _ _ _ _ _ _ _ Harrivals _ _ _ _ _ _ _ _ _ _ _ _ Hs H) as (go & [= <-] & (Ho & _) & Hq & _).
  destruct (Hq eq_refl) as [Hq' Hch]. split_and!; [done|done|]. unfold owed in Ho.
  by rewrite Hq', Hch, !app_nil_r, clears_split in Ho.
Qed.
End Operations.

(** ** Witness *)

(** A clock that moves on by five seconds with every call; the token is
    cancelled in round 2 and nothing is sent after the sixth receive. *)
Definition fast_reader : Driver :=
  {| drv_read := drv_read toy_reader; drv_write := drv_write toy_reader; drv_set_parity := drv_set_parity toy_reader;
     drv_clock := fun i => Z.of_nat i * MAX_TRANSMIT_TIMEOUT; drv_bytes_to_write := fun _ => Some 1;
     drv_bytes_to_read := drv_bytes_to_read toy_reader; drv_open := drv_open toy_reader |}.

Lemma fast_paced : paced fast_reader 1.
Proof. intros i j Hij. cbn [drv_clock fast_reader]. assert (0 < MAX_TRANSMIT_TIMEOUT) by reflexivity. nia. Qed.

Lemma toy_silent i : (7 <= i)%nat -> we_arrivals toy_worker_env i = [].
Proof. intros H. do 7 (destruct i as [|i]; [lia|]). done. Qed.

Lemma cancelled_worker_stops_witness :
  exists w0 u w,
    start_worker (toy_setup Primary) fast_reader toy_worker_env "COM3" Primary 0 (gw_gate toy_gate) toy_ops toy_state [] = Some (w0, u) /\
    run_worker (toy_setup Primary) fast_reader toy_worker_env "COM3" 3 1 2 3 6 w0 = Some (w, Some false) /\
    wk_queue w = [] /\ wk_channel w = [] /\ (wk_events w ≫= settles) ++ (wk_events w ≫= cut_off) ≡ₚ wk_events w ≫= incurs.
Proof.
  destruct (start_worker (toy_setup Primary) fast_reader toy_worker_env "COM3" Primary 0 (gw_gate toy_gate) toy_ops toy_state [])
    as [[w0 u]|] eqn:H0; [|discriminate H0].
  destruct (cancelled_worker_stops (toy_setup Primary) fast_reader toy_worker_env 1 "COM3" 3 1 2 7 fast_paced ltac:(lia)
              ltac:(discriminate) toy_silent toy_arrivals_ok Primary 0 (gw_gate toy_gate) toy_ops toy_state [] w0 u 2 6
              H0 eq_refl ltac:(cbn; lia)) as (w & H).
  by exists w0, u, w.
Defined.
