(* ===== verification/Ingress.v ===== *)
(** * Commands of OPC UA clients (src/src/server/opcua.rs, opcua/tracked_commands.rs)

    How a command enters the gateway: a write to the send node of a port, a
    call of its method, or a tracked submission of a manager; and how its
    status returns to the send node.  A caller is a small state machine whose
    stages are the sections between two acquisitions of a lock, so that callers,
    the acknowledgement task, the workers and the journal writer interleave
    there ([front_step]); run without interruption the stages are the source's
    functions.  The pending map is changed under its own lock, the tracker
    ([Tracking]) and the console ([Operations], [Maintenance]) under theirs.
    The operations handle is always present, as in the running server; log
    lines and the bounded record of operations are left out. *)

From stdpp Require Import pretty.
From S2P Require Import Prelude RustStr Model Parser Csv Protocol Tracking TrackerOpen Maintenance Operations.
Open Scope string_scope.
Open Scope Z_scope.
Open Scope list_scope.

(** ** Data *)

(** The status codes the handlers answer with. *)
Inductive StatusCode :=
| Good | BadTypeMismatch | BadInvalidArgument | BadWaitingForResponse | BadTimeout | BadOutOfService
| BadResourceUnavailable.
#[export] Instance status_code_eq_dec : EqDecision StatusCode.
Proof. solve_decision. Defined.

(** The value of a written [DataValue]. *)
Inductive Written := NoValue | NotString | TextValue (t : string).

Record PendingCommand := { pc_ack_id : Z; pc_deadline : Z }.

(** Who asks: a manager's submission under an identity, a write to a send
    node, a method call. *)
Inductive Caller := Submission (manager command : string) | NodeWrite | MethodCall.

(** What a caller carries from stage to stage. *)
Record Request := {
  rq_caller : Caller;
  rq_com : string;
  rq_ack : Z;
  rq_text : string;
  rq_command : Command;
  rq_not_after : option Z
}.

Inductive Stage :=
| Begin
| Confirm (value : Snapshot)
| Admission
| Accept
| Send
| Undo
| Close
| Show
| Finish (status : StatusCode).

Inductive Answer :=
| Status (status : StatusCode)
| Duplicate (value : Snapshot)
| Tracked (value : option Snapshot)
| Refused (e : OperationError)
| Forwarded (device : Z).

Inductive Next := Then (stage : Stage) | Answered (a : Answer).

(** The shared state.  [fr_handed] are the requests whose commands were put
    into the channel of a worker, [fr_shown] the statuses written to send
    nodes; the two counters of acknowledgement numbers do not wrap. *)
Record Front := {
  fr_pending : gmap string PendingCommand;
  fr_tracker : State;
  fr_gate : GateState;
  fr_ops : OpsState;
  fr_handed : list Request;
  fr_local : list CommandAckUpdate;
  fr_shown : list (string * Z * CommandAckStatus);
  fr_next_ack : Z;
  fr_next_method : Z
}.

Definition set_pending (p : gmap string PendingCommand) (f : Front) : Front :=
  {| fr_pending := p; fr_tracker := fr_tracker f; fr_gate := fr_gate f; fr_ops := fr_ops f;
     fr_handed := fr_handed f; fr_local := fr_local f; fr_shown := fr_shown f;
     fr_next_ack := fr_next_ack f; fr_next_method := fr_next_method f |}.
Definition set_tracker (s : State) (f : Front) : Front :=
  {| fr_pending := fr_pending f; fr_tracker := s; fr_gate := fr_gate f; fr_ops := fr_ops f;
     fr_handed := fr_handed f; fr_local := fr_local f; fr_shown := fr_shown f;
     fr_next_ack := fr_next_ack f; fr_next_method := fr_next_method f |}.
Definition set_console (g : GateState) (o : OpsState) (f : Front) : Front :=
  {| fr_pending := fr_pending f; fr_tracker := fr_tracker f; fr_gate := g; fr_ops := o;
     fr_handed := fr_handed f; fr_local := fr_local f; fr_shown := fr_shown f;
     fr_next_ack := fr_next_ack f; fr_next_method := fr_next_method f |}.
Definition add_handed (r : Request) (f : Front) : Front :=
  {| fr_pending := fr_pending f; fr_tracker := fr_tracker f; fr_gate := fr_gate f; fr_ops := fr_ops f;
     fr_handed := fr_handed f ++ [r]; fr_local := fr_local f; fr_shown := fr_shown f;
     fr_next_ack := fr_next_ack f; fr_next_method := fr_next_method f |}.
Definition set_local (l : list CommandAckUpdate) (f : Front) : Front :=
  {| fr_pending := fr_pending f; fr_tracker := fr_tracker f; fr_gate := fr_gate f; fr_ops := fr_ops f;
     fr_handed := fr_handed f; fr_local := l; fr_shown := fr_shown f;
     fr_next_ack := fr_next_ack f; fr_next_method := fr_next_method f |}.
Definition show (com : string) (ack : Z) (status : CommandAckStatus) (f : Front) : Front :=
  {| fr_pending := fr_pending f; fr_tracker := fr_tracker f; fr_gate := fr_gate f; fr_ops := fr_ops f;
     fr_handed := fr_handed f; fr_local := fr_local f; fr_shown := fr_shown f ++ [(com, ack, status)];
     fr_next_ack := fr_next_ack f; fr_next_method := fr_next_method f |}.

Definition set_ids (next_ack next_method : Z) (f : Front) : Front :=
  {| fr_pending := fr_pending f; fr_tracker := fr_tracker f; fr_gate := fr_gate f; fr_ops := fr_ops f;
     fr_handed := fr_handed f; fr_local := fr_local f; fr_shown := fr_shown f;
     fr_next_ack := next_ack; fr_next_method := next_method |}.

(** ** Texts *)

Definition SEND_NODE_IDLE_VALUE : string := "IDLE".

Definition is_send_node_idle_or_status (value : string) : bool :=
  bool_decide (value ∈ [""; SEND_NODE_IDLE_VALUE; "0"; "1"; "2"; "3"]).

Inductive BuildError := HexParse (e : HexError) | TooShort.

Definition build_error_text (e : BuildError) : string :=
  match e with
  | HexParse NonAscii => "十六进制解析失败: Hex 字符串只能包含 ASCII 字符"
  | HexParse OddLength => "十六进制解析失败: Hex 字符串长度不是偶数"
  | HexParse BadDigit => "十六进制解析失败: invalid digit found in string"
  | TooShort => "十六进制长度过短（至少需 2 字节）"
  end.

Definition build_hex_command (hex_str com : string) (with_ack : bool) (ack_id : option Z) : result BuildError Command :=
  let cleaned := text (filter (fun c => is_ascii_whitespace c = false) (chars hex_str)) in
  bytes ← map_err HexParse (hex_str_to_bytes cleaned);
  match bytes with
  | device_id :: _ :: _ =>
      let send_data := {| sd_device_id := device_id; sd_command := bytes ++ [get_sum bytes] |} in
      Ok {| cm_com := com; cm_command := if with_ack then SendDataWithAck send_data else SendDataCommand send_data;
            cm_ack_id := if with_ack then ack_id else None; cm_expires_at := None; cm_control_receipt := None;
            cm_permit := false |}
  | _ => Err TooShort
  end.

Definition with_deadline (deadline : option Z) (c : Command) : Command :=
  {| cm_com := cm_com c; cm_command := cm_command c; cm_ack_id := cm_ack_id c; cm_expires_at := deadline;
     cm_control_receipt := cm_control_receipt c; cm_permit := cm_permit c |}.
Definition with_permit (c : Command) : Command :=
  {| cm_com := cm_com c; cm_command := cm_command c; cm_ack_id := cm_ack_id c; cm_expires_at := cm_expires_at c;
     cm_control_receipt := cm_control_receipt c; cm_permit := true |}.
Definition with_ack_id (ack : Z) (c : Command) : Command :=
  {| cm_com := cm_com c; cm_command := cm_command c; cm_ack_id := Some ack; cm_expires_at := cm_expires_at c;
     cm_control_receipt := cm_control_receipt c; cm_permit := cm_permit c |}.

(** The head of [handle_send_node_write_tracked_deadline]: an early answer or
    the text and its command. *)
Definition parse_write (value : Written) (com : string) (ack : Z) : result StatusCode (string * Command) :=
  match value with
  | NoValue | NotString => Err BadTypeMismatch
  | TextValue t =>
      let hex_str := trim t in
      if is_send_node_idle_or_status hex_str then Err Good
      else
        match build_hex_command hex_str com true (Some ack) with
        | Err _ => Err BadInvalidArgument
        | Ok c => Ok (hex_str, c)
        end
  end.

Definition begin_error_text (e : BeginError) : string :=
  match e with
  | InvalidIdentity => "invalid command identity"
  | PayloadTooLarge => "command payload too large"
  | ContentMismatch => "command ID reused with different content"
  | HistoryUnavailable => "command history unavailable; identity cannot be confirmed; never replayed"
  | HistoricalEvidence => "historical command evidence unavailable; never replayed"
  | EvidenceEvicted => "command identity was admitted but its evidence is no longer available; never replayed"
  | TooManyActive => "too many active tracked commands"
  end.

(** [command_pending_timeout]: milliseconds in [u64], the result in
    nanoseconds. *)
Definition u64_saturating (z : Z) : Z := Z.min z (2 ^ 64 - 1).
Definition command_pending_timeout (timeout_ms command_retry_count : Z) : Z :=
  let attempts := Z.max command_retry_count 1 in
  let timeout := u64_saturating (u64_saturating (timeout_ms * attempts) + 2000) in
  Z.max timeout 5000 * 1000000.

(** ** Tracked submissions *)

(** A field of the JSON request. *)
Inductive Field := FText (t : string) | FNumber (n : Z) | FOther.

Definition field (request : gmap string Field) (name : string) : result OperationError string :=
  match request !! name with
  | Some (FText t) => if String.eqb t "" then Err (op_error "invalid_request" ("missing " +:+ name)) else Ok t
  | _ => Err (op_error "invalid_request" ("missing " +:+ name))
  end.

Definition submission_timeout (request : gmap string Field) : Z :=
  let timeout := match request !! "timeout_ms" with Some (FNumber n) => n | _ => 5000 end in
  Z.max 1 (Z.min timeout 30000) * 1000000.

(** The callback of [register_tracked_command_submit] up to the allocation of
    an acknowledgement number: port, payload, manager and command. *)
Definition parse_submission (i : Inner) (senders : list string) (request : gmap string Field)
    : result OperationError (string * string * string * string) :=
  if negb (match request !! "schema_version" with Some (FNumber n) => n =? 1 | _ => false end)
  then Err (op_error "invalid_request" "unsupported command schema_version")
  else
    gateway ← field request "expected_gateway_instance_id";
    boot ← field request "expected_boot_id";
    if negb (validate_identity i gateway boot)
    then Err (op_error "conflict" "lower instance changed; do not replay the command")
    else
      port ← field request "port_id";
      if negb (bool_decide (port ∈ senders)) then Err (op_error "not_found" "unknown physical port")
      else
        payload ← field request "hex_data";
        if is_send_node_idle_or_status payload || negb (is_ok (build_hex_command payload port true None))
        then Err (op_error "invalid_request" "invalid command hex data")
        else
          manager ← field request "manager_instance_id";
          command ← field request "command_id";
          Ok (port, payload, manager, command).

(** ** Changes of a journal entry *)

Definition set_outcome (v : Snapshot) (accepted : bool) (status_code : Z) (phase error : string) : Snapshot := {|
  schema_version := schema_version v; manager_instance_id := manager_instance_id v; command_id := command_id v;
  gateway_instance_id := gateway_instance_id v; boot_id := boot_id v; port_id := port_id v; ack_id := ack_id v;
  request_hash := request_hash v; request_preview := request_preview v; device_id := device_id v;
  accepted := accepted; status_code := status_code; phase := phase; attempt_count := attempt_count v;
  sent_count := sent_count v; attempts := attempts v; error := error; revision := revision v;
  started_at := started_at v; updated_at := updated_at v; audit_incomplete := audit_incomplete v |}.

Definition change_accepted (v : Snapshot) : Snapshot := set_outcome v true (status_code v) (phase v) (error v).
Definition change_unavailable (v : Snapshot) : Snapshot :=
  set_outcome v false (status_code v) "Failed" "command channel unavailable".
Definition change_deadline (v : Snapshot) : Snapshot :=
  if terminal v then v else set_outcome v (accepted v) (status_code v) "Expired" "command deadline expired".

Section Front.
Context (sha256 : string -> list Z) (i : Inner) (pending_timeout : Z).
Context (bits : StatusCode -> Z) (debug : StatusCode -> string).

Definition change_result (status : StatusCode) (v : Snapshot) : Snapshot :=
  match status with
  | Good => set_outcome v (accepted v) (bits Good) (phase v) (error v)
  | BadTimeout => set_outcome v false (bits BadTimeout) "Expired" "deadline_expired_before_admission"
  | s => set_outcome v false (bits s) "Failed" (debug s)
  end.

(** ** Stages *)

(** What a stage meets: the clock at its three readings, the shutdown token,
    the answer of the journal reader, the time stamp, the channel of the worker
    and the server handle. *)
Record FrontEnv := {
  fe_now : Z;
  fe_checked : Z;
  fe_admitted : Z;
  fe_shutdown : bool;
  fe_lookup : result string (option Snapshot);
  fe_stamp : string;
  fe_open : bool;
  fe_alive : bool
}.

Definition rq_identity (r : Request) : string * string :=
  match rq_caller r with
  | Submission manager command => (manager, command)
  | NodeWrite => ("legacy", boot i +:+ "-" +:+ pretty (rq_ack r))
  | MethodCall => ("legacy", "method-" +:+ boot i +:+ "-" +:+ pretty (rq_ack r))
  end.

Definition set_command (c : Command) (r : Request) : Request :=
  {| rq_caller := rq_caller r; rq_com := rq_com r; rq_ack := rq_ack r; rq_text := rq_text r; rq_command := c;
     rq_not_after := rq_not_after r |}.

Definition set_ack (ack : Z) (r : Request) : Request :=
  {| rq_caller := rq_caller r; rq_com := rq_com r; rq_ack := ack; rq_text := rq_text r; rq_command := rq_command r;
     rq_not_after := rq_not_after r |}.

Definition track (f : Front) (r : Request) (change : Snapshot -> Snapshot) (stamp : string) : Front :=
  set_tracker (update (fr_tracker f) (rq_com r) (Some (rq_ack r)) change stamp) f.

(** [tracker.begin] up to its wait. *)
Definition stage_begin (e : FrontEnv) (r : Request) (f : Front) : Front * Label * Next :=
  let (manager, command) := rq_identity r in
  let '(s, res) := begin_admit sha256 i (fr_tracker f) (fe_lookup e) manager command (rq_com r) (rq_ack r)
                     (rq_text r) (fe_stamp e) in
  (set_tracker s f, begin_label res,
   match rq_caller r, res with
   | _, Ok (v, true) => Then (Confirm v)
   | Submission _ _, Ok (v, false) => Answered (Duplicate v)
   | Submission _ _, Err er => Answered (Refused (op_error "conflict" (begin_error_text er)))
   | _, _ => Then Accept
   end).

(** The end of [tracker.begin]. *)
Definition stage_confirm (e : FrontEnv) (r : Request) (v : Snapshot) (f : Front) : Front * Label * Next :=
  let s := begin_confirm (fr_tracker f) (snapshot_key v) (rq_com r) (rq_ack r) v (fe_stamp e) in
  let known :=
    if match persisted (fr_tracker f) !! snapshot_key v with Some n => revision v <=? n | None => false end
    then Ok (Some v) else get s (fe_lookup e) (manager_instance_id v) (command_id v) in
  (set_tracker s f, Internal,
   match rq_caller r, known with
   | Submission _ _, Err er => Answered (Refused (op_error "conflict" er))
   | Submission _ _, Ok _ =>
       if fe_alive e then Then Admission else Answered (Refused (op_error "unavailable" "server shutting down"))
   | _, _ => Then Accept
   end).

(** The section under the pending lock with the admission of the console; a
    method call is only admitted, and numbered by [legacy_ack_id]. *)
Definition stage_admission (e : FrontEnv) (r : Request) (f : Front) : Front * Request * Next :=
  let refuse (f : Front) (s : StatusCode) :=
    (f, r, match rq_caller r with Submission _ _ => Then (Finish s) | _ => Answered (Status s) end) in
  match rq_caller r with
  | MethodCall =>
      let '(g, o, a) := admit_command (fr_gate f) (fr_ops f) (fe_shutdown e) (rq_com r) in
      match a with
      | Err er => (set_console g o f, r, Answered (Refused (op_error (oe_code er) (oe_code er +:+ ": " +:+ oe_message er))))
      | Ok _ =>
          (set_ids (fr_next_ack f) (fr_next_method f + 1) (set_console g o f),
           set_ack (fr_next_method f) (set_command (with_permit (rq_command r)) r), Then Begin)
      end
  | _ =>
      let unfinished :=
        match fr_pending f !! rq_com r with
        | Some previous => negb (is_terminal_ack (fr_tracker f) (rq_com r) (pc_ack_id previous))
        | None => false
        end in
      if unfinished then refuse f BadWaitingForResponse
      else
        let deadline := default (fe_now e + pending_timeout) (rq_not_after r) in
        if deadline <=? fe_checked e then refuse f BadTimeout
        else
          let '(g, o, a) := admit_command (fr_gate f) (fr_ops f) (fe_shutdown e) (rq_com r) in
          match a with
          | Err er => refuse (set_console g o f)
                        (if String.eqb (oe_code er) "busy" then BadWaitingForResponse else BadOutOfService)
          | Ok _ =>
              if deadline <=? fe_admitted e then
                let (g, o) := drop_command_permit g o (rq_com r) in refuse (set_console g o f) BadTimeout
              else
                (set_pending (<[rq_com r := {| pc_ack_id := rq_ack r; pc_deadline := deadline |}]> (fr_pending f))
                   (set_console g o f),
                 set_command (with_permit (with_deadline (Some deadline) (rq_command r))) r,
                 Then match rq_caller r with Submission _ _ => Accept | _ => Begin end)
          end
  end.

Definition stage_accept (e : FrontEnv) (r : Request) (f : Front) : Front :=
  track f r change_accepted (fe_stamp e).

Definition command_device (c : Command) : Z :=
  match cm_command c with SendDataCommand d | SendDataWithAck d => sd_device_id d | _ => 0 end.

(** [tx.send]; a method's command gets its number here. *)
Definition stage_send (e : FrontEnv) (r : Request) (f : Front) : Front * Request * Next :=
  let r := match rq_caller r with
           | MethodCall => set_command (with_ack_id (rq_ack r) (rq_command r)) r
           | _ => r
           end in
  if fe_open e then
    (add_handed r f, r,
     match rq_caller r with MethodCall => Answered (Forwarded (command_device (rq_command r))) | _ => Then Show end)
  else (f, r, Then match rq_caller r with MethodCall => Close | _ => Undo end).

Definition stage_undo (r : Request) (f : Front) : Front := set_pending (delete (rq_com r) (fr_pending f)) f.

(** The entry of a command that no channel took; its permit ends with it.
    (The debug text of the error of [send] is left out.) *)
Definition stage_close (e : FrontEnv) (r : Request) (f : Front) : Front * Next :=
  let f := track f r change_unavailable (fe_stamp e) in
  let (g, o) := drop_command_permit (fr_gate f) (fr_ops f) (rq_com r) in
  (set_console g o f,
   match rq_caller r with
   | Submission _ _ => Then (Finish BadResourceUnavailable)
   | NodeWrite => Answered (Status BadResourceUnavailable)
   | MethodCall => Answered (Refused (op_error "operation_failed" "转发命令到串口失败"))
   end).

Definition stage_show (r : Request) (f : Front) : Front * Next :=
  (set_local (fr_local f ++ [{| cau_com := rq_com r; cau_ack_id := Some (rq_ack r); cau_status := Waiting |}]) f,
   match rq_caller r with Submission _ _ => Then (Finish Good) | _ => Answered (Status Good) end).

(** The end of a submission: its entry gets the status and is read back. *)
Definition stage_finish (e : FrontEnv) (r : Request) (status : StatusCode) (f : Front) : Front * Next :=
  let f := track f r (change_result status) (fe_stamp e) in
  let (manager, command) := rq_identity r in
  (f, Answered match get (fr_tracker f) (fe_lookup e) manager command with
               | Ok value => Tracked value
               | Err er => Refused (op_error "audit_unavailable" er)
               end).

Definition advance (e : FrontEnv) (r : Request) (stage : Stage) (f : Front) : Front * Label * (Request * Next) :=
  match stage with
  | Begin => let '(f, l, n) := stage_begin e r f in (f, l, (r, n))
  | Confirm v => let '(f, l, n) := stage_confirm e r v f in (f, l, (r, n))
  | Admission => let '(f, r, n) := stage_admission e r f in (f, Internal, (r, n))
  | Accept => (stage_accept e r f, Internal, (r, Then Send))
  | Send => let '(f, r, n) := stage_send e r f in (f, Internal, (r, n))
  | Undo => (stage_undo r f, Internal, (r, Then Close))
  | Close => let '(f, n) := stage_close e r f in (f, Internal, (r, n))
  | Show => let '(f, n) := stage_show r f in (f, Internal, (r, n))
  | Finish s => let '(f, n) := stage_finish e r s f in (f, Internal, (r, n))
  end.

(** The first stage of a caller. *)
Definition first_stage (c : Caller) : Stage := match c with Submission _ _ => Begin | _ => Admission end.

(** The stages of a caller in sequence; the answers of the environment are
    consumed one by one.  No caller has more than eight stages. *)
Fixpoint run_stages (fuel : nat) (es : nat -> FrontEnv) (r : Request) (stage : Stage) (f : Front)
    : Front * option Answer :=
  match fuel with
  | O => (f, None)
  | S fuel =>
      let '(f, _, (r, n)) := advance (es fuel) r stage f in
      match n with
      | Then stage => run_stages fuel es r stage f
      | Answered a => (f, Some a)
      end
  end.

(** ** Arrivals *)

(** The write callback of a send node: the number is taken first. *)
Definition arrive_write (value : Written) (com : string) (f : Front) : Front * (Request + StatusCode) :=
  let ack := fr_next_ack f in
  (set_ids (ack + 1) (fr_next_method f) f,
   match parse_write value com ack with
   | Err s => inr s
   | Ok (hex_str, c) =>
       inl {| rq_caller := NodeWrite; rq_com := com; rq_ack := ack; rq_text := hex_str; rq_command := c;
              rq_not_after := None |}
   end).

(** The method callback, up to [forward_hex_command]'s admission. *)
Definition arrive_method (argument : Written) (com : string) : Request + Answer :=
  match argument with
  | NoValue | NotString => inr (Status BadTypeMismatch)
  | TextValue t =>
      let hex_str := trim t in
      if String.eqb hex_str "" then inr (Status BadInvalidArgument)
      else
        match build_hex_command hex_str com false None with
        | Err e => inr (Refused (op_error "invalid_request" (build_error_text e)))
        | Ok c => inl {| rq_caller := MethodCall; rq_com := com; rq_ack := 0; rq_text := hex_str; rq_command := c;
                         rq_not_after := None |}
        end
  end.

(** A submission received at [now]; the payload was checked, so that the
    write's own parser gives its command. *)
Definition arrive_submission (senders : list string) (request : gmap string Field) (now : Z) (f : Front)
    : Front * (Request + OperationError) :=
  match parse_submission i senders request with
  | Err e => (f, inr e)
  | Ok (port, payload, manager, command) =>
      let ack := fr_next_ack f in
      (set_ids (ack + 1) (fr_next_method f) f,
       match parse_write (TextValue payload) port ack with
       | Ok (_, c) =>
           inl {| rq_caller := Submission manager command; rq_com := port; rq_ack := ack; rq_text := payload;
                  rq_command := c; rq_not_after := Some (now + Z.min pending_timeout (submission_timeout request)) |}
       | Err _ => inr (op_error "invalid_request" "invalid command hex data")
       end)
  end.

(** ** Acknowledgements *)

Definition apply_ack_pending_state (pending : gmap string PendingCommand) (update : CommandAckUpdate)
    : gmap string PendingCommand * bool :=
  match cau_ack_id update with
  | None => (pending, false)
  | Some update_ack_id =>
      match pending !! cau_com update with
      | None => (pending, false)
      | Some p =>
          if negb (pc_ack_id p =? update_ack_id) then (pending, false)
          else (if is_terminal (cau_status update) then delete (cau_com update) pending else pending, true)
      end
  end.

(** The status reaches the node of the port, if it has one. *)
Definition process_command_ack_update (nodes : list string) (update : CommandAckUpdate) (f : Front) : Front :=
  let (pending, should_write) := apply_ack_pending_state (fr_pending f) update in
  let f := set_pending pending f in
  if should_write && bool_decide (cau_com update ∈ nodes)
  then show (cau_com update) (default 0 (cau_ack_id update)) (cau_status update) f else f.

Definition drain_command_ack_updates (nodes : list string) (acks : list CommandAckUpdate) (f : Front) : Front :=
  let f := foldl (fun f u => process_command_ack_update nodes u f) f acks in
  set_local [] (foldl (fun f u => process_command_ack_update nodes u f) f (fr_local f)).

Definition collect_expired_pending_commands (pending : gmap string PendingCommand) (now : Z) : list CommandAckUpdate :=
  (fun p => {| cau_com := p.1; cau_ack_id := Some (pc_ack_id p.2); cau_status := Failed |})
    <$> filter (fun p => pc_deadline p.2 <= now) (map_to_list pending).

Definition expire_pending (nodes : list string) (stamp : string) (f : Front) (u : CommandAckUpdate) : Front :=
  process_command_ack_update nodes u
    (set_tracker (update (fr_tracker f) (cau_com u) (cau_ack_id u) change_deadline stamp) f).

(** One round of the acknowledgement task. *)
Definition ack_round (nodes : list string) (acks : list CommandAckUpdate) (now : Z) (stamp : string) (f : Front) : Front :=
  let f := drain_command_ack_updates nodes acks f in
  foldl (expire_pending nodes stamp) f (collect_expired_pending_commands (fr_pending f) now).
End Front.

(** ** Histories *)

(** The shared state with the journal writer's, the callers under way and the
    commands handed over whose permit their worker still holds. *)
Record FrontWorld := {
  fw_front : Front;
  fw_db : option Db;
  fw_batch : list Snapshot;
  fw_callers : list (Request * Stage);
  fw_out : list Request
}.

Definition fw_journal (w : FrontWorld) : World :=
  {| w_state := fr_tracker (fw_front w); w_db := fw_db w; w_batch := fw_batch w |}.
Definition set_front (f : Front) (w : FrontWorld) : FrontWorld :=
  {| fw_front := f; fw_db := fw_db w; fw_batch := fw_batch w;
     fw_callers := fw_callers w; fw_out := fw_out w |}.
Definition add_caller (r : Request) (w : FrontWorld) : FrontWorld :=
  {| fw_front := fw_front w; fw_db := fw_db w; fw_batch := fw_batch w;
     fw_callers := (r, first_stage (rq_caller r)) :: fw_callers w; fw_out := fw_out w |}.

(** A caller that holds a permit for its port. *)
Definition holds (rs : Request * Stage) : bool :=
  match rs.2 with
  | Begin | Confirm _ => match rq_caller rs.1 with Submission _ _ => false | _ => true end
  | Accept | Send | Undo | Close => true
  | Admission | Show | Finish _ => false
  end.
Definition held_ports (callers : list (Request * Stage)) : list string :=
  rq_com ∘ fst <$> filter (fun rs => holds rs = true) callers.

(** The console, with the permits that are held. *)
Definition fw_permits (w : FrontWorld) : list string := held_ports (fw_callers w) ++ (rq_com <$> fw_out w).
Definition fw_console (w : FrontWorld) : OpsWorld :=
  {| ow_state := fr_ops (fw_front w); ow_permits := fw_permits w |}.

Definition next_callers (callers : list (Request * Stage)) (r : Request) (n : Next) : list (Request * Stage) :=
  match n with Then stage => (r, stage) :: callers | Answered _ => callers end.

Section World.
Context (sha256 : string -> list Z) (i : Inner) (pending_timeout : Z).
Context (bits : StatusCode -> Z) (debug : StatusCode -> string) (senders nodes : list string).

(** Callers, the acknowledgement task, workers, the console's other requests
    and the journal writer, in any order.  Acknowledgements and changes of
    journal entries are arbitrary. *)
Inductive front_step : FrontWorld -> Label -> FrontWorld -> Prop :=
| fs_write w value com f r :
    arrive_write value com (fw_front w) = (f, inl r) -> front_step w Internal (add_caller r (set_front f w))
| fs_write_refused w value com f status :
    arrive_write value com (fw_front w) = (f, inr status) -> front_step w Internal (set_front f w)
| fs_method w argument com r :
    arrive_method argument com = inl r -> front_step w Internal (add_caller r w)
| fs_submission w request now f r :
    arrive_submission i pending_timeout senders request now (fw_front w) = (f, inl r) ->
    front_step w Internal (add_caller r (set_front f w))
| fs_submission_refused w request now f e :
    arrive_submission i pending_timeout senders request now (fw_front w) = (f, inr e) ->
    front_step w Internal (set_front f w)
| fs_stage w e r stage others f l r' n :
    fw_callers w ≡ₚ (r, stage) :: others ->
    advance sha256 i pending_timeout bits debug e r stage (fw_front w) = (f, l, (r', n)) ->
    front_step w l
      {| fw_front := f; fw_db := fw_db w; fw_batch := fw_batch w; fw_callers := next_callers others r' n;
         fw_out := drop (length (fr_handed (fw_front w))) (fr_handed f) ++ fw_out w |}
| fs_ack w u : front_step w Internal (set_front (process_command_ack_update nodes u (fw_front w)) w)
| fs_drained w l : front_step w Internal (set_front (set_local l (fw_front w)) w)
| fs_released w r out g :
    fw_out w ≡ₚ r :: out ->
    front_step w Internal
      {| fw_front := set_console g (drop_command_permit (fr_gate (fw_front w)) (fr_ops (fw_front w)) (rq_com r)).2 (fw_front w);
         fw_db := fw_db w; fw_batch := fw_batch w; fw_callers := fw_callers w; fw_out := out |}
| fs_console w g o :
    ops_step (fw_console w) {| ow_state := o; ow_permits := fw_permits w |} ->
    front_step w Internal (set_front (set_console g o (fw_front w)) w)
| fs_journal w l j :
    (forall k, l <> Admit k) -> Tracking.step sha256 i (fw_journal w) l j ->
    front_step w l
      {| fw_front := set_tracker (w_state j) (fw_front w); fw_db := w_db j; fw_batch := w_batch j;
         fw_callers := fw_callers w; fw_out := fw_out w |}.

Inductive front_steps : FrontWorld -> list Label -> FrontWorld -> Prop :=
| fss_nil w : front_steps w [] w
| fss_cons w1 l w2 ls w3 : front_step w1 l w2 -> front_steps w2 ls w3 -> front_steps w1 (l :: ls) w3.
End World.

(** ** Permits *)

Lemma exclusive_perm v pending permits permits' :
  permits ≡ₚ permits' -> exclusive v pending permits -> exclusive v pending permits'.
Proof.
  intros Hp [H1 H2 H3]. constructor; [|done|].
  - intros port n c Hv. destruct (H1 port n c Hv) as (Hn & ?). split; [|done]. by unfold held in *; rewrite <- Hp.
  - intros port. rewrite <- Hp. apply H3.
Qed.

Lemma held_pos port l : port ∈ l -> 1 <= held port l.
Proof.
  unfold held. intros [k ->]%elem_of_Permutation. rewrite filter_cons_True by done. cbn. lia.
Qed.

Lemma held_zero port l : port ∉ l -> held port l = 0.
Proof. intros H. induction l as [|x l IH]; [done|]. rewrite held_cons, decide_False by set_solver. rewrite IH; [done|set_solver]. Qed.

Lemma held_nodup l : (forall port, held port l <= 1) -> NoDup l.
Proof.
  induction l as [|x l IH]; intros H; constructor.
  - intros Hin%held_pos. specialize (H x). rewrite held_cons in H. case_decide; [lia|done].
  - apply IH. intros port. specialize (H port). rewrite held_cons in H. case_decide; lia.
Qed.

Lemma permits_nodup w : ops_ok w -> NoDup (ow_permits w).
Proof.
  intros [H1 _ H3]. apply held_nodup. intros port. destruct (decide (port ∈ ow_permits w)) as [Hin|Hout].
  - destruct (H3 port Hin) as [[n c] Hv]. destruct (H1 _ _ _ Hv) as (Hn & Hle & _). case_match; lia.
  - by rewrite held_zero.
Qed.

Lemma admit_command_Ok g o sh port g' o' :
  admit_command g o sh port = (g', o', Ok ()) ->
  exists p, os_ports o !! port = Some p /\ pt_control_pending p = false /\ pt_pending_commands p <= 0.
Proof.
  unfold admit_command. destruct (admit_mutation g) as [g1 [[]|e]]; [|done]. unfold admit_on_port. destruct sh; [done|].
  destruct (os_ports o !! port) as [p|]; [|done]. destruct (_ || (0 <? _)) eqn:Hb; [done|]. destruct (negb _ || negb _); [done|]. intros _.
  apply orb_false_iff in Hb as [? ?%Z.ltb_ge]. by exists p.
Qed.

Lemma admit_command_Err g o sh port g' o' e : admit_command g o sh port = (g', o', Err e) -> o' = o.
Proof.
  unfold admit_command. destruct (admit_mutation g) as [g1 [[]|e1]]; [|by intros [= _ <-]].
  destruct (admit_on_port o sh port) as [s r] eqn:E. intros [= _ <- ->]. unfold admit_on_port in E.
  repeat case_match; by simplify_eq.
Qed.

(** No command is admitted on a port for which a permit is held. *)
Lemma admit_excluded g o permits sh port g' o' :
  ops_ok {| ow_state := o; ow_permits := permits |} -> admit_command g o sh port = (g', o', Ok ()) -> port ∉ permits.
Proof.
  intros [H1 _ _] (p & Hp & _ & Hn)%admit_command_Ok Hin%held_pos.
  assert (Hv : views o !! port = Some (pt_pending_commands p, pt_control_pending p)) by (unfold views; by rewrite lookup_fmap, Hp).
  destruct (H1 _ _ _ Hv) as (Hh & _). cbn in *. lia.
Qed.

(** ** The journal sees every admission *)

Section Journal.
Context (sha256 : string -> list Z) (i : Inner) (pending_timeout : Z).
Context (bits : StatusCode -> Z) (debug : StatusCode -> string) (senders nodes : list string).

Notation adv := (advance sha256 i pending_timeout bits debug).
Notation front_step := (front_step sha256 i pending_timeout bits debug senders nodes).
Notation front_steps := (front_steps sha256 i pending_timeout bits debug senders nodes).

#[local] Ltac unfold_advance := cbv beta delta [advance] iota.

Lemma steps_one w l w' : Tracking.step sha256 i w l w' -> Tracking.steps sha256 i w [l] w'.
Proof. intros H. eapply steps_cons; [exact H|constructor]. Qed.

Lemma steps_app w1 ls1 w2 ls2 w3 :
  Tracking.steps sha256 i w1 ls1 w2 -> Tracking.steps sha256 i w2 ls2 w3 -> Tracking.steps sha256 i w1 (ls1 ++ ls2) w3.
Proof. induction 1; [done|]. intros ?. cbn [app]. eapply steps_cons; eauto. Qed.

(** The tracker after a stage is the tracker after one of its own steps. *)
Lemma advance_journal e r stage f f' l r' n db batch :
  adv e r stage f = (f', l, (r', n)) ->
  exists ls, Tracking.steps sha256 i {| w_state := fr_tracker f; w_db := db; w_batch := batch |} ls
               {| w_state := fr_tracker f'; w_db := db; w_batch := batch |} /\ admitted ls = admitted [l].
Proof.
  set (w := {| w_state := fr_tracker f; w_db := db; w_batch := batch |}).
  assert (Hup : forall change stamp, keeps_identity change -> exists ls,
    Tracking.steps sha256 i w ls
      (with_state w (update (fr_tracker f) (rq_com r) (Some (rq_ack r)) change stamp)) /\ admitted ls = []).
  { intros change stamp Hk. exists [Internal]. split; [|done]. apply steps_one. by apply (step_update sha256 i w). }
  destruct stage as [|v| | | | | | |status]; unfold_advance; intros H.
  - unfold stage_begin in H. destruct (rq_identity i r) as [manager command].
    destruct (begin_admit _ _ _ _ _ _ _ _ _ _) as [s res] eqn:E. injection H as <- <- _ _.
    exists [begin_label res]. split; [|done]. apply steps_one. by eapply (step_begin sha256 i w).
  - unfold stage_confirm in H. injection H as <- <- _ _. exists [Internal]. split; [|done]. apply steps_one.
    apply (step_confirm sha256 i w).
  - exists []. destruct (stage_admission _ _ _ _) as [[f1 r1] n1] eqn:E. injection H as <- <- _ _. split; [|done].
    replace (fr_tracker f1) with (fr_tracker f); [constructor|].
    unfold stage_admission in E. repeat case_match; by simplify_eq.
  - injection H as <- <- _ _. by apply Hup.
  - exists []. destruct (stage_send _ _ _) as [[f1 r1] n1] eqn:E. injection H as <- <- _ _. split; [|done].
    replace (fr_tracker f1) with (fr_tracker f); [constructor|]. unfold stage_send in E. repeat case_match; by simplify_eq.
  - exists []. injection H as <- <- _ _. split; [constructor|done].
  - unfold stage_close, drop_command_permit in H. injection H as <- <- _ _. by apply Hup.
  - exists []. injection H as <- <- _ _. split; [constructor|done].
  - unfold stage_finish in H. destruct (rq_identity i r). injection H as <- <- _ _. apply Hup.
    intros v. unfold change_result. by destruct status.
Qed.

Lemma process_ack_tracker u f : fr_tracker (process_command_ack_update nodes u f) = fr_tracker f.
Proof. unfold process_command_ack_update. destruct (apply_ack_pending_state _ _). by case_match. Qed.

Lemma front_step_journal w l w' :
  front_step w l w' ->
  exists ls, Tracking.steps sha256 i (fw_journal w) ls (fw_journal w') /\ admitted ls = admitted [l].
Proof.
  intros H. destruct H as [w value com f r E|w value com f s E|w argument com r E|w request now f r E|w request now f e E
    |w e r stage others f l r' n Hc E|w u|w l|w r out g Ho|w g o E|w l j Hl E].
  1, 2: exists []; injection E as <- _; split; [constructor|done].
  - exists []. split; [constructor|done].
  - exists []. unfold arrive_submission in E. destruct (parse_submission _ _ _) as [[[[p q] m] c]|]; [|done].
    injection E as <- _. split; [constructor|done].
  - exists []. unfold arrive_submission in E. destruct (parse_submission _ _ _) as [[[[p q] m] c]|]; injection E as <- _;
      (split; [constructor|done]).
  - eapply advance_journal in E. exact E.
  - exists []. split; [|done]. unfold fw_journal. cbn. rewrite process_ack_tracker. constructor.
  - exists []. split; [constructor|done].
  - exists []. split; [constructor|done].
  - exists []. split; [constructor|done].
  - exists [l]. split; [|done]. apply steps_one. by destruct j.
Qed.

Lemma front_steps_journal w ls w' :
  front_steps w ls w' ->
  exists js, Tracking.steps sha256 i (fw_journal w) js (fw_journal w') /\ admitted js = admitted ls.
Proof.
  induction 1 as [w|w1 l w2 ls w3 H _ (js & Hs & Ha)]; [exists []; split; [constructor|done]|].
  destruct (front_step_journal _ _ _ H) as (js1 & Hs1 & Ha1). exists (js1 ++ js). split; [by eapply steps_app|].
  unfold admitted in *. rewrite omap_app, Ha1, Ha. by destruct l.
Qed.

Lemma begin_admit_key s lookup manager command port a payload now s' v :
  begin_admit sha256 i s lookup manager command port a payload now = (s', Ok (v, true)) -> snapshot_key v = key manager command.
Proof.
  intros H. apply begin_admit_inv in H as [[_ H]|(s0 & v' & _ & [= <-] & Hr & _)]; [done|].
  revert Hr. unfold reserve. destruct (forallb _ _); [done|]. intros (s1 & _ & H)%bind_Ok. by injection H as _ <-.
Qed.

(** ** Submissions are handed over once *)

Definition tracked_key (r : Request) : option string :=
  match rq_caller r with Submission manager command => Some (key manager command) | _ => None end.

(** The identities of callers that the journal admitted and that may still
    hand their command over. *)
Definition live_key (rs : Request * Stage) : option string :=
  match rs.2 with Confirm _ | Admission | Accept | Send => tracked_key rs.1 | _ => None end.
Definition keys (w : FrontWorld) : list string :=
  omap tracked_key (fr_handed (fw_front w)) ++ omap live_key (fw_callers w).

(** The key a caller contributes after a stage. *)
Definition next_keys (r : Request) (n : Next) : list string :=
  match n with Then stage => option_list (live_key (r, stage)) | Answered _ => [] end.

Lemma advance_keys e r stage f f' l r' n :
  adv e r stage f = (f', l, (r', n)) ->
  exists new, fr_handed f' = fr_handed f ++ new /\
    omap tracked_key new ++ next_keys r' n ⊆+ option_list (live_key (r, stage)) ++ admitted [l].
Proof.
  assert (Hnil : fr_handed f = fr_handed f ++ []) by (by rewrite app_nil_r).
  destruct stage as [|v| | | | | | |status]; unfold_advance; intros H.
  - unfold stage_begin, rq_identity in H. destruct (rq_caller r) as [manager command| |] eqn:Hc.
    all: destruct (begin_admit _ _ _ _ _ _ _ _ _ _) as [s res] eqn:E; injection H as <- <- <- <-; exists [].
    all: split; [exact Hnil|].
    all: destruct res as [[v [|]]|er]; try apply submseteq_nil_l; cbn; unfold tracked_key; rewrite Hc; try apply submseteq_nil_l.
    cbn. by rewrite (begin_admit_key _ _ _ _ _ _ _ _ _ _ E).
  - unfold stage_confirm in H. injection H as <- <- <- <-. exists []. split; [exact Hnil|]. cbn. unfold tracked_key.
    destruct (rq_caller r) as [manager command| |] eqn:Hc; cbn; repeat case_match; cbn; unfold tracked_key;
      rewrite ?Hc; try done; apply submseteq_nil_l.
  - destruct (stage_admission _ _ _ _) as [[f1 r1] n1] eqn:E. injection H as <- <- <- <-. exists [].
    unfold stage_admission in E. cbn. destruct (rq_caller r) as [manager command| |] eqn:Hc.
    all: repeat case_match; simplify_eq; cbn; unfold tracked_key; cbn; rewrite ?Hc; (split; [exact Hnil|]);
      try done; apply submseteq_nil_l.
  - injection H as <- <- <- <-. exists []. split; [exact Hnil|]. cbn. by rewrite app_nil_r.
  - unfold stage_send in H. destruct (fe_open e); injection H as <- <- <- <-.
    + eexists [_]. split; [done|]. cbn. unfold tracked_key. destruct (rq_caller r) eqn:Hc; cbn; rewrite ?Hc; done.
    + exists []. split; [exact Hnil|]. cbn. destruct (rq_caller r) eqn:Hc; cbn; rewrite Hc; apply submseteq_nil_l.
  - injection H as <- <- <- <-. exists []. split; [exact Hnil|done].
  - unfold stage_close, drop_command_permit in H. injection H as <- <- <- <-. exists []. split; [exact Hnil|].
    destruct (rq_caller r); done.
  - injection H as <- <- <- <-. exists []. split; [exact Hnil|]. destruct (rq_caller r); done.
  - unfold stage_finish in H. destruct (rq_identity i r). injection H as <- <- <- <-. exists []. split; [exact Hnil|done].
Qed.

(** A caller that arrives has no identity in the journal yet. *)
Lemma arrived_keys r : live_key (r, first_stage (rq_caller r)) = None.
Proof. unfold live_key, first_stage, tracked_key. cbn. destruct (rq_caller r) eqn:H; cbn; by rewrite ?H. Qed.

Lemma front_step_keys w l w' : front_step w l w' -> keys w' ⊆+ keys w ++ admitted [l].
Proof.
  assert (Hsame : forall w1 w2 : FrontWorld, fr_handed (fw_front w2) = fr_handed (fw_front w1) ->
    omap live_key (fw_callers w2) = omap live_key (fw_callers w1) -> keys w2 ⊆+ keys w1 ++ admitted [Internal]).
  { intros w1 w2 Hh Hc. unfold keys. by rewrite Hh, Hc, app_nil_r. }
  intros H. destruct H as [w value com f r E|w value com f s E|w argument com r E|w request now f r E
    |w request now f e E|w e r stage others f l r' n Hc E|w u|w l|w r out g Ho|w g o E|w l j Hl E].
  - injection E as <- _. apply Hsame; [done|]. cbn. by rewrite arrived_keys.
  - injection E as <- _. by apply Hsame.
  - apply Hsame; [done|]. cbn. by rewrite arrived_keys.
  - unfold arrive_submission in E. destruct (parse_submission _ _ _) as [[[[p q] m] c]|]; [|done]. injection E as <- _.
    apply Hsame; [done|]. cbn. by rewrite arrived_keys.
  - unfold arrive_submission in E. destruct (parse_submission _ _ _) as [[[[p q] m] c]|]; injection E as <- _; by apply Hsame.
  - apply advance_keys in E as (new & Hh & Hk). unfold keys. cbn [fw_front fw_callers]. rewrite Hh, omap_app, Hc.
    change (omap live_key ((r, stage) :: others)) with (omap live_key ([(r, stage)] ++ others)). rewrite omap_app.
    assert (Hn : omap live_key (next_callers others r' n) = next_keys r' n ++ omap live_key others).
    { destruct n as [s|a]; [|done]. cbn. by destruct (live_key (r', s)). }
    assert (Hl : omap live_key [(r, stage)] = option_list (live_key (r, stage))) by (cbn; by destruct (live_key (r, stage))).
    rewrite Hn, Hl. fold (admitted [l]).
    trans (omap tracked_key (fr_handed (fw_front w)) ++ (omap tracked_key new ++ next_keys r' n) ++ omap live_key others).
    { apply Permutation_submseteq. solve_Permutation. }
    rewrite <- (app_assoc _ _ (admitted [l])). apply submseteq_app; [done|].
    trans ((option_list (live_key (r, stage)) ++ admitted [l]) ++ omap live_key others).
    { by apply submseteq_app. }
    apply Permutation_submseteq. solve_Permutation.
  - apply Hsame; [|done]. cbn. unfold process_command_ack_update. destruct (apply_ack_pending_state _ _). by case_match.
  - by apply Hsame.
  - by apply Hsame.
  - by apply Hsame.
  - replace (admitted [l]) with (admitted [Internal]) by (destruct l as [k| |]; [by destruct (Hl k)|done..]). by apply Hsame.
Qed.

Lemma front_steps_keys w ls w' : front_steps w ls w' -> keys w' ⊆+ keys w ++ admitted ls.
Proof.
  induction 1 as [w|w1 l w2 ls w3 H _ IH]; [by rewrite app_nil_r|]. etrans; [exact IH|].
  change (l :: ls) with ([l] ++ ls). unfold admitted at 2. rewrite omap_app, app_assoc.
  apply submseteq_app; [by apply front_step_keys|done].
Qed.

(** ** One command at a time on a port *)

(** What the permits of a caller are before and after a stage. *)
Definition caller_permits (rs : Request * Stage) : list string := if holds rs then [rq_com rs.1] else [].
Definition next_permits (r : Request) (n : Next) : list string :=
  match n with Then stage => caller_permits (r, stage) | Answered _ => [] end.

Lemma held_ports_cons rs callers : held_ports (rs :: callers) = caller_permits rs ++ held_ports callers.
Proof. unfold held_ports, caller_permits. rewrite filter_cons. by destruct (holds rs). Qed.

Lemma advance_permits e r stage f f' l r' n permits :
  adv e r stage f = (f', l, (r', n)) ->
  ops_ok {| ow_state := fr_ops f; ow_permits := caller_permits (r, stage) ++ permits |} ->
  exists new, fr_handed f' = fr_handed f ++ new /\
    ops_ok {| ow_state := fr_ops f'; ow_permits := next_permits r' n ++ (rq_com <$> new) ++ permits |}.
Proof.
  assert (Hnil : fr_handed f = fr_handed f ++ []) by (by rewrite app_nil_r).
  destruct stage as [|v| | | | | | |status]; unfold_advance; intros H Hok.
  - unfold stage_begin in H. destruct (rq_identity i r) as [mg cd]. destruct (begin_admit _ _ _ _ _ _ _ _ _ _) as [s res].
    injection H as <- <- <- <-. exists []. split; [done|]. unfold next_permits, caller_permits, holds in *. cbn in *.
    by destruct (rq_caller r), res as [[v [|]]|er].
  - unfold stage_confirm in H. injection H as <- <- <- <-. exists []. split; [done|].
    unfold next_permits, caller_permits, holds in *. cbn in *. destruct (rq_caller r); repeat case_match; try done.
  - destruct (stage_admission _ _ _ _) as [[f1 r1] n1] eqn:E. injection H as <- <- <- <-. exists [].
    change (caller_permits (r, Admission)) with (@nil string) in Hok. cbn [app] in Hok |- *. unfold stage_admission in E.
    destruct (admit_command (fr_gate f) (fr_ops f) (fe_shutdown e) (rq_com r)) as [[g o] a] eqn:Ea.
    assert (Hadm : is_ok a = true -> ops_ok {| ow_state := o; ow_permits := rq_com r :: permits |}).
    { destruct a as [[]|]; [|done]. intros _. eapply ops_step_ok; [|exact Hok]. by eapply (ops_admit {| ow_state := _; ow_permits := _ |}). }
    assert (Hsame : is_ok a = false -> ops_ok {| ow_state := o; ow_permits := permits |}).
    { destruct a as [|er]; [done|]. intros _. by rewrite (admit_command_Err _ _ _ _ _ _ _ Ea). }
    assert (Hback : is_ok a = true -> ops_ok {| ow_state := (drop_command_permit g o (rq_com r)).2; ow_permits := permits |}).
    { intros Ha. eapply ops_step_ok; [|exact (Hadm Ha)]. eapply (ops_release {| ow_state := _; ow_permits := _ |}). reflexivity. }
    unfold drop_command_permit in *. cbn [snd] in Hback.
    destruct (rq_caller r) as [mg cd| |] eqn:Hc.
    all: repeat case_match; simplify_eq; (split; [exact Hnil|]); unfold next_permits, caller_permits, holds; cbn; rewrite ?Hc; auto.
  - injection H as <- <- <- <-. by exists [].
  - unfold stage_send in H. destruct (fe_open e); injection H as <- <- <- <-.
    + eexists [_]. split; [done|]. unfold next_permits, caller_permits, holds in *. destruct (rq_caller r) eqn:Hc; cbn; by rewrite ?Hc.
    + exists []. split; [done|]. unfold next_permits, caller_permits, holds in *. destruct (rq_caller r) eqn:Hc; cbn; by rewrite ?Hc.
  - injection H as <- <- <- <-. by exists [].
  - unfold stage_close, drop_command_permit in H. injection H as <- <- <- <-. exists []. split; [done|].
    assert (Hrel : ops_ok {| ow_state := (drop_command_permit (fr_gate f) (fr_ops f) (rq_com r)).2; ow_permits := permits |}).
    { eapply ops_step_ok; [|exact Hok]. eapply (ops_release {| ow_state := _; ow_permits := _ |}). reflexivity. }
    by destruct (rq_caller r).
  - injection H as <- <- <- <-. exists []. split; [done|]. unfold next_permits, caller_permits. by destruct (rq_caller r).
  - unfold stage_finish in H. destruct (rq_identity i r). injection H as <- <- <- <-. by exists [].
Qed.

Lemma process_ack_console u f :
  fr_ops (process_command_ack_update nodes u f) = fr_ops f /\ fr_handed (process_command_ack_update nodes u f) = fr_handed f.
Proof. unfold process_command_ack_update. destruct (apply_ack_pending_state _ _). by case_match. Qed.

Lemma arrived_permits r : caller_permits (r, first_stage (rq_caller r)) = [].
Proof. unfold caller_permits, holds, first_stage. cbn. destruct (rq_caller r) eqn:H; cbn; by rewrite ?H. Qed.

Lemma arrive_submission_front request now f0 f res :
  arrive_submission i pending_timeout senders request now f0 = (f, res) ->
  f = f0 /\ (forall r, res <> inl r) \/ f = set_ids (fr_next_ack f0 + 1) (fr_next_method f0) f0.
Proof.
  unfold arrive_submission. destruct (parse_submission _ _ _) as [[[[p q] m] c]|]; intros [= <- <-]; [by right|by left].
Qed.

(** The console as the caller that makes the next stage sees it. *)
Lemma caller_console w r stage others :
  fw_callers w ≡ₚ (r, stage) :: others -> ops_ok (fw_console w) ->
  ops_ok {| ow_state := fr_ops (fw_front w);
            ow_permits := caller_permits (r, stage) ++ held_ports others ++ (rq_com <$> fw_out w) |}.
Proof.
  intros Hc. apply exclusive_perm. cbn [fw_console ow_permits]. unfold fw_permits.
  assert (Hp : held_ports (fw_callers w) ≡ₚ held_ports ((r, stage) :: others)) by (unfold held_ports; by rewrite Hc).
  by rewrite Hp, held_ports_cons, <- app_assoc.
Qed.

Lemma front_step_ops w l w' : front_step w l w' -> ops_ok (fw_console w) -> ops_ok (fw_console w').
Proof.
  assert (Hsame : forall w1 w2, fr_ops (fw_front w2) = fr_ops (fw_front w1) -> fw_permits w2 = fw_permits w1 ->
    ops_ok (fw_console w1) -> ops_ok (fw_console w2)).
  { intros w1 w2 Ho Hp. unfold fw_console. by rewrite Ho, Hp. }
  intros H Hok. destruct H as [w value com f r E|w value com f s E|w argument com r E|w request now f r E
    |w request now f e E|w e r stage others f l r' n Hc E|w u|w l|w r out g Ho|w g o E|w l j Hl E].
  - injection E as <- _. apply (Hsame w); [done| |done]. unfold fw_permits. cbn [add_caller set_front fw_callers fw_out]. by rewrite held_ports_cons, arrived_permits.
  - injection E as <- _. by apply (Hsame w).
  - apply (Hsame w); [done| |done]. unfold fw_permits. cbn [add_caller set_front fw_callers fw_out]. by rewrite held_ports_cons, arrived_permits.
  - apply arrive_submission_front in E as [[-> _]| ->]; (apply (Hsame w); [done| |done]); unfold fw_permits;
      cbn [add_caller set_front fw_callers fw_out]; by rewrite held_ports_cons, arrived_permits.
  - apply arrive_submission_front in E as [[-> _]| ->]; by apply (Hsame w).
  - pose proof (caller_console w r stage others Hc Hok) as Hok'.
    destruct (advance_permits _ _ _ _ _ _ _ _ _ E Hok') as (new & Hh & Hn). eapply exclusive_perm; [|exact Hn]. cbn [fw_console ow_permits].
    unfold fw_permits. cbn [fw_callers fw_out]. rewrite Hh, drop_app_length, fmap_app.
    assert (Hnext : held_ports (next_callers others r' n) = next_permits r' n ++ held_ports others).
    { destruct n; [apply held_ports_cons|done]. }
    rewrite Hnext. solve_Permutation.
  - apply (Hsame w); [|done|done]. apply process_ack_console.
  - by apply (Hsame w).
  - eapply ops_step_ok; [|exact Hok]. eapply (ops_release (fw_console w)). cbn [fw_console ow_permits]. unfold fw_permits. cbn [fw_callers fw_out]. rewrite Ho.
    rewrite fmap_cons. solve_Permutation.
  - by eapply ops_step_ok.
  - by apply (Hsame w).
Qed.

(** ** Reservations and the statuses of send nodes *)

(** A caller that has yet to reserve its number, and one that has reserved
    it and may take the reservation back. *)
Definition unreserved (rs : Request * Stage) : bool :=
  match rq_caller rs.1, rs.2 with
  | Submission _ _, (Begin | Confirm _ | Admission) => true
  | NodeWrite, Admission => true
  | _, _ => false
  end.
Definition reserving (rs : Request * Stage) : bool :=
  match rq_caller rs.1 with MethodCall => false | _ => holds rs end.

Definition free_acks (callers : list (Request * Stage)) : list Z :=
  rq_ack ∘ fst <$> filter (fun rs => unreserved rs = true) callers.

(** After a terminal status the number is not shown again. *)
Definition shown_ok (log : list (string * Z * CommandAckStatus)) : Prop :=
  forall l1 com ack status l2, log = l1 ++ (com, ack, status) :: l2 -> is_terminal status = true ->
    Forall (fun entry => entry.1.2 <> ack) l2.

Definition own_acks (callers : list (Request * Stage)) : list (string * Z) :=
  (fun rs => (rq_com rs.1, rq_ack rs.1)) <$> filter (fun rs => reserving rs = true) callers.

(** The pending map and the statuses shown, against the numbers that are free
    and those whose callers may take them back. *)
Record reserved (pending : gmap string PendingCommand) (shown : list (string * Z * CommandAckStatus)) (next : Z)
    (free : list Z) (own : list (string * Z)) : Prop := {
  rs_free : NoDup free;
  rs_free_next : Forall (fun a => a < next) free;
  rs_pending : forall com p, pending !! com = Some p -> pc_ack_id p < next /\ pc_ack_id p ∉ free;
  rs_unique : forall com com' p p', pending !! com = Some p -> pending !! com' = Some p' ->
    pc_ack_id p = pc_ack_id p' -> com = com';
  rs_shown : Forall (fun entry => entry.1.2 < next /\ entry.1.2 ∉ free) shown;
  rs_closed : forall com ack status, (com, ack, status) ∈ shown -> is_terminal status = true ->
    forall com' p, pending !! com' = Some p -> pc_ack_id p <> ack;
  rs_log : shown_ok shown;
  rs_own : forall com ack p, (com, ack) ∈ own -> pending !! com = Some p -> pc_ack_id p = ack
}.
Definition reservations_ok (w : FrontWorld) : Prop :=
  reserved (fr_pending (fw_front w)) (fr_shown (fw_front w)) (fr_next_ack (fw_front w))
    (free_acks (fw_callers w)) (own_acks (fw_callers w)).

Lemma reserved_perm pending shown next free free' own own' :
  free ≡ₚ free' -> own ≡ₚ own' -> reserved pending shown next free own -> reserved pending shown next free' own'.
Proof.
  intros Hf Ho [H1 H2 H3 H4 H5 H6 H7 H8]. constructor; try done.
  - by rewrite <- Hf.
  - by rewrite <- Hf.
  - intros com p Hp. rewrite <- Hf. by apply (H3 com).
  - eapply Forall_impl; [exact H5|]. cbn. intros x [? ?]. split; [done|by rewrite <- Hf].
  - intros com ack p. rewrite <- Ho. apply H8.
Qed.

Lemma reserved_next pending shown next next' free own :
  next <= next' -> reserved pending shown next free own -> reserved pending shown next' free own.
Proof.
  intros Hn [H1 H2 H3 H4 H5 H6 H7 H8]. constructor; try done.
  - eapply Forall_impl; [exact H2|]. cbn. lia.
  - intros com p Hp. destruct (H3 _ _ Hp). split; [lia|done].
  - eapply Forall_impl; [exact H5|]. cbn. intros x [? ?]. split; [lia|done].
Qed.

Lemma reserved_fresh pending shown next free own :
  reserved pending shown next free own -> reserved pending shown (next + 1) (next :: free) own.
Proof.
  intros [H1 H2 H3 H4 H5 H6 H7 H8]. constructor; try done.
  - constructor; [|done]. rewrite Forall_forall in H2. intros Hin%H2. lia.
  - constructor; [lia|]. eapply Forall_impl; [exact H2|]. cbn. lia.
  - intros com p Hp. destruct (H3 _ _ Hp) as [? ?]. split; [lia|]. rewrite not_elem_of_cons. split; [lia|done].
  - eapply Forall_impl; [exact H5|]. cbn. intros x [? ?]. split; [lia|]. rewrite not_elem_of_cons. split; [lia|done].
Qed.

Lemma reserved_drop pending shown next a free own own' :
  own' ⊆ own -> reserved pending shown next (a :: free) own -> reserved pending shown next free own'.
Proof.
  intros Ho [H1 H2 H3 H4 H5 H6 H7 H8]. constructor; try done.
  - by apply NoDup_cons in H1 as [_ ?].
  - by apply Forall_cons in H2 as [_ ?].
  - intros com p Hp. destruct (H3 _ _ Hp) as [? ?%not_elem_of_cons]. naive_solver.
  - eapply Forall_impl; [exact H5|]. cbn. intros x [? ?%not_elem_of_cons]. naive_solver.
  - intros com ack p Hin. apply H8. by apply Ho.
Qed.

Lemma reserved_own pending shown next free own own' :
  own' ⊆ own -> reserved pending shown next free own -> reserved pending shown next free own'.
Proof. intros Ho [H1 H2 H3 H4 H5 H6 H7 H8]. constructor; try done. intros com ack p Hin. apply H8. by apply Ho. Qed.

(** A reservation, on a port nobody else holds. *)
Lemma reserved_insert pending shown next com a deadline free own :
  com ∉ own.*1 -> reserved pending shown next (a :: free) own ->
  reserved (<[com := {| pc_ack_id := a; pc_deadline := deadline |}]> pending) shown next free ((com, a) :: own).
Proof.
  intros Hcom [H1 H2 H3 H4 H5 H6 H7 H8].
  apply NoDup_cons in H1 as [Hn H1]. apply Forall_cons in H2 as [Ha H2].
  assert (Hother : forall c p, pending !! c = Some p -> pc_ack_id p <> a).
  { intros c p Hp. destruct (H3 _ _ Hp) as [_ ?%not_elem_of_cons]. naive_solver. }
  constructor; try done.
  - intros c p [[<- <-]|[Hne Hp]]%lookup_insert_Some; [done|]. destruct (H3 _ _ Hp) as [? ?%not_elem_of_cons]. naive_solver.
  - intros c c' p p' [[<- <-]|[Hne Hp]]%lookup_insert_Some [[<- <-]|[Hne' Hp']]%lookup_insert_Some; cbn; [done| | |by eapply H4].
    + intros Heq. symmetry in Heq. by destruct (Hother _ _ Hp').
    + intros Heq. by destruct (Hother _ _ Hp).
  - eapply Forall_impl; [exact H5|]. cbn. intros x [? ?%not_elem_of_cons]. naive_solver.
  - intros c ack status Hin Ht c' p [[<- <-]|[Hne Hp]]%lookup_insert_Some; [|by eapply H6].
    cbn. rewrite Forall_forall in H5. destruct (H5 _ Hin) as [_ Hnot]. cbn in Hnot. set_solver.
  - intros c ack p Hin. rewrite lookup_insert_Some. intros [[<- <-]|[Hne Hp]].
    + apply elem_of_cons in Hin as [[= <-]|Hin]; [done|]. destruct Hcom. apply list_elem_of_fmap. by exists (com, ack).
    + apply elem_of_cons in Hin as [[= <- _]|Hin]; [done|by eapply H8].
Qed.

Lemma reserved_delete pending shown next free own com :
  reserved pending shown next free own -> reserved (delete com pending) shown next free own.
Proof.
  intros [H1 H2 H3 H4 H5 H6 H7 H8]. constructor; try done.
  - intros c p [_ Hp]%lookup_delete_Some. by eapply H3.
  - intros c c' p p' [_ Hp]%lookup_delete_Some [_ Hp']%lookup_delete_Some. by eapply H4.
  - intros c ack status Hin Ht c' p [_ Hp]%lookup_delete_Some. by eapply H6.
  - intros c ack p Hin [_ Hp]%lookup_delete_Some. by eapply H8.
Qed.

Lemma shown_ok_snoc shown com a status :
  shown_ok shown -> (forall c s, (c, a, s) ∈ shown -> is_terminal s = false) -> shown_ok (shown ++ [(com, a, status)]).
Proof.
  intros Hok Hnew l1 c ack s l2 Heq Ht. destruct l2 as [|x l2 _] using rev_ind; [constructor|].
  rewrite app_comm_cons, app_assoc in Heq. apply app_inj_tail in Heq as [-> <-]. apply Forall_app. split; [by eapply Hok|].
  constructor; [|constructor]. cbn. intros ->. specialize (Hnew c s). rewrite Hnew in Ht; [done|set_solver].
Qed.

(** A status is shown for the command that holds the reservation; a terminal
    one ends it. *)
Lemma reserved_show pending shown next free own com p status :
  pending !! com = Some p -> reserved pending shown next free own ->
  reserved (if is_terminal status then delete com pending else pending) (shown ++ [(com, pc_ack_id p, status)]) next free own.
Proof.
  intros Hp H. assert (Hd : reserved (if is_terminal status then delete com pending else pending) shown next free own).
  { case_match; [by apply reserved_delete|done]. }
  assert (Hsub : forall c q, (if is_terminal status then delete com pending else pending) !! c = Some q -> pending !! c = Some q).
  { intros c q. case_match; [by intros [_ ?]%lookup_delete_Some|done]. }
  destruct H as [H1 H2 H3 H4 H5 H6 H7 H8], Hd as [_ _ H3' H4' _ H6' _ H8']. constructor; try done.
  - apply Forall_app. split; [done|]. constructor; [|constructor]. cbn. by eapply H3.
  - intros c ack s [Hin|[= -> -> ->]%list_elem_of_singleton]%elem_of_app Ht c' q Hq; [by eapply H6'|]. rewrite Ht in Hq.
    apply lookup_delete_Some in Hq as [Hne Hq]. intros Heq. apply Hne. by eapply H4.
  - apply shown_ok_snoc; [done|]. intros c s Hin. destruct (is_terminal s) eqn:Ht; [|done]. by destruct (H6 _ _ _ Hin Ht _ _ Hp).
Qed.

Lemma process_ack_reserved u f free own :
  reserved (fr_pending f) (fr_shown f) (fr_next_ack f) free own ->
  let f' := process_command_ack_update nodes u f in
  reserved (fr_pending f') (fr_shown f') (fr_next_ack f') free own.
Proof.
  intros H. unfold process_command_ack_update, apply_ack_pending_state.
  destruct (cau_ack_id u) as [a|]; [|done]. destruct (fr_pending f !! cau_com u) as [p|] eqn:Hp; [|done].
  destruct (Z.eqb_spec (pc_ack_id p) a) as [<-|]; cbn [negb andb]; [|done]. case_bool_decide.
  - exact (reserved_show _ _ _ _ _ _ _ (cau_status u) Hp H).
  - cbn. case_match; [by apply reserved_delete|done].
Qed.

Definition free_of (rs : Request * Stage) : list Z := if unreserved rs then [rq_ack rs.1] else [].
Definition own_of (rs : Request * Stage) : list (string * Z) := if reserving rs then [(rq_com rs.1, rq_ack rs.1)] else [].
Definition next_free (r : Request) (n : Next) : list Z := match n with Then s => free_of (r, s) | Answered _ => [] end.
Definition next_own (r : Request) (n : Next) : list (string * Z) := match n with Then s => own_of (r, s) | Answered _ => [] end.

Lemma free_acks_cons rs callers : free_acks (rs :: callers) = free_of rs ++ free_acks callers.
Proof. unfold free_acks, free_of. rewrite filter_cons. by destruct (unreserved rs). Qed.
Lemma own_acks_cons rs callers : own_acks (rs :: callers) = own_of rs ++ own_acks callers.
Proof. unfold own_acks, own_of. rewrite filter_cons. by destruct (reserving rs). Qed.

Lemma own_held callers : (own_acks callers).*1 ⊆ held_ports callers.
Proof.
  induction callers as [|[r stage] callers IH]; [done|]. rewrite own_acks_cons, held_ports_cons, fmap_app.
  unfold own_of, caller_permits, reserving. cbn [fst]. destruct (rq_caller r), (holds (r, stage)); cbn; set_solver.
Qed.

Lemma advance_reserved e r stage f f' l r' n free own permits :
  adv e r stage f = (f', l, (r', n)) ->
  ops_ok {| ow_state := fr_ops f; ow_permits := caller_permits (r, stage) ++ permits |} -> own.*1 ⊆ permits ->
  reserved (fr_pending f) (fr_shown f) (fr_next_ack f) (free_of (r, stage) ++ free) (own_of (r, stage) ++ own) ->
  reserved (fr_pending f') (fr_shown f') (fr_next_ack f') (next_free r' n ++ free) (next_own r' n ++ own).
Proof.
  intros H Hok Hown Hr.
  destruct stage as [|v| | | | | | |status]; revert H; unfold_advance; intros H.
  - unfold stage_begin in H. destruct (rq_identity i r) as [mg cd]. destruct (begin_admit _ _ _ _ _ _ _ _ _ _) as [s res].
    injection H as <- <- <- <-. unfold next_free, next_own, free_of, own_of, unreserved, reserving, holds in *. cbn in *.
    destruct (rq_caller r), res as [[v [|]]|er]; cbn in *; try done; by eapply reserved_drop.
  - unfold stage_confirm in H. injection H as <- <- <- <-.
    unfold next_free, next_own, free_of, own_of, unreserved, reserving, holds in *. cbn in *.
    destruct (rq_caller r); cbn in *; repeat case_match; try done; by eapply reserved_drop.
  - destruct (stage_admission _ _ _ _) as [[f1 r1] n1] eqn:E. injection H as <- <- <- <-.
    change (caller_permits (r, Admission)) with (@nil string) in Hok. cbn [app] in Hok. unfold stage_admission in E.
    destruct (admit_command (fr_gate f) (fr_ops f) (fe_shutdown e) (rq_com r)) as [[g o] a] eqn:Ea.
    assert (Hfree : is_ok a = true -> rq_com r ∉ own.*1).
    { destruct a as [[]|]; [|done]. intros _ Hin. eapply admit_excluded; [exact Hok|exact Ea|]. by apply Hown. }
    unfold next_free, next_own, free_of, own_of, unreserved, reserving, holds in *. cbn in Hr.
    destruct (rq_caller r) as [mg cd| |] eqn:Hc; cbn in Hr.
    all: repeat case_match; simplify_eq; cbn; rewrite ?Hc; cbn; try done; try (by eapply reserved_drop).
    all: first [apply reserved_insert; [by apply Hfree|done] | cbn in *; congruence].
  - injection H as <- <- <- <-. done.
  - unfold stage_send in H. unfold next_free, next_own, free_of, own_of, unreserved, reserving, holds in *.
    destruct (fe_open e); injection H as <- <- <- <-; cbn in Hr; destruct (rq_caller r) as [mg cd| |] eqn:Hc; cbn in *;
      rewrite ?Hc; cbn; try done.
    all: eapply reserved_own; [|exact Hr].
    all: set_solver.
  - injection H as <- <- <- <-. unfold next_free, next_own, free_of, own_of, unreserved, reserving, holds in *.
    cbn in *. destruct (rq_caller r); cbn in *; by apply reserved_delete.
  - unfold stage_close, drop_command_permit in H. injection H as <- <- <- <-.
    unfold next_free, next_own, free_of, own_of, unreserved, reserving, holds in *. cbn in *.
    destruct (rq_caller r) eqn:Hc; cbn in *; rewrite ?Hc; cbn; try done; (eapply reserved_own; [|exact Hr]; set_solver).
  - injection H as <- <- <- <-. unfold next_free, next_own, free_of, own_of, unreserved, reserving, holds in *. cbn in *.
    destruct (rq_caller r) eqn:Hc; cbn in *; rewrite ?Hc; done.
  - unfold stage_finish in H. destruct (rq_identity i r). injection H as <- <- <- <-.
    unfold next_free, next_own, free_of, own_of, unreserved, reserving, holds in *. cbn in *.
    by destruct (rq_caller r).
Qed.

Lemma arrived_own r : own_of (r, first_stage (rq_caller r)) = [].
Proof. unfold own_of, reserving, holds, first_stage. cbn. destruct (rq_caller r) eqn:H; cbn; by rewrite ?H. Qed.

Lemma front_step_reserved w l w' :
  front_step w l w' -> ops_ok (fw_console w) -> reservations_ok w -> reservations_ok w'.
Proof.
  assert (Hsame : forall w1 w2, fr_pending (fw_front w2) = fr_pending (fw_front w1) ->
    fr_shown (fw_front w2) = fr_shown (fw_front w1) -> fr_next_ack (fw_front w1) <= fr_next_ack (fw_front w2) ->
    fw_callers w2 = fw_callers w1 -> reservations_ok w1 -> reservations_ok w2).
  { intros w1 w2 Hp Hs Hn Hc. unfold reservations_ok. rewrite Hp, Hs, Hc. by apply reserved_next. }
  assert (Hfresh : forall w0 r, rq_caller r <> MethodCall -> rq_ack r = fr_next_ack (fw_front w0) -> reservations_ok w0 ->
    reservations_ok (add_caller r (set_front (set_ids (fr_next_ack (fw_front w0) + 1) (fr_next_method (fw_front w0)) (fw_front w0)) w0))).
  { intros w0 r Hm Ha Hr. unfold reservations_ok. cbn [add_caller set_front set_ids fw_front fw_callers fr_pending fr_shown fr_next_ack].
    rewrite free_acks_cons, own_acks_cons, arrived_own. cbn [app].
    replace (free_of _) with [fr_next_ack (fw_front w0)]; [by apply reserved_fresh|].
    unfold free_of, unreserved, first_stage. cbn [fst snd]. rewrite <- Ha. by destruct (rq_caller r). }
  intros H Hok Hr. destruct H as [w value com f r E|w value com f s E|w argument com r E|w request now f r E
    |w request now f e E|w e r stage others f l r' n Hc E|w u|w l|w r out g Ho|w g o E|w l j Hl E].
  - unfold arrive_write in E. destruct (parse_write _ _ _) as [[t c]|]; [|done]. injection E as <- <-. by apply Hfresh.
  - injection E as <- _. apply (Hsame w); [done|done|cbn; lia|done|done].
  - unfold arrive_method in E. repeat case_match; simplify_eq. exact Hr.
  - unfold arrive_submission in E. destruct (parse_submission _ _ _) as [[[[p q] m] c]|]; [|done].
    destruct (parse_write _ _ _) as [[t k]|]; [|done]. injection E as <- <-. by apply Hfresh.
  - apply arrive_submission_front in E as [[-> _]| ->]; apply (Hsame w); try done. cbn. lia.
  - pose proof (caller_console w r stage others Hc Hok) as Hok'.
    unfold reservations_ok in *. cbn [fw_front fw_callers].
    assert (Hn : free_acks (next_callers others r' n) = next_free r' n ++ free_acks others /\
                 own_acks (next_callers others r' n) = next_own r' n ++ own_acks others).
    { destruct n; [|done]. cbn [next_callers next_free next_own]. by rewrite free_acks_cons, own_acks_cons. }
    destruct Hn as [-> ->]. eapply advance_reserved; [exact E|exact Hok'| |].
    + pose proof (own_held others). set_solver.
    + rewrite <- free_acks_cons, <- own_acks_cons. eapply reserved_perm; [| |exact Hr].
      * unfold free_acks. by rewrite Hc.
      * unfold own_acks. by rewrite Hc.
  - apply process_ack_reserved. exact Hr.
  - by apply (Hsame w).
  - by apply (Hsame w).
  - by apply (Hsame w).
  - by apply (Hsame w).
Qed.

(** ** The commands that are handed over *)

(** A client's command is for its port and no switch command. *)
Definition built (c : Command) (com : string) : Prop := cm_com c = com /\ cm_control_receipt c = None.

Record caller_ok (rs : Request * Stage) : Prop := {
  co_built : built (rq_command rs.1) (rq_com rs.1);
  co_ack : rq_caller rs.1 <> MethodCall -> cm_ack_id (rq_command rs.1) = Some (rq_ack rs.1);
  co_permit : holds rs = true -> cm_permit (rq_command rs.1) = true /\
    (rq_caller rs.1 <> MethodCall -> is_Some (cm_expires_at (rq_command rs.1)));
  co_undo : rs.2 = Undo -> rq_caller rs.1 <> MethodCall
}.
Definition handed_ok (r : Request) : Prop :=
  cm_com (rq_command r) = rq_com r /\ cm_control_receipt (rq_command r) = None /\ cm_ack_id (rq_command r) = Some (rq_ack r) /\ cm_permit (rq_command r) = true /\
  (rq_caller r <> MethodCall -> is_Some (cm_expires_at (rq_command r))).

Lemma build_built hex com with_ack ack c :
  build_hex_command hex com with_ack ack = Ok c -> built c com /\ (with_ack = true -> cm_ack_id c = ack).
Proof.
  unfold build_hex_command. intros (bytes & _ & H)%bind_Ok. destruct bytes as [|d [|b bytes]]; [done|done|]. injection H as <-.
  by split; [|intros ->].
Qed.

Lemma arrived_ok r :
  built (rq_command r) (rq_com r) -> (rq_caller r <> MethodCall -> cm_ack_id (rq_command r) = Some (rq_ack r)) ->
  caller_ok (r, first_stage (rq_caller r)).
Proof.
  intros Hb Ha. constructor; [done|done| |]; unfold holds, first_stage; cbn; destruct (rq_caller r) eqn:H; cbn; rewrite ?H; done.
Qed.

Lemma parse_write_built value com ack t c :
  parse_write value com ack = Ok (t, c) -> built c com /\ cm_ack_id c = Some ack.
Proof.
  unfold parse_write. destruct value as [| |txt]; [done|done|]. case_match; [done|].
  destruct (build_hex_command _ _ _ _) as [c'|] eqn:E; [|done]. intros [= _ <-].
  apply build_built in E as [? Ha]. split; [done|by apply Ha].
Qed.

Lemma advance_caller_ok e r stage f f' l r' n :
  adv e r stage f = (f', l, (r', n)) -> caller_ok (r, stage) ->
  exists new, fr_handed f' = fr_handed f ++ new /\ Forall handed_ok new /\
    match n with Then s => caller_ok (r', s) | Answered _ => True end.
Proof.
  assert (Hnil : fr_handed f = fr_handed f ++ []) by (by rewrite app_nil_r).
  intros H [Hb Ha Hp Hu]. cbn in *.
  destruct stage as [|v| | | | | | |status]; revert H; unfold_advance; intros H.
  - unfold stage_begin in H. destruct (rq_identity i r) as [mg cd]. destruct (begin_admit _ _ _ _ _ _ _ _ _ _) as [s res].
    injection H as <- <- <- <-. exists []. split_and!; [done|done|]. unfold holds in Hp. cbn in Hp.
    destruct (rq_caller r) eqn:Hc, res as [[v [|]]|er]; try done; (constructor; cbn; rewrite ?Hc in *; first [done|by auto|discriminate]).
  - unfold stage_confirm in H. injection H as <- <- <- <-. exists []. split_and!; [done|done|]. unfold holds in Hp. cbn in Hp.
    destruct (rq_caller r) eqn:Hc; repeat case_match; simplify_eq; try done; (constructor; cbn; rewrite ?Hc in *; first [done|by auto|discriminate]).
  - destruct (stage_admission _ _ _ _) as [[f1 r1] n1] eqn:E. injection H as <- <- <- <-. exists [].
    unfold stage_admission in E. unfold holds in Hp. cbn in Hp. destruct (rq_caller r) as [mg cd| |] eqn:Hc.
    all: repeat case_match; simplify_eq; (split_and!; [exact Hnil|constructor|]); try done.
    all: constructor; cbn; rewrite ?Hc in *; first [done|by auto|discriminate|intros _; split; [done|by eexists]].
  - injection H as <- <- <- <-. exists []. by split_and!.
  - unfold stage_send in H. destruct (Hp eq_refl) as [Hperm Hexp]. destruct (fe_open e); injection H as <- <- <- <-.
    + eexists [_]. split_and!; [done| |].
      * constructor; [|constructor]. unfold handed_ok. destruct Hb as [? ?]. destruct (rq_caller r) eqn:Hc; cbn; rewrite ?Hc; split_and!; try done; auto.
      * destruct (rq_caller r) eqn:Hc; cbn; rewrite ?Hc; cbn; try done; (constructor; cbn; rewrite ?Hc in *; first [done|by auto|discriminate]).
    + exists []. split_and!; [done|constructor|].
      destruct (rq_caller r) eqn:Hc; cbn; rewrite ?Hc; (constructor; cbn; rewrite ?Hc in *; first [done|by auto|discriminate]).
  - injection H as <- <- <- <-. exists []. by split_and!.
  - unfold stage_close, drop_command_permit in H. injection H as <- <- <- <-. exists []. split_and!; [done|constructor|].
    destruct (rq_caller r) eqn:Hc; cbn; rewrite ?Hc; try done; (constructor; cbn; rewrite ?Hc in *; first [done|by auto|discriminate]).
  - injection H as <- <- <- <-. exists []. split_and!; [done|constructor|].
    destruct (rq_caller r) eqn:Hc; cbn; rewrite ?Hc; try done; (constructor; cbn; rewrite ?Hc in *; first [done|by auto|discriminate]).
  - unfold stage_finish in H. destruct (rq_identity i r). injection H as <- <- <- <-. exists []. by split_and!.
Qed.

Record front_ok (w : FrontWorld) : Prop := {
  fo_ops : ops_ok (fw_console w);
  fo_reserved : reservations_ok w;
  fo_callers : Forall caller_ok (fw_callers w);
  fo_handed : Forall handed_ok (fr_handed (fw_front w))
}.

Lemma front_step_ok w l w' : front_step w l w' -> front_ok w -> front_ok w'.
Proof.
  intros H [Ho Hr Hc Hh]. split; [by eapply front_step_ops|by eapply front_step_reserved| |].
  all: destruct H as [w value com f r E|w value com f s E|w argument com r E|w request now f r E
    |w request now f e E|w e r stage others f l r' n Hp E|w u|w l|w r out g Hout|w g o E|w l j Hl E]; cbn; try done.
  - unfold arrive_write in E. destruct (parse_write _ _ _) as [[t c]|] eqn:Ep; [|done]. injection E as <- <-.
    apply parse_write_built in Ep as [? ?]. constructor; [|done]. by apply arrived_ok.
  - unfold arrive_method in E. repeat case_match; simplify_eq.
    match goal with H : build_hex_command _ _ _ _ = Ok _ |- _ => apply build_built in H as [? _] end.
    constructor; [|done]. by apply arrived_ok.
  - unfold arrive_submission in E. destruct (parse_submission _ _ _) as [[[[p q] m] c]|]; [|done].
    destruct (parse_write _ _ _) as [[t k]|] eqn:Ep; [|done]. injection E as <- <-.
    apply parse_write_built in Ep as [? ?]. constructor; [|done]. by apply arrived_ok.
  - rewrite Hp in Hc. apply Forall_cons in Hc as [Hr1 Hc]. destruct (advance_caller_ok _ _ _ _ _ _ _ _ E Hr1) as (new & _ & _ & Hn).
    destruct n; [by constructor|done].
  - by injection E as <- _.
  - by injection E as <- _.
  - apply arrive_submission_front in E as [[-> _]| ->]; done.
  - apply arrive_submission_front in E as [[-> _]| ->]; done.
  - rewrite Hp in Hc. apply Forall_cons in Hc as [Hr1 Hc]. destruct (advance_caller_ok _ _ _ _ _ _ _ _ E Hr1) as (new & -> & Hn & _).
    by apply Forall_app.
  - by rewrite (proj2 (process_ack_console u (fw_front w))).
Qed.

Lemma front_steps_ok w ls w' : front_steps w ls w' -> front_ok w -> front_ok w'.
Proof. induction 1 as [|w1 l w2 ls w3 H _ IH]; [done|]. intros Hw. by eapply IH, front_step_ok. Qed.

(** What one step does to the nodes and the reservations. *)
Lemma advance_pending e r stage f f' l r' n :
  adv e r stage f = (f', l, (r', n)) ->
  fr_shown f' = fr_shown f /\
  (fr_pending f' = fr_pending f \/
   (stage = Undo /\ fr_pending f' = delete (rq_com r) (fr_pending f)) \/
   (exists p, fr_pending f' = <[rq_com r := p]> (fr_pending f) /\
      forall q, fr_pending f !! rq_com r = Some q -> is_terminal_ack (fr_tracker f) (rq_com r) (pc_ack_id q) = true)).
Proof.
  destruct stage as [|v| | | | | | |status]; unfold_advance; intros H.
  - unfold stage_begin in H. destruct (rq_identity i r). destruct (begin_admit _ _ _ _ _ _ _ _ _ _). injection H as <- <- <- <-. by split; [|left].
  - unfold stage_confirm in H. injection H as <- <- <- <-. by split; [|left].
  - destruct (stage_admission _ _ _ _) as [[f1 r1] n1] eqn:E. injection H as <- <- <- <-. unfold stage_admission in E.
    repeat case_match; simplify_eq; (split; [done|]); try (by left); right; right; eexists; (split; [done|]).
    all: intros q Hq; simplify_eq; by apply negb_false_iff.
  - injection H as <- <- <- <-. by split; [|left].
  - unfold stage_send in H. destruct (fe_open e); injection H as <- <- <- <-; by split; [|left].
  - injection H as <- <- <- <-. by split; [|right; left].
  - unfold stage_close, drop_command_permit in H. injection H as <- <- <- <-. by split; [|left].
  - injection H as <- <- <- <-. by split; [|left].
  - unfold stage_finish in H. destruct (rq_identity i r). injection H as <- <- <- <-. by split; [|left].
Qed.

Lemma process_ack_shown u f com ack status :
  fr_shown (process_command_ack_update nodes u f) = fr_shown f ++ [(com, ack, status)] ->
  exists p, fr_pending f !! com = Some p /\ pc_ack_id p = ack.
Proof.
  unfold process_command_ack_update, apply_ack_pending_state.
  assert (Hno : fr_shown f <> fr_shown f ++ [(com, ack, status)]).
  { intros H%(f_equal length). rewrite length_app in H. cbn in H. lia. }
  destruct (cau_ack_id u) as [a|]; [|done]. destruct (fr_pending f !! cau_com u) as [p|] eqn:Hp; [|done].
  destruct (Z.eqb_spec (pc_ack_id p) a) as [<-|]; cbn [negb andb]; [|done]. case_bool_decide; cbn; [|done].
  intros Heq%app_inv_head. injection Heq as <- <- _. by exists p.
Qed.

Lemma process_ack_pending u f com p :
  fr_pending f !! com = Some p ->
  fr_pending (process_command_ack_update nodes u f) !! com = Some p \/
  cau_com u = com /\ cau_ack_id u = Some (pc_ack_id p) /\ is_terminal (cau_status u) = true.
Proof.
  intros Hp. unfold process_command_ack_update, apply_ack_pending_state.
  destruct (cau_ack_id u) as [a|]; [|by left]. destruct (fr_pending f !! cau_com u) as [q|] eqn:Hq; [|by left].
  destruct (Z.eqb_spec (pc_ack_id q) a) as [<-|]; cbn [negb andb]; [|by left].
  destruct (decide (cau_com u = com)) as [<-|]; [|left; repeat case_match; cbn; rewrite ?lookup_delete_ne; done].
  simplify_eq. destruct (is_terminal (cau_status u)); [by right|]. left. by case_match.
Qed.

Lemma shown_reserved w l w' com ack status :
  front_step w l w' -> fr_shown (fw_front w') = fr_shown (fw_front w) ++ [(com, ack, status)] ->
  exists p, fr_pending (fw_front w) !! com = Some p /\ pc_ack_id p = ack.
Proof.
  assert (Hno : fr_shown (fw_front w) <> fr_shown (fw_front w) ++ [(com, ack, status)]).
  { intros H%(f_equal length). rewrite length_app in H. cbn in H. lia. }
  intros H. destruct H as [w value com' f r E|w value com' f s E|w argument com' r E|w request now f r E
    |w request now f e E|w e r stage others f l r' n Hp E|w u|w l|w r out g Hout|w g o E|w l j Hl E]; cbn; try done.
  1, 2: by injection E as <- _.
  1, 2: by apply arrive_submission_front in E as [[-> _]| ->].
  - apply advance_pending in E as [-> _]. done.
  - apply process_ack_shown.
Qed.

Lemma reservation_ends w l w' com p :
  front_step w l w' -> reservations_ok w -> Forall caller_ok (fw_callers w) -> fr_pending (fw_front w) !! com = Some p ->
  fr_pending (fw_front w') !! com = Some p \/
  (exists u, cau_com u = com /\ cau_ack_id u = Some (pc_ack_id p) /\ is_terminal (cau_status u) = true /\
     fw_front w' = process_command_ack_update nodes u (fw_front w)) \/
  (exists r, (r, Undo) ∈ fw_callers w /\ rq_com r = com /\ rq_ack r = pc_ack_id p) \/
  is_terminal_ack (fr_tracker (fw_front w)) com (pc_ack_id p) = true.
Proof.
  intros H Hr Hok Hp. destruct H as [w value com' f r E|w value com' f s E|w argument com' r E|w request now f r E
    |w request now f e E|w e r stage others f l r' n Hc E|w u|w l|w r out g Hout|w g o E|w l j Hl E]; cbn; try (by left).
  1, 2: injection E as <- _; by left.
  1, 2: left; by apply arrive_submission_front in E as [[-> _]| ->].
  - apply advance_pending in E as [_ [->|[[-> ->]|(q & -> & Hq)]]]; [by left| |].
    + destruct (decide (rq_com r = com)) as [<-|]; [|left; by rewrite lookup_delete_ne]. right; right; left. exists r.
      assert (Hin : (r, Undo) ∈ fw_callers w) by (rewrite Hc; constructor). split_and!; [done|done|].
      destruct (rq_caller r) eqn:Hcall.
      3: { rewrite Forall_forall in Hok. by destruct (co_undo _ (Hok _ Hin) eq_refl). }
      all: symmetry; eapply (rs_own _ _ _ _ _ Hr); [|exact Hp].
      all: apply list_elem_of_fmap; exists (r, Undo); split; [done|]; apply list_elem_of_filter; split; [|done].
      all: unfold reserving; cbn; by rewrite Hcall.
    + destruct (decide (rq_com r = com)) as [<-|]; [|left; by rewrite lookup_insert_ne]. right; right; right. by apply Hq.
  - destruct (process_ack_pending u (fw_front w) com p Hp) as [|(? & ? & ?)]; [by left|]. right; left. by exists u.
Qed.
End Journal.

(** ** Where a handed command comes from *)

(** A request keeps its caller, port, text and frame through the stages. *)
Definition same_origin (r0 r : Request) : Prop :=
  rq_caller r = rq_caller r0 /\ rq_com r = rq_com r0 /\ rq_text r = rq_text r0 /\
  cm_command (rq_command r) = cm_command (rq_command r0).

(** The requests under way and those handed over. *)
Definition live (w : FrontWorld) : list Request := (fw_callers w).*1 ++ fr_handed (fw_front w).

Section Origin.
Context (sha256 : string -> list Z) (i : Inner) (pending_timeout : Z).
Context (bits : StatusCode -> Z) (debug : StatusCode -> string) (senders nodes : list string).

Notation adv := (advance sha256 i pending_timeout bits debug).
Notation front_step := (front_step sha256 i pending_timeout bits debug senders nodes).
Notation front_steps := (front_steps sha256 i pending_timeout bits debug senders nodes).

(** A client submits the text [t]: it writes a send node, calls the method, or
    sends a request with [t] as its [hex_data]. *)
Inductive arrival : FrontWorld -> Request -> string -> FrontWorld -> Prop :=
| arrival_write w t com f r :
    arrive_write (TextValue t) com (fw_front w) = (f, inl r) -> arrival w r t (add_caller r (set_front f w))
| arrival_method w t com r : arrive_method (TextValue t) com = inl r -> arrival w r t (add_caller r w)
| arrival_submission w request t now f r :
    request !! "hex_data" = Some (FText t) ->
    arrive_submission i pending_timeout senders request now (fw_front w) = (f, inl r) ->
    arrival w r t (add_caller r (set_front f w)).

(** The frame of the command: the bytes that [t] writes and their checksum. *)
Definition carries (t : string) (r : Request) : Prop :=
  exists data d,
    hex_str_to_bytes (text (filter (fun c => is_ascii_whitespace c = false) (chars (trim t)))) = Ok data /\
    (2 <= length data)%nat /\ head data = Some (sd_device_id d) /\ sd_command d = data ++ [get_sum data] /\
    cm_command (rq_command r) = match rq_caller r with MethodCall => SendDataCommand d | _ => SendDataWithAck d end.

(** In the course of [ls] a client submitted this request, with its port and
    caller, and its frame carries the text submitted. *)
Definition submitted (w : FrontWorld) (ls : list Label) (w' : FrontWorld) (r : Request) : Prop :=
  exists ls1 ls2 w1 w2 r0 t,
    ls = ls1 ++ Internal :: ls2 /\ front_steps w ls1 w1 /\ arrival w1 r0 t w2 /\ front_steps w2 ls2 w' /\
    same_origin r0 r /\ carries t r.

Lemma same_origin_refl r : same_origin r r.
Proof. done. Qed.
Lemma same_origin_trans r1 r2 r3 : same_origin r1 r2 -> same_origin r2 r3 -> same_origin r1 r3.
Proof. intros (? & ? & ? & ?) (? & ? & ? & ?). split_and!; congruence. Qed.

Lemma advance_origin e r stage f f' l r' n :
  adv e r stage f = (f', l, (r', n)) ->
  same_origin r r' /\ exists new, fr_handed f' = fr_handed f ++ new /\ forall x, x ∈ new -> same_origin r x.
Proof.
  assert (Hnil : exists new, fr_handed f = fr_handed f ++ new /\ forall x, x ∈ new -> same_origin r x).
  { exists []. rewrite app_nil_r. split; [done|]. by intros x ?%not_elem_of_nil. }
  destruct stage as [|v| | | | | | |status]; cbv beta delta [advance] iota; intros H.
  - unfold stage_begin in H. destruct (rq_identity i r). destruct (begin_admit _ _ _ _ _ _ _ _ _ _). by injection H as <- <- <- <-.
  - unfold stage_confirm in H. by injection H as <- <- <- <-.
  - destruct (stage_admission _ _ _ _) as [[f1 r1] n1] eqn:E. injection H as <- <- <- <-. unfold stage_admission in E.
    repeat case_match; simplify_eq; by split.
  - by injection H as <- <- <- <-.
  - unfold stage_send in H. destruct (fe_open e); injection H as <- <- <- <-;
      (split; [destruct (rq_caller r) eqn:Hc; unfold same_origin; cbn; rewrite ?Hc; done|]); [|done].
    eexists [_]. split; [done|]. intros x ->%list_elem_of_singleton.
    destruct (rq_caller r) eqn:Hc; unfold same_origin; cbn; rewrite ?Hc; done.
  - by injection H as <- <- <- <-.
  - unfold stage_close, drop_command_permit in H. by injection H as <- <- <- <-.
  - by injection H as <- <- <- <-.
  - unfold stage_finish in H. destruct (rq_identity i r). by injection H as <- <- <- <-.
Qed.

(** A request that is live after a step was live before, or just arrived. *)
Lemma front_step_origin w l w' r :
  front_step w l w' -> r ∈ live w' ->
  (exists r0, r0 ∈ live w /\ same_origin r0 r) \/ (l = Internal /\ exists r0 t, arrival w r0 t w' /\ same_origin r0 r).
Proof.
  assert (Hsame : forall w', fw_callers w' = fw_callers w -> fr_handed (fw_front w') = fr_handed (fw_front w) -> r ∈ live w' ->
    exists r0, r0 ∈ live w /\ same_origin r0 r).
  { intros w0 Hc Hh. unfold live. rewrite Hc, Hh. intros Hin. by exists r. }
  assert (Hnew : forall r1 f, fr_handed f = fr_handed (fw_front w) -> r ∈ live (add_caller r1 (set_front f w)) ->
    r = r1 \/ r ∈ live w).
  { intros r1 f Hf. unfold live. cbn. rewrite Hf. intros [->|?]%elem_of_cons; [by left|by right]. }
  intros H Hin. destruct H as [w value com f r1 E|w value com f s E|w argument com r1 E|w request now f r1 E
    |w request now f e E|w e r1 stage others f l r' n Hp E|w u|w l|w r1 out g Hout|w g o E|w l j Hl E].
  - assert (Hf : fr_handed f = fr_handed (fw_front w)) by (by injection E as <- _).
    destruct (Hnew _ _ Hf Hin) as [->|?]; [right|left; by exists r]. split; [done|]. destruct value as [| |t]; [by injection E..|].
    exists r1, t. split; [by apply arrival_write with (com := com)|done].
  - left. eapply Hsame; [| |exact Hin]; [done|]. by injection E as <- _.
  - assert (Hin' : r = r1 \/ r ∈ live w) by (by apply (Hnew r1 (fw_front w)); [|destruct w]).
    destruct Hin' as [->|?]; [right|left; by exists r]. split; [done|]. destruct argument as [| |t]; [done|done|].
    exists r1, t. split; [by apply arrival_method with (com := com)|done].
  - assert (Hf : fr_handed f = fr_handed (fw_front w)) by (apply arrive_submission_front in E as [[-> _]| ->]; done).
    destruct (Hnew _ _ Hf Hin) as [->|?]; [right|left; by exists r]. split; [done|].
    assert (Ht : exists t, request !! "hex_data" = Some (FText t)).
    { unfold arrive_submission in E. destruct (parse_submission _ _ _) as [[[[p q] m] c]|] eqn:Ep; [|done]. clear -Ep.
      unfold parse_submission in Ep. destruct (negb _); [done|]. apply bind_Ok in Ep as (? & _ & Ep). apply bind_Ok in Ep as (? & _ & Ep).
      destruct (negb _); [done|]. apply bind_Ok in Ep as (? & _ & Ep). destruct (negb _); [done|]. apply bind_Ok in Ep as (t & Ht & _).
      unfold field in Ht. by destruct (request !! "hex_data") as [[]|]; eauto. }
    destruct Ht as [t Ht]. exists r1, t. split; [by eapply arrival_submission|done].
  - left. eapply Hsame; [| |exact Hin]; [done|]. cbn. apply arrive_submission_front in E as [[-> _]| ->]; done.
  - left. apply advance_origin in E as (Ho & new & Hf & Hn). unfold live in Hin |- *. cbn in Hin. rewrite Hf in Hin.
    assert (Hr1 : r1 ∈ (fw_callers w).*1) by (rewrite Hp; constructor).
    apply elem_of_app in Hin as [Hin|[Hin|Hin]%elem_of_app].
    + assert (Hcase : r = r' \/ r ∈ others.*1).
      { destruct n as [s|a]; cbn in Hin; [apply elem_of_cons in Hin as [->|?]; [by left|by right]|by right]. }
      destruct Hcase as [->|?]; [exists r1; split; [set_solver|done]|]. exists r. split; [|done]. rewrite Hp. set_solver.
    + exists r. split; [set_solver|done].
    + exists r1. split; [set_solver|by apply Hn].
  - left. apply (Hsame (set_front (process_command_ack_update nodes u (fw_front w)) w)); [done| |done].
    cbn. by rewrite (proj2 (process_ack_console nodes u (fw_front w))).
  - left. by apply (Hsame (set_front (set_local l (fw_front w)) w)).
  - left. by eapply Hsame; [| |exact Hin].
  - left. by eapply Hsame; [| |exact Hin].
  - left. by eapply Hsame; [| |exact Hin].
Qed.

Lemma build_carries t com with_ack ack c :
  build_hex_command (trim t) com with_ack ack = Ok c ->
  exists data d, hex_str_to_bytes (text (filter (fun c => is_ascii_whitespace c = false) (chars (trim t)))) = Ok data /\
    (2 <= length data)%nat /\ head data = Some (sd_device_id d) /\ sd_command d = data ++ [get_sum data] /\
    cm_command c = if with_ack then SendDataWithAck d else SendDataCommand d.
Proof.
  unfold build_hex_command. intros (data & Hd & H)%bind_Ok. destruct (hex_str_to_bytes _) as [data'|]; [|done]. injection Hd as ->.
  destruct data as [|x [|y data]]; [done|done|]. injection H as <-.
  exists (x :: y :: data), {| sd_device_id := x; sd_command := (x :: y :: data) ++ [get_sum (x :: y :: data)] |}.
  split_and!; [done|cbn; lia|done|done|done].
Qed.

Lemma parse_write_text t com a t' c : parse_write (TextValue t) com a = Ok (t', c) -> build_hex_command (trim t) com true (Some a) = Ok c.
Proof. unfold parse_write. case_match; [done|]. destruct (build_hex_command _ _ _ _); [|done]. by intros [= _ ->]. Qed.

Lemma arrival_carries w r t w' : arrival w r t w' -> carries t r.
Proof.
  intros H. destruct H as [w t com f r E|w t com r E|w request t now f r Ht E].
  - unfold arrive_write in E. destruct (parse_write _ _ _) as [[t' c]|] eqn:Ep; [|done]. injection E as <- <-.
    apply parse_write_text, build_carries in Ep as (data & d & H). by exists data, d.
  - unfold arrive_method in E. destruct (String.eqb _ _); [done|]. destruct (build_hex_command _ _ _ _) as [c|] eqn:Eb; [|done].
    injection E as <-. apply build_carries in Eb as (data & d & H). by exists data, d.
  - unfold arrive_submission in E. destruct (parse_submission _ _ _) as [[[[p q] m] c0]|] eqn:Es; [|done].
    destruct (parse_write _ _ _) as [[t' c]|] eqn:Ep; [|done]. injection E as <- <-.
    assert (q = t) as ->.
    { clear -Es Ht. unfold parse_submission in Es. destruct (negb _); [done|]. apply bind_Ok in Es as (? & _ & Es).
      apply bind_Ok in Es as (? & _ & Es). destruct (negb _); [done|]. apply bind_Ok in Es as (? & _ & Es). destruct (negb _); [done|].
      apply bind_Ok in Es as (t' & Hf & Es). unfold field in Hf. rewrite Ht in Hf. destruct (String.eqb _ _); [done|]. injection Hf as <-.
      destruct (_ || _); [done|]. apply bind_Ok in Es as (? & _ & Es). apply bind_Ok in Es as (? & _ & Es). by injection Es. }
    apply parse_write_text, build_carries in Ep as (data & d & H). by exists data, d.
Qed.

Lemma carries_origin t r0 r : same_origin r0 r -> carries t r0 -> carries t r.
Proof. intros (Hc & _ & _ & Hm) (data & d & H). exists data, d. by rewrite Hm, Hc. Qed.

Lemma front_steps_origin w ls w' r :
  front_steps w ls w' -> r ∈ live w' -> (exists r0, r0 ∈ live w /\ same_origin r0 r) \/ submitted w ls w' r.
Proof.
  induction 1 as [w|w1 l w2 ls w3 Hs Hss IH]; intros Hin; [left; by exists r|].
  destruct (IH Hin) as [(r0 & Hr0 & Ho)|(ls1 & ls2 & wa & wb & r0 & t & -> & Ha & H)].
  - destruct (front_step_origin _ _ _ _ Hs Hr0) as [(r1 & ? & ?)|(-> & r1 & t & Harr & Ho1)].
    + left. exists r1. split; [done|by eapply same_origin_trans].
    + right. assert (same_origin r1 r) by (by eapply same_origin_trans). exists [], ls, w1, w2, r1, t.
      split_and!; try done; [constructor|]. by eapply carries_origin, arrival_carries.
  - right. exists (l :: ls1), ls2, wa, wb, r0, t. split; [done|]. split; [by econstructor|done].
Qed.
End Origin.

(** The server when its callbacks are registered. *)
Definition open_front (s : State) (db : option Db) (batch : list Snapshot) (g : GateState) (o : OpsState) : FrontWorld :=
  {| fw_front := {| fr_pending := ∅; fr_tracker := s; fr_gate := g; fr_ops := o; fr_handed := []; fr_local := [];
                    fr_shown := []; fr_next_ack := 1; fr_next_method := 2 ^ 63 |};
     fw_db := db; fw_batch := batch; fw_callers := []; fw_out := [] |}.

Lemma open_front_ok s db batch g sha saved station ports per o :
  startup sha saved station ports per = Ok o -> front_ok (open_front s db batch g o).
Proof.
  intros Hs%startup_fresh%fresh_ok. split; [exact Hs| |constructor|constructor].
  constructor; cbn; try by constructor. all: try (intros; by simplify_map_eq).
  intros l1 com ack status l2 Heq. by destruct l1.
Qed.

(** ** Every caller is answered *)

(** How many stages a caller may still have. *)
Definition stages_left (c : Caller) (stage : Stage) : nat :=
  match c, stage with
  | Submission _ _, Begin => 8 | Submission _ _, Confirm _ => 7 | _, Admission => match c with Submission _ _ => 6 | _ => 8 end
  | _, Begin => 7 | _, Confirm _ => 6 | _, Accept => 5 | _, Send => 4 | _, Undo => 3 | _, Close => 2 | _, Show => 2
  | _, Finish _ => 1
  end%nat.

(** *** A submission's payload is a command *)

Lemma drop_while_filter {A} (p q : A -> bool) l :
  Forall (fun c => p c = true -> q c = true) l ->
  filter (fun c => q c = false) (drop_while p l) = filter (fun c => q c = false) l.
Proof.
  induction 1 as [|c l Hc _ IH]; [done|]. cbn [drop_while]. destruct (p c); [|done].
  rewrite IH, filter_cons_False; [done|]. by rewrite Hc.
Qed.

Lemma Forall_drop_while {A} (P : A -> Prop) (p : A -> bool) l : Forall P l -> Forall P (drop_while p l).
Proof. induction 1 as [|c l Hc Hl IH]; [constructor|]. cbn [drop_while]. destruct (p c); [done|by constructor]. Qed.

Lemma trim_filter s :
  Forall (fun c => code c <> 11) (chars s) ->
  filter (fun c => is_ascii_whitespace c = false) (chars (trim s)) = filter (fun c => is_ascii_whitespace c = false) (chars s).
Proof.
  intros H. assert (Hp : Forall (fun c => is_whitespace c = true -> is_ascii_whitespace c = true) (chars s)).
  { eapply Forall_impl; [exact H|]. intros c Hc. cbn beta in Hc. unfold is_whitespace. rewrite orb_true_iff, Z.eqb_eq. tauto. }
  unfold trim. rewrite list_ascii_of_string_of_list_ascii.
  assert (Hr : forall l : list ascii, rev l = reverse l) by (intros; by rewrite rev_alt).
  rewrite !Hr, filter_reverse, drop_while_filter, filter_reverse, reverse_involutive by (by apply Forall_reverse, Forall_drop_while).
  by apply drop_while_filter.
Qed.

Lemma hex_pairs_no_vt n cs bs : (length cs = 2 * n)%nat -> hex_pairs cs = Ok bs -> Forall (fun c => code c <> 11) cs.
Proof.
  assert (Hv : forall c x, hex_value c = Some x -> code c <> 11).
  { intros c x. unfold hex_value, is_ascii_digit. repeat case_match; try done; intros _ ?; repeat match goal with H : andb _ _ = true |- _ => apply andb_true_iff in H as [??] end; lia. }
  revert cs bs. induction n as [|n IH]; intros [|a [|b cs]] bs Hl; cbn [length] in Hl; try lia; [constructor|].
  cbn [hex_pairs]. unfold u8_from_hex2. intros H. destruct (Ascii.eqb_spec a "+") as [->|_].
  - destruct (hex_value b) eqn:Hb; [|done]. cbn in H. destruct (hex_pairs cs) eqn:E; [|done].
    constructor; [done|constructor; [by eapply Hv|]]. eapply IH; [|exact E]. lia.
  - destruct (hex_value a) eqn:Ha; [|done]. destruct (hex_value b) eqn:Hb; [|done]. cbn in H. destruct (hex_pairs cs) eqn:E; [|done].
    constructor; [by eapply Hv|constructor; [by eapply Hv|]]. eapply IH; [|exact E]. lia.
Qed.

Lemma build_hex_no_vt s com with_ack a c :
  build_hex_command s com with_ack a = Ok c -> Forall (fun c => code c <> 11) (chars s).
Proof.
  unfold build_hex_command, hex_str_to_bytes. set (cs := filter (fun c => is_ascii_whitespace c = false) (chars s)).
  destruct (is_ascii _); [|done]. cbn [negb].
  destruct (Nat.eqb_spec (String.length (text cs) mod 2) 0) as [He|_]; [|done].
  rewrite string_length_chars, list_ascii_of_string_of_list_ascii in He. rewrite list_ascii_of_string_of_list_ascii.
  cbn [negb]. destruct (hex_pairs cs) as [bs|] eqn:E; [|done]. intros _.
  apply (hex_pairs_no_vt (length cs / 2)) in E; [|by apply Nat.Div0.div_exact].
  apply Forall_forall. intros c' Hin Hc. rewrite Forall_forall in E. apply (E c'); [|done].
  apply list_elem_of_filter. split; [|done]. unfold is_ascii_whitespace. by rewrite Hc.
Qed.

(** The write's own parser accepts what a submission was checked for. *)
Lemma submission_parses i senders request port payload manager command ack :
  parse_submission i senders request = Ok (port, payload, manager, command) ->
  exists c, parse_write (TextValue payload) port ack = Ok (trim payload, c).
Proof.
  intros H. assert (Hb : exists c, build_hex_command payload port true None = Ok c).
  { unfold parse_submission in H. case_match; [done|]. inv_result. case_match; [done|]. inv_result. case_match; [done|].
    inv_result. case_match eqn:E; [done|]. inv_result. apply orb_false_iff in E as [_ E].
    destruct (build_hex_command _ _ _ _) eqn:Hb; [by eexists|done]. }
  destruct Hb as [c Hb]. pose proof (trim_filter _ (build_hex_no_vt _ _ _ _ _ Hb)) as Ht.
  assert (Hc : exists c, build_hex_command (trim payload) port true (Some ack) = Ok c).
  { unfold build_hex_command in *. rewrite Ht. destruct (hex_str_to_bytes _) as [[|? [|??]]|]; try done. by eexists. }
  destruct Hc as [c' Hc]. exists c'. unfold parse_write. rewrite Hc. unfold is_send_node_idle_or_status.
  case_bool_decide as Hi; [|done]. exfalso. clear Ht Hb. revert Hc.
  repeat (apply elem_of_cons in Hi as [->|Hi]; [done|]). by apply elem_of_nil in Hi.
Qed.

Section Answers.
Context (sha256 : string -> list Z) (i : Inner) (pending_timeout : Z).
Context (bits : StatusCode -> Z) (debug : StatusCode -> string).

Lemma advance_left e r stage f f' l r' n :
  advance sha256 i pending_timeout bits debug e r stage f = (f', l, (r', n)) ->
  rq_caller r' = rq_caller r /\
  match n with Then s => (stages_left (rq_caller r) s < stages_left (rq_caller r) stage)%nat | Answered _ => True end.
Proof.
  destruct stage as [|v| | | | | | |status]; cbv beta delta [advance] iota; intros H.
  - unfold stage_begin in H. destruct (rq_identity i r). destruct (begin_admit _ _ _ _ _ _ _ _ _ _) as [s' res].
    injection H as <- <- <- <-. destruct (rq_caller r), res as [[v [|]]|er]; cbn; (split; [done|]); try done; lia.
  - unfold stage_confirm in H. injection H as <- <- <- <-. destruct (rq_caller r); cbn; repeat case_match; simplify_eq; cbn;
      (split; [done|]); try done; lia.
  - destruct (stage_admission _ _ _ _) as [[f1 r1] n1] eqn:E. injection H as <- <- <- <-. unfold stage_admission in E.
    destruct (rq_caller r) eqn:Hc; repeat case_match; simplify_eq; cbn; rewrite ?Hc in *; (split; [done|]); try done; lia.
  - injection H as <- <- <- <-. destruct (rq_caller r); cbn; (split; [done|]); lia.
  - unfold stage_send in H. destruct (fe_open e); injection H as <- <- <- <-; destruct (rq_caller r) eqn:Hc; cbn; rewrite ?Hc; cbn;
      (split; [done|]); try done; lia.
  - injection H as <- <- <- <-. destruct (rq_caller r); cbn; (split; [done|]); lia.
  - unfold stage_close, drop_command_permit in H. injection H as <- <- <- <-. destruct (rq_caller r); cbn; (split; [done|]); try done; lia.
  - injection H as <- <- <- <-. destruct (rq_caller r); cbn; (split; [done|]); try done; lia.
  - unfold stage_finish in H. destruct (rq_identity i r). by injection H as <- <- <- <-.
Qed.

(** Eight stages are enough for every caller. *)
Lemma run_stages_answers fuel es r stage f :
  (stages_left (rq_caller r) stage <= fuel)%nat ->
  exists f' a, run_stages sha256 i pending_timeout bits debug fuel es r stage f = (f', Some a).
Proof.
  revert r stage f. induction fuel as [|fuel IH]; intros r stage f Hle.
  - destruct (rq_caller r), stage; cbn in Hle; lia.
  - cbn [run_stages]. destruct (advance _ _ _ _ _ _ _ _ _) as [[f1 l] [r1 n]] eqn:E. apply advance_left in E as [Hc Hn].
    destruct n as [s'|a]; [|by eexists _, _]. apply IH. rewrite Hc. lia.
Qed.
End Answers.

(** ** Expiry *)

Lemma update_change_terminal s com a stamp com' a' :
  is_terminal_ack s com' a' = true -> is_terminal_ack (update s com a change_deadline stamp) com' a' = true.
Proof.
  unfold is_terminal_ack, update. intros H. destruct a as [a|]; [|done].
  destruct (ack s !! (com, a)) as [k|]; [|done]. destruct (entries s !! k) as [v|] eqn:Hv; [|done]. cbn [ack entries set_entries].
  destruct (ack s !! (com', a')) as [k'|]; [|done]. cbn [mbind option_bind] in *.
  destruct (decide (k = k')) as [<-|]; [|by rewrite lookup_insert_ne]. rewrite Hv in H. rewrite lookup_insert_eq.
  unfold change_deadline. rewrite H. unfold trim_attempts, terminal in *. by case_match.
Qed.

Lemma update_deadline_terminal s com a stamp :
  is_Some (ack s !! (com, a) ≫= fun k => entries s !! k) ->
  is_terminal_ack (update s com (Some a) change_deadline stamp) com a = true.
Proof.
  unfold is_terminal_ack, update. destruct (ack s !! (com, a)) as [k|] eqn:Hk; [|by intros []]. cbn [mbind option_bind].
  intros [v Hv]. rewrite Hv. cbn [ack entries set_entries]. rewrite Hk. cbn [mbind option_bind]. rewrite lookup_insert_eq.
  unfold change_deadline. destruct (terminal v) eqn:Ht; unfold trim_attempts, terminal in *; by case_match.
Qed.

(** An entry the tracker still knows. *)
Definition known_ack (s : State) (com : string) (a : Z) : Prop := is_Some (ack s !! (com, a) ≫= fun k => entries s !! k).

Lemma update_known s com a change stamp com' a' :
  known_ack s com' a' -> known_ack (update s com a change stamp) com' a'.
Proof.
  unfold known_ack, update. intros H. destruct a as [a|]; [|done]. destruct (ack s !! (com, a)) as [k|]; [|done].
  destruct (entries s !! k) as [v|]; [|done]. cbn [ack entries set_entries].
  destruct (ack s !! (com', a')) as [k'|]; [|done]. cbn [mbind option_bind] in *. rewrite lookup_insert. by case_decide.
Qed.

Definition failed_update (com : string) (a : Z) : CommandAckUpdate :=
  {| cau_com := com; cau_ack_id := Some a; cau_status := Failed |}.

Lemma expire_one nodes stamp f com a :
  let f' := expire_pending nodes stamp f (failed_update com a) in
  fr_tracker f' = update (fr_tracker f) com (Some a) change_deadline stamp /\
  (forall com', com' <> com -> fr_pending f' !! com' = fr_pending f !! com') /\
  (forall p, fr_pending f !! com = Some p -> pc_ack_id p = a ->
     fr_pending f' !! com = None /\ (com ∈ nodes -> (com, a, Failed) ∈ fr_shown f')) /\
  exists new, fr_shown f' = fr_shown f ++ new.
Proof.
  cbv zeta. unfold expire_pending, process_command_ack_update, apply_ack_pending_state, failed_update. cbn.
  destruct (fr_pending f !! com) as [p|] eqn:Hp; cbn.
  - destruct (Z.eqb_spec (pc_ack_id p) a) as [<-|Hne]; cbn.
    + case_bool_decide; cbn; (split_and!; [done| |intros q [= <-] _; split; [apply lookup_delete_eq|]|]).
      all: try (intros com' Hne; by rewrite lookup_delete_ne).
      * intros _. apply elem_of_app. right. constructor.
      * by eexists.
      * done.
      * exists []. by rewrite app_nil_r.
    + split_and!; [done|done| |exists []; by rewrite app_nil_r]. intros q [= <-]. done.
  - split_and!; [done|done|done|exists []; by rewrite app_nil_r].
Qed.

Lemma expire_all nodes stamp (l : list (string * PendingCommand)) f com p :
  NoDup l.*1 -> (forall c q, (c, q) ∈ l -> fr_pending f !! c = Some q) ->
  let f' := foldl (expire_pending nodes stamp) f ((fun x => failed_update x.1 (pc_ack_id x.2)) <$> l) in
  (com ∉ l.*1 -> fr_pending f' !! com = fr_pending f !! com) /\
  ((com, p) ∈ l ->
     fr_pending f' !! com = None /\ (com ∈ nodes -> (com, pc_ack_id p, Failed) ∈ fr_shown f') /\
     (known_ack (fr_tracker f) com (pc_ack_id p) -> is_terminal_ack (fr_tracker f') com (pc_ack_id p) = true)) /\
  (forall com' a', is_terminal_ack (fr_tracker f) com' a' = true -> is_terminal_ack (fr_tracker f') com' a' = true) /\
  exists new, fr_shown f' = fr_shown f ++ new.
Proof.
  cbv zeta. revert f. induction l as [|[c q] l IH]; intros f Hnd Hl.
  { cbn. split_and!; [done|by intros ?%elem_of_nil|done|exists []; by rewrite app_nil_r]. }
  rewrite fmap_cons in Hnd. apply NoDup_cons in Hnd as [Hc Hnd]. rewrite !fmap_cons. cbn [foldl fst snd] in Hc |- *.
  destruct (expire_one nodes stamp f c (pc_ack_id q)) as (Ht & Hother & Hown & [n1 Hn1]).
  set (f1 := expire_pending nodes stamp f (failed_update c (pc_ack_id q))) in *.
  destruct (IH f1 Hnd) as (Hout & Hin & Hterm & [n2 Hn2]).
  { intros c' q' Hin. rewrite Hother; [apply Hl; by constructor|]. intros ->. apply Hc. apply list_elem_of_fmap. by exists (c, q'). }
  split_and!.
  - intros Hn. apply not_elem_of_cons in Hn as [? ?]. rewrite Hout by done. by apply Hother.
  - intros [[= -> ->]|Hin']%elem_of_cons.
    + destruct (Hown q) as [Hnone Hshow]; [apply Hl; constructor|done|]. split_and!.
      * by rewrite Hout.
      * intros Hnode. rewrite Hn2. apply elem_of_app. left. by apply Hshow.
      * intros Hk. apply Hterm. rewrite Ht. by apply update_deadline_terminal.
    + destruct (Hin Hin') as (? & ? & Hk). split_and!; [done|done|]. intros Hk'. apply Hk. rewrite Ht. by apply update_known.
  - intros com' a' H. apply Hterm. rewrite Ht. by apply update_change_terminal.
  - exists (n1 ++ n2). by rewrite Hn2, Hn1, app_assoc.
Qed.

(** No reservation outlives its deadline. Take any state and the rounds of the
    acknowledgement task: once the queued statuses are drained, a
    reservation whose deadline has passed is ended in the same round, its send
    node shows the command as failed and its journal entry, if the tracker
    still has it, is terminal; a reservation with time left is kept. *)
Lemma expired_reservations_end nodes acks now stamp f com p :
  fr_pending (drain_command_ack_updates nodes acks f) !! com = Some p ->
  let f1 := drain_command_ack_updates nodes acks f in
  let f' := ack_round nodes acks now stamp f in
  (pc_deadline p <= now ->
     fr_pending f' !! com = None /\ (com ∈ nodes -> (com, pc_ack_id p, Failed) ∈ fr_shown f') /\
     (known_ack (fr_tracker f1) com (pc_ack_id p) -> is_terminal_ack (fr_tracker f') com (pc_ack_id p) = true)) /\
  (now < pc_deadline p -> fr_pending f' !! com = Some p).
Proof.
  intros Hp f1 f'. set (l := filter (fun x => pc_deadline x.2 <= now) (map_to_list (fr_pending f1))).
  assert (Hnd : NoDup l.*1).
  { eapply sublist_NoDup; [apply (NoDup_fst_map_to_list (fr_pending f1))|]. apply fmap_sublist, sublist_filter. }
  assert (Hl : forall c q, (c, q) ∈ l -> fr_pending f1 !! c = Some q).
  { intros c q [_ Hin]%list_elem_of_filter. by apply elem_of_map_to_list. }
  destruct (expire_all nodes stamp l f1 com p Hnd Hl) as (Hout & Hin & _ & _).
  change (foldl _ f1 _) with f' in *. split.
  - intros Hd. apply Hin. apply list_elem_of_filter. split; [done|by apply elem_of_map_to_list].
  - intros Hd. rewrite <- Hp. apply Hout. intros [[c q] [-> Hq]]%list_elem_of_fmap.
    apply list_elem_of_filter in Hq as [Hq1 Hq2%elem_of_map_to_list]. cbn in *. unfold f1 in Hq2. rewrite Hp in Hq2.
    injection Hq2 as <-. lia.
Qed.

(** ** Properties *)

Section Properties.
Context (sha256 : string -> list Z) (i : Inner) (pending_timeout : Z).
Context (bits : StatusCode -> Z) (debug : StatusCode -> string) (senders nodes : list string).

Notation front_step := (front_step sha256 i pending_timeout bits debug senders nodes).
Notation front_steps := (front_steps sha256 i pending_timeout bits debug senders nodes).

(** C7: a client's command enters a port once. The tracker is opened on a
    journal file, with whatever faults; then writes, method calls and tracked
    submissions, acknowledgements, workers, requests of the console and the
    journal writer interleave in any way. No identity of a submission is handed
    to a worker twice, and, when the inventory of the file could be read, none
    that has a row in it; on every port at most one caller or worker holds a
    permit, so that no two commands are in flight there. Each command handed
    over was submitted by a client in the course of the history, on that port
    and under that identity, its frame is the bytes of the text submitted with
    their checksum, and it carries a permit, its acknowledgement number and, for
    writes and submissions, a deadline. *)
Theorem commands_enter_once e file w0 file1 g sha saved station ports per o ls w :
  file_wf file -> tracker_open sha256 e file = (i, w0, file1) -> startup sha saved station ports per = Ok o ->
  front_steps (open_front (w_state w0) (w_db w0) (w_batch w0) g o) ls w ->
  NoDup (omap tracked_key (fr_handed (fw_front w))) /\
  (history_known i = true -> forall k, k ∈ omap tracked_key (fr_handed (fw_front w)) -> ~ has_row file k) /\
  NoDup (held_ports (fw_callers w) ++ (rq_com <$> fw_out w)) /\
  Forall handed_ok (fr_handed (fw_front w)) /\
  Forall (submitted sha256 i pending_timeout bits debug senders nodes
            (open_front (w_state w0) (w_db w0) (w_batch w0) g o) ls w) (fr_handed (fw_front w)).
Proof.
  intros Hwf Hopen Hs Hsteps. destruct (tracker_open_spec _ _ _ _ _ _ Hwf Hopen) as (_ & _ & _ & _ & (rev & er & Hini) & Hinv).
  pose proof (front_steps_ok _ _ _ _ _ _ _ _ _ _ Hsteps (open_front_ok _ _ _ g _ _ _ _ _ _ Hs)) as [Ho _ _ Hh].
  destruct (front_steps_journal _ _ _ _ _ _ _ _ _ _ Hsteps) as (js & Hj & Ha).
  pose proof (front_steps_keys _ _ _ _ _ _ _ _ _ _ Hsteps) as Hk. change (keys w ⊆+ admitted ls) in Hk.
  assert (Hlen : (0 < length (seen (w_state w0)))%nat) by (rewrite Hini; cbn [seen initial_state]; rewrite length_replicate; lia).
  destruct (steps_admitted sha256 i (fw_journal (open_front (w_state w0) (w_db w0) (w_batch w0) g o)) js _ [] Hlen Hj) as [Hnd _];
    [by intros k ?%elem_of_nil|].
  assert (Hhist : forall k, k ∈ admitted js -> sha256 k ∉ historical_ids i) by (intros k; by eapply steps_historical).
  rewrite Ha in Hnd, Hhist.
  assert (Hsub : omap tracked_key (fr_handed (fw_front w)) ⊆+ admitted ls).
  { etrans; [|exact Hk]. apply submseteq_inserts_r. done. }
  split_and!; [| | |done|].
  - destruct (submseteq_Permutation _ _ Hsub) as [k Hp]. rewrite Hp in Hnd. by apply NoDup_app in Hnd as [? _].
  - intros Hknown k Hin Hrow. apply (Hhist k); [by eapply elem_of_submseteq|by apply Hinv].
  - exact (permits_nodup _ Ho).
  - apply Forall_forall. intros r Hin.
    destruct (front_steps_origin _ _ _ _ _ _ _ _ _ _ r Hsteps) as [(r0 & Hr0 & _)|?]; [apply elem_of_app; by right| |done].
    cbn in Hr0. by apply not_elem_of_nil in Hr0.
Qed.

(** C8: a send node shows the status of the right command. After any history,
    no status of a command is shown after a terminal one of the same command,
    and a command that holds a reservation has not been shown as ended. In the
    next step whatever is shown belongs to the command that holds the
    reservation of the port; and a reservation ends only by a terminal
    acknowledgement of its own number, by its own caller when the worker is
    gone, or by a new command once the journal has the old one as ended. *)
Theorem status_of_the_right_command s db batch g sha saved station ports per o ls w l w' :
  startup sha saved station ports per = Ok o -> front_steps (open_front s db batch g o) ls w -> front_step w l w' ->
  shown_ok (fr_shown (fw_front w)) /\
  (forall com ack status com' p, (com, ack, status) ∈ fr_shown (fw_front w) -> is_terminal status = true ->
     fr_pending (fw_front w) !! com' = Some p -> pc_ack_id p <> ack) /\
  (forall com ack status, fr_shown (fw_front w') = fr_shown (fw_front w) ++ [(com, ack, status)] ->
     exists p, fr_pending (fw_front w) !! com = Some p /\ pc_ack_id p = ack) /\
  (forall com p, fr_pending (fw_front w) !! com = Some p ->
     fr_pending (fw_front w') !! com = Some p \/
     (exists u, cau_com u = com /\ cau_ack_id u = Some (pc_ack_id p) /\ is_terminal (cau_status u) = true /\
        fw_front w' = process_command_ack_update nodes u (fw_front w)) \/
     (exists r, (r, Undo) ∈ fw_callers w /\ rq_com r = com /\ rq_ack r = pc_ack_id p) \/
     is_terminal_ack (fr_tracker (fw_front w)) com (pc_ack_id p) = true).
Proof.
  intros Hs Hsteps Hstep.
  pose proof (front_steps_ok _ _ _ _ _ _ _ _ _ _ Hsteps (open_front_ok s db batch g _ _ _ _ _ _ Hs)) as [_ Hr Hc _].
  split_and!; [apply Hr|intros; by eapply rs_closed| |].
  - intros com ack status Hnew. by eapply shown_reserved.
  - intros com p Hp. by eapply reservation_ends.
Qed.
End Properties.

(** ** Witnesses *)

(** The tracker, opened on a journal that an earlier process left. *)
Definition toy_gateway : Inner := started.1.1.

(** The next stage of the first caller. *)
Definition toy_bits (s : StatusCode) : Z := if bool_decide (s = Good) then 0 else 2147483648.
Definition toy_debug (s : StatusCode) : string := if bool_decide (s = Good) then "Good" else "Bad".
Definition toy_env : FrontEnv :=
  {| fe_now := 0; fe_checked := 0; fe_admitted := 0; fe_shutdown := false; fe_lookup := Ok None; fe_stamp := "t";
     fe_open := true; fe_alive := true |}.

Definition stage_world (w : FrontWorld) : Label * FrontWorld :=
  match fw_callers w with
  | [] => (Internal, w)
  | (r, stage) :: others =>
      let '(f, l, (r', n)) := advance toy_sha toy_gateway (millis 5000) toy_bits toy_debug toy_env r stage (fw_front w) in
      (l, {| fw_front := f; fw_db := fw_db w; fw_batch := fw_batch w; fw_callers := next_callers others r' n;
             fw_out := drop (length (fr_handed (fw_front w))) (fr_handed f) ++ fw_out w |})
  end.

Notation toy_step := (front_step toy_sha toy_gateway (millis 5000) toy_bits toy_debug ["COM3"] ["COM3"]).
Notation toy_steps := (front_steps toy_sha toy_gateway (millis 5000) toy_bits toy_debug ["COM3"] ["COM3"]).

Lemma stage_world_step w : fw_callers w <> [] -> toy_step w (stage_world w).1 (stage_world w).2.
Proof.
  unfold stage_world. destruct (fw_callers w) as [|[r stage] others] eqn:Hc; [done|]. intros _.
  destruct (advance _ _ _ _ _ _ _ _ _) as [[f l] [r' n]] eqn:E. cbn [fst snd].
  eapply fs_stage; [by rewrite Hc|exact E].
Qed.

Lemma front_steps_snoc w ls w1 l w2 : toy_steps w ls w1 -> toy_step w1 l w2 -> toy_steps w (ls ++ [l]) w2.
Proof. intros H Hs. induction H as [|a l1 b ls c Hab _ IH]; cbn; econstructor; eauto; constructor. Qed.

Fixpoint stage_worlds (n : nat) (w : FrontWorld) : FrontWorld :=
  match n with
  | O => w
  | S n => match fw_callers w with [] => w | _ :: _ => stage_worlds n (stage_world w).2 end
  end.

Lemma stage_worlds_steps n w : exists ls, toy_steps w ls (stage_worlds n w).
Proof.
  revert w. induction n as [|n IH]; intros w; cbn [stage_worlds]; [exists []; constructor|].
  destruct (fw_callers w) as [|rs others] eqn:Hc; [exists []; constructor|].
  destruct (IH (stage_world w).2) as [ls H]. exists ((stage_world w).1 :: ls). econstructor; [|exact H].
  apply stage_world_step. by rewrite Hc.
Qed.

(** A manager submits a command, which is handed over. *)
Definition toy_submission : gmap string Field :=
  list_to_map [("schema_version", FNumber 1); ("expected_gateway_instance_id", FText (gateway toy_gateway));
               ("expected_boot_id", FText (boot toy_gateway)); ("port_id", FText "COM3"); ("hex_data", FText "11 08");
               ("manager_instance_id", FText "m"); ("command_id", FText "c"); ("timeout_ms", FNumber 5000)].

Definition toy_open : FrontWorld := open_front (w_state started.1.2) (w_db started.1.2) (w_batch started.1.2) (Maintenance.gw_gate toy_gate) toy_ops.
Definition toy_ready : FrontWorld :=
  set_front (set_console (fr_gate (fw_front toy_open)) (report_runtime toy_ops "COM3" true true []) (fw_front toy_open)) toy_open.
Definition toy_submitted : FrontWorld :=
  match arrive_submission toy_gateway (millis 5000) ["COM3"] toy_submission 0 (fw_front toy_ready) with
  | (f, inl r) => add_caller r (set_front f toy_ready)
  | (f, inr _) => set_front f toy_ready
  end.
Definition toy_handed : FrontWorld := stage_worlds 8 toy_submitted.
Definition toy_answered : FrontWorld :=
  set_front (process_command_ack_update ["COM3"]
    {| cau_com := "COM3"; cau_ack_id := Some 1; cau_status := Received |} (fw_front toy_handed)) toy_handed.

Lemma toy_handed_steps : exists ls, toy_steps toy_open ls toy_handed.
Proof.
  destruct (stage_worlds_steps 8 toy_submitted) as [ls H]. exists (Internal :: Internal :: ls).
  econstructor; [|econstructor; [|exact H]].
  - eapply fs_console, ops_runtime.
  - unfold toy_submitted. destruct (arrive_submission _ _ _ _ _ _) as [f [r|e]] eqn:E; [by eapply fs_submission|by eapply fs_submission_refused].
Qed.

(** A manager's command is handed over, under its identity. *)
Lemma commands_enter_once_witness :
  omap tracked_key (fr_handed (fw_front toy_handed)) = ["m" +:+ String Ascii.zero "c"] /\
  NoDup (omap tracked_key (fr_handed (fw_front toy_handed))) /\ Forall handed_ok (fr_handed (fw_front toy_handed)) /\
  forall k, k ∈ omap tracked_key (fr_handed (fw_front toy_handed)) -> ~ has_row (Some old_file) k.
Proof.
  destruct toy_handed_steps as [ls H]. split; [vm_compute; reflexivity|].
  destruct (commands_enter_once toy_sha toy_gateway (millis 5000) toy_bits toy_debug ["COM3"] ["COM3"]
    toy_start (Some old_file) started.1.2 started.2 (Maintenance.gw_gate toy_gate) _ _ _ _ _ _ ls toy_handed
    old_file_wf ltac:(reflexivity) toy_ops_started H) as (Hnd & Hold & _ & Hok & _).
  split; [exact Hnd|]. split; [exact Hok|]. apply Hold. vm_compute. reflexivity.
Defined.

(** Its acknowledgement is shown and ends the reservation. *)
Lemma status_of_the_right_command_witness :
  fr_shown (fw_front toy_answered) = [("COM3", 1, Received)] /\ fr_pending (fw_front toy_answered) !! "COM3" = None /\
  exists p, fr_pending (fw_front toy_handed) !! "COM3" = Some p /\ pc_ack_id p = 1.
Proof.
  destruct toy_handed_steps as [ls H]. do 2 (split; [vm_compute; reflexivity|]).
  destruct (status_of_the_right_command toy_sha toy_gateway (millis 5000) toy_bits toy_debug ["COM3"] ["COM3"]
    (w_state started.1.2) (w_db started.1.2) (w_batch started.1.2) (Maintenance.gw_gate toy_gate) _ _ _ _ _ _ ls toy_handed Internal toy_answered
    toy_ops_started H (fs_ack _ _ _ _ _ _ _ _ _)) as (_ & _ & Hnew & _).
  apply (Hnew "COM3" 1 Received). vm_compute. reflexivity.
Defined.
