(* ===== verification/Namespace.v ===== *)
(** * Ports and the flat namespace of the OPC UA server

    How device tables become ports (src/src/file_scanner.rs,
    src/src/serial/port_config.rs and the loading part of src/src/main.rs), and
    how ports and formulas become nodes of the address space
    (src/src/server/opcua.rs): names, the check for collisions, the variables
    with their types, the methods, the limits of the server and its port.  The
    address space is the application's namespace, which is empty before; a
    node's references, texts and qualified names are left out. *)

From stdpp Require Import pretty sorting.
From S2P Require Import Prelude RustFloat RustStr Model Parser Evaluator Engine Csv Protocol Frames.
Open Scope string_scope.
Open Scope Z_scope.
Open Scope list_scope.

(** ** Ports *)

Record SerialPortConfig := {
  sp_port_number : string;
  sp_baud_rate : Z;
  sp_is_special : bool;
  sp_devices : list DeviceConfig;
  sp_status : bool
}.

Definition port_config_new (port_number : string) (baud_rate : Z) (is_special : bool) (devices : list DeviceConfig)
    : SerialPortConfig :=
  {| sp_port_number := port_number; sp_baud_rate := baud_rate; sp_is_special := is_special; sp_devices := devices;
     sp_status := true |}.

Definition from_csv_config (conf : Config) : SerialPortConfig :=
  port_config_new (com conf) (baud_rate conf) (is_special conf) [].

Definition to_runtime_state (p : SerialPortConfig) : PortRuntimeState :=
  {| prs_port_number := sp_port_number p; prs_status := true;
     prs_device_status := foldl (fun m d => <[device_id (dc_config d) := true]> m) ∅ (sp_devices p) |}.

Definition push_device (d : DeviceConfig) (p : SerialPortConfig) : SerialPortConfig :=
  {| sp_port_number := sp_port_number p; sp_baud_rate := sp_baud_rate p; sp_is_special := sp_is_special p;
     sp_devices := sp_devices p ++ [d]; sp_status := sp_status p |}.

(** ** Loading the device tables *)

Definition ends_with (suffix s : string) : bool :=
  bool_decide (drop (String.length s - String.length suffix) (chars s) = chars suffix).

(** The regular expression [^rcd.*\.csv$]: a dot is any character but the
    line feed. *)
Definition is_device_table (name : string) : bool :=
  String.prefix "rcd" name && ends_with ".csv" name && (7 <=? String.length name)%nat
  && negb (existsb (fun c => code c =? 10) (chars name)).

(** The regular files of the configuration directory, each with what
    [parse_csv] gives for it. *)
Abbreviation Directory := (gmap string (result CsvParseError (Config * list Record_))).

Definition read_and_process_files (dir : Directory) : list string :=
  filter (fun name => is_device_table name = true) (map_to_list dir).*1.

Inductive LoadError :=
| BadTable (file : string) (e : CsvParseError)
| BaudConflict (file port : string) (present current : Z)
| ModeConflict (file port : string) (present current : bool).

Definition load_table (configs : gmap string SerialPortConfig) (file : string)
    (parsed : result CsvParseError (Config * list Record_)) : result LoadError (gmap string SerialPortConfig) :=
  '(conf, recs) ← map_err (BadTable file) parsed;
  let port := default (from_csv_config conf) (configs !! com conf) in
  if negb (sp_baud_rate port =? baud_rate conf) then
    Err (BaudConflict file (com conf) (sp_baud_rate port) (baud_rate conf))
  else if negb (eqb (sp_is_special port) (is_special conf)) then
    Err (ModeConflict file (com conf) (sp_is_special port) (is_special conf))
  else Ok (<[com conf := push_device {| dc_config := conf; dc_records := recs |} port]> configs).

Fixpoint load_tables (dir : Directory) (files : list string) (configs : gmap string SerialPortConfig)
    : result LoadError (gmap string SerialPortConfig) :=
  match files with
  | [] => Ok configs
  | file :: files =>
      match dir !! file with
      | None => load_tables dir files configs
      | Some parsed => configs ← load_table configs file parsed; load_tables dir files configs
      end
  end.

Fixpoint insert_port (p : SerialPortConfig) (ports : list SerialPortConfig) : list SerialPortConfig :=
  match ports with
  | [] => [p]
  | q :: ports' => if String.leb (sp_port_number p) (sp_port_number q) then p :: ports else q :: insert_port p ports'
  end.
Definition sort_ports (ports : list SerialPortConfig) : list SerialPortConfig := foldr insert_port [] ports.

Definition load_and_group_csv_configs_from_dir (dir : Directory) : result LoadError (list SerialPortConfig) :=
  configs ← load_tables dir (sort_strings (read_and_process_files dir)) ∅;
  Ok (sort_ports (map_to_list configs).*2).

(** ** Names *)

(** [rsplit(['/', '\\']).find(non-empty)], from the last segment on. *)
Fixpoint segments (cs cur : list ascii) : list (list ascii) :=
  match cs with
  | [] => [cur]
  | c :: cs => if (code c =? 47) || (code c =? 92) then segments cs [] ++ [cur] else segments cs (cur ++ [c])
  end.

Definition opc_port_stem (port_number : string) : string :=
  match filter (fun seg => seg <> []) (segments (chars port_number) []) with
  | seg :: _ => text seg
  | [] => port_number
  end.
Definition opc_send_node_name (port_number : string) : string := opc_port_stem port_number +:+ "_Send".
Definition opc_send_method_name (port_number : string) : string := opc_port_stem port_number +:+ "_SendCommand".

Example stem_linux : opc_port_stem "/dev/ttyAP0" = "ttyAP0".
Proof. reflexivity. Qed.
Example stem_windows : opc_port_stem "\\.\COM3" = "COM3".
Proof. reflexivity. Qed.
Example stem_trailing : opc_port_stem "/dev/ttyAP0//" = "ttyAP0".
Proof. reflexivity. Qed.

(** ** The collision check *)

(** The points of all devices with their owners, in the order of the loops. *)
Definition device_points (ports : list SerialPortConfig) : list (string * (string * Z)) :=
  p ← ports; d ← sp_devices p; (fun r => (rec_kks r, (sp_port_number p, device_id (dc_config d)))) <$> dc_records d.

Definition owner_text (o : string * Z) : string := o.1 +:+ ":" +:+ pretty o.2.

Definition claim_point (st : gmap string (string * Z) * list string) (point : string * (string * Z))
    : gmap string (string * Z) * list string :=
  match st.1 !! point.1 with
  | None => (<[point.1 := point.2]> st.1, st.2)
  | Some prev => (st.1, st.2 ++ [point.1 +:+ ": " +:+ owner_text point.2 +:+ " conflicts with " +:+ owner_text prev])
  end.

(** [HashMap::insert] of an owner, with the two reports: the name was taken,
    or it is a point of a device. *)
Definition claim_name (devices : gmap string (string * Z)) (taken collision : string -> string -> string)
    (st : gmap string string * list string * list string) (name owner : string)
    : gmap string string * list string * list string :=
  let '(owners, duplicates, collisions) := st in
  (<[name := owner]> owners,
   match owners !! name with
   | Some previous => duplicates ++ [name +:+ ": " +:+ taken owner previous]
   | None => duplicates
   end,
   match devices !! name with
   | Some o => collisions ++ [name +:+ ": " +:+ collision owner (owner_text o)]
   | None => collisions
   end).

Definition send_nodes (ports : list SerialPortConfig) : list (string * string) :=
  (fun p => (opc_send_node_name (sp_port_number p), sp_port_number p)) <$> ports.

Definition planned_infrastructure_nodes (ports : list SerialPortConfig) : list (string * string) :=
  [("Devices", "系统 Devices 对象"); ("Methods", "系统 Methods 对象")] ++
  (ports ≫= fun p =>
     let method_name := opc_send_method_name (sp_port_number p) in
     [(method_name, "串口 " +:+ sp_port_number p +:+ " Method");
      (method_name +:+ "_Input", "串口 " +:+ sp_port_number p +:+ " Method 输入参数");
      (method_name +:+ "_Output", "串口 " +:+ sp_port_number p +:+ " Method 输出参数")]).

Definition join (sep : string) (l : list string) : string :=
  match l with [] => "" | s :: l => foldl (fun acc x => acc +:+ sep +:+ x) s l end.

(** One sentence of the refusal. *)
Definition part (what : string) (shown : nat) (sep : string) (items : list string) : list string :=
  match items with
  | [] => []
  | _ => [what +:+ " " +:+ pretty (length items) +:+ " 个，前 " +:+ pretty shown +:+ " 条: ["
          +:+ join sep (take shown items) +:+ "]"]
  end.

Definition refuse (parts : list string) : result string () :=
  match parts with
  | [] => Ok tt
  | _ => Err ("OPC UA 扁平化命名空间冲突，拒绝启动: " +:+ join "; " parts)
  end.

(** Two of the maps are iterated in an unspecified order, which only shows in
    the text of the refusal. *)
Definition validate_opcua_kks_namespace (ports : list SerialPortConfig) (e : CalcEngine) : result string () :=
  let '(device_kks_owners, duplicate_device_kks) := foldl claim_point (∅, []) (device_points ports) in
  let '(send_node_owners, duplicate_send_nodes, send_device_collisions) :=
    foldl (fun st np => claim_name device_kks_owners (fun owner previous => owner +:+ " conflicts with " +:+ previous)
             (fun owner o => "写命令节点 " +:+ owner +:+ " conflicts with 设备 KKS " +:+ o) st np.1 np.2)
      (∅, [], []) (send_nodes ports) in
  let '(infrastructure_node_owners, duplicate_infrastructure_nodes, infrastructure_device_collisions) :=
    foldl (fun st np => claim_name device_kks_owners (fun owner previous => owner +:+ " conflicts with " +:+ previous)
             (fun owner o => owner +:+ " conflicts with 设备 KKS " +:+ o) st np.1 np.2)
      (∅, [], []) (planned_infrastructure_nodes ports) in
  let calc_output_names := output_names e in
  let calc_collisions := filter (fun name => is_Some (device_kks_owners !! name)) calc_output_names in
  let send_calc_collisions := filter (fun name => name ∈ calc_output_names) (map_to_list send_node_owners).*1 in
  let infrastructure_calc_collisions :=
    (fun no => no.1 +:+ ": " +:+ no.2) <$>
      filter (fun no => no.1 ∈ calc_output_names) (map_to_list infrastructure_node_owners) in
  refuse (
    part "设备 KKS 重复" 5 "; " duplicate_device_kks
    ++ part "计算输出与设备 KKS 重名" 20 ", " calc_collisions
    ++ part "串口路径归一化后写命令节点重名" 5 "; " duplicate_send_nodes
    ++ part "写命令节点与设备 KKS 重名" 5 "; " send_device_collisions
    ++ part "写命令节点与计算输出重名" 20 ", " send_calc_collisions
    ++ part "OPC UA 系统节点重名" 5 "; " duplicate_infrastructure_nodes
    ++ part "OPC UA 系统节点与设备 KKS 重名" 5 "; " infrastructure_device_collisions
    ++ part "OPC UA 系统节点与计算输出重名" 20 "; " infrastructure_calc_collisions).

(** ** Values and types of nodes *)

Inductive ExpectedType := ExUInt32 | ExBool | ExFloat32 | ExFloat64.
#[export] Instance expected_type_eq_dec : EqDecision ExpectedType.
Proof. solve_decision. Defined.

Definition expected_type_from_str (s : string) : ExpectedType :=
  match normalize_data_type s with
  | Some DtUInt => ExUInt32
  | Some DtBool => ExBool
  | Some DtFloat => ExFloat32
  | Some DtDouble => ExFloat64
  | None => ExFloat32
  end.

Inductive Variant :=
| VtEmpty
| VtUInt32 (n : Z)
| VtBoolean (b : bool)
| VtFloat (f : f32)
| VtDouble (f : f64)
| VtString (s : string)
| VtArguments.

(** The built-in data types the server declares. *)
Inductive DataType := UInt32Type | BooleanType | FloatType | DoubleType | StringType | ArgumentType.
#[export] Instance data_type_eq_dec : EqDecision DataType.
Proof. solve_decision. Defined.

Definition datatype_and_initial (expected : ExpectedType) : DataType * Variant :=
  match expected with
  | ExUInt32 => (UInt32Type, VtUInt32 0)
  | ExBool => (BooleanType, VtBoolean false)
  | ExFloat32 => (FloatType, VtFloat (f32_of_Z 0))
  | ExFloat64 => (DoubleType, VtDouble f64_zero)
  end.

(** The status codes of values the gateway pushes. *)
Inductive Quality := GoodValue | BadNoCommunication | BadWaitingForInitialData.
#[export] Instance quality_eq_dec : EqDecision Quality.
Proof. solve_decision. Defined.

(** A [DataValue] without its time stamps. *)
Record DataValue := { dv_value : Variant; dv_status : Quality }.

Definition pushed_data_value (value : Variant) (status : Quality) : DataValue :=
  {| dv_value := value; dv_status := status |}.

(** ** The address space *)

Inductive Node :=
| ObjectNode
| VariableNode (type_ : DataType) (value : DataValue) (writable : bool)
| MethodNode.

Abbreviation AddressSpace := (gmap string Node).

(** [AddressSpace::insert] refuses a taken identifier. *)
Definition insert_node (space : AddressSpace) (id : string) (node : Node) : AddressSpace * bool :=
  match space !! id with
  | Some _ => (space, false)
  | None => (<[id := node]> space, true)
  end.

(** [Variable::new_data_value] with its initial value. *)
Definition new_variable (typed : DataType * Variant) : Node :=
  VariableNode typed.1 (pushed_data_value typed.2 GoodValue) false.

Record OpcuaVariableCounts := { device_variables : nat; send_variables : nat; calc_variables : nat }.
Definition counts_total (c : OpcuaVariableCounts) : nat := device_variables c + send_variables c + calc_variables c.

Definition count_opcua_variables (ports : list SerialPortConfig) (e : CalcEngine) : OpcuaVariableCounts :=
  {| device_variables := sum_list ((fun p => sum_list ((fun d => length (dc_records d)) <$> sp_devices p)) <$> ports);
     send_variables := length ports;
     calc_variables := length (output_names e) |}.

(** The variables in the order of creation. *)
Definition point_variable (r : Record_) : string * Node :=
  (rec_kks r, new_variable (datatype_and_initial (expected_type_from_str (rec_type r)))).
Definition port_variables (p : SerialPortConfig) : list (string * Node) :=
  (d ← sp_devices p; point_variable <$> dc_records d)
  ++ [(opc_send_node_name (sp_port_number p), new_variable (StringType, VtString "IDLE"))].
Definition calc_variable (d : string * string) : string * Node :=
  (d.1, new_variable (datatype_and_initial (expected_type_from_str d.2))).
Definition planned_variables (ports : list SerialPortConfig) (e : CalcEngine) : list (string * Node) :=
  (ports ≫= port_variables) ++ (calc_variable <$> output_definitions e).

Fixpoint add_data_variables (space : AddressSpace) (variables : list (string * Node)) : AddressSpace * list bool :=
  match variables with
  | [] => (space, [])
  | (id, node) :: variables =>
      let (space, ok) := insert_node space id node in
      let (space, oks) := add_data_variables space variables in
      (space, ok :: oks)
  end.

Record OpcuaNodes := {
  send_node_ids : list (string * string);
  kks_node_map : gmap string string;
  on_counts : OpcuaVariableCounts;
  inserted_variable_count : nat
}.

(** The names of the points and of the outputs, with their nodes. *)
Definition build_kks_node_map (ports : list SerialPortConfig) (e : CalcEngine) : gmap string string :=
  foldl (fun m k => <[k := k]> m) ∅ ((device_points ports).*1 ++ output_names e).

Definition make_writable (node : Node) : option Node :=
  match node with VariableNode t v _ => Some (VariableNode t v true) | _ => None end.

Fixpoint grant_writes (space : AddressSpace) (ids : list (string * string)) : result string AddressSpace :=
  match ids with
  | [] => Ok space
  | (_, id) :: ids =>
      match space !! id ≫= make_writable with
      | Some node => grant_writes (<[id := node]> space) ids
      | None => Err ("未找到写命令节点: " +:+ id)
      end
  end.

Definition create_opcua_nodes (space : AddressSpace) (ports : list SerialPortConfig) (e : CalcEngine)
    : result string (AddressSpace * OpcuaNodes) :=
  let counts := count_opcua_variables ports e in
  let (space, folder) := insert_node space "Devices" ObjectNode in
  if negb folder then Err "创建 OPC UA Devices 文件夹失败"
  else
    let variables := planned_variables ports e in
    let (space, oks) := add_data_variables space variables in
    let inserted := length (filter (fun ok => ok = true) oks) in
    if negb (inserted =? counts_total counts)%nat || negb (length oks =? length variables)%nat then
      let failed_names := take 20 (omap (fun vo => if vo.2 : bool then None else Some vo.1.1) (zip variables oks)) in
      Err ("OPC UA 变量节点创建不完整: 预期 " +:+ pretty (counts_total counts) +:+ ", 成功 " +:+ pretty inserted
           +:+ ", 前 20 个失败节点: [" +:+ join ", " failed_names +:+ "]")
    else
      let ids := (fun p => (sp_port_number p, opc_send_node_name (sp_port_number p))) <$> ports in
      space ← grant_writes space ids;
      Ok (space, {| send_node_ids := ids; kks_node_map := build_kks_node_map ports e; on_counts := counts;
                    inserted_variable_count := inserted |}).

(** The method of a port with its two argument variables; the builder does
    not report a variable that was taken. *)
Definition ArgumentsNode : Node := VariableNode ArgumentType (pushed_data_value VtArguments GoodValue) false.
Definition is_variable (space : AddressSpace) (id : string) : bool :=
  match space !! id with Some (VariableNode _ _ _) => true | _ => false end.

Definition register_send_method (space : AddressSpace) (p : SerialPortConfig) : result string AddressSpace :=
  let method_name := opc_send_method_name (sp_port_number p) in
  let input := method_name +:+ "_Input" in
  let output := method_name +:+ "_Output" in
  let space := (insert_node space input ArgumentsNode).1 in
  let space := (insert_node space output ArgumentsNode).1 in
  let (space, inserted) := insert_node space method_name MethodNode in
  if negb inserted then Err ("创建 OPC UA Method 失败: " +:+ method_name)
  else if negb (is_variable space input) then Err ("OPC UA Method " +:+ method_name +:+ " 缺少 InputArguments")
  else if negb (is_variable space output) then Err ("OPC UA Method " +:+ method_name +:+ " 缺少 OutputArguments")
  else Ok space.

Fixpoint register_methods (space : AddressSpace) (ports : list SerialPortConfig) : result string AddressSpace :=
  match ports with
  | [] => Ok space
  | p :: ports => space ← register_send_method space p; register_methods space ports
  end.

Definition register_send_methods (space : AddressSpace) (ports : list SerialPortConfig) (txs : nat)
    : result string AddressSpace :=
  if negb (length ports =? txs)%nat then
    Err ("OPC UA Method 注册参数不一致: 串口数=" +:+ pretty (length ports) +:+ ", 发送队列数=" +:+ pretty txs)
  else
    let (space, inserted) := insert_node space "Methods" ObjectNode in
    if negb inserted then Err "创建 OPC UA Methods 对象失败" else register_methods space ports.

(** The address space of a starting server: the check, then the nodes. *)
Definition build_address_space (ports : list SerialPortConfig) (e : CalcEngine) (txs : nat)
    : result string (AddressSpace * OpcuaNodes) :=
  _ ← validate_opcua_kks_namespace ports e;
  '(space, nodes) ← create_opcua_nodes ∅ ports e;
  space ← register_send_methods space ports txs;
  Ok (space, nodes).

(** ** Limits and the port of the server *)

Definition OPCUA_LIMIT_MARGIN : Z := 512.
Definition OPCUA_MIN_MAX_MESSAGE_SIZE : Z := 16 * 1024 * 1024.
Definition OPCUA_MIN_MAX_CHUNK_COUNT : Z := 256.
Definition OPCUA_BIND_PORT : Z := 4841.

(** [usize] is 64 bits wide. *)
Definition opcua_limit_target (total_variables : Z) : Z :=
  Z.max (u64_saturating_add total_variables OPCUA_LIMIT_MARGIN) 1000.

Record OpcuaLimits := {
  max_references_per_browse_node : Z;
  max_monitored_items_per_call : Z;
  max_monitored_items_per_sub : Z;
  max_message_size : Z;
  max_chunk_count : Z
}.
Definition configure_opcua_limits (total_variables : Z) : OpcuaLimits :=
  let limit_target := opcua_limit_target total_variables in
  {| max_references_per_browse_node := limit_target; max_monitored_items_per_call := limit_target;
     max_monitored_items_per_sub := limit_target;
     max_message_size := Z.max OPCUA_MIN_MAX_MESSAGE_SIZE (Z.min (limit_target * 2048) u64_max);
     max_chunk_count := OPCUA_MIN_MAX_CHUNK_COUNT |}.

(** The environment variable, if it is set. *)
Definition parse_opcua_bind_port (value : option string) : result string Z :=
  match value with
  | None => Ok OPCUA_BIND_PORT
  | Some t =>
      match (if String.eqb t "" || negb (all_bytes is_ascii_digit t) then None else parse_uint u16_max (chars t)) with
      | Some port => if port =? 0 then Err ("RCD_OPCUA_PORT 必须是 1..65535 的十进制端口") else Ok port
      | None => Err ("RCD_OPCUA_PORT 必须是 1..65535 的十进制端口")
      end
  end.

(** ** The collision check is exact *)

(** The names of all nodes of the application. *)
Definition node_names (ports : list SerialPortConfig) (e : CalcEngine) : list string :=
  (device_points ports).*1 ++ output_names e ++ (send_nodes ports).*1 ++ (planned_infrastructure_nodes ports).*1.

Lemma claim_points l owners dups owners' dups' :
  foldl claim_point (owners, dups) l = (owners', dups') ->
  (dups' = [] <-> dups = [] /\ NoDup l.*1 /\ forall k, k ∈ l.*1 -> owners !! k = None) /\
  forall k, is_Some (owners' !! k) <-> is_Some (owners !! k) \/ k ∈ l.*1.
Proof.
  revert owners dups. induction l as [|[n o] l IH]; intros owners dups.
  - intros [= <- <-]. cbn. split; [|intros k; rewrite elem_of_nil; tauto].
    split; [intros ->; split_and!; [done|constructor|by intros k ?%elem_of_nil]|by intros (-> & _)].
  - cbn [foldl]. unfold claim_point at 2. cbn [fst snd]. destruct (owners !! n) as [prev|] eqn:Hn.
    + intros H. destruct (IH _ _ H) as [Hd Hk]. rewrite Hd. cbn [fmap list_fmap fst]. split.
      * split; [intros (E & _); by destruct dups|]. intros (_ & _ & E). rewrite E in Hn; [done|]. set_solver.
      * intros k. rewrite Hk. set_solver.
    + intros H. destruct (IH _ _ H) as [Hd Hk]. rewrite Hd. cbn [fmap list_fmap fst]. rewrite NoDup_cons. split.
      * split.
        -- intros (-> & Hnd & Hf). split_and!; try done.
           ++ intros Hin. by specialize (Hf _ Hin); rewrite lookup_insert_eq in Hf.
           ++ intros k [->|Hin]%elem_of_cons; [done|]. apply Hf in Hin as [? ?]%lookup_insert_None. done.
        -- intros (-> & [Hnin Hnd] & Hf). split_and!; try done. intros k Hin. apply lookup_insert_None.
           split; [apply Hf; set_solver|]. by intros ->.
      * intros k. rewrite Hk, lookup_insert_is_Some, elem_of_cons. destruct (decide (n = k)); naive_solver.
Qed.

Lemma claim_names devices taken collision l owners dups colls owners' dups' colls' :
  foldl (fun st np => claim_name devices taken collision st np.1 np.2) (owners, dups, colls) l = (owners', dups', colls') ->
  (dups' = [] <-> dups = [] /\ NoDup l.*1 /\ forall k, k ∈ l.*1 -> owners !! k = None) /\
  (colls' = [] <-> colls = [] /\ forall k, k ∈ l.*1 -> devices !! k = None) /\
  forall k, is_Some (owners' !! k) <-> is_Some (owners !! k) \/ k ∈ l.*1.
Proof.
  revert owners dups colls. induction l as [|[n o] l IH]; intros owners dups colls.
  - intros [= <- <- <-]. cbn. split_and!; [| |intros k; rewrite elem_of_nil; tauto].
    + split; [intros ->; split_and!; [done|constructor|by intros k ?%elem_of_nil]|by intros (-> & _)].
    + split; [intros ->; split_and!; [done|by intros k ?%elem_of_nil]|by intros (-> & _)].
  - cbn [foldl]. unfold claim_name at 2. cbn [fst snd]. intros H. destruct (IH _ _ _ H) as (Hd & Hc & Hk).
    cbn [fmap list_fmap fst]. rewrite NoDup_cons. split_and!.
    + rewrite Hd. split.
      * intros (E & Hnd & Hf). assert (Hn : owners !! n = None) by (destruct (owners !! n); [by destruct dups|done]).
        rewrite Hn in E. split_and!; try done.
        -- intros Hin. by specialize (Hf _ Hin); rewrite lookup_insert_eq in Hf.
        -- intros k [->|Hin]%elem_of_cons; [done|]. apply Hf in Hin as [? ?]%lookup_insert_None. done.
      * intros (-> & [Hnin Hnd] & Hf). rewrite (Hf n) by set_solver. split_and!; try done.
        intros k Hin. apply lookup_insert_None. split; [apply Hf; set_solver|]. by intros ->.
    + rewrite Hc. split.
      * intros (E & Hf). assert (Hn : devices !! n = None) by (destruct (devices !! n); [by destruct colls|done]).
        rewrite Hn in E. split; [done|]. by intros k [->|Hin]%elem_of_cons; [|apply Hf].
      * intros (-> & Hf). rewrite (Hf n) by set_solver. split; [done|]. intros k Hin. apply Hf. set_solver.
    + intros k. rewrite Hk, lookup_insert_is_Some, elem_of_cons. destruct (decide (n = k)); naive_solver.
Qed.

Lemma elem_of_keys {A} (m : gmap string A) k : k ∈ (map_to_list m).*1 <-> is_Some (m !! k).
Proof.
  rewrite list_elem_of_fmap. split.
  - intros ([k' v] & -> & Hin). apply elem_of_map_to_list in Hin. by exists v.
  - intros [v Hv]. exists (k, v). split; [done|]. by apply elem_of_map_to_list.
Qed.

Lemma claim_points_all l owners dups :
  foldl claim_point (∅, []) l = (owners, dups) ->
  (dups = [] <-> NoDup l.*1) /\ forall k, owners !! k = None <-> k ∉ l.*1.
Proof.
  intros H. apply claim_points in H as [Hd Ho]. split; [rewrite Hd; split; [tauto|]|].
  - intros Hn. split_and!; [done..|]. intros. apply lookup_empty.
  - intros k. rewrite eq_None_not_Some, Ho, lookup_empty, is_Some_alt. tauto.
Qed.

Lemma claim_names_all devices taken collision l owners dups colls :
  foldl (fun st np => claim_name devices taken collision st np.1 np.2) (∅, [], []) l = (owners, dups, colls) ->
  (dups = [] <-> NoDup l.*1) /\ (colls = [] <-> forall k, k ∈ l.*1 -> devices !! k = None) /\
  forall k, k ∈ (map_to_list owners).*1 <-> k ∈ l.*1.
Proof.
  intros H. apply claim_names in H as (Hd & Hc & Ho). split_and!; [rewrite Hd; split; [tauto|]|rewrite Hc; tauto|].
  - intros Hn. split_and!; [done..|]. intros. apply lookup_empty.
  - intros k. rewrite elem_of_keys, Ho, lookup_empty, is_Some_alt. tauto.
Qed.

Lemma part_nil what shown sep items : part what shown sep items = [] <-> items = [].
Proof. by destruct items. Qed.

Lemma fmap_nil_iff {A B} (f : A -> B) l : f <$> l = [] <-> l = [].
Proof. by destruct l. Qed.

Lemma filter_nil_iff {A} (P : A -> Prop) `{forall x, Decision (P x)} l : filter P l = [] <-> forall x, x ∈ l -> ~ P x.
Proof.
  induction l as [|x l IH]; [split; [by intros _ y ?%elem_of_nil|done]|]. rewrite filter_cons. case_decide as Hx.
  - split; [done|]. intros Hn. destruct (Hn x); [set_solver|done].
  - rewrite IH. set_solver.
Qed.

(** *** The names of send nodes are nobody else's *)

Lemma chars_app a b : chars (a +:+ b) = chars a ++ chars b.
Proof. induction a as [|c a IH]; [done|]. change (c :: chars (a +:+ b) = (c :: chars a) ++ chars b). by rewrite IH. Qed.

Definition tail3 (s : string) : list ascii := take 3 (rev (chars s)).

Lemma tail3_app a b : (3 <= String.length b)%nat -> tail3 (a +:+ b) = tail3 b.
Proof.
  intros H. unfold tail3. rewrite chars_app, rev_app_distr, take_app_le; [done|].
  by rewrite length_rev, <- string_length_chars.
Qed.

Lemma send_name_tail p : tail3 (opc_send_node_name p) = tail3 "_Send".
Proof. apply tail3_app. cbn. lia. Qed.

Lemma infrastructure_tail ports n :
  n ∈ (planned_infrastructure_nodes ports).*1 -> tail3 n <> tail3 "_Send".
Proof.
  unfold planned_infrastructure_nodes. rewrite fmap_app, elem_of_app. intros [H|H].
  - cbn in H. apply elem_of_cons in H as [->|H]; [done|]. apply elem_of_cons in H as [->|H]; [done|]. by apply elem_of_nil in H.
  - apply list_elem_of_fmap in H as ([n' o] & -> & H). apply list_elem_of_bind in H as (p & H & _). cbn [fst].
    repeat (apply elem_of_cons in H as [[= -> ->]|H]); [..|by apply elem_of_nil in H];
      unfold opc_send_method_name; rewrite ?tail3_app by (cbn; lia); done.
Qed.

Lemma send_infrastructure_disjoint ports n :
  n ∈ (send_nodes ports).*1 -> n ∉ (planned_infrastructure_nodes ports).*1.
Proof.
  intros H Hn. apply infrastructure_tail in Hn. apply list_elem_of_fmap in H as ([n' o] & -> & H).
  apply list_elem_of_fmap in H as (p & [= -> ->] & _). cbn [fst] in Hn.
  by rewrite send_name_tail in Hn.
Qed.

Lemma and_iff (A B C D : Prop) : (A <-> B) -> (C <-> D) -> (A /\ C <-> B /\ D).
Proof. tauto. Qed.

#[local] Ltac split_iff :=
  lazymatch goal with |- _ /\ _ <-> _ /\ _ => apply and_iff; [|split_iff] | _ => idtac end.

Lemma refuse_nil parts : refuse parts = Ok tt <-> parts = [].
Proof. by destruct parts. Qed.

Lemma validate_iff ports e :
  validate_opcua_kks_namespace ports e = Ok tt <->
  NoDup (device_points ports).*1 /\ (forall k, k ∈ output_names e -> k ∉ (device_points ports).*1) /\
  NoDup (send_nodes ports).*1 /\ (forall k, k ∈ (send_nodes ports).*1 -> k ∉ (device_points ports).*1) /\
  (forall k, k ∈ (send_nodes ports).*1 -> k ∉ output_names e) /\
  NoDup (planned_infrastructure_nodes ports).*1 /\
  (forall k, k ∈ (planned_infrastructure_nodes ports).*1 -> k ∉ (device_points ports).*1) /\
  (forall k, k ∈ (planned_infrastructure_nodes ports).*1 -> k ∉ output_names e).
Proof.
  unfold validate_opcua_kks_namespace.
  destruct (foldl claim_point _ _) as [owners dups] eqn:Ed. apply claim_points_all in Ed as [Hd Ho].
  destruct (foldl _ _ (send_nodes ports)) as [[sends dsends] csends] eqn:Es. apply claim_names_all in Es as (Hs & Hsc & Hso).
  destruct (foldl _ _ (planned_infrastructure_nodes ports)) as [[infra dinfra] cinfra] eqn:Ei.
  apply claim_names_all in Ei as (Hi & Hic & Hio).
  rewrite refuse_nil, !app_nil, !part_nil, Hd, Hs, Hsc, Hi, Hic.
  split_iff; try done.
  - rewrite filter_nil_iff. split; intros H k Hk; [apply Ho, eq_None_not_Some|apply eq_None_not_Some, Ho]; by apply H.
  - split; intros H k Hk; by apply Ho, H.
  - rewrite filter_nil_iff. split; intros H k Hk; by apply H, Hso.
  - split; intros H k Hk; by apply Ho, H.
  - rewrite fmap_nil_iff, filter_nil_iff. split.
    + intros H k Hk. apply Hio, list_elem_of_fmap in Hk as (no & -> & Hk). by apply H.
    + intros H no Hno. apply H, Hio. by apply list_elem_of_fmap_2.
Qed.

Lemma validated_names config ports e :
  new config = Some (Ok e) ->
  validate_opcua_kks_namespace ports e = Ok tt <-> NoDup (node_names ports e).
Proof.
  intros He%new_engine_ok. destruct He as [[_ Hn] _]. change (NoDup (output_names e)) in Hn.
  rewrite validate_iff. unfold node_names. rewrite !NoDup_app. setoid_rewrite elem_of_app. setoid_rewrite elem_of_app.
  split.
  - intros (Hd & Hod & Hs & Hsd & Hso & Hi & Hid & Hio). split_and!; try done.
    + intros k Hk [H|[H|H]]; [by apply (Hod k)|by apply (Hsd k)|by apply (Hid k)].
    + intros k Hk [H|H]; [by apply (Hso k)|by apply (Hio k)].
    + apply send_infrastructure_disjoint.
  - naive_solver.
Qed.

(** ** The nodes that are built *)

(** The methods of a port with their argument variables. *)
Definition method_nodes (p : SerialPortConfig) : list (string * Node) :=
  let name := opc_send_method_name (sp_port_number p) in
  [(name, MethodNode); (name +:+ "_Input", ArgumentsNode); (name +:+ "_Output", ArgumentsNode)].

Definition send_variable (p : SerialPortConfig) : string * Node :=
  (opc_send_node_name (sp_port_number p), VariableNode StringType (pushed_data_value (VtString "IDLE") GoodValue) true).
Definition all_records (ports : list SerialPortConfig) : list Record_ :=
  p ← ports; d ← sp_devices p; dc_records d.

(** Every node of the application, in the order of [node_names]. *)
Definition planned_nodes (ports : list SerialPortConfig) (e : CalcEngine) : list (string * Node) :=
  (point_variable <$> all_records ports) ++ (calc_variable <$> output_definitions e) ++ (send_variable <$> ports) ++
  [("Devices", ObjectNode); ("Methods", ObjectNode)] ++ (ports ≫= method_nodes).

Lemma points_of_records ports : (device_points ports).*1 = (point_variable <$> all_records ports).*1.
Proof.
  unfold device_points, all_records. rewrite <- list_fmap_compose.
  induction ports as [|p ports IH]; [done|]. cbn [mbind list_bind]. rewrite !fmap_app, IH. f_equal. clear.
  induction (sp_devices p) as [|d ds IH]; [done|]. cbn [mbind list_bind]. rewrite !fmap_app, IH. f_equal.
  by rewrite <- list_fmap_compose.
Qed.

Lemma output_names_definitions e : (calc_variable <$> output_definitions e).*1 = output_names e.
Proof. unfold output_definitions, output_names. by rewrite <- !list_fmap_compose. Qed.

Lemma planned_nodes_names ports e : (planned_nodes ports e).*1 = node_names ports e.
Proof.
  unfold planned_nodes, node_names. rewrite !fmap_app, <- points_of_records, output_names_definitions.
  do 2 f_equal. unfold send_nodes, planned_infrastructure_nodes. rewrite fmap_app. f_equal.
  - by rewrite <- !list_fmap_compose.
  - cbn [app fmap list_fmap fst]. do 2 f_equal.
    induction ports as [|p ports IH]; [done|]. cbn [mbind list_bind]. by rewrite !fmap_app, IH.
Qed.

Lemma add_data_variables_spec vars space space' oks :
  add_data_variables space vars = (space', oks) -> NoDup vars.*1 -> (forall k, k ∈ vars.*1 -> space !! k = None) ->
  oks = replicate (length vars) true /\ (forall k n, (k, n) ∈ vars -> space' !! k = Some n) /\
  (forall k, k ∉ vars.*1 -> space' !! k = space !! k).
Proof.
  revert space oks. induction vars as [|[k n] vars IH]; intros space oks; cbn [add_data_variables].
  - intros [= <- <-] _ _. split_and!; try done. by intros k n ?%elem_of_nil.
  - cbn [fmap list_fmap fst]. intros E [Hk Hnd]%NoDup_cons Hf. unfold insert_node in E. rewrite (Hf k) in E by set_solver.
    destruct (add_data_variables _ vars) as [space1 oks1] eqn:E1. injection E as <- <-.
    destruct (IH _ _ E1 Hnd) as (-> & Hin & Hout).
    { intros k' Hk'. apply lookup_insert_None. split; [apply Hf; set_solver|]. by intros ->. }
    split_and!; [done| |].
    + intros k' n' [[= -> ->]|H]%elem_of_cons; [|by apply Hin]. rewrite Hout by done. apply lookup_insert_eq.
    + intros k' Hk'. rewrite Hout by set_solver. apply lookup_insert_ne. set_solver.
Qed.

Lemma grant_writes_spec ids space :
  NoDup ids.*2 -> (forall k, k ∈ ids.*2 -> exists t v, space !! k = Some (VariableNode t v false)) ->
  exists space', grant_writes space ids = Ok space' /\
    (forall k t v, k ∈ ids.*2 -> space !! k = Some (VariableNode t v false) -> space' !! k = Some (VariableNode t v true)) /\
    (forall k, k ∉ ids.*2 -> space' !! k = space !! k).
Proof.
  revert space. induction ids as [|[c k] ids IH]; intros space; cbn [fmap list_fmap snd grant_writes].
  - intros _ _. exists space. split_and!; [done| |done]. by intros k t v ?%elem_of_nil.
  - intros [Hk Hnd]%NoDup_cons Hv. destruct (Hv k) as (t & v & Hkv); [set_solver|]. rewrite Hkv. cbn [mbind option_bind make_writable].
    destruct (IH (<[k:=VariableNode t v true]> space) Hnd) as (space' & -> & Hin & Hout).
    { intros k' Hk'. destruct (Hv k') as (t' & v' & H'); [set_solver|]. exists t', v'.
      rewrite lookup_insert_ne; [done|]. by intros ->. }
    exists space'. split_and!; [done| |].
    + intros k' t' v' [->|H]%elem_of_cons Hk'.
      * rewrite Hout, lookup_insert_eq by done. congruence.
      * apply Hin; [done|]. rewrite lookup_insert_ne; [done|]. by intros ->.
    + intros k' Hk'. rewrite Hout by set_solver. apply lookup_insert_ne. set_solver.
Qed.

Lemma register_method_spec space p :
  NoDup (method_nodes p).*1 -> (forall k, k ∈ (method_nodes p).*1 -> space !! k = None) ->
  exists space', register_send_method space p = Ok space' /\
    (forall k n, (k, n) ∈ method_nodes p -> space' !! k = Some n) /\
    (forall k, k ∉ (method_nodes p).*1 -> space' !! k = space !! k).
Proof.
  unfold method_nodes, register_send_method. cbn [fmap list_fmap fst]. set (m := opc_send_method_name _).
  set (i := m +:+ "_Input"). set (o := m +:+ "_Output"). clearbody i o. intros Hnd Hf.
  apply NoDup_cons in Hnd as [Hm [Hi _]%NoDup_cons].
  assert (m <> i /\ m <> o /\ i <> o) as (H1 & H2 & H3) by set_solver.
  unfold insert_node. rewrite (Hf i) by set_solver. cbn [fst]. rewrite lookup_insert_ne, (Hf o) by set_solver. cbn [fst].
  rewrite !lookup_insert_ne, (Hf m) by set_solver. cbn [negb]. unfold is_variable.
  rewrite lookup_insert_ne, lookup_insert_ne, lookup_insert_eq by done. cbn [negb].
  rewrite lookup_insert_ne, lookup_insert_eq by done. cbn [negb]. eexists. split_and!; [done| |].
  - intros k n H. repeat (apply elem_of_cons in H as [[= -> ->]|H]); [..|by apply elem_of_nil in H];
      rewrite ?lookup_insert_eq; [done| |]; rewrite lookup_insert_ne by done;
      [rewrite lookup_insert_ne by done|]; by rewrite lookup_insert_eq.
  - intros k Hk. rewrite !lookup_insert_ne by set_solver. done.
Qed.

Lemma register_methods_spec ports space :
  NoDup (ports ≫= method_nodes).*1 -> (forall k, k ∈ (ports ≫= method_nodes).*1 -> space !! k = None) ->
  exists space', register_methods space ports = Ok space' /\
    (forall k n, (k, n) ∈ ports ≫= method_nodes -> space' !! k = Some n) /\
    (forall k, k ∉ (ports ≫= method_nodes).*1 -> space' !! k = space !! k).
Proof.
  revert space. induction ports as [|p ports IH]; intros space.
  - intros _ _. exists space. split_and!; [done| |done]. by intros k n ?%elem_of_nil.
  - cbn [mbind list_bind]. rewrite fmap_app. intros (Hp & Hd & Hr)%NoDup_app Hf.
    destruct (register_method_spec space p Hp) as (s1 & E1 & Hin & Hout); [intros; apply Hf, elem_of_app; by left|].
    destruct (IH s1 Hr) as (s2 & E2 & Hin2 & Hout2).
    { intros k Hk. rewrite Hout by (intros Hk'; by apply (Hd k)). apply Hf, elem_of_app. by right. }
    exists s2. split_and!; [cbn [register_methods]; by rewrite E1| |].
    + intros k n [H|H]%elem_of_app; [|by apply Hin2]. rewrite Hout2; [by apply Hin|].
      intros Hk. apply (Hd k); [|done]. by apply (list_elem_of_fmap_2 fst) in H.
    + intros k [Hk1 Hk2]%not_elem_of_app. by rewrite Hout2, Hout.
Qed.

Lemma counts_planned ports e : counts_total (count_opcua_variables ports e) = length (planned_variables ports e).
Proof.
  unfold counts_total, count_opcua_variables, planned_variables, output_names, output_definitions.
  cbn [device_variables send_variables calc_variables].
  rewrite length_app, !length_fmap. f_equal. induction ports as [|p ports IH]; [done|].
  cbn [fmap list_fmap sum_list mbind list_bind length]. rewrite length_app, <- IH. unfold port_variables. rewrite length_app. cbn [length].
  enough (length (d ← sp_devices p; point_variable <$> dc_records d)
          = sum_list ((fun d => length (dc_records d)) <$> sp_devices p)) as ->; [unfold id; lia|].
  induction (sp_devices p) as [|d ds IHd]; [done|]. cbn [mbind list_bind fmap list_fmap sum_list].
  by rewrite length_app, length_fmap, IHd.
Qed.

Lemma planned_variables_perm ports e :
  planned_variables ports e ≡ₚ
  (point_variable <$> all_records ports) ++ (calc_variable <$> output_definitions e) ++
  ((fun p => (opc_send_node_name (sp_port_number p), new_variable (StringType, VtString "IDLE"))) <$> ports).
Proof.
  unfold planned_variables. rewrite (Permutation_app_comm (calc_variable <$> _)), app_assoc. apply Permutation_app_tail.
  unfold all_records. induction ports as [|p ports IH]; [done|]. cbn [mbind list_bind fmap list_fmap]. rewrite fmap_app, IH.
  unfold port_variables.
  assert (forall ds : list DeviceConfig, (d ← ds; point_variable <$> dc_records d) = point_variable <$> (ds ≫= dc_records)) as ->.
  { induction ds as [|d ds IHd]; [done|]. cbn [mbind list_bind]. by rewrite fmap_app, IHd. }
  rewrite <- !app_assoc. apply Permutation_app_head. cbn [app]. by rewrite <- Permutation_middle.
Qed.

Lemma filter_replicate_true n : filter (fun ok => ok = true) (replicate n true) = replicate n true.
Proof. induction n as [|n IH]; [done|]. cbn [replicate]. by rewrite filter_cons_True, IH. Qed.

(** The variables and the folder of the devices. *)
Definition created_nodes (ports : list SerialPortConfig) (e : CalcEngine) : list (string * Node) :=
  (point_variable <$> all_records ports) ++ (calc_variable <$> output_definitions e) ++ (send_variable <$> ports) ++
  [("Devices", ObjectNode)].

Definition created (ports : list SerialPortConfig) (e : CalcEngine) : OpcuaNodes :=
  {| send_node_ids := (fun p => (sp_port_number p, opc_send_node_name (sp_port_number p))) <$> ports;
     kks_node_map := build_kks_node_map ports e; on_counts := count_opcua_variables ports e;
     inserted_variable_count := length (planned_variables ports e) |}.

(** The variables before the send nodes are made writable. *)
Definition read_only_nodes (ports : list SerialPortConfig) (e : CalcEngine) : list (string * Node) :=
  (point_variable <$> all_records ports) ++ (calc_variable <$> output_definitions e).
Definition send_names (ports : list SerialPortConfig) : list string :=
  (fun p => opc_send_node_name (sp_port_number p)) <$> ports.

Lemma created_names ports e :
  (created_nodes ports e).*1 = (read_only_nodes ports e).*1 ++ send_names ports ++ ["Devices"].
Proof.
  unfold created_nodes, read_only_nodes, send_names. rewrite !fmap_app, <- !app_assoc. do 3 f_equal.
  by rewrite <- list_fmap_compose.
Qed.

Lemma planned_variables_split ports e :
  planned_variables ports e ≡ₚ
  read_only_nodes ports e ++ ((fun k => (k, new_variable (StringType, VtString "IDLE"))) <$> send_names ports).
Proof.
  rewrite planned_variables_perm. unfold read_only_nodes, send_names. rewrite <- app_assoc. by rewrite <- list_fmap_compose.
Qed.

Lemma planned_variables_names ports e :
  (planned_variables ports e).*1 ≡ₚ (read_only_nodes ports e).*1 ++ send_names ports.
Proof. rewrite planned_variables_split, fmap_app, <- list_fmap_compose. by rewrite list_fmap_id. Qed.

Lemma create_nodes_spec ports e :
  NoDup (created_nodes ports e).*1 ->
  exists space, create_opcua_nodes ∅ ports e = Ok (space, created ports e) /\
    (forall k n, (k, n) ∈ created_nodes ports e -> space !! k = Some n) /\
    (forall k, k ∉ (created_nodes ports e).*1 -> space !! k = None).
Proof.
  rewrite created_names, app_assoc. intros (Hv & Hdev & _)%NoDup_app.
  pose proof (NoDup_app (read_only_nodes ports e).*1 (send_names ports)) as [Hsplit _]. destruct (Hsplit Hv) as (_ & Hro & Hs).
  unfold create_opcua_nodes. unfold insert_node at 1. rewrite lookup_empty. cbn [negb].
  destruct (add_data_variables _ _) as [s1 oks] eqn:Ea.
  apply add_data_variables_spec in Ea as (-> & Hin & Hout); [|by rewrite planned_variables_names|].
  2: { intros k Hk. rewrite lookup_insert_ne; [apply lookup_empty|]. intros <-. rewrite planned_variables_names in Hk.
       by apply (Hdev _ Hk), list_elem_of_singleton. }
  rewrite filter_replicate_true, length_replicate, counts_planned, !Nat.eqb_refl. cbn [negb orb].
  assert (Hsend : forall k, k ∈ send_names ports -> s1 !! k = Some (new_variable (StringType, VtString "IDLE"))).
  { intros k Hk. apply Hin. rewrite planned_variables_split. apply elem_of_app. right. apply list_elem_of_fmap. by exists k. }
  destruct (grant_writes_spec ((fun p => (sp_port_number p, opc_send_node_name (sp_port_number p))) <$> ports) s1)
    as (s2 & E2 & Hin2 & Hout2); rewrite <- list_fmap_compose in *; cbn [snd compose] in *.
  { done. }
  { intros k Hk. do 2 eexists. by apply Hsend. }
  change (fmap _ ports) with (send_names ports) in Hin2, Hout2.
  assert (Hro2 : forall k n, (k, n) ∈ read_only_nodes ports e -> s2 !! k = Some n).
  { intros k n Hk. rewrite Hout2.
    - apply Hin. rewrite planned_variables_split. apply elem_of_app. by left.
    - apply Hro. by apply (list_elem_of_fmap_2 fst) in Hk. }
  assert (Hrest : forall k, k ∉ (read_only_nodes ports e).*1 ++ send_names ports -> s2 !! k = (<["Devices" := ObjectNode]> ∅ : AddressSpace) !! k).
  { intros k Hk. rewrite Hout2, Hout; [done| |]; [by rewrite planned_variables_names|]. by apply not_elem_of_app in Hk as [_ ?]. }
  exists s2. split_and!; [by rewrite E2| |].
  - unfold created_nodes. rewrite app_assoc. intros k n [H|[H|H]%elem_of_app]%elem_of_app; [by apply Hro2| |].
    + apply list_elem_of_fmap in H as (p & [= -> ->] & Hp). apply Hin2; [|apply Hsend]; apply list_elem_of_fmap; by exists p.
    + apply list_elem_of_singleton in H as [= -> ->]. rewrite Hrest; [apply lookup_insert_eq|].
      intros Hk. by apply (Hdev _ Hk), list_elem_of_singleton.
  - intros k [Hk Hd]%not_elem_of_app. rewrite Hrest by done. rewrite lookup_insert_ne; [apply lookup_empty|]. set_solver.
Qed.

(** *** The whole address space *)

Lemma created_methods ports e :
  planned_nodes ports e ≡ₚ created_nodes ports e ++ ("Methods", ObjectNode) :: (ports ≫= method_nodes).
Proof. unfold planned_nodes, created_nodes. by rewrite <- !app_assoc. Qed.

Lemma build_nodes ports e :
  NoDup (node_names ports e) ->
  exists space, ('(space, nodes) ← create_opcua_nodes ∅ ports e;
                 space ← register_send_methods space ports (length ports); Ok (space, nodes)) = Ok (space, created ports e) /\
    (forall k n, (k, n) ∈ planned_nodes ports e -> space !! k = Some n) /\
    (forall k, k ∉ node_names ports e -> space !! k = None).
Proof.
  rewrite <- planned_nodes_names, created_methods, fmap_app. cbn [fmap list_fmap fst]. intros (Hc & Hd & Hm)%NoDup_app.
  apply NoDup_cons in Hm as [Hmn Hm]. destruct (create_nodes_spec ports e Hc) as (s1 & E1 & Hin1 & Hout1).
  rewrite E1. unfold register_send_methods. cbn [mbind result_bind]. rewrite Nat.eqb_refl. cbn [negb].
  assert (HM : "Methods" ∉ (created_nodes ports e).*1) by (intros Hk; apply (Hd _ Hk); set_solver).
  unfold insert_node. rewrite (Hout1 "Methods") by done. cbn [negb].
  destruct (register_methods_spec ports (<["Methods":=ObjectNode]> s1) Hm) as (s2 & E2 & Hin2 & Hout2).
  { intros k Hk. rewrite lookup_insert_ne by (by intros <-). apply Hout1. intros Hk'. apply (Hd _ Hk'). by apply elem_of_cons; right. }
  exists s2. rewrite E2. split_and!; [done| |].
  - intros k n H. rewrite created_methods in H. apply elem_of_app in H as [H|[[= -> ->]|H]%elem_of_cons].
    + pose proof (list_elem_of_fmap_2 fst _ _ H) as Hk. cbn [fst] in Hk. rewrite Hout2.
      * rewrite lookup_insert_ne by (by intros <-). by apply Hin1.
      * intros Hk'. apply (Hd _ Hk). by apply elem_of_cons; right.
    + rewrite Hout2 by done. apply lookup_insert_eq.
    + by apply Hin2.
  - intros k Hk. rewrite created_methods, fmap_app in Hk. apply not_elem_of_app in Hk as [Hk [Hk1 Hk2]%not_elem_of_cons].
    rewrite Hout2, lookup_insert_ne by done. by apply Hout1.
Qed.

Lemma kks_node_map_lookup ports e k k' :
  build_kks_node_map ports e !! k = Some k' <-> k' = k /\ (k ∈ (device_points ports).*1 \/ k ∈ output_names e).
Proof.
  unfold build_kks_node_map. rewrite <- elem_of_app. generalize ((device_points ports).*1 ++ output_names e). intros l.
  induction l as [|x l IH] using rev_ind.
  - cbn [foldl]. rewrite lookup_empty, elem_of_nil. naive_solver.
  - rewrite foldl_app. cbn [foldl]. rewrite lookup_insert_Some, elem_of_app, list_elem_of_singleton, IH.
    destruct (decide (x = k)); naive_solver.
Qed.

(** ** Loading *)

(** What a port is after the tables [ts]: its own tables in their order, all
    with its settings. *)
Definition port_of (ts : list DeviceConfig) (p : SerialPortConfig) : Prop :=
  sp_devices p = filter (fun d => com (dc_config d) = sp_port_number p) ts /\ sp_devices p <> [] /\ sp_status p = true /\
  Forall (fun d => baud_rate (dc_config d) = sp_baud_rate p /\ is_special (dc_config d) = sp_is_special p) (sp_devices p).

Record loaded (ts : list DeviceConfig) (configs : gmap string SerialPortConfig) : Prop := {
  ld_port : forall c p, configs !! c = Some p -> sp_port_number p = c /\ port_of ts p;
  ld_all : forall d, d ∈ ts -> is_Some (configs !! com (dc_config d))
}.

Lemma load_table_loaded ts configs file parsed configs' :
  load_table configs file parsed = Ok configs' -> loaded ts configs ->
  exists d, parsed = Ok (dc_config d, dc_records d) /\ loaded (ts ++ [d]) configs'.
Proof.
  unfold load_table. intros H [Hp Ha]. apply bind_Ok in H as ([conf recs] & Hc & H).
  destruct parsed as [pr|]; [|done]. injection Hc as ->. exists {| dc_config := conf; dc_records := recs |}. split; [done|].
  set (d := {| dc_config := conf; dc_records := recs |}) in *.
  set (port := default (from_csv_config conf) (configs !! com conf)) in *.
  destruct (Z.eqb_spec (sp_baud_rate port) (baud_rate conf)) as [Hb|]; [|done].
  destruct (eqb (sp_is_special port) (is_special conf)) eqn:Hs; [|done]. apply eqb_prop in Hs. injection H as <-.
  assert (Hport : sp_port_number port = com conf /\ sp_status port = true /\
                  sp_devices port = filter (fun d => com (dc_config d) = com conf) ts /\
                  Forall (fun d => baud_rate (dc_config d) = sp_baud_rate port /\ is_special (dc_config d) = sp_is_special port) (sp_devices port)).
  { subst port. destruct (configs !! com conf) as [q|] eqn:E; cbn [default] in *.
    - destruct (Hp _ _ E) as [Hn (Hd & _ & Hst & Hf)]. rewrite <- Hn. by split_and!.
    - split_and!; [done..| |constructor]. symmetry. destruct (filter _ ts) as [|d' l] eqn:Ef; [done|].
      assert (Hd : d' ∈ filter (fun d => com (dc_config d) = com conf) ts) by (rewrite Ef; set_solver).
      apply list_elem_of_filter in Hd as [Hd1 Hd2]. apply Ha in Hd2 as [q Hq]. congruence. }
  destruct Hport as (Hn & Hst & Hd & Hf). split.
  - intros c p Hl. destruct (decide (com conf = c)) as [<-|Hne].
    + rewrite lookup_insert_eq in Hl. injection Hl as <-. cbn [push_device sp_port_number]. split; [done|].
      split_and!; cbn [push_device sp_devices sp_port_number sp_status sp_baud_rate sp_is_special].
      * rewrite filter_app, Hn, Hd. by rewrite filter_cons_True.
      * by destruct (sp_devices port).
      * done.
      * apply Forall_app. split; [done|]. apply Forall_singleton. split; [exact (eq_sym Hb)|exact (eq_sym Hs)].
    + rewrite lookup_insert_ne in Hl by done. destruct (Hp _ _ Hl) as [<- (H1 & H2 & H3 & H4)]. split; [done|].
      split_and!; [|done..]. by rewrite filter_app, filter_cons_False, filter_nil, app_nil_r.
  - intros d' [H| ->%list_elem_of_singleton]%elem_of_app; apply lookup_insert_is_Some; cbn [dc_config d].
    + destruct (decide (com conf = com (dc_config d'))); [by left|right]. split; [done|]. by apply Ha.
    + by left.
Qed.

Lemma load_tables_loaded dir files ts configs configs' :
  load_tables dir files configs = Ok configs' -> (forall f, f ∈ files -> is_Some (dir !! f)) -> loaded ts configs ->
  exists ds, Forall2 (fun f d => dir !! f = Some (Ok (dc_config d, dc_records d))) files ds /\ loaded (ts ++ ds) configs'.
Proof.
  revert ts configs. induction files as [|f files IH]; intros ts configs; cbn [load_tables].
  - intros [= <-] _ H. exists []. split; [constructor|]. by rewrite app_nil_r.
  - intros H Hf Hl. destruct (Hf f) as [parsed Hp]; [set_solver|]. rewrite Hp in H. apply bind_Ok in H as (c1 & H1 & H).
    destruct (load_table_loaded _ _ _ _ _ H1 Hl) as (d & -> & Hl1).
    destruct (IH (ts ++ [d]) _ H) as (ds & Hds & Hl2); [intros; apply Hf; set_solver|done|]. exists (d :: ds).
    split; [by constructor|]. by rewrite <- app_assoc in Hl2.
Qed.

Lemma insert_port_perm p ports : insert_port p ports ≡ₚ p :: ports.
Proof. induction ports as [|q ports IH]; simpl; [done|]. case_match; [done|]. rewrite IH. apply Permutation_swap. Qed.
Lemma sort_ports_perm ports : sort_ports ports ≡ₚ ports.
Proof. induction ports as [|p ports IH]; simpl; [done|]. by rewrite insert_port_perm, IH. Qed.

Definition port_le (p q : SerialPortConfig) : Prop := String.leb (sp_port_number p) (sp_port_number q) = true.

Lemma insert_port_sorted p ports : Sorted port_le ports -> Sorted port_le (insert_port p ports).
Proof.
  induction 1 as [|q ports Hs IH Hh]; simpl; [by repeat constructor|].
  destruct (String.leb (sp_port_number p) (sp_port_number q)) eqn:E; [by repeat constructor|].
  constructor; [done|]. destruct (String.leb_total (sp_port_number p) (sp_port_number q)) as [H|H]; [congruence|].
  destruct ports as [|r ports]; simpl; [by constructor|]. case_match; constructor; [done|]. by inversion Hh.
Qed.

Lemma sort_ports_sorted ports : Sorted port_le (sort_ports ports).
Proof. induction ports as [|p ports IH]; simpl; [constructor|]. by apply insert_port_sorted. Qed.

(** ** Properties *)

Lemma address_space_spec config ports e :
  new config = Some (Ok e) ->
  (is_ok (build_address_space ports e (length ports)) = true <-> NoDup (node_names ports e)) /\
  forall space nodes, build_address_space ports e (length ports) = Ok (space, nodes) ->
    (forall k n, space !! k = Some n <-> (k, n) ∈ planned_nodes ports e) /\
    (forall k k', kks_node_map nodes !! k = Some k' <-> k' = k /\ (k ∈ (device_points ports).*1 \/ k ∈ output_names e)) /\
    send_node_ids nodes = (fun p => (sp_port_number p, opc_send_node_name (sp_port_number p))) <$> ports.
Proof.
  intros He. pose proof (validated_names config ports e He) as Hv. unfold build_address_space.
  destruct (validate_opcua_kks_namespace ports e) as [[]|err] eqn:E; cbn [mbind result_bind].
  - destruct (build_nodes ports e) as (space & -> & Hin & Hout); [by apply Hv|]. split; [tauto|].
    intros ? ? [= <- <-]. split_and!; [|apply kks_node_map_lookup|done].
    intros k n. split; [|apply Hin]. intros Hk.
    destruct (decide (k ∈ node_names ports e)) as [Hn|Hn]; [|by rewrite Hout in Hk].
    rewrite <- planned_nodes_names in Hn. apply list_elem_of_fmap in Hn as ([k' n'] & -> & Hn).
    pose proof (Hin _ _ Hn) as Hk'. cbn [fst] in *. by assert (n' = n) as <- by congruence.
  - split; [|done]. split; [done|]. intros H%Hv. done.
Qed.

(** C28: the address space is built exactly when no two nodes share a name.
    For an engine of [CalcEngine::new], the check and the construction succeed
    if and only if the points of all devices, the outputs of the formulas, the
    send nodes and the system nodes all have different names.  Then the space
    holds exactly the planned nodes: each point and each output as a read-only
    variable of its declared type with a zero of that type, each port's send
    node as a writable text IDLE, and each method with its arguments; and the
    map of the value updates knows exactly the points and outputs. *)
Theorem address_space_built config ports e :
  new config = Some (Ok e) ->
  (is_ok (build_address_space ports e (length ports)) = true <-> NoDup (node_names ports e)) /\
  forall space nodes, build_address_space ports e (length ports) = Ok (space, nodes) ->
    (forall k n, space !! k = Some n <-> (k, n) ∈ planned_nodes ports e) /\
    (forall k k', kks_node_map nodes !! k = Some k' <-> k' = k /\ (k ∈ (device_points ports).*1 \/ k ∈ output_names e)) /\
    send_node_ids nodes = (fun p => (sp_port_number p, opc_send_node_name (sp_port_number p))) <$> ports.
Proof. apply address_space_spec. Qed.

Lemma tables_grouped_spec dir ports :
  load_and_group_csv_configs_from_dir dir = Ok ports ->
  exists ts,
    Forall2 (fun file d => dir !! file = Some (Ok (dc_config d, dc_records d))) (sort_strings (read_and_process_files dir)) ts /\
    Sorted port_le ports /\ NoDup (sp_port_number <$> ports) /\ Forall (port_of ts) ports /\
    (forall d, d ∈ ts -> com (dc_config d) ∈ sp_port_number <$> ports).
Proof.
  unfold load_and_group_csv_configs_from_dir. intros H. apply bind_Ok in H as (configs & H & [= <-]).
  destruct (load_tables_loaded dir (sort_strings (read_and_process_files dir)) [] ∅ configs H) as (ts & Hts & [Hp Ha]).
  { intros f Hf. rewrite sort_strings_perm in Hf. apply list_elem_of_filter in Hf as [_ Hf]. by apply elem_of_keys. }
  { split; [by intros c p ?|by intros d ?%elem_of_nil]. }
  assert (Hnames : sp_port_number <$> (map_to_list configs).*2 = (map_to_list configs).*1).
  { rewrite <- list_fmap_compose. apply list_fmap_ext. intros i [c p] Hi. apply list_elem_of_lookup_2, elem_of_map_to_list in Hi.
    by destruct (Hp _ _ Hi). }
  exists ts. split_and!; [done|apply sort_ports_sorted| | |].
  - rewrite sort_ports_perm, Hnames. apply NoDup_fst_map_to_list.
  - rewrite sort_ports_perm. apply Forall_forall. intros p Hin. apply list_elem_of_fmap in Hin as ([c q] & -> & Hin).
    apply elem_of_map_to_list in Hin. by destruct (Hp _ _ Hin).
  - intros d Hd. rewrite sort_ports_perm, Hnames. by apply elem_of_keys, Ha.
Qed.

(** loading groups the tables by port and loses none.  If the directory
    loads, every file whose name is that of a device table was parsed; the
    ports are sorted and have different names; a port's devices are exactly the
    tables that name it, in the order of the file names, and all of them have
    the port's baud rate and mode; and no table is without a port. *)
Theorem tables_grouped dir ports :
  load_and_group_csv_configs_from_dir dir = Ok ports ->
  exists ts,
    Forall2 (fun file d => dir !! file = Some (Ok (dc_config d, dc_records d))) (sort_strings (read_and_process_files dir)) ts /\
    Sorted port_le ports /\ NoDup (sp_port_number <$> ports) /\ Forall (port_of ts) ports /\
    (forall d, d ∈ ts -> com (dc_config d) ∈ sp_port_number <$> ports).
Proof. apply tables_grouped_spec. Qed.

(** No variable is cut off: every limit of the server is above the number of
    its variables, and the port is a port. *)
Lemma limits_cover total : 0 <= total < u64_max - 512 ->
  total < max_references_per_browse_node (configure_opcua_limits total) /\
  total < max_monitored_items_per_sub (configure_opcua_limits total).
Proof. unfold configure_opcua_limits, opcua_limit_target, u64_saturating_add, OPCUA_LIMIT_MARGIN, u64_max. cbn. lia. Qed.

Lemma bind_port_range value port : parse_opcua_bind_port value = Ok port -> 1 <= port <= 65535.
Proof.
  unfold parse_opcua_bind_port. destruct value as [t|]; [|by intros [= <-]]. case_match; [|done].
  destruct (Z.eqb_spec z 0); [done|]. intros [= <-].
  destruct (String.eqb t "" || _); [done|]. apply parse_uint_range in H. unfold u16_max in H. lia.
Qed.

(** ** Witnesses *)

Definition toy_record (kks type_ : string) : Record_ :=
  {| rec_kks := kks; rec_type := type_; rec_f_type := ""; rec_byte_index := 1; rec_bit_index := Single 0; rec_def := 0;
     rec_max := 0; rec_min := 0; rec_byte_order := 0 |}.
Definition toy_conf (port : string) (device : Z) : Config :=
  {| com := port; baud_rate := 9600; is_special := false; com_index := 1; device_id := device; data_len := 1; kks_prefix := "" |}.

(** Two devices at one port and one at another, in files read out of order. *)
Definition toy_dir : Directory :=
  list_to_map [("rcd_b.csv", Ok (toy_conf "/dev/ttyAP0" 2, [toy_record "P2" "uint"]));
               ("rcd_a.csv", Ok (toy_conf "/dev/ttyAP0" 1, [toy_record "x" "uint"]));
               ("rcd_c.csv", Ok (toy_conf "/dev/ttyAP1" 1, [toy_record "P3" "float"]));
               ("notes.csv", Err (MissingHeader "com" 1))].

Definition toy_ports : list SerialPortConfig := match load_and_group_csv_configs_from_dir toy_dir with Ok ps => ps | Err _ => [] end.

Lemma tables_grouped_witness :
  (fun p => (sp_port_number p, (fun d => device_id (dc_config d)) <$> sp_devices p)) <$> toy_ports
    = [("/dev/ttyAP0", [1; 2]); ("/dev/ttyAP1", [1])] /\
  Sorted port_le toy_ports.
Proof.
  split; [vm_compute; reflexivity|].
  destruct (tables_grouped toy_dir toy_ports) as (ts & _ & H & _); [vm_compute; reflexivity|exact H].
Defined.

Definition toy_engine : CalcEngine :=
  match new [make_rule "total" "double" "x + P2" f64_zero] with Some (Ok e) => e | _ => [] end.

Lemma address_space_built_witness :
  exists space nodes, build_address_space toy_ports toy_engine 2 = Ok (space, nodes) /\
    space !! "x" = Some (VariableNode UInt32Type (pushed_data_value (VtUInt32 0) GoodValue) false) /\
    space !! "ttyAP1_Send" = Some (VariableNode StringType (pushed_data_value (VtString "IDLE") GoodValue) true) /\
    kks_node_map nodes !! "total" = Some "total".
Proof.
  assert (He : new [make_rule "total" "double" "x + P2" f64_zero] = Some (Ok toy_engine)) by (vm_compute; reflexivity).
  destruct (address_space_built _ toy_ports toy_engine He) as [_ H].
  destruct (build_address_space toy_ports toy_engine (length toy_ports)) as [[space nodes]|err] eqn:E; [|vm_compute in E; discriminate].
  destruct (H space nodes eq_refl) as (Hs & Hk & _). exists space, nodes. split; [exact E|]. split_and!.
  - apply Hs. vm_compute. constructor.
  - apply Hs. apply list_elem_of_In. vm_compute. tauto.
  - apply Hk. split; [reflexivity|right]. vm_compute. constructor.
Defined.
