(* ===== verification/OpcSync.v ===== *)
(** * Values in the address space (src/src/server/opcua.rs, runtime_cache.rs, broadcast.rs)

    How the statuses of the devices reach the OPC UA variables: the updates
    built from a status, the initial synchronisation, the update task with its
    recovery after a lag, and the workers that feed cache and broadcast
    channel.  Workers and the task interleave in a step relation whose steps are
    the sections between two accesses to cache or channel ([sync_step]); the
    status of a device comes from [parse_status], and is broadcast when
    [should_broadcast] says so, as in [Acquisition].  The channel is tokio's
    broadcast channel for one receiver: a full channel drops its oldest message,
    the next receive reports the lag, and subscribing anew starts at the end.
    Maps are iterated in the order of [map_to_list], which is immaterial. *)

From S2P Require Import Prelude RustFloat RustStr Model Evaluator Engine Runner Csv Protocol Frames Acquisition Namespace.
Open Scope string_scope.
Open Scope Z_scope.
Open Scope list_scope.

(** ** Updates *)

Definition value_to_variant (v : Value) : Variant :=
  match v with
  | VUInt n => VtUInt32 n
  | VBool b => VtBoolean b
  | VFloat f => VtFloat f
  | VDouble f => VtDouble f
  end.

Definition zero_variant_for_value (v : Value) : Variant :=
  match v with
  | VUInt _ => VtUInt32 0
  | VBool _ => VtBoolean false
  | VFloat _ => VtFloat (f32_of_Z 0)
  | VDouble _ => VtDouble f64_zero
  end.

Abbreviation OpcuaValueUpdate := (string * DataValue)%type (only parsing).

Definition available (status : DeviceStatus) : bool := ds_com_status status && ds_device_status status.

Definition device_value (status : DeviceStatus) (unavailable_status : Quality) (val : Value) : DataValue :=
  if available status then pushed_data_value (value_to_variant val) GoodValue
  else
    pushed_data_value
      (if bool_decide (unavailable_status = BadNoCommunication) then zero_variant_for_value val else VtEmpty)
      unavailable_status.

Definition collect_device_updates (status : DeviceStatus) (kks_node_map : gmap string string) (unavailable_status : Quality)
    : list OpcuaValueUpdate :=
  omap (fun kv => (fun node_id => (node_id, device_value status unavailable_status kv.2)) <$> kks_node_map !! kv.1)
    (map_to_list (ds_value status)).

Definition calc_value (unavailable_status : Quality) (val : Value) (valid : bool) : DataValue :=
  pushed_data_value (value_to_variant val) (if valid then GoodValue else unavailable_status).

Definition collect_calc_updates (calc_results : list (string * Value * bool)) (kks_node_map : gmap string string)
    (unavailable_status : Quality) : list OpcuaValueUpdate :=
  omap (fun o => (fun node_id => (node_id, calc_value unavailable_status o.1.2 o.2)) <$> kks_node_map !! o.1.1) calc_results.

(** [None] is a panic of the engine. *)
Definition build_incremental_updates (status : DeviceStatus) (kks_node_map : gmap string string) (calc_runner : CalcRunner)
    : CalcRunner * option (list OpcuaValueUpdate) :=
  let '(calc_runner, outs) := on_update_with_quality calc_runner status in
  (calc_runner,
   outs ← outs;
   Some (collect_device_updates status kks_node_map BadNoCommunication
         ++ collect_calc_updates outs kks_node_map BadNoCommunication)).

Definition build_full_sync_updates (statuses : list DeviceStatus) (kks_node_map : gmap string string)
    (calc_runner : CalcRunner) (unavailable_status : Quality) : CalcRunner * option (list OpcuaValueUpdate) :=
  match statuses with
  | [] => (calc_runner, Some [])
  | _ =>
      let '(calc_runner, outs) := rebuild_from_statuses_with_quality calc_runner statuses in
      (calc_runner,
       outs ← outs;
       Some ((s ← statuses; collect_device_updates s kks_node_map unavailable_status)
             ++ collect_calc_updates outs kks_node_map unavailable_status))
  end.

Definition DeviceStatusKey : Type := string * Z.
Definition status_key (s : DeviceStatus) : string * Z := (ds_com s, ds_device_id s).

(** Each device of each port, with its port. *)
Definition devices_of (ports : list SerialPortConfig) : list (string * DeviceConfig) :=
  p ← ports; (fun d => (sp_port_number p, d)) <$> sp_devices p.
Definition device_key (pd : string * DeviceConfig) : string * Z := (pd.1, device_id (dc_config pd.2)).

Definition build_config_zero_statuses (ports : list SerialPortConfig) : list DeviceStatus :=
  (fun pd =>
     let zero_data := replicate (Z.to_nat (data_len (dc_config pd.2))) 0 in
     {| ds_id := com_index (dc_config pd.2); ds_device_id := device_id (dc_config pd.2); ds_com := pd.1;
        ds_com_status := false; ds_device_status := false;
        ds_value := parse_status zero_data (dc_records pd.2); ds_raw_data := zero_data |}) <$> devices_of ports.

(** The last status of a key wins in the collected map; a status taken for one
    device is removed from it. *)
Fixpoint merge_baselines (baselines : list DeviceStatus) (cached_by_key : gmap (string * Z) DeviceStatus)
    : list DeviceStatus * gset (string * Z) :=
  match baselines with
  | [] => ([], ∅)
  | baseline :: baselines =>
      match cached_by_key !! status_key baseline with
      | Some cached =>
          let (merged, keys) := merge_baselines baselines (delete (status_key baseline) cached_by_key) in
          (cached :: merged, {[status_key baseline]} ∪ keys)
      | None => let (merged, keys) := merge_baselines baselines cached_by_key in (baseline :: merged, keys)
      end
  end.

Definition merge_initial_statuses (ports : list SerialPortConfig) (cached_statuses : list DeviceStatus)
    : list DeviceStatus * gset (string * Z) :=
  merge_baselines (build_config_zero_statuses ports)
    (foldl (fun m s => <[status_key s := s]> m) ∅ cached_statuses).

Definition initial_quality (cached_keys : gset (string * Z)) (s : DeviceStatus) : Quality :=
  if bool_decide (status_key s ∈ cached_keys) then BadNoCommunication else BadWaitingForInitialData.

Definition build_initial_sync_updates (statuses : list DeviceStatus) (cached_keys : gset (string * Z))
    (kks_node_map : gmap string string) (calc_runner : CalcRunner) : CalcRunner * option (list OpcuaValueUpdate) :=
  let calc_unavailable_status :=
    if (size cached_keys <? length statuses)%nat then BadWaitingForInitialData else BadNoCommunication in
  let '(calc_runner, outs) := rebuild_from_statuses_with_quality calc_runner statuses in
  (calc_runner,
   outs ← outs;
   Some ((s ← statuses; collect_device_updates s kks_node_map (initial_quality cached_keys s))
         ++ collect_calc_updates outs kks_node_map calc_unavailable_status)).

(** [set_values]: in order, up to the first node that is missing or no
    variable. *)
Fixpoint set_values (space : AddressSpace) (updates : list OpcuaValueUpdate) : AddressSpace * bool :=
  match updates with
  | [] => (space, true)
  | (id, value) :: updates =>
      match space !! id with
      | Some (VariableNode t _ w) => set_values (<[id := VariableNode t value w]> space) updates
      | _ => (space, false)
      end
  end.

(** ** Cache and channel *)

Definition cache_update (cache : gmap (string * Z) DeviceStatus) (s : DeviceStatus) : gmap (string * Z) DeviceStatus :=
  <[status_key s := s]> cache.
Definition snapshot_statuses (cache : gmap (string * Z) DeviceStatus) : list DeviceStatus := (map_to_list cache).*2.

(** What the receiver of the update task has not read. *)
Record Receiver := { rx_queue : list DeviceStatus; rx_lagged : bool }.
Definition DEFAULT_CAPACITY : nat := 128.

Definition broadcast_send (rx : Receiver) (s : DeviceStatus) : Receiver :=
  if (length (rx_queue rx) <? DEFAULT_CAPACITY)%nat
  then {| rx_queue := rx_queue rx ++ [s]; rx_lagged := rx_lagged rx |}
  else {| rx_queue := tail (rx_queue rx) ++ [s]; rx_lagged := true |}.

Definition discard_pending_broadcasts (rx : Receiver) : Receiver := {| rx_queue := []; rx_lagged := false |}.

(** ** The update task *)

(** Where the task is: the server creates its nodes; it has discarded the old
    broadcasts; it holds the first snapshot; it waits for a message; it has
    discarded the messages it lags behind; it holds a snapshot; it has failed. *)
Inductive Task :=
| Creating
| Starting
| Prewarming (cached : list DeviceStatus)
| Running
| Lagging
| Resyncing (statuses : list DeviceStatus)
| Failed_.

Record SyncWorld := {
  sw_cache : gmap (string * Z) DeviceStatus;
  sw_states : gmap (string * Z) DeviceRuntimeState;
  sw_sending : gmap string DeviceStatus;
  sw_rx : Receiver;
  sw_task : Task;
  sw_runner : CalcRunner;
  sw_space : AddressSpace
}.

Definition with_task (task : Task) (w : SyncWorld) : SyncWorld :=
  {| sw_cache := sw_cache w; sw_states := sw_states w; sw_sending := sw_sending w; sw_rx := sw_rx w; sw_task := task;
     sw_runner := sw_runner w; sw_space := sw_space w |}.
Definition with_rx (rx : Receiver) (w : SyncWorld) : SyncWorld :=
  {| sw_cache := sw_cache w; sw_states := sw_states w; sw_sending := sw_sending w; sw_rx := rx; sw_task := sw_task w;
     sw_runner := sw_runner w; sw_space := sw_space w |}.

(** Updates are written in one batch; a failure or a panic ends the task. *)
Definition apply_updates (w : SyncWorld) (built : CalcRunner * option (list OpcuaValueUpdate)) : SyncWorld :=
  let '(runner, updates) := built in
  let '(space, ok) := match updates with Some us => set_values (sw_space w) us | None => (sw_space w, false) end in
  {| sw_cache := sw_cache w; sw_states := sw_states w; sw_sending := sw_sending w; sw_rx := sw_rx w;
     sw_task := if ok then Running else Failed_; sw_runner := runner; sw_space := space |}.

Section Steps.
Context (ports : list SerialPortConfig) (nodes : gmap string string).

Definition prewarm (cached : list DeviceStatus) (w : SyncWorld) : SyncWorld :=
  let (statuses, keys) := merge_initial_statuses ports cached in
  apply_updates w (build_initial_sync_updates statuses keys nodes (sw_runner w)).

Definition receive_update (status : DeviceStatus) (w : SyncWorld) : SyncWorld :=
  apply_updates w (build_incremental_updates status nodes (sw_runner w)).

Definition resync (statuses : list DeviceStatus) (w : SyncWorld) : SyncWorld :=
  apply_updates w (build_full_sync_updates statuses nodes (sw_runner w) BadNoCommunication).

(** One publication of a worker up to the broadcast: cache first, then the
    decision. *)
Definition device_status (pd : string * DeviceConfig) (data raw : list Z) (com_status dev_status : bool) : DeviceStatus :=
  {| ds_id := com_index (dc_config pd.2); ds_device_id := device_id (dc_config pd.2); ds_com := pd.1;
     ds_com_status := com_status; ds_device_status := dev_status; ds_value := parse_status data (dc_records pd.2);
     ds_raw_data := raw |}.

Definition publish_status (pd : string * DeviceConfig) (data raw : list Z) (com_status dev_status : bool) (w : SyncWorld)
    : SyncWorld :=
  let s := device_status pd data raw com_status dev_status in
  let '(st, yes) := should_broadcast (default device_runtime_new (sw_states w !! device_key pd)) data com_status dev_status in
  {| sw_cache := cache_update (sw_cache w) s;
     sw_states := <[device_key pd := st]> (sw_states w);
     sw_sending := if yes : bool then <[pd.1 := s]> (sw_sending w) else sw_sending w;
     sw_rx := sw_rx w; sw_task := sw_task w; sw_runner := sw_runner w; sw_space := sw_space w |}.

(** Workers and the task, in any order.  [admissible] says which data a device
    may have; a worker that restarts forgets what it broadcast. *)
Inductive sync_step (admissible : DeviceConfig -> list Z -> Prop) : SyncWorld -> SyncWorld -> Prop :=
| ss_publish w pd data raw com_status dev_status :
    pd ∈ devices_of ports -> sw_sending w !! pd.1 = None -> admissible pd.2 data ->
    sync_step admissible w (publish_status pd data raw com_status dev_status w)
| ss_broadcast w port s :
    sw_sending w !! port = Some s ->
    sync_step admissible w
      {| sw_cache := sw_cache w; sw_states := sw_states w; sw_sending := delete port (sw_sending w);
         sw_rx := broadcast_send (sw_rx w) s; sw_task := sw_task w; sw_runner := sw_runner w; sw_space := sw_space w |}
| ss_restart w key :
    sync_step admissible w
      {| sw_cache := sw_cache w; sw_states := delete key (sw_states w); sw_sending := sw_sending w; sw_rx := sw_rx w;
         sw_task := sw_task w; sw_runner := sw_runner w; sw_space := sw_space w |}
| ss_created w :
    sw_task w = Creating ->
    sync_step admissible w (with_task Starting (with_rx (discard_pending_broadcasts (sw_rx w)) w))
| ss_snapshot w :
    sw_task w = Starting -> sync_step admissible w (with_task (Prewarming (snapshot_statuses (sw_cache w))) w)
| ss_prewarm w cached : sw_task w = Prewarming cached -> sync_step admissible w (prewarm cached w)
| ss_receive w s q :
    sw_task w = Running -> rx_lagged (sw_rx w) = false -> rx_queue (sw_rx w) = s :: q ->
    sync_step admissible w (receive_update s (with_rx {| rx_queue := q; rx_lagged := false |} w))
| ss_lag w :
    sw_task w = Running -> rx_lagged (sw_rx w) = true ->
    sync_step admissible w (with_task Lagging (with_rx (discard_pending_broadcasts (sw_rx w)) w))
| ss_lag_snapshot w :
    sw_task w = Lagging -> sync_step admissible w (with_task (Resyncing (snapshot_statuses (sw_cache w))) w)
| ss_resync w statuses : sw_task w = Resyncing statuses -> sync_step admissible w (resync statuses w).

Definition sync_open (e : CalcEngine) (space : AddressSpace) : SyncWorld :=
  {| sw_cache := ∅; sw_states := ∅; sw_sending := ∅; sw_rx := {| rx_queue := []; rx_lagged := false |};
     sw_task := Creating; sw_runner := runner_new e; sw_space := space |}.
End Steps.

Lemma filter_all {A} (P : A -> Prop) `{forall x, Decision (P x)} (l : list A) : Forall P l -> filter P l = l.
Proof. induction 1 as [|x l Hx _ IH]; [done|]. by rewrite filter_cons_True, IH. Qed.

Lemma filter_ext_in {A} (P Q : A -> Prop) `{forall x, Decision (P x)} `{forall x, Decision (Q x)} (l : list A) :
  (forall x, x ∈ l -> P x <-> Q x) -> filter P l = filter Q l.
Proof.
  induction l as [|x l IH]; intros Hl; [done|]. rewrite !filter_cons, IH by set_solver.
  pose proof (Hl x ltac:(set_solver)). do 2 case_decide; tauto.
Qed.

(** ** Writing values *)

(** The value of a variable. *)
Definition node_value (space : AddressSpace) (id : string) : option DataValue :=
  match space !! id with Some (VariableNode _ v _) => Some v | _ => None end.

Definition variant_type (v : Variant) : option DataType :=
  match v with
  | VtEmpty => None
  | VtUInt32 _ => Some UInt32Type
  | VtBoolean _ => Some BooleanType
  | VtFloat _ => Some FloatType
  | VtDouble _ => Some DoubleType
  | VtString _ => Some StringType
  | VtArguments => Some ArgumentType
  end.

(** A value fits a type if it is empty or of the type. *)
Definition fits (t : DataType) (v : DataValue) : Prop := dv_value v = VtEmpty \/ variant_type (dv_value v) = Some t.

Definition typed_space (space : AddressSpace) : Prop :=
  forall id t v w, space !! id = Some (VariableNode t v w) -> fits t v.

(** Two spaces with the same nodes up to the values. *)
Definition same_node (a b : option Node) : Prop :=
  match a, b with
  | Some (VariableNode t _ w), Some (VariableNode t' _ w') => t = t' /\ w = w'
  | a, b => a = b
  end.
Definition same_shape (a b : AddressSpace) : Prop := forall id, same_node (a !! id) (b !! id).

#[export] Instance same_shape_refl : Reflexive same_shape.
Proof. intros a id. unfold same_node. by destruct (a !! id) as [[]|]. Qed.
#[export] Instance same_shape_trans : Transitive same_shape.
Proof.
  intros a b c Hab Hbc id. specialize (Hab id). specialize (Hbc id). unfold same_node in *.
  destruct (a !! id) as [[]|], (b !! id) as [[]|], (c !! id) as [[]|]; naive_solver.
Qed.

#[export] Instance same_shape_sym : Symmetric same_shape.
Proof. intros a b Hab id. specialize (Hab id). unfold same_node in *. destruct (a !! id) as [[]|], (b !! id) as [[]|]; naive_solver. Qed.

Lemma same_space a b : same_shape a b -> (forall id, node_value a id = node_value b id) -> a = b.
Proof.
  intros Hs Hv. apply map_eq. intros id. specialize (Hs id). specialize (Hv id). unfold same_node, node_value in *.
  destruct (a !! id) as [[]|], (b !! id) as [[]|]; naive_solver.
Qed.

(** A variable takes the update. *)
Definition update_ok (space : AddressSpace) (u : string * DataValue) : Prop :=
  exists t v w, space !! u.1 = Some (VariableNode t v w) /\ fits t u.2.

Lemma update_ok_shape a b u : same_shape a b -> update_ok a u -> update_ok b u.
Proof.
  intros H (t & v & w & Hu & Hf). specialize (H u.1). unfold same_node in H. rewrite Hu in H.
  destruct (b !! u.1) as [[]|] eqn:E; try done. destruct H as [-> ->]. by exists type_, value, writable.
Qed.

(** The last value written to a node. *)
Definition last_update (id : string) (us : list (string * DataValue)) : option DataValue :=
  foldl (fun acc u => if decide (u.1 = id) then Some u.2 else acc) None us.

Lemma last_update_app id us vs :
  last_update id (us ++ vs) = match last_update id vs with Some v => Some v | None => last_update id us end.
Proof.
  unfold last_update. rewrite foldl_app. generalize (foldl (fun acc u => if decide (u.1 = id) then Some u.2 else acc) None us) as acc.
  induction vs as [|u vs IH] using rev_ind; intros acc; [done|]. rewrite !foldl_app. cbn [foldl]. case_decide; [done|]. apply IH.
Qed.

Lemma last_update_cons id u us :
  last_update id (u :: us) = match last_update id us with Some v => Some v | None => if decide (u.1 = id) then Some u.2 else None end.
Proof. change (u :: us) with ([u] ++ us). by rewrite last_update_app. Qed.

Lemma last_update_None id us : id ∉ us.*1 -> last_update id us = None.
Proof.
  induction us as [|u us IH]; [done|]. cbn [fmap list_fmap]. intros [Hu Hus]%not_elem_of_cons.
  rewrite last_update_cons, IH, decide_False; done.
Qed.

Lemma last_update_unique id v us : NoDup us.*1 -> (id, v) ∈ us -> last_update id us = Some v.
Proof.
  induction us as [|u us IH]; [by intros _ ?%elem_of_nil|]. cbn [fmap list_fmap]. intros [Hu Hnd]%NoDup_cons Hin.
  rewrite last_update_cons. apply elem_of_cons in Hin as [<-|Hin]; [|by rewrite IH].
  rewrite last_update_None by done. by rewrite decide_True.
Qed.

Lemma set_values_spec us space :
  Forall (update_ok space) us -> typed_space space ->
  exists space', set_values space us = (space', true) /\ same_shape space space' /\ typed_space space' /\
    forall id, node_value space' id = match last_update id us with Some v => Some v | None => node_value space id end.
Proof.
  revert space. induction us as [|[id v] us IH]; intros space Hok Ht.
  - exists space. split_and!; try done.
  - apply Forall_cons in Hok as [(t & v0 & w & Hid & Hfit) Hok]. cbn [fst snd] in Hid, Hfit. cbn [set_values]. rewrite Hid.
    assert (Hshape : same_shape space (<[id := VariableNode t v w]> space)).
    { intros id'. destruct (decide (id = id')) as [<-|Hne].
      - rewrite lookup_insert_eq. unfold same_node. by rewrite Hid.
      - rewrite lookup_insert_ne by done. unfold same_node. by destruct (space !! id') as [[]|]. }
    destruct (IH (<[id := VariableNode t v w]> space)) as (space' & E & Hs & Ht' & Hv).
    + eapply Forall_impl; [exact Hok|]. intros u. by apply update_ok_shape.
    + intros id' t' v' w'. destruct (decide (id = id')) as [<-|Hne].
      * rewrite lookup_insert_eq. by intros [= <- <- <-].
      * rewrite lookup_insert_ne by done. apply Ht.
    + exists space'. split_and!; [done|by etrans|done|]. intros id'. rewrite Hv, last_update_cons. cbn [fst snd].
      destruct (last_update id' us); [done|]. unfold node_value. case_decide as Hd.
      * subst. by rewrite lookup_insert_eq.
      * by rewrite lookup_insert_ne.
Qed.

(** ** A configured server *)

Record configured (ports : list SerialPortConfig) (e : CalcEngine) (nodes : gmap string string) (space : AddressSpace) : Prop := {
  cf_points : NoDup (device_points ports).*1;
  cf_keys : NoDup (device_key <$> devices_of ports);
  cf_outputs : NoDup (output_names e);
  cf_apart : forall k, k ∈ output_names e -> k ∉ (device_points ports).*1;
  cf_nodes : forall k k', nodes !! k = Some k' <-> k' = k /\ (k ∈ (device_points ports).*1 \/ k ∈ output_names e);
  cf_engine : Forall compiled_ok e;
  cf_point : forall r, r ∈ all_records ports ->
    exists v, space !! rec_kks r = Some (VariableNode (datatype_and_initial (expected_type_from_str (rec_type r))).1 v false);
  cf_calc : forall r, r ∈ e ->
    exists v, space !! kks_calc r =
      Some (VariableNode (datatype_and_initial (expected_type_from_str (data_type_as_str (data_type r)))).1 v false);
  cf_typed : typed_space space
}.

Lemma initial_fits t : fits (datatype_and_initial t).1 (pushed_data_value (datatype_and_initial t).2 GoodValue).
Proof. right. by destruct t. Qed.

Lemma built_configured config ports e space nodes :
  new config = Some (Ok e) -> build_address_space ports e (length ports) = Ok (space, nodes) ->
  NoDup (device_key <$> devices_of ports) -> configured ports e (kks_node_map nodes) space.
Proof.
  intros He Hb Hk. destruct (address_space_spec config ports e He) as [Hv H]. destruct (H _ _ Hb) as (Hs & Hn & _).
  assert (Hnd : NoDup (node_names ports e)) by (apply Hv; by rewrite Hb).
  pose proof (new_engine_ok _ _ He) as [[Hc Hu] _]. unfold node_names in Hnd.
  apply NoDup_app in Hnd as (Hp & Hapart & _). split; try done.
  - intros k Hk1 Hk2. apply (Hapart k Hk2). apply elem_of_app. by left.
  - intros r Hr. eexists. apply Hs. unfold planned_nodes. apply elem_of_app. left. by apply (list_elem_of_fmap_2 point_variable).
  - intros r Hr. eexists. apply Hs. unfold planned_nodes. apply elem_of_app. right. apply elem_of_app. left.
    apply (list_elem_of_fmap_2 calc_variable _ (kks_calc r, data_type_as_str (data_type r))).
    by apply (list_elem_of_fmap_2 (fun r => (kks_calc r, data_type_as_str (data_type r)))).
  - intros id t v w Hid. apply Hs in Hid. unfold planned_nodes in Hid. rewrite !elem_of_app in Hid.
    destruct Hid as [Hid|[Hid|[Hid|[Hid|Hid]]]].
    + apply list_elem_of_fmap in Hid as (r & [= -> -> -> ->] & _). apply initial_fits.
    + apply list_elem_of_fmap in Hid as (r & [= -> -> -> ->] & _). apply initial_fits.
    + apply list_elem_of_fmap in Hid as (r & [= -> -> -> ->] & _). by right.
    + apply elem_of_cons in Hid as [[=]|Hid]. apply list_elem_of_singleton in Hid as [=].
    + apply list_elem_of_bind in Hid as (p & Hid & _). unfold method_nodes, ArgumentsNode in Hid.
      repeat (apply elem_of_cons in Hid as [[=]|Hid]); [subst; by right..|by apply elem_of_nil in Hid].
Qed.

Lemma device_points_devices ports :
  device_points ports = pd ← devices_of ports; (fun r => (rec_kks r, device_key pd)) <$> dc_records pd.2.
Proof.
  unfold device_points, devices_of. induction ports as [|p ports IH]; [done|]. cbn [mbind list_bind]. rewrite bind_app, <- IH.
  f_equal. clear. induction (sp_devices p) as [|d ds IH]; [done|]. cbn [mbind list_bind fmap list_fmap]. by rewrite IH.
Qed.

Lemma records_devices ports : all_records ports = pd ← devices_of ports; dc_records pd.2.
Proof.
  unfold all_records, devices_of. induction ports as [|p ports IH]; [done|]. cbn [mbind list_bind]. rewrite bind_app, <- IH.
  f_equal. clear. induction (sp_devices p) as [|d ds IH]; [done|]. cbn [mbind list_bind fmap list_fmap]. by rewrite IH.
Qed.

Lemma parse_status_Some data rs k v :
  parse_status data rs !! k = Some v -> exists r, r ∈ rs /\ rec_kks r = k /\ record_value data r = Some v.
Proof.
  unfold parse_status. induction rs as [|r rs IH] using rev_ind; [done|]. rewrite foldl_app. cbn [foldl].
  destruct (record_value data r) as [x|] eqn:E.
  - rewrite lookup_insert_Some. intros [[<- <-]|[_ H]]; [exists r|]; [set_solver|]. destruct (IH H) as (r' & ? & ?). exists r'. set_solver.
  - intros H. destruct (IH H) as (r' & ? & ?). exists r'. set_solver.
Qed.

(** The data reach every point of the table. *)
Definition covers (d : DeviceConfig) (data : list Z) : Prop := forall r, r ∈ dc_records d -> is_Some (record_value data r).

Lemma parse_status_covers data rs :
  (forall r, r ∈ rs -> is_Some (record_value data r)) -> forall r, r ∈ rs -> is_Some (parse_status data rs !! rec_kks r).
Proof.
  unfold parse_status. induction rs as [|x rs IH] using rev_ind; [by intros _ r ?%elem_of_nil|]. intros Hc r Hr.
  rewrite foldl_app. cbn [foldl]. destruct (Hc x) as [v ->]; [set_solver|]. apply lookup_insert_is_Some.
  destruct (decide (rec_kks x = rec_kks r)) as [|Hne]; [by left|right]. split; [done|].
  apply elem_of_app in Hr as [Hr| ->%list_elem_of_singleton]; [|done]. apply IH; [|done]. intros r' Hr'. apply Hc. set_solver.
Qed.

(** A point's value has the type its node was created with. *)
Lemma record_value_type data r v :
  record_value data r = Some v ->
  variant_type (value_to_variant v) = Some (datatype_and_initial (expected_type_from_str (rec_type r))).1 /\
  variant_type (zero_variant_for_value v) = variant_type (value_to_variant v).
Proof.
  unfold record_value. intros H. apply bind_Some in H as (raw & _ & H). unfold typed_point in H.
  destruct (String.eqb_spec (rec_type r) "uint") as [->|_]; [by injection H as <-|].
  destruct (String.eqb_spec (rec_type r) "bool") as [->|_]; [by injection H as <-|].
  destruct (String.eqb_spec (rec_type r) "float") as [->|_]; [by injection H as <-|done].
Qed.

Lemma output_type r v :
  output_in_range r v ->
  variant_type (value_to_variant v) = Some (datatype_and_initial (expected_type_from_str (data_type_as_str (data_type r)))).1.
Proof. unfold output_in_range. destruct (data_type r); naive_solver. Qed.

(** ** Statuses of configured devices *)

Section Sync.
Context (ports : list SerialPortConfig) (e : CalcEngine) (nodes : gmap string string) (space0 : AddressSpace).
Context (Hcf : configured ports e nodes space0).

Definition status_ok (s : DeviceStatus) : Prop :=
  exists pd data, pd ∈ devices_of ports /\ status_key s = device_key pd /\ ds_value s = parse_status data (dc_records pd.2).

Lemma status_point s k v :
  status_ok s -> ds_value s !! k = Some v ->
  (k, status_key s) ∈ device_points ports /\
  exists r data, r ∈ all_records ports /\ rec_kks r = k /\ record_value data r = Some v.
Proof.
  intros (pd & data & Hpd & Hk & Hv) H. rewrite Hv in H. apply parse_status_Some in H as (r & Hr & <- & Hval). split.
  - rewrite device_points_devices, Hk. apply list_elem_of_bind. exists pd. split; [|done]. apply list_elem_of_fmap. by exists r.
  - exists r, data. split_and!; try done. rewrite records_devices. apply list_elem_of_bind. by exists pd.
Qed.

Lemma status_node s k v : status_ok s -> ds_value s !! k = Some v -> k ∈ (device_points ports).*1 /\ nodes !! k = Some k.
Proof.
  intros Hs Hv. destruct (status_point s k v Hs Hv) as [Hp _]. apply (list_elem_of_fmap_2 fst) in Hp. cbn [fst] in Hp.
  split; [done|]. apply (cf_nodes _ _ _ _ Hcf). tauto.
Qed.

(** No two devices have a point in common. *)
Lemma status_owner s s' k v v' :
  status_ok s -> status_ok s' -> ds_value s !! k = Some v -> ds_value s' !! k = Some v' -> status_key s = status_key s'.
Proof.
  intros Hs Hs' Hv Hv'. destruct (status_point s k v Hs Hv) as [H _]. destruct (status_point s' k v' Hs' Hv') as [H' _].
  pose proof (NoDup_fmap_eq fst _ _ _ (cf_points _ _ _ _ Hcf) H H' eq_refl) as E. exact (f_equal snd E).
Qed.

Lemma last_update_device s q k :
  status_ok s -> last_update k (collect_device_updates s nodes q) = device_value s q <$> ds_value s !! k.
Proof.
  intros Hs. unfold collect_device_updates.
  assert (Hall : forall l : list (string * Value), (forall kv, kv ∈ l -> nodes !! kv.1 = Some kv.1) ->
    omap (fun kv => (fun node_id => (node_id, device_value s q kv.2)) <$> nodes !! kv.1) l
    = (fun kv => (kv.1, device_value s q kv.2)) <$> l).
  { induction l as [|kv l IH]; intros Hl; [done|]. cbn [omap list_omap fmap list_fmap].
    rewrite (Hl kv) by set_solver. cbn. f_equal. apply IH. set_solver. }
  rewrite Hall. 2: { intros [k' v] Hin. apply elem_of_map_to_list in Hin. by destruct (status_node s k' v Hs Hin). }
  destruct (ds_value s !! k) as [v|] eqn:E; cbn [fmap option_fmap].
  - apply last_update_unique.
    + rewrite <- list_fmap_compose. apply NoDup_fst_map_to_list.
    + apply list_elem_of_fmap. exists (k, v). split; [done|]. by apply elem_of_map_to_list.
  - apply last_update_None. rewrite <- list_fmap_compose. intros Hin. apply list_elem_of_fmap in Hin as ([k' v] & -> & Hin).
    apply elem_of_map_to_list in Hin. cbn in E. congruence.
Qed.

Lemma device_updates_ok s q : status_ok s -> Forall (update_ok space0) (collect_device_updates s nodes q).
Proof.
  intros Hs. apply Forall_forall. intros u Hu. apply list_elem_of_omap in Hu as ([k v] & Hin & Hu). cbn [fst snd] in Hu.
  apply elem_of_map_to_list in Hin. destruct (status_node s k v Hs Hin) as [_ Hn]. rewrite Hn in Hu. injection Hu as <-.
  destruct (status_point s k v Hs Hin) as [_ (r & data & Hr & <- & Hval)].
  destruct (cf_point _ _ _ _ Hcf r Hr) as [v0 Hv0]. apply record_value_type in Hval as [Ht Hz].
  exists (datatype_and_initial (expected_type_from_str (rec_type r))).1, v0, false. split; [done|]. cbn [snd].
  unfold device_value, fits. destruct (available s); cbn [dv_value pushed_data_value]; [by right|].
  case_bool_decide; [right; congruence|by left].
Qed.

Lemma calc_updates_ok outs q :
  Forall2 (fun r o => o.1.1 = kks_calc r /\ output_in_range r o.1.2) e outs ->
  Forall (update_ok space0) (collect_calc_updates outs nodes q).
Proof.
  intros Ho. apply Forall_forall. intros u Hu. apply list_elem_of_omap in Hu as (o & Hin & Hu).
  apply list_elem_of_lookup in Hin as [i Hi]. destruct (Forall2_lookup_r _ _ _ _ _ Ho Hi) as (r & Hr & Hk & Hv).
  apply list_elem_of_lookup_2 in Hr. destruct (nodes !! o.1.1) as [n|] eqn:En; [|done]. injection Hu as <-.
  apply (cf_nodes _ _ _ _ Hcf) in En as [-> _]. destruct (cf_calc _ _ _ _ Hcf r Hr) as [v0 Hv0].
  eexists _, v0, false. cbn [fst snd]. rewrite Hk. split; [exact Hv0|]. right. cbn. by apply output_type.
Qed.

Lemma last_update_calc outs q k :
  (fst ∘ fst) <$> outs = output_names e ->
  (forall o, o ∈ outs -> o.1.1 = k -> last_update k (collect_calc_updates outs nodes q) = Some (calc_value q o.1.2 o.2)) /\
  (k ∉ output_names e -> last_update k (collect_calc_updates outs nodes q) = None).
Proof.
  intros Hn. unfold collect_calc_updates.
  assert (Hall : forall l : list (string * Value * bool), (forall o, o ∈ l -> nodes !! o.1.1 = Some o.1.1) ->
    omap (fun o : string * Value * bool => (fun node_id => (node_id, calc_value q o.1.2 o.2)) <$> nodes !! o.1.1) l
    = (fun o => (o.1.1, calc_value q o.1.2 o.2)) <$> l).
  { induction l as [|o l IH]; intros Hl; [done|]. cbn [omap list_omap fmap list_fmap].
    rewrite (Hl o) by set_solver. cbn. f_equal. apply IH. set_solver. }
  rewrite Hall. 2: { intros o Hin. apply (cf_nodes _ _ _ _ Hcf). split; [done|right]. rewrite <- Hn.
    by apply (list_elem_of_fmap_2 (fst ∘ fst)) in Hin. }
  assert (Hnames : ((fun o : string * Value * bool => (o.1.1, calc_value q o.1.2 o.2)) <$> outs).*1 = output_names e).
  { rewrite <- Hn, <- list_fmap_compose. done. }
  split.
  - intros o Ho <-. apply last_update_unique; [rewrite Hnames; apply Hcf|].
    by apply (list_elem_of_fmap_2 (fun o : string * Value * bool => (o.1.1, calc_value q o.1.2 o.2))).
  - intros Hk. apply last_update_None. by rewrite Hnames.
Qed.

(** *** Batches of statuses of different devices *)

Lemma last_update_statuses (l : list DeviceStatus) (q : DeviceStatus -> Quality) k :
  Forall status_ok l -> NoDup (status_key <$> l) ->
  (forall s v, s ∈ l -> ds_value s !! k = Some v ->
     last_update k (s ← l; collect_device_updates s nodes (q s)) = Some (device_value s (q s) v)) /\
  ((forall s, s ∈ l -> ds_value s !! k = None) -> last_update k (s ← l; collect_device_updates s nodes (q s)) = None).
Proof.
  induction l as [|s l IH]; intros Hok Hnd; [split; [by intros s v ?%elem_of_nil|done]|].
  apply Forall_cons in Hok as [Hs Hok]. cbn [fmap list_fmap] in Hnd. apply NoDup_cons in Hnd as [Hk Hnd].
  destruct (IH Hok Hnd) as [IH1 IH2]. cbn [mbind list_bind]. split.
  - intros s' v Hin Hv. rewrite last_update_app. apply elem_of_cons in Hin as [->|Hin]; [|by rewrite (IH1 s' v Hin Hv)].
    rewrite IH2; [rewrite last_update_device by done; by rewrite Hv|]. intros s' Hin. destruct (ds_value s' !! k) as [v'|] eqn:E; [|done].
    exfalso. apply Hk. rewrite Forall_forall in Hok. rewrite (status_owner s s' k v v' Hs (Hok _ Hin) Hv E).
    by apply (list_elem_of_fmap_2 status_key).
  - intros Hn. rewrite last_update_app, IH2 by (intros; apply Hn; set_solver). rewrite last_update_device by done.
    by rewrite Hn by set_solver.
Qed.

Lemma latest_statuses (l : list DeviceStatus) k :
  Forall status_ok l -> NoDup (status_key <$> l) ->
  (forall s v, s ∈ l -> ds_value s !! k = Some v -> latest k l = Some (v, available s)) /\
  ((forall s, s ∈ l -> ds_value s !! k = None) -> latest k l = None).
Proof.
  intros Hok Hnd. unfold latest.
  set (f := fun (acc : option (Value * bool)) s => match ds_value s !! k with
              Some v => Some (v, ds_com_status s && ds_device_status s) | None => acc end).
  assert (Hnone : forall l acc, (forall s, s ∈ l -> ds_value s !! k = None) -> foldl f acc l = acc).
  { clear. induction l as [|s l IH]; intros acc Hn; [done|]. cbn [foldl]. unfold f at 2. rewrite (Hn s) by set_solver. apply IH. set_solver. }
  split; [|by intros; apply Hnone]. generalize (@None (Value * bool)) as acc.
  induction l as [|s l IH]; intros acc s' v Hin Hv; [by apply elem_of_nil in Hin|]. cbn [foldl].
  apply Forall_cons in Hok as [Hs Hok]. cbn [fmap list_fmap] in Hnd. apply NoDup_cons in Hnd as [Hk Hnd].
  apply elem_of_cons in Hin as [->|Hin]; [|by eapply IH]. rewrite Hnone; [unfold f; by rewrite Hv|].
  intros s' Hin. destruct (ds_value s' !! k) as [v'|] eqn:E; [|done].
  exfalso. apply Hk. rewrite Forall_forall in Hok. rewrite (status_owner s s' k v v' Hs (Hok _ Hin) Hv E).
  by apply (list_elem_of_fmap_2 status_key).
Qed.

(** ** The runner and a batch of updates *)

Definition points : list string := (device_points ports).*1.

Record runner_ok (r : CalcRunner) : Prop := {
  ro_engine : engine r = e;
  ro_vars : forall k, is_Some (global_vars r !! k) \/ is_Some (valid_vars r !! k) -> k ∈ points;
  ro_idle : is_empty e = true -> r = runner_new e
}.

Lemma run_total r : runner_ok r ->
  exists outs, run_with_quality r = Some outs /\
    Forall2 (fun r o => o.1.1 = kks_calc r /\ output_in_range r o.1.2) e outs /\ (fst ∘ fst) <$> outs = output_names e.
Proof.
  intros [He _ _]. unfold run_with_quality. rewrite run_cycle_with_quality_cycle, He.
  destruct (cycle_Some e (global_vars r) (valid_vars r) (cf_engine _ _ _ _ Hcf)) as (outs & Hc & Hr).
  exists outs. split_and!; [done..|]. by eapply cycle_names.
Qed.

Lemma merge_runner_ok r s : is_empty e = false -> runner_ok r -> status_ok s -> runner_ok (merge_status r s).
Proof.
  intros Hne [He Hv _] Hs. split; [done| |by rewrite Hne]. intros k. cbn [merge_status global_vars valid_vars].
  rewrite merge_values_lookup, merge_validity_lookup. destruct (ds_value s !! k) as [v|] eqn:E; [|apply Hv].
  intros _. by destruct (status_node s k v Hs E).
Qed.

Lemma fold_runner_ok r l : is_empty e = false -> runner_ok r -> Forall status_ok l -> runner_ok (foldl merge_status r l).
Proof.
  intros Hne. revert r. induction l as [|s l IH]; intros r Hr Hl; [done|]. apply Forall_cons in Hl as [??].
  apply IH; [by apply merge_runner_ok|done].
Qed.

Lemma new_runner_ok : runner_ok (runner_new e).
Proof. split; [done| |done]. intros k. cbn. rewrite !lookup_empty. by intros [[? ?]|[? ?]]. Qed.

(** One status: the table is merged unless there is nothing to compute. *)
Lemma on_update_spec r s : runner_ok r -> status_ok s ->
  exists r' outs, on_update_with_quality r s = (r', Some outs) /\ runner_ok r' /\ run_with_quality r' = Some outs /\
    (is_empty e = false -> r' = merge_status r s).
Proof.
  intros Hr Hs. unfold on_update_with_quality. rewrite (ro_engine _ Hr). destruct (is_empty e) eqn:Ee.
  - exists r, []. split_and!; try done. destruct (run_total r Hr) as (outs & -> & H & _). destruct e; [|done]. by inversion H.
  - pose proof (merge_runner_ok r s Ee Hr Hs) as Hm. destruct (run_total _ Hm) as (outs & Ho & _).
    exists (merge_status r s), outs. by rewrite Ho.
Qed.

Lemma rebuild_spec r l : runner_ok r -> Forall status_ok l ->
  exists r' outs, rebuild_from_statuses_with_quality r l = (r', Some outs) /\ runner_ok r' /\ run_with_quality r' = Some outs /\
    (is_empty e = false -> r' = foldl merge_status (runner_new e) l).
Proof.
  intros Hr Hl. unfold rebuild_from_statuses_with_quality. rewrite (ro_engine _ Hr). cbn [engine runner_new].
  pose proof new_runner_ok as Hn. destruct (is_empty e) eqn:Ee.
  - exists (runner_new e), []. split_and!; try done.
    destruct (run_total _ Hn) as (outs & -> & H & _). destruct e; [|done]. by inversion H.
  - pose proof (fold_runner_ok _ l Ee Hn Hl) as Hm. destruct (run_total _ Hm) as (outs & Ho & _).
    exists (foldl merge_status (runner_new e) l), outs. by rewrite Ho.
Qed.

Record base_ok (w : SyncWorld) : Prop := {
  bo_shape : same_shape space0 (sw_space w);
  bo_typed : typed_space (sw_space w);
  bo_runner : runner_ok (sw_runner w)
}.

Lemma apply_spec w r us :
  base_ok w -> runner_ok r -> Forall (update_ok space0) us ->
  base_ok (apply_updates w (r, Some us)) /\ sw_task (apply_updates w (r, Some us)) = Running /\
  sw_runner (apply_updates w (r, Some us)) = r /\
  forall k, node_value (sw_space (apply_updates w (r, Some us))) k
            = match last_update k us with Some v => Some v | None => node_value (sw_space w) k end.
Proof.
  intros [Hsh Ht Hr0] Hr Hus. unfold apply_updates.
  destruct (set_values_spec us (sw_space w)) as (space' & -> & Hs & Ht' & Hv); [|done|].
  { eapply Forall_impl; [exact Hus|]. intros u. by apply update_ok_shape. }
  split_and!; try done. split; try done. by etrans.
Qed.

(** ** What the nodes show *)

(** The nodes and the table hold, for each device of [A], its status there;
    the outputs are those of the table. *)
Record shows (A : gmap (string * Z) (DeviceStatus * Quality)) (cq : Quality) (w : SyncWorld) : Prop := {
  sh_status : forall k s q, A !! k = Some (s, q) -> status_key s = k /\ status_ok s;
  sh_nodes : forall k s q id v, A !! k = Some (s, q) -> ds_value s !! id = Some v ->
    node_value (sw_space w) id = Some (device_value s q v);
  sh_vars : forall k s q id v, is_empty e = false -> A !! k = Some (s, q) -> ds_value s !! id = Some v ->
    global_vars (sw_runner w) !! id = Some (from_model_value v) /\ valid_vars (sw_runner w) !! id = Some (available s);
  sh_calc : forall outs o, run_with_quality (sw_runner w) = Some outs -> o ∈ outs ->
    node_value (sw_space w) o.1.1 = Some (calc_value cq o.1.2 o.2)
}.

Lemma point_not_output s k v : status_ok s -> ds_value s !! k = Some v -> k ∉ output_names e.
Proof. intros Hs Hv Hk. destruct (status_node s k v Hs Hv) as [Hp _]. by apply (cf_apart _ _ _ _ Hcf k). Qed.

Lemma receive_shows w s : base_ok w -> status_ok s ->
  base_ok (receive_update nodes s w) /\ sw_task (receive_update nodes s w) = Running /\
  forall A cq, shows A cq w -> shows (<[status_key s := (s, BadNoCommunication)]> A) BadNoCommunication (receive_update nodes s w).
Proof.
  intros Hb Hs. unfold receive_update, build_incremental_updates.
  destruct (on_update_spec _ s (bo_runner _ Hb) Hs) as (r & outs & -> & Hr & Hrun & Hmerge).
  destruct (run_total r Hr) as (outs' & Hrun' & Hf & Hn). rewrite Hrun in Hrun'. injection Hrun' as <-. cbn [mbind option_bind].
  set (us := collect_device_updates s nodes BadNoCommunication ++ collect_calc_updates outs nodes BadNoCommunication).
  destruct (apply_spec w r us Hb Hr) as (Hb' & Ht & Hr' & Hv); [apply Forall_app; split; [by apply device_updates_ok|by apply calc_updates_ok]|].
  split_and!; [done..|]. intros A cq [Ha Hnode Hvars Hcalc]. set (w' := apply_updates w (r, Some us)) in *.
  assert (Hpt : forall k, k ∉ output_names e -> node_value (sw_space w') k =
            match ds_value s !! k with Some v => Some (device_value s BadNoCommunication v) | None => node_value (sw_space w) k end).
  { intros k Hk. rewrite Hv. unfold us. rewrite last_update_app. destruct (last_update_calc outs BadNoCommunication k Hn) as [_ ->]; [|done].
    rewrite last_update_device by done. by destruct (ds_value s !! k). }
  assert (Hother : forall k s' q id v, status_key s <> k -> A !! k = Some (s', q) -> ds_value s' !! id = Some v -> ds_value s !! id = None).
  { intros k s' q id v Hne HA Hid. destruct (ds_value s !! id) as [v'|] eqn:E; [|done]. destruct (Ha _ _ _ HA) as [Hk Hs'].
    destruct Hne. rewrite <- Hk. by eapply status_owner. }
  split.
  - intros k s' q. rewrite lookup_insert_Some. intros [[<- [= <- <-]]|[_ H]]; [done|]. by eapply Ha.
  - intros k s' q id v. rewrite lookup_insert_Some. intros [[<- [= <- <-]]|[Hne H]] Hid.
    + rewrite Hpt by (by eapply point_not_output). by rewrite Hid.
    + rewrite Hpt by (eapply point_not_output; [by eapply Ha|done]). rewrite (Hother _ _ _ _ _ Hne H Hid). by eapply Hnode.
  - intros k s' q id v He. rewrite lookup_insert_Some, Hr', (Hmerge He). cbn [merge_status global_vars valid_vars].
    rewrite merge_values_lookup, merge_validity_lookup. intros [[<- [= <- <-]]|[Hne H]] Hid.
    + by rewrite Hid.
    + rewrite (Hother _ _ _ _ _ Hne H Hid). by eapply Hvars.
  - intros outs' o. rewrite Hr', Hrun. intros [= <-] Ho. rewrite Hv. unfold us. rewrite last_update_app.
    destruct (last_update_calc outs BadNoCommunication o.1.1 Hn) as [H _]. by rewrite (H o Ho eq_refl).
Qed.

(** The devices of a batch with the status code for the unavailable. *)
Definition shown_by (l : list DeviceStatus) (q : DeviceStatus -> Quality) : gmap (string * Z) (DeviceStatus * Quality) :=
  list_to_map ((fun s => (status_key s, (s, q s))) <$> l).

Lemma shown_by_lookup l q k s q' : NoDup (status_key <$> l) ->
  shown_by l q !! k = Some (s, q') <-> s ∈ l /\ status_key s = k /\ q s = q'.
Proof.
  intros Hnd. unfold shown_by. rewrite <- elem_of_list_to_map, list_elem_of_fmap by (by rewrite <- list_fmap_compose).
  split; [by intros (s' & [= -> -> ->] & Hin)|]. intros (Hin & <- & <-). by exists s.
Qed.

Lemma batch_shows w l (q : DeviceStatus -> Quality) cq r outs :
  base_ok w -> Forall status_ok l -> NoDup (status_key <$> l) ->
  rebuild_from_statuses_with_quality (sw_runner w) l = (r, Some outs) ->
  let w' := apply_updates w (r, Some ((s ← l; collect_device_updates s nodes (q s)) ++ collect_calc_updates outs nodes cq)) in
  base_ok w' /\ sw_task w' = Running /\ shows (shown_by l q) cq w' /\
  forall id, id ∉ points -> id ∉ output_names e -> node_value (sw_space w') id = node_value (sw_space w) id.
Proof.
  intros Hb Hl Hnd Hre. destruct (rebuild_spec _ l (bo_runner _ Hb) Hl) as (r' & outs' & Hre' & Hr & Hrun & Hmerge).
  rewrite Hre in Hre'. injection Hre' as <- <-.
  destruct (run_total r Hr) as (outs' & Hrun' & Hf & Hn). rewrite Hrun in Hrun'. injection Hrun' as <-.
  set (us := (s ← l; collect_device_updates s nodes (q s)) ++ collect_calc_updates outs nodes cq). intros w'.
  destruct (apply_spec w r us Hb Hr) as (Hb' & Ht & Hr' & Hv).
  { apply Forall_app. split; [|by apply calc_updates_ok]. apply Forall_forall. intros u Hu.
    apply list_elem_of_bind in Hu as (s & Hu & Hs). rewrite Forall_forall in Hl. specialize (Hl s Hs).
    apply (device_updates_ok s (q s)) in Hl. rewrite Forall_forall in Hl. by apply Hl. }
  rewrite Forall_forall in Hl. split_and!; [done..| |].
  2: { intros id Hp Ho. unfold w'. rewrite Hv. unfold us. rewrite last_update_app. destruct (last_update_calc outs cq id Hn) as [_ ->]; [|done].
       destruct (last_update_statuses l q id) as [_ Hnone]; [by apply Forall_forall|done|]. rewrite Hnone; [done|]. intros s Hs.
       destruct (ds_value s !! id) as [v|] eqn:E; [|done]. destruct Hp. by eapply (status_node s id v); [apply Hl|]. }
  split.
  - intros k s q'. rewrite shown_by_lookup by done. intros (Hin & <- & _). split; [done|by apply Hl].
  - intros k s q' id v. rewrite shown_by_lookup by done. intros (Hin & <- & <-) Hid. unfold w'. rewrite Hv. unfold us.
    rewrite last_update_app. destruct (last_update_calc outs cq id Hn) as [_ ->]; [|by eapply point_not_output; [apply Hl|]].
    destruct (last_update_statuses l q id) as [H _]; [by apply Forall_forall|done|]. by rewrite (H s v).
  - intros k s q' id v He. rewrite shown_by_lookup by done. intros (Hin & <- & _) Hid. unfold w'. rewrite Hr', (Hmerge He).
    destruct (fold_merge_lookup (runner_new e) l id None) as [Hg Hvl]; [done..|]. fold (latest id l) in Hg, Hvl.
    destruct (latest_statuses l id) as [H _]; [by apply Forall_forall|done|]. rewrite (H s v Hin Hid) in Hg, Hvl. by rewrite Hg, Hvl.
  - intros outs' o. unfold w'. rewrite Hr', Hrun. intros [= <-] Ho. rewrite Hv. unfold us. rewrite last_update_app.
    destruct (last_update_calc outs cq o.1.1 Hn) as [H _]. by rewrite (H o Ho eq_refl).
Qed.

(** ** The first synchronisation *)

Lemma collected_lookup (l : list DeviceStatus) k s : NoDup (status_key <$> l) ->
  foldl (fun m s => <[status_key s := s]> m) (∅ : gmap (string * Z) DeviceStatus) l !! k = Some s <-> s ∈ l /\ status_key s = k.
Proof.
  induction l as [|x l IH] using rev_ind; intros Hnd; [cbn [foldl]; rewrite lookup_empty, elem_of_nil; naive_solver|].
  rewrite fmap_app in Hnd. apply NoDup_app in Hnd as (Hnd & Hx & _). rewrite foldl_app. cbn [foldl].
  rewrite lookup_insert_Some, (IH Hnd), elem_of_app, list_elem_of_singleton. split; [naive_solver|].
  intros [[Hin| ->] <-]; [right|by left]. split_and!; [|done..]. intros Heq. apply (Hx (status_key s)); [by apply list_elem_of_fmap_2|].
  rewrite <- Heq. cbn. set_solver.
Qed.

Lemma merge_baselines_spec bs m : NoDup (status_key <$> bs) ->
  merge_baselines bs m = ((fun b => default b (m !! status_key b)) <$> bs,
                          list_to_set (filter (fun k => is_Some (m !! k)) (status_key <$> bs))).
Proof.
  revert m. induction bs as [|b bs IH]; intros m Hnd; [done|]. cbn [fmap list_fmap] in Hnd. apply NoDup_cons in Hnd as [Hb Hnd].
  cbn [merge_baselines fmap list_fmap]. destruct (m !! status_key b) as [c|] eqn:E.
  - rewrite IH, filter_cons_True by (done || by rewrite E). cbn [list_to_set default]. f_equal.
    + f_equal. apply list_fmap_ext. intros i b' Hi. rewrite lookup_delete_ne; [done|]. intros Heq. apply Hb. rewrite Heq.
      by apply list_elem_of_fmap_2, list_elem_of_lookup_2 with i.
    + f_equal. f_equal. apply filter_ext_in. intros k Hk. rewrite lookup_delete_ne; [done|]. by intros <-.
  - rewrite IH, filter_cons_False by (done || rewrite E; by intros [? ?]). done.
Qed.

Lemma zero_statuses_keys : status_key <$> build_config_zero_statuses ports = device_key <$> devices_of ports.
Proof. unfold build_config_zero_statuses. by rewrite <- list_fmap_compose. Qed.

Lemma zero_statuses_ok : Forall status_ok (build_config_zero_statuses ports).
Proof.
  apply Forall_forall. intros s Hs. apply list_elem_of_fmap in Hs as (pd & -> & Hpd). by eexists pd, _.
Qed.

Lemma prewarm_shows w l : base_ok w -> Forall status_ok l -> NoDup (status_key <$> l) ->
  base_ok (prewarm ports nodes l w) /\ sw_task (prewarm ports nodes l w) = Running /\
  exists A cq, shows A cq (prewarm ports nodes l w) /\
    (forall s, s ∈ l -> A !! status_key s = Some (s, BadNoCommunication)) /\
    (cq = BadNoCommunication \/ exists pd s, pd ∈ devices_of ports /\ A !! device_key pd = Some (s, BadWaitingForInitialData)).
Proof.
  intros Hb Hl Hnd. unfold prewarm, merge_initial_statuses. pose proof zero_statuses_keys as Hk.
  assert (Hknd : NoDup (status_key <$> build_config_zero_statuses ports)) by (rewrite Hk; apply Hcf).
  rewrite merge_baselines_spec by done. set (m := foldl _ ∅ l). set (bs := build_config_zero_statuses ports) in *.
  set (keys := list_to_set _). set (sts := _ <$> bs).
  assert (Hm : forall k s, m !! k = Some s <-> s ∈ l /\ status_key s = k) by (intros; by apply collected_lookup).
  assert (Hkeys : forall k, k ∈ keys <-> k ∈ device_key <$> devices_of ports /\ is_Some (m !! k)).
  { intros k. unfold keys. rewrite elem_of_list_to_set, list_elem_of_filter, Hk. tauto. }
  assert (Hmerged : forall b, status_key (default b (m !! status_key b)) = status_key b).
  { intros b. destruct (m !! status_key b) as [c|] eqn:E; [|done]. by apply Hm in E as [_ E]. }
  assert (Hstk : status_key <$> sts = status_key <$> bs).
  { unfold sts. rewrite <- list_fmap_compose. apply list_fmap_ext. intros i b _. apply Hmerged. }
  assert (Hsts : Forall status_ok sts).
  { apply Forall_forall. intros s Hs. apply list_elem_of_fmap in Hs as (b & -> & Hin). destruct (m !! status_key b) as [c|] eqn:E.
    - apply Hm in E as [E _]. rewrite Forall_forall in Hl. by apply Hl.
    - pose proof zero_statuses_ok as Hz. rewrite Forall_forall in Hz. by apply Hz. }
  destruct (rebuild_spec _ sts (bo_runner _ Hb) Hsts) as (r & outs & Hre & _). unfold build_initial_sync_updates. rewrite Hre.
  cbn [mbind option_bind]. set (cq := if (_ <? _)%nat then _ else _).
  destruct (batch_shows w sts (initial_quality keys) cq r outs Hb Hsts) as (Hb' & Ht & Hsh & _); [by rewrite Hstk|done|].
  split_and!; [done..|]. exists (shown_by sts (initial_quality keys)), cq. split_and!; [done| |].
  - intros s Hs. rewrite shown_by_lookup by (by rewrite Hstk).
    assert (Hms : m !! status_key s = Some s) by (by apply Hm).
    assert (Hd : status_key s ∈ device_key <$> devices_of ports).
    { rewrite Forall_forall in Hl. destruct (Hl s Hs) as (pd & _ & Hpd & -> & _). by apply list_elem_of_fmap_2. }
    split_and!; [|done|].
    + pose proof Hd as Hb2. rewrite <- Hk in Hb2. apply list_elem_of_fmap in Hb2 as (b & Hkb & Hbin). apply list_elem_of_fmap.
      exists b. split; [|done]. by rewrite <- Hkb, Hms.
    + unfold initial_quality. rewrite bool_decide_eq_true_2; [done|]. apply Hkeys. by rewrite Hms.
  - unfold cq. destruct (Nat.ltb_spec (size keys) (length sts)) as [Hlt|_]; [right|by left].
    destruct (decide (Forall (fun k => is_Some (m !! k)) (device_key <$> devices_of ports))) as [Hall|Hex].
    + exfalso. unfold keys in Hlt. rewrite size_list_to_set in Hlt by (by apply NoDup_filter).
      rewrite filter_all, length_fmap in Hlt; [unfold sts in Hlt; rewrite length_fmap in Hlt; lia|]. by rewrite Hk.
    + apply not_Forall_Exists in Hex; [|apply _]. apply Exists_exists in Hex as (k & Hk1 & Hk2).
      pose proof Hk1 as Hk3. apply list_elem_of_fmap in Hk3 as (pd & -> & Hpd). rewrite <- Hk in Hk1.
      apply list_elem_of_fmap in Hk1 as (b & Hkb & Hbin). exists pd, b. split; [done|]. rewrite shown_by_lookup by (by rewrite Hstk).
      split_and!; [|by rewrite Hkb|].
      * apply list_elem_of_fmap. exists b. split; [|done]. rewrite <- Hkb. by destruct (m !! device_key pd) as [x|] eqn:E; [destruct Hk2; exists x|].
      * unfold initial_quality. rewrite bool_decide_eq_false_2; [done|]. rewrite <- Hkb, Hkeys. intros [_ H]. by apply Hk2.
Qed.

Lemma resync_shows w l : base_ok w -> Forall status_ok l -> NoDup (status_key <$> l) -> l <> [] ->
  base_ok (resync nodes l w) /\ sw_task (resync nodes l w) = Running /\
  shows (shown_by l (fun _ => BadNoCommunication)) BadNoCommunication (resync nodes l w) /\
  forall id, id ∉ points -> id ∉ output_names e -> node_value (sw_space (resync nodes l w)) id = node_value (sw_space w) id.
Proof.
  intros Hb Hl Hnd Hne. unfold resync, build_full_sync_updates. destruct l as [|s l]; [done|].
  destruct (rebuild_spec _ (s :: l) (bo_runner _ Hb) Hl) as (r & outs & Hre & _). rewrite Hre. cbn [mbind option_bind].
  by apply (batch_shows w (s :: l) (fun _ => BadNoCommunication) BadNoCommunication r outs).
Qed.

(** ** The invariant *)

Context (admissible : DeviceConfig -> list Z -> Prop).

Definition same_view (a b : DeviceStatus) : Prop :=
  ds_value a = ds_value b /\ ds_com_status a = ds_com_status b /\ ds_device_status a = ds_device_status b.

Lemma same_view_value a b q v : same_view a b -> device_value a q v = device_value b q v.
Proof. intros (_ & H1 & H2). unfold device_value, available. by rewrite H1, H2. Qed.

Lemma should_broadcast_spec st data c d st' yes :
  should_broadcast st data c d = (st', yes) ->
  last_data st' = data /\ last_com_status st' = Some c /\ last_device_status st' = Some d /\
  (yes = false -> last_data st = data /\ last_com_status st = Some c /\ last_device_status st = Some d).
Proof.
  unfold should_broadcast. destruct (bool_decide (data = last_data st)) eqn:E1; cbn [andb].
  - apply bool_decide_eq_true in E1 as ->. destruct (bool_decide (last_com_status st = Some c)) eqn:E2; cbn [negb orb].
    + apply bool_decide_eq_true in E2. destruct (bool_decide (last_device_status st = Some d)) eqn:E3; cbn [negb].
      * apply bool_decide_eq_true in E3. case_match; intros [= <- <-]; by split_and!.
      * intros [= <- <-]. by split_and!.
    + intros [= <- <-]. by split_and!.
  - intros [= <- <-]. by split_and!.
Qed.

(** The newest status of a device on its way to the task. *)
Definition last_for (w : SyncWorld) (k : string * Z) : option DeviceStatus :=
  let queued := last (filter (fun s => status_key s = k) (rx_queue (sw_rx w))) in
  match sw_sending w !! k.1 with
  | Some s => if decide (status_key s = k) then Some s else queued
  | None => queued
  end.

(** The newest status on its way, or else the one the task has, is the cached
    one. *)
Definition current (have : string * Z -> DeviceStatus -> Prop) (w : SyncWorld) : Prop :=
  forall k s, sw_cache w !! k = Some s ->
    match last_for w k with
    | Some s' => same_view s' s
    | None => exists s', have k s' /\ same_view s' s
    end.

Record world_ok (w : SyncWorld) : Prop := {
  wo_base : base_ok w;
  wo_cache : forall k s, sw_cache w !! k = Some s -> status_key s = k /\
    exists pd data, pd ∈ devices_of ports /\ device_key pd = k /\ admissible pd.2 data /\
      ds_value s = parse_status data (dc_records pd.2);
  wo_states : forall pd st c, pd ∈ devices_of ports -> sw_states w !! device_key pd = Some st -> last_com_status st = Some c ->
    exists s, sw_cache w !! device_key pd = Some s /\ ds_com_status s = c /\
      last_device_status st = Some (ds_device_status s) /\ ds_value s = parse_status (last_data st) (dc_records pd.2);
  wo_sending : forall port s, sw_sending w !! port = Some s -> ds_com s = port /\ sw_cache w !! status_key s = Some s;
  wo_queue : Forall status_ok (rx_queue (sw_rx w));
  wo_lag : rx_lagged (sw_rx w) = true \/ sw_task w = Lagging -> sw_cache w <> ∅
}.

(** What the task has. *)
Definition task_has (task : Task) (A : gmap (string * Z) (DeviceStatus * Quality)) (k : string * Z) (s : DeviceStatus) : Prop :=
  match task with
  | Prewarming l | Resyncing l => s ∈ l /\ status_key s = k
  | Running => A !! k = Some (s, BadNoCommunication)
  | Creating | Starting | Lagging | Failed_ => True
  end.

Definition waiting_ok (A : gmap (string * Z) (DeviceStatus * Quality)) (cq : Quality) : Prop :=
  cq = BadNoCommunication \/ exists pd s, pd ∈ devices_of ports /\ A !! device_key pd = Some (s, BadWaitingForInitialData).

Definition task_ok (w : SyncWorld) : Prop :=
  match sw_task w with
  | Prewarming l => Forall status_ok l /\ NoDup (status_key <$> l)
  | Resyncing l => Forall status_ok l /\ NoDup (status_key <$> l) /\ l <> []
  | Failed_ => False
  | Creating | Starting | Running | Lagging => True
  end.

Definition synced (w : SyncWorld) : Prop :=
  rx_lagged (sw_rx w) = false ->
  exists A cq, current (task_has (sw_task w) A) w /\ (sw_task w = Running -> shows A cq w /\ waiting_ok A cq).

Record sync_ok (w : SyncWorld) : Prop := { so_world : world_ok w; so_task : task_ok w; so_synced : synced w }.

Lemma cached_ok w k s : world_ok w -> sw_cache w !! k = Some s -> status_ok s.
Proof. intros Hw H. destruct (wo_cache _ Hw _ _ H) as [Hk (pd & data & ? & ? & ? & ?)]. exists pd, data. split_and!; congruence. Qed.

Lemma key_device pd pd' : pd ∈ devices_of ports -> pd' ∈ devices_of ports -> device_key pd = device_key pd' -> pd = pd'.
Proof. intros H H'. by apply (NoDup_fmap_eq device_key _ _ _ (cf_keys _ _ _ _ Hcf)). Qed.

(** *** The steps of the workers *)

Lemma shows_same A cq w w' : sw_space w' = sw_space w -> sw_runner w' = sw_runner w -> shows A cq w -> shows A cq w'.
Proof. intros Hs Hr [? ? ? ?]. split; rewrite ?Hs, ?Hr; done. Qed.

Lemma publish_ok w pd data raw c d :
  pd ∈ devices_of ports -> sw_sending w !! pd.1 = None -> admissible pd.2 data -> sync_ok w ->
  sync_ok (publish_status pd data raw c d w).
Proof.
  intros Hpd Hsend Hadm [Hw Ht Hsy]. unfold publish_status.
  set (st0 := default device_runtime_new (sw_states w !! device_key pd)).
  destruct (should_broadcast st0 data c d) as [st yes] eqn:Eb. apply should_broadcast_spec in Eb as (E1 & E2 & E3 & Hquiet).
  set (s := device_status pd data raw c d). assert (Hk : status_key s = device_key pd) by done.
  assert (Hold : yes = false -> exists s0, sw_cache w !! device_key pd = Some s0 /\ same_view s0 s).
  { intros Hno. destruct (Hquiet Hno) as (H1 & H2 & H3). unfold st0 in *. destruct (sw_states w !! device_key pd) as [st1|] eqn:Es; [|done].
    cbn [default] in *. unfold id in *. destruct (wo_states _ Hw pd st1 c Hpd Es H2) as (s0 & Hc & Hcs & Hds & Hv). exists s0. split; [done|].
    split_and!; [by rewrite Hv, H1|done|]. cbn. congruence. }
  split.
  - split; cbn [sw_cache sw_states sw_sending sw_rx sw_task].
    + destruct (wo_base _ Hw) as [? ? ?]. by split.
    + intros k s'. unfold cache_update. rewrite lookup_insert_Some. intros [[<- <-]|[_ H]]; [|by apply (wo_cache _ Hw)].
      split; [done|]. by exists pd, data.
    + intros pd' st' c' Hpd'. rewrite lookup_insert_Some. intros [[Hkk <-]|[Hne H]] Hc'.
      * apply (key_device pd pd' Hpd Hpd') in Hkk as <-. exists s. unfold cache_update. rewrite Hk, lookup_insert_eq.
        split_and!; [done| |by rewrite E3|by rewrite E1]. cbn. congruence.
      * destruct (wo_states _ Hw pd' st' c' Hpd' H Hc') as (s' & Hs' & ?). exists s'. split; [|done].
        unfold cache_update. rewrite Hk. by rewrite lookup_insert_ne.
    + intros port s' Hs'. assert (Hcase : (yes = true /\ port = pd.1 /\ s' = s) \/ (port <> pd.1 /\ sw_sending w !! port = Some s')).
      { destruct yes.
        - apply lookup_insert_Some in Hs' as [[<- <-]|[Hne H]]; [by left|right]. by split.
        - right. split; [|done]. intros ->. congruence. }
      destruct Hcase as [(_ & -> & ->)|[Hne H]]; unfold cache_update.
      * split; [done|]. apply lookup_insert_eq.
      * destruct (wo_sending _ Hw _ _ H) as [Hcom Hc]. split; [done|]. rewrite lookup_insert_ne; [done|].
        rewrite Hk. intros Heq. apply Hne. rewrite <- Hcom. apply (f_equal fst) in Heq. by cbn in Heq.
    + apply (wo_queue _ Hw).
    + intros _ H. apply (f_equal (lookup (status_key s))) in H. unfold cache_update in H. by rewrite lookup_insert_eq in H.
  - exact Ht.
  - intros Hl. destruct (Hsy Hl) as (A & cq & Hcur & Hsh). exists A, cq. split; [|intros Hr; destruct (Hsh Hr); split; [by apply (shows_same A cq w)|done]].
    intros k s'. cbn [sw_cache sw_task]. unfold cache_update. rewrite Hk.
    assert (Hlast : k <> device_key pd \/ yes = false -> forall w',
      sw_sending w' = (if yes then <[pd.1:=s]> (sw_sending w) else sw_sending w) -> sw_rx w' = sw_rx w ->
      last_for w' k = last_for w k).
    { intros Hor w' Hs' Hrx. unfold last_for. rewrite Hs', Hrx. destruct yes; [|done]. destruct Hor as [Hne|?]; [|done].
      destruct (decide (pd.1 = k.1)) as [Heq|Hneq].
      - rewrite <- Heq, lookup_insert_eq, Hsend. rewrite decide_False; [done|]. by rewrite Hk.
      - by rewrite lookup_insert_ne. }
    rewrite lookup_insert_Some. intros [[<- <-]|[Hne H]].
    + destruct yes.
      * unfold last_for. cbn [sw_sending]. cbn [device_key fst]. by rewrite lookup_insert_eq, decide_True.
      * match goal with |- context [last_for ?w' _] => rewrite (Hlast (or_intror eq_refl) w' eq_refl eq_refl) end.
        destruct (Hold eq_refl) as (s0 & Hc0 & Hv0). specialize (Hcur _ _ Hc0).
        destruct (last_for w (device_key pd)) as [s1|]; [unfold same_view in *; naive_solver congruence|].
        destruct Hcur as (s1 & ? & Hv1). exists s1. split; [done|]. unfold same_view in *. naive_solver congruence.
    + match goal with |- context [last_for ?w' _] => rewrite (Hlast (or_introl (not_eq_sym Hne)) w' eq_refl eq_refl) end.
      by apply Hcur.
Qed.

Lemma restart_ok w key : sync_ok w ->
  sync_ok {| sw_cache := sw_cache w; sw_states := delete key (sw_states w); sw_sending := sw_sending w; sw_rx := sw_rx w;
             sw_task := sw_task w; sw_runner := sw_runner w; sw_space := sw_space w |}.
Proof.
  intros [[[? ? ?] ? Hst ? ? ?] Ht Hsy]. split; [|exact Ht|].
  - split; [by split|done| |done..]. intros pd st c Hpd. cbn [sw_states sw_cache]. rewrite lookup_delete_Some.
    intros [_ H]. by apply Hst.
  - intros Hl. destruct (Hsy Hl) as (A & cq & Hcur & Hsh). exists A, cq. split; [exact Hcur|].
    intros Hr. destruct (Hsh Hr). split; [by apply (shows_same A cq w)|done].
Qed.

Lemma queued_push k s q :
  last (filter (fun s => status_key s = k) (q ++ [s])) =
  if decide (status_key s = k) then Some s else last (filter (fun s => status_key s = k) q).
Proof.
  rewrite filter_app. case_decide.
  - rewrite filter_cons_True by done. by rewrite filter_nil, last_snoc.
  - by rewrite filter_cons_False, filter_nil, app_nil_r.
Qed.

Lemma broadcast_ok w port s : sw_sending w !! port = Some s -> sync_ok w ->
  sync_ok {| sw_cache := sw_cache w; sw_states := sw_states w; sw_sending := delete port (sw_sending w);
             sw_rx := broadcast_send (sw_rx w) s; sw_task := sw_task w; sw_runner := sw_runner w; sw_space := sw_space w |}.
Proof.
  intros Hs [Hw Ht Hsy]. destruct (wo_sending _ Hw _ _ Hs) as [Hcom Hc]. pose proof (cached_ok _ _ _ Hw Hc) as Hok. split.
  - destruct Hw as [[? ? ?] ? ? Hse Hq Hl]. split; cbn [sw_cache sw_states sw_sending sw_rx sw_task]; [by split|done|done| | |].
    + intros port' s'. rewrite lookup_delete_Some. intros [_ H]. by apply Hse.
    + unfold broadcast_send. case_match; cbn [rx_queue]; apply Forall_app; (split; [|by apply Forall_singleton]); [done|].
      destruct (rx_queue (sw_rx w)); [done|]. by apply Forall_cons in Hq as [_ ?].
    + intros _ He. by rewrite He, lookup_empty in Hc.
  - exact Ht.
  - intros Hl. cbn [sw_rx] in Hl. unfold broadcast_send in *. cbn [sw_rx sw_task]. destruct (length (rx_queue (sw_rx w)) <? DEFAULT_CAPACITY)%nat; [|done].
    destruct (Hsy Hl) as (A & cq & Hcur & Hsh). exists A, cq. split; [|intros Hr; destruct (Hsh Hr); split; [by apply (shows_same A cq w)|done]].
    intros k s' Hk. cbn [sw_cache] in Hk. specialize (Hcur k s' Hk). revert Hcur. unfold last_for. cbn [sw_sending sw_rx rx_queue].
    rewrite queued_push. destruct (decide (port = k.1)) as [->|Hne].
    + rewrite Hs, lookup_delete_eq. by case_decide.
    + rewrite lookup_delete_ne by done. rewrite (decide_False (P := status_key s = k)); [done|].
      intros <-. by apply Hne.
Qed.

(** *** The steps of the task *)

Lemma snapshot_keys w : world_ok w ->
  Forall status_ok (snapshot_statuses (sw_cache w)) /\ NoDup (status_key <$> snapshot_statuses (sw_cache w)) /\
  forall k s, sw_cache w !! k = Some s -> s ∈ snapshot_statuses (sw_cache w) /\ status_key s = k.
Proof.
  intros Hw. unfold snapshot_statuses. split_and!.
  - apply Forall_forall. intros s Hs. apply list_elem_of_fmap in Hs as ([k s'] & -> & Hs). apply elem_of_map_to_list in Hs.
    by eapply cached_ok.
  - assert (Hk : status_key <$> (map_to_list (sw_cache w)).*2 = (map_to_list (sw_cache w)).*1).
    { rewrite <- list_fmap_compose. apply list_fmap_ext. intros i [k s] Hi. apply list_elem_of_lookup_2, elem_of_map_to_list in Hi.
      by destruct (wo_cache _ Hw _ _ Hi). }
    rewrite Hk. apply NoDup_fst_map_to_list.
  - intros k s H. split; [|by destruct (wo_cache _ Hw _ _ H)]. apply list_elem_of_fmap. exists (k, s). split; [done|].
    by apply elem_of_map_to_list.
Qed.

(** Neither cache nor workers change. *)
Lemma world_ok_task w w' :
  world_ok w -> base_ok w' -> sw_cache w' = sw_cache w -> sw_states w' = sw_states w -> sw_sending w' = sw_sending w ->
  Forall status_ok (rx_queue (sw_rx w')) -> (rx_lagged (sw_rx w') = true \/ sw_task w' = Lagging -> sw_cache w <> ∅) ->
  world_ok w'.
Proof. intros [? ? ? ? ? ?] Hb Hc Hs Hse Hq Hl. split; rewrite ?Hc, ?Hs, ?Hse; done. Qed.

Lemma current_empty_queue w w' :
  world_ok w -> sw_cache w' = sw_cache w -> sw_sending w' = sw_sending w -> rx_queue (sw_rx w') = [] -> current (fun _ _ => True) w'.
Proof.
  intros Hw Hc Hse Hq k s. unfold last_for. rewrite Hc, Hse, Hq. intros Hk. cbn.
  destruct (sw_sending w !! k.1) as [s'|] eqn:E; [|exists s; by split_and!]. destruct (wo_sending _ Hw _ _ E) as [_ H].
  case_decide as Hd; [|exists s; by split_and!]. rewrite Hd in H. assert (s' = s) as -> by congruence. by split_and!.
Qed.

Lemma discard_ok w task :
  (task = Starting \/ task = Lagging /\ sw_cache w <> ∅) -> sync_ok w ->
  sync_ok (with_task task (with_rx (discard_pending_broadcasts (sw_rx w)) w)).
Proof.
  intros Htask [Hw _ _]. pose proof (wo_base _ Hw) as [? ? ?]. split.
  - eapply world_ok_task; [exact Hw|by split|done..|constructor|]. cbn. intros [?|?]; [done|]. destruct Htask as [->|[_ ?]]; done.
  - unfold task_ok. cbn. by destruct Htask as [->|[-> _]].
  - intros _. exists ∅, GoodValue. split; [|by destruct Htask as [->|[-> _]]]. cbn [with_task sw_task].
    assert (Hh : task_has task ∅ = fun _ _ => True) by (by destruct Htask as [->|[-> _]]). rewrite Hh.
    by apply (current_empty_queue w).
Qed.

Lemma snapshot_ok w task :
  (task = Prewarming (snapshot_statuses (sw_cache w)) /\ sw_task w = Starting \/
   task = Resyncing (snapshot_statuses (sw_cache w)) /\ sw_task w = Lagging) ->
  sync_ok w -> sync_ok (with_task task w).
Proof.
  intros Htask [Hw Ht Hsy]. pose proof (wo_base _ Hw) as [? ? ?]. destruct (snapshot_keys w Hw) as (Hok & Hnd & Hin). split.
  - eapply world_ok_task; [exact Hw|by split|done..|apply (wo_queue _ Hw)|]. cbn.
    intros [?|?]; [apply (wo_lag _ Hw); by left|]. by destruct Htask as [[-> _]|[-> _]].
  - unfold task_ok. cbn [with_task sw_task]. destruct Htask as [[-> _]|[-> Hlag]]; [done|]. split_and!; try done. intros He.
    apply (wo_lag _ Hw); [by right|]. unfold snapshot_statuses in He. apply fmap_nil_inv in He. by apply map_to_list_empty_iff.
  - intros Hl. destruct (Hsy Hl) as (A & cq & Hcur & _). exists A, cq. split; [|by destruct Htask as [[-> _]|[-> _]]].
    intros k s Hk. specialize (Hcur k s Hk). change (last_for (with_task task w) k) with (last_for w k).
    destruct (last_for w k); [done|]. exists s. split; [|by split_and!]. cbn [with_task sw_task].
    destruct Htask as [[-> _]|[-> _]]; by apply Hin.
Qed.

Lemma fields_apply w built :
  sw_cache (apply_updates w built) = sw_cache w /\ sw_states (apply_updates w built) = sw_states w /\
  sw_sending (apply_updates w built) = sw_sending w /\ sw_rx (apply_updates w built) = sw_rx w.
Proof. unfold apply_updates. destruct built as [r [us|]]; [|done]. by destruct (set_values _ _). Qed.

Lemma last_for_same w w' k : sw_sending w' = sw_sending w -> sw_rx w' = sw_rx w -> last_for w' k = last_for w k.
Proof. intros Hs Hr. unfold last_for. by rewrite Hs, Hr. Qed.

(** A batch is written: the task runs. *)
Lemma written_ok w w' l A cq :
  world_ok w -> synced w -> (sw_task w = Prewarming l \/ sw_task w = Resyncing l) ->
  sw_cache w' = sw_cache w -> sw_states w' = sw_states w -> sw_sending w' = sw_sending w -> sw_rx w' = sw_rx w ->
  base_ok w' -> sw_task w' = Running -> shows A cq w' -> (forall s, s ∈ l -> A !! status_key s = Some (s, BadNoCommunication)) ->
  waiting_ok A cq -> sync_ok w'.
Proof.
  intros Hw Hsy Htask Hc Hst Hse Hrx Hb Hrun Hsh HA Hwait. split.
  - eapply world_ok_task; [exact Hw|done..| |]; rewrite ?Hrx; [apply (wo_queue _ Hw)|]. rewrite Hrun.
    intros [?|?]; [|done]. apply (wo_lag _ Hw). by left.
  - unfold task_ok. by rewrite Hrun.
  - intros Hl. rewrite Hrx in Hl. destruct (Hsy Hl) as (A0 & cq0 & Hcur & _). exists A, cq. split; [|done]. rewrite Hrun.
    intros k s Hk. rewrite Hc in Hk. specialize (Hcur k s Hk). rewrite (last_for_same w w') by done.
    destruct (last_for w k); [done|]. destruct Hcur as (s' & Hhas & Hv). exists s'. split; [|done]. cbn [task_has].
    assert (s' ∈ l /\ status_key s' = k) as [Hin <-] by (destruct Htask as [E|E]; rewrite E in Hhas; exact Hhas). by apply HA.
Qed.

Lemma prewarm_ok w l : sw_task w = Prewarming l -> sync_ok w -> sync_ok (prewarm ports nodes l w).
Proof.
  intros Htask [Hw Ht Hsy]. unfold task_ok in Ht. rewrite Htask in Ht. destruct Ht as [Hl Hnd].
  destruct (prewarm_shows w l (wo_base _ Hw) Hl Hnd) as (Hb & Hrun & A & cq & Hsh & HA & Hwait).
  assert (Hf : sw_cache (prewarm ports nodes l w) = sw_cache w /\ sw_states (prewarm ports nodes l w) = sw_states w /\
               sw_sending (prewarm ports nodes l w) = sw_sending w /\ sw_rx (prewarm ports nodes l w) = sw_rx w).
  { unfold prewarm. destruct (merge_initial_statuses ports l). apply fields_apply. }
  destruct Hf as (? & ? & ? & ?). eapply (written_ok w _ l A cq); try done. by left.
Qed.

Lemma resync_ok w l : sw_task w = Resyncing l -> sync_ok w -> sync_ok (resync nodes l w).
Proof.
  intros Htask [Hw Ht Hsy]. unfold task_ok in Ht. rewrite Htask in Ht. destruct Ht as (Hl & Hnd & Hne).
  destruct (resync_shows w l (wo_base _ Hw) Hl Hnd Hne) as (Hb & Hrun & Hsh & _).
  destruct (fields_apply w (build_full_sync_updates l nodes (sw_runner w) BadNoCommunication)) as (? & ? & ? & ?).
  eapply (written_ok w _ l); try done; [by right| |by left]. intros s Hs. by rewrite shown_by_lookup.
Qed.

Lemma queued_pop k s q :
  last (filter (fun s => status_key s = k) (s :: q)) =
  match last (filter (fun s => status_key s = k) q) with
  | Some s' => Some s'
  | None => if decide (status_key s = k) then Some s else None
  end.
Proof.
  rewrite filter_cons. destruct (decide (status_key s = k)); [rewrite last_cons|]; by destruct (last (filter (fun s => status_key s = k) q)).
Qed.

Lemma receive_ok w s q :
  sw_task w = Running -> rx_lagged (sw_rx w) = false -> rx_queue (sw_rx w) = s :: q -> sync_ok w ->
  sync_ok (receive_update nodes s (with_rx {| rx_queue := q; rx_lagged := false |} w)).
Proof.
  intros Htask Hlag Hq [Hw _ Hsy]. set (w1 := with_rx {| rx_queue := q; rx_lagged := false |} w).
  pose proof (wo_queue _ Hw) as Hok. rewrite Hq in Hok. apply Forall_cons in Hok as [Hs Hok].
  assert (Hb1 : base_ok w1) by (destruct (wo_base _ Hw); by split).
  destruct (receive_shows w1 s Hb1 Hs) as (Hb & Hrun & Hsh).
  destruct (fields_apply w1 (build_incremental_updates s nodes (sw_runner w1))) as (Hc & Hst & Hse & Hrx).
  fold (receive_update nodes s w1) in Hc, Hst, Hse, Hrx. split.
  - eapply world_ok_task; [exact Hw|done..| |]; rewrite Hrx; [done|]. rewrite Hrun. by intros [?|?].
  - unfold task_ok. by rewrite Hrun.
  - intros _. destruct (Hsy Hlag) as (A & cq & Hcur & Hold). destruct (Hold Htask) as [Hshow _].
    exists (<[status_key s := (s, BadNoCommunication)]> A), BadNoCommunication. split; [|intros _; split; [|by left]].
    2: { apply (Hsh A cq). by apply (shows_same A cq w). }
    rewrite Hrun. intros k s0 Hk. rewrite Hc in Hk. specialize (Hcur k s0 Hk). revert Hcur.
    rewrite Htask, (last_for_same w1 (receive_update nodes s w1)) by done. unfold last_for. unfold w1. cbn [with_rx sw_sending sw_rx rx_queue task_has].
    rewrite Hq, queued_pop.
    destruct (sw_sending w !! k.1) as [s1|]; [destruct (decide (status_key s1 = k)); [by intros|]|];
      (destruct (last (filter (fun s => status_key s = k) q)) as [s2|]; [by intros|];
       destruct (decide (status_key s = k)) as [Hd|Hd];
       [intros Hv; exists s; split; [|done]; rewrite Hd; apply lookup_insert_eq|
        intros (s2 & HA & Hv); exists s2; split; [|done]; by rewrite lookup_insert_ne]).
Qed.

Lemma sync_step_ok w w' : sync_step ports nodes admissible w w' -> sync_ok w -> sync_ok w'.
Proof.
  destruct 1; intros Hw.
  - by apply publish_ok.
  - by apply broadcast_ok.
  - by apply restart_ok.
  - apply discard_ok; [by left|done].
  - apply snapshot_ok; [by left|done].
  - by apply prewarm_ok.
  - by apply receive_ok.
  - apply discard_ok; [right|done]. split; [done|]. apply (wo_lag _ (so_world _ Hw)). by left.
  - apply snapshot_ok; [by right|done].
  - by apply resync_ok.
Qed.

Lemma sync_open_ok : sync_ok (sync_open e space0).
Proof.
  split.
  - split; cbn.
    + split; [done|apply Hcf|apply new_runner_ok].
    + by intros k s ?.
    + by intros pd st c _ ?.
    + by intros port s ?.
    + constructor.
    + by intros [?|?].
  - done.
  - intros _. exists ∅, GoodValue. split; [|done]. by intros k s ?.
Qed.

Lemma sync_reachable w : rtc (sync_step ports nodes admissible) (sync_open e space0) w -> sync_ok w.
Proof.
  intros H. assert (Hg : sync_ok (sync_open e space0)) by apply sync_open_ok. revert Hg.
  induction H as [|a b c Hab _ IH]; [done|]. intros Ha. apply IH. by eapply sync_step_ok.
Qed.

(** ** A quiet server *)

(** Nothing is on its way to the task. *)
Definition quiet (w : SyncWorld) : Prop :=
  sw_task w = Running /\ sw_rx w = {| rx_queue := []; rx_lagged := false |} /\ sw_sending w = ∅.

Lemma quiet_shows w : sync_ok w -> quiet w ->
  exists A cq, shows A cq w /\ waiting_ok A cq /\
    forall k s, sw_cache w !! k = Some s -> exists s', A !! k = Some (s', BadNoCommunication) /\ same_view s' s.
Proof.
  intros [Hw _ Hsy] (Hrun & Hrx & Hse). destruct Hsy as (A & cq & Hcur & Hsh); [by rewrite Hrx|]. destruct (Hsh Hrun) as [Hshow Hwait].
  exists A, cq. split_and!; try done. intros k s Hk. specialize (Hcur k s Hk). unfold last_for in Hcur.
  rewrite Hse, Hrx, lookup_empty, Hrun in Hcur. exact Hcur.
Qed.

Lemma quiet_node w k s id v : sync_ok w -> quiet w -> sw_cache w !! k = Some s -> ds_value s !! id = Some v ->
  node_value (sw_space w) id = Some (device_value s BadNoCommunication v).
Proof.
  intros Hok Hq Hk Hv. destruct (quiet_shows w Hok Hq) as (A & cq & Hsh & _ & HA). destruct (HA k s Hk) as (s' & Hs' & Hview).
  rewrite <- (same_view_value s' s) by done. eapply (sh_nodes _ _ _ Hsh); [done|]. by destruct Hview as [-> _].
Qed.

Lemma covered_point w id : (forall d data, admissible d data -> covers d data) -> world_ok w ->
  (forall pd, pd ∈ devices_of ports -> is_Some (sw_cache w !! device_key pd)) -> id ∈ points ->
  exists k s v, sw_cache w !! k = Some s /\ ds_value s !! id = Some v.
Proof.
  intros Hcov Hw Hall Hid. unfold points in Hid. rewrite device_points_devices in Hid. apply list_elem_of_fmap in Hid as (x & -> & Hx).
  apply list_elem_of_bind in Hx as (pd & Hx & Hpd). apply list_elem_of_fmap in Hx as (r & -> & Hr). cbn [fst].
  destruct (Hall pd Hpd) as [s Hs]. destruct (wo_cache _ Hw _ _ Hs) as [_ (pd' & data & Hpd' & Hk & Hadm & Hv)].
  apply (key_device pd' pd Hpd' Hpd) in Hk as ->.
  destruct (parse_status_covers data (dc_records pd.2) (Hcov _ _ Hadm) r Hr) as [v Hval]. exists (device_key pd), s, v.
  split; [done|]. by rewrite Hv.
Qed.

(** Two tables that hold the statuses of the cache are one. *)
Lemma same_runner r r' : runner_ok r -> runner_ok r' ->
  (forall id, is_empty e = false -> id ∈ points -> global_vars r !! id = global_vars r' !! id /\ valid_vars r !! id = valid_vars r' !! id) ->
  r = r'.
Proof.
  intros Hr Hr' Hvars. destruct (is_empty e) eqn:Ee; [by rewrite (ro_idle _ Hr Ee), (ro_idle _ Hr' Ee)|].
  assert (Hno : forall r0 id, runner_ok r0 -> id ∉ points -> global_vars r0 !! id = None /\ valid_vars r0 !! id = None).
  { intros r0 id H Hid. split; apply eq_None_not_Some; intros Hs; apply Hid, (ro_vars _ H); tauto. }
  assert (global_vars r = global_vars r' /\ valid_vars r = valid_vars r') as [Hg Hv].
  { split; apply map_eq; intros id; (destruct (decide (id ∈ points)) as [Hin|Hin]; [by apply Hvars|]);
      destruct (Hno r id Hr Hin) as [H1 H2], (Hno r' id Hr' Hin) as [H3 H4]; congruence. }
  pose proof (ro_engine _ Hr). pose proof (ro_engine _ Hr'). destruct r, r'; cbn in *. congruence.
Qed.

Lemma quiet_resync w : (forall d data, admissible d data -> covers d data) -> sync_ok w -> quiet w ->
  (forall pd, pd ∈ devices_of ports -> is_Some (sw_cache w !! device_key pd)) ->
  resync nodes (snapshot_statuses (sw_cache w)) w = w.
Proof.
  intros Hcov Hok Hq Hall. pose proof (so_world _ Hok) as Hw. destruct (snapshot_keys w Hw) as (Hl & Hnd & Hin).
  destruct (decide (snapshot_statuses (sw_cache w) = [])) as [He|Hne].
  { rewrite He. destruct Hq as (Hrun & _). unfold resync, build_full_sync_updates, apply_updates. cbn. destruct w. cbn in *. by rewrite Hrun. }
  destruct (resync_shows w _ (wo_base _ Hw) Hl Hnd Hne) as (Hb & Hrun & Hsh & Hother).
  destruct (fields_apply w (build_full_sync_updates (snapshot_statuses (sw_cache w)) nodes (sw_runner w) BadNoCommunication)) as (Hc & Hst & Hse & Hrx).
  fold (resync nodes (snapshot_statuses (sw_cache w)) w) in *. set (w' := resync nodes (snapshot_statuses (sw_cache w)) w) in *.
  destruct (quiet_shows w Hok Hq) as (A & cq & HshA & Hwait & HA).
  assert (Hcq : cq = BadNoCommunication).
  { destruct Hwait as [->|(pd & s & Hpd & Hs)]; [done|]. destruct (Hall pd Hpd) as [s0 Hs0]. destruct (HA _ _ Hs0) as (s' & Hs' & _). congruence. }
  subst cq. assert (Hnew : forall k s, sw_cache w !! k = Some s ->
    shown_by (snapshot_statuses (sw_cache w)) (fun _ => BadNoCommunication) !! k = Some (s, BadNoCommunication)).
  { intros k s Hk. apply shown_by_lookup; [done|]. destruct (Hin k s Hk). by split_and!. }
  assert (Hr : sw_runner w' = sw_runner w).
  { apply same_runner; [apply Hb|apply (wo_base _ Hw)|]. intros id Hemp Hid.
    destruct (covered_point w id Hcov Hw Hall Hid) as (k & s & v & Hk & Hv). destruct (HA k s Hk) as (s' & Hs' & Hview & Hv1 & Hv2).
    destruct (sh_vars _ _ _ Hsh k s BadNoCommunication id v Hemp (Hnew _ _ Hk) Hv) as [-> ->].
    destruct (sh_vars _ _ _ HshA k s' BadNoCommunication id v Hemp Hs') as [-> ->]; [by rewrite Hview|].
    unfold available. by rewrite Hv1, Hv2. }
  assert (Hs : sw_space w' = sw_space w).
  { apply same_space; [etrans; [symmetry; apply Hb|apply (wo_base _ Hw)]|]. intros id.
    destruct (decide (id ∈ points)) as [Hid|Hid].
    - destruct (covered_point w id Hcov Hw Hall Hid) as (k & s & v & Hk & Hv).
      by rewrite (quiet_node w k s id v), (sh_nodes _ _ _ Hsh k s BadNoCommunication id v) by auto.
    - destruct (decide (id ∈ output_names e)) as [Ho|Ho]; [|by apply Hother].
      destruct (run_total _ (bo_runner _ (wo_base _ Hw))) as (outs & Hrun' & _ & Hnames). rewrite <- Hnames in Ho.
      apply list_elem_of_fmap in Ho as (o & -> & Ho). cbn [compose fst].
      rewrite (sh_calc _ _ _ Hsh outs o), (sh_calc _ _ _ HshA outs o) by (by rewrite ?Hr). done. }
  destruct Hq as (Hqr & _). clearbody w'. destruct w, w'. cbn in *. congruence.
Qed.
End Sync.

(** ** Properties *)

(** C9: the OPC UA nodes show the cache.  Let any number of workers publish
    while the server starts, receives, falls behind and recovers in any
    interleaving.  Whenever nothing is on its way to the update task, the node
    of every point of every cached status shows exactly that status: its value
    with good quality if port and device are up, and otherwise a zero of the
    same type with the quality [BadNoCommunication]. *)
Theorem nodes_show_the_cache config ports e space n admissible w :
  new config = Some (Ok e) -> build_address_space ports e (length ports) = Ok (space, n) ->
  NoDup (device_key <$> devices_of ports) ->
  rtc (sync_step ports (kks_node_map n) admissible) (sync_open e space) w -> quiet w ->
  forall k s id v, sw_cache w !! k = Some s -> ds_value s !! id = Some v ->
    node_value (sw_space w) id = Some (device_value s BadNoCommunication v).
Proof.
  intros He Hb Hk Hr Hq k s id v. pose proof (built_configured _ _ _ _ _ He Hb Hk) as Hcf.
  eapply quiet_node; [|exact Hq]. by eapply sync_reachable.
Qed.

(** C10: a quiet server has nothing to recover.  If the data of every worker
    reach all points of its table and every configured device has reported,
    then in every quiet state a full synchronisation from the cache changes
    nothing: neither a node, be it of a device or of a formula, nor the table
    of the formulas. *)
Theorem quiet_server_is_synchronised config ports e space n admissible w :
  new config = Some (Ok e) -> build_address_space ports e (length ports) = Ok (space, n) ->
  NoDup (device_key <$> devices_of ports) -> (forall d data, admissible d data -> covers d data) ->
  rtc (sync_step ports (kks_node_map n) admissible) (sync_open e space) w -> quiet w ->
  (forall pd, pd ∈ devices_of ports -> is_Some (sw_cache w !! device_key pd)) ->
  resync (kks_node_map n) (snapshot_statuses (sw_cache w)) w = w.
Proof.
  intros He Hb Hk Hcov Hr Hq Hall. pose proof (built_configured _ _ _ _ _ He Hb Hk) as Hcf.
  eapply quiet_resync; [exact Hcf|exact Hcov| |exact Hq|exact Hall]. by eapply sync_reachable.
Qed.

(** C27: the update task never fails and keeps every node's type.  In every
    history it finds the nodes of its updates and no formula panics; the address
    space keeps the nodes it was built with, and every variable holds a value of
    its declared data type or, while it waits for the first data, none. *)
Theorem update_task_keeps_types config ports e space n admissible w :
  new config = Some (Ok e) -> build_address_space ports e (length ports) = Ok (space, n) ->
  NoDup (device_key <$> devices_of ports) ->
  rtc (sync_step ports (kks_node_map n) admissible) (sync_open e space) w ->
  sw_task w <> Failed_ /\ same_shape space (sw_space w) /\ typed_space (sw_space w).
Proof.
  intros He Hb Hk Hr. pose proof (built_configured _ _ _ _ _ He Hb Hk) as Hcf.
  destruct (sync_reachable _ _ _ _ Hcf _ _ Hr) as [Hw Ht _]. destruct (wo_base _ _ _ _ _ Hw) as [Hsh Hty _].
  split_and!; try done. intros Hf. unfold task_ok in Ht. by rewrite Hf in Ht.
Qed.

(** ** Witnesses *)

(** One device whose two points are in the two status bytes of a table with
    [data_len] 1, the length in the frame. *)
Definition demo_table : DeviceConfig :=
  {| dc_config := toy_conf "COM1" 7;
     dc_records := [toy_record "A" "uint";
                    {| rec_kks := "B"; rec_type := "uint"; rec_f_type := ""; rec_byte_index := 2; rec_bit_index := Single 0;
                       rec_def := 0; rec_max := 0; rec_min := 0; rec_byte_order := 0 |}] |}.
Definition demo_ports : list SerialPortConfig := [port_config_new "COM1" 9600 false [demo_table]].
Definition demo_rules : list CalcRule := [make_rule "SUM" "uint" "A + B" f64_zero].
Definition demo_calc : CalcEngine := match new demo_rules with Some (Ok e) => e | _ => [] end.
Definition demo_space : AddressSpace :=
  match build_address_space demo_ports demo_calc 1 with Ok (space, _) => space | Err _ => ∅ end.
Definition demo_nodes : OpcuaNodes := created demo_ports demo_calc.

Lemma demo_new : new demo_rules = Some (Ok demo_calc).
Proof. vm_compute. reflexivity. Qed.
Lemma demo_built : build_address_space demo_ports demo_calc (length demo_ports) = Ok (demo_space, demo_nodes).
Proof. vm_compute. reflexivity. Qed.
Lemma demo_keys : NoDup (device_key <$> devices_of demo_ports).
Proof. vm_compute. repeat constructor. by intros ?%elem_of_nil. Qed.

(** The steps as functions. *)
Definition demo_start : SyncWorld :=
  let w := sync_open demo_calc demo_space in
  let w := with_task Starting (with_rx (discard_pending_broadcasts (sw_rx w)) w) in
  let w := with_task (Prewarming (snapshot_statuses (sw_cache w))) w in
  prewarm demo_ports (kks_node_map demo_nodes) [] w.

Definition demo_report (data : list Z) (up : bool) (w : SyncWorld) : SyncWorld :=
  let w := publish_status ("COM1", demo_table) data data up up w in
  match sw_sending w !! "COM1" with
  | None => w
  | Some s =>
      let w := {| sw_cache := sw_cache w; sw_states := sw_states w; sw_sending := delete "COM1" (sw_sending w);
                  sw_rx := broadcast_send (sw_rx w) s; sw_task := sw_task w; sw_runner := sw_runner w; sw_space := sw_space w |} in
      match rx_queue (sw_rx w) with
      | s :: q => receive_update (kks_node_map demo_nodes) s (with_rx {| rx_queue := q; rx_lagged := false |} w)
      | [] => w
      end
  end.

Definition demo_up : SyncWorld := demo_report [1; 1] true demo_start.
(** The device is lost: the worker publishes [data_len] zero bytes. *)
Definition demo_down : SyncWorld := demo_report (replicate (configured_len demo_table) 0) false demo_up.

Section Demo.
Context (admissible : DeviceConfig -> list Z -> Prop).
Notation demo_step := (sync_step demo_ports (kks_node_map demo_nodes) admissible).

Lemma demo_start_steps : rtc demo_step (sync_open demo_calc demo_space) demo_start.
Proof.
  eapply rtc_l; [by apply ss_created|]. eapply rtc_l; [by apply ss_snapshot|]. eapply rtc_l; [by apply ss_prewarm|]. constructor.
Qed.

Lemma demo_report_steps data up w :
  admissible demo_table data -> sw_sending w !! "COM1" = None -> sw_task w = Running -> rx_lagged (sw_rx w) = false ->
  rx_queue (sw_rx w) = [] -> rtc demo_step w (demo_report data up w).
Proof.
  intros Hadm Hs Hrun Hlag Hq. unfold demo_report. eapply rtc_l; [apply (ss_publish _ _ _ w ("COM1", demo_table) data data up up); [|done..]|].
  { change (devices_of demo_ports) with [("COM1", demo_table)]. by apply list_elem_of_singleton. }
  set (w1 := publish_status _ _ _ _ _ w).
  assert (H1 : sw_task w1 = Running /\ sw_rx w1 = sw_rx w) by (unfold w1, publish_status; by destruct (should_broadcast _ _ _ _)).
  destruct H1 as [Ht1 Hr1]. destruct (sw_sending w1 !! "COM1") as [s|] eqn:E; [|constructor].
  eapply rtc_l; [by apply ss_broadcast|]. cbn [sw_rx]. unfold broadcast_send. rewrite Hr1, Hq. cbn [length rx_queue].
  change (0 <? DEFAULT_CAPACITY)%nat with true. cbn [rx_queue app]. eapply rtc_l; [apply ss_receive|constructor]; cbn; try done.
Qed.
End Demo.

Lemma demo_up_steps admissible : admissible demo_table [1; 1] ->
  rtc (sync_step demo_ports (kks_node_map demo_nodes) admissible) (sync_open demo_calc demo_space) demo_up.
Proof.
  intros Hadm. etrans; [apply demo_start_steps|]. apply demo_report_steps; [done|vm_compute; reflexivity..].
Qed.

Lemma demo_up_quiet : quiet demo_up.
Proof. vm_compute. by split_and!. Qed.

Lemma nodes_show_the_cache_witness :
  node_value (sw_space demo_up) "B" = Some (pushed_data_value (VtUInt32 1) GoodValue) /\
  node_value (sw_space demo_up) "SUM" = Some (pushed_data_value (VtUInt32 2) GoodValue).
Proof.
  split; [|vm_compute; reflexivity].
  apply (nodes_show_the_cache demo_rules demo_ports demo_calc demo_space demo_nodes (fun _ _ => True) demo_up
    demo_new demo_built demo_keys (demo_up_steps (fun _ _ => True) I) demo_up_quiet ("COM1", 7)
    (device_status ("COM1", demo_table) [1; 1] [1; 1] true true) "B" (VUInt 1)); vm_compute; reflexivity.
Defined.

Lemma quiet_server_is_synchronised_witness : resync (kks_node_map demo_nodes) (snapshot_statuses (sw_cache demo_up)) demo_up = demo_up.
Proof.
  apply (quiet_server_is_synchronised demo_rules demo_ports demo_calc demo_space demo_nodes covers demo_up
    demo_new demo_built demo_keys (fun _ _ H => H)); [|exact demo_up_quiet|].
  - apply demo_up_steps. intros r Hr. apply elem_of_cons in Hr as [->|Hr]; [vm_compute; by eexists|].
    apply list_elem_of_singleton in Hr as ->. vm_compute. by eexists.
  - intros pd Hpd. change (devices_of demo_ports) with [("COM1", demo_table)] in Hpd. apply list_elem_of_singleton in Hpd as ->.
    vm_compute. by eexists.
Defined.

Lemma update_task_keeps_types_witness : sw_task demo_up <> Failed_ /\ typed_space (sw_space demo_up).
Proof.
  destruct (update_task_keeps_types demo_rules demo_ports demo_calc demo_space demo_nodes (fun _ _ => True) demo_up
    demo_new demo_built demo_keys (demo_up_steps (fun _ _ => True) I)) as (H1 & _ & H2).
  by split.
Defined.

(** A point in the last status byte of a table whose [data_len] is the length
    in the frame, which strict validation accepts, is not in the zero status a
    worker publishes when the device is lost: its node keeps the last value with
    good quality, and so does a formula of it, while the node of the first byte
    turns bad. *)
Lemma last_byte_stays_good :
  Forall (fun r => record_bounds_error r (data_len (dc_config demo_table) + 1) = None) (dc_records demo_table) /\
  rtc (sync_step demo_ports (kks_node_map demo_nodes) (fun _ _ => True)) (sync_open demo_calc demo_space) demo_down /\
  quiet demo_down /\
  (exists s, sw_cache demo_down !! ("COM1", 7) = Some s /\ available s = false) /\
  node_value (sw_space demo_down) "A" = Some (pushed_data_value (VtUInt32 0) BadNoCommunication) /\
  node_value (sw_space demo_down) "B" = Some (pushed_data_value (VtUInt32 1) GoodValue).
Proof.
  split_and!; [by repeat constructor| |vm_compute; by split_and!|vm_compute; by eexists|vm_compute; reflexivity..].
  etrans; [by apply demo_up_steps|]. apply demo_report_steps; [done|vm_compute; reflexivity..].
Qed.
