(* ===== verification/Topology.v ===== *)
(** * The topology of the server (src/src/server/topology.rs)

    The manifest of ports, devices and calculations built from the loaded
    configuration, with the devices each calculation belongs to; and the metadata
    nodes that publish it in a namespace of their own.  A [BTreeMap] is a map whose values are taken in the order
    of its keys.  JSON text is a parameter; display names, qualified names and
    type references of nodes are left out. *)

From stdpp Require Import pretty.
From S2P Require Import Prelude RustStr RustFloat Model Parser Engine Csv Protocol Frames Operations Namespace OpcSync.
Open Scope string_scope.
Open Scope Z_scope.
Open Scope list_scope.

(** ** The manifest *)

Record DeviceOwner := { ow_port_id : string; ow_device_id : string }.
#[export] Instance device_owner_eq_dec : EqDecision DeviceOwner.
Proof. solve_decision. Defined.

Record TopologyDevice := {
  td_device_id : string;
  td_device_address : Z;
  td_name : string;
  td_kks_prefix : string;
  td_node_ids : list string
}.

Record TopologyPort := {
  tp_port_id : string;
  tp_port_name : string;
  tp_send_node_id : string;
  tp_send_method_id : string;
  tp_devices : list TopologyDevice
}.

Record TopologyCalculation := {
  tc_node_id : string;
  tc_dependency_node_ids : list string;
  tc_owners : list DeviceOwner
}.

Record TopologyManifest := {
  tm_schema_version : Z;
  tm_ports : list TopologyPort;
  tm_calculations : list TopologyCalculation
}.

Definition TOPOLOGY_SCHEMA_VERSION : Z := 1.

Inductive TopologyError :=
| InvalidIdentifier (kind value : string)
| DuplicatePort (port : string)
| WrongParent (device_port : string) (device : Z) (port : string)
| DuplicateDevice (port device : string)
| DuplicatePoint (kks : string) (previous owner : DeviceOwner)
| DuplicateCalculation (node : string).

Definition validate_identifier (value kind : string) : result TopologyError () :=
  if String.eqb (trim value) "" || any_control value then Err (InvalidIdentifier kind value) else Ok tt.

(** The values of a [BTreeMap]. *)
Definition into_values {A} (m : gmap string A) : list A := omap (fun k => m !! k) (sort_strings (map_to_list m).*1).

Fixpoint add_points (owner : DeviceOwner) (records : list Record_) (owners : gmap string DeviceOwner)
    : result TopologyError (gmap string DeviceOwner) :=
  match records with
  | [] => Ok owners
  | r :: records =>
      _ ← validate_identifier (rec_kks r) "点位";
      match owners !! rec_kks r with
      | Some previous => Err (DuplicatePoint (rec_kks r) previous owner)
      | None => add_points owner records (<[rec_kks r := owner]> owners)
      end
  end.

Definition topology_device (d : DeviceConfig) : TopologyDevice :=
  let id := pretty (device_id (dc_config d)) in
  {| td_device_id := id; td_device_address := device_id (dc_config d); td_name := "设备 " +:+ id;
     td_kks_prefix := kks_prefix (dc_config d); td_node_ids := sort_strings (rec_kks <$> dc_records d) |}.

Fixpoint add_devices (port : string) (ds : list DeviceConfig) (devices : gmap string TopologyDevice)
    (owners : gmap string DeviceOwner) : result TopologyError (gmap string TopologyDevice * gmap string DeviceOwner) :=
  match ds with
  | [] => Ok (devices, owners)
  | d :: ds =>
      if negb (String.eqb (com (dc_config d)) port) then
        Err (WrongParent (com (dc_config d)) (device_id (dc_config d)) port)
      else
        let id := pretty (device_id (dc_config d)) in
        match devices !! id with
        | Some _ => Err (DuplicateDevice port id)
        | None =>
            owners ← add_points {| ow_port_id := port; ow_device_id := id |} (dc_records d) owners;
            add_devices port ds (<[id := topology_device d]> devices) owners
        end
  end.

Fixpoint add_ports (ps : list SerialPortConfig) (ports : gmap string TopologyPort) (owners : gmap string DeviceOwner)
    : result TopologyError (gmap string TopologyPort * gmap string DeviceOwner) :=
  match ps with
  | [] => Ok (ports, owners)
  | p :: ps =>
      let id := sp_port_number p in
      _ ← validate_identifier id "串口";
      match ports !! id with
      | Some _ => Err (DuplicatePort id)
      | None =>
          let port_name := opc_port_stem id in
          _ ← validate_identifier port_name "串口显示名";
          '(devices, owners) ← add_devices id (sp_devices p) ∅ owners;
          add_ports ps
            (<[id := {| tp_port_id := id; tp_port_name := port_name; tp_send_node_id := opc_send_node_name id;
                        tp_send_method_id := opc_send_method_name id; tp_devices := into_values devices |}]> ports)
            owners
      end
  end.

(** A [BTreeSet] of owners, ordered by port and device. *)
Definition owner_leb (a b : DeviceOwner) : bool :=
  if String.eqb (ow_port_id a) (ow_port_id b) then String.leb (ow_device_id a) (ow_device_id b)
  else String.leb (ow_port_id a) (ow_port_id b).
Fixpoint place_owner (o : DeviceOwner) (l : list DeviceOwner) : list DeviceOwner :=
  match l with
  | [] => [o]
  | x :: l' => if owner_leb o x then o :: l else x :: place_owner o l'
  end.
Definition insert_owner (o : DeviceOwner) (l : list DeviceOwner) : list DeviceOwner :=
  if decide (o ∈ l) then l else place_owner o l.

(** The owners of the dependencies, and whether all of them are known. *)
Definition resolve_dependency (owners : gmap string DeviceOwner) (resolved : gmap string (list DeviceOwner * bool))
    (st : list DeviceOwner * bool) (dependency : string) : list DeviceOwner * bool :=
  match owners !! dependency with
  | Some owner => (insert_owner owner st.1, st.2)
  | None =>
      match resolved !! dependency with
      | Some (inherited, known) => (foldl (fun l o => insert_owner o l) st.1 inherited, st.2 && known)
      | None => (st.1, false)
      end
  end.

Fixpoint add_calculations (owners : gmap string DeviceOwner) (outputs : list (string * list string))
    (resolved : gmap string (list DeviceOwner * bool)) (calculations : gmap string TopologyCalculation)
    : result TopologyError (gmap string TopologyCalculation) :=
  match outputs with
  | [] => Ok calculations
  | (node_id, dependencies) :: outputs =>
      _ ← validate_identifier node_id "计算点";
      if bool_decide (is_Some (owners !! node_id)) || bool_decide (is_Some (calculations !! node_id))
      then Err (DuplicateCalculation node_id)
      else
        let ids := dedup (sort_strings dependencies) in
        let '(found, known) := foldl (resolve_dependency owners resolved) ([], true) ids in
        let found := if known : bool then found else [] in
        add_calculations owners outputs (<[node_id := (found, known)]> resolved)
          (<[node_id := {| tc_node_id := node_id; tc_dependency_node_ids := ids; tc_owners := found |}]> calculations)
  end.

Definition build (ports : list SerialPortConfig) (e : CalcEngine) : result TopologyError TopologyManifest :=
  '(ports, point_owners) ← add_ports ports ∅ ∅;
  calculations ← add_calculations point_owners (output_dependencies e) ∅ ∅;
  Ok {| tm_schema_version := TOPOLOGY_SCHEMA_VERSION; tm_ports := into_values ports;
        tm_calculations := into_values calculations |}.

Definition device_count (m : TopologyManifest) : nat := sum_list (length ∘ tp_devices <$> tm_ports m).
Definition metadata_variable_count (m : TopologyManifest) : nat :=
  2 + length (tm_ports m) * 5 + device_count m * 18 + length (tm_calculations m) * 2.

Definition data_node_ids (m : TopologyManifest) : list string :=
  (p ← tm_ports m; d ← tp_devices p; td_node_ids d) ++ (tc_node_id <$> tm_calculations m).

(** ** What a built manifest holds *)

Lemma into_values_perm {A} (m : gmap string A) : into_values m ≡ₚ (map_to_list m).*2.
Proof.
  unfold into_values. rewrite sort_strings_perm.
  assert (H : forall l, (forall kv, kv ∈ l -> m !! kv.1 = Some kv.2) -> omap (fun k => m !! k) l.*1 = l.*2).
  { induction l as [|kv l IH]; intros Hl; [done|]. cbn [fmap list_fmap omap list_omap]. rewrite (Hl kv) by set_solver.
    f_equal. apply IH. set_solver. }
  rewrite H; [done|]. intros [k v] Hin. by apply elem_of_map_to_list.
Qed.

Lemma add_points_spec o rs m m' :
  add_points o rs m = Ok m' ->
  NoDup (rec_kks <$> rs) /\ (forall k, k ∈ rec_kks <$> rs -> m !! k = None) /\
  forall k, m' !! k = if decide (k ∈ rec_kks <$> rs) then Some o else m !! k.
Proof.
  revert m. induction rs as [|r rs IH]; intros m; cbn [add_points fmap list_fmap].
  - intros [= <-]. split_and!; [constructor|by intros k ?%elem_of_nil|]. intros k. by rewrite decide_False by apply not_elem_of_nil.
  - intros H. inv_result. destruct (m !! rec_kks r) as [|] eqn:E; [done|]. destruct (IH _ H) as (Hnd & Hf & Hv). split_and!.
    + apply NoDup_cons. split; [|done]. intros Hin. apply Hf in Hin. by rewrite lookup_insert_eq in Hin.
    + intros k [->|Hin]%elem_of_cons; [done|]. by apply Hf, lookup_insert_None in Hin as [? _].
    + intros k. rewrite Hv. destruct (decide (k ∈ rec_kks <$> rs)) as [Hin|Hin].
      * by rewrite decide_True by set_solver.
      * destruct (decide (rec_kks r = k)) as [<-|Hne]; [rewrite lookup_insert_eq, decide_True; set_solver|].
        rewrite lookup_insert_ne, decide_False by set_solver. done.
Qed.

Definition owner_of (port : string) (d : DeviceConfig) : DeviceOwner :=
  {| ow_port_id := port; ow_device_id := pretty (device_id (dc_config d)) |}.

Abbreviation owner_map := (list_to_map (M := gmap string DeviceOwner)).

(** The points of devices of one port, with their owners. *)
Definition owned_points (port : string) (ds : list DeviceConfig) : list (string * DeviceOwner) :=
  d ← ds; (fun r => (rec_kks r, owner_of port d)) <$> dc_records d.

Lemma lookup_owned (l : list (string * DeviceOwner)) (m m' : gmap string DeviceOwner) rest :
  (forall k, m' !! k = match owner_map l !! k with Some o => Some o | None => m !! k end) ->
  NoDup l.*1 -> (forall k, k ∈ l.*1 -> m !! k = None) ->
  NoDup rest -> (forall k, k ∈ rest -> m' !! k = None) ->
  NoDup (l.*1 ++ rest) /\ (forall k, k ∈ l.*1 ++ rest -> m !! k = None).
Proof.
  intros Hm Hnd Hf Hr Hfr. assert (Hdis : forall k, k ∈ l.*1 -> k ∉ rest).
  { intros k Hk Hk'. apply Hfr in Hk'. rewrite Hm in Hk'. apply list_elem_of_fmap in Hk as ([k' o] & -> & Hk).
    by rewrite (elem_of_list_to_map_1 _ _ _ Hnd Hk) in Hk'. }
  split; [by apply NoDup_app|]. intros k [Hk|Hk]%elem_of_app; [by apply Hf|].
  apply Hfr in Hk. rewrite Hm in Hk. by destruct (owner_map l !! k).
Qed.

Lemma points_owned o rs m m' :
  add_points o rs m = Ok m' ->
  let l := (fun r => (rec_kks r, o)) <$> rs in
  NoDup l.*1 /\ (forall k, k ∈ l.*1 -> m !! k = None) /\
  forall k, m' !! k = match owner_map l !! k with Some o => Some o | None => m !! k end.
Proof.
  intros (Hnd & Hf & Hv)%add_points_spec l.
  assert (Hl : l.*1 = rec_kks <$> rs) by (unfold l; by rewrite <- list_fmap_compose).
  rewrite Hl. split_and!; [done..|]. intros k. rewrite Hv. destruct (owner_map l !! k) as [o'|] eqn:E.
  - apply elem_of_list_to_map_2 in E. apply list_elem_of_fmap in E as (r & [= -> ->] & Hr).
    rewrite decide_True; [done|]. by apply list_elem_of_fmap_2.
  - apply not_elem_of_list_to_map in E. rewrite Hl in E. by rewrite decide_False.
Qed.

Lemma lookup_app_map (l l' : list (string * DeviceOwner)) k :
  owner_map (l ++ l') !! k =
  match owner_map l !! k with Some o => Some o | None => owner_map l' !! k end.
Proof. rewrite list_to_map_app, lookup_union. by destruct (owner_map l !! k), (owner_map l' !! k). Qed.

Lemma add_devices_spec port ds devs owners devs' owners' :
  add_devices port ds devs owners = Ok (devs', owners') ->
  Forall (fun d => com (dc_config d) = port) ds /\
  map_to_list devs' ≡ₚ ((fun d => (pretty (device_id (dc_config d)), topology_device d)) <$> ds) ++ map_to_list devs /\
  NoDup (owned_points port ds).*1 /\ (forall k, k ∈ (owned_points port ds).*1 -> owners !! k = None) /\
  forall k, owners' !! k = match owner_map (owned_points port ds) !! k with
                           | Some o => Some o | None => owners !! k end.
Proof.
  revert devs owners. induction ds as [|d ds IH]; intros devs owners; cbn [add_devices].
  - intros [= <- <-]. split_and!; [constructor|done|constructor|by intros k ?%elem_of_nil|done].
  - destruct (String.eqb_spec (com (dc_config d)) port) as [Hcom|]; [|done]. cbn [negb].
    destruct (devs !! pretty (device_id (dc_config d))) as [|] eqn:E; [done|]. intros H. apply bind_Ok in H as (owners1 & H1 & H).
    change (add_points (owner_of port d) (dc_records d) owners = Ok owners1) in H1.
    apply points_owned in H1 as (Hnd & Hf & Hv). destruct (IH _ _ H) as (Hc & Hp & Hnd2 & Hf2 & Hv2).
    change (owned_points port (d :: ds)) with (((fun r => (rec_kks r, owner_of port d)) <$> dc_records d) ++ owned_points port ds).
    rewrite fmap_app. destruct (lookup_owned _ _ _ _ Hv Hnd Hf Hnd2 Hf2) as [Ha Hb]. split_and!; [by constructor| |done..|].
    + rewrite Hp, map_to_list_insert by done. cbn [fmap list_fmap app]. by rewrite <- Permutation_middle.
    + intros k. rewrite Hv2, Hv, lookup_app_map.
      destruct (owner_map ((fun r => (rec_kks r, owner_of port d)) <$> dc_records d) !! k) as [o|] eqn:Ed; [|done].
      destruct (owner_map (owned_points port ds) !! k) as [o'|] eqn:Er; [|done].
      apply elem_of_list_to_map_2, (list_elem_of_fmap_2 fst) in Ed. apply elem_of_list_to_map_2, (list_elem_of_fmap_2 fst) in Er.
      apply NoDup_app in Ha as (_ & Ha & _). by destruct (Ha k).
Qed.

(** A port of the manifest and its configuration. *)
Definition port_matches (p : SerialPortConfig) (tp : TopologyPort) : Prop :=
  tp_port_id tp = sp_port_number p /\ tp_port_name tp = opc_port_stem (sp_port_number p) /\
  tp_send_node_id tp = opc_send_node_name (sp_port_number p) /\ tp_send_method_id tp = opc_send_method_name (sp_port_number p) /\
  tp_devices tp ≡ₚ topology_device <$> sp_devices p /\ NoDup (td_device_id <$> tp_devices tp) /\
  Forall (fun d => com (dc_config d) = sp_port_number p) (sp_devices p).

Definition all_owned (ps : list SerialPortConfig) : list (string * DeviceOwner) :=
  p ← ps; owned_points (sp_port_number p) (sp_devices p).

Lemma devices_values ds devs :
  map_to_list devs ≡ₚ ((fun d => (pretty (device_id (dc_config d)), topology_device d)) <$> ds) ++ map_to_list (∅ : gmap string TopologyDevice) ->
  into_values devs ≡ₚ topology_device <$> ds /\ NoDup (td_device_id <$> into_values devs).
Proof.
  rewrite map_to_list_empty, app_nil_r. intros H. assert (Hp : into_values devs ≡ₚ topology_device <$> ds).
  { rewrite into_values_perm, H, <- list_fmap_compose. done. }
  split; [done|]. rewrite Hp, <- list_fmap_compose. pose proof (NoDup_fst_map_to_list devs) as Hn.
  rewrite H, <- list_fmap_compose in Hn. exact Hn.
Qed.

Lemma add_ports_spec ps ports owners ports' owners' :
  add_ports ps ports owners = Ok (ports', owners') ->
  (exists tps, Forall2 port_matches ps tps /\
     map_to_list ports' ≡ₚ ((fun tp => (tp_port_id tp, tp)) <$> tps) ++ map_to_list ports) /\
  NoDup (all_owned ps).*1 /\ (forall k, k ∈ (all_owned ps).*1 -> owners !! k = None) /\
  forall k, owners' !! k = match owner_map (all_owned ps) !! k with
                           | Some o => Some o | None => owners !! k end.
Proof.
  revert ports owners. induction ps as [|p ps IH]; intros ports owners; cbn [add_ports].
  - intros [= <- <-]. split_and!; [by exists []|constructor|by intros k ?%elem_of_nil|done].
  - intros H. apply bind_Ok in H as ([] & _ & H). destruct (ports !! sp_port_number p) as [|] eqn:E; [done|].
    apply bind_Ok in H as ([] & _ & H). apply bind_Ok in H as ([devs owners1] & H1 & H).
    apply add_devices_spec in H1 as (Hc & Hp & Hnd & Hf & Hv). destruct (devices_values _ _ Hp) as [Hvals Hids].
    destruct (IH _ _ H) as ((tps & Ht & Hm) & Hnd2 & Hf2 & Hv2).
    change (all_owned (p :: ps)) with (owned_points (sp_port_number p) (sp_devices p) ++ all_owned ps).
    rewrite fmap_app. destruct (lookup_owned _ _ _ _ Hv Hnd Hf Hnd2 Hf2) as [Ha Hb]. split_and!; [|done..|].
    + match type of H with add_ports _ (<[_ := ?tp]> _) _ = _ => exists (tp :: tps) end. split; [constructor; [|done]|].
      2: { rewrite Hm, map_to_list_insert by done. cbn [fmap list_fmap app]. by rewrite <- Permutation_middle. }
      by split_and!.
    + intros k. rewrite Hv2, Hv, lookup_app_map.
      destruct (owner_map (owned_points (sp_port_number p) (sp_devices p)) !! k) as [o|] eqn:Ed; [|done].
      destruct (owner_map (all_owned ps) !! k) as [o'|] eqn:Er; [|done].
      apply elem_of_list_to_map_2, (list_elem_of_fmap_2 fst) in Ed. apply elem_of_list_to_map_2, (list_elem_of_fmap_2 fst) in Er.
      apply NoDup_app in Ha as (_ & Ha & _). by destruct (Ha k).
Qed.

(** ** The owners of a calculation *)

(** The points a calculation reads, through other calculations too. *)
Inductive leaf (e : CalcEngine) : string -> string -> Prop :=
| leaf_base r x : r ∈ e -> x ∈ variables r -> x ∉ output_names e -> leaf e (kks_calc r) x
| leaf_step r d x : r ∈ e -> d ∈ variables r -> d ∈ output_names e -> leaf e d x -> leaf e (kks_calc r) x.

Lemma place_owner_perm o l : place_owner o l ≡ₚ o :: l.
Proof. induction l as [|x l IH]; simpl; [done|]. case_match; [done|]. rewrite IH. apply Permutation_swap. Qed.

Lemma elem_of_insert_owner o' o l : o' ∈ insert_owner o l <-> o' = o \/ o' ∈ l.
Proof. unfold insert_owner. case_decide as H; [|by rewrite place_owner_perm, elem_of_cons]. split; [by right|]. by intros [->|?]. Qed.

Lemma NoDup_insert_owner o l : NoDup l -> NoDup (insert_owner o l).
Proof. intros H. unfold insert_owner. case_decide as Ho; [done|]. rewrite place_owner_perm. by constructor. Qed.

Lemma insert_owners l l' : NoDup l ->
  NoDup (foldl (fun l o => insert_owner o l) l l') /\ forall o, o ∈ foldl (fun l o => insert_owner o l) l l' <-> o ∈ l \/ o ∈ l'.
Proof.
  revert l. induction l' as [|x l' IH]; intros l Hl; cbn [foldl]; [split; [done|]; set_solver|].
  destruct (IH (insert_owner x l) (NoDup_insert_owner x l Hl)) as [H1 H2]. split; [done|]. intros o. rewrite H2, elem_of_insert_owner. set_solver.
Qed.

Section Resolve.
Context (owners : gmap string DeviceOwner) (resolved : gmap string (list DeviceOwner * bool)).

Definition known (d : string) : Prop :=
  match owners !! d with Some _ => True | None => match resolved !! d with Some (_, b) => b = true | None => False end end.
Definition contributes (d : string) (o : DeviceOwner) : Prop :=
  match owners !! d with Some o' => o' = o | None => match resolved !! d with Some (l, _) => o ∈ l | None => False end end.

Lemma resolve_spec ds st : NoDup st.1 ->
  let st' := foldl (resolve_dependency owners resolved) st ds in
  NoDup st'.1 /\ (st'.2 = true <-> st.2 = true /\ forall d, d ∈ ds -> known d) /\
  (forall o, o ∈ st'.1 <-> o ∈ st.1 \/ exists d, d ∈ ds /\ contributes d o).
Proof.
  revert st. induction ds as [|d ds IH]; intros st Hst; cbn [foldl].
  - split_and!; [done| |set_solver]. split; [|tauto]. intros H. split; [done|]. by intros d ?%elem_of_nil.
  - assert (Hd : NoDup (resolve_dependency owners resolved st d).1 /\
                 ((resolve_dependency owners resolved st d).2 = true <-> st.2 = true /\ known d) /\
                 forall o, o ∈ (resolve_dependency owners resolved st d).1 <-> o ∈ st.1 \/ contributes d o).
    { unfold resolve_dependency, known, contributes. destruct (owners !! d) as [o'|].
      - split_and!; [by apply NoDup_insert_owner|tauto|]. intros o. cbn. rewrite elem_of_insert_owner. naive_solver.
      - destruct (resolved !! d) as [[l b]|]; cbn.
        + destruct (insert_owners st.1 l Hst) as [H1 H2]. split_and!; [done|by rewrite andb_true_iff|done].
        + split_and!; [done|split; [done|by intros [_ []]]|tauto]. }
    destruct Hd as (Hd1 & Hd2 & Hd3). destruct (IH _ Hd1) as (H1 & H2 & H3). split_and!; [done| |].
    + rewrite H2, Hd2. setoid_rewrite elem_of_cons. naive_solver.
    + intros o. rewrite H3, Hd3. setoid_rewrite elem_of_cons. naive_solver.
Qed.
End Resolve.

(** What is known of a finished calculation. *)
Definition resolution (owners : gmap string DeviceOwner) (e : CalcEngine) (c : string) (res : list DeviceOwner * bool) : Prop :=
  NoDup res.1 /\ (res.2 = true <-> forall x, leaf e c x -> is_Some (owners !! x)) /\
  (res.2 = true -> forall o, o ∈ res.1 <-> exists x, leaf e c x /\ owners !! x = Some o) /\ (res.2 = false -> res.1 = []).

Lemma leaf_rule e r x : NoDup (output_names e) -> r ∈ e ->
  leaf e (kks_calc r) x <-> exists d, d ∈ variables r /\ (d ∉ output_names e /\ x = d \/ d ∈ output_names e /\ leaf e d x).
Proof.
  intros Hnd Hr. split.
  - intros H. inversion H as [r' x' Hr' Hx Hno Heq|r' d x' Hr' Hd Ho Hl Heq]; subst;
      apply (NoDup_fmap_eq kks_calc e r' r Hnd Hr' Hr) in Heq as ->.
    + exists x. tauto.
    + exists d. tauto.
  - intros (d & Hd & [[Hno ->]|[Ho Hl]]); [by apply leaf_base|by eapply leaf_step].
Qed.

Lemma resolve_rule owners resolved e r :
  NoDup (output_names e) -> r ∈ e -> (forall c, c ∈ output_names e -> owners !! c = None) ->
  (forall d, d ∈ variables r -> d ∈ output_names e -> exists res, resolved !! d = Some res /\ resolution owners e d res) ->
  (forall d, d ∉ output_names e -> resolved !! d = None) ->
  let st := foldl (resolve_dependency owners resolved) ([], true) (dedup (sort_strings (variables r))) in
  resolution owners e (kks_calc r) (if st.2 then st.1 else [], st.2).
Proof.
  intros Hnd Hr Hout Hdep Hno st. destruct (resolve_spec owners resolved (dedup (sort_strings (variables r))) ([], true)) as (H1 & H2 & H3); [constructor|].
  fold st in H1, H2, H3. setoid_rewrite elem_of_dedup in H2. setoid_rewrite elem_of_sort_strings in H2.
  setoid_rewrite elem_of_dedup in H3. setoid_rewrite elem_of_sort_strings in H3. cbn [fst snd] in H2, H3.
  assert (Hknown : forall d, d ∈ variables r -> known owners resolved d <->
            (d ∉ output_names e -> is_Some (owners !! d)) /\ (d ∈ output_names e -> forall x, leaf e d x -> is_Some (owners !! x))).
  { intros d Hd. unfold known. destruct (decide (d ∈ output_names e)) as [Ho|Ho].
    - rewrite (Hout d Ho). destruct (Hdep d Hd Ho) as ([l b] & -> & _ & Hb & _). cbn in Hb. rewrite Hb. tauto.
    - rewrite (Hno d Ho). destruct (owners !! d) as [o|]; [|split; [done|intros [H _]; by destruct (H Ho)]].
      split; [|done]. intros _. split; [by eexists|done]. }
  assert (Hb : st.2 = true <-> forall x, leaf e (kks_calc r) x -> is_Some (owners !! x)).
  { rewrite H2. setoid_rewrite (leaf_rule e r _ Hnd Hr). split.
    - intros [_ Hk] x (d & Hd & Hor). destruct (proj1 (Hknown d Hd) (Hk d Hd)) as [Hd1 Hd2].
      destruct Hor as [[Ho ->]|[Ho Hl]]; [by apply Hd1|by apply Hd2].
    - intros Hx. split; [done|]. intros d Hd. apply Hknown; [done|]. split; [intros Ho|intros Ho x Hl]; apply Hx; exists d; tauto. }
  unfold resolution. cbn [fst snd]. split_and!; [by destruct st.2; [|constructor]|done| |by intros ->].
  intros Ht. rewrite Ht. intros o. rewrite H3. setoid_rewrite (leaf_rule e r _ Hnd Hr). apply H2 in Ht as [_ Ht]. split.
  - intros [?%elem_of_nil|(d & Hd & Hc)]; [done|]. unfold contributes in Hc. destruct (owners !! d) as [o'|] eqn:Eo.
    + subst. exists d. split; [|done]. exists d. split; [done|left]. split; [|done]. intros Ho. by rewrite Hout in Eo.
    + destruct (decide (d ∈ output_names e)) as [Ho|Ho]; [|by rewrite Hno in Hc].
      destruct (Hdep d Hd Ho) as ([l b] & Hres & _ & Hlb & Hl & _). rewrite Hres in Hc. specialize (Ht d Hd). unfold known in Ht.
      rewrite Eo, Hres in Ht. cbn in Hl. destruct (Hl Ht o) as [Hl1 _]. destruct (Hl1 Hc) as (x & Hx & Hxo). exists x. split; [|done].
      exists d. tauto.
  - intros (x & (d & Hd & [[Ho ->]|[Ho Hl]]) & Hxo); right; exists d; (split; [done|]); unfold contributes.
    + by rewrite Hxo.
    + rewrite (Hout d Ho). destruct (Hdep d Hd Ho) as ([l b] & Hres & _ & Hlb & Hll & _). rewrite Hres. specialize (Ht d Hd). unfold known in Ht.
      rewrite (Hout d Ho), Hres in Ht. cbn in Hll. apply (Hll Ht). by exists x.
Qed.

Lemma add_calculations_fresh owners outs R C C' c :
  add_calculations owners outs R C = Ok C' -> c ∈ outs.*1 -> owners !! c = None.
Proof.
  revert R C. induction outs as [|[n ds] outs IH]; intros R C; cbn [add_calculations fmap list_fmap]; [by intros _ ?%elem_of_nil|].
  intros H. apply bind_Ok in H as ([] & _ & H). destruct (bool_decide (is_Some (owners !! n))) eqn:E; [done|]. cbn [orb] in H.
  destruct (bool_decide (is_Some (C !! n))); [done|]. destruct (foldl _ _ _) as [found known].
  intros [->|Hc]%elem_of_cons; [|by eapply IH; [exact H|]]. apply bool_decide_eq_false in E. by apply eq_None_not_Some.
Qed.

Definition calculation_ok (owners : gmap string DeviceOwner) (e : CalcEngine) (r : CompiledRule) (tc : TopologyCalculation) : Prop :=
  tc_node_id tc = kks_calc r /\ tc_dependency_node_ids tc = dedup (sort_strings (variables r)) /\
  exists b, resolution owners e (kks_calc r) (tc_owners tc, b).

Lemma add_calculations_spec owners e a b R C C' :
  engine_ok e -> e = a ++ b -> (forall c, c ∈ output_names e -> owners !! c = None) ->
  (forall c, c ∈ output_names a -> exists res, R !! c = Some res /\ resolution owners e c res) ->
  (forall c, c ∉ output_names a -> R !! c = None) ->
  add_calculations owners (output_dependencies b) R C = Ok C' ->
  exists tcs, Forall2 (calculation_ok owners e) b tcs /\
    map_to_list C' ≡ₚ ((fun tc => (tc_node_id tc, tc)) <$> tcs) ++ map_to_list C.
Proof.
  intros He. revert a R C. induction b as [|r b IH]; intros a R C Ha Hout Hin Hno.
  - intros [= <-]. by exists [].
  - cbn [output_dependencies fmap list_fmap add_calculations]. intros H. apply bind_Ok in H as ([] & _ & H).
    destruct (bool_decide (is_Some (owners !! kks_calc r))); [done|]. cbn [orb] in H.
    destruct (bool_decide (is_Some (C !! kks_calc r))) eqn:EC; [done|]. apply bool_decide_eq_false, eq_None_not_Some in EC.
    pose proof He as [[_ Hnd] Hdeps]. assert (Hr : r ∈ e) by (rewrite Ha; set_solver).
    assert (Hres := resolve_rule owners R e r Hnd Hr Hout). destruct (foldl _ _ _) as [found kn]. cbn [fst snd] in Hres.
    assert (Hres' : resolution owners e (kks_calc r) (if kn then found else [], kn)).
    { apply Hres.
      - intros d Hd Ho. apply Hin. by eapply Hdeps.
      - intros d Hd. apply Hno. intros Hd'. apply Hd. rewrite Ha. unfold output_names in *. rewrite fmap_app. set_solver. }
    edestruct (IH (a ++ [r])) as (tcs & Ht & Hp); [by rewrite <- app_assoc|exact Hout| | |exact H|].
    + intros c Hc. unfold output_names in Hc. rewrite fmap_app in Hc. destruct (decide (kks_calc r = c)) as [<-|Hne].
      * rewrite lookup_insert_eq. by eexists.
      * rewrite lookup_insert_ne by done. apply Hin. set_solver.
    + intros c Hc. unfold output_names in Hc. rewrite fmap_app in Hc. rewrite lookup_insert_ne by set_solver. apply Hno. set_solver.
    + match type of H with add_calculations _ _ _ (<[_ := ?tc]> _) = _ => exists (tc :: tcs) end. split.
      * constructor; [|done]. split_and!; [done..|]. by exists kn.
      * rewrite Hp, map_to_list_insert by done. cbn [fmap list_fmap app]. by rewrite <- Permutation_middle.
Qed.

(** ** The built manifest *)

Record manifest_ok (ports : list SerialPortConfig) (e : CalcEngine) (m : TopologyManifest) : Prop := {
  mo_owned : NoDup (all_owned ports).*1;
  mo_apart : forall c, c ∈ output_names e -> c ∉ (all_owned ports).*1;
  mo_port_ids : NoDup (tp_port_id <$> tm_ports m);
  mo_ports : exists tps, tm_ports m ≡ₚ tps /\ Forall2 port_matches ports tps;
  mo_calc_ids : NoDup (tc_node_id <$> tm_calculations m);
  mo_calcs : exists tcs, tm_calculations m ≡ₚ tcs /\ Forall2 (calculation_ok (owner_map (all_owned ports)) e) e tcs;
  mo_version : tm_schema_version m = TOPOLOGY_SCHEMA_VERSION
}.

Lemma values_of {A} (id : A -> string) (m : gmap string A) (l : list A) :
  map_to_list m ≡ₚ ((fun x => (id x, x)) <$> l) ++ map_to_list (∅ : gmap string A) ->
  into_values m ≡ₚ l /\ NoDup (id <$> into_values m).
Proof.
  rewrite map_to_list_empty, app_nil_r. intros H.
  assert (Hv : into_values m ≡ₚ l) by (rewrite into_values_perm, H, <- list_fmap_compose; by rewrite list_fmap_id).
  split; [done|]. rewrite Hv. pose proof (NoDup_fst_map_to_list m) as Hn. by rewrite H, <- list_fmap_compose in Hn.
Qed.

Lemma build_ok config ports e m : new config = Some (Ok e) -> build ports e = Ok m -> manifest_ok ports e m.
Proof.
  intros He%new_engine_ok H. unfold build in H. apply bind_Ok in H as ([pm owners] & H1 & H).
  apply bind_Ok in H as (cm & H2 & [= <-]). apply add_ports_spec in H1 as ((tps & Hpm & Hm) & Hnd & _ & Hv).
  assert (Ho : owners = owner_map (all_owned ports)).
  { apply map_eq. intros k. rewrite Hv, lookup_empty. by destruct (owner_map (all_owned ports) !! k). }
  subst owners. assert (Hout : forall c, c ∈ output_names e -> owner_map (all_owned ports) !! c = None).
  { intros c Hc. eapply add_calculations_fresh; [exact H2|]. unfold output_dependencies. by rewrite <- list_fmap_compose. }
  destruct (add_calculations_spec (owner_map (all_owned ports)) e [] e ∅ ∅ cm He) as (tcs & Htc & Hp);
    [done|done|by intros c ?%elem_of_nil|by intros; apply lookup_empty|done|].
  destruct (values_of tp_port_id _ _ Hm) as [Hp1 Hp2]. destruct (values_of tc_node_id _ _ Hp) as [Hc1 Hc2]. split; cbn; try done.
  - intros c Hc. by apply not_elem_of_list_to_map_2, Hout.
  - by exists tps.
  - by exists tcs.
Qed.

Lemma owned_keys ports : (all_owned ports).*1 = (device_points ports).*1.
Proof.
  unfold all_owned, device_points, owned_points. induction ports as [|p ports IH]; [done|]. cbn [mbind list_bind].
  rewrite !fmap_app, IH. f_equal. clear. induction (sp_devices p) as [|d ds IH]; [done|]. cbn [mbind list_bind]. rewrite !fmap_app, IH.
  f_equal. by rewrite <- !list_fmap_compose.
Qed.

(** ** What the manifest promises *)

Lemma NoDup_device_keys ports : NoDup (sp_port_number <$> ports) ->
  (forall p, p ∈ ports -> NoDup ((fun d => device_id (dc_config d)) <$> sp_devices p)) -> NoDup (device_key <$> devices_of ports).
Proof.
  intros Hn. unfold devices_of. induction ports as [|p ports IH]; intros Hd; [constructor|]. cbn [mbind list_bind fmap list_fmap] in *.
  apply NoDup_cons in Hn as [Hp Hn]. rewrite fmap_app. apply NoDup_app. split_and!.
  - rewrite <- list_fmap_compose. apply (NoDup_fmap_1 snd). rewrite <- list_fmap_compose. apply Hd. set_solver.
  - intros k Hk Hk'. apply Hp. apply list_elem_of_fmap in Hk as (pd & -> & Hk). apply list_elem_of_fmap in Hk as (d & -> & _).
    apply list_elem_of_fmap in Hk' as (pd & Hk' & Hin). apply list_elem_of_bind in Hin as (q & Hin & Hq).
    apply list_elem_of_fmap in Hin as (d' & -> & _). injection Hk' as Heq _. cbn in Heq. rewrite Heq. by apply list_elem_of_fmap_2.
  - apply IH; [done|]. intros q Hq. apply Hd. set_solver.
Qed.

Lemma matched_ids ports tps : Forall2 port_matches ports tps -> tp_port_id <$> tps = sp_port_number <$> ports.
Proof. induction 1 as [|p tp ps tps (H & _) _ IH]; [done|]. cbn [fmap list_fmap]. by rewrite H, IH. Qed.

Lemma matched_points ports tps : Forall2 port_matches ports tps ->
  (p ← tps; d ← tp_devices p; td_node_ids d) ≡ₚ (all_owned ports).*1.
Proof.
  unfold all_owned. induction 1 as [|p tp ps tps (_ & _ & _ & _ & H & _) _ IH]; [done|]. cbn [mbind list_bind]. rewrite fmap_app, IH.
  apply Permutation_app_tail. rewrite H. unfold owned_points. clear. induction (sp_devices p) as [|d ds IH]; [done|].
  cbn [mbind list_bind fmap list_fmap]. rewrite fmap_app, <- list_fmap_compose. cbn [td_node_ids topology_device].
  by rewrite sort_strings_perm, IH.
Qed.

Lemma matched_calculations owners e rs tcs : Forall2 (calculation_ok owners e) rs tcs -> tc_node_id <$> tcs = output_names rs.
Proof. unfold output_names. induction 1 as [|r tc rs tcs (H & _) _ IH]; [done|]. cbn [fmap list_fmap]. by rewrite H, IH. Qed.

Lemma manifest_nodes ports e m : manifest_ok ports e m -> data_node_ids m ≡ₚ (device_points ports).*1 ++ output_names e.
Proof.
  intros [_ _ _ (tps & Hp & Hpm) _ (tcs & Hc & Hcm) _]. unfold data_node_ids. rewrite Hp, Hc.
  by rewrite (matched_points _ _ Hpm), (matched_calculations _ _ _ _ Hcm), owned_keys.
Qed.

Lemma manifest_keys ports e m : manifest_ok ports e m -> NoDup (sp_port_number <$> ports) /\ NoDup (device_key <$> devices_of ports).
Proof.
  intros [_ _ Hids (tps & Hp & Hpm) _ _ _]. rewrite Hp, (matched_ids _ _ Hpm) in Hids. split; [done|].
  apply NoDup_device_keys; [done|]. intros p [i Hi]%list_elem_of_lookup_1.
  destruct (Forall2_lookup_l _ _ _ _ _ Hpm Hi) as (tp & _ & _ & _ & _ & _ & Hd & Hnd & _). rewrite Hd in Hnd.
  rewrite <- list_fmap_compose in Hnd. apply (NoDup_fmap_1 pretty). by rewrite <- list_fmap_compose.
Qed.

Lemma manifest_owners ports e m c : manifest_ok ports e m -> c ∈ tm_calculations m ->
  NoDup (tc_owners c) /\
  forall o, o ∈ tc_owners c <-> (forall x, leaf e (tc_node_id c) x -> x ∈ (device_points ports).*1) /\
                                exists x, leaf e (tc_node_id c) x /\ (x, o) ∈ all_owned ports.
Proof.
  intros [Hnd _ _ _ _ (tcs & Hc & Hcm) _] Hin. rewrite Hc in Hin. apply list_elem_of_lookup_1 in Hin as [i Hi].
  destruct (Forall2_lookup_r _ _ _ _ _ Hcm Hi) as (r & _ & -> & _ & b & Hn & Hb & Ho & He). cbn [fst snd] in *. split; [done|].
  assert (Hk : forall x, is_Some (owner_map (all_owned ports) !! x) <-> x ∈ (device_points ports).*1).
  { intros x. rewrite <- owned_keys. split.
    - intros [o Hx%elem_of_list_to_map_2]. by apply (list_elem_of_fmap_2 fst) in Hx.
    - intros ([? o] & -> & Hx)%list_elem_of_fmap. exists o. by apply elem_of_list_to_map_1. }
  assert (Hv : forall x o, owner_map (all_owned ports) !! x = Some o <-> (x, o) ∈ all_owned ports) by (intros; by rewrite <- elem_of_list_to_map).
  setoid_rewrite Hk in Hb. setoid_rewrite Hv in Ho. intros o. destruct b.
  - rewrite Ho by done. split; [|tauto]. intros H. split; [by apply Hb|done].
  - rewrite He by done. split; [by intros ?%elem_of_nil|]. intros [H _]. by apply Hb in H.
Qed.

(** C30: the manifest lists the whole configuration, and the owners of a
    calculation are those of the points it reads.  If the manifest is built for
    an engine of [CalcEngine::new], the ports have different names, no port has
    two devices with one address, and the data nodes of the manifest are each
    point of each device and each output, once.  A calculation's owners are
    listed once each; they are the devices of the points it reads, directly or
    through other calculations, or none at all if one of those points belongs to
    no device. *)
Theorem manifest_complete config ports e m :
  new config = Some (Ok e) -> build ports e = Ok m ->
  NoDup (sp_port_number <$> ports) /\ NoDup (device_key <$> devices_of ports) /\
  NoDup (data_node_ids m) /\ data_node_ids m ≡ₚ (device_points ports).*1 ++ output_names e /\
  forall c, c ∈ tm_calculations m ->
    NoDup (tc_owners c) /\
    forall o, o ∈ tc_owners c <-> (forall x, leaf e (tc_node_id c) x -> x ∈ (device_points ports).*1) /\
                                  exists x, leaf e (tc_node_id c) x /\ (x, o) ∈ all_owned ports.
Proof.
  intros He Hm. pose proof (build_ok _ _ _ _ He Hm) as Hok. destruct (manifest_keys _ _ _ Hok) as [Hp Hd].
  split_and!; [done|done| |by eapply manifest_nodes|intros c; by apply manifest_owners].
  rewrite (manifest_nodes _ _ _ Hok), <- owned_keys. apply NoDup_app. split_and!; [apply (mo_owned _ _ _ Hok)| |].
  - intros x Hx Hx'. by apply (mo_apart _ _ _ Hok) in Hx'.
  - by destruct (new_engine_ok _ _ He) as [[_ ?] _].
Qed.

(** ** The metadata nodes *)

Inductive TopologyType := TString | TStrings | TUInt32 | TUInt16 | TByte | TBoolean | TDateTime | TByteString.
#[export] Instance topology_type_eq_dec : EqDecision TopologyType.
Proof. solve_decision. Defined.

Inductive TopologyValue :=
| TvString (s : string)
| TvStrings (l : list string)
| TvUInt32 (n : Z)
| TvUInt16 (n : Z)
| TvByte (n : Z)
| TvBoolean (b : bool)
| TvDateTime (t : option string)
| TvByteString (bs : list Z).

Definition topology_value_type (v : TopologyValue) : TopologyType :=
  match v with
  | TvString _ => TString
  | TvStrings _ => TStrings
  | TvUInt32 _ => TUInt32
  | TvUInt16 _ => TUInt16
  | TvByte _ => TByte
  | TvBoolean _ => TBoolean
  | TvDateTime _ => TDateTime
  | TvByteString _ => TByteString
  end.

(** A folder, or a read-only variable with its declared type. *)
Inductive TopologyNode := Folder | TopologyVariable (type_ : TopologyType) (value : TopologyValue).

(** A reference leads to a node of this namespace or of the business one. *)
Inductive Target := Own (id : string) | Business (id : string).

(** [is_ascii_alphanumeric] or one of [-_.~]. *)
Definition plain_byte (c : ascii) : bool := is_ascii_alphanumeric c || one_of "-_.~" c.
Definition encode_byte (c : ascii) : list ascii :=
  if plain_byte c then [c]
  else ["%"%char; hex_digit (code c / 16); hex_digit (code c mod 16)].
Definition path_component (value : string) : string := text (chars value ≫= encode_byte).

Example path_slash : path_component "/dev/tty%1" = "%2Fdev%2Ftty%251".
Proof. reflexivity. Qed.

Definition add_string (parent_path name value : string) : string * TopologyNode :=
  (parent_path +:+ "/" +:+ name, TopologyVariable TString (TvString value)).

Definition station_version_nodes (device_path : string) : list (string * TopologyNode) :=
  ((fun nv => (device_path +:+ "/" +:+ nv.1, TopologyVariable TString (TvString nv.2))) <$>
     [("ConfiguredModuleType", "unknown"); ("DetectedModuleType", "unknown"); ("CommunicationModuleVersion", "");
      ("PLCVersion", ""); ("VersionState", "never_queried"); ("LastVersionError", "")])
  ++ ((fun name => (device_path +:+ "/" +:+ name, TopologyVariable TDateTime (TvDateTime None))) <$>
     ["LastVersionAttemptAt"; "LastVersionSuccessAt"])
  ++ ((fun name => (device_path +:+ "/" +:+ name, TopologyVariable TBoolean (TvBoolean false))) <$> ["TypeMismatch"; "Stale"])
  ++ ((fun name => (device_path +:+ "/" +:+ name, TopologyVariable TUInt16 (TvUInt16 0))) <$>
     ["CommunicationModuleVersionRaw"; "PLCVersionRaw"])
  ++ [(device_path +:+ "/VersionPayload", TopologyVariable TByteString (TvByteString []));
      (device_path +:+ "/ConsecutiveFailures", TopologyVariable TUInt32 (TvUInt32 0))].

Definition port_path (port_id : string) : string := "Topology/Ports/" +:+ path_component port_id.
Definition device_path (port_id device_id : string) : string := port_path port_id +:+ "/Devices/" +:+ device_id.
Definition calculation_path (node_id : string) : string := "Topology/Calculations/" +:+ path_component node_id.

Definition device_nodes (port_id : string) (d : TopologyDevice) : list (string * TopologyNode) :=
  let path := device_path port_id (td_device_id d) in
  [(path, Folder); add_string path "DeviceId" (td_device_id d); add_string path "Name" (td_name d);
   add_string path "KksPrefix" (td_kks_prefix d);
   (path +:+ "/DeviceAddress", TopologyVariable TByte (TvByte (td_device_address d)))]
  ++ station_version_nodes path ++ [(path +:+ "/Points", Folder)].

Definition port_nodes (p : TopologyPort) : list (string * TopologyNode) :=
  let path := port_path (tp_port_id p) in
  [(path, Folder); add_string path "PortId" (tp_port_id p); add_string path "PortName" (tp_port_name p);
   add_string path "SendNodeId" (tp_send_node_id p); add_string path "SendMethodId" (tp_send_method_id p);
   add_string path "SendMethodObjectId" "Methods";
   (path +:+ "/Commands", Folder); (path +:+ "/Devices", Folder)]
  ++ (tp_devices p ≫= device_nodes (tp_port_id p)).

Definition calculation_nodes (c : TopologyCalculation) : list (string * TopologyNode) :=
  let path := calculation_path (tc_node_id c) in
  [(path, Folder); add_string path "NodeId" (tc_node_id c);
   (path +:+ "/DependencyNodeIds", TopologyVariable TStrings (TvStrings (tc_dependency_node_ids c)));
   (path +:+ "/Result", Folder); (path +:+ "/Dependencies", Folder); (path +:+ "/Owners", Folder)].

(** The nodes in the order of creation. *)
Definition topology_nodes (m : TopologyManifest) (manifest_json : string) : list (string * TopologyNode) :=
  [("Topology", Folder); ("Topology/Manifest", TopologyVariable TString (TvString manifest_json));
   ("Topology/SchemaVersion", TopologyVariable TUInt32 (TvUInt32 (tm_schema_version m))); ("Topology/Ports", Folder)]
  ++ (tm_ports m ≫= port_nodes) ++ [("Topology/Calculations", Folder)] ++ (tm_calculations m ≫= calculation_nodes).

(** The references to nodes other than the parent. *)
Definition port_references (p : TopologyPort) : list (string * Target) :=
  (port_path (tp_port_id p) +:+ "/Commands", Business (tp_send_node_id p)) ::
  (d ← tp_devices p; (fun id => (device_path (tp_port_id p) (td_device_id d) +:+ "/Points", Business id)) <$> td_node_ids d).

Definition calculation_references (known_nodes : list string) (c : TopologyCalculation) : list (string * Target) :=
  let path := calculation_path (tc_node_id c) in
  [(path +:+ "/Result", Business (tc_node_id c))]
  ++ ((fun id => (path +:+ "/Dependencies", Business id)) <$> filter (fun id => id ∈ known_nodes) (tc_dependency_node_ids c))
  ++ ((fun o => (path +:+ "/Owners", Own (device_path (ow_port_id o) (ow_device_id o)))) <$> tc_owners c)
  ++ match tc_owners c with
     | [o] => [(device_path (ow_port_id o) (ow_device_id o) +:+ "/Points", Business (tc_node_id c))]
     | _ => []
     end.

Definition topology_references (m : TopologyManifest) : list (string * Target) :=
  (tm_ports m ≫= port_references) ++ (tm_calculations m ≫= calculation_references (data_node_ids m)).

Fixpoint create_nodes (space : gmap string TopologyNode) (nodes : list (string * TopologyNode))
    : result string (gmap string TopologyNode) :=
  match nodes with
  | [] => Ok space
  | (id, node) :: nodes =>
      match space !! id with
      | Some _ =>
          Err (match node with Folder => "拓扑文件夹创建失败: " | TopologyVariable _ _ => "拓扑只读变量创建失败: " end +:+ id)
      | None => create_nodes (<[id := node]> space) nodes
      end
  end.

Definition create_topology_nodes (space : gmap string TopologyNode) (m : TopologyManifest) (manifest_json : string)
    : result string (gmap string TopologyNode * list (string * Target)) :=
  space ← create_nodes space (topology_nodes m manifest_json); Ok (space, topology_references m).

Definition referenced_ids (m : TopologyManifest) : list string :=
  data_node_ids m ++ (p ← tm_ports m; [tp_send_node_id p; tp_send_method_id p]).

Definition publish_topology (business : AddressSpace) (m : TopologyManifest) (manifest_json : string)
    : result string (gmap string TopologyNode * list (string * Target)) :=
  match List.find (fun id => bool_decide (business !! id = None)) (referenced_ids m) with
  | Some id => Err ("拓扑引用的业务节点不存在: " +:+ id)
  | None => create_topology_nodes ∅ m manifest_json
  end.

(** ** Paths are unambiguous *)

(** The segments between slashes. *)
Fixpoint segments (s : string) : list string :=
  match s with
  | EmptyString => [EmptyString]
  | String c s =>
      if Ascii.eqb c "/" then EmptyString :: segments s
      else match segments s with h :: t => String c h :: t | [] => [String c EmptyString] end
  end.

Lemma segments_cons s : exists h t, segments s = h :: t.
Proof. destruct s as [|c s]; [by do 2 eexists|]. cbn [segments]. case_match; [by do 2 eexists|]. destruct (segments s); by do 2 eexists. Qed.

Lemma segments_app a b : segments (a +:+ String "/" b) = segments a ++ segments b.
Proof.
  induction a as [|c a IH]; [done|]. change (String c a +:+ String "/" b) with (String c (a +:+ String "/" b)). cbn [segments].
  rewrite IH. case_match; [done|]. by destruct (segments_cons a) as (h & t & ->).
Qed.

Lemma segments_slash a b : segments (a +:+ "/" +:+ b) = segments a ++ segments b.
Proof. apply segments_app. Qed.

Definition no_slash (s : string) : Prop := Forall (fun c => c <> "/"%char) (chars s).

Lemma segments_one s : no_slash s -> segments s = [s].
Proof.
  unfold no_slash. induction s as [|c s IH]; [done|]. intros [Hc Hs]%Forall_cons. cbn [segments].
  destruct (Ascii.eqb_spec c "/"); [done|]. by rewrite IH.
Qed.

(** The characters of a decimal number. *)
Lemma pretty_Forall (P : ascii -> Prop) (z : Z) : (forall n, P (pretty_N_char n)) -> P "-"%char -> Forall P (chars (pretty z)).
Proof.
  intros Hd Hm. assert (Hgo : forall x s, Forall P (chars s) -> Forall P (chars (pretty_N_go x s))).
  { intros x. induction (N.lt_wf_0 x) as [x _ IH]. intros s Hs. destruct (decide (x = 0)%N) as [->|]; [done|].
    rewrite pretty_N_go_step by lia. apply IH; [apply N.div_lt; lia|]. by constructor. }
  pose proof (Hd 0%N) as H0. assert (Hn : forall n : N, Forall P (chars (pretty n))).
  { intros n. unfold pretty, pretty_N. case_decide; [by repeat constructor|]. apply Hgo. constructor. }
  unfold pretty, pretty_Z. case_match; [by repeat constructor|apply Hn|]. constructor; [done|]. apply Hn.
Qed.

Lemma pretty_no_slash (z : Z) : no_slash (pretty z).
Proof. apply pretty_Forall; [|done]. intros n. unfold pretty_N_char. by repeat case_match. Qed.

Definition decode_head (cs : list ascii) : option (ascii * list ascii) :=
  match cs with
  | [] => None
  | c :: cs =>
      if Ascii.eqb c "%" then
        match cs with
        | a :: b :: cs => x ← hex_value a; y ← hex_value b; Some (ascii_of_nat (Z.to_nat (16 * x + y)), cs)
        | _ => None
        end
      else Some (c, cs)
  end.

Lemma decode_encode_byte c cs : decode_head (encode_byte c ++ cs) = Some (c, cs).
Proof. by destruct c as [[] [] [] [] [] [] [] []]. Qed.

Lemma encode_no_slash c : Forall (fun c => c <> "/"%char) (encode_byte c).
Proof. destruct c as [[] [] [] [] [] [] [] []]; vm_compute; by repeat constructor. Qed.

#[export] Instance path_component_inj : Inj (=) (=) path_component.
Proof.
  intros a b H. unfold path_component in H. apply (f_equal chars) in H. unfold text, chars in H.
  rewrite !list_ascii_of_string_of_list_ascii in H. fold (chars a) (chars b) in H.
  assert (Hl : forall l l', l ≫= encode_byte = l' ≫= encode_byte -> l = l').
  { induction l as [|c l IH]; intros [|c' l'] Heq; cbn [mbind list_bind] in Heq; [done| | |].
    - apply (f_equal decode_head) in Heq. by rewrite decode_encode_byte in Heq.
    - apply (f_equal decode_head) in Heq. by rewrite decode_encode_byte in Heq.
    - apply (f_equal decode_head) in Heq. rewrite !decode_encode_byte in Heq. injection Heq as -> Heq. f_equal. by apply IH. }
  apply Hl in H. apply (f_equal string_of_list_ascii) in H. unfold chars in H. by rewrite !string_of_list_ascii_of_string in H.
Qed.

Lemma path_component_no_slash s : no_slash (path_component s).
Proof.
  unfold no_slash, path_component, text, chars. rewrite list_ascii_of_string_of_list_ascii. fold (chars s).
  induction (chars s) as [|c l IH]; [constructor|]. cbn [mbind list_bind]. apply Forall_app. split; [apply encode_no_slash|done].
Qed.

(** A closed decidable goal, by evaluation. *)
Ltac decide_closed := match goal with |- ?P => refine (bool_decide_unpack P _); vm_compute; exact I end.

Lemma NoDup_groups {X} (key : X -> string) (f : X -> list (list string)) xs :
  NoDup (key <$> xs) -> (forall x, x ∈ xs -> NoDup (f x)) -> NoDup (x ← xs; cons (key x) <$> f x).
Proof.
  induction xs as [|x xs IH]; intros Hk Hf; [constructor|]. cbn [mbind list_bind fmap list_fmap] in *.
  apply NoDup_cons in Hk as [Hx Hk]. apply NoDup_app. split_and!.
  - apply NoDup_fmap; [by intros ? ? [= ->]|]. apply Hf. set_solver.
  - intros l Hl Hl'. apply list_elem_of_fmap in Hl as (l1 & -> & _). apply list_elem_of_bind in Hl' as (y & Hl' & Hy).
    apply list_elem_of_fmap in Hl' as (l2 & [= Heq _] & _). apply Hx. rewrite Heq. by apply list_elem_of_fmap_2.
  - apply IH; [done|]. intros y Hy. apply Hf. set_solver.
Qed.

(** A folder with named entries and one more folder. *)
Lemma NoDup_folder (names : list string) (sub : string) (l : list (list string)) :
  NoDup (sub :: names) -> NoDup l -> NoDup ([] :: ((fun n => [n]) <$> names) ++ (cons sub <$> l)).
Proof.
  intros [Hs Hn]%NoDup_cons Hl. constructor.
  - rewrite elem_of_app. intros [(? & ? & ?)%list_elem_of_fmap|(? & ? & ?)%list_elem_of_fmap]; done.
  - apply NoDup_app. split_and!.
    + apply NoDup_fmap; [by intros ? ? [= ->]|done].
    + intros x (n & -> & Hin)%list_elem_of_fmap (y & [= <- _] & _)%list_elem_of_fmap. done.
    + apply NoDup_fmap; [by intros ? ? [= ->]|done].
Qed.

Definition device_entries : list string :=
  ["DeviceId"; "Name"; "KksPrefix"; "DeviceAddress"; "ConfiguredModuleType"; "DetectedModuleType"; "CommunicationModuleVersion";
   "PLCVersion"; "VersionState"; "LastVersionError"; "LastVersionAttemptAt"; "LastVersionSuccessAt"; "TypeMismatch"; "Stale";
   "CommunicationModuleVersionRaw"; "PLCVersionRaw"; "VersionPayload"; "ConsecutiveFailures"; "Points"].
Definition port_entries : list string :=
  ["PortId"; "PortName"; "SendNodeId"; "SendMethodId"; "SendMethodObjectId"; "Commands"].
Definition calculation_entries : list string := ["NodeId"; "DependencyNodeIds"; "Result"; "Dependencies"; "Owners"].

Definition device_paths : list (list string) := [] :: ((fun n => [n]) <$> device_entries).
Definition port_paths (p : TopologyPort) : list (list string) :=
  [] :: ((fun n => [n]) <$> port_entries)
  ++ (cons "Devices" <$> ([] :: (d ← tp_devices p; cons (td_device_id d) <$> device_paths))).
Definition calculation_paths : list (list string) := [] :: ((fun n => [n]) <$> calculation_entries).

Definition segments_of {A} (nodes : list (string * A)) : list (list string) := (segments ∘ fst) <$> nodes.

Lemma segments_of_app {A} (l l' : list (string * A)) : segments_of (l ++ l') = segments_of l ++ segments_of l'.
Proof. apply fmap_app. Qed.

Lemma segments_of_bind {X A} (f : X -> list (string * A)) (pre : list string) (key : X -> string) (paths : X -> list (list string)) xs :
  (forall x, x ∈ xs -> segments_of (f x) = (fun l => pre ++ key x :: l) <$> paths x) ->
  segments_of (xs ≫= f) = app pre <$> (x ← xs; cons (key x) <$> paths x).
Proof.
  induction xs as [|x xs IH]; intros H; [done|]. cbn [mbind list_bind]. rewrite segments_of_app, IH, fmap_app by set_solver.
  f_equal. rewrite H by set_solver. by rewrite <- list_fmap_compose.
Qed.

Lemma port_path_segments port : segments (port_path port) = ["Topology"; "Ports"; path_component port].
Proof.
  unfold port_path. change ("Topology/Ports/" +:+ path_component port) with ("Topology" +:+ String "/" ("Ports" +:+ String "/" (path_component port))).
  by rewrite !segments_app, (segments_one (path_component _)) by apply path_component_no_slash.
Qed.

Lemma device_path_segments port d : no_slash d -> segments (device_path port d) = ["Topology"; "Ports"; path_component port; "Devices"; d].
Proof.
  intros Hd. unfold device_path. change ("/Devices/" +:+ d) with (String "/" ("Devices" +:+ String "/" d)).
  by rewrite !segments_app, port_path_segments, (segments_one d).
Qed.

Lemma calculation_path_segments c : segments (calculation_path c) = ["Topology"; "Calculations"; path_component c].
Proof.
  unfold calculation_path. change ("Topology/Calculations/" +:+ path_component c) with ("Topology" +:+ String "/" ("Calculations" +:+ String "/" (path_component c))).
  by rewrite !segments_app, (segments_one (path_component _)) by apply path_component_no_slash.
Qed.

Lemma device_nodes_segments port d : no_slash (td_device_id d) ->
  segments_of (device_nodes port d) = (fun l => ["Topology"; "Ports"; path_component port; "Devices"] ++ td_device_id d :: l) <$> device_paths.
Proof.
  intros Hd%(device_path_segments port). unfold device_nodes, segments_of. set (path := device_path port (td_device_id d)) in *.
  unfold station_version_nodes, add_string. cbn [fmap list_fmap app compose fst]. unfold compose. cbn [fst].
  rewrite !segments_slash, !segments_app, Hd. reflexivity.
Qed.

Lemma port_nodes_segments p : Forall (fun d => no_slash (td_device_id d)) (tp_devices p) ->
  segments_of (port_nodes p) = (fun l => ["Topology"; "Ports"] ++ path_component (tp_port_id p) :: l) <$> port_paths p.
Proof.
  intros Hd. unfold port_nodes. pose proof (port_path_segments (tp_port_id p)) as Hp. rewrite segments_of_app.
  rewrite (segments_of_bind _ ["Topology"; "Ports"; path_component (tp_port_id p); "Devices"] td_device_id (fun _ => device_paths)).
  2: { intros d Hin. apply device_nodes_segments. by eapply Forall_forall in Hd. }
  unfold port_paths. rewrite fmap_cons, fmap_app, <- list_fmap_compose. unfold segments_of, add_string. set (path := port_path _) in *.
  cbn [fmap list_fmap app compose fst port_entries]. unfold compose. cbn [fst app]. rewrite !segments_slash, !segments_app, Hp, <- list_fmap_compose. reflexivity.
Qed.

Lemma calculation_nodes_segments c :
  segments_of (calculation_nodes c) = (fun l => ["Topology"; "Calculations"] ++ path_component (tc_node_id c) :: l) <$> calculation_paths.
Proof.
  pose proof (calculation_path_segments (tc_node_id c)) as Hp. unfold calculation_nodes, segments_of, add_string.
  set (path := calculation_path _) in *. cbn [fmap list_fmap app compose fst]. unfold compose. cbn [fst].
  by rewrite !segments_slash, !segments_app, Hp.
Qed.

(** What the names of a manifest must satisfy. *)
Record names_ok (m : TopologyManifest) : Prop := {
  no_ports : NoDup (tp_port_id <$> tm_ports m);
  no_devices : Forall (fun p => NoDup (td_device_id <$> tp_devices p)) (tm_ports m);
  no_numbers : Forall (fun p => Forall (fun d => no_slash (td_device_id d)) (tp_devices p)) (tm_ports m);
  no_calculations : NoDup (tc_node_id <$> tm_calculations m)
}.

Lemma manifest_names ports e m : manifest_ok ports e m -> names_ok m.
Proof.
  intros [_ _ Hids (tps & Hp & Hpm) Hcs _ _].
  assert (H : Forall (fun p => NoDup (td_device_id <$> tp_devices p) /\ Forall (fun d => no_slash (td_device_id d)) (tp_devices p)) (tm_ports m)).
  { rewrite Hp. apply Forall_forall. intros tp [i Hi]%list_elem_of_lookup_1.
    destruct (Forall2_lookup_r _ _ _ _ _ Hpm Hi) as (p & _ & _ & _ & _ & _ & Hd & Hnd & _). split; [done|]. rewrite Hd.
    apply Forall_fmap, Forall_true. intros d. apply pretty_no_slash. }
  split; [done|by eapply Forall_impl; [exact H|]; cbn; tauto..|done].
Qed.

Lemma port_paths_NoDup p : NoDup (td_device_id <$> tp_devices p) -> NoDup (port_paths p).
Proof.
  intros H. apply NoDup_folder; [decide_closed|].
  constructor; [by intros (d & (? & ? & ?)%list_elem_of_fmap & _)%list_elem_of_bind|].
  apply NoDup_groups; [done|]. intros d _. decide_closed.
Qed.

(** No two nodes share a path. *)
Lemma topology_paths m json : names_ok m -> NoDup (topology_nodes m json).*1.
Proof.
  intros [Hp Hd Hn Hc]. apply (NoDup_fmap_1 segments). rewrite <- list_fmap_compose. fold (segments_of (topology_nodes m json)).
  unfold topology_nodes. rewrite !segments_of_app.
  rewrite (segments_of_bind port_nodes ["Topology"; "Ports"] (path_component ∘ tp_port_id) port_paths).
  2: { intros p Hin. apply port_nodes_segments. by eapply Forall_forall in Hn. }
  rewrite (segments_of_bind calculation_nodes ["Topology"; "Calculations"] (path_component ∘ tc_node_id) (fun _ => calculation_paths)).
  2: { intros c _. apply calculation_nodes_segments. }
  set (P := p ← tm_ports m; _). set (C := c ← tm_calculations m; _).
  assert (HP : NoDup ([] :: P)).
  { constructor; [by intros (p & (? & ? & ?)%list_elem_of_fmap & _)%list_elem_of_bind|]. apply NoDup_groups.
    - rewrite list_fmap_compose. by apply (NoDup_fmap_2 path_component).
    - intros p Hin. apply port_paths_NoDup. by eapply Forall_forall in Hd. }
  assert (HC : NoDup ([] :: C)).
  { constructor; [by intros (p & (? & ? & ?)%list_elem_of_fmap & _)%list_elem_of_bind|]. apply NoDup_groups.
    - rewrite list_fmap_compose. by apply (NoDup_fmap_2 path_component).
    - intros c _. decide_closed. }
  assert (H : NoDup (cons "Topology" <$> ([] :: ((fun n => [n]) <$> ["Manifest"; "SchemaVersion"]) ++
                ((fun xl => xl.1 :: xl.2) <$> (((pair "Ports") <$> ([] :: P)) ++ ((pair "Calculations") <$> ([] :: C))))))).
  2: { revert H. rewrite fmap_app, <- !list_fmap_compose. cbn [fmap list_fmap app]. rewrite fmap_app, <- !list_fmap_compose. cbn [fmap list_fmap]. rewrite <- !list_fmap_compose. exact id. }
  apply (NoDup_fmap_2 _). constructor.
  - rewrite elem_of_app. intros [(? & ? & ?)%list_elem_of_fmap|(? & ? & ?)%list_elem_of_fmap]; done.
  - apply NoDup_app. split_and!.
    + decide_closed.
    + intros x (n & -> & Hin)%list_elem_of_fmap (y & Heq & [(z & -> & _)%list_elem_of_fmap|(z & -> & _)%list_elem_of_fmap]%elem_of_app)%list_elem_of_fmap;
        cbn in Heq; injection Heq as -> _; by repeat (apply elem_of_cons in Hin as [Hin|Hin]; [done|]); apply elem_of_nil in Hin.
    + apply NoDup_fmap; [intros [] [] [= -> ->]; done|]. apply NoDup_app. split_and!.
      * by apply (NoDup_fmap_2 _).
      * by intros x (z & -> & _)%list_elem_of_fmap (z' & [=] & _)%list_elem_of_fmap.
      * by apply (NoDup_fmap_2 _).
Qed.

(** ** Publication *)

Abbreviation node_map := (list_to_map (M := gmap string TopologyNode)).

Lemma create_nodes_all space nodes : NoDup nodes.*1 -> (forall k, k ∈ nodes.*1 -> space !! k = None) ->
  create_nodes space nodes = Ok (node_map nodes ∪ space).
Proof.
  revert space. induction nodes as [|[k n] nodes IH]; intros space; cbn [fmap list_fmap create_nodes fst].
  - intros _ _. cbn. by rewrite (left_id_L ∅ (∪)).
  - intros [Hk Hn]%NoDup_cons Hf. rewrite Hf by set_solver. rewrite IH; [|done|].
    + f_equal. cbn [list_to_map foldr]. rewrite <- insert_union_r, insert_union_l; [done|]. by apply not_elem_of_list_to_map_1.
    + intros k' Hk'. rewrite lookup_insert_ne; [apply Hf; set_solver|]. by intros ->.
Qed.

Definition is_variable (kn : string * TopologyNode) : bool := match kn.2 with TopologyVariable _ _ => true | Folder => false end.
Definition variable_count (nodes : list (string * TopologyNode)) : nat := length (filter is_variable nodes).

Lemma variable_count_app l l' : variable_count (l ++ l') = (variable_count l + variable_count l')%nat.
Proof. unfold variable_count. by rewrite filter_app, length_app. Qed.

Lemma variable_count_bind {X} (f : X -> list (string * TopologyNode)) (n : X -> nat) xs :
  (forall x, variable_count (f x) = n x) -> variable_count (xs ≫= f) = sum_list (n <$> xs).
Proof. intros H. induction xs as [|x xs IH]; [done|]. cbn [mbind list_bind fmap list_fmap sum_list foldr]. by rewrite variable_count_app, IH, H. Qed.

Lemma port_variables p : variable_count (port_nodes p) = (5 + 18 * length (tp_devices p))%nat.
Proof.
  unfold port_nodes. rewrite variable_count_app, (variable_count_bind _ (fun _ => 18%nat)) by done.
  assert (H : sum_list ((fun _ => 18%nat) <$> tp_devices p) = (18 * length (tp_devices p))%nat).
  { induction (tp_devices p) as [|d ds IH]; [done|]. cbn [fmap list_fmap sum_list_with length id] in *. lia. }
  by rewrite H.
Qed.

Lemma topology_variables m json : variable_count (topology_nodes m json) = metadata_variable_count m.
Proof.
  unfold topology_nodes. rewrite !variable_count_app, (variable_count_bind _ _ _ port_variables), (variable_count_bind _ (fun _ => 2%nat)) by done.
  unfold metadata_variable_count, device_count. change (variable_count _) with 2%nat at 1. change (variable_count [_]) with 0%nat.
  assert (Hc : sum_list ((fun _ => 2%nat) <$> tm_calculations m) = (length (tm_calculations m) * 2)%nat).
  { induction (tm_calculations m) as [|d ds IH]; [done|]. cbn [fmap list_fmap sum_list_with length id] in *. lia. }
  assert (Hp : sum_list ((fun p => (5 + 18 * length (tp_devices p))%nat) <$> tm_ports m) =
               (length (tm_ports m) * 5 + sum_list (length ∘ tp_devices <$> tm_ports m) * 18)%nat).
  { induction (tm_ports m) as [|d ds IH]; [done|]. cbn [fmap list_fmap sum_list_with length id] in *. unfold compose in *. lia. }
  rewrite Hc, Hp. lia.
Qed.

(** Folders of the manifest. *)
Lemma in_port_nodes m json p kn : p ∈ tm_ports m -> kn ∈ port_nodes p -> kn ∈ topology_nodes m json.
Proof. intros Hp Hk. unfold topology_nodes. apply elem_of_app. right. apply elem_of_app. left. apply list_elem_of_bind. by exists p. Qed.
Lemma in_device_nodes m json p d kn : p ∈ tm_ports m -> d ∈ tp_devices p -> kn ∈ device_nodes (tp_port_id p) d -> kn ∈ topology_nodes m json.
Proof.
  intros Hp Hd Hk. apply (in_port_nodes _ _ p); [done|]. unfold port_nodes. apply elem_of_app. right. apply list_elem_of_bind. by exists d.
Qed.
Lemma in_calculation_nodes m json c kn : c ∈ tm_calculations m -> kn ∈ calculation_nodes c -> kn ∈ topology_nodes m json.
Proof. intros Hc Hk. unfold topology_nodes. rewrite !elem_of_app. right. right. right. apply list_elem_of_bind. by exists c. Qed.

(** An owner is a device of the manifest. *)
Lemma owner_device ports e m x o : manifest_ok ports e m -> (x, o) ∈ all_owned ports ->
  exists p d, p ∈ tm_ports m /\ d ∈ tp_devices p /\ ow_port_id o = tp_port_id p /\ ow_device_id o = td_device_id d.
Proof.
  intros [_ _ _ (tps & Hp & Hpm) _ _ _] (p & Hx & [i Hi]%list_elem_of_lookup_1)%list_elem_of_bind.
  apply list_elem_of_bind in Hx as (d & Hx & Hd). apply list_elem_of_fmap in Hx as (r & [= -> ->] & _).
  destruct (Forall2_lookup_l _ _ _ _ _ Hpm Hi) as (tp & Htp & Hid & _ & _ & _ & Hdev & _). exists tp, (topology_device d). split_and!.
  - rewrite Hp. by eapply list_elem_of_lookup_2.
  - rewrite Hdev. by apply list_elem_of_fmap_2.
  - by rewrite Hid.
  - done.
Qed.

Lemma elem_of_data_nodes m p d x : p ∈ tm_ports m -> d ∈ tp_devices p -> x ∈ td_node_ids d -> x ∈ data_node_ids m.
Proof. intros. apply elem_of_app. left. apply list_elem_of_bind. exists p. split; [|done]. apply list_elem_of_bind. by exists d. Qed.

Lemma calculation_node m c : c ∈ tm_calculations m -> tc_node_id c ∈ data_node_ids m.
Proof. intros. apply elem_of_app. right. by apply list_elem_of_fmap_2. Qed.

(** Both ends of every reference exist. *)
Lemma references_resolve ports e m json s t : manifest_ok ports e m -> (s, t) ∈ topology_references m ->
  (s, Folder) ∈ topology_nodes m json /\
  match t with Own id => (id, Folder) ∈ topology_nodes m json | Business id => id ∈ referenced_ids m end.
Proof.
  intros Hok [(p & Hr & Hp)%list_elem_of_bind|(c & Hr & Hc)%list_elem_of_bind]%elem_of_app.
  - apply elem_of_cons in Hr as [[= -> ->]|(d & Hr & Hd)%list_elem_of_bind].
    + split; [apply (in_port_nodes _ _ p); [done|]; unfold port_nodes; set_solver|].
      apply elem_of_app. right. apply list_elem_of_bind. exists p. set_solver.
    + apply list_elem_of_fmap in Hr as (x & [= -> ->] & Hx). split; [apply (in_device_nodes _ _ p d); [done..|]|].
      * unfold device_nodes. cbn zeta. apply elem_of_app. right. apply elem_of_app. right. by left.
      * apply elem_of_app. left. by eapply elem_of_data_nodes.
  - assert (Hown : forall o, o ∈ tc_owners c -> exists p d, p ∈ tm_ports m /\ d ∈ tp_devices p /\
             device_path (ow_port_id o) (ow_device_id o) = device_path (tp_port_id p) (td_device_id d)).
    { intros o Ho. destruct (manifest_owners _ _ _ c Hok Hc) as [_ H]. apply H in Ho as [_ (x & _ & Hx)].
      destruct (owner_device _ _ _ _ _ Hok Hx) as (p & d & Hp & Hd & -> & ->). by exists p, d. }
    assert (Hf : forall k, k ∈ (["/Result"; "/Dependencies"; "/Owners"] : list string) ->
                 (calculation_path (tc_node_id c) +:+ k, Folder) ∈ topology_nodes m json).
    { intros k Hk. apply (in_calculation_nodes _ _ c); [done|]. unfold calculation_nodes. set_solver. }
    unfold calculation_references in Hr. cbn zeta in Hr. rewrite !elem_of_app in Hr. destruct Hr as [Hr|[Hr|[Hr|Hr]]].
    + apply list_elem_of_singleton in Hr as [= -> ->]. split; [apply Hf; set_solver|].
      apply elem_of_app. left. by apply calculation_node.
    + apply list_elem_of_fmap in Hr as (x & [= -> ->] & [Hx _]%list_elem_of_filter). split; [apply Hf; set_solver|].
      apply elem_of_app. by left.
    + apply list_elem_of_fmap in Hr as (o & [= -> ->] & Ho). split; [apply Hf; set_solver|].
      destruct (Hown o Ho) as (p & d & Hp & Hd & ->). apply (in_device_nodes _ _ p d); [done..|]. by left.
    + destruct (tc_owners c) as [|o [|o' os]] eqn:Eo; [by apply elem_of_nil in Hr| |by apply elem_of_nil in Hr].
      apply list_elem_of_singleton in Hr as [= -> ->]. destruct (Hown o) as (p & d & Hp & Hd & ->); [set_solver|]. split.
      * apply (in_device_nodes _ _ p d); [done..|]. unfold device_nodes. cbn zeta. apply elem_of_app. right. apply elem_of_app. right. by left.
      * apply elem_of_app. left. by apply calculation_node.
Qed.

(** What the manifest refers to is in the business namespace. *)
Lemma referenced_exist ports e m x : manifest_ok ports e m -> x ∈ referenced_ids m -> x ∈ node_names ports e.
Proof.
  intros Hok. unfold referenced_ids, node_names. rewrite !elem_of_app, (manifest_nodes _ _ _ Hok), elem_of_app.
  intros [[H|H]|(tp & H & Htp)%list_elem_of_bind]; [tauto..|]. destruct Hok as [_ _ _ (tps & Hp & Hpm) _ _ _].
  rewrite Hp in Htp. apply list_elem_of_lookup_1 in Htp as [i Hi].
  destruct (Forall2_lookup_r _ _ _ _ _ Hpm Hi) as (p & Hip & _ & _ & Hs & Hm & _). apply list_elem_of_lookup_2 in Hip.
  rewrite Hs, Hm in H. apply elem_of_cons in H as [->|H].
  - right. right. left. unfold send_nodes. rewrite <- list_fmap_compose. apply list_elem_of_fmap. by exists p.
  - apply list_elem_of_singleton in H as ->. right. right. right. unfold planned_infrastructure_nodes. rewrite fmap_app.
    apply elem_of_app. right. apply list_elem_of_fmap. eexists. split; [|apply list_elem_of_bind; exists p; split; [by left|done]]. done.
Qed.

Lemma publish_topology_ok config ports e m space nodes json :
  new config = Some (Ok e) -> build_address_space ports e (length ports) = Ok (space, nodes) -> manifest_ok ports e m ->
  (forall x, x ∈ referenced_ids m -> is_Some (space !! x)) /\
  publish_topology space m json = Ok (node_map (topology_nodes m json), topology_references m).
Proof.
  intros He Hs Hok. assert (Hall : forall x, x ∈ referenced_ids m -> is_Some (space !! x)).
  { intros x Hx%(referenced_exist _ _ _ _ Hok). destruct (address_space_spec config ports e He) as [_ H].
    destruct (H _ _ Hs) as [Hin _]. rewrite <- planned_nodes_names in Hx. apply list_elem_of_fmap in Hx as ([k n] & -> & Hx).
    exists n. by apply Hin. }
  split; [done|]. unfold publish_topology. destruct (List.find _ _) as [x|] eqn:E.
  { apply List.find_some in E as [Hx Hn%bool_decide_eq_true]. apply list_elem_of_In, Hall in Hx as [? Hx]. congruence. }
  unfold create_topology_nodes. rewrite create_nodes_all; [|by eapply topology_paths, manifest_names|].
  - cbn [mbind result_bind]. by rewrite (right_id_L ∅ (∪)).
  - intros k _. apply lookup_empty.
Qed.

(** C29: a built manifest is published whole.  For the address space and the
    manifest of one configuration, publication succeeds: no two metadata nodes
    share a path, whatever characters the names of ports and formulas hold.  The
    space holds exactly the planned nodes, as many variables as the size estimate
    counts, and both ends of every reference exist: the source is a folder of
    the topology, the target a device folder of it or a node of the business
    namespace. *)
Theorem topology_published config ports e m space nodes json :
  new config = Some (Ok e) -> build ports e = Ok m -> build_address_space ports e (length ports) = Ok (space, nodes) ->
  exists topology references, publish_topology space m json = Ok (topology, references) /\
    map_to_list topology ≡ₚ topology_nodes m json /\ variable_count (map_to_list topology) = metadata_variable_count m /\
    forall source target, (source, target) ∈ references ->
      topology !! source = Some Folder /\
      match target with Own id => topology !! id = Some Folder | Business id => is_Some (space !! id) end.
Proof.
  intros He Hm Hs. pose proof (build_ok _ _ _ _ He Hm) as Hok. destruct (publish_topology_ok _ _ _ m _ _ json He Hs Hok) as [Hall Hp].
  pose proof (topology_paths m json (manifest_names _ _ _ Hok)) as Hnd.
  eexists _, _. split; [exact Hp|]. pose proof (map_to_list_to_map (M := gmap string) _ Hnd) as Hl. split_and!; [done| |].
  - rewrite <- (topology_variables m json). unfold variable_count. by rewrite Hl.
  - intros s t Ht. destruct (references_resolve _ _ _ json _ _ Hok Ht) as [H1 H2].
    split; [by apply elem_of_list_to_map_1|]. destruct t; [by apply elem_of_list_to_map_1|by apply Hall].
Qed.

(** ** Examples *)

Definition sample_rules := [make_rule "total" "double" "x + P2" f64_zero; make_rule "twice" "double" "total + total" f64_zero;
                            make_rule "single" "double" "P3 + P3" f64_zero; make_rule "lost" "double" "twice + other" f64_zero].
Definition sample_engine : CalcEngine := match new sample_rules with Some (Ok e) => e | _ => [] end.
Definition sample_manifest : TopologyManifest :=
  match build Namespace.toy_ports sample_engine with
  | Ok m => m
  | Err _ => {| tm_schema_version := 0; tm_ports := []; tm_calculations := [] |}
  end.

Lemma manifest_complete_witness :
  (fun c => (tc_node_id c, length (tc_owners c))) <$> tm_calculations sample_manifest
    = [("lost", 0%nat); ("single", 1%nat); ("total", 2%nat); ("twice", 2%nat)] /\
  NoDup (data_node_ids sample_manifest).
Proof.
  split; [vm_compute; reflexivity|].
  apply (manifest_complete sample_rules Namespace.toy_ports sample_engine sample_manifest); vm_compute; reflexivity.
Defined.

Lemma topology_published_witness :
  exists space nodes topology references, build_address_space Namespace.toy_ports sample_engine 2 = Ok (space, nodes) /\
    publish_topology space sample_manifest "{}" = Ok (topology, references) /\
    variable_count (map_to_list topology) = 74%nat.
Proof.
  destruct (build_address_space Namespace.toy_ports sample_engine 2) as [[space nodes]|err] eqn:E; [|vm_compute in E; discriminate].
  destruct (topology_published sample_rules Namespace.toy_ports sample_engine sample_manifest space nodes "{}")
    as (topology & references & Hp & _ & Hv & _); [vm_compute; reflexivity|vm_compute; reflexivity|exact E|].
  exists space, nodes, topology, references. split_and!; [done|done|]. rewrite Hv. vm_compute. reflexivity.
Defined.
