(* ===== verification/StationSync.v ===== *)
(** * Station versions in OPC UA (src/src/server/topology.rs,
      src/src/server/operations.rs, the station task of src/src/server/opcua.rs)

    The operations namespace, the updates that publish a snapshot of the
    station versions in the topology and in the operations namespace, and the
    task that polls the operations state and publishes it when its key changed.
    JSON text and the parser of time stamps are parameters. *)

From stdpp Require Import pretty.
From S2P Require Import Prelude RustStr RustFloat Model Parser Engine Csv Protocol Frames Maintenance Operations Namespace OpcSync Topology.
Open Scope string_scope.
Open Scope Z_scope.
Open Scope list_scope.

Inductive StationQuality :=
| StationGood | BadNotSupported | BadConfigurationError | UncertainLastUsableValue | StationBadNoCommunication
| StationWaiting.

Definition station_version_status (port_open communication_ok : bool) (record : StationVersionRecord) : StationQuality :=
  if bool_decide (configured_module_type record = LegacyRussian) then BadNotSupported
  else if type_mismatch record then BadConfigurationError
  else if String.eqb (version_state record) "success" && port_open && communication_ok then StationGood
  else if has_last_version record then UncertainLastUsableValue
  else if negb port_open || String.eqb (version_state record) "failed" then StationBadNoCommunication
  else StationWaiting.

Definition decode_payload (value : string) : list Z :=
  if negb (String.length value =? 8)%nat || negb (is_ascii value) then []
  else match hex_pairs (chars value) with Ok bs => bs | Err _ => [] end.

(** ** The operations namespace *)

Inductive OperationsNode := OpsObject | OpsString (value : string) | OpsMethod | OpsArguments (names : list string).

Definition operations_error (id : string) : string :=
  if String.eqb id "Operations" then "could not create operations object"
  else if String.eqb id "Operations/Capabilities" then "could not create operations capabilities"
  else if String.eqb id "Operations/Execute" then "could not create operations Execute method"
  else "could not create operations " +:+ text (drop 11 (chars id)).

Definition add_read_only_string (name value : string) : string * OperationsNode := ("Operations/" +:+ name, OpsString value).

Definition operations_nodes (capabilities software_version build_commit station_revision : string) : list (string * OperationsNode) :=
  [("Operations", OpsObject); ("Operations/Capabilities", OpsString capabilities);
   add_read_only_string "SoftwareVersion" software_version; add_read_only_string "BuildCommit" build_commit;
   add_read_only_string "StationVersionRevision" station_revision; add_read_only_string "CommandRevision" "0";
   ("Operations/Execute/InputArguments", OpsArguments ["Request"]);
   ("Operations/Execute/OutputArguments", OpsArguments ["Response"]); ("Operations/Execute", OpsMethod)].

Fixpoint create_operations (space : gmap string OperationsNode) (nodes : list (string * OperationsNode))
    : result string (gmap string OperationsNode) :=
  match nodes with
  | [] => Ok space
  | (id, node) :: nodes =>
      match space !! id with
      | Some _ => Err (operations_error id)
      | None => create_operations (<[id := node]> space) nodes
      end
  end.

Definition publish_operations (capabilities software_version build_commit : string) (s : OpsState)
    : result string (gmap string OperationsNode) :=
  create_operations ∅ (operations_nodes capabilities software_version build_commit (pretty (ss_revision (os_station_saved s)))).

(** The Execute callback: every answer is a result, errors are in its text. *)
Inductive Argument := ArgString (s : string) | ArgOther.
Definition execute_callback (execute_json : string -> string) (invalid_request : string -> string) (args : list Argument)
    : list string :=
  [match args with
   | [ArgString request] => execute_json request
   | _ => invalid_request "Execute expects exactly one String Request"
   end].

(** ** Updates *)

Abbreviation Update := (string * (TopologyValue * StationQuality))%type.

Section Updates.
Context (software_version build_commit : string) (date_parses : string -> bool).

(** An unreadable time is the default one. *)
Definition opc_datetime (value : option string) : option string := t ← value; if date_parses t then Some t else None.

Definition push_station_update (base name : string) (value : TopologyValue) (status : StationQuality) : Update :=
  (base +:+ "/" +:+ name, (value, status)).

Definition station_updates (port : PortSnapshot) (device : DeviceSnapshot) : list Update :=
  let base := device_path (pt_port_id port) (dv_device_id device) in
  let record := dv_station_version device in
  let version_status := station_version_status (pt_open port) (dv_communication_ok device) record in
  [push_station_update base "ConfiguredModuleType" (TvString (module_type_as_str (configured_module_type record))) StationGood;
   push_station_update base "DetectedModuleType" (TvString (module_type_as_str (detected_module_type record))) StationGood;
   push_station_update base "TypeMismatch" (TvBoolean (type_mismatch record)) StationGood;
   push_station_update base "CommunicationModuleVersion" (TvString (communication_module_version record)) version_status;
   push_station_update base "CommunicationModuleVersionRaw" (TvUInt16 (default 0 (communication_module_version_raw record))) version_status;
   push_station_update base "PLCVersion" (TvString (plc_version record)) version_status;
   push_station_update base "PLCVersionRaw" (TvUInt16 (default 0 (plc_version_raw record))) version_status;
   push_station_update base "VersionPayload" (TvByteString (decode_payload (version_payload record))) version_status;
   push_station_update base "VersionState" (TvString (version_state record)) StationGood;
   push_station_update base "LastVersionError" (TvString (last_version_error record)) StationGood;
   push_station_update base "LastVersionAttemptAt" (TvDateTime (opc_datetime (last_version_attempt_at record))) StationGood;
   push_station_update base "LastVersionSuccessAt" (TvDateTime (opc_datetime (last_version_success_at record))) version_status;
   push_station_update base "ConsecutiveFailures" (TvUInt32 (consecutive_failures record)) StationGood;
   push_station_update base "Stale" (TvBoolean (stale record)) StationGood].

Definition station_version_updates (ports : list PortSnapshot) : list Update :=
  port ← ports; device ← pt_devices port; station_updates port device.

Definition operations_version_updates (station_revision : string) : list Update :=
  (fun nv => ("Operations/" +:+ nv.1, (TvString nv.2, StationGood))) <$>
    [("SoftwareVersion", software_version); ("BuildCommit", build_commit); ("StationVersionRevision", station_revision)].

(** [station_versions_snapshot]: the revision and the ports in key order. *)
Definition station_versions_snapshot (s : OpsState) : string * list PortSnapshot :=
  (pretty (ss_revision (os_station_saved s)), into_values (os_ports s)).

(** [set_values]: in order, up to the first node that is missing or no
    variable. *)
Fixpoint set_metadata {N} (is_var : N -> bool) (space : gmap string N) (data : gmap string (TopologyValue * StationQuality))
    (updates : list Update) : gmap string (TopologyValue * StationQuality) * bool :=
  match updates with
  | [] => (data, true)
  | (id, v) :: updates =>
      match space !! id with
      | Some n => if is_var n then set_metadata is_var space (<[id := v]> data) updates else (data, false)
      | None => (data, false)
      end
  end.

Definition sign (b : bool) : string := if b then "+" else "-".

Definition station_snapshot_update_key (snapshot : string * list PortSnapshot) : string :=
  foldl (fun key port =>
    foldl (fun key device => key +:+ "," +:+ dv_device_id device +:+ sign (dv_communication_ok device))
      (key +:+ "|" +:+ pt_port_id port +:+ sign (pt_open port)) (pt_devices port))
    snapshot.1 snapshot.2.

(** ** The station task *)

Context (topology : gmap string TopologyNode) (operations : gmap string OperationsNode).

Record StationWorld := {
  st_ops : OpsWorld;
  st_topology : gmap string (TopologyValue * StationQuality);
  st_operations : gmap string (TopologyValue * StationQuality);
  st_key : string;
  st_alive : bool
}.

Definition is_topology_variable (n : TopologyNode) : bool := match n with TopologyVariable _ _ => true | Folder => false end.
Definition is_operations_variable (n : OperationsNode) : bool := match n with OpsString _ => true | _ => false end.

Definition apply_station_metadata_updates (w : StationWorld) (snapshot : string * list PortSnapshot) : StationWorld :=
  let '(shown, ok) := set_metadata is_topology_variable topology (st_topology w) (station_version_updates snapshot.2) in
  let '(operated, ok') :=
    if ok then set_metadata is_operations_variable operations (st_operations w) (operations_version_updates snapshot.1)
    else (st_operations w, false) in
  {| st_ops := st_ops w; st_topology := shown; st_operations := operated;
     st_key := if ok' then station_snapshot_update_key snapshot else st_key w; st_alive := ok' |}.

(** The task starts with the snapshot applied before it. *)
Definition station_open (s : OpsState) : StationWorld :=
  apply_station_metadata_updates
    {| st_ops := {| ow_state := s; ow_permits := [] |}; st_topology := ∅; st_operations := ∅; st_key := ""; st_alive := true |}
    (station_versions_snapshot s).

Definition station_poll (w : StationWorld) : StationWorld :=
  if negb (st_alive w) then w
  else
    let snapshot := station_versions_snapshot (ow_state (st_ops w)) in
    if String.eqb (station_snapshot_update_key snapshot) (st_key w) then w
    else apply_station_metadata_updates w snapshot.

Definition set_ops (w : StationWorld) (ops : OpsWorld) : StationWorld :=
  {| st_ops := ops; st_topology := st_topology w; st_operations := st_operations w; st_key := st_key w; st_alive := st_alive w |}.

(** The operations state changes and the task polls it, in any order. *)
Inductive station_step : StationWorld -> StationWorld -> Prop :=
| step_ops w ops : ops_step (st_ops w) ops -> station_step w (set_ops w ops)
| step_poll w : station_step w (station_poll w).
End Updates.

(** ** The station revision follows the records *)

(** A record without its stale mark, which worker reports change too. *)
Definition unstale (r : StationVersionRecord) : StationVersionRecord :=
  set_version_state r (version_state r) (last_version_attempt_at r) (last_version_success_at r) (last_version_error r)
    (consecutive_failures r) false.
Definition device_record (d : DeviceSnapshot) : string * StationVersionRecord := (dv_device_id d, unstale (dv_station_version d)).
Definition port_records (p : PortSnapshot) : list (string * StationVersionRecord) := device_record <$> pt_devices p.

Abbreviation revision s := (ss_revision (os_station_saved s)).

Definition tracked (s s' : OpsState) : Prop :=
  revision s < revision s' \/ (revision s' = revision s /\ port_records <$> os_ports s' = port_records <$> os_ports s).

#[export] Instance tracked_preorder : PreOrder tracked.
Proof. split; [by right|]. intros a b c [H|[H1 H2]] [H'|[H1' H2']]; [left; lia..|]. right. split; congruence. Qed.

Lemma tracked_map s s' f port :
  revision s' = revision s -> os_ports s' = alter f port (os_ports s) -> (forall p, port_records (f p) = port_records p) -> tracked s s'.
Proof.
  intros Hr Hp Hf. right. split; [done|]. rewrite Hp. apply map_eq. intros i. rewrite !lookup_fmap, lookup_alter.
  case_decide; [subst|done]. destruct (os_ports s !! i); simpl; [by rewrite Hf|done].
Qed.

Lemma update_device_records id f ds :
  (forall d, device_record (f d) = device_record d) -> device_record <$> update_device id f ds = device_record <$> ds.
Proof.
  intros Hf. induction ds as [|d ds IH]; [done|]. cbn [update_device].
  destruct (String.eqb _ _); rewrite !fmap_cons; [by rewrite Hf|by rewrite IH].
Qed.

Lemma tracked_queue sent s port c rv text err s' r : queue_control sent s port c rv text err = (s', r) -> tracked s s'.
Proof.
  unfold queue_control. destruct sent; intros [= <- <-].
  - by eapply tracked_map.
  - etransitivity; [eapply (tracked_map _ (set_ports s (alter (set_control_state true None) port (os_ports s)) ∅)); done|].
    by eapply tracked_map.
Qed.

Lemma tracked_save s rv port device r : revision s < rv -> tracked s (save_station s rv port device r).
Proof. by left. Qed.

Lemma tracked_mark s port device now per s' r : mark_station_query_pending s port device now per = (s', r) -> tracked s s'.
Proof.
  unfold mark_station_query_pending. intros H. destruct (_ ≫= _) as [[rv rec]|e] eqn:E; injection H as <- <-; [|done].
  apply bind_Ok in E as (rv' & Hr & E). unfold increment_revision, u64_checked_add in Hr. destruct (_ <=? _); [|done]. injection Hr as <-.
  apply tracked_save. apply bind_Ok in E as (e & _ & E). apply bind_Ok in E as (u & _ & [= <- _]). lia.
Qed.

Lemma tracked_result s port id res now per s' r : report_station_query_result s port id res now per = (s', r) -> tracked s s'.
Proof.
  unfold report_station_query_result. intros H. destruct (_ ≫= _) as [[rv rec]|e] eqn:E; injection H as <- <-; [|done].
  apply bind_Ok in E as (rv' & Hr & E). unfold increment_revision, u64_checked_add in Hr. destruct (_ <=? _); [|done]. injection Hr as <-.
  apply tracked_save. apply bind_Ok in E as (e & _ & E). apply bind_Ok in E as (u & _ & [= <- _]). lia.
Qed.

Lemma ops_step_tracked w w' : ops_step w w' -> tracked (ow_state w) (ow_state w').
Proof.
  intros Hst. destruct Hst as
    [w g sh port g' s E|w g port permits Hp|w sh per sent senders request device s r E|w sh per sent senders request s r E
    |w sh per sent senders request now rep s r E|w sh port id now per s r E|w port id res now per s r E
    |w port message now per|w port enabled open devices|w port rv outcome|w port message|w port]; simpl in *.
  - unfold admit_command in E. destruct (admit_mutation g) as [g1 [[]|e]]; [|done].
    unfold admit_on_port in E. destruct sh; [done|]. destruct (os_ports (ow_state w) !! port) as [p|] eqn:Hp; [|done].
    repeat (destruct (_ || _) in E; [done|]). injection E as _ <-. right. split; [done|]. simpl. rewrite fmap_insert.
    apply insert_id. by rewrite lookup_fmap, Hp.
  - by eapply tracked_map.
  - apply set_control_cases in E as [[-> _]|(pt & q & id & en & next & c & t & er & _ & _ & _ & _ & _ & _ & _ & _ & E)]; [done|].
    etransitivity; [|by eapply tracked_queue]. eapply tracked_map; [done|done|]. intros p. unfold port_records.
    destruct id; [|done]. simpl. by rewrite update_device_records.
  - apply module_type_cases in E as [->|(pt & q & dv & mt & c & t & er & _ & _ & _ & _ & _ & E)]; [done|].
    etransitivity; [|by eapply tracked_queue]. apply tracked_save. lia.
  - unfold query_device_version in E.
    match type of E with match ?x with _ => _ end = _ => destruct x as [[[port device] id]|e] end; [|by injection E as <- <-].
    destruct (mark_station_query_pending _ _ _ _ _) as [s1 [rv|e]] eqn:Em; apply tracked_mark in Em; [|by injection E as <- <-].
    destruct (queue_control _ _ _ _ _ _ _) as [s2 r2] eqn:Eq. apply tracked_queue in Eq.
    destruct sent; injection E as <- <-; [by transitivity s1|].
    destruct (report_station_query_result s2 port id _ now rep) as [s3 r3] eqn:Er. apply tracked_result in Er.
    transitivity s1; [done|]. by transitivity s2.
  - unfold begin_automatic_station_query in E.
    destruct sh; [by injection E as <- <-|]. destruct (_ ≫= _) as [[p d]|]; [|by injection E as <- <-].
    destruct (_ || _); [by injection E as <- <-|].
    destruct (mark_station_query_pending _ _ _ _ _) as [s1 q] eqn:Em. injection E as <- <-. by eapply tracked_mark.
  - by eapply tracked_result.
  - unfold fail_inflight_station_queries. unfold u64_checked_add. repeat case_match; try done. left. simplify_eq. simpl. lia.
  - eapply tracked_map; [done|done|]. intros p. unfold port_records. simpl.
    generalize (pt_devices p). induction devices as [|d ds IH]; intros l; [done|]. cbn [foldl].
    rewrite IH. unfold report_device. apply update_device_records. intros d'. by repeat case_match.
  - unfold complete_control. case_bool_decide; [|done]. by eapply tracked_map.
  - by eapply tracked_map.
  - eapply tracked_map; [done|done|]. intros p. unfold port_records. simpl. rewrite <- list_fmap_compose. done.
Qed.

Lemma ops_steps_tracked w w' : rtc ops_step w w' -> tracked (ow_state w) (ow_state w') /\ identities (ow_state w') = identities (ow_state w).
Proof.
  induction 1 as [|w w1 w2 H _ [IH1 IH2]]; [done|]. split; [etransitivity; [by apply ops_step_tracked|done]|].
  by rewrite IH2, (ops_step_identities _ _ H).
Qed.

(** ** The key tells snapshots apart *)

Definition marks (p : PortSnapshot) : bool * list bool := (pt_open p, dv_communication_ok <$> pt_devices p).

Fixpoint devices_text (ds : list DeviceSnapshot) : string :=
  match ds with [] => "" | d :: ds => "," +:+ dv_device_id d +:+ sign (dv_communication_ok d) +:+ devices_text ds end.
Fixpoint ports_text (ps : list PortSnapshot) : string :=
  match ps with [] => "" | p :: ps => "|" +:+ pt_port_id p +:+ sign (pt_open p) +:+ devices_text (pt_devices p) +:+ ports_text ps end.

Lemma app_assoc_str (a b c : string) : (a +:+ b) +:+ c = a +:+ (b +:+ c).
Proof. induction a as [|x a IH]; [done|]. exact (f_equal (String x) IH). Qed.

Lemma app_nil_str (a : string) : a +:+ "" = a.
Proof. induction a as [|x a IH]; [done|]. exact (f_equal (String x) IH). Qed.

Lemma key_text r ps : station_snapshot_update_key (r, ps) = r +:+ ports_text ps.
Proof.
  unfold station_snapshot_update_key. cbn [fst snd].
  assert (Hd : forall ds k, foldl (fun key d => key +:+ "," +:+ dv_device_id d +:+ sign (dv_communication_ok d)) k ds = k +:+ devices_text ds).
  { induction ds as [|d ds IH]; intros k; cbn [foldl devices_text]; [by rewrite app_nil_str|]. rewrite IH. by rewrite !app_assoc_str. }
  revert r. induction ps as [|p ps IH]; intros r; cbn [foldl ports_text]; [by rewrite app_nil_str|]. rewrite Hd, IH. by rewrite !app_assoc_str.
Qed.

Lemma sign_inj b b' x x' : sign b +:+ x = sign b' +:+ x' -> b = b' /\ x = x'.
Proof. intros H. destruct b, b'; unfold sign in H; injection H; try done; by intros ->. Qed.

Lemma devices_text_inj ds ds' x x' : dv_device_id <$> ds = dv_device_id <$> ds' ->
  devices_text ds +:+ x = devices_text ds' +:+ x' -> dv_communication_ok <$> ds = dv_communication_ok <$> ds' /\ x = x'.
Proof.
  revert ds'. induction ds as [|d ds IH]; intros [|d' ds'] Hid; [by cbn|done..|].
  rewrite !fmap_cons in Hid. rewrite !fmap_cons. injection Hid as Hd Hid.
  cbn [devices_text]. rewrite !app_assoc_str, Hd. intros H. apply (inj (String.append _)) in H. apply (inj (String.append _)) in H.
  apply sign_inj in H as [-> H]. by destruct (IH _ Hid H) as [-> ->].
Qed.

Lemma ports_text_inj ps ps' : identity <$> ps = identity <$> ps' -> ports_text ps = ports_text ps' -> marks <$> ps = marks <$> ps'.
Proof.
  revert ps'. induction ps as [|p ps IH]; intros [|p' ps'] Hid; [done..|]. rewrite !fmap_cons in Hid. rewrite !fmap_cons. injection Hid as Hp Hd Hid.
  cbn [ports_text]. rewrite Hp. intros H. apply (inj (String.append _)) in H. apply (inj (String.append _)) in H.
  apply sign_inj in H as [Ho H]. destruct (devices_text_inj _ _ _ _ Hd H) as [Hc H']. unfold marks at 1 3. rewrite Ho, Hc. f_equal. by apply IH.
Qed.

(** A number is cut off at the first bar. *)
Lemma cut_at_bar a a' x x' : Forall (fun c => c <> "|"%char) (chars a) -> Forall (fun c => c <> "|"%char) (chars a') ->
  a +:+ String "|" x = a' +:+ String "|" x' -> a = a' /\ x = x'.
Proof.
  revert a'. induction a as [|c a IH]; intros [|c' a'] Ha Ha'; cbn; [by intros [= ->]|intros [= <- _]; by apply Forall_cons in Ha' as [? _]
    |intros [= -> _]; by apply Forall_cons in Ha as [? _]|].
  intros [= -> H]. apply Forall_cons in Ha as [_ Ha]. apply Forall_cons in Ha' as [_ Ha']. by destruct (IH _ Ha Ha' H) as [-> ->].
Qed.

Lemma key_inj (n n' : Z) ps ps' : identity <$> ps = identity <$> ps' ->
  station_snapshot_update_key (pretty n, ps) = station_snapshot_update_key (pretty n', ps') -> n = n' /\ marks <$> ps = marks <$> ps'.
Proof.
  intros Hid. rewrite !key_text. assert (Hbar : forall z : Z, Forall (fun c => c <> "|"%char) (chars (pretty z))).
  { intros z. apply pretty_Forall; [|done]. intros k. unfold pretty_N_char. by repeat case_match. }
  destruct ps as [|p ps], ps' as [|p' ps']; [|done..|].
  - cbn [ports_text]. rewrite !app_nil_str. intros ->%(inj pretty). done.
  - intros H. cbn [ports_text] in H. destruct (cut_at_bar _ _ _ _ (Hbar n) (Hbar n') H) as [->%(inj pretty) Hx]. split; [done|].
    apply ports_text_inj; [done|]. cbn [ports_text]. unfold pretty in *. cbn. f_equal. exact Hx.
Qed.

(** ** Snapshots with the same key *)

Lemma into_values_fmap {A B} (f : A -> B) (m : gmap string A) : into_values (f <$> m) = f <$> into_values m.
Proof.
  unfold into_values. rewrite map_to_list_fmap, <- list_fmap_compose.
  change (fst ∘ prod_map id f) with (fst : string * A -> string).
  induction (sort_strings _) as [|k ks IH]; [done|]. cbn [omap list_omap]. rewrite lookup_fmap, IH.
  by destruct (m !! k).
Qed.

Lemma snapshot_fmap {B} (f : PortSnapshot -> B) s s' :
  f <$> os_ports s = f <$> os_ports s' -> f <$> into_values (os_ports s) = f <$> into_values (os_ports s').
Proof. intros H. by rewrite <- !into_values_fmap, H. Qed.

(** An update but for the stale mark. *)
Definition stale_mark (id : string) : Prop := exists base, id = base +:+ "/Stale".
Definition agrees (us us' : list Update) : Prop := forall u, u ∈ us' -> stale_mark u.1 \/ u ∈ us.

Lemma agrees_bind {X Y} (f : X -> list Update) (g : Y -> list Update) (R : X -> Y -> Prop) xs ys :
  Forall2 R xs ys -> (forall x y, R x y -> agrees (f x) (g y)) -> agrees (xs ≫= f) (ys ≫= g).
Proof.
  intros H Hfg u (y & Hu & [i Hi]%list_elem_of_lookup_1)%list_elem_of_bind.
  destruct (Forall2_lookup_r _ _ _ _ _ H Hi) as (x & Hx & Hxy). destruct (Hfg _ _ Hxy u Hu) as [?|Hu']; [by left|right].
  apply list_elem_of_bind. exists x. split; [done|]. by eapply list_elem_of_lookup_2.
Qed.

(** Membership in a written-out list. *)
Ltac pick := apply elem_of_cons; first [left; reflexivity | right; pick].

Section Follow.
Context (date_parses : string -> bool).

Lemma device_agrees p p' d d' :
  pt_port_id p = pt_port_id p' -> pt_open p = pt_open p' -> dv_communication_ok d = dv_communication_ok d' ->
  device_record d = device_record d' -> agrees (station_updates date_parses p d) (station_updates date_parses p' d').
Proof.
  unfold device_record, unstale, set_version_state. intros Hp Ho Hc [= Hid H1 H2 H3 H4 H5 H6 H7 H8 H9 H10 H11 H12 H13] u Hu.
  unfold station_updates in *. cbn zeta in *.
  assert (Hs : station_version_status (pt_open p) (dv_communication_ok d) (dv_station_version d) =
               station_version_status (pt_open p') (dv_communication_ok d') (dv_station_version d')).
  { unfold station_version_status, has_last_version. by rewrite Ho, Hc, ?H1, ?H2, ?H3, ?H4, ?H5, ?H6, ?H7, ?H8, ?H9, ?H10, ?H11. }
  rewrite Hs, Hp, Hid, H1, H2, H3, H4, H5, H6, H7, H8, H9, H10, H11, H12, H13.
  do 13 (apply elem_of_cons in Hu as [->|Hu]; [right; pick|]).
  apply list_elem_of_singleton in Hu as ->. left. by eexists.
Qed.

Lemma port_agrees p p' : identity p = identity p' -> marks p = marks p' -> port_records p = port_records p' ->
  agrees (d ← pt_devices p; station_updates date_parses p d) (d ← pt_devices p'; station_updates date_parses p' d).
Proof.
  intros [= Hid _] [= Ho Hc] Hr.
  apply (agrees_bind _ _ (fun d d' => dv_communication_ok d = dv_communication_ok d' /\ device_record d = device_record d')).
  - apply Forall2_same_length_lookup. unfold port_records in Hr. apply (f_equal length) in Hr as Hl. rewrite !length_fmap in Hl. split; [done|].
    intros i d d' Hd Hd'. apply (f_equal (lookup i)) in Hc, Hr.
    rewrite !list_lookup_fmap, Hd, Hd' in Hc. rewrite !list_lookup_fmap, Hd, Hd' in Hr.
    split; by apply (inj Some).
  - intros d d' [? ?]. by apply device_agrees.
Qed.

(** If the key did not change, all but the stale marks is up to date. *)
Lemma key_agrees w w' : rtc ops_step w w' ->
  station_snapshot_update_key (station_versions_snapshot (ow_state w')) = station_snapshot_update_key (station_versions_snapshot (ow_state w)) ->
  revision (ow_state w') = revision (ow_state w) /\
  agrees (station_version_updates date_parses (station_versions_snapshot (ow_state w)).2)
         (station_version_updates date_parses (station_versions_snapshot (ow_state w')).2).
Proof.
  intros [Ht Hid]%ops_steps_tracked Hk. apply (snapshot_fmap identity) in Hid.
  destruct (key_inj _ _ _ _ Hid Hk) as [Hr Hm]. destruct Ht as [Ht|[_ Ht]]; [lia|]. apply snapshot_fmap in Ht. split; [done|].
  cbn [station_versions_snapshot snd]. unfold station_version_updates.
  apply (agrees_bind _ _ (fun p p' => identity p = identity p' /\ marks p = marks p' /\ port_records p = port_records p')).
  - apply Forall2_same_length_lookup. apply (f_equal length) in Hid as Hl. rewrite !length_fmap in Hl. split; [done|].
    intros i p p' Hp Hp'. apply (f_equal (lookup i)) in Hid, Hm, Ht. rewrite !list_lookup_fmap, Hp, Hp' in Hid.
    rewrite !list_lookup_fmap, Hp, Hp' in Hm. rewrite !list_lookup_fmap, Hp, Hp' in Ht.
    split_and!; by apply (inj Some).
  - intros p p' (? & ? & ?). by apply port_agrees.
Qed.

(** ** Updates reach their nodes *)

(** A variable of the type of the value. *)
Definition lands (topology : gmap string TopologyNode) (u : Update) : Prop :=
  exists v, topology !! u.1 = Some (TopologyVariable (topology_value_type u.2.1) v).

Lemma station_updates_nodes p d :
  Forall (fun u => exists v, (u.1, TopologyVariable (topology_value_type u.2.1) v) ∈
                             station_version_nodes (device_path (pt_port_id p) (dv_device_id d))) (station_updates date_parses p d).
Proof.
  unfold station_updates, push_station_update. cbn zeta. set (base := device_path _ _).
  unfold station_version_nodes. cbn [fmap list_fmap app fst snd].
  repeat (apply Forall_cons; split; [eexists; cbn [fst snd topology_value_type]; pick|]). constructor.
Qed.

Definition station_names : list string :=
  ["ConfiguredModuleType"; "DetectedModuleType"; "TypeMismatch"; "CommunicationModuleVersion"; "CommunicationModuleVersionRaw";
   "PLCVersion"; "PLCVersionRaw"; "VersionPayload"; "VersionState"; "LastVersionError"; "LastVersionAttemptAt";
   "LastVersionSuccessAt"; "ConsecutiveFailures"; "Stale"].

Lemma station_updates_segments p d : no_slash (dv_device_id d) ->
  segments_of (station_updates date_parses p d) =
  (fun l => ["Topology"; "Ports"; path_component (pt_port_id p); "Devices"] ++ dv_device_id d :: l) <$> ((fun n => [n]) <$> station_names).
Proof.
  intros Hd%(device_path_segments (pt_port_id p)). unfold station_updates, push_station_update. cbn zeta.
  set (base := device_path _ _) in *. unfold segments_of. cbn [fmap list_fmap]. unfold compose. cbn [fst].
  rewrite !segments_slash, Hd. reflexivity.
Qed.

(** Snapshots whose names are those of the configuration. *)
Record snapshot_ok (m : TopologyManifest) (ps : list PortSnapshot) : Prop := {
  sk_ports : NoDup (pt_port_id <$> ps);
  sk_devices : forall p, p ∈ ps -> NoDup (dv_device_id <$> pt_devices p);
  sk_known : forall p, p ∈ ps -> exists tp, tp ∈ tm_ports m /\ tp_port_id tp = pt_port_id p /\
               forall d, d ∈ pt_devices p -> exists td, td ∈ tp_devices tp /\ td_device_id td = dv_device_id d
}.

Lemma updates_distinct m ps : names_ok m -> snapshot_ok m ps -> NoDup (station_version_updates date_parses ps).*1.
Proof.
  intros Hm [Hp Hd Hk]. apply (NoDup_fmap_1 segments). rewrite <- list_fmap_compose. fold (segments_of (station_version_updates date_parses ps)).
  assert (Hslash : forall p d, p ∈ ps -> d ∈ pt_devices p -> no_slash (dv_device_id d)).
  { intros p d Hin Hdin. destruct (Hk p Hin) as (tp & Htp & _ & H). destruct (H d Hdin) as (td & Htd & <-).
    pose proof (no_numbers _ Hm) as Hn. rewrite Forall_forall in Hn. specialize (Hn tp Htp). rewrite Forall_forall in Hn. by apply Hn. }
  unfold station_version_updates.
  rewrite (segments_of_bind _ ["Topology"; "Ports"] (path_component ∘ pt_port_id)
             (fun p => cons "Devices" <$> (d ← pt_devices p; cons (dv_device_id d) <$> ((fun n => [n]) <$> station_names)))).
  - apply (NoDup_fmap_2 _). apply NoDup_groups.
    + rewrite list_fmap_compose. by apply (NoDup_fmap_2 path_component).
    + intros p Hin. apply (NoDup_fmap_2 _). apply NoDup_groups; [by apply Hd|]. intros d _. decide_closed.
  - intros p Hin. rewrite (segments_of_bind _ ["Topology"; "Ports"; path_component (pt_port_id p); "Devices"] dv_device_id (fun _ => (fun n => [n]) <$> station_names)).
    + by rewrite <- list_fmap_compose.
    + intros d Hdin. apply station_updates_segments. by eapply Hslash.
Qed.

Lemma updates_land m json ps : names_ok m -> snapshot_ok m ps ->
  Forall (lands (node_map (topology_nodes m json))) (station_version_updates date_parses ps).
Proof.
  intros Hm [_ _ Hk]. apply Forall_forall. intros u (p & (d & Hu & Hd)%list_elem_of_bind & Hp)%list_elem_of_bind.
  destruct (Hk p Hp) as (tp & Htp & Hid & H). destruct (H d Hd) as (td & Htd & Hid').
  pose proof (station_updates_nodes p d) as Hn. rewrite Forall_forall in Hn. destruct (Hn u Hu) as [v Hv]. exists v.
  apply elem_of_list_to_map_1; [by apply topology_paths|]. apply (in_device_nodes _ _ tp td); [done..|].
  unfold device_nodes. cbn zeta. rewrite Hid, Hid'. apply elem_of_app. right. apply elem_of_app. by left.
Qed.

Lemma set_metadata_ok {N} (is_var : N -> bool) (space : gmap string N) data us :
  NoDup us.*1 -> Forall (fun u => exists n, space !! u.1 = Some n /\ is_var n = true) us ->
  exists data', set_metadata is_var space data us = (data', true) /\ (forall u, u ∈ us -> data' !! u.1 = Some u.2) /\
    forall k, k ∉ us.*1 -> data' !! k = data !! k.
Proof.
  revert data. induction us as [|[k v] us IH]; intros data Hnd Hok.
  - exists data. split_and!; [done|by intros ? ?%elem_of_nil|done].
  - apply NoDup_cons in Hnd as [Hk Hnd]. apply Forall_cons in Hok as [(n & Hn & Hv) Hok]. cbn [set_metadata fst] in *. rewrite Hn, Hv.
    destruct (IH (<[k := v]> data) Hnd Hok) as (data' & E & H1 & H2). exists data'. split_and!; [done| |].
    + intros u [->|Hu]%elem_of_cons; [|by apply H1]. cbn [fst snd]. by rewrite (H2 k Hk), lookup_insert_eq.
    + intros k' [Hne Hk']%not_elem_of_cons. by rewrite H2, lookup_insert_ne.
Qed.
End Follow.

(** ** The snapshots of a configuration *)

Definition operations_ports (ports : list SerialPortConfig) : list (string * list DeviceConfig) :=
  (fun p => (sp_port_number p, sp_devices p)) <$> ports.

Definition from_config (config : list (string * list DeviceConfig)) (s : OpsState) : Prop :=
  forall port p, os_ports s !! port = Some p -> pt_port_id p = port /\
    exists ds, (port, ds) ∈ config /\ forall d, d ∈ pt_devices p -> dv_device_id d ∈ (fun d => pretty (device_id (dc_config d))) <$> ds.

Lemma startup_devices_ids sha port u ds u' id d :
  startup_devices sha port u ds = Ok u' -> up_devices u' !! id = Some d ->
  up_devices u !! id = Some d \/ dv_device_id d ∈ (fun d => pretty (device_id (dc_config d))) <$> ds.
Proof.
  revert u. induction ds as [|x ds IH]; intros u H Hd; cbn [startup_devices] in H; [injection H as <-; by left|].
  apply bind_Ok in H as (u1 & H1 & H). rewrite fmap_cons, elem_of_cons. destruct (IH _ H Hd) as [Hu|Hin]; [|tauto].
  unfold startup_device in H1. case_bool_decide; [done|]. injection H1 as <-. simpl in Hu.
  apply lookup_insert_Some in Hu as [[_ <-]|[_ Hu]]; [right; by left|by left].
Qed.

Lemma startup_ports_config sha config s ports s' :
  (forall x, x ∈ ports -> x ∈ config) -> from_config config s -> startup_ports sha s ports = Ok s' -> from_config config s'.
Proof.
  revert s. induction ports as [|[port ds] ports IH]; intros s Hin Hs H; cbn [startup_ports] in H; [by injection H as <-|].
  apply bind_Ok in H as (s1 & H1 & H). eapply IH; [|clear IH|exact H]; [intros x Hx; apply Hin; set_solver|].
  unfold startup_port in H1. case_bool_decide; [done|]. apply bind_Ok in H1 as (u & Hu & [= <-]).
  intros q p. simpl. intros [[<- <-]|[_ Hq]]%lookup_insert_Some; [|by apply Hs]. split; [done|]. exists ds. split; [apply Hin; by left|].
  intros d (id & Hd)%in_key_order_elem. by destruct (startup_devices_ids _ _ _ _ _ _ _ Hu Hd) as [?|?].
Qed.

Lemma startup_config sha saved station ports per s : startup sha saved station ports per = Ok s -> from_config ports s.
Proof.
  unfold startup. intros H. apply bind_Ok in H as (s1 & H1 & H).
  assert (Hc : from_config ports s1) by (eapply startup_ports_config; [done| |exact H1]; done).
  case_bool_decide; [by injection H as <-|]. destruct (u64_checked_add _ _); [|done]. by apply bind_Ok in H as (u & _ & [= <-]).
Qed.

(** Every reachable state shows the ports and devices of the configuration. *)
Lemma reachable_snapshot ports e m sha saved station per s0 w :
  manifest_ok ports e m -> startup sha saved station (operations_ports ports) per = Ok s0 ->
  identities (ow_state w) = identities s0 -> snapshot_ok m (into_values (os_ports (ow_state w))).
Proof.
  intros Hok Hs Hid. pose proof (startup_config _ _ _ _ _ _ Hs) as Hc. pose proof (fr_shown _ (startup_fresh _ _ _ _ _ _ Hs)) as Hsh.
  assert (Hp : forall p, p ∈ into_values (os_ports (ow_state w)) -> exists port p0, os_ports (ow_state w) !! port = Some p /\
            os_ports s0 !! port = Some p0 /\ identity p = identity p0).
  { intros p Hp. rewrite into_values_perm in Hp. apply list_elem_of_fmap in Hp as ([port q] & -> & Hq%elem_of_map_to_list).
    apply (f_equal (lookup port)) in Hid. unfold identities in Hid. rewrite !lookup_fmap, Hq in Hid. symmetry in Hid.
    apply fmap_Some in Hid as (p0 & Hp0 & Heq). by exists port, p0. }
  split.
  - assert (Hkeys : Forall (fun kp => pt_port_id kp.2 = kp.1) (map_to_list (os_ports (ow_state w)))).
    { apply Forall_forall. intros [port q] Hq%elem_of_map_to_list. apply (f_equal (lookup port)) in Hid. unfold identities in Hid.
      rewrite !lookup_fmap, Hq in Hid. symmetry in Hid. apply fmap_Some in Hid as (p0 & Hp0 & [= Hi _]). cbn. rewrite Hi. by destruct (Hc _ _ Hp0). }
    rewrite into_values_perm, <- list_fmap_compose. erewrite (list_fmap_ext (pt_port_id ∘ snd) fst); [apply NoDup_fst_map_to_list|].
    intros i kp Hkp. rewrite Forall_forall in Hkeys. apply Hkeys. by eapply list_elem_of_lookup_2.
  - intros p (port & p0 & _ & Hp0 & [= _ Hd])%Hp. rewrite Hd. by destruct (Hsh _ _ Hp0).
  - intros p (port & p0 & _ & Hp0 & [= Hi Hd])%Hp. destruct (Hc _ _ Hp0) as (Hport & ds & Hin & Hds).
    apply list_elem_of_fmap in Hin as (sp & [= -> ->] & [i Hi']%list_elem_of_lookup_1).
    destruct Hok as [_ _ _ (tps & Hperm & Hpm) _ _ _]. destruct (Forall2_lookup_l _ _ _ _ _ Hpm Hi') as (tp & Htp & Hm).
    exists tp. destruct Hm as (Hm1 & _ & _ & _ & Hdev & _). split_and!; [rewrite Hperm; by eapply list_elem_of_lookup_2|congruence|].
    intros d Hdin. assert (Hd' : dv_device_id d ∈ dv_device_id <$> pt_devices p0) by (rewrite <- Hd; by apply list_elem_of_fmap_2).
    apply list_elem_of_fmap in Hd' as (d0 & -> & Hd0). apply Hds, list_elem_of_fmap in Hd0 as (dc & -> & Hdc).
    exists (topology_device dc). split; [|done]. rewrite Hdev. by apply list_elem_of_fmap_2.
Qed.

(** ** The task keeps the nodes up to date *)

Lemma create_operations_all space nodes : NoDup nodes.*1 -> (forall k, k ∈ nodes.*1 -> space !! k = None) ->
  create_operations space nodes = Ok (list_to_map nodes ∪ space).
Proof.
  revert space. induction nodes as [|[k n] nodes IH]; intros space; cbn [fmap list_fmap create_operations fst].
  - intros _ _. cbn. by rewrite (left_id_L ∅ (∪)).
  - intros [Hk Hn]%NoDup_cons Hf. rewrite Hf by set_solver. rewrite IH; [|done|].
    + f_equal. cbn [list_to_map foldr]. rewrite <- insert_union_r, insert_union_l; [done|]. by apply not_elem_of_list_to_map_1.
    + intros k' Hk'. rewrite lookup_insert_ne; [apply Hf; set_solver|]. by intros ->.
Qed.

Lemma operations_published caps sv bc s ops r :
  publish_operations caps sv bc s = Ok ops ->
  Forall (fun u => exists n, ops !! u.1 = Some n /\ is_operations_variable n = true) (operations_version_updates sv bc r).
Proof.
  unfold publish_operations. set (nodes := operations_nodes _ _ _ _). assert (Hnd : NoDup nodes.*1).
  { unfold nodes, operations_nodes. cbn [fmap list_fmap fst add_read_only_string]. decide_closed. }
  rewrite create_operations_all; [|done|by intros; apply lookup_empty]. rewrite (right_id_L ∅ (∪)). intros H.
  assert (Ho : list_to_map nodes = ops) by congruence. rewrite <- Ho. clear Ho H. unfold operations_version_updates. cbn [fmap list_fmap fst snd].
  do 3 (apply Forall_cons; split;
    [eexists; split; [cbn [fst]; apply elem_of_list_to_map_1; [exact Hnd|unfold nodes, operations_nodes, add_read_only_string; cbn [fst]; pick]|reflexivity]|]).
  constructor.
Qed.

Section Task.
Context (software_version build_commit : string) (date_parses : string -> bool).
Context (topology : gmap string TopologyNode) (operations : gmap string OperationsNode).
Context (s0 : OpsState).
Abbreviation snapshot w := (station_versions_snapshot (ow_state w)).
Abbreviation updates w := (station_version_updates date_parses (snapshot w).2).
Abbreviation operation_updates w := (operations_version_updates software_version build_commit (snapshot w).1).

(** What the task relies on. *)
Hypothesis distinct : forall w, identities (ow_state w) = identities s0 -> NoDup (updates w).*1.
Hypothesis landing : forall w, identities (ow_state w) = identities s0 -> Forall (lands topology) (updates w).
Hypothesis operated : forall r, Forall (fun u => exists n, operations !! u.1 = Some n /\ is_operations_variable n = true)
                              (operations_version_updates software_version build_commit r).

Record published (w : StationWorld) (ops : OpsWorld) : Prop := {
  pb_alive : st_alive w = true;
  pb_key : st_key w = station_snapshot_update_key (snapshot ops);
  pb_topology : forall u, u ∈ updates ops -> st_topology w !! u.1 = Some u.2;
  pb_operations : forall u, u ∈ operation_updates ops -> st_operations w !! u.1 = Some u.2
}.

Lemma apply_published w : identities (ow_state (st_ops w)) = identities s0 ->
  let w' := apply_station_metadata_updates software_version build_commit date_parses topology operations w (snapshot (st_ops w)) in
  st_ops w' = st_ops w /\ published w' (st_ops w).
Proof.
  intros Hid w'. destruct (set_metadata_ok is_topology_variable topology (st_topology w) (updates (st_ops w)) (distinct _ Hid)) as (d1 & E1 & H1 & _).
  { eapply Forall_impl; [by apply landing|]. intros u [v Hv]. eexists. split; [exact Hv|done]. }
  destruct (set_metadata_ok is_operations_variable operations (st_operations w) (operation_updates (st_ops w))) as (d2 & E2 & H2 & _).
  { apply (NoDup_fmap_1 String.length). unfold operations_version_updates. cbn [fmap list_fmap fst]. decide_closed. }
  { apply operated. }
  unfold w', apply_station_metadata_updates. rewrite E1, E2. by split.
Qed.

(** Some earlier state is the one shown. *)
Definition following (w : StationWorld) : Prop :=
  exists ops, identities (ow_state ops) = identities s0 /\ rtc ops_step ops (st_ops w) /\ published w ops.

Abbreviation poll := (station_poll software_version build_commit date_parses topology operations).

Lemma poll_shows w : following w ->
  following (poll w) /\ st_ops (poll w) = st_ops w /\
  (forall u, u ∈ updates (st_ops w) -> stale_mark u.1 \/ st_topology (poll w) !! u.1 = Some u.2) /\
  forall u, u ∈ operation_updates (st_ops w) -> st_operations (poll w) !! u.1 = Some u.2.
Proof.
  intros (ops & Hid & Hr & Hpb). pose proof Hpb as [Ha Hk Ht Ho]. unfold station_poll. rewrite Ha. cbn [negb].
  destruct (String.eqb_spec (station_snapshot_update_key (snapshot (st_ops w))) (st_key w)) as [Heq|_].
  - rewrite Hk in Heq. destruct (key_agrees date_parses _ _ Hr Heq) as [Hrev Hag]. split_and!; [by exists ops|done| |].
    + intros u [?|Hu]%Hag; [by left|right; by apply Ht].
    + intros u Hu. apply Ho. unfold station_versions_snapshot in *. cbn [fst] in *. by rewrite <- Hrev.
  - assert (Hid' : identities (ow_state (st_ops w)) = identities s0) by (rewrite <- Hid; by apply ops_steps_tracked).
    destruct (apply_published w Hid') as [Hops Hp]. split_and!; [exists (st_ops w); by rewrite Hops|done| |apply Hp].
    intros u Hu. right. by apply (pb_topology _ _ Hp).
Qed.

Lemma following_step w w' : station_step software_version build_commit date_parses topology operations w w' -> following w -> following w'.
Proof.
  intros [w1 ops' Hst|w1] H; [|by apply poll_shows]. destruct H as (ops & Hid & Hr & [Ha Hk Ht Ho]). exists ops.
  split_and!; [done|by eapply rtc_r|by split].
Qed.

Lemma following_steps w : rtc (station_step software_version build_commit date_parses topology operations)
    (station_open software_version build_commit date_parses topology operations s0) w -> following w.
Proof.
  intros Hr. assert (H0 : following (station_open software_version build_commit date_parses topology operations s0)).
  { unfold station_open. set (w0 := {| st_ops := _; st_topology := _; st_operations := _; st_key := _; st_alive := _ |}).
    destruct (apply_published w0 eq_refl) as [Ho Hp]. exists (st_ops w0). split_and!; [done| |done].
    change (st_ops w0) with {| ow_state := s0; ow_permits := [] |} in Ho at 2. change (ow_state (st_ops w0)) with s0 in Ho. by rewrite Ho. }
  induction Hr as [|w1 w2 w3 Hst _ IH]; [done|]. apply IH. by eapply following_step.
Qed.
End Task.

(** C11: the station task never fails and keeps the published station versions
    up to date.  Start the server on a configuration, let the operations state
    change in any way and the task poll it at any time: every update the task
    would write reaches an existing variable of its type, and after a poll each
    of them but the stale mark shows what the operations state holds, with its
    quality, as does the published station revision.  So the key the task
    compares stands for the whole snapshot but the stale marks. *)
Theorem station_metadata_follows config ports e m sha saved station per s0 business json topology references
    caps software_version build_commit operations date_parses w :
  new config = Some (Ok e) -> build ports e = Ok m -> publish_topology business m json = Ok (topology, references) ->
  startup sha saved station (operations_ports ports) per = Ok s0 ->
  publish_operations caps software_version build_commit s0 = Ok operations ->
  rtc (station_step software_version build_commit date_parses topology operations)
    (station_open software_version build_commit date_parses topology operations s0) w ->
  let w' := station_poll software_version build_commit date_parses topology operations w in
  let snapshot := station_versions_snapshot (ow_state (st_ops w)) in
  st_alive w' = true /\
  (forall u, u ∈ station_version_updates date_parses snapshot.2 ->
     lands topology u /\ (stale_mark u.1 \/ st_topology w' !! u.1 = Some u.2)) /\
  st_operations w' !! "Operations/StationVersionRevision" = Some (TvString snapshot.1, StationGood).
Proof.
  intros He Hb Hp Hs Ho Hr w' snap. pose proof (build_ok _ _ _ _ He Hb) as Hok. pose proof (manifest_names _ _ _ Hok) as Hm.
  assert (Ht : topology = node_map (topology_nodes m json)).
  { unfold publish_topology in Hp. destruct (List.find _ _); [done|]. unfold create_topology_nodes in Hp.
    rewrite create_nodes_all in Hp; [|by apply topology_paths|by intros; apply lookup_empty]. cbn in Hp. injection Hp as <- _.
    by rewrite (right_id_L ∅ (∪)). }
  assert (Hsnap : forall w, identities (ow_state w) = identities s0 -> snapshot_ok m (station_versions_snapshot (ow_state w)).2)
    by (intros; by eapply reachable_snapshot).
  assert (Hd : forall w, identities (ow_state w) = identities s0 ->
            NoDup (station_version_updates date_parses (station_versions_snapshot (ow_state w)).2).*1) by (intros; by eapply updates_distinct, Hsnap).
  assert (Hl : forall w, identities (ow_state w) = identities s0 ->
            Forall (lands topology) (station_version_updates date_parses (station_versions_snapshot (ow_state w)).2))
    by (intros; rewrite Ht; by apply updates_land, Hsnap).
  assert (Hops : forall r, Forall (fun u => exists n, operations !! u.1 = Some n /\ is_operations_variable n = true)
            (operations_version_updates software_version build_commit r)).
  { intros r. by eapply operations_published. }
  destruct (following_steps _ _ _ _ _ _ Hd Hl Hops w Hr) as (ops & Hid & Hro & Hpb).
  destruct (poll_shows software_version build_commit date_parses topology operations s0 Hd Hl Hops w) as ((? & _ & _ & Hpb') & _ & H1 & H2).
  { exact (ex_intro _ ops (conj Hid (conj Hro Hpb))). }
  split_and!; [by destruct Hpb'| |].
  - intros u Hu. split; [|by apply H1]. assert (Hid' : identities (ow_state (st_ops w)) = identities s0).
    { rewrite <- Hid. by apply ops_steps_tracked. }
    pose proof (Hl _ Hid') as H. rewrite Forall_forall in H. by apply H.
  - apply (H2 ("Operations/StationVersionRevision", (TvString snap.1, StationGood))). unfold operations_version_updates.
    cbn [fmap list_fmap fst snd]. right. right. by left.
Qed.

(** ** Examples *)

Definition sample_sha (pieces : list (list Z)) : string := "".
Definition sample_record : StationVersionRecord :=
  apply_station_query_result (reset_for_configured_type station_version_default Domestic) (Ok (RespDomestic [1; 2; 3; 4] 258 772)) "t".
Definition sample_station : StoredStationState :=
  {| ss_revision := 1;
     ss_ports := {[ "/dev/ttyAP0" := {[ "1" := {| se_fingerprint := ""; se_record := sample_record |} ]} ]} |}.
Definition sample_state : OpsState :=
  unwrap (startup sample_sha saved_1 sample_station (operations_ports Namespace.toy_ports) (fun _ => Ok ())).

Definition ok_or_empty {A} (r : result string (gmap string A)) : gmap string A := match r with Ok m => m | Err _ => ∅ end.
Definition sample_space : AddressSpace :=
  match build_address_space Namespace.toy_ports sample_engine 2 with Ok (space, _) => space | Err _ => ∅ end.
Definition sample_topology : gmap string TopologyNode := ok_or_empty (fst <$> publish_topology sample_space sample_manifest "{}").
Definition sample_operations : gmap string OperationsNode := ok_or_empty (publish_operations "{}" "1.0" "abc" sample_state).
Definition sample_open : StationWorld := station_open "1.0" "abc" (fun _ => true) sample_topology sample_operations sample_state.

(** The worker reports the port closed. *)
Definition sample_report : OpsWorld :=
  {| ow_state := report_runtime sample_state "/dev/ttyAP0" true false
       [{| dr_id := 1; dr_read_enabled := true; dr_communication_ok := false; dr_last_data_at := None |}]; ow_permits := [] |}.
Definition sample_world : StationWorld := set_ops sample_open sample_report.

Lemma sample_world_reached :
  rtc (station_step "1.0" "abc" (fun _ => true) sample_topology sample_operations) sample_open sample_world.
Proof.
  apply rtc_once. apply (step_ops "1.0" "abc" (fun _ => true) sample_topology sample_operations sample_open sample_report).
  assert (H : st_ops sample_open = {| ow_state := sample_state; ow_permits := [] |}).
  { unfold sample_open, station_open, apply_station_metadata_updates. destruct (set_metadata _ _ _ _) as [? []]; [|done].
    by destruct (set_metadata _ _ _ _) as [? []]. }
  rewrite H. apply (ops_runtime {| ow_state := sample_state; ow_permits := [] |}).
Qed.

Lemma sample_published : exists references, publish_topology sample_space sample_manifest "{}" = Ok (sample_topology, references).
Proof.
  unfold sample_topology. destruct (publish_topology sample_space sample_manifest "{}") as [[t r]|err] eqn:E; [by exists r|exfalso].
  assert (H : is_ok (publish_topology sample_space sample_manifest "{}") = true) by (vm_compute; reflexivity). by rewrite E in H.
Qed.

Lemma sample_started : startup sample_sha saved_1 sample_station (operations_ports Namespace.toy_ports) (fun _ => Ok ()) = Ok sample_state.
Proof.
  unfold sample_state. destruct (startup _ _ _ _ _) as [s|err] eqn:E; [done|exfalso].
  assert (H : is_ok (startup sample_sha saved_1 sample_station (operations_ports Namespace.toy_ports) (fun _ => Ok ())) = true)
    by (vm_compute; reflexivity). by rewrite E in H.
Qed.

Lemma sample_operated : publish_operations "{}" "1.0" "abc" sample_state = Ok sample_operations.
Proof.
  unfold sample_operations. destruct (publish_operations _ _ _ _) as [s|err] eqn:E; [done|exfalso].
  assert (H : is_ok (publish_operations "{}" "1.0" "abc" sample_state) = true) by (vm_compute; reflexivity). by rewrite E in H.
Qed.

Lemma station_metadata_follows_witness :
  st_alive (station_poll "1.0" "abc" (fun _ => true) sample_topology sample_operations sample_world) = true /\
  st_topology sample_world !! (device_path "/dev/ttyAP0" "1" +:+ "/PLCVersion") = Some (TvString "V3.4", UncertainLastUsableValue).
Proof.
  split; [|vm_compute; reflexivity]. destruct sample_published as [references Hp].
  refine (proj1 (station_metadata_follows sample_rules Namespace.toy_ports sample_engine sample_manifest sample_sha saved_1 sample_station
           (fun _ => Ok ()) sample_state sample_space "{}" sample_topology references "{}" "1.0" "abc"
           sample_operations (fun _ => true) sample_world _ _ Hp sample_started sample_operated sample_world_reached)); vm_compute; reflexivity.
Defined.

(** The key does not cover the stale mark.  After a restart with a saved
    version and a port that cannot be opened, the worker's first report marks
    the version as stale in the operations state; the key is the same as before
    the report, the task does not publish, and the node keeps saying that the
    version is not stale. *)
Lemma stale_mark_lags :
  rtc (station_step "1.0" "abc" (fun _ => true) sample_topology sample_operations) sample_open sample_world /\
  (fun p => (fun d => stale (dv_station_version d)) <$> pt_devices p) <$> (os_ports (ow_state sample_report) !! "/dev/ttyAP0")
    = Some [true; false] /\
  station_poll "1.0" "abc" (fun _ => true) sample_topology sample_operations sample_world = sample_world /\
  st_topology sample_world !! (device_path "/dev/ttyAP0" "1" +:+ "/Stale") = Some (TvBoolean false, StationGood).
Proof.
  split_and!; [exact sample_world_reached|vm_compute; reflexivity| |vm_compute; reflexivity].
  assert (Hk : String.eqb (station_snapshot_update_key (station_versions_snapshot (ow_state (st_ops sample_world)))) (st_key sample_world) = true)
    by (vm_compute; reflexivity).
  assert (Ha : st_alive sample_world = true) by (vm_compute; reflexivity).
  unfold station_poll. rewrite Ha. cbn [negb]. cbv zeta. by rewrite Hk.
Qed.
