(* ===== verification/Utf8.v ===== *)
(** * UTF-8 text as bytes

    Rust's [str::from_utf8], [String::from_utf8_lossy] and the searches on
    [str] the log pages use, on lists of bytes.  A string slice is its bytes.
    Nothing here models a file of the repository. *)

From S2P Require Import Prelude RustStr.
Open Scope Z_scope.
Open Scope list_scope.

Definition in_range (lo hi b : Z) : bool := (lo <=? b) && (b <=? hi).
Definition is_cont (b : Z) : bool := in_range 128 191 b.

(** The second byte a lead byte allows. *)
Definition second_ok (lead b : Z) : bool :=
  if in_range 194 223 lead then is_cont b
  else if lead =? 224 then in_range 160 191 b
  else if lead =? 237 then in_range 128 159 b
  else if in_range 225 239 lead then is_cont b
  else if lead =? 240 then in_range 144 191 b
  else if in_range 241 243 lead then is_cont b
  else if lead =? 244 then in_range 128 143 b
  else false.

(** The width a lead byte announces; 0 for a byte that leads nothing. *)
Definition lead_width (b : Z) : nat :=
  if in_range 0 127 b then 1%nat
  else if in_range 194 223 b then 2%nat
  else if in_range 224 239 b then 3%nat
  else if in_range 240 244 b then 4%nat
  else 0%nat.

Fixpoint conts_before (n : nat) (bs : list Z) : nat :=
  match n, bs with
  | S n, b :: bs => if is_cont b then S (conts_before n bs) else 0%nat
  | _, _ => 0%nat
  end.

(** How many bytes the next character or the next invalid sequence takes, and
    whether it is a character. *)
Definition utf8_step (b : Z) (rest : list Z) : nat * bool :=
  match lead_width b with
  | 0%nat => (1%nat, false)
  | 1%nat => (1%nat, true)
  | w =>
      match rest with
      | c :: rest =>
          if second_ok b c then
            let more := conts_before (w - 2) rest in
            if (more =? w - 2)%nat then (w, true) else ((2 + more)%nat, false)
          else (1%nat, false)
      | [] => (1%nat, false)
      end
  end.

Definition REPLACEMENT : list Z := [239; 191; 189].

Fixpoint utf8_loop (fuel : nat) (bs : list Z) : list (list Z * bool) :=
  match fuel, bs with
  | S fuel, b :: rest => let '(n, ok) := utf8_step b rest in (take n bs, ok) :: utf8_loop fuel (drop n bs)
  | _, _ => []
  end.
(** Characters and invalid sequences, in order. *)
Definition utf8_pieces (bs : list Z) : list (list Z * bool) := utf8_loop (length bs) bs.

Definition from_utf8 (bs : list Z) : option (list Z) :=
  if forallb snd (utf8_pieces bs) then Some bs else None.
Definition from_utf8_lossy (bs : list Z) : list Z :=
  utf8_pieces bs ≫= fun p => if p.2 : bool then p.1 else REPLACEMENT.

(** [char::is_whitespace]. *)
Definition whitespace_char (c : list Z) : bool :=
  match c with
  | [b] => in_range 9 13 b || (b =? 32)
  | [194; b] => (b =? 133) || (b =? 160)
  | [225; 154; b] => b =? 128
  | [226; 128; b] => in_range 128 138 b || (b =? 168) || (b =? 169) || (b =? 175)
  | [226; 129; b] => b =? 159
  | [227; 128; b] => b =? 128
  | _ => false
  end.

Definition trim_text (bs : list Z) : list Z :=
  concat (rev (drop_while whitespace_char (rev (drop_while whitespace_char (utf8_pieces bs).*1)))).

Definition uppercase_byte (b : Z) : Z := if in_range 97 122 b then b - 32 else b.
Definition to_ascii_uppercase (bs : list Z) : list Z := uppercase_byte <$> bs.

Fixpoint is_prefix (p s : list Z) : bool :=
  match p, s with
  | [], _ => true
  | a :: p, b :: s => (a =? b) && is_prefix p s
  | _, [] => false
  end.

(** [s.contains(p)]. *)
Fixpoint contains (p s : list Z) : bool :=
  is_prefix p s || match s with [] => false | _ :: s => contains p s end.

(** [s.split_once(p)]. *)
Fixpoint split_once (p s : list Z) : option (list Z * list Z) :=
  if is_prefix p s then Some ([], drop (length p) s)
  else match s with
       | [] => None
       | b :: s => '(x, y) ← split_once p s; Some (b :: x, y)
       end.

(** The bytes of a literal. *)
Definition bytes_of (s : string) : list Z := code <$> chars s.

(** ** Characters *)

(** One character of valid text. *)
Definition utf8_char (c : list Z) : Prop :=
  match c with b :: rest => utf8_step b rest = (length c, true) | [] => False end.

Definition valid_utf8 (bs : list Z) : Prop := exists cs, Forall utf8_char cs /\ bs = concat cs.

Lemma conts_before_le n bs : (conts_before n bs <= n)%nat /\ (conts_before n bs <= length bs)%nat.
Proof. revert bs. induction n as [|n IH]; intros [|b bs]; simpl; try lia. destruct (is_cont b); [|lia]. specialize (IH bs). lia. Qed.

Lemma conts_before_app n bs bs' : conts_before n bs = n -> conts_before n (bs ++ bs') = n.
Proof.
  revert bs. induction n as [|n IH]; intros bs H; [done|]. destruct bs as [|b bs]; [done|]. simpl in *.
  destruct (is_cont b); [|done]. injection H as H. f_equal. by apply IH.
Qed.

Lemma lead_width_le b : (lead_width b <= 4)%nat.
Proof. unfold lead_width. repeat case_match; lia. Qed.

Lemma utf8_step_bound b rest : (1 <= (utf8_step b rest).1 <= S (length rest))%nat /\ ((utf8_step b rest).1 <= 4)%nat.
Proof.
  unfold utf8_step. pose proof (lead_width_le b). destruct (lead_width b) as [|[|w]]; simpl; [lia..|].
  destruct rest as [|c rest]; simpl; [lia|]. destruct (second_ok b c); simpl; [|lia].
  pose proof (conts_before_le (w - 0) rest). destruct (Nat.eqb_spec (conts_before (w - 0) rest) (w - 0)); simpl; lia.
Qed.

(** A character is recognised before any further bytes. *)
Lemma utf8_step_char b rest more : utf8_step b rest = (S (length rest), true) -> utf8_step b (rest ++ more) = (S (length rest), true).
Proof.
  unfold utf8_step. destruct (lead_width b) as [|[|w]]; [done|done|]. destruct rest as [|c rest]; [done|]. cbn [app].
  destruct (second_ok b c); [|done]. replace (S (S w) - 2)%nat with w by lia.
  destruct (Nat.eqb_spec (conts_before w rest) w) as [H|]; [|by intros [= ? ?]]. rewrite conts_before_app by done. by rewrite Nat.eqb_refl.
Qed.

Lemma utf8_loop_fuel fuel bs : (length bs <= fuel)%nat -> utf8_loop fuel bs = utf8_loop (length bs) bs.
Proof.
  revert bs. assert (H : forall f f' bs, (length bs <= f)%nat -> (length bs <= f')%nat -> utf8_loop f bs = utf8_loop f' bs).
  { induction f as [|f IH]; intros f' bs Hf Hf'; [by destruct bs, f'; simpl in *; try lia|].
    destruct bs as [|b bs]; [by destruct f'|]. destruct f' as [|f']; [simpl in *; lia|]. cbn [utf8_loop].
    pose proof (utf8_step_bound b bs) as [Hb _]. destruct (utf8_step b bs) as [n ok]. cbn [fst] in Hb. f_equal.
    apply IH; rewrite length_drop; simpl in *; lia. }
  intros bs Hl. by apply H.
Qed.

Lemma utf8_pieces_char c bs : utf8_char c -> utf8_pieces (c ++ bs) = (c, true) :: utf8_pieces bs.
Proof.
  destruct c as [|b rest]; [done|]. cbn [utf8_char]. intros H. unfold utf8_pieces. cbn [app length utf8_loop].
  rewrite (utf8_step_char _ _ bs H). change (b :: rest ++ bs) with ((b :: rest) ++ bs). rewrite take_app_length', drop_app_length' by done.
  f_equal. apply utf8_loop_fuel. rewrite length_app. lia.
Qed.

Lemma utf8_pieces_valid cs : Forall utf8_char cs -> utf8_pieces (concat cs) = (fun c => (c, true)) <$> cs.
Proof. induction 1 as [|c cs Hc _ IH]; [done|]. cbn [concat fmap list_fmap]. by rewrite utf8_pieces_char, IH. Qed.

Lemma lossy_valid bs : valid_utf8 bs -> from_utf8_lossy bs = bs.
Proof.
  intros (cs & Hcs & ->). unfold from_utf8_lossy. rewrite utf8_pieces_valid by done. clear Hcs. induction cs as [|c cs IH]; [done|].
  cbn [fmap list_fmap mbind list_bind concat snd fst]. by f_equal.
Qed.

Lemma from_utf8_valid bs : valid_utf8 bs -> from_utf8 bs = Some bs.
Proof.
  intros (cs & Hcs & ->). unfold from_utf8. rewrite utf8_pieces_valid by done. clear Hcs.
  assert (H : forallb snd ((fun c : list Z => (c, true)) <$> cs) = true) by (by induction cs). by rewrite H.
Qed.

Lemma second_ok_cont lead b : second_ok lead b = true -> is_cont b = true.
Proof. unfold second_ok, is_cont, in_range. repeat case_match; try done; intros; rewrite !andb_true_iff, !Z.leb_le in *; lia. Qed.

Lemma conts_before_all n bs : conts_before n bs = n -> length bs = n -> Forall (fun b => is_cont b = true) bs.
Proof.
  revert bs. induction n as [|n IH]; intros [|b bs] H Hl; try done. simpl in *. destruct (is_cont b) eqn:E; [|done].
  constructor; [done|]. apply IH; lia.
Qed.

(** A lead byte and the continuation bytes it announces. *)
Lemma char_shape c : utf8_char c -> exists b rest, c = b :: rest /\ lead_width b = S (length rest) /\ Forall (fun b => is_cont b = true) rest.
Proof.
  destruct c as [|b rest]; [done|]. cbn [utf8_char length]. intros H. exists b, rest. split; [done|]. unfold utf8_step in H.
  destruct (lead_width b) as [|[|w]]; [done|by injection H as H; destruct rest|]. destruct rest as [|c rest]; [done|].
  destruct (second_ok b c) eqn:Es; [|done]. replace (S (S w) - 2)%nat with w in H by lia.
  destruct (Nat.eqb_spec (conts_before w rest) w) as [Hw|]; [|done]. injection H as H. split; [simpl; lia|].
  constructor; [by eapply second_ok_cont|]. eapply conts_before_all; [exact Hw|lia].
Qed.

Lemma cont_no_lead b : is_cont b = true -> lead_width b = 0%nat.
Proof.
  unfold is_cont, lead_width, in_range. rewrite andb_true_iff, !Z.leb_le. intros H.
  repeat match goal with |- context [?a <=? ?b] => destruct (Z.leb_spec a b); try lia end; done.
Qed.

Lemma valid_nil : valid_utf8 [].
Proof. by exists []. Qed.

Lemma valid_app a b : valid_utf8 a -> valid_utf8 b -> valid_utf8 (a ++ b).
Proof. intros (cs & H & ->) (cs' & H' & ->). exists (cs ++ cs'). rewrite concat_app. split; [by apply Forall_app|done]. Qed.

Lemma valid_head b bs : valid_utf8 (b :: bs) -> is_cont b = false.
Proof.
  intros (cs & H & Heq). destruct cs as [|c cs]; [done|]. apply Forall_cons in H as [Hc _]. destruct (char_shape c Hc) as (b' & rest & -> & Hw & _).
  injection Heq as -> _. destruct (is_cont b') eqn:E; [|done]. by rewrite (cont_no_lead _ E) in Hw.
Qed.

(** The last boundary at or before a position. *)
Lemma valid_boundary bs k : valid_utf8 bs -> (k <= length bs)%nat ->
  exists a c b, bs = a ++ c ++ b /\ valid_utf8 a /\ valid_utf8 (c ++ b) /\ (length a <= k)%nat /\
    ((c = [] /\ b = [] /\ k = length a) \/ (utf8_char c /\ (k < length a + length c)%nat)) /\
    (a = [] \/ exists a' d, a = a' ++ d /\ valid_utf8 a' /\ utf8_char d).
Proof.
  intros (cs & H & ->). revert k. induction cs as [|c cs IH]; intros k Hk.
  - exists [], [], []. simpl in *. split_and!; [done|apply valid_nil|apply valid_nil|lia|left; by repeat split; lia|by left].
  - apply Forall_cons in H as [Hc H]. cbn [concat] in *. rewrite length_app in Hk. destruct (decide (k < length c)%nat) as [Hlt|Hge].
    + exists [], c, (concat cs). split_and!; [done|apply valid_nil|exists (c :: cs); split; [by constructor|done]|simpl; lia|right; by split|by left].
    + destruct (IH H (k - length c)%nat) as (a & d & b & Heq & Ha & Hdb & Hl & Hor & Hlast); [lia|]. exists (c ++ a), d, b. rewrite length_app.
      assert (Hvc : valid_utf8 c) by (exists [c]; split; [by constructor|by rewrite concat_cons, app_nil_r]).
      split_and!; [by rewrite Heq, <- app_assoc|by apply valid_app|done|lia| |].
      * destruct Hor as [(-> & -> & Hk')|[Hd Hd']]; [left; split_and!; [done|done|lia]|right; split; [done|lia]].
      * right. destruct Hlast as [->|(a' & d' & -> & Ha' & Hd')]; [exists [], c; split_and!; [by rewrite app_nil_r|apply valid_nil|done]|].
        exists (c ++ a'), d'. split_and!; [by rewrite app_assoc|by apply valid_app|done].
Qed.

(** A byte below 128 is a character of its own. *)
Lemma valid_split a x b : x < 128 -> 0 <= x -> valid_utf8 (a ++ x :: b) -> valid_utf8 (a ++ [x]) /\ valid_utf8 b.
Proof.
  intros Hx Hx0 (cs & H & Heq). revert a Heq. induction cs as [|c cs IH]; intros a Heq; [by destruct a|].
  apply Forall_cons in H as [Hc H]. assert (Hvc : valid_utf8 c) by (exists [c]; split; [by constructor|by rewrite concat_cons, app_nil_r]).
  cbn [concat] in Heq. destruct (decide (length c <= length a)%nat) as [Hle|Hgt].
  - assert (exists a', a = c ++ a') as [a' ->].
    { exists (drop (length c) a). apply (f_equal (take (length c))) in Heq. rewrite take_app_length, take_app_le in Heq by lia.
      rewrite <- Heq at 1. by rewrite take_drop. }
    rewrite <- app_assoc in Heq. apply app_inv_head in Heq. destruct (IH H _ Heq) as [H1 H2]. split; [|done].
    rewrite <- app_assoc. by apply valid_app.
  - destruct (char_shape c Hc) as (l & rest & -> & Hw & Hr).
    assert (Hin : (l :: rest) !! length a = Some x).
    { apply (f_equal (lookup (length a))) in Heq. rewrite list_lookup_middle in Heq by done. rewrite lookup_app_l in Heq by lia. done. }
    destruct a as [|y a].
    + injection Heq as <- Heq. clear Hin. assert (rest = []) as ->.
      { unfold lead_width, in_range in Hw. destruct (Z.leb_spec 0 x); [|lia]. destruct (Z.leb_spec x 127); [|lia]. cbn in Hw. by destruct rest. }
      split; [exists [[x]]; split; [by constructor|done]|]. exists cs. by split.
    + exfalso. cbn in Hin. apply list_elem_of_lookup_2 in Hin. rewrite Forall_forall in Hr. apply Hr in Hin. unfold is_cont, in_range in Hin.
      rewrite andb_true_iff, !Z.leb_le in Hin. lia.
Qed.
