(* ===== verification/LogFiles.v ===== *)
(** * Log files of the console (src/src/operations/files.rs, the log part)

    Which logs may be read, the generation that tells a log from its
    successor, and one page of a log: the window that is scanned, the lines that
    pass the filters, the bounded text and the cursor.  A file is its identity
    and its bytes; failures of single reads are left out. *)

From S2P Require Import Prelude RustStr Utf8 Maintenance.
Open Scope string_scope.
Open Scope Z_scope.
Open Scope list_scope.

Definition MAX_LOG_SCAN : Z := 256 * 1024 - 2048.
Definition MAX_LOG_TEXT : Z := 64 * 1024.
Definition MAX_LOG_LOOKBEHIND : Z := 256 * 1024.

Definition len (bs : list Z) : Z := Z.of_nat (length bs).

(** ** Arguments *)

Inductive Json := JNull | JString (s : string) | JBool (b : bool) | JNumber (n : option Z) | JOther.
Abbreviation LogRequest := (gmap string Json).

Definition must_be (key what : string) : OperationError := op_error "invalid_request" (key +:+ " 必须为" +:+ what).
Definition required_string (request : LogRequest) (key : string) : result OperationError string :=
  match request !! key with Some (JString s) => Ok s | _ => Err (must_be key "字符串") end.
Definition optional_string (request : LogRequest) (key : string) : result OperationError (option string) :=
  match request !! key with
  | None | Some JNull => Ok None
  | Some (JString s) => Ok (Some s)
  | Some _ => Err (must_be key "字符串")
  end.
(** [as_u64]: a number that is one. *)
Definition optional_u64 (request : LogRequest) (key : string) : result OperationError (option Z) :=
  match request !! key with
  | None | Some JNull => Ok None
  | Some (JNumber (Some n)) => if (0 <=? n) && (n <=? u64_max) then Ok (Some n) else Err (must_be key "非负整数")
  | Some _ => Err (must_be key "非负整数")
  end.

Definition ends_with (suffix s : string) : bool := String.prefix (text (rev (chars suffix))) (text (rev (chars s))).

Definition safe_name (name : string) : bool :=
  negb (String.eqb name "") && (String.length name <=? 255)%nat && negb (String.eqb name ".") && negb (String.eqb name "..")
  && negb (ends_with "." name || ends_with " " name)
  && negb (existsb (fun c => is_control c || one_of "/\:" c) (chars name)).

Definition allowed_log (log_basename name : string) : bool :=
  safe_name name && String.prefix log_basename name && ends_with ".log" name.

(** ** Pages *)

(** [read_at]: what is there of the bytes asked for. *)
Definition read_at (bytes : list Z) (offset count : Z) : list Z := take (Z.to_nat count) (drop (Z.to_nat offset) bytes).

(** How many bytes at the end begin an unfinished sequence; the bytes come
    last one first, [seen] of them were continuation bytes. *)
Fixpoint unfinished (window seen : nat) (backwards : list Z) : nat :=
  match window, backwards with
  | S window, b :: backwards =>
      let lead (width : nat) := if (S seen <? width)%nat then S seen else 0%nat in
      if in_range 194 223 b then lead 2%nat
      else if in_range 224 239 b then lead 3%nat
      else if in_range 240 244 b then lead 4%nat
      else if in_range 128 191 b then unfinished window (S seen) backwards
      else 0%nat
  | _, _ => 0%nat
  end.
Definition complete_utf8_end (bytes : list Z) : nat := length bytes - unfinished 4 0 (rev bytes).

(** At most [n] bytes, without an unfinished sequence at their end. *)
Definition cut_text (bytes : list Z) (n : Z) : nat :=
  let count := Z.to_nat (Z.min (len bytes) n) in
  if (count <? length bytes)%nat then complete_utf8_end (take count bytes) else count.

Definition bounded_text (bytes : list Z) (limit : Z) : list Z * nat :=
  let count := cut_text bytes limit in
  match from_utf8 (take count bytes) with
  | Some text => (text, count)
  | None =>
      let count := cut_text bytes (limit / 3) in
      match count, bytes with
      | 0%nat, b :: _ =>
          let width := if in_range 194 223 b then 2%nat else if in_range 224 239 b then 3%nat
                       else if in_range 240 244 b then 4%nat else 1%nat in
          match (if (width <=? length bytes)%nat && (Z.of_nat width <=? limit) then from_utf8 (take width bytes) else None) with
          | Some text => (text, width)
          | None => (REPLACEMENT, 1%nat)
          end
      | _, _ => (from_utf8_lossy (take count bytes), count)
      end
  end.

Definition log_level_matches (text level : list Z) : bool :=
  bool_decide (level = []) || bool_decide (level = bytes_of "ALL")
  || match ('(_, remainder) ← split_once (bytes_of " [") text; split_once (bytes_of "]") remainder) with
     | Some (actual, _) => bool_decide (trim_text actual = level)
     | None => false
     end.

(** [split_inclusive] at line feeds. *)
Fixpoint split_inclusive (bytes : list Z) : list (list Z) :=
  match bytes with
  | [] => []
  | b :: bytes =>
      if b =? 10 then [b] :: split_inclusive bytes
      else match split_inclusive bytes with
           | line :: lines => (b :: line) :: lines
           | [] => [[b]]
           end
  end.

Section Page.
Context (query level : list Z) (limit : Z).

(** Whether a line, with what came before it on the same line, is shown. *)
Definition shown_line (line : list Z) : bool :=
  let match_text := from_utf8_lossy line in log_level_matches match_text level && contains query match_text.

Fixpoint page_lines (lines : list (list Z)) (line_prefix output : list Z) (consumed : nat) : list Z * nat * bool :=
  match lines with
  | [] => (output, consumed, false)
  | line :: lines =>
      let text := from_utf8_lossy line in
      if shown_line (line_prefix ++ line) then
        if len text <=? limit - len output then page_lines lines [] (output ++ text) (consumed + length line)
        else match output with
             | [] => let '(part, count) := bounded_text line limit in (part, (consumed + count)%nat, true)
             | _ => (output, consumed, true)
             end
      else page_lines lines [] output (consumed + length line)
  end.
Definition filter_log_page (bytes line_prefix : list Z) : list Z * nat * bool :=
  page_lines (split_inclusive bytes) line_prefix [] 0.

Fixpoint position {A} (p : A -> bool) (l : list A) : option nat :=
  match l with [] => None | x :: l => if p x then Some 0%nat else S <$> position p l end.
Definition is_newline (b : Z) : bool := b =? 10.
Definition rposition (l : list Z) : option nat := (fun i => length l - S i)%nat <$> position is_newline (rev l).

Definition lost_while_looking_back : OperationError := op_error "conflict" "日志在回溯期间被截断".
Definition look_back_too_far : OperationError :=
  op_error "invalid_request" "日志行首超过 256 KiB 回溯上限，不能可靠延续级别/关键词筛选；请清除筛选后按字节分页读取".

Fixpoint look_back (fuel : nat) (bytes : list Z) (cursor scanned : Z) (suffix : list Z) : result OperationError (list Z) :=
  match fuel with
  | O => Err look_back_too_far
  | S fuel =>
      if (0 <? cursor) && (scanned <? MAX_LOG_LOOKBEHIND) then
        let count := Z.min (Z.min cursor 4096) (MAX_LOG_LOOKBEHIND - scanned) in
        let chunk := read_at bytes (cursor - count) count in
        if negb (len chunk =? count) then Err lost_while_looking_back
        else match rposition chunk with
             | Some newline => Ok (drop (S newline) chunk ++ suffix)
             | None => look_back fuel bytes (cursor - count) (scanned + count) (chunk ++ suffix)
             end
      else if negb (cursor =? 0) then Err look_back_too_far
      else Ok suffix
  end.

(** What precedes the offset on its line. *)
Definition read_log_line_prefix (bytes : list Z) (offset : Z) : result OperationError (list Z) :=
  if offset =? 0 then Ok []
  else
    let last := read_at bytes (offset - 1) 1 in
    if negb (len last =? 1) then Err lost_while_looking_back
    else if bool_decide (last = [10]) then Ok []
    else look_back (S (Z.to_nat (offset - 1))) bytes (offset - 1) 1 last.

(** The window: skip the rest of a character, and in a tail the rest of a
    line. *)
Definition skip_character (offset : Z) (bytes : list Z) : Z * list Z :=
  let prefix := conts_before 3 bytes in (offset + Z.of_nat prefix, drop prefix bytes).
Definition skip_line (offset : Z) (bytes : list Z) : Z * list Z :=
  match position is_newline bytes with
  | Some end_ => if (S end_ <? length bytes)%nat then (offset + Z.of_nat end_ + 1, drop (S end_) bytes) else (offset, bytes)
  | None => (offset, bytes)
  end.

Definition undecided : OperationError :=
  op_error "invalid_request" "日志行超过单页筛选扫描上限，无法确定整行是否匹配；请清除筛选后按字节分页读取".

Record Page := { pg_offset : Z; pg_next : Z; pg_text : list Z; pg_truncated : bool; pg_bytes : list Z }.

(** One page of a file that does not change meanwhile, from [start]. *)
Definition log_page (file : list Z) (start : Z) (tail : bool) : result OperationError Page :=
  let tail_fragment := tail && (0 <? start) && negb (bool_decide (read_at file (start - 1) 1 = [10])) in
  let count := Z.min (len file - start) MAX_LOG_SCAN in
  let bytes := read_at file start count in
  let scanned_end := start + len bytes in
  let '(offset, bytes) :=
    if 0 <? start then
      let '(offset, bytes) := skip_character start bytes in
      if tail_fragment then skip_line offset bytes else (offset, bytes)
    else (start, bytes) in
  let more_on_disk := scanned_end <? len file in
  let bytes :=
    if more_on_disk then
      match rposition bytes with
      | Some last_newline => take (S last_newline) bytes
      | None => take (complete_utf8_end bytes) bytes
      end
    else bytes in
  let filtering := negb (bool_decide (query = [])) || (negb (bool_decide (level = [])) && negb (bool_decide (level = bytes_of "ALL"))) in
  line_prefix ← (if filtering && negb (bool_decide (bytes = [])) then read_log_line_prefix file offset else Ok []);
  let context := from_utf8_lossy (line_prefix ++ bytes) in
  if more_on_disk && negb (existsb is_newline bytes) && negb (bool_decide (query = []))
     && log_level_matches context level && negb (contains query context)
  then Err undecided
  else
    let '(text, consumed, output_limited) := filter_log_page bytes line_prefix in
    Ok {| pg_offset := offset; pg_next := offset + Z.of_nat consumed; pg_text := text;
          pg_truncated := output_limited || more_on_disk || (tail && negb (offset =? 0)); pg_bytes := bytes |}.

(** All pages from an offset on; [None] is too little fuel. *)
Fixpoint read_pages (fuel : nat) (file : list Z) (offset : Z) : option (result OperationError (list (list Z))) :=
  match fuel with
  | O => None
  | S fuel =>
      if len file <=? offset then Some (Ok [])
      else
        match log_page file offset false with
        | Err e => Some (Err e)
        | Ok page =>
            match read_pages fuel file (pg_next page) with
            | Some (Ok texts) => Some (Ok (pg_text page :: texts))
            | r => r
            end
        end
  end.
End Page.

(** ** Generations *)

Record LogFile := { lf_identity : string; lf_bytes : list Z }.

Record LogGeneration := {
  lg_token : string;
  lg_identity : string;
  lg_size : Z;
  lg_prefix : list Z;
  lg_anchors : list (Z * list Z)
}.

Abbreviation Generations := (gmap string LogGeneration).

(** Whether the file is still the one of the generation. *)
Definition log_changed (previous : LogGeneration) (file : LogFile) (prefix : list Z) : bool :=
  negb (String.eqb (lg_identity previous) (lf_identity file))
  || (len (lf_bytes file) <? lg_size previous)
  || negb (is_prefix (lg_prefix previous) prefix)
  || existsb (fun ab => negb (bool_decide (read_at (lf_bytes file) ab.1 (len ab.2) = ab.2))) (lg_anchors previous).

(** [fresh] is the token made from the identity, the name and a unique id. *)
Definition observe_log (generations : Generations) (name : string) (file : LogFile) (fresh : string) : Generations * string :=
  let prefix := read_at (lf_bytes file) 0 (Z.min (len (lf_bytes file)) 256) in
  let restart :=
    (<[name := {| lg_token := fresh; lg_identity := lf_identity file; lg_size := len (lf_bytes file); lg_prefix := prefix; lg_anchors := [] |}]>
       generations, fresh) in
  match generations !! name with
  | None => restart
  | Some previous =>
      if log_changed previous file prefix then restart
      else (<[name := {| lg_token := lg_token previous; lg_identity := lg_identity previous; lg_size := len (lf_bytes file);
                         lg_prefix := prefix; lg_anchors := lg_anchors previous |}]> generations, lg_token previous)
  end.

(** The last four pages. *)
Definition push_anchor (anchors : list (Z * list Z)) (anchor : Z * list Z) : list (Z * list Z) :=
  let l := anchors ++ [anchor] in drop (length l - 4) l.

Record LogPage := {
  lp_generation : string;
  lp_offset : Z;
  lp_next_offset : Z;
  lp_size_bytes : Z;
  lp_eof : bool;
  lp_truncated : bool;
  lp_text : list Z
}.

(** The file after the page was read: the contents of the open file, and the
    identity of what the name leads to. *)
Record Later := { la_bytes : list Z; la_path : result OperationError (option string) }.

Record LogArguments := {
  ar_name : string;
  ar_expected : option string;
  ar_offset : Z;
  ar_limit : Z;
  ar_query : list Z;
  ar_level : list Z;
  ar_tail : bool
}.

Definition LEVELS : list (list Z) := [[]; bytes_of "ALL"; bytes_of "ERROR"; bytes_of "WARN"; bytes_of "INFO"; bytes_of "DEBUG"; bytes_of "TRACE"].

Definition log_arguments (log_basename : string) (request : LogRequest) : result OperationError LogArguments :=
  name ← required_string request "name";
  if negb (allowed_log log_basename name)
  then Err (op_error "invalid_request" "只能读取本程序 basename 开头的 .log 文件")
  else
    expected ← optional_string request "generation";
    requested_offset ← optional_u64 request "offset";
    limit ← optional_u64 request "limit";
    let limit := default MAX_LOG_TEXT limit in
    if negb ((4 <=? limit) && (limit <=? MAX_LOG_TEXT))
    then Err (op_error "invalid_request" "limit 必须在 4..=65536 字节之间")
    else
      query ← optional_string request "query";
      let query := bytes_of (default "" query) in
      if 4096 <? len query then Err (op_error "too_large" "日志查询最大 4096 字节")
      else
        level ← optional_string request "level";
        let level := to_ascii_uppercase (trim_text (bytes_of (default "" level))) in
        if negb (bool_decide (level ∈ LEVELS)) then Err (op_error "invalid_request" "无效日志 level")
        else
          tail ← (match request !! "tail" with
                  | None | Some JNull => Ok false
                  | Some (JBool b) => Ok b
                  | Some _ => Err (op_error "invalid_request" "tail 必须为布尔值")
                  end);
          Ok {| ar_name := name; ar_expected := expected; ar_offset := default 0 requested_offset; ar_limit := limit;
                ar_query := query; ar_level := level; ar_tail := tail |}.

Definition rotated (message : string) : OperationError := op_error "conflict" message.

(** [read_log]: [opened] is the file when it is opened, [fresh] and [fresh']
    are the tokens the two observations would give. *)
Definition read_log (log_basename : string) (generations : Generations) (request : LogRequest)
    (opened : result OperationError LogFile) (later : Later) (fresh fresh' : string)
    : Generations * result OperationError LogPage :=
  match log_arguments log_basename request with
  | Err e => (generations, Err e)
  | Ok a =>
      match opened with
      | Err e =>
          (generations, Err (if bool_decide (is_Some (ar_expected a)) && String.eqb (oe_code e) "not_found"
                             then rotated "日志已轮转或删除，请重新列出日志" else e))
      | Ok before =>
          let '(generations, generation) := observe_log generations (ar_name a) before fresh in
          let size := len (lf_bytes before) in
          let start := if ar_tail a then Z.max 0 (size - ar_limit a) else ar_offset a in
          if match ar_expected a with Some g => negb (String.eqb g generation) | None => false end
          then (generations, Err (with_revision (rotated "日志代次已变化，请从新文件重新读取") generation))
          else if size <? start
          then (generations, Err (with_revision (rotated "日志已截断，offset 超出文件大小") generation))
          else
            match log_page (ar_query a) (ar_level a) (ar_limit a) (lf_bytes before) start (ar_tail a) with
            | Err e => (generations, Err e)
            | Ok page =>
                match la_path later with
                | Err e => (generations, Err e)
                | Ok None => (generations, Err (rotated "日志在读取期间轮转"))
                | Ok (Some path_identity) =>
                    if negb (String.eqb path_identity (lf_identity before)) || (len (la_bytes later) <? size)
                    then (generations, Err (rotated "日志在读取期间轮转或截断"))
                    else
                      let after := {| lf_identity := lf_identity before; lf_bytes := la_bytes later |} in
                      let '(generations, again) := observe_log generations (ar_name a) after fresh' in
                      if negb (String.eqb again generation) then (generations, Err (rotated "日志在读取期间内容发生替换"))
                      else
                        let reply := Ok {| lp_generation := generation; lp_offset := pg_offset page; lp_next_offset := pg_next page;
                                           lp_size_bytes := len (la_bytes later); lp_eof := len (la_bytes later) <=? pg_next page;
                                           lp_truncated := pg_truncated page; lp_text := pg_text page |} in
                        if pg_next page =? pg_offset page then (generations, reply)
                        else
                          let anchor_offset := Z.max (Z.max 0 (pg_next page - 64)) (pg_offset page) in
                          let anchor := read_at (pg_bytes page) (anchor_offset - pg_offset page) (pg_next page - anchor_offset) in
                          if negb (bool_decide (read_at (la_bytes later) anchor_offset (pg_next page - anchor_offset) = anchor))
                          then (generations, Err (rotated "日志在读取期间内容发生变化"))
                          else
                            (alter (fun g => {| lg_token := lg_token g; lg_identity := lg_identity g; lg_size := lg_size g;
                                                lg_prefix := lg_prefix g; lg_anchors := push_anchor (lg_anchors g) (anchor_offset, anchor) |})
                               (ar_name a) generations, reply)
                end
            end
      end
  end.

(** ** The list of logs *)

Record LogItem := { li_name : string; li_size_bytes : Z; li_modified_at : string; li_generation : string }.

(** Newest first, then by name. *)
Definition newer (a b : LogItem) : bool :=
  if String.eqb (li_modified_at a) (li_modified_at b) then String.leb (li_name a) (li_name b)
  else String.leb (li_modified_at b) (li_modified_at a).
Fixpoint place_item (x : LogItem) (l : list LogItem) : list LogItem :=
  match l with [] => [x] | y :: l' => if newer x y then x :: l else y :: place_item x l' end.

(** Each entry of the directory, in the order of the names: whether it is a
    regular file, and what opening it gives with its time. *)
Record LogEntry := { le_name : string; le_regular : bool; le_opened : result OperationError (LogFile * string) }.

Fixpoint list_entries (generations : Generations) (fresh : string -> string) (entries : list LogEntry)
    : Generations * result OperationError (list LogItem) :=
  match entries with
  | [] => (generations, Ok [])
  | e :: entries =>
      match le_opened e with
      | Err err => if String.eqb (oe_code err) "not_found" then list_entries generations fresh entries else (generations, Err err)
      | Ok (file, modified) =>
          let '(generations, generation) := observe_log generations (le_name e) file (fresh (le_name e)) in
          let '(generations, items) := list_entries generations fresh entries in
          (generations, items ← items;
             Ok ({| li_name := le_name e; li_size_bytes := len (lf_bytes file); li_modified_at := modified; li_generation := generation |} :: items))
      end
  end.

Definition list_logs (log_basename : string) (generations : Generations) (fresh : string -> string) (directory : list LogEntry)
    : Generations * result OperationError (list LogItem) :=
  let names := filter (fun e => allowed_log log_basename (le_name e) && le_regular e = true) directory in
  let '(generations, items) := list_entries generations fresh names in
  (generations, items ← items; Ok (foldr place_item [] items)).

(** ** Cutting at characters *)

Lemma unfinished_back n seen conts b back :
  Forall (fun c => is_cont c = true) conts -> (length conts < n)%nat -> (0 < lead_width b)%nat ->
  unfinished n seen (rev conts ++ b :: back) = if (S (seen + length conts) <? lead_width b)%nat then S (seen + length conts) else 0%nat.
Proof.
  intros Hc Hn Hb. assert (Hr : Forall (fun c => is_cont c = true) (rev conts)) by (by apply Forall_rev).
  rewrite <- (length_rev conts) in *. generalize dependent (rev conts). clear conts Hc. intros conts Hn Hc. revert n seen Hn.
  induction Hc as [|c conts Hc _ IH]; intros n seen Hn; (destruct n as [|n]; [simpl in Hn; lia|]); cbn [app unfinished].
  - cbn [length]. rewrite Nat.add_0_r. unfold lead_width in *. destruct (in_range 0 127 b) eqn:E0.
    + assert (Hx : forall lo hi, 127 < lo -> in_range lo hi b = false).
      { intros lo hi Hlo. unfold in_range in *. apply andb_true_iff in E0 as [_ E0%Z.leb_le]. apply andb_false_iff. left. apply Z.leb_gt. lia. }
      by rewrite !Hx by lia.
    + destruct (in_range 194 223 b), (in_range 224 239 b), (in_range 240 244 b); try done. lia.
  - unfold is_cont in Hc. rewrite Hc. assert (Hx : forall lo hi, 191 < lo -> in_range lo hi c = false).
    { intros lo hi Hlo. unfold in_range in *. apply andb_true_iff in Hc as [_ Hc%Z.leb_le]. apply andb_false_iff. left. apply Z.leb_gt. lia. }
    rewrite !Hx by lia. rewrite IH by (simpl in Hn; lia). cbn [length]. by replace (S seen + length conts)%nat with (seen + S (length conts))%nat by lia.
Qed.

(** Text and the beginning of a character. *)
Lemma complete_end_part a c j : utf8_char c -> (0 < j < length c)%nat -> complete_utf8_end (a ++ take j c) = length a.
Proof.
  intros Hc Hj. destruct (char_shape c Hc) as (b & rest & -> & Hw & Hr). destruct j as [|j]; [lia|]. cbn [take]. simpl in Hj.
  unfold complete_utf8_end. rewrite rev_app_distr. cbn [rev]. rewrite <- app_assoc. cbn [app].
  pose proof (lead_width_le b). rewrite unfinished_back; [|by apply Forall_take|rewrite length_take; lia|lia].
  rewrite length_take, Nat.min_l by lia. rewrite (proj2 (Nat.ltb_lt _ _)) by lia. rewrite length_app. simpl. rewrite length_take. lia.
Qed.

Lemma complete_end_char a c : utf8_char c -> complete_utf8_end (a ++ c) = length (a ++ c).
Proof.
  intros Hc. destruct (char_shape c Hc) as (b & rest & -> & Hw & Hr). unfold complete_utf8_end. rewrite rev_app_distr. cbn [rev].
  rewrite <- app_assoc. cbn [app]. pose proof (lead_width_le b). rewrite unfinished_back; [|done|lia|lia].
  rewrite (proj2 (Nat.ltb_ge _ _)) by lia. lia.
Qed.

(** Cutting valid text leaves valid text on both sides and few bytes behind. *)
Lemma complete_end_cut bs k : valid_utf8 bs -> (k <= length bs)%nat ->
  exists a b, bs = a ++ b /\ valid_utf8 a /\ valid_utf8 b /\ complete_utf8_end (take k bs) = length a /\ (length a <= k <= length a + 3)%nat.
Proof.
  intros Hv Hk. destruct (valid_boundary bs k Hv Hk) as (a & c & b & -> & Ha & Hcb & Hl & Hor & Hlast). exists a, (c ++ b). split_and!; [done..| |lia|].
  - rewrite take_app_ge by lia. destruct (decide (k = length a)) as [->|Hne].
    + rewrite Nat.sub_diag, take_0, app_nil_r. destruct Hlast as [->|(a' & d & -> & _ & Hd)]; [done|]. by apply complete_end_char.
    + destruct Hor as [(_ & _ & ?)|[Hc Hc']]; [lia|]. rewrite take_app_le by lia. apply complete_end_part; [done|lia].
  - destruct Hor as [(_ & _ & ?)|[Hc Hc']]; [lia|]. destruct (char_shape c Hc) as (b' & rest & -> & Hw & _). pose proof (lead_width_le b').
    simpl in Hc'. lia.
Qed.

Lemma bounded_text_valid line limit : valid_utf8 line -> 4 <= limit < len line ->
  exists part rest, line = part ++ rest /\ bounded_text line limit = (part, length part) /\ part <> [] /\ rest <> [] /\
    valid_utf8 rest /\ len part <= limit.
Proof.
  intros Hv Hl. unfold len in *. destruct (complete_end_cut line (Z.to_nat limit) Hv) as (a & b & -> & Ha & Hb & He & Hk); [lia|].
  exists a, b. unfold bounded_text, cut_text, len. rewrite Z.min_r by lia. rewrite (proj2 (Nat.ltb_lt _ _)) by lia. rewrite He, take_app_length, from_utf8_valid by done.
  rewrite length_app in Hl. split_and!; [done..| | |done|].
  - intros ->. simpl in *. lia.
  - intros ->. simpl in *. lia.
  - lia.
Qed.

(** ** What a page shows *)

Section Pages.
Context (query level : list Z) (limit : Z).
Hypothesis limit_ok : 4 <= limit.
Abbreviation shown := (shown_line query level).

(** The lines that are shown; the first one continues [prefix]. *)
Definition shown_text (prefix : list Z) (lines : list (list Z)) : list Z :=
  match lines with
  | [] => []
  | line :: lines => (if shown (prefix ++ line) then line else []) ++ concat (filter (fun l => shown l = true) lines)
  end.

Lemma shown_text_nil lines : shown_text [] lines = concat (filter (fun l => shown l = true) lines).
Proof. destruct lines as [|l ls]; [done|]. cbn [shown_text app]. rewrite filter_cons. case_decide as H; [by rewrite H|]. by destruct (shown l). Qed.

Lemma shown_text_app prefix full more :
  shown_text prefix (full ++ more) = shown_text prefix full ++ shown_text (match full with [] => prefix | _ => [] end) more.
Proof.
  destruct full as [|l full]; [done|]. cbn [app shown_text]. by rewrite filter_app, concat_app, shown_text_nil, app_assoc.
Qed.

Lemma page_lines_spec lines prefix output consumed :
  Forall valid_utf8 lines -> Forall (fun l => l <> []) lines -> len output <= limit ->
  exists full more text n lim, lines = full ++ more /\
    page_lines query level limit lines prefix output consumed = (output ++ text, (consumed + n)%nat, lim) /\
    len (output ++ text) <= limit /\ (output = [] -> lines <> [] -> (0 < n)%nat) /\
    ((n = length (concat full) /\ text = shown_text prefix full) \/
     (output = [] /\ shown_text prefix full = [] /\
      exists part rest more', more = (part ++ rest) :: more' /\ text = part /\ n = length (concat full ++ part) /\ part <> [] /\ rest <> [] /\
        valid_utf8 rest /\ shown ((match full with [] => prefix | _ => [] end) ++ part ++ rest) = true)).
Proof.
  revert prefix output consumed. induction lines as [|line lines IH]; intros prefix output consumed Hv Hne Ho.
  - exists [], [], [], 0%nat, false. rewrite (app_nil_r output), Nat.add_0_r. split_and!; [done|done|done|by intros _ []|by left].
  - apply Forall_cons in Hv as [Hl Hv]. apply Forall_cons in Hne as [Hn Hne]. cbn [page_lines]. rewrite lossy_valid by done.
    assert (Hpos : (0 < length line)%nat) by (destruct line; [done|simpl; lia]).
    destruct (shown_line query level (prefix ++ line)) eqn:Es.
    + destruct (Z.leb_spec (len line) (limit - len output)) as [Hfit|Hbig].
      * destruct (IH [] (output ++ line) (consumed + length line)%nat Hv Hne) as (full & more & text & n & lim & -> & E & Hlen & _ & Hor).
        { unfold len in *. rewrite length_app. lia. }
        exists (line :: full), more, (line ++ text), (length line + n)%nat, lim. rewrite E, app_assoc. split_and!; [done|f_equal; f_equal; lia|done|lia|].
        left. destruct Hor as [[-> ->]|(Habs & _)]; [|by apply app_eq_nil in Habs as [_ ->]]. cbn [concat shown_text]. rewrite length_app, Es. split; [done|].
        by rewrite shown_text_nil.
      * destruct output as [|o output].
        { destruct (bounded_text_valid line limit Hl) as (part & rest & -> & E & Hp & Hr & Hvr & Hlim); [unfold len in *; simpl in *; lia|].
          rewrite E. exists [], ((part ++ rest) :: lines), part, (length part), true. split_and!; [done|done|done| |].
          - intros _ _. destruct part; [done|simpl; lia].
          - right. split_and!; [done|done|]. exists part, rest, lines. by split_and!. }
        { exists [], (line :: lines), [], 0%nat, true. rewrite (app_nil_r (o :: output)), Nat.add_0_r. split_and!; [done..|by left]. }
    + destruct (IH [] output (consumed + length line)%nat Hv Hne Ho) as (full & more & text & n & lim & -> & E & Hlen & _ & Hor).
      exists (line :: full), more, text, (length line + n)%nat, lim. rewrite E. split_and!; [done|f_equal; f_equal; lia|done|lia|].
      cbn [concat shown_text]. rewrite length_app, Es. cbn [app]. rewrite <- shown_text_nil. destruct Hor as [[-> ->]|(-> & Hf & part & rest & more' & -> & -> & -> & Hp & Hr & Hvr & Hs)].
      * left. done.
      * right. split_and!; [done|done|]. exists part, rest, more'. split_and!; try done; [rewrite !length_app; lia|]. by destruct full.
Qed.
End Pages.

(** ** Lines *)

Definition no_newline (bs : list Z) : Prop := Forall (fun b => is_newline b = false) bs.

Lemma is_newline_true b : is_newline b = true -> b = 10.
Proof. apply Z.eqb_eq. Qed.

Lemma position_spec {A} (p : A -> bool) l :
  match position p l with
  | Some i => exists a x b, l = a ++ x :: b /\ length a = i /\ p x = true /\ Forall (fun y => p y = false) a
  | None => Forall (fun y => p y = false) l
  end.
Proof.
  induction l as [|x l IH]; [constructor|]. cbn [position]. destruct (p x) eqn:E; [by exists [], x, l|].
  destruct (position p l) as [i|]; cbn; [|by constructor]. destruct IH as (a & y & b & -> & <- & Hy & Ha). exists (x :: a), y, b. split_and!; [done..|by constructor].
Qed.

Lemma first_newline bs : no_newline bs \/ exists a b, bs = a ++ 10 :: b /\ no_newline a.
Proof.
  pose proof (position_spec is_newline bs) as H. destruct (position is_newline bs); [|by left]. right.
  destruct H as (a & x & b & -> & _ & ->%is_newline_true & Ha). by exists a, b.
Qed.

Lemma rposition_spec l :
  match rposition l with
  | Some i => exists a b, l = a ++ 10 :: b /\ length a = i /\ no_newline b
  | None => no_newline l
  end.
Proof.
  unfold rposition. pose proof (position_spec is_newline (rev l)) as H. destruct (position is_newline (rev l)) as [i|]; cbn.
  - destruct H as (a & x & b & Hl & <- & ->%is_newline_true & Ha). apply (f_equal (@rev Z)) in Hl. rewrite rev_involutive, rev_app_distr in Hl.
    cbn [rev] in Hl. rewrite <- app_assoc in Hl. cbn [app] in Hl. exists (rev b), (rev a). split_and!; [done| |by apply Forall_rev].
    rewrite Hl, length_app. cbn [length]. rewrite !length_rev. lia.
  - apply Forall_rev in H. by rewrite rev_involutive in H.
Qed.

(** What stands on the last line. *)
Definition current_line (bs : list Z) : list Z := match rposition bs with Some i => drop (S i) bs | None => bs end.

Lemma position_app {A} (p : A -> bool) a x b : Forall (fun y => p y = false) a -> p x = true -> position p (a ++ x :: b) = Some (length a).
Proof. intros Ha Hx. induction Ha as [|y a Hy _ IH]; cbn [app position]; [by rewrite Hx|]. by rewrite Hy, IH. Qed.

Lemma position_none {A} (p : A -> bool) l : Forall (fun y => p y = false) l -> position p l = None.
Proof. induction 1 as [|y l Hy _ IH]; [done|]. cbn [position]. by rewrite Hy, IH. Qed.

Lemma rposition_app a b : no_newline b -> rposition (a ++ 10 :: b) = Some (length a).
Proof.
  intros Hb. unfold rposition. rewrite rev_app_distr. cbn [rev]. rewrite <- app_assoc. cbn [app].
  rewrite position_app; [|by apply Forall_rev|done]. cbn. f_equal. rewrite length_app, length_rev. cbn [length]. lia.
Qed.

Lemma rposition_none l : no_newline l -> rposition l = None.
Proof. intros H. unfold rposition. by rewrite position_none by (by apply Forall_rev). Qed.

Lemma current_line_app a b : no_newline b -> current_line (a ++ 10 :: b) = b.
Proof. intros Hb. unfold current_line. rewrite rposition_app by done. rewrite cons_middle, app_assoc, drop_app_length'; [done|]. rewrite length_app. simpl. lia. Qed.

Lemma current_line_none l : no_newline l -> current_line l = l.
Proof. intros H. unfold current_line. by rewrite rposition_none. Qed.

(** Everything up to the current line ends with a line feed. *)
Lemma current_line_split bs : no_newline (current_line bs) /\ (bs = current_line bs \/ exists a, bs = a ++ 10 :: current_line bs).
Proof.
  pose proof (rposition_spec bs) as H. destruct (rposition bs) as [i|] eqn:E.
  - destruct H as (a & b & -> & _ & Hb). rewrite current_line_app by done. split; [done|right]. by exists a.
  - rewrite current_line_none by done. split; [done|by left].
Qed.

Lemma current_line_more bs more : no_newline more -> current_line (bs ++ more) = current_line bs ++ more.
Proof.
  intros Hm. destruct (current_line_split bs) as [Hn [Hb|[a Hb]]].
  - rewrite <- Hb. apply current_line_none. rewrite Hb. by apply Forall_app.
  - rewrite Hb at 1. rewrite <- app_assoc. cbn [app]. apply current_line_app. by apply Forall_app.
Qed.

Lemma split_inclusive_line a b : no_newline a -> split_inclusive (a ++ 10 :: b) = (a ++ [10]) :: split_inclusive b.
Proof.
  induction 1 as [|c a Hc _ IH]; [done|]. cbn [app split_inclusive]. unfold is_newline in Hc. rewrite Hc. by rewrite IH.
Qed.

Lemma split_inclusive_prefix p bs : no_newline p -> bs <> [] ->
  exists l ls, split_inclusive bs = l :: ls /\ split_inclusive (p ++ bs) = (p ++ l) :: ls.
Proof.
  intros Hp Hb. assert (H : exists l ls, split_inclusive bs = l :: ls).
  { destruct bs as [|b bs]; [done|]. cbn [split_inclusive]. repeat case_match; by do 2 eexists. }
  destruct H as (l & ls & H). exists l, ls. split; [done|]. induction Hp as [|c p Hc _ IH]; [done|].
  cbn [app split_inclusive]. unfold is_newline in Hc. by rewrite Hc, IH.
Qed.

Lemma split_inclusive_none bs : no_newline bs -> bs <> [] -> split_inclusive bs = [bs].
Proof.
  intros H Hb. destruct bs as [|b bs]; [done|]. clear Hb. revert b H. induction bs as [|c bs IH]; intros b H; apply Forall_cons in H as [Hb H];
    cbn [split_inclusive]; unfold is_newline in Hb; rewrite Hb; [done|]. specialize (IH c H). cbn [split_inclusive] in IH. by rewrite IH.
Qed.

(** Induction over the lines of a text. *)
Lemma lines_ind (P : list Z -> Prop) :
  P [] -> (forall bs, no_newline bs -> bs <> [] -> P bs) -> (forall a b, no_newline a -> P b -> P (a ++ 10 :: b)) -> forall bs, P bs.
Proof.
  intros H0 H1 H2 bs. induction (Nat.lt_wf_0_projected length bs) as [bs _ IH]. destruct (first_newline bs) as [Hn|(a & b & -> & Ha)].
  - destruct bs; [done|]. by apply H1.
  - apply H2; [done|]. apply IH. rewrite length_app. simpl. lia.
Qed.

Lemma split_inclusive_app_nl x b : split_inclusive ((x ++ [10]) ++ b) = split_inclusive (x ++ [10]) ++ split_inclusive b.
Proof.
  rewrite <- app_assoc. cbn [app]. pattern x. apply lines_ind; clear x.
  - done.
  - intros bs Hn _. by rewrite !split_inclusive_line.
  - intros a c Ha IH. rewrite <- !app_assoc. cbn [app]. rewrite !split_inclusive_line by done.
    by rewrite IH, (split_inclusive_line a).
Qed.

Lemma split_inclusive_facts bs : concat (split_inclusive bs) = bs /\ Forall (fun l => l <> []) (split_inclusive bs).
Proof.
  pattern bs. apply lines_ind; clear bs; [done| |].
  - intros bs Hn Hb. rewrite split_inclusive_none by done. split; [apply app_nil_r|by constructor].
  - intros a b Ha [IH1 IH2]. rewrite split_inclusive_line by done. cbn [concat]. rewrite IH1, <- app_assoc. split; [done|].
    constructor; [|done]. by destruct a.
Qed.

Lemma split_inclusive_valid bs : valid_utf8 bs -> Forall valid_utf8 (split_inclusive bs).
Proof.
  pattern bs. apply lines_ind; clear bs; [constructor| |].
  - intros bs Hn Hb Hv. rewrite split_inclusive_none by done. by constructor.
  - intros a b Ha IH Hv. rewrite split_inclusive_line by done. destruct (valid_split a 10 b) as [H1 H2]; [lia..|done|]. constructor; [done|by apply IH].
Qed.

(** The lines of a text, cut anywhere. *)
Lemma lines_cut done rest : exists ls, split_inclusive (done ++ rest) = ls ++ split_inclusive (current_line done ++ rest).
Proof.
  destruct (current_line_split done) as [Hn [Hd|[a Hd]]]; [exists []; by rewrite <- Hd|].
  exists (split_inclusive (a ++ [10])). rewrite Hd at 1. rewrite <- split_inclusive_app_nl, <- !app_assoc. done.
Qed.

Lemma lines_suffix bs full more : split_inclusive bs = full ++ more ->
  split_inclusive (concat more) = more /\ (full <> [] -> more <> [] -> exists x, concat full = x ++ [10]).
Proof.
  revert full. pattern bs. apply lines_ind; clear bs.
  - intros full H. symmetry in H. apply app_eq_nil in H as [-> ->]. done.
  - intros bs Hn Hb full. rewrite split_inclusive_none by done. destruct full as [|l full]; cbn [app].
    + intros <-. cbn [concat]. rewrite app_nil_r, split_inclusive_none by done. done.
    + intros [= -> H]. symmetry in H. by apply app_eq_nil in H as [-> ->].
  - intros a b Ha IH full. rewrite split_inclusive_line by done. destruct full as [|l full]; cbn [app].
    + intros <-. cbn [concat]. rewrite (proj1 (split_inclusive_facts b)), <- app_assoc. cbn [app]. by rewrite split_inclusive_line.
    + intros [= <- H]. destruct (IH _ H) as [H1 H2]. split; [done|]. intros _ Hm. cbn [concat]. destruct full as [|l' full].
      * exists a. by rewrite app_nil_r.
      * destruct H2 as [x ->]; [done..|]. exists ((a ++ [10]) ++ x). by rewrite !app_assoc.
Qed.

Lemma line_shape bs l : l ∈ split_inclusive bs -> no_newline l \/ exists a, l = a ++ [10] /\ no_newline a.
Proof.
  pattern bs. apply lines_ind; clear bs; [by intros ?%elem_of_nil| |].
  - intros bs Hn Hb. rewrite split_inclusive_none by done. intros ->%list_elem_of_singleton. by left.
  - intros a b Ha IH. rewrite split_inclusive_line by done. intros [->|Hl]%elem_of_cons; [right; by exists a|by apply IH].
Qed.

Lemma line_part bs part rest : part ++ rest ∈ split_inclusive bs -> rest <> [] -> no_newline part.
Proof.
  intros [H|(a & Heq & Ha)]%line_shape Hr; [by apply Forall_app in H as [? _]|].
  destruct rest as [|x rest _] using rev_ind; [done|]. rewrite app_assoc in Heq. apply app_inj_tail in Heq as [<- _]. by apply Forall_app in Ha as [? _].
Qed.

(** ** Looking back to the start of the line *)

Lemma read_at_tail pre more count : 0 <= count <= len pre ->
  exists a chunk, pre = a ++ chunk /\ len chunk = count /\ read_at (pre ++ more) (len pre - count) count = chunk.
Proof.
  intros Hc. unfold len in *. exists (take (length pre - Z.to_nat count) pre), (drop (length pre - Z.to_nat count) pre). split_and!.
  - by rewrite take_drop.
  - rewrite length_drop. lia.
  - unfold read_at. replace (Z.to_nat (Z.of_nat (length pre) - count)) with (length pre - Z.to_nat count)%nat by lia.
    rewrite drop_app_le by lia. rewrite take_app_le by (rewrite length_drop; lia). apply take_ge. rewrite length_drop. lia.
Qed.

Lemma look_back_spec fuel pre suffix more scanned :
  0 <= scanned -> scanned + len (current_line pre) < MAX_LOG_LOOKBEHIND -> (length pre < fuel)%nat ->
  look_back fuel (pre ++ more) (len pre) scanned suffix = Ok (current_line pre ++ suffix).
Proof.
  revert pre more scanned suffix. induction fuel as [|fuel IH]; intros pre more scanned suffix Hs Hb Hf; [lia|]. cbn [look_back].
  assert (Hpos : 0 <= len (current_line pre)) by (unfold len; lia). rewrite (proj2 (Z.ltb_lt scanned _)) by lia. rewrite andb_true_r.
  destruct (Z.ltb_spec 0 (len pre)) as [Hp|Hp].
  2: { assert (pre = []) as -> by (destruct pre; [done|unfold len in Hp; simpl in Hp; lia]). done. }
  set (count := Z.min (Z.min (len pre) 4096) (MAX_LOG_LOOKBEHIND - scanned)).
  destruct (read_at_tail pre more count) as (a & chunk & Hpre & Hl & ->); [lia|]. rewrite Hl, Z.eqb_refl. cbn [negb].
  pose proof (rposition_spec chunk) as Hr. destruct (rposition chunk) as [i|] eqn:E.
  - destruct Hr as (x & y & -> & <- & Hy). rewrite Hpre, app_assoc, current_line_app by done. f_equal. f_equal.
    rewrite cons_middle, app_assoc, drop_app_length'; [done|]. rewrite length_app. simpl. lia.
  - assert (Hcur : current_line pre = current_line a ++ chunk) by (rewrite Hpre; by apply current_line_more).
    rewrite Hcur, <- app_assoc. rewrite <- (IH a (chunk ++ more) (scanned + count)).
    + rewrite app_assoc, <- Hpre. f_equal. rewrite Hpre. unfold len in *. rewrite length_app. lia.
    + lia.
    + rewrite Hcur in Hb. unfold len in *. rewrite length_app in Hb. lia.
    + rewrite Hpre, length_app in Hf. unfold len in *. lia.
Qed.

Lemma line_prefix_spec done rest : len (current_line done) < MAX_LOG_LOOKBEHIND ->
  read_log_line_prefix (done ++ rest) (len done) = Ok (current_line done).
Proof.
  intros Hb. unfold read_log_line_prefix. destruct done as [|x l _] using rev_ind; [done|].
  assert (Hl : len (l ++ [x]) = len l + 1) by (unfold len; rewrite length_app; simpl; lia). rewrite Hl.
  assert (Hpos : 0 <= len l) by (unfold len; lia). rewrite (proj2 (Z.eqb_neq _ _)) by lia.
  assert (Hr : read_at ((l ++ [x]) ++ rest) (len l + 1 - 1) 1 = [x]).
  { unfold read_at, len. replace (Z.to_nat (Z.of_nat (length l) + 1 - 1)) with (length l) by lia. by rewrite <- app_assoc, drop_app_length. }
  rewrite Hr. change (negb (len [x] =? 1)) with false. cbn iota. case_bool_decide as Hx.
  - injection Hx as ->. by rewrite current_line_app by constructor.
  - assert (Hn : no_newline [x]).
    { constructor; [|constructor]. unfold is_newline. apply Z.eqb_neq. congruence. }
    rewrite current_line_more in Hb by done. rewrite current_line_more by done. rewrite <- app_assoc.
    replace (len l + 1 - 1) with (len l) by lia. apply look_back_spec; [lia| |unfold len; lia].
    unfold len in *. rewrite length_app in Hb. simpl in Hb. lia.
Qed.

(** ** One page of valid text *)

Definition filters (query level : list Z) : bool :=
  negb (bool_decide (query = [])) || (negb (bool_decide (level = [])) && negb (bool_decide (level = bytes_of "ALL"))).

(** The page once its window is known. *)
Definition page_of (query level : list Z) (limit : Z) (file : list Z) (start : Z) (body : list Z) (more : bool) : result OperationError Page :=
  line_prefix ← (if filters query level && negb (bool_decide (body = [])) then read_log_line_prefix file start else Ok []);
  let context := from_utf8_lossy (line_prefix ++ body) in
  if more && negb (existsb is_newline body) && negb (bool_decide (query = [])) && log_level_matches context level && negb (contains query context)
  then Err undecided
  else
    let '(text, consumed, output_limited) := filter_log_page query level limit body line_prefix in
    Ok {| pg_offset := start; pg_next := start + Z.of_nat consumed; pg_text := text; pg_truncated := output_limited || more || false; pg_bytes := body |}.

Lemma window_cut rest n : valid_utf8 rest -> (4 <= n <= length rest)%nat ->
  let bytes := take n rest in
  let body := match rposition bytes with Some i => take (S i) bytes | None => take (complete_utf8_end bytes) bytes end in
  exists beyond, rest = body ++ beyond /\ valid_utf8 body /\ valid_utf8 beyond /\ body <> [] /\ (no_newline bytes \/ exists x, body = x ++ [10]).
Proof.
  intros Hv Hn bytes body. assert (Hrest : rest = bytes ++ drop n rest) by (symmetry; apply take_drop).
  pose proof (rposition_spec bytes) as Hr. unfold body. destruct (rposition bytes) as [i|] eqn:E.
  - destruct Hr as (a & b & Hb & <- & Hnb). assert (Ht : take (S (length a)) bytes = a ++ [10]).
    { rewrite Hb, cons_middle, app_assoc. apply take_app_length'. rewrite length_app. simpl. lia. }
    rewrite Ht. exists (b ++ drop n rest). assert (Heq : rest = a ++ 10 :: b ++ drop n rest) by (rewrite Hrest at 1; rewrite Hb; by rewrite <- app_assoc).
    destruct (valid_split a 10 (b ++ drop n rest)) as [H1 H2]; [lia..|by rewrite <- Heq|]. split_and!; [by rewrite <- app_assoc|done|done|by destruct a|right; by exists a].
  - destruct (complete_end_cut rest n Hv) as (a & b & Heq & Ha & Hb & Hc & Hk); [lia|]. fold bytes in Hc. rewrite Hc.
    assert (Ht : take (length a) bytes = a) by (unfold bytes; rewrite take_take, Heq, Nat.min_l by lia; apply take_app_length).
    rewrite Ht. exists b. split_and!; [done..| |by left]. intros ->. simpl in *. lia.
Qed.

Lemma valid_conts bs n k : valid_utf8 bs -> conts_before k (take n bs) = 0%nat.
Proof.
  intros Hv. destruct bs as [|b bs]; [by destruct n, k|]. destruct n as [|n]; [by destruct k|]. destruct k; [done|]. cbn [take conts_before].
  by rewrite (valid_head b bs Hv).
Qed.

Lemma log_page_window query level limit done rest : valid_utf8 rest -> rest <> [] ->
  exists body beyond, rest = body ++ beyond /\ valid_utf8 body /\ valid_utf8 beyond /\ body <> [] /\
    (beyond = [] \/ (MAX_LOG_SCAN < len rest /\ (no_newline (take (Z.to_nat MAX_LOG_SCAN) rest) \/ exists x, body = x ++ [10]))) /\
    log_page query level limit (done ++ rest) (len done) false =
    page_of query level limit (done ++ rest) (len done) body (MAX_LOG_SCAN <? len rest).
Proof.
  intros Hv Hne. assert (Hd : len (done ++ rest) = len done + len rest) by (unfold len; rewrite length_app; lia).
  assert (Hpos : 0 <= len done) by (unfold len; lia). assert (Hr : 0 <= len rest) by (unfold len; lia).
  set (n := Z.to_nat (Z.min (len rest) MAX_LOG_SCAN)). assert (Hread : read_at (done ++ rest) (len done) (Z.min (len done + len rest - len done) MAX_LOG_SCAN) = take n rest).
  { unfold read_at. replace (len done + len rest - len done) with (len rest) by lia. replace (Z.to_nat (len done)) with (length done) by (unfold len; lia). by rewrite drop_app_length. }
  assert (Hn : len (take n rest) = Z.min (len rest) MAX_LOG_SCAN) by (unfold n, len, MAX_LOG_SCAN in *; rewrite length_take; lia).
  assert (Hskip : forall (b : bool) (o : Z), (if b then let '(offset, bytes) := skip_character o (take n rest) in (if false then skip_line offset bytes else (offset, bytes)) else (o, take n rest)) = (o, take n rest)).
  { intros [] o; [|done]. unfold skip_character. by rewrite (valid_conts _ _ _ Hv), drop_0, Z.add_0_r. }
  assert (Hmore : (len done + len (take n rest) <? len done + len rest) = (MAX_LOG_SCAN <? len rest)).
  { rewrite Hn. apply eq_true_iff_eq. rewrite !Z.ltb_lt. lia. }
  destruct (Z.ltb_spec MAX_LOG_SCAN (len rest)) as [Hbig|Hsmall].
  - destruct (window_cut rest n Hv) as (beyond & Heq & Hb1 & Hb2 & Hbn & Hnl); [unfold n, len, MAX_LOG_SCAN in *; lia|].
    eexists _, beyond. split_and!; [exact Heq|exact Hb1|exact Hb2|exact Hbn|right; split; [done|]|].
    { by replace (Z.to_nat MAX_LOG_SCAN) with n by (unfold n; lia). }
    unfold log_page, page_of. rewrite Hd, Hread. cbn [andb]. rewrite Hskip, Hmore. done.
  - exists rest, []. rewrite app_nil_r. split_and!; [done|done|apply valid_nil|done|by left|].
    assert (Ht : take n rest = rest) by (apply take_ge; unfold n, len in *; lia). rewrite Ht in *.
    unfold log_page, page_of. rewrite Hd, Hread. cbn [andb]. rewrite Hskip, Hmore. done.
Qed.

Lemma concat_valid ls : Forall valid_utf8 ls -> valid_utf8 (concat ls).
Proof. induction 1 as [|l ls Hl _ IH]; [apply valid_nil|]. by apply valid_app. Qed.

Section Steps.
Context (query level : list Z) (limit : Z).
Hypothesis limit_ok : 4 <= limit.
Abbreviation shown := (shown_line query level).

Lemma unfiltered_shown l : filters query level = false -> shown l = true.
Proof.
  unfold filters. intros [Hq Hl]%orb_false_iff. apply negb_false_iff, bool_decide_eq_true in Hq as ->.
  unfold shown_line, log_level_matches. assert (Hc : forall s, contains [] s = true) by (intros []; done). rewrite Hc, andb_true_r.
  destruct (bool_decide (level = [])); [done|]. cbn [negb andb] in Hl. apply negb_false_iff in Hl. by rewrite Hl.
Qed.

Lemma unfiltered_text p lines : filters query level = false -> shown_text query level p lines = concat lines.
Proof.
  intros Hf. destruct lines as [|l ls]; [done|]. cbn [shown_text concat]. rewrite unfiltered_shown by done. f_equal. induction ls as [|x ls IH]; [done|].
  rewrite filter_cons_True by (by apply unfiltered_shown). cbn [concat]. by rewrite IH.
Qed.

(** What one page does to the text that is left. *)
Definition page_step (done rest : list Z) (text : list Z) (taken rest' : list Z) : Prop :=
  rest = taken ++ rest' /\ taken <> [] /\ valid_utf8 rest' /\ len text <= limit.

(** The lines of a window. *)
Lemma page_of_text done rest body beyond more : rest = body ++ beyond -> valid_utf8 body -> valid_utf8 beyond -> body <> [] ->
  (filters query level = true -> len (current_line done) < MAX_LOG_LOOKBEHIND) ->
  (filters query level = true -> more = true -> existsb is_newline body = true) ->
  let prefix := if filters query level then current_line done else [] in
  exists page full more_lines text n,
    page_of query level limit (done ++ rest) (len done) body more = Ok page /\ pg_next page = len done + Z.of_nat n /\ pg_text page = text /\
    split_inclusive body = full ++ more_lines /\ len text <= limit /\ (0 < n)%nat /\
    ((n = length (concat full) /\ text = shown_text query level prefix full) \/
     (shown_text query level prefix full = [] /\
      exists part rest more', more_lines = (part ++ rest) :: more' /\ text = part /\ n = length (concat full ++ part) /\ part <> [] /\ rest <> [] /\
        valid_utf8 rest /\ shown ((match full with [] => prefix | _ => [] end) ++ part ++ rest) = true)).
Proof.
  intros Hrest Hb1 Hb2 Hbn Hlook Hnl prefix. destruct (split_inclusive_facts body) as [Hcat Hne].
  destruct (page_lines_spec query level limit limit_ok (split_inclusive body) prefix [] 0) as (full & ml & text & n & lim & Hl & E & Hlim & Hpos & Hor);
    [by apply split_inclusive_valid|done|unfold len; simpl; lia|].
  assert (Hn : (0 < n)%nat). { apply Hpos; [done|]. intros H0. rewrite H0 in Hcat. by destruct Hbn. }
  assert (Hpre : (if filters query level && negb (bool_decide (body = [])) then read_log_line_prefix (done ++ rest) (len done) else Ok []) = Ok prefix).
  { unfold prefix. destruct (filters query level) eqn:Ef; [|done]. rewrite bool_decide_false by done. cbn [andb negb]. apply line_prefix_spec. by apply Hlook. }
  unfold page_of. rewrite Hpre. cbn [mbind result_bind]. match goal with |- context [if ?c then Err undecided else _] => assert (Hc : c = false) end.
  { destruct more; [|done]. cbn [andb]. destruct (filters query level) eqn:Ef; [by rewrite Hnl|].
    unfold filters in Ef. apply orb_false_iff in Ef as [Hq _]. rewrite Hq, !andb_false_r. done. }
  rewrite Hc. unfold filter_log_page. rewrite E. eexists _, full, ml, text, n. split_and!; [done|done|done|done|done|done|].
  destruct Hor as [?|(_ & H)]; [by left|by right].
Qed.

(** Without filters a page returns the next part of the file. *)
Lemma unfiltered_page done rest : filters query level = false -> valid_utf8 rest -> rest <> [] ->
  exists page rest', log_page query level limit (done ++ rest) (len done) false = Ok page /\
    pg_next page = len done + len (pg_text page) /\ page_step done rest (pg_text page) (pg_text page) rest'.
Proof.
  intros Hf Hv Hne. destruct (log_page_window query level limit done rest Hv Hne) as (body & beyond & Hrest & Hb1 & Hb2 & Hbn & _ & ->).
  destruct (page_of_text done rest body beyond (MAX_LOG_SCAN <? len rest) Hrest Hb1 Hb2 Hbn) as (page & full & ml & text & n & E & Hnext & Ht & Hl & Hlim & Hpos & Hor);
    [congruence..|]. exists page. rewrite Hf in Hor. destruct (split_inclusive_facts body) as [Hcat Hnel]. rewrite Hl, concat_app in Hcat.
  pose proof (split_inclusive_valid body Hb1) as Hval. rewrite Hl in Hval, Hnel. apply Forall_app in Hval as [_ Hval]. apply Forall_app in Hnel as [Hnel _].
  rewrite Ht. destruct Hor as [[-> ->]|(Hf0 & part & r & more' & -> & -> & -> & Hp & Hr & Hvr & _)].
  - rewrite (unfiltered_text _ _ Hf) in *. exists (concat ml ++ beyond). split_and!; [done|by rewrite Hnext|]. split_and!; [by rewrite app_assoc, Hcat| | |done].
    + intros H0. rewrite H0 in Hpos. simpl in Hpos. lia.
    + apply valid_app; [by apply concat_valid|done].
  - rewrite (unfiltered_text _ _ Hf) in Hf0. assert (full = []) as -> by (destruct full as [|l full]; [done|]; apply Forall_cons in Hnel as [? _]; by apply app_eq_nil in Hf0 as [-> _]).
    apply Forall_cons in Hval as [_ Hval]. exists ((r ++ concat more') ++ beyond). split_and!; [done|by rewrite Hnext|]. split_and!; [|done| |done].
    + rewrite Hrest, <- Hcat. cbn [concat app]. by rewrite <- !app_assoc.
    + apply valid_app; [apply valid_app; [done|by apply concat_valid]|done].
Qed.

Lemma ends_with_newline_in (x l : list Z) : existsb is_newline (x ++ 10 :: l) = true.
Proof. rewrite existsb_app. cbn. by rewrite orb_true_r. Qed.

(** Where a page stops, the rest of the lines is left. *)
Lemma lines_left body beyond full more : split_inclusive body = full ++ more -> (beyond = [] \/ exists x, body = x ++ [10]) ->
  split_inclusive (concat more ++ beyond) = more ++ split_inclusive beyond.
Proof.
  intros Hl Hor. destruct (lines_suffix _ _ _ Hl) as [Hs _]. destruct Hor as [->|[x Hx]]; [by rewrite app_nil_r, Hs, app_nil_r|].
  destruct more as [|l more] using rev_ind; [done|]. clear IHmore. destruct (split_inclusive_facts body) as [Hc Hne]. rewrite Hl in Hc, Hne.
  rewrite app_assoc, concat_app in Hc. cbn [concat] in Hc. rewrite app_nil_r, Hx in Hc.
  assert (exists y, l = y ++ [10]) as [y ->].
  { apply Forall_app in Hne as [_ Hne]. apply Forall_app in Hne as [_ Hne]. apply Forall_cons in Hne as [Hne _].
    destruct l as [|z l _] using rev_ind; [done|]. rewrite app_assoc in Hc. apply app_inj_tail in Hc as [_ ->]. by exists l. }
  rewrite concat_app in *. cbn [concat] in *. rewrite app_nil_r in *. rewrite app_assoc, split_inclusive_app_nl, <- app_assoc. by rewrite Hs.
Qed.

Lemma all_lines body beyond : (beyond = [] \/ exists x, body = x ++ [10]) ->
  split_inclusive (body ++ beyond) = split_inclusive body ++ split_inclusive beyond.
Proof. intros Hor. pose proof (lines_left body beyond [] _ eq_refl Hor) as H. by rewrite (proj1 (split_inclusive_facts body)) in H. Qed.

(** A page that ends with a line. *)
Lemma whole_lines_left done body beyond full more : split_inclusive body = full ++ more -> (beyond = [] \/ exists x, body = x ++ [10]) -> full <> [] ->
  shown_text query level (current_line done) (split_inclusive (body ++ beyond)) =
  shown_text query level (current_line done) full ++
  shown_text query level (current_line (done ++ concat full)) (split_inclusive (concat more ++ beyond)).
Proof.
  intros Hl Hor Hfull. rewrite all_lines, Hl, <- app_assoc, shown_text_app, (lines_left body beyond full) by done. f_equal.
  destruct full as [|f full]; [done|]. destruct (lines_suffix _ _ _ Hl) as [_ Hend].
  assert (Hcase : (more = [] /\ beyond = []) \/ exists x, concat (f :: full) = x ++ [10]).
  { destruct more as [|m more]; [|right; by apply Hend]. destruct Hor as [->|[x Hx]]; [by left|right]. exists x.
    rewrite <- Hx, <- (proj1 (split_inclusive_facts body)), Hl. by rewrite app_nil_r. }
  destruct Hcase as [[-> ->]|[x ->]]; [done|]. rewrite app_assoc. by rewrite (current_line_app _ []) by constructor.
Qed.

(** A page that ends within a line that is shown. *)
Lemma part_line_left done body beyond full part rest more : split_inclusive body = full ++ (part ++ rest) :: more ->
  (beyond = [] \/ exists x, body = x ++ [10]) -> rest <> [] -> shown_text query level (current_line done) full = [] ->
  shown ((match full with [] => current_line done | _ => [] end) ++ part ++ rest) = true ->
  shown_text query level (current_line done) (split_inclusive (body ++ beyond)) =
  part ++ shown_text query level (current_line (done ++ concat full ++ part)) (split_inclusive ((rest ++ concat more) ++ beyond)).
Proof.
  intros Hl Hor Hr Hf Hs. rewrite all_lines, Hl, <- app_assoc, shown_text_app, Hf by done. cbn [app].
  assert (Hp : no_newline part) by (apply (line_part body part rest); [rewrite Hl; set_solver|done]).
  assert (Hx : split_inclusive ((rest ++ concat more) ++ beyond) = rest :: more ++ split_inclusive beyond).
  { destruct (split_inclusive_prefix part ((rest ++ concat more) ++ beyond) Hp) as (l & ls & -> & H).
    { intros [[? _]%app_eq_nil _]%app_eq_nil. done. }
    pose proof (lines_left body beyond full _ Hl Hor) as H'. cbn [concat app] in H'. rewrite <- !app_assoc in H'. rewrite <- app_assoc in H. rewrite H in H'.
    injection H' as H1 ->. apply app_inv_head in H1 as ->. done. }
  rewrite Hx. set (p := match full with [] => current_line done | _ => [] end) in *.
  assert (Hc : current_line (done ++ concat full ++ part) = p ++ part).
  { destruct full as [|f full]; [by apply current_line_more|]. destruct (lines_suffix _ _ _ Hl) as [_ Hend]. destruct Hend as [x ->]; [done..|].
    rewrite app_assoc, current_line_more by done. by rewrite app_assoc, (current_line_app _ []) by constructor. }
  rewrite Hc. cbn [shown_text]. rewrite <- app_assoc, Hs. by rewrite <- app_assoc.
Qed.

(** The window of a file with short lines ends with one. *)
Lemma window_has_line done rest body beyond : rest = body ++ beyond -> rest <> [] ->
  Forall (fun l => len l <= MAX_LOG_SCAN) (split_inclusive (done ++ rest)) ->
  (beyond = [] \/ (MAX_LOG_SCAN < len rest /\ (no_newline (take (Z.to_nat MAX_LOG_SCAN) rest) \/ exists x, body = x ++ [10]))) ->
  len (current_line done) < MAX_LOG_LOOKBEHIND /\ (beyond = [] \/ exists x, body = x ++ [10]) /\
  ((MAX_LOG_SCAN <? len rest) = true -> existsb is_newline body = true).
Proof.
  intros Hrest Hne Hlines Hbey. destruct (lines_cut done rest) as [before Hcut]. rewrite Hcut in Hlines. apply Forall_app in Hlines as [_ Hlines].
  destruct (current_line_split done) as [Hcl _]. destruct (split_inclusive_prefix _ rest Hcl Hne) as (l & ls & Hsr & Hsp).
  rewrite Hsp in Hlines. apply Forall_cons in Hlines as [Hlen _]. cbn beta in Hlen.
  assert (Hlen' : len (current_line done) + len l <= MAX_LOG_SCAN) by (unfold len in *; rewrite length_app in Hlen; lia).
  assert (Hfirst : MAX_LOG_SCAN < len rest -> exists x y, l = x ++ [10] /\ rest = (x ++ [10]) ++ y).
  { intros Hbig. destruct (split_inclusive_facts rest) as [Hc _]. rewrite Hsr in Hc. cbn [concat] in Hc.
    destruct (lines_suffix rest [l] ls Hsr) as [_ H]. destruct H as [x Hx]; [done| |].
    - intros ->. cbn in Hc. rewrite app_nil_r in Hc. subst l. unfold len in *. lia.
    - cbn [concat] in Hx. rewrite app_nil_r in Hx. subst l. by exists x, (concat ls). }
  assert (Hnl : beyond = [] \/ exists x, body = x ++ [10]).
  { destruct Hbey as [?|[Hbig [Hno|?]]]; [by left| |by right]. exfalso. destruct (Hfirst Hbig) as (x & y & -> & Hr).
    rewrite Hr, take_app_ge in Hno by (unfold len, MAX_LOG_SCAN in *; lia).
    apply Forall_app in Hno as [Hno _]. apply Forall_app in Hno as [_ Hno]. by apply Forall_cons in Hno as [? _]. }
  split_and!; [unfold len, MAX_LOG_SCAN, MAX_LOG_LOOKBEHIND in *; lia|done|]. intros Hb%Z.ltb_lt.
  destruct Hnl as [->|[x ->]]; [|apply ends_with_newline_in]. rewrite app_nil_r in Hrest. subst body.
  destruct (Hfirst Hb) as (x & y & _ & ->). rewrite <- app_assoc. apply ends_with_newline_in.
Qed.

(** A page shows the next matching lines. *)
Lemma filtered_page done rest : valid_utf8 rest -> rest <> [] ->
  Forall (fun l => len l <= MAX_LOG_SCAN) (split_inclusive (done ++ rest)) ->
  exists page taken rest', log_page query level limit (done ++ rest) (len done) false = Ok page /\
    pg_next page = len done + len taken /\ page_step done rest (pg_text page) taken rest' /\
    shown_text query level (current_line done) (split_inclusive rest) =
    pg_text page ++ shown_text query level (current_line (done ++ taken)) (split_inclusive rest').
Proof.
  intros Hv Hne Hlines. destruct (log_page_window query level limit done rest Hv Hne) as (body & beyond & Hrest & Hb1 & Hb2 & Hbn & Hbey & ->).
  destruct (window_has_line done rest body beyond Hrest Hne Hlines Hbey) as (Hlook & Hnl & Hmore).
  destruct (page_of_text done rest body beyond (MAX_LOG_SCAN <? len rest) Hrest Hb1 Hb2 Hbn) as (page & full & ml & text & n & E & Hnext & Ht & Hl & Hlim & Hpos & Hor);
    [done|by intros _|].
  assert (Hsame : forall p lines, shown_text query level (if filters query level then p else []) lines = shown_text query level p lines).
  { intros p lines. destruct (filters query level) eqn:Ef; [done|]. by rewrite !unfiltered_text. }
  destruct (split_inclusive_facts body) as [Hcat _]. rewrite Hl, concat_app in Hcat.
  pose proof (split_inclusive_valid body Hb1) as Hval. rewrite Hl in Hval. apply Forall_app in Hval as [_ Hval].
  exists page. rewrite Ht. rewrite Hsame in Hor. destruct Hor as [[-> ->]|(Hf0 & part & r & more' & -> & -> & -> & Hp & Hr & Hvr & Hshown)].
  - exists (concat full), (concat ml ++ beyond). split_and!; [done|by rewrite Hnext| |].
    + split_and!; [by rewrite app_assoc, Hcat| | |done]; [intros H0; rewrite H0 in Hpos; simpl in Hpos; lia|]. apply valid_app; [by apply concat_valid|done].
    + rewrite Hrest. apply whole_lines_left; [done|done|]. intros ->. simpl in Hpos. lia.
  - apply Forall_cons in Hval as [_ Hval]. exists (concat full ++ part), ((r ++ concat more') ++ beyond). split_and!; [done|by rewrite Hnext| |].
    + split_and!; [|by intros [_ ?]%app_eq_nil| |done].
      * rewrite Hrest, <- Hcat. cbn [concat]. by rewrite <- !app_assoc.
      * apply valid_app; [apply valid_app; [done|by apply concat_valid]|done].
    + rewrite Hrest. apply part_line_left; [done..|]. destruct (filters query level) eqn:Ef; [done|by apply unfiltered_shown].
Qed.
End Steps.

(** ** All pages *)

Section All.
Context (query level : list Z) (limit : Z).
Hypothesis limit_ok : 4 <= limit.

Lemma unfiltered_pages fuel done rest : filters query level = false -> valid_utf8 rest -> (length rest < fuel)%nat ->
  exists pages, read_pages query level limit fuel (done ++ rest) (len done) = Some (Ok pages) /\
    concat pages = rest /\ Forall (fun p => 0 < len p <= limit) pages.
Proof.
  intros Hf. revert done rest. induction fuel as [|fuel IH]; intros done rest Hv Hl; [lia|]. cbn [read_pages].
  assert (Hlen : len (done ++ rest) = len done + len rest) by (unfold len; rewrite length_app; lia). rewrite Hlen.
  destruct rest as [|b rest']; [rewrite (proj2 (Z.leb_le _ _)) by (unfold len; simpl; lia); by exists []|]. set (rest := b :: rest') in *.
  rewrite (proj2 (Z.leb_gt _ _)) by (unfold len, rest; simpl; lia).
  destruct (unfiltered_page query level limit limit_ok done rest Hf Hv) as (page & rest2 & -> & Hnext & Hr & Ht & Hv2 & Hlim); [done|].
  assert (Hpos : (0 < length (pg_text page))%nat) by (destruct (pg_text page); [done|simpl; lia]).
  destruct (IH (done ++ pg_text page) rest2 Hv2) as (pages & E & Hc & Hp); [rewrite Hr, length_app in Hl; lia|].
  rewrite <- app_assoc, <- Hr in E. assert (Hd : len (done ++ pg_text page) = pg_next page) by (rewrite Hnext; unfold len; rewrite length_app; lia).
  rewrite Hd in E. rewrite E. exists (pg_text page :: pages). split_and!; [done|cbn [concat]; by rewrite Hc|]. constructor; [unfold len in *; lia|done].
Qed.

Lemma filtered_pages fuel done rest : valid_utf8 rest -> (length rest < fuel)%nat ->
  Forall (fun l => len l <= MAX_LOG_SCAN) (split_inclusive (done ++ rest)) ->
  exists pages, read_pages query level limit fuel (done ++ rest) (len done) = Some (Ok pages) /\
    concat pages = shown_text query level (current_line done) (split_inclusive rest) /\ Forall (fun p => len p <= limit) pages.
Proof.
  revert done rest. induction fuel as [|fuel IH]; intros done rest Hv Hl Hlines; [lia|]. cbn [read_pages].
  assert (Hlen : len (done ++ rest) = len done + len rest) by (unfold len; rewrite length_app; lia). rewrite Hlen.
  destruct rest as [|b rest']; [rewrite (proj2 (Z.leb_le _ _)) by (unfold len; simpl; lia); by exists []|]. set (rest := b :: rest') in *.
  rewrite (proj2 (Z.leb_gt _ _)) by (unfold len, rest; simpl; lia).
  destruct (filtered_page query level limit limit_ok done rest Hv) as (page & taken & rest2 & -> & Hnext & (Hr & Ht & Hv2 & Hlim) & Hshown); [done|done|].
  assert (Hpos : (0 < length taken)%nat) by (destruct taken; [done|simpl; lia]).
  destruct (IH (done ++ taken) rest2 Hv2) as (pages & E & Hc & Hp); [rewrite Hr, length_app in Hl; lia|by rewrite <- app_assoc, <- Hr|].
  rewrite <- app_assoc, <- Hr in E. assert (Hd : len (done ++ taken) = pg_next page) by (rewrite Hnext; unfold len; rewrite length_app; lia).
  rewrite Hd in E. rewrite E. exists (pg_text page :: pages). split_and!; [done|cbn [concat]; by rewrite Hc, Hshown|]. by constructor.
Qed.
End All.

(** C31: the pages of a log put together are the log.  Read a UTF-8 log page by
    page from the start, each page from the cursor of the one before: however
    small the pages, the reading ends and no page is longer than the limit.
    Without filters the pages are the file, cut between characters.  With a level
    or a keyword, if no line is longer than one scan, they are exactly the lines
    that match, whole and in order, even where a line spans many pages. *)
Theorem log_pages_reassemble query level limit file :
  4 <= limit -> valid_utf8 file ->
  (filters query level = false \/ Forall (fun l => len l <= MAX_LOG_SCAN) (split_inclusive file)) ->
  exists pages, read_pages query level limit (S (length file)) file 0 = Some (Ok pages) /\ Forall (fun p => len p <= limit) pages /\
    (filters query level = false -> concat pages = file) /\
    concat pages = concat (filter (fun l => shown_line query level l = true) (split_inclusive file)).
Proof.
  intros Hlimit Hv Hor. rewrite <- (shown_text_nil query level (split_inclusive file)).
  assert (Hall : filters query level = false -> shown_text query level [] (split_inclusive file) = file).
  { intros Hf. rewrite unfiltered_text by done. by destruct (split_inclusive_facts file). }
  destruct (filters query level) eqn:Ef.
  - destruct Hor as [|Hlines]; [done|].
    destruct (filtered_pages query level limit Hlimit (S (length file)) [] file Hv) as (pages & E & Hc & Hp); [lia|done|]. by exists pages.
  - destruct (unfiltered_pages query level limit Hlimit (S (length file)) [] file Ef Hv) as (pages & E & Hc & Hp); [lia|].
    exists pages. split_and!; [done| |done|by rewrite Hall]. eapply Forall_impl; [exact Hp|]. cbn. lia.
Qed.

(** ** Any bytes *)

Lemma unfinished_le n seen back : (seen <= 4 - n)%nat -> (n <= 4)%nat -> (unfinished n seen back <= 3)%nat.
Proof.
  revert seen back. induction n as [|n IH]; intros seen [|b back] Hs Hn; cbn [unfinished]; try lia.
  repeat match goal with |- context [if ?c then _ else _] => destruct c eqn:?; rewrite ?Nat.ltb_lt in * end; try lia. apply IH; lia.
Qed.

Lemma complete_end_le bs : (length bs - 3 <= complete_utf8_end bs <= length bs)%nat.
Proof. unfold complete_utf8_end. pose proof (unfinished_le 4 0 (rev bs)). lia. Qed.

Lemma lossy_length bs : (length (from_utf8_lossy bs) <= 3 * length bs)%nat.
Proof.
  unfold from_utf8_lossy, utf8_pieces. assert (H : forall fuel bs, (length (utf8_loop fuel bs ≫= fun p => if p.2 : bool then p.1 else REPLACEMENT) <= 3 * length bs)%nat).
  { induction fuel as [|fuel IH]; intros [|b bs']; cbn [utf8_loop]; try (simpl; lia). pose proof (utf8_step_bound b bs') as [Hb _].
    destruct (utf8_step b bs') as [n ok]. cbn [fst] in Hb. cbn [mbind list_bind fst snd]. specialize (IH (drop n (b :: bs'))). rewrite length_drop in IH.
    rewrite length_app. destruct ok; [rewrite length_take|]; cbn [length REPLACEMENT] in *; lia. }
  apply H.
Qed.

Lemma cut_text_le line n : 0 <= n -> (0 < length line)%nat ->
  (cut_text line n <= length line)%nat /\ Z.of_nat (cut_text line n) <= n /\ (4 <= n -> (0 < cut_text line n)%nat).
Proof.
  intros Hn Hpos. unfold cut_text, len. destruct (Nat.ltb_spec (Z.to_nat (Z.min (Z.of_nat (length line)) n)) (length line)); [|lia].
  pose proof (complete_end_le (take (Z.to_nat (Z.min (Z.of_nat (length line)) n)) line)) as Hc. rewrite length_take in Hc. lia.
Qed.

Lemma bounded_text_any line limit : 4 <= limit -> line <> [] ->
  let '(part, count) := bounded_text line limit in len part <= limit /\ (0 < count <= length line)%nat.
Proof.
  intros Hl Hne. unfold bounded_text. cbn zeta. assert (Hpos : (0 < length line)%nat) by (destruct line; [done|simpl; lia]).
  destruct (cut_text_le line limit) as (H1 & H2 & H3); [lia..|]. destruct (from_utf8 (take (cut_text line limit) line)) as [text|] eqn:E.
  - unfold from_utf8 in E. destruct (forallb _ _); [|done]. injection E as <-. unfold len. rewrite length_take. lia.
  - clear E. destruct (cut_text_le line (limit / 3)) as (H4 & H5 & _); [apply Z.div_pos; lia|lia|]. assert (H3l : 3 * (limit / 3) <= limit) by (apply Z.mul_div_le; lia).
    assert (Hlossy : forall k, Z.of_nat k <= limit / 3 -> len (from_utf8_lossy (take k line)) <= limit).
    { intros k Hk. pose proof (lossy_length (take k line)) as Hlo. rewrite length_take in Hlo. unfold len. lia. }
    destruct (cut_text line (limit / 3)) as [|n] eqn:Ec; [|split; [by apply Hlossy|lia]]. destruct line as [|b line]; [done|].
    set (width := if in_range 194 223 b then 2%nat else if in_range 224 239 b then 3%nat else if in_range 240 244 b then 4%nat else 1%nat).
    destruct (if (width <=? length (b :: line))%nat && (Z.of_nat width <=? limit) then from_utf8 (take width (b :: line)) else None) as [text|] eqn:Ex.
    + destruct (_ && _) eqn:Eb in Ex; [|done]. apply andb_true_iff in Eb as [Hw1%Nat.leb_le Hw2%Z.leb_le].
      unfold from_utf8 in Ex. destruct (forallb _ _); [|done]. apply (inj Some) in Ex as <-. assert (0 < width)%nat by (unfold width; repeat case_match; lia).
      unfold len. rewrite length_take. lia.
    + unfold len. simpl. lia.
Qed.

Section AnyBytes.
Context (query level : list Z) (limit : Z).
Hypothesis limit_ok : 4 <= limit.

Lemma page_lines_any lines prefix output consumed : Forall (fun l => l <> []) lines -> len output <= limit ->
  let '(text, count, _) := page_lines query level limit lines prefix output consumed in
  len text <= limit /\ (consumed <= count <= consumed + length (concat lines))%nat /\ (output = [] -> lines <> [] -> (consumed < count)%nat).
Proof.
  revert prefix output consumed. induction lines as [|line lines IH]; intros prefix output consumed Hne Ho; cbn [page_lines].
  - split_and!; [done|simpl; lia..|by intros _ []].
  - apply Forall_cons in Hne as [Hn Hne]. assert (Hpos : (0 < length line)%nat) by (destruct line; [done|simpl; lia]).
    cbn [concat]. rewrite length_app. destruct (shown_line _ _ _).
    + destruct (Z.leb_spec (len (from_utf8_lossy line)) (limit - len output)) as [Hfit|Hbig].
      * specialize (IH [] (output ++ from_utf8_lossy line) (consumed + length line)%nat Hne). destruct (page_lines _ _ _ _ _ _ _) as [[text count] lim].
        destruct IH as (H1 & H2 & _); [unfold len in *; rewrite length_app; lia|]. split_and!; [done|lia..].
      * destruct output as [|o output]; [|split_and!; [done|lia..|done]]. pose proof (bounded_text_any line limit limit_ok Hn) as Hb.
        destruct (bounded_text line limit) as [part count]. split_and!; lia.
    + specialize (IH [] output (consumed + length line)%nat Hne Ho). destruct (page_lines _ _ _ _ _ _ _) as [[text count] lim].
      destruct IH as (H1 & H2 & _). split_and!; [done|lia..].
Qed.

(** The window, on any bytes. *)
Lemma window_any k bytes more : (k <= 3)%nat -> (more = true -> (7 <= length bytes)%nat) -> (k <= length bytes)%nat -> (0 < length bytes)%nat ->
  let body := drop k bytes in
  let body' := if more : bool then match rposition body with Some i => take (S i) body | None => take (complete_utf8_end body) body end else body in
  (0 < k + length body' <= length bytes)%nat /\ (k = 0%nat -> body' <> []).
Proof.
  intros Hk Hm Hkl Hpos body body'. assert (Hb : length body = (length bytes - k)%nat) by apply length_drop.
  assert (Hle : (length body' <= length body)%nat /\ ((0 < length body)%nat -> (0 < length body')%nat)).
  { unfold body'. destruct more; [|done]. specialize (Hm eq_refl). destruct (rposition body) as [i|]; rewrite length_take; [lia|].
    pose proof (complete_end_le body). lia. }
  split; [lia|]. intros -> H0. rewrite H0 in Hle. simpl in Hle. lia.
Qed.

Lemma page_advances file start page : 0 <= start < len file -> log_page query level limit file start false = Ok page ->
  start < pg_next page <= len file /\ len (pg_text page) <= limit.
Proof.
  intros Hs. unfold log_page. cbn [andb]. set (bytes := read_at file start (Z.min (len file - start) MAX_LOG_SCAN)).
  assert (Hl : len bytes = Z.min (len file - start) MAX_LOG_SCAN).
  { unfold bytes, read_at, len in *. rewrite length_take, length_drop. unfold MAX_LOG_SCAN in *. lia. }
  set (k := if 0 <? start then conts_before 3 bytes else 0%nat).
  assert (Hsk : (if 0 <? start then let '(offset, bytes) := skip_character start bytes in (offset, bytes) else (start, bytes)) = (start + Z.of_nat k, drop k bytes)).
  { unfold k, skip_character. destruct (0 <? start); [done|]. by rewrite Z.add_0_r, drop_0. }
  rewrite Hsk. set (more := start + len bytes <? len file).
  destruct (window_any k bytes more) as [Hw1 Hw2].
  { unfold k. pose proof (conts_before_le 3 bytes). destruct (0 <? start); lia. }
  { unfold more. intros Hm%Z.ltb_lt. rewrite Hl in Hm. unfold len, MAX_LOG_SCAN in *. lia. }
  { unfold k. pose proof (conts_before_le 3 bytes). destruct (0 <? start); lia. }
  { unfold len, MAX_LOG_SCAN in *. lia. }
  set (body := if more then _ else drop k bytes) in *. intros H. apply bind_Ok in H as (prefix & _ & H). cbn zeta in H.
  destruct (_ && _ && _ && _ && _) in H; [done|]. unfold filter_log_page in H.
  pose proof (page_lines_any (split_inclusive body) prefix [] 0) as Hp. destruct (split_inclusive_facts body) as [Hc Hne].
  destruct (page_lines _ _ _ _ _ _ _) as [[text count] lim]. destruct Hp as (H1 & H2 & H3); [done|unfold len; simpl; lia|]. rewrite Hc in H2.
  injection H as <-. cbn. unfold len in *. split; [|done]. assert (k = 0%nat -> (0 < count)%nat).
  { intros Hk. apply H3; [done|]. intros H0. rewrite H0 in Hc. by apply Hw2. }
  lia.
Qed.

Lemma read_pages_end fuel file offset : 0 <= offset -> (Z.to_nat (len file - offset) < fuel)%nat ->
  exists r, read_pages query level limit fuel file offset = Some r /\ forall pages, r = Ok pages -> Forall (fun p => len p <= limit) pages.
Proof.
  revert offset. induction fuel as [|fuel IH]; intros offset Ho Hf; [lia|]. cbn [read_pages].
  destruct (Z.leb_spec (len file) offset); [exists (Ok []); split; [done|]; by intros ? [= <-]|].
  destruct (log_page query level limit file offset false) as [page|e] eqn:E; [|by eexists]. apply page_advances in E as [E1 E2]; [|lia].
  destruct (IH (pg_next page)) as (r & -> & Hr); [lia..|]. destruct r as [texts|e]; [|by eexists]. eexists. split; [done|].
  intros ? [= <-]. constructor; [done|by apply Hr].
Qed.
End AnyBytes.

(** C33: reading a log page by page always ends.  Whatever the bytes of the
    file, also if they are no text at all, every page from inside the file moves
    the cursor forward and not past the end, so the pages from the start end
    after at most as many pages as bytes, with all of them or with the error of
    a line too long to be filtered; and no page is longer than the limit. *)
Theorem log_reading_ends query level limit file :
  4 <= limit ->
  (forall start page, 0 <= start < len file -> log_page query level limit file start false = Ok page -> start < pg_next page <= len file) /\
  exists r, read_pages query level limit (S (length file)) file 0 = Some r /\ forall pages, r = Ok pages -> Forall (fun p => len p <= limit) pages.
Proof.
  intros Hl. split; [intros start page Hs Hp; by apply (page_advances query level limit Hl file start page Hs Hp)|].
  apply read_pages_end; [done|done|]. unfold len. lia.
Qed.

(** ** Generations follow the file *)

Definition log_prefix (bytes : list Z) : list Z := read_at bytes 0 (Z.min (len bytes) 256).

Lemma observe_state generations name file fresh generations' g : observe_log generations name file fresh = (generations', g) ->
  exists anchors, generations' !! name = Some {| lg_token := g; lg_identity := lf_identity file; lg_size := len (lf_bytes file);
                                                 lg_prefix := log_prefix (lf_bytes file); lg_anchors := anchors |}.
Proof.
  unfold observe_log. fold (log_prefix (lf_bytes file)). destruct (generations !! name) as [prev|].
  - destruct (log_changed prev file _) eqn:E; intros [= <- <-]; [exists []; by rewrite lookup_insert_eq|].
    exists (lg_anchors prev). rewrite lookup_insert_eq. unfold log_changed in E. apply orb_false_iff in E as [E _]. apply orb_false_iff in E as [E _].
    apply orb_false_iff in E as [E _]. apply negb_false_iff, String.eqb_eq in E. by rewrite E.
  - intros [= <- <-]. exists []. by rewrite lookup_insert_eq.
Qed.

Lemma observe_same generations name file fresh generations' g : observe_log generations name file fresh = (generations', g) -> g <> fresh ->
  exists prev, generations !! name = Some prev /\ lg_token prev = g /\ lg_identity prev = lf_identity file /\
    lg_size prev <= len (lf_bytes file) /\ is_prefix (lg_prefix prev) (log_prefix (lf_bytes file)) = true /\
    forall a, a ∈ lg_anchors prev -> read_at (lf_bytes file) a.1 (len a.2) = a.2.
Proof.
  unfold observe_log. fold (log_prefix (lf_bytes file)). destruct (generations !! name) as [prev|]; [|by intros [= _ <-]].
  destruct (log_changed prev file _) eqn:E; intros [= _ <-] Hf; [done|]. exists prev. unfold log_changed in E. rewrite !orb_false_iff in E.
  destruct E as [[[E1 E2] E3] E4]. apply negb_false_iff, String.eqb_eq in E1. apply Z.ltb_ge in E2. apply negb_false_iff in E3.
  split_and!; [done..|]. intros a Ha. destruct (decide (read_at (lf_bytes file) a.1 (len a.2) = a.2)) as [|Hne]; [done|exfalso].
  apply not_true_iff_false in E4. apply E4. apply existsb_exists. exists a. split; [by apply list_elem_of_In|]. by rewrite bool_decide_false.
Qed.

Lemma in_push_anchor anchors a : a ∈ push_anchor anchors a.
Proof.
  unfold push_anchor. cbn zeta. rewrite drop_app_le by (rewrite length_app; simpl; lia). apply elem_of_app. right. by left.
Qed.

(** What a successful read leaves behind. *)
Lemma read_log_state base generations request before later fresh fresh' generations' page :
  read_log base generations request (Ok before) later fresh fresh' = (generations', Ok page) ->
  exists a anchors, log_arguments base request = Ok a /\
    (forall g, ar_expected a = Some g -> g = lp_generation page) /\
    (exists generations0, observe_log generations (ar_name a) before fresh = (generations0, lp_generation page)) /\
    generations' !! ar_name a = Some {| lg_token := lp_generation page; lg_identity := lf_identity before; lg_size := len (la_bytes later);
                                        lg_prefix := log_prefix (la_bytes later); lg_anchors := anchors |} /\
    (lp_next_offset page <> lp_offset page ->
     let from := Z.max (Z.max 0 (lp_next_offset page - 64)) (lp_offset page) in
     (from, read_at (la_bytes later) from (lp_next_offset page - from)) ∈ anchors).
Proof.
  unfold read_log. destruct (log_arguments base request) as [a|e]; [|done]. destruct (observe_log generations (ar_name a) before fresh) as [g0 g] eqn:E0.
  destruct (match ar_expected a with Some _ => _ | None => _ end) eqn:Ee; [done|]. destruct (_ <? _); [done|].
  destruct (log_page _ _ _ _ _ _) as [pg|e]; [|done]. destruct (la_path later) as [[id|]|e]; [|done..].
  destruct (negb (String.eqb id (lf_identity before)) || _); [done|].
  destruct (observe_log g0 (ar_name a) _ fresh') as [g1 g'] eqn:E1. destruct (String.eqb_spec g' g) as [->|]; [|done]. cbn [negb].
  apply observe_state in E1 as [anchors E1]. cbn [lf_identity lf_bytes] in E1.
  assert (Hexp : forall x, ar_expected a = Some x -> x = g).
  { intros x Hx. rewrite Hx in Ee. apply negb_false_iff, String.eqb_eq in Ee. done. }
  destruct (Z.eqb_spec (pg_next pg) (pg_offset pg)) as [Heq|Hne].
  - intros [= <- <-]. exists a, anchors. cbn. split_and!; [done|done|by exists g0|done|done].
  - case_bool_decide as Ha; [|done]. cbn [negb]. intros [= <- <-]. cbn. eexists a, _. split_and!; [done|done|by exists g0|by rewrite lookup_alter_eq, E1|].
    intros _. cbn. rewrite Ha. apply in_push_anchor.
Qed.

(** C32: a page read with the generation of the page before continues the same
    log.  After a successful read, a read of the same log that names the
    generation of the first and succeeds, whatever happened to the file in
    between and whatever token a new generation would get, finds a file with the
    same identity that is no shorter, begins with the same bytes as far as 256
    of them were there, and still has the last bytes of the page, up to 64 of
    them, in their place; and its own reply has the same generation. *)
Theorem next_page_continues base generations request before later fresh fresh' generations1 page
    request2 before2 later2 fresh2 fresh2' generations2 page2 :
  read_log base generations request (Ok before) later fresh fresh' = (generations1, Ok page) ->
  read_log base generations1 request2 (Ok before2) later2 fresh2 fresh2' = (generations2, Ok page2) ->
  required_string request2 "name" = required_string request "name" ->
  optional_string request2 "generation" = Ok (Some (lp_generation page)) -> fresh2 <> lp_generation page ->
  lp_generation page2 = lp_generation page /\ lf_identity before2 = lf_identity before /\ len (la_bytes later) <= len (lf_bytes before2) /\
  is_prefix (log_prefix (la_bytes later)) (log_prefix (lf_bytes before2)) = true /\
  (lp_next_offset page <> lp_offset page ->
   let from := Z.max (Z.max 0 (lp_next_offset page - 64)) (lp_offset page) in
   let tail := read_at (la_bytes later) from (lp_next_offset page - from) in read_at (lf_bytes before2) from (len tail) = tail).
Proof.
  intros H1 H2 Hname Hgen Hfresh. apply read_log_state in H1 as (a & anchors & Ha & _ & _ & Hst & Hanch).
  apply read_log_state in H2 as (a2 & anchors2 & Ha2 & Hexp & (g0 & Hobs) & _ & _).
  assert (Hn : ar_name a2 = ar_name a /\ ar_expected a2 = Some (lp_generation page)).
  { unfold log_arguments in Ha, Ha2. rewrite Hname in Ha2. destruct (required_string request "name") as [n|]; [|done]. cbn [mbind result_bind] in Ha, Ha2.
    destruct (negb (allowed_log base n)); [done|]. rewrite Hgen in Ha2. cbn [mbind result_bind] in Ha2. inv_result.
    repeat match goal with H : (if ?c then Err _ else _) = Ok _ |- _ => destruct c; [done|]; inv_result end. by simplify_eq. }
  destruct Hn as [Hn He]. apply Hexp in He as Hg. rewrite <- Hg, Hn in Hobs.
  apply observe_same in Hobs as (prev & Hp & _ & Hid & Hsz & Hpre & Han); [|done]. rewrite Hst in Hp. injection Hp as <-. cbn in *.
  split_and!; [done|done|done|done|]. intros Hne. apply (Han (_, _) (Hanch Hne)).
Qed.

(** ** Examples *)

Definition sample_log : list Z := bytes_of "t [INFO] 日志一" ++ [10] ++ bytes_of "t [WARN] 二" ++ [10] ++ bytes_of "t [INFO] 三".

Lemma sample_log_valid : valid_utf8 sample_log.
Proof.
  exists (utf8_pieces sample_log).*1. split; [|vm_compute; reflexivity].
  match goal with |- Forall _ ?l => let l' := eval vm_compute in l in change (Forall utf8_char l') end.
  repeat (apply Forall_cons; split; [vm_compute; reflexivity|]). constructor.
Qed.

Lemma log_pages_reassemble_witness :
  exists pages, read_pages [] (bytes_of "INFO") 4 (S (length sample_log)) sample_log 0 = Some (Ok pages) /\
    concat pages = bytes_of "t [INFO] 日志一" ++ [10] ++ bytes_of "t [INFO] 三" /\ (5 <= length pages)%nat.
Proof.
  destruct (log_pages_reassemble [] (bytes_of "INFO") 4 sample_log) as (pages & E & _ & _ & Hc); [lia|exact sample_log_valid| |].
  - right. vm_compute. repeat constructor; discriminate.
  - exists pages. split_and!; [done|rewrite Hc; vm_compute; reflexivity|]. vm_compute in E. injection E as <-. simpl. lia.
Defined.

(** Bytes that are no text: a lone continuation byte, a lead byte, a byte that
    never occurs. *)
Lemma log_reading_ends_witness :
  exists r, read_pages [] [] 4 6 [128; 228; 184; 255; 10] 0 = Some r /\ forall pages, r = Ok pages -> Forall (fun p => len p <= 4) pages.
Proof. apply (log_reading_ends [] [] 4 [128; 228; 184; 255; 10]). lia. Defined.

Definition sample_request (offset : Z) (generation : option string) : LogRequest :=
  list_to_map ([("name", JString "rcd.log"); ("offset", JNumber (Some offset)); ("limit", JNumber (Some 16))]
    ++ match generation with Some g => [("generation", JString g)] | None => [] end).
Definition sample_file : LogFile := {| lf_identity := "1:7"; lf_bytes := sample_log |}.
Definition sample_later : Later := {| la_bytes := sample_log; la_path := Ok (Some "1:7") |}.
(** A line was appended meanwhile. *)
Definition grown_log : list Z := sample_log ++ [10] ++ bytes_of "t [INFO] 四".
Definition grown_file : LogFile := {| lf_identity := "1:7"; lf_bytes := grown_log |}.
Definition grown_later : Later := {| la_bytes := grown_log; la_path := Ok (Some "1:7") |}.

Definition first_read := read_log "rcd" ∅ (sample_request 0 None) (Ok sample_file) sample_later "a" "b".
Definition second_read := read_log "rcd" first_read.1 (sample_request 15 (Some "a")) (Ok grown_file) grown_later "c" "d".

Lemma next_page_continues_witness :
  exists page page2, first_read.2 = Ok page /\ second_read.2 = Ok page2 /\ lp_generation page2 = "a" /\ lp_text page2 = bytes_of "一" ++ [10] /\
    lf_identity grown_file = lf_identity sample_file.
Proof.
  destruct first_read as [g1 [page|e]] eqn:E1; [|exfalso; vm_compute in E1; discriminate E1].
  destruct second_read as [g2 [page2|e]] eqn:E2; [|exfalso; vm_compute in E2; discriminate E2].
  assert (Hg : lp_generation page = "a") by (vm_compute in E1; by injection E1 as _ <-).
  assert (Ht : lp_text page2 = bytes_of "一" ++ [10]) by (vm_compute in E2; by injection E2 as _ <-).
  exists page, page2. unfold second_read in E2. rewrite E1 in E2. cbn [fst] in E2. unfold first_read in E1.
  destruct (next_page_continues "rcd" ∅ (sample_request 0 None) sample_file sample_later "a" "b" g1 page
              (sample_request 15 (Some "a")) grown_file grown_later "c" "d" g2 page2 E1 E2) as (H1 & H2 & _);
    [vm_compute; reflexivity|rewrite Hg; vm_compute; reflexivity|rewrite Hg; discriminate|].
  split_and!; [done|done|congruence|done|done].
Defined.
