(* ===== verification/ConfigSet.v ===== *)
(** * Validation of a configuration set (src/src/operations/files.rs,
      [validate_set]; src/src/config.rs, the advertised host)

    Before the console saves a file it validates the whole set: the
    application settings, every device table, the names in OPC UA, and the
    calculation rules with their dependencies.  TOML, CSV rows, socket
    addresses and the texts of errors are parameters. *)

From stdpp Require Import pretty.
From S2P Require Import Prelude RustStr RustFloat Utf8 Topo Tokenizer Parser Engine Csv Frames Namespace.
From S2P Require LogFiles.
Open Scope string_scope.
Open Scope Z_scope.
Open Scope list_scope.

Definition MAX_CALC_EXPRESSION_BYTES : Z := 64 * 1024.
Definition MAX_CALC_TOKENS : Z := 8192.
Definition MAX_VALIDATION_TEXT : Z := 12 * 1024.

(** ** Bounded messages *)

Record Validation := {
  errors : list string;
  warnings : list string;
  error_bytes : Z;
  warning_bytes : Z;
  errors_truncated : bool;
  warnings_truncated : bool
}.
Definition validation_default : Validation :=
  {| errors := []; warnings := []; error_bytes := 0; warning_bytes := 0; errors_truncated := false; warnings_truncated := false |}.

Definition slen (s : string) : Z := Z.of_nat (String.length s).
Definition is_char_boundary (cs : list ascii) (i : nat) : bool :=
  match cs !! i with Some c => negb (is_cont (code c)) | None => true end.
Fixpoint floor_boundary (cs : list ascii) (end_ : nat) : nat :=
  if is_char_boundary cs end_ then end_ else match end_ with O => O | S e => floor_boundary cs e end.
Definition utf8_prefix (t : string) (limit : Z) : string :=
  text (take (floor_boundary (chars t) (Z.to_nat (Z.min (slen t) limit))) (chars t)).

Definition NOTICE : string := "其余校验信息已省略，请先修复以上问题后再次校验。".
Definition SUFFIX : string := "…（此条信息已截断）".

Definition bounded_validation_message (items : list string) (total : Z) (truncated : bool) (message : string)
    : list string * Z * bool :=
  if bool_decide (last items = Some NOTICE) then (items, total, truncated)
  else
    let '(message, truncated) :=
      if 1024 <? slen message then (utf8_prefix message (1024 - slen SUFFIX) +:+ SUFFIX, true) else (message, truncated) in
    if (100 <=? length items)%nat || (MAX_VALIDATION_TEXT <=? total + slen message + 1 + slen NOTICE)
    then (items ++ [NOTICE], total + slen NOTICE + 1, true)
    else (items ++ [message], total + slen message + 1, truncated).

Definition error (v : Validation) (message : string) : Validation :=
  let '(items, total, truncated) := bounded_validation_message (errors v) (error_bytes v) (errors_truncated v) message in
  {| errors := items; warnings := warnings v; error_bytes := total; warning_bytes := warning_bytes v;
     errors_truncated := truncated; warnings_truncated := warnings_truncated v |}.
Definition warning (v : Validation) (message : string) : Validation :=
  let '(items, total, truncated) := bounded_validation_message (warnings v) (warning_bytes v) (warnings_truncated v) message in
  {| errors := errors v; warnings := items; error_bytes := error_bytes v; warning_bytes := total;
     errors_truncated := errors_truncated v; warnings_truncated := truncated |}.

(** ** The application settings *)

Inductive CalculationMode := Local | Manager.
Record Server := { primary_ip : string; secondary_ip : string; run_on : RunLocation; current_run : RunLocation }.
Record LoggingConfig := {
  log_level : string;
  log_basename : string;
  log_rotate_age : string;
  log_write_mode : string;
  log_duplicate_to_stderr : option string;
  log_rotate_size_bytes : option Z
}.
(** The fields of [config::Config] that validation and start-up look at. *)
Record Application := {
  ap_server : Server;
  ap_baud_rate : Z;
  ap_timeout : Z;
  ap_poll_interval_ms : Z;
  ap_command_retry_count : Z;
  ap_query_retry_count : Z;
  ap_parity_switch_delay_ms : Z;
  ap_transmit_settle_guard_ms : Z;
  ap_logging : LoggingConfig;
  ap_calculation_mode : CalculationMode
}.

(** [rsplit_once(':')]. *)
Definition rsplit_colon (s : string) : option (string * string) :=
  '(back, front) ← split_at_char ":" (rev (chars s)); Some (text (rev front), text (rev back)).

Definition parse_u16 (s : string) : option Z := parse_uint u16_max (chars s).

Section Application.
(** The host text of a socket address, and whether a log specification
    parses. *)
Context (socket_addr_host : string -> option string) (log_specification : string -> result string ()).

Definition advertised_host_from_server_address (address : string) : result string string :=
  let address := trim address in
  if String.eqb address "" then Err "服务器地址为空"
  else
    host ← match socket_addr_host address with
           | Some host => Ok host
           | None =>
               match rsplit_colon address with
               | Some (host, port) =>
                   if String.eqb host "" || bool_decide (parse_u16 port = None) then Err ("服务器地址格式无效: " +:+ address)
                   else Ok host
               | None => Ok address
               end
           end;
    if String.eqb host "0.0.0.0" || String.eqb host "::" || String.eqb host "[::]"
    then Err ("OPC UA 广告地址不能使用通配地址: " +:+ host)
    else if contains (bytes_of "/") (bytes_of host) || contains (bytes_of "://") (bytes_of host) then Err ("OPC UA 广告主机名格式无效: " +:+ host)
    else Ok host.

Definition opcua_advertised_host (s : Server) : result string string :=
  advertised_host_from_server_address (match run_on s with Primary => primary_ip s | Secondary => secondary_ip s end).

Definition one_of_words (words : list string) (w : string) : bool := bool_decide (to_ascii_lowercase (trim w) ∈ words).

Definition validate_application (toml_config : string -> result string Application) (content : string) (v : Validation) : Validation :=
  match toml_config content with
  | Err e => error v ("config.toml: " +:+ e)
  | Ok config =>
      let logging := ap_logging config in
      let v := match opcua_advertised_host (ap_server config) with Err e => error v ("config.toml server: " +:+ e) | Ok _ => v end in
      let v := if (ap_baud_rate config =? 0) || (ap_timeout config =? 0) || (ap_poll_interval_ms config =? 0) || (ap_command_retry_count config =? 0)
               then error v "config.toml: baud_rate、timeout、poll_interval_ms、command_retry_count 必须大于 0" else v in
      let v := if 1 <? ap_query_retry_count config then error v "config.toml: query_retry_count 只能是 0 或 1" else v in
      let v := if (100 <? ap_parity_switch_delay_ms config) || (100 <? ap_transmit_settle_guard_ms config)
               then error v "config.toml: parity_switch_delay_ms、transmit_settle_guard_ms 不能超过 100" else v in
      let v := match log_specification (log_level logging) with Err e => error v ("config.toml logging.level: " +:+ e) | Ok _ => v end in
      let v := if negb (LogFiles.safe_name (log_basename logging)) then error v "config.toml logging.basename 必须为单个非空文件名" else v in
      let v := if negb (one_of_words ["day"; "daily"; ""; "hour"; "hourly"; "minute"; "second"; "none"; "off"] (log_rotate_age logging))
               then error v "config.toml logging.rotate_age 无效" else v in
      let v := if negb (one_of_words ["direct"; "buffer_dont_flush"; "buffer-dont-flush"; "buffer_and_flush"; "buffer-and-flush"; ""] (log_write_mode logging))
               then error v "config.toml logging.write_mode 无效" else v in
      let v := match log_duplicate_to_stderr logging with
               | Some value =>
                   if negb (one_of_words ["none"; "off"; "error"; "warn"; "warning"; "info"; "debug"; "trace"; "all"] value)
                   then error v "config.toml logging.duplicate_to_stderr 无效" else v
               | None => v
               end in
      if bool_decide (log_rotate_size_bytes logging = Some 0) then error v "config.toml logging.rotate_size_bytes 必须大于 0" else v
  end.
End Application.

(** ** The set *)

(** A parsed TOML document, as far as its keys are looked at. *)
Inductive TomlValue :=
| TomlTable (entries : list (string * TomlValue))
| TomlArray (items : list TomlValue)
| TomlScalar.

Definition as_table (t : TomlValue) : option (list (string * TomlValue)) :=
  match t with TomlTable entries => Some entries | _ => None end.
Definition as_array (t : TomlValue) : option (list TomlValue) :=
  match t with TomlArray items => Some items | _ => None end.
Definition toml_get (key : string) (t : TomlValue) : option TomlValue :=
  entries ← as_table t; (list_to_map entries : gmap string TomlValue) !! key.

(** The entries of a [BTreeMap], in the order of the keys. *)
Definition btree_iter {A} (m : gmap string A) : list (string * A) :=
  omap (fun k => pair k <$> m !! k) (sort_strings (map_to_list m).*1).

Definition allowed_config (name : string) : bool :=
  LogFiles.safe_name name
  && (String.eqb name "config.toml" || String.eqb name "calc.toml" || (String.prefix "rcd" name && ends_with ".csv" name)).

(** The result of the loop over the device tables. *)
Record Tables := {
  tb_result : Validation;
  tb_ports : gmap string (Z * bool * string);
  tb_devices : gset (string * Z);
  tb_owners : gmap string string
}.

Definition claim_record (name : string) (st : Validation * gmap string string) (record : Record_) : Validation * gmap string string :=
  (match st.2 !! rec_kks record with
   | Some previous => error st.1 (name +:+ ": KKS 重复 " +:+ rec_kks record +:+ "（已存在于 " +:+ previous +:+ "）")
   | None => st.1
   end, <[rec_kks record := name]> st.2).

Definition port_suffixes : list string := ["_Send"; "_SendCommand"; "_SendCommand_Input"; "_SendCommand_Output"].
Definition rule_fields : list string := ["kks_calc"; "data_type"; "expression"; "min_limit"; "max_limit"; "default_value"].

Definition reserve (stem port : string) (st : Validation * gmap string string) (suffix : string) : Validation * gmap string string :=
  let node := stem +:+ suffix in
  (match st.2 !! node with
   | Some previous => error st.1 ("OPC 节点重名 " +:+ node +:+ ": " +:+ port +:+ " 与 " +:+ previous)
   | None => st.1
   end, <[node := port]> st.2).

Definition unknown_keys (message : string -> string) (known : list string) (v : Validation) (t : TomlValue) : Validation :=
  match as_table t with
  | Some entries => foldl (fun v key => error v (message key)) v (filter (fun key => key ∉ known) entries.*1)
  | None => v
  end.

Definition rule_number (index : nat) : string := "calc.toml rules[" +:+ pretty (S index) +:+ "]: ".

Section Set_.
(** What the [csv], [toml] and [flexi_logger] crates and the address parser
    give, and the texts of errors and of [{:?}]. *)
Context (csv_rows : string -> list (result string (list string))) (deserialize : list string -> result string Record_).
Context (socket_addr_host : string -> option string) (log_specification : string -> result string ()).
Context (toml_config : string -> result string Application) (toml_value : string -> result string TomlValue).
Context (toml_calc : string -> result string (list CalcRule)).
Context (show_table_error : ValidateError -> string) (show_lex_error : TokenizeError -> string) (show_parse_error : ParseError -> string).
Context (debug : string -> string).

Definition utf8_text (bytes : string) : option string :=
  match from_utf8 (bytes_of bytes) with Some _ => Some bytes | None => None end.

Definition manager_calculation (files : gmap string string) : bool :=
  match files !! "config.toml" ≫= utf8_text with
  | Some content => match toml_config content with
                    | Ok config => match ap_calculation_mode config with Manager => true | Local => false end
                    | Err _ => false
                    end
  | None => false
  end.

Definition read_text (manager : bool) (st : Validation * gmap string string) (file : string * string) : Validation * gmap string string :=
  let '(name, bytes) := file in
  if manager && String.eqb name "calc.toml" then
    (warning st.1 "calc.toml 是 manager 模式下未生效的回滚副本，本次不加载；切回 local 前会重新校验。", st.2)
  else
    match utf8_text bytes with
    | Some content => (st.1, <[name := content]> st.2)
    | None => (error st.1 (name +:+ ": 配置必须为 UTF-8 文本"), st.2)
    end.

Definition check_table (st : Tables) (file : string * string) : Tables :=
  let '(name, content) := file in
  if negb (ends_with ".csv" name) then st
  else
    let '(ws, parsed) := validate_csv_content_with_point_warnings csv_rows deserialize content in
    let v := foldl (fun v w => warning v (name +:+ ": " +:+ show_table_error w)) (tb_result st) ws in
    match parsed with
    | Err e =>
        {| tb_result := error v (name +:+ ": " +:+ show_table_error e); tb_ports := tb_ports st; tb_devices := tb_devices st;
           tb_owners := tb_owners st |}
    | Ok (config, records) =>
        let '(v, ports) :=
          match tb_ports st !! com config with
          | Some (baud, special, previous) =>
              (if negb (baud =? baud_rate config) || negb (eqb special (is_special config))
               then error v (name +:+ ": 串口 " +:+ com config +:+ " 的 baud_rate/is_special 与 " +:+ previous +:+ " 冲突") else v,
               tb_ports st)
          | None => (v, <[com config := (baud_rate config, is_special config, name)]> (tb_ports st))
          end in
        let v := if bool_decide ((com config, device_id config) ∈ tb_devices st)
                 then error v (name +:+ ": 设备重复 " +:+ com config +:+ ":" +:+ pretty (device_id config)) else v in
        let v := match records with [] => warning v (name +:+ ": 此设备没有采集点") | _ => v end in
        let '(v, owners) := foldl (claim_record name) (v, tb_owners st) records in
        {| tb_result := v; tb_ports := ports; tb_devices := {[ (com config, device_id config) ]} ∪ tb_devices st; tb_owners := owners |}
    end.

Definition reserve_port (st : Validation * gmap string string) (port : string) : Validation * gmap string string :=
  let stem := opc_port_stem port in
  let v := if String.eqb (trim stem) "" then error st.1 ("串口 " +:+ debug port +:+ " 的 OPC 名称为空") else st.1 in
  foldl (reserve stem port) (v, st.2) port_suffixes.

Definition check_point_name (reserved : gmap string string) (v : Validation) (point : string * string) : Validation :=
  match reserved !! point.1 with
  | Some _ => error v (point.2 +:+ ": KKS " +:+ point.1 +:+ " 与系统/命令节点冲突")
  | None => v
  end.

Definition check_keys (v : Validation) (raw : TomlValue) : Validation :=
  let v := unknown_keys (fun key => "calc.toml: 未知字段 " +:+ key +:+ "，公式应使用 [[rules]]") ["rules"] v raw in
  match toml_get "rules" raw ≫= as_array with
  | Some rules =>
      foldl (fun v '(index, rule) => unknown_keys (fun key => rule_number index +:+ "未知字段 " +:+ key) rule_fields v rule) v (enumerate rules)
  | None => v
  end.

Definition check_output (owners reserved : gmap string string) (st : Validation * gmap string nat) (ir : nat * CalcRule)
    : Validation * gmap string nat :=
  let '(v, outputs) := st in
  let '(index, rule) := ir in
  let name := rule_kks_calc rule in
  let v := if String.eqb (trim name) "" || any_control name then error v (rule_number index +:+ "kks_calc 为空或含控制字符") else v in
  let v := if bool_decide (is_Some (outputs !! name)) then error v ("calc.toml: 计算点重复 " +:+ name) else v in
  let v := if bool_decide (is_Some (owners !! name)) || bool_decide (is_Some (reserved !! name))
           then error v ("calc.toml: 计算点 " +:+ name +:+ " 与采集点/系统节点冲突") else v in
  (v, <[name := index]> outputs).

Definition check_dependency (owners : gmap string string) (outputs : gmap string nat) (name : string) (index : nat)
    (st : Validation * Graph) (dependency : string) : option (Validation * Graph) :=
  match outputs !! dependency with
  | Some dependency_index => g ← push_edge st.2 dependency_index index; Some (st.1, g)
  | None =>
      match owners !! dependency with
      | Some _ => Some st
      | None => Some (error st.1 ("calc.toml " +:+ name +:+ ": 引用不存在的点位 " +:+ dependency), st.2)
      end
  end.

Definition check_rule (owners : gmap string string) (outputs : gmap string nat) (st : Validation * Graph) (ir : nat * CalcRule)
    : option (Validation * Graph) :=
  let '(v, g) := st in
  let '(index, rule) := ir in
  let name := rule_kks_calc rule in
  let v := match normalize_data_type (rule_data_type rule) with
           | None => error v ("calc.toml " +:+ name +:+ ": 不支持的数据类型 " +:+ rule_data_type rule)
           | Some _ => v
           end in
  let v := if negb (f64_is_finite (rule_min_limit rule)) || negb (f64_is_finite (rule_max_limit rule))
              || negb (f64_is_finite (rule_default_value rule)) || f64_gt (rule_min_limit rule) (rule_max_limit rule)
           then error v ("calc.toml " +:+ name +:+ ": 上下限/默认值必须为有限数，且 min_limit <= max_limit") else v in
  if MAX_CALC_EXPRESSION_BYTES <? slen (rule_expression rule)
  then Some (error v ("calc.toml " +:+ name +:+ ": 单个表达式最大 64 KiB"), g)
  else
    match tokenize (rule_expression rule) with
    | Err e => Some (error v ("calc.toml " +:+ name +:+ ": " +:+ show_lex_error e), g)
    | Ok tokens =>
        if MAX_CALC_TOKENS <? Z.of_nat (length tokens)
        then Some (error v ("calc.toml " +:+ name +:+ ": 单个表达式最多 8192 个词法单元"), g)
        else
          match parse tokens with
          | Err e => Some (error v ("calc.toml " +:+ name +:+ ": " +:+ show_parse_error e), g)
          | Ok ast => foldM (check_dependency owners outputs name index) (v, g) (extract_variables ast)
          end
    end.

Definition check_cycle (v : Validation) (rd : CalcRule * nat) : Validation :=
  if (rd.2 =? 0)%nat then v else error v ("calc.toml: 计算点 " +:+ rule_kks_calc rd.1 +:+ " 存在循环依赖或依赖循环节点").

Definition check_calc (owners reserved : gmap string string) (v : Validation) (content : string) : option Validation :=
  match toml_value content with
  | Err e => Some (error v ("calc.toml: " +:+ e))
  | Ok raw =>
      let v := check_keys v raw in
      match toml_calc content with
      | Err e => Some (error v ("calc.toml: " +:+ e))
      | Ok rules =>
          let '(v, outputs) := foldl (check_output owners reserved) (v, ∅) (enumerate rules) in
          '(v, g) ← foldM (check_rule owners outputs) (v, empty_graph (length rules)) (enumerate rules);
          '(_, degrees) ← kahn g;
          Some (foldl check_cycle v (zip rules degrees))
      end
  end.

Definition system_nodes : gmap string string := <["Devices" := "系统对象"]> {[ "Methods" := "系统对象" ]}.

(** [None] is a panic: an index out of range. *)
Definition validate_set (files : gmap string string) : option Validation :=
  let '(v, texts) := foldl (read_text (manager_calculation files)) (validation_default, ∅) (btree_iter files) in
  let v := match texts !! "config.toml" with
           | Some content => validate_application socket_addr_host log_specification toml_config content v
           | None => error v "缺少 config.toml，无法校验完整配置集"
           end in
  let tables := foldl check_table {| tb_result := v; tb_ports := ∅; tb_devices := ∅; tb_owners := ∅ |} (btree_iter texts) in
  let '(v, reserved) := foldl reserve_port (tb_result tables, system_nodes) (btree_iter (tb_ports tables)).*1 in
  let v := foldl (check_point_name reserved) v (btree_iter (tb_owners tables)) in
  match texts !! "calc.toml" with
  | None => Some v
  | Some content => check_calc (tb_owners tables) reserved v content
  end.
End Set_.

(** ** An accepted set has no error anywhere *)

(** No error was reported. *)
Abbreviation clean v := (errors v = []) (only parsing).

Lemma error_not_clean v m : errors (error v m) <> [].
Proof.
  unfold error, bounded_validation_message. case_bool_decide as E.
  - cbn [errors]. by destruct (errors v).
  - destruct (if 1024 <? slen m then _ else _) as [m' tr]. destruct (_ || _); cbn [errors]; by intros [_ ?]%app_nil.
Qed.
Lemma warning_errors v m : errors (warning v m) = errors v.
Proof. unfold warning. by destruct (bounded_validation_message _ _ _ _) as [[? ?] ?]. Qed.
Lemma warnings_errors {A} (m : A -> string) l v : errors (foldl (fun v w => warning v (m w)) v l) = errors v.
Proof. revert v. induction l as [|w l IH]; intros v; [done|]. cbn [foldl]. by rewrite IH, warning_errors. Qed.

Lemma clean_if (b : bool) v m : clean (if b then error v m else v) -> b = false /\ clean v.
Proof. destruct b; [|done]. intros H. by apply error_not_clean in H. Qed.

(** Takes the reports apart. *)
Ltac clean_inv :=
  repeat match goal with
  | H : errors (error _ _) = [] |- _ => by apply error_not_clean in H
  | H : errors (if ?b then error _ _ else _) = [] |- _ =>
      let E := fresh "E" in apply clean_if in H as [E H]
  | H : errors (warning _ _) = [] |- _ => rewrite warning_errors in H
  | H : errors (foldl _ _ _) = [] |- _ => rewrite warnings_errors in H
  end.

Lemma foldl_clean {A B} (f : A -> B -> A) (good : A -> Prop) (P : list B -> A -> Prop) a l :
  (forall l x a, good (f a x) -> good a /\ (P l a -> P (l ++ [x]) (f a x))) -> P [] a ->
  good (foldl f a l) -> good a /\ P l (foldl f a l).
Proof.
  intros Hstep H0. induction l as [|x l IH] using rev_ind; [done|]. rewrite foldl_snoc.
  intros Hg. destruct (Hstep l x _ Hg) as [Hg1 HP]. destruct (IH Hg1) as [? ?]. auto.
Qed.

(** ** Maps in key order *)

Lemma btree_iter_perm {A} (m : gmap string A) : btree_iter m ≡ₚ map_to_list m.
Proof.
  unfold btree_iter. rewrite sort_strings_perm.
  assert (H : forall l, (forall kv, kv ∈ l -> m !! kv.1 = Some kv.2) -> omap (fun k => pair k <$> m !! k) l.*1 = l).
  { induction l as [|[k v] l IH]; intros Hl; [done|]. cbn [fmap list_fmap omap list_omap fst]. rewrite (Hl (k, v) ltac:(set_solver) : m !! k = Some v).
    cbn. f_equal. apply IH. set_solver. }
  rewrite H; [done|]. intros [k v] Hin. by apply elem_of_map_to_list.
Qed.
Lemma elem_of_btree_iter {A} (m : gmap string A) k v : (k, v) ∈ btree_iter m <-> m !! k = Some v.
Proof. by rewrite btree_iter_perm, elem_of_map_to_list. Qed.
Lemma elem_of_btree_keys {A} (m : gmap string A) k : k ∈ (btree_iter m).*1 <-> is_Some (m !! k).
Proof. rewrite btree_iter_perm. apply elem_of_keys. Qed.
Lemma NoDup_btree_keys {A} (m : gmap string A) : NoDup (btree_iter m).*1.
Proof. rewrite btree_iter_perm. apply NoDup_fst_map_to_list. Qed.

(** Names are claimed once each, when every claim of a taken name reports. *)
Lemma claims_clean {A B} (f : Validation * gmap string A -> B -> Validation * gmap string A) (key : B -> string) v m l :
  (forall st x, clean (f st x).1 -> clean st.1 /\ st.2 !! key x = None /\ exists o, (f st x).2 = <[key x := o]> st.2) ->
  clean (foldl f (v, m) l).1 ->
  clean v /\ NoDup (key <$> l) /\ (forall k, k ∈ key <$> l -> m !! k = None) /\
  forall k, is_Some ((foldl f (v, m) l).2 !! k) <-> is_Some (m !! k) \/ k ∈ key <$> l.
Proof.
  intros Hf Hc. destruct (foldl_clean f (fun st => clean st.1)
    (fun l st => NoDup (key <$> l) /\ (forall k, k ∈ key <$> l -> m !! k = None) /\
       forall k, is_Some (st.2 !! k) <-> is_Some (m !! k) \/ k ∈ key <$> l) (v, m) l) as [H1 H2]; [| |done|done].
  - clear Hc. intros l' x st H. destruct (Hf _ _ H) as (H1 & Hnone & o & Ho). split; [done|]. intros (Hnd & Hfr & Hs).
    assert (Hx : ~ (is_Some (m !! key x) \/ key x ∈ key <$> l')) by (rewrite <- Hs, Hnone; by intros [? ?]).
    rewrite fmap_app. cbn [fmap list_fmap]. split_and!.
    + apply NoDup_app. split_and!; [done| |apply NoDup_singleton]. intros k Hk ->%list_elem_of_singleton. tauto.
    + intros k [Hk| ->%list_elem_of_singleton]%elem_of_app; [by apply Hfr|]. apply eq_None_not_Some. tauto.
    + intros k. rewrite Ho, lookup_insert_is_Some, Hs, elem_of_app, list_elem_of_singleton.
      destruct (decide (key x = k)) as [<-|]; naive_solver.
  - cbn. split_and!; [constructor|by intros k ?%elem_of_nil|]. intros k. rewrite elem_of_nil. tauto.
Qed.

(** ** The texts *)

Definition skipped_file (manager : bool) (name : string) : bool := manager && String.eqb name "calc.toml".

Lemma utf8_text_same bytes t : utf8_text bytes = Some t -> t = bytes.
Proof. unfold utf8_text. by destruct (from_utf8 (bytes_of bytes)); intros ?; simplify_eq. Qed.

Lemma read_texts_clean manager l v :
  NoDup l.*1 -> clean (foldl (read_text manager) (v, ∅) l).1 ->
  clean v /\ (forall k c, (foldl (read_text manager) (v, ∅) l).2 !! k = Some c <-> (k, c) ∈ l /\ skipped_file manager k = false) /\
  forall k c, (k, c) ∈ l -> skipped_file manager k = false -> utf8_text c = Some c.
Proof.
  intros Hnd Hc.
  destruct (foldl_clean (read_text manager) (fun st => clean st.1)
    (fun l st => NoDup l.*1 -> (forall k c, st.2 !! k = Some c <-> (k, c) ∈ l /\ skipped_file manager k = false) /\
       forall k c, (k, c) ∈ l -> skipped_file manager k = false -> utf8_text c = Some c)
    (v, ∅) l) as [H1 H2]; [| |done|destruct (H2 Hnd); auto].
  - clear. intros l [name bytes] [v texts]. unfold read_text, skipped_file. cbn [fst snd].
    destruct (manager && String.eqb name "calc.toml") eqn:Es; cbn [fst snd].
    + intros H. clean_inv. split; [done|]. intros IH Hnd. rewrite fmap_app, NoDup_app in Hnd. destruct IH as [IH Hu]; [tauto|].
      split; intros k c; [rewrite IH|]; rewrite elem_of_app, list_elem_of_singleton.
      * split; [tauto|]. intros [[?|[= -> ->]] ?]; [done|congruence].
      * intros [?|[= -> ->]] ?; [eauto|congruence].
    + destruct (utf8_text bytes) as [t|] eqn:Et; cbn [fst snd]; intros H; clean_inv. split; [done|].
      pose proof (utf8_text_same _ _ Et) as ->.
      intros IH Hnd. rewrite fmap_app, NoDup_app in Hnd. destruct Hnd as (Hnd & Hnot & _). destruct (IH Hnd) as [IHt Hu].
      split; intros k c; rewrite elem_of_app, list_elem_of_singleton; [|intros [?|[= -> ->]] ?; eauto].
      destruct (decide (name = k)) as [<-|Hne].
      * rewrite lookup_insert_eq. split; [intros [= ->]; tauto|]. intros [[Hin|[= ->]] _]; [|done].
        exfalso. apply (Hnot name); [|set_solver]. by apply (list_elem_of_fmap_2 fst) in Hin.
      * rewrite lookup_insert_ne, IHt by done. split; [tauto|]. intros [[?|[= -> ->]] ?]; done.
  - intros _. split; intros k c; rewrite elem_of_nil; [naive_solver|done].
Qed.

(** ** The device tables *)

Definition kks_of (ts : list DeviceConfig) : list string := ts ≫= fun d => rec_kks <$> dc_records d.
Definition address_of (d : DeviceConfig) : string * Z := (com (dc_config d), device_id (dc_config d)).

(** What the loop has collected from the tables [ts]. *)
Record tables_ok (ts : list DeviceConfig) (st : Tables) : Prop := {
  to_ports : forall d, d ∈ ts -> exists f, tb_ports st !! com (dc_config d) = Some (baud_rate (dc_config d), is_special (dc_config d), f);
  to_devices : forall x, x ∈ tb_devices st <-> x ∈ address_of <$> ts;
  to_addresses : NoDup (address_of <$> ts);
  to_owners : forall k, is_Some (tb_owners st !! k) <-> k ∈ kks_of ts;
  to_names : NoDup (kks_of ts)
}.

Section Facts.
Context (csv_rows : string -> list (result string (list string))) (deserialize : list string -> result string Record_).
Context (show_table_error : ValidateError -> string).

(** A table of the set that validation accepts. *)
Definition accepted (file : string * string) (d : DeviceConfig) : Prop :=
  exists ws, validate_csv_content_with_point_warnings csv_rows deserialize file.2 = (ws, Ok (dc_config d, dc_records d)).

Lemma claim_records_clean name v owners rs :
  clean (foldl (claim_record name) (v, owners) rs).1 ->
  clean v /\ NoDup (rec_kks <$> rs) /\ (forall k, k ∈ rec_kks <$> rs -> owners !! k = None) /\
  forall k, is_Some ((foldl (claim_record name) (v, owners) rs).2 !! k) <-> is_Some (owners !! k) \/ k ∈ rec_kks <$> rs.
Proof.
  apply claims_clean. intros [v' o] r. unfold claim_record. cbn [fst snd].
  destruct (o !! rec_kks r) as [p|]; intros H; clean_inv. eauto.
Qed.

Lemma NoDup_snoc {A} (l : list A) x : NoDup (l ++ [x]) <-> NoDup l /\ x ∉ l.
Proof.
  rewrite NoDup_app. split; [|intros [? Hx]; split_and!; [done| |apply NoDup_singleton]].
  - intros (H & Hd & _). split; [done|]. intros Hx. apply (Hd x Hx). set_solver.
  - by intros y Hy ->%list_elem_of_singleton.
Qed.

Lemma check_table_clean ts st name content :
  clean (tb_result (check_table csv_rows deserialize show_table_error st (name, content))) ->
  clean (tb_result st) /\
  if ends_with ".csv" name then
    exists d, accepted (name, content) d /\
      (tables_ok ts st -> tables_ok (ts ++ [d]) (check_table csv_rows deserialize show_table_error st (name, content)))
  else check_table csv_rows deserialize show_table_error st (name, content) = st.
Proof.
  unfold check_table. destruct (ends_with ".csv" name); cbn [negb]; [|done].
  destruct (validate_csv_content_with_point_warnings csv_rows deserialize content) as [ws [[config rs]|e]] eqn:Ev;
    [|cbn; intros H; clean_inv].
  set (v0 := foldl _ (tb_result st) ws). assert (Hv0 : errors v0 = errors (tb_result st)) by apply warnings_errors.
  destruct (match tb_ports st !! com config with Some _ => _ | None => _ end) as [v1 ports] eqn:Ep.
  set (v2 := if bool_decide _ then error v1 _ else v1). set (v3 := match rs with [] => _ | _ => v2 end).
  destruct (foldl (claim_record name) (v3, tb_owners st) rs) as [v4 owners] eqn:Ec. cbn [tb_result]. intros H4.
  destruct (claim_records_clean name v3 (tb_owners st) rs) as (H3 & Hnd & Hf & Hs); [by rewrite Ec|]. rewrite Ec in Hs. cbn [snd] in Hs.
  assert (H2 : clean v2) by (destruct rs; [by rewrite <- (warning_errors v2 (name +:+ ": 此设备没有采集点"))|exact H3]).
  apply clean_if in H2 as [Hdev H1]. apply bool_decide_eq_false in Hdev.
  assert (Hp : clean v0 /\ exists f, ports !! com config = Some (baud_rate config, is_special config, f) /\
               forall c, c <> com config -> ports !! c = tb_ports st !! c).
  { destruct (tb_ports st !! com config) as [[[b s] f]|] eqn:E; injection Ep as <- <-.
    - apply clean_if in H1 as [Eb H1]. split; [done|]. apply orb_false_iff in Eb as [Eb Es]. apply negb_false_iff in Eb, Es.
      apply Z.eqb_eq in Eb as <-. apply eqb_prop in Es as <-. by exists f.
    - split; [done|]. exists name. rewrite lookup_insert_eq. split; [done|]. intros c Hc. by rewrite lookup_insert_ne. }
  destruct Hp as (Hc0 & f & Hport & Hother). rewrite Hv0 in Hc0. split; [done|].
  exists {| dc_config := config; dc_records := rs |}. split; [by exists ws|]. intros [Tp Td Ta To Tn]. split; cbn [tb_ports tb_devices tb_owners].
  - intros d Hd. destruct (decide (com (dc_config d) = com config)) as [Heq|Hne].
    + rewrite Heq. exists f. rewrite Hport. apply elem_of_app in Hd as [Hd| ->%list_elem_of_singleton]; [|done].
      destruct (Tp d Hd) as (f' & Hf'). rewrite Heq in Hf'. rewrite Hf' in Ep. injection Ep as _ <-. congruence.
    + rewrite Hother by done. apply elem_of_app in Hd as [Hd| ->%list_elem_of_singleton]; [by apply Tp|done].
  - intros x. rewrite fmap_app, elem_of_union, elem_of_app, Td, elem_of_singleton. cbn [fmap list_fmap]. rewrite list_elem_of_singleton.
    change (address_of {| dc_config := config; dc_records := rs |}) with (com config, device_id config). tauto.
  - rewrite fmap_app. apply NoDup_snoc. split; [done|]. by rewrite <- Td.
  - intros k. unfold kks_of. rewrite bind_app, elem_of_app, Hs, To. cbn. by rewrite app_nil_r.
  - unfold kks_of. rewrite bind_app. cbn. rewrite app_nil_r. apply NoDup_app. split_and!; [done| |done].
    intros k Hk Hk'. apply Hf in Hk'. apply To in Hk as [? ?]. congruence.
Qed.

Lemma check_tables_clean v l :
  let st := foldl (check_table csv_rows deserialize show_table_error) {| tb_result := v; tb_ports := ∅; tb_devices := ∅; tb_owners := ∅ |} l in
  clean (tb_result st) ->
  clean v /\ exists ts, Forall2 accepted (filter (fun f => ends_with ".csv" f.1 = true) l) ts /\ tables_ok ts st.
Proof.
  intros st Hc.
  destruct (foldl_clean (check_table csv_rows deserialize show_table_error) (fun st => clean (tb_result st))
    (fun l st => exists ts, Forall2 accepted (filter (fun f => ends_with ".csv" f.1 = true) l) ts /\ tables_ok ts st)
    {| tb_result := v; tb_ports := ∅; tb_devices := ∅; tb_owners := ∅ |} l) as [H1 H2]; [| |done|done].
  - clear. intros l [name content] st H. split; [by apply (check_table_clean []) in H as [? _]|].
    intros (ts & Hts & Hok). destruct (check_table_clean ts st name content H) as [_ H']. rewrite filter_app.
    destruct (ends_with ".csv" name) eqn:E.
    + destruct H' as (d & Hd & Hok'). exists (ts ++ [d]). split; [|auto]. apply Forall2_app; [done|].
      rewrite filter_cons_True by done. by repeat constructor.
    + rewrite H'. exists ts. rewrite filter_cons_False, filter_nil, app_nil_r by (cbn; congruence). done.
  - exists []. split; [constructor|]. split; cbn; try constructor; try by intros ? ?%elem_of_nil.
    + intros H. set_solver.
    + intros H. by apply elem_of_nil in H.
    + intros [? ?]. done.
    + intros H. by apply elem_of_nil in H.
Qed.
End Facts.

(** ** The names in OPC UA *)

(** The nodes of a port. *)
Definition port_nodes (port : string) : list string := (fun suffix => opc_port_stem port +:+ suffix) <$> port_suffixes.

Lemma reserve_port_clean debug v m port :
  clean (reserve_port debug (v, m) port).1 ->
  clean v /\ trim (opc_port_stem port) <> "" /\ NoDup (port_nodes port) /\ (forall k, k ∈ port_nodes port -> m !! k = None) /\
  forall k, is_Some ((reserve_port debug (v, m) port).2 !! k) <-> is_Some (m !! k) \/ k ∈ port_nodes port.
Proof.
  unfold reserve_port. cbn [fst snd]. set (v1 := if String.eqb _ "" then _ else v). intros H.
  destruct (claims_clean (reserve (opc_port_stem port) port) (fun suffix => opc_port_stem port +:+ suffix) v1 m port_suffixes) as (H1 & H2); [|done|].
  { intros [v' o] suffix. unfold reserve. cbn [fst snd]. destruct (o !! _) as [p|]; intros H'; clean_inv. eauto. }
  apply clean_if in H1 as [E H1]. apply String.eqb_neq in E. done.
Qed.

Definition reserved_names (ports : list string) : list string := ["Devices"; "Methods"] ++ (ports ≫= port_nodes).

Lemma reserve_ports_clean debug v ports :
  clean (foldl (reserve_port debug) (v, system_nodes) ports).1 ->
  clean v /\ Forall (fun port => trim (opc_port_stem port) <> "") ports /\ NoDup (reserved_names ports) /\
  forall k, is_Some ((foldl (reserve_port debug) (v, system_nodes) ports).2 !! k) <-> k ∈ reserved_names ports.
Proof.
  intros Hc. destruct (foldl_clean (reserve_port debug) (fun st => clean st.1)
    (fun ports st => Forall (fun port => trim (opc_port_stem port) <> "") ports /\ NoDup (reserved_names ports) /\
       forall k, is_Some (st.2 !! k) <-> k ∈ reserved_names ports) (v, system_nodes) ports) as [H1 H2]; [| |done|done].
  - clear. intros ports port [v m] H. destruct (reserve_port_clean _ _ _ _ H) as (Hv & Ht & Hnd & Hf & Hs). split; [done|].
    intros (Hall & Hnd' & Hs'). unfold reserved_names in *. rewrite bind_app, app_assoc. cbn [mbind list_bind]. rewrite app_nil_r. split_and!.
    + apply Forall_app. split; [done|]. by constructor.
    + apply NoDup_app. split_and!; [done| |done]. intros k Hk Hk'. apply Hf in Hk'. apply Hs' in Hk as [? ?]. cbn [snd] in *. congruence.
    + intros k. rewrite Hs, elem_of_app. cbn [snd] in Hs'. by rewrite Hs'.
  - split_and!; [constructor|by apply (bool_decide_unpack _); vm_compute|]. cbn [snd]. intros k. unfold system_nodes, reserved_names. cbn.
    rewrite lookup_insert_is_Some, lookup_singleton_is_Some, !elem_of_cons, elem_of_nil.
    destruct (decide ("Devices" = k)); naive_solver.
Qed.

Lemma point_names_clean reserved v l :
  clean (foldl (check_point_name reserved) v l) -> clean v /\ forall k, k ∈ l.*1 -> reserved !! k = None.
Proof.
  intros Hc. apply (foldl_clean (check_point_name reserved) (fun v => clean v) (fun l v => forall k, k ∈ l.*1 -> reserved !! k = None)) in Hc;
    [done| |by intros k ?%elem_of_nil].
  clear. intros l [k o] v. unfold check_point_name. cbn [fst snd]. destruct (reserved !! k) as [|] eqn:E; intros H; clean_inv.
  split; [done|]. intros IH k'. rewrite fmap_app. intros [?| ->%list_elem_of_singleton]%elem_of_app; auto.
Qed.

Lemma unknown_keys_clean message known v t : clean (unknown_keys message known v t) -> clean v.
Proof.
  unfold unknown_keys. destruct (as_table t) as [entries|]; [|done]. induction (filter _ entries.*1) as [|k l IH] using rev_ind; [done|].
  rewrite foldl_snoc. intros H. clean_inv.
Qed.
Lemma check_keys_clean v raw : clean (check_keys v raw) -> clean v.
Proof.
  unfold check_keys. intros H. eapply unknown_keys_clean. revert H. destruct (toml_get "rules" raw ≫= as_array) as [rules|]; [|done].
  intros H. apply (foldl_clean _ (fun v => clean v) (fun _ _ => True)) in H; [by destruct H| |done].
  intros l [i t] v' H'. split; [|done]. by eapply unknown_keys_clean.
Qed.

(** ** The calculation rules *)

Lemma foldM_invariant {A B} (f : A -> B -> option A) (P : list B -> A -> Prop) a l :
  (forall l' x a, x ∈ l -> P l' a -> exists a', f a x = Some a' /\ P (l' ++ [x]) a') -> P [] a ->
  exists a', foldM f a l = Some a' /\ P l a'.
Proof.
  intros Hstep H0. induction l as [|x l IH] using rev_ind; [by exists a|].
  destruct IH as (a1 & H1 & HP); [intros l' y b Hy; apply Hstep; set_solver|].
  destruct (Hstep l x a1) as (a2 & H2 & HP2); [set_solver|done|]. exists a2. split; [|done].
  rewrite foldM_app, H1. cbn. by rewrite H2.
Qed.

Section Rules.
Context (owners reserved : gmap string string).

(** The names of the rules: usable, different, and free. *)
Record names_ok (rules : list CalcRule) : Prop := {
  no_usable : Forall (fun r => trim (rule_kks_calc r) <> "" /\ any_control (rule_kks_calc r) = false) rules;
  no_once : NoDup (rule_kks_calc <$> rules);
  no_free : Forall (fun r => owners !! rule_kks_calc r = None /\ reserved !! rule_kks_calc r = None) rules
}.

Lemma outputs_of_clean v rules l :
  clean (foldl (check_output owners reserved) (v, ∅) l).1 -> l.*2 = rules ->
  clean v /\ names_ok rules /\ forall k, is_Some ((foldl (check_output owners reserved) (v, ∅) l).2 !! k) <-> k ∈ rule_kks_calc <$> rules.
Proof.
  intros Hc <-.
  assert (Hstep : forall st (x : nat * CalcRule), clean (check_output owners reserved st x).1 ->
    clean st.1 /\ (st.2 !! rule_kks_calc x.2 = None /\ exists o, (check_output owners reserved st x).2 = <[rule_kks_calc x.2 := o]> st.2) /\
    (trim (rule_kks_calc x.2) <> "" /\ any_control (rule_kks_calc x.2) = false) /\
    owners !! rule_kks_calc x.2 = None /\ reserved !! rule_kks_calc x.2 = None).
  { intros [v' o] [i r] H. cbn [check_output fst snd] in *. clean_inv.
    rewrite !orb_false_iff, !bool_decide_eq_false in *. destruct_and!. rewrite <- !eq_None_not_Some in *.
    rewrite String.eqb_neq in *. split_and!; eauto. }
  destruct (claims_clean (check_output owners reserved) (rule_kks_calc ∘ snd) v ∅ l) as (Hv & Hnd & _ & Hs); [|done|].
  { intros st x H. destruct (Hstep st x H) as (? & [? ?] & _). auto. }
  assert (Hall : Forall (fun x : nat * CalcRule => (trim (rule_kks_calc x.2) <> "" /\ any_control (rule_kks_calc x.2) = false) /\
                   owners !! rule_kks_calc x.2 = None /\ reserved !! rule_kks_calc x.2 = None) l).
  { apply (foldl_clean (check_output owners reserved) (fun st => clean st.1)
      (fun l _ => Forall (fun x : nat * CalcRule => (trim (rule_kks_calc x.2) <> "" /\ any_control (rule_kks_calc x.2) = false) /\
                   owners !! rule_kks_calc x.2 = None /\ reserved !! rule_kks_calc x.2 = None) l)) in Hc; [by destruct Hc| |constructor].
    intros l' x st H. destruct (Hstep st x H) as (? & _ & ?). split; [done|]. intros IH. apply Forall_app. split; [done|]. by constructor. }
  apply Forall_and in Hall as [Ha Hb]. rewrite list_fmap_compose in Hnd. split_and!; [done|split|].
  - by apply Forall_fmap.
  - done.
  - by apply Forall_fmap.
  - intros k. rewrite Hs, list_fmap_compose. split; [|by right]. intros [[? ?]|?]; done.
Qed.

(** The index of an output is the index of a rule of that name. *)
Lemma outputs_index v l k i :
  (foldl (check_output owners reserved) (v, ∅) l).2 !! k = Some i -> exists r, (i, r) ∈ l /\ rule_kks_calc r = k.
Proof.
  induction l as [|[j r] l IH] using rev_ind; [done|]. rewrite foldl_snoc.
  destruct (foldl (check_output owners reserved) (v, ∅) l) as [v' o] eqn:E. cbn [check_output snd] in *.
  destruct (decide (rule_kks_calc r = k)) as [<-|Hne].
  - rewrite lookup_insert_eq. intros [= <-]. exists r. split; [set_solver|done].
  - rewrite lookup_insert_ne by done. intros H. destruct (IH H) as (r' & Hr' & ?). exists r'. split; [set_solver|done].
Qed.

Context (show_lex_error : TokenizeError -> string) (show_parse_error : ParseError -> string).
Context (outputs : gmap string nat) (n : nat).
Hypothesis Hindex : forall k i, outputs !! k = Some i -> (i < n)%nat.

Definition in_graph (es : list (nat * nat)) : Prop := forall d i, (d, i) ∈ es -> (d < n)%nat /\ (i < n)%nat.

(** A dependency of rule [i] that is a rule, with its edge, or a point. *)
Definition dependency_ok (es : list (nat * nat)) (i : nat) (dep : string) : Prop :=
  (exists d, outputs !! dep = Some d /\ (d, i) ∈ es) \/ (outputs !! dep = None /\ is_Some (owners !! dep)).

Definition rule_ok (es : list (nat * nat)) (ir : nat * CalcRule) : Prop :=
  exists dt tokens ast,
    normalize_data_type (rule_data_type ir.2) = Some dt /\
    f64_is_finite (rule_max_limit ir.2) = true /\ f64_is_finite (rule_min_limit ir.2) = true /\
    f64_is_finite (rule_default_value ir.2) = true /\ f64_gt (rule_min_limit ir.2) (rule_max_limit ir.2) = false /\
    tokenize (rule_expression ir.2) = Ok tokens /\ parse tokens = Ok ast /\
    Forall (dependency_ok es ir.1) (extract_variables ast).

Lemma dependency_ok_mono es es' i dep : es ⊆ es' -> dependency_ok es i dep -> dependency_ok es' i dep.
Proof. unfold dependency_ok. intros H [(d & ? & ?)|?]; [left; eauto|by right]. Qed.
Lemma rule_ok_mono es es' ir : es ⊆ es' -> rule_ok es ir -> rule_ok es' ir.
Proof.
  intros H (dt & tokens & ast & H1). exists dt, tokens, ast. destruct_and!. split_and!; try done.
  eapply Forall_impl; [done|]. eauto using dependency_ok_mono.
Qed.

Lemma check_dependencies name i v es deps :
  in_graph es -> (i < n)%nat ->
  exists v' es', foldM (check_dependency owners outputs name i) (v, graph_of n es) deps = Some (v', graph_of n es') /\
    in_graph es' /\ es ⊆ es' /\ (clean v' -> clean v /\ Forall (dependency_ok es' i) deps).
Proof.
  intros Hes Hi.
  destruct (foldM_invariant (check_dependency owners outputs name i)
    (fun deps st => exists v' es', st = (v', graph_of n es') /\ in_graph es' /\ es ⊆ es' /\
       (clean v' -> clean v /\ Forall (dependency_ok es' i) deps)) (v, graph_of n es) deps) as (st & Hst & v' & es' & -> & H); [| |by exists v', es'].
  2: { exists v, es. split_and!; [done..|]. intros ?. split; [done|constructor]. }
  intros l dep st _ (v' & es' & -> & Hr & Hsub & Hc). unfold check_dependency. cbn [fst snd].
  destruct (outputs !! dep) as [d|] eqn:Ed.
  - pose proof (Hindex _ _ Ed) as Hd. rewrite push_edge_graph by done. cbn. eexists. split; [done|].
    exists v', (es' ++ [(d, i)]). split_and!; [done| |set_solver|].
    + intros d' i' [Hin|[= -> ->]%list_elem_of_singleton]%elem_of_app; [by apply Hr|done].
    + intros H. apply Hc in H as [? Hf]. split; [done|]. apply Forall_app. split.
      * eapply Forall_impl; [exact Hf|]. intros x. apply dependency_ok_mono. set_solver.
      * apply Forall_singleton. left. exists d. split; [done|]. set_solver.
  - destruct (owners !! dep) as [o|] eqn:Eo; (eexists; split; [done|]).
    + exists v', es'. split_and!; [done..|]. intros H. apply Hc in H as [? Hf]. split; [done|]. apply Forall_app. split; [done|].
      apply Forall_singleton. right. rewrite Eo. split; [done|by eexists].
    + exists (error v' ("calc.toml " +:+ name +:+ ": 引用不存在的点位 " +:+ dep)), es'. split_and!; [done..|]. intros H. clean_inv.
Qed.

Lemma check_rule_step v es i rule :
  in_graph es -> (i < n)%nat ->
  exists v' es', check_rule show_lex_error show_parse_error owners outputs (v, graph_of n es) (i, rule) = Some (v', graph_of n es') /\
    in_graph es' /\ es ⊆ es' /\ (clean v' -> clean v /\ rule_ok es' (i, rule)).
Proof.
  intros Hes Hi. unfold check_rule.
  set (v1 := match normalize_data_type _ with Some _ => v | None => _ end).
  set (v2 := if _ || _ || _ || _ then error v1 _ else v1).
  assert (Hbad : forall m, exists v' es', Some (error v2 m, graph_of n es) = Some (v', graph_of n es') /\
    in_graph es' /\ es ⊆ es' /\ (clean v' -> clean v /\ rule_ok es' (i, rule))).
  { intros m. exists (error v2 m), es. split_and!; [done..|]. intros H. clean_inv. }
  destruct (_ <? _); [apply Hbad|]. destruct (tokenize (rule_expression rule)) as [tokens|e] eqn:Et; [|apply Hbad].
  destruct (MAX_CALC_TOKENS <? _); [apply Hbad|]. destruct (parse tokens) as [ast|e] eqn:Ep; [|apply Hbad].
  destruct (check_dependencies (rule_kks_calc rule) i v2 es (extract_variables ast) Hes Hi) as (v' & es' & -> & Hr & Hsub & Hc).
  exists v', es'. split_and!; [done..|]. intros H. apply Hc in H as [H2 Hdeps]. unfold v2 in H2. apply clean_if in H2 as [E H1].
  unfold v1 in H1. destruct (normalize_data_type (rule_data_type rule)) as [dt|] eqn:En; clean_inv.
  rewrite !orb_false_iff, !negb_false_iff in E. split; [done|]. exists dt, tokens, ast. cbn [fst snd]. tauto.
Qed.

Lemma check_rules v l :
  (forall i r, (i, r) ∈ l -> (i < n)%nat) ->
  exists v' es, foldM (check_rule show_lex_error show_parse_error owners outputs) (v, empty_graph n) l = Some (v', graph_of n es) /\
    in_graph es /\ (clean v' -> clean v /\ Forall (rule_ok es) l).
Proof.
  intros Hl. rewrite empty_graph_of.
  destruct (foldM_invariant (check_rule show_lex_error show_parse_error owners outputs)
    (fun l st => exists v' es, st = (v', graph_of n es) /\ in_graph es /\ (clean v' -> clean v /\ Forall (rule_ok es) l))
    (v, graph_of n []) l) as (st & Hst & v' & es & -> & H); [| |by exists v', es].
  2: { exists v, []. split_and!; [done|by intros d i ?%elem_of_nil|]. intros ?. split; [done|constructor]. }
  intros l' [i r] st Hin (v' & es & -> & Hr & Hc).
  destruct (check_rule_step v' es i r Hr (Hl _ _ Hin)) as (v2 & es2 & -> & Hr2 & Hsub & Hc2). eexists. split; [done|].
  exists v2, es2. split_and!; [done..|]. intros H. apply Hc2 in H as [H Hok]. apply Hc in H as [H Hall]. split; [done|].
  apply Forall_app. split; [|by constructor]. eapply Forall_impl; [exact Hall|]. eauto using rule_ok_mono.
Qed.
End Rules.

(** The rules of an accepted set: they compile, and Kahn's order holds all
    of them. *)
Record rules_accepted (owners reserved : gmap string string) (rules : list CalcRule) : Prop := {
  ra_names : names_ok owners reserved rules;
  ra_rules : exists outputs es order,
    (forall k, is_Some (outputs !! k) <-> k ∈ rule_kks_calc <$> rules) /\
    (forall k i, outputs !! k = Some i -> exists r, rules !! i = Some r /\ rule_kks_calc r = k) /\
    Forall (rule_ok owners outputs es) (enumerate rules) /\
    NoDup order /\ respects es order /\ (forall i, (i < length rules)%nat -> i ∈ order)
}.

Lemma cycles_clean v l : clean (foldl check_cycle v l) -> clean v /\ Forall (fun rd => rd.2 = 0%nat) l.
Proof.
  intros Hc. apply (foldl_clean check_cycle (fun v => clean v) (fun l _ => Forall (fun rd => rd.2 = 0%nat) l)) in Hc; [done| |constructor].
  clear. intros l [r d] v. unfold check_cycle. cbn [snd]. destruct (Nat.eqb_spec d 0) as [->|]; intros H; clean_inv.
  split; [done|]. intros ?. apply Forall_app. split; [done|]. by constructor.
Qed.

Section Calc.
Context (toml_value : string -> result string TomlValue) (toml_calc : string -> result string (list CalcRule)).
Context (show_lex_error : TokenizeError -> string) (show_parse_error : ParseError -> string).

Lemma check_calc_total owners reserved v content :
  exists v', check_calc toml_value toml_calc show_lex_error show_parse_error owners reserved v content = Some v' /\
    (clean v' -> clean v /\ exists rules, toml_calc content = Ok rules /\ rules_accepted owners reserved rules).
Proof.
  unfold check_calc. destruct (toml_value content) as [raw|e]; [|eexists; split; [done|intros H; clean_inv]].
  set (v0 := check_keys v raw). destruct (toml_calc content) as [rules|e]; [|eexists; split; [done|intros H; clean_inv]].
  destruct (foldl (check_output owners reserved) (v0, ∅) (enumerate rules)) as [v1 outputs] eqn:Eo. set (n := length rules).
  assert (Hidx : forall k i, outputs !! k = Some i -> exists r, rules !! i = Some r /\ rule_kks_calc r = k).
  { intros k i Hk. destruct (outputs_index owners reserved v0 (enumerate rules) k i) as (r & Hr & ?); [by rewrite Eo|].
    apply elem_of_enumerate in Hr. eauto. }
  destruct (check_rules owners show_lex_error show_parse_error outputs n) with (v := v1) (l := enumerate rules) as (v2 & es & -> & Hes & H2).
  { intros k i Hk. destruct (Hidx k i Hk) as (r & Hr & _). by apply lookup_lt_Some in Hr. }
  { intros i r Hr%elem_of_enumerate. by apply lookup_lt_Some in Hr. }
  cbn [mbind option_bind]. destruct (kahn_spec n es Hes) as (order & deg & -> & Hnd & Hrange & Hresp & _ & Hdeg).
  cbn [mbind option_bind]. eexists. split; [done|]. intros H. apply cycles_clean in H as [Hv2 Hzero].
  destruct (H2 Hv2) as [Hv1 Hok]. assert (Hrules : (enumerate rules).*2 = rules) by (unfold enumerate; by rewrite snd_zip by (by rewrite length_seq)).
  destruct (outputs_of_clean owners reserved v0 rules (enumerate rules)) as (Hv0 & Hnames & Hs); [by rewrite Eo|done|].
  rewrite Eo in Hs. split; [by eapply check_keys_clean|]. exists rules. split; [done|]. split; [done|].
  exists outputs, es, order. split_and!; try done. intros i Hi. destruct (Hdeg i Hi) as (d & Hd & Hpos).
  destruct (decide (i ∈ order)) as [|Hno]; [done|]. apply Hpos in Hno.
  destruct (lookup_lt_is_Some_2 rules i Hi) as [r Hr].
  assert (Hz : zip rules deg !! i = Some (r, d)) by (apply lookup_zip_Some; done).
  eapply Forall_lookup_1 in Hzero; [|exact Hz]. cbn in Hzero. lia.
Qed.
End Calc.

(** ** The engine of accepted rules *)

Lemma compile_all rules crs :
  Forall2 (fun rule cr => compile_rule rule = Ok cr) rules crs -> NoDup (kks_calc <$> crs) -> foldl compile_step [] rules = crs.
Proof.
  revert crs. induction rules as [|rule rules IH] using rev_ind; intros crs H Hnd.
  - by inversion H.
  - apply Forall2_app_inv_l in H as (crs1 & crs2 & H1 & H2 & ->). inversion H2 as [|? cr ? ? Hcr H3]; subst. inversion H3; subst.
    rewrite fmap_app in Hnd. cbn in Hnd. apply NoDup_snoc in Hnd as [Hnd Hnot]. rewrite foldl_snoc, (IH _ H1 Hnd). unfold compile_step.
    rewrite Hcr. destruct (existsb _ crs1) eqn:E; [|done]. apply existsb_exists in E as (c & Hc & Heq).
    apply String.eqb_eq in Heq. destruct Hnot. rewrite <- Heq. apply list_elem_of_fmap_2. by apply list_elem_of_In.
Qed.

Lemma compile_rule_kks rule cr : compile_rule rule = Ok cr -> kks_calc cr = rule_kks_calc rule.
Proof. unfold compile_rule. intros H. inv_result. repeat case_match; inv_result; try done. by case_bool_decide; inv_result. Qed.

Lemma compile_rule_variables rule cr tokens ast :
  compile_rule rule = Ok cr -> tokenize (rule_expression rule) = Ok tokens -> parse tokens = Ok ast -> variables cr = extract_variables ast.
Proof.
  unfold compile_rule. intros H Ht Hp. rewrite Ht in H. cbn [map_err mbind result_bind] in H. rewrite Hp in H. inv_result.
  do 2 (case_match; [done|]). inv_result. case_bool_decide; [done|]. by simplify_eq/=.
Qed.

Section Accepted.
Context (owners reserved : gmap string string) (rules : list CalcRule).
Hypothesis Hra : rules_accepted owners reserved rules.

Lemma accepted_compile : exists crs, Forall2 (fun rule cr => compile_rule rule = Ok cr) rules crs.
Proof.
  destruct Hra as [Hnames (outputs & es & order & Hdom & Hidx & Hok & Hnd & Hresp & Hall)].
  exists (omap (fun rule => match compile_rule rule with Ok cr => Some cr | Err _ => None end) rules).
  assert (H : forall rule, rule ∈ rules -> is_Some (match compile_rule rule with Ok cr => Some cr | Err _ => None end)).
  { intros rule [i Hi]%list_elem_of_lookup. rewrite Forall_forall in Hok.
    destruct (Hok (i, rule)) as (dt & tokens & ast & Hdt & Hmax & Hmin & Hdef & Hlim & Ht & Hp & Hdeps); [by apply elem_of_enumerate|].
    cbn [fst snd] in *. unfold compile_rule. rewrite Hdt. cbn [ok_or mbind result_bind]. rewrite Hmax, Hmin, Hdef, Hlim. cbn [negb orb].
    rewrite Ht. cbn [map_err mbind result_bind]. rewrite Hp. cbn [map_err mbind result_bind]. case_bool_decide as Hself; [|by eexists].
    exfalso. rewrite Forall_forall in Hdeps. destruct (Hdeps _ Hself) as [(d & Hd & He)|[Hn _]].
    - destruct (Hidx _ _ Hd) as (r & Hr & Hrk).
      assert (d = i) as ->.
      { eapply (NoDup_lookup (rule_kks_calc <$> rules)); [apply Hnames|by rewrite list_lookup_fmap, Hr|by rewrite list_lookup_fmap, Hi, Hrk]. }
      assert (Hio : i ∈ order) by (by eapply Hall, lookup_lt_Some). apply list_elem_of_lookup in Hio as [k Hk].
      pose proof (Hresp k i Hk i He) as Hin. apply list_elem_of_lookup in Hin as [k' Hk']. apply lookup_take_Some in Hk' as [Hk' Hlt].
      pose proof (NoDup_lookup _ _ _ _ Hnd Hk Hk'). lia.
    - apply eq_None_not_Some in Hn. apply Hn, Hdom, list_elem_of_fmap_2, list_elem_of_lookup. eauto. }
  apply omap_Forall2 in H. eapply Forall2_impl; [exact H|]. cbn. intros rule cr Hcr. by destruct (compile_rule rule); simplify_eq.
Qed.

(** Every rule is in the engine, and reads outputs and points only. *)
Lemma accepted_engine :
  exists e, new rules = Some (Ok e) /\ output_names e ≡ₚ rule_kks_calc <$> rules /\
    forall r x, r ∈ e -> x ∈ variables r -> x ∈ output_names e \/ is_Some (owners !! x).
Proof.
  destruct accepted_compile as [crs Hcrs]. pose proof Hra as [Hnames (outputs & es & order & Hdom & Hidx & Hok & Hnd & Hresp & Hall)].
  assert (Hkks : kks_calc <$> crs = rule_kks_calc <$> rules).
  { clear -Hcrs. induction Hcrs as [|rule cr rules crs H _ IH]; [done|]. cbn. rewrite IH. f_equal. by apply compile_rule_kks. }
  assert (Hcomp : foldl compile_step [] rules = crs).
  { apply compile_all; [done|]. rewrite Hkks. apply Hnames. }
  assert (Hvars : forall i rule cr x, rules !! i = Some rule -> crs !! i = Some cr -> x ∈ variables cr ->
            dependency_ok owners outputs es i x).
  { intros i rule cr x Hi Hcr Hx. rewrite Forall_forall in Hok.
    destruct (Hok (i, rule)) as (dt & tokens & ast & _ & _ & _ & _ & _ & Ht & Hp & Hdeps); [by apply elem_of_enumerate|]. cbn [fst snd] in *.
    rewrite Forall_forall in Hdeps. apply Hdeps. pose proof (Forall2_lookup_lr _ _ _ _ _ _ Hcrs Hi Hcr) as Hc. cbn beta in Hc.
    by rewrite <- (compile_rule_variables _ _ _ _ Hc Ht Hp). }
  destruct (new_spec rules) as (e & skipped & Hnew & _ & Hperm & Hcyc). rewrite Hcomp in Hperm.
  assert (Hnone : forall k i, order !! k = Some i -> forall cr, crs !! i = Some cr -> cr ∉ skipped).
  { induction k as [k IH] using lt_wf_ind. intros i Hk cr Hcr Hin. destruct (Hcyc cr Hin) as (cr' & Hin' & Hx).
    destruct (Forall2_lookup_r _ _ _ _ _ Hcrs Hcr) as (rule & Hrule & _).
    assert (Hcr' : cr' ∈ crs) by (rewrite <- Hperm; set_solver). apply list_elem_of_lookup in Hcr' as [d Hd].
    destruct (Hvars i rule cr _ Hrule Hcr Hx) as [(d' & Hd' & He)|[Hn _]].
    - destruct (Hidx _ _ Hd') as (r & Hr & Hrk).
      assert (d' = d) as ->.
      { eapply (NoDup_lookup (rule_kks_calc <$> rules)); [apply Hnames|by rewrite list_lookup_fmap, Hr|].
        rewrite <- Hkks, list_lookup_fmap, Hd. cbn. by rewrite Hrk. }
      pose proof (Hresp k i Hk d He) as Ht. apply list_elem_of_lookup in Ht as [k' Hk']. apply lookup_take_Some in Hk' as [Hk' Hlt].
      by apply (IH k' Hlt d Hk' cr' Hd).
    - apply eq_None_not_Some in Hn. apply Hn, Hdom. rewrite <- Hkks. apply list_elem_of_fmap_2. by apply list_elem_of_lookup_2 in Hd. }
  assert (Hskip : skipped = []).
  { destruct skipped as [|cr l]; [done|]. assert (Hcr : cr ∈ crs) by (rewrite <- Hperm; set_solver).
    apply list_elem_of_lookup in Hcr as [i Hi]. destruct (Forall2_lookup_r _ _ _ _ _ Hcrs Hi) as (rule & Hr & _).
    apply lookup_lt_Some, Hall, list_elem_of_lookup in Hr as [k Hk].
    exfalso. apply (Hnone k i Hk cr Hi). set_solver. }
  rewrite Hskip, app_nil_r in Hperm. assert (Hout : output_names e ≡ₚ rule_kks_calc <$> rules) by (unfold output_names; by rewrite Hperm, Hkks).
  exists e. split_and!; [done..|]. intros r x Hr Hx. rewrite Hperm in Hr. apply list_elem_of_lookup in Hr as [i Hi].
  destruct (Forall2_lookup_r _ _ _ _ _ Hcrs Hi) as (rule & Hrule & _).
  destruct (Hvars i rule r x Hrule Hi Hx) as [(d & Hd & _)|[_ ?]]; [left|by right]. rewrite Hout. apply Hdom. by eexists.
Qed.
End Accepted.

(** ** What acceptance means *)

(** Settings the process can run with. *)
Record settings_ok (socket_addr_host : string -> option string) (log_specification : string -> result string ()) (app : Application) : Prop := {
  so_host : exists host, opcua_advertised_host socket_addr_host (ap_server app) = Ok host;
  so_positive : ap_baud_rate app <> 0 /\ ap_timeout app <> 0 /\ ap_poll_interval_ms app <> 0 /\ ap_command_retry_count app <> 0;
  so_query : ap_query_retry_count app <= 1;
  so_delays : ap_parity_switch_delay_ms app <= 100 /\ ap_transmit_settle_guard_ms app <= 100;
  so_level : is_ok (log_specification (log_level (ap_logging app))) = true;
  so_basename : LogFiles.safe_name (log_basename (ap_logging app)) = true;
  so_size : log_rotate_size_bytes (ap_logging app) <> Some 0
}.

Lemma clean_match {E T} (r : result E T) v (m : E -> string) :
  clean (match r with Err e => error v (m e) | Ok _ => v end) -> clean v /\ exists x, r = Ok x.
Proof. destruct r; [eauto|]. intros H. clean_inv. Qed.

Lemma application_clean socket_addr_host log_specification toml_config content v :
  clean (validate_application socket_addr_host log_specification toml_config content v) ->
  clean v /\ exists app, toml_config content = Ok app /\ settings_ok socket_addr_host log_specification app.
Proof.
  unfold validate_application. destruct (toml_config content) as [app|e]; [|intros H; clean_inv]. intros H.
  apply clean_if in H as [Esize H].
  match type of H with errors (match log_duplicate_to_stderr _ with Some _ => _ | None => ?w end) = [] => assert (Hd : clean w) end.
  { destruct (log_duplicate_to_stderr (ap_logging app)); [by apply clean_if in H as [_ ?]|done]. }
  clear H. apply clean_if in Hd as [_ H]. apply clean_if in H as [_ H]. apply clean_if in H as [Ebase H].
  apply clean_match in H as (H & [] & Elevel). apply clean_if in H as [Edelay H]. apply clean_if in H as [Equery H].
  apply clean_if in H as [Epos H]. apply clean_match in H as (H & host & Ehost). split; [done|]. exists app. split; [done|].
  rewrite !orb_false_iff, ?Z.eqb_neq, ?Z.ltb_ge in *. apply bool_decide_eq_false in Esize. apply negb_false_iff in Ebase. destruct_and!.
  split; try done; [by exists host|by rewrite Elevel].
Qed.

Section Spec.
Context (csv_rows : string -> list (result string (list string))) (deserialize : list string -> result string Record_).
Context (socket_addr_host : string -> option string) (log_specification : string -> result string ()).
Context (toml_config : string -> result string Application) (toml_value : string -> result string TomlValue).
Context (toml_calc : string -> result string (list CalcRule)).
Context (show_table_error : ValidateError -> string) (show_lex_error : TokenizeError -> string) (show_parse_error : ParseError -> string).
Context (debug : string -> string).

(** The files of the set that are texts validation reads. *)
Definition set_texts (files texts : gmap string string) : Prop :=
  (forall k c, texts !! k = Some c <-> files !! k = Some c /\ skipped_file (manager_calculation toml_config files) k = false) /\
  (forall k c, files !! k = Some c -> skipped_file (manager_calculation toml_config files) k = false -> utf8_text c = Some c).

Record set_accepted (files : gmap string string) : Prop := {
  sa_application : exists c app, files !! "config.toml" = Some c /\ utf8_text c = Some c /\ toml_config c = Ok app /\ settings_ok socket_addr_host log_specification app;
  sa_tables : exists texts tables ts reserved,
    set_texts files texts /\
    Forall2 (accepted csv_rows deserialize) (filter (fun f => ends_with ".csv" f.1 = true) (btree_iter texts)) ts /\
    tables_ok ts tables /\
    Forall (fun port => trim (opc_port_stem port) <> "") (btree_iter (tb_ports tables)).*1 /\
    NoDup (reserved_names (btree_iter (tb_ports tables)).*1) /\
    (forall k, is_Some (reserved !! k) <-> k ∈ reserved_names (btree_iter (tb_ports tables)).*1) /\
    (forall k, k ∈ kks_of ts -> reserved !! k = None) /\
    forall c, texts !! "calc.toml" = Some c ->
      exists rules, toml_calc c = Ok rules /\ rules_accepted (tb_owners tables) reserved rules
}.

Lemma validate_set_total files :
  exists v, validate_set csv_rows deserialize socket_addr_host log_specification toml_config toml_value toml_calc show_table_error
              show_lex_error show_parse_error debug files = Some v /\ (clean v -> set_accepted files).
Proof.
  unfold validate_set. destruct (foldl (read_text _) _ _) as [v1 texts] eqn:Et.
  set (v2 := match texts !! "config.toml" with Some _ => _ | None => _ end).
  set (tables := foldl (check_table _ _ _) _ _).
  destruct (foldl (reserve_port debug) _ _) as [v3 reserved] eqn:Er.
  set (v4 := foldl (check_point_name reserved) v3 _).
  assert (Hmain : clean v4 -> (forall c, texts !! "calc.toml" = Some c ->
            exists rules, toml_calc c = Ok rules /\ rules_accepted (tb_owners tables) reserved rules) -> set_accepted files).
  { intros H4 Hcalc. apply point_names_clean in H4 as [H3 Hpts].
    destruct (reserve_ports_clean debug (tb_result tables) (btree_iter (tb_ports tables)).*1) as (Htab & Hst & Hnd & Hres); [by rewrite Er|].
    rewrite Er in Hres. destruct (check_tables_clean csv_rows deserialize show_table_error _ _ Htab) as (H2 & ts & Hts & Hok). fold tables in Hok.
    assert (H1 : clean v1 /\ exists c, texts !! "config.toml" = Some c /\ exists app, toml_config c = Ok app /\ settings_ok socket_addr_host log_specification app).
    { unfold v2 in H2. destruct (texts !! "config.toml") as [c|]; [|clean_inv]. apply application_clean in H2 as [? ?]. eauto. }
    destruct H1 as (H1 & c & Hc & app & Happ & Hset).
    destruct (read_texts_clean (manager_calculation toml_config files) (btree_iter files) validation_default) as (_ & Htexts & Hutf);
      [apply NoDup_btree_keys|by rewrite Et|]. rewrite Et in Htexts. setoid_rewrite elem_of_btree_iter in Htexts. setoid_rewrite elem_of_btree_iter in Hutf. cbn [snd] in Htexts.
    split; [exists c, app; split_and!; [by apply Htexts in Hc as [? _]|apply Htexts in Hc as [? ?]; by eapply Hutf|done..]|].
    exists texts, tables, ts, reserved. split_and!; try done. intros k Hk. apply Hpts, elem_of_btree_keys. by apply Hok. }
  destruct (texts !! "calc.toml") as [content|] eqn:Ec.
  - destruct (check_calc_total toml_value toml_calc show_lex_error show_parse_error (tb_owners tables) reserved v4 content) as (v5 & H5 & Hc5).
    exists v5. split; [exact H5|]. intros H. apply Hc5 in H as (H4 & Hrules). apply Hmain; [done|]. by intros c [= <-].
  - exists v4. split; [done|]. intros H. by apply Hmain.
Qed.
End Spec.

(** ** The report is bounded *)

(** The bytes of the messages, each with a line end. *)
Definition report_bytes (items : list string) : Z := foldr (fun m n => slen m + 1 + n) 0 items.

Record bounded_report (items : list string) (total : Z) : Prop := {
  br_total : total = report_bytes items;
  br_size : total <= MAX_VALIDATION_TEXT;
  br_count : (length items <= 101)%nat;
  br_each : Forall (fun m => slen m <= 1024) items;
  br_open : last items <> Some NOTICE -> (length items <= 100)%nat /\ total + slen NOTICE < MAX_VALIDATION_TEXT
}.

Lemma slen_app a b : slen (a +:+ b) = slen a + slen b.
Proof. unfold slen. rewrite !string_length_chars, chars_app, length_app. lia. Qed.

Lemma floor_boundary_le cs n : (floor_boundary cs n <= n)%nat.
Proof. induction n as [|n IH]; cbn [floor_boundary]; case_match; lia. Qed.

Lemma utf8_prefix_slen t limit : 0 <= limit -> slen (utf8_prefix t limit) <= limit.
Proof.
  intros Hl. unfold slen, utf8_prefix. rewrite string_length_chars, list_ascii_of_string_of_list_ascii, length_take.
  pose proof (floor_boundary_le (list_ascii_of_string t) (Z.to_nat (Z.min (slen t) limit))). lia.
Qed.

Lemma report_bytes_snoc items m : report_bytes (items ++ [m]) = report_bytes items + (slen m + 1).
Proof. unfold report_bytes. induction items as [|x items IH]; simpl; [lia|]. rewrite IH. lia. Qed.

Lemma slen_NOTICE : slen NOTICE = 72. Proof. vm_compute. reflexivity. Qed.
Lemma slen_SUFFIX : slen SUFFIX = 30. Proof. vm_compute. reflexivity. Qed.
#[local] Opaque NOTICE SUFFIX.

Lemma report_step items total truncated message :
  bounded_report items total ->
  let '(items', total', _) := bounded_validation_message items total truncated message in bounded_report items' total'.
Proof.
  intros [Ht Hs Hc He Ho]. unfold bounded_validation_message. case_bool_decide as El; [done|].
  destruct (Ho El) as [Hlen Hroom]. destruct (if 1024 <? slen message then _ else _) as [m tr] eqn:Em.
  assert (Hm : slen m <= 1024).
  { destruct (Z.ltb_spec 1024 (slen message)); injection Em as <- _; [|done]. rewrite slen_app, slen_SUFFIX.
    pose proof (utf8_prefix_slen message (1024 - 30) ltac:(lia)). lia. }
  pose proof slen_NOTICE as Hn. unfold MAX_VALIDATION_TEXT in *.
  destruct (_ || _) eqn:E; [|apply orb_false_iff in E as [E1 E2]; apply Nat.leb_gt in E1; apply Z.leb_gt in E2]; split.
  all: rewrite ?report_bytes_snoc, ?length_app, ?Forall_app, ?last_snoc, ?Forall_singleton; cbn [length]; unfold MAX_VALIDATION_TEXT; try lia.
  all: try (split; [done|lia]); done.
Qed.

Definition reported (v : Validation) : Prop :=
  bounded_report (errors v) (error_bytes v) /\ bounded_report (warnings v) (warning_bytes v).

Lemma error_reported v m : reported v -> reported (error v m).
Proof.
  intros [He Hw]. unfold error. pose proof (report_step _ _ (errors_truncated v) m He) as H.
  destruct (bounded_validation_message _ _ _ _) as [[items total] tr]. by split.
Qed.
Lemma warning_reported v m : reported v -> reported (warning v m).
Proof.
  intros [He Hw]. unfold warning. pose proof (report_step _ _ (warnings_truncated v) m Hw) as H.
  destruct (bounded_validation_message _ _ _ _) as [[items total] tr]. by split.
Qed.

Lemma foldl_keeps {A B} (f : A -> B -> A) (P : A -> Prop) a l : (forall a x, P a -> P (f a x)) -> P a -> P (foldl f a l).
Proof. intros Hf. revert a. induction l as [|x l IH]; intros a Ha; cbn [foldl]; auto. Qed.
Lemma foldM_keeps {A B} (f : A -> B -> option A) (P : A -> Prop) a l a' :
  (forall a x a', P a -> f a x = Some a' -> P a') -> P a -> foldM f a l = Some a' -> P a'.
Proof.
  intros Hf. revert a. induction l as [|x l IH]; intros a Ha; cbn [foldM]; [by intros [= <-]|]. intros (a1 & H1 & H)%bind_Some. eauto.
Qed.

Ltac report := repeat first [done | assumption | apply error_reported | apply warning_reported | case_match].

Lemma default_reported : reported validation_default.
Proof. split; (split; [done|unfold MAX_VALIDATION_TEXT; cbn; lia|cbn; lia|constructor|]); intros _; rewrite slen_NOTICE; unfold MAX_VALIDATION_TEXT; cbn; lia. Qed.

Section Bounded.
Context (csv_rows : string -> list (result string (list string))) (deserialize : list string -> result string Record_).
Context (socket_addr_host : string -> option string) (log_specification : string -> result string ()).
Context (toml_config : string -> result string Application) (toml_value : string -> result string TomlValue).
Context (toml_calc : string -> result string (list CalcRule)).
Context (show_table_error : ValidateError -> string) (show_lex_error : TokenizeError -> string) (show_parse_error : ParseError -> string).
Context (debug : string -> string).

Lemma reported_if (b : bool) v m : reported v -> reported (if b then error v m else v).
Proof. destruct b; [apply error_reported|done]. Qed.
Lemma reported_result {E T} (r : result E T) v (m : E -> string) : reported v -> reported (match r with Err e => error v (m e) | Ok _ => v end).
Proof. destruct r; [done|apply error_reported]. Qed.

Lemma application_reported content v :
  reported v -> reported (validate_application socket_addr_host log_specification toml_config content v).
Proof.
  intros Hv. unfold validate_application. destruct (toml_config content) as [app|e]; [|by apply error_reported].
  apply reported_if. destruct (log_duplicate_to_stderr (ap_logging app)); [apply reported_if|].
  all: do 3 apply reported_if; apply reported_result; do 3 apply reported_if; by apply reported_result.
Qed.

Lemma check_table_reported st file :
  reported (tb_result st) -> reported (tb_result (check_table csv_rows deserialize show_table_error st file)).
Proof.
  intros Hst. destruct file as [name content]. unfold check_table. destruct (negb _); [done|].
  destruct (validate_csv_content_with_point_warnings csv_rows deserialize content) as [ws parsed].
  set (v0 := foldl _ _ ws). assert (H0 : reported v0) by (apply foldl_keeps; [intros; by apply warning_reported|done]).
  destruct parsed as [[config rs]|e]; [|by apply error_reported].
  destruct (match tb_ports st !! com config with Some _ => _ | None => _ end) as [v1 ports] eqn:Ep.
  assert (H1 : reported v1) by (destruct (tb_ports st !! com config) as [[[b s] f]|]; injection Ep as <- <-; [by apply reported_if|done]).
  destruct (foldl (claim_record name) _ rs) as [v2 owners] eqn:Ec. cbn [tb_result].
  change v2 with (v2, owners).1. rewrite <- Ec. apply (foldl_keeps _ (fun st => reported st.1)).
  - intros [v o] r Hv. cbn. report.
  - cbn [fst]. assert (H2 : forall (b : bool) m, reported (if b then error v1 m else v1)) by (intros; by apply reported_if). destruct rs; [apply warning_reported|]; apply H2.
Qed.

Lemma reserve_reported st port : reported st.1 -> reported (reserve_port debug st port).1.
Proof.
  intros Hst. unfold reserve_port. apply (foldl_keeps _ (fun st => reported st.1)); [|cbn [fst]; report].
  intros [v o] suffix Hv. cbn. report.
Qed.

Lemma check_calc_reported owners reserved v content v' :
  reported v -> check_calc toml_value toml_calc show_lex_error show_parse_error owners reserved v content = Some v' -> reported v'.
Proof.
  intros Hv. unfold check_calc. destruct (toml_value content) as [raw|e]; [|intros [= <-]; report].
  assert (Hkeys : forall message known t w, reported w -> reported (unknown_keys message known w t)).
  { intros message known t w Hw. unfold unknown_keys. destruct (as_table t); [|done]. apply foldl_keeps; [intros; report|done]. }
  assert (H0 : reported (check_keys v raw)).
  { unfold check_keys. destruct (toml_get "rules" raw ≫= as_array) as [rs|]; [|by apply Hkeys].
    apply foldl_keeps; [intros w [i t]; apply Hkeys|by apply Hkeys]. }
  destruct (toml_calc content) as [rules|e]; [|intros [= <-]; report].
  destruct (foldl (check_output owners reserved) _ _) as [v1 outputs] eqn:Eo.
  assert (H1 : reported v1).
  { change v1 with (v1, outputs).1. rewrite <- Eo. apply (foldl_keeps _ (fun st => reported st.1)); [|done].
    intros [w o] [i r] Hw. cbn [check_output fst]. by do 3 apply reported_if. }
  intros ([v2 g] & H2 & ([order degrees] & _ & [= <-])%bind_Some)%bind_Some.
  apply (foldM_keeps _ (fun st => reported st.1)) in H2; [|clear H2|done].
  - apply foldl_keeps; [|done]. intros w rd Hw. unfold check_cycle. report.
  - intros [w g1] [i r] st Hw. cbn [fst] in Hw. unfold check_rule.
    set (w1 := match normalize_data_type _ with Some _ => w | None => _ end). assert (Hw1 : reported w1) by (unfold w1; report).
    set (w2 := if _ || _ || _ || _ then error w1 _ else w1). assert (Hw2 : reported w2) by (unfold w2; destruct (_ || _ || _ || _); report).
    destruct (_ <? _); [intros [= <-]; cbn [fst]; report|]. destruct (tokenize _) as [tokens|]; [|intros [= <-]; cbn [fst]; report].
    destruct (MAX_CALC_TOKENS <? _); [intros [= <-]; cbn [fst]; report|]. destruct (parse tokens) as [ast|]; [|intros [= <-]; cbn [fst]; report].
    apply (foldM_keeps _ (fun st => reported st.1)); [|done].
    intros [x gx] dep st' Hx. unfold check_dependency. cbn [fst snd]. destruct (outputs !! dep).
    + intros (? & _ & [= <-])%bind_Some. done.
    + destruct (owners !! dep); intros [= <-]; cbn [fst] in *; report.
Qed.

(** C34: the report of a validation fits its frame.  Whatever the files hold,
    validation returns, and its errors and its warnings are each at most 101
    messages (the last may be the notice that the rest is left out) of at most
    1024 bytes, at most 12 KiB in all with their line ends, and the byte count
    it keeps is exact. *)
Theorem validation_report_bounded files :
  exists v, validate_set csv_rows deserialize socket_addr_host log_specification toml_config toml_value toml_calc show_table_error
              show_lex_error show_parse_error debug files = Some v /\
    bounded_report (errors v) (error_bytes v) /\ bounded_report (warnings v) (warning_bytes v).
Proof.
  destruct (validate_set_total csv_rows deserialize socket_addr_host log_specification toml_config toml_value toml_calc show_table_error
              show_lex_error show_parse_error debug files) as (v & Hv & _). exists v. split; [done|]. revert Hv.
  unfold validate_set. destruct (foldl (read_text _) _ _) as [v1 texts] eqn:Et.
  assert (H1 : reported v1).
  { change v1 with (v1, texts).1. rewrite <- Et. apply (foldl_keeps _ (fun st => reported st.1)); [|apply default_reported].
    intros [w t] [name bytes] Hw. unfold read_text. report. }
  set (v2 := match texts !! "config.toml" with Some _ => _ | None => _ end).
  assert (H2 : reported v2) by (unfold v2; destruct (texts !! "config.toml"); [by apply application_reported|report]).
  set (tables := foldl (check_table _ _ _) _ _).
  assert (Ht : reported (tb_result tables)) by (apply (foldl_keeps _ (fun st => reported (tb_result st))); [apply check_table_reported|done]).
  destruct (foldl (reserve_port debug) _ _) as [v3 reserved] eqn:Er.
  assert (H3 : reported v3).
  { change v3 with (v3, reserved).1. rewrite <- Er. apply (foldl_keeps _ (fun st => reported st.1)); [apply reserve_reported|done]. }
  set (v4 := foldl (check_point_name reserved) v3 _).
  assert (H4 : reported v4) by (apply foldl_keeps; [intros w p Hw; unfold check_point_name; report|done]).
  destruct (texts !! "calc.toml") as [content|]; [apply check_calc_reported; done|]. by intros [= <-].
Qed.
End Bounded.
