(* ===== verification/Startup.v ===== *)
(** * Start-up (src/src/main.rs; src/src/config.rs, [init_config];
      src/src/calc_engine/config.rs, [load_calc_config])

    What the process does with its configuration directory before it serves:
    the settings, the calculation engine, the device tables, the names and the
    manifest.  The theorem connects it with the validation of the console: a
    set the console accepts is one the process starts with.  SHA-256 and the
    texts of errors are parameters beside those of the validation. *)

From stdpp Require Import pretty.
From S2P Require Import Prelude RustStr RustFloat Utf8 Topo Tokenizer Parser Engine Csv Frames Namespace Topology ConfigSet.
Open Scope string_scope.
Open Scope Z_scope.
Open Scope list_scope.

(** The regular files of the configuration directory with their bytes. *)
Abbreviation Disk := (gmap string string).

Record CalculationStatus := {
  active_mode : string;
  configured_mode : string;
  rule_count : nat;
  config_hash : string;
  restart_required : bool;
  config_error : option string
}.

Definition mode_as_str (m : CalculationMode) : string := match m with Local => "local" | Manager => "manager" end.

(** [str::lines]: split at line feeds; what [trim] removes of a line is left
    on it. *)
Fixpoint split_lines (cs cur : list ascii) : list string :=
  match cs with
  | [] => match cur with [] => [] | _ => [text (rev cur)] end
  | c :: cs => if code c =? 10 then text (rev cur) :: split_lines cs [] else split_lines cs (c :: cur)
  end.

Definition count_rules (content : string) : nat :=
  length (filter (fun line => trim line = "[[rules]]") (split_lines (chars content) [])).

Section Startup.
Context (csv_rows : string -> list (result string (list string))) (deserialize : list string -> result string Record_).
Context (socket_addr_host : string -> option string) (toml_config : string -> result string Application).
Context (toml_calc : string -> result string (list CalcRule)).
Context (digest : string -> string) (utf8_error : string -> string).

Definition read_to_string (bytes : string) : result string string :=
  ok_or "stream did not contain valid UTF-8" (utf8_text bytes).

Definition init_config (disk : Disk) : result string Application :=
  bytes ← ok_or "No such file or directory (os error 2)" (disk !! "config.toml");
  config_str ← read_to_string bytes;
  toml_config config_str.

Definition load_calc_config (file : option string) : result string (list CalcRule) :=
  match file with
  | None => Ok []
  | Some bytes =>
      content ← map_err (fun e => "读取计算规则文件失败: " +:+ e) (read_to_string bytes);
      map_err (fun e => "解析计算规则 TOML 失败: " +:+ e) (toml_calc content)
  end.

Definition inspect_calc_backup (file : option string) : string * nat * option string :=
  match file with
  | None => ("", 0%nat, None)
  | Some bytes =>
      match utf8_text bytes with
      | Some content => (digest bytes, count_rules content, None)
      | None => (digest bytes, 0%nat, Some ("calc.toml 不是 UTF-8: " +:+ utf8_error bytes))
      end
  end.

(** [None] is the panic of [CalcEngine::new(vec![]).unwrap()]. *)
Definition start_calculation (mode : CalculationMode) (file : option string) : option (CalcEngine * CalculationStatus) :=
  let '(hash, backup_rule_count, backup_error) := inspect_calc_backup file in
  let status rules e := {| active_mode := mode_as_str mode; configured_mode := mode_as_str mode; rule_count := rules;
                           config_hash := hash; restart_required := false; config_error := e |} in
  let empty := match Engine.new [] with Some (Ok e) => Some e | _ => None end in
  match mode with
  | Manager => e ← empty; Some (e, status backup_rule_count backup_error)
  | Local =>
      let '(rules, err) := match load_calc_config file with Ok rules => (rules, None) | Err e => ([], Some e) end in
      match rules with
      | [] => e ← empty; Some (e, status 0%nat err)
      | _ =>
          built ← Engine.new rules;
          match built with
          | Ok engine => Some (engine, status (length rules) err)
          | Err message => e ← empty; Some (e, status (length rules) (Some message))
          end
      end
  end.

(** [read_and_process_files] and [parse_csv] on the files. *)
Definition parsed_tables (disk : Disk) : Directory := (fun bytes => parse_csv csv_rows deserialize (Ok bytes)) <$> disk.

Definition missing_variables (e : CalcEngine) (ports : list SerialPortConfig) : list string :=
  if is_empty e then []
  else let all_kks : gset string := list_to_set (device_points ports).*1 in
       filter (fun v => v ∉ all_kks) (required_base_variables e).

Inductive StartError :=
| BadHost (message : string)
| BadTables (e : LoadError)
| BadNames (message : string)
| BadTopology (e : TopologyError).

Record Started := {
  st_host : string;
  st_engine : CalcEngine;
  st_status : CalculationStatus;
  st_ports : list SerialPortConfig;
  st_missing : list string;
  st_manifest : TopologyManifest;
  st_space : AddressSpace * OpcuaNodes
}.

(** The configuration part of [main] and of [run_opcua_server]; [None] is a
    panic, as of [init_config().expect(..)]. *)
Definition start_up (disk : Disk) : option (result StartError Started) :=
  match init_config disk with
  | Err _ => None
  | Ok config =>
      match opcua_advertised_host socket_addr_host (ap_server config) with
      | Err e => Some (Err (BadHost e))
      | Ok host =>
          '(engine, status) ← start_calculation (ap_calculation_mode config) (disk !! "calc.toml");
          Some (
            ports ← map_err BadTables (load_and_group_csv_configs_from_dir (parsed_tables disk));
            _ ← map_err BadNames (validate_opcua_kks_namespace ports engine);
            manifest ← map_err BadTopology (Topology.build ports engine);
            space ← map_err BadNames (build_address_space ports engine (length ports));
            Ok {| st_host := host; st_engine := engine; st_status := status; st_ports := ports;
                  st_missing := missing_variables engine ports; st_manifest := manifest; st_space := space |})
      end
  end.
End Startup.

(** [config_set]: the files of the directory the console knows. *)
Definition config_set (disk : Disk) : gmap string string := filter (fun kv => allowed_config kv.1 = true) disk.

(** ** Identifiers *)

(** What [validate_identifier] lets through. *)
Definition identifier (s : string) : Prop := trim s <> "" /\ any_control s = false.

Lemma validate_identifier_ok s kind : identifier s -> validate_identifier s kind = Ok tt.
Proof. intros [H1 H2]. unfold validate_identifier. rewrite H2. by destruct (String.eqb_spec (trim s) ""). Qed.

Lemma elem_of_drop_while {A} (p : A -> bool) l x : x ∈ l -> p x = false -> x ∈ drop_while p l.
Proof. induction l as [|y l IH]; [done|]. intros [->|H]%elem_of_cons Hp; cbn [drop_while]; [rewrite Hp; set_solver|]. destruct (p y); set_solver. Qed.
Lemma drop_while_sub {A} (p : A -> bool) l x : x ∈ drop_while p l -> x ∈ l.
Proof. induction l as [|y l IH]; [done|]. cbn [drop_while]. destruct (p y); set_solver. Qed.

Lemma elem_of_rev {A} (l : list A) x : x ∈ rev l <-> x ∈ l.
Proof. by rewrite !list_elem_of_In, <- in_rev. Qed.

Lemma chars_text cs : chars (text cs) = cs.
Proof. apply list_ascii_of_string_of_list_ascii. Qed.
Lemma trim_sub s c : c ∈ chars (trim s) -> c ∈ chars s.
Proof. unfold trim. rewrite chars_text, elem_of_rev. intros H%drop_while_sub. by apply elem_of_rev, drop_while_sub in H. Qed.
Lemma trim_keeps s c : c ∈ chars s -> is_whitespace c = false -> c ∈ chars (trim s).
Proof. intros H Hw. unfold trim. rewrite chars_text, elem_of_rev. apply elem_of_drop_while; [|done]. by apply elem_of_rev, elem_of_drop_while. Qed.

Lemma text_nonempty s : s <> "" <-> chars s <> [].
Proof. by destruct s. Qed.

Lemma trim_first s : trim s <> "" -> exists c, c ∈ chars s /\ is_whitespace c = false.
Proof.
  rewrite text_nonempty. unfold trim. rewrite chars_text. generalize (chars s). induction l as [|c l IH]; [done|]. cbn [drop_while].
  destruct (is_whitespace c) eqn:E; intros H; [|exists c; split; [set_solver|done]].
  destruct IH as (c' & ? & ?); [done|]. exists c'. set_solver.
Qed.
Lemma trim_nonempty s c : c ∈ chars s -> is_whitespace c = false -> trim s <> "".
Proof. intros H Hw. apply text_nonempty. intros Hn. apply (trim_keeps s c) in H; [|done]. rewrite Hn in H. by apply elem_of_nil in H. Qed.

Lemma any_control_false s : any_control s = false <-> forall c, c ∈ chars s -> is_control c = false.
Proof.
  unfold any_control. rewrite <- not_true_iff_false, existsb_exists. setoid_rewrite <- list_elem_of_In. split.
  - intros H c Hc. apply not_true_is_false. eauto.
  - intros H (c & Hc & E). apply H in Hc. congruence.
Qed.

Lemma identifier_trim s : trim s <> "" -> any_control (trim s) = false -> identifier (trim s).
Proof.
  intros H Hc. split; [|done]. destruct (trim_first s H) as (c & Hin & Hw). by apply (trim_nonempty _ c); [apply trim_keeps|].
Qed.
Lemma identifier_app p s : any_control p = false -> identifier s -> identifier (p +:+ s).
Proof.
  intros Hp [Ht Hc]. destruct (trim_first s Ht) as (c & Hin & Hw). split.
  - apply (trim_nonempty _ c); [|done]. rewrite chars_app. set_solver.
  - rewrite any_control_false in *. intros c'. rewrite chars_app, elem_of_app. naive_solver.
Qed.

Lemma segments_sub cs cur seg c : seg ∈ Namespace.segments cs cur -> c ∈ seg -> c ∈ cs \/ c ∈ cur.
Proof.
  revert cur. induction cs as [|x cs IH]; intros cur; cbn [Namespace.segments].
  - intros ->%list_elem_of_singleton. by right.
  - destruct (_ || _).
    + intros [H| ->%list_elem_of_singleton]%elem_of_app Hc; [|by right]. destruct (IH [] H Hc); set_solver.
    + intros H Hc. destruct (IH _ H Hc); set_solver.
Qed.
Lemma stem_identifier port : any_control port = false -> trim (opc_port_stem port) <> "" -> identifier (opc_port_stem port).
Proof.
  intros Hc Ht. split; [done|]. unfold opc_port_stem in *. destruct (filter _ _) as [|seg l] eqn:E; [done|].
  rewrite any_control_false in *. intros c. rewrite chars_text. intros Hin.
  assert (Hs : seg ∈ seg :: l) by set_solver. rewrite <- E in Hs. apply list_elem_of_filter in Hs as [_ Hs].
  destruct (segments_sub _ _ _ _ Hs Hin) as [?|?%elem_of_nil]; [auto|done].
Qed.

(** ** When the manifest is built *)

Lemma add_points_ok o rs m :
  NoDup (rec_kks <$> rs) -> (forall k, k ∈ rec_kks <$> rs -> m !! k = None) -> Forall (fun r => identifier (rec_kks r)) rs ->
  exists m', add_points o rs m = Ok m'.
Proof.
  revert m. induction rs as [|r rs IH]; intros m Hnd Hf Hid; [by eexists|]. cbn [add_points fmap list_fmap] in *.
  apply NoDup_cons in Hnd as [Hr Hnd]. apply Forall_cons in Hid as [Hi Hid]. rewrite validate_identifier_ok by done. cbn [mbind result_bind].
  rewrite Hf by set_solver. apply IH; [done| |done]. intros k Hk. rewrite lookup_insert_ne by (intros <-; done). apply Hf. set_solver.
Qed.

Lemma add_devices_ok port ds devs owners :
  Forall (fun d => com (dc_config d) = port) ds -> NoDup ((fun d => device_id (dc_config d)) <$> ds) ->
  (forall d, d ∈ ds -> devs !! pretty (device_id (dc_config d)) = None) ->
  NoDup (owned_points port ds).*1 -> (forall k, k ∈ (owned_points port ds).*1 -> owners !! k = None) ->
  Forall (fun d => Forall (fun r => identifier (rec_kks r)) (dc_records d)) ds ->
  exists res, add_devices port ds devs owners = Ok res.
Proof.
  revert devs owners. induction ds as [|d ds IH]; intros devs owners Hcom Hid Hdev Hnd Hf Hr; [by eexists|]. cbn [add_devices].
  apply Forall_cons in Hcom as [Hc Hcom]. apply NoDup_cons in Hid as [Hd Hid]. apply Forall_cons in Hr as [Hr1 Hr].
  change (owned_points port (d :: ds)) with (((fun r => (rec_kks r, owner_of port d)) <$> dc_records d) ++ owned_points port ds) in *.
  rewrite fmap_app in Hnd. setoid_rewrite fmap_app in Hf.
  assert (Hl : ((fun r => (rec_kks r, owner_of port d)) <$> dc_records d).*1 = rec_kks <$> dc_records d) by (by rewrite <- list_fmap_compose).
  rewrite Hl in Hnd. setoid_rewrite Hl in Hf. apply NoDup_app in Hnd as (Hn1 & Hdis & Hn2).
  destruct (String.eqb_spec (com (dc_config d)) port) as [_|]; [|done]. cbn [negb]. rewrite (Hdev d) by set_solver.
  destruct (add_points_ok (owner_of port d) (dc_records d) owners) as [o1 Ho1]; [done|intros; apply Hf, elem_of_app; by left|done|].
  unfold owner_of in Ho1. rewrite Ho1. cbn [mbind result_bind]. apply add_points_spec in Ho1 as (_ & _ & Ho1).
  apply IH; try done.
  - intros d' Hd'. rewrite lookup_insert_ne by (intros H%(inj pretty); apply Hd; rewrite H; by apply (list_elem_of_fmap_2 (fun d => device_id (dc_config d)))).
    apply Hdev. set_solver.
  - intros k Hk. rewrite Ho1. rewrite decide_False by (intros H; by apply (Hdis k H)). apply Hf, elem_of_app. by right.
Qed.

Record port_buildable (p : SerialPortConfig) : Prop := {
  pb_name : identifier (sp_port_number p);
  pb_stem : identifier (opc_port_stem (sp_port_number p));
  pb_com : Forall (fun d => com (dc_config d) = sp_port_number p) (sp_devices p);
  pb_ids : NoDup ((fun d => device_id (dc_config d)) <$> sp_devices p);
  pb_points : Forall (fun d => Forall (fun r => identifier (rec_kks r)) (dc_records d)) (sp_devices p)
}.

Lemma add_ports_ok ps ports owners :
  Forall port_buildable ps -> NoDup (sp_port_number <$> ps) -> (forall p, p ∈ ps -> ports !! sp_port_number p = None) ->
  NoDup (all_owned ps).*1 -> (forall k, k ∈ (all_owned ps).*1 -> owners !! k = None) ->
  exists res, add_ports ps ports owners = Ok res.
Proof.
  revert ports owners. induction ps as [|p ps IH]; intros ports owners Hpb Hnames Hports Hnd Hf; [by eexists|]. cbn [add_ports].
  apply Forall_cons in Hpb as [[Hn Hs Hc Hi Hp] Hpb]. apply NoDup_cons in Hnames as [Hname Hnames].
  change (all_owned (p :: ps)) with (owned_points (sp_port_number p) (sp_devices p) ++ all_owned ps) in *.
  rewrite fmap_app in Hnd. setoid_rewrite fmap_app in Hf. apply NoDup_app in Hnd as (Hn1 & Hdis & Hn2).
  rewrite validate_identifier_ok by done. cbn [mbind result_bind]. rewrite (Hports p) by set_solver.
  rewrite validate_identifier_ok by done. cbn [mbind result_bind].
  destruct (add_devices_ok (sp_port_number p) (sp_devices p) ∅ owners) as [[devs o1] Hd]; [exact Hc|exact Hi|intros; apply lookup_empty|exact Hn1|intros; apply Hf, elem_of_app; by left|exact Hp|].
  rewrite Hd. cbn [mbind result_bind]. apply add_devices_spec in Hd as (_ & _ & _ & _ & Ho1). apply IH; try done.
  - intros q Hq. rewrite lookup_insert_ne by (intros H; apply Hname; rewrite H; by apply list_elem_of_fmap_2). apply Hports. set_solver.
  - intros k Hk. rewrite Ho1. destruct (owner_map (owned_points (sp_port_number p) (sp_devices p)) !! k) as [o|] eqn:E; [|apply Hf, elem_of_app; by right].
    apply elem_of_list_to_map_2, (list_elem_of_fmap_2 fst) in E. by destruct (Hdis k E).
Qed.

Lemma add_calculations_ok owners outs resolved calcs :
  NoDup outs.*1 -> Forall identifier outs.*1 -> (forall k, k ∈ outs.*1 -> owners !! k = None /\ calcs !! k = None) ->
  exists res, add_calculations owners outs resolved calcs = Ok res.
Proof.
  revert resolved calcs. induction outs as [|[k deps] outs IH]; intros resolved calcs Hnd Hid Hf; [by eexists|]. cbn [add_calculations].
  cbn [fmap list_fmap fst] in *. apply NoDup_cons in Hnd as [Hk Hnd]. apply Forall_cons in Hid as [Hi Hid].
  rewrite validate_identifier_ok by done. cbn [mbind result_bind]. destruct (Hf k) as [-> ->]; [set_solver|]. cbn.
  destruct (foldl _ _ _) as [found known]. apply IH; [done|done|]. intros k' Hk'. destruct (Hf k') as [? ?]; [set_solver|].
  split; [done|]. by rewrite lookup_insert_ne by (intros <-; done).
Qed.

Lemma manifest_built ports e :
  Forall port_buildable ports -> NoDup (sp_port_number <$> ports) -> NoDup ((device_points ports).*1 ++ output_names e) ->
  Forall identifier (output_names e) -> exists m, Topology.build ports e = Ok m.
Proof.
  intros Hp Hn Hnd Hid. apply NoDup_app in Hnd as (Hd & Hdis & Ho). rewrite <- owned_keys in Hd.
  unfold Topology.build. destruct (add_ports_ok ports ∅ ∅) as [[tps owners] Hadd]; [exact Hp|exact Hn|intros; apply lookup_empty|exact Hd|intros; apply lookup_empty|]. rewrite Hadd. cbn [mbind result_bind].
  apply add_ports_spec in Hadd as (_ & _ & _ & Howners).
  assert (Hout : (output_dependencies e).*1 = output_names e) by (unfold output_dependencies, output_names; by rewrite <- list_fmap_compose).
  destruct (add_calculations_ok owners (output_dependencies e) ∅ ∅) as [calcs ->]; [by rewrite Hout..| |by eexists].
  rewrite Hout. intros k Hk. split; [|done]. rewrite Howners. destruct (owner_map (all_owned ports) !! k) as [o|] eqn:E; [|done].
  apply elem_of_list_to_map_2, (list_elem_of_fmap_2 fst) in E. exfalso. apply (Hdis k); [|done]. by rewrite <- owned_keys.
Qed.

(** ** The tables of an accepted set load *)

Section Tables.
Context (csv_rows : string -> list (result string (list string))) (deserialize : list string -> result string Record_).

Lemma validate_config_names hs config :
  validate_config hs = Ok config -> identifier (com config) /\ any_control (kks_prefix config) = false.
Proof.
  unfold validate_config. destruct (_ || _) eqn:E; [done|]. apply orb_false_iff in E as [E Ec]. apply String.eqb_neq in E.
  destruct (any_control (header hs 6)) eqn:Ep; [done|]. intros H. inv_result. case_match; [done|]. inv_result. cbn.
  split; [by apply identifier_trim|done].
Qed.

Lemma validate_point_name config names n row r :
  any_control (kks_prefix config) = false -> validate_point deserialize config names n row = Ok r -> identifier (rec_kks r).
Proof.
  intros Hp. unfold validate_point. intros H. inv_result. destruct (_ || _) eqn:E; [done|]. apply orb_false_iff in E as [E Ec].
  apply String.eqb_neq in E. do 3 (case_match; [done|]). inv_result. cbn. by apply identifier_app.
Qed.

Lemma validate_points_names lenient config names n rows rs :
  any_control (kks_prefix config) = false -> (validate_points deserialize lenient config names n rows).2 = Ok rs ->
  Forall (fun r => identifier (rec_kks r)) rs.
Proof.
  intros Hp. revert names n rs. induction rows as [|row rows IH]; intros names n rs H; cbn [validate_points] in H; [injection H as <-; constructor|].
  destruct (validate_point deserialize config names (n + 9) row) as [r|e] eqn:Ep; [|done].
  destruct (validate_points deserialize lenient config _ (S n) rows) as [ws res] eqn:E.
  assert (Hr : exists rs', res = Ok rs' /\ rs = r :: rs').
  { destruct (record_bounds_error r _), lenient; cbn in H; inv_result; eauto. }
  destruct Hr as (rs' & -> & ->). constructor; [by eapply validate_point_name|].
  eapply (IH ({[rec_kks r]} ∪ names) (S n)). by rewrite E.
Qed.

Definition table_identifiers (d : DeviceConfig) : Prop :=
  identifier (com (dc_config d)) /\ Forall (fun r => identifier (rec_kks r)) (dc_records d).

Lemma accepted_parses name content d :
  accepted csv_rows deserialize (name, content) d -> csv_rows (strip_bom content) = csv_rows content ->
  parse_csv csv_rows deserialize (Ok content) = Ok (dc_config d, dc_records d) /\ table_identifiers d.
Proof.
  intros (ws & H) Hbom. unfold validate_csv_content_with_point_warnings, validate_csv_content_inner in H. cbn [snd] in H. rewrite Hbom in H.
  destruct (validate_head (csv_rows content)) as [[config rows]|e] eqn:Eh; [|done].
  destruct (validate_points deserialize true config ∅ 0 rows) as [ws' res] eqn:Ev. destruct res as [rs|e]; [|done].
  injection H as -> Hcfg Hrs. subst config rs. assert (Hp : (validate_points deserialize true (dc_config d) ∅ 0 rows).2 = Ok (dc_records d)) by (by rewrite Ev).
  destruct (validate_head_parse _ _ _ Eh) as (hs & row & Hr & Hc). split.
  - unfold parse_csv. cbn [map_err mbind result_bind]. rewrite Hr. cbn [mbind result_bind]. rewrite Hc. cbn [mbind result_bind tail].
    by rewrite (validate_points_parse _ _ _ _ _ _ _ Hp).
  - unfold validate_head in Eh. apply bind_Ok in Eh as ([hs' rows'] & _ & Eh). apply bind_Ok in Eh as (c & Hc' & Eh).
    assert (c = dc_config d) as ->. { destruct rows'; [done|]. inv_result. by case_match; simplify_eq. }
    apply validate_config_names in Hc' as [Hcom Hpre]. split; [done|]. by eapply validate_points_names.
Qed.
End Tables.

(** Tables of one port have the same settings. *)
Definition consistent (ts : list DeviceConfig) : Prop :=
  forall d d', d ∈ ts -> d' ∈ ts -> com (dc_config d) = com (dc_config d') ->
    baud_rate (dc_config d) = baud_rate (dc_config d') /\ is_special (dc_config d) = is_special (dc_config d').

Lemma load_tables_ok dir files pre ts configs :
  Forall2 (fun f d => dir !! f = Some (Ok (dc_config d, dc_records d))) files ts -> consistent (pre ++ ts) -> loaded pre configs ->
  exists configs', load_tables dir files configs = Ok configs'.
Proof.
  revert pre ts configs. induction files as [|f files IH]; intros pre ts configs Hf Hc Hl; [by eexists|]. cbn [load_tables].
  inversion Hf as [|? d ? ts' Hd Hf']; subst. rewrite Hd.
  assert (Hload : exists configs1, load_table configs f (Ok (dc_config d, dc_records d)) = Ok configs1).
  { unfold load_table. cbn [map_err mbind result_bind].
    assert (Hport : sp_baud_rate (default (from_csv_config (dc_config d)) (configs !! com (dc_config d))) = baud_rate (dc_config d) /\
                    sp_is_special (default (from_csv_config (dc_config d)) (configs !! com (dc_config d))) = is_special (dc_config d)).
    { destruct (configs !! com (dc_config d)) as [p|] eqn:E; [|done]. cbn. destruct (ld_port _ _ Hl _ _ E) as [Hn (Hds & Hne & _ & Hall)].
      destruct (sp_devices p) as [|d' ds] eqn:Ed; [done|]. apply Forall_cons in Hall as [[<- <-] _].
      assert (Hd' : d' ∈ d' :: ds) by set_solver. rewrite Hds in Hd'. apply list_elem_of_filter in Hd' as [Hcom Hin].
      apply (Hc d' d); [set_solver|set_solver|congruence]. }
    destruct Hport as [-> ->]. rewrite Z.eqb_refl, eqb_reflx. by eexists. }
  destruct Hload as [configs1 H1]. rewrite H1. cbn [mbind result_bind].
  destruct (load_table_loaded _ _ _ _ _ H1 Hl) as (d' & [= Hcfg Hrec] & Hl1).
  assert (d' = d) as -> by (destruct d, d'; cbn in *; congruence).
  eapply (IH (pre ++ [d])); [done| |done]. by rewrite <- app_assoc.
Qed.

(** Tables sorted into classes are all the tables. *)
Lemma classes_perm {A} (key : A -> string) (ks : list string) (l : list A) :
  NoDup ks -> (forall x, x ∈ l -> key x ∈ ks) -> (ks ≫= fun k => filter (fun x => key x = k) l) ≡ₚ l.
Proof.
  revert l. induction ks as [|k ks IH]; intros l Hnd Hin.
  - destruct l as [|x l]; [done|]. by destruct (not_elem_of_nil (key x)); apply Hin; set_solver.
  - apply NoDup_cons in Hnd as [Hk Hnd]. cbn [mbind list_bind].
    transitivity (filter (fun x => key x = k) l ++ filter (fun x => ~ key x = k) l); [apply Permutation_app_head|apply filter_app_complement].
    rewrite <- (IH (filter (fun x => ~ key x = k) l)); [|done|].
    + match goal with |- ?a ≡ₚ ?b => enough (a = b) as -> by done end. clear -Hk. induction ks as [|k' ks IH]; [done|]. cbn [mbind list_bind]. f_equal; [|apply IH; set_solver].
      rewrite list_filter_filter. apply list_filter_iff. intros x. split; [|tauto]. intros <-. split; [done|]. set_solver.
    + intros x [Hne Hx]%list_elem_of_filter. apply Hin in Hx. set_solver.
Qed.

(** ** The ports of accepted tables *)

(** The grouping of [load_and_group_csv_configs_from_dir]. *)
Record grouped (ts : list DeviceConfig) (ports : list SerialPortConfig) : Prop := {
  gr_names : NoDup (sp_port_number <$> ports);
  gr_ports : Forall (port_of ts) ports;
  gr_all : forall d, d ∈ ts -> com (dc_config d) ∈ sp_port_number <$> ports
}.

Lemma append_assoc (a b c : string) : (a +:+ b) +:+ c = a +:+ (b +:+ c).
Proof. induction a as [|x a IH]; [done|]. change (String x ((a +:+ b) +:+ c) = String x (a +:+ (b +:+ c))). by rewrite IH. Qed.

Section Grouped.
Context (ts : list DeviceConfig) (ports : list SerialPortConfig).
Hypothesis Hg : grouped ts ports.

Lemma grouped_devices : (ports ≫= sp_devices) ≡ₚ ts.
Proof.
  destruct Hg as [Hn Hp Ha]. etransitivity; [|exact (classes_perm (fun d => com (dc_config d)) (sp_port_number <$> ports) ts Hn Ha)].
  match goal with |- ?a ≡ₚ ?b => enough (a = b) as -> by done end.
  clear Hn Ha Hg. induction Hp as [|p ps [Hd _] _ IH]; [done|]. rewrite fmap_cons, !bind_cons, IH. apply (f_equal2 app); [exact Hd|done].
Qed.

Lemma grouped_points : (device_points ports).*1 ≡ₚ kks_of ts.
Proof.
  unfold kks_of. rewrite <- grouped_devices. match goal with |- ?a ≡ₚ ?b => enough (a = b) as -> by done end.
  unfold device_points. clear Hg. induction ports as [|p ps IH]; [done|]. cbn [mbind list_bind]. rewrite fmap_app, IH, bind_app. f_equal.
  clear. induction (sp_devices p) as [|d ds IH]; [done|]. cbn [mbind list_bind]. rewrite fmap_app, IH. f_equal. by rewrite <- list_fmap_compose.
Qed.

Lemma grouped_com p : p ∈ ports -> exists d, d ∈ ts /\ com (dc_config d) = sp_port_number p.
Proof.
  intros Hp. destruct Hg as [_ Hps _]. rewrite Forall_forall in Hps. destruct (Hps p Hp) as (Hd & Hne & _).
  destruct (sp_devices p) as [|d ds]; [done|]. assert (Hin : d ∈ d :: ds) by set_solver. rewrite Hd in Hin.
  apply list_elem_of_filter in Hin as [? ?]. eauto.
Qed.

Lemma NoDup_filter_fmap {A B} (f : A -> B) (P : A -> Prop) `{forall x, Decision (P x)} (l : list A) :
  NoDup (f <$> l) -> NoDup (f <$> filter P l).
Proof.
  induction l as [|x l IH]; [done|]. cbn [fmap list_fmap]. intros [Hx Hl]%NoDup_cons. rewrite filter_cons. case_decide; [|auto].
  cbn [fmap list_fmap]. apply NoDup_cons. split; [|auto]. intros (y & Heq & [_ Hy]%list_elem_of_filter)%list_elem_of_fmap.
  apply Hx. rewrite Heq. by apply list_elem_of_fmap_2.
Qed.

Lemma grouped_buildable :
  NoDup (address_of <$> ts) -> Forall table_identifiers ts ->
  Forall (fun p => trim (opc_port_stem (sp_port_number p)) <> "") ports -> Forall port_buildable ports.
Proof.
  intros Hadr Hid Hstem. rewrite !Forall_forall in *. intros p Hp. destruct (grouped_com p Hp) as (d & Hd & Hcom).
  pose proof (gr_ports _ _ Hg) as Hps. rewrite Forall_forall in Hps. destruct (Hps p Hp) as (Hds & _).
  assert (Hname : identifier (sp_port_number p)) by (rewrite <- Hcom; apply (Hid d Hd)).
  assert (Hsub : forall x, x ∈ sp_devices p -> com (dc_config x) = sp_port_number p /\ x ∈ ts) by (intros x; by rewrite Hds, list_elem_of_filter).
  split; [done|apply stem_identifier; [apply Hname|by apply Hstem]|..].
  - apply Forall_forall. intros x Hx. by apply Hsub.
  - apply (NoDup_fmap_1 (fun i => (sp_port_number p, i))). rewrite <- list_fmap_compose.
    assert (Heq : (fun i => (sp_port_number p, i)) ∘ (fun d => device_id (dc_config d)) <$> sp_devices p = address_of <$> sp_devices p).
    { apply list_fmap_ext. intros i x Hx. apply list_elem_of_lookup_2, Hsub in Hx as [<- _]. done. }
    rewrite Heq, Hds. by apply NoDup_filter_fmap.
  - apply Forall_forall. intros x Hx. apply Hsub in Hx as [_ Hx]. apply (Hid x Hx).
Qed.

(** The names of the nodes of the ports, when the names of more ports are
    all different. *)
Lemma grouped_reserved keys :
  NoDup (reserved_names keys) -> (forall p, p ∈ ports -> sp_port_number p ∈ keys) ->
  NoDup ((send_nodes ports).*1 ++ (planned_infrastructure_nodes ports).*1) /\
  forall k, k ∈ (send_nodes ports).*1 ++ (planned_infrastructure_nodes ports).*1 -> k ∈ reserved_names keys.
Proof.
  intros Hnd Hsub.
  assert (Hperm : (send_nodes ports).*1 ++ (planned_infrastructure_nodes ports).*1 ≡ₚ reserved_names (sp_port_number <$> ports)).
  { unfold send_nodes, planned_infrastructure_nodes, reserved_names. rewrite fmap_app, <- list_fmap_compose.
    rewrite (Permutation_app_comm _ (["Devices"; "Methods"] ++ _)), <- app_assoc. apply Permutation_app_head. clear.
    induction ports as [|p ps IH]; [done|]. cbn [mbind list_bind fmap list_fmap]. rewrite fmap_app. cbn [fmap list_fmap].
    rewrite <- IH. cbn [fmap list_fmap fst compose app]. unfold port_nodes, port_suffixes, opc_send_node_name, opc_send_method_name.
    cbn [fmap list_fmap app]. rewrite !append_assoc. solve_Permutation. }
  destruct (submseteq_Permutation (sp_port_number <$> ports) keys) as [rest Hrest].
  { apply NoDup_submseteq; [apply Hg|]. intros k (p & -> & Hp)%list_elem_of_fmap. auto. }
  assert (Hall : reserved_names keys ≡ₚ reserved_names (sp_port_number <$> ports) ++ (rest ≫= port_nodes)).
  { unfold reserved_names. rewrite <- app_assoc, <- bind_app. apply Permutation_app_head. by rewrite Hrest. }
  rewrite Hall in Hnd. apply NoDup_app in Hnd as (Hnd & _). split; [by rewrite Hperm|]. intros k. rewrite Hperm, Hall. set_solver.
Qed.
End Grouped.

(** ** The names of device tables *)

Lemma rcd_csv_length name : String.prefix "rcd" name = true -> ends_with ".csv" name = true -> (7 <= String.length name)%nat.
Proof.
  intros Hp He. unfold ends_with in He. apply bool_decide_eq_true in He. apply prefix_correct in Hp.
  destruct name as [|a [|b [|c s]]]; cbn [substring String.length] in Hp; [discriminate Hp..|]. injection Hp as -> -> -> _.
  destruct s as [|d1 [|d2 [|d3 [|d4 s]]]]; cbn in He; try discriminate He. cbn. lia.
Qed.

Lemma allowed_table name : allowed_config name = true -> ends_with ".csv" name = true -> is_device_table name = true.
Proof.
  unfold allowed_config. intros [Hs H]%andb_true_iff He. rewrite !orb_true_iff in H. destruct H as [[H|H]|H].
  1, 2: apply String.eqb_eq in H as ->; by vm_compute in He.
  apply andb_true_iff in H as [Hp _]. unfold is_device_table. rewrite Hp, He.
  rewrite (proj2 (Nat.leb_le _ _) (rcd_csv_length _ Hp He)). cbn [andb]. apply negb_true_iff, not_true_is_false.
  intros (c & Hc & Hn)%existsb_exists. unfold LogFiles.safe_name in Hs. apply andb_true_iff in Hs as [_ Hs].
  apply negb_true_iff, not_true_iff_false in Hs. apply Hs, existsb_exists. exists c. split; [done|].
  apply Z.eqb_eq in Hn. unfold is_control. by rewrite Hn.
Qed.

Lemma table_is_csv name : is_device_table name = true -> ends_with ".csv" name = true.
Proof. unfold is_device_table. rewrite !andb_true_iff. tauto. Qed.

(** ** An accepted set starts *)

Section Start.
Context (csv_rows : string -> list (result string (list string))) (deserialize : list string -> result string Record_).
Context (socket_addr_host : string -> option string) (log_specification : string -> result string ()).
Context (toml_config : string -> result string Application) (toml_value : string -> result string TomlValue).
Context (toml_calc : string -> result string (list CalcRule)).
Context (show_table_error : ValidateError -> string) (show_lex_error : TokenizeError -> string) (show_parse_error : ParseError -> string).
Context (debug digest utf8_error : string -> string).

(** The engine of accepted rules, or the empty one. *)
Record engine_fits (owners reserved : gmap string string) (e : CalcEngine) : Prop := {
  ef_new : exists rules, Engine.new rules = Some (Ok e);
  ef_once : NoDup (output_names e);
  ef_ids : Forall identifier (output_names e);
  ef_free : forall k, k ∈ output_names e -> owners !! k = None /\ reserved !! k = None;
  ef_known : forall r x, r ∈ e -> x ∈ variables r -> x ∈ output_names e \/ is_Some (owners !! x)
}.

Lemma empty_engine_fits owners reserved : engine_fits owners reserved [].
Proof.
  split; cbn; [by exists []|constructor|constructor|by intros k ?%elem_of_nil|by intros r x ?%elem_of_nil].
Qed.

Lemma accepted_engine_fits owners reserved rules :
  rules_accepted owners reserved rules ->
  exists e, Engine.new rules = Some (Ok e) /\ length e = length rules /\ engine_fits owners reserved e.
Proof.
  intros Hra. destruct (accepted_engine owners reserved rules Hra) as (e & He & Hout & Hk). exists e.
  pose proof (ra_names _ _ _ Hra) as [Hu Ho Hf]. rewrite Forall_forall in Hu, Hf. split_and!; [done| |split; [by exists rules|..|done]].
  - apply Permutation_length in Hout. unfold output_names in Hout. by rewrite !length_fmap in Hout.
  - by rewrite Hout.
  - rewrite Hout. apply Forall_fmap, Forall_forall. intros r Hr. by apply Hu.
  - intros k. rewrite Hout. intros (r & -> & Hr)%list_elem_of_fmap. by apply Hf.
Qed.

Lemma calculation_starts owners reserved mode file :
  (forall bytes, mode = Local -> file = Some bytes ->
     utf8_text bytes = Some bytes /\ exists rules, toml_calc bytes = Ok rules /\ rules_accepted owners reserved rules) ->
  exists e status, start_calculation toml_calc digest utf8_error mode file = Some (e, status) /\ engine_fits owners reserved e /\
    (mode = Local -> config_error status = None /\ rule_count status = length e).
Proof.
  intros Hfile. unfold start_calculation. destruct (inspect_calc_backup digest utf8_error file) as [[hash n] err].
  destruct mode.
  - assert (Hrules : exists rules, load_calc_config toml_calc file = Ok rules /\
              (rules = [] \/ rules_accepted owners reserved rules)).
    { destruct file as [bytes|]; cbn; [|eauto]. destruct (Hfile bytes eq_refl eq_refl) as (Hu & rules & Hr & Hra).
      unfold read_to_string. rewrite Hu. cbn. rewrite Hr. cbn. eauto. }
    destruct Hrules as (rules & -> & Hr). destruct rules as [|r rules].
    + eexists _, _. split; [done|]. split; [apply empty_engine_fits|done].
    + destruct Hr as [?|Hr]; [done|]. destruct (accepted_engine_fits _ _ _ Hr) as (e & -> & Hlen & Hfit).
      eexists _, _. split; [done|]. split; [done|]. by rewrite Hlen.
  - eexists _, _. split; [done|]. split; [apply empty_engine_fits|done].
Qed.

Definition BOM : string := String (ascii_of_nat 0xEF) (String (ascii_of_nat 0xBB) (String (ascii_of_nat 0xBF) EmptyString)).

(** The [csv] crate skips a byte-order mark at the start of the text. *)
Context (csv_bom : forall content, strip_bom content = content -> csv_rows (BOM +:+ content) = csv_rows content).

(** Every device table is a file the console knows, and none starts with more
    than one byte-order mark. *)
Definition plain_tables (disk : Disk) : Prop :=
  forall name bytes, disk !! name = Some bytes -> is_device_table name = true ->
    allowed_config name = true /\ exists content, strip_bom content = content /\ (bytes = content \/ bytes = BOM +:+ content).

Lemma plain_rows content bytes :
  strip_bom content = content -> bytes = content \/ bytes = BOM +:+ content -> csv_rows (strip_bom bytes) = csv_rows bytes.
Proof.
  intros Hs [->| ->]; [by rewrite Hs|]. change (strip_bom (BOM +:+ content)) with (strip_bom content).
  by rewrite Hs, csv_bom.
Qed.

Lemma config_set_lookup disk k c : config_set disk !! k = Some c <-> disk !! k = Some c /\ allowed_config k = true.
Proof. unfold config_set. by rewrite map_lookup_filter_Some. Qed.

Lemma table_not_skipped manager name : ends_with ".csv" name = true -> skipped_file manager name = false.
Proof.
  intros He. unfold skipped_file. destruct (String.eqb_spec name "calc.toml") as [->|]; [by vm_compute in He|]. apply andb_false_r.
Qed.

(** The loop of the validation and the start-up read the same tables. *)
Lemma same_tables disk texts ts :
  plain_tables disk -> set_texts toml_config (config_set disk) texts ->
  Forall2 (accepted csv_rows deserialize) (filter (fun f => ends_with ".csv" f.1 = true) (btree_iter texts)) ts ->
  exists ts', ts' ≡ₚ ts /\ Forall table_identifiers ts' /\
    Forall2 (fun f d => parsed_tables csv_rows deserialize disk !! f = Some (Ok (dc_config d, dc_records d)))
      (sort_strings (read_and_process_files (parsed_tables csv_rows deserialize disk))) ts'.
Proof.
  intros Hplain [Htexts _] Hts. set (F2 := filter _ (btree_iter texts)) in Hts. set (dir := parsed_tables csv_rows deserialize disk).
  assert (HF2 : forall f c, (f, c) ∈ F2 <-> disk !! f = Some c /\ is_device_table f = true).
  { intros f c. unfold F2. rewrite list_elem_of_filter, elem_of_btree_iter, Htexts, config_set_lookup. cbn [fst]. split.
    - intros (He & (Hd & Ha) & _). split; [done|by apply allowed_table].
    - intros [Hd Hi]. pose proof (table_is_csv _ Hi) as He. split_and!; [done|done|by eapply Hplain|by apply table_not_skipped]. }
  assert (Hok : Forall2 (fun f d => dir !! f.1 = Some (Ok (dc_config d, dc_records d)) /\ table_identifiers d) F2 ts).
  { clear Htexts. assert (Hin : forall f c, (f, c) ∈ F2 -> disk !! f = Some c /\ is_device_table f = true) by (intros; by apply HF2). clear HF2.
    induction Hts as [|[f c] d l ds Hd _ IH]; [constructor|]. destruct (Hin f c) as [Hf Hi]; [set_solver|].
    destruct (accepted_parses _ _ _ _ _ Hd) as [Hp Hid]; [destruct (Hplain f c Hf Hi) as (_ & t & Ht & Hc); by eapply plain_rows|].
    constructor; [|apply IH; intros; apply Hin; set_solver].
    split; [|done]. unfold dir, parsed_tables. cbn [fst]. by rewrite lookup_fmap, Hf, <- Hp. }
  assert (Hperm : F2.*1 ≡ₚ sort_strings (read_and_process_files dir)).
  { rewrite sort_strings_perm. apply NoDup_Permutation.
    - apply NoDup_filter_fmap, NoDup_btree_keys.
    - apply NoDup_filter, NoDup_fst_map_to_list.
    - intros f. unfold read_and_process_files. rewrite list_elem_of_filter, elem_of_keys. unfold dir, parsed_tables. rewrite lookup_fmap, fmap_is_Some.
      rewrite list_elem_of_fmap. split; [intros ([f' c] & -> & [? ?]%HF2); split; [done|by eexists]|].
      intros [Hi [c Hc]]. exists (f, c). split; [done|]. by apply HF2. }
  assert (Hok1 : Forall2 (fun f d => dir !! f = Some (Ok (dc_config d, dc_records d)) /\ table_identifiers d) F2.*1 ts)
    by (by apply Forall2_fmap_l).
  destruct (Permutation_Forall2 Hperm Hok1) as (ts' & Hp & Hall). exists ts'. split; [done|]. split.
  - clear -Hall. induction Hall as [|f d l ds [_ Hd] _ IH]; by constructor.
  - eapply Forall2_impl; [exact Hall|]. by intros f d [? _].
Qed.

Lemma accepted_starts disk :
  plain_tables disk -> set_accepted csv_rows deserialize socket_addr_host log_specification toml_config toml_calc (config_set disk) ->
  exists s, start_up csv_rows deserialize socket_addr_host toml_config toml_calc digest utf8_error disk = Some (Ok s) /\
    st_missing s = [] /\
    (manager_calculation toml_config (config_set disk) = false ->
       config_error (st_status s) = None /\ rule_count (st_status s) = length (st_engine s)).
Proof.
  intros Hplain [(c & app & Hc & Hu & Happ & Hset) (texts & tables & ts & reserved & Htexts & Hts & Hok & Hstem & Hnd & Hres & Hpts & Hcalc)].
  assert (Hmode : manager_calculation toml_config (config_set disk) = match ap_calculation_mode app with Manager => true | Local => false end).
  { unfold manager_calculation. rewrite Hc. cbn. by rewrite Hu, Happ. }
  destruct (calculation_starts (tb_owners tables) reserved (ap_calculation_mode app) (disk !! "calc.toml")) as (e & status & Hstart & Hfit & Hstat).
  { intros bytes Hl Hb. rewrite Hl in Hmode. destruct Htexts as [Ht Hutf].
    assert (Hf : config_set disk !! "calc.toml" = Some bytes) by (by apply config_set_lookup).
    split; [eapply Hutf; [exact Hf|by rewrite Hmode]|]. apply Hcalc, Ht. split; [exact Hf|by rewrite Hmode]. }
  destruct (same_tables disk texts ts Hplain Htexts Hts) as (ts' & Hperm & Hids & Hdir).
  assert (Hcons : consistent ts').
  { intros d d' Hd Hd' Heq. rewrite Hperm in Hd, Hd'. destruct (to_ports _ _ Hok d Hd) as [f Hf]. destruct (to_ports _ _ Hok d' Hd') as [f' Hf'].
    rewrite Heq, Hf' in Hf. by injection Hf as -> -> _. }
  assert (Hload : exists ports, load_and_group_csv_configs_from_dir (parsed_tables csv_rows deserialize disk) = Ok ports).
  { unfold load_and_group_csv_configs_from_dir. destruct (load_tables_ok _ _ [] ts' ∅ Hdir Hcons) as [configs ->]; [|by eexists].
    split; [by intros ? ? ?|by intros ? ?%elem_of_nil]. }
  destruct Hload as [ports Hports]. destruct (tables_grouped_spec _ _ Hports) as (ts2 & Hts2 & _ & Hnames & Hpo & Hall).
  assert (ts2 = ts') as ->.
  { clear -Hts2 Hdir. revert Hdir. generalize ts'. induction Hts2 as [|f d l ds Hd _ IH]; intros ts3 H3; inversion H3; subst; [done|].
    f_equal; [|by apply IH]. destruct d, y; cbn in *; congruence. }
  assert (Hg : grouped ts' ports) by done. pose proof (grouped_points _ _ Hg) as Hkks.
  assert (Hkks2 : (device_points ports).*1 ≡ₚ kks_of ts) by (rewrite Hkks; unfold kks_of; by rewrite Hperm).
  assert (Hkey : forall p, p ∈ ports -> sp_port_number p ∈ (btree_iter (tb_ports tables)).*1).
  { intros p Hp. destruct (grouped_com _ _ Hg p Hp) as (d & Hd & <-). rewrite Hperm in Hd. apply elem_of_btree_keys.
    destruct (to_ports _ _ Hok d Hd) as [f ->]. by eexists. }
  destruct (grouped_reserved _ _ Hg _ Hnd Hkey) as [Hnd2 Hsub]. destruct Hfit as [[rules Hnew] Honce Hid Hfree Hknown].
  assert (Hnodes : NoDup (node_names ports e)).
  { unfold node_names. rewrite Hkks2. apply NoDup_app. split_and!; [apply Hok| |apply NoDup_app; split_and!; [done| |done]].
    - intros k Hk [H|H]%elem_of_app.
      + apply Hfree in H as [H _]. apply (to_owners _ _ Hok) in Hk as [? ?]. congruence.
      + apply Hsub, Hres in H as [? ?]. apply Hpts in Hk. congruence.
    - intros k Hk H. apply Hsub, Hres in H as [? ?]. apply Hfree in Hk as [_ ?]. congruence. }
  assert (Hval : validate_opcua_kks_namespace ports e = Ok tt) by (by eapply validated_names).
  destruct (address_space_spec rules ports e Hnew) as [[_ Hspace] _]. specialize (Hspace Hnodes).
  destruct (build_address_space ports e (length ports)) as [space|] eqn:Espace; [|done].
  destruct (manifest_built ports e) as [m Hm]; [|done| |done|].
  { apply (grouped_buildable _ _ Hg); [rewrite Hperm; apply Hok|done|]. rewrite Forall_forall in Hstem. apply Forall_forall. auto. }
  { unfold node_names in Hnodes. rewrite app_assoc in Hnodes. by apply NoDup_app in Hnodes as [? _]. }
  unfold start_up, init_config. apply config_set_lookup in Hc as [Hc _]. rewrite Hc. cbn [ok_or mbind result_bind]. unfold read_to_string. rewrite Hu.
  cbn [ok_or mbind result_bind]. rewrite Happ. destruct (so_host _ _ _ Hset) as [host ->]. rewrite Hstart. cbn [mbind option_bind].
  rewrite Hports. cbn [map_err mbind result_bind]. rewrite Hval. cbn [map_err mbind result_bind]. rewrite Hm. cbn [map_err mbind result_bind].
  rewrite Espace. cbn [map_err mbind result_bind]. eexists. split; [done|]. cbn [st_missing st_status st_engine]. split.
  - unfold missing_variables. destruct (is_empty e); [done|]. apply filter_nil_iff. intros x Hx Hnot. unfold required_base_variables in Hx.
    rewrite elem_of_dedup, elem_of_sort_strings in Hx. apply list_elem_of_filter in Hx as [Ho (r & Hx & Hr)%list_elem_of_bind].
    rewrite elem_of_list_to_set in Ho, Hnot. destruct (Hknown r x Hr Hx) as [?|Hown]; [done|]. apply Hnot. rewrite Hkks2. by apply Hok.
  - rewrite Hmode. intros Hl. apply Hstat. by destruct (ap_calculation_mode app).
Qed.

(** C15: what the console accepts, the process starts with.  Validation never
    panics.  If it reports no error for the files of the directory, and every
    device table there has a name the console knows and at most one byte-order
    mark, then start-up succeeds on that directory: the settings load and give an address
    to advertise, the tables load and agree on their ports, all names in OPC UA
    are different, the manifest and the address space are built; no formula
    reads a variable that no table and no formula defines; and in local mode no
    rule is lost: the engine holds as many rules as the file, with no
    configuration error. *)
Theorem accepted_set_starts disk :
  plain_tables disk ->
  exists v, validate_set csv_rows deserialize socket_addr_host log_specification toml_config toml_value toml_calc
              show_table_error show_lex_error show_parse_error debug (config_set disk) = Some v /\
    (errors v = [] ->
     exists s, start_up csv_rows deserialize socket_addr_host toml_config toml_calc digest utf8_error disk = Some (Ok s) /\
       st_missing s = [] /\
       (manager_calculation toml_config (config_set disk) = false ->
          config_error (st_status s) = None /\ rule_count (st_status s) = length (st_engine s))).
Proof.
  intros Hplain. destruct (validate_set_total csv_rows deserialize socket_addr_host log_specification toml_config toml_value toml_calc
    show_table_error show_lex_error show_parse_error debug (config_set disk)) as (v & Hv & Hacc).
  exists v. split; [done|]. intros H. by apply accepted_starts, Hacc.
Qed.
End Start.

(** ** Witness *)

Definition sample_app : Application :=
  {| ap_server := {| primary_ip := "192.168.10.40:11001"; secondary_ip := "192.168.101.92:8080"; run_on := Primary; current_run := Primary |};
     ap_baud_rate := 28800; ap_timeout := 300; ap_poll_interval_ms := 100; ap_command_retry_count := 3; ap_query_retry_count := 1;
     ap_parity_switch_delay_ms := 5; ap_transmit_settle_guard_ms := 5;
     ap_logging := {| log_level := "info"; log_basename := "rcd"; log_rotate_age := "day"; log_write_mode := "direct";
                      log_duplicate_to_stderr := None; log_rotate_size_bytes := None |};
     ap_calculation_mode := Local |}.
Definition sample_rules : list CalcRule :=
  [make_rule "U1_double" "double" "U1_sum * 2" f64_zero; make_rule "U1_sum" "f64" "U1_temp + U1_run" f64_zero].
Definition sample_disk : Disk := <["config.toml" := "mode"]> (<["rcd1.csv" := BOM +:+ "table"]> {[ "calc.toml" := "rules" ]}).
Definition shown {A} (_ : A) : string := "?".
Definition toml_sample (_ : string) : result string TomlValue :=
  Ok (TomlTable [("rules", TomlArray [TomlTable [("kks_calc", TomlScalar); ("data_type", TomlScalar); ("expression", TomlScalar)]])]).

Lemma accepted_set_starts_witness :
  exists s, start_up demo_rows deserialize_by_position (fun _ => None) (fun _ => Ok sample_app) (fun _ => Ok sample_rules) shown shown sample_disk
            = Some (Ok s) /\ st_missing s = [] /\ rule_count (st_status s) = length (st_engine s).
Proof.
  destruct (accepted_set_starts demo_rows deserialize_by_position (fun _ => None) (fun _ => Ok tt) (fun _ => Ok sample_app) toml_sample
    (fun _ => Ok sample_rules) shown shown shown shown shown shown ltac:(done) sample_disk) as (v & Hv & H).
  - intros name bytes Hl Hi. unfold sample_disk in Hl. rewrite !lookup_insert_Some, lookup_singleton_Some in Hl.
    destruct Hl as [[<- <-]|[_ [[<- <-]|[_ [<- <-]]]]]; [by vm_compute in Hi| |by vm_compute in Hi].
    split; [vm_compute; reflexivity|]. exists "table". split; [reflexivity|by right].
  - assert (Hc : match validate_set demo_rows deserialize_by_position (fun _ => None) (fun _ => Ok tt) (fun _ => Ok sample_app) toml_sample
      (fun _ => Ok sample_rules) shown shown shown shown (config_set sample_disk) with Some v => errors v | None => ["panic"] end = [])
      by (vm_compute; reflexivity).
    rewrite Hv in Hc. destruct (H Hc) as (s & Hs & Hm & Hr). exists s. split; [exact Hs|]. split; [exact Hm|].
    apply Hr. vm_compute. reflexivity.
Defined.
