(* ===== verification/ConfigFiles.v ===== *)
(** * Configuration files of the console (src/src/operations/files.rs, the
      configuration part)

    Reading, validating and writing the configuration files: names, regular
    files, revisions, the write lock, backups, and the replacement of a file.
    Every file-system call is one operation on the disk; before each of them
    other programs may have edited the files ([edits]), and each of them may
    fail ([fails]).  SHA-256, the clock, the identities of new files and the
    texts of the system are parameters. *)

From S2P Require Import Prelude RustStr Utf8 Parser Maintenance LogFiles ConfigSet.
From Stdlib Require Import Sorted.
From S2P Require Namespace Startup.
Open Scope string_scope.
Open Scope Z_scope.
Open Scope list_scope.

Definition MAX_CONFIG_BYTES : Z := 2 * 1024 * 1024.
Definition MAX_BACKUPS : nat := 200.
Definition BACKUP_DIRECTORY : string := ".rcd-operations-backups".
Definition WRITE_LOCK : string := ".rcd-operations.lock".

(** ** The disk *)

Inductive FileKind := RegularFile | SymbolicLink | OtherFile.
#[export] Instance file_kind_eq_dec : EqDecision FileKind.
Proof. solve_decision. Defined.

(** A file with what its metadata show. *)
Record File := { fi_identity : string; fi_kind : FileKind; fi_links : Z; fi_modified : Z; fi_bytes : string }.

(** A path is a directory and a name in it; the configuration directory is
    the empty text.  A directory that is a link or a file is [false]. *)
Abbreviation Path := (string * string)%type (only parsing).
Abbreviation Files := (gmap (string * string) File).
Record Disk := { dk_files : Files; dk_dirs : gmap string bool }.

Inductive IoKind := NotFound | InvalidInput | InvalidData | AlreadyExists | WouldBlock | OtherIo.
#[export] Instance io_kind_eq_dec : EqDecision IoKind.
Proof. solve_decision. Defined.
Record IoError := { ie_kind : IoKind; ie_message : string }.

Definition io_error (e : IoError) : OperationError :=
  op_error (match ie_kind e with
            | NotFound => "not_found"
            | InvalidInput | InvalidData => "invalid_request"
            | _ => "io_error"
            end) (ie_message e).

(** The state of a call: the disk, the number of file-system calls so far,
    [FILE_COUNTER], and the disk before and after each call of this process. *)
Record World := { w_disk : Disk; w_calls : nat; w_counter : Z; w_trace : list (Disk * Disk) }.

(** What happens outside of the process. *)
Record Outside := {
  edits : nat -> Files -> Files;
  fails : nat -> option IoError;
  torn : nat -> string;
  locked : nat -> bool;
  clock : nat -> Z;
  new_identity : nat -> string
}.

(** A program with errors; the state is kept also when it fails. *)
Definition Prog (E A : Type) : Type := Outside -> World -> World * result E A.
#[export] Instance prog_ret {E} : MRet (Prog E) := fun A a _ w => (w, Ok a).
#[export] Instance prog_bind {E} : MBind (Prog E) := fun A B k m o w =>
  match m o w with (w', Ok a) => k a o w' | (w', Err e) => (w', Err e) end.

Definition fail {E A} (e : E) : Prog E A := fun _ w => (w, Err e).
Definition of_result {E A} (r : result E A) : Prog E A := fun _ w => (w, r).
Definition map_error {E F A} (f : E -> F) (m : Prog E A) : Prog F A := fun o w =>
  let '(w', r) := m o w in (w', map_err f r).
(** [.map_err(io_error)?]. *)
Definition io {A} (m : Prog IoError A) : Prog OperationError A := map_error io_error m.
(** The result of a program as a value. *)
Definition attempt {E A} (m : Prog E A) : Prog E (result E A) := fun o w => let '(w', r) := m o w in (w', Ok r).

Definition set_files (d : Disk) (files : Files) : Disk := {| dk_files := files; dk_dirs := dk_dirs d |}.

(** One file-system call: the edits of others come first; then it fails, or
    does [f] at once. *)
Definition syscall {A} (f : nat -> Disk -> result IoError (Disk * A)) : Prog IoError A := fun o w =>
  let n := w_calls w in
  let d := set_files (w_disk w) (edits o n (dk_files (w_disk w))) in
  let done d' := {| w_disk := d'; w_calls := S n; w_counter := w_counter w; w_trace := w_trace w ++ [(d, d')] |} in
  match fails o n with
  | Some e => (done d, Err e)
  | None => match f n d with Ok (d', a) => (done d', Ok a) | Err e => (done d, Err e) end
  end.

Definition missing : IoError := {| ie_kind := NotFound; ie_message := "No such file or directory (os error 2)" |}.
Definition exists_already : IoError := {| ie_kind := AlreadyExists; ie_message := "File exists (os error 17)" |}.

(** Calls that only look. *)
Definition look {A} (f : Disk -> result IoError A) : Prog IoError A :=
  syscall (fun _ d => a ← f d; Ok (d, a)).

Definition symlink_metadata (p : Path) : Prog IoError File := look (fun d => ok_or missing (dk_files d !! p)).
Definition canonicalize (p : Path) : Prog IoError () := look (fun d => _ ← ok_or missing (dk_files d !! p); Ok ()).
Definition read_dir (dir : string) : Prog IoError (list (string * File)) :=
  look (fun d => _ ← ok_or missing (dk_dirs d !! dir);
                 Ok ((fun pf => (pf.1.2, pf.2)) <$> filter (fun pf => pf.1.1 = dir) (map_to_list (dk_files d)))).
Definition sync_directory (dir : string) : Prog IoError () := look (fun _ => Ok ()).

(** An open file: its path and what was there when it was opened. *)
Record Handle := { ha_path : Path; ha_file : File }.
Definition open_file (p : Path) : Prog IoError Handle :=
  look (fun d => f ← ok_or missing (dk_files d !! p); Ok {| ha_path := p; ha_file := f |}).
(** A file stays what it is when its name goes to another one. *)
Definition behind (h : Handle) (d : Disk) : File :=
  match dk_files d !! ha_path h with
  | Some f => if String.eqb (fi_identity f) (fi_identity (ha_file h)) then f else ha_file h
  | None => ha_file h
  end.
Definition metadata (h : Handle) : Prog IoError File := look (fun d => Ok (behind h d)).
Definition read_to_end (h : Handle) (limit : Z) : Prog IoError string :=
  look (fun d => Ok (text (take (Z.to_nat limit) (chars (fi_bytes (behind h d)))))).

(** Calls that change a file. *)
Definition empty_file (o : Outside) (n : nat) : File :=
  {| fi_identity := new_identity o n; fi_kind := RegularFile; fi_links := 1; fi_modified := clock o n; fi_bytes := "" |}.
Definition create_file (o : Outside) (p : Path) (n : nat) (d : Disk) : result IoError (Disk * ()) :=
  match dk_files d !! p with
  | Some _ => Err exists_already
  | None => Ok (set_files d (<[p := empty_file o n]> (dk_files d)), ())
  end.
Definition create_new (p : Path) : Prog IoError () := fun o => syscall (create_file o p) o.
Definition with_bytes (n : Z) (bytes : string) (f : File) : File :=
  {| fi_identity := fi_identity f; fi_kind := fi_kind f; fi_links := fi_links f; fi_modified := n; fi_bytes := bytes |}.
(** [write_all]: a call that fails may have written part of the bytes. *)
Definition write_all (p : Path) (bytes : string) : Prog IoError () := fun o w =>
  let n := w_calls w in
  let d := set_files (w_disk w) (edits o n (dk_files (w_disk w))) in
  let written bytes := set_files d (alter (with_bytes (clock o n) bytes) p (dk_files d)) in
  let done d' := {| w_disk := d'; w_calls := S n; w_counter := w_counter w; w_trace := w_trace w ++ [(d, d')] |} in
  match fails o n with
  | Some e => (done (written (torn o n)), Err e)
  | None => (done (written bytes), Ok ())
  end.
Definition sync_all (p : Path) : Prog IoError () := look (fun _ => Ok ()).
Definition set_permissions (p : Path) : Prog IoError () := look (fun _ => Ok ()).
Definition remove_file (p : Path) : Prog IoError () :=
  syscall (fun _ d => _ ← ok_or missing (dk_files d !! p); Ok (set_files d (delete p (dk_files d)), ())).
Definition rename (from to : Path) : Prog IoError () :=
  syscall (fun _ d => f ← ok_or missing (dk_files d !! from); Ok (set_files d (<[to := f]> (delete from (dk_files d))), ())).
Definition create_dir (dir : string) : Prog IoError () :=
  syscall (fun _ d => match dk_dirs d !! dir with
                      | Some _ => Err exists_already
                      | None => Ok ({| dk_files := dk_files d; dk_dirs := <[dir := true]> (dk_dirs d) |}, ())
                      end).

(** [TemporaryFile]: the file is removed when the body fails. *)
Definition with_temporary {A} (p : Path) (body : Prog OperationError A) : Prog OperationError A := fun o w =>
  match body o w with
  | (w', Err e) => let '(w'', _) := remove_file p o w' in (w'', Err e)
  | ok => ok
  end.

(** ** Names, directories and regular files *)

Definition canonical_directory (dir : string) : Prog IoError () :=
  real ← look (fun d => ok_or missing (dk_dirs d !! dir));
  if real : bool then look (fun _ => Ok ())
  else fail {| ie_kind := InvalidInput; ie_message := "目录必须为非链接的实际目录" |}.

Definition join_dir (parent name : string) : string := if String.eqb parent "" then name else parent +:+ "/" +:+ name.

(** A directory is named by its canonical path: a real directory in a canonical
    one lies in it, so the comparison with [canonical.parent()] never fails. *)
Definition child_directory (parent name : string) (create : bool) : Prog OperationError string :=
  _ ← io (canonical_directory parent);
  let child := join_dir parent name in
  _ ← (if create then
         io (r ← attempt (create_dir child);
             match r with
             | Ok _ => sync_directory parent
             | Err e => if bool_decide (ie_kind e = AlreadyExists) then mret () else fail e
             end)
       else mret ());
  _ ← io (canonical_directory child);
  mret child.

Definition not_regular : OperationError := op_error "invalid_request" "只允许常规文件，不允许链接或特殊文件".
Definition check_regular (f : File) : result OperationError () :=
  if negb (bool_decide (fi_kind f = RegularFile)) then Err not_regular
  else if negb (fi_links f =? 1) then Err (op_error "invalid_request" "不允许硬链接文件")
  else Ok ().

Definition open_regular (dir name : string) : Prog OperationError (Handle * File) :=
  if negb (safe_name name) then fail (op_error "invalid_request" "非法文件名")
  else
    _ ← io (canonical_directory dir);
    before ← io (symlink_metadata (dir, name));
    _ ← of_result (check_regular before);
    file ← io (open_file (dir, name));
    meta ← io (metadata file);
    _ ← of_result (check_regular meta);
    after ← io (symlink_metadata (dir, name));
    _ ← of_result (check_regular after);
    if negb (String.eqb (fi_identity before) (fi_identity meta)) || negb (String.eqb (fi_identity meta) (fi_identity after))
    then fail (op_error "conflict" "文件在打开期间发生替换")
    else
      _ ← io (canonicalize (dir, name));
      mret (file, meta).

Definition config_names (dir : string) : Prog OperationError (list string) :=
  _ ← io (canonical_directory dir);
  entries ← io (read_dir dir);
  names ← foldr (fun name (rest : Prog OperationError (list string)) =>
                   if allowed_config name then
                     f ← io (symlink_metadata (dir, name));
                     _ ← of_result (check_regular f);
                     names ← rest; mret (name :: names)
                   else rest) (mret []) entries.*1;
  mret (sort_strings names).

(** ** The repository *)

Record ConfigFile := { cf_bytes : string; cf_revision : string }.
(** The repository; its log generations are in [LogFiles]. *)
Record FileRepository := { fr_log_dir : string; fr_log_basename : string; fr_active_revisions : gmap string string }.

Record BackupItem := { bi_id : string; bi_created_at : Z; bi_size_bytes : Z }.

(** The answer of [read_config]. *)
Record ConfigView := {
  cv_name : string;
  cv_kind : string;
  cv_size_bytes : Z;
  cv_revision : string;
  cv_active_revision : string;
  cv_restart_required : bool
}.
Record ConfigContent := {
  cc_view : ConfigView;
  cc_viewing_backup : option (string * string);
  cc_content : string;
  cc_backups : list BackupItem;
  cc_backups_truncated : bool
}.

Definition hex_char (d : Z) : ascii := ascii_of_nat (Z.to_nat (if d <? 10 then 48 + d else 87 + d)).
(** [{:0wx}] of a number below [16 ^ w]. *)
Fixpoint hex_digits (w : nat) (n : Z) : list ascii :=
  match w with O => [] | S w => hex_digits w (n / 16) ++ [hex_char (n mod 16)] end.

Definition is_hexdigit (c : ascii) : bool :=
  in_range 48 57 (code c) || in_range 65 70 (code c) || in_range 97 102 (code c).

(** [id.split('-')]. *)
Fixpoint split_dash (cs cur : list ascii) : list (list ascii) :=
  match cs with
  | [] => [rev cur]
  | c :: cs => if Ascii.eqb c "-" then rev cur :: split_dash cs [] else split_dash cs (c :: cur)
  end.

Definition backup_id_error : OperationError := op_error "invalid_request" "非法备份资源 ID".
Definition validate_backup_id (id : string) : result OperationError () :=
  if negb (String.length id =? 114)%nat then Err backup_id_error
  else
    let parts := split_dash (chars id) [] in
    if negb (length parts =? 3)%nat || negb (bool_decide (length <$> parts = [32; 16; 64]%nat))
       || negb (forallb (forallb is_hexdigit) parts)
    then Err backup_id_error else Ok ().

(** A bounded set of the newest ids: [insert], then [pop_first]. *)
Fixpoint insert_id (id : string) (l : list string) : list string :=
  match l with
  | [] => [id]
  | x :: l' => if String.eqb id x then l else if String.leb id x then id :: l else x :: insert_id id l'
  end.
Definition keep_newest (st : list string * bool) (id : string) : list string * bool :=
  let newest := insert_id id st.1 in
  if (MAX_BACKUPS <? length newest)%nat then (tail newest, true) else (newest, st.2).

Definition is_ok_id (id : string) : bool := match validate_backup_id id with Ok _ => true | Err _ => false end.
Definition newest_ids (entries : list (string * File)) : list string * bool :=
  foldl keep_newest ([], false)
    (filter (fun e => is_ok_id e.1 = true /\ fi_kind e.2 = RegularFile) entries).*1.

Section Repository.
Context (digest : string -> string).

Definition config_from_bytes (bytes : string) : ConfigFile := {| cf_bytes := bytes; cf_revision := digest bytes |}.

Definition too_large : OperationError := op_error "too_large" "配置文件最大为 2 MiB".

Definition read_config_file (dir name : string) : Prog OperationError ConfigFile :=
  '(file, before) ← open_regular dir name;
  if MAX_CONFIG_BYTES <? slen (fi_bytes before) then fail too_large
  else
    bytes ← io (read_to_end file (MAX_CONFIG_BYTES + 1));
    if MAX_CONFIG_BYTES <? slen bytes then fail too_large
    else
      after ← io (metadata file);
      path_after ← io (symlink_metadata (dir, name));
      _ ← of_result (check_regular path_after);
      if negb (slen (fi_bytes before) =? slen (fi_bytes after)) || negb (fi_modified before =? fi_modified after)
         || negb (String.eqb (fi_identity after) (fi_identity path_after)) || negb (slen bytes =? slen (fi_bytes after))
      then fail (op_error "conflict" "文件在读取期间发生变化")
      else mret (config_from_bytes bytes).

(** [unique_id]: the clock is read, the counter moves on. *)
Definition unique_id : Prog OperationError string := fun o w =>
  ({| w_disk := w_disk w; w_calls := w_calls w; w_counter := (w_counter w + 1) mod 2 ^ 64; w_trace := w_trace w |},
   Ok (text (hex_digits 32 (clock o (w_calls w)) ++ ["-"%char] ++ hex_digits 16 (w_counter w)))).

Definition config_metadata (r : FileRepository) (name : string) (file : ConfigFile) : ConfigView :=
  let active := default "" (fr_active_revisions r !! name) in
  {| cv_name := name;
     cv_kind := if String.eqb name "config.toml" then "application" else if String.eqb name "calc.toml" then "calculation" else "device_csv";
     cv_size_bytes := slen (cf_bytes file); cv_revision := cf_revision file; cv_active_revision := active;
     cv_restart_required := negb (String.eqb active (cf_revision file)) |}.

Definition operation_io (e : OperationError) : IoError := {| ie_kind := InvalidData; ie_message := oe_message e |}.

Definition new (log_dir log_basename : string) : Prog IoError FileRepository :=
  if negb (safe_name log_basename) then fail {| ie_kind := InvalidInput; ie_message := "非法日志 basename" |}
  else
    _ ← canonical_directory "";
    _ ← canonical_directory log_dir;
    names ← map_error operation_io (config_names "");
    active_revisions ←
      foldl (fun (acc : Prog IoError (gmap string string)) name =>
               m ← acc;
               file ← map_error operation_io (read_config_file "" name);
               mret (<[name := cf_revision file]> m)) (mret ∅) names;
    mret {| fr_log_dir := log_dir; fr_log_basename := log_basename; fr_active_revisions := active_revisions |}.

Definition list_configs (r : FileRepository) : Prog OperationError (list ConfigView) :=
  names ← config_names "";
  foldr (fun name (rest : Prog OperationError (list ConfigView)) =>
           file ← read_config_file "" name; items ← rest; mret (config_metadata r name file :: items)) (mret []) names.

Definition backup_directory (name : string) (create : bool) : Prog OperationError string :=
  root ← child_directory "" BACKUP_DIRECTORY create;
  child_directory root name create.

Definition list_backups (name : string) : Prog OperationError (list BackupItem * bool) :=
  r ← attempt (backup_directory name false);
  match r with
  | Err e => if String.eqb (oe_code e) "not_found" then mret ([], false) else fail e
  | Ok dir =>
      entries ← io (read_dir dir);
      let '(newest, truncated) := newest_ids entries in
      items ← foldr (fun id (rest : Prog OperationError (list BackupItem)) =>
                       '(_, meta) ← open_regular dir id;
                       items ← rest;
                       mret ({| bi_id := id; bi_created_at := fi_modified meta; bi_size_bytes := slen (fi_bytes meta) |} :: items))
                (mret []) (rev newest);
      mret (items, truncated)
  end.

Definition not_text : OperationError := op_error "invalid_request" "配置必须为 UTF-8 文本".

(** ** Requests *)

Definition config_name (request : LogRequest) : result OperationError string :=
  name ← required_string request "name";
  if negb (allowed_config name) then Err (op_error "invalid_request" "仅允许已有 config.toml、calc.toml、rcd*.csv 文件") else Ok name.
Definition config_content (request : LogRequest) : result OperationError string :=
  content ← required_string request "content";
  if MAX_CONFIG_BYTES <? slen content then Err too_large else Ok content.

Definition read_config (r : FileRepository) (request : LogRequest) : Prog OperationError ConfigContent :=
  name ← of_result (config_name request);
  current ← read_config_file "" name;
  let view := config_metadata r name current in
  backup_id ← of_result (optional_string request "backup_id");
  '(bytes, viewing) ←
    match backup_id with
    | Some id =>
        _ ← of_result (validate_backup_id id);
        dir ← backup_directory name false;
        backup ← read_config_file dir id;
        mret (cf_bytes backup, Some (id, cf_revision backup))
    | None => mret (cf_bytes current, None)
    end;
  content ← of_result (ok_or not_text (utf8_text bytes));
  '(backups, truncated) ← list_backups name;
  mret {| cc_view := view; cc_viewing_backup := viewing; cc_content := content; cc_backups := backups; cc_backups_truncated := truncated |}.

(** [config_set]: the names in order, each read. *)
Definition read_set : Prog OperationError (gmap string ConfigFile) :=
  names ← config_names "";
  foldl (fun (acc : Prog OperationError (gmap string ConfigFile)) name =>
           m ← acc; file ← read_config_file "" name; mret (<[name := file]> m)) (mret ∅) names.

Definition config_write_lock : Prog OperationError () :=
  _ ← io (canonical_directory "");
  created ← io (attempt (create_new ("", WRITE_LOCK)));
  _ ← match created with
      | Ok _ => mret ()
      | Err e => if bool_decide (ie_kind e = AlreadyExists) then _ ← open_regular "" WRITE_LOCK; mret () else fail (io_error e)
      end;
  map_error (fun e => if bool_decide (ie_kind e = WouldBlock) then op_error "conflict" "另一个配置保存正在进行" else io_error e)
    (fun o => syscall (fun n d => if locked o n then Err {| ie_kind := WouldBlock; ie_message := "Resource temporarily unavailable (os error 11)" |}
                                  else Ok (d, ())) o).

Definition first_changed (expected : gmap string ConfigFile) (current : list (string * ConfigFile)) : option (string * ConfigFile) :=
  head (filter (fun nf => cf_revision <$> expected !! nf.1 <> Some (cf_revision nf.2)) current).

Definition ensure_config_set_unchanged (expected : gmap string ConfigFile) : Prog OperationError () :=
  current ← read_set;
  if negb (size current =? size expected)%nat then fail (op_error "conflict" "校验期间配置文件集合发生变化")
  else match first_changed expected (btree_iter current) with
       | Some (name, file) => fail (with_revision (op_error "conflict" ("校验期间配置 " +:+ name +:+ " 发生变化")) (cf_revision file))
       | None => mret ()
       end.

Definition backup (name bytes : string) : Prog OperationError () :=
  dir ← backup_directory name true;
  unique ← unique_id;
  let id := unique +:+ "-" +:+ digest bytes in
  let pending := (dir, ".pending-" +:+ id +:+ ".tmp") in
  _ ← io (create_new pending);
  _ ← with_temporary pending
        (_ ← io (write_all pending bytes);
         _ ← io (sync_all pending);
         io (rename pending (dir, id)));
  io (sync_directory dir).

Definition atomic_replace (name bytes : string) : Prog OperationError () :=
  '(_, meta) ← open_regular "" name;
  unique ← unique_id;
  let path := ("", ".rcd-operations-" +:+ unique +:+ ".tmp") in
  _ ← io (create_new path);
  _ ← with_temporary path
        (_ ← io (set_permissions path);
         _ ← io (write_all path bytes);
         _ ← io (sync_all path);
         current ← io (symlink_metadata ("", name));
         _ ← of_result (check_regular current);
         if negb (String.eqb (fi_identity current) (fi_identity meta)) || negb (slen (fi_bytes current) =? slen (fi_bytes meta))
            || negb (fi_modified current =? fi_modified meta)
         then fail (op_error "conflict" "保存期间目标配置已被替换")
         else io (rename path ("", name)));
  io (sync_directory "").

Definition is_revision (s : string) : bool := (String.length s =? 64)%nat && forallb is_hexdigit (chars s).

Definition write_config_checked (r : FileRepository) (name content expected : string)
    (validate : gmap string string -> result OperationError ()) : Prog OperationError ConfigContent :=
  if negb (is_revision expected) then fail (op_error "invalid_request" "expected_revision 必须为内容 SHA256")
  else
    _ ← config_write_lock;
    original ← read_set;
    current ← of_result (ok_or (op_error "not_found" "配置文件不存在") (original !! name));
    if negb (String.eqb (cf_revision current) expected)
    then fail (with_revision (op_error "conflict" "配置已被修改，请重新读取") (cf_revision current))
    else
      let candidate := map_imap (fun file_name file => Some (if String.eqb file_name name then content else cf_bytes file)) original in
      _ ← of_result (validate candidate);
      _ ← ensure_config_set_unchanged original;
      if String.eqb content (cf_bytes current) then read_config r {[ "name" := JString name ]}
      else
        _ ← backup name (cf_bytes current);
        _ ← ensure_config_set_unchanged original;
        _ ← atomic_replace name content;
        read_config r {[ "name" := JString name ]}.

(** ** Writing *)

(** [ConfigSet.validate_set], which always returns. *)
Context (validate_set : gmap string string -> Validation).

Definition joined_errors (v : Validation) : result OperationError () :=
  match errors v with
  | [] => Ok ()
  | e :: es => Err (op_error "invalid_request" (foldl (fun acc m => acc +:+ String (ascii_of_nat 10) m) e es))
  end.

Definition write_config (r : FileRepository) (request : LogRequest) : Prog OperationError ConfigContent :=
  name ← of_result (config_name request);
  content ← of_result (config_content request);
  expected ← of_result (required_string request "expected_revision");
  write_config_checked r name content expected
    (fun candidate => joined_errors (validate_set candidate)).

(** The answer of [validate_config]. *)
Record ValidationView := {
  vv_valid : bool;
  vv_errors : list string;
  vv_warnings : list string;
  vv_errors_truncated : bool;
  vv_warnings_truncated : bool;
  vv_restart_required : bool
}.
Definition validate_config (request : LogRequest) : Prog OperationError ValidationView :=
  name ← of_result (config_name request);
  content ← of_result (config_content request);
  files ← read_set;
  match files !! name with
  | None => fail (op_error "not_found" "配置文件不存在，不支持创建任意配置文件")
  | Some _ =>
      let validation := validate_set (cf_bytes <$> <[name := config_from_bytes content]> files) in
      mret {| vv_valid := bool_decide (errors validation = []); vv_errors := errors validation; vv_warnings := warnings validation;
              vv_errors_truncated := errors_truncated validation; vv_warnings_truncated := warnings_truncated validation;
              vv_restart_required := true |}
  end.

(** [write_calculation_mode] and [write_logging_level]. *)
Definition write_typed_application (toml_config : string -> result string Application) (r : FileRepository) (content expected : string)
    : Prog OperationError ConfigContent :=
  if MAX_CONFIG_BYTES <? slen content then fail too_large
  else
    _ ← of_result (map_err (fun e => op_error "invalid_request" ("config.toml: " +:+ e)) (toml_config content));
    write_config_checked r "config.toml" content expected (fun _ => Ok ()).

End Repository.

(** ** Programs and what they do to the disk *)

Section Logic.
Context (o : Outside).

(** From a disk with [pre], the program ends with [post] of its result, the
    disk and the list of its calls with the disks before and after each. *)
Definition triple {E A} (pre : Disk -> Prop) (m : Prog E A) (post : result E A -> Disk -> list (Disk * Disk) -> Prop) : Prop :=
  forall w, pre (w_disk w) -> exists l, w_trace (m o w).1 = w_trace w ++ l /\ post (m o w).2 (w_disk (m o w).1) l.

Lemma triple_bind {E A B} pre (m : Prog E A) (k : A -> Prog E B) mid post :
  triple pre m (fun r d l => match r with Ok a => mid a d l | Err e => post (Err e) d l end) ->
  (forall a l1, triple (fun d => mid a d l1) (k a) (fun r d l2 => post r d (l1 ++ l2))) ->
  triple pre (m ≫= k) post.
Proof.
  intros Hm Hk w Hw. destruct (Hm w Hw) as (l1 & Ht1 & H1). unfold mbind, prog_bind.
  destruct (m o w) as [w1 [a|e]]; cbn [fst snd] in *; [|eauto].
  destruct (Hk a l1 w1 H1) as (l2 & Ht2 & H2). exists (l1 ++ l2). split; [|done]. by rewrite Ht2, Ht1, app_assoc.
Qed.

Lemma triple_ret {E A} pre (a : A) post : (forall d, pre d -> post (Ok a) d []) -> triple pre (mret a : Prog E A) post.
Proof. intros H w Hw. exists []. rewrite app_nil_r. split; [done|]. by apply H. Qed.
Lemma triple_result {E A} pre (r : result E A) post : (forall d, pre d -> post r d []) -> triple pre (of_result r) post.
Proof. intros H w Hw. exists []. rewrite app_nil_r. split; [done|]. by apply H. Qed.

Lemma triple_impl {E A} (pre pre' : Disk -> Prop) (m : Prog E A) (post post' : result E A -> Disk -> list (Disk * Disk) -> Prop) :
  triple pre m post -> (forall d, pre' d -> pre d) -> (forall r d l, post r d l -> post' r d l) -> triple pre' m post'.
Proof. intros H Hp Hq w Hw. destruct (H w (Hp _ Hw)) as (l & ? & ?). eauto. Qed.

Lemma triple_map_error {E F A} pre (f : E -> F) (m : Prog E A) post :
  triple pre m (fun r d l => post (map_err f r) d l) -> triple pre (map_error f m) post.
Proof.
  intros H w Hw. destruct (H w Hw) as (l & ? & ?). unfold map_error. destruct (m o w) as [w' r]. eauto.
Qed.
Lemma triple_attempt {E A} pre (m : Prog E A) post :
  triple pre m (fun r d l => post (Ok r) d l) -> triple pre (attempt m) post.
Proof. intros H w Hw. destruct (H w Hw) as (l & ? & ?). unfold attempt. destruct (m o w) as [w' r]. eauto. Qed.

Definition edited (n : nat) (d : Disk) : Disk := set_files d (edits o n (dk_files d)).

Lemma triple_syscall {A} pre (f : nat -> Disk -> result IoError (Disk * A)) post :
  (forall n d, pre d ->
     (forall e, post (Err e) (edited n d) [(edited n d, edited n d)]) /\
     forall d' a, f n (edited n d) = Ok (d', a) -> post (Ok a) d' [(edited n d, d')]) ->
  triple pre (syscall f) post.
Proof.
  intros H w Hw. destruct (H (w_calls w) (w_disk w) Hw) as [He Ho]. unfold syscall, edited in *.
  destruct (fails o (w_calls w)) as [e|]; [eexists; eauto|].
  destruct (f _ _) as [[d' a]|e] eqn:E; cbn [fst snd w_trace w_disk]; eexists; eauto.
Qed.

(** A property other programs cannot touch. *)
Definition stable (J : Disk -> Prop) : Prop := forall n d, J d -> J (edited n d).

(** A program that changes nothing. *)
Definition same (s : Disk * Disk) : Prop := s.1 = s.2.
Definition readonly {E A} (m : Prog E A) : Prop := forall J, stable J -> triple J m (fun _ d l => J d /\ Forall same l).

Lemma readonly_ret {E A} (a : A) : readonly (mret a : Prog E A).
Proof. intros J HJ. apply triple_ret. split; [done|constructor]. Qed.
Lemma readonly_result {E A} (r : result E A) : readonly (of_result r).
Proof. intros J HJ. apply triple_result. split; [done|constructor]. Qed.
Lemma readonly_fail {E A} (e : E) : readonly (fail e : Prog E A).
Proof. apply (readonly_result (Err e)). Qed.
Lemma readonly_bind {E A B} (m : Prog E A) (k : A -> Prog E B) : readonly m -> (forall a, readonly (k a)) -> readonly (m ≫= k).
Proof.
  intros Hm Hk J HJ. eapply (triple_bind _ _ _ (fun _ d l => J d /\ Forall same l)).
  - eapply triple_impl; [apply Hm, HJ|done|]. by intros [] ? ? ?.
  - intros a l1 w [Hw Hl]. destruct (Hk a J HJ w Hw) as (l2 & ? & ? & ?). exists l2. split; [done|]. split; [done|]. by apply Forall_app.
Qed.
Lemma readonly_map_error {E F A} (f : E -> F) (m : Prog E A) : readonly m -> readonly (map_error f m).
Proof. intros H J HJ. apply triple_map_error. by apply H. Qed.
Lemma readonly_attempt {E A} (m : Prog E A) : readonly m -> readonly (attempt m).
Proof. intros H J HJ. apply triple_attempt. by apply H. Qed.
Lemma readonly_look {A} (f : Disk -> result IoError A) : readonly (look f).
Proof.
  intros J HJ. apply triple_syscall. intros n d Hd. split.
  - intros _. split; [by apply HJ|]. by repeat constructor.
  - intros d' a H. apply bind_Ok in H as (x & _ & [= <- _]). split; [by apply HJ|]. by repeat constructor.
Qed.
Lemma readonly_if {E A} (b : bool) (m k : Prog E A) : readonly m -> readonly k -> readonly (if b then m else k).
Proof. by destruct b. Qed.
Lemma readonly_foldr {E A B} (f : B -> Prog E A -> Prog E A) (m : Prog E A) l :
  readonly m -> (forall b k, readonly k -> readonly (f b k)) -> readonly (foldr f m l).
Proof. intros Hm Hf. induction l as [|b l IH]; cbn [foldr]; auto. Qed.
Lemma readonly_foldl {E A B} (f : Prog E A -> B -> Prog E A) (m : Prog E A) l :
  readonly m -> (forall b k, readonly k -> readonly (f k b)) -> readonly (foldl f m l).
Proof. intros Hm Hf. revert m Hm. induction l as [|b l IH]; intros m Hm; cbn [foldl]; auto. Qed.
End Logic.

Create HintDb readonly.
#[export] Hint Resolve readonly_ret readonly_result readonly_fail readonly_map_error readonly_attempt readonly_look readonly_if : readonly.
Ltac readonly :=
  repeat first
    [ progress intros | apply readonly_bind | apply readonly_ret | apply readonly_result | apply readonly_fail | apply readonly_look
    | apply readonly_map_error | apply readonly_attempt | apply readonly_if | apply readonly_foldr | apply readonly_foldl
    | solve [eauto with readonly] | case_match ].

(** ** The programs that only read *)

Section Reading.
Context (o : Outside) (digest : string -> string).

Lemma readonly_canonical dir : readonly o (canonical_directory dir).
Proof. unfold canonical_directory. readonly. Qed.
#[local] Hint Resolve readonly_canonical : readonly.
Lemma readonly_open dir name : readonly o (open_regular dir name).
Proof. unfold open_regular, io, symlink_metadata, open_file, metadata, canonicalize. readonly. Qed.
#[local] Hint Resolve readonly_open : readonly.
Lemma readonly_names dir : readonly o (config_names dir).
Proof. unfold config_names, io, read_dir, symlink_metadata. readonly. Qed.
#[local] Hint Resolve readonly_names : readonly.
Lemma readonly_file dir name : readonly o (read_config_file digest dir name).
Proof. unfold read_config_file, io, read_to_end, metadata, symlink_metadata. readonly. Qed.
#[local] Hint Resolve readonly_file : readonly.
Lemma readonly_set : readonly o (read_set digest).
Proof. unfold read_set. readonly. Qed.
#[local] Hint Resolve readonly_set : readonly.
Lemma readonly_child parent name : readonly o (child_directory parent name false).
Proof. unfold child_directory, io. readonly. Qed.
#[local] Hint Resolve readonly_child : readonly.
Lemma readonly_backup_dir name : readonly o (backup_directory name false).
Proof. unfold backup_directory. readonly. Qed.
#[local] Hint Resolve readonly_backup_dir : readonly.
Lemma readonly_backups name : readonly o (list_backups name).
Proof. unfold list_backups, io, read_dir. readonly. Qed.
#[local] Hint Resolve readonly_backups : readonly.
Lemma readonly_config r request : readonly o (read_config digest r request).
Proof. unfold read_config. readonly. Qed.
Lemma readonly_ensure expected : readonly o (ensure_config_set_unchanged digest expected).
Proof. unfold ensure_config_set_unchanged. readonly. Qed.
Lemma readonly_new log_dir log_basename : readonly o (new digest log_dir log_basename).
Proof. unfold new. readonly. Qed.
Lemma readonly_list r : readonly o (list_configs digest r).
Proof. unfold list_configs. readonly. Qed.
Lemma readonly_validate validate_set request : readonly o (validate_config digest validate_set request).
Proof. unfold validate_config. readonly. Qed.
End Reading.

(** ** Writing *)

(** Files of the console alone: backups, temporary files and the lock. *)
Definition private (p : string * string) : Prop := p.1 <> "" \/ String.prefix ".rcd-operations" p.2 = true.

(** No configuration file changes. *)
Definition quiet (s : Disk * Disk) : Prop :=
  forall k, allowed_config k = true -> dk_files s.2 !! ("", k) = dk_files s.1 !! ("", k).

Lemma private_not_config p k : private p -> allowed_config k = true -> p <> ("", k).
Proof.
  intros [H|H] Hk ->; [done|]. cbn [snd] in H. apply prefix_correct in H. unfold allowed_config in Hk.
  apply andb_true_iff in Hk as [_ Hk]. rewrite !orb_true_iff in Hk. destruct Hk as [[Hk|Hk]|Hk].
  1, 2: apply String.eqb_eq in Hk as ->; vm_compute in H; discriminate H.
  apply andb_true_iff in Hk as [Hk _]. apply prefix_correct in Hk. destruct k as [|c k]; cbn [substring String.length] in *; [discriminate Hk|].
  injection H as Hc _. injection Hk as Hc' _. congruence.
Qed.

Lemma quiet_private p d files :
  private p -> (forall q, q <> p -> files !! q = dk_files d !! q) -> quiet (d, set_files d files).
Proof. intros Hp H k Hk. cbn. apply H. intros <-. by apply (private_not_config _ _ Hp Hk). Qed.
Lemma same_quiet s : same s -> quiet s.
Proof. destruct s as [d d']. unfold same. cbn. by intros -> k. Qed.

(** A file with these bytes is there. *)
Definition present (p : string * string) (d : Disk) : Prop := is_Some (dk_files d !! p).
Definition held (p : string * string) (bytes : string) (d : Disk) : Prop := exists f, dk_files d !! p = Some f /\ fi_bytes f = bytes.

Section Writing.
Context (o : Outside) (digest : string -> string).
Hypothesis others : forall n files p, private p -> edits o n files !! p = files !! p.
Hypothesis digests : forall s, is_revision (digest s) = true.

Definition quietly {E A} (I : Disk -> Prop) (m : Prog E A) (Q : A -> Disk -> Prop) : Prop :=
  triple o I m (fun r d l => Forall quiet l /\ match r with Ok a => Q a d | Err _ => True end).

Lemma quietly_bind {E A B} I (m : Prog E A) (k : A -> Prog E B) Q R :
  quietly I m Q -> (forall a, quietly (Q a) (k a) R) -> quietly I (m ≫= k) R.
Proof.
  intros Hm Hk. eapply (triple_bind o _ _ _ (fun a d l => Forall quiet l /\ Q a d)).
  - eapply triple_impl; [apply Hm|done|]. intros [] ? ? ?; tauto.
  - intros a l1 w [Hl Hq]. destruct (Hk a w Hq) as (l2 & ? & ? & ?). exists l2. split; [done|]. split; [by apply Forall_app|done].
Qed.
Lemma quietly_readonly {E A} J (m : Prog E A) : readonly o m -> stable o J -> quietly J m (fun _ => J).
Proof.
  intros Hm HJ. eapply triple_impl; [apply Hm, HJ|done|]. intros r d l [HJd Hl]. split; [|by destruct r].
  eapply Forall_impl; [exact Hl|]. apply same_quiet.
Qed.
Lemma quietly_impl {E A} (I I' : Disk -> Prop) (m : Prog E A) (Q Q' : A -> Disk -> Prop) :
  quietly I m Q -> (forall d, I' d -> I d) -> (forall a d, Q a d -> Q' a d) -> quietly I' m Q'.
Proof. intros H HI HQ. eapply triple_impl; [apply H|done|]. intros [] d l [? ?]; split; auto. Qed.
Lemma quietly_map_error {E F A} I (f : E -> F) (m : Prog E A) Q : quietly I m Q -> quietly I (map_error f m) Q.
Proof. intros H. apply triple_map_error. eapply triple_impl; [apply H|done|]. by intros [] d l ?. Qed.
Lemma quietly_ret {E A} (I : Disk -> Prop) (a : A) (Q : A -> Disk -> Prop) : (forall d, I d -> Q a d) -> quietly I (mret a : Prog E A) Q.
Proof. intros H. apply triple_ret. intros d Hd. split; [constructor|auto]. Qed.

Lemma stable_true : stable o (fun _ => True). Proof. done. Qed.
Lemma stable_held p bytes : private p -> stable o (held p bytes).
Proof. intros Hp n d (f & Hf & Hb). exists f. split; [|done]. cbn. by rewrite others. Qed.
Lemma stable_present p : private p -> stable o (present p).
Proof. intros Hp n d. unfold present. cbn. by rewrite others. Qed.
Lemma stable_and J K : stable o J -> stable o K -> stable o (fun d => J d /\ K d).
Proof. intros HJ HK n d [? ?]. split; [by apply HJ|by apply HK]. Qed.

(** A property that does not look at a file. *)
Definition ignores (p : string * string) (J : Disk -> Prop) : Prop :=
  forall d files, (forall q, q <> p -> files !! q = dk_files d !! q) -> J d -> J (set_files d files).

Lemma quietly_create J p : private p -> stable o J -> ignores p J -> quietly J (create_new p) (fun _ d => J d /\ present p d).
Proof.
  intros Hp HJ Hi. apply (triple_syscall o J (create_file o p)). intros n d Hd. split.
  - intros _. split; [|done]. by repeat constructor.
  - intros d' [] H. unfold create_file in H. destruct (dk_files (edited o n d) !! p) eqn:E; [done|]. injection H as <-.
    assert (Ho : forall q, q <> p -> <[p := empty_file o n]> (dk_files (edited o n d)) !! q = dk_files (edited o n d) !! q)
      by (intros q Hq; by apply lookup_insert_ne).
    split; [constructor; [by apply (quiet_private p)|constructor]|]. split; [by apply Hi; [|apply HJ]|].
    unfold present. cbn. rewrite lookup_insert_eq. by eexists.
Qed.

Lemma quietly_write J p bytes : private p -> stable o J -> ignores p J ->
  quietly (fun d => J d /\ present p d) (write_all p bytes) (fun _ d => J d /\ held p bytes d).
Proof.
  intros Hp HJ Hi w [HJw Hpw]. unfold write_all. set (n := w_calls w). change (set_files (w_disk w) (edits o n (dk_files (w_disk w)))) with (edited o n (w_disk w)).
  set (d := edited o n (w_disk w)). assert (HJd : J d) by (by apply HJ). assert (Hpd : present p d) by (by apply stable_present).
  assert (Hq : forall b, quiet (d, set_files d (alter (with_bytes (clock o n) b) p (dk_files d)))).
  { intros b. apply (quiet_private p); [done|]. intros q Hq. by apply lookup_alter_ne. }
  destruct (fails o n) as [e|]; cbn [fst snd w_trace w_disk].
  - eexists. split; [done|]. split; [|done]. by repeat constructor.
  - eexists. split; [done|]. split; [by repeat constructor|]. split.
    + apply Hi; [|done]. intros q Hne. by apply lookup_alter_ne.
    + destruct Hpd as [f Hf]. exists (with_bytes (clock o n) bytes f). split; [|done]. cbn [dk_files set_files]. by rewrite lookup_alter_eq, Hf.
Qed.

Lemma quietly_rename p q bytes : private p -> private q -> p <> q ->
  quietly (held p bytes) (rename p q) (fun _ => held q bytes).
Proof.
  intros Hp Hq Hne. apply triple_syscall. intros n d (f & Hf & Hb). split.
  - intros _. split; [|done]. by repeat constructor.
  - intros d' [] H. apply bind_Ok in H as (f' & Hf' & [= <-]). split.
    + constructor; [|constructor]. intros k Hk. cbn. rewrite lookup_insert_ne by (by apply private_not_config).
      by rewrite lookup_delete_ne by (by apply private_not_config).
    + cbn in Hf'. rewrite others, Hf in Hf' by done. injection Hf' as <-. exists f. cbn. by rewrite lookup_insert_eq.
Qed.

Lemma remove_quiet p w : private p ->
  exists l, w_trace (remove_file p o w).1 = w_trace w ++ l /\ Forall quiet l.
Proof.
  intros Hp. destruct (triple_syscall o (fun _ => True) (fun _ d => _ ← ok_or missing (dk_files d !! p); Ok (set_files d (delete p (dk_files d)), ()))
    (fun _ _ l => Forall quiet l)) with (w := w) as (l & ? & ?); [|done|by exists l].
  intros n d _. split; [by repeat constructor|]. intros d' a H. apply bind_Ok in H as (f & _ & [= <-]).
  constructor; [|constructor]. apply (quiet_private p); [done|]. intros q Hq. by apply lookup_delete_ne.
Qed.

Lemma triple_temporary {A} I p (body : Prog OperationError A) post : private p ->
  triple o I body (fun r d l => match r with Ok a => post a d l | Err _ => Forall quiet l end) ->
  triple o I (with_temporary p body) (fun r d l => match r with Ok a => post a d l | Err _ => Forall quiet l end).
Proof.
  intros Hp Hb w Hw. destruct (Hb w Hw) as (l & Ht & Hr). unfold with_temporary. destruct (body o w) as [w1 [a|e]]; [by exists l|].
  destruct (remove_quiet p w1 Hp) as (l2 & Ht2 & Hl2). destruct (remove_file p o w1) as [w2 r2]. cbn [fst snd] in *.
  exists (l ++ l2). rewrite Ht2, Ht, app_assoc. split; [done|]. by apply Forall_app.
Qed.
Lemma quietly_temporary {A} I p (body : Prog OperationError A) Q : private p -> quietly I body Q -> quietly I (with_temporary p body) Q.
Proof.
  intros Hp Hb. eapply triple_impl; [apply (triple_temporary I p body (fun a d l => Forall quiet l /\ Q a d) Hp)|done|].
  - eapply triple_impl; [apply Hb|done|]. intros [] d l ?; tauto.
  - intros [] d l ?; tauto.
Qed.

(** *** Backups *)

Lemma length_hex_digits w n : length (hex_digits w n) = w.
Proof. revert n. induction w as [|w IH]; intros n; cbn [hex_digits]; [done|]. rewrite length_app, IH. cbn. lia. Qed.
Lemma hex_char_digit d : 0 <= d < 16 -> is_hexdigit (hex_char d) = true.
Proof.
  intros Hd. assert (H : d ∈ seqZ 0 16) by (apply elem_of_seqZ; lia). revert H. generalize d.
  apply Forall_forall. vm_compute. repeat constructor.
Qed.
Lemma hex_digits_digits w n : forallb is_hexdigit (hex_digits w n) = true.
Proof.
  revert n. induction w as [|w IH]; intros n; cbn [hex_digits]; [done|]. rewrite forallb_app, IH. cbn.
  by rewrite hex_char_digit by (apply Z.mod_pos_bound; lia).
Qed.
Lemma hexdigit_no_dash c : is_hexdigit c = true -> Ascii.eqb c "-" = false.
Proof. intros H. destruct (Ascii.eqb_spec c "-") as [->|]; [by vm_compute in H|done]. Qed.

Lemma split_dash_part xs ys cur : forallb is_hexdigit xs = true ->
  split_dash (xs ++ "-"%char :: ys) cur = (rev cur ++ xs) :: split_dash ys [].
Proof.
  revert cur. induction xs as [|x xs IH]; intros cur; cbn [app forallb split_dash]; [by rewrite app_nil_r|].
  intros [Hx Hxs]%andb_true_iff. rewrite hexdigit_no_dash, IH by done. cbn [rev]. by rewrite <- app_assoc.
Qed.
Lemma split_dash_last xs cur : forallb is_hexdigit xs = true -> split_dash xs cur = [rev cur ++ xs].
Proof.
  revert cur. induction xs as [|x xs IH]; intros cur; cbn [forallb split_dash]; [by rewrite app_nil_r|].
  intros [Hx Hxs]%andb_true_iff. rewrite hexdigit_no_dash, IH by done. cbn [rev]. by rewrite <- app_assoc.
Qed.

(** The ids [backup] makes. *)
Definition unique (u : string) : Prop := exists a c, u = text (hex_digits 32 a ++ ["-"%char] ++ hex_digits 16 c).

Lemma backup_id_valid u bytes : unique u -> is_ok_id (u +:+ "-" +:+ digest bytes) = true.
Proof.
  intros (a & c & ->). pose proof (digests bytes) as Hd. unfold is_revision in Hd. apply andb_true_iff in Hd as [Hl Hh]. apply Nat.eqb_eq in Hl.
  assert (Hc : chars (text (hex_digits 32 a ++ ["-"%char] ++ hex_digits 16 c) +:+ "-" +:+ digest bytes)
               = hex_digits 32 a ++ "-"%char :: hex_digits 16 c ++ "-"%char :: chars (digest bytes)).
  { rewrite !Namespace.chars_app, list_ascii_of_string_of_list_ascii, <- !app_assoc. done. }
  unfold is_ok_id, validate_backup_id. rewrite string_length_chars, Hc. rewrite string_length_chars in Hl.
  rewrite length_app. cbn [length]. rewrite length_app. cbn [length]. rewrite !length_hex_digits, Hl.
  rewrite !split_dash_part, split_dash_last by (done || apply hex_digits_digits).
  cbn [rev app fmap list_fmap forallb length]. rewrite !length_hex_digits, Hl, !hex_digits_digits, Hh. done.
Qed.

Definition backup_dir (name : string) : string := join_dir BACKUP_DIRECTORY name.
Lemma backup_private name f : private (backup_dir name, f).
Proof. by left. Qed.

Lemma quietly_child parent name : quietly (fun _ => True) (child_directory parent name true) (fun dir _ => dir = join_dir parent name).
Proof.
  unfold child_directory, io. eapply quietly_bind; [apply quietly_map_error, quietly_readonly; [apply readonly_canonical|apply stable_true]|].
  intros ?. eapply quietly_bind with (Q := fun _ _ => True).
  - apply quietly_map_error. eapply quietly_bind with (Q := fun _ _ => True).
    + apply triple_attempt, triple_syscall. intros n d _. split; [split; [|done]; by repeat constructor|].
      intros d' x H. destruct (dk_dirs (edited o n d) !! _); [done|]. injection H as <- <-. split; [|done]. by repeat constructor.
    + intros r. eapply quietly_impl; [apply quietly_readonly; [|apply stable_true]|done|done].
      destruct r; [apply readonly_look|]. readonly.
  - intros ?. eapply quietly_bind; [apply quietly_map_error, quietly_readonly; [apply readonly_canonical|apply stable_true]|].
    intros ?. apply quietly_ret. done.
Qed.

Lemma quietly_unique I : quietly I unique_id (fun u d => I d /\ unique u).
Proof. intros w Hw. exists []. cbn. rewrite app_nil_r. split; [done|]. split; [constructor|]. split; [done|]. by eexists _, _. Qed.

(** A complete backup of these bytes. *)
Definition backed (name bytes : string) (d : Disk) : Prop := exists id, is_ok_id id = true /\ held (backup_dir name, id) bytes d.

Lemma stable_backed name bytes : stable o (backed name bytes).
Proof. intros n d (id & Hid & H). exists id. split; [done|]. apply stable_held; [apply backup_private|done]. Qed.

Lemma pending_differs id : ".pending-" +:+ id +:+ ".tmp" <> id.
Proof. intros H%(f_equal slen). rewrite !slen_app in H. change (slen ".pending-") with 9 in H. change (slen ".tmp") with 4 in H. lia. Qed.

Lemma quietly_pure {E A} (phi : Prop) (m : Prog E A) Q : (phi -> quietly (fun _ => True) m Q) -> quietly (fun _ => phi) m Q.
Proof. intros H w Hw. by apply H. Qed.

Lemma quietly_backup name bytes : quietly (fun _ => True) (backup digest name bytes) (fun _ => backed name bytes).
Proof.
  unfold backup. eapply quietly_bind with (Q := fun dir _ => dir = backup_dir name).
  { unfold backup_directory. eapply quietly_bind; [apply quietly_child|]. intros root. cbn beta. apply quietly_pure. intros ->. apply quietly_child. }
  intros dir. cbn beta. apply quietly_pure. intros ->. eapply quietly_bind; [apply quietly_unique|]. intros u. cbn beta.
  eapply (quietly_impl (fun _ => unique u)); [|by intros d [_ ?]|intros ? ? H; exact H]. apply quietly_pure. intros Hu.
  set (id := u +:+ "-" +:+ digest bytes). set (pending := (backup_dir name, ".pending-" +:+ id +:+ ".tmp")).
  assert (Hp : private pending) by apply backup_private.
  eapply quietly_bind; [apply quietly_map_error, (quietly_create (fun _ => True)); [done|done|by intros]|]. intros ?. cbn beta.
  eapply quietly_bind with (Q := fun _ => held (backup_dir name, id) bytes).
  - apply quietly_temporary; [done|].
      eapply quietly_bind; [apply quietly_map_error, (quietly_write (fun _ => True)); [done|done|by intros]|]. intros ?. cbn beta.
      eapply quietly_bind; [apply quietly_map_error, quietly_readonly; [apply readonly_look|apply stable_and; [done|by apply stable_held]]|]. intros ?. cbn beta.
      apply quietly_map_error. eapply quietly_impl; [apply (quietly_rename pending (backup_dir name, id) bytes); [done|apply backup_private|]|by intros d [_ ?]|done].
      unfold pending. intros [= H]. by apply pending_differs in H.
  - intros ?. cbn beta. eapply quietly_impl; [apply quietly_map_error, quietly_readonly; [apply readonly_look|]|done|].
    + apply stable_held, backup_private.
    + intros ? d H. exists id. split; [by apply backup_id_valid|done].
Qed.
(** *** The replacement *)

(** The call that makes the new content the file: a complete backup of the
    old bytes is there, and no other configuration file changes. *)
Definition commit (name content old : string) (s : Disk * Disk) : Prop :=
  backed name old s.1 /\ held ("", name) content s.2 /\
  forall k, allowed_config k = true -> k <> name -> dk_files s.2 !! ("", k) = dk_files s.1 !! ("", k).

(** Exactly one of the calls is the commit; the others are quiet. *)
Definition once (name content old : string) (l : list (Disk * Disk)) : Prop :=
  exists l1 s l2, l = l1 ++ s :: l2 /\ Forall quiet l1 /\ commit name content old s /\ Forall quiet l2.

Lemma once_app_l name content old l1 l : Forall quiet l1 -> once name content old l -> once name content old (l1 ++ l).
Proof. intros H (a & s & b & -> & Ha & Hs & Hb). exists (l1 ++ a), s, b. split; [by rewrite app_assoc|]. split_and!; [by apply Forall_app|done|done]. Qed.
Lemma once_app_r name content old l l2 : once name content old l -> Forall quiet l2 -> once name content old (l ++ l2).
Proof. intros (a & s & b & -> & Ha & Hs & Hb) H. exists a, s, (b ++ l2). split; [by rewrite <- app_assoc|]. split_and!; [done|done|by apply Forall_app]. Qed.

Section Commit.
Context (name content old : string).

(** Nothing happened, or the commit did. *)
Definition commits {E A} (I : Disk -> Prop) (m : Prog E A) : Prop :=
  triple o I m (fun r _ l => match r with Ok _ => once name content old l | Err _ => Forall quiet l end).

Lemma commits_after {E A B} I (m : Prog E A) (k : A -> Prog E B) Q :
  quietly I m Q -> (forall a, commits (Q a) (k a)) -> commits I (m ≫= k).
Proof.
  intros Hm Hk. eapply (triple_bind o _ _ _ (fun a d l => Forall quiet l /\ Q a d)).
  - eapply triple_impl; [apply Hm|done|]. intros [] ? ? ?; tauto.
  - intros a l1 w [Hl Hq]. destruct (Hk a w Hq) as (l2 & ? & H). exists l2. split; [done|].
    destruct ((k a o w).2); [by apply once_app_l|by apply Forall_app].
Qed.

Lemma commits_rename path : private path ->
  commits (fun d => backed name old d /\ held path content d) (rename path ("", name)).
Proof.
  intros Hp. apply triple_syscall. intros n d [Hb (f & Hf & Hc)]. split; [intros _; by repeat constructor|].
  intros d' [] H. apply bind_Ok in H as (f' & Hf' & [= <-]). cbn in Hf'. rewrite others, Hf in Hf' by done. injection Hf' as <-.
  eexists [], _, []. split_and!; [done|constructor| |constructor]. split_and!; cbn [fst snd].
  - by apply stable_backed.
  - exists f. cbn [dk_files set_files]. by rewrite lookup_insert_eq.
  - intros k Hk Hne. cbn [dk_files set_files]. rewrite lookup_insert_ne by congruence.
    by rewrite lookup_delete_ne by (by apply private_not_config).
Qed.

Lemma ignores_backed p : p.1 = "" -> ignores p (backed name old).
Proof.
  intros Hp d files Hf (id & Hid & f & Hl & Hb). exists id. split; [done|]. exists f. split; [|done]. cbn [dk_files set_files].
  rewrite Hf; [done|]. intros <-. cbn in Hp. discriminate Hp.
Qed.

Lemma prefix_refl_app a b : String.prefix a (a +:+ b) = true.
Proof. apply prefix_correct. induction a as [|c a IH]; [by destruct b|]. change (String c (substring 0 (String.length a) (a +:+ b)) = String c a). by rewrite IH. Qed.

Lemma replace_commits :
  triple o (backed name old) (atomic_replace name content)
    (fun r _ l => match r with Ok _ => once name content old l | Err _ => Forall quiet l \/ once name content old l end).
Proof.
  unfold atomic_replace. assert (Hst : stable o (backed name old)) by apply stable_backed.
  eapply (triple_bind o _ _ _ (fun _ d l => Forall quiet l /\ backed name old d)).
  { eapply triple_impl; [apply quietly_readonly; [apply readonly_open|exact Hst]|done|]. intros [] d l ?; tauto. }
  intros [h meta] l1. eapply (triple_bind o _ _ _ (fun u d l => Forall quiet (l1 ++ l) /\ backed name old d)).
  { intros w [H1 H2]. exists []. cbn. by rewrite !app_nil_r. }
  intros u l2. set (path := ("", ".rcd-operations-" +:+ u +:+ ".tmp")).
  assert (Hp : private path) by (right; exact (prefix_refl_app ".rcd-operations" ("-" +:+ u +:+ ".tmp"))).
  assert (Hig : ignores path (backed name old)) by (by apply ignores_backed).
  eapply (triple_bind o _ _ _ (fun _ d l => Forall quiet (l1 ++ l2 ++ l) /\ backed name old d /\ present path d)).
  { intros w [H1 H2]. destruct (quietly_map_error _ io_error _ _ (quietly_create _ path Hp Hst Hig) w H2) as (l & Ht & Hl & Hr). exists l. split; [exact Ht|].
    unfold io. destruct ((map_error io_error (create_new path) o w).2); [|left; rewrite app_assoc; by apply Forall_app].
    rewrite app_assoc. split; [by apply Forall_app|done]. }
  intros ? l3. eapply (triple_bind o _ _ _ (fun _ _ l => once name content old (l1 ++ l2 ++ l3 ++ l))).
  { intros w [H1 H2].
    assert (Hbody : commits (fun d => backed name old d /\ present path d)
      (_ ← io (set_permissions path); _ ← io (write_all path content); _ ← io (sync_all path);
       current ← io (symlink_metadata ("", name)); _ ← of_result (check_regular current);
       if negb (String.eqb (fi_identity current) (fi_identity meta)) || negb (slen (fi_bytes current) =? slen (fi_bytes meta))
          || negb (fi_modified current =? fi_modified meta)
       then fail (op_error "conflict" "保存期间目标配置已被替换") else io (rename path ("", name)))).
    { assert (Hh : stable o (fun d => backed name old d /\ held path content d)) by (apply stable_and; [done|by apply stable_held]).
      eapply commits_after; [apply quietly_map_error, quietly_readonly; [apply readonly_look|apply stable_and; [done|by apply stable_present]]|]. intros ?.
      eapply commits_after; [apply quietly_map_error, quietly_write; done|]. intros ?.
      eapply commits_after; [apply quietly_map_error, quietly_readonly; [apply readonly_look|exact Hh]|]. intros ?.
      eapply commits_after; [apply quietly_map_error, quietly_readonly; [apply readonly_look|exact Hh]|]. intros current.
      eapply commits_after; [apply quietly_readonly; [apply readonly_result|exact Hh]|]. intros ?.
      destruct (_ || _ || _); [apply triple_result; constructor|].
      apply triple_map_error. eapply triple_impl; [by apply commits_rename|done|]. by intros [] d l ?. }
    destruct (triple_temporary _ path _ (fun _ _ l => once name content old l) Hp Hbody w H2) as (l & Ht & Hr). exists l. split; [exact Ht|].
    rewrite !app_assoc, <- (app_assoc l1). destruct ((with_temporary _ _ o w).2); [by apply once_app_l|left; by apply Forall_app]. }
  intros ? l4 w Hw. cbn beta in Hw.
  destruct (quietly_map_error _ io_error _ _ (quietly_readonly (fun _ => True) (sync_directory "") (readonly_look o _) stable_true) w I) as (l & Ht & Hl & _).
  exists l. split; [exact Ht|]. assert (Hall : once name content old ((l1 ++ l2 ++ l3 ++ l4) ++ l)) by (by apply once_app_r).
  rewrite <- !app_assoc in Hall. destruct ((io (sync_directory "") o w).2); [done|by right].
Qed.
End Commit.
(** *** A call of the console *)

Definition returns {E A} (m : Prog E A) (phi : A -> Prop) : Prop := forall w a, (m o w).2 = Ok a -> phi a.
Lemma returns_then {E A B} (m : Prog E A) (k : A -> Prog E B) phi psi :
  returns m phi -> (forall a, phi a -> returns (k a) psi) -> returns (m ≫= k) psi.
Proof.
  intros Hm Hk w b. unfold mbind, prog_bind. destruct (m o w) as [w1 [a|e]] eqn:Em; [|done]. apply Hk. eapply Hm. by rewrite Em.
Qed.
Lemma returns_true {E A} (m : Prog E A) : returns m (fun _ => True). Proof. done. Qed.

Definition true_revision (f : ConfigFile) : Prop := cf_revision f = digest (cf_bytes f).

Lemma file_revision dir name : returns (read_config_file digest dir name) true_revision.
Proof.
  unfold read_config_file. eapply returns_then; [apply returns_true|]. intros [h before] _. destruct (_ <? _); [by intros w a|].
  eapply returns_then; [apply returns_true|]. intros bytes _. destruct (_ <? _); [by intros w a|].
  do 3 (eapply returns_then; [apply returns_true|]; intros ? _). destruct (_ || _); [by intros w c|]. by intros w c [= <-].
Qed.

Lemma set_revisions : returns (read_set digest) (fun m => forall k f, m !! k = Some f -> true_revision f).
Proof.
  unfold read_set. eapply returns_then; [apply returns_true|]. intros names _.
  assert (H : forall (acc : Prog OperationError (gmap string ConfigFile)),
    returns acc (fun m => forall k f, m !! k = Some f -> true_revision f) ->
    returns (foldl (fun (acc : Prog OperationError (gmap string ConfigFile)) name =>
           m ← acc; file ← read_config_file digest "" name; mret (<[name := file]> m)) acc names)
      (fun m => forall k f, m !! k = Some f -> true_revision f)).
  { induction names as [|n names IH]; intros acc Hacc; [done|]. cbn [foldl]. apply IH. eapply returns_then; [apply Hacc|]. intros m Hm.
    eapply returns_then; [apply file_revision|]. intros file Hf w a [= <-] k f. rewrite lookup_insert_Some. naive_solver. }
  apply H. by intros w a [= <-].
Qed.

Lemma quietly_returns {E A} J (m : Prog E A) phi : quietly J m (fun _ => J) -> returns m phi -> quietly J m (fun a d => J d /\ phi a).
Proof.
  intros Hm Hr w Hw. destruct (Hm w Hw) as (l & Ht & Hl & Hq). exists l. split; [done|]. split; [done|].
  destruct ((m o w).2) as [a|] eqn:Em; [|done]. split; [done|]. by eapply Hr.
Qed.

Lemma quietly_lock : quietly (fun _ => True) config_write_lock (fun _ _ => True).
Proof.
  unfold config_write_lock, io. eapply quietly_bind; [apply quietly_map_error, quietly_readonly; [apply readonly_canonical|apply stable_true]|]. intros ?.
  eapply quietly_bind with (Q := fun _ _ => True).
  { apply quietly_map_error, triple_attempt. eapply triple_impl; [apply (quietly_create (fun _ => True) ("", WRITE_LOCK)); [by right|done|by intros]|done|].
    intros r d l [? _]. by split. }
  intros created. eapply quietly_bind with (Q := fun _ _ => True).
  { eapply quietly_impl; [apply quietly_readonly; [|apply stable_true]|done|done]. destruct created; readonly. }
  intros ?. apply quietly_map_error, (triple_syscall o _ (fun n d => if locked o n then _ else Ok (d, ()))). intros n d _.
  split; [split; [|done]; by repeat constructor|]. intros d' [] H. destruct (locked o n); [done|]. injection H as <-. split; [|done]. by repeat constructor.
Qed.

(** The files validation sees. *)
Definition candidate (name content : string) (original : gmap string ConfigFile) : gmap string string :=
  map_imap (fun file_name file => Some (if String.eqb file_name name then content else cf_bytes file)) original.

(** What a write may have done. *)
Definition written (name content expected : string) (validate : gmap string string -> result OperationError ())
    (res : result OperationError ConfigContent) (l : list (Disk * Disk)) : Prop :=
  (Forall quiet l /\ (is_ok res = true -> digest content = expected)) \/
  exists original current,
    original !! name = Some current /\ digest (cf_bytes current) = expected /\ cf_bytes current <> content /\
    validate (candidate name content original) = Ok () /\ once name content (cf_bytes current) l.

Lemma write_trace r name content expected validate w :
  exists l, w_trace (write_config_checked digest r name content expected validate o w).1 = w_trace w ++ l /\
    written name content expected validate (write_config_checked digest r name content expected validate o w).2 l.
Proof.
  set (post := fun (res : result OperationError ConfigContent) (d : Disk) l => written name content expected validate res l).
  assert (Hquiet : forall (e : OperationError) d l, Forall quiet l -> post (Err e) d l) by (intros e d l Hl; left; split; [done|intros H; discriminate H]).
  enough (H : triple o (fun _ => True) (write_config_checked digest r name content expected validate) post) by (by apply H).
  unfold write_config_checked. destruct (negb (is_revision expected)); [apply triple_result; intros; by apply Hquiet|].
  assert (Hbind : forall {A} (m : Prog OperationError A) (k : A -> Prog OperationError ConfigContent) (I : Disk -> Prop) Q l0,
    quietly I m Q -> Forall quiet l0 ->
    (forall a l1, Forall quiet l1 -> triple o (Q a) (k a) (fun res d l => post res d (l1 ++ l))) ->
    triple o I (m ≫= k) (fun res d l => post res d (l0 ++ l))).
  { intros A m k I0 Q l0 Hm Hl0 Hk. eapply (triple_bind o _ _ _ (fun a d l => Forall quiet l /\ Q a d)).
    - eapply triple_impl; [apply Hm|done|]. intros [] d l [? ?]; [done|]. apply Hquiet. by apply Forall_app.
    - intros a l1 w0 [Hl1 Hq]. assert (Hl : Forall quiet (l0 ++ l1)) by (by apply Forall_app).
      destruct (Hk a (l0 ++ l1) Hl w0 Hq) as (l & ? & ?). exists l. split; [done|]. by rewrite app_assoc. }
  apply (Hbind _ _ _ _ (fun _ _ => True) []); [apply quietly_lock|constructor|]. intros ? l1 Hl1.
  apply (Hbind _ _ _ _ (fun m _ => forall k f, m !! k = Some f -> true_revision f) l1); [|done|].
  { eapply quietly_impl; [apply quietly_returns; [apply quietly_readonly; [apply readonly_set|apply stable_true]|apply set_revisions]|done|]. by intros m d [_ ?]. }
  intros original l2 Hl2. destruct (original !! name) as [current|] eqn:Ec; cbn [ok_or]; [|].
  2: { intros w0 _. exists []. rewrite !app_nil_r. split; [done|]. by apply Hquiet. }
  apply (Hbind _ _ _ _ (fun c _ => c = current /\ true_revision current) l2); [|done|].
  { apply triple_result. intros d H. split; [constructor|]. split; [done|]. by eapply H. }
  intros c l3 Hl3. destruct (String.eqb_spec (cf_revision c) expected) as [He|He]; cbn [negb].
  2: { intros w0 _. exists []. rewrite !app_nil_r. split; [done|]. by apply Hquiet. }
  fold (candidate name content original). destruct (validate (candidate name content original)) as [[]|e] eqn:Ev.
  2: { intros w0 _. exists []. rewrite !app_nil_r. split; [done|]. by apply Hquiet. }
  set (J := fun _ : Disk => c = current /\ true_revision current). assert (HJ : stable o J) by (by intros n d ?).
  apply (Hbind _ _ _ _ (fun _ => J) l3); [apply quietly_readonly; [apply readonly_result|done]|done|]. intros ? l4 Hl4.
  apply (Hbind _ _ _ _ (fun _ => J) l4); [apply quietly_readonly; [apply readonly_ensure|done]|done|]. intros ? l5 Hl5.
  destruct (String.eqb_spec content (cf_bytes c)) as [Hsame|Hne].
  { intros w0 [-> Hrev]. destruct (quietly_readonly (fun _ => True) _ (readonly_config o digest r {[ "name" := JString name ]}) stable_true w0 I) as (l & Ht & Hl & _).
    exists l. split; [done|]. left. split; [by apply Forall_app|]. intros _. rewrite Hsame, <- Hrev. done. }
  apply (Hbind _ _ _ _ (fun _ d => J d /\ backed name (cf_bytes c) d) l5); [|done|].
  { intros w0 HJ0. destruct (quietly_backup name (cf_bytes c) w0 I) as (l & Ht & Hl & Hb). exists l. split; [done|]. split; [done|].
    destruct ((backup digest name (cf_bytes c) o w0).2); [by split|done]. }
  intros ? l6 Hl6. apply (Hbind _ _ _ _ (fun _ d => J d /\ backed name (cf_bytes c) d) l6); [|done|].
  { apply quietly_readonly; [apply readonly_ensure|apply stable_and; [done|apply stable_backed]]. }
  intros ? l7 Hl7 w0 [[-> Hrev] Hb].
  assert (Hone : forall res l, once name content (cf_bytes current) l -> written name content expected validate res (l7 ++ l)).
  { intros res l Hl. right. exists original, current. split_and!; [done|by rewrite <- Hrev|by apply not_eq_sym|done|by apply once_app_l]. }
  destruct (replace_commits name content (cf_bytes current) w0 Hb) as (l & Ht & Hl). unfold mbind, prog_bind.
  destruct (atomic_replace name content o w0) as [w1 [[]|e]]; cbn [fst snd] in *.
  - destruct (quietly_readonly (fun _ => True) _ (readonly_config o digest r {[ "name" := JString name ]}) stable_true w1 I) as (l' & Ht' & Hl' & _).
    exists (l ++ l'). rewrite Ht', Ht, app_assoc. split; [done|]. apply Hone. by apply once_app_r.
  - exists l. split; [done|]. destruct Hl as [Hl|Hl]; [apply (Hquiet e (w_disk w1)); by apply Forall_app|by apply Hone].
Qed.
End Writing.

(** ** The newest backups *)

Lemma insert_id_perm id l : id ∉ l -> insert_id id l ≡ₚ id :: l.
Proof.
  induction l as [|x l IH]; intros Hn; cbn [insert_id]; [done|]. apply not_elem_of_cons in Hn as [Hx Hn].
  destruct (String.eqb_spec id x); [done|]. case_match; [done|]. rewrite IH by done. apply Permutation_swap.
Qed.
Lemma insert_id_head id l : StronglySorted String.le (id :: l) -> id ∉ l -> insert_id id l = id :: l.
Proof.
  destruct l as [|x l]; [done|]. intros H Hn. apply not_elem_of_cons in Hn as [Hx _]. cbn [insert_id]. destruct (String.eqb_spec id x); [done|].
  apply StronglySorted_inv in H as [_ H]. apply Forall_cons in H as [H _]. apply Is_true_true in H. by rewrite H.
Qed.
Lemma insert_id_sorted id l : id ∉ l -> StronglySorted String.le l -> StronglySorted String.le (insert_id id l).
Proof.
  induction l as [|x l IH]; intros Hn Hs; cbn [insert_id]; [by repeat constructor|]. apply not_elem_of_cons in Hn as [Hx Hn].
  destruct (String.eqb_spec id x); [done|]. apply StronglySorted_inv in Hs as [Hs Hall]. destruct (String.leb id x) eqn:E.
  - constructor; [by constructor|]. constructor; [by apply Is_true_true|]. eapply Forall_impl; [exact Hall|]. intros y Hy. cbn in Hy.
    trans x; [by apply Is_true_true|done].
  - constructor; [by apply IH|]. rewrite insert_id_perm by done. constructor; [|done].
    destruct (String.leb_total id x) as [H|H]; [congruence|by apply Is_true_true].
Qed.

Lemma StronglySorted_drop {A} (R : A -> A -> Prop) k l : StronglySorted R l -> StronglySorted R (drop k l).
Proof. revert k. induction l as [|x l IH]; intros [|k] Hs; cbn [drop]; try done. apply IH. by apply StronglySorted_inv in Hs as [? _]. Qed.
Lemma not_elem_of_drop {A} (x : A) k l : x ∉ l -> x ∉ drop k l.
Proof. intros Hn H. apply Hn. rewrite <- (take_drop k l). apply elem_of_app. by right. Qed.

(** Dropping the smallest commutes with insertion. *)
Lemma tail_insert_id k id l : StronglySorted String.le l -> id ∉ l -> (k <= length l)%nat ->
  drop (S k) (insert_id id l) = tail (insert_id id (drop k l)).
Proof.
  revert k. induction l as [|x l IH]; intros k Hs Hn Hk; [by destruct k; [|cbn in Hk; lia]|]. destruct k as [|k].
  { cbn [drop]. by destruct (insert_id id (x :: l)). }
  apply not_elem_of_cons in Hn as [Hx Hn]. apply StronglySorted_inv in Hs as [Hs Hall]. cbn [insert_id]. destruct (String.eqb_spec id x); [done|].
  change (drop (S k) (x :: l)) with (drop k l). destruct (String.leb id x) eqn:E; [|apply IH; [done|done|cbn in Hk; lia]].
  change (drop (S (S k)) (id :: x :: l)) with (drop k l). rewrite insert_id_head; [done| |].
  - constructor; [by apply StronglySorted_drop|]. apply Forall_drop. eapply Forall_impl; [exact Hall|]. intros y Hy. cbn in Hy.
    trans x; [by apply Is_true_true|done].
  - by apply not_elem_of_drop.
Qed.

Lemma keep_newest_spec ids : NoDup ids ->
  exists sorted, sorted ≡ₚ ids /\ StronglySorted String.le sorted /\
    foldl keep_newest ([], false) ids = (drop (length ids - MAX_BACKUPS) sorted, bool_decide (MAX_BACKUPS < length ids)%nat).
Proof.
  induction ids as [|id ids IH] using rev_ind; intros Hnd; [exists []; split_and!; [done|constructor|done]|].
  apply NoDup_snoc in Hnd as [Hnd Hid]. destruct (IH Hnd) as (sorted & Hp & Hs & Hf). rewrite foldl_snoc, Hf. unfold keep_newest. cbn [fst snd].
  assert (Hns : id ∉ sorted) by (by rewrite Hp). pose proof (Permutation_length Hp) as Hlen. exists (insert_id id sorted). split_and!.
  - rewrite insert_id_perm by done. by rewrite Hp, Permutation_cons_append.
  - by apply insert_id_sorted.
  - assert (Hl : length (insert_id id (drop (length ids - MAX_BACKUPS) sorted)) = S (length ids - (length ids - MAX_BACKUPS))).
    { rewrite insert_id_perm; [cbn [length]; rewrite length_drop; lia|]. by apply not_elem_of_drop. }
    rewrite Hl, length_app. cbn [length]. destruct (Nat.ltb_spec MAX_BACKUPS (S (length ids - (length ids - MAX_BACKUPS)))) as [Hlt|Hle].
    + rewrite <- tail_insert_id by (done || lia). f_equal; [f_equal; lia|]. symmetry. apply bool_decide_eq_true. lia.
    + assert (length ids - MAX_BACKUPS = 0)%nat as -> by lia. assert (length ids + 1 - MAX_BACKUPS = 0)%nat as -> by lia. cbn [drop].
      f_equal. apply bool_decide_ext. lia.
Qed.

(** A list of backups shows the newest ones: the ids of the directory in
    order, of which all but the last 200 are dropped, and it says so. *)
Theorem newest_backups entries : NoDup entries.*1 ->
  exists sorted, sorted ≡ₚ (filter (fun e => is_ok_id e.1 = true /\ fi_kind e.2 = RegularFile) entries).*1 /\
    StronglySorted String.le sorted /\
    newest_ids entries = (drop (length sorted - MAX_BACKUPS) sorted, bool_decide (MAX_BACKUPS < length sorted)%nat).
Proof.
  intros Hnd. destruct (keep_newest_spec (filter (fun e => is_ok_id e.1 = true /\ fi_kind e.2 = RegularFile) entries).*1) as (sorted & Hp & Hs & Hf).
  { by apply Startup.NoDup_filter_fmap. }
  exists sorted. split_and!; [done..|]. unfold newest_ids. by rewrite Hf, (Permutation_length Hp).
Qed.

(** C16: a write changes one configuration file, once, and only after a
    complete backup.  Other programs may edit the configuration files before
    every single call, every call may fail, and a failed write may leave any
    bytes; only the private files of the console are its own.  Then a write
    either changes no configuration file at all (and succeeds only if the
    content has the expected revision already), or exactly one call replaces
    exactly the named file by exactly the new content: the bytes that were read
    had the expected revision, validation accepted the set with the new content,
    and at that moment a complete backup of the bytes that were read is on disk
    under a valid backup id. *)
Theorem config_write_commits_once o digest r name content expected validate w :
  (forall n files p, private p -> edits o n files !! p = files !! p) ->
  (forall s, is_revision (digest s) = true) ->
  exists l, w_trace (write_config_checked digest r name content expected validate o w).1 = w_trace w ++ l /\
    written digest name content expected validate (write_config_checked digest r name content expected validate o w).2 l.
Proof. intros Hothers Hdigest. by apply write_trace. Qed.

(** ** Witness *)

Definition sample_digest (s : string) : string := text (hex_digits 64 (foldl (fun a c => a * 256 + code c) 0 (chars s))).
Lemma sample_digests s : is_revision (sample_digest s) = true.
Proof.
  unfold is_revision, sample_digest. rewrite string_length_chars, list_ascii_of_string_of_list_ascii, length_hex_digits.
  by rewrite hex_digits_digits.
Qed.
(** Nobody else is at work. *)
Definition calm_outside : Outside :=
  {| edits := fun _ files => files; fails := fun _ => None; torn := fun _ => ""; locked := fun _ => false; clock := fun n => 1000 + Z.of_nat n;
     new_identity := fun n => "dev:" +:+ String (ascii_of_nat n) "" |}.
Definition plain_file (identity bytes : string) : File :=
  {| fi_identity := identity; fi_kind := RegularFile; fi_links := 1; fi_modified := 7; fi_bytes := bytes |}.
Definition sample_world : World :=
  {| w_disk := {| dk_files := <[("", "config.toml") := plain_file "a" "old"]> {[ ("", "rcd1.csv") := plain_file "b" "table" ]};
                  dk_dirs := {[ "" := true ]} |}; w_calls := 0; w_counter := 0; w_trace := [] |}.
Definition sample_repository : FileRepository := {| fr_log_dir := "logs"; fr_log_basename := "rcd"; fr_active_revisions := ∅ |}.
Definition sample_write (expected : string) : World * result OperationError ConfigContent :=
  write_config_checked sample_digest sample_repository "config.toml" "new" expected (fun _ => Ok ()) calm_outside sample_world.

Lemma config_write_commits_once_witness :
  (cc_content <$> (sample_write (sample_digest "old")).2 = Ok "new" /\
   dk_files (w_disk (sample_write (sample_digest "old")).1) !! ("", "config.toml") <> None) /\
  exists l, w_trace (sample_write (sample_digest "old")).1 = w_trace sample_world ++ l /\
    written sample_digest "config.toml" "new" (sample_digest "old") (fun _ => Ok ()) (sample_write (sample_digest "old")).2 l.
Proof.
  split; [split; [vm_compute; reflexivity|vm_compute; discriminate]|].
  apply (config_write_commits_once calm_outside sample_digest sample_repository "config.toml" "new" (sample_digest "old") (fun _ => Ok ())
           sample_world); [reflexivity|apply sample_digests].
Defined.

(** The write before with an outdated revision: a conflict that names the
    current one. *)
Example stale_write_conflicts :
  (sample_write (sample_digest "older")).2
  = Err (with_revision (op_error "conflict" "配置已被修改，请重新读取") (sample_digest "old")).
Proof. vm_compute. reflexivity. Qed.
