(* ===== verification/ConfigWrite.v ===== *)
(** * The configuration files of the console as a map that is written by
      compare and swap

    What the calls of [ConfigFiles] amount to when nobody interferes and
    nothing fails: the configuration files are a map from names to contents,
    and [write_config_checked] refines one compare-and-swap on it. *)

From S2P Require Import Prelude RustStr Utf8 Parser Maintenance LogFiles ConfigSet ConfigFiles.
Open Scope string_scope.
Open Scope Z_scope.
Open Scope list_scope.

(** Nobody edits, nothing fails, nobody holds the lock. *)
Record calm (o : Outside) : Prop := {
  calm_edits : forall n files, edits o n files = files;
  calm_fails : forall n, fails o n = None;
  calm_lock : forall n, locked o n = false
}.

(** Real directories, regular files that are not too large, and no left-over
    temporary files. *)
Record tidy (d : Disk) : Prop := {
  td_root : dk_dirs d !! "" = Some true;
  td_dirs : forall x v, dk_dirs d !! x = Some v -> v = true;
  td_files : forall p f, dk_files d !! p = Some f -> fi_kind f = RegularFile /\ fi_links f = 1;
  td_sizes : forall k f, allowed_config k = true -> dk_files d !! ("", k) = Some f -> slen (fi_bytes f) <= MAX_CONFIG_BYTES;
  td_clean : forall p, is_Some (dk_files d !! p) -> String.prefix ".rcd-operations-" p.2 = false /\ String.prefix ".pending-" p.2 = false
}.

Section Calm.
Context (o : Outside) (digest : string -> string).
Hypothesis quiet_outside : calm o.
Hypothesis digests : forall s, is_revision (digest s) = true.

(** The result and the disk a program ends with. *)
Definition ends {E A} (m : Prog E A) (d : Disk) (Q : result E A -> Disk -> Prop) : Prop :=
  forall w, w_disk w = d -> Q (m o w).2 (w_disk (m o w).1).
(** A program that gives [a] and leaves the disk alone. *)
Definition gives {E A} (m : Prog E A) (d : Disk) (a : A) : Prop := ends m d (fun r d1 => r = Ok a /\ d1 = d).

Lemma ends_then {E A B} (m : Prog E A) (k : A -> Prog E B) d Q :
  ends m d (fun r d1 => match r with Ok a => ends (k a) d1 Q | Err e => Q (Err e) d1 end) -> ends (m ≫= k) d Q.
Proof. intros H w Hw. specialize (H w Hw). unfold mbind, prog_bind. destruct (m o w) as [w1 [a|e]]; cbn [fst snd] in *; [by apply H|done]. Qed.
Lemma ends_after {E A B} (m : Prog E A) (k : A -> Prog E B) d a Q : gives m d a -> ends (k a) d Q -> ends (m ≫= k) d Q.
Proof. intros Hm Hk. apply ends_then. intros w Hw. destruct (Hm w Hw) as [-> ->]. exact Hk. Qed.
Lemma ends_impl {E A} (m : Prog E A) d (Q Q' : result E A -> Disk -> Prop) : ends m d Q -> (forall r d1, Q r d1 -> Q' r d1) -> ends m d Q'.
Proof. intros H Hq w Hw. by apply Hq, H. Qed.
Lemma ends_result {E A} (r : result E A) d (Q : result E A -> Disk -> Prop) : Q r d -> ends (of_result r) d Q.
Proof. by intros H w <-. Qed.
Lemma gives_ret {E A} (a : A) d : gives (mret a : Prog E A) d a.
Proof. by intros w <-. Qed.
Lemma gives_ok {E A} (a : A) d : gives (of_result (Ok a : result E A)) d a.
Proof. by intros w <-. Qed.
Lemma ends_map_error {E F A} (f : E -> F) (m : Prog E A) d Q : ends m d (fun r d1 => Q (map_err f r) d1) -> ends (map_error f m) d Q.
Proof. intros H w Hw. specialize (H w Hw). unfold map_error. by destruct (m o w) as [w1 r]. Qed.
Lemma gives_map_error {E F A} (f : E -> F) (m : Prog E A) d a : gives m d a -> gives (map_error f m) d a.
Proof. intros H. apply ends_map_error. eapply ends_impl; [exact H|]. by intros r d1 [-> ->]. Qed.
Lemma ends_attempt {E A} (m : Prog E A) d Q : ends m d (fun r d1 => Q (Ok r) d1) -> ends (attempt m) d Q.
Proof. intros H w Hw. specialize (H w Hw). unfold attempt. by destruct (m o w) as [w1 r]. Qed.

Lemma set_same_files d : set_files d (dk_files d) = d. Proof. by destruct d. Qed.

Lemma ends_syscall {A} (f : nat -> Disk -> result IoError (Disk * A)) d Q :
  (forall n, match f n d with Ok (d', a) => Q (Ok a) d' | Err e => Q (Err e) d end) -> ends (syscall f) d Q.
Proof.
  intros H w <-. unfold syscall. rewrite (calm_edits o quiet_outside), (calm_fails o quiet_outside), set_same_files.
  specialize (H (w_calls w)). destruct (f (w_calls w) (w_disk w)) as [[d' a]|e]; exact H.
Qed.
Lemma ends_looking {A} (f : Disk -> result IoError A) d Q : Q (f d) d -> ends (look f) d Q.
Proof. intros H. apply ends_syscall. intros _. destruct (f d); exact H. Qed.
Lemma gives_look {A} (f : Disk -> result IoError A) d a : f d = Ok a -> gives (look f) d a.
Proof. intros H. by apply ends_looking. Qed.

(** *** Reading *)

Lemma gives_canonical d dir : dk_dirs d !! dir = Some true -> gives (canonical_directory dir) d ().
Proof. intros H. unfold canonical_directory. eapply ends_after; [apply gives_look; by rewrite H|]. by apply gives_look. Qed.

Lemma regular_ok f : fi_kind f = RegularFile /\ fi_links f = 1 -> check_regular f = Ok ().
Proof. intros [H1 H2]. unfold check_regular. by rewrite H1, H2. Qed.

Lemma gives_open d dir name f : tidy d -> safe_name name = true -> dk_dirs d !! dir = Some true -> dk_files d !! (dir, name) = Some f ->
  gives (open_regular dir name) d ({| ha_path := (dir, name); ha_file := f |}, f).
Proof.
  intros Ht Hs Hd Hf. pose proof (td_files d Ht _ _ Hf) as Hr. pose proof (regular_ok f Hr) as Hreg. unfold open_regular. rewrite Hs. cbn [negb].
  eapply ends_after; [by apply gives_map_error, gives_canonical|]. eapply ends_after; [apply gives_map_error, gives_look; by rewrite Hf|].
  eapply ends_after; [rewrite Hreg; apply gives_ok|]. eapply ends_after; [apply gives_map_error, gives_look; by rewrite Hf|].
  assert (Hb : behind {| ha_path := (dir, name); ha_file := f |} d = f) by (unfold behind; cbn; by rewrite Hf, String.eqb_refl).
  eapply ends_after; [apply gives_map_error, gives_look; by rewrite Hb|]. eapply ends_after; [rewrite Hreg; apply gives_ok|].
  eapply ends_after; [apply gives_map_error, gives_look; by rewrite Hf|]. eapply ends_after; [rewrite Hreg; apply gives_ok|].
  rewrite String.eqb_refl. cbn [negb orb]. eapply ends_after; [apply gives_map_error, gives_look; by rewrite Hf|]. apply gives_ret.
Qed.

Lemma gives_file d dir name f : tidy d -> safe_name name = true -> dk_dirs d !! dir = Some true -> dk_files d !! (dir, name) = Some f ->
  slen (fi_bytes f) <= MAX_CONFIG_BYTES -> gives (read_config_file digest dir name) d (config_from_bytes digest (fi_bytes f)).
Proof.
  intros Ht Hs Hd Hf Hsize. pose proof (regular_ok f (td_files d Ht _ _ Hf)) as Hreg. unfold read_config_file.
  eapply ends_after; [by apply gives_open|]. cbn beta iota. rewrite (proj2 (Z.ltb_ge _ _) Hsize).
  assert (Hb : behind {| ha_path := (dir, name); ha_file := f |} d = f) by (unfold behind; cbn; by rewrite Hf, String.eqb_refl).
  assert (Hall : text (take (Z.to_nat (MAX_CONFIG_BYTES + 1)) (chars (fi_bytes f))) = fi_bytes f).
  { rewrite take_ge, string_of_list_ascii_of_string; [done|]. unfold slen in Hsize. rewrite string_length_chars in Hsize. lia. }
  eapply ends_after; [apply gives_map_error, gives_look; rewrite Hb, Hall; reflexivity|]. rewrite (proj2 (Z.ltb_ge _ _) Hsize).
  eapply ends_after; [apply gives_map_error, gives_look; by rewrite Hb|]. eapply ends_after; [apply gives_map_error, gives_look; by rewrite Hf|].
  eapply ends_after; [rewrite Hreg; apply gives_ok|]. rewrite !Z.eqb_refl, String.eqb_refl. apply gives_ret.
Qed.

Lemma allowed_safe k : allowed_config k = true -> safe_name k = true.
Proof. unfold allowed_config. by intros [? _]%andb_true_iff. Qed.

Lemma elem_of_entries (d : Disk) dir k : k ∈ (((fun pf => (pf.1.2, pf.2)) <$> filter (fun pf => pf.1.1 = dir) (map_to_list (dk_files d))).*1 : list string) <->
  is_Some (dk_files d !! (dir, k)).
Proof.
  rewrite list_elem_of_fmap. split.
  - intros ([k' f] & -> & ([[dir' k''] f'] & [= -> ->] & [Hd Hin]%list_elem_of_filter)%list_elem_of_fmap). cbn in Hd |- *. subst.
    apply elem_of_map_to_list in Hin. by eexists.
  - intros [f Hf]. exists (k, f). split; [done|]. apply list_elem_of_fmap. exists ((dir, k), f). split; [done|].
    apply list_elem_of_filter. split; [done|]. by apply elem_of_map_to_list.
Qed.

(** The names of the configuration files. *)
Definition allowed_names (d : Disk) : list string :=
  filter (fun k => allowed_config k = true)
    ((fun pf => (pf.1.2, pf.2)) <$> filter (fun pf => pf.1.1 = "") (map_to_list (dk_files d))).*1.

Lemma gives_names d : tidy d -> gives (config_names "") d (sort_strings (allowed_names d)).
Proof.
  intros Ht. unfold config_names. eapply ends_after; [apply gives_map_error, gives_canonical, (td_root d Ht)|].
  eapply ends_after; [apply gives_map_error, gives_look; by rewrite (td_root d Ht)|]. eapply ends_after; [|apply gives_ret].
  unfold allowed_names. pose proof (elem_of_entries d "") as Hin. revert Hin. generalize ((fun pf : string * string * File => (pf.1.2, pf.2)) <$> filter (fun pf => pf.1.1 = "") (map_to_list (dk_files d))).*1.
  intros names Hin. assert (H : forall k, k ∈ names -> is_Some (dk_files d !! ("", k))) by (intros k; apply Hin). clear Hin.
  induction names as [|k names IH]; [apply gives_ret|]. cbn [foldr]. rewrite filter_cons.
  assert (IH' := IH ltac:(intros; apply H; set_solver)). destruct (allowed_config k) eqn:Ek.
  - rewrite decide_True by done. destruct (H k) as [f Hf]; [set_solver|].
    eapply ends_after; [apply gives_map_error, gives_look; by rewrite Hf|].
    eapply ends_after; [rewrite (regular_ok f) by (by eapply td_files); apply gives_ok|]. eapply ends_after; [exact IH'|]. apply gives_ret.
  - rewrite decide_False by done. exact IH'.
Qed.
(** ** The files as a map *)

(** The configuration files of a disk. *)
Definition configs (d : Disk) : gmap string string :=
  list_to_map ((fun k => (k, default "" (fi_bytes <$> dk_files d !! ("", k)))) <$> allowed_names d).

Lemma elem_of_allowed d k : k ∈ allowed_names d <-> allowed_config k = true /\ is_Some (dk_files d !! ("", k)).
Proof. unfold allowed_names. by rewrite list_elem_of_filter, elem_of_entries. Qed.

Lemma lookup_keyed {A} (g : string -> A) l k : (list_to_map ((fun k => (k, g k)) <$> l) : gmap string A) !! k = if decide (k ∈ l) then Some (g k) else None.
Proof.
  induction l as [|x l IH]; [by rewrite decide_False by (by intros ?%elem_of_nil)|]. cbn. destruct (decide (x = k)) as [->|Hne].
  - rewrite lookup_insert_eq, decide_True; [done|]. by left.
  - rewrite lookup_insert_ne by done. rewrite IH. apply decide_ext. rewrite elem_of_cons. naive_solver.
Qed.

Lemma lookup_configs d k : configs d !! k = if allowed_config k then fi_bytes <$> dk_files d !! ("", k) else None.
Proof.
  unfold configs. rewrite lookup_keyed. destruct (decide (k ∈ allowed_names d)) as [[Ha [f Hf]]%elem_of_allowed|Hno].
  - by rewrite Ha, Hf.
  - rewrite elem_of_allowed in Hno. destruct (allowed_config k); [|done]. destruct (dk_files d !! ("", k)) eqn:Ef; [|done].
    destruct Hno. split; [done|]. by eexists.
Qed.

(** A call on private files leaves the map alone. *)
Lemma configs_private d files dirs p f : private p -> files = <[p := f]> (dk_files d) -> configs {| dk_files := files; dk_dirs := dirs |} = configs d.
Proof.
  intros Hp ->. apply map_eq. intros k. rewrite !lookup_configs. destruct (allowed_config k) eqn:Ek; [|done]. cbn.
  rewrite lookup_insert_ne; [done|]. by apply private_not_config.
Qed.
Lemma configs_written d name f : allowed_config name = true ->
  configs (set_files d (<[("", name) := f]> (dk_files d))) = <[name := fi_bytes f]> (configs d).
Proof.
  intros Ha. apply map_eq. intros k. rewrite lookup_configs. cbn. destruct (decide (k = name)) as [->|Hne].
  - by rewrite Ha, !lookup_insert_eq.
  - rewrite !lookup_insert_ne by congruence. symmetry. apply lookup_configs.
Qed.

Definition gives_loop_set (g : string -> ConfigFile) (names : list string) (m : gmap string ConfigFile) : gmap string ConfigFile :=
  foldl (fun m k => <[k := g k]> m) m names.
Lemma lookup_loop_set g names m k : gives_loop_set g names m !! k = if decide (k ∈ names) then Some (g k) else m !! k.
Proof.
  revert m. induction names as [|x names IH]; intros m; cbn; [by rewrite decide_False by (by intros ?%elem_of_nil)|].
  unfold gives_loop_set in IH. rewrite IH. destruct (decide (k ∈ names)); [rewrite decide_True; [done|by right]|].
  destruct (decide (x = k)) as [->|Hne]; [rewrite lookup_insert_eq, decide_True; [done|by left]|].
  rewrite lookup_insert_ne, decide_False; [done| |done]. rewrite elem_of_cons. naive_solver.
Qed.

Lemma gives_set d : tidy d -> gives (read_set digest) d (config_from_bytes digest <$> configs d).
Proof.
  intros Ht. unfold read_set. eapply ends_after; [by apply gives_names|].
  set (g := fun k => config_from_bytes digest (default "" (fi_bytes <$> dk_files d !! ("", k)))).
  assert (Hloop : forall names (acc : Prog OperationError (gmap string ConfigFile)) m, (forall k, k ∈ names -> k ∈ allowed_names d) -> gives acc d m ->
    gives (foldl (fun (acc : Prog OperationError (gmap string ConfigFile)) name =>
           m ← acc; file ← read_config_file digest "" name; mret (<[name := file]> m)) acc names) d (gives_loop_set g names m)).
  { induction names as [|k names IH]; intros acc m Hin Hacc; [exact Hacc|]. cbn [foldl]. apply IH; [intros; apply Hin; by right|].
    destruct (proj1 (elem_of_allowed d k)) as [Ha [f Hf]]; [apply Hin; by left|].
    eapply ends_after; [exact Hacc|]. eapply ends_after; [|apply gives_ret].
    unfold g. rewrite Hf. apply gives_file; [done|by apply allowed_safe|apply (td_root d Ht)|done|by eapply td_sizes]. }
  replace (config_from_bytes digest <$> configs d) with (gives_loop_set g (sort_strings (allowed_names d)) ∅).
  { apply Hloop; [|apply gives_ret]. intros k. by rewrite sort_strings_perm. }
  apply map_eq. intros k. rewrite lookup_loop_set, lookup_fmap. unfold configs. rewrite lookup_keyed.
  destruct (decide (k ∈ sort_strings (allowed_names d))) as [Hk|Hk]; rewrite sort_strings_perm in Hk; [by rewrite decide_True|by rewrite decide_False].
Qed.

Lemma gives_unchanged d : tidy d -> gives (ensure_config_set_unchanged digest (config_from_bytes digest <$> configs d)) d ().
Proof.
  intros Ht. unfold ensure_config_set_unchanged. eapply ends_after; [by apply gives_set|]. rewrite Nat.eqb_refl. cbn [negb].
  set (m := config_from_bytes digest <$> configs d). unfold first_changed.
  destruct (filter _ (btree_iter m)) as [|[k f] l] eqn:Ef; [apply gives_ret|].
  assert (Hin : (k, f) ∈ (k, f) :: l) by (by left). rewrite <- Ef in Hin. apply list_elem_of_filter in Hin as [Hno Hin%elem_of_btree_iter].
  destruct Hno. cbn. by rewrite Hin.
Qed.
(** *** Backup ids are harmless names *)

Definition id_char (c : ascii) : bool := is_hexdigit c || Ascii.eqb c "-".

Lemma split_dash_chars cs cur : forallb (forallb is_hexdigit) (split_dash cs cur) = true -> forallb id_char cs = true.
Proof.
  revert cur. induction cs as [|c cs IH]; intros cur H; [done|]. cbn [split_dash] in H. cbn [forallb]. unfold id_char at 1. destruct (Ascii.eqb c "-") eqn:Ec.
  - cbn [forallb] in H. apply andb_true_iff in H as [_ H]. rewrite orb_true_r. by eapply IH.
  - rewrite (IH _ H), orb_false_r, andb_true_r. clear IH. revert cur H. assert (Hin : forall cs cur, In c cur -> forallb (forallb is_hexdigit) (split_dash cs cur) = true -> is_hexdigit c = true).
    { induction cs0 as [|x cs0 IH]; intros cur Hc H; cbn [split_dash] in H.
      - cbn in H. rewrite andb_true_r, forallb_forall in H. apply H. by apply in_rev in Hc.
      - destruct (Ascii.eqb x "-"); [|eapply IH; [|exact H]; by right].
        cbn [forallb] in H. apply andb_true_iff in H as [H _]. rewrite forallb_forall in H. apply H. by apply in_rev in Hc. }
    intros cur H. eapply Hin; [|exact H]. by left.
Qed.

Lemma backup_id_chars id : is_ok_id id = true -> length (chars id) = 114%nat /\ forallb id_char (chars id) = true.
Proof.
  unfold is_ok_id, validate_backup_id. rewrite string_length_chars. destruct (length (chars id) =? 114)%nat eqn:El; [|done]. cbn [negb].
  destruct (forallb (forallb is_hexdigit) (split_dash (chars id) [])) eqn:Ef; [|by rewrite orb_true_r]. intros _.
  split; [by apply Nat.eqb_eq|by eapply split_dash_chars].
Qed.

Lemma prefix_char c s l : String.prefix (String c s) (text l) = true -> In c l.
Proof. destruct l as [|x l]; [done|]. cbn. destruct (ascii_dec c x) as [->|]; [by left|done]. Qed.

Lemma id_char_plain c : id_char c = true ->
  (is_control c || one_of "/\:" c)%bool = false /\ c <> "."%char /\ c <> " "%char.
Proof. destruct c as [[] [] [] [] [] [] [] []]; intros H; vm_compute in H |- *; try discriminate H; split_and!; congruence. Qed.

Lemma backup_id_prefix id c s : is_ok_id id = true -> id_char c = false -> String.prefix (String c s) id = false.
Proof.
  intros [_ H]%backup_id_chars Hc. apply not_true_iff_false. intros Hp. rewrite <- (string_of_list_ascii_of_string id) in Hp.
  apply prefix_char in Hp. rewrite forallb_forall in H. rewrite (H _ Hp) in Hc. done.
Qed.

Lemma backup_id_safe id : is_ok_id id = true -> safe_name id = true.
Proof.
  intros [Hlen Hall]%backup_id_chars. rewrite forallb_forall in Hall. unfold safe_name.
  assert (Hne : forall s, (String.length s < 114)%nat -> String.eqb id s = false).
  { intros s Hs. apply String.eqb_neq. intros ->. rewrite string_length_chars in Hs. lia. }
  rewrite !Hne by (cbn; lia). rewrite string_length_chars, (proj2 (Nat.leb_le _ _)) by lia.
  assert (Hend : forall c, id_char c = false -> ends_with (String c "") id = false).
  { intros c Hc. apply not_true_iff_false. intros Hp%prefix_char. apply in_rev in Hp. rewrite (Hall _ Hp) in Hc. done. }
  rewrite !Hend by done. cbn [negb andb orb]. rewrite negb_true_iff. apply not_true_iff_false. intros (c & Hin & Hc)%existsb_exists.
  by rewrite (proj1 (id_char_plain c (Hall c Hin))) in Hc.
Qed.

Lemma elem_of_insert_id x id l : x ∈ insert_id id l -> x = id \/ x ∈ l.
Proof.
  induction l as [|y l IH]; cbn [insert_id]; [rewrite list_elem_of_singleton; by left|].
  destruct (String.eqb id y); [by right|]. destruct (String.leb id y); rewrite !elem_of_cons; [tauto|]. intros [->|H]; [tauto|]. destruct (IH H); tauto.
Qed.

Lemma newest_ids_valid entries id : id ∈ (newest_ids entries).1 -> is_ok_id id = true /\ id ∈ entries.*1.
Proof.
  unfold newest_ids. set (ids := (filter _ entries).*1).
  assert (H : forall ids st, id ∈ (foldl keep_newest st ids).1 -> id ∈ st.1 \/ id ∈ ids).
  { induction ids0 as [|x ids0 IH]; intros st Hin; [by left|]. cbn [foldl] in Hin. apply IH in Hin as [Hin|Hin]; [|right; by right].
    assert (Hi : id ∈ insert_id x st.1).
    { unfold keep_newest in Hin. destruct (MAX_BACKUPS <? length (insert_id x st.1))%nat; [|exact Hin]. cbn [fst] in Hin.
      destruct (insert_id x st.1); [exact Hin|]. by right. }
    apply elem_of_insert_id in Hi as [->|Hi]; [right; by left|by left]. }
  intros [Hin|Hin]%H; [by apply elem_of_nil in Hin|]. unfold ids in Hin. apply list_elem_of_fmap in Hin as ([k f] & -> & [[Hv _] Hin]%list_elem_of_filter).
  split; [done|]. apply list_elem_of_fmap. by exists (k, f).
Qed.

(** *** The answer of a write *)

Lemma ends_canonical d dir : tidy d ->
  ends (canonical_directory dir) d (fun r d1 => d1 = d /\ r = match dk_dirs d !! dir with Some _ => Ok () | None => Err missing end).
Proof.
  intros Ht. destruct (dk_dirs d !! dir) eqn:Ed.
  - pose proof (td_dirs d Ht _ _ Ed) as ->. eapply ends_impl; [by apply gives_canonical|]. by intros r d1 [-> ->].
  - unfold canonical_directory. apply ends_then, ends_looking. by rewrite Ed.
Qed.

(** A directory that is looked for is there, or it is reported missing. *)
Definition found (d : Disk) (dir : string) (r : result OperationError string) : Prop :=
  r = Ok dir /\ is_Some (dk_dirs d !! dir) \/ exists e, r = Err e /\ oe_code e = "not_found".

Lemma ends_child d parent child : tidy d -> is_Some (dk_dirs d !! parent) ->
  ends (child_directory parent child false) d (fun r d1 => d1 = d /\ found d (join_dir parent child) r).
Proof.
  intros Ht [v Hv]. unfold child_directory. apply ends_then, ends_map_error. eapply ends_impl; [by apply ends_canonical|]. intros r d1 [-> ->]. rewrite Hv. cbn [map_err].
  eapply ends_after; [apply gives_ret|]. apply ends_then, ends_map_error. eapply ends_impl; [by apply ends_canonical|]. intros r d1 [-> ->].
  destruct (dk_dirs d !! join_dir parent child) eqn:Ej; cbn [map_err]; [|split; [done|]; right; by eexists].
  eapply ends_impl; [apply gives_ret|]. intros r d1 [-> ->]. split; [done|]. by left.
Qed.

Lemma ends_backup_dir d name : tidy d ->
  ends (backup_directory name false) d (fun r d1 => d1 = d /\ found d (backup_dir name) r).
Proof.
  intros Ht. unfold backup_directory. apply ends_then. eapply ends_impl; [apply ends_child; [done|by rewrite (td_root d Ht)]|].
  intros r d1 [-> [[-> Hs]|(e & -> & He)]].
  - by apply ends_child.
  - split; [done|]. right. by eexists.
Qed.

Lemma ok_lists d name : tidy d -> ends (list_backups name) d (fun r d1 => is_ok r = true /\ d1 = d).
Proof.
  intros Ht. unfold list_backups. apply ends_then, ends_attempt. eapply ends_impl; [by apply ends_backup_dir|].
  intros r d1 [-> [[-> [v Hv]]|(e & -> & He)]]; [|rewrite He; eapply ends_impl; [apply gives_ret|]; by intros r d1 [-> ->]].
  eapply ends_after; [apply gives_map_error, gives_look; rewrite Hv; reflexivity|]. cbn beta.
  destruct (newest_ids _) as [newest truncated] eqn:En.
  assert (Hids : forall id, id ∈ rev newest -> is_ok_id id = true /\ is_Some (dk_files d !! (backup_dir name, id))).
  { intros id Hid. rewrite Startup.elem_of_rev in Hid. assert (Hin : id ∈ (newest, truncated).1) by exact Hid. rewrite <- En in Hin.
    apply newest_ids_valid in Hin as [? ?%elem_of_entries]. done. }
  clear En. apply ends_then, (ends_impl _ _ (fun r d1 => is_ok r = true /\ d1 = d)).
  2: { intros [items|] d1 [Hok ->]; [|done]. eapply ends_impl; [apply gives_ret|]. by intros r d1 [-> ->]. }
  induction (rev newest) as [|id ids IH]; [eapply ends_impl; [apply gives_ret|]; by intros r d1 [-> ->]|]. cbn [foldr].
  destruct (Hids id) as [Hid [f Hf]]; [by left|]. eapply ends_after.
  { apply gives_open; [done|by apply backup_id_safe|by rewrite Hv, (td_dirs d Ht _ _ Hv)|done]. }
  cbn beta iota. apply ends_then. eapply ends_impl; [apply IH; intros; apply Hids; by right|]. intros [items|] d1 [Hok ->]; [|done].
  eapply ends_impl; [apply gives_ret|]. by intros r d1 [-> ->].
Qed.

(** The answer shows the content that is on disk now. *)
Definition shows (r : FileRepository) (name content : string) (res : result OperationError ConfigContent) : Prop :=
  exists c, res = Ok c /\ cc_content c = content /\ cc_viewing_backup c = None /\
    cc_view c = config_metadata r name (config_from_bytes digest content).

Lemma ends_read r d name content : tidy d -> configs d !! name = Some content -> utf8_text content = Some content ->
  ends (read_config digest r {[ "name" := JString name ]}) d (fun res d1 => shows r name content res /\ d1 = d).
Proof.
  intros Ht Hc Hu. rewrite lookup_configs in Hc. destruct (allowed_config name) eqn:Ha; [|done].
  destruct (dk_files d !! ("", name)) as [f|] eqn:Ef; [|done]. injection Hc as Hc. unfold read_config.
  eapply ends_after; [unfold config_name, required_string; rewrite lookup_singleton_eq; cbn [mbind result_bind]; rewrite Ha; apply gives_ok|].
  eapply ends_after; [apply (gives_file d "" name f); [done|by apply allowed_safe|apply (td_root d Ht)|done|by eapply td_sizes]|].
  eapply ends_after; [unfold optional_string; rewrite lookup_singleton_ne by done; apply gives_ok|].
  eapply ends_after; [apply gives_ret|]. cbn beta iota. cbn [cf_bytes config_from_bytes]. rewrite Hc, Hu.
  eapply ends_after; [apply gives_ok|]. apply ends_then. eapply ends_impl; [by apply ok_lists|]. intros [[backups truncated]|] d1 [Hok ->]; [|done].
  eapply ends_impl; [apply gives_ret|]. intros res d1 [-> ->]. split; [|done]. by eexists.
Qed.
(** *** Writing *)

Lemma ends_create d p Q : dk_files d !! p = None -> (forall n, Q (Ok ()) (set_files d (<[p := empty_file o n]> (dk_files d)))) -> ends (create_new p) d Q.
Proof. intros Hp H. apply ends_syscall. intros n. unfold create_file. by rewrite Hp. Qed.
Lemma ends_write d p bytes Q : (forall t, Q (Ok ()) (set_files d (alter (with_bytes t bytes) p (dk_files d)))) -> ends (write_all p bytes) d Q.
Proof. intros H w <-. unfold write_all. rewrite (calm_edits o quiet_outside), (calm_fails o quiet_outside), set_same_files. apply H. Qed.
Lemma ends_rename d p q f Q : dk_files d !! p = Some f -> Q (Ok ()) (set_files d (<[q := f]> (delete p (dk_files d)))) -> ends (rename p q) d Q.
Proof. intros Hp H. apply ends_syscall. intros n. by rewrite Hp. Qed.
Lemma ends_unique d Q : (forall u, unique u -> Q (Ok u) d) -> ends unique_id d Q.
Proof. intros H w <-. apply H. by eexists _, _. Qed.
Lemma ends_temporary {A} p (body : Prog OperationError A) d Q : ends body d (fun r d1 => is_ok r = true /\ Q r d1) -> ends (with_temporary p body) d Q.
Proof. intros H w Hw. specialize (H w Hw). unfold with_temporary. destruct (body o w) as [w1 [a|e]]; cbn [fst snd] in *; by destruct H. Qed.

Lemma staged (files : gmap (string * string) File) p q (e : File) g : files !! p = None ->
  <[q := g e]> (delete p (alter g p (<[p := e]> files))) = <[q := g e]> files.
Proof. intros Hp. by rewrite alter_insert_eq, delete_insert_id. Qed.

(** A path no temporary file has. *)
Definition settled_path (p : string * string) : Prop := String.prefix ".rcd-operations-" p.2 = false /\ String.prefix ".pending-" p.2 = false.

Lemma tidy_put d p f : tidy d -> fi_kind f = RegularFile /\ fi_links f = 1 -> settled_path p ->
  (p.1 = "" -> slen (fi_bytes f) <= MAX_CONFIG_BYTES) -> tidy (set_files d (<[p := f]> (dk_files d))).
Proof.
  intros [] Hf Hp Hs. constructor; [done|done|..]; cbn.
  - intros q g [[<- <-]|[_ Hq]]%lookup_insert_Some; [done|by eauto].
  - intros k g Hk [[-> <-]|[_ Hq]]%lookup_insert_Some; [by apply Hs|by eauto].
  - intros q [g [[<- _]|[_ Hq]]%lookup_insert_Some]; [exact Hp|by eauto].
Qed.

(** Tidy as before, with the same configuration files. *)
Definition kept (d d1 : Disk) : Prop := tidy d1 /\ configs d1 = configs d.

Lemma kept_put d p f : tidy d -> private p -> fi_kind f = RegularFile /\ fi_links f = 1 -> settled_path p ->
  (p.1 = "" -> slen (fi_bytes f) <= MAX_CONFIG_BYTES) -> kept d (set_files d (<[p := f]> (dk_files d))).
Proof. intros. split; [by apply tidy_put|by eapply configs_private]. Qed.

Lemma tidy_absent d p : tidy d -> ~ settled_path p -> dk_files d !! p = None.
Proof. intros Ht Hp. apply eq_None_not_Some. intros Hs. by apply Hp, (td_clean d Ht). Qed.

Lemma ends_lock d : tidy d -> ends config_write_lock d (fun r d1 => r = Ok () /\ kept d d1).
Proof.
  intros Ht. unfold config_write_lock. eapply ends_after; [apply gives_map_error, gives_canonical, (td_root d Ht)|].
  apply ends_then, ends_map_error, ends_attempt.
  assert (Hlock : forall d1, kept d d1 -> ends (map_error (fun e => if bool_decide (ie_kind e = WouldBlock) then op_error "conflict" "另一个配置保存正在进行" else io_error e)
    (fun o => syscall (fun n d => if locked o n then Err {| ie_kind := WouldBlock; ie_message := "Resource temporarily unavailable (os error 11)" |}
                                  else Ok (d, ())) o)) d1 (fun r d2 => r = Ok () /\ kept d d2)).
  { intros d1 Hk. apply ends_map_error, (ends_syscall (fun n d => if locked o n then _ else Ok (d, ()))). intros n. by rewrite (calm_lock o quiet_outside). }
  destruct (dk_files d !! ("", WRITE_LOCK)) as [f|] eqn:Ef.
  - apply ends_syscall. intros n. unfold create_file. rewrite Ef. cbn [map_err].
    eapply ends_after; [|apply Hlock; by split].
    rewrite bool_decide_eq_true_2 by done. eapply ends_after; [apply (gives_open d "" WRITE_LOCK f); [done|by vm_compute|apply (td_root d Ht)|done]|]. apply gives_ret.
  - apply ends_create; [done|]. intros n. cbn [map_err]. eapply ends_after; [apply gives_ret|]. apply Hlock.
    apply kept_put; [done|by right|done|done|]. intros _. by vm_compute.
Qed.

Lemma ends_make_child d parent child : tidy d -> is_Some (dk_dirs d !! parent) ->
  ends (child_directory parent child true) d (fun r d1 => r = Ok (join_dir parent child) /\ tidy d1 /\ dk_files d1 = dk_files d /\ is_Some (dk_dirs d1 !! join_dir parent child)).
Proof.
  intros Ht [v Hv]. pose proof (td_dirs d Ht _ _ Hv) as ->. unfold child_directory. eapply ends_after; [by apply gives_map_error, gives_canonical|].
  set (c := join_dir parent child). assert (Hend : forall d1, tidy d1 -> dk_files d1 = dk_files d -> is_Some (dk_dirs d1 !! c) ->
    ends (_ ← io (canonical_directory c); mret c : Prog OperationError string) d1 (fun r d2 => r = Ok c /\ tidy d2 /\ dk_files d2 = dk_files d /\ is_Some (dk_dirs d2 !! c))).
  { intros d1 Ht1 Hf1 [v Hc]. pose proof (td_dirs d1 Ht1 _ _ Hc) as ->. eapply ends_after; [by apply gives_map_error, gives_canonical|].
    eapply ends_impl; [apply gives_ret|]. by intros r d2 [-> ->]. }
  apply ends_then, ends_map_error, ends_then, ends_attempt, ends_syscall. intros _. destruct (dk_dirs d !! c) as [v|] eqn:Ec.
  - rewrite bool_decide_eq_true_2 by done. eapply ends_impl; [apply gives_ret|]. intros r d1 [-> ->]. cbn [map_err]. by apply Hend.
  - apply ends_looking. cbn [map_err]. apply Hend; [|done|cbn [dk_dirs]; by rewrite lookup_insert_eq].
    destruct Ht. constructor; try done; cbn.
    + by apply lookup_insert_Some; destruct (decide (c = "")); [left|right].
    + intros x v [[_ <-]|[_ Hx]]%lookup_insert_Some; [done|by eauto].
Qed.
Lemma not_settled_pending dir s : ~ settled_path (dir, ".pending-" +:+ s).
Proof. intros [_ H]. cbn [snd] in H. by rewrite prefix_refl_app in H. Qed.
Lemma not_settled_temporary dir s : ~ settled_path (dir, ".rcd-operations-" +:+ s).
Proof. intros [H _]. cbn [snd] in H. by rewrite prefix_refl_app in H. Qed.

Lemma ends_backup d name bytes : tidy d -> ends (backup digest name bytes) d (fun r d1 => r = Ok () /\ kept d d1 /\ backed name bytes d1).
Proof.
  intros Ht. unfold backup, backup_directory. apply ends_then, ends_then. eapply ends_impl; [apply ends_make_child; [done|by rewrite (td_root d Ht)]|].
  intros r d1 (-> & Ht1 & Hf1 & Hd1). eapply ends_impl; [by apply ends_make_child|]. intros r d2 (-> & Ht2 & Hf2 & _). rewrite Hf1 in Hf2.
  change (join_dir (join_dir "" BACKUP_DIRECTORY) name) with (backup_dir name). apply ends_then, ends_unique. intros u Hu.
  pose proof (backup_id_valid digest digests u bytes Hu) as Hid. set (id := u +:+ "-" +:+ digest bytes) in *.
  set (pending := (backup_dir name, ".pending-" +:+ id +:+ ".tmp")). assert (Hp : dk_files d2 !! pending = None) by (apply tidy_absent, not_settled_pending; done).
  apply ends_then, ends_map_error, ends_create; [done|]. intros n. cbn [map_err]. apply ends_then, ends_temporary.
  apply ends_then, ends_map_error, ends_write. intros t. cbn [map_err]. apply ends_then, ends_map_error, ends_looking. cbn [map_err].
  apply ends_map_error. eapply ends_rename; [cbn; by rewrite lookup_alter_eq, lookup_insert_eq|]. cbn [map_err]. split; [done|].
  apply ends_map_error, ends_looking. cbn [map_err set_files dk_files dk_dirs]. rewrite staged by done. split; [done|].
  assert (Hk : kept d2 (set_files d2 (<[(backup_dir name, id) := with_bytes t bytes (empty_file o n)]> (dk_files d2)))).
  { apply kept_put; [done|apply backup_private|done|split; by apply backup_id_prefix|]. intros H. by destruct (String.eqb_spec BACKUP_DIRECTORY ""). }
  split; [|exists id; split; [done|]; eexists; split; [cbn; apply lookup_insert_eq|done]].
  destruct Hk as [? Hk]. split; [done|]. etrans; [exact Hk|]. apply map_eq. intros k. by rewrite !lookup_configs, Hf2.
Qed.

Lemma ends_replace d name content : tidy d -> is_Some (configs d !! name) -> slen content <= MAX_CONFIG_BYTES ->
  ends (atomic_replace name content) d (fun r d1 => r = Ok () /\ tidy d1 /\ configs d1 = <[name := content]> (configs d) /\
    forall bytes, backed name bytes d -> backed name bytes d1).
Proof.
  intros Ht Hc Hs. rewrite lookup_configs in Hc. destruct (allowed_config name) eqn:Ha; [|by destruct Hc].
  destruct (dk_files d !! ("", name)) as [f|] eqn:Ef; [|by destruct Hc]. pose proof (regular_ok f (td_files d Ht _ _ Ef)) as Hreg.
  unfold atomic_replace. eapply ends_after; [apply (gives_open d "" name f); [done|by apply allowed_safe|apply (td_root d Ht)|done]|]. cbn beta iota.
  apply ends_then, ends_unique. intros u Hu. set (path := ("", ".rcd-operations-" +:+ u +:+ ".tmp")).
  assert (Hp : dk_files d !! path = None) by (apply tidy_absent, not_settled_temporary; done).
  assert (Hne : path <> ("", name)) by (intros Heq; rewrite Heq in Hp; congruence).
  apply ends_then, ends_map_error, ends_create; [done|]. intros n. cbn [map_err]. apply ends_then, ends_temporary.
  apply ends_then, ends_map_error, ends_looking. cbn [map_err]. apply ends_then, ends_map_error, ends_write. intros t. cbn [map_err].
  apply ends_then, ends_map_error, ends_looking. cbn [map_err]. apply ends_then, ends_map_error, ends_looking.
  cbn [set_files dk_files]. rewrite lookup_alter_ne, lookup_insert_ne, Ef by done. cbn [ok_or map_err].
  apply ends_then, ends_result. rewrite Hreg, String.eqb_refl, !Z.eqb_refl. cbn [negb orb].
  apply ends_map_error. eapply ends_rename; [cbn; by rewrite lookup_alter_eq, lookup_insert_eq|]. cbn [map_err]. split; [done|].
  apply ends_map_error, ends_looking. cbn [map_err set_files dk_files dk_dirs]. rewrite staged by done. split; [done|].
  set (d1 := set_files d (<[("", name) := with_bytes t content (empty_file o n)]> (dk_files d))).
  match goal with |- tidy ?x /\ _ => change x with d1 end. split_and!.
  - apply tidy_put; [done|done|apply (td_clean d Ht ("", name)); by eexists|done].
  - unfold d1. by rewrite configs_written.
  - intros bytes (id & Hid & g & Hg & Hb). exists id. split; [done|]. exists g. split; [|done]. cbn. rewrite lookup_insert_ne; [done|].
    by intros [= Hdir _].
Qed.

(** ** The abstract write *)

(** Compare and swap on the map of the configuration files. *)
Definition swap (name content expected : string) (validate : gmap string string -> result OperationError ()) (m : gmap string string)
    : result OperationError (gmap string string) :=
  if negb (is_revision expected) then Err (op_error "invalid_request" "expected_revision 必须为内容 SHA256")
  else match m !! name with
       | None => Err (op_error "not_found" "配置文件不存在")
       | Some old =>
           if negb (String.eqb (digest old) expected) then Err (with_revision (op_error "conflict" "配置已被修改，请重新读取") (digest old))
           else _ ← validate (<[name := content]> m); Ok (<[name := content]> m)
       end.

Lemma candidate_configs name content m : is_Some (m !! name) -> candidate name content (config_from_bytes digest <$> m) = <[name := content]> m.
Proof.
  intros [old Hm]. apply map_eq. intros k. unfold candidate. rewrite map_lookup_imap, lookup_fmap. destruct (String.eqb_spec k name) as [->|Hne].
  - by rewrite Hm, lookup_insert_eq.
  - rewrite lookup_insert_ne by done. by destruct (m !! k).
Qed.

Lemma write_swaps r d name content expected validate : tidy d -> slen content <= MAX_CONFIG_BYTES -> utf8_text content = Some content ->
  ends (write_config_checked digest r name content expected validate) d (fun res d1 =>
    tidy d1 /\
    match swap name content expected validate (configs d) with
    | Err e => res = Err e /\ configs d1 = configs d
    | Ok m => shows r name content res /\ configs d1 = m /\ forall old, configs d !! name = Some old -> old <> content -> backed name old d1
    end).
Proof.
  intros Ht Hs Hu. unfold write_config_checked, swap. destruct (is_revision expected); cbn [negb]; [|by apply ends_result].
  apply ends_then. eapply ends_impl; [by apply ends_lock|]. intros res d1 [-> [Ht1 Hc1]]. eapply ends_after; [by apply gives_set|]. rewrite Hc1.
  rewrite lookup_fmap. apply ends_then, ends_result. destruct (configs d !! name) as [old|] eqn:Eo; cbn [fmap option_fmap option_map ok_or]; [|done].
  cbn [cf_revision config_from_bytes]. destruct (String.eqb_spec (digest old) expected) as [He|He]; cbn [negb]; [|by apply ends_result].
  fold (candidate name content (config_from_bytes digest <$> configs d)). rewrite candidate_configs by (by rewrite Eo).
  apply ends_then, ends_result. destruct (validate (<[name:=content]> (configs d))) as [[]|e]; cbn [mbind result_bind]; [|done].
  rewrite <- Hc1. eapply ends_after; [by apply gives_unchanged|]. cbn [cf_bytes config_from_bytes]. destruct (String.eqb_spec content old) as [->|Hne].
  { eapply ends_impl; [apply (ends_read r d1 name old); [done|by rewrite Hc1|done]|]. intros res d2 [Hres ->]. split_and!; [done|done| |].
    - rewrite fin_maps.insert_id; [done|]. by rewrite Hc1.
    - intros old' [= ->]. done. }
  apply ends_then. eapply ends_impl; [by apply ends_backup|]. intros res d2 (-> & [Ht2 Hc2] & Hb). rewrite <- Hc2.
  eapply ends_after; [by apply gives_unchanged|]. apply ends_then. eapply ends_impl; [apply (ends_replace d2 name content); [done|by rewrite Hc2, Hc1, Eo|done]|].
  intros res d3 (-> & Ht3 & Hc3 & Hb3). eapply ends_impl; [apply (ends_read r d3 name content); [done|by rewrite Hc3, lookup_insert_eq|done]|].
  intros res d4 [Hres ->]. split_and!; [done|done|done|]. intros old' [= ->] _. by apply Hb3.
Qed.
End Calm.

(** The request as a step on the map: the name and the content it sets, and
    the map afterwards. *)
Definition write_spec (digest : string -> string) (validate_set : gmap string string -> Validation) (request : LogRequest) (m : gmap string string)
    : result OperationError (string * string * gmap string string) :=
  name ← config_name request;
  content ← config_content request;
  expected ← required_string request "expected_revision";
  m' ← swap digest name content expected (fun candidate => joined_errors (validate_set candidate)) m;
  Ok (name, content, m').

(** The map before and after a request, its answer, and the backup of what it
    replaced. *)
Definition swapped (digest : string -> string) (r : FileRepository) (step : result OperationError (string * string * gmap string string)) (d : Disk)
    (res : result OperationError ConfigContent) (d1 : Disk) : Prop :=
  tidy d1 /\
  match step with
  | Err e => res = Err e /\ configs d1 = configs d
  | Ok (name, content, m) =>
      shows digest r name content res /\ configs d1 = m /\
      forall old, configs d !! name = Some old -> old <> content -> backed name old d1
  end.

(** C17: without interference a write is a compare and swap of one map.
    When nobody else touches the files and no call fails, on a directory of
    regular files, [write_config] does to the map of the configuration files
    exactly what [write_spec] says: a request that is malformed, that names no
    existing file, whose expected revision is not that of the current
    content, or whose resulting set is not accepted by validation fails with
    exactly that error (a conflict names the current revision) and changes no
    configuration file; any other one succeeds, replaces exactly the named
    file, answers with the new content and its revision, and leaves a valid
    backup of a content it replaced.  The directory is left as tidy as it was
    found, so the next request meets the same conditions. *)
Theorem config_write_is_compare_and_swap o digest validate_set r request w :
  calm o -> (forall s, is_revision (digest s) = true) -> tidy (w_disk w) ->
  (forall content, request !! "content" = Some (JString content) -> utf8_text content = Some content) ->
  swapped digest r (write_spec digest validate_set request (configs (w_disk w))) (w_disk w)
    (write_config digest validate_set r request o w).2 (w_disk (write_config digest validate_set r request o w).1).
Proof.
  intros Hcalm Hdigest Ht Hutf.
  enough (H : ends o (write_config digest validate_set r request) (w_disk w)
    (swapped digest r (write_spec digest validate_set request (configs (w_disk w))) (w_disk w))) by (by apply (H w)).
  unfold swapped, write_config, write_spec.
  apply ends_then, ends_result. destruct (config_name request) as [name|e]; cbn [mbind result_bind]; [|done].
  apply ends_then, ends_result. destruct (config_content request) as [content|e] eqn:Ec; cbn [mbind result_bind]; [|done].
  assert (Hc : slen content <= MAX_CONFIG_BYTES /\ utf8_text content = Some content).
  { unfold config_content, required_string in Ec. destruct (request !! "content") as [[]|] eqn:Er; try discriminate Ec. cbn [mbind result_bind] in Ec.
    destruct (Z.ltb_spec MAX_CONFIG_BYTES (slen s)); [discriminate Ec|]. injection Ec as ->. split; [lia|by apply Hutf]. }
  apply ends_then, ends_result. destruct (required_string request "expected_revision") as [expected|e]; cbn [mbind result_bind]; [|done].
  eapply ends_impl; [apply write_swaps; [done|done|exact Ht|apply Hc|apply Hc]|]. intros res d1 [Ht1 H]. split; [done|].
  by destruct (swap digest name content expected _ (configs (w_disk w))).
Qed.

(** ** Witness *)

Definition sample_request (expected : string) : LogRequest :=
  <["name" := JString "config.toml"]> (<["content" := JString "new"]> {["expected_revision" := JString expected]}).
Definition sample_answer (expected : string) : World * result OperationError ConfigContent :=
  write_config sample_digest (fun _ => validation_default) sample_repository (sample_request expected) calm_outside sample_world.

Lemma sample_calm : calm calm_outside.
Proof. done. Qed.
Lemma sample_tidy : tidy (w_disk sample_world).
Proof.
  assert (H : forall p f, dk_files (w_disk sample_world) !! p = Some f ->
    (p = ("", "config.toml") /\ f = plain_file "a" "old") \/ (p = ("", "rcd1.csv") /\ f = plain_file "b" "table")).
  { unfold sample_world. cbn [w_disk dk_files]. intros p f [[<- <-]|[_ [<- <-]%lookup_singleton_Some]]%lookup_insert_Some; auto. }
  constructor; [done|..].
  - unfold sample_world. cbn [w_disk dk_dirs]. by intros x v [_ <-]%lookup_singleton_Some.
  - by intros p f [[-> ->]|[-> ->]]%H.
  - intros k f _ [[_ ->]|[_ ->]]%H; vm_compute; discriminate.
  - by intros p [f [[-> ->]|[-> ->]]%H].
Qed.

Lemma config_write_is_compare_and_swap_witness :
  (configs (w_disk sample_world) !! "config.toml" = Some "old" /\
   cc_content <$> (sample_answer (sample_digest "old")).2 = Ok "new" /\
   (sample_answer (sample_digest "older")).2 = Err (with_revision (op_error "conflict" "配置已被修改，请重新读取") (sample_digest "old"))) /\
  swapped sample_digest sample_repository
    (write_spec sample_digest (fun _ => validation_default) (sample_request (sample_digest "old")) (configs (w_disk sample_world)))
    (w_disk sample_world) (sample_answer (sample_digest "old")).2 (w_disk (sample_answer (sample_digest "old")).1).
Proof.
  split; [split; [vm_compute; reflexivity|split; vm_compute; reflexivity]|].
  unfold sample_answer.
  refine (config_write_is_compare_and_swap calm_outside sample_digest (fun _ => validation_default) sample_repository
           (sample_request (sample_digest "old")) sample_world sample_calm sample_digests sample_tidy _).
  intros content H. vm_compute in H. injection H as <-. vm_compute. reflexivity.
Defined.
