(* ===== verification/HttpAck.v ===== *)
(** * HTTP of the log push (src/src/log_push.rs: the URL and the answer of the
      manager)

    The parts of [HttpEndpoint::parse], [parse_http_response] and
    [decode_chunked].  A slice out of range is a [Panic]; sizes are [usize]
    and wrap. *)

From S2P Require Import Prelude RustStr Utf8 ConfigSet LogFiles.
From stdpp Require Import pretty.
Open Scope string_scope.
Open Scope Z_scope.
Open Scope list_scope.

(** ** Text *)

Definition CRLF : list Z := [13; 10].
(** [windows(p.len()).position(|window| window == p)]. *)
Fixpoint window_position (p bs : list Z) : option nat :=
  match bs with
  | [] => None
  | _ :: rest => if is_prefix p bs then Some 0%nat else S <$> window_position p rest
  end.

Definition chars_of (bs : list Z) : list ascii := (fun b => ascii_of_N (Z.to_N b)) <$> bs.

Definition lowercase_byte (b : Z) : Z := if in_range 65 90 b then b + 32 else b.

(** [str::lines]. *)
Definition text_line (line : list Z) : list Z :=
  match rev line with
  | 10 :: 13 :: front => rev front
  | 10 :: front => rev front
  | _ => line
  end.
Definition text_lines (bs : list Z) : list (list Z) := text_line <$> split_inclusive bs.

(** [split_whitespace], on characters. *)
Fixpoint words (cs : list (list Z)) (word : list Z) : list (list Z) :=
  match cs with
  | [] => match word with [] => [] | _ => [word] end
  | c :: cs => if whitespace_char c then match word with [] => words cs [] | _ => word :: words cs [] end else words cs (word ++ c)
  end.
Definition split_whitespace (bs : list Z) : list (list Z) := words (utf8_pieces bs).*1 [].

Definition truncate_utf8 (value : string) (max_bytes : Z) : string :=
  if slen value <=? max_bytes then value
  else text (take (floor_boundary (chars value) (Z.to_nat max_bytes)) (chars value)) +:+ "…".

(** ** Chunked bodies *)

Inductive Decoded :=
| OutOfFuel
| Panic
| Done (r : result string (list Z)).

Definition usize_wrap (z : Z) : Z := z mod 2 ^ 64.

Definition is_hex_byte (b : Z) : bool := in_range 48 57 b || in_range 65 70 b || in_range 97 102 b.
Definition hex_byte_value (b : Z) : Z := if in_range 48 57 b then b - 48 else if in_range 65 70 b then b - 55 else b - 87.
(** [usize::from_str_radix(_, 16)]: an optional plus sign and at least one
    digit. *)
Definition parse_usize_hex (bs : list Z) : option Z :=
  let bs := match bs with 43 :: (d :: ds) => d :: ds | _ => bs end in
  let value := foldl (fun acc b => acc * 16 + hex_byte_value b) 0 bs in
  if forallb is_hex_byte bs && negb (Nat.eqb (length bs) 0) && (value <=? u64_max) then Some value else None.

(** The size a line declares: the text before a semicolon. *)
Definition before_semicolon (line : list Z) : list Z :=
  match split_once [59] line with Some (front, _) => front | None => line end.
Definition chunk_size (line : list Z) : option Z := size_text ← from_utf8 line; parse_usize_hex (before_semicolon size_text).

Fixpoint decode_loop (fuel : nat) (body : list Z) (offset : nat) (res : list Z) : Decoded :=
  match fuel with
  | O => OutOfFuel
  | S fuel =>
      if (length body <? offset)%nat then Panic
      else
        match window_position CRLF (drop offset body) with
        | None => Done (Err "invalid chunked response")
        | Some index =>
            let line_end := (offset + index)%nat in
            match chunk_size (slice offset line_end body) with
            | None => Done (Err "invalid chunk size")
            | Some size =>
                let offset := (line_end + 2)%nat in
                if size =? 0 then Done (Ok res)
                else
                  let next := usize_wrap (Z.of_nat offset + size + 2) in
                  if Z.of_nat (length body) <? next then Done (Err "truncated chunked response")
                  else
                    let stop := usize_wrap (Z.of_nat offset + size) in
                    if (stop <? Z.of_nat offset) || (Z.of_nat (length body) <? stop) then Panic
                    else decode_loop fuel body (Z.to_nat next) (res ++ slice offset (Z.to_nat stop) body)
            end
        end
  end.
Definition decode_chunked (body : list Z) : Decoded := decode_loop (S (length body)) body 0 [].

(** ** The response *)

Definition header_chunked (line : list Z) : bool :=
  match split_once [58] line with
  | Some (name, value) =>
      bool_decide (to_ascii_uppercase name = to_ascii_uppercase (bytes_of "transfer-encoding"))
      && contains (bytes_of "chunked") (lowercase_byte <$> value)
  | None => false
  end.

Definition http_status (headers : list Z) : option Z :=
  line ← head (text_lines headers);
  value ← split_whitespace line !! 1%nat;
  parse_uint u16_max (chars_of value).

Definition status_error (status : Z) (body : list Z) : string :=
  "manager returned HTTP " +:+ pretty status +:+ ": " +:+ truncate_utf8 (text (chars_of (from_utf8_lossy body))) 512.

Definition parse_http_response (response : list Z) : Decoded :=
  match window_position (CRLF ++ CRLF) response with
  | None => Done (Err "manager returned an invalid HTTP response")
  | Some split =>
      match from_utf8 (take split response) with
      | None => Done (Err "manager returned non-UTF8 HTTP headers")
      | Some headers =>
          match http_status headers with
          | None => Done (Err "manager HTTP status is invalid")
          | Some status =>
              let body := drop (split + 4) response in
              let decoded := if existsb header_chunked (drop 1 (text_lines headers)) then decode_chunked body else Done (Ok body) in
              match decoded with
              | Done (Ok body) => if (200 <=? status) && (status <? 300) then Done (Ok body) else Done (Err (status_error status body))
              | other => other
              end
          end
      end
  end.

(** ** The URL *)

Record HttpEndpoint := { ep_host : string; ep_port : Z; ep_path : string; ep_host_header : string }.

Fixpoint strip_prefix (p cs : list ascii) : option (list ascii) :=
  match p, cs with
  | [], cs => Some cs
  | a :: p, c :: cs => if Ascii.eqb a c then strip_prefix p cs else None
  | _, [] => None
  end.

(** The host and the port of the authority. *)
Definition host_and_port (authority : list ascii) : result string (list ascii * Z) :=
  match authority with
  | "["%char :: bracketed =>
      '(host, suffix) ← ok_or "invalid IPv6 log push URL" (split_at_char "]" bracketed);
      let port := match suffix with ":"%char :: port => port | _ => chars "80" end in
      port ← ok_or "invalid log push URL port" (parse_uint u16_max port);
      Ok (host, port)
  | _ =>
      match split_at_char ":" (rev authority) with
      | Some (port, host) =>
          port ← ok_or "invalid log push URL port" (parse_uint u16_max (rev port));
          Ok (rev host, port)
      | None => Ok (authority, 80)
      end
  end.

Definition parse_endpoint (value : string) : result string HttpEndpoint :=
  rest ← ok_or "logging.http_push.url must use http:// while TLS is disabled" (strip_prefix (chars "http://") (chars value));
  let '(authority, path) := match split_at_char "/" rest with Some (a, p) => (a, "/"%char :: p) | None => (rest, ["/"%char]) end in
  if (match authority with [] => true | _ => false end) || existsb (Ascii.eqb "@") authority || existsb (Ascii.eqb "#") path
  then Err "logging.http_push.url is invalid"
  else
    '(host, port) ← host_and_port authority;
    if String.eqb (trim (text host)) "" then Err "log push URL host is empty"
    else Ok {| ep_host := text host; ep_port := port; ep_path := text path; ep_host_header := text authority |}.

Example parses_manager_http_url :
  parse_endpoint "http://192.168.10.46:8087/api/v1/lower-ingest/logs"
  = Ok {| ep_host := "192.168.10.46"; ep_port := 8087; ep_path := "/api/v1/lower-ingest/logs"; ep_host_header := "192.168.10.46:8087" |} /\
  is_ok (parse_endpoint "https://manager/logs") = false /\
  ep_port <$> parse_endpoint "http://[fe80::1]/logs" = Ok 80.
Proof. vm_compute. done. Qed.

Example chunked_ack_is_decoded :
  parse_http_response (bytes_of "HTTP/1.1 200 OK" ++ CRLF ++ bytes_of "Transfer-Encoding: chunked" ++ CRLF ++ CRLF
    ++ bytes_of "4" ++ CRLF ++ bytes_of "test" ++ CRLF ++ bytes_of "0" ++ CRLF ++ CRLF) = Done (Ok (bytes_of "test")).
Proof. vm_compute. done. Qed.

(** A size near [2 ^ 64] passes the check of the length, because the sum wraps,
    and the slice panics. *)
Example huge_chunk_panics :
  decode_chunked (bytes_of "ffffffffffffffef" ++ CRLF ++ bytes_of "0" ++ CRLF) = Panic.
Proof. vm_compute. done. Qed.

(** ** Chunked bodies as a grammar *)

(** A line that ends at the first line end and declares [size]. *)
Definition chunk_line (line : list Z) (size : Z) : Prop :=
  window_position CRLF (line ++ CRLF) = Some (length line) /\ chunk_size line = Some size.

(** Chunks with their sizes, each followed by two bytes, up to a line of size
    zero; what comes after it is ignored. *)
Inductive chunked : list Z -> list Z -> Prop :=
| chunked_end line rest : chunk_line line 0 -> chunked (line ++ CRLF ++ rest) []
| chunked_more line data t rest r :
    chunk_line line (Z.of_nat (length data)) -> data <> [] -> length t = 2%nat -> chunked rest r ->
    chunked (line ++ CRLF ++ data ++ t ++ rest) (data ++ r).

Lemma window_position_cut front rest :
  window_position CRLF (front ++ CRLF ++ rest) = Some (length front) <-> window_position CRLF (front ++ CRLF) = Some (length front).
Proof.
  revert rest. induction front as [|b front IH]; intros rest; [done|]. cbn [app window_position length].
  assert (Hp : is_prefix CRLF (b :: front ++ CRLF ++ rest) = is_prefix CRLF (b :: front ++ CRLF)) by (destruct front; [reflexivity|]; reflexivity).
  rewrite Hp. destruct (is_prefix CRLF (b :: front ++ CRLF)); [done|]. specialize (IH rest).
  destruct (window_position CRLF (front ++ CRLF ++ rest)), (window_position CRLF (front ++ CRLF)); cbn; naive_solver.
Qed.

Lemma window_position_Some bs i : window_position CRLF bs = Some i ->
  bs = take i bs ++ CRLF ++ drop (i + 2) bs /\ length (take i bs) = i /\ window_position CRLF (take i bs ++ CRLF) = Some i.
Proof.
  revert i. induction bs as [|b bs IH]; intros i H; [done|]. cbn [window_position] in H. destruct (is_prefix CRLF (b :: bs)) eqn:Ep.
  - injection H as <-. destruct bs as [|c bs]; unfold CRLF in Ep; cbn [is_prefix] in Ep; [by rewrite andb_false_r in Ep|]. apply andb_true_iff in Ep as [Hb Hc].
    rewrite andb_true_r in Hc. apply Z.eqb_eq in Hb, Hc. by subst.
  - destruct (window_position CRLF bs) as [j|] eqn:Ej; [|done]. injection H as <-. destruct (IH j eq_refl) as (Hbs & Hlen & Hw).
    cbn [take drop Nat.add app length]. split_and!; [by f_equal|by f_equal|]. cbn [window_position].
    assert (Hp : is_prefix CRLF (b :: take j bs ++ CRLF) = is_prefix CRLF (b :: bs)).
    { rewrite Hbs at 2. destruct (take j bs); [reflexivity|]. reflexivity. }
    by rewrite Hp, Ep, Hw.
Qed.

Lemma usize_small z : 0 <= z < 2 ^ 64 -> usize_wrap z = z.
Proof. apply Z.mod_small. Qed.

(** A chunk that is accepted lies in the body. *)
Lemma accepted_size (offset total size : Z) : 0 <= offset <= total -> total < 2 ^ 63 -> 0 < size <= u64_max ->
  usize_wrap (offset + size + 2) <= total -> offset <= usize_wrap (offset + size) <= total ->
  usize_wrap (offset + size + 2) = offset + size + 2 /\ usize_wrap (offset + size) = offset + size.
Proof.
  unfold usize_wrap, u64_max. intros Ho Ht Hs H1 H2. destruct (Z_lt_ge_dec (offset + size) (2 ^ 64)) as [Hlt|Hge].
  - rewrite (Z.mod_small (offset + size)) in * by lia. rewrite Z.mod_small in * by lia. lia.
  - exfalso. rewrite <- (Z_mod_plus_full (offset + size) (-1)), Z.mod_small in H2 by lia. lia.
Qed.

Lemma chunk_size_range line size : chunk_size line = Some size -> 0 <= size <= u64_max.
Proof.
  unfold chunk_size. destruct (from_utf8 line) as [t|]; [|done]. cbn. unfold parse_usize_hex. set (bs := match before_semicolon t with 43 :: (d :: ds) => d :: ds | _ => _ end).
  destruct (forallb is_hex_byte bs) eqn:Eh; [|done]. destruct (_ && (_ <=? u64_max))%bool eqn:Eb; [|done]. intros [= <-].
  apply andb_true_iff in Eb as [_ Hle%Z.leb_le]. split; [|done]. clear Hle.
  assert (H : forall acc, 0 <= acc -> 0 <= foldl (fun acc b => acc * 16 + hex_byte_value b) acc bs); [|by apply H].
  revert Eh. generalize bs as l. induction l as [|b l IH]; intros Eh acc Ha; [done|]. cbn [foldl forallb] in *. apply andb_true_iff in Eh as [Hb Eh].
  apply IH; [done|]. unfold is_hex_byte, in_range in Hb. unfold hex_byte_value, in_range. repeat case_match; lia.
Qed.

Lemma slice_to_end {A} (l : list A) a b : slice a b l = take (b - a) (drop a l).
Proof. done. Qed.

Lemma decode_sound body fuel offset res r : Z.of_nat (length body) < 2 ^ 63 -> decode_loop fuel body offset res = Done (Ok r) ->
  exists r', r = res ++ r' /\ chunked (drop offset body) r'.
Proof.
  intros Hsmall. revert offset res. induction fuel as [|fuel IH]; intros offset res H; [done|]. cbn [decode_loop] in H.
  destruct (Nat.ltb_spec (length body) offset) as [|Ho]; [done|]. destruct (window_position CRLF (drop offset body)) as [i|] eqn:Ew; [|done].
  destruct (window_position_Some _ _ Ew) as (Hcut & Hlen & Hline). set (tail := drop offset body) in *.
  assert (Htail : length tail = (length body - offset)%nat) by apply length_drop.
  assert (Hi : (i + 2 <= length tail)%nat).
  { rewrite Hcut, !length_app, Hlen. cbn [CRLF length]. lia. }
  rewrite slice_to_end in H. replace (offset + i - offset)%nat with i in H by lia. fold tail in H.
  destruct (chunk_size (take i tail)) as [size|] eqn:Es; [|done]. pose proof (chunk_size_range _ _ Es) as Hrange.
  destruct (Z.eqb_spec size 0) as [->|Hs].
  { injection H as <-. exists []. rewrite app_nil_r. split; [done|]. rewrite Hcut. constructor. split; [by rewrite Hlen|done]. }
  destruct (Z.ltb_spec (Z.of_nat (length body)) (usize_wrap (Z.of_nat (offset + i + 2) + size + 2))) as [|Hnext]; [done|].
  destruct (Z.ltb_spec (usize_wrap (Z.of_nat (offset + i + 2) + size)) (Z.of_nat (offset + i + 2))) as [|Hstop1]; [done|].
  destruct (Z.ltb_spec (Z.of_nat (length body)) (usize_wrap (Z.of_nat (offset + i + 2) + size))) as [|Hstop2]; [done|]. cbn [orb] in H.
  destruct (accepted_size (Z.of_nat (offset + i + 2)) (Z.of_nat (length body)) size) as [En Es']; [lia|done|lia|done|lia|].
  rewrite En, Es' in *. apply IH in H as (r' & -> & Hr'). exists (slice (offset + i + 2) (Z.to_nat (Z.of_nat (offset + i + 2) + size)) body ++ r').
  split; [by rewrite app_assoc|]. set (rest := drop (i + 2) tail) in *. set (n := Z.to_nat size).
  assert (Hdata : slice (offset + i + 2) (Z.to_nat (Z.of_nat (offset + i + 2) + size)) body = take n rest).
  { rewrite slice_to_end. unfold rest, tail. rewrite drop_drop. f_equal; [lia|]. f_equal. lia. }
  assert (Hrest : (n + 2 <= length rest)%nat) by (unfold rest; rewrite length_drop; lia).
  assert (Hafter : drop (Z.to_nat (Z.of_nat (offset + i + 2) + size + 2)) body = drop (n + 2) rest).
  { unfold rest, tail. rewrite !drop_drop. f_equal. lia. }
  rewrite Hdata, Hcut. rewrite Hafter in Hr'. rewrite <- (take_drop n rest) at 1. rewrite <- (take_drop 2 (drop n rest)) at 1. rewrite drop_drop.
  constructor; [|intros E; apply (f_equal length) in E; rewrite length_take in E; cbn in E; lia|rewrite length_take, length_drop; lia|done].
  split; [by rewrite Hlen|]. rewrite Es, length_take. f_equal. lia.
Qed.

Lemma decode_complete body tail r : Z.of_nat (length body) < 2 ^ 63 -> chunked tail r ->
  forall fuel offset res, drop offset body = tail -> (offset <= length body)%nat -> (length tail < fuel)%nat ->
  decode_loop fuel body offset res = Done (Ok (res ++ r)).
Proof.
  intros Hsmall. induction 1 as [line rest [Hl Hs]|line data t rest r [Hl Hs] Hd Ht Hr IH]; intros fuel offset res Htail Ho Hf; (destruct fuel as [|fuel]; [lia|]);
    cbn [decode_loop]; rewrite (proj2 (Nat.ltb_ge _ _)) by done; rewrite Htail.
  - rewrite (proj2 (window_position_cut line rest) Hl), slice_to_end, Htail. replace (offset + length line - offset)%nat with (length line) by lia.
    rewrite take_app_length, Hs. cbn. by rewrite app_nil_r.
  - rewrite (proj2 (window_position_cut line (data ++ t ++ rest)) Hl), slice_to_end, Htail. replace (offset + length line - offset)%nat with (length line) by lia.
    rewrite take_app_length, Hs. assert (Hpos : (0 < length data)%nat) by (destruct data; [done|cbn; lia]).
    assert (Hlen : length body = (offset + length line + 2 + length data + 2 + length rest)%nat).
    { apply (f_equal length) in Htail. rewrite length_drop, !length_app in Htail. cbn [CRLF length] in Htail. lia. }
    rewrite (proj2 (Z.eqb_neq _ _)) by lia. rewrite !usize_small by lia. rewrite !(proj2 (Z.ltb_ge _ _)) by lia. cbn [orb].
    assert (Hdrop : drop (offset + length line + 2) body = data ++ t ++ rest).
    { rewrite <- Nat.add_assoc, <- drop_drop, Htail, <- drop_drop, drop_app_length. done. }
    rewrite slice_to_end, Hdrop. replace (Z.to_nat _ - _)%nat with (length data) by lia. rewrite take_app_length.
    erewrite IH; [by rewrite <- app_assoc| |lia|].
    + replace (Z.to_nat _) with (offset + length line + 2 + (length data + 2))%nat by lia. rewrite <- drop_drop, Hdrop, <- drop_drop, drop_app_length, <- Ht.
      by rewrite drop_app_length.
    + rewrite !length_app in Hf. cbn [CRLF length] in Hf. lia.
Qed.

Lemma decode_returns body fuel offset res : Z.of_nat (length body) < 2 ^ 63 -> (length body - offset < fuel)%nat ->
  decode_loop fuel body offset res <> OutOfFuel.
Proof.
  intros Hsmall. revert offset res. induction fuel as [|fuel IH]; intros offset res Hf; [lia|]. cbn [decode_loop].
  destruct (Nat.ltb_spec (length body) offset) as [|Ho]; [done|]. destruct (window_position CRLF (drop offset body)) as [i|] eqn:Ew; [|done].
  destruct (window_position_Some _ _ Ew) as (Hcut & Hlen & _).
  assert (Hi : (offset + i + 2 <= length body)%nat).
  { apply (f_equal length) in Hcut. rewrite !length_app, Hlen, length_drop in Hcut. cbn [CRLF length] in Hcut. lia. }
  destruct (chunk_size (slice offset (offset + i) body)) as [size|] eqn:Es; [|done]. pose proof (chunk_size_range _ _ Es) as Hrange.
  destruct (Z.eqb_spec size 0) as [->|Hs]; [done|].
  destruct (Z.ltb_spec (Z.of_nat (length body)) (usize_wrap (Z.of_nat (offset + i + 2) + size + 2))) as [|Hnext]; [done|].
  destruct (Z.ltb_spec (usize_wrap (Z.of_nat (offset + i + 2) + size)) (Z.of_nat (offset + i + 2))) as [|Hstop1]; [done|].
  destruct (Z.ltb_spec (Z.of_nat (length body)) (usize_wrap (Z.of_nat (offset + i + 2) + size))) as [|Hstop2]; [done|]. cbn [orb].
  destruct (accepted_size (Z.of_nat (offset + i + 2)) (Z.of_nat (length body)) size) as [En Es']; [lia|done|lia|done|lia|].
  apply IH. rewrite En. lia.
Qed.

(** the chunked answer of the manager is decoded exactly.  For a body of at
    most [isize::MAX] bytes, [decode_chunked] succeeds with [r] exactly when the
    body is a sequence of chunks, each of them a size line and as many bytes as
    it declares followed by two more bytes, up to a line of size zero, and [r]
    is what the chunks hold; and it always returns: the loop never runs out of
    fuel. *)
Theorem decode_chunked_iff body r : Z.of_nat (length body) < 2 ^ 63 ->
  (decode_chunked body = Done (Ok r) <-> chunked body r) /\ decode_chunked body <> OutOfFuel.
Proof.
  intros Hsmall. split; [split|].
  - intros H. destruct (decode_sound body _ 0 [] r Hsmall H) as (r' & -> & Hc). exact Hc.
  - intros H. apply (decode_complete body body r Hsmall H (S (length body)) 0 []); [done|lia|lia].
  - apply decode_returns; [done|lia].
Qed.

Definition sample_body : list Z := bytes_of "4" ++ CRLF ++ bytes_of "test" ++ CRLF ++ bytes_of "0" ++ CRLF ++ CRLF.
Lemma decode_chunked_iff_witness :
  decode_chunked sample_body = Done (Ok (bytes_of "test")) /\
  (decode_chunked sample_body = Done (Ok (bytes_of "test")) <-> chunked sample_body (bytes_of "test")) /\ decode_chunked sample_body <> OutOfFuel.
Proof. split; [vm_compute; reflexivity|]. apply (decode_chunked_iff sample_body (bytes_of "test")). vm_compute. reflexivity. Defined.
