(* ===== verification/LogPush.v ===== *)
(** * Delivery of log records to the manager (src/src/log_push.rs)

    The queues the logger writes to, the records waiting for delivery, the
    spool file that carries them over a restart, and the thread that sends
    them in batches until they are acknowledged.  What happens outside (records
    that arrive, the clock, answers of the manager, failures of the file system)
    is an environment that answers each numbered question; JSON is a pair of
    functions. *)

From S2P Require Import Prelude RustStr Utf8 ConfigSet LogFiles HttpAck.
From stdpp Require Import pretty.
Open Scope string_scope.
Open Scope Z_scope.
Open Scope list_scope.

Definition MAX_MESSAGE_BYTES : Z := 16 * 1024.
Definition HIGH_PRIORITY_CAPACITY : nat := 512.

(** ** Configuration *)

Record HttpLogPushConfig := {
  hc_enabled : bool;
  hc_url : string;
  hc_source_id : string;
  hc_batch_interval_ms : Z;
  hc_batch_size : Z;
  hc_queue_capacity : Z;
  hc_spool_directory : option string;
  hc_spool_max_bytes : Z;
  hc_request_timeout_ms : Z
}.
Definition push_config_default : HttpLogPushConfig :=
  {| hc_enabled := false; hc_url := ""; hc_source_id := ""; hc_batch_interval_ms := 500; hc_batch_size := 100; hc_queue_capacity := 10000;
     hc_spool_directory := None; hc_spool_max_bytes := 16 * 1024 * 1024; hc_request_timeout_ms := 3000 |}.

Record ResolvedConfig := {
  rc_endpoint : HttpEndpoint;
  rc_source_id : string;
  rc_batch_interval : Z;
  rc_batch_size : nat;
  rc_queue_capacity : nat;
  rc_spool_path : string;
  rc_spool_max_bytes : Z;
  rc_request_timeout : Z
}.

Definition clamp (lo hi x : Z) : Z := Z.max lo (Z.min hi x).
(** [Path::join] of a relative path. *)
Definition join_path (dir name : string) : string := if ends_with "/" dir then dir +:+ name else dir +:+ "/" +:+ name.

(** An environment variable that is set to more than white space. *)
Definition override (value : option string) : option string :=
  match value with Some v => if String.eqb (trim v) "" then None else Some v | None => None end.

(** [resolved], with the two environment variables. *)
Definition resolved (push_url push_source : option string) (c : HttpLogPushConfig) (log_dir : string) : result string ResolvedConfig :=
  let enabled := match override push_url with Some _ => true | None => hc_enabled c end in
  let url := default (hc_url c) (override push_url) in
  let source_id := default (hc_source_id c) (override push_source) in
  if negb enabled then Err "disabled"
  else
    endpoint ← parse_endpoint (trim url);
    let source_id := trim source_id in
    if String.eqb source_id "" || (128 <? slen source_id) then Err "logging.http_push.source_id must contain 1..128 characters"
    else if any_control source_id then Err "logging.http_push.source_id must not contain control characters"
    else
      let spool_dir :=
        match trim <$> hc_spool_directory c with
        | Some value => if String.eqb value "" then join_path log_dir "push-spool"
                        else if String.prefix "/" value then value else join_path log_dir value
        | None => join_path log_dir "push-spool"
        end in
      Ok {| rc_endpoint := endpoint; rc_source_id := source_id; rc_batch_interval := millis (clamp 50 60000 (hc_batch_interval_ms c));
            rc_batch_size := Z.to_nat (clamp 1 500 (hc_batch_size c)); rc_queue_capacity := Z.to_nat (clamp 100 100000 (hc_queue_capacity c));
            rc_spool_path := join_path spool_dir "http-log-spool.jsonl";
            rc_spool_max_bytes := clamp (1024 * 1024) (512 * 1024 * 1024) (hc_spool_max_bytes c);
            rc_request_timeout := millis (clamp 250 30000 (hc_request_timeout_ms c)) |}.

(** ** Records and events *)

Record PendingRecord := { pr_timestamp : string; pr_level : string; pr_component : string; pr_message : string; pr_urgent : bool }.
Record StoredLogEvent := {
  ev_source_id : string;
  ev_boot_id : string;
  ev_sequence : Z;
  ev_timestamp : string;
  ev_level : string;
  ev_component : string;
  ev_port_id : option string;
  ev_device_id : option string;
  ev_message : string
}.
Record LogAck := { la_source_id : string; la_boot_id : string; la_accepted_through : Z }.

Definition command_audit (timestamp level target message : string) : PendingRecord :=
  {| pr_timestamp := timestamp; pr_level := level; pr_component := target; pr_message := truncate_utf8 message MAX_MESSAGE_BYTES; pr_urgent := true |}.
Definition log_record (timestamp level target message : string) : PendingRecord :=
  {| pr_timestamp := timestamp; pr_level := level; pr_component := truncate_utf8 target 256; pr_message := truncate_utf8 message MAX_MESSAGE_BYTES;
     pr_urgent := String.eqb level "WARN" || String.eqb level "ERROR" |}.

(** *** Ports and devices named in a message *)

Definition token_edge (c : list Z) : bool := match c with [b] => existsb (Z.eqb b) (bytes_of ",;])'") || (b =? 34) | _ => false end.
Definition clean_token (word : list Z) : list Z :=
  concat (take 128 (rev (drop_while token_edge (rev (drop_while token_edge (utf8_pieces word).*1))))).
Definition extract_token (message : list Z) (prefixes : list (list Z)) : option (list Z) :=
  head (omap (fun prefix =>
    '(_, rest) ← split_once prefix message;
    word ← head (split_whitespace rest);
    match clean_token word with [] => None | value => Some value end) prefixes).

Section Push.
(** JSON: an event, a batch, an acknowledgement, and the two fields of a
    message that is an object. *)
Context (encode_event : StoredLogEvent -> string) (decode_event : string -> option StoredLogEvent).
Context (decode_ack : list Z -> option LogAck) (json_context : string -> option (option string * option string)).
Context (config : ResolvedConfig) (windows : bool).

Definition extract_log_context (message : string) : option string * option string :=
  match (if String.prefix "{" message then json_context message else None) with
  | Some context => context
  | None =>
      let bytes := bytes_of message in
      let port :=
        match extract_token bytes (bytes_of <$> ["port_id="; "port="; "串口="]) with
        | Some value => Some value
        | None => clean_token <$> head (filter (fun word => is_prefix (bytes_of "/dev/tty") word = true) (split_whitespace bytes))
        end in
      let device := extract_token bytes (bytes_of <$> ["device_id="; "device="; "站点="]) in
      ((fun v => text (chars_of v)) <$> port, (fun v => text (chars_of v)) <$> device)
  end.

Definition stored (boot_id : string) (sequence : Z) (r : PendingRecord) : StoredLogEvent :=
  let '(port_id, device_id) := extract_log_context (pr_message r) in
  {| ev_source_id := rc_source_id config; ev_boot_id := boot_id; ev_sequence := sequence; ev_timestamp := pr_timestamp r; ev_level := pr_level r;
     ev_component := pr_component r; ev_port_id := port_id; ev_device_id := device_id; ev_message := pr_message r |}.

(** ** Batches and acknowledgements *)

Definition same_stream (e first : StoredLogEvent) : bool :=
  String.eqb (ev_source_id e) (ev_source_id first) && String.eqb (ev_boot_id e) (ev_boot_id first).
Fixpoint take_while {A} (p : A -> bool) (l : list A) : list A :=
  match l with [] => [] | x :: l => if p x then x :: take_while p l else [] end.
Definition next_batch (pending : list StoredLogEvent) (max : nat) : list StoredLogEvent :=
  match pending with [] => [] | first :: _ => take max (take_while (fun e => same_stream e first) pending) end.

(** The answer to a batch; [None] when the decoder panics. *)
Definition post_batch (answer : result string (list Z)) (events : list StoredLogEvent) : option (result string Z) :=
  match events with
  | [] => Some (Err "empty log batch")
  | first :: _ =>
      match answer with
      | Err e => Some (Err e)
      | Ok response =>
          match parse_http_response response with
          | Panic | OutOfFuel => None
          | Done (Err e) => Some (Err e)
          | Done (Ok body) =>
              Some (ack ← ok_or "decode manager log ACK" (decode_ack body);
                    if negb (String.eqb (la_source_id ack) (ev_source_id first)) || negb (String.eqb (la_boot_id ack) (ev_boot_id first))
                    then Err "manager log ACK identity does not match request"
                    else if la_accepted_through ack <? ev_sequence first then Err "manager log ACK did not accept the first event"
                    else if from_option ev_sequence (ev_sequence first) (last events) <? la_accepted_through ack
                         then Err "manager log ACK exceeds the submitted batch"
                         else Ok (la_accepted_through ack))
          end
      end
  end.

(** ** The spool *)

(** A spool file as its lines; [None] is a line that cannot be read, where the
    reading ends ([map_while(Result::ok)]). *)
Definition SpoolFile : Type := list (option string).
Fixpoint readable (lines : SpoolFile) : list string :=
  match lines with Some line :: lines => line :: readable lines | _ => [] end.
Definition load_spool (spool : option SpoolFile) : list StoredLogEvent :=
  filter (fun e => ev_source_id e = rc_source_id config /\ 0 < ev_sequence e) (omap decode_event (readable (default [] spool))).

(** How a save ends: before the replacement of the file, at it, or well. *)
Inductive SaveFault := NoFault | FailsWriting | FailsRenaming.
Definition save_spool (fault : SaveFault) (events : list StoredLogEvent) (spool : option SpoolFile) : option SpoolFile * bool :=
  match fault with
  | FailsWriting => (spool, false)
  | FailsRenaming => (if windows then None else spool, false)
  | NoFault => (Some (Some ∘ encode_event <$> events), true)
  end.

Definition estimated_spool_bytes (events : list StoredLogEvent) : Z := foldr (fun e n => slen (encode_event e) + 1 + n) 0 events.

Definition low_priority (e : StoredLogEvent) : bool :=
  String.eqb (ev_level e) "TRACE" || String.eqb (ev_level e) "DEBUG" || String.eqb (ev_level e) "INFO".
(** The loop removes one event at a time: what is kept and what is dropped. *)
Fixpoint drop_events (fuel : nat) (limit : Z) (events dropped : list StoredLogEvent) : list StoredLogEvent * list StoredLogEvent :=
  match fuel with
  | O => (events, dropped)
  | S fuel =>
      if estimated_spool_bytes events <=? limit then (events, dropped)
      else match events with
           | [] => (events, dropped)
           | _ => let index := default 0%nat (position low_priority events) in
                  drop_events fuel limit (delete index events) (dropped ++ option_list (events !! index))
           end
  end.
Definition rebased (boot_id : string) (i : nat) (e : StoredLogEvent) : StoredLogEvent :=
  {| ev_source_id := ev_source_id e; ev_boot_id := boot_id; ev_sequence := Z.of_nat i + 1; ev_timestamp := ev_timestamp e; ev_level := ev_level e;
     ev_component := ev_component e; ev_port_id := ev_port_id e; ev_device_id := ev_device_id e; ev_message := ev_message e |}.
(** ** The worker *)

Inductive Lane := HighLane | NormalLane.
#[export] Instance lane_eq_dec : EqDecision Lane.
Proof. solve_decision. Defined.

(** The two bounded queues, and for the statements what arrived, what found
    no room, what entered a queue and what was taken out of one, each in the
    order of the events. *)
Record Queues := {
  qu_high : list PendingRecord;
  qu_normal : list PendingRecord;
  qu_arrived : list PendingRecord;
  qu_lost : list PendingRecord;
  qu_entered : list (Lane * PendingRecord);
  qu_taken : list (Lane * PendingRecord)
}.
Definition in_lane (lane : Lane) (l : list (Lane * PendingRecord)) : list PendingRecord := (filter (fun x => x.1 = lane) l).*2.
(** What waits for delivery, and for the statements what was acknowledged, what
    was dropped, and every batch that was sent with its answer. *)
Record Delivery := {
  dl_pending : list StoredLogEvent;
  dl_boot_id : string;
  dl_next_sequence : Z;
  dl_dirty : bool;
  dl_acked : list StoredLogEvent;
  dl_dropped : list StoredLogEvent;
  dl_posts : list (list StoredLogEvent * option (result string Z))
}.
Record Timing := { tm_last_batch_at : Z; tm_next_attempt_at : Z; tm_retry_delay : Z; tm_force_flush : bool; tm_stopping : bool }.
(** The spool file, and whether some save failed. *)
Record Spool := { sl_lines : option SpoolFile; sl_failed : bool }.
Record PushState := { ps_queues : Queues; ps_delivery : Delivery; ps_timing : Timing; ps_spool : Spool; ps_tick : nat }.

(** The answers of the environment to question [n]. *)
Record PushEnv := {
  pe_arrivals : nat -> list PendingRecord;
  pe_shutdown : nat -> bool;
  pe_now : nat -> Z;
  pe_answer : nat -> result string (list Z);
  pe_fault : nat -> SaveFault;
  pe_boot_id : nat -> string
}.

Definition try_send_normal (r : PendingRecord) (q : Queues) : Queues :=
  if (length (qu_normal q) <? rc_queue_capacity config)%nat
  then {| qu_high := qu_high q; qu_normal := qu_normal q ++ [r]; qu_arrived := qu_arrived q ++ [r]; qu_lost := qu_lost q;
          qu_entered := qu_entered q ++ [(NormalLane, r)]; qu_taken := qu_taken q |}
  else {| qu_high := qu_high q; qu_normal := qu_normal q; qu_arrived := qu_arrived q ++ [r]; qu_lost := qu_lost q ++ [r];
          qu_entered := qu_entered q; qu_taken := qu_taken q |}.
Definition enqueue_pending (q : Queues) (r : PendingRecord) : Queues :=
  if pr_urgent r then
    if (length (qu_high q) <? HIGH_PRIORITY_CAPACITY)%nat
    then {| qu_high := qu_high q ++ [r]; qu_normal := qu_normal q; qu_arrived := qu_arrived q ++ [r]; qu_lost := qu_lost q;
            qu_entered := qu_entered q ++ [(HighLane, r)]; qu_taken := qu_taken q |}
    else try_send_normal r q
  else try_send_normal r q.

(** [try_recv] on one of the queues, after what arrived meanwhile. *)
Definition take_high (q : Queues) : option PendingRecord * Queues :=
  match qu_high q with
  | [] => (None, q)
  | r :: rs => (Some r, {| qu_high := rs; qu_normal := qu_normal q; qu_arrived := qu_arrived q; qu_lost := qu_lost q; qu_entered := qu_entered q;
                        qu_taken := qu_taken q ++ [(HighLane, r)] |})
  end.
Definition take_normal (q : Queues) : option PendingRecord * Queues :=
  match qu_normal q with
  | [] => (None, q)
  | r :: rs => (Some r, {| qu_high := qu_high q; qu_normal := rs; qu_arrived := qu_arrived q; qu_lost := qu_lost q; qu_entered := qu_entered q;
                        qu_taken := qu_taken q ++ [(NormalLane, r)] |})
  end.

Section Run.
Context (env : PushEnv).

Definition set_queues (q : Queues) (s : PushState) : PushState :=
  {| ps_queues := q; ps_delivery := ps_delivery s; ps_timing := ps_timing s; ps_spool := ps_spool s; ps_tick := S (ps_tick s) |}.
Definition set_delivery (d : Delivery) (s : PushState) : PushState :=
  {| ps_queues := ps_queues s; ps_delivery := d; ps_timing := ps_timing s; ps_spool := ps_spool s; ps_tick := S (ps_tick s) |}.
Definition set_timing (t : Timing) (s : PushState) : PushState :=
  {| ps_queues := ps_queues s; ps_delivery := ps_delivery s; ps_timing := t; ps_spool := ps_spool s; ps_tick := S (ps_tick s) |}.
Definition set_dirty (dirty : bool) (d : Delivery) : Delivery :=
  {| dl_pending := dl_pending d; dl_boot_id := dl_boot_id d; dl_next_sequence := dl_next_sequence d; dl_dirty := dirty; dl_acked := dl_acked d;
     dl_dropped := dl_dropped d; dl_posts := dl_posts d |}.

Definition receive (which : Queues -> option PendingRecord * Queues) (s : PushState) : option PendingRecord * PushState :=
  let '(r, q) := which (foldl enqueue_pending (ps_queues s) (pe_arrivals env (ps_tick s))) in (r, set_queues q s).

Fixpoint drain_queue (which : Queues -> option PendingRecord * Queues) (room : nat) (s : PushState) : list PendingRecord * PushState :=
  match room with
  | O => ([], s)
  | S room =>
      match receive which s with
      | (None, s) => ([], s)
      | (Some r, s) => let '(rs, s) := drain_queue which room s in (r :: rs, s)
      end
  end.
Definition drain_records (limit : nat) (s : PushState) : list PendingRecord * PushState :=
  let '(high, s) := drain_queue take_high limit s in
  let '(normal, s) := drain_queue take_normal (limit - length high) s in
  (high ++ normal, s).

(** A record becomes the next event of the current stream. *)
Definition push_record (d : Delivery) (r : PendingRecord) : Delivery :=
  let sequence := u64_saturating_add (dl_next_sequence d) 1 in
  {| dl_pending := dl_pending d ++ [stored (dl_boot_id d) sequence r]; dl_boot_id := dl_boot_id d; dl_next_sequence := sequence; dl_dirty := true;
     dl_acked := dl_acked d; dl_dropped := dl_dropped d; dl_posts := dl_posts d |}.

Definition enforce_spool_limit (replacement : string) (d : Delivery) : Delivery :=
  if estimated_spool_bytes (dl_pending d) <=? rc_spool_max_bytes config then d
  else
    let '(kept, dropped) := drop_events (length (dl_pending d)) (rc_spool_max_bytes config) (dl_pending d) [] in
    {| dl_pending := imap (rebased replacement) kept; dl_boot_id := replacement; dl_next_sequence := Z.of_nat (length kept); dl_dirty := dl_dirty d;
       dl_acked := dl_acked d; dl_dropped := dl_dropped d ++ dropped; dl_posts := dl_posts d |}.

(** A save, and whether it succeeded. *)
Definition save (s : PushState) : PushState * bool :=
  let '(lines, ok) := save_spool (pe_fault env (ps_tick s)) (dl_pending (ps_delivery s)) (sl_lines (ps_spool s)) in
  ({| ps_queues := ps_queues s; ps_delivery := ps_delivery s; ps_timing := ps_timing s;
      ps_spool := {| sl_lines := lines; sl_failed := sl_failed (ps_spool s) || negb ok |}; ps_tick := S (ps_tick s) |}, ok).

(** [urgent || pending.len() >= batch_size || last_batch_at.elapsed() >=
    batch_interval || stopping]. *)
Definition due (urgent : bool) (s : PushState) : bool :=
  urgent || (rc_batch_size config <=? length (dl_pending (ps_delivery s)))%nat
  || (rc_batch_interval config <=? duration_saturating_sub (pe_now env (ps_tick s)) (tm_last_batch_at (ps_timing s)))
  || tm_stopping (ps_timing s).

Definition flush_part (urgent : bool) (s : PushState) : PushState :=
  if dl_dirty (ps_delivery s) && due urgent s then
    let s := set_delivery (enforce_spool_limit (pe_boot_id env (ps_tick s)) (ps_delivery s)) s in
    let '(s, ok) := save s in
    if ok : bool then set_delivery (set_dirty false (ps_delivery s)) s else s
  else s.

Definition accepted_prefix (first : StoredLogEvent) (through : Z) (e : StoredLogEvent) : bool :=
  same_stream e first && (ev_sequence e <=? through).
Definition accept (first : StoredLogEvent) (through : Z) (d : Delivery) : Delivery :=
  let acked := take_while (accepted_prefix first through) (dl_pending d) in
  {| dl_pending := drop_while (accepted_prefix first through) (dl_pending d); dl_boot_id := dl_boot_id d; dl_next_sequence := dl_next_sequence d;
     dl_dirty := dl_dirty d; dl_acked := dl_acked d ++ acked; dl_dropped := dl_dropped d; dl_posts := dl_posts d |}.
Definition note_post (batch : list StoredLogEvent) (outcome : option (result string Z)) (d : Delivery) : Delivery :=
  {| dl_pending := dl_pending d; dl_boot_id := dl_boot_id d; dl_next_sequence := dl_next_sequence d; dl_dirty := dl_dirty d; dl_acked := dl_acked d;
     dl_dropped := dl_dropped d; dl_posts := dl_posts d ++ [(batch, outcome)] |}.

Definition SECOND : Z := 1000000000.
Definition after_success (now : Z) (t : Timing) : Timing :=
  {| tm_last_batch_at := now; tm_next_attempt_at := now; tm_retry_delay := SECOND; tm_force_flush := tm_force_flush t; tm_stopping := tm_stopping t |}.
Definition after_failure (now : Z) (t : Timing) : Timing :=
  {| tm_last_batch_at := tm_last_batch_at t; tm_next_attempt_at := now + tm_retry_delay t; tm_retry_delay := Z.min (tm_retry_delay t * 2) (30 * SECOND);
     tm_force_flush := tm_force_flush t; tm_stopping := tm_stopping t |}.

(** A sending; [None] when the decoder of the answer panics. *)
Definition send_part (urgent : bool) (s : PushState) : PushState * bool :=
  match dl_pending (ps_delivery s) with
  | [] => (s, true)
  | _ =>
      if (tm_next_attempt_at (ps_timing s) <=? pe_now env (ps_tick s)) && due urgent s then
        let batch := next_batch (dl_pending (ps_delivery s)) (rc_batch_size config) in
        let outcome := post_batch (pe_answer env (ps_tick s)) batch in
        let s := set_delivery (note_post batch outcome (ps_delivery s)) s in
        match outcome, batch with
        | None, _ => (s, false)
        | Some (Ok through), first :: _ =>
            let s := set_delivery (accept first through (ps_delivery s)) s in
            let '(s, ok) := save s in
            let s := set_delivery (set_dirty (negb ok) (ps_delivery s)) s in
            (set_timing (after_success (pe_now env (ps_tick s)) (ps_timing s)) s, true)
        | _, _ =>
            let s := if dl_dirty (ps_delivery s) then let '(s, _) := save s in set_delivery (set_dirty false (ps_delivery s)) s else s in
            (set_timing (after_failure (pe_now env (ps_tick s)) (ps_timing s)) s, true)
        end
      else (s, true)
  end.

Inductive Round := Continue (s : PushState) | Stopped (s : PushState) | Died (s : PushState).

Definition set_flags (force stopping : bool) (t : Timing) : Timing :=
  {| tm_last_batch_at := tm_last_batch_at t; tm_next_attempt_at := tm_next_attempt_at t; tm_retry_delay := tm_retry_delay t; tm_force_flush := force;
     tm_stopping := stopping |}.

(** One pass of the loop. *)
Definition push_round (s : PushState) : Round :=
  let urgent := tm_force_flush (ps_timing s) in
  let s := set_timing (set_flags false (tm_stopping (ps_timing s) || pe_shutdown env (ps_tick s)) (ps_timing s)) s in
  let '(records, s) := drain_records 512 s in
  let urgent := urgent || existsb pr_urgent records in
  let s := set_delivery (foldl push_record (ps_delivery s) records) s in
  let s := flush_part urgent s in
  match send_part urgent s with
  | (s, false) => Died s
  | (s, true) =>
      if tm_stopping (ps_timing s) then Stopped (if dl_dirty (ps_delivery s) then (save s).1 else s)
      else match receive take_high s with
           | (None, s) => Continue s
           | (Some r, s) =>
               Continue (set_delivery (push_record (ps_delivery s) r) (set_timing (set_flags (pr_urgent r) (tm_stopping (ps_timing s)) (ps_timing s)) s))
           end
  end.

Fixpoint run_rounds (n : nat) (s : PushState) : Round :=
  match n with
  | O => Continue s
  | S n => match push_round s with Continue s => run_rounds n s | other => other end
  end.

Definition start_worker (spool : option SpoolFile) : PushState :=
  {| ps_queues := {| qu_high := []; qu_normal := []; qu_arrived := []; qu_lost := []; qu_entered := []; qu_taken := [] |};
     ps_delivery := {| dl_pending := load_spool spool; dl_boot_id := pe_boot_id env 0; dl_next_sequence := 0; dl_dirty := false; dl_acked := [];
                       dl_dropped := []; dl_posts := [] |};
     ps_timing := {| tm_last_batch_at := pe_now env 0; tm_next_attempt_at := pe_now env 0; tm_retry_delay := SECOND; tm_force_flush := false; tm_stopping := false |};
     ps_spool := {| sl_lines := spool; sl_failed := false |}; ps_tick := 1 |}.
End Run.
(** ** What is kept *)

(** The content of an event, without its place in a stream. *)
Definition content (e : StoredLogEvent) : string * string * string * option string * option string * string :=
  (ev_timestamp e, ev_level e, ev_component e, ev_port_id e, ev_device_id e, ev_message e).
Definition record_content (r : PendingRecord) : string * string * string * option string * option string * string := content (stored "" 0 r).

Lemma content_stored b n r : content (stored b n r) = record_content r.
Proof. unfold record_content, stored. by destruct (extract_log_context (pr_message r)). Qed.
Lemma content_rebased b i e : content (rebased b i e) = content e. Proof. done. Qed.
Lemma stored_fields b n r : ev_source_id (stored b n r) = rc_source_id config /\ ev_boot_id (stored b n r) = b /\ ev_sequence (stored b n r) = n.
Proof. unfold stored. by destruct (extract_log_context (pr_message r)). Qed.

(** Neighbours of one stream have consecutive numbers. *)
Definition follows (e f : StoredLogEvent) : Prop := ev_boot_id f = ev_boot_id e -> ev_sequence f = ev_sequence e + 1.
Fixpoint linked (l : list StoredLogEvent) : Prop :=
  match l with [] => True | e :: l => (forall f, head l = Some f -> follows e f) /\ linked l end.

Lemma linked_app l k : linked (l ++ k) <-> linked l /\ linked k /\ (forall e f, last l = Some e -> head k = Some f -> follows e f).
Proof using.
  clear encode_event decode_event decode_ack json_context config windows.
  induction l as [|e l IH]; [cbn; naive_solver|]. cbn [app linked]. rewrite IH. destruct l as [|f l]; cbn [app head last]; naive_solver.
Qed.

Lemma take_drop_while {A} (p : A -> bool) l : take_while p l ++ drop_while p l = l.
Proof. induction l as [|x l IH]; [done|]. cbn. destruct (p x); [|done]. cbn. by rewrite IH. Qed.

(** A run of one stream counts up from its first number. *)
Lemma linked_run (e : StoredLogEvent) l i f : linked (e :: l) -> Forall (fun f => ev_boot_id f = ev_boot_id e) l -> (e :: l) !! i = Some f ->
  ev_sequence f = ev_sequence e + Z.of_nat i.
Proof.
  revert e i. induction l as [|g l IH]; intros e i Hl Hb Hf.
  - destruct i; [|done]. injection Hf as <-. lia.
  - destruct i as [|i]; [injection Hf as <-; lia|]. destruct Hl as [Hg Hl]. apply Forall_cons in Hb as [Hbg Hb].
    specialize (Hg g eq_refl Hbg). cbn in Hf. rewrite (IH g i Hl); [lia| |done]. eapply Forall_impl; [exact Hb|]. cbn. by intros ? ->.
Qed.

(** *** Dropping *)

Lemma position_lt {A} (p : A -> bool) l i : position p l = Some i -> (i < length l)%nat.
Proof.
  revert i. induction l as [|x l IH]; intros i H; [done|]. cbn in H. destruct (p x); [injection H as <-; cbn; lia|].
  destruct (position p l) as [j|]; [|done]. injection H as <-. specialize (IH j eq_refl). cbn. lia.
Qed.

Lemma drop_events_spec limit fuel events dropped :
  let '(kept, dropped') := drop_events fuel limit events dropped in kept `sublist_of` events /\ dropped ++ events ≡ₚ dropped' ++ kept.
Proof.
  revert events dropped. induction fuel as [|fuel IH]; intros events dropped; cbn [drop_events]; [done|].
  destruct (estimated_spool_bytes events <=? limit); [done|]. destruct events as [|e events]; [done|].
  set (all := e :: events). set (i := default 0%nat (position low_priority all)).
  assert (Hi : (i < length all)%nat).
  { unfold i. destruct (position low_priority all) as [j|] eqn:Ej; [by apply position_lt in Ej|cbn; lia]. }
  destruct (lookup_lt_is_Some_2 all i Hi) as [x Hx]. rewrite Hx. change (option_list (Some x)) with [x].
  specialize (IH (delete i all) (dropped ++ [x])). destruct (drop_events fuel limit (delete i all) (dropped ++ [x])) as [kept dropped'].
  destruct IH as [Hs Hp]. split; [etrans; [exact Hs|apply sublist_delete]|]. rewrite <- Hp, <- app_assoc. apply Permutation_app_head.
  by apply delete_Permutation.
Qed.
(** ** The invariant *)

(** Identities are never used twice. *)
Definition identities (l : list StoredLogEvent) : Prop :=
  forall e f, e ∈ l -> f ∈ l -> ev_boot_id e = ev_boot_id f -> ev_sequence e = ev_sequence f -> content e = content f.
Definition owned (e : StoredLogEvent) : Prop := ev_source_id e = rc_source_id config /\ 0 < ev_sequence e.
(** A backlog that can be carried on with. *)
Definition backlog (l : list StoredLogEvent) : Prop := linked l /\ Forall owned l /\ identities l.

(** A batch of one stream without gaps, and an acknowledgement within it. *)
Definition good_post (post : list StoredLogEvent * option (result string Z)) : Prop :=
  exists first, head post.1 = Some first /\ (length post.1 <= rc_batch_size config)%nat /\
    (forall i e, post.1 !! i = Some e -> owned e /\ ev_boot_id e = ev_boot_id first /\ ev_sequence e = ev_sequence first + Z.of_nat i) /\
    (forall k, post.2 = Some (Ok k) -> ev_sequence first <= k < ev_sequence first + Z.of_nat (length post.1)).

(** Every event the manager may have seen, and those still waiting. *)
Definition seen (d : Delivery) : list StoredLogEvent := dl_acked d ++ concat (dl_posts d).*1 ++ dl_pending d.

Section Kept.
Context (env : PushEnv) (loaded : list StoredLogEvent).
Hypothesis fresh : forall m n, pe_boot_id env m = pe_boot_id env n -> m = n.
Hypothesis apart : forall n e, e ∈ loaded -> ev_boot_id e <> pe_boot_id env n.
Hypothesis json : forall e, decode_event (encode_event e) = Some e.
Hypothesis batches : (0 < rc_batch_size config)%nat.
Hypothesis carried : backlog loaded.

Record delivery_ok (tick : nat) (taken : list PendingRecord) (d : Delivery) : Prop := {
  do_kept : (content <$> loaded) ++ (record_content <$> taken) ≡ₚ content <$> (dl_acked d ++ dl_dropped d ++ dl_pending d);
  do_order : (content <$> (dl_acked d ++ dl_pending d)) `sublist_of` (content <$> loaded) ++ (record_content <$> taken);
  do_linked : linked (dl_acked d ++ dl_pending d);
  do_owned : Forall owned (dl_pending d);
  do_last : forall e, last (dl_acked d ++ dl_pending d) = Some e -> ev_boot_id e = dl_boot_id d -> ev_sequence e = dl_next_sequence d;
  do_bound : 0 <= dl_next_sequence d <= Z.of_nat (length loaded + length taken);
  do_current : exists t, (t < tick)%nat /\ dl_boot_id d = pe_boot_id env t;
  do_boots : forall e, e ∈ seen d -> (exists f, f ∈ loaded /\ ev_boot_id e = ev_boot_id f) \/ exists t, (t < tick)%nat /\ ev_boot_id e = pe_boot_id env t;
  do_below : forall e, e ∈ seen d -> ev_boot_id e = dl_boot_id d -> ev_sequence e <= dl_next_sequence d;
  do_identities : identities (seen d);
  do_posts : Forall good_post (dl_posts d);
  do_acked : forall e, e ∈ dl_acked d -> exists batch k, (batch, Some (Ok k)) ∈ dl_posts d /\ e ∈ batch /\ ev_sequence e <= k
}.

Lemma delivery_ok_later tick tick' taken d : (tick <= tick')%nat -> delivery_ok tick taken d -> delivery_ok tick' taken d.
Proof.
  intros Hle [H1 H2 H3 H4 H5 H6 (t & Ht & Hc) H8 H9 H10 H11 H12]. constructor; [done..| | |done|done|done|done].
  - exists t. split; [lia|done].
  - intros e He. destruct (H8 e He) as [|(t' & ? & ?)]; [by left|]. right. exists t'. split; [lia|done].
Qed.
Lemma delivery_ok_dirty tick taken d dirty : delivery_ok tick taken d -> delivery_ok tick taken (set_dirty dirty d).
Proof. by intros []; constructor. Qed.

Lemma elem_of_snoc {A} (l : list A) x y : x ∈ l ++ [y] <-> x ∈ l \/ x = y.
Proof. by rewrite elem_of_app, list_elem_of_singleton. Qed.

Lemma seen_push d r e : e ∈ seen (push_record d r) <-> e ∈ seen d \/ e = stored (dl_boot_id d) (u64_saturating_add (dl_next_sequence d) 1) r.
Proof. unfold seen, push_record. cbn. rewrite !app_assoc. apply elem_of_snoc. Qed.

Definition within (taken : list PendingRecord) : Prop := Z.of_nat (length loaded + length taken) <= u64_max.

Lemma push_record_ok tick taken d r : within (taken ++ [r]) -> delivery_ok tick taken d -> delivery_ok tick (taken ++ [r]) (push_record d r).
Proof.
  intros Hw [H1 H2 H3 H4 H5 H6 H7 H8 H9 H10 H11 H12]. unfold within in Hw. rewrite length_app in Hw. cbn in Hw.
  assert (Hn : u64_saturating_add (dl_next_sequence d) 1 = dl_next_sequence d + 1) by (unfold u64_saturating_add; lia).
  set (n := dl_next_sequence d + 1). set (f := stored (dl_boot_id d) n r). destruct (stored_fields (dl_boot_id d) n r) as (Hfs & Hfb & Hfn). fold f in Hfs, Hfb, Hfn.
  pose proof (content_stored (dl_boot_id d) n r) as Hfc. fold f in Hfc.
  assert (Hnew : push_record d r = {| dl_pending := dl_pending d ++ [f]; dl_boot_id := dl_boot_id d; dl_next_sequence := n; dl_dirty := true;
    dl_acked := dl_acked d; dl_dropped := dl_dropped d; dl_posts := dl_posts d |}) by (unfold push_record; by rewrite Hn).
  assert (Hseen : forall e, e ∈ seen (push_record d r) <-> e ∈ seen d \/ e = f) by (intros e; rewrite seen_push, Hn; done).
  constructor; rewrite ?Hnew; cbn [dl_acked dl_pending dl_dropped dl_boot_id dl_next_sequence dl_posts]; try done.
  - rewrite fmap_app, app_assoc, H1, !fmap_app. cbn. rewrite Hfc. by rewrite !app_assoc.
  - rewrite (app_assoc (dl_acked d)), (fmap_app content _ [f]), (fmap_app record_content), app_assoc. apply sublist_app; [done|]. cbn. by rewrite Hfc.
  - rewrite app_assoc. apply linked_app. split_and!; [done|cbn; naive_solver|]. intros e f' He [= <-] Hb. rewrite Hfn. unfold n. rewrite (H5 e He); [done|congruence].
  - apply Forall_app. split; [done|]. apply Forall_singleton. split; [done|]. rewrite Hfn. unfold n. lia.
  - intros e. rewrite app_assoc, last_snoc. by intros [= <-] _.
  - rewrite length_app. cbn. unfold n. lia.
  - rewrite <- Hnew. intros e [He| ->]%Hseen; [by apply H8|]. right. rewrite Hfb. exact H7.
  - rewrite <- Hnew. intros e [He| ->]%Hseen Hb; [specialize (H9 e He Hb); unfold n; lia|lia].
  - rewrite <- Hnew. intros e e' [He| ->]%Hseen [He'| ->]%Hseen Hb Hs; [by apply H10| | |done].
    + specialize (H9 e He). rewrite Hfb in Hb. rewrite Hfn in Hs. unfold n in Hs. specialize (H9 Hb). lia.
    + specialize (H9 e' He'). rewrite Hfb in Hb. rewrite Hfn in Hs. unfold n in Hs. specialize (H9 (eq_sym Hb)). lia.
Qed.
(** *** The limit of the spool *)

Lemma linked_counting l : (forall i e, l !! i = Some e -> ev_sequence e = Z.of_nat i + 1) -> linked l.
Proof.
  assert (H : forall n l, (forall i e, l !! i = Some e -> ev_sequence e = Z.of_nat (n + i) + 1) -> linked l); [|by apply (H 0%nat)].
  clear l. intros n l. revert n. induction l as [|e l IH]; intros n H; [done|]. split.
  - intros f Hf _. rewrite (H 0%nat e eq_refl), (H 1%nat f); [lia|]. by destruct l.
  - apply (IH (S n)). intros i f Hf. rewrite (H (S i) f Hf). lia.
Qed.

Lemma fmap_content_imap b kept : content <$> imap (rebased b) kept = content <$> kept.
Proof. rewrite fmap_imap. change (imap (const content) kept = content <$> kept). apply imap_const. Qed.

Lemma pending_seen d e : e ∈ dl_pending d -> e ∈ seen d.
Proof. intros H. unfold seen. rewrite !elem_of_app. auto. Qed.
Lemma acked_seen d e : e ∈ dl_acked d -> e ∈ seen d.
Proof. intros H. unfold seen. rewrite !elem_of_app. auto. Qed.

Lemma enforce_ok tick taken d : delivery_ok tick taken d ->
  delivery_ok (S tick) taken (enforce_spool_limit (pe_boot_id env tick) d).
Proof.
  intros Hd. unfold enforce_spool_limit. destruct (_ <=? _); [by eapply delivery_ok_later; [|done]; lia|].
  pose proof (drop_events_spec (rc_spool_max_bytes config) (length (dl_pending d)) (dl_pending d) []) as Hspec.
  destruct (drop_events _ _ _ _) as [kept dropped]. destruct Hspec as [Hsub Hperm]. cbn [app] in Hperm.
  destruct Hd as [H1 H2 H3 H4 H5 H6 H7 H8 H9 H10 H11 H12]. set (b := pe_boot_id env tick).
  set (new := imap (rebased b) kept).
  assert (Hold : forall e, e ∈ seen d -> ev_boot_id e <> b).
  { intros e [(f & Hf & ->)|(t & Ht & ->)]%H8; [by apply apart|]. intros ->%fresh. lia. }
  assert (Hnew : forall i e, new !! i = Some e -> ev_boot_id e = b /\ ev_sequence e = Z.of_nat i + 1 /\ ev_source_id e = rc_source_id config /\ (i < length kept)%nat).
  { intros i e He. unfold new in He. rewrite list_lookup_imap in He. destruct (kept !! i) as [x|] eqn:Ex; [|done]. injection He as <-.
    split_and!; [done|done| |by eapply lookup_lt_Some]. apply list_elem_of_lookup_2 in Ex. rewrite Forall_forall in H4.
    exact (proj1 (H4 x (elem_of_sublist _ _ _ Ex Hsub))). }
  assert (Hin : forall e, e ∈ new -> ev_boot_id e = b /\ 0 < ev_sequence e <= Z.of_nat (length kept) /\ ev_source_id e = rc_source_id config).
  { intros e [i He]%list_elem_of_lookup_1. destruct (Hnew i e He) as (? & -> & ? & ?). split_and!; [done|lia|lia|done]. }
  assert (Hlen : (length kept <= length loaded + length taken)%nat).
  { apply Permutation_length in H1. apply Permutation_length in Hperm. rewrite !length_app, !length_fmap, !length_app in H1. rewrite length_app in Hperm. lia. }
  assert (Hseen : forall e, e ∈ dl_acked d ++ concat (dl_posts d).*1 ++ new -> e ∈ seen d /\ ev_boot_id e <> b \/ e ∈ new).
  { intros e. unfold seen. rewrite !elem_of_app. intros [He|[He|He]]; [left|left|by right]; (split; [by auto|apply Hold; unfold seen; rewrite !elem_of_app; by auto]). }
  constructor; cbn [dl_acked dl_pending dl_dropped dl_boot_id dl_next_sequence dl_posts]; fold new.
  - rewrite H1, Hperm, !fmap_app. unfold new. rewrite fmap_content_imap. by rewrite !app_assoc.
  - etrans; [|exact H2]. rewrite !fmap_app. apply sublist_app; [done|]. unfold new. rewrite fmap_content_imap. by apply fmap_sublist.
  - apply linked_app in H3 as (Ha & _ & _). apply linked_app. split_and!; [done|apply linked_counting; intros i e He; by apply Hnew|].
    intros e f He Hf Hb. destruct (Hold e (acked_seen d e (last_Some_elem_of _ _ He))). rewrite <- Hb. apply Hin. by apply head_Some_elem_of.
  - rewrite Forall_forall. intros e He. destruct (Hin e He) as (_ & ? & ?). split; [done|lia].
  - intros e [He|[_ He]]%last_app_Some Hb.
    + rewrite last_lookup in He. destruct (Hnew _ e He) as (_ & -> & _ & Hi). unfold new in *. rewrite length_imap in *. lia.
    + by destruct (Hold e (acked_seen d e (last_Some_elem_of _ _ He))).
  - lia.
  - exists tick. split; [lia|done].
  - intros e [[He _]|He]%Hseen.
    + destruct (H8 e He) as [|(t & ? & ?)]; [by left|]. right. exists t. split; [lia|done].
    + right. exists tick. split; [lia|]. by apply Hin.
  - intros e [[_ He]|He]%Hseen Hb; [done|]. apply Hin in He. lia.
  - intros e f [[He Heb]|He]%Hseen [[Hf Hfb]|Hf]%Hseen Hb Hs; [by apply H10| | |].
    + destruct Heb. rewrite Hb. by apply Hin.
    + destruct Hfb. rewrite <- Hb. by apply Hin.
    + apply list_elem_of_lookup_1 in He as [i He], Hf as [j Hf]. destruct (Hnew i e He) as (_ & Hi & _). destruct (Hnew j f Hf) as (_ & Hj & _).
      assert (i = j) as -> by lia. congruence.
  - done.
  - done.
Qed.
(** *** Batches *)

Lemma take_while_Forall {A} (p : A -> bool) l : Forall (fun x => p x = true) (take_while p l).
Proof. induction l as [|x l IH]; [constructor|]. cbn. destruct (p x) eqn:E; by constructor. Qed.
Lemma take_while_lookup {A} (p q : A -> bool) l i x : (forall y, p y = true -> q y = true) -> take_while p l !! i = Some x -> take_while q l !! i = Some x.
Proof.
  intros Hpq. revert i. induction l as [|y l IH]; intros i H; [done|]. cbn [take_while] in *. destruct (p y) eqn:E; [|done].
  rewrite (Hpq y E). destruct i; [done|]. by apply IH.
Qed.
Lemma take_while_prefix {A} (p : A -> bool) l : exists k, l = take_while p l ++ k.
Proof. exists (drop_while p l). by rewrite take_drop_while. Qed.

Lemma same_stream_refl e : same_stream e e = true.
Proof. unfold same_stream. by rewrite !String.eqb_refl. Qed.
Lemma same_stream_boot e f : same_stream e f = true -> ev_boot_id e = ev_boot_id f.
Proof. unfold same_stream. by intros [_ H%String.eqb_eq]%andb_true_iff. Qed.

(** The run of the first stream. *)
Definition first_run (first : StoredLogEvent) (pending : list StoredLogEvent) : list StoredLogEvent :=
  take_while (fun e => same_stream e first) pending.

Lemma first_run_counts first rest i e : linked (first :: rest) -> first_run first (first :: rest) !! i = Some e ->
  ev_boot_id e = ev_boot_id first /\ ev_sequence e = ev_sequence first + Z.of_nat i.
Proof.
  intros Hl He. pose proof (take_while_Forall (fun e => same_stream e first) (first :: rest)) as Hall. fold (first_run first (first :: rest)) in Hall.
  destruct (take_while_prefix (fun e => same_stream e first) (first :: rest)) as [k Hk]. fold (first_run first (first :: rest)) in Hk.
  rewrite Hk in Hl. apply linked_app in Hl as [Hl _]. unfold first_run in *. cbn [take_while] in *. rewrite same_stream_refl in *.
  set (run := take_while (fun e => same_stream e first) rest) in *. split.
  - apply same_stream_boot. rewrite Forall_forall in Hall. apply Hall. by eapply list_elem_of_lookup_2.
  - eapply linked_run; [done| |done]. apply Forall_cons in Hall as [_ Hall]. eapply Forall_impl; [exact Hall|]. intros x Hx. by apply same_stream_boot.
Qed.

Lemma post_batch_range answer first rest k : post_batch answer (first :: rest) = Some (Ok k) ->
  ev_sequence first <= k <= from_option ev_sequence (ev_sequence first) (last (first :: rest)).
Proof.
  unfold post_batch. intros H. repeat case_match; simplify_eq/=. destruct (decode_ack _) as [ack|]; [|done]. cbn in H.
  destruct (_ || _)%bool; [done|]. destruct (Z.ltb_spec (la_accepted_through ack) (ev_sequence first)); [done|].
  match type of H with context [?a <? ?b] => destruct (Z.ltb_spec a b) as [Hlt|Hge]; [discriminate H|] end. injection H as <-. lia.
Qed.

Lemma batch_good answer first rest : linked (first :: rest) -> Forall owned (first :: rest) ->
  let batch := next_batch (first :: rest) (rc_batch_size config) in
  (exists tl, batch = first :: tl) /\ (forall e, e ∈ batch -> e ∈ first :: rest) /\ good_post (batch, post_batch answer batch).
Proof.
  intros Hl Ho batch. fold (first_run first (first :: rest)) in batch. unfold next_batch in batch. cbn beta iota in batch. fold (first_run first (first :: rest)) in batch.
  assert (Hhead : exists tl, batch = first :: tl).
  { unfold batch, first_run. cbn [take_while]. rewrite same_stream_refl. destruct (rc_batch_size config); [lia|]. by eexists. }
  assert (Hin : forall e, e ∈ batch -> e ∈ first :: rest).
  { intros e He. apply elem_of_take in He as (i & He & _). destruct (take_while_prefix (fun e => same_stream e first) (first :: rest)) as [k Hk].
    rewrite Hk. apply elem_of_app. left. by eapply list_elem_of_lookup_2. }
  assert (Hcount : forall i e, batch !! i = Some e -> ev_boot_id e = ev_boot_id first /\ ev_sequence e = ev_sequence first + Z.of_nat i).
  { intros i e [He _]%lookup_take_Some. by eapply first_run_counts. }
  split_and!; [done|done|]. destruct Hhead as [tl Hb]. exists first. cbn [fst snd]. split_and!.
  - by rewrite Hb.
  - unfold batch. rewrite length_take. lia.
  - intros i e He. destruct (Hcount i e He) as [? ?]. split_and!; [|done|done]. rewrite Forall_forall in Ho. apply Ho, Hin. by eapply list_elem_of_lookup_2.
  - intros k Hk. rewrite Hb in Hk. apply post_batch_range in Hk. rewrite <- Hb in Hk.
    destruct (last batch) as [e|] eqn:El; [|by rewrite Hb, last_None in El]. cbn in Hk. rewrite last_lookup in El. destruct (Hcount _ e El) as [_ Hs].
    rewrite Hb in *. cbn [length pred] in *. lia.
Qed.

Lemma note_post_ok tick taken d answer first rest : delivery_ok tick taken d -> dl_pending d = first :: rest ->
  let batch := next_batch (dl_pending d) (rc_batch_size config) in
  delivery_ok tick taken (note_post batch (post_batch answer batch) d).
Proof.
  intros [H1 H2 H3 H4 H5 H6 H7 H8 H9 H10 H11 H12] Hp batch.
  apply linked_app in H3 as Hlinks. destruct Hlinks as (_ & Hl & _). rewrite Hp in Hl. pose proof H4 as Ho. rewrite Hp in Ho.
  destruct (batch_good answer first rest Hl Ho) as (_ & Hin & Hgood). rewrite <- Hp in Hin, Hgood. fold batch in Hin, Hgood.
  assert (Hseen : forall e, e ∈ seen (note_post batch (post_batch answer batch) d) -> e ∈ seen d).
  { intros e. unfold seen, note_post. cbn [dl_acked dl_posts dl_pending]. rewrite fmap_app, concat_app. cbn. rewrite app_nil_r, !elem_of_app. naive_solver. }
  constructor; try done.
  - intros e He. by apply H8, Hseen.
  - intros e He. by apply H9, Hseen.
  - intros e f He Hf. apply H10; by apply Hseen.
  - apply Forall_app. split; [done|]. by apply Forall_singleton.
  - intros e He. destruct (H12 e He) as (b & k & Hb & ?). exists b, k. split; [|done]. apply elem_of_app. by left.
Qed.

Lemma accept_ok tick taken d answer first rest k : delivery_ok tick taken d -> dl_pending d = first :: rest ->
  let batch := next_batch (dl_pending d) (rc_batch_size config) in
  (batch, Some (Ok k)) ∈ dl_posts d -> post_batch answer batch = Some (Ok k) -> delivery_ok tick taken (accept first k d).
Proof.
  intros [H1 H2 H3 H4 H5 H6 H7 H8 H9 H10 H11 H12] Hp batch Hposted Hk.
  apply linked_app in H3 as Hlinks. destruct Hlinks as (_ & Hl & _). rewrite Hp in Hl. pose proof H4 as Ho. rewrite Hp in Ho.
  destruct (batch_good answer first rest Hl Ho) as ((tl & Hb) & _ & (first' & Hf' & _ & _ & Hrange)). rewrite <- Hp in Hb, Hf', Hrange. fold batch in Hb, Hf', Hrange.
  cbn [fst snd] in *. rewrite Hb in Hf'. injection Hf' as <-. specialize (Hrange k Hk).
  set (p := accepted_prefix first k). pose proof (take_drop_while p (dl_pending d)) as Hsplit.
  assert (Hall : (dl_acked d ++ take_while p (dl_pending d)) ++ drop_while p (dl_pending d) = dl_acked d ++ dl_pending d) by (by rewrite <- app_assoc, Hsplit).
  assert (Hseen : forall e, e ∈ seen (accept first k d) -> e ∈ seen d).
  { intros e. unfold seen, accept. cbn [dl_acked dl_posts dl_pending]. fold p. rewrite <- Hsplit at 3. rewrite !elem_of_app. naive_solver. }
  constructor; unfold accept; cbn [dl_acked dl_pending dl_dropped dl_boot_id dl_next_sequence dl_posts]; fold p; try done.
  - rewrite H1. rewrite <- Hsplit at 1. rewrite !fmap_app. rewrite <- !app_assoc. apply Permutation_app_head. rewrite !app_assoc. apply Permutation_app_tail, Permutation_app_comm.
  - by rewrite Hall.
  - by rewrite Hall.
  - rewrite <- Hsplit in H4. by apply Forall_app in H4 as [_ ?].
  - by rewrite Hall.
  - intros e He. by apply H8, Hseen.
  - intros e He. by apply H9, Hseen.
  - intros e f He Hf. apply H10; by apply Hseen.
  - intros e [He|He]%elem_of_app; [by apply H12|]. exists batch, k. split; [done|]. apply list_elem_of_lookup_1 in He as [i He].
    assert (Hpe : p e = true).
    { pose proof (take_while_Forall p (dl_pending d)) as Hf. rewrite Forall_forall in Hf. apply Hf. by eapply list_elem_of_lookup_2. }
    unfold p, accepted_prefix in Hpe. apply andb_true_iff in Hpe as [_ Hle%Z.leb_le]. split; [|done].
    assert (Hrun : first_run first (dl_pending d) !! i = Some e).
    { eapply take_while_lookup; [|exact He]. unfold p, accepted_prefix. by intros y [? _]%andb_true_iff. }
    rewrite Hp in Hrun. destruct (first_run_counts first rest i e Hl Hrun) as [_ Hs]. apply (list_elem_of_lookup_2 _ i).
    assert (Hi : (i < length batch)%nat) by lia.
    revert Hi. unfold batch, next_batch. rewrite Hp. fold (first_run first (first :: rest)). rewrite length_take. intros Hi. apply lookup_take_Some. split; [done|lia].
Qed.
(** *** Rounds *)

(** Each queue gives its records out in the order they entered it, and they
    entered in the order of arrival. *)
Record queue_ok (q : Queues) : Prop := {
  qo_all : qu_arrived q ≡ₚ (qu_taken q).*2 ++ qu_high q ++ qu_normal q ++ qu_lost q;
  qo_entered : (qu_entered q).*2 `sublist_of` qu_arrived q;
  qo_high : in_lane HighLane (qu_entered q) = in_lane HighLane (qu_taken q) ++ qu_high q;
  qo_normal : in_lane NormalLane (qu_entered q) = in_lane NormalLane (qu_taken q) ++ qu_normal q
}.

Lemma in_lane_snoc lane l lane' r :
  in_lane lane (l ++ [(lane', r)]) = if decide (lane' = lane) then in_lane lane l ++ [r] else in_lane lane l.
Proof.
  unfold in_lane. rewrite filter_app, fmap_app, filter_cons. cbn [fst].
  destruct (decide (lane' = lane)); [done|]. apply app_nil_r.
Qed.

Lemma entered_snoc (q : Queues) lane r : (qu_entered q).*2 `sublist_of` qu_arrived q -> (qu_entered q ++ [(lane, r)]).*2 `sublist_of` qu_arrived q ++ [r].
Proof. intros H. rewrite fmap_app. by apply sublist_app. Qed.

Lemma try_send_ok r q : queue_ok q -> queue_ok (try_send_normal r q) /\ qu_taken (try_send_normal r q) = qu_taken q.
Proof.
  intros [H1 H2 H3 H4]. unfold try_send_normal. destruct (_ <? _)%nat; (split; [|done]); constructor; cbn [qu_high qu_normal qu_arrived qu_lost qu_entered qu_taken].
  - rewrite H1, <- !app_assoc. do 3 apply Permutation_app_head. apply Permutation_app_comm.
  - by apply entered_snoc.
  - by rewrite in_lane_snoc, decide_False.
  - by rewrite in_lane_snoc, decide_True, H4, app_assoc.
  - by rewrite H1, <- !app_assoc.
  - etrans; [exact H2|]. by apply sublist_inserts_r.
  - done.
  - done.
Qed.
Lemma enqueue_ok q r : queue_ok q -> queue_ok (enqueue_pending q r) /\ qu_taken (enqueue_pending q r) = qu_taken q.
Proof.
  intros H. unfold enqueue_pending. destruct (pr_urgent r); [|by apply try_send_ok]. destruct (_ <? _)%nat; [|by apply try_send_ok].
  destruct H as [H1 H2 H3 H4]. split; [|done]. constructor; cbn [qu_high qu_normal qu_arrived qu_lost qu_entered qu_taken].
  - rewrite H1, <- !app_assoc. do 2 apply Permutation_app_head. rewrite app_assoc. apply Permutation_app_comm.
  - by apply entered_snoc.
  - by rewrite in_lane_snoc, decide_True, H3, app_assoc.
  - by rewrite in_lane_snoc, decide_False.
Qed.
Lemma arrivals_ok rs q : queue_ok q -> queue_ok (foldl enqueue_pending q rs) /\ qu_taken (foldl enqueue_pending q rs) = qu_taken q.
Proof.
  revert q. induction rs as [|r rs IH]; intros q H; [done|]. cbn [foldl]. destruct (enqueue_ok q r H) as [H1 H2]. destruct (IH _ H1) as [H3 H4].
  split; [done|]. by rewrite H4.
Qed.

(** A way to take a record out. *)
Definition takes (which : Queues -> option PendingRecord * Queues) : Prop :=
  forall q, queue_ok q -> queue_ok (which q).2 /\ (qu_taken (which q).2).*2 = (qu_taken q).*2 ++ option_list (which q).1.
Lemma takes_high : takes take_high.
Proof.
  intros q H. unfold take_high. destruct (qu_high q) as [|r rs] eqn:E; cbn; [by rewrite app_nil_r|]. split; [|by rewrite fmap_app].
  destruct H as [H1 H2 H3 H4]. constructor; cbn [qu_high qu_normal qu_arrived qu_lost qu_entered qu_taken].
  - by rewrite H1, E, fmap_app, <- !app_assoc.
  - done.
  - by rewrite in_lane_snoc, decide_True, H3, E, <- app_assoc.
  - by rewrite in_lane_snoc, decide_False.
Qed.
Lemma takes_normal : takes take_normal.
Proof.
  intros q H. unfold take_normal. destruct (qu_normal q) as [|r rs] eqn:E; cbn; [by rewrite app_nil_r|]. split; [|by rewrite fmap_app].
  destruct H as [H1 H2 H3 H4]. constructor; cbn [qu_high qu_normal qu_arrived qu_lost qu_entered qu_taken].
  - rewrite H1, E, fmap_app, <- !app_assoc. apply Permutation_app_head. cbn. by rewrite <- Permutation_middle.
  - done.
  - by rewrite in_lane_snoc, decide_False.
  - by rewrite in_lane_snoc, decide_True, H4, E, <- app_assoc.
Qed.

(** The delivery and the spool, for the records taken in so far. *)
Definition state_ok (taken : list PendingRecord) (s : PushState) : Prop :=
  within taken -> delivery_ok (ps_tick s) taken (ps_delivery s) /\
    (sl_failed (ps_spool s) = false -> dl_dirty (ps_delivery s) = false -> load_spool (sl_lines (ps_spool s)) = dl_pending (ps_delivery s)).
Definition taken_of (s : PushState) : list PendingRecord := (qu_taken (ps_queues s)).*2.

Lemma state_ok_queues taken s q : state_ok taken s -> state_ok taken (set_queues q s).
Proof. intros H Hw. destruct (H Hw) as [Hd Hs]. split; [eapply delivery_ok_later; [|exact Hd]; cbn; lia|exact Hs]. Qed.
Lemma state_ok_timing taken s t : state_ok taken s -> state_ok taken (set_timing t s).
Proof. intros H Hw. destruct (H Hw) as [Hd Hs]. split; [eapply delivery_ok_later; [|exact Hd]; cbn; lia|exact Hs]. Qed.

Lemma receive_keeps which s : takes which -> queue_ok (ps_queues s) ->
  queue_ok (ps_queues (receive env which s).2) /\ taken_of (receive env which s).2 = taken_of s ++ option_list (receive env which s).1 /\
  forall taken, state_ok taken s -> state_ok taken (receive env which s).2.
Proof.
  intros Hw Hq. unfold receive. destruct (arrivals_ok (pe_arrivals env (ps_tick s)) _ Hq) as [Hq1 Ht1]. destruct (Hw _ Hq1) as [Hq2 Ht2].
  destruct (which _) as [r q]. cbn [fst snd] in *. unfold taken_of. cbn. rewrite Ht2, Ht1. split_and!; [done|done|]. intros taken H. by apply state_ok_queues.
Qed.

Lemma drain_queue_ok which room s : takes which -> queue_ok (ps_queues s) ->
  queue_ok (ps_queues (drain_queue env which room s).2) /\ taken_of (drain_queue env which room s).2 = taken_of s ++ (drain_queue env which room s).1 /\
  forall taken, state_ok taken s -> state_ok taken (drain_queue env which room s).2.
Proof.
  intros Hw. revert s. induction room as [|room IH]; intros s Hq; cbn [drain_queue]; [by rewrite app_nil_r|].
  destruct (receive_keeps which s Hw Hq) as (Hq1 & Ht1 & Hs1). destruct (receive env which s) as [[r|] s1]; cbn [fst snd] in *; [|done].
  destruct (IH s1 Hq1) as (Hq2 & Ht2 & Hs2). destruct (drain_queue env which room s1) as [rs s2]. cbn [fst snd] in *. split_and!; [done| |by auto].
  rewrite Ht2, Ht1. by rewrite <- app_assoc.
Qed.

Lemma drain_records_ok limit s : queue_ok (ps_queues s) ->
  queue_ok (ps_queues (drain_records env limit s).2) /\ taken_of (drain_records env limit s).2 = taken_of s ++ (drain_records env limit s).1 /\
  forall taken, state_ok taken s -> state_ok taken (drain_records env limit s).2.
Proof.
  intros Hq. unfold drain_records. destruct (drain_queue_ok take_high limit s takes_high Hq) as (Hq1 & Ht1 & Hs1).
  destruct (drain_queue env take_high limit s) as [hs s1]. cbn [fst snd] in *.
  destruct (drain_queue_ok take_normal (limit - length hs) s1 takes_normal Hq1) as (Hq2 & Ht2 & Hs2).
  destruct (drain_queue env take_normal (limit - length hs) s1) as [ns s2]. cbn [fst snd] in *. split_and!; [done| |by auto]. rewrite Ht2, Ht1. by rewrite app_assoc.
Qed.

Lemma within_app taken rs : within (taken ++ rs) -> within taken.
Proof. unfold within. rewrite length_app. lia. Qed.

Lemma push_records_ok tick taken d rs : (within taken -> delivery_ok tick taken d) ->
  within (taken ++ rs) -> delivery_ok tick (taken ++ rs) (foldl push_record d rs).
Proof.
  revert taken d. induction rs as [|r rs IH]; intros taken d H Hw; [rewrite app_nil_r in *; by apply H|]. cbn [foldl].
  rewrite cons_middle, app_assoc in Hw |- *. apply IH; [|done]. intros Hw'. apply push_record_ok; [done|]. by apply H, (within_app _ [r]).
Qed.
Lemma pushed_dirty d r rs : dl_dirty (foldl push_record d (r :: rs)) = true.
Proof. revert d r. induction rs as [|x rs IH]; intros d r; [done|]. apply (IH (push_record d r) x). Qed.

Lemma set_pushed_ok taken s rs : state_ok taken s -> state_ok (taken ++ rs) (set_delivery (foldl push_record (ps_delivery s) rs) s).
Proof.
  intros H Hw. cbn. split.
  - eapply delivery_ok_later; [|apply (push_records_ok (ps_tick s))]; [lia| |done]. intros Hw'. by apply H.
  - destruct rs as [|r rs]; [|intros _; by rewrite pushed_dirty]. rewrite app_nil_r in Hw. by apply H.
Qed.

Lemma readable_saved lines : readable (Some <$> lines) = lines.
Proof. induction lines as [|l lines IH]; [done|]. cbn. by rewrite <- IH at 2. Qed.

Lemma load_saved pending : Forall owned pending -> load_spool (Some (Some ∘ encode_event <$> pending)) = pending.
Proof.
  intros H. unfold load_spool. change (default [] (Some (Some ∘ encode_event <$> pending))) with (Some ∘ encode_event <$> pending).
  rewrite list_fmap_compose, readable_saved. induction H as [|e l He _ IH]; [done|]. cbn [fmap list_fmap omap list_omap]. rewrite json. by rewrite filter_cons_True, IH.
Qed.

Lemma save_ok taken s : (within taken -> delivery_ok (ps_tick s) taken (ps_delivery s)) ->
  state_ok taken (save env s).1 /\ ps_delivery (save env s).1 = ps_delivery s /\ ps_queues (save env s).1 = ps_queues s /\ ps_timing (save env s).1 = ps_timing s /\
  ((save env s).2 = false -> sl_failed (ps_spool (save env s).1) = true) /\
  (within taken -> sl_failed (ps_spool (save env s).1) = false -> load_spool (sl_lines (ps_spool (save env s).1)) = dl_pending (ps_delivery s)).
Proof.
  intros H. unfold save, save_spool. destruct (pe_fault env (ps_tick s)); cbn [fst snd].
  - assert (Hload : within taken -> load_spool (Some (Some ∘ encode_event <$> dl_pending (ps_delivery s))) = dl_pending (ps_delivery s)).
    { intros Hw. apply load_saved. by apply (do_owned _ _ _ (H Hw)). }
    split_and!; [|done|done|done|done|by auto]. intros Hw. split; [|by auto]. eapply delivery_ok_later; [|by apply H]. cbn. lia.
  - cbn. rewrite orb_true_r. split_and!; [|done..]. intros Hw. split; [|done]. eapply delivery_ok_later; [|by apply H]. cbn. lia.
  - cbn. rewrite orb_true_r. split_and!; [|done..]. intros Hw. split; [|done]. eapply delivery_ok_later; [|by apply H]. cbn. lia.
Qed.
Lemma set_dirty_ok taken s b : state_ok taken s ->
  (within taken -> sl_failed (ps_spool s) = false -> b = false -> load_spool (sl_lines (ps_spool s)) = dl_pending (ps_delivery s)) ->
  state_ok taken (set_delivery (set_dirty b (ps_delivery s)) s).
Proof.
  intros H Hload Hw. split; [eapply delivery_ok_later; [|apply delivery_ok_dirty, H, Hw]; cbn; lia|]. intros Hf Hb. by apply Hload.
Qed.

(** A change of the delivery that leaves it dirty. *)
Lemma set_delivery_ok taken s d : dl_dirty d = true -> (within taken -> delivery_ok (S (ps_tick s)) taken d) -> state_ok taken (set_delivery d s).
Proof. intros Hd H Hw. split; [by apply H|]. cbn. by rewrite Hd. Qed.

Lemma flush_ok taken urgent s : state_ok taken s ->
  state_ok taken (flush_part env urgent s) /\ ps_queues (flush_part env urgent s) = ps_queues s /\ ps_timing (flush_part env urgent s) = ps_timing s.
Proof.
  intros H. unfold flush_part. destruct (dl_dirty (ps_delivery s)) eqn:Ed; [|done]. cbn [andb]. destruct (due env urgent s); [|done].
  set (s1 := set_delivery (enforce_spool_limit (pe_boot_id env (ps_tick s)) (ps_delivery s)) s).
  assert (H1 : state_ok taken s1).
  { apply set_delivery_ok; [|intros Hw; by apply enforce_ok, H]. unfold enforce_spool_limit. destruct (_ <=? _); [done|]. by destruct (drop_events _ _ _ _). }
  destruct (save_ok taken s1 (fun Hw => proj1 (H1 Hw))) as (Hs & Hd & Hq & Ht & _ & Hload). destruct (save env s1) as [s2 [|]]; cbn [fst snd] in *.
  - split_and!; [|exact Hq|exact Ht]. apply set_dirty_ok; [done|]. intros Hw Hf _. rewrite Hd. by apply Hload.
  - split_and!; [done|exact Hq|exact Ht].
Qed.

Lemma send_ok taken urgent s : state_ok taken s ->
  state_ok taken (send_part env urgent s).1 /\ ps_queues (send_part env urgent s).1 = ps_queues s.
Proof.
  intros H. unfold send_part. destruct (dl_pending (ps_delivery s)) as [|first rest] eqn:Ep; [done|]. destruct (_ && due env urgent s)%bool; [|done].
  rewrite <- Ep. set (batch := next_batch (dl_pending (ps_delivery s)) (rc_batch_size config)). set (outcome := post_batch (pe_answer env (ps_tick s)) batch).
  set (s1 := set_delivery (note_post batch outcome (ps_delivery s)) s).
  assert (H1 : state_ok taken s1).
  { intros Hw. destruct (H Hw) as [Hd Hs]. split; [|exact Hs]. eapply delivery_ok_later; [|by eapply note_post_ok]. cbn. lia. }
  assert (Hfail : forall m, m = (let s := if dl_dirty (ps_delivery s1) then let '(s, _) := save env s1 in set_delivery (set_dirty false (ps_delivery s)) s else s1 in
            (set_timing (after_failure (pe_now env (ps_tick s)) (ps_timing s)) s, true)) -> state_ok taken m.1 /\ ps_queues m.1 = ps_queues s).
  { intros m ->. destruct (dl_dirty (ps_delivery s1)); [|split; [by apply state_ok_timing|done]].
    destruct (save_ok taken s1 (fun Hw => proj1 (H1 Hw))) as (Hs & Hd & Hq & _ & _ & Hload). destruct (save env s1) as [s2 ok]. cbn [fst snd] in *. split; [|cbn; by rewrite Hq].
    apply state_ok_timing, set_dirty_ok; [done|]. intros Hw Hf _. rewrite Hd. by apply Hload. }
  destruct outcome as [[k|e]|] eqn:Eo; [|by apply Hfail|by split]. destruct batch as [|first' tl] eqn:Eb; [by apply Hfail|].
  assert (Hb : first' = first).
  { unfold batch, next_batch in Eb. rewrite Ep in Eb. cbn [take_while] in Eb. rewrite same_stream_refl in Eb. destruct (rc_batch_size config); [lia|]. by injection Eb. }
  subst first'. set (s2 := set_delivery (accept first k (ps_delivery s1)) s1).
  assert (Hd2 : within taken -> delivery_ok (ps_tick s2) taken (ps_delivery s2)).
  { intros Hw. eapply delivery_ok_later; [|eapply (accept_ok _ _ _ (pe_answer env (ps_tick s)))]; [apply Nat.le_succ_diag_r|by apply H1|exact Ep| |].
    - cbn. fold batch. rewrite Eb. apply elem_of_app. right. apply list_elem_of_singleton. done.
    - cbn. fold batch. rewrite Eb. exact Eo. }
  destruct (save_ok taken s2 Hd2) as (Hs & Hd & Hq & _ & _ & Hload). destruct (save env s2) as [s3 ok]. cbn [fst snd] in *.
  split; [|exact Hq]. apply state_ok_timing, set_dirty_ok; [done|]. intros Hw Hf _. rewrite Hd. by apply Hload.
Qed.
(** The state of a worker between two rounds, and when it has ended. *)
Definition push_ok (s : PushState) : Prop := queue_ok (ps_queues s) /\ state_ok (taken_of s) s.
Definition spooled (s : PushState) : Prop := sl_failed (ps_spool s) = false -> load_spool (sl_lines (ps_spool s)) = dl_pending (ps_delivery s).
Definition round_state (r : Round) : PushState := match r with Continue s | Stopped s | Died s => s end.
Definition round_ok (r : Round) : Prop :=
  push_ok (round_state r) /\ match r with Stopped s => within (taken_of s) -> spooled s | _ => True end.

Lemma push_round_ok s : push_ok s -> round_ok (push_round env s).
Proof.
  intros [Hq Hs]. unfold push_round. set (t := set_flags _ _ _). set (s0 := set_timing t s).
  destruct (drain_records_ok 512 s0 Hq) as (Hq1 & Ht1 & Hs1). destruct (drain_records env 512 s0) as [records s1]. cbn [fst snd] in *.
  specialize (Hs1 (taken_of s) (state_ok_timing _ _ t Hs)). apply (set_pushed_ok _ _ records) in Hs1.
  change (taken_of s0) with (taken_of s) in Ht1. rewrite <- Ht1 in Hs1. set (s2 := set_delivery (foldl push_record (ps_delivery s1) records) s1) in *.
  set (urgent := (tm_force_flush (ps_timing s) || existsb pr_urgent records)%bool).
  destruct (flush_ok _ urgent s2 Hs1) as (Hs3 & Hq3 & _). destruct (send_ok _ urgent _ Hs3) as (Hs4 & Hq4).
  destruct (send_part env urgent (flush_part env urgent s2)) as [s4 alive]. cbn [fst] in *. rewrite Hq3 in Hq4. change (ps_queues s2) with (ps_queues s1) in Hq4.
  assert (Hok : push_ok s4) by (split; [by rewrite Hq4|unfold taken_of; rewrite Hq4; exact Hs4]).
  destruct alive; [|by split]. destruct (tm_stopping (ps_timing s4)).
  - destruct (dl_dirty (ps_delivery s4)) eqn:Ed.
    + destruct Hok as [Hqk Hsk]. destruct (save_ok (taken_of s4) s4 (fun Hw => proj1 (Hsk Hw))) as (Hs5 & Hd5 & Hq5 & _ & _ & Hload).
      unfold round_ok, push_ok, taken_of, spooled. cbn [round_state]. rewrite Hq5, Hd5. split_and!; [done|exact Hs5|]. intros Hw Hf. by apply Hload.
    + split; [done|]. intros Hw Hf. by apply Hok.
  - destruct Hok as [Hqk Hsk]. destruct (receive_keeps take_high s4 takes_high Hqk) as (Hq5 & Ht5 & Hs5). destruct (receive env take_high s4) as [[r|] s5]; cbn [fst snd option_list] in *.
    + split; [|done]. split; [done|]. cbn [round_state].
      change (taken_of (set_delivery _ _)) with (taken_of s5). rewrite Ht5.
      apply (set_pushed_ok (taken_of s4) (set_timing (set_flags (pr_urgent r) (tm_stopping (ps_timing s5)) (ps_timing s5)) s5) [r]).
      by apply state_ok_timing, Hs5.
    + split; [|done]. split; [done|]. cbn [round_state]. rewrite Ht5, app_nil_r. by apply Hs5.
Qed.

Lemma push_rounds_ok n s : push_ok s -> round_ok (run_rounds env n s).
Proof.
  revert s. induction n as [|n IH]; intros s Hs; cbn [run_rounds]; [by split|]. pose proof (push_round_ok s Hs) as H.
  destruct (push_round env s) as [s1|s1|s1]; [|done|done]. apply IH. by destruct H.
Qed.

Lemma push_start_ok spool : load_spool spool = loaded -> push_ok (start_worker env spool).
Proof.
  intros Hl. destruct carried as (Hlinked & Howned & Hids). split; [by constructor|]. intros _. split; [|by intros _ _].
  unfold start_worker. cbn [ps_delivery ps_tick]. rewrite Hl.
  constructor; cbn; try done.
  - by rewrite app_nil_r.
  - by rewrite app_nil_r.
  - intros e He Hb. by destruct (apart 0 e (last_Some_elem_of _ _ He)).
  - lia.
  - exists 0%nat. split; [lia|done].
  - intros e He. left. exists e. by split.
  - intros e He Hb. by destruct (apart 0 e He).
  - by intros e ?%elem_of_nil.
Qed.
End Kept.
End Push.


(** ** Witness *)

(** A text for every event: the bits of its number. *)
Definition event_tuple (e : StoredLogEvent) : (string * string * Z) * (string * string * string) * (option string * option string * string) :=
  ((ev_source_id e, ev_boot_id e, ev_sequence e), (ev_timestamp e, ev_level e, ev_component e), (ev_port_id e, ev_device_id e, ev_message e)).
Definition tuple_event (t : (string * string * Z) * (string * string * string) * (option string * option string * string)) : StoredLogEvent :=
  let '((a, b, c), (d, e, f), (g, h, i)) := t in
  {| ev_source_id := a; ev_boot_id := b; ev_sequence := c; ev_timestamp := d; ev_level := e; ev_component := f; ev_port_id := g; ev_device_id := h; ev_message := i |}.
Fixpoint bits_text (p : positive) : string := match p with xH => "" | xO p => String "0" (bits_text p) | xI p => String "1" (bits_text p) end.
Fixpoint text_bits (s : string) : positive := match s with EmptyString => xH | String c s => if Ascii.eqb c "0" then xO (text_bits s) else xI (text_bits s) end.
Lemma text_bits_text p : text_bits (bits_text p) = p.
Proof. induction p as [p IH|p IH|]; cbn; by rewrite ?IH. Qed.
Definition sample_encode (e : StoredLogEvent) : string := bits_text (encode (event_tuple e)).
Definition sample_decode (s : string) : option StoredLogEvent := tuple_event <$> decode (text_bits s).
Lemma sample_json e : sample_decode (sample_encode e) = Some e.
Proof. unfold sample_decode, sample_encode. rewrite text_bits_text, decode_encode. by destruct e. Qed.

Definition sample_push : ResolvedConfig :=
  {| rc_endpoint := {| ep_host := "manager"; ep_port := 80; ep_path := "/"; ep_host_header := "manager" |}; rc_source_id := "lower";
     rc_batch_interval := millis 500; rc_batch_size := 2; rc_queue_capacity := 100; rc_spool_path := "spool"; rc_spool_max_bytes := 1024 * 1024;
     rc_request_timeout := millis 3000 |}.
Definition sample_record (message : string) : PendingRecord := log_record "t" "WARN" "worker" message.
(** Three warnings before the first look at the queue; the manager accepts the
    first batch and is gone afterwards; saves fail while [broken]. *)
Definition sample_push_env (broken : nat -> bool) (answered : bool) : PushEnv :=
  {| pe_arrivals := fun n => if decide (n = 2)%nat then sample_record <$> ["one"; "two"; "three"] else [];
     pe_shutdown := fun n => (30 <? n)%nat; pe_now := fun n => Z.of_nat n;
     pe_answer := fun n => if answered && (n <? 15)%nat then Ok (bytes_of "HTTP/1.1 200 OK" ++ CRLF ++ CRLF ++ bytes_of "ack") else Err "connect manager";
     pe_fault := fun n => if broken n then FailsWriting else NoFault; pe_boot_id := fun n => pretty n |}.
Definition sample_ack (_ : list Z) : option LogAck := Some {| la_source_id := "lower"; la_boot_id := "0"; la_accepted_through := 2 |}.
Definition sample_run (broken : nat -> bool) (answered : bool) (n : nat) : Round :=
  run_rounds sample_encode sample_ack (fun _ => None) sample_push false (sample_push_env broken answered) n
    (start_worker sample_decode sample_push (sample_push_env broken answered) None).
Definition sample_summary (r : Round) : list string * list string * list nat :=
  (ev_message <$> dl_acked (ps_delivery (round_state r)), ev_message <$> dl_pending (ps_delivery (round_state r)),
   length <$> (dl_posts (ps_delivery (round_state r))).*1).

Lemma sample_fresh broken answered i j :
  pe_boot_id (sample_push_env broken answered) i = pe_boot_id (sample_push_env broken answered) j -> i = j.
Proof. apply (inj pretty). Qed.


(** The mark of unsaved records is cleared also when the save after a failed
    sending fails: saves fail only at the beginning here, and yet the three
    warnings are not saved when the worker stops. *)
Example failed_save_forgotten :
  match sample_run (fun n => (n <? 15)%nat) false 9 with
  | Stopped s => sl_lines (ps_spool s) = None /\ ev_message <$> dl_pending (ps_delivery s) = ["one"; "two"; "three"]
  | _ => False
  end.
Proof. vm_compute. split; reflexivity. Qed.
