(* ===== verification/ConfigForm.v ===== *)
(** * Configuration forms (src/crates/rcd-config-form/src/lib.rs)

    The form of a TOML document: its fields with texts and choices, and edits
    of single values that keep the rest of the document.  A document is its
    tree of tables, in the order of their keys, with every value it holds; the
    text around a value (its decor) is kept with it, the text of the keys and
    of the table headers, which no edit reaches, is not part of the model.
    Parsing and printing of toml_edit are parameters. *)

From S2P Require Import Prelude RustStr Utf8 ConfigSet LogFiles.
From stdpp Require Import pretty.
Open Scope string_scope.
Open Scope Z_scope.
Open Scope list_scope.

Inductive Profile := AcquisitionForm | CommunicateForm.
#[export] Instance profile_eq_dec : EqDecision Profile.
Proof. solve_decision. Defined.
Inductive Segment := Key (k : string) | Index (i : nat).
#[export] Instance segment_eq_dec : EqDecision Segment.
Proof. solve_decision. Defined.
#[export] Instance json_eq_dec : EqDecision Json.
Proof. solve_decision. Defined.

(** ** Documents *)

(** [toml_edit::Value]: the kinds the form shows, and the text of the others (a
    float, a date, an array, an inline table), which it does not look into. *)
Inductive TomlValue := TInteger (n : Z) | TBoolean (b : bool) | TString (s : string) | TOther (text : string).
(** The text before and after a value. *)
Abbreviation Decor := (string * string)%type.
(** A value with its decor, a table, an array of tables. *)
Inductive Item :=
| IValue (decor : Decor) (v : TomlValue)
| ITable (entries : list (string * Item))
| ITables (tables : list (list (string * Item))).
Abbreviation Table := (list (string * Item)).

Definition get (t : Table) (k : string) : option Item := snd <$> head (filter (fun e => e.1 = k) t).
(** An assignment to an existing key or, at the end, to a new one. *)
Fixpoint assign (t : Table) (k : string) (item : Item) : Table :=
  match t with
  | [] => [(k, item)]
  | (x, old) :: t => if String.eqb x k then (x, item) :: t else (x, old) :: assign t k item
  end.

(** ** Fields *)

Record Edit := { ed_path : list Segment; ed_value : Json }.
Record Field := {
  fd_path : list Segment;
  fd_key : string;
  fd_label : string;
  fd_hint : string;
  fd_kind : string;
  fd_value : Json;
  fd_options : list Json;
  fd_inherited : bool;
  fd_readonly : bool
}.
Record Form := { fm_content : string; fm_fields : list Field }.

(** [scalar]: the kind and the value of what the form shows. *)
Definition scalar_of (v : TomlValue) : option (string * Json) :=
  match v with
  | TInteger n => Some ("integer", JNumber (Some n))
  | TBoolean b => Some ("boolean", JBool b)
  | TString s => Some ("string", JString s)
  | TOther _ => None
  end.
Definition scalar (item : Item) : option (string * Json) :=
  match item with IValue _ v => scalar_of v | _ => None end.

Record Metadata := { md_label : string; md_hint : string; md_options : list Json; md_readonly : bool }.
Definition described (label hint : string) (options : list Json) (readonly : bool) : Metadata :=
  {| md_label := label; md_hint := hint; md_options := options; md_readonly := readonly |}.

(** Texts and choices of keys both programs may have. *)
Definition common_metadata : list (string * Metadata) := [
  ("settings.command_retry_count", described "命令最大下发次数（含首次）" "3 表示最多发送 3 次，不是额外重试 3 次。收到有效 ACK 后立即停止。保存后重启生效。" ([]) false);
  ("settings.command_interval_ms", described "控制命令最小间隔（ms）" "0 关闭；范围 0–60000。各物理串口独立，从上一条控制事务结束到下一条首次发送；不改变普通轮询或同条命令重试。保存后重启生效。" ([]) false);
  ("settings.query_retry_count", described "轮询失败补发次数" "0 不补发；1 失败后最多补发一次。" ([JNumber (Some 0); JNumber (Some 1)]) false);
  ("settings.timeout", described "串口读取超时（ms）" "增大后设备无响应时等待更久。" ([]) false);
  ("settings.poll_interval_ms", described "轮询间隔（ms）" "不会改变命令 ACK 规则。" ([]) false);
  ("settings.parity_switch_delay_ms", described "校验位切换保护（ms）" "范围 0–100；影响串口设备时序，请按设备要求设置。" ([]) false);
  ("settings.transmit_settle_guard_ms", described "发送完成保护（ms）" "范围 0–100；线速发送完成后追加等待。" ([]) false);
  ("server.primary_ip", described "主机地址" "含原 TCP 端口；更改地址可能导致管理端断连。" ([]) false);
  ("server.secondary_ip", described "备机地址" "含原 TCP 端口。" ([]) false);
  ("server.run_on", described "运行角色" "保存后重启生效。" (JString <$> ["primary"; "secondary"]) false);
  ("server.current_run", described "运行角色" "保存后重启生效。" (JString <$> ["primary"; "secondary"]) false);
  ("serial.baud_rate", described "全局默认波特率" "各串口 CSV 中的波特率可覆盖此项；请同时核对对应 CSV。" ([]) false);
  ("serial.data_bits", described "数据位" "全局串口参数。" (JString <$> ["Five"; "Six"; "Seven"; "Eight"]) false);
  ("serial.stop_bits", described "停止位" "全局串口参数。" (JString <$> ["One"; "Two"]) false);
  ("serial.parity", described "校验位" "轮询协议的 Mark/Space 切换行为仍由协议决定。" (JString <$> ["None"; "Odd"; "Even"; "Mark"; "Space"]) false);
  ("serial.flow_control", described "流控（预留，未生效）" "程序目前未使用此字段，不将它显示为可生效参数。" ([]) true);
  ("calculation.mode", described "计算执行位置" "local 下级计算；manager 由管理端计算。需重启。" (JString <$> ["local"; "manager"]) false);
  ("logging.level", described "日志等级" "修改文件后需重启生效；模块级过滤表达式可在原文中编辑。" (JString <$> ["error"; "warn"; "info"; "debug"; "trace"]) false);
  ("logging.rotate_age", described "日志按时间轮转" "与大小轮转条件共同生效。" (JString <$> ["day"; "hour"; "minute"; "second"; "none"]) false);
  ("logging.write_mode", described "日志写入方式" "direct 直接写；buffer_and_flush 缓冲并刷新。" (JString <$> ["direct"; "buffer_dont_flush"; "buffer_and_flush"]) false);
  ("logging.directory", described "日志目录" "相对路径按下级可执行文件目录解析，不是管理端目录。" ([]) false);
  ("logging.basename", described "日志文件名前缀" "只能为单个文件名，不含目录。" ([]) false);
  ("logging.keep_files", described "日志保留文件数" "0 表示不自动清理，请关注磁盘空间。" ([]) false);
  ("logging.rotate_size_bytes", described "日志轮转大小（字节）" "正整数；未配置时仅按时间轮转。" ([]) false);
  ("logging.serial_frame_logs", described "记录串口原始帧" "会显著增加日志量。保存后重启生效。" ([]) false);
  ("logging.opcua_transport_errors", described "记录 OPC 传输错误" "用于排查客户端断连。" ([]) false);
  ("opc.bind_ip", described "OPC 监听地址" "修改可能使管理端无法再连接，请核对访问地址。" ([]) false);
  ("opc.advertised_host", described "OPC 广告主机地址" "填写客户端可访问的主机名或 IPv4 地址，不带协议和端口。" ([]) false);
  ("opc.port", described "OPC 服务端口" "1–65535；不能与已有程序占用相同端口。" ([]) false)
].

(** Texts and choices of the last part of a key of the forwarding process. *)
Definition communicate_metadata : list (string * Metadata) := [
  ("enabled", described "启用" "尚未实现的协议不能启用；保存时由下级再次校验。" ([]) false);
  ("device", described "串口设备路径" "请使用该来源机器的设备路径，勿与其它程序争用串口。" ([]) false);
  ("baud_rate", described "波特率" "范围 300–4000000。" ([]) false);
  ("parity", described "校验位" "" (JString <$> ["none"; "even"; "odd"]) false);
  ("data_bits", described "数据位" "" ([JNumber (Some 5); JNumber (Some 6); JNumber (Some 7); JNumber (Some 8)]) false);
  ("stop_bits", described "停止位" "" ([JNumber (Some 1); JNumber (Some 2)]) false);
  ("first_byte_timeout_ms", described "首字节超时（ms）" "1–60000。" ([]) false);
  ("frame_timeout_ms", described "完整帧超时（ms）" "不得小于首字节超时。" ([]) false);
  ("write_timeout_ms", described "发送超时（ms）" "1–60000。" ([]) false);
  ("late_frame_guard_ms", described "迟到帧隔离（ms）" "1–60000；不把旧响应计入下一次采集。" ([]) false);
  ("interval_ms", described "任务轮询间隔（ms）" "10–3600000；查询型任务生效，机组同步使用独立发送周期。" ([]) false);
  ("reconnect_min_ms", described "重连最短间隔（ms）" "不小于 100。" ([]) false);
  ("reconnect_max_ms", described "重连最长间隔（ms）" "不超过 60000，且不小于最短间隔。" ([]) false);
  ("max_frame_bytes", described "最大帧字节数" "18–65535。" ([]) false);
  ("max_payload_bytes", described "最大载荷字节数" "1–65535。" ([]) false);
  ("protocol", described "协议适配器" "同步协议按对方发送方向选择；不能把数据同步当作查询。" (JString <$> ["pending"; "unit1-to9-v1"; "unit9-to1-v1"]) false);
  ("transmit_protocol", described "本方发送布局" "须与接收方向相反。" (JString <$> ["unit1-to9-v1"; "unit9-to1-v1"]) false);
  ("transmit_enabled", described "启用周期同步发送" "没有有效本方快照时不发送，不使用样例代替现场值。" ([]) false);
  ("send_interval_ms", described "同步发送周期（ms）" "文档示例5秒；不补发积压周期。" ([]) false);
  ("initial_delay_ms", described "启动错峰延时（ms）" "双方应错开配置，且小于发送周期。" ([]) false);
  ("idle_gap_ms", described "发送前静默间隔（ms）" "接收中让路，串口持续有数据时不强行发送。" ([]) false);
  ("receive_timeout_ms", described "对方数据过期时间（ms）" "超时将接收点清零并标记通信中断。" ([]) false);
  ("snapshot_max_age_ms", described "OPC输入超时（ms）" "默认15000；任一必需输入超时停止发送，须大于刷新间隔。" ([]) false);
  ("input_refresh_interval_ms", described "OPC客户端刷新间隔（ms）" "默认5000；客户端须按此周期刷新全部发送输入，变化立即写入；不会自动配置外部客户端。" ([]) false)
].

Definition assoc {A} (k : string) (l : list (string * A)) : option A := snd <$> head (filter (fun e => e.1 = k) l).
(** [key.rsplit('.').next()]. *)
Definition leaf_name (key : string) : string :=
  match split_at_char "." (rev (chars key)) with Some (back, _) => text (rev back) | None => key end.

Definition metadata (profile : Profile) (key : string) : Metadata :=
  match assoc key common_metadata with
  | Some md => md
  | None =>
      if bool_decide (key ∈ ["schema_version"; "instance_id"; "points_file"] /\ profile = CommunicateForm)
      then described key "实例身份和配置文件绑定不允许远程更换。" [] true
      else if bool_decide (profile = CommunicateForm) then
        default (described key "保存后重启生效；网络参数变化可能使当前连接中断。" [] false) (assoc (leaf_name key) communicate_metadata)
      else described key "保存后重启生效；完整校验以下级返回为准。" [] false
  end.

Definition segment_text (s : Segment) : string := match s with Key k => k | Index i => pretty (S i) end.
Definition path_key (path : list Segment) : string :=
  match segment_text <$> path with [] => "" | x :: xs => foldl (fun acc y => acc +:+ "." +:+ y) x xs end.

(** Secrets are not copied into the form. *)
Definition sensitive (name : string) : bool :=
  existsb (fun word => contains (bytes_of word) (bytes_of (to_ascii_lowercase name))) ["password"; "secret"; "token"; "private_key"].

Definition shown_field (profile : Profile) (path : list Segment) (shown : string * Json) : Field :=
  let md := metadata profile (path_key path) in
  {| fd_path := path; fd_key := path_key path; fd_label := md_label md; fd_hint := md_hint md; fd_kind := shown.1; fd_value := shown.2;
     fd_options := md_options md; fd_inherited := false; fd_readonly := md_readonly md |}.
Definition inherited_field (profile : Profile) (path : list Segment) (value : Z) : Field :=
  let md := metadata profile (path_key path) in
  {| fd_path := path; fd_key := path_key path; fd_label := md_label md; fd_hint := md_hint md; fd_kind := "integer"; fd_value := JNumber (Some value);
     fd_options := md_options md; fd_inherited := true; fd_readonly := md_readonly md |}.

Definition too_deep : string := "参数嵌套过深，请使用配置原文编辑".
Definition too_many : string := "参数过多，请使用配置原文编辑".
Definition many (fields : list Field) : result string (list Field) := if (4096 <? length fields)%nat then Err too_many else Ok fields.

(** The entries of a table in order; the path grows with every level, so that
    the fuel of [fields] is never used up. *)
Fixpoint walk (fuel : nat) (profile : Profile) (table : Table) (path : list Segment) (fields : list Field) : result string (list Field) :=
  match fuel with
  | O => Err too_deep
  | S fuel =>
      if (24 <? length path)%nat then Err too_deep
      else
        foldl (fun acc entry =>
          fields ← acc;
          let path := path ++ [Key entry.1] in
          fields ← match scalar entry.2 with
                   | Some shown => Ok (if sensitive entry.1 then fields else fields ++ [shown_field profile path shown])
                   | None =>
                       match entry.2 with
                       | ITable child => walk fuel profile child path fields
                       | ITables tables =>
                           foldl (fun acc child => fields ← acc; walk fuel profile child.2 (path ++ [Index child.1]) fields) (Ok fields) (enumerate tables)
                       | IValue _ _ => Ok fields
                       end
                   end;
          many fields) (Ok fields) table
  end.

Definition acquisition_defaults : list (string * Z) :=
  [("poll_interval_ms", 1); ("command_retry_count", 3); ("command_interval_ms", 0); ("query_retry_count", 0); ("parity_switch_delay_ms", 1);
   ("transmit_settle_guard_ms", 1)].
Definition communicate_defaults : list (string * Z) := [("input_refresh_interval_ms", 5000); ("snapshot_max_age_ms", 15000)].

Definition add_default (fields : list Field) (d : string * Z) : list Field :=
  let path := [Key "settings"; Key d.1] in
  if existsb (fun f => String.eqb (fd_key f) (path_key path)) fields then fields else fields ++ [inherited_field AcquisitionForm path d.2].

Definition port_defaults (index : nat) (port : Table) : list Field :=
  match get port "synchronization" with
  | Some (ITable sync) =>
      omap (fun d => match get sync d.1 with
                     | Some _ => None
                     | None => Some (inherited_field CommunicateForm [Key "ports"; Index index; Key "synchronization"; Key d.1] d.2)
                     end) communicate_defaults
  | _ => []
  end.

Definition fields (doc : Table) (profile : Profile) : result string (list Field) :=
  fields ← walk 26 profile doc [] [];
  if negb (bool_decide (NoDup (fd_key <$> fields))) then Err "参数显示路径重名，请使用配置原文编辑"
  else
    let fields :=
      match profile with
      | AcquisitionForm => foldl add_default fields acquisition_defaults
      | CommunicateForm =>
          match get doc "ports" with
          | Some (ITables ports) => fields ++ (enumerate ports ≫= fun p => port_defaults p.1 p.2)
          | _ => fields
          end
      end in
    many fields.

(** ** Edits *)

(** [target], followed by the assignment of a value that keeps the decor of the
    value it replaces. *)
Definition decor_of (item : option Item) : Decor :=
  match item with Some (IValue d _) => d | _ => ("", "") end.
Fixpoint set_value (t : Table) (path : list Segment) (v : TomlValue) : result string Table :=
  match path with
  | [Key k] => Ok (assign t k (IValue (decor_of (get t k)) v))
  | Key k :: (Index i :: rest) =>
      match get t k with
      | None => Err "参数表不存在"
      | Some (ITables tables) =>
          child ← ok_or "参数索引无效" (tables !! i);
          child ← set_value child rest v;
          Ok (assign t k (ITables (<[i := child]> tables)))
      | Some _ => Err "参数索引无效"
      end
  | Key k :: rest =>
      match get t k with
      | None => Err "参数表不存在"
      | Some (ITable child) => child ← set_value child rest v; Ok (assign t k (ITable child))
      | Some _ => Err "参数不是表"
      end
  | _ => Err "无效参数路径"
  end.

Definition edit_value (field : Field) (value : Json) : result string TomlValue :=
  if String.eqb (fd_kind field) "integer" then
    match value with JNumber (Some n) => if in_i64 n then Ok (TInteger n) else Err "需要整数" | _ => Err "需要整数" end
  else if String.eqb (fd_kind field) "boolean" then match value with JBool b => Ok (TBoolean b) | _ => Err "需要布尔值" end
  else match value with
       | JString s => if (slen s <=? 8192) && negb (existsb (fun c => code c =? 0) (chars s)) then Ok (TString s) else Err "需要有界字符串"
       | _ => Err "需要有界字符串"
       end.

(** What the checks of one edit make of it. *)
Definition check_edit (profile : Profile) (available : list Field) (e : Edit) : result string TomlValue :=
  field ← ok_or "不支持的参数路径" (head (filter (fun f => fd_path f = ed_path e) available));
  if fd_readonly field then Err (fd_label field +:+ " 不允许修改")
  else if bool_decide (profile = AcquisitionForm) && String.eqb (fd_key field) "settings.command_interval_ms"
          && negb (match ed_value e with JNumber (Some n) => (0 <=? n) && (n <=? 60000) | _ => false end)
       then Err "控制命令最小间隔必须为 0–60000 毫秒的整数"
  else
    v ← edit_value field (ed_value e);
    if negb (bool_decide (fd_options field = [])) && negb (bool_decide (ed_value e ∈ fd_options field)) then Err (fd_label field +:+ " 选项无效")
    else Ok v.

Definition apply_edit (profile : Profile) (available : list Field) (st : list (list Segment) * Table) (e : Edit) : result string (list (list Segment) * Table) :=
  if bool_decide (ed_path e ∈ st.1) then Err "重复的参数修改"
  else
    v ← check_edit profile available e;
    doc ← set_value st.2 (ed_path e) v;
    Ok (ed_path e :: st.1, doc).

Section Prepare.
Context (parse : string -> option Table) (print : Table -> string).

Definition prepare (content : string) (edits : list Edit) (profile : Profile) : result string Form :=
  if (2 * 1024 * 1024 <? slen content) || (4096 <? length edits)%nat then Err "配置草稿超限"
  else
    doc ← ok_or "TOML 语法无效，请先在配置原文中修正" (parse content);
    available ← fields doc profile;
    '(_, doc) ← foldl (fun acc e => st ← acc; apply_edit profile available st e) (Ok ([], doc)) edits;
    fields ← fields doc profile;
    let content := match edits with [] => content | _ => print doc end in
    if 2 * 1024 * 1024 <? slen content then Err "生成的配置草稿超限，参数未保存"
    else Ok {| fm_content := content; fm_fields := fields |}.
End Prepare.

(** ** What a document holds *)

(** The values of a document, of every kind, with their paths. *)
Inductive leaf : Table -> list Segment -> Decor -> TomlValue -> Prop :=
| leaf_value t k d v : (k, IValue d v) ∈ t -> leaf t [Key k] d v
| leaf_table t k child p d v : (k, ITable child) ∈ t -> leaf child p d v -> leaf t (Key k :: p) d v
| leaf_tables t k tables i child p d v :
    (k, ITables tables) ∈ t -> tables !! i = Some child -> leaf child p d v -> leaf t (Key k :: Index i :: p) d v.

(** No table has a key twice. *)
Inductive unique_keys : Table -> Prop :=
| unique_intro t :
    NoDup t.*1 -> (forall k child, (k, ITable child) ∈ t -> unique_keys child) ->
    (forall k tables child, (k, ITables tables) ∈ t -> child ∈ tables -> unique_keys child) -> unique_keys t.

(** The values below one item. *)
Definition under (item : Item) (p : list Segment) (d : Decor) (v : TomlValue) : Prop :=
  match item with
  | IValue d0 v0 => p = [] /\ d0 = d /\ v0 = v
  | ITable child => leaf child p d v
  | ITables tables => exists i child q, p = Index i :: q /\ tables !! i = Some child /\ leaf child q d v
  end.

Lemma leaf_under t p d v : leaf t p d v <-> exists k item q, (k, item) ∈ t /\ p = Key k :: q /\ under item q d v.
Proof.
  split.
  - intros [t' k d' v' H|t' k child q d' v' H Hl|t' k tables i child q d' v' H Hi Hl].
    + by exists k, (IValue d' v'), [].
    + by exists k, (ITable child), q.
    + exists k, (ITables tables), (Index i :: q). split_and!; [done|done|]. by exists i, child, q.
  - intros (k & [d0 v0|child|tables] & q & Hin & -> & H); cbn [under] in H.
    + destruct H as (-> & -> & ->). by constructor.
    + by econstructor.
    + destruct H as (i & child & q' & -> & Hi & Hl). by econstructor.
Qed.

(** *** Keys *)

Lemma get_elem t k item : NoDup t.*1 -> get t k = Some item <-> (k, item) ∈ t.
Proof.
  intros Hnd. unfold get. induction t as [|[x old] t IH]; [split; [done|by intros ?%elem_of_nil]|]. apply NoDup_cons in Hnd as [Hx Hnd].
  rewrite filter_cons. cbn [fst]. destruct (decide (x = k)) as [->|Hne].
  - cbn. rewrite elem_of_cons. split; [intros [= ->]; by left|]. intros [[= ->]|Hin]; [done|]. destruct Hx. apply list_elem_of_fmap. by exists (k, item).
  - rewrite (IH Hnd), elem_of_cons. naive_solver.
Qed.
Lemma get_None t k : get t k = None -> k ∉ t.*1.
Proof.
  unfold get. induction t as [|[x old] t IH]; [by intros _ ?%elem_of_nil|]. rewrite filter_cons. cbn [fst]. destruct (decide (x = k)) as [->|Hne]; [done|].
  intros H [Heq|Hin]%elem_of_cons; [by cbn in Heq|by apply IH].
Qed.

Lemma elem_of_assign t k item x old : NoDup t.*1 -> (x, old) ∈ assign t k item <-> (x = k /\ old = item) \/ (x <> k /\ (x, old) ∈ t).
Proof.
  intros Hnd. induction t as [|[y i] t IH]; cbn [assign].
  - rewrite list_elem_of_singleton. split; [intros [= -> ->]; by left|]. intros [[-> ->]|[_ ?%elem_of_nil]]; done.
  - apply NoDup_cons in Hnd as [Hy Hnd]. destruct (String.eqb_spec y k) as [->|Hne]; rewrite !elem_of_cons.
    + split.
      * intros [[= -> ->]|Hin]; [by left|]. right. split; [|by right]. intros ->. apply Hy, list_elem_of_fmap. by exists (k, old).
      * intros [[-> ->]|[Hx [[= -> _]|Hin]]]; [by left|done|by right].
    + rewrite (IH Hnd). naive_solver.
Qed.
Lemma assign_keys t k item : (assign t k item).*1 = if decide (k ∈ t.*1) then t.*1 else t.*1 ++ [k].
Proof.
  induction t as [|[y i] t IH]; cbn [assign]; [done|]. destruct (String.eqb_spec y k) as [->|Hne].
  - by rewrite decide_True by (by left).
  - cbn. rewrite IH. destruct (decide (k ∈ t.*1)) as [Hk|Hk]; [by rewrite decide_True by (by right)|]. rewrite decide_False; [done|].
    intros [->|Hin]%elem_of_cons; [done|by apply Hk].
Qed.
Lemma assign_NoDup t k item : NoDup t.*1 -> NoDup (assign t k item).*1.
Proof.
  intros H. rewrite assign_keys. destruct (decide (k ∈ t.*1)); [done|]. apply NoDup_app. split_and!; [done| |apply NoDup_singleton].
  intros x Hx ->%list_elem_of_singleton. done.
Qed.

(** Values below an assigned key, and the others. *)
Lemma leaf_assign t k item q d v : NoDup t.*1 -> leaf (assign t k item) (Key k :: q) d v <-> under item q d v.
Proof.
  intros Hnd. rewrite leaf_under. split.
  - intros (x & i & q' & Hin & [= <- <-] & H). apply elem_of_assign in Hin as [[_ ->]|[Hne _]]; done.
  - intros H. exists k, item, q. split_and!; [apply elem_of_assign; [done|by left]|done|done].
Qed.
Lemma leaf_assign_other t k item p d v : NoDup t.*1 -> head p <> Some (Key k) -> leaf (assign t k item) p d v <-> leaf t p d v.
Proof.
  intros Hnd Hp. rewrite !leaf_under. split; intros (x & i & q & Hin & -> & H).
  - apply elem_of_assign in Hin as [[-> ->]|[_ Hin]]; [done| |done]. by exists x, i, q.
  - exists x, i, q. split_and!; [|done|done]. apply elem_of_assign; [done|]. right. split; [|done]. intros ->. done.
Qed.
Lemma leaf_key t k q d v : NoDup t.*1 -> leaf t (Key k :: q) d v <-> exists item, get t k = Some item /\ under item q d v.
Proof.
  intros Hnd. rewrite leaf_under. split.
  - intros (x & i & q' & Hin & [= <- <-] & H). exists i. split; [by apply get_elem|done].
  - intros (i & Hi & H). apply get_elem in Hi; [|done]. by exists k, i, q.
Qed.

(** *** One value is set *)

Record edited (path : list Segment) (v : TomlValue) (t t' : Table) : Prop := {
  es_unique : unique_keys t';
  es_there : exists d, leaf t' path d v /\ forall d0 v0, leaf t path d0 v0 -> d0 = d;
  es_same : forall p d v0, ~ path `prefix_of` p -> leaf t' p d v0 <-> leaf t p d v0;
  es_below : forall p d v0, path `prefix_of` p -> leaf t' p d v0 -> p = path /\ v0 = v
}.

Lemma unique_NoDup t : unique_keys t -> NoDup t.*1.
Proof. by intros []. Qed.
Lemma unique_get_table t k child : unique_keys t -> get t k = Some (ITable child) -> unique_keys child.
Proof. intros [t' Hnd Ht _] H%get_elem; [|done]. by eapply Ht. Qed.
Lemma unique_get_tables t k tables child : unique_keys t -> get t k = Some (ITables tables) -> child ∈ tables -> unique_keys child.
Proof. intros [t' Hnd _ Ht] H%get_elem; [|done]. by eapply Ht. Qed.
Lemma unique_assign t k item : unique_keys t -> (forall child, item = ITable child -> unique_keys child) ->
  (forall tables child, item = ITables tables -> child ∈ tables -> unique_keys child) -> unique_keys (assign t k item).
Proof.
  intros [t' Hnd H1 H2] H3 H4. constructor; [by apply assign_NoDup| |].
  - intros x child [[_ <-]|[_ Hin]]%elem_of_assign; [by apply H3|by eapply H1|done].
  - intros x tables child Hin Hc. apply elem_of_assign in Hin as [[_ <-]|[_ Hin]]; [by eapply H4|by eapply H2|done].
Qed.

Lemma prefix_Key k q p : Key k :: q `prefix_of` p <-> exists p', p = Key k :: p' /\ q `prefix_of` p'.
Proof.
  split.
  - intros [r ->]. exists (q ++ r). split; [done|]. by exists r.
  - intros (p' & -> & [r ->]). by exists r.
Qed.

(** Setting a value below a key, given what happens below the item there. *)
Lemma edited_below t k q v item item' : unique_keys t -> get t k = Some item ->
  unique_keys (assign t k item') ->
  (exists d, under item' q d v /\ forall d0 v0, under item q d0 v0 -> d0 = d) ->
  (forall p d v0, ~ q `prefix_of` p -> under item' p d v0 <-> under item p d v0) ->
  (forall p d v0, q `prefix_of` p -> under item' p d v0 -> p = q /\ v0 = v) ->
  edited (Key k :: q) v t (assign t k item').
Proof.
  intros Hu Hg Hu' (d & Hthere & Hdecor) Hsame Hbelow. pose proof (unique_NoDup t Hu) as Hnd. constructor; [done| | |].
  - exists d. split; [by apply leaf_assign|]. intros d0 v0. rewrite leaf_key by done. intros (i & Hi & H). rewrite Hg in Hi. injection Hi as <-. by eapply Hdecor.
  - intros p d1 v0 Hp. destruct (decide (head p = Some (Key k))) as [Hh|Hh]; [|by apply leaf_assign_other].
    destruct p as [|s p]; [done|]. injection Hh as ->. rewrite leaf_assign, leaf_key, Hg by done. rewrite Hsame; [naive_solver|].
    intros H. apply Hp, prefix_Key. by exists p.
  - intros p d1 v0 (p' & -> & Hq)%prefix_Key. rewrite leaf_assign by done. intros H. destruct (Hbelow p' d1 v0 Hq H) as [-> ->]. done.
Qed.

Lemma set_value_table t k k' rest v :
  set_value t (Key k :: Key k' :: rest) v =
  match get t k with
  | None => Err "参数表不存在"
  | Some (ITable child) => child ← set_value child (Key k' :: rest) v; Ok (assign t k (ITable child))
  | Some _ => Err "参数不是表"
  end.
Proof. reflexivity. Qed.

Lemma set_value_edits path t v t' : unique_keys t -> set_value t path v = Ok t' -> edited path v t t'.
Proof.
  assert (H : forall n path t t', (length path <= n)%nat -> unique_keys t -> set_value t path v = Ok t' -> edited path v t t'); [|by apply (H (length path))].
  clear path t t'. induction n as [|n IH]; intros path t t' Hn Hu H; [by destruct path; [|cbn in Hn; lia]|].
  destruct path as [|[k|i] rest]; [done| |done]. pose proof (unique_NoDup t Hu) as Hnd. cbn in Hn.
  assert (Htable : forall item, get t k = Some item -> rest <> [] -> (forall i r, rest <> Index i :: r) ->
    forall child child', item = ITable child -> set_value child rest v = Ok child' -> edited (Key k :: rest) v t (assign t k (ITable child'))).
  { intros item Hg Hr _ child child' -> Hset. destruct (IH rest child child') as [Hu' (d & Hd & Hd') Hsame Hbelow]; [lia|by eapply unique_get_table|done|].
    eapply edited_below; [done|done| |by exists d|exact Hsame|exact Hbelow]. apply unique_assign; [done|by intros ? [= <-]|done]. }
  destruct rest as [|[k'|i] rest].
  - injection H as <-. assert (Hu' : unique_keys (assign t k (IValue (decor_of (get t k)) v))) by (by apply unique_assign). constructor; [exact Hu'| | |].
    + exists (decor_of (get t k)). split; [by apply leaf_assign|]. intros d0 v0. rewrite leaf_key by done. intros (item & -> & Hi). destruct item; cbn in Hi |- *; [exact (eq_sym (proj1 (proj2 Hi)))|inversion Hi|destruct Hi as (? & ? & ? & Hx & _); discriminate Hx].
    + intros p d v0 Hp. destruct (decide (head p = Some (Key k))) as [Hh|Hh]; [|by apply leaf_assign_other].
      destruct p as [|s p]; [done|]. injection Hh as ->. destruct Hp. by exists p.
    + intros p d v0 (p' & -> & _)%prefix_Key. rewrite leaf_assign by done. by intros (-> & _ & ->).
  - rewrite set_value_table in H. destruct (get t k) as [item|] eqn:Eg; [|discriminate H]. destruct item as [|child|]; try discriminate H.
    destruct (set_value child (Key k' :: rest) v) as [child'|] eqn:Es; [|discriminate H]. injection H as <-. by eapply Htable.
  - cbn [set_value] in H. destruct (get t k) as [item|] eqn:Eg; [|discriminate H]. destruct item as [| |tables]; try discriminate H.
    destruct (tables !! i) as [child|] eqn:Ei; [|discriminate H]. cbn in H. destruct (set_value child rest v) as [child'|] eqn:Es; [|discriminate H]. injection H as <-.
    assert (Hc : child ∈ tables) by (by eapply list_elem_of_lookup_2).
    destruct (IH rest child child') as [Hu' (d & Hd & Hd') Hsame Hbelow]; [cbn in Hn; lia|by eapply unique_get_tables|done|].
    assert (Hi : (i < length tables)%nat) by (by eapply lookup_lt_Some).
    eapply edited_below; [done|done| | | |].
    + apply unique_assign; [done|done|]. intros ? c [= <-] [j Hj]%list_elem_of_lookup_1. destruct (decide (i = j)) as [<-|Hne].
      * rewrite list_lookup_insert_eq in Hj by done. injection Hj as <-. exact Hu'.
      * rewrite list_lookup_insert_ne in Hj by done. eapply unique_get_tables; [exact Hu|exact Eg|]. by eapply list_elem_of_lookup_2.
    + exists d. split.
      * exists i, child', rest. split_and!; [done|by apply list_lookup_insert_eq|done].
      * intros d0 v0 (j & c & q & [= <- <-] & Hj & Hl). rewrite Ei in Hj. injection Hj as <-. by eapply Hd'.
    + intros p d1 v0 Hp. cbn [under]. split; intros (j & c & q & -> & Hj & Hl); (exists j).
      * destruct (decide (j = i)) as [->|Hne].
        -- rewrite list_lookup_insert_eq in Hj by done. injection Hj as <-. exists child, q. split_and!; [done|done|]. apply Hsame; [|done].
           intros [r ->]. destruct Hp. by exists r.
        -- rewrite list_lookup_insert_ne in Hj by done. by exists c, q.
      * destruct (decide (j = i)) as [->|Hne].
        -- rewrite Ei in Hj. injection Hj as <-. exists child', q. rewrite list_lookup_insert_eq by done. split_and!; [done|done|]. apply Hsame; [|done].
           intros [r ->]. destruct Hp. by exists r.
        -- exists c, q. by rewrite list_lookup_insert_ne.
    + intros p d1 v0 [r ->]. cbn. intros (j & c & q & [= <- <-] & Hj & Hl). rewrite list_lookup_insert_eq in Hj by done. injection Hj as <-.
      destruct (Hbelow (rest ++ r) d1 v0) as [Hr ->]; [by exists r|done|]. split; [by rewrite Hr|done].
Qed.

(** The document around a value that is set: only the item at the path is
    another one, and a key that was not there is added at the end of its table.
    Everything else, values of every kind, tables and the order of the keys,
    is literally the same. *)
Inductive replaced : list Segment -> TomlValue -> Table -> Table -> Prop :=
| replaced_value t1 k old t2 v :
    k ∉ t1.*1 -> replaced [Key k] v (t1 ++ (k, old) :: t2) (t1 ++ (k, IValue (decor_of (Some old)) v) :: t2)
| replaced_new t k v : k ∉ t.*1 -> replaced [Key k] v t (t ++ [(k, IValue ("", "") v)])
| replaced_table t1 k child child' t2 p v :
    k ∉ t1.*1 -> replaced p v child child' ->
    replaced (Key k :: p) v (t1 ++ (k, ITable child) :: t2) (t1 ++ (k, ITable child') :: t2)
| replaced_tables t1 k before child child' after t2 p v :
    k ∉ t1.*1 -> replaced p v child child' ->
    replaced (Key k :: Index (length before) :: p) v (t1 ++ (k, ITables (before ++ child :: after)) :: t2)
      (t1 ++ (k, ITables (before ++ child' :: after)) :: t2).

Lemma get_split t k item : get t k = Some item ->
  exists t1 t2, t = t1 ++ (k, item) :: t2 /\ k ∉ t1.*1 /\ forall i, assign t k i = t1 ++ (k, i) :: t2.
Proof.
  unfold get. induction t as [|[x old] t IH]; [done|]. rewrite filter_cons. cbn [fst assign]. destruct (decide (x = k)) as [->|Hne].
  - intros [= ->]. exists [], t. split_and!; [done|apply not_elem_of_nil|]. intros i. by rewrite String.eqb_refl.
  - intros (t1 & t2 & -> & Hk & Ha)%IH. exists ((x, old) :: t1), t2. split_and!; [done|by apply not_elem_of_cons|].
    intros i. rewrite (proj2 (String.eqb_neq x k) Hne). by rewrite Ha.
Qed.
Lemma assign_new t k item : k ∉ t.*1 -> assign t k item = t ++ [(k, item)].
Proof.
  induction t as [|[x old] t IH]; [done|]. intros [Hne Hk]%not_elem_of_cons. cbn [fst] in Hne. cbn [assign app].
  rewrite (proj2 (String.eqb_neq x k)) by congruence. by rewrite IH.
Qed.

Lemma set_value_replaced path t v t' : set_value t path v = Ok t' -> replaced path v t t'.
Proof.
  assert (H : forall n path t t', (length path <= n)%nat -> set_value t path v = Ok t' -> replaced path v t t'); [|by apply (H (length path))].
  clear path t t'. induction n as [|n IH]; intros path t t' Hn H; [by destruct path; [|cbn in Hn; lia]|].
  destruct path as [|[k|i] rest]; [done| |done]. cbn in Hn. destruct rest as [|[k'|i] rest].
  - injection H as <-. destruct (get t k) as [old|] eqn:Eg.
    + apply get_split in Eg as (t1 & t2 & -> & Hk & ->). by constructor.
    + rewrite assign_new by (by apply get_None). constructor. by apply get_None.
  - rewrite set_value_table in H. destruct (get t k) as [[|child|]|] eqn:Eg; try discriminate H.
    destruct (set_value child (Key k' :: rest) v) as [child'|] eqn:Es; [|discriminate H]. injection H as <-.
    apply get_split in Eg as (t1 & t2 & -> & Hk & ->). constructor; [done|]. apply IH; [lia|done].
  - cbn [set_value] in H. destruct (get t k) as [[| |tables]|] eqn:Eg; try discriminate H.
    destruct (tables !! i) as [child|] eqn:Ei; [|discriminate H]. cbn in H.
    destruct (set_value child rest v) as [child'|] eqn:Es; [|discriminate H]. injection H as <-.
    apply get_split in Eg as (t1 & t2 & -> & Hk & ->). apply list_elem_of_split_length in Ei as (before & after & -> & ->).
    rewrite insert_app_r_alt, Nat.sub_diag by done. simpl. constructor; [done|]. apply IH; [cbn in Hn; lia|done].
Qed.

(** The edits in their order. *)
Inductive rewritten : Table -> list Edit -> Table -> Prop :=
| rewritten_nil t : rewritten t [] t
| rewritten_cons t e kind v t1 es t' :
    scalar_of v = Some (kind, ed_value e) -> replaced (ed_path e) v t t1 -> rewritten t1 es t' -> rewritten t (e :: es) t'.

(** *** The fields are the values *)

Lemma foldl_Err {A} (step : list Field -> A -> result string (list Field)) l e :
  foldl (fun acc x => a ← acc; step a x) (Err e) l = Err e.
Proof. by induction l. Qed.

Lemma foldl_adds {A} (step : list Field -> A -> result string (list Field)) (adds : A -> Field -> Prop) l fs0 fs :
  (forall x a a', x ∈ l -> step a x = Ok a' -> forall f, f ∈ a' <-> f ∈ a \/ adds x f) ->
  foldl (fun acc x => a ← acc; step a x) (Ok fs0) l = Ok fs -> forall f, f ∈ fs <-> f ∈ fs0 \/ exists x, x ∈ l /\ adds x f.
Proof.
  revert fs0. induction l as [|x l IH]; intros fs0 Hstep H f; cbn [foldl] in H.
  - injection H as <-. split; [by left|]. intros [|(x & ?%elem_of_nil & _)]; done.
  - change (mbind (fun a => step a x) (Ok fs0)) with (step fs0 x) in H. destruct (step fs0 x) as [a|e] eqn:Es; [|by rewrite foldl_Err in H].
    rewrite (IH a); [|intros y b b' Hy; apply Hstep; by right|exact H]. rewrite (Hstep x fs0 a ltac:(by left) Es).
    setoid_rewrite elem_of_cons. naive_solver.
Qed.

(** The last key of a path names no secret. *)
Definition harmless (p : list Segment) : Prop := forall k, last p = Some (Key k) -> sensitive k = false.

Lemma many_Ok l l' : many l = Ok l' -> l' = l.
Proof. unfold many. destruct (_ <? _)%nat; [done|]. by intros [= ->]. Qed.

Lemma harmless_cons s p : p <> [] -> harmless (s :: p) <-> harmless p.
Proof. intros Hp. unfold harmless. destruct p; [done|]. done. Qed.
Lemma leaf_nonempty t p d v : leaf t p d v -> p <> [].
Proof. by intros []. Qed.

Lemma walk_fields profile fuel t path fs0 fs : walk fuel profile t path fs0 = Ok fs ->
  forall f, f ∈ fs <-> f ∈ fs0 \/ exists p d v x, leaf t p d v /\ scalar_of v = Some x /\ harmless p /\ f = shown_field profile (path ++ p) x.
Proof.
  revert t path fs0 fs. induction fuel as [|fuel IH]; intros t path fs0 fs H; [done|]. cbn [walk] in H. destruct (24 <? length path)%nat; [done|].
  set (adds := fun (entry : string * Item) f => exists q d v x,
    under entry.2 q d v /\ scalar_of v = Some x /\ harmless (Key entry.1 :: q) /\ f = shown_field profile (path ++ Key entry.1 :: q) x).
  intros f. etrans; [refine (foldl_adds _ adds t fs0 fs _ H f)|].
  2: { apply or_iff_compat_l. split.
    + intros ([k item] & Hin & q & d & v & x & Hu & Hx & Hh & ->). exists (Key k :: q), d, v, x. split_and!; [|done..]. apply leaf_under. by exists k, item, q.
    + intros (p & d & v & x & (k & item & q & Hin & -> & Hu)%leaf_under & Hx & Hh & ->). exists (k, item). split; [done|]. by exists q, d, v, x. }
  - clear H. intros [k item] a a' _ H g. cbn [fst snd] in H. unfold adds. cbn [fst snd]. destruct item as [d v|child|tables]; cbn [under scalar] in *.
    + destruct (scalar_of v) as [x|] eqn:Ev.
      * cbn [mbind result_bind] in H. apply many_Ok in H as ->. destruct (sensitive k) eqn:Es.
        -- split; [by left|]. intros [|(q & d0 & v0 & y & (-> & _) & _ & Hh & _)]; [done|]. specialize (Hh k eq_refl). congruence.
        -- rewrite elem_of_app, list_elem_of_singleton. apply or_iff_compat_l. split.
           ++ intros ->. exists [], d, v, x. split_and!; [done|done|done|done| |done]. by intros k' [= <-].
           ++ intros (q & d0 & v0 & y & (-> & -> & ->) & Hy & _ & ->). rewrite Ev in Hy. by injection Hy as <-.
      * cbn [mbind result_bind] in H. apply many_Ok in H as ->. split; [by left|]. intros [|(q & d0 & v0 & y & (-> & -> & ->) & Hy & _)]; [done|congruence].
    + destruct (walk fuel profile child (path ++ [Key k]) a) as [b|] eqn:Ew; [|discriminate H]. cbn [mbind result_bind] in H. apply many_Ok in H as ->.
      rewrite (IH _ _ _ _ Ew g). apply or_iff_compat_l. split; intros (q & d & v & x & Hl & Hx & Hh & ->); exists q, d, v, x; pose proof (leaf_nonempty _ _ _ _ Hl) as Hq;
        rewrite harmless_cons in * by done; rewrite <- app_assoc; done.
    + destruct (foldl _ (Ok a) (enumerate tables)) as [b|] eqn:Ew; [|discriminate H]. cbn [mbind result_bind] in H. apply many_Ok in H as ->.
      rewrite (foldl_adds (fun fields child => walk fuel profile child.2 ((path ++ [Key k]) ++ [Index child.1]) fields)
        (fun child g => exists q d v x, leaf child.2 q d v /\ scalar_of v = Some x /\ harmless q /\ g = shown_field profile (((path ++ [Key k]) ++ [Index child.1]) ++ q) x) _ _ _ ltac:(intros c x y _ Hc; by apply IH) Ew).
      apply or_iff_compat_l. split.
      * intros ([i child] & Hi%elem_of_enumerate & q & d & v & x & Hl & Hx & Hh & ->). cbn [fst snd] in *. exists (Index i :: q), d, v, x. split_and!; [by exists i, child, q|done| |by rewrite <- !app_assoc].
        pose proof (leaf_nonempty _ _ _ _ Hl). by rewrite !harmless_cons.
      * intros (q0 & d & v & x & (i & child & q & -> & Hi & Hl) & Hx & Hh & ->). exists (i, child). split; [by apply elem_of_enumerate|]. exists q, d, v, x.
        pose proof (leaf_nonempty _ _ _ _ Hl). rewrite !harmless_cons in Hh by done. cbn [fst snd]. rewrite <- !app_assoc. done.
Qed.

Lemma add_default_spec l d f : f ∈ add_default l d -> f ∈ l \/ fd_inherited f = true /\ fd_kind f = "integer".
Proof. unfold add_default. destruct (existsb _ l); [by left|]. rewrite elem_of_app, list_elem_of_singleton. intros [?| ->]; [by left|by right]. Qed.
Lemma add_default_keeps l d f : f ∈ l -> f ∈ add_default l d.
Proof. intros H. unfold add_default. destruct (existsb _ l); [done|]. apply elem_of_app. by left. Qed.

(** What the form shows of a document. *)
Definition shows (doc : Table) (profile : Profile) (f : Field) : Prop :=
  exists p d v x, leaf doc p d v /\ scalar_of v = Some x /\ harmless p /\ f = shown_field profile p x.

(** The fields that are not inherited are the values of the document. *)
Lemma fields_shown doc profile fs : fields doc profile = Ok fs ->
  (forall f, f ∈ fs -> fd_inherited f = true /\ fd_kind f = "integer" \/ shows doc profile f) /\
  (forall f, shows doc profile f -> f ∈ fs).
Proof.
  unfold fields. destruct (walk 26 profile doc [] []) as [ws|] eqn:Ew; [|done]. cbn [mbind result_bind]. destruct (negb _); [done|].
  intros H%many_Ok. subst fs. pose proof (walk_fields _ _ _ _ _ _ Ew) as Hw. cbn [app] in Hw.
  assert (Hfrom : forall f, f ∈ ws -> shows doc profile f) by (intros f [?%elem_of_nil|]%Hw; done).
  assert (Hto : forall f, shows doc profile f -> f ∈ ws) by (intros f ?; apply Hw; by right).
  destruct profile.
  - assert (Hadd : forall l ws, (forall f, f ∈ foldl add_default ws l -> f ∈ ws \/ fd_inherited f = true /\ fd_kind f = "integer") /\ (forall f, f ∈ ws -> f ∈ foldl add_default ws l)).
    { induction l as [|d l IH]; intros ws0; cbn [foldl]; [split; by auto|]. destruct (IH (add_default ws0 d)) as [H1 H2]. split.
      - intros f [H%add_default_spec|H]%H1; [done|by right].
      - intros f H. by apply H2, add_default_keeps. }
    destruct (Hadd acquisition_defaults ws) as [H1 H2]. split; [intros f [H|H]%H1; [right; by apply Hfrom|by left]|]. intros f Hf. by apply H2, Hto.
  - destruct (get doc "ports") as [[| |ports]|]; try (split; [intros f H; right; by apply Hfrom|exact Hto]). split.
    + intros f [H|H]%elem_of_app; [right; by apply Hfrom|]. left. apply list_elem_of_bind in H as ([i port] & H & _). unfold port_defaults in H. cbn [fst snd] in H.
      destruct (get port "synchronization") as [[|sync|]|]; try (by apply elem_of_nil in H). apply list_elem_of_omap in H as (d & _ & Hd). by destruct (get sync d.1); [|injection Hd as <-].
    + intros f Hf. apply elem_of_app. left. by apply Hto.
Qed.

Lemma fields_kind doc profile fs f : fields doc profile = Ok fs -> f ∈ fs -> fd_kind f ∈ ["integer"; "boolean"; "string"].
Proof. intros H Hf. destruct (proj1 (fields_shown _ _ _ H) f Hf) as [[_ ->]|(p & d & v & x & _ & Hx & _ & ->)]; [set_solver|].
  destruct v; simplify_eq/=; set_solver. Qed.

(** *** Accepted edits *)

(** An edit of a field that may be changed, with a value of its kind and among
    its choices. *)
Definition allowed_edit (available : list Field) (e : Edit) (v : TomlValue) : Prop :=
  exists field, field ∈ available /\ fd_path field = ed_path e /\ fd_readonly field = false /\ scalar_of v = Some (fd_kind field, ed_value e) /\ (fd_options field = [] \/ ed_value e ∈ fd_options field).

Lemma check_edit_allowed doc profile available e v : fields doc profile = Ok available -> check_edit profile available e = Ok v -> allowed_edit available e v.
Proof.
  intros Hav. unfold check_edit. destruct (head _) as [field|] eqn:Eh; [|done]. cbn [ok_or mbind result_bind].
  apply head_Some_elem_of, list_elem_of_filter in Eh as [Hp Hin]. destruct (fd_readonly field) eqn:Er; [done|]. destruct (_ && _ && _)%bool; [done|].
  destruct (edit_value field (ed_value e)) as [v'|] eqn:Ev; [|done]. cbn [mbind result_bind].
  destruct (negb (bool_decide (fd_options field = [])) && negb (bool_decide (ed_value e ∈ fd_options field)))%bool eqn:Eo; [done|]. intros [= ->].
  pose proof (fields_kind _ _ _ _ Hav Hin) as Hkind. exists field. split_and!; [done|done|done| |].
  - unfold edit_value in Ev. apply elem_of_cons in Hkind as [Hk|[Hk|Hk%list_elem_of_singleton]%elem_of_cons]; rewrite Hk in Ev |- *; cbn in Ev; by repeat case_match; simplify_eq.
  - apply andb_false_iff in Eo as [H|H]; apply negb_false_iff, bool_decide_eq_true in H; [by left|by right].
Qed.

Lemma apply_Err profile available l e : foldl (fun acc e => st ← acc; apply_edit profile available st e) (Err e) l = Err e.
Proof. by induction l. Qed.

Lemma apply_edits doc0 profile available edits seen doc seen' doc' : fields doc0 profile = Ok available -> unique_keys doc ->
  foldl (fun acc e => st ← acc; apply_edit profile available st e) (Ok (seen, doc)) edits = Ok (seen', doc') ->
  unique_keys doc' /\ rewritten doc edits doc' /\ NoDup (ed_path <$> edits) /\ (forall e, e ∈ edits -> ed_path e ∉ seen) /\ (forall e, e ∈ edits -> exists v, allowed_edit available e v) /\
  (forall p d v, (forall e, e ∈ edits -> ~ ed_path e `prefix_of` p) -> leaf doc' p d v <-> leaf doc p d v) /\
  (forall e, e ∈ edits -> (forall e', e' ∈ edits -> ed_path e' <> ed_path e -> ~ ed_path e' `prefix_of` ed_path e) ->
    exists d v, leaf doc' (ed_path e) d v /\ snd <$> scalar_of v = Some (ed_value e) /\ forall d0 v0, leaf doc (ed_path e) d0 v0 -> d0 = d) /\
  (forall p d v, leaf doc' p d v -> (exists e, e ∈ edits /\ ed_path e = p) \/ leaf doc p d v).
Proof.
  intros Hav. revert seen doc. induction edits as [|e edits IH]; intros seen doc Hu H.
  { injection H as <- <-. split_and!; [done|constructor|constructor|by intros e ?%elem_of_nil|by intros e ?%elem_of_nil|done|by intros e ?%elem_of_nil|by right]. }
  cbn [foldl] in H. change (mbind _ (Ok (seen, doc))) with (apply_edit profile available (seen, doc) e) in H.
  destruct (apply_edit profile available (seen, doc) e) as [[seen1 doc1]|] eqn:Ea; [|by rewrite apply_Err in H].
  unfold apply_edit in Ea. cbn [fst snd] in Ea. case_bool_decide as Hseen; [done|]. destruct (check_edit profile available e) as [v|] eqn:Ec; [|done].
  cbn [mbind result_bind] in Ea. destruct (set_value doc (ed_path e) v) as [d1|] eqn:Es; [|done]. injection Ea as <- <-.
  destruct (set_value_edits _ _ _ _ Hu Es) as [Hu1 (d & Hd & Hdecor) Hsame Hbelow]. destruct (IH _ _ Hu1 H) as (H1 & Hrw & H2 & H3 & H4 & H5 & H6 & H7).
  assert (Hnew : ed_path e ∉ ed_path <$> edits).
  { intros (e' & He' & Hin)%list_elem_of_fmap. apply (H3 e' Hin). rewrite <- He'. by left. }
  pose proof (check_edit_allowed _ _ _ _ _ Hav Ec) as Hallowed. split_and!; [done| | | | | | |].
  - destruct Hallowed as (f & _ & _ & _ & Hv & _). econstructor; [exact Hv|by apply set_value_replaced|done].
  - by apply NoDup_cons.
  - intros e' [->|He']%elem_of_cons; [done|]. intros Hin. apply (H3 e' He'). by right.
  - intros e' [->|He']%elem_of_cons; [by exists v|by apply H4].
  - intros p d0 v0 Hp. rewrite H5 by (intros e' He'; apply Hp; by right). apply Hsame, Hp. by left.
  - intros e' [->|He']%elem_of_cons Hfree.
    + exists d, v. split_and!; [|by destruct Hallowed as (f & _ & _ & _ & -> & _)|done]. apply H5; [|done]. intros e' He'. apply Hfree; [by right|].
      intros Heq. apply Hnew. rewrite <- Heq. apply list_elem_of_fmap. by exists e'.
    + destruct (H6 e' He') as (d0 & v0 & Hl & Hj & Hd0). { intros e'' He''. apply Hfree. by right. }
      exists d0, v0. split_and!; [done|done|]. intros d2 v2 Hl2. eapply Hd0. apply Hsame; [|exact Hl2]. apply Hfree; [by left|].
      intros Heq. apply Hnew. rewrite Heq. apply list_elem_of_fmap. by exists e'.
  - intros p d0 v0 [(e' & ? & ?)|Hl]%H7; [left; exists e'; split; [by right|done]|]. destruct (decide (ed_path e `prefix_of` p)) as [Hpre|Hpre].
    + left. exists e. split; [by left|]. by destruct (Hbelow p d0 v0 Hpre Hl) as [-> _].
    + right. by apply Hsame.
Qed.

Lemma prepare_Ok parse print content edits profile form : prepare parse print content edits profile = Ok form ->
  exists doc available seen doc',
    parse content = Some doc /\ fields doc profile = Ok available /\
    foldl (fun acc e => st ← acc; apply_edit profile available st e) (Ok ([], doc)) edits = Ok (seen, doc') /\
    fields doc' profile = Ok (fm_fields form) /\ fm_content form = match edits with [] => content | _ => print doc' end.
Proof.
  unfold prepare. destruct (_ || _)%bool; [discriminate|]. intros (doc & Hdoc%ok_or_Ok & H)%bind_Ok. apply bind_Ok in H as (available & Hav & H).
  apply bind_Ok in H as ([seen doc'] & Hfold & H). apply bind_Ok in H as (shown & Hshown & H). exists doc, available, seen, doc'.
  revert H. generalize (2 * 1024 * 1024). intros limit. destruct (limit <? _); [discriminate|]. intros [= <-]. split_and!; [exact Hdoc|exact Hav|exact Hfold|exact Hshown|reflexivity].
Qed.

(** C38: a form edits exactly what it is asked to.  When [prepare] accepts edits
    of a document whose tables have no key twice: (1) without edits the text is
    returned as it is, otherwise it is the printed new document; (2) all edits are of
    different fields the form showed, none of them read-only, each with a value of
    the field's kind and among its choices; (3) the new document is the old one
    with, edit by edit, the item at the path replaced by the new value (or a new
    key at the end of its table): nothing else changes, whatever its kind and
    its place; (4) so a value of any kind at a path that no edit reaches is
    unchanged, with the text around it, and the new document has no value that
    is neither old nor edited; (5) an edited path holds the new value, and keeps
    the text around the old one; and (6) the form shows exactly the integers,
    booleans and strings of the new document, except those whose key names a
    secret. What an edited path held before is gone, also when it was a table. *)
Theorem config_form_edits_exactly parse print content edits profile form :
  (forall doc, parse content = Some doc -> unique_keys doc) ->
  prepare parse print content edits profile = Ok form ->
  exists doc available doc',
    parse content = Some doc /\ fields doc profile = Ok available /\
    fm_content form = match edits with [] => content | _ => print doc' end /\
    (NoDup (ed_path <$> edits) /\ forall e, e ∈ edits -> exists v, allowed_edit available e v) /\
    rewritten doc edits doc' /\
    (forall p d v, (forall e, e ∈ edits -> ~ ed_path e `prefix_of` p) -> leaf doc' p d v <-> leaf doc p d v) /\
    (forall p d v, leaf doc' p d v -> (exists e, e ∈ edits /\ ed_path e = p) \/ leaf doc p d v) /\
    (forall e, e ∈ edits -> (forall e', e' ∈ edits -> ed_path e' <> ed_path e -> ~ ed_path e' `prefix_of` ed_path e) ->
      exists d v, leaf doc' (ed_path e) d v /\ snd <$> scalar_of v = Some (ed_value e) /\ forall d0 v0, leaf doc (ed_path e) d0 v0 -> d0 = d) /\
    (forall f, f ∈ fm_fields form /\ fd_inherited f = false <-> shows doc' profile f).
Proof.
  intros Hparse (doc & available & seen' & doc' & Hdoc & Hav & Hfold & Hshown & Hcontent)%prepare_Ok.
  destruct (apply_edits doc profile available edits [] doc seen' doc' Hav (Hparse doc Hdoc) Hfold) as (_ & Hrw & H2 & _ & H4 & H5 & H6 & H7).
  exists doc, available, doc'. split_and!; [exact Hdoc|exact Hav|exact Hcontent|exact H2|exact H4|exact Hrw|exact H5|exact H7|exact H6|]. intros f.
  destruct (fields_shown _ _ _ Hshown) as [Hfrom Hto]. split.
  - intros [Hf Hi]. destruct (Hfrom f Hf) as [[Ht _]|H]; [congruence|exact H].
  - intros Hf. split; [by apply Hto|]. by destruct Hf as (p & d & v & x & _ & _ & _ & ->).
Qed.

(** ** Witness *)

(** A document with comments; the texts stand for themselves. *)
Definition sample_form_doc : Table :=
  [("settings", ITable [("timeout", IValue (" ", " # keep") (TInteger 50)); ("auth_token", IValue ("", "") (TString "x"));
                       ("ratio", IValue (" ", " # r") (TOther "1.5"))]);
   ("ports", ITables [[("parity", IValue ("", " # A") (TString "even"))]; [("parity", IValue ("", " # B") (TString "odd"))]])].
Definition sample_edits : list Edit :=
  [{| ed_path := [Key "settings"; Key "command_interval_ms"]; ed_value := JNumber (Some 500) |};
   {| ed_path := [Key "ports"; Index 1; Key "parity"]; ed_value := JString "none" |}].
Definition sample_prepare (edits : list Edit) : result string Form := prepare (fun _ => Some sample_form_doc) (fun _ => "printed") "text" edits AcquisitionForm.

Lemma sample_form_unique : unique_keys sample_form_doc.
Proof.
  assert (Hleaf : forall k d v, unique_keys [(k, IValue d v)]).
  { intros k d v. constructor; [apply NoDup_singleton|by intros ? ? [= ]%list_elem_of_singleton|by intros ? ? ? [= ]%list_elem_of_singleton]. }
  constructor; [by apply (bool_decide_unpack _)| |].
  - intros k child Hin. unfold sample_form_doc in Hin. rewrite !elem_of_cons in Hin. destruct Hin as [[= -> ->]|[[=]|?%elem_of_nil]]; [|done].
    constructor; [by apply (bool_decide_unpack _)| |]; intros ? ?; rewrite ?elem_of_cons; [|intros ?; rewrite ?elem_of_cons]; by intros [[=]|[[=]|[[=]|?%elem_of_nil]]].
  - intros k tables child Hin Hc. unfold sample_form_doc in Hin. rewrite !elem_of_cons in Hin. destruct Hin as [[=]|[[= -> ->]|?%elem_of_nil]]; [|done].
    rewrite !elem_of_cons in Hc. destruct Hc as [->|[->|?%elem_of_nil]]; [apply Hleaf|apply Hleaf|done].
Qed.

Lemma config_form_edits_exactly_witness :
  (is_ok (sample_prepare sample_edits) = true /\
   (fun form => (fun f => (fd_key f, fd_value f)) <$> filter (fun f => fd_inherited f = false) (fm_fields form)) <$> sample_prepare sample_edits
   = Ok [("settings.timeout", JNumber (Some 50)); ("settings.command_interval_ms", JNumber (Some 500)); ("ports.1.parity", JString "even");
         ("ports.2.parity", JString "none")]) /\
  exists form, sample_prepare sample_edits = Ok form /\
    exists doc available doc', fields doc AcquisitionForm = Ok available /\ rewritten doc sample_edits doc' /\
      forall p d v, (forall e, e ∈ sample_edits -> ~ ed_path e `prefix_of` p) -> leaf doc' p d v <-> leaf doc p d v.
Proof.
  split; [vm_compute; done|]. destruct (sample_prepare sample_edits) as [form|] eqn:Ef; [|vm_compute in Ef; discriminate Ef]. exists form. split; [reflexivity|].
  destruct (config_form_edits_exactly (fun _ => Some sample_form_doc) (fun _ => "printed") "text" sample_edits AcquisitionForm form) as (doc & available & doc' & _ & H2 & _ & _ & Hrw & H5 & _).
  - intros doc [= <-]. exact sample_form_unique.
  - exact Ef.
  - exists doc, available, doc'. split; [exact H2|split; [exact Hrw|exact H5]].
Defined.

(** Edits that are refused: a path the form does not show, a read-only one, a
    wrong kind, an interval out of range. *)
Example refused_edits :
  (fun e => is_ok (prepare (fun _ => Some [("instance_id", IValue ("", "") (TString "x")); ("port", IValue ("", "") (TInteger 42))]) (fun _ => "") "" [e] CommunicateForm)) <$>
    [{| ed_path := [Key "instance_id"]; ed_value := JString "other" |}; {| ed_path := [Key "unknown"]; ed_value := JNumber (Some 1) |};
     {| ed_path := [Key "port"]; ed_value := JString "wrong" |}; {| ed_path := [Key "port"]; ed_value := JNumber (Some 43) |}] = [false; false; false; true] /\
  is_ok (sample_prepare [{| ed_path := [Key "settings"; Key "command_interval_ms"]; ed_value := JNumber (Some 60001) |}]) = false.
Proof. vm_compute. done. Qed.

(** An inherited value is offered for editing although the document has a table
    (or a float) under that key, and the edit replaces the table. *)
Definition table_under_default : Table :=
  [("settings", ITable [("poll_interval_ms", ITable [("kept", IValue ("", "") (TInteger 7))])])].
Definition default_edit : Edit :=
  {| ed_path := [Key "settings"; Key "poll_interval_ms"]; ed_value := JNumber (Some 2) |}.
Example inherited_edit_replaces_table :
  (available ← fields table_under_default AcquisitionForm;
   st ← apply_edit AcquisitionForm available ([], table_under_default) default_edit;
   Ok st.2) = Ok [("settings", ITable [("poll_interval_ms", IValue ("", "") (TInteger 2))])].
Proof. vm_compute. done. Qed.
